(* ===== verification/_CoqProject ===== *)
-Q . S2P
Prelude.v
Cap.v
Ipc.v
IpcProps.v
IpcLaws.v
Sched.v
SchedProps.v
SchedLaws.v
SchedFair.v
IdAlloc.v
Timer.v
TimerProps.v
Sync.v
PageTable.v
PageTableProps.v
PageTableLaws.v
PageTableSafety.v
AddressSpace.v
AddressSpaceProps.v
AddressSpaceLaws.v
Smp.v
Tlb.v
Task.v
VmoPool.v
VmoProps.v
Kernel.v
SysTask.v
SysCaps.v
SysIpc.v
SysSync.v
SysVmo.v
Exec.v
Syscall.v
SysLogic.v
HandlerLaws.v
HandlerAll.v
Authority.v
CapMove.v
VmoAccess.v
ExecProps.v
Runnable.v
WaitProps.v
Bytes.v
Storage.v
BlockProto.v
Gpt.v
Statefs.v
StatefsProps.v
StatefsDurable.v
StatefsCrash.v
StatefsProto.v
Statefsd.v
NxfsFormat.v
NxfsJournal.v
NxfsJournalProps.v
NxfsState.v
NxfsStateProps.v
NxfsTree.v
NxfsCheckpoint.v
NxfsDev.v
Nxfs.v
NxfsLog.v
NxfsInv.v
NxfsEngine.v
NxfsFiles.v
NxfsRefine.v
NxfsTheorems.v
NxfsCrash.v
Wire.v
SystemSet.v
UpdateService.v
Logd.v
VfsTypes.v
Nxfsd.v
Vfsd.v
PolicyService.v
Mux.v
ReqRep.v
Metricsd.v
