(* ===== verification/Prelude.v ===== *)
(** * Verification of Open Nexus OS: the NEURON microkernel, its storage stack and core services

    ** The program

    Open Nexus OS is a capability microkernel for RISC-V with a userspace of
    small services that talk over kernel IPC.

    - NEURON ([source/kernel/neuron/src]) runs on up to four harts.  A system
      call is dispatched by number ([syscall/mod.rs]) to a handler of
      [syscall/api/], which works on one [Context]: the task table, the
      scheduler, the IPC router, the address spaces, timers, waitsets and
      fences, and, through statics, the SMP state and the user VMO arena.  The
      big kernel lock makes a handler one atomic step; what runs outside it (TLB
      shootdown, reschedule requests, idle zeroing, the copy phases of VMO
      creation and of exec) is modelled with its interleavings or as a separate
      phase.
    - Storage: block devices and partitions ([userspace/storage/src]), the
      key-value journal statefs ([userspace/statefs/src]) with its service
      statefsd, and the user-data filesystem nxfs ([userspace/nxfs/src]).
    - The file service: vfsd ([source/services/vfsd/src]) routes requests of
      clients to the nxfs store ([source/services/nxfsd/src]) or to packagefsd,
      in the codecs of [userspace/vfs-types/src].
    - The frames of the other services ([source/libs/nexus-wire/src]).
    - Updates: signed archives and the A/B slot machine
      ([userspace/updates/src]), the service updated, and what bundlemgrd and
      init make of its answers.
    - The log service logd ([source/services/logd/src]) and the metrics service
      metricsd ([source/services/metricsd/src], [userspace/nexus-metrics/src]),
      which keeps its history in the state service.
    - The policy daemon policyd ([source/services/policyd/src]), which the
      enforcement points (statefsd and others) ask through the client of
      [userspace/nexus-ipc/src], with the table lookup of
      [source/libs/nexus-sel] and the guardrail profiles of
      [source/libs/nexus-abi/src/abi_filter.rs].
    - Shared libraries of the services: reply matching and retry budgets
      ([userspace/nexus-ipc/src]) and the stream multiplexer of the device bus
      ([userspace/dsoftbus/src/mux_v2.rs]).

    ** Files and what they model

    Kernel (paths under [source/kernel/neuron/src]):
    - [Prelude]: results, machine integers, list and map lemmas, automation.
    - [Cap]: [cap/mod.rs] (rights, capability tables, derivation).
    - [Ipc] with [IpcProps], [IpcLaws]: [ipc/mod.rs], [ipc/header.rs].
    - [Sched] with [SchedProps], [SchedLaws], [SchedFair]: [sched/mod.rs].
    - [IdAlloc]: the identifier probe shared by [timer.rs], [fence.rs],
      [waitset.rs]; [Timer] with [TimerProps], and [Sync]: those tables.
    - [PageTable] with [PageTableProps], [PageTableLaws], [PageTableSafety]:
      [mm/page_table.rs].
    - [AddressSpace] with [AddressSpaceProps], [AddressSpaceLaws]:
      [mm/address_space.rs], [mm/mod.rs].
    - [Smp]: [core/smp/mod.rs], [core/smp/runtime.rs]; [Tlb]:
      [core/smp/tlb.rs], each with its properties.
    - [Task]: [task/mod.rs], [task/stack_pool.rs], [image_allocs.rs].
    - [VmoPool] with [VmoProps]: the arena allocator of [syscall/api/vmo.rs].
    - [Kernel]: the state of a system call, the monad of handlers, user memory
      access, wake-up of expired waiters ([syscall/mod.rs],
      [syscall/api/mod.rs], [types.rs]).
    - [SysTask], [SysCaps], [SysIpc], [SysSync], [SysVmo], [Exec]: the handlers
      of [syscall/api/]; [Syscall]: the table, registration and dispatch, and the
      small concrete systems the witnesses run on.
    - [SysLogic], [HandlerLaws], [HandlerAll]: a Hoare logic for handlers and
      the interface [HandlerInv] — what an invariant of the kernel state must
      survive at the primitives — with the proof that every handler keeps any
      invariant that implements it.
    - [Authority], [CapMove], [Runnable], [VmoAccess], [ExecProps], [WaitProps]:
      properties of system calls that need several components.

    Storage and services:
    - [Bytes], [Storage]: little-endian codecs, UTF-8, CRC32; the block-device
      trait as a class with laws, the memory device and partition views
      ([userspace/storage/src/lib.rs]); [Gpt], [BlockProto]: partition table and
      block protocol.
    - [Statefs] with [StatefsProto], [StatefsProps], [StatefsDurable],
      [StatefsCrash], and [Statefsd]: records, replay, engine, protocol,
      durability, crashes, and the service with its policy checks.
    - [NxfsFormat], [NxfsJournal], [NxfsState], [NxfsCheckpoint], [NxfsDev],
      [Nxfs]: the on-disk format, journal, tables and allocator, checkpoint
      codec, device adapter and engine with fsck; the other [Nxfs...] files hold
      the abstract tree, the invariant, the refinement and the crash proof.
    - [VfsTypes]: the codecs of vfs-types; [Nxfsd]: the store ([store.rs]);
      [Vfsd]: path confinement and tokens ([sandbox.rs], Module [Sandbox]) and
      the server loop ([os_lite.rs]).
    - [Wire]: writer, reader and the frame language of [frames.rs], with a
      Module per protocol.
    - [SystemSet]: update archives ([system_set.rs]); [UpdateService]: boot
      control ([bootctrl.rs]), updated ([os_lite.rs]), and the parts of
      bundlemgrd and init that act on its answers.
    - [Logd]: journal, limiter, protocol and handler of the log service.
    - [PolicyService]: a Module each for the table ([Sel]), the profiles
      ([AbiFilter]), the request handler ([Lite]: [lite_protocol.rs]), the
      service loop with its audit ([Runtime]: [os_lite.rs]), the client
      ([Client]) and the sign policy ([SupplyChain]); Module [Props] composes
      them, and with [Statefsd].
    - [Mux]: [mux_v2.rs], scheduler, session and endpoint.
    - [ReqRep]: the retry loop of [budget.rs], the reply buffer, frame stash and
      receive loops of [reqrep.rs].
    - [Metricsd]: registry, limiter and retention engine of the metrics service
      ([metricsd/src/lib.rs]), its frames (Module [Proto]: nexus-metrics), and its
      frame handler and loop (Module [Service]: [os_lite.rs]).

    ** How the code is rendered

    A Rust [Result] is [result]; an operation on [&mut self] returns the result
    and the state it leaves, errors included.  Machine integers are [Z] with
    wrapping, saturating and checked operations written out.  [BTreeMap]s are
    finite maps walked in key order, [Vec]s and arrays are lists, and an access
    out of range is an error or a stop exactly where it is in Rust.

    Kernel handlers are functions [Args -> Sys usize]: [Sys A] maps a [Kernel]
    to [None] (the kernel stops: a panic, a fault in kernel mode, or no page
    left for a page table) or to a result and a state.  [Machine] holds what a
    call reads from outside: the hart it runs on, the answers of the SBI and of
    the clock, the page allocator and the linker layout.  User memory is reached
    through the caller's page table; each load and store walks it.  The heap
    behind [Box::new] of page-table pages is a parameter with the class
    [PageAllocator]; [window_alloc] implements it.

    The storage engines run over any implementation of the class [BlockDevice],
    and the refinement theorems over any [BlockStore], which adds the laws of a
    device in working order; the memory device implements both.  A crash is a
    device on which only a prefix of the writes arrived, the last one torn.

    A service is its state and a step per request; what other services answer,
    whether a send goes through, and cryptographic functions are arguments.

    ** What the theorems show

    - Authority: no system call creates authority ([Authority]); derivation
      only attenuates and the table is a bounded map ([Cap]); moving a
      capability with a message is atomic ([CapMove]).
    - Scheduling: no operation of the scheduler loses or duplicates a task,
      strict priority, bounded waiting, the steal rules ([SchedLaws],
      [SchedFair]); after any system call only runnable tasks are scheduled,
      each at most once ([Runnable]); the reschedule handshake ([Smp]).
    - Memory: a page table is a finite map, W^X, isolation between tables
      sharing memory ([PageTableLaws], [PageTableSafety]); ASIDs are not reused
      before a shootdown ([AddressSpaceProps]); the manager keeps address spaces
      apart ([AddressSpaceLaws]); the shootdown protocol is complete ([Tlb]);
      the VMO arena hands out disjoint zeroed ranges ([VmoProps]); reads and
      writes of VMOs stay inside them ([VmoAccess]); the loader writes only to
      memory it allocated ([ExecProps]).
    - Communication: FIFO delivery, exact accounting, quotas, round trips
      ([IpcProps], [IpcLaws]); timers fire exactly when due ([TimerProps]);
      fences wake exactly the satisfied waiters ([Sync]); an exit status is
      delivered once, to the parent ([WaitProps]).
    - Storage: partitions confine their users and the table reads back ([Gpt]);
      statefs is a durable map that a crash leaves at a prefix of the requested
      changes ([StatefsDurable], [StatefsCrash]), behind access control
      ([Statefsd]); nxfs refines a tree of files and directories, survives
      remounts, and a crash leaves a tree of a prefix of the operations
      ([NxfsTheorems], [NxfsCrash]).
    - Files: the store and, through it, the whole file service answer as the
      abstract tree does ([Nxfsd], [Vfsd]); paths are confined, handles private,
      tokens single-use; reads into a VMO deliver what a read returns.
    - Wire: every declared frame round-trips, decoders accept nothing else, and
      dispatch is unambiguous ([Wire]); directory pages and file operations
      likewise ([VfsTypes]).
    - Updates: an accepted archive is what its signed index describes
      ([SystemSet]); the slot machine keeps its invariant over requests,
      restarts and failures, an update that never reports health is rolled back
      at its deadline, and a switch is all or nothing ([UpdateService]).
    - Policy: an unprivileged sender is never told "allowed" on another's behalf,
      a delegated check gives the table's answer end to end, a key of the state
      store changes only by a sender the table entitles, and a served profile
      decides as its row ([PolicyService]).
    - Shared libraries: a multiplexer's peer mirrors it, credit is accounted for
      exactly, no stream starves ([Mux]); retries end, the reply buffer is a
      bounded map, and no reply is lost without being counted ([ReqRep]).
    - Logs: the journal is the tail of the accepted records, authors are the
      senders the kernel names, senders are rate limited, answers are bounded
      ([Logd]).
    - Metrics: the service is two bounded maps keyed by the sender, senders do not
      touch each other's entries, the retention engine is a function of the history
      of events, and what is written stays in the service's own directory
      ([Metricsd]).

    Some theorems show where the code leaves its contract (a name says which:
    [nxfs_rename_into_itself], [init_publishes_slot_a], [logd_budget_final],
    [policyd_audit_reads_nonce], [mux_duplex_rejected],
    [oversized_segment_loses_rollup] and others).

    ** Fuel and bounds

    The identifier probe takes the size of the table plus one rounds
    ([probe_id_total] shows this is always enough).  [take_loop] takes one round
    per waiter, [identity_loop] one per page plus one, [verify_walk] the three
    levels.  The loops of the blocking system calls leave on their first round
    on every path, so they are written without recursion.  Replay loops and the
    tar reader take one round per byte of their input ([tar_loop_fuel] and its
    counterparts show that more change nothing); the journal of logd drops one
    record per round.  The retry loop takes fuel that [retry_terminates] bounds
    by the time to the deadline.  Theorems about counters that wrap or saturate are stated
    for histories too short to reach the limit (2^32 to 2^64 events).

    ** Not modelled

    Of the kernel: trap entry and context switch ([core/trap/handler.rs]:
    assembly, CSRs, raw frames), boot and hart bring-up, UART and
    interrupt-controller registers, the lock implementations, selftests,
    diagnostics and the optional trace ring.  Of userspace: the virtio drivers,
    the IPC client loops other than those of [PolicyService] and [ReqRep], the
    std servers of the host builds, the services without a file above (execd,
    samgrd, packagefsd, keystored, dsoftbusd, bundlemgrd apart from the
    active slot, init apart from the boot attempt), the network stack and the
    display and UI stack.  Logging, counters that nothing reads and
    debug features are left out of the operations that are modelled. *)

From stdpp Require Export base tactics list gmap sorting.
From Stdlib Require Export ZArith Lia.

(** ** Results

    Rust's [Result<A, E>].  Fallible operations that do not touch state return
    a [result]; operations on [&mut self] return the result paired with the
    state they leave behind, errors included. *)

Inductive result (A E : Type) : Type :=
| Ok (a : A)
| Err (e : E).
Arguments Ok {A E} a.
Arguments Err {A E} e.

Definition result_bind {A B E} (r : result A E) (k : A → result B E) : result B E :=
  match r with
  | Ok a => k a
  | Err e => Err e
  end.

(** [Option::ok_or]. *)
Definition ok_or {A E} (o : option A) (e : E) : result A E :=
  match o with
  | Some a => Ok a
  | None => Err e
  end.

(** [Result::map_err]. *)
Definition map_err {A E F} (f : E → F) (r : result A E) : result A F :=
  match r with
  | Ok a => Ok a
  | Err e => Err (f e)
  end.

Definition is_ok {A E} (r : result A E) : bool :=
  match r with
  | Ok _ => true
  | Err _ => false
  end.

Declare Scope neuron_scope.
Delimit Scope neuron_scope with neuron.
Notation "'let?' x ':=' r 'in' k" := (result_bind r (fun x => k))
  (at level 10, x name, r at level 100, k at level 200) : neuron_scope.
Open Scope neuron_scope.
Open Scope Z_scope.

#[export] Instance result_eq_dec {A E} `{EqDecision A} `{EqDecision E} :
  EqDecision (result A E).
Proof. solve_decision. Defined.

(** ** Machine integers

    A [w]-bit unsigned integer is a [Z] in [0, 2^w); the wrapping, saturating
    and checked operations of Rust are written out. *)

Definition in_width (w x : Z) : Prop := 0 ≤ x < 2 ^ w.
Definition max_of (w : Z) : Z := 2 ^ w - 1.
Definition wrapping_add (w a b : Z) : Z := (a + b) mod 2 ^ w.
Definition saturating_add (w a b : Z) : Z := Z.min (a + b) (max_of w).
Definition saturating_sub (a b : Z) : Z := Z.max (a - b) 0.
Definition saturating_mul (w a b : Z) : Z := Z.min (a * b) (max_of w).
Definition checked_add (w a b : Z) : option Z :=
  if a + b <? 2 ^ w then Some (a + b) else None.

(** Bit masks: [bitflags]' [contains] and [intersects]. *)
Definition bits_contain (a b : Z) : bool := Z.land a b =? b.
Definition bits_intersect (a b : Z) : bool := negb (Z.land a b =? 0).

(** [Vec::len] as a machine integer. *)
Definition vlen {A} (l : list A) : Z := Z.of_nat (length l).

(** The sum of [f] over a sequence. *)
Definition zsum {A} (f : A → Z) (l : list A) : Z := foldr (fun x acc => f x + acc) 0 l.

(** [sort_unstable] followed by [dedup] on a vector of integers. *)
Fixpoint dedup_adjacent (l : list Z) : list Z :=
  match l with
  | [] => []
  | x :: l' =>
      match dedup_adjacent l' with
      | [] => [x]
      | y :: r => if x =? y then y :: r else x :: y :: r
      end
  end.

Definition sort_dedup (l : list Z) : list Z := dedup_adjacent (merge_sort Z.le l).

(** [BTreeMap::keys]: the keys in ascending order. *)
Definition sorted_keys {V} (m : gmap Z V) : list Z := merge_sort Z.le (elements (dom m)).

(** [VecDeque::insert(pos, x)] for [pos <= len]. *)
Definition vec_insert_at {A} (pos : nat) (x : A) (l : list A) : list A :=
  take pos l ++ x :: drop pos l.

(** Little-endian byte strings: [to_le_bytes] of an [8 * n]-bit integer and
    [from_le_bytes]. *)
Fixpoint le_bytes (n : nat) (x : Z) : list Z :=
  match n with
  | O => []
  | S n' => x mod 256 :: le_bytes n' (x / 256)
  end.

Fixpoint le_value (l : list Z) : Z :=
  match l with
  | [] => 0
  | b :: l' => b + 256 * le_value l'
  end.

Definition is_byte (b : Z) : Prop := 0 ≤ b < 256.

(** The slice [bytes[a..b]]. *)
Definition slice {A} (a b : nat) (l : list A) : list A := take (b - a) (drop a l).

(** ** Automation *)

Create HintDb neuron discriminated.

(** Case analysis on the boolean tests and option/result matches of a handler,
    with the integer comparisons turned into propositions. *)
Ltac simpl_bool :=
  repeat match goal with
  | H : (_ && _)%bool = true |- _ => apply andb_true_iff in H; destruct H
  | H : (_ || _)%bool = false |- _ => apply orb_false_iff in H; destruct H
  | H : negb _ = true |- _ => apply negb_true_iff in H
  | H : negb _ = false |- _ => apply negb_false_iff in H
  | H : (_ =? _) = true |- _ => apply Z.eqb_eq in H
  | H : (_ =? _) = false |- _ => apply Z.eqb_neq in H
  | H : (_ <? _) = true |- _ => apply Z.ltb_lt in H
  | H : (_ <? _) = false |- _ => apply Z.ltb_ge in H
  | H : (_ <=? _) = true |- _ => apply Z.leb_le in H
  | H : (_ <=? _) = false |- _ => apply Z.leb_gt in H
  | H : bool_decide _ = true |- _ => apply bool_decide_eq_true in H
  | H : bool_decide _ = false |- _ => apply bool_decide_eq_false in H
  end.

Ltac step_match :=
  match goal with
  | H : context [match ?x with _ => _ end] |- _ =>
      lazymatch x with context [match _ with _ => _ end] => fail | _ => destruct x eqn:? end
  | |- context [match ?x with _ => _ end] =>
      lazymatch x with context [match _ with _ => _ end] => fail | _ => destruct x eqn:? end
  end.

Ltac run := repeat (step_match; simplify_eq/=); simpl_bool.

(** ** Generic lemmas *)

Lemma zsum_nil {A} (f : A → Z) : zsum f [] = 0.
Proof. done. Qed.

Lemma zsum_cons {A} (f : A → Z) x l : zsum f (x :: l) = f x + zsum f l.
Proof. done. Qed.

Lemma zsum_app {A} (f : A → Z) l1 l2 : zsum f (l1 ++ l2) = zsum f l1 + zsum f l2.
Proof. induction l1 as [|x l1 IH]; simpl; [done|]. rewrite IH. lia. Qed.

Lemma zsum_nonneg {A} (f : A → Z) l : (∀ x, x ∈ l → 0 ≤ f x) → 0 ≤ zsum f l.
Proof.
  induction l as [|x l IH]; simpl; intros H; [done|].
  pose proof (H x (list_elem_of_here x l)).
  assert (0 ≤ zsum f l) by (apply IH; intros; apply H; by right). lia.
Qed.

Lemma zsum_le {A} (f g : A → Z) l : (∀ x, x ∈ l → f x ≤ g x) → zsum f l ≤ zsum g l.
Proof.
  induction l as [|x l IH]; simpl; intros H; [done|].
  pose proof (H x (list_elem_of_here x l)).
  assert (zsum f l ≤ zsum g l) by (apply IH; intros; apply H; by right). lia.
Qed.

Lemma zsum_ext {A} (f g : A → Z) l : (∀ x, x ∈ l → f x = g x) → zsum f l = zsum g l.
Proof.
  intros H. apply Z.le_antisymm; apply zsum_le; intros x Hx; rewrite (H x Hx); lia.
Qed.

Lemma zsum_map {A B} (f : B → Z) (g : A → B) l : zsum f (map g l) = zsum (fun x => f (g x)) l.
Proof. induction l as [|x l IH]; simpl; [done|]. by rewrite IH. Qed.

(** Replacing one element changes the sum by the difference. *)
Lemma zsum_insert {A} (f : A → Z) (l : list A) i x y :
  l !! i = Some x → zsum f (<[i:=y]> l) = zsum f l - f x + f y.
Proof.
  revert i. induction l as [|z l IH]; intros [|i] H; simplify_eq/=; [lia|].
  rewrite (IH _ H). lia.
Qed.

Lemma zsum_elem_le {A} (f : A → Z) (l : list A) i x :
  (∀ y, y ∈ l → 0 ≤ f y) → l !! i = Some x → f x ≤ zsum f l.
Proof.
  revert i. induction l as [|z l IH]; intros [|i] Hnn H; simplify_eq/=.
  - assert (0 ≤ zsum f l) by (apply zsum_nonneg; intros; apply Hnn; by right). lia.
  - pose proof (Hnn z (list_elem_of_here z l)).
    assert (f x ≤ zsum f l) by (apply (IH i); [intros; apply Hnn; by right|done]). lia.
Qed.

Lemma vlen_app {A} (l1 l2 : list A) : vlen (l1 ++ l2) = vlen l1 + vlen l2.
Proof. unfold vlen. rewrite length_app. lia. Qed.

Lemma vlen_nonneg {A} (l : list A) : 0 ≤ vlen l.
Proof. unfold vlen. lia. Qed.
#[export] Hint Resolve vlen_nonneg : neuron.

(** *** Sorting and deduplication *)

Lemma dedup_adjacent_elem l x : x ∈ dedup_adjacent l ↔ x ∈ l.
Proof.
  induction l as [|y l IH]; simpl; [done|].
  destruct (dedup_adjacent l) as [|z r] eqn:E.
  - rewrite !elem_of_cons, <- IH. done.
  - destruct (Z.eqb_spec y z) as [->|Hyz]; rewrite !elem_of_cons, <- IH, !elem_of_cons; tauto.
Qed.

Lemma dedup_adjacent_sorted l :
  StronglySorted Z.le l → StronglySorted Z.lt (dedup_adjacent l).
Proof.
  induction 1 as [|x l Hs IH Hall]; simpl; [constructor|].
  assert (Hall' : Forall (Z.le x) (dedup_adjacent l)).
  { rewrite Forall_forall in Hall |- *. intros y Hy. apply Hall.
    by apply dedup_adjacent_elem. }
  destruct (dedup_adjacent l) as [|z r] eqn:E; [repeat constructor|].
  destruct (Z.eqb_spec x z); [done|].
  constructor; [done|]. inversion IH as [|? ? ? Hz]; subst. inversion Hall'; subst.
  constructor; [lia|]. eapply Forall_impl; [exact Hz|]. simpl. lia.
Qed.

Lemma sort_dedup_elem l x : x ∈ sort_dedup l ↔ x ∈ l.
Proof.
  unfold sort_dedup. rewrite dedup_adjacent_elem.
  by rewrite (merge_sort_Permutation Z.le l).
Qed.

Lemma sort_dedup_sorted l : StronglySorted Z.lt (sort_dedup l).
Proof.
  apply dedup_adjacent_sorted. apply StronglySorted_merge_sort; try apply _.
Qed.

Lemma sorted_keys_elem {V} (m : gmap Z V) k : k ∈ sorted_keys m ↔ is_Some (m !! k).
Proof.
  unfold sorted_keys. rewrite (merge_sort_Permutation Z.le), elem_of_elements. apply elem_of_dom.
Qed.

Lemma sorted_keys_sorted {V} (m : gmap Z V) : StronglySorted Z.le (sorted_keys m).
Proof. apply StronglySorted_merge_sort; apply _. Qed.

Lemma StronglySorted_filter {A} (R : relation A) (P : A → Prop) `{∀ x, Decision (P x)} l :
  StronglySorted R l → StronglySorted R (filter P l).
Proof.
  induction 1 as [|x l Hs IH Hall]; [constructor|]. rewrite filter_cons. case_decide; [|done].
  constructor; [done|]. apply Forall_forall. intros y [_ Hy]%list_elem_of_filter.
  rewrite Forall_forall in Hall. auto.
Qed.

(** A strictly sorted vector has no duplicates. *)
Lemma StronglySorted_lt_NoDup l : StronglySorted Z.lt l → NoDup l.
Proof.
  induction 1 as [|x l Hs IH Hall]; constructor; [|done].
  intros Hx. rewrite Forall_forall in Hall. specialize (Hall _ Hx). lia.
Qed.

(** *** Little-endian encodings *)

Lemma le_bytes_length n x : length (le_bytes n x) = n.
Proof. revert x. induction n; intros x; simpl; auto. Qed.

Lemma le_bytes_byte n x : Forall is_byte (le_bytes n x).
Proof.
  revert x. induction n; intros x; simpl; constructor; [|auto].
  apply Z.mod_pos_bound. lia.
Qed.

Lemma le_value_bytes n x : in_width (8 * Z.of_nat n) x → le_value (le_bytes n x) = x.
Proof.
  unfold in_width. revert x. induction n as [|n IH]; intros x Hx; simpl.
  - rewrite Nat2Z.inj_0, Z.mul_0_r in Hx. simpl in Hx. lia.
  - rewrite IH; [pose proof (Z.div_mod x 256); lia|].
    replace (8 * Z.of_nat (S n)) with (8 + 8 * Z.of_nat n) in Hx by lia.
    rewrite Z.pow_add_r in Hx by lia. split; [apply Z.div_pos; lia|].
    apply Z.div_lt_upper_bound; lia.
Qed.

Lemma le_bytes_value l : Forall is_byte l → le_bytes (length l) (le_value l) = l.
Proof.
  induction 1 as [|b l Hb _ IH]; simpl; [done|]. unfold is_byte in Hb.
  replace ((b + 256 * le_value l) mod 256) with b.
  - replace ((b + 256 * le_value l) / 256) with (le_value l); [by rewrite IH|].
    apply (Z.div_unique_pos _ _ _ b); lia.
  - apply (Z.mod_unique_pos _ _ (le_value l)); lia.
Qed.

Lemma le_value_bound l : Forall is_byte l → in_width (8 * Z.of_nat (length l)) (le_value l).
Proof.
  unfold in_width. induction 1 as [|b l Hb _ IH]; simpl length; [simpl; lia|].
  replace (8 * Z.of_nat (S (length l))) with (8 + 8 * Z.of_nat (length l)) by lia.
  rewrite Z.pow_add_r by lia. unfold is_byte in Hb. simpl. lia.
Qed.
