(* ===== verification/Cap.v ===== *)
(** * Capability tables ([source/kernel/neuron/src/cap/mod.rs])

    Rights, capability kinds, the per-task capability table and its operations,
    with the correctness of each operation: rights never grow under [derive],
    the table never changes size, [allocate] takes the lowest free slot and
    [allocate_high] the highest one, and the table refines a bounded finite map
    from slots to capabilities. *)

From S2P Require Import Prelude.

(** ** Data *)

(** [bitflags! struct Rights: u32]. *)
Record Rights := mkRights { rights_bits : Z }.
Definition SEND : Rights := mkRights (Z.shiftl 1 0).
Definition RECV : Rights := mkRights (Z.shiftl 1 1).
Definition MAP : Rights := mkRights (Z.shiftl 1 2).
Definition MANAGE : Rights := mkRights (Z.shiftl 1 3).
Definition rights_union (a b : Rights) : Rights :=
  mkRights (Z.lor (rights_bits a) (rights_bits b)).
Definition rights_contains (a b : Rights) : bool :=
  bits_contain (rights_bits a) (rights_bits b).

Inductive CapabilityKind :=
| CkEndpoint (ep : Z)
| CkEndpointFactory
| CkVmo (base len : Z)
| CkDeviceMmio (base len : Z)
| CkIrq (irq : Z)
| CkTimer (id : Z)
| CkWaitset (id : Z)
| CkFence (id : Z)
| CkSchedSetAffinity.

Record Capability := mkCapability {
  cap_kind : CapabilityKind;
  cap_rights : Rights
}.

Inductive CapError := InvalidSlot | CapPermissionDenied | CapNoSpace.

Record EndpointCapRef := mkEndpointCapRef {
  ecr_slot : nat;
  ecr_endpoint : Z
}.

#[export] Instance Rights_eq_dec : EqDecision Rights.
Proof. solve_decision. Defined.
#[export] Instance CapabilityKind_eq_dec : EqDecision CapabilityKind.
Proof. solve_decision. Defined.
#[export] Instance Capability_eq_dec : EqDecision Capability.
Proof. solve_decision. Defined.
#[export] Instance CapError_eq_dec : EqDecision CapError.
Proof. solve_decision. Defined.

(** [CapTable]; the phantom marker carries no data.  Slot indices are [usize]
    values that are only compared with the length and used as indices: [nat]. *)
Record CapTable := mkCapTable { cap_slots : list (option Capability) }.

(** ** Operations *)

Definition CapTable_with_capacity (slots : nat) : CapTable :=
  mkCapTable (replicate slots None).

(** [#[derive(Default)]]: the empty vector. *)
Definition CapTable_default : CapTable := mkCapTable [].

Definition DEFAULT_CAP_SLOTS : nat := 256.

Definition CapTable_new : CapTable := CapTable_with_capacity DEFAULT_CAP_SLOTS.

Definition CapTable_set (t : CapTable) (slot : nat) (cap : Capability) :
    result unit CapError * CapTable :=
  if bool_decide (length (cap_slots t) ≤ slot)%nat then (Err InvalidSlot, t)
  else match cap_slots t !! slot with
       | Some _ => (Ok tt, mkCapTable (<[slot:=Some cap]> (cap_slots t)))
       | None => (Err InvalidSlot, t)
       end.

Definition CapTable_set_if_empty (t : CapTable) (slot : nat) (cap : Capability) :
    result unit CapError * CapTable :=
  if bool_decide (length (cap_slots t) ≤ slot)%nat then (Err InvalidSlot, t)
  else match cap_slots t !! slot with
       | None => (Err InvalidSlot, t)
       | Some (Some _) => (Err CapPermissionDenied, t)
       | Some None => (Ok tt, mkCapTable (<[slot:=Some cap]> (cap_slots t)))
       end.

(** The [for (index, entry) in slots.iter_mut().enumerate()] loop: [index] is
    the position of the head of the remaining entries. *)
Fixpoint allocate_loop (index : nat) (rest : list (option Capability)) (cap : Capability) :
    option (nat * list (option Capability)) :=
  match rest with
  | [] => None
  | None :: rest' => Some (index, Some cap :: rest')
  | Some c :: rest' =>
      match allocate_loop (S index) rest' cap with
      | Some (i, r) => Some (i, Some c :: r)
      | None => None
      end
  end.

Definition CapTable_allocate (t : CapTable) (cap : Capability) :
    result nat CapError * CapTable :=
  match allocate_loop 0 (cap_slots t) cap with
  | Some (index, slots) => (Ok index, mkCapTable slots)
  | None => (Err CapNoSpace, t)
  end.

(** The [.enumerate().rev()] loop: indices [n - 1], [n - 2], ..., [0]. *)
Fixpoint allocate_high_loop (n : nat) (slots : list (option Capability)) (cap : Capability) :
    option (nat * list (option Capability)) :=
  match n with
  | O => None
  | S index =>
      match slots !! index with
      | Some None => Some (index, <[index:=Some cap]> slots)
      | _ => allocate_high_loop index slots cap
      end
  end.

Definition CapTable_allocate_high (t : CapTable) (cap : Capability) :
    result nat CapError * CapTable :=
  match allocate_high_loop (length (cap_slots t)) (cap_slots t) cap with
  | Some (index, slots) => (Ok index, mkCapTable slots)
  | None => (Err CapNoSpace, t)
  end.

(** The [filter] closure of [vmo_overlap_count]; [usize] is 64 bits wide. *)
Definition vmo_overlaps (base len : Z) (entry : option Capability) : bool :=
  let endp := saturating_add 64 base len in
  match entry with
  | Some c =>
      match cap_kind c with
      | CkVmo b l => (b <? endp) && (base <? saturating_add 64 b l)
      | _ => false
      end
  | None => false
  end.

Definition CapTable_vmo_overlap_count (t : CapTable) (base len : Z) : nat :=
  length (filter (fun e => vmo_overlaps base len e = true) (cap_slots t)).

Definition CapTable_get (t : CapTable) (slot : nat) : result Capability CapError :=
  match cap_slots t !! slot with
  | Some (Some c) => Ok c
  | _ => Err InvalidSlot
  end.

Definition CapTable_take (t : CapTable) (slot : nat) : result Capability CapError * CapTable :=
  match cap_slots t !! slot with
  | None => (Err InvalidSlot, t)
  | Some None => (Err InvalidSlot, mkCapTable (<[slot:=None]> (cap_slots t)))
  | Some (Some c) => (Ok c, mkCapTable (<[slot:=None]> (cap_slots t)))
  end.

Definition CapTable_derive (t : CapTable) (slot : nat) (rights : Rights) :
    result Capability CapError :=
  let? base := CapTable_get t slot in
  if negb (rights_contains (cap_rights base) rights) then Err CapPermissionDenied
  else Ok (mkCapability (cap_kind base) rights).

Definition CapTable_derive_endpoint_ref (t : CapTable) (slot : nat) (rights : Rights) :
    result EndpointCapRef CapError :=
  let? cap := CapTable_derive t slot rights in
  match cap_kind cap with
  | CkEndpoint endpoint => Ok (mkEndpointCapRef slot endpoint)
  | _ => Err CapPermissionDenied
  end.

(** ** Specification vocabulary *)

(** The slots that are free. *)
Definition slot_free (t : CapTable) (i : nat) : Prop := cap_slots t !! i = Some None.

Definition num_free (t : CapTable) : nat :=
  length (filter (fun e => e = None) (cap_slots t)).

(** The abstract view of a table: a finite map from slots to capabilities. *)
Definition cap_map (t : CapTable) : gmap nat Capability :=
  omap id (map_seq 0 (cap_slots t) : gmap nat (option Capability)).

(** [r] grants no right that [s] lacks. *)
Definition rights_sub (r s : Rights) : Prop :=
  ∀ i, Z.testbit (rights_bits r) i = true → Z.testbit (rights_bits s) i = true.

(** ** Lemmas *)

Lemma bits_contain_spec a b :
  bits_contain a b = true ↔ (∀ i, Z.testbit b i = true → Z.testbit a i = true).
Proof.
  unfold bits_contain. rewrite Z.eqb_eq. split.
  - intros H i Hi. rewrite <- H, Z.land_spec in Hi. by apply andb_true_iff in Hi as [? _].
  - intros H. apply Z.bits_inj. intros i. rewrite Z.land_spec.
    destruct (Z.testbit b i) eqn:E; [by rewrite (H i E)|by rewrite andb_false_r].
Qed.

Lemma rights_contains_spec a b : rights_contains a b = true ↔ rights_sub b a.
Proof. apply bits_contain_spec. Qed.

#[export] Instance rights_sub_preorder : PreOrder rights_sub.
Proof. split; [by intros r i|intros r s t H1 H2 i Hi; auto]. Qed.

Lemma cap_map_lookup t i c : cap_map t !! i = Some c ↔ cap_slots t !! i = Some (Some c).
Proof.
  unfold cap_map. rewrite lookup_omap, lookup_map_seq_0.
  destruct (cap_slots t !! i) as [[x|]|]; simpl; naive_solver.
Qed.

Lemma cap_map_lookup_None t i :
  cap_map t !! i = None ↔ (slot_free t i ∨ (length (cap_slots t) ≤ i)%nat).
Proof.
  unfold cap_map, slot_free. rewrite lookup_omap, lookup_map_seq_0.
  destruct (cap_slots t !! i) as [[x|]|] eqn:E; simpl.
  - apply lookup_lt_Some in E. split; [done|]. intros [?|?]; [done|lia].
  - split; [by left|done].
  - apply lookup_ge_None in E. split; [by right|done].
Qed.

(** A write of slot [i] is a finite-map update. *)
Lemma cap_map_write slots i (o : option Capability) :
  (i < length slots)%nat →
  cap_map (mkCapTable (<[i:=o]> slots)) =
    match o with
    | Some c => <[i:=c]> (cap_map (mkCapTable slots))
    | None => delete i (cap_map (mkCapTable slots))
    end.
Proof.
  intros Hi. apply map_eq. intros j. unfold cap_map at 1.
  rewrite lookup_omap, lookup_map_seq_0. simpl.
  destruct (decide (i = j)) as [<-|Hne].
  - rewrite list_lookup_insert_eq by done. destruct o as [c|]; simpl; by simplify_map_eq.
  - rewrite list_lookup_insert_ne by done.
    destruct o as [c|]; simplify_map_eq; unfold cap_map;
      by rewrite lookup_omap, lookup_map_seq_0.
Qed.

Lemma allocate_loop_spec idx rest cap :
  match allocate_loop idx rest cap with
  | Some (i, r) => (idx ≤ i)%nat ∧ rest !! (i - idx)%nat = Some None ∧
                   r = <[(i - idx)%nat := Some cap]> rest ∧
                   (∀ j, (idx ≤ j < i)%nat → rest !! (j - idx)%nat ≠ Some None)
  | None => ∀ j, rest !! j ≠ Some None
  end.
Proof.
  revert idx. induction rest as [|[c|] rest IH]; intros idx; simpl; [done| |].
  - specialize (IH (S idx)). destruct (allocate_loop (S idx) rest cap) as [[i r]|].
    + destruct IH as (Hle & Hfree & -> & Hmin). split_and!; [lia| | |].
      * replace (i - idx)%nat with (S (i - S idx)) by lia. done.
      * replace (i - idx)%nat with (S (i - S idx)) by lia. done.
      * intros j Hj. destruct (decide (j = idx)) as [->|]; [by rewrite Nat.sub_diag|].
        replace (j - idx)%nat with (S (j - S idx)) by lia. apply Hmin. lia.
    + intros [|j]; [done|apply IH].
  - rewrite Nat.sub_diag. split_and!; [lia|done|done|]. intros j Hj. lia.
Qed.

(** [allocate] fills the lowest free slot, or fails on a full table. *)
Lemma allocate_cases t cap :
  (∃ i, slot_free t i ∧ (∀ j, (j < i)%nat → ¬ slot_free t j) ∧
        CapTable_allocate t cap = (Ok i, mkCapTable (<[i:=Some cap]> (cap_slots t)))) ∨
  ((∀ j, ¬ slot_free t j) ∧ CapTable_allocate t cap = (Err CapNoSpace, t)).
Proof.
  unfold CapTable_allocate, slot_free.
  pose proof (allocate_loop_spec 0 (cap_slots t) cap) as H.
  destruct (allocate_loop 0 (cap_slots t) cap) as [[i r]|].
  - destruct H as (_ & Hf & -> & Hmin). rewrite Nat.sub_0_r in *. left. exists i.
    split_and!; try done. intros j Hj. specialize (Hmin j). rewrite Nat.sub_0_r in Hmin.
    apply Hmin. lia.
  - right. done.
Qed.

Lemma allocate_high_loop_spec n slots cap :
  match allocate_high_loop n slots cap with
  | Some (i, r) => (i < n)%nat ∧ slots !! i = Some None ∧ r = <[i := Some cap]> slots ∧
                   (∀ j, (i < j < n)%nat → slots !! j ≠ Some None)
  | None => ∀ j, (j < n)%nat → slots !! j ≠ Some None
  end.
Proof.
  induction n as [|n IH]; simpl; [intros j Hj; lia|].
  destruct (slots !! n) as [[c|]|] eqn:E.
  2: { split_and!; [lia|done|done|]. intros j Hj. lia. }
  all: destruct (allocate_high_loop n slots cap) as [[i r]|].
  1,3: destruct IH as (Hlt & Hf & -> & Hmax); split_and!; [lia|done|done|];
       intros j Hj; destruct (decide (j = n)) as [->|]; [congruence|apply Hmax; lia].
  all: intros j Hj; destruct (decide (j = n)) as [->|]; [congruence|apply IH; lia].
Qed.

(** [allocate_high] fills the highest free slot, or fails on a full table. *)
Lemma allocate_high_cases t cap :
  (∃ i, slot_free t i ∧ (∀ j, (i < j)%nat → ¬ slot_free t j) ∧
        CapTable_allocate_high t cap = (Ok i, mkCapTable (<[i:=Some cap]> (cap_slots t)))) ∨
  ((∀ j, ¬ slot_free t j) ∧ CapTable_allocate_high t cap = (Err CapNoSpace, t)).
Proof.
  unfold CapTable_allocate_high, slot_free.
  pose proof (allocate_high_loop_spec (length (cap_slots t)) (cap_slots t) cap) as H.
  assert (Hlt : ∀ j, cap_slots t !! j = Some None → (j < length (cap_slots t))%nat)
    by (intros j; apply lookup_lt_Some).
  destruct (allocate_high_loop _ _ _) as [[i r]|].
  - destruct H as (_ & Hf & -> & Hmax). left. exists i. split_and!; try done.
    intros j Hj Hfj. apply (Hmax j); [|done]. split; [lia|by apply Hlt].
  - right. split; [|done]. intros j Hj. apply (H j); [by apply Hlt|done].
Qed.

(** ** Table steps and their specification *)

(** The mutating operations of a table as data, what they return and the table
    they leave. *)
Inductive cap_op :=
| OpSet (slot : nat) (cap : Capability)
| OpSetIfEmpty (slot : nat) (cap : Capability)
| OpAllocate (cap : Capability)
| OpAllocateHigh (cap : Capability)
| OpTake (slot : nat).

Inductive cap_out :=
| OutUnit
| OutSlot (slot : nat)
| OutCap (cap : Capability).

Definition result_map {A B E} (f : A → B) (r : result A E) : result B E :=
  match r with
  | Ok a => Ok (f a)
  | Err e => Err e
  end.

Definition cap_exec (t : CapTable) (op : cap_op) : result cap_out CapError * CapTable :=
  match op with
  | OpSet s c => let '(r, t') := CapTable_set t s c in (result_map (fun _ => OutUnit) r, t')
  | OpSetIfEmpty s c =>
      let '(r, t') := CapTable_set_if_empty t s c in (result_map (fun _ => OutUnit) r, t')
  | OpAllocate c => let '(r, t') := CapTable_allocate t c in (result_map OutSlot r, t')
  | OpAllocateHigh c => let '(r, t') := CapTable_allocate_high t c in (result_map OutSlot r, t')
  | OpTake s => let '(r, t') := CapTable_take t s in (result_map OutCap r, t')
  end.

(** The abstract table: a map of capabilities whose keys lie below a fixed
    bound [n], with the answer each operation must give. *)
Inductive cap_spec (n : nat) (m : gmap nat Capability) :
    cap_op → result cap_out CapError → gmap nat Capability → Prop :=
| spec_set s c :
    (s < n)%nat → cap_spec n m (OpSet s c) (Ok OutUnit) (<[s:=c]> m)
| spec_set_range s c :
    (n ≤ s)%nat → cap_spec n m (OpSet s c) (Err InvalidSlot) m
| spec_set_if_empty s c :
    (s < n)%nat → m !! s = None → cap_spec n m (OpSetIfEmpty s c) (Ok OutUnit) (<[s:=c]> m)
| spec_set_if_empty_taken s c c' :
    (s < n)%nat → m !! s = Some c' →
    cap_spec n m (OpSetIfEmpty s c) (Err CapPermissionDenied) m
| spec_set_if_empty_range s c :
    (n ≤ s)%nat → cap_spec n m (OpSetIfEmpty s c) (Err InvalidSlot) m
| spec_allocate s c :
    (s < n)%nat → m !! s = None → (∀ j, (j < s)%nat → is_Some (m !! j)) →
    cap_spec n m (OpAllocate c) (Ok (OutSlot s)) (<[s:=c]> m)
| spec_allocate_full c :
    (∀ j, (j < n)%nat → is_Some (m !! j)) →
    cap_spec n m (OpAllocate c) (Err CapNoSpace) m
| spec_allocate_high s c :
    (s < n)%nat → m !! s = None → (∀ j, (s < j < n)%nat → is_Some (m !! j)) →
    cap_spec n m (OpAllocateHigh c) (Ok (OutSlot s)) (<[s:=c]> m)
| spec_allocate_high_full c :
    (∀ j, (j < n)%nat → is_Some (m !! j)) →
    cap_spec n m (OpAllocateHigh c) (Err CapNoSpace) m
| spec_take s c :
    m !! s = Some c → cap_spec n m (OpTake s) (Ok (OutCap c)) (delete s m)
| spec_take_empty s :
    m !! s = None → cap_spec n m (OpTake s) (Err InvalidSlot) m.

Lemma cap_map_not_free t j :
  (j < length (cap_slots t))%nat → ¬ slot_free t j → is_Some (cap_map t !! j).
Proof.
  intros Hj Hf. destruct (cap_map t !! j) eqn:E; [done|].
  apply cap_map_lookup_None in E as [?|?]; [done|lia].
Qed.

Lemma slot_free_None t j : slot_free t j → (j < length (cap_slots t))%nat ∧ cap_map t !! j = None.
Proof.
  intros Hf. split; [by eapply lookup_lt_Some|]. apply cap_map_lookup_None. by left.
Qed.

Lemma cap_map_write_some t i c :
  (i < length (cap_slots t))%nat →
  cap_map (mkCapTable (<[i:=Some c]> (cap_slots t))) = <[i:=c]> (cap_map t).
Proof. intros Hi. rewrite cap_map_write by done. by destruct t. Qed.

Lemma cap_map_write_none t i :
  (i < length (cap_slots t))%nat →
  cap_map (mkCapTable (<[i:=None]> (cap_slots t))) = delete i (cap_map t).
Proof. intros Hi. rewrite cap_map_write by done. by destruct t. Qed.

(** The five operations against the specification, one lemma each. *)
Lemma set_refines t s c r t' :
  cap_exec t (OpSet s c) = (r, t') → cap_spec (length (cap_slots t)) (cap_map t) (OpSet s c) r (cap_map t').
Proof.
  simpl. unfold CapTable_set. intros H. run.
  - by constructor.
  - rewrite cap_map_write_some by lia. constructor. lia.
  - constructor. by apply lookup_ge_None.
Qed.

Lemma set_if_empty_refines t s c r t' :
  cap_exec t (OpSetIfEmpty s c) = (r, t') →
  cap_spec (length (cap_slots t)) (cap_map t) (OpSetIfEmpty s c) r (cap_map t').
Proof.
  simpl. unfold CapTable_set_if_empty. intros H. run.
  - by constructor.
  - eapply spec_set_if_empty_taken; [lia|]. by apply cap_map_lookup.
  - rewrite cap_map_write_some by lia. constructor; [lia|]. apply cap_map_lookup_None. by left.
  - constructor. by apply lookup_ge_None.
Qed.

Lemma allocate_refines t c r t' :
  cap_exec t (OpAllocate c) = (r, t') →
  cap_spec (length (cap_slots t)) (cap_map t) (OpAllocate c) r (cap_map t').
Proof.
  simpl. destruct (allocate_cases t c) as [(i & Hf & Hmin & ->)|[Hfull ->]];
    intros H; simplify_eq/=.
  - destruct (slot_free_None t i Hf) as [Hlt HN]. rewrite cap_map_write_some by done.
    constructor; [done|done|]. intros j Hj. apply cap_map_not_free; [lia|auto].
  - constructor. intros j Hj. by apply cap_map_not_free.
Qed.

Lemma allocate_high_refines t c r t' :
  cap_exec t (OpAllocateHigh c) = (r, t') →
  cap_spec (length (cap_slots t)) (cap_map t) (OpAllocateHigh c) r (cap_map t').
Proof.
  simpl. destruct (allocate_high_cases t c) as [(i & Hf & Hmax & ->)|[Hfull ->]];
    intros H; simplify_eq/=.
  - destruct (slot_free_None t i Hf) as [Hlt HN]. rewrite cap_map_write_some by done.
    constructor; [done|done|]. intros j Hj. apply cap_map_not_free; [lia|apply Hmax; lia].
  - constructor. intros j Hj. by apply cap_map_not_free.
Qed.

Lemma take_refines t s r t' :
  cap_exec t (OpTake s) = (r, t') →
  cap_spec (length (cap_slots t)) (cap_map t) (OpTake s) r (cap_map t').
Proof.
  simpl. unfold CapTable_take. intros H. run.
  - rewrite cap_map_write_none by (by eapply lookup_lt_Some).
    constructor. by apply cap_map_lookup.
  - assert (HN : cap_map t !! s = None) by (apply cap_map_lookup_None; by left).
    rewrite cap_map_write_none by (by eapply lookup_lt_Some).
    rewrite delete_id by done. by constructor.
  - constructor. apply cap_map_lookup_None. right. by apply lookup_ge_None.
Qed.

Lemma cap_exec_length t op r t' :
  cap_exec t op = (r, t') → length (cap_slots t') = length (cap_slots t).
Proof.
  destruct op as [s c|s c|c|c|s]; simpl; intros H.
  - unfold CapTable_set in H. run; rewrite ?length_insert; done.
  - unfold CapTable_set_if_empty in H. run; rewrite ?length_insert; done.
  - destruct (allocate_cases t c) as [(i & _ & _ & E)|[_ E]]; rewrite E in H;
      simplify_eq/=; rewrite ?length_insert; done.
  - destruct (allocate_high_cases t c) as [(i & _ & _ & E)|[_ E]]; rewrite E in H;
      simplify_eq/=; rewrite ?length_insert; done.
  - unfold CapTable_take in H. run; rewrite ?length_insert; done.
Qed.

(** A free slot other than the one just written stays free. *)
Lemma slot_free_write t i j o :
  i ≠ j → slot_free (mkCapTable (<[i:=o]> (cap_slots t))) j ↔ slot_free t j.
Proof. intros Hne. unfold slot_free. simpl. by rewrite list_lookup_insert_ne. Qed.

Lemma slot_not_free_write t i c : ¬ slot_free (mkCapTable (<[i:=Some c]> (cap_slots t))) i.
Proof.
  unfold slot_free. simpl. intros H.
  destruct (decide (i < length (cap_slots t))%nat).
  - by rewrite list_lookup_insert_eq in H.
  - rewrite list_insert_ge in H by lia. apply lookup_lt_Some in H. lia.
Qed.

(** [allocate] on a table whose lowest free slot is known. *)
Lemma allocate_at t c i :
  slot_free t i → (∀ j, (j < i)%nat → ¬ slot_free t j) →
  CapTable_allocate t c = (Ok i, mkCapTable (<[i:=Some c]> (cap_slots t))).
Proof.
  intros Hi Hmin. destruct (allocate_cases t c) as [(k & Hk & Hkmin & ->)|[Hno _]].
  - destruct (Nat.lt_trichotomy i k) as [?|[->|?]]; [|done|]; exfalso; naive_solver.
  - exfalso. by eapply Hno.
Qed.

Lemma allocate_high_at t c i :
  slot_free t i → (∀ j, (i < j)%nat → ¬ slot_free t j) →
  CapTable_allocate_high t c = (Ok i, mkCapTable (<[i:=Some c]> (cap_slots t))).
Proof.
  intros Hi Hmax. destruct (allocate_high_cases t c) as [(k & Hk & Hkmax & ->)|[Hno _]].
  - destruct (Nat.lt_trichotomy i k) as [?|[->|?]]; [|done|]; exfalso; naive_solver.
  - exfalso. by eapply Hno.
Qed.

(** ** Properties *)

(** C10: every mutating operation of the capability table answers and acts as
    the abstract bounded map prescribes, on every branch and error, and never
    changes the number of slots. *)
Theorem cap_table_refines_map t op r t' :
  cap_exec t op = (r, t') →
  cap_spec (length (cap_slots t)) (cap_map t) op r (cap_map t') ∧
  length (cap_slots t') = length (cap_slots t).
Proof.
  intros H. split; [|by eapply cap_exec_length].
  destruct op; eauto using set_refines, set_if_empty_refines, allocate_refines,
    allocate_high_refines, take_refines.
Qed.

Lemma cap_table_refines_map_witness :
  ∃ r t', cap_exec (CapTable_with_capacity 2) (OpAllocate (mkCapability (CkEndpoint 7) SEND)) = (r, t') ∧
  cap_spec 2 (cap_map (CapTable_with_capacity 2)) (OpAllocate (mkCapability (CkEndpoint 7) SEND)) r (cap_map t') ∧
  r = Ok (OutSlot 0).
Proof.
  eexists _, _. split; [reflexivity|]. split; [|reflexivity].
  apply (cap_table_refines_map (CapTable_with_capacity 2) (OpAllocate (mkCapability (CkEndpoint 7) SEND))).
  reflexivity.
Defined.

(** [derive] succeeds exactly when the slot holds a capability whose rights
    include every requested right, and then yields the same object with exactly
    the requested rights: rights can only be attenuated. *)
Theorem derive_attenuates t slot r c :
  CapTable_derive t slot r = Ok c ↔
  ∃ base, CapTable_get t slot = Ok base ∧ rights_sub r (cap_rights base) ∧
          c = mkCapability (cap_kind base) r.
Proof.
  unfold CapTable_derive, result_bind.
  destruct (CapTable_get t slot) as [base|e];
    [|split; [done|by intros (? & ? & _)]].
  destruct (rights_contains (cap_rights base) r) eqn:E; simpl.
  - apply rights_contains_spec in E. split; [naive_solver|].
    intros (b & ? & _ & ->). by simplify_eq.
  - split; [done|]. intros (b & ? & Hs & _). simplify_eq.
    apply rights_contains_spec in Hs. congruence.
Qed.

(** With two free slots, [allocate] (caps installed by others) and
    [allocate_high] (objects a task creates for itself) take different slots,
    the first below the second, and their order does not matter. *)
Theorem allocate_low_high_commute t a b c_low c_high :
  slot_free t a → slot_free t b → a ≠ b →
  ∃ lo hi tl th t',
    (lo < hi)%nat ∧
    CapTable_allocate t c_low = (Ok lo, tl) ∧ CapTable_allocate_high tl c_high = (Ok hi, t') ∧
    CapTable_allocate_high t c_high = (Ok hi, th) ∧ CapTable_allocate th c_low = (Ok lo, t').
Proof.
  intros Ha Hb Hab.
  destruct (allocate_cases t c_low) as [(lo & Hlo & Hmin & El)|[Hno _]]; [|by destruct (Hno a)].
  destruct (allocate_high_cases t c_high) as [(hi & Hhi & Hmax & Eh)|[Hno _]]; [|by destruct (Hno a)].
  assert (Hlt : (lo < hi)%nat).
  { destruct (decide (lo < hi)%nat); [done|]. exfalso.
    assert (∀ x, slot_free t x → (lo ≤ x ≤ hi)%nat) as Hr; [|pose proof (Hr a Ha); pose proof (Hr b Hb); lia].
    intros x Hx. split; [|]; apply Nat.nlt_ge; intros ?; naive_solver. }
  eexists lo, hi, _, _, (mkCapTable (<[hi:=Some c_high]> (<[lo:=Some c_low]> (cap_slots t)))).
  split_and!; [done|exact El| |exact Eh|].
  - apply (allocate_high_at (mkCapTable _)).
    + apply slot_free_write; [lia|done].
    + intros j Hj. rewrite slot_free_write by lia. auto.
  - rewrite list_insert_insert_ne by lia. apply (allocate_at (mkCapTable _)).
    + apply slot_free_write; [lia|done].
    + intros j Hj. rewrite slot_free_write by lia. auto.
Qed.

Lemma allocate_low_high_commute_witness :
  ∃ lo hi tl th t',
    (lo < hi)%nat ∧
    CapTable_allocate CapTable_new (mkCapability (CkEndpoint 1) SEND) = (Ok lo, tl) ∧
    CapTable_allocate_high tl (mkCapability (CkFence 2) MANAGE) = (Ok hi, t') ∧
    CapTable_allocate_high CapTable_new (mkCapability (CkFence 2) MANAGE) = (Ok hi, th) ∧
    CapTable_allocate th (mkCapability (CkEndpoint 1) SEND) = (Ok lo, t').
Proof. apply (allocate_low_high_commute CapTable_new 0 255); [reflexivity|reflexivity|lia]. Defined.
