(* ===== verification/Ipc.v ===== *)
(** * Kernel IPC ([source/kernel/neuron/src/ipc/mod.rs], [ipc/header.rs])

    The message header codec, endpoints (bounded FIFO queues with waiter lists)
    and the router that owns every endpoint and accounts for queued bytes
    globally and per owner. *)

From S2P Require Import Prelude Cap.

(** ** Message header *)

Record MessageHeader := mkMessageHeader {
  hdr_src : Z;
  hdr_dst : Z;
  hdr_ty : Z;
  hdr_flags : Z;
  hdr_len : Z
}.

(** Every field within its machine width. *)
Definition header_wf (h : MessageHeader) : Prop :=
  in_width 32 (hdr_src h) ∧ in_width 32 (hdr_dst h) ∧ in_width 16 (hdr_ty h) ∧
  in_width 16 (hdr_flags h) ∧ in_width 32 (hdr_len h).

Definition MessageHeader_to_le_bytes (h : MessageHeader) : list Z :=
  le_bytes 4 (hdr_src h) ++ le_bytes 4 (hdr_dst h) ++ le_bytes 2 (hdr_ty h) ++
  le_bytes 2 (hdr_flags h) ++ le_bytes 4 (hdr_len h).

Definition MessageHeader_from_le_bytes (bytes : list Z) : MessageHeader :=
  mkMessageHeader
    (le_value (slice 0 4 bytes)) (le_value (slice 4 8 bytes))
    (le_value (slice 8 10 bytes)) (le_value (slice 10 12 bytes))
    (le_value (slice 12 16 bytes)).

(** ** Data *)

Inductive IpcError :=
| NoSuchEndpoint
| QueueFull
| QueueEmpty
| IpcPermissionDenied
| TimedOut
| IpcNoSpace.

#[export] Instance IpcError_eq_dec : EqDecision IpcError.
Proof. solve_decision. Defined.

Record Message := mkMessage {
  msg_header : MessageHeader;
  msg_payload : list Z;
  msg_moved_cap : option Capability;
  msg_capmove_expected_ep : Z;
  msg_sender_service_id : Z
}.

(** [msg.payload.len()]. *)
Definition msg_len (m : Message) : Z := vlen (msg_payload m).

Definition Message_new (header : MessageHeader) (payload : list Z)
    (moved_cap : option Capability) : Message :=
  mkMessage header (take (Z.to_nat (hdr_len header)) payload) moved_cap 0 0.

Record Endpoint := mkEndpoint {
  ep_queue : list Message;
  ep_depth : Z;
  ep_queued_bytes : Z;
  ep_max_queued_bytes : Z;
  ep_owner : option Z;
  ep_alive : bool;
  ep_recv_waiters : list Z;
  ep_send_waiters : list Z
}.

(** Field updates. *)
Definition ep_set_queue (ep : Endpoint) (q : list Message) (bytes : Z) : Endpoint :=
  mkEndpoint q (ep_depth ep) bytes (ep_max_queued_bytes ep) (ep_owner ep) (ep_alive ep)
    (ep_recv_waiters ep) (ep_send_waiters ep).
Definition ep_set_waiters (ep : Endpoint) (recv send : list Z) : Endpoint :=
  mkEndpoint (ep_queue ep) (ep_depth ep) (ep_queued_bytes ep) (ep_max_queued_bytes ep)
    (ep_owner ep) (ep_alive ep) recv send.
(** [alive = false; queue.clear(); queued_bytes = 0] and both waiter lists drained. *)
Definition ep_closed (ep : Endpoint) : Endpoint :=
  mkEndpoint [] (ep_depth ep) 0 (ep_max_queued_bytes ep) (ep_owner ep) false [] [].

(** ** Endpoint operations *)

Definition MAX_FRAME_BYTES : Z := 8 * 1024.

Definition Endpoint_with_depth (depth : Z) (owner : option Z) : Endpoint :=
  mkEndpoint [] depth 0 (saturating_mul 64 depth MAX_FRAME_BYTES) owner true [] [].

Definition Endpoint_push (ep : Endpoint) (msg : Message) :
    result unit (IpcError * Message) * Endpoint :=
  if negb (ep_alive ep) then (Err (NoSuchEndpoint, msg), ep)
  else if ep_depth ep <=? vlen (ep_queue ep) then (Err (QueueFull, msg), ep)
  else
    let len := msg_len msg in
    if ep_max_queued_bytes ep <? saturating_add 64 (ep_queued_bytes ep) len
    then (Err (IpcNoSpace, msg), ep)
    else (Ok tt, ep_set_queue ep (ep_queue ep ++ [msg])
                   (saturating_add 64 (ep_queued_bytes ep) len)).

Definition Endpoint_pop (ep : Endpoint) : result Message IpcError * Endpoint :=
  if negb (ep_alive ep) then (Err NoSuchEndpoint, ep)
  else match ep_queue ep with
       | [] => (Err QueueEmpty, ep)
       | msg :: q =>
           (Ok msg, ep_set_queue ep q (saturating_sub (ep_queued_bytes ep) (msg_len msg)))
       end.

Definition Endpoint_push_front (ep : Endpoint) (msg : Message) :
    result unit IpcError * Endpoint :=
  if negb (ep_alive ep) then (Err NoSuchEndpoint, ep)
  else if ep_depth ep <=? vlen (ep_queue ep) then (Err QueueFull, ep)
  else
    let len := msg_len msg in
    if ep_max_queued_bytes ep <? saturating_add 64 (ep_queued_bytes ep) len
    then (Err IpcNoSpace, ep)
    else (Ok tt, ep_set_queue ep (msg :: ep_queue ep)
                   (saturating_add 64 (ep_queued_bytes ep) len)).

Definition Endpoint_register_recv_waiter (ep : Endpoint) (pid : Z) : Endpoint :=
  if negb (ep_alive ep) then ep
  else if bool_decide (pid ∈ ep_recv_waiters ep) then ep
  else ep_set_waiters ep (ep_recv_waiters ep ++ [pid]) (ep_send_waiters ep).

Definition Endpoint_register_send_waiter (ep : Endpoint) (pid : Z) : Endpoint :=
  if negb (ep_alive ep) then ep
  else if bool_decide (pid ∈ ep_send_waiters ep) then ep
  else ep_set_waiters ep (ep_recv_waiters ep) (ep_send_waiters ep ++ [pid]).

Definition Endpoint_pop_recv_waiter (ep : Endpoint) : option Z * Endpoint :=
  match ep_recv_waiters ep with
  | [] => (None, ep)
  | pid :: rest => (Some pid, ep_set_waiters ep rest (ep_send_waiters ep))
  end.

Definition Endpoint_pop_send_waiter (ep : Endpoint) : option Z * Endpoint :=
  match ep_send_waiters ep with
  | [] => (None, ep)
  | pid :: rest => (Some pid, ep_set_waiters ep (ep_recv_waiters ep) rest)
  end.

(** [retain(|p| *p != pid)]. *)
Definition drop_pid (pid : Z) (l : list Z) : list Z := filter (fun p => p ≠ pid) l.

Definition Endpoint_remove_recv_waiter (ep : Endpoint) (pid : Z) : bool * Endpoint :=
  let kept := drop_pid pid (ep_recv_waiters ep) in
  (negb (vlen (ep_recv_waiters ep) =? vlen kept), ep_set_waiters ep kept (ep_send_waiters ep)).

Definition Endpoint_remove_send_waiter (ep : Endpoint) (pid : Z) : bool * Endpoint :=
  let kept := drop_pid pid (ep_send_waiters ep) in
  (negb (vlen (ep_send_waiters ep) =? vlen kept), ep_set_waiters ep (ep_recv_waiters ep) kept).

Definition Endpoint_close_if_owned_by (ep : Endpoint) (owner : Z) :
    option (list Z * list Z) * Endpoint :=
  if negb (ep_alive ep) || negb (bool_decide (ep_owner ep = Some owner)) then (None, ep)
  else (Some (ep_recv_waiters ep, ep_send_waiters ep), ep_closed ep).

(** ** Router *)

(** [DENY_NEXT_SEND], the failpoint the default feature set compiles in, is a
    static that only the router reads: it is kept beside the router's fields. *)
Record Router := mkRouter {
  rt_endpoints : list Endpoint;
  rt_queued_bytes_total : Z;
  rt_max_queued_bytes_total : Z;
  rt_owner_queued_bytes : gmap Z Z;
  rt_max_queued_bytes_per_owner : Z;
  rt_deny_next_send : bool
}.

Definition rt_set_endpoints (r : Router) (eps : list Endpoint) : Router :=
  mkRouter eps (rt_queued_bytes_total r) (rt_max_queued_bytes_total r)
    (rt_owner_queued_bytes r) (rt_max_queued_bytes_per_owner r) (rt_deny_next_send r).
Definition rt_set_accounting (r : Router) (total : Z) (owners : gmap Z Z) : Router :=
  mkRouter (rt_endpoints r) total (rt_max_queued_bytes_total r)
    owners (rt_max_queued_bytes_per_owner r) (rt_deny_next_send r).
Definition rt_set_deny (r : Router) (b : bool) : Router :=
  mkRouter (rt_endpoints r) (rt_queued_bytes_total r) (rt_max_queued_bytes_total r)
    (rt_owner_queued_bytes r) (rt_max_queued_bytes_per_owner r) b.

Definition MAX_ENDPOINTS : Z := 384.
Definition MAX_ENDPOINTS_PER_OWNER : Z := 96.
Definition DEFAULT_MAX_QUEUED_BYTES_TOTAL : Z := 1024 * 1024.
Definition DEFAULT_MAX_QUEUED_BYTES_PER_OWNER : Z := 256 * 1024.

Definition Router_new (count : nat) : Router :=
  mkRouter (replicate count (Endpoint_with_depth 8 None)) 0
    DEFAULT_MAX_QUEUED_BYTES_TOTAL ∅ DEFAULT_MAX_QUEUED_BYTES_PER_OWNER false.

Definition Router_new_with_global_bytes_budget (count : nat) (max_total : Z) : Router :=
  let out := Router_new count in
  mkRouter (rt_endpoints out) (rt_queued_bytes_total out) max_total
    (rt_owner_queued_bytes out) (rt_max_queued_bytes_per_owner out) (rt_deny_next_send out).

Definition Router_new_with_bytes_budgets (count : nat) (max_total max_per_owner : Z) : Router :=
  let out := Router_new_with_global_bytes_budget count max_total in
  mkRouter (rt_endpoints out) (rt_queued_bytes_total out) (rt_max_queued_bytes_total out)
    (rt_owner_queued_bytes out) max_per_owner (rt_deny_next_send out).

(** [owner_queued_bytes.get(&owner).copied().unwrap_or(0)]. *)
Definition owner_bytes_of (owners : gmap Z Z) (owner : Z) : Z := default 0 (owners !! owner).

(** [*owner_queued_bytes.entry(owner).or_insert(0) += n]. *)
Definition owner_bytes_add (owners : gmap Z Z) (owner n : Z) : gmap Z Z :=
  <[owner := wrapping_add 64 (owner_bytes_of owners owner) n]> owners.

(** One iteration of the per-owner loop of [recompute_accounting]. *)
Definition recompute_owner (owners : gmap Z Z) (ep : Endpoint) : gmap Z Z :=
  if negb (ep_alive ep) then owners
  else match ep_owner ep with
       | Some owner => owner_bytes_add owners owner (ep_queued_bytes ep)
       | None => owners
       end.

Definition Router_recompute_accounting (r : Router) : Router :=
  rt_set_accounting r
    (foldl (fun acc ep => wrapping_add 64 acc (ep_queued_bytes ep)) 0 (rt_endpoints r))
    (foldl recompute_owner ∅ (rt_endpoints r)).

(** [endpoints.get(id as usize)]. *)
Definition rt_endpoint (r : Router) (id : Z) : option Endpoint := rt_endpoints r !! Z.to_nat id.
Definition rt_put_endpoint (r : Router) (id : Z) (ep : Endpoint) : Router :=
  rt_set_endpoints r (<[Z.to_nat id := ep]> (rt_endpoints r)).

(** The global and per-owner byte budgets [send] and [requeue_front] check. *)
Definition owner_budget_exceeded (r : Router) (owner : option Z) (len : Z) : bool :=
  match owner with
  | Some o => rt_max_queued_bytes_per_owner r
                <? saturating_add 64 (owner_bytes_of (rt_owner_queued_bytes r) o) len
  | None => false
  end.

(** Accounting after a successful push of [len] bytes. *)
Definition account_push (r : Router) (owner : option Z) (len : Z) : Router :=
  rt_set_accounting r (saturating_add 64 (rt_queued_bytes_total r) len)
    match owner with
    | Some o => owner_bytes_add (rt_owner_queued_bytes r) o len
    | None => rt_owner_queued_bytes r
    end.

(** Accounting after a successful pop of [len] bytes. *)
Definition account_pop (r : Router) (owner : option Z) (len : Z) : Router :=
  rt_set_accounting r (saturating_sub (rt_queued_bytes_total r) len)
    match owner with
    | Some o =>
        match rt_owner_queued_bytes r !! o with
        | Some v =>
            let v' := saturating_sub v len in
            if v' =? 0 then delete o (rt_owner_queued_bytes r)
            else <[o := v']> (rt_owner_queued_bytes r)
        | None => rt_owner_queued_bytes r
        end
    | None => rt_owner_queued_bytes r
    end.

Definition Router_send_returning_message (r : Router) (id : Z) (msg : Message) :
    result unit (IpcError * Message) * Router :=
  if rt_deny_next_send r then (Err (IpcPermissionDenied, msg), rt_set_deny r false)
  else
    let len := msg_len msg in
    let owner := rt_endpoint r id ≫= ep_owner in
    if rt_max_queued_bytes_total r <? saturating_add 64 (rt_queued_bytes_total r) len
    then (Err (IpcNoSpace, msg), r)
    else if owner_budget_exceeded r owner len then (Err (IpcNoSpace, msg), r)
    else match rt_endpoint r id with
         | None => (Err (NoSuchEndpoint, msg), r)
         | Some ep =>
             let '(res, ep') := Endpoint_push ep msg in
             let r' := rt_put_endpoint r id ep' in
             (res, if is_ok res then account_push r' owner len else r')
         end.

Definition Router_send (r : Router) (id : Z) (msg : Message) : result unit IpcError * Router :=
  let '(res, r') := Router_send_returning_message r id msg in (map_err fst res, r').

Definition Router_recv (r : Router) (id : Z) : result Message IpcError * Router :=
  let owner := rt_endpoint r id ≫= ep_owner in
  match rt_endpoint r id with
  | None => (Err NoSuchEndpoint, r)
  | Some ep =>
      let '(res, ep') := Endpoint_pop ep in
      let r' := rt_put_endpoint r id ep' in
      (res, match res with
            | Ok msg => account_pop r' owner (msg_len msg)
            | Err _ => r'
            end)
  end.

Definition Router_requeue_front (r : Router) (id : Z) (msg : Message) :
    result unit IpcError * Router :=
  let len := msg_len msg in
  let owner := rt_endpoint r id ≫= ep_owner in
  if rt_max_queued_bytes_total r <? saturating_add 64 (rt_queued_bytes_total r) len
  then (Err IpcNoSpace, r)
  else if owner_budget_exceeded r owner len then (Err IpcNoSpace, r)
  else match rt_endpoint r id with
       | None => (Err NoSuchEndpoint, r)
       | Some ep =>
           let '(res, ep') := Endpoint_push_front ep msg in
           let r' := rt_put_endpoint r id ep' in
           (res, if is_ok res then account_push r' owner len else r')
       end.

(** The shared shape of the waiter operations: look the endpoint up, refuse a
    missing or closed one, update it in place. *)
Definition with_live_endpoint {A} (r : Router) (id : Z) (f : Endpoint → A * Endpoint) :
    result A IpcError * Router :=
  match rt_endpoint r id with
  | None => (Err NoSuchEndpoint, r)
  | Some ep =>
      if negb (ep_alive ep) then (Err NoSuchEndpoint, r)
      else let '(a, ep') := f ep in (Ok a, rt_put_endpoint r id ep')
  end.

Definition Router_register_recv_waiter (r : Router) (id pid : Z) :=
  with_live_endpoint r id (fun ep => (tt, Endpoint_register_recv_waiter ep pid)).
Definition Router_register_send_waiter (r : Router) (id pid : Z) :=
  with_live_endpoint r id (fun ep => (tt, Endpoint_register_send_waiter ep pid)).
Definition Router_pop_recv_waiter (r : Router) (id : Z) :=
  with_live_endpoint r id Endpoint_pop_recv_waiter.
Definition Router_pop_send_waiter (r : Router) (id : Z) :=
  with_live_endpoint r id Endpoint_pop_send_waiter.
Definition Router_remove_recv_waiter (r : Router) (id pid : Z) :=
  with_live_endpoint r id (fun ep => Endpoint_remove_recv_waiter ep pid).
Definition Router_remove_send_waiter (r : Router) (id pid : Z) :=
  with_live_endpoint r id (fun ep => Endpoint_remove_send_waiter ep pid).

(** [ep.alive && ep.owner == Some(owner)]. *)
Definition live_owned_by (owner : Z) (ep : Endpoint) : bool :=
  ep_alive ep && bool_decide (ep_owner ep = Some owner).

Definition Router_create_endpoint (r : Router) (depth : Z) (owner : option Z) :
    result Z IpcError * Router :=
  let depth := Z.max 1 (Z.min depth 256) in
  if MAX_ENDPOINTS <=? vlen (rt_endpoints r) then (Err IpcNoSpace, r)
  else
    let over_quota :=
      match owner with
      | Some o => MAX_ENDPOINTS_PER_OWNER
                    <=? vlen (filter (fun ep => live_owned_by o ep = true) (rt_endpoints r))
      | None => false
      end in
    if over_quota then (Err IpcNoSpace, r)
    else (Ok (vlen (rt_endpoints r)),
          rt_set_endpoints r (rt_endpoints r ++ [Endpoint_with_depth depth owner])).

Definition Router_endpoint_alive (r : Router) (id : Z) : bool :=
  match rt_endpoint r id with Some ep => ep_alive ep | None => false end.

Definition Router_pending (r : Router) (id : Z) : bool :=
  match rt_endpoint r id with
  | Some ep => ep_alive ep && negb (bool_decide (ep_queue ep = []))
  | None => false
  end.

(** The loop of [close_endpoints_for_owner]: the endpoints after it and the
    waiters it drained, in order. *)
Fixpoint close_owned_loop (owner : Z) (eps : list Endpoint) : list Z * list Endpoint :=
  match eps with
  | [] => ([], [])
  | ep :: eps' =>
      let '(drained, ep') := Endpoint_close_if_owned_by ep owner in
      let '(out, rest) := close_owned_loop owner eps' in
      (match drained with Some (recv, send) => recv ++ send ++ out | None => out end,
       ep' :: rest)
  end.

Definition Router_close_endpoints_for_owner (r : Router) (owner : Z) : list Z * Router :=
  let '(out, eps) := close_owned_loop owner (rt_endpoints r) in
  (sort_dedup out, Router_recompute_accounting (rt_set_endpoints r eps)).

Definition Router_close_endpoint (r : Router) (id : Z) : result (list Z) IpcError * Router :=
  match rt_endpoint r id with
  | None => (Err NoSuchEndpoint, r)
  | Some ep =>
      if negb (ep_alive ep) then (Err NoSuchEndpoint, r)
      else (Ok (sort_dedup (ep_recv_waiters ep ++ ep_send_waiters ep)),
            Router_recompute_accounting (rt_put_endpoint r id (ep_closed ep)))
  end.

Definition Router_remove_waiter_from_all (r : Router) (pid : Z) : Router :=
  rt_set_endpoints r
    (map (fun ep => (Endpoint_remove_send_waiter (Endpoint_remove_recv_waiter ep pid).2 pid).2)
       (rt_endpoints r)).

(** [failpoints::deny_next_send]. *)
Definition deny_next_send (r : Router) : Router := rt_set_deny r true.
