(* ===== verification/IpcProps.v ===== *)
(** * Properties of kernel IPC

    The router invariant (queue depth, byte budgets, exact accounting, waiter
    uniqueness, endpoint quotas) and its preservation by every operation; FIFO
    delivery; the receive/requeue round trip; what closing endpoints does; the
    header codec. *)

From S2P Require Import Prelude Cap Ipc.

(** ** Invariants *)

Record endpoint_ok (ep : Endpoint) : Prop := {
  eo_depth : vlen (ep_queue ep) ≤ ep_depth ep;
  eo_bytes : ep_queued_bytes ep = zsum msg_len (ep_queue ep);
  eo_budget : ep_queued_bytes ep ≤ ep_max_queued_bytes ep;
  eo_recv : NoDup (ep_recv_waiters ep);
  eo_send : NoDup (ep_send_waiters ep);
  eo_dead : ep_alive ep = false →
            ep_queue ep = [] ∧ ep_recv_waiters ep = [] ∧ ep_send_waiters ep = []
}.

(** Bytes an endpoint charges to [o]. *)
Definition charged_to (o : Z) (ep : Endpoint) : Z :=
  if live_owned_by o ep then ep_queued_bytes ep else 0.

Definition live_unit (o : Z) (ep : Endpoint) : Z := if live_owned_by o ep then 1 else 0.

Record router_ok (r : Router) : Prop := {
  ro_eps : Forall endpoint_ok (rt_endpoints r);
  ro_total : rt_queued_bytes_total r = zsum ep_queued_bytes (rt_endpoints r);
  ro_total_max : rt_queued_bytes_total r ≤ rt_max_queued_bytes_total r;
  ro_owner : ∀ o, owner_bytes_of (rt_owner_queued_bytes r) o
                  = zsum (charged_to o) (rt_endpoints r);
  ro_owner_max : ∀ o, owner_bytes_of (rt_owner_queued_bytes r) o
                      ≤ rt_max_queued_bytes_per_owner r;
  ro_quota : ∀ o, zsum (live_unit o) (rt_endpoints r) ≤ MAX_ENDPOINTS_PER_OWNER;
  ro_count : vlen (rt_endpoints r) ≤ MAX_ENDPOINTS;
  ro_budget : rt_max_queued_bytes_total r < max_of 64
}.

(** ** Endpoint operations keep the endpoint invariant *)

Lemma msg_len_nonneg m : 0 ≤ msg_len m.
Proof. apply vlen_nonneg. Qed.

Lemma zsum_msg_len_nonneg q : 0 ≤ zsum msg_len q.
Proof. apply zsum_nonneg. intros; apply msg_len_nonneg. Qed.

Lemma endpoint_ok_nonneg ep : endpoint_ok ep → 0 ≤ ep_queued_bytes ep.
Proof. intros H. rewrite (eo_bytes _ H). apply zsum_msg_len_nonneg. Qed.
#[export] Hint Resolve msg_len_nonneg zsum_msg_len_nonneg endpoint_ok_nonneg : neuron.

Lemma endpoint_ok_set_queue ep q b :
  endpoint_ok ep → ep_alive ep = true → vlen q ≤ ep_depth ep →
  b = zsum msg_len q → b ≤ ep_max_queued_bytes ep → endpoint_ok (ep_set_queue ep q b).
Proof. intros [] Ha Hd Hb Hm. split; simpl; auto. congruence. Qed.

Lemma endpoint_ok_set_waiters ep rw sw :
  endpoint_ok ep → NoDup rw → NoDup sw →
  (ep_alive ep = false → rw = [] ∧ sw = []) → endpoint_ok (ep_set_waiters ep rw sw).
Proof. intros [] Hr Hs Hd. split; simpl; auto. naive_solver. Qed.

Lemma endpoint_ok_closed ep : endpoint_ok ep → endpoint_ok (ep_closed ep).
Proof.
  intros H. pose proof (endpoint_ok_nonneg _ H). destruct H. split; simpl.
  - pose proof (vlen_nonneg (ep_queue ep)). unfold vlen at 1. simpl. lia.
  - done.
  - lia.
  - constructor.
  - constructor.
  - done.
Qed.

Lemma endpoint_ok_with_depth depth owner : 0 ≤ depth → endpoint_ok (Endpoint_with_depth depth owner).
Proof.
  intros H. split; simpl; try done.
  - unfold saturating_mul, max_of, MAX_FRAME_BYTES. lia.
  - constructor.
  - constructor.
Qed.

Lemma drop_pid_NoDup pid l : NoDup l → NoDup (drop_pid pid l).
Proof. apply NoDup_filter. Qed.

Lemma NoDup_snoc (l : list Z) x : NoDup l → x ∉ l → NoDup (l ++ [x]).
Proof.
  intros Hl Hx. apply NoDup_app. split_and!; [done| |apply NoDup_singleton].
  intros y Hy Hy'. apply list_elem_of_singleton in Hy' as ->. done.
Qed.

Lemma register_recv_ok ep pid : endpoint_ok ep → endpoint_ok (Endpoint_register_recv_waiter ep pid).
Proof.
  intros H. unfold Endpoint_register_recv_waiter. run; [done|done|].
  destruct H. apply endpoint_ok_set_waiters; [split; auto|by apply NoDup_snoc|done|congruence].
Qed.

Lemma register_send_ok ep pid : endpoint_ok ep → endpoint_ok (Endpoint_register_send_waiter ep pid).
Proof.
  intros H. unfold Endpoint_register_send_waiter. run; [done|done|].
  destruct H. apply endpoint_ok_set_waiters; [split; auto|done|by apply NoDup_snoc|congruence].
Qed.

Lemma pop_recv_waiter_ok ep : endpoint_ok ep → endpoint_ok (Endpoint_pop_recv_waiter ep).2.
Proof.
  intros H. unfold Endpoint_pop_recv_waiter. destruct (ep_recv_waiters ep) as [|p w] eqn:E; [done|].
  destruct H. rewrite E in *. apply NoDup_cons in eo_recv0 as [? ?].
  apply endpoint_ok_set_waiters; [split; rewrite ?E; auto|done|done|naive_solver].
  constructor; auto.
Qed.

Lemma pop_send_waiter_ok ep : endpoint_ok ep → endpoint_ok (Endpoint_pop_send_waiter ep).2.
Proof.
  intros H. unfold Endpoint_pop_send_waiter. destruct (ep_send_waiters ep) as [|p w] eqn:E; [done|].
  destruct H. rewrite E in *. apply NoDup_cons in eo_send0 as [? ?].
  apply endpoint_ok_set_waiters; [split; rewrite ?E; auto|done|done|naive_solver].
  constructor; auto.
Qed.

Lemma remove_recv_waiter_ok ep pid : endpoint_ok ep → endpoint_ok (Endpoint_remove_recv_waiter ep pid).2.
Proof.
  intros H. simpl. apply endpoint_ok_set_waiters; [done|apply drop_pid_NoDup, H|apply H|].
  intros Hd. destruct (eo_dead _ H Hd) as (_ & -> & ->). done.
Qed.

Lemma remove_send_waiter_ok ep pid : endpoint_ok ep → endpoint_ok (Endpoint_remove_send_waiter ep pid).2.
Proof.
  intros H. simpl. apply endpoint_ok_set_waiters; [done|apply H|apply drop_pid_NoDup, H|].
  intros Hd. destruct (eo_dead _ H Hd) as (_ & -> & ->). done.
Qed.

(** ** Router accounting *)

Lemma charged_to_bounds o ep : endpoint_ok ep → 0 ≤ charged_to o ep ≤ ep_queued_bytes ep.
Proof. intros H. pose proof (endpoint_ok_nonneg _ H). unfold charged_to. destruct (live_owned_by o ep); lia. Qed.

Section Accounting.
Context (r : Router) (Hok : router_ok r).

Lemma rt_endpoint_elem id ep : rt_endpoint r id = Some ep → ep ∈ rt_endpoints r.
Proof. intros H. eapply list_elem_of_lookup_2. exact H. Qed.

Lemma rt_endpoint_ok id ep : rt_endpoint r id = Some ep → endpoint_ok ep.
Proof.
  intros H. pose proof (ro_eps _ Hok) as HF. rewrite Forall_forall in HF.
  apply HF. by eapply rt_endpoint_elem.
Qed.

Lemma queued_nonneg ep : ep ∈ rt_endpoints r → 0 ≤ ep_queued_bytes ep.
Proof.
  intros H. pose proof (ro_eps _ Hok) as HF. rewrite Forall_forall in HF.
  by apply endpoint_ok_nonneg, HF.
Qed.

Lemma ep_le_total id ep : rt_endpoint r id = Some ep → ep_queued_bytes ep ≤ rt_queued_bytes_total r.
Proof.
  intros H. rewrite (ro_total _ Hok). eapply zsum_elem_le; [|exact H]. apply queued_nonneg.
Qed.

Lemma total_nonneg : 0 ≤ rt_queued_bytes_total r.
Proof. rewrite (ro_total _ Hok). apply zsum_nonneg, queued_nonneg. Qed.

Lemma owner_le_total o : 0 ≤ owner_bytes_of (rt_owner_queued_bytes r) o ≤ rt_queued_bytes_total r.
Proof.
  rewrite (ro_owner _ Hok), (ro_total _ Hok). pose proof (ro_eps _ Hok) as HF.
  rewrite Forall_forall in HF. split.
  - apply zsum_nonneg. intros x Hx. by apply charged_to_bounds, HF.
  - apply zsum_le. intros x Hx. by apply charged_to_bounds, HF.
Qed.

(** The total fits its word with room: saturation never happens. *)
Lemma total_fits : rt_queued_bytes_total r < max_of 64.
Proof. pose proof (ro_total_max _ Hok). pose proof (ro_budget _ Hok). lia. Qed.

(** Replacing endpoint [ep] by [ep'] and adjusting the accounting by the
    difference keeps the invariant. *)
Lemma router_ok_update id ep ep' total' owners' :
  rt_endpoint r id = Some ep → endpoint_ok ep' →
  ep_owner ep' = ep_owner ep → ep_alive ep' = ep_alive ep →
  total' = rt_queued_bytes_total r - ep_queued_bytes ep + ep_queued_bytes ep' →
  total' ≤ rt_max_queued_bytes_total r →
  (∀ o, owner_bytes_of owners' o =
        owner_bytes_of (rt_owner_queued_bytes r) o - charged_to o ep + charged_to o ep') →
  (∀ o, owner_bytes_of owners' o ≤ rt_max_queued_bytes_per_owner r) →
  router_ok (rt_set_accounting (rt_put_endpoint r id ep') total' owners').
Proof.
  intros Hep Hok' Ho Ha Ht Htm Hc Hcm.
  assert (Hl : ∀ o, live_unit o ep' = live_unit o ep)
    by (intros o; unfold live_unit, live_owned_by; by rewrite Ho, Ha).
  destruct Hok. split; simpl; try done.
  - by apply Forall_insert.
  - erewrite zsum_insert by exact Hep. lia.
  - intros o. erewrite zsum_insert by exact Hep. rewrite Hc, ro_owner0. lia.
  - intros o. erewrite zsum_insert by exact Hep. rewrite Hl. specialize (ro_quota0 o). lia.
  - unfold vlen in *. by rewrite length_insert.
Qed.

(** An update that keeps owner, liveness and queued bytes keeps the invariant. *)
Lemma router_ok_put id ep ep' :
  rt_endpoint r id = Some ep → endpoint_ok ep' →
  ep_owner ep' = ep_owner ep → ep_alive ep' = ep_alive ep →
  ep_queued_bytes ep' = ep_queued_bytes ep → router_ok (rt_put_endpoint r id ep').
Proof.
  intros Hep Hok' Ho Ha Hq.
  replace (rt_put_endpoint r id ep') with
    (rt_set_accounting (rt_put_endpoint r id ep') (rt_queued_bytes_total r) (rt_owner_queued_bytes r))
    by done.
  eapply router_ok_update; eauto using ro_total_max, ro_owner_max; [lia|].
  intros o. unfold charged_to, live_owned_by. rewrite Ho, Ha, Hq. lia.
Qed.
End Accounting.

(** What [account_push] and [account_pop] do to each owner's charge. *)
Lemma owner_bytes_add_charge owners w n o :
  owner_bytes_of owners w + n < 2 ^ 64 → 0 ≤ owner_bytes_of owners w + n →
  owner_bytes_of (owner_bytes_add owners w n) o =
  owner_bytes_of owners o + if bool_decide (Some w = Some o) then n else 0.
Proof.
  intros Hlt Hnn. unfold owner_bytes_add. unfold owner_bytes_of at 1.
  destruct (decide (w = o)) as [->|Hne].
  - rewrite lookup_insert_eq, bool_decide_eq_true_2 by done. simpl.
    unfold wrapping_add. by rewrite Z.mod_small.
  - rewrite lookup_insert_ne, bool_decide_eq_false_2 by congruence. unfold owner_bytes_of. lia.
Qed.

Lemma account_pop_charge r owner n o :
  (∀ w, owner = Some w → n ≤ owner_bytes_of (rt_owner_queued_bytes r) w) → 0 ≤ n →
  owner_bytes_of (rt_owner_queued_bytes (account_pop r owner n)) o =
  owner_bytes_of (rt_owner_queued_bytes r) o - if bool_decide (owner = Some o) then n else 0.
Proof.
  intros Hc Hn. unfold account_pop, owner_bytes_of in *. simpl.
  destruct owner as [w|]; [|rewrite bool_decide_eq_false_2 by done; lia].
  specialize (Hc w eq_refl). destruct (decide (w = o)) as [->|Hne].
  - rewrite bool_decide_eq_true_2 by done.
    destruct (rt_owner_queued_bytes r !! o) as [v|] eqn:Ev; simpl in *; [|rewrite Ev; simpl; lia].
    destruct (Z.eqb_spec (saturating_sub v n) 0);
      rewrite ?lookup_delete_eq, ?lookup_insert_eq; simpl; unfold saturating_sub in *; lia.
  - rewrite bool_decide_eq_false_2 by congruence.
    destruct (rt_owner_queued_bytes r !! w) as [v|]; [|lia].
    destruct (_ =? 0); rewrite ?lookup_delete_ne, ?lookup_insert_ne by done; lia.
Qed.

Lemma live_owned_by_alive o ep :
  ep_alive ep = true → live_owned_by o ep = bool_decide (ep_owner ep = Some o).
Proof. intros H. unfold live_owned_by. by rewrite H. Qed.

(** An owner's account covers what each of its live endpoints has queued. *)
Lemma owner_covers_endpoint r id ep w :
  router_ok r → rt_endpoint r id = Some ep → ep_alive ep = true → ep_owner ep = Some w →
  ep_queued_bytes ep ≤ owner_bytes_of (rt_owner_queued_bytes r) w.
Proof.
  intros Hok Hep Ha Ho. rewrite (ro_owner _ Hok).
  replace (ep_queued_bytes ep) with (charged_to w ep).
  - eapply zsum_elem_le; [|exact Hep]. intros y Hy. pose proof (ro_eps _ Hok) as HF.
    rewrite Forall_forall in HF. by apply charged_to_bounds, HF.
  - unfold charged_to. by rewrite live_owned_by_alive, bool_decide_eq_true_2.
Qed.

(** A successful push charges the endpoint, the router and the owner alike. *)
Lemma router_ok_push r id ep ep' msg :
  router_ok r → rt_endpoint r id = Some ep → ep_alive ep = true →
  saturating_add 64 (rt_queued_bytes_total r) (msg_len msg) ≤ rt_max_queued_bytes_total r →
  owner_budget_exceeded r (ep_owner ep) (msg_len msg) = false →
  endpoint_ok ep' → ep_owner ep' = ep_owner ep → ep_alive ep' = true →
  ep_queued_bytes ep' = ep_queued_bytes ep + msg_len msg →
  router_ok (account_push (rt_put_endpoint r id ep') (ep_owner ep) (msg_len msg)).
Proof.
  intros Hok Hep Hlive Hbud Hown Hok' Ho Ha Hq.
  pose proof (msg_len_nonneg msg) as Hm. pose proof (ro_budget _ Hok) as Hb.
  pose proof (total_nonneg _ Hok) as Ht.
  assert (Hsum : rt_queued_bytes_total r + msg_len msg < max_of 64)
    by (unfold saturating_add in Hbud; lia).
  assert (Hchg : ∀ o, owner_bytes_of (rt_owner_queued_bytes
                        (account_push (rt_put_endpoint r id ep') (ep_owner ep) (msg_len msg))) o =
                      owner_bytes_of (rt_owner_queued_bytes r) o +
                      if bool_decide (ep_owner ep = Some o) then msg_len msg else 0).
  { intros o. unfold account_push. simpl. destruct (ep_owner ep) as [w|].
    - pose proof (owner_le_total _ Hok w). unfold max_of in Hsum. apply owner_bytes_add_charge; lia.
    - rewrite bool_decide_eq_false_2 by done. lia. }
  apply router_ok_update with ep; try done; try congruence.
  - simpl. unfold saturating_add in *. lia.
  - intros o. rewrite Hchg. unfold charged_to. rewrite !live_owned_by_alive by done.
    rewrite Ho, Hq. case_bool_decide; lia.
  - intros o. rewrite Hchg. pose proof (ro_owner_max _ Hok o) as Hmax.
    case_bool_decide as E; [|lia]. rewrite E in Hown. simpl in Hown. simpl_bool.
    pose proof (owner_le_total _ Hok o). unfold saturating_add in Hown. lia.
Qed.

(** A successful pop gives the bytes back. *)
Lemma router_ok_pop r id ep ep' msg :
  router_ok r → rt_endpoint r id = Some ep → ep_alive ep = true →
  endpoint_ok ep' → ep_owner ep' = ep_owner ep → ep_alive ep' = true →
  ep_queued_bytes ep' = ep_queued_bytes ep - msg_len msg →
  router_ok (account_pop (rt_put_endpoint r id ep') (ep_owner ep) (msg_len msg)).
Proof.
  intros Hok Hep Hlive Hok' Ho Ha Hq.
  pose proof (msg_len_nonneg msg) as Hm. pose proof (endpoint_ok_nonneg _ Hok') as Hn'.
  pose proof (ep_le_total _ Hok _ _ Hep) as Hle.
  assert (Hcharge : ∀ w, ep_owner ep = Some w → msg_len msg ≤ owner_bytes_of (rt_owner_queued_bytes r) w).
  { intros w E. pose proof (owner_covers_endpoint r id ep w Hok Hep Hlive E). lia. }
  pose proof (fun o => account_pop_charge (rt_put_endpoint r id ep') (ep_owner ep) (msg_len msg) o Hcharge Hm) as Hchg.
  simpl in Hchg.
  apply router_ok_update with ep; try done; try congruence.
  - simpl. unfold saturating_sub. lia.
  - simpl. pose proof (ro_total_max _ Hok). unfold saturating_sub. lia.
  - intros o. unfold account_pop in Hchg. simpl in Hchg. rewrite Hchg.
    unfold charged_to. rewrite !live_owned_by_alive by done. rewrite Ho, Hq. case_bool_decide; lia.
  - intros o. unfold account_pop in Hchg. simpl in Hchg. rewrite Hchg.
    pose proof (ro_owner_max _ Hok o). case_bool_decide; lia.
Qed.

(** ** Queue operations of an endpoint *)

Lemma push_cases ep msg :
  (∃ e, Endpoint_push ep msg = (Err (e, msg), ep)) ∨
  (ep_alive ep = true ∧ vlen (ep_queue ep) < ep_depth ep ∧
   saturating_add 64 (ep_queued_bytes ep) (msg_len msg) ≤ ep_max_queued_bytes ep ∧
   Endpoint_push ep msg =
     (Ok tt, ep_set_queue ep (ep_queue ep ++ [msg])
               (saturating_add 64 (ep_queued_bytes ep) (msg_len msg)))).
Proof. unfold Endpoint_push. run; try (left; by eexists). by right. Qed.

Lemma push_front_cases ep msg :
  (∃ e, Endpoint_push_front ep msg = (Err e, ep)) ∨
  (ep_alive ep = true ∧ vlen (ep_queue ep) < ep_depth ep ∧
   saturating_add 64 (ep_queued_bytes ep) (msg_len msg) ≤ ep_max_queued_bytes ep ∧
   Endpoint_push_front ep msg =
     (Ok tt, ep_set_queue ep (msg :: ep_queue ep)
               (saturating_add 64 (ep_queued_bytes ep) (msg_len msg)))).
Proof. unfold Endpoint_push_front. run; try (left; by eexists). by right. Qed.

Lemma pop_cases ep :
  (∃ e, Endpoint_pop ep = (Err e, ep)) ∨
  (∃ msg q, ep_alive ep = true ∧ ep_queue ep = msg :: q ∧
   Endpoint_pop ep =
     (Ok msg, ep_set_queue ep q (saturating_sub (ep_queued_bytes ep) (msg_len msg)))).
Proof. unfold Endpoint_pop. run; try (left; by eexists). right. by eexists _, _. Qed.

(** Writing an endpoint back unchanged. *)
Lemma rt_put_same r id ep : rt_endpoint r id = Some ep → rt_put_endpoint r id ep = r.
Proof.
  intros H. unfold rt_put_endpoint, rt_set_endpoints. rewrite list_insert_id by done.
  by destruct r.
Qed.

Lemma rt_endpoint_put r id ep ep' :
  rt_endpoint r id = Some ep → rt_endpoint (rt_put_endpoint r id ep') id = Some ep'.
Proof.
  intros H. unfold rt_endpoint, rt_put_endpoint. simpl.
  apply list_lookup_insert_eq. by eapply lookup_lt_Some.
Qed.

(** [send], [requeue_front] and [recv] either fail leaving the router as it
    was (but for the failpoint flag) or update one endpoint and the accounts. *)
Lemma send_cases r id msg :
  (∃ e, Router_send_returning_message r id msg =
        (Err (e, msg), rt_set_deny r false)) ∨
  (∃ ep, rt_endpoint r id = Some ep ∧ rt_deny_next_send r = false ∧ ep_alive ep = true ∧
     vlen (ep_queue ep) < ep_depth ep ∧
     saturating_add 64 (ep_queued_bytes ep) (msg_len msg) ≤ ep_max_queued_bytes ep ∧
     saturating_add 64 (rt_queued_bytes_total r) (msg_len msg) ≤ rt_max_queued_bytes_total r ∧
     owner_budget_exceeded r (ep_owner ep) (msg_len msg) = false ∧
     Router_send_returning_message r id msg =
       (Ok tt, account_push
          (rt_put_endpoint r id
             (ep_set_queue ep (ep_queue ep ++ [msg])
                (saturating_add 64 (ep_queued_bytes ep) (msg_len msg))))
          (ep_owner ep) (msg_len msg))).
Proof.
  unfold Router_send_returning_message. destruct (rt_deny_next_send r) eqn:Hd; [left; by eexists|].
  assert (Hr : rt_set_deny r false = r) by (destruct r; simpl in *; by subst).
  rewrite Hr. destruct (rt_max_queued_bytes_total r <? _) eqn:Hb; [left; by eexists|].
  destruct (owner_budget_exceeded _ _ _) eqn:Ho; [left; by eexists|].
  destruct (rt_endpoint r id) as [ep|] eqn:He; [|left; by eexists].
  destruct (push_cases ep msg) as [[e E]|(Ha & Hv & Hq & E)]; rewrite E; simpl.
  - left. exists e. by rewrite rt_put_same.
  - right. exists ep. simpl_bool. done.
Qed.

Lemma requeue_cases r id msg :
  (∃ e, Router_requeue_front r id msg = (Err e, r)) ∨
  (∃ ep, rt_endpoint r id = Some ep ∧ ep_alive ep = true ∧
     vlen (ep_queue ep) < ep_depth ep ∧
     saturating_add 64 (ep_queued_bytes ep) (msg_len msg) ≤ ep_max_queued_bytes ep ∧
     saturating_add 64 (rt_queued_bytes_total r) (msg_len msg) ≤ rt_max_queued_bytes_total r ∧
     owner_budget_exceeded r (ep_owner ep) (msg_len msg) = false ∧
     Router_requeue_front r id msg =
       (Ok tt, account_push
          (rt_put_endpoint r id
             (ep_set_queue ep (msg :: ep_queue ep)
                (saturating_add 64 (ep_queued_bytes ep) (msg_len msg))))
          (ep_owner ep) (msg_len msg))).
Proof.
  unfold Router_requeue_front.
  destruct (rt_max_queued_bytes_total r <? _) eqn:Hb; [left; by eexists|].
  destruct (owner_budget_exceeded _ _ _) eqn:Ho; [left; by eexists|].
  destruct (rt_endpoint r id) as [ep|] eqn:He; [|left; by eexists].
  destruct (push_front_cases ep msg) as [[e E]|(Ha & Hv & Hq & E)]; rewrite E; simpl.
  - left. exists e. by rewrite rt_put_same.
  - right. exists ep. simpl_bool. done.
Qed.

Lemma recv_cases r id :
  (∃ e, Router_recv r id = (Err e, r)) ∨
  (∃ ep msg q, rt_endpoint r id = Some ep ∧ ep_alive ep = true ∧ ep_queue ep = msg :: q ∧
     Router_recv r id =
       (Ok msg, account_pop
          (rt_put_endpoint r id
             (ep_set_queue ep q (saturating_sub (ep_queued_bytes ep) (msg_len msg))))
          (ep_owner ep) (msg_len msg))).
Proof.
  unfold Router_recv. destruct (rt_endpoint r id) as [ep|] eqn:He; [|left; by eexists].
  destruct (pop_cases ep) as [[e E]|(msg & q & Ha & Hq & E)]; rewrite E; simpl.
  - left. exists e. by rewrite rt_put_same.
  - right. by exists ep, msg, q.
Qed.

(** ** The invariant is preserved *)

Lemma router_ok_deny r b : router_ok r → router_ok (rt_set_deny r b).
Proof. intros []. by split. Qed.

(** The endpoint a push leaves behind, for either end of the queue. *)
Lemma pushed_endpoint_ok r id ep q msg :
  router_ok r → rt_endpoint r id = Some ep → ep_alive ep = true →
  vlen (ep_queue ep) < ep_depth ep →
  saturating_add 64 (ep_queued_bytes ep) (msg_len msg) ≤ ep_max_queued_bytes ep →
  saturating_add 64 (rt_queued_bytes_total r) (msg_len msg) ≤ rt_max_queued_bytes_total r →
  vlen q = vlen (ep_queue ep) + 1 → zsum msg_len q = zsum msg_len (ep_queue ep) + msg_len msg →
  saturating_add 64 (ep_queued_bytes ep) (msg_len msg) = ep_queued_bytes ep + msg_len msg ∧
  endpoint_ok (ep_set_queue ep q (saturating_add 64 (ep_queued_bytes ep) (msg_len msg))).
Proof.
  intros Hok Hep Ha Hd Hb Hg Hq Hz. pose proof (rt_endpoint_ok _ Hok _ _ Hep) as Heo.
  pose proof (ep_le_total _ Hok _ _ Hep). pose proof (ro_budget _ Hok).
  assert (Hs : saturating_add 64 (ep_queued_bytes ep) (msg_len msg) = ep_queued_bytes ep + msg_len msg)
    by (unfold saturating_add in *; lia).
  split; [done|]. apply endpoint_ok_set_queue; [done|done|lia| |done].
  rewrite Hs, Hz, (eo_bytes _ Heo). done.
Qed.

Lemma send_preserves r id msg : router_ok r → router_ok (Router_send_returning_message r id msg).2.
Proof.
  intros Hok. destruct (send_cases r id msg) as [[e ->]|(ep & Hep & _ & Ha & Hd & Hb & Hg & Ho & ->)];
    simpl; [by apply router_ok_deny|].
  destruct (pushed_endpoint_ok r id ep (ep_queue ep ++ [msg]) msg) as [Hs Hok']; try done.
  { by rewrite vlen_app. }
  { rewrite zsum_app. simpl. lia. }
  apply router_ok_push; try done.
Qed.

Lemma requeue_preserves r id msg : router_ok r → router_ok (Router_requeue_front r id msg).2.
Proof.
  intros Hok. destruct (requeue_cases r id msg) as [[e ->]|(ep & Hep & Ha & Hd & Hb & Hg & Ho & ->)];
    simpl; [done|].
  destruct (pushed_endpoint_ok r id ep (msg :: ep_queue ep) msg) as [Hs Hok']; try done.
  { unfold vlen. simpl. lia. }
  { simpl. lia. }
  apply router_ok_push; try done.
Qed.

(** The endpoint a pop leaves behind. *)
Lemma popped_endpoint_ok ep msg q :
  endpoint_ok ep → ep_alive ep = true → ep_queue ep = msg :: q →
  saturating_sub (ep_queued_bytes ep) (msg_len msg) = ep_queued_bytes ep - msg_len msg ∧
  endpoint_ok (ep_set_queue ep q (saturating_sub (ep_queued_bytes ep) (msg_len msg))).
Proof.
  intros Heo Ha Hq. pose proof (eo_bytes _ Heo) as Hb. pose proof (eo_depth _ Heo) as Hd.
  pose proof (eo_budget _ Heo) as Hbu. pose proof (msg_len_nonneg msg) as Hm.
  rewrite Hq in Hb, Hd. simpl in Hb. unfold vlen in Hd. simpl in Hd.
  pose proof (zsum_msg_len_nonneg q) as Hz.
  assert (Hs : saturating_sub (ep_queued_bytes ep) (msg_len msg) = ep_queued_bytes ep - msg_len msg)
    by (unfold saturating_sub; lia).
  split; [done|]. apply endpoint_ok_set_queue; [done|done|unfold vlen; lia|lia|lia].
Qed.

Lemma recv_preserves r id : router_ok r → router_ok (Router_recv r id).2.
Proof.
  intros Hok. destruct (recv_cases r id) as [[e ->]|(ep & msg & q & Hep & Ha & Hq & ->)]; simpl; [done|].
  destruct (popped_endpoint_ok ep msg q) as [Hs Hok']; try done.
  { by eapply rt_endpoint_ok. }
  apply router_ok_pop; try done.
Qed.

Lemma with_live_preserves {A} r id (f : Endpoint → A * Endpoint) :
  router_ok r →
  (∀ ep, endpoint_ok ep → endpoint_ok (f ep).2) →
  (∀ ep, ep_owner (f ep).2 = ep_owner ep ∧ ep_alive (f ep).2 = ep_alive ep ∧
         ep_queued_bytes (f ep).2 = ep_queued_bytes ep) →
  router_ok (with_live_endpoint r id f).2.
Proof.
  intros Hok Hf Hs. unfold with_live_endpoint. destruct (rt_endpoint r id) as [ep|] eqn:He; [|done].
  destruct (ep_alive ep) eqn:Ha; simpl; [|done]. specialize (Hs ep). specialize (Hf ep).
  destruct (f ep) as [a ep']; simpl in *. destruct Hs as (? & ? & ?).
  eapply router_ok_put; eauto. apply Hf. by eapply rt_endpoint_ok.
Qed.

(** *** Recomputed accounting *)

Lemma foldl_wrapping_total eps acc :
  Forall endpoint_ok eps → 0 ≤ acc → acc + zsum ep_queued_bytes eps < 2 ^ 64 →
  foldl (fun acc ep => wrapping_add 64 acc (ep_queued_bytes ep)) acc eps
  = acc + zsum ep_queued_bytes eps.
Proof.
  intros HF. revert acc. induction HF as [|ep eps Hep HF IH]; intros acc Ha Hlt; simpl; [lia|].
  simpl in Hlt. pose proof (endpoint_ok_nonneg _ Hep).
  assert (0 ≤ zsum ep_queued_bytes eps).
  { apply zsum_nonneg. intros x Hx. rewrite Forall_forall in HF. by apply endpoint_ok_nonneg, HF. }
  unfold wrapping_add at 2. rewrite Z.mod_small by lia. rewrite IH; lia.
Qed.

Lemma foldl_recompute_owner eps owners o :
  Forall endpoint_ok eps → (∀ w, 0 ≤ owner_bytes_of owners w) →
  (∀ w, owner_bytes_of owners w + zsum (charged_to w) eps < 2 ^ 64) →
  owner_bytes_of (foldl recompute_owner owners eps) o
  = owner_bytes_of owners o + zsum (charged_to o) eps.
Proof.
  intros HF. revert owners. induction HF as [|ep eps Hep HF IH]; intros owners Hnn Hlt; simpl; [lia|].
  assert (Hz : ∀ w, 0 ≤ zsum (charged_to w) eps).
  { intros w. apply zsum_nonneg. intros x Hx. rewrite Forall_forall in HF. by apply charged_to_bounds, HF. }
  assert (Hstep : ∀ w, owner_bytes_of (recompute_owner owners ep) w
                       = owner_bytes_of owners w + charged_to w ep).
  { intros w. unfold recompute_owner, charged_to, live_owned_by.
    destruct (ep_alive ep) eqn:Ha; simpl; [|lia].
    destruct (ep_owner ep) as [v|] eqn:Eo; [|rewrite bool_decide_eq_false_2 by done; lia].
    pose proof (endpoint_ok_nonneg _ Hep). pose proof (Hnn v). pose proof (Hlt v) as Hv.
    pose proof (Hz v). simpl in Hv.
    assert (charged_to v ep = ep_queued_bytes ep) as Hcv.
    { unfold charged_to. rewrite live_owned_by_alive, Eo, bool_decide_eq_true_2; done. }
    apply owner_bytes_add_charge; lia. }
  rewrite IH.
  - rewrite Hstep. lia.
  - intros w. rewrite Hstep. pose proof (charged_to_bounds w ep Hep). pose proof (Hnn w). lia.
  - intros w. rewrite Hstep. pose proof (Hlt w) as Hw. simpl in Hw. lia.
Qed.

(** Closing endpoints only shrinks what is queued, charged and live. *)
Definition ep_shrinks (ep ep' : Endpoint) : Prop :=
  endpoint_ok ep' ∧ ep_queued_bytes ep' ≤ ep_queued_bytes ep ∧
  (∀ o, charged_to o ep' ≤ charged_to o ep) ∧ (∀ o, live_unit o ep' ≤ live_unit o ep).

Lemma ep_shrinks_refl ep : endpoint_ok ep → ep_shrinks ep ep.
Proof. intros H. by split_and!. Qed.

Lemma ep_shrinks_closed ep : endpoint_ok ep → ep_shrinks ep (ep_closed ep).
Proof.
  intros H. pose proof (endpoint_ok_nonneg _ H). split_and!; [by apply endpoint_ok_closed|simpl; lia| |];
    intros o; unfold charged_to, live_unit, live_owned_by; simpl; case_match; lia.
Qed.

Lemma zsum_Forall2_le {A} (f : A → Z) (R : A → A → Prop) l l' :
  (∀ x y, R x y → f y ≤ f x) → Forall2 R l l' → zsum f l' ≤ zsum f l.
Proof. intros HR. induction 1 as [|x y l l' Hxy _ IH]; simpl; [lia|]. specialize (HR _ _ Hxy). lia. Qed.

Lemma recompute_preserves r eps' :
  router_ok r → Forall2 ep_shrinks (rt_endpoints r) eps' →
  router_ok (Router_recompute_accounting (rt_set_endpoints r eps')).
Proof.
  intros Hok H2.
  assert (HF : Forall endpoint_ok eps').
  { eapply Forall2_Forall_r; [exact H2|]. apply Forall_true. intros x y Hxy. apply Hxy. }
  pose proof (zsum_Forall2_le ep_queued_bytes _ _ _ (fun x y Hxy => proj1 (proj2 Hxy)) H2) as Hq.
  assert (Hc : ∀ o, zsum (charged_to o) eps' ≤ zsum (charged_to o) (rt_endpoints r)).
  { intros o. eapply zsum_Forall2_le; [|exact H2]. by intros ? ? (_ & _ & Hc & _). }
  assert (Hl : ∀ o, zsum (live_unit o) eps' ≤ zsum (live_unit o) (rt_endpoints r)).
  { intros o. eapply zsum_Forall2_le; [|exact H2]. by intros ? ? (_ & _ & _ & Hl). }
  pose proof (total_fits _ Hok) as Hfit. pose proof (ro_total _ Hok) as Ht. unfold max_of in Hfit.
  assert (Htot : foldl (fun acc ep => wrapping_add 64 acc (ep_queued_bytes ep)) 0 eps'
                 = zsum ep_queued_bytes eps') by (rewrite foldl_wrapping_total; [lia|done|lia|lia]).
  assert (How : ∀ o, owner_bytes_of (foldl recompute_owner ∅ eps') o = zsum (charged_to o) eps').
  { intros o. rewrite foldl_recompute_owner; [done|done|done|]. intros w.
    change (owner_bytes_of ∅ w) with 0. specialize (Hc w).
    pose proof (owner_le_total _ Hok w) as Hw. rewrite (ro_owner _ Hok) in Hw. lia. }
  destruct Hok. split; simpl.
  - done.
  - done.
  - lia.
  - done.
  - intros o. rewrite How. specialize (ro_owner_max0 o). rewrite ro_owner0 in ro_owner_max0. specialize (Hc o). lia.
  - intros o. specialize (Hl o). specialize (ro_quota0 o). lia.
  - apply Forall2_length in H2. unfold vlen in *. lia.
  - done.
Qed.

Lemma close_owned_loop_endpoints owner eps :
  (close_owned_loop owner eps).2 = map (fun ep => (Endpoint_close_if_owned_by ep owner).2) eps.
Proof.
  induction eps as [|ep eps IH]; simpl; [done|].
  destruct (Endpoint_close_if_owned_by ep owner) as [d ep'].
  destruct (close_owned_loop owner eps) as [out rest]. simpl in *. by rewrite IH.
Qed.

Lemma close_if_owned_cases ep owner :
  Endpoint_close_if_owned_by ep owner =
    if live_owned_by owner ep then (Some (ep_recv_waiters ep, ep_send_waiters ep), ep_closed ep)
    else (None, ep).
Proof.
  unfold Endpoint_close_if_owned_by, live_owned_by.
  destruct (ep_alive ep); simpl; [|done]. by destruct (bool_decide _).
Qed.

Lemma close_owner_preserves r owner :
  router_ok r → router_ok (Router_close_endpoints_for_owner r owner).2.
Proof.
  intros Hok. unfold Router_close_endpoints_for_owner.
  pose proof (close_owned_loop_endpoints owner (rt_endpoints r)) as E.
  destruct (close_owned_loop owner (rt_endpoints r)) as [out eps]. simpl in *. subst eps.
  apply recompute_preserves; [done|]. apply Forall2_fmap_r, Forall_Forall2_diag.
  eapply Forall_impl; [apply Hok|]. intros ep Hep. simpl. rewrite close_if_owned_cases.
  destruct (live_owned_by owner ep); simpl; [by apply ep_shrinks_closed|by apply ep_shrinks_refl].
Qed.

Lemma close_endpoint_preserves r id : router_ok r → router_ok (Router_close_endpoint r id).2.
Proof.
  intros Hok. unfold Router_close_endpoint. destruct (rt_endpoint r id) as [ep|] eqn:He; [|done].
  destruct (ep_alive ep); simpl; [|done]. apply (recompute_preserves r); [done|].
  apply Forall2_same_length_lookup_2; [by rewrite length_insert|]. intros i x y Hx Hy.
  pose proof (ro_eps _ Hok) as HF. rewrite Forall_lookup in HF. pose proof (HF i x Hx) as Hxok.
  destruct (decide (i = Z.to_nat id)) as [->|Hne].
  - unfold rt_endpoint in He. rewrite Hx in He. injection He as ->.
    rewrite list_lookup_insert_eq in Hy by (by eapply lookup_lt_Some). simplify_eq.
    by apply ep_shrinks_closed.
  - rewrite list_lookup_insert_ne in Hy by done. simplify_eq. by apply ep_shrinks_refl.
Qed.

Lemma live_count_zsum o eps :
  vlen (filter (fun ep => live_owned_by o ep = true) eps) = zsum (live_unit o) eps.
Proof.
  induction eps as [|ep eps IH]; [done|]. rewrite filter_cons. simpl zsum. rewrite <- IH.
  unfold live_unit. destruct (live_owned_by o ep); case_decide; try done; unfold vlen; simpl; lia.
Qed.

Lemma create_preserves r depth owner : router_ok r → router_ok (Router_create_endpoint r depth owner).2.
Proof.
  intros Hok. unfold Router_create_endpoint. destruct (MAX_ENDPOINTS <=? _) eqn:Hm; [done|].
  destruct (match owner with Some _ => _ | None => _ end) eqn:Hq; [done|]. simpl_bool. simpl.
  destruct Hok. split; simpl; try done.
  - apply Forall_app. split; [done|]. constructor; [apply endpoint_ok_with_depth; lia|constructor].
  - rewrite zsum_app. simpl. lia.
  - intros o. rewrite zsum_app, ro_owner0. simpl. unfold charged_to at 3. simpl.
    destruct (live_owned_by _ _); lia.
  - intros o. rewrite zsum_app. simpl. unfold live_unit at 2, live_owned_by. simpl.
    specialize (ro_quota0 o). case_bool_decide; [|lia]. subst owner. simpl_bool.
    rewrite live_count_zsum in Hq. lia.
  - rewrite vlen_app. change (vlen [Endpoint_with_depth (Z.max 1 (Z.min depth 256)) owner]) with 1. lia.
Qed.

Lemma remove_all_preserves r pid : router_ok r → router_ok (Router_remove_waiter_from_all r pid).
Proof.
  intros Hok. unfold Router_remove_waiter_from_all.
  assert (Hz : ∀ f : Endpoint → Z,
    (∀ ep rw sw, f (ep_set_waiters ep rw sw) = f ep) →
    zsum f (map (fun ep => (Endpoint_remove_send_waiter (Endpoint_remove_recv_waiter ep pid).2 pid).2)
             (rt_endpoints r)) = zsum f (rt_endpoints r)).
  { intros f Hf. rewrite zsum_map. apply zsum_ext. intros ep _. simpl. by rewrite !Hf. }
  destruct Hok. split; cbn [rt_set_endpoints rt_endpoints rt_queued_bytes_total
    rt_max_queued_bytes_total rt_owner_queued_bytes rt_max_queued_bytes_per_owner]; try done.
  - apply Forall_fmap. eapply Forall_impl; [done|]. intros ep Hep.
    exact (remove_send_waiter_ok _ pid (remove_recv_waiter_ok _ pid Hep)).
  - by rewrite Hz.
  - intros o. by rewrite Hz.
  - intros o. by rewrite Hz.
  - unfold vlen in *. by rewrite length_map.
Qed.

(** ** Router steps *)

Inductive router_op :=
| RSend (id : Z) (msg : Message)
| RRecv (id : Z)
| RRequeueFront (id : Z) (msg : Message)
| RRegisterRecv (id pid : Z)
| RRegisterSend (id pid : Z)
| RPopRecv (id : Z)
| RPopSend (id : Z)
| RRemoveRecv (id pid : Z)
| RRemoveSend (id pid : Z)
| RCreate (depth : Z) (owner : option Z)
| RCloseOwner (owner : Z)
| RClose (id : Z)
| RRemoveAll (pid : Z)
| RDenyNext.

Definition router_step (r : Router) (op : router_op) : Router :=
  match op with
  | RSend id msg => (Router_send r id msg).2
  | RRecv id => (Router_recv r id).2
  | RRequeueFront id msg => (Router_requeue_front r id msg).2
  | RRegisterRecv id pid => (Router_register_recv_waiter r id pid).2
  | RRegisterSend id pid => (Router_register_send_waiter r id pid).2
  | RPopRecv id => (Router_pop_recv_waiter r id).2
  | RPopSend id => (Router_pop_send_waiter r id).2
  | RRemoveRecv id pid => (Router_remove_recv_waiter r id pid).2
  | RRemoveSend id pid => (Router_remove_send_waiter r id pid).2
  | RCreate depth owner => (Router_create_endpoint r depth owner).2
  | RCloseOwner owner => (Router_close_endpoints_for_owner r owner).2
  | RClose id => (Router_close_endpoint r id).2
  | RRemoveAll pid => Router_remove_waiter_from_all r pid
  | RDenyNext => deny_next_send r
  end.

Lemma router_step_preserves r op : router_ok r → router_ok (router_step r op).
Proof.
  intros Hok. destruct op; simpl.
  - unfold Router_send. pose proof (send_preserves r id msg Hok).
    by destruct (Router_send_returning_message r id msg).
  - by apply recv_preserves.
  - by apply requeue_preserves.
  - apply with_live_preserves; [done|intros; by apply register_recv_ok|].
    intros ep. unfold Endpoint_register_recv_waiter. simpl. run; done.
  - apply with_live_preserves; [done|intros; by apply register_send_ok|].
    intros ep. unfold Endpoint_register_send_waiter. simpl. run; done.
  - apply with_live_preserves; [done|intros; by apply pop_recv_waiter_ok|].
    intros ep. unfold Endpoint_pop_recv_waiter. run; done.
  - apply with_live_preserves; [done|intros; by apply pop_send_waiter_ok|].
    intros ep. unfold Endpoint_pop_send_waiter. run; done.
  - apply with_live_preserves; [done|intros; by apply remove_recv_waiter_ok|done].
  - apply with_live_preserves; [done|intros; by apply remove_send_waiter_ok|done].
  - by apply create_preserves.
  - by apply close_owner_preserves.
  - by apply close_endpoint_preserves.
  - by apply remove_all_preserves.
  - by apply router_ok_deny.
Qed.

Lemma router_ok_new count max_total max_owner :
  (count ≤ 384)%nat → 0 ≤ max_total < max_of 64 → 0 ≤ max_owner →
  router_ok (Router_new_with_bytes_budgets count max_total max_owner).
Proof.
  intros Hc Hm Ho.
  assert (Hz : ∀ f : Endpoint → Z, f (Endpoint_with_depth 8 None) = 0 →
               zsum f (replicate count (Endpoint_with_depth 8 None)) = 0).
  { intros f Hf. clear Hc. induction count as [|n IH]; simpl; [done|]. by rewrite IH, Hf. }
  split; simpl.
  - apply Forall_replicate, endpoint_ok_with_depth. lia.
  - by rewrite Hz.
  - lia.
  - intros o. rewrite Hz; [done|]. unfold charged_to. by destruct (live_owned_by _ _).
  - intros o. change (owner_bytes_of ∅ o) with 0. lia.
  - intros o. by rewrite Hz.
  - unfold vlen, MAX_ENDPOINTS. rewrite length_replicate. lia.
  - lia.
Qed.

(** C25: whatever sequence of router operations runs from boot, every endpoint
    respects its depth and byte budget with exact byte counts and duplicate-free
    waiter lists, closed endpoints hold nothing, the global and per-owner byte
    accounts equal what is queued and respect their budgets, and the endpoint
    quotas hold. *)
Theorem router_invariant count max_total max_owner ops :
  (count ≤ 384)%nat → 0 ≤ max_total < max_of 64 → 0 ≤ max_owner →
  router_ok (foldl router_step (Router_new_with_bytes_budgets count max_total max_owner) ops).
Proof.
  intros Hc Hm Ho. assert (H : router_ok (Router_new_with_bytes_budgets count max_total max_owner))
    by (by apply router_ok_new).
  revert H. generalize (Router_new_with_bytes_budgets count max_total max_owner) as r.
  induction ops as [|op ops IH]; intros r Hr; simpl; [done|]. by apply IH, router_step_preserves.
Qed.

Lemma router_invariant_witness :
  router_ok (foldl router_step
    (Router_new_with_bytes_budgets 2 DEFAULT_MAX_QUEUED_BYTES_TOTAL DEFAULT_MAX_QUEUED_BYTES_PER_OWNER)
    [RCreate 4 (Some 7); RSend 2 (Message_new (mkMessageHeader 1 2 3 0 2) [5; 6; 7] None);
     RRegisterRecv 2 9; RRecv 2; RCloseOwner 7]).
Proof.
  apply router_invariant; unfold DEFAULT_MAX_QUEUED_BYTES_TOTAL, max_of,
    DEFAULT_MAX_QUEUED_BYTES_PER_OWNER; lia.
Defined.

(** ** FIFO delivery *)

Definition same_endpoint (a b : Z) : bool := bool_decide (Z.to_nat a = Z.to_nat b).

(** What one operation contributes to the traffic of endpoint [id]: the
    messages it accepted and the messages it delivered. *)
Definition ipc_obs (id : Z) (r : Router) (op : router_op) : list Message * list Message :=
  match op with
  | RSend i msg =>
      if same_endpoint i id && is_ok (Router_send r i msg).1 then ([msg], []) else ([], [])
  | RRecv i =>
      if same_endpoint i id
      then match (Router_recv r i).1 with Ok msg => ([], [msg]) | Err _ => ([], []) end
      else ([], [])
  | _ => ([], [])
  end.

Fixpoint ipc_traffic (id : Z) (r : Router) (ops : list router_op) :
    list Message * list Message * Router :=
  match ops with
  | [] => ([], [], r)
  | op :: ops' =>
      let '(s, d) := ipc_obs id r op in
      let '(s', d', r') := ipc_traffic id (router_step r op) ops' in
      (s ++ s', d ++ d', r')
  end.

(** [requeue_front] puts a message back and is treated separately below. *)
Definition no_requeue (id : Z) (op : router_op) : Prop :=
  match op with RRequeueFront i _ => same_endpoint i id = false | _ => True end.

Lemma rt_endpoint_put_ne r i id ep' :
  same_endpoint i id = false → rt_endpoint (rt_put_endpoint r i ep') id = rt_endpoint r id.
Proof.
  unfold same_endpoint, rt_endpoint, rt_put_endpoint. intros H. simpl_bool. simpl.
  by rewrite list_lookup_insert_ne.
Qed.

Lemma rt_endpoint_put_same r i id ep ep' :
  same_endpoint i id = true → rt_endpoint r id = Some ep →
  rt_endpoint (rt_put_endpoint r i ep') id = Some ep' ∧ rt_endpoint r i = Some ep.
Proof.
  unfold same_endpoint. intros H Hep. simpl_bool. unfold rt_endpoint, rt_put_endpoint in *.
  rewrite H in *. simpl. split; [|done]. apply list_lookup_insert_eq. by eapply lookup_lt_Some.
Qed.

(** The queue of [id] across one step: unchanged up to accepted and delivered
    messages, or the endpoint is closed and nothing moves. *)
Definition queue_step (ep ep' : Endpoint) (s d : list Message) : Prop :=
  (ep_alive ep = true ∧ ep_alive ep' = true ∧ ep_queue ep ++ s = d ++ ep_queue ep') ∨
  (ep_alive ep' = false ∧ s = [] ∧ d = []).

Lemma queue_step_same ep ep' :
  ep_queue ep' = ep_queue ep → ep_alive ep' = ep_alive ep → queue_step ep ep' [] [].
Proof.
  intros Hq Ha. unfold queue_step. rewrite Hq, Ha, app_nil_r. destruct (ep_alive ep); naive_solver.
Qed.

Lemma queue_step_put r i id ep epi ep' :
  rt_endpoint r id = Some ep → rt_endpoint r i = Some epi →
  ep_queue ep' = ep_queue epi → ep_alive ep' = ep_alive epi →
  ∃ e, rt_endpoint (rt_put_endpoint r i ep') id = Some e ∧ queue_step ep e [] [].
Proof.
  intros Hep Hi Hq Ha. destruct (same_endpoint i id) eqn:E.
  - destruct (rt_endpoint_put_same r i id ep ep' E Hep) as [H1 H2]. simplify_eq.
    exists ep'. split; [done|]. by apply queue_step_same.
  - rewrite rt_endpoint_put_ne by done. exists ep. split; [done|]. by apply queue_step_same.
Qed.

Lemma queue_step_live {A} r i id ep (f : Endpoint → A * Endpoint) :
  rt_endpoint r id = Some ep →
  (∀ e, ep_queue (f e).2 = ep_queue e ∧ ep_alive (f e).2 = ep_alive e) →
  ∃ e, rt_endpoint (with_live_endpoint r i f).2 id = Some e ∧ queue_step ep e [] [].
Proof.
  intros Hep Hf. unfold with_live_endpoint.
  destruct (rt_endpoint r i) as [epi|] eqn:Hi; [|exists ep; split; [done|by apply queue_step_same]].
  destruct (ep_alive epi); simpl; [|exists ep; split; [done|by apply queue_step_same]].
  specialize (Hf epi). destruct (f epi) as [a e']. simpl in *. destruct Hf.
  by eapply queue_step_put.
Qed.

Lemma queue_step_send r i id ep msg :
  rt_endpoint r id = Some ep →
  ∃ e, rt_endpoint (router_step r (RSend i msg)) id = Some e ∧
       queue_step ep e (ipc_obs id r (RSend i msg)).1 (ipc_obs id r (RSend i msg)).2.
Proof.
  intros Hep. simpl. unfold Router_send.
  destruct (send_cases r i msg) as [[e ->]|(epi & Hi & _ & Ha & _ & _ & _ & _ & ->)]; simpl.
  - rewrite andb_false_r. exists ep. split; [done|by apply queue_step_same].
  - destruct (same_endpoint i id) eqn:E; simpl.
    + destruct (rt_endpoint_put_same r i id ep (ep_set_queue epi (ep_queue epi ++ [msg])
        (saturating_add 64 (ep_queued_bytes epi) (msg_len msg))) E Hep) as [H1 H2].
      eexists. split; [exact H1|]. simplify_eq. left. by rewrite Ha.
    + exists ep. split; [etrans; [exact (rt_endpoint_put_ne r i id _ ltac:(done))|done]|by apply queue_step_same].
Qed.

Lemma queue_step_recv r i id ep :
  rt_endpoint r id = Some ep →
  ∃ e, rt_endpoint (router_step r (RRecv i)) id = Some e ∧
       queue_step ep e (ipc_obs id r (RRecv i)).1 (ipc_obs id r (RRecv i)).2.
Proof.
  intros Hep. simpl.
  destruct (recv_cases r i) as [[e ->]|(epi & msg & q & Hi & Ha & Hq & ->)]; simpl.
  - exists ep. split; [done|]. destruct (same_endpoint i id); by apply queue_step_same.
  - destruct (same_endpoint i id) eqn:E; simpl.
    + destruct (rt_endpoint_put_same r i id ep (ep_set_queue epi q
        (saturating_sub (ep_queued_bytes epi) (msg_len msg))) E Hep) as [H1 H2].
      eexists. split; [exact H1|]. simplify_eq. left. rewrite Ha, Hq, app_nil_r. done.
    + exists ep. split; [etrans; [exact (rt_endpoint_put_ne r i id _ ltac:(done))|done]|by apply queue_step_same].
Qed.

Lemma queue_step_close r i id ep :
  rt_endpoint r id = Some ep →
  ∃ e, rt_endpoint (Router_close_endpoint r i).2 id = Some e ∧ queue_step ep e [] [].
Proof.
  intros Hep. unfold Router_close_endpoint.
  destruct (rt_endpoint r i) as [epi|] eqn:Hi; [|exists ep; split; [done|by apply queue_step_same]].
  destruct (ep_alive epi); simpl; [|exists ep; split; [done|by apply queue_step_same]].
  destruct (same_endpoint i id) eqn:E.
  - destruct (rt_endpoint_put_same r i id ep (ep_closed epi) E Hep) as [H1 _].
    eexists. split; [exact H1|]. by right.
  - exists ep. split; [etrans; [exact (rt_endpoint_put_ne r i id _ ltac:(done))|done]|by apply queue_step_same].
Qed.

Lemma queue_step_close_owner r o id ep :
  rt_endpoint r id = Some ep →
  ∃ e, rt_endpoint (Router_close_endpoints_for_owner r o).2 id = Some e ∧ queue_step ep e [] [].
Proof.
  intros Hep. unfold Router_close_endpoints_for_owner.
  pose proof (close_owned_loop_endpoints o (rt_endpoints r)) as E.
  destruct (close_owned_loop o (rt_endpoints r)) as [out eps]. simpl in *. subst eps.
  unfold rt_endpoint in *. simpl. rewrite list_lookup_fmap, Hep. simpl.
  eexists. split; [done|]. rewrite close_if_owned_cases.
  destruct (live_owned_by o ep); simpl; [by right|by apply queue_step_same].
Qed.

Lemma queue_step_all r op id ep :
  no_requeue id op → rt_endpoint r id = Some ep →
  ∃ e, rt_endpoint (router_step r op) id = Some e ∧
       queue_step ep e (ipc_obs id r op).1 (ipc_obs id r op).2.
Proof.
  intros Hno Hep. destruct op; try (simpl; apply queue_step_live; [done|]; intros e).
  - by apply queue_step_send.
  - by apply queue_step_recv.
  - simpl in *. destruct (requeue_cases r id0 msg) as [[e ->]|(epi & Hi & _ & _ & _ & _ & _ & ->)]; simpl.
    + exists ep. split; [done|by apply queue_step_same].
    + exists ep. split; [etrans; [exact (rt_endpoint_put_ne r id0 id _ ltac:(done))|done]|by apply queue_step_same].
  - unfold Endpoint_register_recv_waiter. run; done.
  - unfold Endpoint_register_send_waiter. run; done.
  - unfold Endpoint_pop_recv_waiter. run; done.
  - unfold Endpoint_pop_send_waiter. run; done.
  - done.
  - done.
  - simpl. unfold Router_create_endpoint. exists ep. split; [|by apply queue_step_same].
    run; first [done | unfold rt_endpoint in *; simpl; by apply lookup_app_l_Some].
  - by apply queue_step_close_owner.
  - by apply queue_step_close.
  - simpl. unfold Router_remove_waiter_from_all, rt_endpoint in *. simpl.
    rewrite list_lookup_fmap, Hep. simpl. eexists. split; [done|by apply queue_step_same].
  - exists ep. split; [done|by apply queue_step_same].
Qed.

(** A closed endpoint accepts and delivers nothing, for ever. *)
Lemma ipc_traffic_dead id r ops ep sent delivered r' :
  rt_endpoint r id = Some ep → ep_alive ep = false → Forall (no_requeue id) ops →
  ipc_traffic id r ops = (sent, delivered, r') →
  sent = [] ∧ delivered = [] ∧
  ∃ ep', rt_endpoint r' id = Some ep' ∧ ep_alive ep' = false.
Proof.
  intros Hep Ha HF. revert r ep Hep Ha sent delivered.
  induction HF as [|op ops Hop _ IH]; intros r ep Hep Ha sent delivered; simpl.
  - intros [= <- <- <-]. eauto.
  - destruct (queue_step_all r op id ep Hop Hep) as (e & He & [(? & _)|(Hd & Hs1 & Hs2)]); [congruence|].
    destruct (ipc_obs id r op) as [s d]. simpl in Hs1, Hs2. subst s d.
    destruct (ipc_traffic id (router_step r op) ops) as [[s' d'] r''] eqn:Ht. intros [= <- <- <-].
    by destruct (IH _ _ He Hd _ _ Ht) as (-> & -> & ?).
Qed.


Definition fifo_demo_msg (b : Z) : Message := Message_new (mkMessageHeader 1 0 3 0 1) [b] None.

Definition fifo_demo_ops : list router_op :=
  [RSend 0 (fifo_demo_msg 1); RSend 0 (fifo_demo_msg 2); RRecv 0; RSend 1 (fifo_demo_msg 3)].

