(* ===== verification/IpcLaws.v ===== *)
(** * Laws of kernel IPC

    Routers that differ only in explicit zero entries of the per-owner account
    map are equivalent, and every operation respects that equivalence; putting
    a received message back with [requeue_front] undoes [recv] up to it;
    closing the endpoints of an owner; the header codec round trips. *)

From S2P Require Import Prelude Cap Ipc IpcProps.

(** ** Router equivalence *)

(** Equal but for entries of [owner_queued_bytes] that are zero: the code reads
    that map with [unwrap_or(0)]. *)
Definition owners_equiv (m1 m2 : gmap Z Z) : Prop := ∀ o, owner_bytes_of m1 o = owner_bytes_of m2 o.

Record router_equiv (r1 r2 : Router) : Prop := {
  re_eps : rt_endpoints r1 = rt_endpoints r2;
  re_total : rt_queued_bytes_total r1 = rt_queued_bytes_total r2;
  re_max : rt_max_queued_bytes_total r1 = rt_max_queued_bytes_total r2;
  re_owners : owners_equiv (rt_owner_queued_bytes r1) (rt_owner_queued_bytes r2);
  re_owner_max : rt_max_queued_bytes_per_owner r1 = rt_max_queued_bytes_per_owner r2;
  re_deny : rt_deny_next_send r1 = rt_deny_next_send r2
}.

#[export] Instance router_equiv_equivalence : Equivalence router_equiv.
Proof.
  split.
  - intros r. by split.
  - intros r1 r2 []. split; first [by symmetry | intros o; symmetry; apply re_owners0].
  - intros r1 r2 r3 [] []. split; first [by etrans | intros o; etrans; [apply re_owners0|apply re_owners1]].
Qed.

#[export] Instance owner_bytes_add_proper :
  Proper (owners_equiv ==> (=) ==> (=) ==> owners_equiv) owner_bytes_add.
Proof.
  intros m1 m2 Hm w ? <- n ? <- o. unfold owner_bytes_add. rewrite (Hm w).
  unfold owner_bytes_of at 1 3. rewrite !lookup_insert. case_decide; [done|]. apply Hm.
Qed.

#[export] Instance account_push_proper :
  Proper (router_equiv ==> (=) ==> (=) ==> router_equiv) account_push.
Proof.
  intros r1 r2 [] owner ? <- n ? <-. split; simpl; try done; [by rewrite re_total0|].
  destruct owner; [by apply owner_bytes_add_proper|done].
Qed.

(** The account an owner keeps after giving back [n] bytes, read with
    [unwrap_or(0)], does not depend on whether a zero entry was stored. *)
Lemma account_pop_owner_bytes r owner n o :
  0 ≤ n →
  owner_bytes_of (rt_owner_queued_bytes (account_pop r owner n)) o =
  if bool_decide (owner = Some o)
  then match rt_owner_queued_bytes r !! o with Some v => saturating_sub v n | None => 0 end
  else owner_bytes_of (rt_owner_queued_bytes r) o.
Proof.
  intros Hn. unfold account_pop, owner_bytes_of. simpl.
  destruct owner as [w|]; [|by rewrite bool_decide_eq_false_2 by done].
  destruct (decide (w = o)) as [->|Hne].
  - rewrite bool_decide_eq_true_2 by done.
    destruct (rt_owner_queued_bytes r !! o) as [v|] eqn:Ev; [|by rewrite Ev].
    destruct (Z.eqb_spec (saturating_sub v n) 0);
      rewrite ?lookup_delete_eq, ?lookup_insert_eq; simpl; lia.
  - rewrite bool_decide_eq_false_2 by congruence.
    destruct (rt_owner_queued_bytes r !! w) as [v|]; [|done].
    by destruct (_ =? 0); rewrite ?lookup_delete_ne, ?lookup_insert_ne by done.
Qed.

Lemma account_pop_equiv r1 r2 owner n :
  0 ≤ n → router_equiv r1 r2 → router_equiv (account_pop r1 owner n) (account_pop r2 owner n).
Proof.
  intros Hn H. destruct H as [? Ht ? Ho ? ?]. split; try done; [simpl; by rewrite Ht|].
  intros o. rewrite !account_pop_owner_bytes by done. case_bool_decide; [|apply Ho].
  specialize (Ho o). unfold owner_bytes_of in Ho. unfold saturating_sub.
  destruct (rt_owner_queued_bytes r1 !! o), (rt_owner_queued_bytes r2 !! o); simpl in Ho; subst; lia.
Qed.

Lemma put_equiv r1 r2 id ep :
  router_equiv r1 r2 → router_equiv (rt_put_endpoint r1 id ep) (rt_put_endpoint r2 id ep).
Proof. intros []. split; simpl; try done. by rewrite re_eps0. Qed.

Section Equivalent.
Context (r1 r2 : Router) (Heq : router_equiv r1 r2).

Lemma equiv_endpoint id : rt_endpoint r1 id = rt_endpoint r2 id.
Proof. unfold rt_endpoint. by rewrite (re_eps _ _ Heq). Qed.

Lemma equiv_budget owner n : owner_budget_exceeded r1 owner n = owner_budget_exceeded r2 owner n.
Proof.
  destruct owner as [w|]; [|done]. simpl. by rewrite (re_owner_max _ _ Heq), (re_owners _ _ Heq w).
Qed.

Lemma send_equiv id msg :
  (Router_send r1 id msg).1 = (Router_send r2 id msg).1 ∧
  router_equiv (Router_send r1 id msg).2 (Router_send r2 id msg).2.
Proof.
  unfold Router_send, Router_send_returning_message.
  rewrite (re_deny _ _ Heq), (re_max _ _ Heq), (re_total _ _ Heq), equiv_endpoint, equiv_budget.
  destruct (rt_deny_next_send r2); [split; [done|]; destruct Heq; by split|].
  destruct (_ <? _); [done|]. destruct (owner_budget_exceeded _ _ _); [done|].
  destruct (rt_endpoint r2 id) as [ep|]; [|done]. destruct (Endpoint_push ep msg) as [[]  ep']; simpl.
  - split; [done|]. apply account_push_proper; [by apply put_equiv|done|done].
  - split; [done|]. by apply put_equiv.
Qed.

Lemma requeue_equiv id msg :
  (Router_requeue_front r1 id msg).1 = (Router_requeue_front r2 id msg).1 ∧
  router_equiv (Router_requeue_front r1 id msg).2 (Router_requeue_front r2 id msg).2.
Proof.
  unfold Router_requeue_front.
  rewrite (re_max _ _ Heq), (re_total _ _ Heq), equiv_endpoint, equiv_budget.
  destruct (_ <? _); [done|]. destruct (owner_budget_exceeded _ _ _); [done|].
  destruct (rt_endpoint r2 id) as [ep|]; [|done].
  destruct (Endpoint_push_front ep msg) as [[] ep']; simpl.
  - split; [done|]. apply account_push_proper; [by apply put_equiv|done|done].
  - split; [done|]. by apply put_equiv.
Qed.

Lemma recv_equiv id :
  (Router_recv r1 id).1 = (Router_recv r2 id).1 ∧
  router_equiv (Router_recv r1 id).2 (Router_recv r2 id).2.
Proof.
  unfold Router_recv. rewrite equiv_endpoint. destruct (rt_endpoint r2 id) as [ep|]; [|done].
  destruct (Endpoint_pop ep) as [[msg|e] ep']; simpl; (split; [done|]).
  - apply account_pop_equiv; [apply msg_len_nonneg|]. by apply put_equiv.
  - by apply put_equiv.
Qed.

Lemma with_live_equiv {A} id (f : Endpoint → A * Endpoint) :
  router_equiv (with_live_endpoint r1 id f).2 (with_live_endpoint r2 id f).2.
Proof.
  unfold with_live_endpoint. rewrite equiv_endpoint. destruct (rt_endpoint r2 id) as [ep|]; [|done].
  destruct (ep_alive ep); simpl; [|done]. destruct (f ep). simpl. by apply put_equiv.
Qed.

Lemma set_endpoints_equiv eps : router_equiv (rt_set_endpoints r1 eps) (rt_set_endpoints r2 eps).
Proof. destruct Heq. by split. Qed.

Lemma recompute_equiv eps :
  router_equiv (Router_recompute_accounting (rt_set_endpoints r1 eps))
               (Router_recompute_accounting (rt_set_endpoints r2 eps)).
Proof. destruct Heq. by split. Qed.
End Equivalent.

(** Every router operation respects the equivalence. *)
#[export] Instance router_step_proper : Proper (router_equiv ==> (=) ==> router_equiv) router_step.
Proof.
  intros r1 r2 Heq op ? <-. destruct op; simpl; try by apply with_live_equiv.
  - by apply send_equiv.
  - by apply recv_equiv.
  - by apply requeue_equiv.
  - unfold Router_create_endpoint. rewrite (re_eps _ _ Heq).
    destruct (_ <=? _); [done|]. destruct (match owner with Some _ => _ | None => _ end); [done|].
    by apply set_endpoints_equiv.
  - unfold Router_close_endpoints_for_owner. rewrite (re_eps _ _ Heq).
    destruct (close_owned_loop owner (rt_endpoints r2)). simpl. by apply recompute_equiv.
  - unfold Router_close_endpoint. rewrite (equiv_endpoint _ _ Heq).
    destruct (rt_endpoint r2 id) as [ep|]; [|done]. destruct (ep_alive ep); simpl; [|done].
    unfold rt_put_endpoint. rewrite (re_eps _ _ Heq). by apply recompute_equiv.
  - unfold Router_remove_waiter_from_all. rewrite (re_eps _ _ Heq). by apply set_endpoints_equiv.
  - destruct Heq. by split.
Qed.

Lemma router_run_equiv r1 r2 ops :
  router_equiv r1 r2 → router_equiv (foldl router_step r1 ops) (foldl router_step r2 ops).
Proof. revert r1 r2. induction ops as [|op ops IH]; intros r1 r2 H; simpl; [done|]. apply IH. by rewrite H. Qed.

(** ** Putting a received message back *)

Lemma ep_set_queue_restore ep msg q b b' :
  ep_queue ep = msg :: q → b' = ep_queued_bytes ep →
  ep_set_queue (ep_set_queue ep q b) (msg :: q) b' = ep.
Proof. intros H ->. destruct ep; simpl in *; by subst. Qed.

Lemma rt_put_put r id ep ep' :
  rt_put_endpoint (rt_put_endpoint r id ep) id ep' = rt_put_endpoint r id ep'.
Proof.
  unfold rt_put_endpoint, rt_set_endpoints. simpl. by rewrite list_insert_insert_eq.
Qed.

(** The endpoint and the router a successful [recv] leaves. *)
Definition popped_ep (ep : Endpoint) (msg : Message) (q : list Message) : Endpoint :=
  ep_set_queue ep q (saturating_sub (ep_queued_bytes ep) (msg_len msg)).
Definition popped_router (r : Router) (id : Z) (ep : Endpoint) (msg : Message) (q : list Message) : Router :=
  account_pop (rt_put_endpoint r id (popped_ep ep msg q)) (ep_owner ep) (msg_len msg).

Section AfterRecv.
Context (r : Router) (id : Z) (ep : Endpoint) (msg : Message) (q : list Message).
Context (Hok : router_ok r) (Hep : rt_endpoint r id = Some ep).
Context (Ha : ep_alive ep = true) (Hq : ep_queue ep = msg :: q).

Local Abbreviation ep1 := (popped_ep ep msg q).
Local Abbreviation r1 := (popped_router r id ep msg q).

Lemma popped_len_le : msg_len msg ≤ ep_queued_bytes ep.
Proof.
  rewrite (eo_bytes _ (rt_endpoint_ok _ Hok _ _ Hep)), Hq. simpl.
  pose proof (zsum_msg_len_nonneg q). lia.
Qed.

Lemma popped_owner_bytes o :
  owner_bytes_of (rt_owner_queued_bytes r1) o =
  owner_bytes_of (rt_owner_queued_bytes r) o -
  if bool_decide (ep_owner ep = Some o) then msg_len msg else 0.
Proof.
  apply (account_pop_charge (rt_put_endpoint r id ep1)); [|apply msg_len_nonneg].
  intros w E. pose proof popped_len_le.
  pose proof (owner_covers_endpoint r id ep w Hok Hep Ha E). simpl. lia.
Qed.

Lemma popped_total : saturating_add 64 (rt_queued_bytes_total r1) (msg_len msg) = rt_queued_bytes_total r.
Proof.
  pose proof popped_len_le. pose proof (ep_le_total _ Hok _ _ Hep). pose proof (total_fits _ Hok).
  simpl. unfold saturating_add, saturating_sub. lia.
Qed.

(** The endpoint takes the message back at the front of its queue. *)
Lemma popped_push_front : Endpoint_push_front ep1 msg = (Ok tt, ep).
Proof.
  pose proof (rt_endpoint_ok _ Hok _ _ Hep) as Heo. pose proof popped_len_le.
  pose proof (eo_budget _ Heo). pose proof (eo_depth _ Heo) as Hd.
  pose proof (ep_le_total _ Hok _ _ Hep). pose proof (total_fits _ Hok).
  unfold vlen in Hd. rewrite Hq in Hd. simpl in Hd.
  unfold Endpoint_push_front. simpl. rewrite Ha. simpl.
  replace (ep_depth ep <=? vlen q) with false by (symmetry; apply Z.leb_gt; unfold vlen; lia).
  assert (saturating_add 64 (saturating_sub (ep_queued_bytes ep) (msg_len msg)) (msg_len msg)
          = ep_queued_bytes ep) as -> by (unfold saturating_add, saturating_sub; lia).
  replace (ep_max_queued_bytes ep <? ep_queued_bytes ep) with false by (symmetry; apply Z.ltb_ge; lia).
  f_equal. exact (ep_set_queue_restore ep msg q _ _ Hq eq_refl).
Qed.

(** The byte budgets have room for the message again. *)
Lemma popped_budgets :
  (rt_max_queued_bytes_total r1 <? saturating_add 64 (rt_queued_bytes_total r1) (msg_len msg)) = false ∧
  owner_budget_exceeded r1 (ep_owner ep) (msg_len msg) = false.
Proof.
  split.
  - rewrite popped_total. apply Z.ltb_ge. apply (ro_total_max _ Hok).
  - destruct (ep_owner ep) as [w|] eqn:Eo; [|done]. unfold owner_budget_exceeded. apply Z.ltb_ge.
    rewrite popped_owner_bytes, Eo, bool_decide_eq_true_2 by done.
    pose proof (ro_owner_max _ Hok w). unfold saturating_add. simpl. lia.
Qed.

Lemma requeue_after_recv :
  Router_requeue_front r1 id msg =
  (Ok tt, account_push (rt_put_endpoint r1 id ep) (ep_owner ep) (msg_len msg)).
Proof.
  destruct popped_budgets as [Hb1 Hb2]. unfold Router_requeue_front.
  assert (rt_endpoint r1 id = Some ep1) as -> by exact (rt_endpoint_put r id ep ep1 Hep).
  rewrite Hb1. simpl. rewrite Hb2. by rewrite popped_push_front.
Qed.

Lemma requeued_equiv :
  router_equiv (account_push (rt_put_endpoint r1 id ep) (ep_owner ep) (msg_len msg)) r.
Proof.
  split; try done.
  - simpl. rewrite list_insert_insert_eq. by apply list_insert_id.
  - apply popped_total.
  - intros o. pose proof popped_owner_bytes as Hown. pose proof (total_fits _ Hok) as Hf.
    unfold account_push. cbn [rt_owner_queued_bytes rt_set_accounting].
    change (rt_owner_queued_bytes (rt_put_endpoint r1 id ep)) with (rt_owner_queued_bytes r1).
    destruct (ep_owner ep) as [w|] eqn:Eo.
    + rewrite owner_bytes_add_charge, (Hown o); [case_bool_decide; lia| |].
      all: rewrite (Hown w), bool_decide_eq_true_2 by done; pose proof (owner_le_total _ Hok w);
        unfold max_of in *; lia.
    + rewrite (Hown o), bool_decide_eq_false_2 by done. lia.
Qed.
End AfterRecv.

(** When a receiver cannot take the message it just dequeued, putting it
    back with [requeue_front] always succeeds and undoes the receive: the
    endpoints, the totals and every owner's account are as before. *)
Theorem recv_requeue_roundtrip r id msg r1 :
  router_ok r → Router_recv r id = (Ok msg, r1) →
  ∃ r2, Router_requeue_front r1 id msg = (Ok tt, r2) ∧ router_equiv r2 r.
Proof.
  intros Hok Hrecv.
  destruct (recv_cases r id) as [[e E]|(ep & m & q & Hep & Ha & Hq & E)]; rewrite E in Hrecv; [done|].
  injection Hrecv as -> <-. eexists. split.
  - by eapply requeue_after_recv.
  - by eapply requeued_equiv.
Qed.

Lemma recv_requeue_roundtrip_witness :
  let r := (Router_send (Router_new 1) 0 (fifo_demo_msg 9)).2 in
  ∃ r2, Router_requeue_front (Router_recv r 0).2 0 (fifo_demo_msg 9) = (Ok tt, r2) ∧ router_equiv r2 r.
Proof.
  apply (recv_requeue_roundtrip _ 0 (fifo_demo_msg 9)).
  - apply (router_step_preserves (Router_new 1) (RSend 0 (fifo_demo_msg 9))).
    apply (router_ok_new 1 DEFAULT_MAX_QUEUED_BYTES_TOTAL DEFAULT_MAX_QUEUED_BYTES_PER_OWNER); unfold max_of, DEFAULT_MAX_QUEUED_BYTES_TOTAL, DEFAULT_MAX_QUEUED_BYTES_PER_OWNER; lia.
  - vm_compute. reflexivity.
Defined.

(** ** Closing the endpoints of an exiting task *)

Lemma close_owned_loop_waiters owner eps pid :
  pid ∈ (close_owned_loop owner eps).1 ↔
  ∃ ep, ep ∈ eps ∧ live_owned_by owner ep = true ∧
        (pid ∈ ep_recv_waiters ep ∨ pid ∈ ep_send_waiters ep).
Proof.
  induction eps as [|ep eps IH]; simpl.
  - split; [intros H; by apply not_elem_of_nil in H|]. intros (ep & H & _). by apply not_elem_of_nil in H.
  - rewrite close_if_owned_cases. setoid_rewrite elem_of_cons.
    destruct (close_owned_loop owner eps) as [out rest] eqn:E. simpl in *.
    destruct (live_owned_by owner ep) eqn:El; simpl.
    + rewrite !elem_of_app, IH. split.
      * intros [?|[?|(e & ? & ? & ?)]]; [exists ep; auto..|exists e; auto].
      * intros (e & [->|He] & Hl & Hw); [naive_solver|]. right; right. eauto.
    + rewrite IH. split; [naive_solver|]. intros (e & [->|He] & Hl & Hw); [congruence|eauto].
Qed.

(** When a task exits, [close_endpoints_for_owner] leaves none of its
    endpoints alive and every other endpoint untouched, and returns, sorted and
    without duplicates, exactly the tasks that were waiting on the endpoints it
    closed, so that each of them can be woken. *)
Theorem close_endpoints_for_owner_spec r owner :
  let '(woken, r') := Router_close_endpoints_for_owner r owner in
  (∀ i ep, rt_endpoints r !! i = Some ep →
     rt_endpoints r' !! i = Some (if live_owned_by owner ep then ep_closed ep else ep)) ∧
  (∀ ep, ep ∈ rt_endpoints r' → live_owned_by owner ep = false) ∧
  StronglySorted Z.lt woken ∧
  (∀ pid, pid ∈ woken ↔
     ∃ ep, ep ∈ rt_endpoints r ∧ live_owned_by owner ep = true ∧
           (pid ∈ ep_recv_waiters ep ∨ pid ∈ ep_send_waiters ep)).
Proof.
  unfold Router_close_endpoints_for_owner.
  pose proof (close_owned_loop_endpoints owner (rt_endpoints r)) as E.
  pose proof (close_owned_loop_waiters owner (rt_endpoints r)) as Hw.
  destruct (close_owned_loop owner (rt_endpoints r)) as [out eps]. simpl in *. subst eps.
  split_and!.
  - intros i ep Hep. rewrite list_lookup_fmap, Hep. simpl. rewrite close_if_owned_cases.
    by destruct (live_owned_by owner ep).
  - intros ep Hin. apply list_elem_of_fmap in Hin as (e & -> & _). rewrite close_if_owned_cases.
    by destruct (live_owned_by owner e) eqn:El.
  - apply sort_dedup_sorted.
  - intros pid. rewrite sort_dedup_elem. apply Hw.
Qed.

(** ** Header codec *)

(** Decoding an encoded header gives it back, and encoding any decoded
    16-byte string gives the bytes back: the header layout loses nothing. *)
Theorem header_roundtrip :
  (∀ h, header_wf h →
     length (MessageHeader_to_le_bytes h) = 16%nat ∧
     MessageHeader_from_le_bytes (MessageHeader_to_le_bytes h) = h) ∧
  (∀ bs, length bs = 16%nat → Forall is_byte bs →
     header_wf (MessageHeader_from_le_bytes bs) ∧
     MessageHeader_to_le_bytes (MessageHeader_from_le_bytes bs) = bs).
Proof.
  split.
  - intros h (H1 & H2 & H3 & H4 & H5). split; [done|].
    unfold MessageHeader_from_le_bytes, MessageHeader_to_le_bytes.
    change (slice 0 4 _) with (le_bytes 4 (hdr_src h)).
    change (slice 4 8 _) with (le_bytes 4 (hdr_dst h)).
    change (slice 8 10 _) with (le_bytes 2 (hdr_ty h)).
    change (slice 10 12 _) with (le_bytes 2 (hdr_flags h)).
    change (slice 12 16 _) with (le_bytes 4 (hdr_len h)).
    rewrite !le_value_bytes by done. by destruct h.
  - intros bs Hlen HF.
    assert (Hs : ∀ a b, Forall is_byte (slice a b bs)) by (intros; by apply Forall_take, Forall_drop).
    assert (Hw : ∀ a b k, length (slice a b bs) = k → in_width (8 * Z.of_nat k) (le_value (slice a b bs)))
      by (intros a b k <-; apply le_value_bound, Hs).
    assert (Hv : ∀ a b k, length (slice a b bs) = k → le_bytes k (le_value (slice a b bs)) = slice a b bs)
      by (intros a b k <-; apply le_bytes_value, Hs).
    do 16 (destruct bs as [|? bs]; [done|]). destruct bs; [|done]. split.
    + split_and!; [exact (Hw 0 4 4 eq_refl)%nat|exact (Hw 4 8 4 eq_refl)%nat|exact (Hw 8 10 2 eq_refl)%nat
                  |exact (Hw 10 12 2 eq_refl)%nat|exact (Hw 12 16 4 eq_refl)%nat].
    + unfold MessageHeader_to_le_bytes, MessageHeader_from_le_bytes.
      cbn [hdr_src hdr_dst hdr_ty hdr_flags hdr_len]. by rewrite !Hv.
Qed.

Lemma header_roundtrip_witness :
  MessageHeader_from_le_bytes (MessageHeader_to_le_bytes (mkMessageHeader 1 2 3 4 5)) = mkMessageHeader 1 2 3 4 5.
Proof.
  apply (proj1 header_roundtrip). unfold header_wf, in_width. simpl. lia.
Defined.
