(* ===== verification/Sched.v ===== *)
(** * Scheduler ([source/kernel/neuron/src/sched/mod.rs])

    Per-CPU run queues, one bounded FIFO per QoS class, the round-robin and
    priority rules, QoS changes, purging and work stealing.

    The executing CPU ([smp::cpu_current_id]) and the online mask
    ([smp::cpu_online_mask]) are read from hardware state: they are arguments.
    UART traces, the liveness counter and the steal counter are not state of
    the scheduler and are left out. *)

From S2P Require Import Prelude.

(** ** Data *)

Inductive QosClass := Idle | Normal | Interactive | PerfBurst.

#[export] Instance QosClass_eq_dec : EqDecision QosClass.
Proof. solve_decision. Defined.

Definition QosClass_from_u8 (raw : Z) : option QosClass :=
  match raw with
  | 0 => Some Idle
  | 1 => Some Normal
  | 2 => Some Interactive
  | 3 => Some PerfBurst
  | _ => None
  end.

(** The discriminant, which is also the run-queue index. *)
Definition qos_index (q : QosClass) : nat :=
  match q with
  | Idle => 0
  | Normal => 1
  | Interactive => 2
  | PerfBurst => 3
  end%nat.

Record STask := mkSTask { st_id : Z; st_qos : QosClass }.

#[export] Instance STask_eq_dec : EqDecision STask.
Proof. solve_decision. Defined.

Definition MAX_CPUS : nat := 4.
Definition RUNTIME_QOS_QUEUE_CAPACITY : nat := 64.
Definition SELFTEST_QOS_QUEUE_CAPACITY : nat := 64.

Inductive EnqueueRejectReason :=
| RejQueueFull (qos : QosClass) (capacity : nat)
| RejInvalidCpu (cpu : nat).

Inductive EnqueueOutcome :=
| Enqueued
| Rejected (reason : EnqueueRejectReason).

Inductive SetQosOutcome := QosUpdated | QosNotFound | QosQueueFull.

Record CpuRunQueues := mkCpuRunQueues {
  rq_queues : list (list STask);
  rq_current : option STask
}.

Record Scheduler := mkScheduler {
  sc_cpus : list CpuRunQueues;
  sc_timeslice_ns : Z
}.

(** ** Accessors *)

Definition CpuRunQueues_new : CpuRunQueues := mkCpuRunQueues [[]; []; []; []] None.

(** [queue_mut(qos)] as a read and as a write. *)
Definition rq_queue (c : CpuRunQueues) (qos : QosClass) : list STask :=
  default [] (rq_queues c !! qos_index qos).
Definition rq_set_queue (c : CpuRunQueues) (qos : QosClass) (q : list STask) : CpuRunQueues :=
  mkCpuRunQueues (<[qos_index qos := q]> (rq_queues c)) (rq_current c).
Definition rq_set_current (c : CpuRunQueues) (cur : option STask) : CpuRunQueues :=
  mkCpuRunQueues (rq_queues c) cur.

(** [self.cpus[i]] as a read and as a write. *)
Definition sc_cpu (s : Scheduler) (i : nat) : CpuRunQueues :=
  default CpuRunQueues_new (sc_cpus s !! i).
Definition sc_set_cpu (s : Scheduler) (i : nat) (c : CpuRunQueues) : Scheduler :=
  mkScheduler (<[i := c]> (sc_cpus s)) (sc_timeslice_ns s).

Definition current_cpu_index (hart : nat) : nat :=
  if bool_decide (hart < MAX_CPUS)%nat then hart else 0.

(** ** Operations *)

Definition bounded_push (queue : list STask) (task : STask) (qos : QosClass) (capacity : nat) :
    EnqueueOutcome * list STask :=
  if bool_decide (capacity ≤ length queue)%nat
  then (Rejected (RejQueueFull qos capacity), queue)
  else (Enqueued, queue ++ [task]).

Definition Scheduler_new (fixed_tick_ns : Z) : Scheduler :=
  mkScheduler (replicate MAX_CPUS CpuRunQueues_new) fixed_tick_ns.

Definition Scheduler_current_task_id (hart : nat) (s : Scheduler) : option Z :=
  st_id <$> rq_current (sc_cpu s (current_cpu_index hart)).

Definition Scheduler_set_current_qos (hart : nat) (s : Scheduler) (qos : QosClass) : bool * Scheduler :=
  let cur := current_cpu_index hart in
  match rq_current (sc_cpu s cur) with
  | Some task =>
      (true, sc_set_cpu s cur (rq_set_current (sc_cpu s cur) (Some (mkSTask (st_id task) qos))))
  | None => (false, s)
  end.

(** The first loop of [set_task_qos]: a task running on some CPU is updated in
    place. *)
Fixpoint set_running_qos (id : Z) (qos : QosClass) (cpus : list CpuRunQueues) :
    option (list CpuRunQueues) :=
  match cpus with
  | [] => None
  | c :: rest =>
      match rq_current c with
      | Some t =>
          if st_id t =? id then Some (rq_set_current c (Some (mkSTask (st_id t) qos)) :: rest)
          else cons c <$> set_running_qos id qos rest
      | None => cons c <$> set_running_qos id qos rest
      end
  end.

(** The ['search] loop: the first queue (CPU by CPU, class by class) holding
    [id], and the position in it. *)
Definition find_in_queue (id : Z) (q : list STask) : option (nat * STask) :=
  list_find (fun t => st_id t = id) q.

Fixpoint find_in_queues (id : Z) (queue_idx : nat) (qs : list (list STask)) :
    option (nat * nat * STask) :=
  match qs with
  | [] => None
  | q :: rest =>
      match find_in_queue id q with
      | Some (pos, t) => Some (queue_idx, pos, t)
      | None => find_in_queues id (S queue_idx) rest
      end
  end.

Fixpoint find_in_cpus (id : Z) (cpu_idx : nat) (cpus : list CpuRunQueues) :
    option (nat * nat * nat * STask) :=
  match cpus with
  | [] => None
  | c :: rest =>
      match find_in_queues id 0 (rq_queues c) with
      | Some (queue_idx, pos, t) => Some (cpu_idx, queue_idx, pos, t)
      | None => find_in_cpus id (S cpu_idx) rest
      end
  end.

(** [self.cpus[c].queues[k]] as a read and as a write. *)
Definition sc_queue_at (s : Scheduler) (c k : nat) : list STask :=
  default [] (rq_queues (sc_cpu s c) !! k).
Definition sc_set_queue_at (s : Scheduler) (c k : nat) (q : list STask) : Scheduler :=
  sc_set_cpu s c (mkCpuRunQueues (<[k := q]> (rq_queues (sc_cpu s c))) (rq_current (sc_cpu s c))).

Definition Scheduler_set_task_qos (s : Scheduler) (id : Z) (qos : QosClass) :
    SetQosOutcome * Scheduler :=
  match set_running_qos id qos (sc_cpus s) with
  | Some cpus' => (QosUpdated, mkScheduler cpus' (sc_timeslice_ns s))
  | None =>
      match find_in_cpus id 0 (sc_cpus s) with
      | None => (QosNotFound, s)
      | Some (cpu_idx, source_idx, source_pos, task) =>
          (* [queue.remove(pos)] *)
          let s1 := sc_set_queue_at s cpu_idx source_idx
                      (delete source_pos (sc_queue_at s cpu_idx source_idx)) in
          let target_idx := qos_index qos in
          if bool_decide (RUNTIME_QOS_QUEUE_CAPACITY ≤ length (sc_queue_at s1 cpu_idx target_idx))%nat
          then (QosQueueFull,
                sc_set_queue_at s1 cpu_idx source_idx
                  (vec_insert_at source_pos task (sc_queue_at s1 cpu_idx source_idx)))
          else (QosUpdated,
                sc_set_queue_at s1 cpu_idx target_idx
                  (sc_queue_at s1 cpu_idx target_idx ++ [mkSTask (st_id task) qos]))
      end
  end.

Definition push_on_cpu (s : Scheduler) (cpu : nat) (id : Z) (qos : QosClass) (capacity : nat) :
    EnqueueOutcome * Scheduler :=
  let '(out, q) := bounded_push (rq_queue (sc_cpu s cpu) qos) (mkSTask id qos) qos capacity in
  (out, sc_set_cpu s cpu (rq_set_queue (sc_cpu s cpu) qos q)).

Definition Scheduler_try_enqueue (hart : nat) (s : Scheduler) (id : Z) (qos : QosClass) :
    EnqueueOutcome * Scheduler :=
  push_on_cpu s (current_cpu_index hart) id qos RUNTIME_QOS_QUEUE_CAPACITY.

Definition Scheduler_enqueue := Scheduler_try_enqueue.

(** [[PerfBurst, Interactive, Normal, Idle]]: the order of the scheduling loop. *)
Definition class_order : list QosClass := [PerfBurst; Interactive; Normal; Idle].

Fixpoint pick_first (c : CpuRunQueues) (classes : list QosClass) : option (STask * CpuRunQueues) :=
  match classes with
  | [] => None
  | class :: rest =>
      match rq_queue c class with
      | task :: q => Some (task, rq_set_queue c class q)
      | [] => pick_first c rest
      end
  end.

Definition Scheduler_schedule_next (hart : nat) (s : Scheduler) : option Z * Scheduler :=
  let cur := current_cpu_index hart in
  match pick_first (sc_cpu s cur) class_order with
  | Some (task, c) => (Some (st_id task), sc_set_cpu s cur (rq_set_current c (Some task)))
  | None => (None, sc_set_cpu s cur (rq_set_current (sc_cpu s cur) None))
  end.

Definition Scheduler_yield_current (hart : nat) (s : Scheduler) : Scheduler :=
  let cur := current_cpu_index hart in
  match rq_current (sc_cpu s cur) with
  | None => s
  | Some task =>
      let s1 := sc_set_cpu s cur (rq_set_current (sc_cpu s cur) None) in
      match Scheduler_try_enqueue hart s1 (st_id task) (st_qos task) with
      | (Rejected _, s2) => sc_set_cpu s2 cur (rq_set_current (sc_cpu s2 cur) (Some task))
      | (Enqueued, s2) => s2
      end
  end.

Definition Scheduler_finish_current (hart : nat) (s : Scheduler) : Scheduler :=
  let cur := current_cpu_index hart in
  sc_set_cpu s cur (rq_set_current (sc_cpu s cur) None).

Definition purge_cpu (id : Z) (c : CpuRunQueues) : CpuRunQueues :=
  mkCpuRunQueues (map (filter (fun t => st_id t ≠ id)) (rq_queues c))
    match rq_current c with
    | Some t => if st_id t =? id then None else Some t
    | None => None
    end.

Definition Scheduler_purge (s : Scheduler) (id : Z) : Scheduler :=
  mkScheduler (map (purge_cpu id) (sc_cpus s)) (sc_timeslice_ns s).

(** The classes a CPU may steal under the ceiling [max_qos]. *)
Definition steal_classes (max_qos : QosClass) : list QosClass :=
  match max_qos with
  | PerfBurst => [PerfBurst; Interactive; Normal; Idle]
  | Interactive => [Interactive; Normal; Idle]
  | Normal => [Normal; Idle]
  | Idle => [Idle]
  end.

(** [victim == local_cpu] and the online test of the victim loop. *)
Definition steal_skips (online_mask : Z) (local victim : nat) : bool :=
  bool_decide (victim = local) ||
  (negb (online_mask =? 0) && (Z.land online_mask (Z.shiftl 1 (Z.of_nat victim)) =? 0)).

Fixpoint steal_victims (online_mask : Z) (s : Scheduler) (local : nat) (class : QosClass)
    (victims : list nat) : option (STask * Scheduler) :=
  match victims with
  | [] => None
  | victim :: rest =>
      if steal_skips online_mask local victim then steal_victims online_mask s local class rest
      else match rq_queue (sc_cpu s victim) class with
           | task :: q =>
               Some (task, sc_set_cpu s victim (rq_set_queue (sc_cpu s victim) class q))
           | [] => steal_victims online_mask s local class rest
           end
  end.

Fixpoint steal_by_class (online_mask : Z) (s : Scheduler) (local : nat) (classes : list QosClass) :
    option (STask * Scheduler) :=
  match classes with
  | [] => None
  | class :: rest =>
      match steal_victims online_mask s local class (seq 0 MAX_CPUS) with
      | Some r => Some r
      | None => steal_by_class online_mask s local rest
      end
  end.

Definition Scheduler_selftest_try_steal (online_mask : Z) (s : Scheduler) (local : nat)
    (max_qos : QosClass) : option (STask * Scheduler) :=
  steal_by_class online_mask s local (steal_classes max_qos).

Definition Scheduler_selftest_reset_cpu (s : Scheduler) (cpu : nat) : Scheduler :=
  if bool_decide (MAX_CPUS ≤ cpu)%nat then s
  else sc_set_cpu s cpu (mkCpuRunQueues (map (fun _ => []) (rq_queues (sc_cpu s cpu))) None).

Definition Scheduler_enqueue_on_cpu (s : Scheduler) (cpu : nat) (id : Z) (qos : QosClass) :
    EnqueueOutcome * Scheduler :=
  if bool_decide (MAX_CPUS ≤ cpu)%nat then (Rejected (RejInvalidCpu cpu), s)
  else push_on_cpu s cpu id qos RUNTIME_QOS_QUEUE_CAPACITY.

Definition Scheduler_steal_into_current (hart : nat) (online_mask : Z) (s : Scheduler)
    (max_qos : QosClass) (allow : Z → bool) (home_of : Z → nat) : option Z * Scheduler :=
  let cur := current_cpu_index hart in
  match Scheduler_selftest_try_steal online_mask s cur max_qos with
  | None => (None, s)
  | Some (task, s1) =>
      if negb (allow (st_id task)) then
        let home := Nat.min (home_of (st_id task)) (MAX_CPUS - 1) in
        (None, sc_set_cpu s1 home
                 (rq_set_queue (sc_cpu s1 home) (st_qos task)
                    (task :: rq_queue (sc_cpu s1 home) (st_qos task))))
      else (Some (st_id task), sc_set_cpu s1 cur (rq_set_current (sc_cpu s1 cur) (Some task)))
  end.

Definition Scheduler_selftest_enqueue_on_cpu (s : Scheduler) (cpu : nat) (id : Z) (qos : QosClass) :
    EnqueueOutcome * Scheduler :=
  if bool_decide (MAX_CPUS ≤ cpu)%nat then (Rejected (RejInvalidCpu cpu), s)
  else push_on_cpu s cpu id qos SELFTEST_QOS_QUEUE_CAPACITY.

(** [SELFTEST_STEAL_MAX_PER_TICK] is 1: one steal attempt per class. *)
Fixpoint selftest_schedule_loop (online_mask : Z) (s : Scheduler) (cpu : nat)
    (classes : list QosClass) : option Z * Scheduler :=
  match classes with
  | [] => (None, sc_set_cpu s cpu (rq_set_current (sc_cpu s cpu) None))
  | class :: rest =>
      match rq_queue (sc_cpu s cpu) class with
      | task :: q =>
          (Some (st_id task),
           sc_set_cpu s cpu (rq_set_current (rq_set_queue (sc_cpu s cpu) class q) (Some task)))
      | [] =>
          match Scheduler_selftest_try_steal online_mask s cpu class with
          | Some (task, s1) =>
              (Some (st_id task), sc_set_cpu s1 cpu (rq_set_current (sc_cpu s1 cpu) (Some task)))
          | None => selftest_schedule_loop online_mask s cpu rest
          end
      end
  end.

Definition Scheduler_selftest_schedule_on_cpu (online_mask : Z) (s : Scheduler) (cpu : nat) :
    option Z * Scheduler :=
  if bool_decide (MAX_CPUS ≤ cpu)%nat then (None, s)
  else selftest_schedule_loop online_mask s cpu class_order.

Definition Scheduler_selftest_try_steal_for_class (online_mask : Z) (s : Scheduler) (cpu : nat)
    (max_qos : QosClass) : option Z * Scheduler :=
  if bool_decide (MAX_CPUS ≤ cpu)%nat then (None, s)
  else match Scheduler_selftest_try_steal online_mask s cpu max_qos with
       | Some (task, s1) => (Some (st_id task), s1)
       | None => (None, s)
       end.

Definition Scheduler_selftest_queue_len (s : Scheduler) (cpu : nat) (qos : QosClass) : nat :=
  if bool_decide (MAX_CPUS ≤ cpu)%nat then 0
  else length (sc_queue_at s cpu (qos_index qos)).
