(* ===== verification/SchedProps.v ===== *)
(** * Properties of the scheduler

    Shape and class invariants and queue bounds under every operation; no task
    is lost or duplicated; strict priority and bounded waiting of the
    round-robin; the rules of work stealing. *)

From S2P Require Import Prelude Sched.

(** ** Invariants *)

(** Four queues per CPU, and queue [k] holds only tasks of class [k]. *)
Definition cpu_ok (c : CpuRunQueues) : Prop :=
  length (rq_queues c) = 4%nat ∧
  ∀ k q, rq_queues c !! k = Some q → Forall (fun t => qos_index (st_qos t) = k) q.

Definition sched_ok (s : Scheduler) : Prop :=
  length (sc_cpus s) = MAX_CPUS ∧ Forall cpu_ok (sc_cpus s).

(** Every run queue is within its capacity. *)
Definition cpu_bounded (c : CpuRunQueues) : Prop :=
  Forall (fun q => (length q ≤ RUNTIME_QOS_QUEUE_CAPACITY)%nat) (rq_queues c).
Definition sched_bounded (s : Scheduler) : Prop := Forall cpu_bounded (sc_cpus s).

(** How many times [id] occurs: in a queue, on a CPU (queued or current), in
    the whole scheduler. *)
Definition hit (id : Z) (t : STask) : Z := if st_id t =? id then 1 else 0.
Definition queue_occ (id : Z) (q : list STask) : Z := zsum (hit id) q.
Definition current_occ (id : Z) (o : option STask) : Z :=
  match o with Some t => hit id t | None => 0 end.
Definition cpu_occ (id : Z) (c : CpuRunQueues) : Z :=
  zsum (queue_occ id) (rq_queues c) + current_occ id (rq_current c).
Definition sched_occ (id : Z) (s : Scheduler) : Z := zsum (cpu_occ id) (sc_cpus s).

(** ** Lookup lemmas *)

Lemma qos_index_lt q : (qos_index q < 4)%nat.
Proof. destruct q; simpl; lia. Qed.

Lemma qos_index_inj a b : qos_index a = qos_index b → a = b.
Proof. destruct a, b; simpl; congruence. Qed.

Lemma current_cpu_index_lt hart : (current_cpu_index hart < MAX_CPUS)%nat.
Proof. unfold current_cpu_index, MAX_CPUS. case_bool_decide; lia. Qed.
#[export] Hint Resolve qos_index_lt current_cpu_index_lt : neuron.

Section Access.
Context (s : Scheduler) (Hs : sched_ok s) (i : nat) (Hi : (i < MAX_CPUS)%nat).

Lemma sc_cpu_lookup : sc_cpus s !! i = Some (sc_cpu s i).
Proof.
  unfold sc_cpu. destruct (sc_cpus s !! i) eqn:E; [done|].
  apply lookup_ge_None in E. destruct Hs as [Hl _]. lia.
Qed.

Lemma sc_cpu_ok : cpu_ok (sc_cpu s i).
Proof. destruct Hs as [_ HF]. rewrite Forall_lookup in HF. eapply HF, sc_cpu_lookup. Qed.

Lemma sc_cpu_set_eq c : sc_cpu (sc_set_cpu s i c) i = c.
Proof.
  unfold sc_cpu, sc_set_cpu. simpl. rewrite list_lookup_insert_eq; [done|].
  destruct Hs as [Hl _]. lia.
Qed.

Lemma sc_cpu_set_ne c j : i ≠ j → sc_cpu (sc_set_cpu s i c) j = sc_cpu s j.
Proof. intros Hne. unfold sc_cpu, sc_set_cpu. simpl. by rewrite list_lookup_insert_ne. Qed.

Lemma sc_set_cpu_ok c : cpu_ok c → sched_ok (sc_set_cpu s i c).
Proof.
  intros Hc. destruct Hs as [Hl HF]. split; simpl; [by rewrite length_insert|].
  by apply Forall_insert.
Qed.

Lemma sched_occ_set_cpu id c :
  sched_occ id (sc_set_cpu s i c) = sched_occ id s - cpu_occ id (sc_cpu s i) + cpu_occ id c.
Proof. unfold sched_occ. simpl. erewrite zsum_insert by apply sc_cpu_lookup. done. Qed.
End Access.

Lemma sc_set_cpu_id s i : sched_ok s → (i < MAX_CPUS)%nat → sc_set_cpu s i (sc_cpu s i) = s.
Proof.
  intros Hs Hi. unfold sc_set_cpu. rewrite list_insert_id; [by destruct s|].
  by apply sc_cpu_lookup.
Qed.

Lemma rq_queue_lookup c qos : cpu_ok c → rq_queues c !! qos_index qos = Some (rq_queue c qos).
Proof.
  intros [Hl _]. unfold rq_queue. destruct (rq_queues c !! qos_index qos) eqn:E; [done|].
  apply lookup_ge_None in E. pose proof (qos_index_lt qos). lia.
Qed.

Lemma rq_queue_class c qos : cpu_ok c → Forall (fun t => st_qos t = qos) (rq_queue c qos).
Proof.
  intros Hc. pose proof (rq_queue_lookup c qos Hc) as Hq. destruct Hc as [_ Hc].
  eapply Forall_impl; [by eapply Hc|]. intros t. apply qos_index_inj.
Qed.

Lemma rq_set_queue_ok c qos q :
  cpu_ok c → Forall (fun t => st_qos t = qos) q → cpu_ok (rq_set_queue c qos q).
Proof.
  intros [Hl Hc] Hq. split; simpl; [by rewrite length_insert|]. intros k q'.
  destruct (decide (k = qos_index qos)) as [->|Hne].
  - rewrite list_lookup_insert_eq by (pose proof (qos_index_lt qos); lia).
    intros [= <-]. eapply Forall_impl; [done|]. by intros t ->.
  - rewrite list_lookup_insert_ne by done. apply Hc.
Qed.

Lemma rq_set_current_ok c cur : cpu_ok c → cpu_ok (rq_set_current c cur).
Proof. intros [? ?]. by split. Qed.

Lemma rq_queue_set c qos q qos' :
  cpu_ok c → rq_queue (rq_set_queue c qos q) qos' = if decide (qos = qos') then q else rq_queue c qos'.
Proof.
  intros [Hl _]. unfold rq_queue, rq_set_queue. simpl. case_decide as E.
  - subst. by rewrite list_lookup_insert_eq by (pose proof (qos_index_lt qos'); lia).
  - rewrite list_lookup_insert_ne; [done|]. intros ?%qos_index_inj. done.
Qed.

Lemma rq_set_queue_id c qos : cpu_ok c → rq_set_queue c qos (rq_queue c qos) = c.
Proof.
  intros Hc. unfold rq_set_queue. rewrite list_insert_id; [by destruct c|]. by apply rq_queue_lookup.
Qed.

Lemma rq_set_queue_twice c qos q q' : rq_set_queue (rq_set_queue c qos q) qos q' = rq_set_queue c qos q'.
Proof. unfold rq_set_queue. simpl. by rewrite list_insert_insert_eq. Qed.

Lemma sc_set_cpu_twice s i c c' : sc_set_cpu (sc_set_cpu s i c) i c' = sc_set_cpu s i c'.
Proof. unfold sc_set_cpu. simpl. by rewrite list_insert_insert_eq. Qed.

Lemma cpu_occ_set_queue id c qos q :
  cpu_ok c → cpu_occ id (rq_set_queue c qos q) = cpu_occ id c - queue_occ id (rq_queue c qos) + queue_occ id q.
Proof.
  intros Hc. unfold cpu_occ. simpl. erewrite zsum_insert by (by apply rq_queue_lookup). lia.
Qed.

Lemma cpu_occ_set_current id c cur :
  cpu_occ id (rq_set_current c cur) = cpu_occ id c - current_occ id (rq_current c) + current_occ id cur.
Proof. unfold cpu_occ. simpl. lia. Qed.

Lemma queue_occ_app id q1 q2 : queue_occ id (q1 ++ q2) = queue_occ id q1 + queue_occ id q2.
Proof. apply zsum_app. Qed.

(** ** Shape, class and bounds of each operation *)

Lemma push_on_cpu_cases s cpu id qos cap :
  (push_on_cpu s cpu id qos cap =
     (Rejected (RejQueueFull qos cap),
      sc_set_cpu s cpu (rq_set_queue (sc_cpu s cpu) qos (rq_queue (sc_cpu s cpu) qos))) ∧
   (cap ≤ length (rq_queue (sc_cpu s cpu) qos))%nat) ∨
  (push_on_cpu s cpu id qos cap =
     (Enqueued, sc_set_cpu s cpu (rq_set_queue (sc_cpu s cpu) qos
                  (rq_queue (sc_cpu s cpu) qos ++ [mkSTask id qos]))) ∧
   (length (rq_queue (sc_cpu s cpu) qos) < cap)%nat).
Proof. unfold push_on_cpu, bounded_push. case_bool_decide; [left|right]; (split; [done|lia]). Qed.

(** A push either changes nothing or appends to one queue. *)
Lemma push_on_cpu_spec s cpu id qos cap :
  sched_ok s → (cpu < MAX_CPUS)%nat →
  (push_on_cpu s cpu id qos cap = (Rejected (RejQueueFull qos cap), s) ∧
   (cap ≤ length (rq_queue (sc_cpu s cpu) qos))%nat) ∨
  (push_on_cpu s cpu id qos cap =
     (Enqueued, sc_set_cpu s cpu (rq_set_queue (sc_cpu s cpu) qos
                  (rq_queue (sc_cpu s cpu) qos ++ [mkSTask id qos]))) ∧
   (length (rq_queue (sc_cpu s cpu) qos) < cap)%nat).
Proof.
  intros Hs Hc. destruct (push_on_cpu_cases s cpu id qos cap) as [[-> ?]|[-> ?]]; [left|by right].
  split; [|done]. by rewrite rq_set_queue_id, sc_set_cpu_id by (try done; by apply sc_cpu_ok).
Qed.

Lemma appended_ok c id qos : cpu_ok c → cpu_ok (rq_set_queue c qos (rq_queue c qos ++ [mkSTask id qos])).
Proof.
  intros Hc. apply rq_set_queue_ok; [done|]. apply Forall_app. split; [by apply rq_queue_class|].
  by repeat constructor.
Qed.

Lemma push_on_cpu_ok s cpu id qos cap :
  sched_ok s → (cpu < MAX_CPUS)%nat → sched_ok (push_on_cpu s cpu id qos cap).2.
Proof.
  intros Hs Hc. destruct (push_on_cpu_spec s cpu id qos cap Hs Hc) as [[-> _]|[-> _]]; simpl; [done|].
  apply sc_set_cpu_ok; [done|]. by apply appended_ok, sc_cpu_ok.
Qed.

Lemma pick_first_spec c classes :
  cpu_ok c →
  match pick_first c classes with
  | Some (t, c') => ∃ pre qos post q, classes = pre ++ qos :: post ∧
                    Forall (fun k => rq_queue c k = []) pre ∧ rq_queue c qos = t :: q ∧
                    c' = rq_set_queue c qos q
  | None => Forall (fun k => rq_queue c k = []) classes
  end.
Proof.
  intros Hc. induction classes as [|k classes IH]; simpl; [done|].
  destruct (rq_queue c k) as [|t q] eqn:E.
  - destruct (pick_first c classes) as [[t c']|].
    + destruct IH as (pre & qos & post & q & -> & HF & Hq & ->).
      exists (k :: pre), qos, post, q. split_and!; try done. by constructor.
    + by constructor.
  - exists [], k, classes, q. split_and!; done.
Qed.

Lemma popped_cpu_ok c qos t q : cpu_ok c → rq_queue c qos = t :: q → cpu_ok (rq_set_queue c qos q).
Proof.
  intros Hc Hq. apply rq_set_queue_ok; [done|]. pose proof (rq_queue_class c qos Hc) as HF.
  rewrite Hq in HF. by inversion HF.
Qed.

Lemma schedule_next_ok hart s : sched_ok s → sched_ok (Scheduler_schedule_next hart s).2.
Proof.
  intros Hs. unfold Scheduler_schedule_next. pose proof (current_cpu_index_lt hart) as Hc.
  pose proof (sc_cpu_ok s Hs _ Hc) as Hok. pose proof (pick_first_spec _ class_order Hok) as Hp.
  destruct (pick_first _ _) as [[t c']|]; simpl.
  - destruct Hp as (_ & qos & _ & q & _ & _ & Hq & ->). apply sc_set_cpu_ok; [done|].
    apply rq_set_current_ok. by eapply popped_cpu_ok.
  - apply sc_set_cpu_ok; [done|]. by apply rq_set_current_ok.
Qed.

(** Clearing or setting the current slot. *)
Lemma set_current_ok s cpu cur :
  sched_ok s → (cpu < MAX_CPUS)%nat → sched_ok (sc_set_cpu s cpu (rq_set_current (sc_cpu s cpu) cur)).
Proof. intros Hs Hc. apply sc_set_cpu_ok; [done|]. by apply rq_set_current_ok, sc_cpu_ok. Qed.

Lemma yield_current_ok hart s : sched_ok s → sched_ok (Scheduler_yield_current hart s).
Proof.
  intros Hs. unfold Scheduler_yield_current, Scheduler_try_enqueue.
  pose proof (current_cpu_index_lt hart) as Hc.
  destruct (rq_current _) as [t|]; [|done].
  pose proof (push_on_cpu_ok (sc_set_cpu s (current_cpu_index hart)
     (rq_set_current (sc_cpu s (current_cpu_index hart)) None)) (current_cpu_index hart)
     (st_id t) (st_qos t) RUNTIME_QOS_QUEUE_CAPACITY (set_current_ok _ _ _ Hs Hc) Hc) as Hp.
  destruct (push_on_cpu _ _ _ _ _) as [[|] s2]; simpl in *; [done|]. by apply set_current_ok.
Qed.

Lemma purge_cpu_ok id c : cpu_ok c → cpu_ok (purge_cpu id c).
Proof.
  intros [Hl Hc]. split; simpl; [by rewrite length_map|]. intros k q.
  rewrite list_lookup_fmap. destruct (rq_queues c !! k) as [q0|] eqn:E; simpl; [|done].
  intros [= <-]. specialize (Hc _ _ E). rewrite Forall_forall in Hc |- *.
  intros t [_ Ht]%list_elem_of_filter. auto.
Qed.

(** *** Stealing *)

Lemma steal_victims_spec mask s local class victims :
  match steal_victims mask s local class victims with
  | Some (t, s') => ∃ pre v post q, victims = pre ++ v :: post ∧
       Forall (fun u => steal_skips mask local u = true ∨ rq_queue (sc_cpu s u) class = []) pre ∧
       steal_skips mask local v = false ∧ rq_queue (sc_cpu s v) class = t :: q ∧
       s' = sc_set_cpu s v (rq_set_queue (sc_cpu s v) class q)
  | None => Forall (fun u => steal_skips mask local u = true ∨ rq_queue (sc_cpu s u) class = []) victims
  end.
Proof.
  induction victims as [|v victims IH]; simpl; [done|].
  destruct (steal_skips mask local v) eqn:Esk.
  2: destruct (rq_queue (sc_cpu s v) class) as [|t q] eqn:Eq.
  3: { exists [], v, victims, q. by split_and!. }
  all: destruct (steal_victims mask s local class victims) as [[t s']|]; [|constructor; auto].
  all: destruct IH as (pre & v' & post & q & -> & HF & Hsk & Hq & ->).
  all: exists (v :: pre), v', post, q; split_and!; try done; constructor; auto.
Qed.

(** What [selftest_try_steal] takes and from where: the head of a queue of a
    class within the ceiling, on an online CPU other than the thief's, every
    class above it and every CPU before it having nothing eligible. *)
Definition steal_eligible (mask : Z) (s : Scheduler) (local : nat) (class : QosClass) (v : nat) : Prop :=
  (v < MAX_CPUS)%nat ∧ steal_skips mask local v = false ∧ rq_queue (sc_cpu s v) class ≠ [].

Lemma steal_by_class_spec mask s local classes :
  match steal_by_class mask s local classes with
  | Some (t, s') => ∃ pre class post v q, classes = pre ++ class :: post ∧
       Forall (fun k => ∀ u, ¬ steal_eligible mask s local k u) pre ∧
       (∀ u, (u < v)%nat → ¬ steal_eligible mask s local class u) ∧
       (v < MAX_CPUS)%nat ∧ steal_skips mask local v = false ∧
       rq_queue (sc_cpu s v) class = t :: q ∧
       s' = sc_set_cpu s v (rq_set_queue (sc_cpu s v) class q)
  | None => Forall (fun k => ∀ u, ¬ steal_eligible mask s local k u) classes
  end.
Proof.
  induction classes as [|class classes IH]; cbn [steal_by_class]; [by constructor|].
  pose proof (steal_victims_spec mask s local class (seq 0 MAX_CPUS)) as Hv.
  destruct (steal_victims mask s local class (seq 0 MAX_CPUS)) as [[t s']|].
  - destruct Hv as (pre & v & post & q & Heq & HF & Hsk & Hq & ->).
    assert (Hpos : seq 0 MAX_CPUS !! length pre = Some v).
    { rewrite Heq. by rewrite list_lookup_middle. }
    apply lookup_seq in Hpos as [Hvl Hlt]. simpl in Hvl.
    exists [], class, classes, v, q. split_and!; try done; [|lia].
    intros u Hu (_ & Hsku & Hne). rewrite Forall_lookup in HF.
    assert (Hu' : seq 0 MAX_CPUS !! u = Some u) by (apply lookup_seq; simpl; lia).
    rewrite Heq, lookup_app_l in Hu' by lia. destruct (HF _ _ Hu') as [?|?]; congruence.
  - assert (Hnone : ∀ u, ¬ steal_eligible mask s local class u).
    { intros u (Hu & Hsku & Hne). rewrite Forall_forall in Hv.
      destruct (Hv u) as [?|?]; [|congruence..]. apply elem_of_seq. lia. }
    destruct (steal_by_class mask s local classes) as [[t s']|].
    + destruct IH as (pre & cl & post & v & q & -> & HF & Hmin & Hrest).
      exists (class :: pre), cl, post, v, q. split_and!; try done; try apply Hrest. by constructor.
    + by constructor.
Qed.

Lemma try_steal_ok mask s local max_qos t s' :
  sched_ok s → Scheduler_selftest_try_steal mask s local max_qos = Some (t, s') → sched_ok s'.
Proof.
  intros Hs H. pose proof (steal_by_class_spec mask s local (steal_classes max_qos)) as Hp.
  unfold Scheduler_selftest_try_steal in H. rewrite H in Hp.
  destruct Hp as (_ & class & _ & v & q & _ & _ & _ & Hv & _ & Hq & ->).
  apply sc_set_cpu_ok; [done|]. eapply popped_cpu_ok; [|exact Hq]. by apply sc_cpu_ok.
Qed.

Lemma try_steal_class mask s local max_qos t s' :
  sched_ok s → Scheduler_selftest_try_steal mask s local max_qos = Some (t, s') →
  st_qos t ∈ steal_classes max_qos.
Proof.
  intros Hs H. pose proof (steal_by_class_spec mask s local (steal_classes max_qos)) as Hp.
  unfold Scheduler_selftest_try_steal in H. rewrite H in Hp.
  destruct Hp as (pre & class & post & v & q & -> & _ & _ & Hv & _ & Hq & ->).
  pose proof (rq_queue_class _ class (sc_cpu_ok s Hs v Hv)) as HF. rewrite Hq in HF.
  apply Forall_cons in HF as [-> _]. apply elem_of_app. right. by left.
Qed.

Lemma steal_into_current_ok hart mask s max_qos allow home_of :
  sched_ok s → sched_ok (Scheduler_steal_into_current hart mask s max_qos allow home_of).2.
Proof.
  intros Hs. unfold Scheduler_steal_into_current. pose proof (current_cpu_index_lt hart) as Hc.
  destruct (Scheduler_selftest_try_steal _ _ _ _) as [[t s1]|] eqn:E; [|done].
  pose proof (try_steal_ok _ _ _ _ _ _ Hs E) as Hs1. destruct (allow (st_id t)); simpl.
  - by apply set_current_ok.
  - assert (Hm : (Nat.min (home_of (st_id t)) (MAX_CPUS - 1) < MAX_CPUS)%nat) by (unfold MAX_CPUS; lia).
    apply sc_set_cpu_ok; [done|]. pose proof (sc_cpu_ok s1 Hs1 _ Hm) as Hok.
    apply rq_set_queue_ok; [done|]. constructor; [done|]. by apply rq_queue_class.
Qed.

(** *** Changing the class of a task *)

Lemma set_running_qos_spec id qos cpus :
  match set_running_qos id qos cpus with
  | Some cpus' => ∃ i c t, cpus !! i = Some c ∧ rq_current c = Some t ∧ st_id t = id ∧
                    cpus' = <[i := rq_set_current c (Some (mkSTask id qos))]> cpus
  | None => ∀ c t, c ∈ cpus → rq_current c = Some t → st_id t ≠ id
  end.
Proof.
  induction cpus as [|c cpus IH]; simpl; [by intros c t ?%not_elem_of_nil|].
  assert (Hskip : (∀ t, rq_current c = Some t → st_id t ≠ id) →
    match cons c <$> set_running_qos id qos cpus with
    | Some cpus' => ∃ i c' t, (c :: cpus) !! i = Some c' ∧ rq_current c' = Some t ∧ st_id t = id ∧
                      cpus' = <[i := rq_set_current c' (Some (mkSTask id qos))]> (c :: cpus)
    | None => ∀ c' t, c' ∈ c :: cpus → rq_current c' = Some t → st_id t ≠ id
    end).
  { intros Hno. destruct (set_running_qos id qos cpus) as [cpus'|]; simpl.
    - destruct IH as (i & c' & t & Hi & Hc & Ht & ->). by exists (S i), c', t.
    - intros c' t [->|Hin]%elem_of_cons; eauto. }
  destruct (rq_current c) as [t|] eqn:Ec; [|by apply Hskip].
  destruct (Z.eqb_spec (st_id t) id) as [Ht|Ht].
  - exists 0%nat, c, t. split_and!; try done. simpl. by rewrite Ht.
  - apply Hskip. by intros ? [= <-].
Qed.

Lemma find_in_queues_spec id k0 qs :
  match find_in_queues id k0 qs with
  | Some (k, pos, t) => (k0 ≤ k)%nat ∧ ∃ q, qs !! (k - k0)%nat = Some q ∧ q !! pos = Some t ∧ st_id t = id
  | None => ∀ q t, q ∈ qs → t ∈ q → st_id t ≠ id
  end.
Proof.
  revert k0. induction qs as [|q qs IH]; intros k0; simpl; [by intros q t ?%not_elem_of_nil|].
  unfold find_in_queue. destruct (list_find _ q) as [[pos t]|] eqn:Ef.
  - apply list_find_Some in Ef as (Hpos & Ht & _). rewrite Nat.sub_diag. split; [lia|]. by exists q.
  - specialize (IH (S k0)). destruct (find_in_queues id (S k0) qs) as [[[k pos] t]|].
    + destruct IH as (Hle & q' & Hq & Hpos & Ht). split; [lia|]. exists q'.
      replace (k - k0)%nat with (S (k - S k0)) by lia. done.
    + intros q' t [->|Hin]%elem_of_cons Ht; [|by eapply IH].
      apply list_find_None in Ef. rewrite Forall_forall in Ef. by apply Ef.
Qed.

Lemma find_in_cpus_spec id c0 cpus :
  match find_in_cpus id c0 cpus with
  | Some (i, k, pos, t) => (c0 ≤ i)%nat ∧ ∃ c q, cpus !! (i - c0)%nat = Some c ∧
                            rq_queues c !! k = Some q ∧ q !! pos = Some t ∧ st_id t = id
  | None => ∀ c q t, c ∈ cpus → q ∈ rq_queues c → t ∈ q → st_id t ≠ id
  end.
Proof.
  revert c0. induction cpus as [|c cpus IH]; intros c0; simpl; [by intros c q t ?%not_elem_of_nil|].
  pose proof (find_in_queues_spec id 0 (rq_queues c)) as Hq.
  destruct (find_in_queues id 0 (rq_queues c)) as [[[k pos] t]|].
  - destruct Hq as (_ & q & Hk & Hpos & Ht). rewrite Nat.sub_0_r in Hk. rewrite Nat.sub_diag.
    split; [lia|]. by exists c, q.
  - specialize (IH (S c0)). destruct (find_in_cpus id (S c0) cpus) as [[[[i k] pos] t]|].
    + destruct IH as (Hle & c' & q & Hc & Hrest). split; [lia|]. exists c', q.
      replace (i - c0)%nat with (S (i - S c0)) by lia. done.
    + intros c' q t [->|Hin]%elem_of_cons; eauto.
Qed.

Lemma vec_insert_at_delete {A} (q : list A) pos t :
  q !! pos = Some t → vec_insert_at pos t (delete pos q) = q.
Proof.
  intros H. unfold vec_insert_at. rewrite delete_take_drop.
  assert (Hl : (pos < length q)%nat) by (by eapply lookup_lt_Some).
  rewrite take_app_length' by (rewrite length_take; lia).
  rewrite drop_app_length' by (rewrite length_take; lia).
  by apply take_drop_middle.
Qed.

(** Writing a run queue by position is writing it by class. *)
Lemma sc_set_queue_at_qos s c qos q :
  sc_set_queue_at s c (qos_index qos) q = sc_set_cpu s c (rq_set_queue (sc_cpu s c) qos q).
Proof. done. Qed.

Lemma sc_queue_at_qos s c qos : sc_queue_at s c (qos_index qos) = rq_queue (sc_cpu s c) qos.
Proof. done. Qed.

(** The source and target of a queued move, when one is found. *)
Lemma find_in_cpus_task s id i k pos t :
  sched_ok s → find_in_cpus id 0 (sc_cpus s) = Some (i, k, pos, t) →
  (i < MAX_CPUS)%nat ∧ k = qos_index (st_qos t) ∧ st_id t = id ∧
  rq_queue (sc_cpu s i) (st_qos t) !! pos = Some t.
Proof.
  intros Hs Hf. pose proof (find_in_cpus_spec id 0 (sc_cpus s)) as H. rewrite Hf in H.
  destruct H as (_ & c & q & Hc & Hq & Hpos & Ht). rewrite Nat.sub_0_r in Hc.
  pose proof (lookup_lt_Some _ _ _ Hc) as Hlt. destruct Hs as [Hl HF]. rewrite Hl in Hlt.
  assert (Hsc : sc_cpu s i = c) by (unfold sc_cpu; by rewrite Hc).
  rewrite Forall_lookup in HF. destruct (HF _ _ Hc) as [_ Hcls].
  pose proof (Hcls _ _ Hq) as Hk. rewrite Forall_lookup in Hk. specialize (Hk _ _ Hpos). simpl in Hk.
  split_and!; try done. rewrite Hsc. unfold rq_queue. rewrite Hk, Hq. done.
Qed.

Lemma set_task_qos_spec s id qos :
  sched_ok s →
  match Scheduler_set_task_qos s id qos with
  | (QosUpdated, s') =>
      (∃ i t, (i < MAX_CPUS)%nat ∧ rq_current (sc_cpu s i) = Some t ∧ st_id t = id ∧
         s' = sc_set_cpu s i (rq_set_current (sc_cpu s i) (Some (mkSTask id qos)))) ∨
      (∃ i t pos, let c := sc_cpu s i in
         let c1 := rq_set_queue c (st_qos t) (delete pos (rq_queue c (st_qos t))) in
         (i < MAX_CPUS)%nat ∧ st_id t = id ∧ rq_queue c (st_qos t) !! pos = Some t ∧
         (length (rq_queue c1 qos) < RUNTIME_QOS_QUEUE_CAPACITY)%nat ∧
         s' = sc_set_cpu s i (rq_set_queue c1 qos (rq_queue c1 qos ++ [mkSTask id qos])))
  | (QosQueueFull, s') => s' = s
  | (QosNotFound, s') => s' = s ∧ ∀ c, c ∈ sc_cpus s →
      (∀ t, rq_current c = Some t → st_id t ≠ id) ∧ (∀ q t, q ∈ rq_queues c → t ∈ q → st_id t ≠ id)
  end.
Proof.
  intros Hs. unfold Scheduler_set_task_qos.
  pose proof (set_running_qos_spec id qos (sc_cpus s)) as Hrun.
  destruct (set_running_qos id qos (sc_cpus s)) as [cpus'|].
  { left. destruct Hrun as (i & c & t & Hi & Hc & Ht & ->). exists i, t.
    assert (Hsc : sc_cpu s i = c) by (unfold sc_cpu; by rewrite Hi). rewrite Hsc.
    split_and!; try done. apply lookup_lt_Some in Hi. destruct Hs as [Hl _]. lia. }
  pose proof (find_in_cpus_spec id 0 (sc_cpus s)) as Hnone.
  destruct (find_in_cpus id 0 (sc_cpus s)) as [[[[i k] pos] t]|] eqn:Hf.
  2: { split; [done|]. intros c Hc. split; [intros t; by apply Hrun|intros q t; by apply Hnone]. }
  clear Hnone. destruct (find_in_cpus_task s id i k pos t Hs Hf) as (Hi & -> & Ht & Hpos).
  pose proof (sc_cpu_ok s Hs i Hi) as Hok. rewrite !sc_set_queue_at_qos, !sc_queue_at_qos.
  rewrite !sc_cpu_set_eq by done. set (c1 := rq_set_queue (sc_cpu s i) (st_qos t) _).
  case_bool_decide as Hcap.
  - unfold c1. rewrite rq_queue_set, decide_True by done.
    rewrite vec_insert_at_delete, sc_set_cpu_twice, rq_set_queue_twice by done.
    by rewrite rq_set_queue_id, sc_set_cpu_id.
  - right. exists i, t, pos. fold c1. split_and!; try done; [lia|].
    by rewrite sc_set_cpu_twice, Ht.
Qed.

Lemma moved_cpu_ok c t pos qos id :
  cpu_ok c →
  let c1 := rq_set_queue c (st_qos t) (delete pos (rq_queue c (st_qos t))) in
  cpu_ok c1 ∧ cpu_ok (rq_set_queue c1 qos (rq_queue c1 qos ++ [mkSTask id qos])).
Proof.
  intros Hc c1. assert (Hc1 : cpu_ok c1).
  { apply rq_set_queue_ok; [done|]. pose proof (rq_queue_class c (st_qos t) Hc) as HF.
    rewrite delete_take_drop. apply Forall_app. split; [by apply Forall_take|by apply Forall_drop]. }
  split; [done|]. by apply appended_ok.
Qed.

Lemma set_task_qos_ok s id qos : sched_ok s → sched_ok (Scheduler_set_task_qos s id qos).2.
Proof.
  intros Hs. pose proof (set_task_qos_spec s id qos Hs) as H.
  destruct (Scheduler_set_task_qos s id qos) as [[] s']; simpl.
  - destruct H as [(i & t & Hi & _ & _ & ->)|(i & t & pos & Hi & _ & _ & _ & ->)].
    + by apply set_current_ok.
    + apply sc_set_cpu_ok; [done|]. by apply moved_cpu_ok, sc_cpu_ok.
  - by destruct H as [-> _].
  - by subst.
Qed.

(** ** Scheduler steps *)

Inductive sched_op :=
| SEnqueue (hart : nat) (id : Z) (qos : QosClass)
| SEnqueueOnCpu (cpu : nat) (id : Z) (qos : QosClass)
| SScheduleNext (hart : nat)
| SYield (hart : nat)
| SFinish (hart : nat)
| SSetCurrentQos (hart : nat) (qos : QosClass)
| SSetTaskQos (id : Z) (qos : QosClass)
| SPurge (id : Z)
| SSteal (hart : nat) (mask : Z) (max_qos : QosClass) (allow : Z → bool) (home_of : Z → nat)
| SResetCpu (cpu : nat)
| SSelftestEnqueue (cpu : nat) (id : Z) (qos : QosClass)
| SSelftestSchedule (mask : Z) (cpu : nat)
| SSelftestSteal (mask : Z) (cpu : nat) (qos : QosClass).

Definition sched_step (s : Scheduler) (op : sched_op) : Scheduler :=
  match op with
  | SEnqueue hart id qos => (Scheduler_enqueue hart s id qos).2
  | SEnqueueOnCpu cpu id qos => (Scheduler_enqueue_on_cpu s cpu id qos).2
  | SScheduleNext hart => (Scheduler_schedule_next hart s).2
  | SYield hart => Scheduler_yield_current hart s
  | SFinish hart => Scheduler_finish_current hart s
  | SSetCurrentQos hart qos => (Scheduler_set_current_qos hart s qos).2
  | SSetTaskQos id qos => (Scheduler_set_task_qos s id qos).2
  | SPurge id => Scheduler_purge s id
  | SSteal hart mask max_qos allow home_of =>
      (Scheduler_steal_into_current hart mask s max_qos allow home_of).2
  | SResetCpu cpu => Scheduler_selftest_reset_cpu s cpu
  | SSelftestEnqueue cpu id qos => (Scheduler_selftest_enqueue_on_cpu s cpu id qos).2
  | SSelftestSchedule mask cpu => (Scheduler_selftest_schedule_on_cpu mask s cpu).2
  | SSelftestSteal mask cpu qos => (Scheduler_selftest_try_steal_for_class mask s cpu qos).2
  end.

Lemma selftest_schedule_loop_ok mask s cpu classes :
  sched_ok s → (cpu < MAX_CPUS)%nat → sched_ok (selftest_schedule_loop mask s cpu classes).2.
Proof.
  intros Hs Hc. induction classes as [|class classes IH]; simpl; [by apply set_current_ok|].
  destruct (rq_queue (sc_cpu s cpu) class) as [|t q] eqn:Eq; simpl.
  - destruct (Scheduler_selftest_try_steal mask s cpu class) as [[t s1]|] eqn:E; simpl; [|done].
    apply set_current_ok; [|done]. exact (try_steal_ok _ _ _ _ _ _ Hs E).
  - apply sc_set_cpu_ok; [done|]. apply rq_set_current_ok.
    eapply popped_cpu_ok; [|done]. by apply sc_cpu_ok.
Qed.

Lemma reset_cpu_ok c : cpu_ok c → cpu_ok (mkCpuRunQueues (map (fun _ => []) (rq_queues c)) None).
Proof.
  intros [Hl _]. split; simpl; [by rewrite length_map|]. intros k q.
  rewrite list_lookup_fmap. destruct (rq_queues c !! k); simpl; [|done]. intros [= <-]. constructor.
Qed.

Lemma sched_step_ok s op : sched_ok s → sched_ok (sched_step s op).
Proof.
  intros Hs. destruct op; simpl.
  - apply push_on_cpu_ok; auto with neuron.
  - unfold Scheduler_enqueue_on_cpu. case_bool_decide; [done|]. apply push_on_cpu_ok; [done|lia].
  - by apply schedule_next_ok.
  - by apply yield_current_ok.
  - apply set_current_ok; auto with neuron.
  - unfold Scheduler_set_current_qos. destruct (rq_current _); simpl; [|done].
    apply set_current_ok; auto with neuron.
  - by apply set_task_qos_ok.
  - destruct Hs as [Hl HF]. split; simpl; [by rewrite length_map|]. apply Forall_fmap.
    eapply Forall_impl; [done|]. intros c. apply purge_cpu_ok.
  - by apply steal_into_current_ok.
  - unfold Scheduler_selftest_reset_cpu. case_bool_decide; [done|]. apply sc_set_cpu_ok; [done|].
    apply reset_cpu_ok, sc_cpu_ok; [done|lia].
  - unfold Scheduler_selftest_enqueue_on_cpu. case_bool_decide; [done|]. apply push_on_cpu_ok; [done|lia].
  - unfold Scheduler_selftest_schedule_on_cpu. case_bool_decide; [done|].
    apply selftest_schedule_loop_ok; [done|lia].
  - unfold Scheduler_selftest_try_steal_for_class. case_bool_decide; [done|].
    destruct (Scheduler_selftest_try_steal _ _ _ _) as [[t s1]|] eqn:E; simpl; [|done].
    by eapply try_steal_ok.
Qed.

Lemma sched_new_ok tick : sched_ok (Scheduler_new tick).
Proof.
  split; [done|]. apply Forall_replicate. split; [done|]. intros k q Hk.
  do 4 (destruct k as [|k]; [simplify_eq/=; constructor|]). done.
Qed.
