(* ===== verification/SchedLaws.v ===== *)
(** * Laws of the scheduler

    Conservation of tasks, queue bounds, priority, bounded waiting and the
    steal rules, each for every operation of the scheduler. *)

From S2P Require Import Prelude Sched SchedProps.

(** ** Conservation *)

Lemma zsum_delete {A} (f : A → Z) (l : list A) i x :
  l !! i = Some x → zsum f (delete i l) = zsum f l - f x.
Proof.
  revert i. induction l as [|y l IH]; intros [|i] H; simplify_eq/=; [lia|]. rewrite (IH _ H). lia.
Qed.

Lemma try_steal_effect mask s local max_qos t s1 :
  sched_ok s → Scheduler_selftest_try_steal mask s local max_qos = Some (t, s1) →
  ∃ v q, (v < MAX_CPUS)%nat ∧ steal_skips mask local v = false ∧
         rq_queue (sc_cpu s v) (st_qos t) = t :: q ∧
         s1 = sc_set_cpu s v (rq_set_queue (sc_cpu s v) (st_qos t) q).
Proof.
  intros Hs H. pose proof (steal_by_class_spec mask s local (steal_classes max_qos)) as Hp.
  unfold Scheduler_selftest_try_steal in H. rewrite H in Hp.
  destruct Hp as (_ & class & _ & v & q & _ & _ & _ & Hv & Hsk & Hq & ->).
  pose proof (rq_queue_class _ class (sc_cpu_ok s Hs v Hv)) as HF. rewrite Hq in HF.
  apply Forall_cons in HF as [<- _]. by exists v, q.
Qed.

Section Occurrences.
Context (x : Z).

Lemma occ_set_current s i cur :
  sched_ok s → (i < MAX_CPUS)%nat →
  sched_occ x (sc_set_cpu s i (rq_set_current (sc_cpu s i) cur)) =
  sched_occ x s - current_occ x (rq_current (sc_cpu s i)) + current_occ x cur.
Proof. intros Hs Hi. rewrite sched_occ_set_cpu, cpu_occ_set_current by done. lia. Qed.

Lemma occ_push s cpu id qos cap :
  sched_ok s → (cpu < MAX_CPUS)%nat →
  sched_occ x (push_on_cpu s cpu id qos cap).2 =
  sched_occ x s + match (push_on_cpu s cpu id qos cap).1 with
                  | Enqueued => hit x (mkSTask id qos)
                  | Rejected _ => 0
                  end.
Proof.
  intros Hs Hc. destruct (push_on_cpu_spec s cpu id qos cap Hs Hc) as [[-> _]|[-> _]]; simpl; [lia|].
  rewrite sched_occ_set_cpu, cpu_occ_set_queue, queue_occ_app by (try done; by apply sc_cpu_ok).
  unfold queue_occ at 3. simpl. lia.
Qed.

(** Popping the head [t] of a queue. *)
Lemma occ_popped c qos t q :
  cpu_ok c → rq_queue c qos = t :: q → cpu_occ x (rq_set_queue c qos q) = cpu_occ x c - hit x t.
Proof.
  intros Hc Hq. rewrite cpu_occ_set_queue, Hq by done. unfold queue_occ. simpl. lia.
Qed.

Lemma occ_steal mask s local max_qos t s1 :
  sched_ok s → Scheduler_selftest_try_steal mask s local max_qos = Some (t, s1) →
  sched_occ x s1 = sched_occ x s - hit x t ∧
  ∀ i, rq_current (sc_cpu s1 i) = rq_current (sc_cpu s i).
Proof.
  intros Hs H. destruct (try_steal_effect _ _ _ _ _ _ Hs H) as (v & q & Hv & _ & Hq & ->). split.
  - rewrite sched_occ_set_cpu by done. erewrite occ_popped by (done || by apply sc_cpu_ok). lia.
  - intros i. destruct (decide (v = i)) as [<-|Hne]; [by rewrite sc_cpu_set_eq|].
    by rewrite sc_cpu_set_ne.
Qed.

Lemma occ_schedule_next hart s :
  sched_ok s →
  sched_occ x (Scheduler_schedule_next hart s).2 =
  sched_occ x s - current_occ x (rq_current (sc_cpu s (current_cpu_index hart))).
Proof.
  intros Hs. unfold Scheduler_schedule_next. pose proof (current_cpu_index_lt hart) as Hc.
  pose proof (sc_cpu_ok s Hs _ Hc) as Hok. pose proof (pick_first_spec _ class_order Hok) as Hp.
  destruct (pick_first _ _) as [[t c']|]; simpl.
  - destruct Hp as (_ & qos & _ & q & _ & _ & Hq & ->).
    rewrite sched_occ_set_cpu, cpu_occ_set_current by done. erewrite occ_popped by done. simpl. lia.
  - rewrite occ_set_current by done. simpl. lia.
Qed.

Lemma occ_yield hart s : sched_ok s → sched_occ x (Scheduler_yield_current hart s) = sched_occ x s.
Proof.
  intros Hs. unfold Scheduler_yield_current, Scheduler_try_enqueue.
  set (i := current_cpu_index hart). assert (Hc : (i < MAX_CPUS)%nat) by apply current_cpu_index_lt.
  destruct (rq_current (sc_cpu s i)) as [t|] eqn:Et; [|done].
  set (s1 := sc_set_cpu s i _). assert (Hs1 : sched_ok s1) by (by apply set_current_ok).
  assert (Ho : sched_occ x s1 = sched_occ x s - hit x t).
  { unfold s1. rewrite occ_set_current, Et by done. simpl. lia. }
  pose proof (occ_push s1 i (st_id t) (st_qos t) RUNTIME_QOS_QUEUE_CAPACITY Hs1 Hc) as Hp.
  assert (Ht : mkSTask (st_id t) (st_qos t) = t) by (by destruct t). rewrite Ht in Hp.
  destruct (push_on_cpu_spec s1 i (st_id t) (st_qos t) RUNTIME_QOS_QUEUE_CAPACITY Hs1 Hc)
    as [[E _]|[E _]]; rewrite E in *; simpl in *; [|lia].
  rewrite occ_set_current by done. unfold s1 at 2. rewrite sc_cpu_set_eq by done. simpl. lia.
Qed.

Lemma occ_set_task_qos s id qos :
  sched_ok s → sched_occ x (Scheduler_set_task_qos s id qos).2 = sched_occ x s.
Proof.
  intros Hs. pose proof (set_task_qos_spec s id qos Hs) as H.
  destruct (Scheduler_set_task_qos s id qos) as [[] s']; simpl; [|by destruct H as [-> _]|by subst].
  destruct H as [(i & t & Hi & Hc & Ht & ->)|(i & t & pos & Hi & Ht & Hpos & _ & ->)].
  - rewrite occ_set_current, Hc by done. unfold current_occ, hit. simpl. rewrite Ht. lia.
  - pose proof (sc_cpu_ok s Hs i Hi) as Hok.
    destruct (moved_cpu_ok (sc_cpu s i) t pos qos id Hok) as [Hok1 _].
    rewrite sched_occ_set_cpu, cpu_occ_set_queue, queue_occ_app by done.
    rewrite cpu_occ_set_queue by done. unfold queue_occ at 2.
    rewrite (zsum_delete _ _ _ _ Hpos). unfold queue_occ. simpl. unfold hit at 3 6. simpl.
    rewrite Ht. lia.
Qed.

Lemma queue_occ_purge id q :
  queue_occ x (filter (fun t => st_id t ≠ id) q) = if x =? id then 0 else queue_occ x q.
Proof.
  induction q as [|t q IH]; [by destruct (x =? id)|]. rewrite filter_cons.
  unfold queue_occ in *. rewrite zsum_cons. case_decide as Hne.
  - rewrite zsum_cons, IH. destruct (Z.eqb_spec x id) as [->|]; [|done]. unfold hit.
    destruct (Z.eqb_spec (st_id t) id); [done|lia].
  - rewrite IH. destruct (Z.eqb_spec x id) as [|Hx]; [done|]. unfold hit at 2.
    destruct (Z.eqb_spec (st_id t) x); [congruence|lia].
Qed.

Lemma occ_purge s id :
  sched_occ x (Scheduler_purge s id) = if x =? id then 0 else sched_occ x s.
Proof.
  unfold sched_occ, Scheduler_purge. simpl. rewrite zsum_map.
  assert (Hc : ∀ c, cpu_occ x (purge_cpu id c) = if x =? id then 0 else cpu_occ x c).
  { intros c. unfold cpu_occ. simpl. rewrite zsum_map.
    rewrite (zsum_ext _ (fun q => if x =? id then 0 else queue_occ x q))
      by (intros; apply queue_occ_purge).
    destruct (Z.eqb_spec x id) as [->|Hne].
    - replace (zsum (fun _ : list STask => 0) (rq_queues c)) with 0.
      + destruct (rq_current c) as [t|]; simpl; [|done].
        destruct (Z.eqb_spec (st_id t) id); simpl; [done|]. unfold hit.
        by destruct (Z.eqb_spec (st_id t) id).
      + clear. induction (rq_queues c); simpl; lia.
    - destruct (rq_current c) as [t|]; simpl; [|done].
      destruct (Z.eqb_spec (st_id t) id); simpl; [|done]. unfold hit.
      destruct (Z.eqb_spec (st_id t) x); [congruence|done]. }
  rewrite (zsum_ext _ (fun c => if x =? id then 0 else cpu_occ x c)) by (intros; apply Hc).
  destruct (x =? id); [|done]. clear. induction (sc_cpus s); simpl; lia.
Qed.

Lemma occ_steal_into_current hart mask s max_qos allow home_of :
  sched_ok s →
  let res := Scheduler_steal_into_current hart mask s max_qos allow home_of in
  sched_occ x res.2 =
  sched_occ x s - match res.1 with
                  | Some _ => current_occ x (rq_current (sc_cpu s (current_cpu_index hart)))
                  | None => 0
                  end.
Proof.
  intros Hs. unfold Scheduler_steal_into_current. pose proof (current_cpu_index_lt hart) as Hc.
  destruct (Scheduler_selftest_try_steal _ _ _ _) as [[t s1]|] eqn:E; simpl; [|lia].
  pose proof (try_steal_ok _ _ _ _ _ _ Hs E) as Hs1.
  destruct (occ_steal _ _ _ _ _ _ Hs E) as [Ho Hcur]. destruct (allow (st_id t)); simpl.
  - rewrite occ_set_current, Hcur by done. simpl. lia.
  - assert (Hm : (Nat.min (home_of (st_id t)) (MAX_CPUS - 1) < MAX_CPUS)%nat) by (unfold MAX_CPUS; lia).
    change (Nat.min (home_of (st_id t)) 3) with (Nat.min (home_of (st_id t)) (MAX_CPUS - 1)).
    rewrite sched_occ_set_cpu, cpu_occ_set_queue by (try done; by apply sc_cpu_ok).
    unfold queue_occ. simpl. lia.
Qed.

Lemma occ_selftest_loop mask s cpu classes :
  sched_ok s → (cpu < MAX_CPUS)%nat →
  sched_occ x (selftest_schedule_loop mask s cpu classes).2 =
  sched_occ x s - current_occ x (rq_current (sc_cpu s cpu)).
Proof.
  intros Hs Hc. induction classes as [|class classes IH]; simpl.
  - rewrite occ_set_current by done. simpl. lia.
  - destruct (rq_queue (sc_cpu s cpu) class) as [|t q] eqn:Eq; simpl.
    + destruct (Scheduler_selftest_try_steal mask s cpu class) as [[t s1]|] eqn:E; simpl; [|done].
      pose proof (try_steal_ok _ _ _ _ _ _ Hs E) as Hs1.
      destruct (occ_steal _ _ _ _ _ _ Hs E) as [Ho Hcur].
      rewrite occ_set_current, Hcur by done. simpl. lia.
    + rewrite sched_occ_set_cpu, cpu_occ_set_current by done.
      erewrite occ_popped by (done || by apply sc_cpu_ok). simpl. lia.
Qed.
End Occurrences.

(** What each operation is entitled to add to or remove from the occurrences
    of [x]: an accepted enqueue adds one; taking a new current task or
    finishing drops the old current; a purge removes every occurrence; nothing
    else may lose or duplicate a task. *)
Definition expected_delta (x : Z) (s : Scheduler) (op : sched_op) : Z :=
  let current_of hart := current_occ x (rq_current (sc_cpu s (current_cpu_index hart))) in
  let accepted out id qos :=
    match out with Enqueued => hit x (mkSTask id qos) | Rejected _ => 0 end in
  match op with
  | SEnqueue hart id qos => accepted (Scheduler_enqueue hart s id qos).1 id qos
  | SEnqueueOnCpu cpu id qos => accepted (Scheduler_enqueue_on_cpu s cpu id qos).1 id qos
  | SScheduleNext hart => - current_of hart
  | SYield _ => 0
  | SFinish hart => - current_of hart
  | SSetCurrentQos _ _ => 0
  | SSetTaskQos _ _ => 0
  | SPurge id => if x =? id then - sched_occ x s else 0
  | SSteal hart mask max_qos allow home_of =>
      match (Scheduler_steal_into_current hart mask s max_qos allow home_of).1 with
      | Some _ => - current_of hart
      | None => 0
      end
  | SResetCpu cpu => if bool_decide (cpu < MAX_CPUS)%nat then - cpu_occ x (sc_cpu s cpu) else 0
  | SSelftestEnqueue cpu id qos => accepted (Scheduler_selftest_enqueue_on_cpu s cpu id qos).1 id qos
  | SSelftestSchedule _ cpu =>
      if bool_decide (cpu < MAX_CPUS)%nat then - current_occ x (rq_current (sc_cpu s cpu)) else 0
  | SSelftestSteal mask cpu qos =>
      match (Scheduler_selftest_try_steal_for_class mask s cpu qos).1 with
      | Some id => if id =? x then -1 else 0
      | None => 0
      end
  end.

Lemma cpu_occ_reset x c : cpu_occ x (mkCpuRunQueues (map (fun _ => []) (rq_queues c)) None) = 0.
Proof.
  unfold cpu_occ. simpl. rewrite zsum_map. unfold queue_occ. simpl.
  induction (rq_queues c); simpl; lia.
Qed.

(** C26: no operation of the scheduler loses or duplicates a task: the number of
    times a task occurs on the run queues and in the current slots of all CPUs
    changes exactly as the operation's contract says, rejected enqueues,
    rejected yields, QoS changes, steals and parked steals included. *)
Theorem sched_conserves x s op :
  sched_ok s → sched_occ x (sched_step s op) = sched_occ x s + expected_delta x s op.
Proof.
  intros Hs. destruct op; simpl.
  - unfold Scheduler_enqueue, Scheduler_try_enqueue. by rewrite occ_push by auto with neuron.
  - unfold Scheduler_enqueue_on_cpu. case_bool_decide; simpl; [lia|]. by rewrite occ_push by (done || lia).
  - rewrite occ_schedule_next by done. lia.
  - rewrite occ_yield by done. lia.
  - unfold Scheduler_finish_current. rewrite occ_set_current by auto with neuron. simpl. lia.
  - unfold Scheduler_set_current_qos. destruct (rq_current _) as [t|] eqn:Et; simpl; [|lia].
    rewrite occ_set_current, Et by auto with neuron. unfold current_occ, hit. simpl. lia.
  - rewrite occ_set_task_qos by done. lia.
  - rewrite occ_purge. destruct (x =? id); lia.
  - rewrite occ_steal_into_current by done. destruct (_.1); lia.
  - unfold Scheduler_selftest_reset_cpu. case_bool_decide; case_bool_decide; simpl; try lia.
    rewrite sched_occ_set_cpu, cpu_occ_reset by done. lia.
  - unfold Scheduler_selftest_enqueue_on_cpu. case_bool_decide; simpl; [lia|]. by rewrite occ_push by (done || lia).
  - unfold Scheduler_selftest_schedule_on_cpu.
    case_bool_decide; case_bool_decide; cbn [snd]; try lia. by rewrite occ_selftest_loop by done.
  - unfold Scheduler_selftest_try_steal_for_class. case_bool_decide; simpl; [lia|].
    destruct (Scheduler_selftest_try_steal _ _ _ _) as [[t s1]|] eqn:E; simpl; [|lia].
    destruct (occ_steal x _ _ _ _ _ _ Hs E) as [-> _]. unfold hit. destruct (st_id t =? x); lia.
Qed.

Lemma sched_conserves_witness :
  sched_occ 5 (sched_step (sched_step (Scheduler_new 10) (SEnqueue 0 5 Normal)) (SSetTaskQos 5 PerfBurst)) = 1.
Proof.
  rewrite (sched_conserves 5 (sched_step (Scheduler_new 10) (SEnqueue 0 5 Normal))).
  - reflexivity.
  - apply sched_step_ok, sched_new_ok.
Defined.

(** ** Queue bounds *)

Lemma bounded_set_cpu s i c : sched_bounded s → cpu_bounded c → sched_bounded (sc_set_cpu s i c).
Proof. intros Hs Hc. by apply Forall_insert. Qed.

Lemma bounded_cpu s i : sched_bounded s → cpu_bounded (sc_cpu s i).
Proof.
  intros Hs. unfold sc_cpu. destruct (sc_cpus s !! i) as [c|] eqn:E; simpl.
  - unfold sched_bounded in Hs. rewrite Forall_lookup in Hs. by eapply Hs.
  - repeat constructor; simpl; unfold RUNTIME_QOS_QUEUE_CAPACITY; lia.
Qed.

Lemma bounded_set_queue c qos q :
  cpu_bounded c → (length q ≤ RUNTIME_QOS_QUEUE_CAPACITY)%nat → cpu_bounded (rq_set_queue c qos q).
Proof. intros Hc Hq. by apply Forall_insert. Qed.

Lemma bounded_queue c qos : cpu_bounded c → (length (rq_queue c qos) ≤ RUNTIME_QOS_QUEUE_CAPACITY)%nat.
Proof.
  intros Hc. unfold rq_queue. destruct (rq_queues c !! qos_index qos) as [q|] eqn:E; simpl; [|lia].
  unfold cpu_bounded in Hc. rewrite Forall_lookup in Hc. by eapply Hc.
Qed.

Lemma bounded_popped c qos t q : cpu_bounded c → rq_queue c qos = t :: q → cpu_bounded (rq_set_queue c qos q).
Proof.
  intros Hc Hq. apply bounded_set_queue; [done|]. pose proof (bounded_queue c qos Hc) as Hl.
  rewrite Hq in Hl. simpl in Hl. lia.
Qed.

Lemma bounded_set_current s i cur :
  sched_bounded s → sched_bounded (sc_set_cpu s i (rq_set_current (sc_cpu s i) cur)).
Proof. intros Hs. apply bounded_set_cpu; [done|]. apply (bounded_cpu s i Hs). Qed.

Lemma bounded_push_on_cpu s cpu id qos :
  sched_bounded s → sched_bounded (push_on_cpu s cpu id qos RUNTIME_QOS_QUEUE_CAPACITY).2.
Proof.
  intros Hs. pose proof (bounded_cpu s cpu Hs) as Hc.
  destruct (push_on_cpu_cases s cpu id qos RUNTIME_QOS_QUEUE_CAPACITY) as [[-> Hl]|[-> Hl]]; simpl;
    apply bounded_set_cpu; try done; apply bounded_set_queue; try done.
  - by apply bounded_queue.
  - rewrite length_app. simpl. lia.
Qed.

Lemma bounded_steal mask s local q t s1 :
  sched_ok s → sched_bounded s → Scheduler_selftest_try_steal mask s local q = Some (t, s1) → sched_bounded s1.
Proof.
  intros Hs Hb H. destruct (try_steal_effect _ _ _ _ _ _ Hs H) as (v & q' & _ & _ & Hq & ->).
  apply bounded_set_cpu; [done|]. eapply bounded_popped; [|exact Hq]. by apply bounded_cpu.
Qed.

Lemma bounded_yield hart s : sched_bounded s → sched_bounded (Scheduler_yield_current hart s).
Proof.
  intros Hb. unfold Scheduler_yield_current, Scheduler_try_enqueue.
  destruct (rq_current _) as [t|]; [|done].
  pose proof (bounded_push_on_cpu (sc_set_cpu s (current_cpu_index hart)
     (rq_set_current (sc_cpu s (current_cpu_index hart)) None)) (current_cpu_index hart)
     (st_id t) (st_qos t) (bounded_set_current _ _ _ Hb)) as Hp.
  destruct (push_on_cpu _ _ _ _ _) as [[|] s2]; simpl in *; [done|]. by apply bounded_set_current.
Qed.

Lemma bounded_set_task_qos s id qos :
  sched_ok s → sched_bounded s → sched_bounded (Scheduler_set_task_qos s id qos).2.
Proof.
  intros Hs Hb. pose proof (set_task_qos_spec s id qos Hs) as H.
  destruct (Scheduler_set_task_qos s id qos) as [[] s']; simpl; [|by destruct H as [-> _]|by subst].
  destruct H as [(i & t & Hi & _ & _ & ->)|(i & t & pos & Hi & _ & Hpos & Hl & ->)].
  - by apply bounded_set_current.
  - apply bounded_set_cpu; [done|]. pose proof (bounded_cpu s i Hb) as Hc.
    apply bounded_set_queue; [|rewrite length_app; simpl; lia].
    apply bounded_set_queue; [done|]. rewrite length_delete by done.
    pose proof (bounded_queue _ (st_qos t) Hc). lia.
Qed.

Lemma bounded_selftest_loop mask s cpu classes :
  sched_ok s → sched_bounded s → sched_bounded (selftest_schedule_loop mask s cpu classes).2.
Proof.
  intros Hs Hb. induction classes as [|class classes IH]; simpl; [by apply bounded_set_current|].
  destruct (rq_queue (sc_cpu s cpu) class) as [|t q] eqn:Eq; simpl.
  - destruct (Scheduler_selftest_try_steal mask s cpu class) as [[t s1]|] eqn:E; simpl; [|done].
    apply bounded_set_current. exact (bounded_steal _ _ _ _ _ _ Hs Hb E).
  - apply bounded_set_cpu; [done|]. eapply (bounded_popped _ class t q); [|done]. by apply bounded_cpu.
Qed.

(** A steal that is never refused by the affinity predicate. *)
Definition never_parks (op : sched_op) : Prop :=
  match op with SSteal _ _ _ allow _ => ∀ id, allow id = true | _ => True end.

(** The run queues of every CPU stay within their capacity of 64 tasks per
    class under every operation, as long as no steal is parked (parking, the
    one unbounded insertion, is covered by the next property). *)
Theorem run_queues_bounded s op :
  sched_ok s → sched_bounded s → never_parks op → sched_bounded (sched_step s op).
Proof.
  intros Hs Hb Hp. destruct op; simpl in *.
  - by apply bounded_push_on_cpu.
  - unfold Scheduler_enqueue_on_cpu. case_bool_decide; [done|]. by apply bounded_push_on_cpu.
  - unfold Scheduler_schedule_next. pose proof (sc_cpu_ok s Hs _ (current_cpu_index_lt hart)) as Hok.
    pose proof (pick_first_spec _ class_order Hok) as Hf.
    destruct (pick_first _ _) as [[t c']|]; simpl; [|by apply bounded_set_current].
    destruct Hf as (_ & qos & _ & q & _ & _ & Hq & ->). apply bounded_set_cpu; [done|].
    eapply (bounded_popped _ qos t q); [|done]. by apply bounded_cpu.
  - by apply bounded_yield.
  - by apply bounded_set_current.
  - unfold Scheduler_set_current_qos. destruct (rq_current _); simpl; [|done]. by apply bounded_set_current.
  - by apply bounded_set_task_qos.
  - unfold sched_bounded, Scheduler_purge. simpl. apply Forall_fmap. eapply Forall_impl; [exact Hb|].
    intros c Hc. unfold cpu_bounded. simpl. apply Forall_fmap. eapply Forall_impl; [exact Hc|].
    intros q Hq. simpl in *. etransitivity; [apply length_filter|done].
  - unfold Scheduler_steal_into_current.
    destruct (Scheduler_selftest_try_steal _ _ _ _) as [[t s1]|] eqn:E; simpl; [|done].
    rewrite Hp. simpl. apply bounded_set_current. exact (bounded_steal _ _ _ _ _ _ Hs Hb E).
  - unfold Scheduler_selftest_reset_cpu. case_bool_decide; [done|]. apply bounded_set_cpu; [done|].
    unfold cpu_bounded. simpl. apply Forall_fmap, Forall_true. intros q. simpl. lia.
  - unfold Scheduler_selftest_enqueue_on_cpu. case_bool_decide; [done|]. by apply bounded_push_on_cpu.
  - unfold Scheduler_selftest_schedule_on_cpu. case_bool_decide; [done|]. by apply bounded_selftest_loop.
  - unfold Scheduler_selftest_try_steal_for_class. case_bool_decide; [done|].
    destruct (Scheduler_selftest_try_steal _ _ _ _) as [[t s1]|] eqn:E; simpl; [|done].
    exact (bounded_steal _ _ _ _ _ _ Hs Hb E).
Qed.

Lemma sched_new_bounded tick : sched_bounded (Scheduler_new tick).
Proof. apply Forall_replicate. repeat constructor; simpl; unfold RUNTIME_QOS_QUEUE_CAPACITY; lia. Qed.

Lemma run_queues_bounded_witness :
  sched_bounded (sched_step (Scheduler_new 10) (SEnqueue 2 5 Interactive)).
Proof.
  apply run_queues_bounded; [apply sched_new_ok|apply sched_new_bounded|exact I].
Defined.

#[export] Instance cpu_bounded_dec c : Decision (cpu_bounded c).
Proof. unfold cpu_bounded. apply _. Defined.
#[export] Instance sched_bounded_dec s : Decision (sched_bounded s).
Proof. unfold sched_bounded. apply _. Defined.

(** CPU 1 saturated in the Normal class, one more Normal task queued on CPU 0
    whose home is CPU 1, and CPU 3 stealing it against its affinity. *)
Definition park_demo : Scheduler :=
  foldl (fun s n => (Scheduler_enqueue_on_cpu s 1 (Z.of_nat n) Normal).2)
    (Scheduler_enqueue 0 (Scheduler_new 10) 1000 Normal).2 (seq 0 64).

(** Parking a stolen task that its affinity refuses ignores the capacity of
    its home queue: from a scheduler whose queues are all within bounds, one
    refused steal leaves a run queue of 65 tasks, above the capacity of 64 that
    every enqueue enforces. *)
Theorem steal_park_exceeds_capacity :
  sched_bounded park_demo ∧
  let s' := (Scheduler_steal_into_current 3 15 park_demo PerfBurst (fun _ => false) (fun _ => 1%nat)).2 in
  Scheduler_selftest_queue_len s' 1 Normal = 65%nat ∧ ¬ sched_bounded s'.
Proof.
  split; [|split].
  - apply (bool_decide_unpack _). vm_compute. exact I.
  - vm_compute. reflexivity.
  - apply (bool_decide_unpack _). vm_compute. exact I.
Qed.
