(* ===== verification/SchedFair.v ===== *)
(** * Scheduling order

    Strict priority between classes, bounded waiting within a class under the
    yield-and-pick step of [sys_yield] and the timer interrupt, the rules of
    work stealing, atomicity of QoS changes, and what the yield-and-pick step
    does when the class of the running task is saturated. *)

From S2P Require Import Prelude Sched SchedProps.

(** The scheduler part of [sys_yield] and of the preemption path of the timer
    interrupt: re-enqueue the running task, then pick the next one. *)
Definition sched_switch (hart : nat) (s : Scheduler) : option Z * Scheduler :=
  Scheduler_schedule_next hart (Scheduler_yield_current hart s).

(** ** Priority *)

(** In [class_order], what precedes a class is exactly the higher classes. *)
Lemma class_order_higher pre qos post k :
  class_order = pre ++ qos :: post → (qos_index qos < qos_index k)%nat → k ∈ pre.
Proof.
  unfold class_order. intros H Hk.
  destruct pre as [|a [|b [|c [|d [|e pre]]]]]; simplify_eq/=; destruct k; simpl in Hk;
    try lia; rewrite ?elem_of_cons; auto.
Qed.

Lemma class_order_all k : k ∈ class_order.
Proof. unfold class_order. rewrite !elem_of_cons. destruct k; auto. Qed.

(** The class that is served: non-empty, all higher ones empty. *)
Definition top_queue (c : CpuRunQueues) (qos : QosClass) (t : STask) (q : list STask) : Prop :=
  rq_queue c qos = t :: q ∧ ∀ k, (qos_index qos < qos_index k)%nat → rq_queue c k = [].

Lemma top_queue_unique c qos t q qos' t' q' :
  top_queue c qos t q → top_queue c qos' t' q' → qos = qos' ∧ t = t' ∧ q = q'.
Proof.
  intros [H1 H2] [H1' H2']. destruct (Nat.lt_trichotomy (qos_index qos) (qos_index qos')) as [Hl|[He|Hl]].
  - rewrite (H2 _ Hl) in H1'. done.
  - apply qos_index_inj in He. subst. rewrite H1 in H1'. by simplify_eq.
  - rewrite (H2' _ Hl) in H1. done.
Qed.

Lemma schedule_next_cases hart s :
  sched_ok s →
  let cur := current_cpu_index hart in
  let c := sc_cpu s cur in
  (∃ qos t q, top_queue c qos t q ∧ st_qos t = qos ∧
     Scheduler_schedule_next hart s =
       (Some (st_id t), sc_set_cpu s cur (rq_set_current (rq_set_queue c qos q) (Some t)))) ∨
  ((∀ k, rq_queue c k = []) ∧
     Scheduler_schedule_next hart s = (None, sc_set_cpu s cur (rq_set_current c None))).
Proof.
  intros Hs. simpl. unfold Scheduler_schedule_next.
  pose proof (sc_cpu_ok s Hs _ (current_cpu_index_lt hart)) as Hok.
  pose proof (pick_first_spec _ class_order Hok) as Hp.
  destruct (pick_first _ class_order) as [[t c']|].
  - destruct Hp as (pre & qos & post & q & Hord & HF & Hq & ->). left. exists qos, t, q.
    split_and!; try done.
    + split; [done|]. intros k Hk. rewrite Forall_forall in HF. by eapply HF, class_order_higher.
    + pose proof (rq_queue_class _ qos Hok) as Hc. rewrite Hq in Hc. by inversion Hc.
  - right. split; [|done]. intros k. rewrite Forall_forall in Hp. apply Hp, class_order_all.
Qed.

(** [schedule_next] obeys strict priority and is work conserving: it takes
    the head of the non-empty queue of the highest class of the executing CPU,
    removes exactly that task and makes it current, and it reports no task
    only when every queue of that CPU is empty. *)
Theorem schedule_next_priority hart s :
  sched_ok s →
  let cur := current_cpu_index hart in
  let '(picked, s') := Scheduler_schedule_next hart s in
  (∀ j, j ≠ cur → sc_cpu s' j = sc_cpu s j) ∧
  match picked with
  | None => (∀ k, rq_queue (sc_cpu s cur) k = []) ∧ rq_current (sc_cpu s' cur) = None
  | Some id =>
      ∃ t q, st_id t = id ∧ top_queue (sc_cpu s cur) (st_qos t) t q ∧
        rq_current (sc_cpu s' cur) = Some t ∧
        ∀ k, rq_queue (sc_cpu s' cur) k =
             if decide (st_qos t = k) then q else rq_queue (sc_cpu s cur) k
  end.
Proof.
  intros Hs. pose proof (current_cpu_index_lt hart) as Hc. pose proof (sc_cpu_ok s Hs _ Hc) as Hok.
  destruct (schedule_next_cases hart s Hs) as [(qos & t & q & Htop & Hq & ->)|[He ->]]; simpl;
    (split; [intros j Hj; by apply sc_cpu_set_ne|]).
  - subst qos. exists t, q. rewrite sc_cpu_set_eq by done. split_and!; try done.
    intros k. by apply rq_queue_set.
  - by rewrite sc_cpu_set_eq by done.
Qed.

Definition priority_demo : Scheduler :=
  (Scheduler_enqueue 0 (Scheduler_enqueue 0 (Scheduler_new 10) 7 Normal).2 8 PerfBurst).2.

Lemma schedule_next_priority_witness :
  (Scheduler_schedule_next 0 priority_demo).1 = Some 8 ∧
  ∃ t q, st_id t = 8 ∧ top_queue (sc_cpu priority_demo 0) (st_qos t) t q.
Proof.
  pose proof (schedule_next_priority 0 priority_demo
    (sched_step_ok _ (SEnqueue 0 8 PerfBurst) (sched_step_ok _ (SEnqueue 0 7 Normal) (sched_new_ok 10)))) as H.
  split; [reflexivity|]. hnf in H. destruct H as [_ (t & q & Hid & Htop & _)]. by exists t, q.
Defined.

(** ** Bounded waiting *)

Inductive fair_event :=
| FSwitch                                       (* sys_yield or a timer tick on this CPU *)
| FArrive (cpu : nat) (id : Z) (qos : QosClass) (* a task is enqueued somewhere *).

#[export] Instance fair_event_eq_dec : EqDecision fair_event.
Proof. solve_decision. Defined.

Definition fair_step (hart : nat) (s : Scheduler) (e : fair_event) : Scheduler :=
  match e with
  | FSwitch => (sched_switch hart s).2
  | FArrive cpu id qos => (Scheduler_enqueue_on_cpu s cpu id qos).2
  end.

Definition fair_run (hart : nat) : Scheduler → list fair_event → Scheduler := foldl (fair_step hart).

Definition switches (es : list fair_event) : nat := length (filter (fun e => e = FSwitch) es).

(** No event queues a task of a class above [qos] on this CPU. *)
Definition no_higher (hart : nat) (qos : QosClass) (e : fair_event) : Prop :=
  match e with
  | FSwitch => True
  | FArrive cpu _ k => cpu = current_cpu_index hart → (qos_index k ≤ qos_index qos)%nat
  end.

(** Task [t] waits in its class behind [pre], nothing of a higher class being
    queued or running on the CPU. *)
Definition waiting (hart : nat) (s : Scheduler) (t : STask) (pre : list STask) : Prop :=
  let c := sc_cpu s (current_cpu_index hart) in
  (∃ post, rq_queue c (st_qos t) = pre ++ t :: post) ∧
  (∀ k, (qos_index (st_qos t) < qos_index k)%nat → rq_queue c k = []) ∧
  (∀ r, rq_current c = Some r → (qos_index (st_qos r) ≤ qos_index (st_qos t))%nat).

(** Appending a task of a class that is not higher does not disturb the wait. *)
Lemma waiting_push hart s t pre id qos cap cpu :
  sched_ok s → (cpu < MAX_CPUS)%nat → waiting hart s t pre →
  (cpu = current_cpu_index hart → (qos_index qos ≤ qos_index (st_qos t))%nat) →
  waiting hart (push_on_cpu s cpu id qos cap).2 t pre.
Proof.
  intros Hs Hc Hw Hq. destruct (push_on_cpu_spec s cpu id qos cap Hs Hc) as [[-> _]|[-> _]]; [done|]. simpl.
  destruct (decide (cpu = current_cpu_index hart)) as [->|Hne];
    [|unfold waiting; by rewrite sc_cpu_set_ne by done].
  specialize (Hq eq_refl). destruct Hw as ((post & Hp) & Hh & Hr). unfold waiting.
  rewrite sc_cpu_set_eq by done. pose proof (sc_cpu_ok s Hs _ Hc) as Hok. split_and!.
  - rewrite rq_queue_set by done. case_decide as E; [subst|eauto].
    rewrite Hp. exists (post ++ [mkSTask id (st_qos t)]). by rewrite <- app_assoc.
  - intros k Hk. rewrite rq_queue_set by done. rewrite decide_False by (intros ->; lia). auto.
  - done.
Qed.

Lemma waiting_set_current hart s t pre cur :
  sched_ok s → waiting hart s t pre →
  (∀ r, cur = Some r → (qos_index (st_qos r) ≤ qos_index (st_qos t))%nat) →
  waiting hart (sc_set_cpu s (current_cpu_index hart)
                  (rq_set_current (sc_cpu s (current_cpu_index hart)) cur)) t pre.
Proof.
  intros Hs (Hp & Hh & _) Hr. unfold waiting.
  by rewrite sc_cpu_set_eq by auto with neuron.
Qed.

Lemma waiting_yield hart s t pre :
  sched_ok s → waiting hart s t pre → waiting hart (Scheduler_yield_current hart s) t pre.
Proof.
  intros Hs Hw. unfold Scheduler_yield_current, Scheduler_try_enqueue.
  destruct (rq_current _) as [r|] eqn:Er; [|done].
  pose proof Hw as (_ & _ & Hr). specialize (Hr _ Er).
  set (s1 := sc_set_cpu s _ _).
  assert (Hs1 : sched_ok s1) by (apply set_current_ok; auto with neuron).
  assert (Hw1 : waiting hart s1 t pre) by (by apply waiting_set_current).
  pose proof (push_on_cpu_ok s1 (current_cpu_index hart) (st_id r) (st_qos r) RUNTIME_QOS_QUEUE_CAPACITY
    Hs1 (current_cpu_index_lt hart)) as Hs2.
  pose proof (waiting_push hart s1 t pre (st_id r) (st_qos r) RUNTIME_QOS_QUEUE_CAPACITY _
    Hs1 (current_cpu_index_lt hart) Hw1 (fun _ => Hr)) as Hw2.
  destruct (push_on_cpu _ _ _ _ _) as [[|] s2]; simpl in *; [done|].
  apply waiting_set_current; [done..|]. by intros ? [= <-].
Qed.

(** One switch serves the head of the waiting task's class. *)
Lemma waiting_switch hart s t pre :
  sched_ok s → waiting hart s t pre →
  match pre with
  | [] => rq_current (sc_cpu (fair_step hart s FSwitch) (current_cpu_index hart)) = Some t
  | _ :: pre' => waiting hart (fair_step hart s FSwitch) t pre'
  end.
Proof.
  intros Hs Hw. simpl. unfold sched_switch. set (s1 := Scheduler_yield_current hart s).
  assert (Hs1 : sched_ok s1) by (by apply yield_current_ok).
  pose proof (waiting_yield hart s t pre Hs Hw : waiting hart s1 t pre) as ((post & Hp) & Hh & Hr).
  pose proof (current_cpu_index_lt hart) as Hc. pose proof (sc_cpu_ok s1 Hs1 _ Hc) as Hok.
  destruct (schedule_next_cases hart s1 Hs1) as [(qos & r & q & Htop & Hqr & ->)|[He ->]]; simpl.
  2: { rewrite He in Hp. by destruct pre. }
  destruct pre as [|r0 pre'].
  - destruct (top_queue_unique _ _ _ _ _ _ _ Htop (conj Hp Hh)) as (_ & -> & _).
    by rewrite sc_cpu_set_eq.
  - destruct (top_queue_unique _ _ _ _ _ _ _ Htop (conj Hp Hh)) as (Hqos & -> & ->).
    unfold waiting. rewrite sc_cpu_set_eq by done. split_and!.
    + exists post. change (rq_queue (rq_set_queue (sc_cpu s1 (current_cpu_index hart)) qos
        (pre' ++ t :: post)) (st_qos t) = pre' ++ t :: post).
      rewrite rq_queue_set by done. by rewrite decide_True.
    + intros k Hk. change (rq_queue (rq_set_queue (sc_cpu s1 (current_cpu_index hart)) qos
        (pre' ++ t :: post)) k = []).
      rewrite rq_queue_set by done. rewrite decide_False by (intros ->; subst; lia). auto.
    + intros ? [= <-]. subst. by rewrite <- Hqos.
Qed.

(** C29: bounded waiting.  A task with [n] tasks of its class ahead of it on its
    CPU, nothing of a higher class queued or running there, becomes current
    within [n + 1] scheduling switches of that CPU, whatever tasks of its own
    or lower classes arrive there meanwhile and whatever arrives on other
    CPUs. *)
Theorem bounded_waiting hart s t pre es :
  sched_ok s → waiting hart s t pre → Forall (no_higher hart (st_qos t)) es →
  (length pre < switches es)%nat →
  ∃ es1 es2, es = es1 ++ es2 ∧ switches es1 = S (length pre) ∧
    rq_current (sc_cpu (fair_run hart s es1) (current_cpu_index hart)) = Some t.
Proof.
  intros Hs Hw Hes. revert s pre Hs Hw. induction Hes as [|e es He Hes IH]; intros s pre Hs Hw Hl;
    [by apply Nat.nlt_0_r in Hl|].
  destruct e as [|cpu id qos].
  - pose proof (waiting_switch hart s t pre Hs Hw) as Hsw. destruct pre as [|r pre].
    { exists [FSwitch], es. split_and!; done. }
    unfold switches in Hl. rewrite filter_cons_True in Hl by done. simpl in Hl.
    destruct (IH (fair_step hart s FSwitch) pre) as (es1 & es2 & -> & Hn & Hcur); [|done|unfold switches; lia|].
    { apply (schedule_next_ok hart), yield_current_ok, Hs. }
    exists (FSwitch :: es1), es2. split_and!; try done.
    unfold switches. rewrite filter_cons_True by done. simpl. by f_equal.
  - unfold switches in Hl. rewrite filter_cons_False in Hl by done.
    destruct (IH (fair_step hart s (FArrive cpu id qos)) pre) as (es1 & es2 & -> & Hn & Hcur);
      [apply (sched_step_ok s (SEnqueueOnCpu cpu id qos) Hs)| |done|].
    { simpl. unfold Scheduler_enqueue_on_cpu. case_bool_decide; [done|]. apply waiting_push; try done. lia. }
    exists (FArrive cpu id qos :: es1), es2. split_and!; try done.
Qed.

Lemma bounded_waiting_witness :
  ∃ es1 es2, [FSwitch; FArrive 0 9 Normal; FSwitch; FSwitch] = es1 ++ es2 ∧ switches es1 = 2%nat ∧
    rq_current (sc_cpu (fair_run 0 (Scheduler_enqueue_on_cpu
      (Scheduler_enqueue_on_cpu (Scheduler_new 10) 0 7 Normal).2 0 8 Normal).2 es1) 0)
    = Some (mkSTask 8 Normal).
Proof.
  apply (bounded_waiting 0 _ (mkSTask 8 Normal) [mkSTask 7 Normal]).
  - apply (sched_step_ok _ (SEnqueueOnCpu 0 8 Normal)), (sched_step_ok _ (SEnqueueOnCpu 0 7 Normal)), sched_new_ok.
  - split_and!.
    + exists []. reflexivity.
    + intros [] Hk; vm_compute in Hk; try lia; reflexivity.
    + intros r Hr. vm_compute in Hr. discriminate.
  - repeat constructor; simpl; intros; lia.
  - vm_compute. lia.
Defined.

(** ** Work stealing *)

(** The classes within the ceiling, highest first. *)
Lemma steal_classes_spec max_qos k : k ∈ steal_classes max_qos ↔ (qos_index k ≤ qos_index max_qos)%nat.
Proof.
  destruct max_qos, k; simpl; rewrite ?elem_of_cons, ?elem_of_nil; simpl; split; intros H;
    try lia; try tauto; destruct_or!; discriminate.
Qed.

Lemma steal_classes_prefix max_qos pre class post k :
  steal_classes max_qos = pre ++ class :: post →
  (qos_index class < qos_index k ≤ qos_index max_qos)%nat → k ∈ pre.
Proof.
  intros H Hk. destruct max_qos, pre as [|a [|b [|c [|d [|e pre]]]]]; simplify_eq/=;
    destruct k; simpl in Hk; try lia; rewrite ?elem_of_cons; auto.
Qed.

(** The steal rule.  A steal takes the head of a queue whose class is within
    the ceiling, on a CPU that is another one and online, and no eligible task
    of a higher class, nor one of the same class on a lower-numbered CPU, was
    passed over; only that queue changes.  It takes nothing exactly when no CPU
    has an eligible task. *)
Theorem steal_rule mask s local max_qos :
  sched_ok s →
  match Scheduler_selftest_try_steal mask s local max_qos with
  | Some (t, s') =>
      ∃ v q, let c := st_qos t in
        (qos_index c ≤ qos_index max_qos)%nat ∧ v ≠ local ∧
        (mask ≠ 0 → Z.testbit mask (Z.of_nat v) = true) ∧
        rq_queue (sc_cpu s v) c = t :: q ∧
        s' = sc_set_cpu s v (rq_set_queue (sc_cpu s v) c q) ∧
        (∀ k u, (qos_index c < qos_index k ≤ qos_index max_qos)%nat → ¬ steal_eligible mask s local k u) ∧
        (∀ u, (u < v)%nat → ¬ steal_eligible mask s local c u)
  | None => ∀ k u, (qos_index k ≤ qos_index max_qos)%nat → ¬ steal_eligible mask s local k u
  end.
Proof.
  intros Hs. unfold Scheduler_selftest_try_steal.
  pose proof (steal_by_class_spec mask s local (steal_classes max_qos)) as H.
  destruct (steal_by_class _ _ _ _) as [[t s']|].
  - destruct H as (pre & class & post & v & q & Hcl & HF & Hmin & Hv & Hsk & Hq & ->).
    pose proof (rq_queue_class _ class (sc_cpu_ok s Hs v Hv)) as Hc. rewrite Hq in Hc.
    apply Forall_cons in Hc as [Hc _]. exists v, q. simpl. rewrite Hc.
    unfold steal_skips in Hsk. simpl_bool. split_and!; try done.
    + apply steal_classes_spec. rewrite Hcl. apply elem_of_app. right. by left.
    + intros Hm. apply andb_false_iff in H0 as [Hz|Hz]; simpl_bool; [done|].
      apply negb_false_iff in Hz || idtac. rewrite Z.shiftl_1_l in Hz.
      destruct (Z.testbit mask (Z.of_nat v)) eqn:E; [done|]. exfalso. apply Hz.
      apply Z.bits_inj'. intros n Hn. rewrite Z.land_spec, Z.pow2_bits_eqb, Z.bits_0 by lia.
      destruct (Z.eqb_spec (Z.of_nat v) n) as [<-|]; [by rewrite E|by rewrite andb_false_r].
    + intros k u Hk. rewrite Forall_forall in HF. apply HF. by eapply steal_classes_prefix.
  - intros k u Hk. rewrite Forall_forall in H. by apply H, steal_classes_spec.
Qed.

Lemma steal_rule_witness :
  ∃ s', Scheduler_selftest_try_steal 3 (Scheduler_enqueue_on_cpu (Scheduler_new 10) 1 7 Normal).2 0 Interactive
        = Some (mkSTask 7 Normal, s') ∧ ∃ v q, v ≠ 0%nat ∧
        rq_queue (sc_cpu (Scheduler_enqueue_on_cpu (Scheduler_new 10) 1 7 Normal).2 v) Normal = mkSTask 7 Normal :: q.
Proof.
  eexists. split; [reflexivity|].
  destruct (steal_rule 3 (Scheduler_enqueue_on_cpu (Scheduler_new 10) 1 7 Normal).2 0 Interactive
    (sched_step_ok _ (SEnqueueOnCpu 1 7 Normal) (sched_new_ok 10))) as (v & q & _ & Hne & _ & Hq & _).
  by exists v, q.
Defined.

(** A steal that the affinity check refuses is undone when the task is
    parked on the CPU it was taken from: the scheduler is exactly as before and
    nothing was dispatched. *)
Theorem refused_steal_undone hart mask s max_qos allow home_of t s1 :
  sched_ok s →
  Scheduler_selftest_try_steal mask s (current_cpu_index hart) max_qos = Some (t, s1) →
  allow (st_id t) = false →
  (∃ q, rq_queue (sc_cpu s (home_of (st_id t))) (st_qos t) = t :: q ∧
        s1 = sc_set_cpu s (home_of (st_id t))
               (rq_set_queue (sc_cpu s (home_of (st_id t))) (st_qos t) q)) →
  (home_of (st_id t) < MAX_CPUS)%nat →
  Scheduler_steal_into_current hart mask s max_qos allow home_of = (None, s).
Proof.
  intros Hs E Ha (q & Hq & Hs1) Hh. unfold Scheduler_steal_into_current. rewrite E, Ha. simpl.
  rewrite Nat.min_l by (unfold MAX_CPUS in *; lia). subst s1.
  pose proof (sc_cpu_ok s Hs _ Hh) as Hok.
  rewrite sc_cpu_set_eq, sc_set_cpu_twice, rq_set_queue_twice, rq_queue_set, decide_True by done.
  by rewrite <- Hq, rq_set_queue_id, sc_set_cpu_id.
Qed.

Lemma refused_steal_undone_witness :
  let s := (Scheduler_enqueue_on_cpu (Scheduler_new 10) 1 7 Normal).2 in
  Scheduler_steal_into_current 0 3 s Interactive (fun _ => false) (fun _ => 1%nat) = (None, s).
Proof.
  intros s. eapply (refused_steal_undone 0 3 s Interactive (fun _ => false) (fun _ => 1%nat)).
  - apply (sched_step_ok _ (SEnqueueOnCpu 1 7 Normal)), sched_new_ok.
  - reflexivity.
  - reflexivity.
  - exists []. split; reflexivity.
  - vm_compute. lia.
Defined.

(** ** QoS changes *)

(** [set_task_qos] is atomic: when the target queue is full or the task is
    not known, the scheduler is exactly as before (position in the source queue
    included); when it succeeds, the task is running with the new class, or is
    at the tail of the queue of the new class on the CPU it was on. *)
Theorem set_task_qos_atomic s id qos :
  sched_ok s →
  let '(out, s') := Scheduler_set_task_qos s id qos in
  match out with
  | QosUpdated => ∃ i, (i < MAX_CPUS)%nat ∧
      (rq_current (sc_cpu s' i) = Some (mkSTask id qos) ∨
       ∃ q, rq_queue (sc_cpu s' i) qos = q ++ [mkSTask id qos] ∧ (length q < RUNTIME_QOS_QUEUE_CAPACITY)%nat)
  | _ => s' = s
  end.
Proof.
  intros Hs. pose proof (set_task_qos_spec s id qos Hs) as H.
  destruct (Scheduler_set_task_qos s id qos) as [[] s']; [|by destruct H|done].
  destruct H as [(i & t & Hi & _ & _ & ->)|(i & t & pos & Hi & _ & Hpos & Hl & ->)]; exists i;
    (split; [done|]); rewrite sc_cpu_set_eq by done; [by left|right].
  destruct (moved_cpu_ok (sc_cpu s i) t pos qos id (sc_cpu_ok s Hs i Hi)) as [Hok _].
  rewrite rq_queue_set, decide_True by done. eauto.
Qed.

Lemma set_task_qos_atomic_witness :
  ∃ i, (i < MAX_CPUS)%nat ∧
    let s' := (Scheduler_set_task_qos (Scheduler_enqueue_on_cpu (Scheduler_new 10) 1 7 Normal).2 7 Idle).2 in
    (rq_current (sc_cpu s' i) = Some (mkSTask 7 Idle) ∨
     ∃ q, rq_queue (sc_cpu s' i) Idle = q ++ [mkSTask 7 Idle] ∧ (length q < RUNTIME_QOS_QUEUE_CAPACITY)%nat).
Proof.
  exact (set_task_qos_atomic (Scheduler_enqueue_on_cpu (Scheduler_new 10) 1 7 Normal).2 7 Idle
    (sched_step_ok _ (SEnqueueOnCpu 1 7 Normal) (sched_new_ok 10))).
Defined.

(** ** Yielding into a saturated class *)

(** CPU 0 runs task 1000 of class Normal while 64 other Normal tasks wait. *)
Definition saturated_demo : Scheduler :=
  foldl (fun s n => (Scheduler_enqueue 0 s (Z.of_nat n) Normal).2)
    (Scheduler_schedule_next 0 (Scheduler_enqueue 0 (Scheduler_new 10) 1000 Normal).2).2 (seq 0 64).

(** [yield_current] keeps the running task as current when its class is
    saturated, but the pick that every caller performs next overwrites it: the
    yielding task is then neither queued nor current on any CPU. *)
Theorem saturated_yield_loses_task :
  sched_occ 1000 saturated_demo = 1 ∧
  sched_occ 1000 (Scheduler_yield_current 0 saturated_demo) = 1 ∧
  sched_occ 1000 (sched_switch 0 saturated_demo).2 = 0.
Proof. split_and!; vm_compute; reflexivity. Qed.
