(* ===== verification/IdAlloc.v ===== *)
(** * Identifier allocation

    The probe loop shared by the timer, fence and waitset tables
    ([alloc] in [timer.rs], [fence.rs], [waitset.rs]): start at [next_id], bump
    it at every round, stop at the first identifier the table does not hold.
    The loop has no explicit bound in the source; here it takes fuel, and
    [probe_id_total] shows that the size of the table plus one is always
    enough, because the bump visits pairwise distinct identifiers. *)

From S2P Require Import Prelude.

(** One round: [next_id] is bumped whether or not [id] is free. *)
Fixpoint probe_id {V} (bump : Z → Z) (fuel : nat) (table : gmap Z V) (next_id : Z) : option (Z * Z) :=
  match fuel with
  | O => None
  | S fuel' =>
      let next' := bump next_id in
      match table !! next_id with
      | None => Some (next_id, next')
      | Some _ => probe_id bump fuel' table next'
      end
  end.

(** What the probe promises its clients about the bump: it steps cyclically
    through [lo, lo + n). *)
Class IdCycle (bump : Z → Z) (lo n : Z) : Prop := {
  id_cycle_pos : 0 < n;
  id_cycle_step : ∀ x, lo ≤ x < lo + n → bump x = lo + (x - lo + 1) mod n
}.

(** [next_id.wrapping_add(1)] of the timer table. *)
Definition bump_wrapping (x : Z) : Z := wrapping_add 32 x 1.

(** The fence and waitset tables skip 0 after the wrap. *)
Definition bump_skip_zero (x : Z) : Z :=
  let y := wrapping_add 32 x 1 in if y =? 0 then 1 else y.

#[export] Instance bump_wrapping_cycle : IdCycle bump_wrapping 0 (2 ^ 32).
Proof.
  split; [lia|]. intros x Hx. unfold bump_wrapping, wrapping_add. rewrite Z.sub_0_r, Z.add_0_l. done.
Qed.

#[export] Instance bump_skip_zero_cycle : IdCycle bump_skip_zero 1 (2 ^ 32 - 1).
Proof.
  split; [lia|]. intros x Hx. unfold bump_skip_zero, wrapping_add.
  destruct (decide (x = 2 ^ 32 - 1)) as [->|Hne]; [done|].
  rewrite (Z.mod_small (x + 1)) by lia. rewrite (Z.mod_small (x - 1 + 1)) by lia.
  destruct (Z.eqb_spec (x + 1) 0); lia.
Qed.

Section Probe.
Context {V : Type} (bump : Z → Z) (lo n : Z) `{!IdCycle bump lo n}.

Lemma bump_range x : lo ≤ x < lo + n → lo ≤ bump x < lo + n.
Proof.
  intros Hx. rewrite id_cycle_step by done. pose proof (id_cycle_pos (bump:=bump) (lo:=lo)) as Hn.
  pose proof (Z.mod_pos_bound (x - lo + 1) n Hn). lia.
Qed.

(** The identifier reached after [k] bumps. *)
Lemma bump_iter x k : lo ≤ x < lo + n → Nat.iter k bump x = lo + (x - lo + Z.of_nat k) mod n.
Proof.
  intros Hx. pose proof (id_cycle_pos (bump:=bump) (lo:=lo)) as Hn.
  induction k as [|k IH]; simpl.
  - rewrite Z.add_0_r, Z.mod_small by lia. lia.
  - rewrite IH. pose proof (Z.mod_pos_bound (x - lo + Z.of_nat k) n Hn).
    rewrite id_cycle_step by lia. f_equal.
    replace (lo + (x - lo + Z.of_nat k) mod n - lo + 1) with ((x - lo + Z.of_nat k) mod n + 1) by lia.
    rewrite Z.add_mod_idemp_l by lia. f_equal. lia.
Qed.

Lemma bump_iter_inj x i j :
  lo ≤ x < lo + n → Z.of_nat i < n → Z.of_nat j < n → Nat.iter i bump x = Nat.iter j bump x → i = j.
Proof.
  intros Hx Hi Hj. rewrite !bump_iter by done. intros E.
  assert (Hm : (x - lo + Z.of_nat i) mod n = (x - lo + Z.of_nat j) mod n) by lia.
  pose proof (Z.div_mod (x - lo + Z.of_nat i) n) as Di.
  pose proof (Z.div_mod (x - lo + Z.of_nat j) n) as Dj. rewrite Hm in Di.
  set (a := (x - lo + Z.of_nat i) / n) in *. set (b := (x - lo + Z.of_nat j) / n) in *.
  destruct (Z.lt_trichotomy a b) as [Hl|[He|Hl]]; [nia|rewrite He in Di; lia|nia].
Qed.

(** A failed probe has seen only used identifiers. *)
Lemma probe_id_none fuel (table : gmap Z V) x :
  probe_id bump fuel table x = None → ∀ k, (k < fuel)%nat → is_Some (table !! Nat.iter k bump x).
Proof.
  revert x. induction fuel as [|fuel IH]; intros x H k Hk; [lia|]. simpl in H.
  destruct (table !! x) eqn:E; [|done]. destruct k as [|k]; [done|].
  rewrite Nat.iter_succ_r. apply (IH _ H). lia.
Qed.

Lemma probe_id_some fuel (table : gmap Z V) x id next' :
  lo ≤ x < lo + n → probe_id bump fuel table x = Some (id, next') →
  table !! id = None ∧ lo ≤ id < lo + n ∧ lo ≤ next' < lo + n.
Proof.
  revert x. induction fuel as [|fuel IH]; intros x Hx H; [done|]. simpl in H.
  destruct (table !! x) eqn:E.
  - by apply (IH (bump x)); [apply bump_range|].
  - simplify_eq. split_and!; try done; try lia; by apply bump_range.
Qed.

Lemma probe_id_total (table : gmap Z V) x :
  lo ≤ x < lo + n → Z.of_nat (size table) < n → is_Some (probe_id bump (S (size table)) table x).
Proof.
  intros Hx Hsz. destruct (probe_id bump (S (size table)) table x) eqn:E; [done|]. exfalso.
  pose proof (probe_id_none _ _ _ E) as Hused.
  set (ids := (fun k => Nat.iter k bump x) <$> seq 0 (S (size table))).
  assert (Hnd : NoDup ids).
  { apply NoDup_fmap_2_strong; [|apply NoDup_seq]. intros i j Hi Hj.
    apply elem_of_seq in Hi, Hj. apply bump_iter_inj; [done|lia..]. }
  assert (Hsub : list_to_set ids ⊆ dom table).
  { intros y Hy. apply elem_of_list_to_set, list_elem_of_fmap in Hy as (k & -> & Hk).
    apply elem_of_seq in Hk. apply elem_of_dom, Hused. lia. }
  apply subseteq_size in Hsub. rewrite size_list_to_set, size_dom in Hsub by done.
  unfold ids in Hsub. rewrite length_fmap, length_seq in Hsub. lia.
Qed.

(** More fuel changes nothing: the result is the loop's. *)
Lemma probe_id_fuel fuel fuel' (table : gmap Z V) x r :
  (fuel ≤ fuel')%nat → probe_id bump fuel table x = Some r → probe_id bump fuel' table x = Some r.
Proof.
  revert fuel' x. induction fuel as [|fuel IH]; intros [|fuel'] x Hle H; try done; [lia|]. simpl in *.
  destruct (table !! x); [|done]. apply IH; [lia|done].
Qed.
End Probe.
