(* ===== verification/Timer.v ===== *)
(** * Timers ([source/kernel/neuron/src/timer.rs])

    The per-hart timer table and its deadline queue.  Both [BTreeMap]s are
    finite maps; iteration is over [sorted_keys].  Deadlines and intervals are
    [u64], counters [u32]; the periodic rearm adds with wrap-around, as the
    kernel's release build does (the theorems that need no wrap say so). *)

From S2P Require Import Prelude IdAlloc.

Definition MAX_TIMERS : nat := 64.

Inductive TimerError := TimResourceExhausted | TimInvalidHandle | TimAlreadyArmed.

Record TimerState := mkTimerState {
  ts_owner_pid : Z;
  ts_notify_ep : Z;
  ts_deadline_ns : Z;
  ts_interval_ns : Z;
  ts_seq : Z;
  ts_missed : Z;
  ts_armed : bool
}.

Record HartTimers := mkHartTimers {
  ht_table : gmap Z TimerState;
  ht_queue : gmap Z (list Z);
  ht_next_id : Z
}.

Definition HartTimers_new : HartTimers := mkHartTimers ∅ ∅ 1.

(** [None]: the probe loop did not end within its fuel ([timer_alloc_total]
    shows that this does not happen). *)
Definition HartTimers_alloc (h : HartTimers) (owner_pid notify_ep interval_ns : Z) :
    option (result Z TimerError * HartTimers) :=
  if bool_decide (MAX_TIMERS ≤ size (ht_table h))%nat
  then Some (Err TimResourceExhausted, h)
  else match probe_id bump_wrapping (S (size (ht_table h))) (ht_table h) (ht_next_id h) with
       | None => None
       | Some (id, next_id) =>
           Some (Ok id,
                 mkHartTimers
                   (<[id := mkTimerState owner_pid notify_ep 0 interval_ns 0 0 false]> (ht_table h))
                   (ht_queue h) next_id)
       end.

(** [queue.entry(deadline).or_default().push(id)]. *)
Definition queue_push (q : gmap Z (list Z)) (deadline id : Z) : gmap Z (list Z) :=
  <[deadline := default [] (q !! deadline) ++ [id]]> q.

Definition ts_arm (t : TimerState) (deadline : Z) : TimerState :=
  mkTimerState (ts_owner_pid t) (ts_notify_ep t) deadline (ts_interval_ns t) (ts_seq t) (ts_missed t) true.
Definition ts_disarm (t : TimerState) : TimerState :=
  mkTimerState (ts_owner_pid t) (ts_notify_ep t) (ts_deadline_ns t) (ts_interval_ns t) (ts_seq t)
    (ts_missed t) false.

Definition HartTimers_arm (h : HartTimers) (timer_id deadline_ns : Z) : result unit TimerError * HartTimers :=
  match ht_table h !! timer_id with
  | None => (Err TimInvalidHandle, h)
  | Some t =>
      if ts_armed t then (Err TimAlreadyArmed, h)
      else (Ok tt, mkHartTimers (<[timer_id := ts_arm t deadline_ns]> (ht_table h))
                     (queue_push (ht_queue h) deadline_ns timer_id) (ht_next_id h))
  end.

(** [entries.retain(|id| *id != timer_id)], the entry being removed when empty. *)
Definition queue_remove (q : gmap Z (list Z)) (deadline id : Z) : gmap Z (list Z) :=
  match q !! deadline with
  | None => q
  | Some entries =>
      match filter (fun x => x ≠ id) entries with
      | [] => delete deadline q
      | entries' => <[deadline := entries']> q
      end
  end.

Definition HartTimers_disarm (h : HartTimers) (timer_id : Z) : result unit TimerError * HartTimers :=
  match ht_table h !! timer_id with
  | None => (Err TimInvalidHandle, h)
  | Some t =>
      if negb (ts_armed t) then (Ok tt, h)
      else (Ok tt, mkHartTimers (<[timer_id := ts_disarm t]> (ht_table h))
                     (queue_remove (ht_queue h) (ts_deadline_ns t) timer_id) (ht_next_id h))
  end.

Definition HartTimers_free (h : HartTimers) (timer_id : Z) : result unit TimerError * HartTimers :=
  let h1 := (HartTimers_disarm h timer_id).2 in
  match ht_table h1 !! timer_id with
  | None => (Err TimInvalidHandle, h1)
  | Some _ => (Ok tt, mkHartTimers (delete timer_id (ht_table h1)) (ht_queue h1) (ht_next_id h1))
  end.

(** What firing does to the state of a timer: a periodic timer is rearmed from
    its own deadline, a one-shot timer is disarmed. *)
Definition ts_fire (t : TimerState) : TimerState :=
  if 0 <? ts_interval_ns t
  then mkTimerState (ts_owner_pid t) (ts_notify_ep t)
         (wrapping_add 64 (ts_deadline_ns t) (ts_interval_ns t)) (ts_interval_ns t)
         (wrapping_add 32 (wrapping_add 32 (ts_seq t) 1) (ts_missed t)) (ts_missed t) (ts_armed t)
  else mkTimerState (ts_owner_pid t) (ts_notify_ep t) (ts_deadline_ns t) (ts_interval_ns t)
         (wrapping_add 32 (ts_seq t) 1) (ts_missed t) false.

Definition pop_acc : Type := list (Z * TimerState) * HartTimers.

(** The body of the inner loop, for one queued timer. *)
Definition pop_entry (now : Z) (acc : pop_acc) (timer_id : Z) : pop_acc :=
  let '(expired, h) := acc in
  match ht_table h !! timer_id with
  | None => (expired, h)
  | Some t =>
      if (ts_armed t && (ts_deadline_ns t <=? now))%bool then
        let t' := ts_fire t in
        (expired ++ [(timer_id, t)],
         mkHartTimers (<[timer_id := t']> (ht_table h))
           (if 0 <? ts_interval_ns t then queue_push (ht_queue h) (ts_deadline_ns t') timer_id
            else ht_queue h)
           (ht_next_id h))
      else (expired, h)
  end.

(** The body of the outer loop, for one expired deadline. *)
Definition pop_deadline (now : Z) (acc : pop_acc) (deadline : Z) : pop_acc :=
  let '(expired, h) := acc in
  match ht_queue h !! deadline with
  | None => (expired, h)
  | Some entries =>
      foldl (pop_entry now)
        (expired, mkHartTimers (ht_table h) (delete deadline (ht_queue h)) (ht_next_id h)) entries
  end.

Definition HartTimers_pop_expired (h : HartTimers) (now : Z) : pop_acc :=
  let keys := filter (fun d => d ≤ now) (sorted_keys (ht_queue h)) in
  foldl (pop_deadline now) ([], h) keys.

Definition HartTimers_earliest_deadline (h : HartTimers) : option Z :=
  head (sorted_keys (ht_queue h)).

Definition HartTimers_owned_by (h : HartTimers) (timer_id pid : Z) : bool :=
  match ht_table h !! timer_id with
  | Some t => ts_owner_pid t =? pid
  | None => false
  end.

(** ** The queue is an index of the armed timers *)

(** [pend] are armed timers that the expiry loop has taken off the queue and
    not handled yet; it is empty between operations. *)
Record index_ok (pend : list Z) (table : gmap Z TimerState) (queue : gmap Z (list Z)) : Prop := {
  index_sound : ∀ d es, queue !! d = Some es →
    es ≠ [] ∧ NoDup es ∧
    (∀ id, id ∈ es → ¬ id ∈ pend ∧
      (∃ t, table !! id = Some t ∧ ts_armed t = true ∧ ts_deadline_ns t = d));
  index_complete : ∀ id t, table !! id = Some t → ts_armed t = true →
    id ∈ pend ∨ (∃ es, queue !! ts_deadline_ns t = Some es ∧ id ∈ es)
}.

Definition timer_wf (t : TimerState) : Prop :=
  in_width 64 (ts_deadline_ns t) ∧ in_width 64 (ts_interval_ns t) ∧ in_width 32 (ts_seq t) ∧ ts_missed t = 0.

Record timers_ok (h : HartTimers) : Prop := {
  tm_index : index_ok [] (ht_table h) (ht_queue h);
  tm_size : (size (ht_table h) ≤ MAX_TIMERS)%nat;
  tm_next : in_width 32 (ht_next_id h);
  tm_ids : ∀ id t, ht_table h !! id = Some t → in_width 32 id ∧ timer_wf t
}.

Section Index.
Context (table : gmap Z TimerState) (queue : gmap Z (list Z)).

(** A timer that is pending or not armed is in no queue entry. *)
Lemma index_not_queued pend id d es :
  index_ok pend table queue → queue !! d = Some es →
  id ∈ pend ∨ (∀ t, table !! id = Some t → ts_armed t = false) → id ∉ es.
Proof.
  intros [Hs _] Hq Hor Hin. destruct (Hs _ _ Hq) as (_ & _ & Hall).
  destruct (Hall _ Hin) as (Hnp & t & Ht & Ha & _). destruct Hor as [?|Hn]; [done|].
  by rewrite (Hn _ Ht) in Ha.
Qed.

Lemma index_push id t pend :
  index_ok (id :: pend) table queue → id ∉ pend → ts_armed t = true →
  index_ok pend (<[id := t]> table) (queue_push queue (ts_deadline_ns t) id).
Proof.
  intros Hi Hnp Ha. split.
  - intros d es. unfold queue_push. destruct (decide (ts_deadline_ns t = d)) as [<-|Hd].
    + rewrite lookup_insert_eq. intros [= <-]. set (old := default [] (queue !! ts_deadline_ns t)).
      assert (Hold : NoDup old ∧ ¬ id ∈ old ∧ (∀ x, x ∈ old → ¬ x ∈ id :: pend ∧
                (∃ t', table !! x = Some t' ∧ ts_armed t' = true ∧ ts_deadline_ns t' = ts_deadline_ns t))).
      { unfold old. destruct (queue !! ts_deadline_ns t) as [es0|] eqn:E; simpl.
        - destruct (index_sound _ _ _ Hi _ _ E) as (_ & Hnd & Hall). split_and!; try done.
          eapply index_not_queued; [done..|]. left. by left.
        - split_and!; [constructor|set_solver..]. }
      destruct Hold as (Hnd & Hni & Hall). split_and!.
      * by destruct old.
      * apply NoDup_app. split_and!; [done| |apply NoDup_singleton]. intros x Hx ->%list_elem_of_singleton. done.
      * intros x [Hx| ->%list_elem_of_singleton]%elem_of_app.
        -- destruct (Hall _ Hx) as (Hp & t' & Ht' & Ha' & Hd'). split; [set_solver|].
           exists t'. rewrite lookup_insert_ne by (intros ->; set_solver). done.
        -- split; [done|]. exists t. by rewrite lookup_insert_eq.
    + rewrite lookup_insert_ne by done. intros Hq. destruct (index_sound _ _ _ Hi _ _ Hq) as (Hne & Hnd & Hall).
      split_and!; try done. intros x Hx. destruct (Hall _ Hx) as (Hp & t' & Ht' & Ha' & Hd').
      split; [set_solver|]. exists t'. rewrite lookup_insert_ne by (intros ->; set_solver). done.
  - intros x t'. unfold queue_push. destruct (decide (id = x)) as [<-|Hne].
    + rewrite lookup_insert_eq. intros [= <-] _. right. eexists.
      rewrite lookup_insert_eq. split; [done|]. apply elem_of_app. right. by left.
    + rewrite lookup_insert_ne by done. intros Ht' Ha'.
      destruct (index_complete _ _ _ Hi _ _ Ht' Ha') as [Hp|(es & Hq & Hx)]; [left; set_solver|right].
      destruct (decide (ts_deadline_ns t = ts_deadline_ns t')) as [E|E].
      * rewrite <- E in Hq |- *. rewrite lookup_insert_eq, Hq. eexists. split; [done|]. simpl.
        apply elem_of_app. by left.
      * rewrite lookup_insert_ne by done. eauto.
Qed.

Lemma index_settle id t pend :
  index_ok (id :: pend) table queue → id ∉ pend → ts_armed t = false →
  index_ok pend (<[id := t]> table) queue.
Proof.
  intros Hi Hnp Ha. split.
  - intros d es Hq. destruct (index_sound _ _ _ Hi _ _ Hq) as (Hne & Hnd & Hall). split_and!; try done.
    intros x Hx. destruct (Hall _ Hx) as (Hp & t' & Ht' & Ha' & Hd'). split; [set_solver|].
    exists t'. rewrite lookup_insert_ne by (intros ->; set_solver). done.
  - intros x t'. destruct (decide (id = x)) as [<-|Hne].
    + rewrite lookup_insert_eq. intros [= <-]. congruence.
    + rewrite lookup_insert_ne by done. intros Ht' Ha'.
      destruct (index_complete _ _ _ Hi _ _ Ht' Ha') as [Hp|?]; [left; set_solver|by right].
Qed.

(** Taking a deadline off the queue leaves its timers pending. *)
Lemma index_take d es :
  index_ok [] table queue → queue !! d = Some es →
  index_ok es table (delete d queue) ∧ NoDup es ∧
  ∀ id, id ∈ es → ∃ t, table !! id = Some t ∧ ts_armed t = true ∧ ts_deadline_ns t = d.
Proof.
  intros Hi Hq. destruct (index_sound _ _ _ Hi _ _ Hq) as (Hne & Hnd & Hall).
  split_and!; [|done|intros id Hid; by destruct (Hall _ Hid)]. split.
  - intros d' es'. destruct (decide (d = d')) as [<-|Hd]; [by rewrite lookup_delete_eq|].
    rewrite lookup_delete_ne by done. intros Hq'. destruct (index_sound _ _ _ Hi _ _ Hq') as (Hne' & Hnd' & Hall').
    split_and!; try done. intros x Hx. destruct (Hall' _ Hx) as (_ & t & Ht & Ha & Hdt).
    split; [|eauto]. intros Hxe. destruct (Hall _ Hxe) as (_ & t2 & Ht2 & _ & Hd2). congruence.
  - intros x t Ht Ha. destruct (index_complete _ _ _ Hi _ _ Ht Ha) as [?|(es' & Hq' & Hx)]; [set_solver|].
    destruct (decide (ts_deadline_ns t = d)) as [E|E]; [left; congruence|right].
    rewrite lookup_delete_ne by done. eauto.
Qed.

Lemma queue_remove_lookup d id es d' :
  queue !! d = Some es →
  queue_remove queue d id !! d' =
    if decide (d' = d) then
      if decide (filter (fun x => x ≠ id) es = []) then None else Some (filter (fun x => x ≠ id) es)
    else queue !! d'.
Proof.
  intros Hq. unfold queue_remove. rewrite Hq. destruct (filter (fun x => x ≠ id) es) as [|y l];
    (destruct (decide (d' = d)) as [->|Hd];
     [by rewrite ?lookup_delete_eq, ?lookup_insert_eq
     |by rewrite ?lookup_delete_ne, ?lookup_insert_ne by done]).
Qed.

(** Removing one timer from its queue entry leaves it pending. *)
Lemma index_remove id t :
  index_ok [] table queue → table !! id = Some t → ts_armed t = true →
  index_ok [id] table (queue_remove queue (ts_deadline_ns t) id).
Proof.
  intros Hi Ht Ha. destruct (index_complete _ _ _ Hi _ _ Ht Ha) as [?|(es & Hq & Hid)]; [set_solver|].
  destruct (index_sound _ _ _ Hi _ _ Hq) as (_ & Hnd & Hall). split.
  - intros d es1. rewrite (queue_remove_lookup _ _ _ _ Hq). case_decide as E.
    + case_decide as Ee; [done|]. intros [= <-]. split_and!; [done|by apply NoDup_filter|].
      intros x [Hne Hx]%list_elem_of_filter. destruct (Hall _ Hx) as (_ & Hw). subst.
      split; [set_solver|done].
    + intros Hq1. destruct (index_sound _ _ _ Hi _ _ Hq1) as (Hne & Hnd1 & Hall1). split_and!; try done.
      intros x Hx. destruct (Hall1 _ Hx) as (_ & t1 & Ht1 & Ha1 & Hd1). split; [|eauto].
      intros ->%list_elem_of_singleton. congruence.
  - intros x t1 Ht1 Ha1. destruct (decide (x = id)) as [->|Hne]; [left; by left|right].
    destruct (index_complete _ _ _ Hi _ _ Ht1 Ha1) as [?|(es1 & Hq1 & Hx)]; [set_solver|].
    rewrite (queue_remove_lookup _ _ _ _ Hq). case_decide as E; [|eauto].
    assert (Hx' : x ∈ filter (fun y => y ≠ id) es) by (apply list_elem_of_filter; split; congruence).
    case_decide as Ee; [rewrite Ee in Hx'; set_solver|eauto].
Qed.
End Index.
