(* ===== verification/TimerProps.v ===== *)
(** * Properties of the timers

    The deadline queue indexes exactly the armed timers under every operation;
    allocation always ends and yields a fresh identifier; the expiry loop fires
    every due timer and nothing else, rearms without drift and disarms
    one-shot timers; the earliest deadline is exact. *)

From S2P Require Import Prelude IdAlloc Timer.

(** ** Invariant *)

Lemma timers_new_ok : timers_ok HartTimers_new.
Proof.
  split; [split| | |]; simpl; try (intros *; by rewrite lookup_empty); [|done].
  rewrite map_size_empty. unfold MAX_TIMERS. lia.
Qed.

Lemma alloc_cases h owner ep interval :
  timers_ok h →
  (HartTimers_alloc h owner ep interval = Some (Err TimResourceExhausted, h) ∧
   size (ht_table h) = MAX_TIMERS) ∨
  (∃ id next', (size (ht_table h) < MAX_TIMERS)%nat ∧ ht_table h !! id = None ∧ in_width 32 id ∧ in_width 32 next' ∧
     HartTimers_alloc h owner ep interval =
       Some (Ok id, mkHartTimers (<[id := mkTimerState owner ep 0 interval 0 0 false]> (ht_table h))
                      (ht_queue h) next')).
Proof.
  intros [Hi Hsz Hn _]. unfold HartTimers_alloc. case_bool_decide as Hc; [left; split; [done|lia]|right].
  assert (Hx : 0 ≤ ht_next_id h < 0 + 2 ^ 32) by (unfold in_width in Hn; lia).
  destruct (probe_id_total bump_wrapping 0 (2 ^ 32) (ht_table h) (ht_next_id h) Hx) as [[id next'] E];
    [unfold MAX_TIMERS in *; lia|].
  destruct (probe_id_some bump_wrapping 0 (2 ^ 32) _ _ _ _ _ Hx E) as (Hnone & Hid & Hnx).
  exists id, next'. rewrite E. unfold in_width. split_and!; try done; lia.
Qed.

Lemma alloc_ok h id next' t :
  timers_ok h → (size (ht_table h) < MAX_TIMERS)%nat → ht_table h !! id = None → in_width 32 id →
  in_width 32 next' → ts_armed t = false → timer_wf t →
  timers_ok (mkHartTimers (<[id := t]> (ht_table h)) (ht_queue h) next').
Proof.
  intros Hok Hsz Hnone Hid Hnx Ha Hwf. split; simpl; try done.
  - apply index_settle; [|set_solver|done]. destruct (tm_index _ Hok) as [Hs Hc]. split.
    + intros d es Hq. destruct (Hs _ _ Hq) as (? & ? & Hall). split_and!; try done.
      intros x Hx. destruct (Hall _ Hx) as (_ & t' & Ht' & Hw). split; [|eauto].
      intros ->%list_elem_of_singleton. congruence.
    + intros x t' Ht' Ha'. destruct (Hc _ _ Ht' Ha') as [?|?]; [set_solver|by right].
  - rewrite map_size_insert_None by done. lia.
  - intros x t'. destruct (decide (id = x)) as [<-|Hne].
    + rewrite lookup_insert_eq. by intros [= <-].
    + rewrite lookup_insert_ne by done. apply tm_ids, Hok.
Qed.

(** A timer that is not armed can be seen as just taken off the queue. *)
Lemma index_weaken table queue id :
  index_ok [] table queue → (∀ t, table !! id = Some t → ts_armed t = false) → index_ok [id] table queue.
Proof.
  intros Hi Hn. split.
  - intros d es Hq. destruct (index_sound _ _ _ Hi _ _ Hq) as (? & ? & Hall). split_and!; try done.
    intros x Hx. destruct (Hall _ Hx) as (_ & t & Ht & Ha & Hd). split; [|eauto].
    intros ->%list_elem_of_singleton. rewrite (Hn _ Ht) in Ha. done.
  - intros x t Ht Ha. destruct (index_complete _ _ _ Hi _ _ Ht Ha) as [?|?]; [set_solver|by right].
Qed.

(** Replacing the state of a known timer keeps everything but the index. *)
Lemma timers_ok_update h id t t' queue :
  timers_ok h → ht_table h !! id = Some t → timer_wf t' → index_ok [] (<[id := t']> (ht_table h)) queue →
  timers_ok (mkHartTimers (<[id := t']> (ht_table h)) queue (ht_next_id h)).
Proof.
  intros [_ Hsz Hn Hids] Ht Hwf Hi. split; simpl; try done.
  - by rewrite map_size_insert_Some by eauto.
  - intros x u. destruct (decide (id = x)) as [<-|Hne].
    + rewrite lookup_insert_eq. intros [= <-]. split; [|done]. by apply (Hids _ _ Ht).
    + rewrite lookup_insert_ne by done. apply Hids.
Qed.

Lemma arm_ok h id d : timers_ok h → in_width 64 d → timers_ok (HartTimers_arm h id d).2.
Proof.
  intros Hok Hd. unfold HartTimers_arm. destruct (ht_table h !! id) as [t|] eqn:Et; [|done].
  destruct (ts_armed t) eqn:Ea; [done|]. simpl. destruct (tm_ids _ Hok _ _ Et) as [_ (? & ? & ? & ?)].
  apply (timers_ok_update _ _ t); [done..|].
  apply (index_push _ _ id (ts_arm t d)); [|set_solver|done].
  apply index_weaken; [apply Hok|]. intros ? ?. by simplify_eq.
Qed.

Lemma disarm_ok h id : timers_ok h → timers_ok (HartTimers_disarm h id).2.
Proof.
  intros Hok. unfold HartTimers_disarm. destruct (ht_table h !! id) as [t|] eqn:Et; [|done].
  destruct (ts_armed t) eqn:Ea; [|done]. simpl.
  apply (timers_ok_update _ _ t); [done..|apply (tm_ids _ Hok _ _ Et)|].
  apply index_settle; [|set_solver|done]. apply index_remove; [apply Hok|done..].
Qed.

Lemma disarm_unarmed h id t : ht_table (HartTimers_disarm h id).2 !! id = Some t → ts_armed t = false.
Proof.
  unfold HartTimers_disarm. destruct (ht_table h !! id) as [t0|] eqn:Et; simpl; [|congruence].
  destruct (ts_armed t0) eqn:Ea; simpl; [|congruence]. rewrite lookup_insert_eq. by intros [= <-].
Qed.

Lemma free_ok h id : timers_ok h → timers_ok (HartTimers_free h id).2.
Proof.
  intros Hok. unfold HartTimers_free. pose proof (disarm_ok h id Hok) as Hd.
  pose proof (disarm_unarmed h id) as Hu. destruct ((HartTimers_disarm h id).2) as [tbl q nx]. simpl in *.
  destruct (tbl !! id) as [t|] eqn:Et; simpl; [|done]. destruct Hd as [Hi Hsz Hn Hids]. split; simpl in *; try done.
  - split.
    + intros d es Hq. destruct (index_sound _ _ _ Hi _ _ Hq) as (? & ? & Hall). split_and!; try done.
      intros x Hx. destruct (Hall _ Hx) as (_ & t' & Ht' & Ha & Hdd). split; [set_solver|]. exists t'.
      rewrite lookup_delete_ne; [done|]. intros ->. rewrite Et in Ht'. rewrite (Hu _ Ht') in Ha. done.
    + intros x t'. rewrite lookup_delete_Some. intros [_ Ht']. by apply Hi.
  - rewrite map_size_delete_Some by eauto. lia.
  - intros x t'. rewrite lookup_delete_Some. intros [_ Ht']. by apply Hids.
Qed.

(** ** The expiry loop *)

Lemma ts_fire_wf t : timer_wf t → timer_wf (ts_fire t).
Proof.
  unfold timer_wf, ts_fire, in_width, wrapping_add. intros (? & ? & ? & ?).
  destruct (0 <? ts_interval_ns t); simpl; split_and!; try done; try lia;
    apply Z.mod_pos_bound; lia.
Qed.

Lemma ts_fire_armed t : ts_armed t = true → ts_armed (ts_fire t) = (0 <? ts_interval_ns t).
Proof. intros Ha. unfold ts_fire. destruct (0 <? ts_interval_ns t); done. Qed.

(** What was reported for one timer, in order. *)
Definition snaps (id : Z) (out : list (Z * TimerState)) : list TimerState :=
  (filter (fun p => p.1 = id) out).*2.

(** A timer fired [k] times from state [t]: the [k] reported states. *)
Fixpoint fire_trace (k : nat) (t : TimerState) : list TimerState :=
  match k with
  | O => []
  | S k' => t :: fire_trace k' (ts_fire t)
  end.

Lemma fire_trace_snoc k t : fire_trace (S k) t = fire_trace k t ++ [Nat.iter k ts_fire t].
Proof.
  revert t. induction k as [|k IH]; intros t; [done|].
  change (t :: fire_trace (S k) (ts_fire t) = t :: fire_trace k (ts_fire t) ++ [Nat.iter (S k) ts_fire t]).
  rewrite IH, Nat.iter_succ_r. done.
Qed.

Lemma fire_trace_length k t : length (fire_trace k t) = k.
Proof. revert t. induction k; intros t; simpl; auto. Qed.

Definition due (now : Z) (t : TimerState) : Prop := ts_armed t = true ∧ ts_deadline_ns t ≤ now.

(** How the loop's accumulated output relates the initial table to the current
    one. *)
Definition history (now : Z) (table0 : gmap Z TimerState) (out : list (Z * TimerState))
    (table : gmap Z TimerState) : Prop :=
  ∀ id, match table0 !! id with
        | None => table !! id = None ∧ snaps id out = []
        | Some t => snaps id out = fire_trace (length (snaps id out)) t ∧
                    table !! id = Some (Nat.iter (length (snaps id out)) ts_fire t) ∧
                    Forall (due now) (snaps id out)
        end.

Lemma snaps_snoc id out x t :
  snaps id (out ++ [(x, t)]) = snaps id out ++ (if decide (x = id) then [t] else []).
Proof.
  unfold snaps. rewrite filter_app, fmap_app. f_equal. rewrite filter_cons. simpl. by case_decide.
Qed.

Lemma history_fire now table0 out table id t :
  history now table0 out table → table !! id = Some t → due now t →
  history now table0 (out ++ [(id, t)]) (<[id := ts_fire t]> table).
Proof.
  intros Hh Ht Hd x. specialize (Hh x). rewrite snaps_snoc. case_decide as E.
  - subst x. destruct (table0 !! id) as [t0|]; [|destruct Hh; congruence].
    destruct Hh as (Hs & Hcur & HF). rewrite length_app. simpl. rewrite Nat.add_1_r, fire_trace_snoc, <- Hs.
    rewrite Hcur in Ht. simplify_eq. split_and!.
    + done.
    + by rewrite lookup_insert_eq.
    + apply Forall_app. split; [done|]. by constructor.
  - rewrite lookup_insert_ne by done. by rewrite app_nil_r.
Qed.

(** The state of the loop with deadlines [keys] still to do and timers [pend]
    taken off the queue: due timers not reported yet are among them. *)
Record pop_inv (now : Z) (h0 : HartTimers) (pend keys : list Z) (acc : pop_acc) : Prop := {
  pi_index : index_ok pend (ht_table acc.2) (ht_queue acc.2);
  pi_next : ht_next_id acc.2 = ht_next_id h0;
  pi_history : history now (ht_table h0) acc.1 (ht_table acc.2);
  pi_unfired : ∀ id t, ht_table h0 !! id = Some t → due now t → snaps id acc.1 = [] →
    ts_deadline_ns t ∈ keys ∨ id ∈ pend
}.

(** Handling one pending timer. *)
Lemma pop_entry_inv now h0 id pend keys acc d :
  d ≤ now → NoDup (id :: pend) →
  (∀ x, x ∈ id :: pend → ∃ t, ht_table acc.2 !! x = Some t ∧ ts_armed t = true ∧ ts_deadline_ns t = d) →
  pop_inv now h0 (id :: pend) keys acc →
  pop_inv now h0 pend keys (pop_entry now acc id) ∧
  (∀ x, x ∈ pend → ∃ t, ht_table (pop_entry now acc id).2 !! x = Some t ∧ ts_armed t = true ∧ ts_deadline_ns t = d) ∧
  (∃ t, (pop_entry now acc id).1 = acc.1 ++ [(id, t)] ∧ ts_deadline_ns t = d).
Proof.
  intros Hd Hnd Hpend [Hi Hn Hh Hu]. destruct acc as [out h]. simpl in *.
  destruct (Hpend id) as (t & Ht & Ha & Hdt); [by left|]. apply NoDup_cons in Hnd as [Hni Hnd].
  assert (Hdue : due now t) by (split; [done|lia]).
  rewrite Ht, Ha. rewrite (proj2 (Z.leb_le _ _)) by lia. simpl. split_and!.
  - split; simpl; try done.
    + pose proof (ts_fire_armed t Ha) as Haf. destruct (0 <? ts_interval_ns t).
      * by apply index_push.
      * by apply index_settle.
    + by apply history_fire.
    + intros x tx Hx Hdx. rewrite snaps_snoc. case_decide as E; [by destruct (snaps x out)|].
      rewrite app_nil_r. intros Hs. destruct (Hu _ _ Hx Hdx Hs) as [?|?]; [by left|right; set_solver].
  - intros x Hx. rewrite lookup_insert_ne by (intros ->; done). apply Hpend. by right.
  - eauto.
Qed.

Lemma pop_entries_inv now h0 keys d pend acc :
  d ≤ now → NoDup pend →
  (∀ x, x ∈ pend → ∃ t, ht_table acc.2 !! x = Some t ∧ ts_armed t = true ∧ ts_deadline_ns t = d) →
  pop_inv now h0 pend keys acc →
  pop_inv now h0 [] keys (foldl (pop_entry now) acc pend) ∧
  ∃ new, (foldl (pop_entry now) acc pend).1 = acc.1 ++ new ∧ Forall (fun p => ts_deadline_ns p.2 = d) new.
Proof.
  intros Hd. revert acc. induction pend as [|id pend IH]; intros acc Hnd Hpend Hinv; simpl.
  - split; [done|]. exists []. by rewrite app_nil_r.
  - destruct (pop_entry_inv _ _ _ _ _ _ _ Hd Hnd Hpend Hinv) as (Hinv' & Hpend' & t & Hout & Hdt).
    apply NoDup_cons in Hnd as [_ Hnd]. destruct (IH _ Hnd Hpend' Hinv') as (Hfin & new & Hnew & HF).
    split; [done|]. exists ((id, t) :: new). rewrite Hnew, Hout, <- app_assoc. split; [done|]. by constructor.
Qed.

(** Handling one expired deadline. *)
Lemma pop_deadline_inv now h0 d keys acc :
  d ≤ now → pop_inv now h0 [] (d :: keys) acc →
  pop_inv now h0 [] keys (pop_deadline now acc d) ∧
  ∃ new, (pop_deadline now acc d).1 = acc.1 ++ new ∧ Forall (fun p => ts_deadline_ns p.2 = d) new.
Proof.
  intros Hd [Hi Hn Hh Hu]. destruct acc as [out h]. simpl in *.
  (* a due timer not reported yet is still in its initial state *)
  assert (Hcur : ∀ id t, ht_table h0 !! id = Some t → due now t → snaps id out = [] →
            ts_deadline_ns t ∈ keys ∨ (∃ es, ht_queue h !! d = Some es ∧ id ∈ es)).
  { intros id t Ht Hdue Hs. destruct (Hu _ _ Ht Hdue Hs) as [[Hk|Hk]%elem_of_cons|Hk]; [right|by left|set_solver].
    pose proof (Hh id) as Hid. rewrite Ht, Hs in Hid. destruct Hid as (_ & Hid & _).
    destruct (index_complete _ _ _ Hi _ _ Hid (proj1 Hdue)) as [?|Hes]; [set_solver|]. simpl in Hes.
    by rewrite Hk in Hes. }
  destruct (ht_queue h !! d) as [es|] eqn:Eq.
  - destruct (index_take _ _ _ _ Hi Eq) as (Hi' & Hnd & Hall).
    apply (pop_entries_inv now h0 keys d es (out, mkHartTimers (ht_table h) (delete d (ht_queue h)) (ht_next_id h)) Hd Hnd Hall).
    split; simpl; try done. intros id t Ht Hdue Hs.
    destruct (Hcur _ _ Ht Hdue Hs) as [?|(es' & [= <-] & ?)]; auto.
  - split; [|exists []; by rewrite app_nil_r]. split; simpl; try done. intros id t Ht Hdue Hs.
    destruct (Hcur _ _ Ht Hdue Hs) as [?|(es' & ? & ?)]; auto. done.
Qed.

Lemma pop_keys_inv now h0 keys acc :
  Forall (fun d => d ≤ now) keys → StronglySorted Z.le keys → pop_inv now h0 [] keys acc →
  StronglySorted Z.le (map (fun p => ts_deadline_ns p.2) acc.1) →
  (∀ p d, p ∈ acc.1 → d ∈ keys → ts_deadline_ns p.2 ≤ d) →
  let res := foldl (pop_deadline now) acc keys in
  pop_inv now h0 [] [] res ∧ StronglySorted Z.le (map (fun p => ts_deadline_ns p.2) res.1).
Proof.
  revert acc. induction keys as [|d keys IH]; intros acc Hle Hsort Hinv Hout Hlow; simpl; [done|].
  apply Forall_cons in Hle as [Hd Hle]. apply StronglySorted_inv in Hsort as [Hsort Hmin].
  destruct (pop_deadline_inv _ _ _ _ _ Hd Hinv) as (Hinv' & new & Hnew & HF).
  apply IH; try done.
  - rewrite Hnew, map_app. apply StronglySorted_app. split_and!; [|done|].
    + intros x1 x2 Hx1 Hx2. apply list_elem_of_In, in_map_iff in Hx1 as (p1 & <- & Hp1).
      apply list_elem_of_In, in_map_iff in Hx2 as (p2 & <- & Hp2). apply list_elem_of_In in Hp1, Hp2.
      rewrite Forall_forall in HF. rewrite (HF _ Hp2). apply Hlow; [done|by left].
    + clear - HF. induction HF as [|p l Hp HF IHl]; simpl; constructor; [done|].
      apply Forall_forall. intros x Hx. apply list_elem_of_In, in_map_iff in Hx as (p' & <- & Hp').
      apply list_elem_of_In in Hp'. rewrite Forall_forall in HF. rewrite (HF _ Hp'), Hp. done.
  - intros p d'. rewrite Hnew, elem_of_app. intros [Hp|Hp] Hd'.
    + apply Hlow; [done|by right].
    + rewrite Forall_forall in HF. rewrite (HF _ Hp). rewrite Forall_forall in Hmin. by apply Hmin.
Qed.

Lemma pop_expired_inv h now :
  timers_ok h →
  pop_inv now h [] [] (HartTimers_pop_expired h now) ∧
  StronglySorted Z.le (map (fun p => ts_deadline_ns p.2) (HartTimers_pop_expired h now).1).
Proof.
  intros Hok. unfold HartTimers_pop_expired. apply pop_keys_inv.
  - apply Forall_forall. intros d [Hd _]%list_elem_of_filter. done.
  - apply StronglySorted_filter, sorted_keys_sorted.
  - split; simpl; [apply Hok|done| |].
    + intros id. destruct (ht_table h !! id); split_and!; done.
    + intros id t Ht [Ha Hd] _. left. apply list_elem_of_filter. split; [done|]. apply sorted_keys_elem.
      destruct (index_complete _ _ _ (tm_index _ Hok) _ _ Ht Ha) as [?|(es & Hq & _)]; [set_solver|eauto].
  - constructor.
  - simpl. set_solver.
Qed.

Lemma fire_iter_wf k t : timer_wf t → timer_wf (Nat.iter k ts_fire t).
Proof. intros Ht. induction k; simpl; [done|]. by apply ts_fire_wf. Qed.

Lemma pop_expired_ok h now : timers_ok h → timers_ok (HartTimers_pop_expired h now).2.
Proof.
  intros Hok. destruct (pop_expired_inv h now Hok) as [[Hi Hn Hh _] _].
  destruct (HartTimers_pop_expired h now) as [out h']. simpl in *.
  assert (Hdom : dom (ht_table h') = dom (ht_table h)).
  { apply set_eq. intros id. rewrite !elem_of_dom. specialize (Hh id).
    destruct (ht_table h !! id) as [t|]; [destruct Hh as (_ & -> & _)|destruct Hh as [-> _]]; by split; intros [? ?]. }
  split; try done.
  - rewrite <- size_dom, Hdom, size_dom. apply Hok.
  - rewrite Hn. apply Hok.
  - intros id t Ht. specialize (Hh id). destruct (ht_table h !! id) as [t0|] eqn:E0; [|destruct Hh; congruence].
    destruct Hh as (_ & Hcur & _). rewrite Hcur in Ht. simplify_eq. destruct (tm_ids _ Hok _ _ E0) as [Hid Hwf].
    split; [done|]. by apply fire_iter_wf.
Qed.

(** ** Every operation keeps the queue and the table consistent *)

Inductive timer_op :=
| TAlloc (owner ep interval : Z) | TArm (id deadline : Z) | TDisarm (id : Z) | TFree (id : Z) | TPop (now : Z).

Definition timer_op_wf (op : timer_op) : Prop :=
  match op with
  | TAlloc _ _ interval => in_width 64 interval
  | TArm _ deadline => in_width 64 deadline
  | _ => True
  end.

(** [None] only if an operation does not end. *)
Definition timer_step (h : HartTimers) (op : timer_op) : option HartTimers :=
  match op with
  | TAlloc owner ep interval => snd <$> HartTimers_alloc h owner ep interval
  | TArm id deadline => Some (HartTimers_arm h id deadline).2
  | TDisarm id => Some (HartTimers_disarm h id).2
  | TFree id => Some (HartTimers_free h id).2
  | TPop now => Some (HartTimers_pop_expired h now).2
  end.

Fixpoint timer_run (h : HartTimers) (ops : list timer_op) : option HartTimers :=
  match ops with
  | [] => Some h
  | op :: ops' => h' ← timer_step h op; timer_run h' ops'
  end.

Lemma timer_step_ok h op : timers_ok h → timer_op_wf op → ∃ h', timer_step h op = Some h' ∧ timers_ok h'.
Proof.
  intros Hok Hwf. destruct op as [owner ep interval|id d|id|id|now]; simpl in *.
  - destruct (alloc_cases h owner ep interval Hok) as [[-> _]|(id & nx & Hsz & Hnone & Hid & Hnx & ->)]; simpl; [eauto|].
    eexists. split; [done|]. by apply alloc_ok.
  - eexists. split; [done|]. by apply arm_ok.
  - eexists. split; [done|]. by apply disarm_ok.
  - eexists. split; [done|]. by apply free_ok.
  - eexists. split; [done|]. by apply pop_expired_ok.
Qed.

Lemma timer_run_ok h ops :
  timers_ok h → Forall timer_op_wf ops → ∃ h', timer_run h ops = Some h' ∧ timers_ok h'.
Proof.
  intros Hh Hops. revert h Hh. induction Hops as [|op ops Hop _ IH]; intros h Hh; simpl; [eauto|].
  destruct (timer_step_ok h op Hh Hop) as (h' & -> & Hh'). simpl. auto.
Qed.

(** From the empty table, every sequence of timer operations terminates and
    keeps the deadline queue an exact index of the armed timers (each armed
    timer queued once, under its own deadline; no empty or stale entries), the
    table within 64 timers and all fields within their widths; the [missed]
    counter stays zero. *)
Theorem timers_invariant ops :
  Forall timer_op_wf ops → ∃ h, timer_run HartTimers_new ops = Some h ∧ timers_ok h.
Proof.
  apply timer_run_ok, timers_new_ok.
Qed.

Lemma timers_invariant_witness :
  ∃ h, timer_run HartTimers_new [TAlloc 7 3 10; TArm 1 100; TPop 100; TDisarm 1; TFree 1] = Some h ∧ timers_ok h.
Proof.
  apply timers_invariant. repeat constructor; simpl; lia.
Defined.

(** Allocation never loops forever: it reports exhaustion exactly when all
    64 timers are in use, and otherwise returns an identifier no live timer
    has, with every other timer untouched. *)
Theorem timer_alloc_total h owner ep interval :
  timers_ok h →
  ∃ r h', HartTimers_alloc h owner ep interval = Some (r, h') ∧
    match r with
    | Err e => e = TimResourceExhausted ∧ size (ht_table h) = MAX_TIMERS ∧ h' = h
    | Ok id => ht_table h !! id = None ∧ in_width 32 id ∧ (size (ht_table h) < MAX_TIMERS)%nat ∧
        ht_table h' = <[id := mkTimerState owner ep 0 interval 0 0 false]> (ht_table h) ∧
        ht_queue h' = ht_queue h
    end.
Proof.
  intros Hok. destruct (alloc_cases h owner ep interval Hok) as [[-> Hsz]|(id & nx & Hsz & Hnone & Hid & _ & ->)].
  - by exists (Err TimResourceExhausted), h.
  - eexists (Ok id), _. by split_and!.
Qed.

Lemma timer_alloc_total_witness :
  ∃ r h', HartTimers_alloc HartTimers_new 7 3 10 = Some (r, h') ∧ is_ok r = true.
Proof.
  destruct (timer_alloc_total HartTimers_new 7 3 10 timers_new_ok) as (r & h' & E & H).
  exists r, h'. split; [exact E|]. destruct r; [reflexivity|]. exfalso. destruct H as (_ & H & _).
  vm_compute in H. discriminate.
Defined.

(** ** Expiry *)

Lemma ts_fire_periodic t :
  0 < ts_interval_ns t →
  ts_deadline_ns (ts_fire t) = wrapping_add 64 (ts_deadline_ns t) (ts_interval_ns t) ∧
  ts_interval_ns (ts_fire t) = ts_interval_ns t ∧ ts_armed (ts_fire t) = ts_armed t.
Proof. intros H. unfold ts_fire. by rewrite (proj2 (Z.ltb_lt _ _)). Qed.

(** Without wrap-around, [k] firings of a periodic timer advance its deadline
    by exactly [k] intervals. *)
Lemma fire_iter_drift k t :
  timer_wf t → 0 < ts_interval_ns t → ts_deadline_ns t + Z.of_nat k * ts_interval_ns t < 2 ^ 64 →
  ts_deadline_ns (Nat.iter k ts_fire t) = ts_deadline_ns t + Z.of_nat k * ts_interval_ns t ∧
  ts_interval_ns (Nat.iter k ts_fire t) = ts_interval_ns t.
Proof.
  intros (Hd & Hi & _) Hpos. unfold in_width in *. induction k as [|k IH]; intros Hlt; simpl; [lia|].
  destruct IH as [IH1 IH2]; [lia|].
  destruct (ts_fire_periodic (Nat.iter k ts_fire t)) as (-> & -> & _); [lia|].
  rewrite IH1, IH2. unfold wrapping_add. rewrite Z.mod_small by lia. lia.
Qed.

(** The expiry loop is sound and complete.  A timer is reported if and only
    if it is armed with a deadline at or before [now]; what is reported for it
    is its state before each firing, and its state afterwards is that many
    firings on.  A one-shot timer is reported once and disarmed; a periodic
    timer stays armed with its deadline advanced by whole intervals from its
    own deadline (no drift).  Reports come in deadline order. *)
Theorem pop_expired_spec h now :
  timers_ok h →
  let '(out, h') := HartTimers_pop_expired h now in
  StronglySorted Z.le (map (fun p => ts_deadline_ns p.2) out) ∧
  ∀ id, match ht_table h !! id with
  | None => ht_table h' !! id = None ∧ snaps id out = []
  | Some t =>
      let k := length (snaps id out) in
      ((0 < k)%nat ↔ due now t) ∧
      snaps id out = fire_trace k t ∧ Forall (due now) (snaps id out) ∧
      ∃ t', ht_table h' !! id = Some t' ∧ (k = 0%nat → t' = t) ∧
        (ts_interval_ns t = 0 → (k ≤ 1)%nat ∧ ((0 < k)%nat → ts_armed t' = false)) ∧
        (0 < ts_interval_ns t → ts_deadline_ns t + Z.of_nat k * ts_interval_ns t < 2 ^ 64 →
           ts_armed t' = ts_armed t ∧ ts_deadline_ns t' = ts_deadline_ns t + Z.of_nat k * ts_interval_ns t)
  end.
Proof.
  intros Hok. destruct (pop_expired_inv h now Hok) as [[_ _ Hh Hu] Hsort].
  destruct (HartTimers_pop_expired h now) as [out h']. simpl in *. split; [done|].
  intros id. specialize (Hh id). specialize (Hu id). destruct (ht_table h !! id) as [t|] eqn:Et; [|done].
  destruct Hh as (Htr & Hcur & HF). pose proof (tm_ids _ Hok _ _ Et) as [_ Hwf].
  set (k := length (snaps id out)) in *. split_and!; try done.
  - split.
    + intros Hk. rewrite Htr in HF. destruct k as [|k']; [lia|]. by inversion HF.
    + intros Hdue. destruct (snaps id out) eqn:Es; [|subst k; simpl; lia].
      destruct (Hu _ eq_refl Hdue eq_refl); set_solver.
  - exists (Nat.iter k ts_fire t). split_and!; [done| | |].
    + by intros ->.
    + intros H0. split.
      * destruct k as [|[|k']]; try lia. rewrite Htr in HF. apply Forall_cons in HF as [[Ha _] HF].
        apply Forall_cons in HF as [[Ha' _] _]. rewrite ts_fire_armed, H0 in Ha' by done. done.
      * intros Hk. rewrite Htr in HF. destruct k as [|k']; [lia|]. apply Forall_cons in HF as [[Ha _] HF].
        destruct k' as [|k'']; [|apply Forall_cons in HF as [[Ha' _] _]; by rewrite ts_fire_armed, H0 in Ha'].
        simpl. rewrite ts_fire_armed, H0 by done. done.
    + intros Hpos Hlt. split; [|by apply fire_iter_drift]. clear - Hpos.
      assert (Hgen : ts_interval_ns (Nat.iter k ts_fire t) = ts_interval_ns t ∧
                     ts_armed (Nat.iter k ts_fire t) = ts_armed t).
      { induction k as [|k [IH1 IH2]]; [done|]. simpl.
        destruct (ts_fire_periodic (Nat.iter k ts_fire t)) as (_ & -> & ->); [lia|done]. }
      apply Hgen.
Qed.

Definition pop_demo : HartTimers :=
  default HartTimers_new (timer_run HartTimers_new [TAlloc 7 3 10; TAlloc 7 4 0; TArm 1 100; TArm 2 90]).

Lemma pop_demo_ok : timers_ok pop_demo.
Proof.
  destruct (timer_run_ok HartTimers_new [TAlloc 7 3 10; TAlloc 7 4 0; TArm 1 100; TArm 2 90] timers_new_ok)
    as (h & E & Hok); [|unfold pop_demo; rewrite E; exact Hok].
  repeat constructor; simpl; lia.
Qed.

Lemma pop_expired_spec_witness :
  (0 < length (snaps 1 (HartTimers_pop_expired pop_demo 105).1))%nat.
Proof.
  pose proof (pop_expired_spec pop_demo 105 pop_demo_ok) as H.
  destruct (HartTimers_pop_expired pop_demo 105) as [out h']. destruct H as [_ H]. specialize (H 1).
  replace (ht_table pop_demo !! 1) with (Some (mkTimerState 7 3 100 10 0 0 true)) in H by (vm_compute; reflexivity).
  apply H. split; [reflexivity|simpl; lia].
Defined.

(** Coalescing fails when a rearmed deadline coincides with a later expired
    one: a periodic timer is then reported twice by a single expiry pass, with
    two different deadlines. *)
Theorem pop_expired_double_fire :
  let h := default HartTimers_new
    (timer_run HartTimers_new [TAlloc 7 3 10; TAlloc 7 4 0; TArm 1 100; TArm 2 110]) in
  map (fun p => (p.1, ts_deadline_ns p.2)) (HartTimers_pop_expired h 115).1 = [(1, 100); (2, 110); (1, 110)].
Proof. vm_compute. reflexivity. Qed.

(** ** The next deadline *)

(** [earliest_deadline] is the minimum of the deadlines of the armed timers,
    and is absent exactly when no timer is armed. *)
Theorem earliest_deadline_exact h :
  timers_ok h →
  match HartTimers_earliest_deadline h with
  | None => ∀ id t, ht_table h !! id = Some t → ts_armed t = false
  | Some d => (∃ id t, ht_table h !! id = Some t ∧ ts_armed t = true ∧ ts_deadline_ns t = d) ∧
              (∀ id t, ht_table h !! id = Some t → ts_armed t = true → d ≤ ts_deadline_ns t)
  end.
Proof.
  intros Hok. pose proof (tm_index _ Hok) as Hi. unfold HartTimers_earliest_deadline.
  assert (Hkey : ∀ id t, ht_table h !! id = Some t → ts_armed t = true → ts_deadline_ns t ∈ sorted_keys (ht_queue h)).
  { intros id t Ht Ha. apply sorted_keys_elem.
    destruct (index_complete _ _ _ Hi _ _ Ht Ha) as [?|(es & Hq & _)]; [set_solver|eauto]. }
  pose proof (sorted_keys_sorted (ht_queue h)) as Hsort.
  destruct (sorted_keys (ht_queue h)) as [|d keys] eqn:Ek; simpl.
  - intros id t Ht. destruct (ts_armed t) eqn:Ea; [|done]. specialize (Hkey _ _ Ht Ea). set_solver.
  - split.
    + assert (Hd : d ∈ sorted_keys (ht_queue h)) by (rewrite Ek; by left).
      apply sorted_keys_elem in Hd as [es Hq]. destruct (index_sound _ _ _ Hi _ _ Hq) as (Hne & _ & Hall).
      destruct es as [|id es]; [done|]. destruct (Hall id) as (_ & t & Ht); [by left|]. eauto.
    + intros id t Ht Ha. apply StronglySorted_inv in Hsort as [_ Hmin]. rewrite Forall_forall in Hmin.
      specialize (Hkey _ _ Ht Ha). apply elem_of_cons in Hkey as [->|Hk]; [done|]. by apply Hmin.
Qed.

Lemma earliest_deadline_exact_witness :
  HartTimers_earliest_deadline pop_demo = Some 90 ∧
  ∃ id t, ht_table pop_demo !! id = Some t ∧ ts_armed t = true ∧ ts_deadline_ns t = 90.
Proof.
  split; [vm_compute; reflexivity|]. exact (proj1 (earliest_deadline_exact pop_demo pop_demo_ok)).
Defined.
