(* ===== verification/Sync.v ===== *)
(** * Fences and waitsets ([fence.rs], [waitset.rs])

    The bounded tables behind the two blocking objects of RFC-0033: timeline
    fences (a monotone [u64] value with a bounded set of waiters) and waitsets
    (a bounded, deduplicated set of endpoints). *)

From S2P Require Import Prelude IdAlloc.

(** ** Fences *)

Definition MAX_FENCES : nat := 64.
Definition MAX_FENCE_WAITERS : nat := 64.

Inductive FenceError := FenResourceExhausted | FenInvalidHandle.

Record FenceWaiter := mkFenceWaiter { fw_pid : Z; fw_target : Z }.

Record FenceEntry := mkFenceEntry {
  fe_owner_pid : Z;
  fe_value : Z;
  fe_waiters : list FenceWaiter
}.

Record FenceTable := mkFenceTable { ft_table : gmap Z FenceEntry; ft_next_id : Z }.

Definition FenceTable_new : FenceTable := mkFenceTable ∅ 1.

Definition ft_put (t : FenceTable) (id : Z) (e : FenceEntry) : FenceTable :=
  mkFenceTable (<[id := e]> (ft_table t)) (ft_next_id t).

(** [None]: the probe loop did not end within its fuel (it always does). *)
Definition FenceTable_alloc (t : FenceTable) (owner_pid : Z) : option (result Z FenceError * FenceTable) :=
  if bool_decide (MAX_FENCES ≤ size (ft_table t))%nat then Some (Err FenResourceExhausted, t)
  else match probe_id bump_skip_zero (S (size (ft_table t))) (ft_table t) (ft_next_id t) with
       | None => None
       | Some (id, next_id) =>
           Some (Ok id, mkFenceTable (<[id := mkFenceEntry owner_pid 0 []]> (ft_table t)) next_id)
       end.

Definition FenceTable_exists (t : FenceTable) (id : Z) : bool := bool_decide (is_Some (ft_table t !! id)).

Definition FenceTable_owned_by (t : FenceTable) (id pid : Z) : bool :=
  match ft_table t !! id with
  | Some e => fe_owner_pid e =? pid
  | None => false
  end.

Definition FenceTable_signal (t : FenceTable) (id v : Z) : result Z FenceError * FenceTable :=
  match ft_table t !! id with
  | None => (Err FenInvalidHandle, t)
  | Some e =>
      let value := if fe_value e <? v then v else fe_value e in
      (Ok value, ft_put t id (mkFenceEntry (fe_owner_pid e) value (fe_waiters e)))
  end.

Definition FenceTable_is_satisfied (t : FenceTable) (id target : Z) : option bool :=
  (fun e => target <=? fe_value e) <$> ft_table t !! id.

(** [waiters.iter_mut().find(|w| w.pid == pid)] with its target replaced. *)
Fixpoint retarget (pid target : Z) (ws : list FenceWaiter) : option (list FenceWaiter) :=
  match ws with
  | [] => None
  | w :: ws' =>
      if fw_pid w =? pid then Some (mkFenceWaiter (fw_pid w) target :: ws')
      else cons w <$> retarget pid target ws'
  end.

Definition fe_set_waiters (e : FenceEntry) (ws : list FenceWaiter) : FenceEntry :=
  mkFenceEntry (fe_owner_pid e) (fe_value e) ws.

Definition FenceTable_register_waiter (t : FenceTable) (id pid target : Z) : result unit FenceError * FenceTable :=
  match ft_table t !! id with
  | None => (Err FenInvalidHandle, t)
  | Some e =>
      match retarget pid target (fe_waiters e) with
      | Some ws => (Ok tt, ft_put t id (fe_set_waiters e ws))
      | None =>
          if bool_decide (MAX_FENCE_WAITERS ≤ length (fe_waiters e))%nat
          then (Err FenResourceExhausted, t)
          else (Ok tt, ft_put t id (fe_set_waiters e (fe_waiters e ++ [mkFenceWaiter pid target])))
      end
  end.

Definition FenceTable_remove_waiter (t : FenceTable) (id pid : Z) : FenceTable :=
  match ft_table t !! id with
  | None => t
  | Some e => ft_put t id (fe_set_waiters e (filter (fun w => fw_pid w ≠ pid) (fe_waiters e)))
  end.

(** The [while i < waiters.len()] loop: index [i], count [n], [out] the
    caller's buffer.  Each round removes a waiter or advances [i], so the number
    of waiters is enough fuel ([take_loop_fuel]). *)
Fixpoint take_loop (fuel : nat) (value : Z) (ws : list FenceWaiter) (out : list Z) (n i : nat) :
    nat * list Z * list FenceWaiter :=
  match fuel with
  | O => (n, out, ws)
  | S fuel' =>
      match ws !! i with
      | None => (n, out, ws)
      | Some w =>
          if ((fw_target w <=? value) && bool_decide (n < length out)%nat)%bool
          then take_loop fuel' value (delete i ws) (<[n := fw_pid w]> out) (S n) i
          else take_loop fuel' value ws out n (S i)
      end
  end.

Definition FenceTable_take_satisfied (t : FenceTable) (id : Z) (out : list Z) : nat * list Z * FenceTable :=
  match ft_table t !! id with
  | None => (0%nat, out, t)
  | Some e =>
      let '(n, out', ws) := take_loop (length (fe_waiters e)) (fe_value e) (fe_waiters e) out 0 0 in
      (n, out', ft_put t id (fe_set_waiters e ws))
  end.

Definition FenceTable_free (t : FenceTable) (id : Z) : result unit FenceError * FenceTable :=
  match ft_table t !! id with
  | None => (Err FenInvalidHandle, t)
  | Some _ => (Ok tt, mkFenceTable (delete id (ft_table t)) (ft_next_id t))
  end.

(** ** Waitsets *)

Definition MAX_WAITSETS : nat := 64.
Definition MAX_WAITSET_MEMBERS : nat := 32.

Inductive WaitsetError := WsResourceExhausted | WsInvalidHandle.

Record WaitsetEntry := mkWaitsetEntry { we_owner_pid : Z; we_members : list Z }.

Record WaitsetTable := mkWaitsetTable { wt_table : gmap Z WaitsetEntry; wt_next_id : Z }.

Definition WaitsetTable_new : WaitsetTable := mkWaitsetTable ∅ 1.

Definition WaitsetTable_alloc (t : WaitsetTable) (owner_pid : Z) :
    option (result Z WaitsetError * WaitsetTable) :=
  if bool_decide (MAX_WAITSETS ≤ size (wt_table t))%nat then Some (Err WsResourceExhausted, t)
  else match probe_id bump_skip_zero (S (size (wt_table t))) (wt_table t) (wt_next_id t) with
       | None => None
       | Some (id, next_id) =>
           Some (Ok id, mkWaitsetTable (<[id := mkWaitsetEntry owner_pid []]> (wt_table t)) next_id)
       end.

Definition WaitsetTable_add_member (t : WaitsetTable) (id endpoint : Z) :
    result unit WaitsetError * WaitsetTable :=
  match wt_table t !! id with
  | None => (Err WsInvalidHandle, t)
  | Some e =>
      if bool_decide (endpoint ∈ we_members e) then (Ok tt, t)
      else if bool_decide (MAX_WAITSET_MEMBERS ≤ length (we_members e))%nat
      then (Err WsResourceExhausted, t)
      else (Ok tt, mkWaitsetTable
                     (<[id := mkWaitsetEntry (we_owner_pid e) (we_members e ++ [endpoint])]> (wt_table t))
                     (wt_next_id t))
  end.

Definition WaitsetTable_members (t : WaitsetTable) (id : Z) : option (list Z) :=
  we_members <$> wt_table t !! id.

Definition WaitsetTable_owned_by (t : WaitsetTable) (id pid : Z) : bool :=
  match wt_table t !! id with
  | Some e => we_owner_pid e =? pid
  | None => false
  end.

Definition WaitsetTable_free (t : WaitsetTable) (id : Z) : result unit WaitsetError * WaitsetTable :=
  match wt_table t !! id with
  | None => (Err WsInvalidHandle, t)
  | Some _ => (Ok tt, mkWaitsetTable (delete id (wt_table t)) (wt_next_id t))
  end.

(** [members.iter().position(|&ep| is_ready(ep))]. *)
Definition first_ready (members : list Z) (is_ready : Z → bool) : option nat :=
  fst <$> list_find (fun ep => is_ready ep = true) members.

(** ** * Properties of fences and waitsets

    Bounds, uniqueness and monotonicity under every operation; the in-place
    removal loop of [take_satisfied] agrees with a reference definition, so a
    signal wakes exactly the waiters its value reaches. *)

(** ** Fences *)

Record fence_entry_ok (e : FenceEntry) : Prop := {
  fo_value : in_width 64 (fe_value e);
  fo_bound : (length (fe_waiters e) ≤ MAX_FENCE_WAITERS)%nat;
  fo_unique : NoDup (map fw_pid (fe_waiters e))
}.

Record fences_ok (t : FenceTable) : Prop := {
  fs_size : (size (ft_table t) ≤ MAX_FENCES)%nat;
  fs_next : 1 ≤ ft_next_id t < 2 ^ 32;
  fs_entries : ∀ id e, ft_table t !! id = Some e → 1 ≤ id < 2 ^ 32 ∧ fence_entry_ok e
}.

Lemma fences_new_ok : fences_ok FenceTable_new.
Proof.
  split; simpl; [rewrite map_size_empty; unfold MAX_FENCES; lia|lia|].
  intros id e. by rewrite lookup_empty.
Qed.

Lemma fences_put_ok t id e e' :
  fences_ok t → ft_table t !! id = Some e → fence_entry_ok e' → fences_ok (ft_put t id e').
Proof.
  intros [Hs Hn He] Hid Hok. split; simpl; [by rewrite map_size_insert_Some by eauto|done|].
  intros x ex. destruct (decide (id = x)) as [<-|Hne].
  - rewrite lookup_insert_eq. intros [= <-]. split; [|done]. by apply (He _ _ Hid).
  - rewrite lookup_insert_ne by done. apply He.
Qed.

Lemma retarget_spec pid target ws :
  match retarget pid target ws with
  | Some ws' => map fw_pid ws' = map fw_pid ws
  | None => ¬ pid ∈ map fw_pid ws
  end.
Proof.
  induction ws as [|w ws IH]; simpl; [set_solver|]. destruct (Z.eqb_spec (fw_pid w) pid) as [E|E]; [done|].
  destruct (retarget pid target ws) as [ws'|]; simpl; [by rewrite IH|].
  intros [?|?]%elem_of_cons; [congruence|done].
Qed.

Lemma fence_register_ok t id pid target :
  fences_ok t → fences_ok (FenceTable_register_waiter t id pid target).2.
Proof.
  intros Ht. unfold FenceTable_register_waiter. destruct (ft_table t !! id) as [e|] eqn:Ee; [|done].
  destruct (fs_entries _ Ht _ _ Ee) as [_ [Hv Hb Hu]]. pose proof (retarget_spec pid target (fe_waiters e)) as Hr.
  destruct (retarget pid target (fe_waiters e)) as [ws|].
  - apply (fences_put_ok _ _ e); [done..|]. split; simpl; [done| |by rewrite Hr].
    by rewrite <- (length_map fw_pid), Hr, length_map.
  - case_bool_decide; [done|]. apply (fences_put_ok _ _ e); [done..|]. split; simpl; [done| |].
    + rewrite length_app. simpl. lia.
    + rewrite map_app. apply NoDup_app. split_and!; [done| |apply NoDup_singleton].
      intros x Hx ->%list_elem_of_singleton. done.
Qed.

(** Dropping waiters keeps an entry well-formed. *)
Lemma fence_entry_sublist e ws :
  fence_entry_ok e → sublist ws (fe_waiters e) → fence_entry_ok (fe_set_waiters e ws).
Proof.
  intros [Hv Hb Hu] Hsub. split; simpl; [done| |].
  - apply sublist_length in Hsub. lia.
  - eapply sublist_NoDup; [exact Hu|]. clear -Hsub.
    induction Hsub as [|x l1 l2 _ IH|x l1 l2 _ IH]; simpl; by constructor.
Qed.

(** *** The reference for [take_satisfied] *)

(** Scan once; take a reached waiter while there is room. *)
Fixpoint take_ref (value : Z) (room : nat) (ws : list FenceWaiter) : list Z * list FenceWaiter :=
  match ws with
  | [] => ([], [])
  | w :: ws' =>
      match room with
      | S room' =>
          if fw_target w <=? value
          then let '(p, r) := take_ref value room' ws' in (fw_pid w :: p, r)
          else let '(p, r) := take_ref value room ws' in (p, w :: r)
      | O => ([], w :: ws')
      end
  end.

Lemma take_ref_no_room value ws : take_ref value 0 ws = ([], ws).
Proof. by destruct ws. Qed.

Lemma delete_middle_app {A} (l1 l2 : list A) x : delete (length l1) (l1 ++ x :: l2) = l1 ++ l2.
Proof. by rewrite delete_middle. Qed.

Lemma take_loop_ref fuel value pre suf o1 o2 :
  (length suf ≤ fuel)%nat →
  take_loop fuel value (pre ++ suf) (o1 ++ o2) (length o1) (length pre) =
  let '(p, r) := take_ref value (length o2) suf in
  ((length o1 + length p)%nat, o1 ++ p ++ drop (length p) o2, pre ++ r).
Proof.
  revert pre suf o1 o2. induction fuel as [|fuel IH]; intros pre suf o1 o2 Hl.
  { destruct suf; [|simpl in Hl; lia]. simpl. by rewrite Nat.add_0_r. }
  destruct suf as [|w suf]; simpl in Hl.
  { simpl. rewrite app_nil_r, lookup_ge_None_2 by done. by rewrite Nat.add_0_r. }
  cbn [take_loop]. rewrite list_lookup_middle by done. rewrite length_app.
  destruct o2 as [|x o2]; simpl length; rewrite ?Nat.add_0_r.
  - rewrite bool_decide_false by lia. rewrite andb_false_r. cbn [take_ref].
    replace (pre ++ w :: suf) with ((pre ++ [w]) ++ suf) by (by rewrite <- app_assoc).
    replace (S (length pre)) with (length (pre ++ [w])) by (rewrite length_app; simpl; lia).
    rewrite (IH (pre ++ [w]) suf o1 []) by lia. simpl length. rewrite take_ref_no_room. simpl.
    by rewrite <- app_assoc.
  - rewrite bool_decide_true by lia. rewrite andb_true_r. cbn [take_ref].
    destruct (fw_target w <=? value).
    + rewrite delete_middle_app.
      replace (<[length o1:=fw_pid w]> (o1 ++ x :: o2)) with ((o1 ++ [fw_pid w]) ++ o2)
        by (rewrite <- app_assoc, <- (Nat.add_0_r (length o1)), insert_app_r; done).
      replace (S (length o1)) with (length (o1 ++ [fw_pid w])) by (rewrite length_app; simpl; lia).
      rewrite IH by lia. destruct (take_ref value (length o2) suf) as [p r]. simpl.
      rewrite length_app, <- !app_assoc. simpl. f_equal. f_equal. lia.
    + replace (pre ++ w :: suf) with ((pre ++ [w]) ++ suf) by (by rewrite <- app_assoc).
      replace (S (length pre)) with (length (pre ++ [w])) by (rewrite length_app; simpl; lia).
      rewrite (IH (pre ++ [w]) suf o1 (x :: o2)) by lia. simpl length.
      destruct (take_ref value (S (length o2)) suf) as [p r]. by rewrite <- app_assoc.
Qed.

Lemma take_ref_sublist value room ws : sublist (take_ref value room ws).2 ws.
Proof.
  revert room. induction ws as [|w ws IH]; intros room; simpl; [constructor|].
  destruct room as [|room]; [done|]. destruct (fw_target w <=? value).
  - specialize (IH room). destruct (take_ref value room ws). by constructor.
  - specialize (IH (S room)). destruct (take_ref value (S room) ws). by constructor.
Qed.

(** With room for every waiter, the scan partitions them by their target. *)
Lemma take_ref_partition value room ws :
  (length ws ≤ room)%nat →
  take_ref value room ws =
  (map fw_pid (filter (fun w => fw_target w ≤ value) ws), filter (fun w => value < fw_target w) ws).
Proof.
  revert room. induction ws as [|w ws IH]; intros room Hl; simpl in *; [done|].
  destruct room as [|room]; [lia|]. rewrite !filter_cons. destruct (Z.leb_spec (fw_target w) value).
  - rewrite decide_True, decide_False by lia. rewrite IH by lia. done.
  - rewrite decide_False, decide_True by lia. rewrite IH by lia. done.
Qed.

Lemma take_satisfied_eq t id out e :
  ft_table t !! id = Some e →
  FenceTable_take_satisfied t id out =
  let '(p, r) := take_ref (fe_value e) (length out) (fe_waiters e) in
  (length p, p ++ drop (length p) out, ft_put t id (fe_set_waiters e r)).
Proof.
  intros He. unfold FenceTable_take_satisfied. rewrite He.
  pose proof (take_loop_ref (length (fe_waiters e)) (fe_value e) [] (fe_waiters e) [] out) as H.
  simpl in H. rewrite H by lia. by destruct (take_ref _ _ _).
Qed.

(** *** Invariant and monotonicity *)

Inductive fence_op :=
| FAlloc (owner : Z) | FSignal (id v : Z) | FRegister (id pid target : Z) | FRemove (id pid : Z)
| FTake (id : Z) (out : list Z) | FFree (id : Z).

Definition fence_op_wf (op : fence_op) : Prop :=
  match op with FSignal _ v => in_width 64 v | _ => True end.

(** [None] only if an operation does not end. *)
Definition fence_step (t : FenceTable) (op : fence_op) : option FenceTable :=
  match op with
  | FAlloc owner => snd <$> FenceTable_alloc t owner
  | FSignal id v => Some (FenceTable_signal t id v).2
  | FRegister id pid target => Some (FenceTable_register_waiter t id pid target).2
  | FRemove id pid => Some (FenceTable_remove_waiter t id pid)
  | FTake id out => Some (FenceTable_take_satisfied t id out).2
  | FFree id => Some (FenceTable_free t id).2
  end.

Lemma fence_alloc_cases t owner :
  fences_ok t →
  (FenceTable_alloc t owner = Some (Err FenResourceExhausted, t) ∧ size (ft_table t) = MAX_FENCES) ∨
  (∃ id next', (size (ft_table t) < MAX_FENCES)%nat ∧ ft_table t !! id = None ∧ 1 ≤ id < 2 ^ 32 ∧
     1 ≤ next' < 2 ^ 32 ∧
     FenceTable_alloc t owner =
       Some (Ok id, mkFenceTable (<[id := mkFenceEntry owner 0 []]> (ft_table t)) next')).
Proof.
  intros [Hsz Hn _]. unfold FenceTable_alloc. case_bool_decide as Hc; [left; split; [done|lia]|right].
  assert (Hx : 1 ≤ ft_next_id t < 1 + (2 ^ 32 - 1)) by lia.
  destruct (probe_id_total bump_skip_zero 1 (2 ^ 32 - 1) (ft_table t) (ft_next_id t) Hx) as [[id next'] E];
    [unfold MAX_FENCES in *; lia|].
  destruct (probe_id_some bump_skip_zero 1 (2 ^ 32 - 1) _ _ _ _ _ Hx E) as (Hnone & Hid & Hnx).
  exists id, next'. rewrite E. split_and!; try done; lia.
Qed.

(** A table change that keeps every entry's value or raises it. *)
Definition values_grow (t t' : FenceTable) : Prop :=
  ∀ id e e', ft_table t !! id = Some e → ft_table t' !! id = Some e' → fe_value e ≤ fe_value e'.

Lemma values_grow_refl t : values_grow t t.
Proof. intros id e e' H H'. rewrite H in H'. by simplify_eq. Qed.

Lemma values_grow_put t id e e' :
  ft_table t !! id = Some e → fe_value e ≤ fe_value e' → values_grow t (ft_put t id e').
Proof.
  intros He Hle x ex ex' Hx. simpl. destruct (decide (id = x)) as [<-|Hne].
  - rewrite lookup_insert_eq. intros [= <-]. by simplify_eq.
  - rewrite lookup_insert_ne by done. intros Hx'. by simplify_eq.
Qed.
#[export] Hint Resolve values_grow_refl values_grow_put : neuron.

Lemma fence_step_ok t op :
  fences_ok t → fence_op_wf op → ∃ t', fence_step t op = Some t' ∧ fences_ok t' ∧ values_grow t t'.
Proof.
  intros Ht Hwf. destruct op as [owner|id v|id pid target|id pid|id out|id]; simpl in *.
  - destruct (fence_alloc_cases t owner Ht) as [[-> _]|(id & nx & Hsz & Hnone & Hid & Hnx & ->)]; simpl;
      [eauto with neuron|]. eexists. split; [done|]. split.
    + split; simpl; [rewrite map_size_insert_None by done; lia|done|]. intros x e.
      destruct (decide (id = x)) as [<-|Hne].
      * rewrite lookup_insert_eq. intros [= <-]. split; [done|].
        split; simpl; [unfold in_width; lia|lia|constructor].
      * rewrite lookup_insert_ne by done. apply (fs_entries _ Ht).
    + intros x e e' Hx. simpl. rewrite lookup_insert_ne by congruence. intros Hx'. by simplify_eq.
  - unfold FenceTable_signal. destruct (ft_table t !! id) as [e|] eqn:Ee; simpl; [|eauto with neuron].
    destruct (fs_entries _ Ht _ _ Ee) as [_ [Hv Hb Hu]]. eexists. split; [done|].
    destruct (Z.ltb_spec (fe_value e) v); (split; [apply (fences_put_ok _ _ e); [done..|by split]|
      apply (values_grow_put _ _ e); [done|simpl; lia]]).
  - eexists. split; [done|]. split; [by apply fence_register_ok|]. unfold FenceTable_register_waiter.
    destruct (ft_table t !! id) as [e|] eqn:Ee; simpl; [|auto with neuron].
    destruct (retarget _ _ _); [|case_bool_decide]; simpl; eauto with neuron;
      (apply (values_grow_put _ _ e); [done|simpl; lia]).
  - unfold FenceTable_remove_waiter. destruct (ft_table t !! id) as [e|] eqn:Ee; [|eauto with neuron].
    eexists. split; [done|]. split; [|apply (values_grow_put _ _ e); [done|simpl; lia]].
    apply (fences_put_ok _ _ e); [done..|]. apply fence_entry_sublist; [by apply (fs_entries _ Ht id)|].
    apply sublist_filter.
  - destruct (ft_table t !! id) as [e|] eqn:Ee.
    + rewrite (take_satisfied_eq _ _ _ _ Ee). pose proof (take_ref_sublist (fe_value e) (length out) (fe_waiters e)) as Hsub.
      destruct (take_ref _ _ _) as [p r]. simpl in *. eexists. split; [done|].
      split; [|apply (values_grow_put _ _ e); [done|simpl; lia]].
      apply (fences_put_ok _ _ e); [done..|]. apply fence_entry_sublist; [by apply (fs_entries _ Ht id)|done].
    + unfold FenceTable_take_satisfied. rewrite Ee. simpl. eauto with neuron.
  - unfold FenceTable_free. destruct (ft_table t !! id) as [e|] eqn:Ee; simpl; [|eauto with neuron].
    destruct Ht as [Hs Hn He]. eexists. split; [done|]. split.
    + split; simpl; [rewrite map_size_delete_Some by eauto; lia|done|].
      intros x ex. rewrite lookup_delete_Some. intros [_ Hx]. by apply He.
    + intros x ex ex' Hx. simpl. rewrite lookup_delete_Some. intros [_ Hx']. by simplify_eq.
Qed.

Fixpoint fence_run (t : FenceTable) (ops : list fence_op) : option FenceTable :=
  match ops with
  | [] => Some t
  | op :: ops' => t' ← fence_step t op; fence_run t' ops'
  end.

(** What an operation contributes to the value of fence [id]. *)
Definition signal_effect (id : Z) (op : fence_op) (value : Z) : Z :=
  match op with
  | FSignal id' v => if id' =? id then Z.max value v else value
  | _ => value
  end.

Lemma lookup_put t id e id' : ft_table (ft_put t id e) !! id' = if decide (id = id') then Some e else ft_table t !! id'.
Proof. simpl. case_decide; [subst; by rewrite lookup_insert_eq|by rewrite lookup_insert_ne]. Qed.

(** An entry replaced by one with the same value keeps every value. *)
Lemma put_same_value t id e e1 x ex :
  ft_table t !! id = Some e → fe_value e1 = fe_value e → ft_table t !! x = Some ex →
  ∃ e', ft_table (ft_put t id e1) !! x = Some e' ∧ fe_value e' = fe_value ex.
Proof. intros He Hv Hx. rewrite lookup_put. case_decide; [simplify_eq|]; eauto. Qed.

Lemma fence_step_value t op t' x ex :
  fences_ok t → fence_step t op = Some t' → op ≠ FFree x → ft_table t !! x = Some ex →
  ∃ e', ft_table t' !! x = Some e' ∧ fe_value e' = signal_effect x op (fe_value ex).
Proof.
  intros Ht Hst Hnf Hx. destruct op as [owner|id v|id pid target|id pid|id out|id]; simpl in *.
  - destruct (fence_alloc_cases t owner Ht) as [[E _]|(id & nx & _ & Hnone & _ & _ & E)]; rewrite E in Hst;
      simplify_eq/=; [eauto|]. rewrite lookup_insert_ne by congruence. eauto.
  - unfold FenceTable_signal in Hst. destruct (ft_table t !! id) as [e|] eqn:Ee; simplify_eq/=.
    + destruct (Z.eqb_spec id x) as [->|Hne].
      * rewrite lookup_insert_eq. simplify_eq. eexists. split; [done|]. simpl.
        destruct (Z.ltb_spec (fe_value e) v); lia.
      * rewrite lookup_insert_ne by done. eauto.
    + destruct (Z.eqb_spec id x); [congruence|eauto].
  - unfold FenceTable_register_waiter in Hst. destruct (ft_table t !! id) as [e|] eqn:Ee; simplify_eq/=; [|eauto].
    destruct (retarget _ _ _); [|case_bool_decide]; cbn [snd]; try (by apply (put_same_value t id e)). eauto.
  - unfold FenceTable_remove_waiter in Hst. destruct (ft_table t !! id) as [e|] eqn:Ee; simplify_eq/=; [|eauto].
    by apply (put_same_value t id e).
  - destruct (ft_table t !! id) as [e|] eqn:Ee.
    + rewrite (take_satisfied_eq _ _ _ _ Ee) in Hst. destruct (take_ref _ _ _) as [p r].
      simplify_eq/=. by apply (put_same_value t id e).
    + unfold FenceTable_take_satisfied in Hst. rewrite Ee in Hst. simplify_eq/=. eauto.
  - unfold FenceTable_free in Hst. destruct (ft_table t !! id) as [e|] eqn:Ee; simplify_eq/=; [|eauto].
    rewrite lookup_delete_ne by congruence. eauto.
Qed.

Lemma fence_run_ok t ops : fences_ok t → Forall fence_op_wf ops → ∃ t', fence_run t ops = Some t' ∧ fences_ok t'.
Proof.
  intros Ht Hops. revert t Ht. induction Hops as [|op ops Hop _ IH]; intros t Ht; simpl; [eauto|].
  destruct (fence_step_ok t op Ht Hop) as (t' & -> & Ht' & _). simpl. auto.
Qed.

(** Fences are timelines.  Every sequence of operations on a well-formed
    fence table terminates and keeps it well-formed (at most 64 fences and 64
    waiters per fence, one waiter per task, 64-bit values), and as long as a
    fence is not freed its value is exactly the maximum of its old value and
    everything signalled to it; no other operation touches it. *)
Theorem fence_timeline t ops x ex :
  fences_ok t → Forall fence_op_wf ops → Forall (fun op => op ≠ FFree x) ops → ft_table t !! x = Some ex →
  ∃ t' e', fence_run t ops = Some t' ∧ fences_ok t' ∧ ft_table t' !! x = Some e' ∧
           fe_value e' = foldl (fun v op => signal_effect x op v) (fe_value ex) ops.
Proof.
  intros Ht Hwf Hnf. revert t ex Ht. induction ops as [|op ops IH]; intros t ex Ht Hx; simpl; [eauto 6|].
  apply Forall_cons in Hwf as [Hop Hwf], Hnf as [Hne Hnf].
  destruct (fence_step_ok t op Ht Hop) as (t1 & Hst & Ht1 & _).
  destruct (fence_step_value t op t1 x ex Ht Hst Hne Hx) as (e1 & Hx1 & Hv).
  rewrite Hst. simpl. destruct (IH Hwf Hnf t1 e1 Ht1 Hx1) as (t' & e' & ? & ? & ? & Hfin).
  exists t', e'. split_and!; try done. by rewrite Hfin, Hv.
Qed.

Definition fence_demo : FenceTable := default FenceTable_new (fence_run FenceTable_new [FAlloc 4; FRegister 1 9 5; FRegister 1 8 7]).

Lemma fence_demo_ok : fences_ok fence_demo.
Proof.
  destruct (fence_run_ok FenceTable_new [FAlloc 4; FRegister 1 9 5; FRegister 1 8 7] fences_new_ok)
    as (t & E & Ht); [by repeat constructor|]. unfold fence_demo. by rewrite E.
Qed.

Lemma fence_timeline_witness :
  ∃ t' e', fence_run fence_demo [FSignal 1 5; FTake 1 [0; 0]; FSignal 1 3] = Some t' ∧ fences_ok t' ∧
           ft_table t' !! 1 = Some e' ∧ fe_value e' = 5.
Proof.
  apply (fence_timeline fence_demo [FSignal 1 5; FTake 1 [0; 0]; FSignal 1 3] 1
           (mkFenceEntry 4 0 [mkFenceWaiter 9 5; mkFenceWaiter 8 7])).
  - apply fence_demo_ok.
  - repeat constructor; simpl; lia.
  - repeat constructor; discriminate.
  - reflexivity.
Defined.

(** *** Signalling *)

(** The table part of [sys_fence_signal]: advance the value, then take every
    reached waiter into a buffer of [MAX_FENCE_WAITERS] slots. *)
Definition fence_signal_and_take (t : FenceTable) (id value : Z) : result (list Z) FenceError * FenceTable :=
  match FenceTable_signal t id value with
  | (Err e, t1) => (Err e, t1)
  | (Ok _, t1) =>
      let '(n, woken, t2) := FenceTable_take_satisfied t1 id (replicate MAX_FENCE_WAITERS 0) in
      (Ok (take n woken), t2)
  end.

(** No lost and no spurious wake-up: signalling a fence wakes exactly the
    registered tasks whose target the new value reaches, in registration
    order, and leaves registered exactly those whose target is still ahead;
    the in-place removal loop and its fixed buffer of 64 never cut this short. *)
Theorem fence_signal_wakes_exactly t id v e :
  fences_ok t → ft_table t !! id = Some e →
  let value := Z.max (fe_value e) v in
  fence_signal_and_take t id v =
    (Ok (map fw_pid (filter (fun w => fw_target w ≤ value) (fe_waiters e))),
     ft_put t id (mkFenceEntry (fe_owner_pid e) value (filter (fun w => value < fw_target w) (fe_waiters e)))).
Proof.
  intros Ht He value. unfold fence_signal_and_take, FenceTable_signal. rewrite He.
  replace (if fe_value e <? v then v else fe_value e) with value
    by (unfold value; destruct (Z.ltb_spec (fe_value e) v); lia).
  set (e1 := mkFenceEntry _ _ _). rewrite (take_satisfied_eq _ _ _ e1) by (simpl; by rewrite lookup_insert_eq).
  destruct (fs_entries _ Ht _ _ He) as [_ [_ Hb _]].
  rewrite take_ref_partition by (rewrite length_replicate; done). simpl.
  rewrite take_app_length. f_equal. unfold ft_put. simpl. by rewrite insert_insert_eq.
Qed.

Lemma fence_signal_wakes_exactly_witness :
  (fence_signal_and_take fence_demo 1 5).1 = Ok [9].
Proof.
  rewrite (fence_signal_wakes_exactly fence_demo 1 5 (mkFenceEntry 4 0 [mkFenceWaiter 9 5; mkFenceWaiter 8 7]));
    [reflexivity|apply fence_demo_ok|reflexivity].
Defined.

(** ** Waitsets *)

Record waitsets_ok (t : WaitsetTable) : Prop := {
  wo_size : (size (wt_table t) ≤ MAX_WAITSETS)%nat;
  wo_next : 1 ≤ wt_next_id t < 2 ^ 32;
  wo_entries : ∀ id e, wt_table t !! id = Some e →
    1 ≤ id < 2 ^ 32 ∧ NoDup (we_members e) ∧ (length (we_members e) ≤ MAX_WAITSET_MEMBERS)%nat
}.

Inductive waitset_op := WAlloc (owner : Z) | WAdd (id endpoint : Z) | WFree (id : Z).

Definition waitset_step (t : WaitsetTable) (op : waitset_op) : option WaitsetTable :=
  match op with
  | WAlloc owner => snd <$> WaitsetTable_alloc t owner
  | WAdd id endpoint => Some (WaitsetTable_add_member t id endpoint).2
  | WFree id => Some (WaitsetTable_free t id).2
  end.

Fixpoint waitset_run (t : WaitsetTable) (ops : list waitset_op) : option WaitsetTable :=
  match ops with
  | [] => Some t
  | op :: ops' => t' ← waitset_step t op; waitset_run t' ops'
  end.

Lemma waitsets_new_ok : waitsets_ok WaitsetTable_new.
Proof.
  split; simpl; [rewrite map_size_empty; unfold MAX_WAITSETS; lia|lia|].
  intros id e. by rewrite lookup_empty.
Qed.

Lemma waitset_alloc_cases t owner :
  waitsets_ok t →
  (WaitsetTable_alloc t owner = Some (Err WsResourceExhausted, t) ∧ size (wt_table t) = MAX_WAITSETS) ∨
  (∃ id next', (size (wt_table t) < MAX_WAITSETS)%nat ∧ wt_table t !! id = None ∧ 1 ≤ id < 2 ^ 32 ∧
     1 ≤ next' < 2 ^ 32 ∧
     WaitsetTable_alloc t owner =
       Some (Ok id, mkWaitsetTable (<[id := mkWaitsetEntry owner []]> (wt_table t)) next')).
Proof.
  intros [Hsz Hn _]. unfold WaitsetTable_alloc. case_bool_decide as Hc; [left; split; [done|lia]|right].
  assert (Hx : 1 ≤ wt_next_id t < 1 + (2 ^ 32 - 1)) by lia.
  destruct (probe_id_total bump_skip_zero 1 (2 ^ 32 - 1) (wt_table t) (wt_next_id t) Hx) as [[id next'] E];
    [unfold MAX_WAITSETS in *; lia|].
  destruct (probe_id_some bump_skip_zero 1 (2 ^ 32 - 1) _ _ _ _ _ Hx E) as (Hnone & Hid & Hnx).
  exists id, next'. rewrite E. split_and!; try done; lia.
Qed.

(** [add_member] on every branch. *)
Lemma add_member_cases t id endpoint :
  match wt_table t !! id with
  | None => WaitsetTable_add_member t id endpoint = (Err WsInvalidHandle, t)
  | Some e =>
      (endpoint ∈ we_members e ∧ WaitsetTable_add_member t id endpoint = (Ok tt, t)) ∨
      (¬ endpoint ∈ we_members e ∧ (MAX_WAITSET_MEMBERS ≤ length (we_members e))%nat ∧
       WaitsetTable_add_member t id endpoint = (Err WsResourceExhausted, t)) ∨
      (¬ endpoint ∈ we_members e ∧ (length (we_members e) < MAX_WAITSET_MEMBERS)%nat ∧
       WaitsetTable_add_member t id endpoint =
         (Ok tt, mkWaitsetTable (<[id := mkWaitsetEntry (we_owner_pid e) (we_members e ++ [endpoint])]> (wt_table t))
                   (wt_next_id t)))
  end.
Proof.
  unfold WaitsetTable_add_member. destruct (wt_table t !! id) as [e|]; [|done].
  case_bool_decide; [by left|right]. case_bool_decide; [left|right]; split_and!; try done; lia.
Qed.

Lemma waitset_step_ok t op : waitsets_ok t → ∃ t', waitset_step t op = Some t' ∧ waitsets_ok t'.
Proof.
  intros Ht. destruct op as [owner|id ep|id]; simpl.
  - destruct (waitset_alloc_cases t owner Ht) as [[-> _]|(id & nx & Hsz & Hnone & Hid & Hnx & ->)]; simpl; [eauto|].
    destruct Ht as [Hs Hn He]. eexists. split; [done|]. split; simpl; [rewrite map_size_insert_None by done; lia|done|].
    intros x e. destruct (decide (id = x)) as [<-|Hne].
    + rewrite lookup_insert_eq. intros [= <-]. split_and!; simpl; try lia. constructor.
    + rewrite lookup_insert_ne by done. apply He.
  - pose proof (add_member_cases t id ep) as H. destruct (wt_table t !! id) as [e|] eqn:Ee; [|rewrite H; eauto].
    destruct H as [[_ ->]|[(_ & _ & ->)|(Hni & Hl & ->)]]; [eauto..|].
    destruct Ht as [Hs Hn He]. destruct (He _ _ Ee) as (Hid & Hnd & _). eexists. split; [done|].
    split; simpl; [by rewrite map_size_insert_Some by eauto|done|].
    intros x ex. destruct (decide (id = x)) as [<-|Hne].
    + rewrite lookup_insert_eq. intros [= <-]. simpl. split_and!; try lia; [|rewrite length_app; simpl; lia].
      apply NoDup_app. split_and!; [done| |apply NoDup_singleton]. intros y Hy ->%list_elem_of_singleton. done.
    + rewrite lookup_insert_ne by done. apply He.
  - unfold WaitsetTable_free. destruct (wt_table t !! id) as [e|] eqn:Ee; simpl; [|eauto].
    destruct Ht as [Hs Hn He]. eexists. split; [done|].
    split; simpl; [rewrite map_size_delete_Some by eauto; lia|done|].
    intros x ex. rewrite lookup_delete_Some. intros [_ Hx]. by apply He.
Qed.

(** Every sequence of waitset operations from the empty table terminates and
    keeps the table bounded (64 waitsets, 32 members each) and every member set
    free of duplicates, and the level-ready scan over such a set returns the
    first ready member in insertion order, or nothing exactly when no member
    is ready. *)
Theorem waitsets_bounded_and_scanned ops is_ready :
  ∃ t, waitset_run WaitsetTable_new ops = Some t ∧ waitsets_ok t ∧
    ∀ id members, WaitsetTable_members t id = Some members →
      match first_ready members is_ready with
      | Some i => ∃ ep, members !! i = Some ep ∧ is_ready ep = true ∧
                        ∀ j ep', (j < i)%nat → members !! j = Some ep' → is_ready ep' = false
      | None => ∀ ep, ep ∈ members → is_ready ep = false
      end.
Proof.
  assert (Hrun : ∀ t, waitsets_ok t → ∃ t', waitset_run t ops = Some t' ∧ waitsets_ok t').
  { induction ops as [|op ops IH]; intros t Ht; simpl; [eauto|].
    destruct (waitset_step_ok t op Ht) as (t1 & -> & Ht1). simpl. auto. }
  destruct (Hrun _ waitsets_new_ok) as (t & Hr & Ht). exists t. split_and!; [done..|].
  intros id members _. unfold first_ready. destruct (list_find _ members) as [[i ep]|] eqn:E; simpl.
  - apply list_find_Some in E as (Hi & Hrdy & Hmin). exists ep. split_and!; try done.
    intros j ep' Hj Hl. specialize (Hmin _ _ Hl Hj). by destruct (is_ready ep').
  - apply list_find_None in E. rewrite Forall_forall in E. intros ep Hep. specialize (E _ Hep).
    by destruct (is_ready ep).
Qed.
