(* ===== verification/PageTable.v ===== *)
(** * Sv39 page tables ([source/kernel/neuron/src/mm/page_table.rs])

    Three-level page tables whose intermediate pages are allocated on demand.
    Memory is a finite map from the address of a page-table page to its 512
    entries, shared by all page tables.  The heap allocator behind [Box::new]
    is not part of the repository's own sources: it is the argument [alloc],
    the address the next allocation returns (or [None], on which the kernel
    aborts); [PageAllocator] states what the code relies on.

    The default feature set is modelled: no static root page and no static
    pool.  Allocation statistics are left out. *)

From S2P Require Import Prelude.

Definition PAGE_SIZE : Z := 4096.
Definition PT_ENTRIES : nat := 512.
Definition HUGE_PAGE_SIZE_2M : Z := 2 * 1024 * 1024.

(** ** Flags *)

Definition PF_VALID : Z := 1.
Definition PF_READ : Z := 2.
Definition PF_WRITE : Z := 4.
Definition PF_EXECUTE : Z := 8.
Definition PF_USER : Z := 16.
Definition PF_GLOBAL : Z := 32.
Definition PF_ACCESSED : Z := 64.
Definition PF_DIRTY : Z := 128.
Definition LEAF_PERMS : Z := 14.

Inductive MapError := MapUnaligned | MapOutOfRange | MapPermissionDenied | MapOverlap | MapInvalidFlags.

(** [entry & mask != 0]. *)
Definition has_bits (entry mask : Z) : bool := bits_intersect entry mask.

(** ** Memory *)

Abbreviation PtMem := (gmap Z (list Z)).

Definition PageTablePage_new : list Z := replicate PT_ENTRIES 0.

(** [entries[index]] as a read and as a write.  Following a pointer that is not
    a page-table page is undefined behaviour in the source; the invariant of
    [PageTableProps] excludes it, and the model reads 0 there. *)
Definition pt_read (m : PtMem) (table : Z) (index : nat) : Z := default 0 (m !! table ≫= (.!! index)).
Definition pt_write (m : PtMem) (table : Z) (index : nat) (entry : Z) : PtMem :=
  match m !! table with
  | Some es => <[table := <[index := entry]> es]> m
  | None => m
  end.

Record PageTable := mkPageTable { pt_root : Z; pt_owned : list Z }.

(** [(entry >> 10) << 12] on [usize]. *)
Definition next_table (entry : Z) : Z := Z.shiftl (Z.shiftr entry 10) 12 mod 2 ^ 64.

(** [(ppn << 10) | flags] on [usize]. *)
Definition make_entry (addr flags : Z) : Z := Z.lor (Z.shiftl (addr / PAGE_SIZE) 10 mod 2 ^ 64) flags.

Definition vpn_indices (va : Z) : list nat :=
  [Z.to_nat (Z.land (Z.shiftr va 30) 511); Z.to_nat (Z.land (Z.shiftr va 21) 511);
   Z.to_nat (Z.land (Z.shiftr va 12) 511)].

Arguments vpn_indices : simpl never.

Definition is_canonical_sv39 (va : Z) : bool :=
  let sign := Z.land (Z.shiftr va 38) 1 in
  let upper := Z.shiftr va 39 in
  if sign =? 0 then upper =? 0 else upper =? Z.shiftr (max_of 64) 39.

(** ** Walking *)

(** Where the loop [for (level, index) in indices] of the read and flag
    operations stops. *)
Inductive walk_end :=
| WInvalid                                          (* an entry without VALID *)
| WLeaf (level : nat) (table : Z) (index : nat) (entry : Z)
| WDead.                                            (* a null pointer, or a non-leaf at the last level *)

Fixpoint pt_walk (m : PtMem) (level : nat) (table : Z) (indices : list nat) : walk_end :=
  match indices with
  | [] => WDead
  | index :: rest =>
      let entry := pt_read m table index in
      if negb (has_bits entry PF_VALID) then WInvalid
      else if has_bits entry LEAF_PERMS then WLeaf level table index entry
      else let next := next_table entry in
           if next =? 0 then WDead else pt_walk m (S level) next rest
  end.

Definition PageTable_lookup (m : PtMem) (p : PageTable) (va : Z) : option Z :=
  if (negb (va mod PAGE_SIZE =? 0) || negb (is_canonical_sv39 va))%bool then None
  else match pt_walk m 0 (pt_root p) (vpn_indices va) with
       | WLeaf _ _ _ entry => Some entry
       | _ => None
       end.

(** The physical address a leaf entry at a level gives to [va]. *)
Definition leaf_translate (level : nat) (entry va : Z) : Z :=
  let ppn := Z.shiftr entry 10 in
  let page_shift := 12 + (2 - Z.of_nat level) * 9 in
  let page_size := Z.shiftl 1 page_shift in
  let phys_base := Z.land (Z.shiftl ppn 12 mod 2 ^ 64) (Z.lnot (page_size - 1)) in
  let offset := Z.land va (page_size - 1) in
  Z.lor phys_base offset.

Definition PageTable_translate (m : PtMem) (p : PageTable) (va : Z) : option Z :=
  if negb (is_canonical_sv39 va) then None
  else match pt_walk m 0 (pt_root p) (vpn_indices va) with
       | WLeaf level _ _ entry => Some (leaf_translate level entry va)
       | _ => None
       end.

Definition PageTable_leaf_flags (m : PtMem) (p : PageTable) (va : Z) : result Z MapError :=
  if (negb (va mod PAGE_SIZE =? 0) || negb (is_canonical_sv39 va))%bool then Err MapOutOfRange
  else match pt_walk m 0 (pt_root p) (vpn_indices va) with
       | WLeaf _ _ _ entry => Ok (Z.land (Z.land entry 1023) 255)
       | _ => Err MapOutOfRange
       end.

(** ** Mapping *)

(** [Box::new(PageTablePage::new())]; [None]: out of memory, the kernel aborts. *)
Definition alloc_page (alloc : PtMem → option Z) (m : PtMem) : option (Z * PtMem) :=
  match alloc m with
  | Some a => Some (a, <[a := PageTablePage_new]> m)
  | None => None
  end.

Definition PageTable_new (alloc : PtMem → option Z) (m : PtMem) : option (PageTable * PtMem) :=
  match alloc_page alloc m with
  | Some (root, m') => Some (mkPageTable root [root], m')
  | None => None
  end.

(** The argument checks shared by [map] and [map_2m]. *)
Definition map_checks (size va pa flags : Z) : option MapError :=
  if (negb (va mod size =? 0) || negb (pa mod size =? 0))%bool then Some MapUnaligned
  else if negb (is_canonical_sv39 va) then Some MapOutOfRange
  else if ((Z.land flags LEAF_PERMS =? 0) || negb (bits_contain flags PF_VALID))%bool then Some MapInvalidFlags
  else if (bits_contain flags PF_WRITE && bits_contain flags PF_EXECUTE)%bool then Some MapPermissionDenied
  else None.

Definition effective_flags (flags : Z) : Z :=
  let f := Z.lor flags PF_ACCESSED in
  if bits_contain flags PF_WRITE then Z.lor f PF_DIRTY else f.

(** The walk of [map] (leaf level 2) and [map_2m] (leaf level 1): descend,
    allocating missing tables, and install [leaf] at the leaf level.
    [fallthrough] is what follows the loop. *)
Fixpoint map_loop (alloc : PtMem → option Z) (leaf_level : nat) (leaf : Z) (fallthrough : result unit MapError)
    (m : PtMem) (owned : list Z) (level : nat) (table : Z) (indices : list nat) :
    option (result unit MapError * PtMem * list Z) :=
  match indices with
  | [] => Some (fallthrough, m, owned)
  | index :: rest =>
      let entry := pt_read m table index in
      if bool_decide (level = leaf_level) then
        if has_bits entry PF_VALID then Some (Err MapOverlap, m, owned)
        else Some (Ok tt, pt_write m table index leaf, owned)
      else if has_bits entry PF_VALID then
        if has_bits entry LEAF_PERMS then Some (Err MapOverlap, m, owned)
        else let next := next_table entry in
             if next =? 0 then Some (Err MapOutOfRange, m, owned)
             else map_loop alloc leaf_level leaf fallthrough m owned (S level) next rest
      else match alloc_page alloc m with
           | None => None
           | Some (next, m1) =>
               map_loop alloc leaf_level leaf fallthrough
                 (pt_write m1 table index (make_entry next PF_VALID)) (owned ++ [next]) (S level) next rest
           end
  end.

Definition map_result (p : PageTable) (r : option (result unit MapError * PtMem * list Z)) :
    option (result unit MapError * PtMem * PageTable) :=
  match r with
  | Some (res, m, owned) => Some (res, m, mkPageTable (pt_root p) owned)
  | None => None
  end.

Definition PageTable_map (alloc : PtMem → option Z) (m : PtMem) (p : PageTable) (va pa flags : Z) :
    option (result unit MapError * PtMem * PageTable) :=
  match map_checks PAGE_SIZE va pa flags with
  | Some e => Some (Err e, m, p)
  | None =>
      map_result p (map_loop alloc 2 (make_entry pa (effective_flags flags)) (Ok tt) m (pt_owned p) 0
                      (pt_root p) (vpn_indices va))
  end.

Definition PageTable_map_2m (alloc : PtMem → option Z) (m : PtMem) (p : PageTable) (va pa flags : Z) :
    option (result unit MapError * PtMem * PageTable) :=
  match map_checks HUGE_PAGE_SIZE_2M va pa flags with
  | Some e => Some (Err e, m, p)
  | None =>
      map_result p (map_loop alloc 1 (make_entry pa (effective_flags flags)) (Err MapOutOfRange) m (pt_owned p) 0
                      (pt_root p) (vpn_indices va))
  end.

(** ** Changing flags *)

(** The common walk of the three flag operations: they act on a leaf of the
    last level only. *)
Definition with_last_leaf (m : PtMem) (p : PageTable) (va : Z) (f : Z → result Z MapError) :
    result unit MapError * PtMem :=
  if (negb (va mod PAGE_SIZE =? 0) || negb (is_canonical_sv39 va))%bool then (Err MapOutOfRange, m)
  else match pt_walk m 0 (pt_root p) (vpn_indices va) with
       | WLeaf 2%nat table index entry =>
           match f entry with
           | Ok entry' => (Ok tt, pt_write m table index entry')
           | Err e => (Err e, m)
           end
       | _ => (Err MapOutOfRange, m)
       end.

(** [ppn_part | new_flags], and the W^X test. *)
Definition with_flags (entry new_flags : Z) : Z := Z.lor (Z.land entry (Z.lnot 1023)) new_flags.
Definition violates_wx (flags : Z) : bool := has_bits flags PF_WRITE && has_bits flags PF_EXECUTE.

Definition PageTable_set_leaf_flags (m : PtMem) (p : PageTable) (va set : Z) : result unit MapError * PtMem :=
  with_last_leaf m p va (fun entry =>
    let new_flags := Z.lor (Z.land entry 1023) set in
    if violates_wx new_flags then Err MapPermissionDenied else Ok (with_flags entry new_flags)).

Definition PageTable_update_leaf_flags (m : PtMem) (p : PageTable) (va clear set : Z) :
    result unit MapError * PtMem :=
  with_last_leaf m p va (fun entry =>
    let new_flags := Z.lor (Z.land (Z.land entry 1023) (Z.lnot clear)) set in
    if violates_wx new_flags then Err MapPermissionDenied else Ok (with_flags entry new_flags)).

Definition PageTable_set_leaf_flags_unchecked (m : PtMem) (p : PageTable) (va set : Z) :
    result unit MapError * PtMem :=
  with_last_leaf m p va (fun entry => Ok (with_flags entry (Z.lor (Z.land entry 1023) set))).

(** ** The invariant checker *)

Inductive VerifyError := PtNonzeroInvalid | PtLeafWithoutPerms | PtWxViolated | PtNonLeafPerms.

(** One entry; [walk] is the recursive call. *)
Definition verify_entry (walk : Z → result unit VerifyError) (entry : Z) : result unit VerifyError :=
  if entry =? 0 then Ok tt
  else if negb (has_bits entry PF_VALID) then Err PtNonzeroInvalid
  else if has_bits entry LEAF_PERMS then
    if negb (has_bits entry LEAF_PERMS) then Err PtLeafWithoutPerms
    else if (has_bits entry PF_WRITE && has_bits entry PF_EXECUTE)%bool then Err PtWxViolated
    else Ok tt
  else if has_bits entry LEAF_PERMS then Err PtNonLeafPerms
  else walk (next_table entry).

Fixpoint verify_entries (walk : Z → result unit VerifyError) (es : list Z) : result unit VerifyError :=
  match es with
  | [] => Ok tt
  | e :: es' => let? _ := verify_entry walk e in verify_entries walk es'
  end.

(** The recursion goes down one level per call; the depth of the tree is 3, so
    3 is enough fuel ([page_table_verify] shows that it never runs out on a
    well-formed table: running out is an error). *)
Fixpoint verify_walk (fuel : nat) (m : PtMem) (page : Z) : result unit VerifyError :=
  match fuel with
  | O => Err PtNonzeroInvalid
  | S fuel' => verify_entries (verify_walk fuel' m) (default PageTablePage_new (m !! page))
  end.

Definition PageTable_verify (m : PtMem) (p : PageTable) : result unit VerifyError := verify_walk 3 m (pt_root p).

(** [Drop]: every owned page goes back to the allocator. *)
Definition PageTable_drop (m : PtMem) (p : PageTable) : PtMem := foldr (fun a => delete a) m (pt_owned p).

Definition PageTable_root_ppn (p : PageTable) : Z := pt_root p / PAGE_SIZE.
Definition PageTable_allocated_pages (p : PageTable) : nat := length (pt_owned p).

(** ** What the code relies on in the allocator

    A page it returns is aligned (the type is [repr(align(4096))]), not null,
    addressable, and not one that is still allocated. *)

Definition page_addr (a : Z) : Prop := 0 < a < 2 ^ 64 ∧ a mod PAGE_SIZE = 0.

Class PageAllocator (alloc : PtMem → option Z) : Prop := {
  page_alloc_addr : ∀ m a, alloc m = Some a → page_addr a;
  page_alloc_fresh : ∀ m a, alloc m = Some a → m !! a = None
}.

(** A concrete allocator: the first free page of a window. *)
Definition window_alloc (base : Z) (pages : nat) (m : PtMem) : option Z :=
  list_find (fun a => m !! a = None) (map (fun k => base + PAGE_SIZE * Z.of_nat k) (seq 0 pages)) ≫= fun r => Some r.2.

#[export] Instance window_alloc_ok base pages :
  TCEq (base mod PAGE_SIZE =? 0) true → TCEq ((0 <? base) && (base + PAGE_SIZE * Z.of_nat pages <=? 2 ^ 64)) true →
  PageAllocator (window_alloc base pages).
Proof.
  intros Ha Hb. apply TCEq_eq in Ha, Hb. simpl_bool.
  assert (Hw : ∀ m a, window_alloc base pages m = Some a →
            m !! a = None ∧ ∃ k, a = base + PAGE_SIZE * Z.of_nat k ∧ (k < pages)%nat).
  { intros m a E. unfold window_alloc in E.
    destruct (list_find _ _) as [[i x]|] eqn:El; simplify_eq/=.
    apply list_find_Some in El as (Hl & Hn & _). split; [done|].
    apply list_lookup_fmap_Some in Hl as (k & -> & Hk). apply lookup_seq in Hk as [-> Hk]. eauto. }
  split; intros m a E; destruct (Hw m a E) as (Hn & k & -> & Hk); [|done].
  unfold page_addr, PAGE_SIZE in *. split; [lia|].
  rewrite Z.mul_comm, Z.mod_add by lia. done.
Qed.
