(* ===== verification/PageTableProps.v ===== *)
(** * The page table as a finite map

    A well-formed page table is a tree of pages: [G] gives each table path
    (the indices walked from the root) its page, [A] is what the table means,
    the leaf entry installed at each full path.  The walk of the read
    operations is the lookup in [A]; the operations that write are updates of
    [A]. *)

From S2P Require Import Prelude PageTable.

(** ** Entries *)

Lemma land_low x mask : 0 ≤ mask < 1024 → Z.land x mask = Z.land (x mod 1024) mask.
Proof.
  intros Hm. apply Z.bits_inj'. intros n Hn. rewrite !Z.land_spec. change 1024 with (2 ^ 10).
  destruct (Z.ltb_spec n 10).
  - by rewrite Z.mod_pow2_bits_low by lia.
  - replace (Z.testbit mask n) with false; [by rewrite !andb_false_r|]. symmetry.
    rewrite <- (Z.mod_small mask (2 ^ 10)) by lia. apply Z.mod_pow2_bits_high. lia.
Qed.

Lemma has_bits_low x mask : 0 ≤ mask < 1024 → has_bits x mask = has_bits (x mod 1024) mask.
Proof. intros Hm. unfold has_bits, bits_intersect. by rewrite land_low. Qed.

Lemma lor_low k f : 0 ≤ f < 1024 → Z.lor (k * 1024) f = k * 1024 + f.
Proof.
  intros Hf. assert (Hd : Z.land (k * 1024) f = 0).
  { rewrite land_low by done. rewrite Z.mod_mul by lia. done. }
  rewrite <- Z.lxor_lor by done. symmetry. by apply Z.add_nocarry_lxor.
Qed.

Lemma make_entry_eq a f : 0 ≤ a < 2 ^ 64 → 0 ≤ f < 1024 → make_entry a f = a / 4096 * 1024 + f.
Proof.
  intros Ha Hf. unfold make_entry, PAGE_SIZE. rewrite Z.shiftl_mul_pow2 by lia. change (2 ^ 10) with 1024.
  rewrite Z.mod_small; [by apply lor_low|]. split; [apply Z.mul_nonneg_nonneg; [apply Z.div_pos; lia|lia]|].
  assert (a / 4096 < 2 ^ 52) by (apply Z.div_lt_upper_bound; lia). lia.
Qed.

Lemma make_entry_bits a f mask :
  0 ≤ a < 2 ^ 64 → 0 ≤ f < 1024 → 0 ≤ mask < 1024 → has_bits (make_entry a f) mask = has_bits f mask.
Proof.
  intros Ha Hf Hm. rewrite has_bits_low by done. rewrite make_entry_eq by done.
  by rewrite Z.add_comm, Z.mod_add, Z.mod_small by lia.
Qed.

Lemma make_entry_shiftr a f : 0 ≤ a < 2 ^ 64 → 0 ≤ f < 1024 → Z.shiftr (make_entry a f) 10 = a / 4096.
Proof.
  intros Ha Hf. rewrite make_entry_eq, Z.shiftr_div_pow2 by lia. change (2 ^ 10) with 1024.
  by rewrite Z.add_comm, Z.div_add, Z.div_small by lia.
Qed.

Lemma make_entry_next a f : page_addr a → 0 ≤ f < 1024 → next_table (make_entry a f) = a.
Proof.
  intros [Ha Hal] Hf. unfold next_table, PAGE_SIZE in *. rewrite make_entry_shiftr by lia.
  rewrite Z.shiftl_mul_pow2 by lia. change (2 ^ 12) with 4096.
  assert (a / 4096 * 4096 = a) as -> by (pose proof (Z.div_mod a 4096); lia). apply Z.mod_small. lia.
Qed.

Lemma make_entry_width a f : 0 ≤ a < 2 ^ 64 → 0 ≤ f < 1024 → in_width 64 (make_entry a f).
Proof.
  intros Ha Hf. rewrite make_entry_eq by done. unfold in_width.
  assert (0 ≤ a / 4096) by (apply Z.div_pos; lia).
  assert (a / 4096 < 2 ^ 52) by (apply Z.div_lt_upper_bound; lia). lia.
Qed.

(** ** Reads after writes *)

Lemma pt_read_write m a es i e a' i' :
  m !! a = Some es → (i < length es)%nat →
  pt_read (pt_write m a i e) a' i' = if decide (a' = a ∧ i' = i) then e else pt_read m a' i'.
Proof.
  intros Hm Hi. unfold pt_write, pt_read. rewrite Hm. destruct (decide (a' = a)) as [->|Hne].
  - rewrite lookup_insert_eq, Hm. simpl. destruct (decide (i' = i)) as [->|Hi'].
    + rewrite list_lookup_insert_eq by done. rewrite decide_True; done.
    + rewrite list_lookup_insert_ne by done. rewrite decide_False by naive_solver. done.
  - rewrite lookup_insert_ne by done. rewrite decide_False by naive_solver. done.
Qed.

Lemma pt_write_lookup m a es i e a' :
  m !! a = Some es → pt_write m a i e !! a' = if decide (a = a') then Some (<[i := e]> es) else m !! a'.
Proof.
  intros Hm. unfold pt_write. rewrite Hm. case_decide; [subst; apply lookup_insert_eq|by apply lookup_insert_ne].
Qed.

Lemma pt_read_new m b a i : m !! b = None → (i < PT_ENTRIES)%nat →
  pt_read (<[b := PageTablePage_new]> m) a i = if decide (a = b) then 0 else pt_read m a i.
Proof.
  intros Hb Hi. unfold pt_read. case_decide as E.
  - subst. rewrite lookup_insert_eq. simpl. unfold PageTablePage_new. by rewrite lookup_replicate_2.
  - by rewrite lookup_insert_ne.
Qed.

(** ** Well-formed trees *)

Definition leaf_ok (level : nat) (e : Z) : Prop :=
  in_width 64 e ∧ has_bits e PF_VALID = true ∧ has_bits e LEAF_PERMS = true ∧ (1 ≤ level ≤ 2)%nat.

Definition entry_rep (G A : gmap (list nat) Z) (m : PtMem) (π : list nat) (a : Z) (i : nat) : Prop :=
  match G !! (π ++ [i]), A !! (π ++ [i]) with
  | Some b, None => pt_read m a i = make_entry b PF_VALID
  | None, Some e => pt_read m a i = e ∧ leaf_ok (length π) e
  | None, None => pt_read m a i = 0
  | Some _, Some _ => False
  end.

Record pt_tree (G A : gmap (list nat) Z) (m : PtMem) (p : PageTable) : Prop := {
  tr_root : G !! [] = Some (pt_root p);
  tr_rootless : A !! [] = None;
  tr_inj : ∀ π π' a, G !! π = Some a → G !! π' = Some a → π = π';
  tr_page : ∀ π a, G !! π = Some a →
    (length π ≤ 2)%nat ∧ page_addr a ∧ a ∈ pt_owned p ∧ ∃ es, m !! a = Some es ∧ length es = PT_ENTRIES;
  tr_owned : NoDup (pt_owned p) ∧ ∀ a, a ∈ pt_owned p → ∃ π, G !! π = Some a;
  tr_entry : ∀ π a i, G !! π = Some a → (i < PT_ENTRIES)%nat → entry_rep G A m π a i;
  tr_parent : ∀ π i, is_Some (G !! (π ++ [i])) ∨ is_Some (A !! (π ++ [i])) →
    is_Some (G !! π) ∧ (i < PT_ENTRIES)%nat
}.

(** The walk in the abstract map: the first leaf along the path. *)
Fixpoint spec_walk (A : gmap (list nat) Z) (π : list nat) (indices : list nat) : option (nat * Z) :=
  match indices with
  | [] => None
  | i :: rest =>
      match A !! (π ++ [i]) with
      | Some e => Some (length π, e)
      | None => spec_walk A (π ++ [i]) rest
      end
  end.

Section Tree.
Context (G A : gmap (list nat) Z) (m : PtMem) (p : PageTable) (T : pt_tree G A m p).

Lemma tree_disjoint π : is_Some (G !! π) → A !! π = None.
Proof using T.
  intros [a Ha]. destruct π as [|i π _] using rev_ind; [apply T|].
  destruct (tr_parent _ _ _ _ T π i) as [[b Hb] Hi]; [by left|].
  pose proof (tr_entry _ _ _ _ T π b i Hb Hi) as He. unfold entry_rep in He. rewrite Ha in He.
  by destruct (A !! (π ++ [i])).
Qed.

(** Ancestors of a table or of a leaf are tables. *)
Lemma tree_ancestor π σ : is_Some (G !! (π ++ σ)) → is_Some (G !! π).
Proof using T.
  induction σ as [|i σ IH] using rev_ind; [by rewrite app_nil_r|]. rewrite app_assoc. intros H.
  apply IH. eapply tr_parent; [exact T|]. by left.
Qed.

Lemma tree_leaf_ancestor π σ : σ ≠ [] → is_Some (A !! (π ++ σ)) → is_Some (G !! π).
Proof using T.
  intros Hne H. destruct σ as [|i σ _] using rev_ind; [done|]. rewrite app_assoc in H.
  apply (tree_ancestor π σ). eapply tr_parent; [exact T|]. by right.
Qed.

Lemma spec_walk_dead π indices : G !! π = None → spec_walk A π indices = None.
Proof using T.
  revert π. induction indices as [|i rest IH]; intros π Hn; simpl; [done|].
  destruct (A !! (π ++ [i])) eqn:E.
  - destruct (tr_parent _ _ _ _ T π i) as [[b Hb] _]; [right; eauto|congruence].
  - apply IH. destruct (G !! (π ++ [i])) eqn:Eg; [|done].
    destruct (tr_parent _ _ _ _ T π i) as [[b Hb] _]; [left; eauto|congruence].
Qed.

(** The concrete walk is the abstract one. *)
Lemma walk_spec π a indices :
  G !! π = Some a → Forall (fun i => i < PT_ENTRIES)%nat indices → (length π + length indices = 3)%nat →
  match pt_walk m (length π) a indices with
  | WLeaf level t i e => spec_walk A π indices = Some (level, e) ∧
      ∃ σ τ, indices = σ ++ i :: τ ∧ level = length (π ++ σ) ∧ G !! (π ++ σ) = Some t ∧
             A !! (π ++ σ ++ [i]) = Some e
  | _ => spec_walk A π indices = None
  end.
Proof using T.
  revert π a. induction indices as [|i rest IH]; intros π a Ha Hidx Hlen; [done|].
  apply Forall_cons in Hidx as [Hi Hidx]. simpl in Hlen. cbn [pt_walk spec_walk].
  pose proof (tr_entry _ _ _ _ T π a i Ha Hi) as He. unfold entry_rep in He.
  destruct (G !! (π ++ [i])) as [b|] eqn:Eg, (A !! (π ++ [i])) as [e|] eqn:Ea; [done| | |].
  - destruct (tr_page _ _ _ _ T _ _ Eg) as (Hl & Hpa & _). rewrite length_app in Hl. simpl in Hl.
    assert (Hw : 0 ≤ b < 2 ^ 64) by (unfold page_addr in Hpa; lia).
    rewrite He, !make_entry_bits by (unfold PF_VALID, LEAF_PERMS; lia). simpl.
    rewrite make_entry_next by (done || unfold PF_VALID; lia).
    rewrite (proj2 (Z.eqb_neq b 0)) by (unfold page_addr in Hpa; lia).
    specialize (IH (π ++ [i]) b Eg Hidx). rewrite length_app in IH. simpl in IH.
    rewrite Nat.add_1_r in IH. specialize (IH ltac:(lia)).
    destruct (pt_walk m (S (length π)) b rest) as [|l t j e|]; try done.
    destruct IH as (Hs & σ & τ & -> & -> & Ht & He'). split; [done|]. exists (i :: σ), τ.
    rewrite <- !app_assoc in *. done.
  - destruct He as (-> & _ & Hv & Hl & _). rewrite Hv, Hl. simpl. split; [done|].
    exists [], rest. rewrite !app_nil_r. done.
  - rewrite He. simpl. by apply spec_walk_dead.
Qed.

(** A slot without VALID has nothing below it. *)
Lemma slot_free_paths π a i :
  G !! π = Some a → (i < PT_ENTRIES)%nat → has_bits (pt_read m a i) PF_VALID = false →
  G !! (π ++ [i]) = None ∧ A !! (π ++ [i]) = None.
Proof using T.
  intros Ha Hi Ev. pose proof (tr_entry _ _ _ _ T π a i Ha Hi) as He. unfold entry_rep in He.
  destruct (G !! (π ++ [i])) as [b|] eqn:Eg, (A !! (π ++ [i])) as [e|] eqn:Ea; try done.
  - destruct (tr_page _ _ _ _ T _ _ Eg) as (_ & Hpa & _).
    rewrite He, make_entry_bits in Ev by (unfold page_addr, PF_VALID in *; lia). done.
  - destruct He as (E & _ & Hv & _). congruence.
Qed.

(** Replacing or installing a leaf. *)
Lemma tree_set_leaf π a i e :
  G !! π = Some a → (i < PT_ENTRIES)%nat → G !! (π ++ [i]) = None → leaf_ok (length π) e →
  pt_tree G (<[π ++ [i] := e]> A) (pt_write m a i e) p.
Proof using T.
  intros Ha Hi Hg Hok. destruct (tr_page _ _ _ _ T _ _ Ha) as (_ & _ & _ & es & Hes & Hl).
  split; try apply T.
  - rewrite lookup_insert_ne; [apply T|]. by destruct π.
  - intros π' b Hb. destruct (tr_page _ _ _ _ T _ _ Hb) as (? & ? & ? & es' & Hes' & Hl').
    split_and!; try done. rewrite (pt_write_lookup _ _ es) by done. case_decide; [|eauto].
    eexists. split; [done|]. by rewrite length_insert.
  - intros π' b j Hb Hj. pose proof (tr_entry _ _ _ _ T π' b j Hb Hj) as He. unfold entry_rep in *.
    rewrite (pt_read_write _ _ es) by (done || lia).
    destruct (decide (π' ++ [j] = π ++ [i])) as [E|E].
    + apply app_inj_tail in E as [-> ->]. rewrite Ha in Hb. simplify_eq.
      rewrite Hg, lookup_insert_eq, decide_True by done. done.
    + rewrite lookup_insert_ne by done. rewrite decide_False; [done|]. intros [-> ->].
      apply E. f_equal. by eapply (tr_inj _ _ _ _ T).
  - intros π' j [H|H]; [eapply tr_parent; [exact T|by left]|].
    destruct (decide (π ++ [i] = π' ++ [j])) as [E|E].
    + apply app_inj_tail in E as [<- <-]. eauto.
    + rewrite lookup_insert_ne in H by done. eapply tr_parent; [exact T|by right].
Qed.

(** Hanging a fresh empty table below an empty slot. *)
Lemma tree_add_table π a i b :
  G !! π = Some a → (length π < 2)%nat → (i < PT_ENTRIES)%nat → G !! (π ++ [i]) = None → A !! (π ++ [i]) = None →
  page_addr b → m !! b = None →
  pt_tree (<[π ++ [i] := b]> G) A (pt_write (<[b := PageTablePage_new]> m) a i (make_entry b PF_VALID))
    (mkPageTable (pt_root p) (pt_owned p ++ [b])).
Proof using T.
  intros Ha Hlen Hi Hg Hn Hb Hf. destruct (tr_page _ _ _ _ T _ _ Ha) as (_ & _ & _ & es & Hes & Hl).
  assert (Hneb : ∀ σ c, G !! σ = Some c → c ≠ b).
  { intros σ c Hc ->. destruct (tr_page _ _ _ _ T _ _ Hc) as (_ & _ & _ & es' & Hes' & _). congruence. }
  assert (Hes1 : <[b := PageTablePage_new]> m !! a = Some es) by (rewrite lookup_insert_ne; [done|]; symmetry; eauto).
  assert (Hdead : ∀ j, G !! ((π ++ [i]) ++ [j]) = None ∧ A !! ((π ++ [i]) ++ [j]) = None).
  { intros j. split; apply eq_None_not_Some; intros H;
      (destruct (tr_parent _ _ _ _ T (π ++ [i]) j) as [[c Hc] _]; [auto|congruence]). }
  split; simpl.
  - rewrite lookup_insert_ne; [apply T|]. by destruct π.
  - apply T.
  - intros σ σ' c. destruct (decide (σ = π ++ [i])) as [->|E], (decide (σ' = π ++ [i])) as [->|E'];
      rewrite ?lookup_insert_eq, ?lookup_insert_ne by done; intros Hc Hc'; simplify_eq; try done.
    + destruct (Hneb _ _ Hc'). done.
    + destruct (Hneb _ _ Hc). done.
    + by eapply (tr_inj _ _ _ _ T).
  - intros σ c. destruct (decide (σ = π ++ [i])) as [->|E].
    + rewrite lookup_insert_eq. intros [= <-]. rewrite length_app. simpl. split_and!; [lia|done|set_solver|].
      rewrite (pt_write_lookup _ _ es) by done. rewrite decide_False by eauto. rewrite lookup_insert_eq.
      eexists. split; [done|]. apply length_replicate.
    + rewrite lookup_insert_ne by done. intros Hc. destruct (tr_page _ _ _ _ T _ _ Hc) as (? & ? & ? & es' & Hes' & Hl').
      split_and!; [done..|set_solver|]. rewrite (pt_write_lookup _ _ es) by done. case_decide.
      * eexists. split; [done|]. by rewrite length_insert.
      * rewrite lookup_insert_ne by (symmetry; eauto). eauto.
  - destruct (tr_owned _ _ _ _ T) as [Hnd Ho]. split.
    + apply NoDup_app. split_and!; [done| |apply NoDup_singleton]. intros c Hc ->%list_elem_of_singleton.
      destruct (Ho _ Hc) as [σ Hσ]. by destruct (Hneb _ _ Hσ).
    + intros c [Hc| ->%list_elem_of_singleton]%elem_of_app.
      * destruct (Ho _ Hc) as [σ Hσ]. exists σ. rewrite lookup_insert_ne by congruence. done.
      * exists (π ++ [i]). by rewrite lookup_insert_eq.
  - intros σ c j Hc Hj. unfold entry_rep. rewrite (pt_read_write _ _ es), pt_read_new by (done || lia).
    destruct (decide (σ = π ++ [i])) as [->|E].
    + rewrite lookup_insert_eq in Hc. simplify_eq. destruct (Hdead j) as [Hd1 Hd2]. rewrite Hd2.
      rewrite lookup_insert_ne by (intros H%(f_equal length); rewrite !length_app in H; simpl in H; lia).
      rewrite Hd1. rewrite decide_False by (intros [-> _]; by destruct (Hneb _ _ Ha)). by rewrite decide_True.
    + rewrite lookup_insert_ne in Hc by done. pose proof (tr_entry _ _ _ _ T σ c j Hc Hj) as He. unfold entry_rep in He.
      destruct (decide (σ ++ [j] = π ++ [i])) as [E2|E2].
      * apply app_inj_tail in E2 as [-> ->]. rewrite Ha in Hc. simplify_eq.
        rewrite lookup_insert_eq, Hn, decide_True by done. done.
      * rewrite lookup_insert_ne by done. rewrite decide_False, decide_False; [done|eauto|].
        intros [-> ->]. apply E2. f_equal. by eapply (tr_inj _ _ _ _ T).
  - intros σ j H. destruct (decide (σ ++ [j] = π ++ [i])) as [E|E].
    + apply app_inj_tail in E as [-> ->]. split; [|done]. rewrite lookup_insert_ne; [eauto|].
      intros E%(f_equal length). rewrite length_app in E. simpl in E. lia.
    + rewrite lookup_insert_ne in H by done. destruct (tr_parent _ _ _ _ T σ j H) as [[c Hc] ?]. split; [|done].
      destruct (decide (π ++ [i] = σ)) as [<-|Hne]; [rewrite lookup_insert_eq|rewrite lookup_insert_ne by done]; eauto.
Qed.
End Tree.

(** ** Installing a mapping *)

(** Something is mapped along the path [φ] or a table hangs at it. *)
Definition path_taken (G A : gmap (list nat) Z) (φ : list nat) : Prop :=
  is_Some (G !! φ) ∨ ∃ σ, σ `prefix_of` φ ∧ is_Some (A !! σ).

(** How memory and the owned pages may change: pages of others are untouched,
    new pages are fresh. *)
Record pt_extends (m : PtMem) (owned : list Z) (m' : PtMem) (owned' : list Z) : Prop := {
  ex_frame : ∀ a, ¬ a ∈ owned → is_Some (m !! a) → m' !! a = m !! a;
  ex_keep : ∀ a, is_Some (m !! a) → is_Some (m' !! a);
  ex_owned : ∃ new, owned' = owned ++ new ∧ ∀ a, a ∈ new → m !! a = None;
  ex_dom : ∀ a, is_Some (m' !! a) → is_Some (m !! a) ∨ a ∈ owned'
}.

Lemma pt_extends_refl m owned : pt_extends m owned m owned.
Proof. split; [done|done| |auto]. exists []. rewrite app_nil_r. split; [done|set_solver]. Qed.

Lemma pt_extends_write m owned a es i e :
  m !! a = Some es → a ∈ owned → pt_extends m owned (pt_write m a i e) owned.
Proof.
  intros Hm Ha. split.
  - intros b Hb _. rewrite (pt_write_lookup _ _ es) by done. rewrite decide_False; [done|congruence].
  - intros b. rewrite (pt_write_lookup _ _ es) by done. case_decide; [eauto|done].
  - exists []. rewrite app_nil_r. split; [done|set_solver].
  - intros b. rewrite (pt_write_lookup _ _ es) by done. case_decide; [subst; eauto|auto].
Qed.

Lemma pt_extends_new m owned b :
  m !! b = None → pt_extends m owned (<[b := PageTablePage_new]> m) (owned ++ [b]).
Proof.
  intros Hb. split.
  - intros a _ [x Hx]. rewrite lookup_insert_ne; [done|congruence].
  - intros a [x Hx]. rewrite lookup_insert_ne; [eauto|congruence].
  - exists [b]. split; [done|]. by intros a ->%list_elem_of_singleton.
  - intros a. destruct (decide (b = a)) as [->|Hne]; [set_solver|]. rewrite lookup_insert_ne by done. auto.
Qed.

Lemma pt_extends_trans m o m1 o1 m2 o2 :
  pt_extends m o m1 o1 → pt_extends m1 o1 m2 o2 → pt_extends m o m2 o2.
Proof.
  intros [F1 K1 (n1 & -> & N1) D1] [F2 K2 (n2 & -> & N2) D2]. split.
  - intros a Ha Hs. pose proof (F1 a Ha Hs) as E1. rewrite <- E1. apply F2; [|by rewrite E1].
    intros [?|Hn]%elem_of_app; [done|]. rewrite (N1 _ Hn) in Hs. by destruct Hs.
  - auto.
  - exists (n1 ++ n2). rewrite app_assoc. split; [done|]. intros a [Ha|Ha]%elem_of_app; [auto|].
    apply eq_None_not_Some. intros H%K1. rewrite (N2 _ Ha) in H. by destruct H.
  - intros a Ha. destruct (D2 _ Ha) as [H|H]; [|by right]. destruct (D1 _ H); [by left|right; set_solver].
Qed.

(** What a finished [map_loop] from table path [π] towards leaf path [φ] did. *)
Definition map_loop_post (G A : gmap (list nat) Z) (m : PtMem) (p : PageTable) (φ : list nat) (leaf : Z)
    (r : option (result unit MapError * PtMem * list Z)) : Prop :=
  match r with
  | None => True
  | Some (Err e, m', owned') => e = MapOverlap ∧ m' = m ∧ owned' = pt_owned p ∧ path_taken G A φ
  | Some (Ok _, m', owned') =>
      ¬ path_taken G A φ ∧ pt_extends m (pt_owned p) m' owned' ∧
      ∃ G', pt_tree G' (<[φ := leaf]> A) m' (mkPageTable (pt_root p) owned') ∧ G ⊆ G' ∧
            ∀ σ, is_Some (G' !! σ) → is_Some (G !! σ) ∨ σ `prefix_of` φ
  end.

Section MapLoop.
Context (alloc : PtMem → option Z) `{!PageAllocator alloc}.

(** A path through an existing table with nothing at its next step is free. *)
Lemma path_free G A m p π i rest :
  pt_tree G A m p → is_Some (G !! π) → G !! (π ++ [i]) = None → A !! (π ++ [i]) = None →
  ¬ path_taken G A (π ++ i :: rest).
Proof using.
  intros T Hπ Hg Ha. replace (π ++ i :: rest) with ((π ++ [i]) ++ rest) by (by rewrite <- app_assoc).
  intros [H|(σ & Hσ & H)].
  - apply (tree_ancestor _ _ _ _ T) in H. rewrite Hg in H. by destruct H.
  - destruct (prefix_weak_total σ (π ++ [i]) ((π ++ [i]) ++ rest)) as [[k Hk]|[k ->]]; [done|by exists rest| |].
    + destruct k as [|j k _] using rev_ind.
      { rewrite app_nil_r in Hk. subst. rewrite Ha in H. by destruct H. }
      rewrite app_assoc in Hk. apply app_inj_tail in Hk as [-> _].
      rewrite (tree_disjoint _ _ _ _ T) in H; [by destruct H|]. by eapply tree_ancestor.
    + destruct k as [|j k]; [rewrite app_nil_r, Ha in H; by destruct H|].
      apply (tree_leaf_ancestor _ _ _ _ T) in H; [|done]. rewrite Hg in H. by destruct H.
Qed.

Lemma map_loop_spec L leaf ft indices G A m p π a :
  pt_tree G A m p → G !! π = Some a → Forall (fun i => i < PT_ENTRIES)%nat indices →
  (length π ≤ L ≤ 2)%nat → (S L - length π ≤ length indices)%nat → leaf_ok L leaf →
  map_loop_post G A m p (π ++ take (S L - length π) indices) leaf
    (map_loop alloc L leaf ft m (pt_owned p) (length π) a indices).
Proof using PageAllocator0.
  revert G A m p π a. induction indices as [|i rest IH]; intros G A m p π a T Ha Hidx HL Hlen Hleaf.
  { simpl in Hlen. lia. }
  apply Forall_cons in Hidx as [Hi Hidx]. simpl in Hlen. cbn [map_loop].
  pose proof (tr_entry _ _ _ _ T π a i Ha Hi) as He. unfold entry_rep in He.
  destruct (tr_page _ _ _ _ T _ _ Ha) as (_ & _ & Hown & es & Hes & Hesl).
  replace (take (S L - length π) (i :: rest)) with (i :: take (L - length π) rest)
    by (replace (S L - length π)%nat with (S (L - length π)) by lia; done).
  case_bool_decide as Hlvl.
  - (* the leaf level *)
    replace (L - length π)%nat with 0%nat by lia. cbn [take].
    destruct (has_bits (pt_read m a i) PF_VALID) eqn:Ev; simpl.
    + split_and!; try done. destruct (G !! (π ++ [i])) as [b|] eqn:Eg; [left; eauto|].
      destruct (A !! (π ++ [i])) as [e|] eqn:Ea; [right; exists (π ++ [i]); eauto|].
      rewrite He in Ev. done.
    + destruct (slot_free_paths _ _ _ _ T π a i Ha Hi Ev) as [Hg Hn].
      split_and!.
      * eapply path_free; eauto.
      * by eapply pt_extends_write.
      * exists G. split_and!; [|done|auto]. destruct p. apply tree_set_leaf; [done..|by rewrite Hlvl].
  - destruct (has_bits (pt_read m a i) PF_VALID) eqn:Ev.
    + destruct (G !! (π ++ [i])) as [b|] eqn:Eg, (A !! (π ++ [i])) as [e|] eqn:Ea; [done| | |].
      * (* an existing table *)
        destruct (tr_page _ _ _ _ T _ _ Eg) as (Hlb & Hpa & _). rewrite He.
        rewrite make_entry_bits by (unfold page_addr, PF_VALID, LEAF_PERMS in *; lia). simpl.
        rewrite make_entry_next by (done || unfold PF_VALID; lia).
        rewrite (proj2 (Z.eqb_neq b 0)) by (unfold page_addr in Hpa; lia).
        specialize (IH G A m p (π ++ [i]) b T Eg Hidx). rewrite length_app in IH. simpl in IH.
        rewrite <- app_assoc in IH. replace (L - length π)%nat with (S L - (length π + 1))%nat by lia.
        replace (S (length π)) with (length π + 1)%nat by lia. apply IH; [lia|lia|done].
      * (* a leaf in the way *)
        destruct He as (E & _ & _ & Hl & _). rewrite E, Hl. simpl. split_and!; try done.
        right. exists (π ++ [i]). split; [|eauto]. apply prefix_app. by exists (take (L - length π) rest).
      * rewrite He in Ev. done.
    + (* an empty slot: a fresh table *)
      destruct (slot_free_paths _ _ _ _ T π a i Ha Hi Ev) as [Hg Hn].
      unfold alloc_page. destruct (alloc m) as [b|] eqn:Eb; [|done].
      pose proof (page_alloc_addr _ _ Eb) as Hpa. pose proof (page_alloc_fresh _ _ Eb) as Hf.
      pose proof (tree_add_table _ _ _ _ T π a i b Ha ltac:(lia) Hi Hg Hn Hpa Hf) as T1.
      assert (Hes1 : <[b := PageTablePage_new]> m !! a = Some es) by (rewrite lookup_insert_ne; [done|congruence]).
      assert (Hext : pt_extends m (pt_owned p) (pt_write (<[b := PageTablePage_new]> m) a i (make_entry b PF_VALID))
                       (pt_owned p ++ [b])).
      { eapply pt_extends_trans; [by apply pt_extends_new|]. eapply pt_extends_write; [done|set_solver]. }
      specialize (IH _ _ _ _ (π ++ [i]) b T1 (lookup_insert_eq _ _ _) Hidx). rewrite length_app in IH.
      simpl in IH. rewrite <- app_assoc in IH. replace (S L - (length π + 1))%nat with (L - length π)%nat in IH by lia.
      replace (length π + 1)%nat with (S (length π)) in IH by lia.
      specialize (IH ltac:(lia) ltac:(lia) Hleaf). simpl in IH.
      destruct (map_loop _ _ _ _ _ _ _ _ _) as [[[[[]|e] m'] o']|]; [| |done].
      * destruct IH as (_ & Hext' & G' & T' & Hsub & Hnew). split_and!.
        -- eapply path_free; eauto.
        -- by eapply pt_extends_trans.
        -- exists G'. split_and!; [done| |].
           ++ etransitivity; [|exact Hsub]. by apply insert_subseteq.
           ++ intros σ Hσ. destruct (Hnew _ Hσ) as [H|H]; [|by right].
              destruct (decide (π ++ [i] = σ)) as [<-|Hne].
              ** right. apply prefix_app. exists (take (L - length π) rest). done.
              ** rewrite lookup_insert_ne in H by done. by left.
      * exfalso. destruct IH as (_ & _ & _ & Htk).
        apply (path_free _ _ _ _ π i (take (L - length π) rest) T ltac:(eauto) Hg Hn).
        destruct Htk as [H|H]; [|by right]. left. rewrite lookup_insert_ne in H; [done|].
        intros E%(f_equal length). rewrite !length_app in E. simpl in E. rewrite length_take in E. lia.
Qed.
End MapLoop.
