(* ===== verification/PageTableLaws.v ===== *)
(** * Laws of the page table

    Refinement of every operation to the abstract map of leaf entries, what
    [translate] answers after a mapping, W^X and the invariant checker, and
    isolation between page tables that share memory. *)

From S2P Require Import Prelude PageTable PageTableProps.

(** ** Flag bits *)

Lemma bits_intersect_pow2 e k : 0 ≤ k → has_bits e (2 ^ k) = Z.testbit e k.
Proof.
  intros Hk. unfold has_bits, bits_intersect. rewrite Z.land_comm. destruct (Z.testbit e k) eqn:E.
  - apply negb_true_iff, Z.eqb_neq. intros H. apply (f_equal (fun x => Z.testbit x k)) in H.
    by rewrite Z.land_spec, Z.pow2_bits_true, E, Z.bits_0 in H.
  - apply negb_false_iff, Z.eqb_eq. apply Z.bits_inj'. intros n Hn.
    rewrite Z.land_spec, Z.pow2_bits_eqb, Z.bits_0 by done. destruct (Z.eqb_spec k n); [subst; by rewrite E|done].
Qed.

Lemma bits_contain_pow2 e k : 0 ≤ k → bits_contain e (2 ^ k) = Z.testbit e k.
Proof.
  intros Hk. unfold bits_contain. destruct (Z.testbit e k) eqn:E.
  - apply Z.eqb_eq, Z.bits_inj'. intros n Hn. rewrite Z.land_spec, Z.pow2_bits_eqb by done.
    destruct (Z.eqb_spec k n); [subst; by rewrite E|by rewrite andb_false_r].
  - apply Z.eqb_neq. intros H. apply (f_equal (fun x => Z.testbit x k)) in H.
    by rewrite Z.land_spec, Z.pow2_bits_true, E in H.
Qed.

Lemma has_bits_lor e mask1 mask2 : has_bits e (Z.lor mask1 mask2) = (has_bits e mask1 || has_bits e mask2)%bool.
Proof.
  unfold has_bits, bits_intersect. rewrite Z.land_lor_distr_r.
  destruct (Z.eqb_spec (Z.land e mask1) 0) as [->|H1].
  - by rewrite Z.lor_0_l.
  - simpl. apply negb_true_iff, Z.eqb_neq. intros H. apply Z.lor_eq_0_iff in H. tauto.
Qed.

Lemma has_valid e : has_bits e PF_VALID = Z.testbit e 0.
Proof. exact (bits_intersect_pow2 e 0 ltac:(lia)). Qed.
Lemma has_write e : has_bits e PF_WRITE = Z.testbit e 2.
Proof. exact (bits_intersect_pow2 e 2 ltac:(lia)). Qed.
Lemma has_execute e : has_bits e PF_EXECUTE = Z.testbit e 3.
Proof. exact (bits_intersect_pow2 e 3 ltac:(lia)). Qed.
Lemma has_leaf e : has_bits e LEAF_PERMS = (Z.testbit e 1 || Z.testbit e 2 || Z.testbit e 3)%bool.
Proof.
  change LEAF_PERMS with (Z.lor (Z.lor (2 ^ 1) (2 ^ 2)) (2 ^ 3)).
  by rewrite !has_bits_lor, !bits_intersect_pow2 by lia.
Qed.

(** The bits of an entry rebuilt with new flags. *)
Lemma with_flags_testbit e f n :
  0 ≤ n → 0 ≤ f < 1024 → Z.testbit (with_flags e f) n = if n <? 10 then Z.testbit f n else Z.testbit e n.
Proof.
  intros Hn Hf. unfold with_flags. rewrite Z.lor_spec, Z.land_spec, Z.lnot_spec by done.
  change 1023 with (Z.ones 10). rewrite Z.testbit_ones_nonneg by lia.
  destruct (Z.ltb_spec n 10); simpl; [by rewrite andb_false_r|].
  rewrite andb_true_r. replace (Z.testbit f n) with false; [by rewrite orb_false_r|]. symmetry.
  rewrite <- (Z.mod_small f (2 ^ 10)) by lia. apply Z.mod_pow2_bits_high. lia.
Qed.

Lemma lor_bound n a b : 0 ≤ n → 0 ≤ a < 2 ^ n → 0 ≤ b < 2 ^ n → 0 ≤ Z.lor a b < 2 ^ n.
Proof.
  intros Hn Ha Hb. assert (H0 : 0 ≤ Z.lor a b) by (apply Z.lor_nonneg; lia). split; [done|].
  assert (E : Z.lor a b = Z.lor a b mod 2 ^ n); [|rewrite E; apply Z.mod_pos_bound; lia].
  apply Z.bits_inj'. intros k Hk. destruct (Z.ltb_spec k n).
  - by rewrite Z.mod_pow2_bits_low.
  - rewrite Z.mod_pow2_bits_high by lia. rewrite Z.lor_spec.
    rewrite <- (Z.mod_small a (2 ^ n)), <- (Z.mod_small b (2 ^ n)) by lia.
    by rewrite !Z.mod_pow2_bits_high by lia.
Qed.

Lemma land_bound n a b : 0 ≤ n → 0 ≤ b < 2 ^ n → 0 ≤ Z.land a b < 2 ^ n.
Proof.
  intros Hn Hb. assert (H0 : 0 ≤ Z.land a b) by (apply Z.land_nonneg; lia). split; [done|].
  assert (E : Z.land a b = Z.land a b mod 2 ^ n); [|rewrite E; apply Z.mod_pos_bound; lia].
  apply Z.bits_inj'. intros k Hk. destruct (Z.ltb_spec k n).
  - by rewrite Z.mod_pow2_bits_low.
  - rewrite Z.mod_pow2_bits_high by lia. rewrite Z.land_spec.
    rewrite <- (Z.mod_small b (2 ^ n)) by lia. by rewrite Z.mod_pow2_bits_high, andb_false_r by lia.
Qed.

Definition flags_wf (flags : Z) : Prop := 0 ≤ flags < 256.

Lemma effective_flags_bound flags : flags_wf flags → 0 ≤ effective_flags flags < 1024.
Proof.
  unfold flags_wf. intros Hf. assert (H1 : 0 ≤ Z.lor flags PF_ACCESSED < 2 ^ 8)
    by (apply lor_bound; unfold PF_ACCESSED; lia).
  unfold effective_flags. case_match; [|lia].
  pose proof (lor_bound 8 (Z.lor flags PF_ACCESSED) PF_DIRTY ltac:(lia) H1 ltac:(unfold PF_DIRTY; lia)). lia.
Qed.

Lemma effective_flags_testbit flags n :
  0 ≤ n < 6 → Z.testbit (effective_flags flags) n = Z.testbit flags n.
Proof.
  intros Hn. assert (H6 : Z.testbit PF_ACCESSED n = false) by (apply (Z.pow2_bits_false 6); lia).
  assert (H7 : Z.testbit PF_DIRTY n = false) by (apply (Z.pow2_bits_false 7); lia).
  unfold effective_flags. case_match; rewrite !Z.lor_spec, ?H6, ?H7, !orb_false_r; done.
Qed.

(** What passing the argument checks means. *)
Lemma map_checks_pass size va pa flags :
  map_checks size va pa flags = None →
  va mod size = 0 ∧ pa mod size = 0 ∧ is_canonical_sv39 va = true ∧ Z.testbit flags 0 = true ∧
  has_bits flags LEAF_PERMS = true ∧ (Z.testbit flags 2 && Z.testbit flags 3)%bool = false.
Proof.
  unfold map_checks. intros H. repeat case_match; try done. simpl_bool.
  rewrite (bits_contain_pow2 flags 0 ltac:(lia) : bits_contain flags PF_VALID = _) in *.
  rewrite (bits_contain_pow2 flags 2 ltac:(lia) : bits_contain flags PF_WRITE = _) in *.
  rewrite (bits_contain_pow2 flags 3 ltac:(lia) : bits_contain flags PF_EXECUTE = _) in *.
  split_and!; try done. unfold has_bits, bits_intersect. apply negb_true_iff, Z.eqb_neq. done.
Qed.

Lemma mapped_leaf_ok level size va pa flags :
  (1 ≤ level ≤ 2)%nat → in_width 64 pa → flags_wf flags → map_checks size va pa flags = None →
  leaf_ok level (make_entry pa (effective_flags flags)) ∧
  violates_wx (make_entry pa (effective_flags flags)) = false.
Proof.
  intros Hl Hpa Hf (_ & _ & _ & Hv & Hp & Hwx)%map_checks_pass.
  pose proof (effective_flags_bound flags Hf) as Hb. unfold leaf_ok, violates_wx.
  rewrite !make_entry_bits by (done || unfold PF_VALID, LEAF_PERMS, PF_WRITE, PF_EXECUTE; lia).
  rewrite has_valid, has_leaf, has_write, has_execute, !effective_flags_testbit by lia.
  rewrite <- has_leaf. split_and!; try done; try lia. by apply make_entry_width.
Qed.

(** ** Addresses *)

Lemma canonical_iff va :
  in_width 64 va → is_canonical_sv39 va = true ↔ va < 2 ^ 38 ∨ 2 ^ 64 - 2 ^ 38 ≤ va.
Proof.
  unfold in_width, is_canonical_sv39. intros Hva.
  rewrite !Z.shiftr_div_pow2 by lia. change 1 with (Z.ones 1) at 1. rewrite Z.land_ones by lia.
  change (max_of 64 / 2 ^ 39) with 33554431. change (2 ^ 1) with 2.
  destruct (Z.eqb_spec ((va / 2 ^ 38) mod 2) 0) as [E|E]; rewrite Z.eqb_eq.
  - split; intros H.
    + left. Z.to_euclidean_division_equations. lia.
    + Z.to_euclidean_division_equations. lia.
  - split; intros H.
    + right. Z.to_euclidean_division_equations. lia.
    + Z.to_euclidean_division_equations. lia.
Qed.

(** The walk indices as arithmetic. *)
Lemma vpn_indices_eq va :
  vpn_indices va = [Z.to_nat ((va / 2 ^ 30) mod 512); Z.to_nat ((va / 2 ^ 21) mod 512);
                    Z.to_nat ((va / 2 ^ 12) mod 512)].
Proof.
  unfold vpn_indices. rewrite !Z.shiftr_div_pow2 by lia. change 511 with (Z.ones 9).
  by rewrite !Z.land_ones by lia.
Qed.

Lemma vpn_indices_bound va : Forall (fun i => i < PT_ENTRIES)%nat (vpn_indices va).
Proof.
  rewrite vpn_indices_eq. unfold PT_ENTRIES.
  pose proof (Z.mod_pos_bound (va / 2 ^ 30) 512). pose proof (Z.mod_pos_bound (va / 2 ^ 21) 512).
  pose proof (Z.mod_pos_bound (va / 2 ^ 12) 512). do 3 (apply Forall_cons; split; [lia|]). done.
Qed.

Lemma vpn_indices_length va : length (vpn_indices va) = 3%nat.
Proof. done. Qed.

(** Two canonical addresses are in the same page exactly when their walks agree:
    all three indices for 4 KiB pages, the first two for 2 MiB pages. *)
Lemma same_page_4k va va' :
  in_width 64 va → in_width 64 va' → is_canonical_sv39 va = true → is_canonical_sv39 va' = true →
  vpn_indices va' = vpn_indices va ↔ va' / 4096 = va / 4096.
Proof.
  intros Hw Hw' Hc Hc'. rewrite (canonical_iff _ Hw) in Hc. rewrite (canonical_iff _ Hw') in Hc'.
  rewrite !vpn_indices_eq. change (2 ^ 12) with 4096. unfold in_width in *. split.
  - intros [= E2 E1 E0].
    apply Z2Nat.inj in E2, E1, E0; try (apply Z.mod_pos_bound; lia).
    Z.to_euclidean_division_equations. lia.
  - intros E. assert (E1 : va' / 2 ^ 21 = va / 2 ^ 21).
    { change (2 ^ 21) with (4096 * 512). rewrite <- !Z.div_div by lia. by rewrite E. }
    assert (E2 : va' / 2 ^ 30 = va / 2 ^ 30).
    { change (2 ^ 30) with (4096 * 262144). rewrite <- !Z.div_div by lia. by rewrite E. }
    by rewrite E, E1, E2.
Qed.

Lemma same_page_2m va va' :
  in_width 64 va → in_width 64 va' → is_canonical_sv39 va = true → is_canonical_sv39 va' = true →
  take 2 (vpn_indices va') = take 2 (vpn_indices va) ↔ va' / 2 ^ 21 = va / 2 ^ 21.
Proof.
  intros Hw Hw' Hc Hc'. rewrite (canonical_iff _ Hw) in Hc. rewrite (canonical_iff _ Hw') in Hc'.
  rewrite !vpn_indices_eq. unfold in_width in *. simpl. split.
  - intros [= E2 E1]. apply Z2Nat.inj in E2, E1; try (apply Z.mod_pos_bound; lia).
    Z.to_euclidean_division_equations. lia.
  - intros E. assert (E2 : va' / 2 ^ 30 = va / 2 ^ 30).
    { change (2 ^ 30) with (2 ^ 21 * 512). rewrite <- !Z.div_div by lia. by rewrite E. }
    by rewrite E, E2.
Qed.

Lemma canonical_same_page n va va' :
  0 ≤ n ≤ 38 → in_width 64 va → in_width 64 va' → is_canonical_sv39 va = true → va' / 2 ^ n = va / 2 ^ n →
  is_canonical_sv39 va' = true.
Proof.
  intros Hn Hw Hw' Hc E. rewrite (canonical_iff _ Hw) in Hc. apply (canonical_iff _ Hw').
  assert (E38 : va' / 2 ^ 38 = va / 2 ^ 38).
  { replace (2 ^ 38) with (2 ^ n * 2 ^ (38 - n)) by (rewrite <- Z.pow_add_r by lia; f_equal; lia).
    rewrite <- !Z.div_div by lia. by rewrite E. }
  unfold in_width in *. clear E. Z.to_euclidean_division_equations. lia.
Qed.

(** A leaf entry made for an aligned address translates with the offset kept. *)
Lemma leaf_translate_make level pa f va :
  (1 ≤ level ≤ 2)%nat → in_width 64 pa → 0 ≤ f < 1024 → in_width 64 va →
  let size := 2 ^ (12 + (2 - Z.of_nat level) * 9) in
  pa mod size = 0 → leaf_translate level (make_entry pa f) va = pa + va mod size.
Proof.
  intros Hl Hpa Hf Hva size Hal. unfold leaf_translate.
  rewrite make_entry_shiftr, Z.shiftl_1_l by done. fold size. set (k := 12 + _) in *.
  assert (Hk : 12 ≤ k ≤ 21) by (subst k; lia). unfold in_width in *.
  assert (Hdiv : (2 ^ 12 | size)).
  { exists (2 ^ (k - 12)). subst size. rewrite <- Z.pow_add_r by lia. f_equal. lia. }
  assert (H4k : pa / 4096 * 4096 = pa).
  { apply Z.mod_divide in Hal; [|subst size; lia]. destruct Hdiv as [c Hc], Hal as [d Hd].
    rewrite Hd, Hc. change (2 ^ 12) with 4096. rewrite Z.mul_assoc, Z.div_mul by lia. done. }
  rewrite Z.shiftl_mul_pow2 by lia. change (2 ^ 12) with 4096. rewrite H4k, (Z.mod_small pa) by lia.
  replace (size - 1) with (Z.ones k) by (rewrite Z.ones_equiv; subst size; lia).
  rewrite Z.land_ones by lia. fold size.
  replace (Z.land pa (Z.lnot (Z.ones k))) with pa.
  - replace pa with (pa / size * size) at 1 by (pose proof (Z.div_mod pa size); subst size; lia).
    replace (pa + va mod size) with (pa / size * size + va mod size) by (pose proof (Z.div_mod pa size); subst size; lia).
    set (o := va mod size). assert (Ho : 0 ≤ o < 2 ^ k) by (apply Z.mod_pos_bound; lia).
    assert (Hd : Z.land (pa / size * size) o = 0).
    { apply Z.bits_inj'. intros n Hn. rewrite Z.land_spec, Z.bits_0. subst size. destruct (Z.ltb_spec n k).
      - by rewrite Z.mul_pow2_bits_low.
      - rewrite <- (Z.mod_small o (2 ^ k)) by done. by rewrite Z.mod_pow2_bits_high, andb_false_r by lia. }
    rewrite <- Z.lxor_lor by done. symmetry. by apply Z.add_nocarry_lxor.
  - rewrite <- Z.ldiff_land. rewrite Z.ldiff_ones_r by lia. rewrite Z.shiftr_div_pow2, Z.shiftl_mul_pow2 by lia.
    fold size. pose proof (Z.div_mod pa size). subst size. lia.
Qed.

(** ** The represented map *)

(** [A] is what the page table means; every table page below the root serves
    some leaf. *)
Definition pt_rep (A : gmap (list nat) Z) (m : PtMem) (p : PageTable) : Prop :=
  ∃ G, pt_tree G A m p ∧ ∀ π, π ≠ [] → is_Some (G !! π) → ∃ σ, is_Some (A !! (π ++ σ)).

(** Two leaf paths whose pages overlap: one is a prefix of the other. *)
Definition overlaps (A : gmap (list nat) Z) (φ : list nat) : Prop :=
  ∃ σ, is_Some (A !! σ) ∧ (σ `prefix_of` φ ∨ φ `prefix_of` σ).

Lemma path_taken_overlaps G A m p φ :
  pt_tree G A m p → (∀ π, π ≠ [] → is_Some (G !! π) → ∃ σ, is_Some (A !! (π ++ σ))) → φ ≠ [] →
  path_taken G A φ ↔ overlaps A φ.
Proof.
  intros T Hlive Hne. split.
  - intros [H|(σ & Hσ & H)].
    + destruct (Hlive φ Hne H) as [σ Hσ]. exists (φ ++ σ). split; [done|]. right. by exists σ.
    + exists σ. auto.
  - intros (σ & H & [Hp|[k ->]]); [right; eauto|]. destruct k as [|i k].
    + rewrite app_nil_r in H. right. exists φ. auto.
    + left. by apply (tree_leaf_ancestor _ _ _ _ T φ (i :: k)).
Qed.

Lemma pt_rep_walk A m p va :
  pt_rep A m p →
  match pt_walk m 0 (pt_root p) (vpn_indices va) with
  | WLeaf level t i e => spec_walk A [] (vpn_indices va) = Some (level, e) ∧
      ∃ G σ τ, pt_tree G A m p ∧ vpn_indices va = σ ++ i :: τ ∧ level = length σ ∧ G !! σ = Some t ∧
               A !! (σ ++ [i]) = Some e
  | _ => spec_walk A [] (vpn_indices va) = None
  end.
Proof.
  intros (G & T & _). pose proof (walk_spec _ _ _ _ T [] (pt_root p) (vpn_indices va)) as H.
  specialize (H (tr_root _ _ _ _ T) (vpn_indices_bound va) eq_refl). change (@length nat []) with 0%nat in H.
  destruct (pt_walk _ _ _ _) as [|level t i e|]; [done| |done].
  destruct H as (Hs & σ & τ & Hi & Hl & Ht & He). split; [done|]. by exists G, σ, τ.
Qed.

Lemma translate_spec A m p va :
  pt_rep A m p →
  PageTable_translate m p va =
  if is_canonical_sv39 va then (fun r => leaf_translate r.1 r.2 va) <$> spec_walk A [] (vpn_indices va) else None.
Proof.
  intros H. pose proof (pt_rep_walk A m p va H) as Hw. unfold PageTable_translate.
  destruct (is_canonical_sv39 va); [|done]. cbn [negb].
  destruct (pt_walk _ _ _ _) as [|level t i e|]; [by rewrite Hw|by destruct Hw as [-> _]|by rewrite Hw].
Qed.

(** ** Refinement *)

Inductive pt_op :=
| PMap (va pa flags : Z) | PMap2M (va pa flags : Z) | PSetFlags (va set : Z) | PUpdateFlags (va clear set : Z)
| PSetFlagsUnchecked (va set : Z).

Definition lift_flags (p : PageTable) (r : result unit MapError * PtMem) :
    option (result unit MapError * PtMem * PageTable) := Some (r.1, r.2, p).

Definition pt_exec (alloc : PtMem → option Z) (m : PtMem) (p : PageTable) (op : pt_op) :
    option (result unit MapError * PtMem * PageTable) :=
  match op with
  | PMap va pa flags => PageTable_map alloc m p va pa flags
  | PMap2M va pa flags => PageTable_map_2m alloc m p va pa flags
  | PSetFlags va set => lift_flags p (PageTable_set_leaf_flags m p va set)
  | PUpdateFlags va clear set => lift_flags p (PageTable_update_leaf_flags m p va clear set)
  | PSetFlagsUnchecked va set => lift_flags p (PageTable_set_leaf_flags_unchecked m p va set)
  end.

(** The flag operations: their address and whether they enforce W^X. *)
Definition flag_op_va (op : pt_op) : option Z :=
  match op with
  | PSetFlags va _ | PUpdateFlags va _ _ | PSetFlagsUnchecked va _ => Some va
  | _ => None
  end.
Definition flag_op_checked (op : pt_op) : bool :=
  match op with PSetFlagsUnchecked _ _ => false | _ => true end.

(** The flags a flag operation computes from the old ones. *)
Definition new_flags (op : pt_op) (entry : Z) : Z :=
  match op with
  | PUpdateFlags _ clear set => Z.lor (Z.land (Z.land entry 1023) (Z.lnot clear)) set
  | PSetFlags _ set | PSetFlagsUnchecked _ set => Z.lor (Z.land entry 1023) set
  | _ => 0
  end.

(** Machine-width arguments; an update must keep the entry a leaf (clearing
    VALID or every permission is outside what the operation is for). *)
Definition pt_op_wf (A : gmap (list nat) Z) (op : pt_op) : Prop :=
  match op with
  | PMap va pa flags | PMap2M va pa flags => in_width 64 va ∧ in_width 64 pa ∧ flags_wf flags
  | PSetFlags va set | PSetFlagsUnchecked va set => in_width 64 va ∧ flags_wf set
  | PUpdateFlags va clear set =>
      in_width 64 va ∧ flags_wf clear ∧ flags_wf set ∧
      ∀ entry, va mod PAGE_SIZE = 0 → is_canonical_sv39 va = true → A !! vpn_indices va = Some entry →
        has_bits (new_flags op entry) PF_VALID = true ∧ has_bits (new_flags op entry) LEAF_PERMS = true
  end.

(** The abstract map: installing a leaf where nothing overlaps, changing the
    flags of a 4 KiB leaf, and the errors, which change nothing. *)
Inductive pt_spec (A : gmap (list nat) Z) : pt_op → result unit MapError → gmap (list nat) Z → Prop :=
| spec_map va pa flags :
    map_checks PAGE_SIZE va pa flags = None → ¬ overlaps A (vpn_indices va) →
    pt_spec A (PMap va pa flags) (Ok tt) (<[vpn_indices va := make_entry pa (effective_flags flags)]> A)
| spec_map_2m va pa flags :
    map_checks HUGE_PAGE_SIZE_2M va pa flags = None → ¬ overlaps A (take 2 (vpn_indices va)) →
    pt_spec A (PMap2M va pa flags) (Ok tt)
      (<[take 2 (vpn_indices va) := make_entry pa (effective_flags flags)]> A)
| spec_map_refused va pa flags e :
    map_checks PAGE_SIZE va pa flags = Some e → pt_spec A (PMap va pa flags) (Err e) A
| spec_map_overlap va pa flags :
    map_checks PAGE_SIZE va pa flags = None → overlaps A (vpn_indices va) →
    pt_spec A (PMap va pa flags) (Err MapOverlap) A
| spec_map_2m_refused va pa flags e :
    map_checks HUGE_PAGE_SIZE_2M va pa flags = Some e → pt_spec A (PMap2M va pa flags) (Err e) A
| spec_map_2m_overlap va pa flags :
    map_checks HUGE_PAGE_SIZE_2M va pa flags = None → overlaps A (take 2 (vpn_indices va)) →
    pt_spec A (PMap2M va pa flags) (Err MapOverlap) A
| spec_flags op va entry :
    flag_op_va op = Some va → va mod PAGE_SIZE = 0 → is_canonical_sv39 va = true →
    A !! vpn_indices va = Some entry →
    (flag_op_checked op = true → violates_wx (new_flags op entry) = false) →
    pt_spec A op (Ok tt) (<[vpn_indices va := with_flags entry (new_flags op entry)]> A)
| spec_flags_wx op va entry :
    flag_op_va op = Some va → flag_op_checked op = true → A !! vpn_indices va = Some entry →
    violates_wx (new_flags op entry) = true → pt_spec A op (Err MapPermissionDenied) A
| spec_flags_absent op va :
    flag_op_va op = Some va →
    va mod PAGE_SIZE ≠ 0 ∨ is_canonical_sv39 va = false ∨ A !! vpn_indices va = None →
    pt_spec A op (Err MapOutOfRange) A.

Lemma overlaps_tree_live G A φ leaf m p :
  pt_tree G (<[φ := leaf]> A) m p →
  (∀ π, π ≠ [] → is_Some (G !! π) → (∃ σ, is_Some (A !! (π ++ σ))) ∨ π `prefix_of` φ) →
  ∀ π, π ≠ [] → is_Some (G !! π) → ∃ σ, is_Some (<[φ := leaf]> A !! (π ++ σ)).
Proof.
  intros T H π Hne Hπ. destruct (H π Hne Hπ) as [[σ Hσ]|[k ->]].
  - exists σ. destruct (decide (φ = π ++ σ)) as [<-|Hd]; [rewrite lookup_insert_eq; eauto|by rewrite lookup_insert_ne].
  - exists k. rewrite lookup_insert_eq. eauto.
Qed.

Section Refinement.
Context (alloc : PtMem → option Z) `{!PageAllocator alloc}.

(** The loop gives up only when the allocator does. *)
Lemma map_loop_none L leaf ft m owned level table indices :
  map_loop alloc L leaf ft m owned level table indices = None → ∃ m1, alloc m1 = None.
Proof using.
  revert m owned level table. induction indices as [|i rest IH]; intros m owned level table; simpl; [done|].
  intros H. repeat case_match; simplify_eq; eauto. unfold alloc_page in *. case_match; simplify_eq; eauto.
Qed.

(** Both mapping operations, [n] being the length of the leaf path. *)
Lemma map_refines n leaf ft A m p va :
  (n = 2 ∨ n = 3)%nat → pt_rep A m p → leaf_ok (n - 1) leaf →
  let φ := take n (vpn_indices va) in
  match map_result p (map_loop alloc (n - 1) leaf ft m (pt_owned p) 0 (pt_root p) (vpn_indices va)) with
  | None => ∃ m1, alloc m1 = None
  | Some (Err e, m', p') => e = MapOverlap ∧ m' = m ∧ p' = p ∧ overlaps A φ
  | Some (Ok _, m', p') =>
      ¬ overlaps A φ ∧ pt_rep (<[φ := leaf]> A) m' p' ∧ pt_extends m (pt_owned p) m' (pt_owned p')
  end.
Proof using PageAllocator0.
  intros Hn (G & T & Hlive) Hleaf φ.
  pose proof (map_loop_spec alloc (n - 1) leaf ft (vpn_indices va) G A m p [] (pt_root p) T (tr_root _ _ _ _ T)
    (vpn_indices_bound va)) as H. change (@length nat []) with 0%nat in H.
  specialize (H ltac:(lia) ltac:(rewrite vpn_indices_length; lia) Hleaf).
  replace (S (n - 1) - 0)%nat with n in H by lia. fold φ in H. simpl app in H.
  assert (Hφ : φ ≠ []) by (unfold φ; rewrite vpn_indices_eq; destruct Hn as [-> | ->]; done).
  pose proof (path_taken_overlaps _ _ _ _ φ T Hlive Hφ) as Hov.
  destruct (map_loop _ _ _ _ _ _ _ _ _) as [[[[[]|e] m'] o']|] eqn:E; cbn [map_result map_loop_post pt_owned] in *.
  - destruct H as (Hfree & Hext & G' & T' & _ & Hnew). split_and!; [by rewrite <- Hov| |done].
    exists G'. split; [done|]. apply (overlaps_tree_live G' A φ leaf _ _ T').
    intros π Hne Hπ. destruct (Hnew _ Hπ); [left; by apply Hlive|by right].
  - destruct H as (-> & -> & -> & Htk). split_and!; try done; [by destruct p|by apply Hov].
  - by eapply map_loop_none.
Qed.

(** The leaf the flag operations act on. *)
Lemma flags_walk A m p va f :
  pt_rep A m p →
  match A !! vpn_indices va with
  | Some entry =>
      ∃ G t σ i, pt_tree G A m p ∧ vpn_indices va = σ ++ [i] ∧ length σ = 2%nat ∧ G !! σ = Some t ∧ (i < PT_ENTRIES)%nat ∧
        (∀ π, π ≠ [] → is_Some (G !! π) → ∃ σ, is_Some (A !! (π ++ σ))) ∧
        with_last_leaf m p va f =
          if (negb (va mod PAGE_SIZE =? 0) || negb (is_canonical_sv39 va))%bool then (Err MapOutOfRange, m)
          else match f entry with
               | Ok entry' => (Ok tt, pt_write m t i entry')
               | Err e => (Err e, m)
               end
  | None => with_last_leaf m p va f = (Err MapOutOfRange, m)
  end.
Proof using.
  intros (G & T & Hlive). unfold with_last_leaf.
  pose proof (walk_spec _ _ _ _ T [] (pt_root p) (vpn_indices va) (tr_root _ _ _ _ T) (vpn_indices_bound va) eq_refl) as H.
  change (@length nat []) with 0%nat in H.
  assert (Hlast : spec_walk A [] (vpn_indices va) = None → A !! vpn_indices va = None).
  { rewrite vpn_indices_eq. cbn [spec_walk app]. repeat case_match; done. }
  destruct (pt_walk m 0 (pt_root p) (vpn_indices va)) as [|level t i e|].
  1, 3: rewrite (Hlast H); by destruct (_ || _)%bool.
  destruct H as (_ & σ & τ & Hv & Hl & Ht & He). simpl in Hl, Ht, He.
  destruct (decide (τ = [])) as [->|Hτ].
  - rewrite Hv, He. exists G, t, σ, i.
    assert (Hl2 : length σ = 2%nat).
    { apply (f_equal length) in Hv. rewrite length_app, vpn_indices_length in Hv. simpl in Hv. lia. }
    split_and!; try done.
    + pose proof (vpn_indices_bound va) as Hb. rewrite Hv, Forall_app, Forall_singleton in Hb. apply Hb.
    + rewrite Hl, Hl2. done.
  - assert (Hshort : (length σ < 2)%nat).
    { apply (f_equal length) in Hv. rewrite length_app, vpn_indices_length in Hv. simpl in Hv. destruct τ; [done|].
      simpl in Hv. lia. }
    replace (A !! vpn_indices va) with (@None Z).
    + rewrite Hl. destruct (length σ) as [|[|]]; [by destruct (_ || _)%bool..|lia].
    + symmetry. apply eq_None_not_Some. rewrite Hv. replace (σ ++ i :: τ) with ((σ ++ [i]) ++ τ) by (by rewrite <- app_assoc).
      intros Hs. apply (tree_leaf_ancestor _ _ _ _ T) in Hs; [|done].
      rewrite (tree_disjoint _ _ _ _ T _ Hs) in He. done.
Qed.

Lemma new_flags_bound A op entry : pt_op_wf A op → 0 ≤ new_flags op entry < 1024.
Proof using.
  assert (H : ∀ x, 0 ≤ Z.land x 1023 < 2 ^ 10) by (intros; apply land_bound; lia).
  unfold flags_wf. destruct op as [| |va set|va clear set|va set]; simpl; intros Hwf; try lia.
  - apply (lor_bound 10); [lia|done|unfold flags_wf in *; lia].
  - apply (lor_bound 10); [lia| |unfold flags_wf in *; lia]. rewrite Z.land_comm. apply land_bound; [lia|done].
  - apply (lor_bound 10); [lia|done|unfold flags_wf in *; lia].
Qed.

(** Setting flags keeps what was set. *)
Lemma new_flags_leaf A op va entry :
  pt_op_wf A op → flag_op_va op = Some va → va mod PAGE_SIZE = 0 → is_canonical_sv39 va = true →
  A !! vpn_indices va = Some entry → leaf_ok 2 entry →
  leaf_ok 2 (with_flags entry (new_flags op entry)).
Proof using.
  intros Hwf Hva Hal Hcan He (Hw & Hv & Hp & _). pose proof (new_flags_bound A op entry Hwf) as Hb.
  assert (Hnv : has_bits (new_flags op entry) PF_VALID = true ∧ has_bits (new_flags op entry) LEAF_PERMS = true).
  { destruct op as [| |va' set|va' clear set|va' set]; simplify_eq/=; [|by apply Hwf|];
      rewrite has_valid, has_leaf in *; rewrite !Z.lor_spec, !Z.land_spec;
      change 1023 with (Z.ones 10); rewrite !Z.testbit_ones_nonneg by lia;
      change (0 <? 10) with true; change (1 <? 10) with true; change (2 <? 10) with true; change (3 <? 10) with true;
      rewrite !andb_true_r; (split; [by rewrite Hv|]);
      destruct (Z.testbit entry 1), (Z.testbit entry 2), (Z.testbit entry 3); try done; by rewrite ?orb_true_r. }
  unfold leaf_ok. rewrite has_valid, has_leaf in *. rewrite !with_flags_testbit by lia. split_and!; try apply Hnv; try lia.
  apply (lor_bound 64); [lia| |lia]. rewrite Z.land_comm. apply land_bound; [lia|done].
Qed.

Lemma flags_refines A m p op va :
  pt_rep A m p → pt_op_wf A op → flag_op_va op = Some va →
  let check entry := (flag_op_checked op && violates_wx (new_flags op entry))%bool in
  let f entry := if check entry then Err MapPermissionDenied else Ok (with_flags entry (new_flags op entry)) in
  ∃ A', pt_spec A op (with_last_leaf m p va f).1 A' ∧ pt_rep A' (with_last_leaf m p va f).2 p ∧
        pt_extends m (pt_owned p) (with_last_leaf m p va f).2 (pt_owned p) ∧
        (is_ok (with_last_leaf m p va f).1 = false → (with_last_leaf m p va f).2 = m).
Proof using.
  intros Hrep Hwf Hva check f. pose proof (flags_walk A m p va f Hrep) as Hw.
  destruct (A !! vpn_indices va) as [entry|] eqn:He.
  2: { rewrite Hw. exists A. split_and!; try done; [eapply spec_flags_absent; eauto|apply pt_extends_refl]. }
  destruct Hw as (G & t & σ & i & T & Hv & Hl & Ht & Hi & Hlive & ->).
  destruct (negb (va mod PAGE_SIZE =? 0) || negb (is_canonical_sv39 va))%bool eqn:Eg.
  { exists A. split_and!; try done; [|apply pt_extends_refl]. eapply spec_flags_absent; [done|].
    apply orb_true_iff in Eg as [Eg|Eg]; simpl_bool; auto. }
  simpl_bool. unfold f. destruct (check entry) eqn:Ec; unfold check in Ec; simpl.
  { apply andb_true_iff in Ec as [Ec1 Ec2]. exists A. split_and!; try done; [|apply pt_extends_refl].
    by eapply spec_flags_wx. }
  destruct (tr_page _ _ _ _ T _ _ Ht) as (_ & _ & Hown & es & Hes & _).
  assert (Hg : G !! (σ ++ [i]) = None).
  { apply eq_None_not_Some. intros Hs. rewrite Hv, (tree_disjoint _ _ _ _ T _ Hs) in He. done. }
  pose proof (tr_entry _ _ _ _ T σ t i Ht Hi) as Hent. unfold entry_rep in Hent. rewrite Hg, <- Hv, He in Hent.
  destruct Hent as [_ Hleaf]. rewrite Hl in Hleaf.
  assert (Hleaf' : leaf_ok 2 (with_flags entry (new_flags op entry))) by (by eapply new_flags_leaf).
  exists (<[vpn_indices va := with_flags entry (new_flags op entry)]> A). split_and!; try done.
  - eapply spec_flags; try done. intros Hck. rewrite Hck in Ec. done.
  - exists G. rewrite Hv. split; [apply tree_set_leaf; [done..|by rewrite Hl]|].
    intros π Hne Hπ. destruct (Hlive π Hne Hπ) as [τ Hτ]. exists τ.
    destruct (decide (σ ++ [i] = π ++ τ)) as [<-|Hd]; [rewrite lookup_insert_eq; eauto|by rewrite lookup_insert_ne].
  - by eapply pt_extends_write.
Qed.

Lemma pt_exec_refines A m p op :
  pt_rep A m p → pt_op_wf A op →
  match pt_exec alloc m p op with
  | None => ∃ m1, alloc m1 = None
  | Some (r, m', p') =>
      ∃ A', pt_spec A op r A' ∧ pt_rep A' m' p' ∧ pt_extends m (pt_owned p) m' (pt_owned p') ∧
            (is_ok r = false → m' = m ∧ p' = p)
  end.
Proof using PageAllocator0.
  intros Hrep Hwf. destruct op as [va pa flags|va pa flags|va set|va clear set|va set]; cbn [pt_exec].
  - destruct Hwf as (Hva & Hpa & Hf). unfold PageTable_map. destruct (map_checks _ va pa flags) as [e|] eqn:Ec.
    { exists A. split_and!; try done; [by constructor|apply pt_extends_refl]. }
    destruct (mapped_leaf_ok 2 PAGE_SIZE va pa flags ltac:(lia) Hpa Hf Ec) as [Hleaf _].
    pose proof (map_refines 3 _ (Ok tt) A m p va ltac:(lia) Hrep Hleaf) as H. simpl Nat.sub in H.
    replace (take 3 (vpn_indices va)) with (vpn_indices va) in H by done.
    destruct (map_result _ _) as [[[[[]|e] m'] p']|]; [| |done].
    + destruct H as (Hfree & Hr & Hext). eexists. split_and!; [by constructor|done..].
    + destruct H as (-> & -> & -> & Hov). exists A. split_and!; try done; [by constructor|apply pt_extends_refl].
  - destruct Hwf as (Hva & Hpa & Hf). unfold PageTable_map_2m. destruct (map_checks _ va pa flags) as [e|] eqn:Ec.
    { exists A. split_and!; try done; [by constructor|apply pt_extends_refl]. }
    destruct (mapped_leaf_ok 1 HUGE_PAGE_SIZE_2M va pa flags ltac:(lia) Hpa Hf Ec) as [Hleaf _].
    pose proof (map_refines 2 _ (Err MapOutOfRange) A m p va ltac:(lia) Hrep Hleaf) as H. simpl Nat.sub in H.
    destruct (map_result _ _) as [[[[[]|e] m'] p']|]; [| |done].
    + destruct H as (Hfree & Hr & Hext). eexists. split_and!; [by constructor|done..].
    + destruct H as (-> & -> & -> & Hov). exists A. split_and!; try done; [by constructor|apply pt_extends_refl].
  - destruct (flags_refines A m p (PSetFlags va set) va Hrep Hwf eq_refl) as (A' & ? & ? & ? & Hm).
    exists A'. split_and!; try done. intros Hr. split; [by apply Hm|done].
  - destruct (flags_refines A m p (PUpdateFlags va clear set) va Hrep Hwf eq_refl) as (A' & ? & ? & ? & Hm).
    exists A'. split_and!; try done. intros Hr. split; [by apply Hm|done].
  - destruct (flags_refines A m p (PSetFlagsUnchecked va set) va Hrep Hwf eq_refl) as (A' & ? & ? & ? & Hm).
    exists A'. split_and!; try done. intros Hr. split; [by apply Hm|done].
Qed.

Lemma pt_new_rep m p m' :
  PageTable_new alloc m = Some (p, m') → pt_rep ∅ m' p ∧ pt_extends m [] m' (pt_owned p).
Proof using PageAllocator0.
  unfold PageTable_new, alloc_page. destruct (alloc m) as [a|] eqn:Ea; [|done]. intros [= <- <-].
  pose proof (page_alloc_addr _ _ Ea) as Hpa. pose proof (page_alloc_fresh _ _ Ea) as Hf.
  split; [|apply (pt_extends_new m []); done].
  exists {[ [] := a ]}. split.
  - split; simpl.
    + apply lookup_singleton_eq.
    + done.
    + intros π π' b. rewrite !lookup_singleton_Some. naive_solver.
    + intros π b. rewrite lookup_singleton_Some. intros [<- <-]. split_and!; [simpl; lia|done|set_solver|].
      exists PageTablePage_new. rewrite lookup_insert_eq. split; [done|apply length_replicate].
    + split; [apply NoDup_singleton|]. intros b ->%list_elem_of_singleton. exists []. apply lookup_singleton_eq.
    + intros π b i. rewrite lookup_singleton_Some. intros [<- <-] Hi. unfold entry_rep. simpl.
      rewrite lookup_singleton_ne, lookup_empty by done. rewrite pt_read_new by done. by rewrite decide_True.
    + intros π i [H|H]; [|rewrite lookup_empty in H; by destruct H].
      destruct H as [b Hb]. apply lookup_singleton_Some in Hb as [Hb _]. by destruct π.
  - intros π Hne [b Hb]. apply lookup_singleton_Some in Hb as [<- _]. done.
Qed.


(** ** Translation after mapping *)

Lemma spec_walk_insert_other A φ leaf π indices :
  ¬ φ `prefix_of` π ++ indices → spec_walk (<[φ := leaf]> A) π indices = spec_walk A π indices.
Proof using.
  revert π. induction indices as [|i rest IH]; intros π Hn; simpl; [done|].
  rewrite lookup_insert_ne.
  - rewrite IH; [done|]. rewrite <- app_assoc. done.
  - intros ->. apply Hn. exists rest. by rewrite <- app_assoc.
Qed.

Lemma spec_walk_insert_hit A φ leaf π σ rest :
  φ = π ++ σ → σ ≠ [] → (∀ τ, τ `prefix_of` φ → A !! τ = None) →
  spec_walk (<[φ := leaf]> A) π (σ ++ rest) = Some ((length φ - 1)%nat, leaf).
Proof using.
  revert π. induction σ as [|i σ IH]; intros π -> Hne Hfree; [done|]. simpl.
  destruct (decide (σ = [])) as [->|Hσ].
  - rewrite lookup_insert_eq. do 2 f_equal. rewrite length_app. simpl. lia.
  - rewrite lookup_insert_ne.
    + rewrite Hfree by (apply prefix_app; by exists σ).
      apply IH; [by rewrite <- app_assoc|done..].
    + intros H%app_inv_head. by simplify_eq.
Qed.

(** The page size of a leaf path of length [n]. *)
Definition page_size (huge : bool) : Z := if huge then HUGE_PAGE_SIZE_2M else PAGE_SIZE.
Definition map_any (m : PtMem) (p : PageTable) (huge : bool) (va pa flags : Z) :=
  if huge then PageTable_map_2m alloc m p va pa flags else PageTable_map alloc m p va pa flags.

Lemma map_any_refines A m p huge va pa flags m' p' :
  pt_rep A m p → in_width 64 va → in_width 64 pa → flags_wf flags →
  map_any m p huge va pa flags = Some (Ok tt, m', p') →
  let φ := take (if huge then 2 else 3) (vpn_indices va) in
  map_checks (page_size huge) va pa flags = None ∧ ¬ overlaps A φ ∧
  pt_rep (<[φ := make_entry pa (effective_flags flags)]> A) m' p'.
Proof using PageAllocator0.
  intros Hrep Hva Hpa Hf Hmap. destruct huge; simpl in *.
  - pose proof (pt_exec_refines A m p (PMap2M va pa flags) Hrep (conj Hva (conj Hpa Hf))) as H. simpl in H.
    rewrite Hmap in H. destruct H as (A' & Hspec & Hrep' & _). inversion Hspec; subst; [|done]. done.
  - pose proof (pt_exec_refines A m p (PMap va pa flags) Hrep (conj Hva (conj Hpa Hf))) as H. simpl in H.
    rewrite Hmap in H. destruct H as (A' & Hspec & Hrep' & _). inversion Hspec; subst; [|done].
    change (take 3 (vpn_indices va)) with (vpn_indices va). done.
Qed.

Lemma map_any_translate A m p huge va pa flags m' p' va' :
  pt_rep A m p → in_width 64 va → in_width 64 pa → flags_wf flags → in_width 64 va' →
  map_any m p huge va pa flags = Some (Ok tt, m', p') →
  PageTable_translate m' p' va' =
    if decide (va' / page_size huge = va / page_size huge) then Some (pa + va' mod page_size huge)
    else PageTable_translate m p va'.
Proof using PageAllocator0.
  intros Hrep Hva Hpa Hf Hva' Hmap.
  destruct (map_any_refines A m p huge va pa flags m' p' Hrep Hva Hpa Hf Hmap) as (Hck & Hfree & Hrep').
  destruct (map_checks_pass _ _ _ _ Hck) as (_ & Hal & Hcan & _).
  rewrite (translate_spec _ _ _ _ Hrep'), (translate_spec _ _ _ _ Hrep).
  set (n := if huge then 2%nat else 3%nat) in *. set (φ := take n (vpn_indices va)) in *.
  assert (Hpow : page_size huge = 2 ^ (if huge then 21 else 12)) by (by destruct huge).
  assert (Hsame : is_canonical_sv39 va' = true → φ `prefix_of` vpn_indices va' ↔ va' / page_size huge = va / page_size huge).
  { intros Hc'. transitivity (take n (vpn_indices va') = φ).
    - split.
      + intros [k Hk]. rewrite Hk. rewrite take_app_le; [|unfold φ, n; rewrite length_take, vpn_indices_length; destruct huge; simpl; lia].
        unfold φ. rewrite take_take. f_equal. lia.
      + intros <-. exists (drop n (vpn_indices va')). by rewrite take_drop.
    - unfold φ, n. destruct huge; [by apply same_page_2m|by apply same_page_4k]. }
  case_decide as Hpg.
  - assert (Hc' : is_canonical_sv39 va' = true).
    { apply (canonical_same_page (if huge then 21 else 12) va va'); try done; [destruct huge; lia|by rewrite <- Hpow]. }
    rewrite Hc'. apply (Hsame Hc') in Hpg as [k Hk]. rewrite Hk.
    rewrite (spec_walk_insert_hit A φ _ [] φ k); [|done| |].
    + simpl. rewrite (leaf_translate_make (length φ - 1)); try done.
      * f_equal. f_equal. f_equal. unfold φ. rewrite length_take, vpn_indices_length. unfold n. by destruct huge.
      * unfold φ, n. rewrite length_take, vpn_indices_length. destruct huge; lia.
      * by apply effective_flags_bound.
      * replace (2 ^ (12 + (2 - Z.of_nat (length φ - 1)) * 9)) with (page_size huge); [done|].
        unfold φ. rewrite length_take, vpn_indices_length. unfold n. by destruct huge.
    + unfold φ, n. by destruct huge.
    + intros τ Hτ. apply eq_None_not_Some. intros Hs. apply Hfree. exists τ. auto.
  - destruct (is_canonical_sv39 va') eqn:Hc'; [|done]. rewrite spec_walk_insert_other; [done|]. simpl.
    rewrite (Hsame eq_refl). done.
Qed.

(** Round trip of [map] and [translate].  After a successful mapping of a
    page (4 KiB or 2 MiB) every address of that page translates to the mapped
    frame plus its offset, and every other address translates exactly as
    before. *)
Theorem map_translate A m p huge va pa flags m' p' va' :
  pt_rep A m p → in_width 64 va → in_width 64 pa → flags_wf flags → in_width 64 va' →
  map_any m p huge va pa flags = Some (Ok tt, m', p') →
  PageTable_translate m' p' va' =
    if decide (va' / page_size huge = va / page_size huge) then Some (pa + va' mod page_size huge)
    else PageTable_translate m p va'.
Proof using PageAllocator0. apply map_any_translate. Qed.
End Refinement.
