(* ===== verification/PageTableSafety.v ===== *)
(** * Safety of the page tables

    W^X for every table built by the checked operations, and isolation: an
    operation on one page table changes nothing another one means. *)

From S2P Require Import Prelude PageTable PageTableProps PageTableLaws.

(** ** A concrete table *)

Definition demo_alloc : PtMem → option Z := window_alloc 0x80000000 16.

#[export] Instance demo_alloc_ok : PageAllocator demo_alloc.
Proof. apply window_alloc_ok; by apply TCEq_eq. Qed.

Definition demo_table : PageTable * PtMem := default (mkPageTable 0 [], ∅) (PageTable_new demo_alloc ∅).

Lemma demo_table_new : PageTable_new demo_alloc ∅ = Some demo_table.
Proof. unfold demo_table. by destruct (PageTable_new demo_alloc ∅) eqn:E. Qed.


Lemma demo_table_rep : pt_rep ∅ demo_table.2 demo_table.1.
Proof.
  apply (pt_new_rep demo_alloc ∅). rewrite <- surjective_pairing. apply demo_table_new.
Qed.

Lemma map_translate_witness :
  ∃ m' p', map_any demo_alloc demo_table.2 demo_table.1 false 4096 20480 3 = Some (Ok tt, m', p') ∧
           PageTable_translate m' p' 4660 = Some 21044.
Proof.
  destruct (map_any demo_alloc demo_table.2 demo_table.1 false 4096 20480 3) as [[[[[]|e] m'] p']|] eqn:E;
    [|vm_compute in E; discriminate|vm_compute in E; discriminate].
  exists m', p'. split; [reflexivity|].
  rewrite (map_translate demo_alloc ∅ _ _ false 4096 20480 3 m' p' 4660 demo_table_rep
    ltac:(unfold in_width; lia) ltac:(unfold in_width; lia) ltac:(unfold flags_wf; lia) ltac:(unfold in_width; lia) E).
  reflexivity.
Defined.

(** ** Frame *)

Lemma pt_read_frame m m' a i : m' !! a = m !! a → pt_read m' a i = pt_read m a i.
Proof. intros H. unfold pt_read. by rewrite H. Qed.

(** A table depends only on the pages it owns. *)
Lemma pt_rep_frame A m m' p :
  pt_rep A m p → (∀ a, a ∈ pt_owned p → m' !! a = m !! a) → pt_rep A m' p.
Proof.
  intros (G & T & Hlive) Heq. exists G. split; [|done]. split; try apply T.
  - intros π a Ha. destruct (tr_page _ _ _ _ T _ _ Ha) as (? & ? & Ho & ?). split_and!; try done. by rewrite Heq.
  - intros π a i Ha Hi. pose proof (tr_entry _ _ _ _ T π a i Ha Hi) as He.
    destruct (tr_page _ _ _ _ T _ _ Ha) as (_ & _ & Ho & _). unfold entry_rep in *.
    by rewrite (pt_read_frame m m') by auto.
Qed.

Lemma pt_rep_owned_mapped A m p a : pt_rep A m p → a ∈ pt_owned p → is_Some (m !! a).
Proof.
  intros (G & T & _) Ha. destruct (proj2 (tr_owned _ _ _ _ T) _ Ha) as [π Hπ].
  destruct (tr_page _ _ _ _ T _ _ Hπ) as (_ & _ & _ & es & Hes & _). eauto.
Qed.

Lemma pt_rep_other A m p o m' o' :
  pt_rep A m p → pt_extends m o m' o' → (∀ a, a ∈ o → ¬ a ∈ pt_owned p) →
  pt_rep A m' p ∧ (∀ a, a ∈ o' → ¬ a ∈ pt_owned p).
Proof.
  intros Hrep [F K (new & -> & N) D] Hdis. split.
  - apply (pt_rep_frame A m); [done|]. intros a Ha. apply F; [naive_solver|]. by eapply pt_rep_owned_mapped.
  - intros a [Ha|Ha]%elem_of_app; [by apply Hdis|]. intros Hp.
    destruct (pt_rep_owned_mapped _ _ _ _ Hrep Hp) as [? E]. rewrite (N _ Ha) in E. done.
Qed.

Lemma drop_lookup m p a : PageTable_drop m p !! a = if decide (a ∈ pt_owned p) then None else m !! a.
Proof.
  unfold PageTable_drop. induction (pt_owned p) as [|b l IH]; simpl; [done|].
  destruct (decide (b = a)) as [->|Hne].
  - rewrite lookup_delete_eq, decide_True; [done|by left].
  - rewrite lookup_delete_ne, IH by done. repeat case_decide; set_solver.
Qed.

(** C27: isolation of address translations.  Whatever operation is performed on
    one page table, and when it is dropped, every other page table that shares
    the memory and owns disjoint pages keeps its meaning and translates every
    address as before, and ownership stays disjoint. *)
Theorem page_tables_isolated alloc `{!PageAllocator alloc} A1 A2 m p1 p2 op r m' p1' :
  pt_rep A1 m p1 → pt_rep A2 m p2 → (∀ a, a ∈ pt_owned p1 → ¬ a ∈ pt_owned p2) → pt_op_wf A1 op →
  pt_exec alloc m p1 op = Some (r, m', p1') →
  pt_rep A2 m' p2 ∧ (∀ a, a ∈ pt_owned p1' → ¬ a ∈ pt_owned p2) ∧
  (∀ va, PageTable_translate m' p2 va = PageTable_translate m p2 va) ∧
  pt_rep A2 (PageTable_drop m' p1') p2.
Proof.
  intros H1 H2 Hdis Hwf Hex. pose proof (pt_exec_refines alloc A1 m p1 op H1 Hwf) as H. rewrite Hex in H.
  destruct H as (A' & _ & _ & Hext & _). destruct (pt_rep_other _ _ _ _ _ _ H2 Hext Hdis) as [H2' Hdis'].
  split_and!; try done.
  - intros va. by rewrite (translate_spec _ _ _ _ H2'), (translate_spec _ _ _ _ H2).
  - apply (pt_rep_frame A2 m'); [done|]. intros a Ha. rewrite drop_lookup, decide_False; [done|].
    intros Ha'. by apply (Hdis' _ Ha').
Qed.

Definition demo_pair : PageTable * PtMem := default (mkPageTable 0 [], ∅) (PageTable_new demo_alloc demo_table.2).

Lemma page_tables_isolated_witness :
  ∃ r m' p1', pt_exec demo_alloc demo_pair.2 demo_pair.1 (PMap 4096 20480 3) = Some (r, m', p1') ∧
  ∀ va, PageTable_translate m' demo_table.1 va = PageTable_translate demo_pair.2 demo_table.1 va.
Proof.
  assert (E : PageTable_new demo_alloc demo_table.2 = Some (demo_pair.1, demo_pair.2)).
  { rewrite <- surjective_pairing. unfold demo_pair. destruct (PageTable_new demo_alloc demo_table.2) eqn:E; [done|].
    vm_compute in E. discriminate. }
  destruct (pt_new_rep demo_alloc _ _ _ E) as [H1 Hext].
  destruct (pt_rep_other ∅ demo_table.2 demo_table.1 [] _ _ demo_table_rep Hext) as [H2 Hdis]; [set_solver|].
  destruct (pt_exec demo_alloc demo_pair.2 demo_pair.1 (PMap 4096 20480 3)) as [[[r m'] p1']|] eqn:Ex;
    [|vm_compute in Ex; discriminate].
  exists r, m', p1'. split; [reflexivity|].
  apply (page_tables_isolated demo_alloc ∅ ∅ demo_pair.2 demo_pair.1 demo_table.1 (PMap 4096 20480 3) r m' p1'); try done.
Defined.

(** ** W^X *)

Definition wx_ok (A : gmap (list nat) Z) : Prop := ∀ φ e, A !! φ = Some e → violates_wx e = false.

Lemma wx_ok_insert A φ e : wx_ok A → violates_wx e = false → wx_ok (<[φ := e]> A).
Proof.
  intros Hwx He ψ x. destruct (decide (φ = ψ)) as [<-|Hne].
  - rewrite lookup_insert_eq. by intros [= <-].
  - rewrite lookup_insert_ne by done. apply Hwx.
Qed.

Lemma with_flags_wx e f : 0 ≤ f < 1024 → violates_wx (with_flags e f) = violates_wx f.
Proof. intros Hf. unfold violates_wx. by rewrite !has_write, !has_execute, !with_flags_testbit by lia. Qed.

Definition checked (op : pt_op) : Prop := match op with PSetFlagsUnchecked _ _ => False | _ => True end.

Lemma pt_spec_wx A op r A' : pt_spec A op r A' → pt_op_wf A op → checked op → wx_ok A → wx_ok A'.
Proof.
  intros Hs Hwf Hck Hwx. destruct Hs; try done.
  - apply wx_ok_insert; [done|]. destruct Hwf as (_ & ? & ?). by eapply (mapped_leaf_ok 2 PAGE_SIZE); [lia|..].
  - apply wx_ok_insert; [done|]. destruct Hwf as (_ & ? & ?). by eapply (mapped_leaf_ok 1 HUGE_PAGE_SIZE_2M); [lia|..].
  - apply wx_ok_insert; [done|]. rewrite with_flags_wx by (by eapply new_flags_bound).
    match goal with H : _ → violates_wx _ = false |- _ => apply H end. by destruct op.
Qed.

Lemma lookup_spec A m p va :
  pt_rep A m p → va mod PAGE_SIZE = 0 → is_canonical_sv39 va = true →
  PageTable_lookup m p va = snd <$> spec_walk A [] (vpn_indices va).
Proof.
  intros H Hal Hc. pose proof (pt_rep_walk A m p va H) as Hw. unfold PageTable_lookup.
  rewrite Hal, Hc. cbn [negb orb Z.eqb].
  destruct (pt_walk _ _ _ _) as [|level t i e|]; [by rewrite Hw|by destruct Hw as [-> _]|by rewrite Hw].
Qed.

(** A 4 KiB leaf is what [lookup] finds. *)
Lemma lookup_leaf A m p va e :
  pt_rep A m p → va mod PAGE_SIZE = 0 → is_canonical_sv39 va = true → A !! vpn_indices va = Some e →
  PageTable_lookup m p va = Some e.
Proof.
  intros H Hal Hc He. pose proof (flags_walk A m p va (fun _ => Err MapOutOfRange) H) as Hw. rewrite He in Hw.
  destruct Hw as (G & t & σ & i & T & Hv & Hl & Ht & Hi & _ & _). rewrite (lookup_spec A) by done.
  assert (Hn : ∀ τ k, σ = τ ++ k → A !! τ = None).
  { intros τ k ->. apply (tree_disjoint _ _ _ _ T), (tree_ancestor _ _ _ _ T τ k). eauto. }
  destruct σ as [|a [|b [|]]]; try done. rewrite Hv in He |- *. simpl in *.
  rewrite (Hn [a] [b]), (Hn [a; b] []) by done. by rewrite He.
Qed.

(** Every state of a page table that checked operations can reach, operations
    on other tables in between included. *)
Inductive pt_reach (alloc : PtMem → option Z) : PtMem → PageTable → Prop :=
| reach_new m p m' : PageTable_new alloc m = Some (p, m') → pt_reach alloc m' p
| reach_map m p va pa flags r m' p' :
    pt_reach alloc m p → in_width 64 va → in_width 64 pa → flags_wf flags →
    PageTable_map alloc m p va pa flags = Some (r, m', p') → pt_reach alloc m' p'
| reach_map_2m m p va pa flags r m' p' :
    pt_reach alloc m p → in_width 64 va → in_width 64 pa → flags_wf flags →
    PageTable_map_2m alloc m p va pa flags = Some (r, m', p') → pt_reach alloc m' p'
| reach_set m p va set :
    pt_reach alloc m p → in_width 64 va → flags_wf set →
    pt_reach alloc (PageTable_set_leaf_flags m p va set).2 p
| reach_update m p va clear set :
    pt_reach alloc m p → in_width 64 va → flags_wf clear → flags_wf set →
    (∀ e, PageTable_lookup m p va = Some e →
       has_bits (new_flags (PUpdateFlags va clear set) e) PF_VALID = true ∧
       has_bits (new_flags (PUpdateFlags va clear set) e) LEAF_PERMS = true) →
    pt_reach alloc (PageTable_update_leaf_flags m p va clear set).2 p
| reach_other m p o m' o' :
    pt_reach alloc m p → pt_extends m o m' o' → (∀ a, a ∈ o → ¬ a ∈ pt_owned p) → pt_reach alloc m' p.

Lemma exec_keeps_wx alloc `{!PageAllocator alloc} A m p op r m' p' :
  pt_rep A m p → wx_ok A → pt_op_wf A op → checked op → pt_exec alloc m p op = Some (r, m', p') →
  ∃ A', pt_rep A' m' p' ∧ wx_ok A'.
Proof.
  intros Hrep Hwx Hwf Hck Hex. pose proof (pt_exec_refines alloc A m p op Hrep Hwf) as H. rewrite Hex in H.
  destruct H as (A' & Hs & Hr & _). exists A'. split; [done|]. by eapply pt_spec_wx.
Qed.

Lemma reach_rep alloc `{!PageAllocator alloc} m p : pt_reach alloc m p → ∃ A, pt_rep A m p ∧ wx_ok A.
Proof.
  induction 1 as [m p m' Hnew|m p va pa flags r m' p' _ (A & Hr & Hwx) Hva Hpa Hf Hm
                 |m p va pa flags r m' p' _ (A & Hr & Hwx) Hva Hpa Hf Hm|m p va set _ (A & Hr & Hwx) Hva Hf
                 |m p va clear set _ (A & Hr & Hwx) Hva Hc Hf Hk|m p o m' o' _ (A & Hr & Hwx) Hext Hdis].
  - exists ∅. split; [by eapply pt_new_rep|]. intros φ e. by rewrite lookup_empty.
  - by eapply (exec_keeps_wx alloc A m p (PMap va pa flags)).
  - by eapply (exec_keeps_wx alloc A m p (PMap2M va pa flags)).
  - by eapply (exec_keeps_wx alloc A m p (PSetFlags va set)).
  - eapply (exec_keeps_wx alloc A m p (PUpdateFlags va clear set)); try done.
    split_and!; try done. intros e Hal Hcan He. apply Hk. by eapply lookup_leaf.
  - exists A. split; [|done]. by eapply pt_rep_other.
Qed.

(** *** The invariant checker accepts well-formed tables *)

Lemma verify_entries_ok walk es :
  (∀ i e, es !! i = Some e → verify_entry walk e = Ok tt) → verify_entries walk es = Ok tt.
Proof.
  induction es as [|e es IH]; intros H; simpl; [done|]. rewrite (H 0%nat e) by done. simpl.
  apply IH. intros i x Hx. by apply (H (S i)).
Qed.

Lemma verify_walk_ok G A m p fuel π a :
  pt_tree G A m p → wx_ok A → G !! π = Some a → (length π + fuel = 3)%nat → verify_walk fuel m a = Ok tt.
Proof.
  intros T Hwx. revert π a. induction fuel as [|fuel IH]; intros π a Ha Hlen;
    destruct (tr_page _ _ _ _ T _ _ Ha) as (Hl & _ & _ & es & Hes & Hesl); [lia|].
  cbn [verify_walk]. rewrite Hes. simpl. apply verify_entries_ok. intros i e He.
  assert (Hi : (i < PT_ENTRIES)%nat) by (apply lookup_lt_Some in He; lia).
  pose proof (tr_entry _ _ _ _ T π a i Ha Hi) as Hrep. unfold entry_rep in Hrep.
  assert (Hrd : pt_read m a i = e) by (unfold pt_read; rewrite Hes; simpl; by rewrite He).
  rewrite Hrd in Hrep. unfold verify_entry.
  destruct (G !! (π ++ [i])) as [b|] eqn:Eg, (A !! (π ++ [i])) as [x|] eqn:Ea; [done| | |].
  - destruct (tr_page _ _ _ _ T _ _ Eg) as (_ & Hpa & _). subst e.
    assert (Hb : 0 ≤ b < 2 ^ 64) by (unfold page_addr in Hpa; lia).
    rewrite !make_entry_bits by (done || unfold PF_VALID, LEAF_PERMS, PF_WRITE, PF_EXECUTE; lia).
    rewrite make_entry_next by (done || unfold PF_VALID; lia). simpl.
    rewrite (IH (π ++ [i]) b Eg) by (rewrite length_app; simpl; lia). by destruct (_ =? 0).
  - destruct Hrep as [-> (_ & Hv & Hp & _)]. rewrite Hv, Hp. simpl.
    pose proof (Hwx _ _ Ea) as Hw. unfold violates_wx in Hw. rewrite Hw. by destruct (_ =? 0).
  - by subst e.
Qed.


