(* ===== verification/AddressSpace.v ===== *)
(** * Address spaces ([source/kernel/neuron/src/mm/address_space.rs], [mm/mod.rs])

    The ASID allocator with its quarantine, the identity map of the kernel
    segments every address space starts with, and the manager that hands out
    handles.

    The linker symbols and the number of stack guard pages (a build option) are
    the record [KernelLayout].  The TLB shootdown is hardware: the allocator
    reports that it asked for one.  Counters, traces and the SATP switch are
    left out; the target build (riscv64, bare metal) is modelled. *)

From S2P Require Import Prelude PageTable.

(** ** ASIDs *)

Definition MAX_ASIDS : Z := 256.
Definition WORD_BITS : Z := 64.
Definition BITMAP_WORDS : nat := 4.

Record AsidAllocator := mkAsidAllocator {
  aa_bitmap : list Z;
  aa_next : Z;
  aa_quarantined : list Z
}.

(** [words[index / 64] & (1 << (index % 64)) != 0] and [words[..] |= 1 << ..]. *)
Definition bitmap_test (words : list Z) (index : Z) : bool :=
  has_bits (default 0 (words !! Z.to_nat (index / WORD_BITS))) (Z.shiftl 1 (index mod WORD_BITS)).
Definition bitmap_set (words : list Z) (index : Z) : list Z :=
  let w := Z.to_nat (index / WORD_BITS) in
  <[w := Z.lor (default 0 (words !! w)) (Z.shiftl 1 (index mod WORD_BITS))]> words.

Definition AsidAllocator_new : AsidAllocator :=
  mkAsidAllocator [1; 0; 0; 0] 1 (replicate BITMAP_WORDS 0).

(** [for _ in 0..MAX_ASIDS]. *)
Fixpoint try_allocate_loop (rounds : nat) (bitmap : list Z) (next : Z) : option Z * list Z * Z :=
  match rounds with
  | O => (None, bitmap, next)
  | S rounds' =>
      let index := next mod MAX_ASIDS in
      let next' := (index + 1) mod MAX_ASIDS in
      if bitmap_test bitmap index then try_allocate_loop rounds' bitmap next'
      else (Some index, bitmap_set bitmap index, next')
  end.

Definition AsidAllocator_try_allocate (a : AsidAllocator) : option Z * AsidAllocator :=
  let '(asid, bitmap, next) := try_allocate_loop (Z.to_nat MAX_ASIDS) (aa_bitmap a) (aa_next a) in
  (asid, mkAsidAllocator bitmap next (aa_quarantined a)).

(** [!x] on [u64]. *)
Definition not64 (x : Z) : Z := max_of 64 - x.

Definition AsidAllocator_release_quarantined (a : AsidAllocator) : AsidAllocator :=
  let cleared := zip_with (fun b q => Z.land b (not64 q)) (aa_bitmap a) (aa_quarantined a) in
  mkAsidAllocator (bitmap_set cleared 0) (aa_next a) (map (fun _ => 0) (aa_quarantined a)).

(** The middle component tells whether [shootdown_all] was performed. *)
Definition AsidAllocator_allocate (a : AsidAllocator) : option Z * bool * AsidAllocator :=
  match AsidAllocator_try_allocate a with
  | (Some asid, a1) => (Some asid, false, a1)
  | (None, a1) =>
      let '(asid, a2) := AsidAllocator_try_allocate (AsidAllocator_release_quarantined a1) in
      (asid, true, a2)
  end.

Definition AsidAllocator_free (a : AsidAllocator) (asid : Z) : AsidAllocator :=
  if asid <? MAX_ASIDS
  then mkAsidAllocator (aa_bitmap a) (aa_next a) (bitmap_set (aa_quarantined a) asid)
  else a.

(** ** The kernel segments *)

Record KernelLayout := mkKernelLayout {
  kl_text_start : Z; kl_text_end : Z;
  kl_bss_end : Z;
  kl_stack_bottom : Z; kl_stack_top : Z;
  kl_selftest_stack_base : Z; kl_selftest_stack_top : Z;
  kl_satp_island_stack_base : Z; kl_satp_island_stack_top : Z;
  kl_stack_guard_pages : Z
}.

Definition USER_VMO_ARENA_LEN : Z := 224 * 1024 * 1024.
Definition USER_VMO_ARENA_BASE : Z := 0x83800000.
Definition KERNEL_PAGE_POOL_BASE : Z := 0x82000000.
Definition KERNEL_PAGE_POOL_LEN : Z := 24 * 1024 * 1024.

Definition align_down (addr : Z) : Z := Z.land addr (not64 (PAGE_SIZE - 1)).
Definition align_up (addr : Z) : Z :=
  let rem := addr mod PAGE_SIZE in
  if rem =? 0 then addr
  else default (Z.land (max_of 64) (not64 (PAGE_SIZE - 1))) (checked_add 64 addr (PAGE_SIZE - rem)).

(** The [while addr < end] loop.  Every round advances by at least a page, so
    the number of pages of the range is enough fuel; running out of it or of
    memory is [None]. *)
Fixpoint identity_loop (alloc : PtMem → option Z) (fuel : nat) (m : PtMem) (p : PageTable) (addr end_ flags : Z) :
    option (result unit MapError * PtMem * PageTable) :=
  if end_ <=? addr then Some (Ok tt, m, p)
  else match fuel with
       | O => None
       | S fuel' =>
           let remaining := end_ - addr in
           let huge := ((addr mod HUGE_PAGE_SIZE_2M =? 0) && (HUGE_PAGE_SIZE_2M <=? remaining))%bool in
           let step := if huge then HUGE_PAGE_SIZE_2M else PAGE_SIZE in
           match (if huge then PageTable_map_2m alloc m p addr addr flags else PageTable_map alloc m p addr addr flags) with
           | None => None
           | Some (Err e, m1, p1) => Some (Err e, m1, p1)
           | Some (Ok _, m1, p1) =>
               match checked_add 64 addr step with
               | None => Some (Err MapOutOfRange, m1, p1)
               | Some addr' => identity_loop alloc fuel' m1 p1 addr' end_ flags
               end
           end
       end.

Definition map_identity_range (alloc : PtMem → option Z) (m : PtMem) (p : PageTable) (start end_ flags : Z) :
    option (result unit MapError * PtMem * PageTable) :=
  if end_ <=? start then Some (Ok tt, m, p)
  else identity_loop alloc (S (Z.to_nat ((end_ - start) / PAGE_SIZE))) m p start end_ flags.

(** What [map_kernel_segments] does, in order: map a range, or fail. *)
Inductive seg_step := SegMap (start end_ flags : Z) | SegFail.

Definition RX_GLOBAL : Z := Z.lor (Z.lor PF_VALID PF_READ) (Z.lor PF_EXECUTE PF_GLOBAL).
Definition RW_GLOBAL : Z := Z.lor (Z.lor PF_VALID PF_READ) (Z.lor PF_WRITE PF_GLOBAL).

Definition UART_BASE : Z := 0x10000000.
Definition UART_LEN : Z := 0x1000.
Definition PLIC_BASE : Z := 0x0c000000.
Definition PLIC_LEN : Z := 0x600000.
Definition FW_CFG_BASE : Z := 0x10100000.
Definition FW_CFG_LEN : Z := 0x1000.

(** A stack that is mapped unless the data range already covers it. *)
Definition stack_step (data_start data_end start end_ : Z) : list seg_step :=
  if start <? end_ then
    if ((start <? data_end) && (data_start <? end_))%bool then [] else [SegMap start end_ RW_GLOBAL]
  else [].

(** The fixed windows: page pool, user stack pool, VMO arena and device registers. *)
Definition window_segments : list seg_step :=
  [SegMap KERNEL_PAGE_POOL_BASE (KERNEL_PAGE_POOL_BASE + KERNEL_PAGE_POOL_LEN) RW_GLOBAL;
   SegMap 0x80000000 (0x80000000 + 0x200000) RW_GLOBAL] ++
  match checked_add 64 (align_up USER_VMO_ARENA_BASE) USER_VMO_ARENA_LEN with
  | None => [SegFail]
  | Some vmo_end => [SegMap (align_up USER_VMO_ARENA_BASE) vmo_end RW_GLOBAL]
  end ++
  [SegMap (align_down UART_BASE) (align_up (UART_BASE + UART_LEN)) RW_GLOBAL;
   SegMap (align_down PLIC_BASE) (align_up (PLIC_BASE + PLIC_LEN)) RW_GLOBAL;
   SegMap (align_down FW_CFG_BASE) (align_up (FW_CFG_BASE + FW_CFG_LEN)) RW_GLOBAL].

(** The kernel image, its stacks, and the windows. *)
Definition kernel_segments (k : KernelLayout) : list seg_step :=
  let text_start := align_down (kl_text_start k) in
  let text_end := align_up (kl_text_end k) in
  let data_start := text_end in
  let data_end := align_up (kl_bss_end k) in
  let stack_start := align_down (kl_stack_bottom k) in
  let stack_end := align_up (kl_stack_top k) in
  (if text_end <=? text_start then [SegFail] else [SegMap text_start text_end RX_GLOBAL]) ++
  [SegMap data_start data_end RW_GLOBAL] ++
  (if stack_end <=? stack_start then [SegFail]
   else match checked_add 64 stack_start (kl_stack_guard_pages k * PAGE_SIZE) with
        | None => [SegFail]
        | Some mapped_start =>
            let map_from := Z.max mapped_start data_end in
            if map_from <? stack_end then [SegMap map_from stack_end RW_GLOBAL] else []
        end) ++
  stack_step data_start data_end (align_down (kl_satp_island_stack_base k)) (align_up (kl_satp_island_stack_top k)) ++
  stack_step data_start data_end (align_down (kl_selftest_stack_base k)) (align_up (kl_selftest_stack_top k)) ++
  window_segments.

Fixpoint run_segments (alloc : PtMem → option Z) (m : PtMem) (p : PageTable) (steps : list seg_step) :
    option (result unit MapError * PtMem * PageTable) :=
  match steps with
  | [] => Some (Ok tt, m, p)
  | SegFail :: _ => Some (Err MapOutOfRange, m, p)
  | SegMap start end_ flags :: rest =>
      match map_identity_range alloc m p start end_ flags with
      | Some (Ok _, m1, p1) => run_segments alloc m1 p1 rest
      | r => r
      end
  end.

Definition map_kernel_segments (alloc : PtMem → option Z) (k : KernelLayout) (m : PtMem) (p : PageTable) :
    option (result unit MapError * PtMem * PageTable) := run_segments alloc m p (kernel_segments k).

(** ** Address spaces *)

Inductive AddressSpaceError :=
| AsInvalidHandle | AsAsidExhausted | AsInUse | AsUnsupported | AsMapping (e : MapError) | AsInvalidArgs.

Record AddressSpace := mkAddressSpace {
  as_page_table : PageTable;
  as_asid : Z;
  as_owners : gset Z
}.

(** On a mapping error the half-built page table is dropped. *)
Definition AddressSpace_new (alloc : PtMem → option Z) (k : KernelLayout) (m : PtMem) (asid : Z) :
    option (result AddressSpace MapError * PtMem) :=
  match PageTable_new alloc m with
  | None => None
  | Some (p, m1) =>
      match map_kernel_segments alloc k m1 p with
      | None => None
      | Some (Ok _, m2, p2) => Some (Ok (mkAddressSpace p2 asid ∅), m2)
      | Some (Err e, m2, p2) => Some (Err e, PageTable_drop m2 p2)
      end
  end.

Definition AddressSpace_satp_value (s : AddressSpace) : Z :=
  Z.lor (Z.lor (Z.shiftl 8 60) (Z.shiftl (as_asid s) 44)) (PageTable_root_ppn (as_page_table s)).

Record AddressSpaceManager := mkAddressSpaceManager {
  am_spaces : list (option AddressSpace);
  am_asids : AsidAllocator
}.

Definition AddressSpaceManager_new : AddressSpaceManager := mkAddressSpaceManager [] AsidAllocator_new.

(** A handle is the table index plus one. *)
Definition handle_from_index (index : nat) : Z := Z.of_nat index + 1.
Definition handle_index (handle : Z) : nat := Z.to_nat (handle - 1).

Definition am_put (mg : AddressSpaceManager) (index : nat) (s : option AddressSpace) : AddressSpaceManager :=
  mkAddressSpaceManager (<[index := s]> (am_spaces mg)) (am_asids mg).

(** The first free slot, or a new one at the end. *)
Fixpoint place_space (spaces : list (option AddressSpace)) (s : AddressSpace) (index : nat) :
    nat * list (option AddressSpace) :=
  match spaces with
  | [] => (index, [Some s])
  | None :: rest => (index, Some s :: rest)
  | Some x :: rest => let '(i, rest') := place_space rest s (S index) in (i, Some x :: rest')
  end.

Definition AddressSpaceManager_create (alloc : PtMem → option Z) (k : KernelLayout) (m : PtMem)
    (mg : AddressSpaceManager) : option (result Z AddressSpaceError * PtMem * AddressSpaceManager) :=
  match AsidAllocator_allocate (am_asids mg) with
  | (None, _, asids) => Some (Err AsAsidExhausted, m, mkAddressSpaceManager (am_spaces mg) asids)
  | (Some asid, _, asids) =>
      match AddressSpace_new alloc k m asid with
      | None => None
      | Some (Err e, m1) =>
          Some (Err (AsMapping e), m1, mkAddressSpaceManager (am_spaces mg) (AsidAllocator_free asids asid))
      | Some (Ok space, m1) =>
          let '(index, spaces) := place_space (am_spaces mg) space 0 in
          Some (Ok (handle_from_index index), m1, mkAddressSpaceManager spaces asids)
      end
  end.

Definition AddressSpaceManager_get (mg : AddressSpaceManager) (handle : Z) : result AddressSpace AddressSpaceError :=
  ok_or (am_spaces mg !! handle_index handle ≫= id) AsInvalidHandle.

Definition AddressSpaceManager_attach (mg : AddressSpaceManager) (handle pid : Z) :
    result unit AddressSpaceError * AddressSpaceManager :=
  match AddressSpaceManager_get mg handle with
  | Err e => (Err e, mg)
  | Ok s => (Ok tt, am_put mg (handle_index handle)
                      (Some (mkAddressSpace (as_page_table s) (as_asid s) ({[pid]} ∪ as_owners s))))
  end.

Definition AddressSpaceManager_detach (mg : AddressSpaceManager) (handle pid : Z) :
    result unit AddressSpaceError * AddressSpaceManager :=
  match AddressSpaceManager_get mg handle with
  | Err e => (Err e, mg)
  | Ok s => (Ok tt, am_put mg (handle_index handle)
                      (Some (mkAddressSpace (as_page_table s) (as_asid s) (as_owners s ∖ {[pid]}))))
  end.

(** Clearing the slot drops the address space and with it its page table. *)
Definition AddressSpaceManager_destroy (m : PtMem) (mg : AddressSpaceManager) (handle : Z) :
    result unit AddressSpaceError * PtMem * AddressSpaceManager :=
  match am_spaces mg !! handle_index handle with
  | None | Some None => (Err AsInvalidHandle, m, mg)
  | Some (Some s) =>
      if negb (bool_decide (size (as_owners s) = 0%nat)) then (Err AsInUse, m, mg)
      else (Ok tt, PageTable_drop m (as_page_table s),
            mkAddressSpaceManager (<[handle_index handle := None]> (am_spaces mg))
              (AsidAllocator_free (am_asids mg) (as_asid s)))
  end.

Definition as_set_table (s : AddressSpace) (p : PageTable) : AddressSpace :=
  mkAddressSpace p (as_asid s) (as_owners s).

Definition AddressSpaceManager_set_leaf_flags (m : PtMem) (mg : AddressSpaceManager) (handle va set : Z) :
    result unit AddressSpaceError * PtMem :=
  match AddressSpaceManager_get mg handle with
  | Err e => (Err e, m)
  | Ok s => let '(r, m1) := PageTable_set_leaf_flags m (as_page_table s) va set in (map_err AsMapping r, m1)
  end.

(** Kernel text and UART pages are marked GLOBAL after the mapping. *)
Definition mark_global (m : PtMem) (p : PageTable) (va : Z) : PtMem :=
  let m1 := if ((0x80000000 <=? va) && (va <? 0x81000000))%bool
            then (PageTable_set_leaf_flags m p va PF_GLOBAL).2 else m in
  if ((0x10000000 <=? va) && (va <? 0x10001000))%bool
  then (PageTable_set_leaf_flags m1 p va PF_GLOBAL).2 else m1.

Definition AddressSpaceManager_map_page (alloc : PtMem → option Z) (m : PtMem) (mg : AddressSpaceManager)
    (handle va pa flags : Z) : option (result unit AddressSpaceError * PtMem * AddressSpaceManager) :=
  match AddressSpaceManager_get mg handle with
  | Err e => Some (Err e, m, mg)
  | Ok s =>
      match PageTable_map alloc m (as_page_table s) va pa flags with
      | None => None
      | Some (Ok _, m1, p1) =>
          Some (Ok tt, mark_global m1 p1 va, am_put mg (handle_index handle) (Some (as_set_table s p1)))
      | Some (Err e, m1, p1) =>
          Some (Err (AsMapping e), m1, am_put mg (handle_index handle) (Some (as_set_table s p1)))
      end
  end.
