(* ===== verification/AddressSpaceProps.v ===== *)
(** * Properties of the ASID allocator

    The two bitmaps represent a set of live ASIDs and a set of quarantined
    ones; a live ASID is never handed out again, and a freed one only behind a
    TLB shootdown. *)

From S2P Require Import Prelude PageTable PageTableProps PageTableLaws PageTableSafety AddressSpace.

(** ** Bitmaps *)

Definition words_ok (ws : list Z) : Prop := length ws = BITMAP_WORDS ∧ Forall (in_width 64) ws.

Lemma bitmap_test_bit ws i :
  0 ≤ i → bitmap_test ws i = Z.testbit (default 0 (ws !! Z.to_nat (i / 64))) (i mod 64).
Proof.
  intros Hi. unfold bitmap_test, WORD_BITS. rewrite Z.shiftl_1_l. apply bits_intersect_pow2.
  apply Z.mod_pos_bound. lia.
Qed.

Lemma word_bound ws k : words_ok ws → in_width 64 (default 0 (ws !! k)).
Proof.
  intros [_ HF]. destruct (ws !! k) as [x|] eqn:E; simpl; [|unfold in_width; lia].
  rewrite Forall_lookup in HF. eauto.
Qed.

Lemma bitmap_set_ok ws i : words_ok ws → 0 ≤ i < 256 → words_ok (bitmap_set ws i).
Proof.
  intros Hw Hi. split; unfold bitmap_set; [rewrite length_insert; apply Hw|].
  apply Forall_insert; [apply Hw|]. apply lor_bound; [lia|by apply word_bound|].
  unfold WORD_BITS. rewrite Z.shiftl_1_l. pose proof (Z.mod_pos_bound i 64).
  split; [apply Z.pow_nonneg; lia|]. apply Z.pow_lt_mono_r; lia.
Qed.

Lemma bitmap_test_set ws i j :
  words_ok ws → 0 ≤ i < 256 → 0 ≤ j < 256 → bitmap_test (bitmap_set ws i) j = ((i =? j) || bitmap_test ws j)%bool.
Proof.
  intros [Hl _] Hi Hj. rewrite !bitmap_test_bit by lia. unfold bitmap_set, WORD_BITS.
  assert (Hlt : (Z.to_nat (i / 64) < length ws)%nat).
  { rewrite Hl. unfold BITMAP_WORDS. Z.to_euclidean_division_equations. lia. }
  rewrite Z.shiftl_1_l. destruct (decide (Z.to_nat (i / 64) = Z.to_nat (j / 64))) as [E|E].
  - rewrite E in *. rewrite list_lookup_insert_eq by done. simpl. rewrite Z.lor_spec, orb_comm.
    pose proof (Z.mod_pos_bound i 64). pose proof (Z.mod_pos_bound j 64).
    rewrite Z.pow2_bits_eqb by lia. f_equal.
    apply Z2Nat.inj in E; [|apply Z.div_pos; lia..].
    pose proof (Z.div_mod i 64). pose proof (Z.div_mod j 64).
    destruct (Z.eqb_spec (i mod 64) (j mod 64)), (Z.eqb_spec i j); try done; lia.
  - rewrite list_lookup_insert_ne by done. rewrite (proj2 (Z.eqb_neq i j)); [done|]. by intros ->.
Qed.

Lemma not64_testbit q k : in_width 64 q → 0 ≤ k < 64 → Z.testbit (not64 q) k = negb (Z.testbit q k).
Proof.
  unfold in_width, not64, max_of. intros Hq Hk.
  replace (2 ^ 64 - 1 - q) with (Z.lnot q mod 2 ^ 64).
  - rewrite Z.mod_pow2_bits_low by lia. apply Z.lnot_spec. lia.
  - symmetry. apply (Z.mod_unique_pos _ _ (-1)); unfold Z.lnot; lia.
Qed.

Lemma zip_clear_ok b q :
  words_ok b → words_ok q → words_ok (zip_with (fun b q => Z.land b (not64 q)) b q).
Proof.
  intros [Hb HFb] [Hq HFq]. split; [rewrite length_zip_with; lia|].
  apply Forall_lookup. intros k x Hx. apply lookup_zip_with_Some in Hx as (y & z & -> & Hy & Hz).
  rewrite Z.land_comm. apply land_bound; [lia|]. rewrite Forall_lookup in HFb. by eapply HFb.
Qed.

Lemma zip_clear_test b q j :
  words_ok b → words_ok q → 0 ≤ j < 256 →
  bitmap_test (zip_with (fun b q => Z.land b (not64 q)) b q) j = (bitmap_test b j && negb (bitmap_test q j))%bool.
Proof.
  intros Hb Hq Hj. rewrite !bitmap_test_bit by lia.
  assert (Hlt : (Z.to_nat (j / 64) < 4)%nat) by (Z.to_euclidean_division_equations; lia).
  pose proof (word_bound q (Z.to_nat (j / 64)) Hq) as Hw. destruct Hb as [Hb _], Hq as [Hq _].
  rewrite lookup_zip_with.
  destruct (lookup_lt_is_Some_2 b (Z.to_nat (j / 64))) as [x Ex]; [rewrite Hb; done|].
  destruct (lookup_lt_is_Some_2 q (Z.to_nat (j / 64))) as [y Ey]; [rewrite Hq; done|].
  rewrite Ex, Ey in *. simpl in *. pose proof (Z.mod_pos_bound j 64).
  rewrite Z.land_spec, not64_testbit by (done || lia). done.
Qed.

(** ** Representation *)

Definition asid_universe : gset Z := list_to_set (seqZ 1 255).

Lemma asid_universe_elem i : i ∈ asid_universe ↔ 1 ≤ i < 256.
Proof. unfold asid_universe. rewrite elem_of_list_to_set, elem_of_seqZ. lia. Qed.

#[global] Opaque asid_universe.
#[global] Typeclasses Opaque asid_universe.

(** [L] is live, [Q] is freed and quarantined. *)
Record asid_rep (L Q : gset Z) (a : AsidAllocator) : Prop := {
  ar_bitmap : words_ok (aa_bitmap a);
  ar_quar : words_ok (aa_quarantined a);
  ar_next : 0 ≤ aa_next a < 256;
  ar_live : L ⊆ asid_universe;
  ar_parked : Q ⊆ asid_universe ∖ L;
  ar_bits : ∀ i, 0 ≤ i < 256 → bitmap_test (aa_bitmap a) i = bool_decide (i = 0 ∨ i ∈ L ∪ Q);
  ar_qbits : ∀ i, 0 ≤ i < 256 → bitmap_test (aa_quarantined a) i = bool_decide (i ∈ Q)
}.

Lemma asid_new_rep : asid_rep ∅ ∅ AsidAllocator_new.
Proof.
  assert (Hz : ∀ x, x = 0 ∨ x = 1 → in_width 64 x) by (unfold in_width; lia).
  split; simpl.
  - split; [done|]. do 4 (apply Forall_cons; split; [apply Hz; lia|]). done.
  - split; [done|]. do 4 (apply Forall_cons; split; [apply Hz; lia|]). done.
  - lia.
  - set_solver.
  - set_solver.
  - intros i Hi. destruct (decide (i = 0)) as [->|Hne]; [done|].
    rewrite bool_decide_false by set_solver. rewrite bitmap_test_bit by lia.
    destruct (decide (i / 64 = 0)) as [E|E].
    + rewrite E. simpl. rewrite Z.mod_small by (Z.to_euclidean_division_equations; lia).
      apply (Z.pow2_bits_false 0). lia.
    + assert (Hk : (Z.to_nat (i / 64) ∈ [1; 2; 3])%nat).
      { rewrite !elem_of_cons, elem_of_nil. Z.to_euclidean_division_equations. lia. }
      rewrite !elem_of_cons, elem_of_nil in Hk. destruct Hk as [->|[->|[->|[]]]]; simpl; apply Z.bits_0.
  - intros i Hi. rewrite bool_decide_false by set_solver. rewrite bitmap_test_bit by lia.
    assert (Hk : (Z.to_nat (i / 64) < 4)%nat) by (Z.to_euclidean_division_equations; lia).
    destruct (Z.to_nat (i / 64)) as [|[|[|[|]]]]; simpl; apply Z.bits_0.
Qed.

(** ** Allocation *)

(** The scan visits [rounds] consecutive indices modulo 256. *)
Lemma try_loop_spec rounds ws next :
  0 ≤ next < 256 →
  let '(r, ws', next') := try_allocate_loop rounds ws next in
  0 ≤ next' < 256 ∧
  match r with
  | Some i => 0 ≤ i < 256 ∧ bitmap_test ws i = false ∧ ws' = bitmap_set ws i
  | None => ws' = ws ∧ ∀ k, 0 ≤ k < Z.of_nat rounds → bitmap_test ws ((next + k) mod 256) = true
  end.
Proof.
  revert next. induction rounds as [|rounds IH]; intros next Hn; simpl; [split_and!; try done; lia|].
  unfold MAX_ASIDS. rewrite (Z.mod_small next) by lia.
  pose proof (Z.mod_pos_bound (next + 1) 256 ltac:(lia)) as Hb.
  destruct (bitmap_test ws next) eqn:E; [|done].
  specialize (IH ((next + 1) mod 256) Hb). destruct (try_allocate_loop _ _ _) as [[r ws'] next'].
  destruct IH as [Hn' IH]. split; [done|]. destruct r; [done|]. destruct IH as [-> IH]. split; [done|].
  intros k Hk. destruct (decide (k = 0)) as [->|]; [by rewrite Z.add_0_r, Z.mod_small|].
  replace ((next + k) mod 256) with (((next + 1) mod 256 + (k - 1)) mod 256); [apply IH; lia|].
  rewrite Z.add_mod_idemp_l by lia. f_equal. lia.
Qed.

Lemma try_allocate_rep L Q a :
  asid_rep L Q a →
  let '(r, a') := AsidAllocator_try_allocate a in
  match r with
  | Some i => i ∈ asid_universe ∧ ¬ i ∈ L ∪ Q ∧ asid_rep ({[i]} ∪ L) Q a'
  | None => asid_universe ⊆ L ∪ Q ∧ asid_rep L Q a'
  end.
Proof.
  intros [Hb Hq Hn Hl Hp Hbits Hqbits]. unfold AsidAllocator_try_allocate.
  pose proof (try_loop_spec (Z.to_nat MAX_ASIDS) (aa_bitmap a) (aa_next a) Hn) as H.
  destruct (try_allocate_loop _ _ _) as [[[i|] ws'] next']; destruct H as [Hn' H].
  - destruct H as (Hi & Hf & ->). rewrite Hbits in Hf by done. apply bool_decide_eq_false in Hf.
    assert (Hu : i ∈ asid_universe) by (apply asid_universe_elem; assert (i ≠ 0) by tauto; lia).
    split_and!; [done|tauto|]. split; simpl; try done; [by apply bitmap_set_ok|clear -Hl Hu; set_solver|clear -Hf Hp; set_solver|].
    intros j Hj. rewrite bitmap_test_set, Hbits by done.
    destruct (Z.eqb_spec i j) as [->|Hne]; simpl; [symmetry; apply bool_decide_true; clear; set_solver|].
    apply bool_decide_ext. clear -Hne; set_solver.
  - destruct H as [-> H]. split; [|by split].
    intros i Hi%asid_universe_elem. specialize (H ((i - aa_next a) mod 256)).
    pose proof (Z.mod_pos_bound (i - aa_next a) 256) as Hm. unfold MAX_ASIDS in H.
    rewrite Z.add_mod_idemp_r in H by lia. replace (aa_next a + (i - aa_next a)) with i in H by lia.
    rewrite (Z.mod_small i), Hbits in H by lia. assert (Hd : bool_decide (i = 0 ∨ i ∈ L ∪ Q) = true) by (apply H; lia).
    apply bool_decide_eq_true in Hd as [->|?]; [lia|done].
Qed.

Lemma release_rep L Q a : asid_rep L Q a → asid_rep L ∅ (AsidAllocator_release_quarantined a).
Proof.
  intros [Hb Hq Hn Hl Hp Hbits Hqbits]. pose proof (zip_clear_ok _ _ Hb Hq) as Hz. split; simpl; try done.
  - apply bitmap_set_ok; [done|lia].
  - destruct Hq as [Hq _]. split; [by rewrite length_map|]. apply Forall_fmap, Forall_true. intros. unfold in_width. simpl. lia.
  - intros i Hi. rewrite bitmap_test_set by (done || lia).
    rewrite zip_clear_test, Hbits, Hqbits by done. destruct (Z.eqb_spec 0 i) as [<-|Hne]; simpl; [done|].
    rewrite union_empty_r_L. rewrite <- bool_decide_not, <- bool_decide_and. apply bool_decide_ext.
    assert (∀ x, x ∈ L → x ∈ Q → False) by (clear -Hp; set_solver). clear -H Hne; set_solver.
  - intros i Hi. rewrite bool_decide_false by set_solver. rewrite bitmap_test_bit by lia.
    rewrite list_lookup_fmap. destruct (aa_quarantined a !! _); simpl; apply Z.bits_0.
Qed.

Lemma allocate_rep L Q a :
  asid_rep L Q a →
  let '(r, shot, a') := AsidAllocator_allocate a in
  match r with
  | Some i => i ∈ asid_universe ∧ ¬ i ∈ L ∧ (i ∈ Q → shot = true) ∧
              asid_rep ({[i]} ∪ L) (if shot then ∅ else Q) a'
  | None => L = asid_universe ∧ asid_rep L ∅ a'
  end.
Proof.
  intros Hrep. unfold AsidAllocator_allocate. pose proof (try_allocate_rep L Q a Hrep) as H1.
  destruct (AsidAllocator_try_allocate a) as [[i|] a1].
  - destruct H1 as (? & ? & ?). split_and!; [done|set_solver|set_solver|done].
  - destruct H1 as [Hfull H1]. pose proof (try_allocate_rep L ∅ _ (release_rep L Q a1 H1)) as H2.
    destruct (AsidAllocator_try_allocate _) as [[i|] a2].
    + destruct H2 as (? & ? & ?). split_and!; [done|set_solver|done|done].
    + destruct H2 as [Hfull2 H2]. split; [|done]. apply set_eq. intros i.
      pose proof (ar_live _ _ _ Hrep). set_solver.
Qed.

Lemma free_rep L Q a i : asid_rep L Q a → i ∈ L → asid_rep (L ∖ {[i]}) ({[i]} ∪ Q) (AsidAllocator_free a i).
Proof.
  intros [Hb Hq Hn Hl Hp Hbits Hqbits] Hi. assert (Hu : 1 ≤ i < 256) by (apply asid_universe_elem; set_solver).
  unfold AsidAllocator_free, MAX_ASIDS. rewrite (proj2 (Z.ltb_lt i 256)) by lia. split; simpl; try done.
  - apply bitmap_set_ok; [done|lia].
  - clear -Hl; set_solver.
  - clear -Hp Hi Hl; set_solver.
  - intros j Hj. rewrite Hbits by done. apply bool_decide_ext.
    clear -Hi. destruct (decide (i = j)); set_solver.
  - intros j Hj. rewrite bitmap_test_set, Hqbits by (done || lia).
    destruct (Z.eqb_spec i j) as [->|Hne]; simpl; [symmetry; apply bool_decide_true; clear; set_solver|].
    apply bool_decide_ext. clear -Hne; set_solver.
Qed.

(** ** Every history of the allocator *)

(** The allocator with the ASIDs handed out and not freed, and those freed
    since the last shootdown. *)
Inductive asid_reach : AsidAllocator → gset Z → gset Z → Prop :=
| ar_init : asid_reach AsidAllocator_new ∅ ∅
| ar_alloc a L D i shot a' :
    asid_reach a L D → AsidAllocator_allocate a = (Some i, shot, a') →
    asid_reach a' ({[i]} ∪ L) (if shot then ∅ else D)
| ar_refused a L D shot a' :
    asid_reach a L D → AsidAllocator_allocate a = (None, shot, a') → asid_reach a' L (if shot then ∅ else D)
| ar_free a L D i : asid_reach a L D → i ∈ L → asid_reach (AsidAllocator_free a i) (L ∖ {[i]}) ({[i]} ∪ D).

Lemma allocate_refused_shoots a a' shot : AsidAllocator_allocate a = (None, shot, a') → shot = true.
Proof.
  unfold AsidAllocator_allocate. destruct (AsidAllocator_try_allocate a) as [[i|] a1]; [done|].
  destruct (AsidAllocator_try_allocate _). congruence.
Qed.

Lemma asid_reach_rep a L D : asid_reach a L D → asid_rep L D a.
Proof.
  induction 1 as [|a L D i shot a' _ IH E|a L D shot a' _ IH E|a L D i _ IH Hi].
  - apply asid_new_rep.
  - pose proof (allocate_rep L D a IH) as H. rewrite E in H. apply H.
  - pose proof (allocate_refused_shoots _ _ _ E) as ->. pose proof (allocate_rep L D a IH) as H. rewrite E in H. apply H.
  - by apply free_rep.
Qed.

(** ASIDs are never shared and never reused with stale translations.  In
    every history of the allocator, an allocation returns an ASID in [1, 255]
    that no live address space has; if that ASID was freed since the last TLB
    shootdown, this very allocation performs a shootdown; and allocation fails
    only when all 255 ASIDs are live. *)
Theorem asid_allocation_safe a L D :
  asid_reach a L D →
  let '(r, shot, _) := AsidAllocator_allocate a in
  match r with
  | Some i => 1 ≤ i < 256 ∧ ¬ i ∈ L ∧ (i ∈ D → shot = true)
  | None => ∀ i, 1 ≤ i < 256 → i ∈ L
  end.
Proof.
  intros H%asid_reach_rep. pose proof (allocate_rep L D a H) as Ha.
  destruct (AsidAllocator_allocate a) as [[[i|] shot] a'].
  - destruct Ha as (Hu & Hl & Hd & _). by rewrite asid_universe_elem in Hu.
  - destruct Ha as [-> _]. intros i. by rewrite asid_universe_elem.
Qed.

Lemma asid_allocation_safe_witness :
  let '(r, _, _) := AsidAllocator_allocate AsidAllocator_new in
  match r with Some i => 1 ≤ i < 256 | None => False end.
Proof.
  pose proof (asid_allocation_safe AsidAllocator_new ∅ ∅ ar_init) as H.
  destruct (AsidAllocator_allocate AsidAllocator_new) as [[[i|] shot] a'] eqn:E.
  - exact (proj1 H).
  - vm_compute in E. discriminate.
Defined.

(** ** * Properties of the address spaces

    The identity map of the kernel segments, the invariant of the manager, and
    isolation between the address spaces it manages. *)

(** ** Identity ranges *)

Section Identity.
Context (alloc : PtMem → option Z) `{!PageAllocator alloc}.

(** The map a table means, with W^X. *)
Definition safe_rep (m : PtMem) (p : PageTable) : Prop := ∃ A, pt_rep A m p ∧ wx_ok A.

(** One checked operation: the table stays safe and nothing else changes. *)
Lemma safe_exec A m p op r m' p' :
  pt_rep A m p → wx_ok A → pt_op_wf A op → checked op → pt_exec alloc m p op = Some (r, m', p') →
  safe_rep m' p' ∧ pt_extends m (pt_owned p) m' (pt_owned p').
Proof using PageAllocator0.
  intros Hrep Hwx Hwf Hck Hex. pose proof (pt_exec_refines alloc A m p op Hrep Hwf) as H. rewrite Hex in H.
  destruct H as (A' & Hs & Hr & Hext & _). split; [|done]. exists A'. split; [done|]. by eapply pt_spec_wx.
Qed.

Lemma safe_map_any m p huge va pa flags r m' p' :
  safe_rep m p → in_width 64 va → in_width 64 pa → flags_wf flags →
  map_any alloc m p huge va pa flags = Some (r, m', p') →
  safe_rep m' p' ∧ pt_extends m (pt_owned p) m' (pt_owned p').
Proof using PageAllocator0.
  intros (A & Hrep & Hwx) Hva Hpa Hf Hm. destruct huge.
  - by eapply (safe_exec A m p (PMap2M va pa flags)).
  - by eapply (safe_exec A m p (PMap va pa flags)).
Qed.

Lemma map_any_none m p huge va pa flags :
  safe_rep m p → in_width 64 va → in_width 64 pa → flags_wf flags →
  map_any alloc m p huge va pa flags = None → ∃ m1, alloc m1 = None.
Proof using PageAllocator0.
  intros (A & Hrep & _) Hva Hpa Hf Hm. destruct huge.
  - pose proof (pt_exec_refines alloc A m p (PMap2M va pa flags) Hrep (conj Hva (conj Hpa Hf))) as H. simpl in H, Hm.
    by rewrite Hm in H.
  - pose proof (pt_exec_refines alloc A m p (PMap va pa flags) Hrep (conj Hva (conj Hpa Hf))) as H. simpl in H, Hm.
    by rewrite Hm in H.
Qed.

Lemma same_page_range size addr va :
  0 < size → addr mod size = 0 → va / size = addr / size ↔ addr ≤ va < addr + size.
Proof using.
  intros Hs Ha. pose proof (Z.div_mod addr size ltac:(lia)). split; intros H1.
  - pose proof (Z.div_mod va size ltac:(lia)). pose proof (Z.mod_pos_bound va size Hs). nia.
  - symmetry. apply (Z.div_unique_pos va size (addr / size) (va - addr)); lia.
Qed.

Lemma page_size_pos huge : 0 < page_size huge.
Proof using. by destruct huge. Qed.

(** Whether [va] is in [start, end). *)
Definition in_range (start end_ va : Z) : bool := (start <=? va) && (va <? end_).

Definition identity_post (m : PtMem) (p : PageTable) (cover : Z → bool)
    (r : option (result unit MapError * PtMem * PageTable)) : Prop :=
  match r with
  | None => ∃ m1, alloc m1 = None
  | Some (res, m', p') =>
      safe_rep m' p' ∧ pt_extends m (pt_owned p) m' (pt_owned p') ∧
      (is_ok res = true → ∀ va, in_width 64 va →
         PageTable_translate m' p' va = if cover va then Some va else PageTable_translate m p va)
  end.

Lemma identity_loop_spec fuel m p addr end_ flags :
  safe_rep m p → flags_wf flags → in_width 64 addr → in_width 64 end_ → addr mod PAGE_SIZE = 0 →
  end_ mod PAGE_SIZE = 0 → end_ - addr ≤ Z.of_nat fuel * PAGE_SIZE →
  identity_post m p (in_range addr end_) (identity_loop alloc fuel m p addr end_ flags).
Proof using PageAllocator0.
  intros Hsafe Hf. revert m p addr Hsafe. induction fuel as [|fuel IH];
    intros m p addr Hsafe Haw Hew Hal Hel Hfuel; unfold PAGE_SIZE in *; cbn [identity_loop];
    (destruct (Z.leb_spec end_ addr) as [Hle|Hlt];
      [split_and!; [done|apply pt_extends_refl|]; intros _ va _; unfold in_range;
       destruct (Z.leb_spec addr va), (Z.ltb_spec va end_); simpl; try done; lia|]); [lia|].
  set (huge := ((addr mod HUGE_PAGE_SIZE_2M =? 0) && (HUGE_PAGE_SIZE_2M <=? end_ - addr))%bool).
  change (if huge then PageTable_map_2m alloc m p addr addr flags else PageTable_map alloc m p addr addr flags)
    with (map_any alloc m p huge addr addr flags).
  change (if huge then HUGE_PAGE_SIZE_2M else PAGE_SIZE) with (page_size huge).
  assert (Hstep : addr mod page_size huge = 0 ∧ addr + page_size huge ≤ end_ ∧ page_size huge mod 4096 = 0).
  { destruct huge eqn:Eh; unfold huge in Eh; simpl; unfold PAGE_SIZE.
    - simpl_bool. split_and!; [done|lia|done].
    - split_and!; [done| |done]. Z.to_euclidean_division_equations. lia. }
  destruct Hstep as (Hmod & Hend & Hpm). pose proof (page_size_pos huge) as Hpos.
  destruct (map_any alloc m p huge addr addr flags) as [[[r m1] p1]|] eqn:Em.
  2: { exact (map_any_none m p huge addr addr flags Hsafe Haw Haw Hf Em). }
  destruct (safe_map_any _ _ _ _ _ _ _ _ _ Hsafe Haw Haw Hf Em) as [Hsafe1 Hext1].
  destruct r as [[]|e]; [|split_and!; try done].
  unfold checked_add. unfold in_width in *. rewrite (proj2 (Z.ltb_lt _ _)) by lia.
  assert (Hrec : identity_post m1 p1 (in_range (addr + page_size huge) end_)
                   (identity_loop alloc fuel m1 p1 (addr + page_size huge) end_ flags)).
  { apply IH; try done; [lia| |].
    - rewrite Z.add_mod, Hal, Hpm by lia. done.
    - destruct huge; simpl in *; unfold HUGE_PAGE_SIZE_2M, PAGE_SIZE in *; lia. }
  destruct (identity_loop alloc fuel m1 p1 _ end_ flags) as [[[r2 m2] p2]|]; [|done].
  destruct Hrec as (Hsafe2 & Hext2 & Htr2). split_and!; [done|by eapply pt_extends_trans|].
  intros Hok va Hva. rewrite (Htr2 Hok va Hva). destruct Hsafe as (A & Hrep & _).
  rewrite (map_any_translate alloc A m p huge addr addr flags m1 p1 va Hrep Haw Haw Hf Hva Em).
  pose proof (same_page_range _ _ va Hpos Hmod) as Hsame. unfold in_range.
  destruct (decide (va / page_size huge = addr / page_size huge)) as [E|E].
  - assert (Hin : addr ≤ va < addr + page_size huge) by (by apply Hsame).
    assert (addr + va mod page_size huge = va) as ->.
    { pose proof (Z.div_mod va (page_size huge) ltac:(lia)). pose proof (Z.div_mod addr (page_size huge) ltac:(lia)).
      rewrite E in *. lia. }
    rewrite (proj2 (Z.leb_le addr va)), (proj2 (Z.ltb_lt va end_)) by lia.
    by destruct (Z.leb_spec (addr + page_size huge) va).
  - assert (Hout : ¬ (addr ≤ va < addr + page_size huge)) by (by rewrite <- Hsame).
    destruct (Z.leb_spec (addr + page_size huge) va), (Z.leb_spec addr va), (Z.ltb_spec va end_);
      simpl; try done; lia.
Qed.

Lemma identity_range_spec m p start end_ flags :
  safe_rep m p → flags_wf flags → in_width 64 start → in_width 64 end_ → start mod PAGE_SIZE = 0 →
  end_ mod PAGE_SIZE = 0 →
  identity_post m p (in_range start end_) (map_identity_range alloc m p start end_ flags).
Proof using PageAllocator0.
  intros Hsafe Hf Hs He Hsa Hea. unfold map_identity_range. destruct (Z.leb_spec end_ start).
  - split_and!; [done|apply pt_extends_refl|]. intros _ va _. unfold in_range.
    destruct (Z.leb_spec start va), (Z.ltb_spec va end_); simpl; try done; lia.
  - apply identity_loop_spec; try done. unfold PAGE_SIZE in *.
    pose proof (Z.div_mod (end_ - start) 4096). pose proof (Z.mod_pos_bound (end_ - start) 4096).
    pose proof (Z.div_pos (end_ - start) 4096). lia.
Qed.

(** ** The kernel segments *)

Definition seg_covers (va : Z) (s : seg_step) : bool :=
  match s with SegMap start end_ _ => in_range start end_ va | SegFail => false end.
Definition segments_cover (steps : list seg_step) (va : Z) : bool := existsb (seg_covers va) steps.

Definition seg_wf (s : seg_step) : Prop :=
  match s with
  | SegMap start end_ flags =>
      flags_wf flags ∧ in_width 64 start ∧ in_width 64 end_ ∧ start mod PAGE_SIZE = 0 ∧ end_ mod PAGE_SIZE = 0
  | SegFail => True
  end.

Lemma run_segments_spec steps m p :
  Forall seg_wf steps → safe_rep m p → identity_post m p (segments_cover steps) (run_segments alloc m p steps).
Proof using PageAllocator0.
  intros Hwf. revert m p. induction Hwf as [|s steps Hs _ IH]; intros m p Hsafe; cbn [run_segments].
  { split_and!; [done|apply pt_extends_refl|done]. }
  destruct s as [start end_ flags|]; [|split_and!; [done|apply pt_extends_refl|done]].
  destruct Hs as (Hf & Hsw & Hew & Hsa & Hea).
  pose proof (identity_range_spec m p start end_ flags Hsafe Hf Hsw Hew Hsa Hea) as H1.
  destruct (map_identity_range alloc m p start end_ flags) as [[[[[]|e] m1] p1]|]; [|by destruct H1 as (? & ? & ?)|done].
  destruct H1 as (Hsafe1 & Hext1 & Htr1). specialize (IH m1 p1 Hsafe1).
  destruct (run_segments alloc m1 p1 steps) as [[[r2 m2] p2]|]; [|done].
  destruct IH as (Hsafe2 & Hext2 & Htr2). split_and!; [done|by eapply pt_extends_trans|].
  intros Hok va Hva. rewrite (Htr2 Hok va Hva), (Htr1 eq_refl va Hva). simpl. unfold segments_cover. simpl.
  destruct (in_range start end_ va); simpl; [by destruct (existsb _ _)|done].
Qed.
End Identity.

(** ** Alignment of the segments *)

Definition page_aligned (x : Z) : Prop := in_width 64 x ∧ x mod PAGE_SIZE = 0.

Lemma align_down_aligned x : in_width 64 x → page_aligned (align_down x).
Proof.
  intros Hx. unfold page_aligned, align_down. change (not64 (PAGE_SIZE - 1)) with (2 ^ 64 - 4096).
  split; [rewrite Z.land_comm; by apply land_bound|]. unfold PAGE_SIZE. change 4096 with (2 ^ 12).
  apply Z.bits_inj'. intros n Hn. rewrite Z.bits_0. destruct (Z.ltb_spec n 12).
  - rewrite Z.mod_pow2_bits_low, Z.land_spec by done.
    replace (2 ^ 64 - 2 ^ 12) with ((2 ^ 52 - 1) * 2 ^ 12) by lia.
    by rewrite Z.mul_pow2_bits_low, andb_false_r by lia.
  - apply Z.mod_pow2_bits_high. lia.
Qed.

Lemma align_up_aligned x : in_width 64 x → page_aligned (align_up x).
Proof.
  intros Hx. unfold page_aligned, align_up, checked_add, in_width, PAGE_SIZE in *.
  destruct (Z.eqb_spec (x mod 4096) 0); [done|].
  pose proof (Z.mod_pos_bound x 4096 ltac:(lia)). pose proof (Z.div_mod x 4096 ltac:(lia)).
  destruct (Z.ltb_spec (x + (4096 - x mod 4096)) (2 ^ 64)); cbn [default from_option].
  - unfold id. split; [lia|]. replace (x + (4096 - x mod 4096)) with ((x / 4096 + 1) * 4096) by lia. apply Z.mod_mul. lia.
  - split; [vm_compute; split; congruence|done].
Qed.

Lemma page_aligned_add x k : page_aligned x → 0 ≤ k → x + k * PAGE_SIZE < 2 ^ 64 → page_aligned (x + k * PAGE_SIZE).
Proof.
  unfold page_aligned, in_width, PAGE_SIZE. intros [Hx Hm] Hk Hlt. split; [lia|]. by rewrite Z.mod_add by lia.
Qed.

Lemma page_aligned_max x y : page_aligned x → page_aligned y → page_aligned (Z.max x y).
Proof. intros Hx Hy. destruct (Z.max_spec x y) as [[_ ->]|[_ ->]]; done. Qed.

Definition layout_wf (k : KernelLayout) : Prop :=
  in_width 64 (kl_text_start k) ∧ in_width 64 (kl_text_end k) ∧ in_width 64 (kl_bss_end k) ∧
  in_width 64 (kl_stack_bottom k) ∧ in_width 64 (kl_stack_top k) ∧
  in_width 64 (kl_selftest_stack_base k) ∧ in_width 64 (kl_selftest_stack_top k) ∧
  in_width 64 (kl_satp_island_stack_base k) ∧ in_width 64 (kl_satp_island_stack_top k) ∧
  0 ≤ kl_stack_guard_pages k ≤ 1.

Lemma seg_map_wf start end_ flags :
  page_aligned start → page_aligned end_ → flags_wf flags → seg_wf (SegMap start end_ flags).
Proof. intros [? ?] [? ?] ?. simpl. tauto. Qed.

Lemma stack_step_wf ds de start end_ :
  page_aligned start → page_aligned end_ → Forall seg_wf (stack_step ds de start end_).
Proof.
  intros Hs He. unfold stack_step. repeat case_match; try by constructor.
  apply Forall_singleton, seg_map_wf; try done. 
Qed.

Lemma kernel_segments_wf k : layout_wf k → Forall seg_wf (kernel_segments k).
Proof.
  intros (Hts & Hte & Hbss & Hsb & Hst & Hslb & Hslt & Hib & Hit & Hg). unfold kernel_segments, window_segments.
  assert (Hrw : flags_wf RW_GLOBAL) by (unfold flags_wf; vm_compute; split; congruence).
  assert (Hrx : flags_wf RX_GLOBAL) by (unfold flags_wf; vm_compute; split; congruence).
  assert (Hc : ∀ x, (0 <=? x) && (x <? 2 ^ 64) && (x mod PAGE_SIZE =? 0) = true → page_aligned x).
  { intros x H. simpl_bool. split; [split|]; done. }
  pose proof (align_down_aligned _ Hsb) as Hss.
  rewrite !Forall_app, !Forall_cons. split_and!; try apply Forall_nil_2.
  - case_match; apply Forall_singleton; [done|].
    apply seg_map_wf; [by apply align_down_aligned|by apply align_up_aligned|done].
  - apply seg_map_wf; [by apply align_up_aligned..|done].
  - case_match; [by apply Forall_singleton|].
    destruct (checked_add _ _ _) as [ms|] eqn:E; [|by apply Forall_singleton]. case_match; [|constructor].
    apply Forall_singleton, seg_map_wf; [|by apply align_up_aligned|done].
    apply page_aligned_max; [|by apply align_up_aligned].
    unfold checked_add in E. destruct (Z.ltb_spec (align_down (kl_stack_bottom k) + kl_stack_guard_pages k * PAGE_SIZE) (2 ^ 64)); simplify_eq.
    apply page_aligned_add; [done|lia|done].
  - apply stack_step_wf; [by apply align_down_aligned|by apply align_up_aligned].
  - apply stack_step_wf; [by apply align_down_aligned|by apply align_up_aligned].
  - apply seg_map_wf; [by apply Hc..|done].
  - apply seg_map_wf; [by apply Hc..|done].
  - change (checked_add 64 (align_up USER_VMO_ARENA_BASE) USER_VMO_ARENA_LEN) with (Some 0x91800000).
    apply Forall_singleton, seg_map_wf; [by apply Hc..|done].
  - apply seg_map_wf; [by apply Hc..|done].
  - apply seg_map_wf; [by apply Hc..|done].
  - apply seg_map_wf; [by apply Hc..|done].
Qed.

Lemma safe_new alloc `{!PageAllocator alloc} m p m1 :
  PageTable_new alloc m = Some (p, m1) →
  safe_rep m1 p ∧ pt_extends m [] m1 (pt_owned p) ∧ ∀ va, PageTable_translate m1 p va = None.
Proof.
  intros E. destruct (pt_new_rep alloc m p m1 E) as [Hrep Hext]. split_and!; [|done|].
  - exists ∅. split; [done|]. intros φ e. by rewrite lookup_empty.
  - intros va. rewrite (translate_spec _ _ _ _ Hrep). destruct (is_canonical_sv39 va); [|done].
    assert (Hn : ∀ ids π, spec_walk ∅ π ids = None).
    { induction ids as [|i ids IH]; intros π; simpl; [done|]. by rewrite lookup_empty. }
    by rewrite Hn.
Qed.

(** Every new address space maps the kernel one to one.  When creating an
    address space succeeds, each address of the kernel's text, data, stacks,
    page pool, VMO arena and device windows translates to itself, and no other
    address is mapped; the table respects W^X.  Creation does not return only
    if the allocator fails: the mapping loops terminate. *)
Theorem kernel_segments_identity alloc `{!PageAllocator alloc} k m asid :
  layout_wf k →
  match AddressSpace_new alloc k m asid with
  | None => ∃ m1, alloc m1 = None
  | Some (Err _, _) => True
  | Some (Ok s, m') =>
      as_asid s = asid ∧ as_owners s = ∅ ∧ safe_rep m' (as_page_table s) ∧
      ∀ va, in_width 64 va →
        PageTable_translate m' (as_page_table s) va =
          if segments_cover (kernel_segments k) va then Some va else None
  end.
Proof.
  intros Hk. unfold AddressSpace_new, map_kernel_segments.
  destruct (PageTable_new alloc m) as [[p m1]|] eqn:E.
  2: { unfold PageTable_new, alloc_page in E. repeat case_match; simplify_eq. eauto. }
  destruct (safe_new alloc m p m1 E) as (Hsafe & _ & Hnone).
  pose proof (run_segments_spec alloc (kernel_segments k) m1 p (kernel_segments_wf k Hk) Hsafe) as H.
  destruct (run_segments alloc m1 p (kernel_segments k)) as [[[[[]|e] m2] p2]|]; [|done|done].
  destruct H as (Hsafe2 & _ & Htr). split_and!; try done. simpl. intros va Hva.
  by rewrite (Htr eq_refl va Hva), Hnone.
Qed.

(** A small image: text 64 KiB at 0x80200000, data and stack up to 0x80300000. *)
Definition demo_layout : KernelLayout :=
  mkKernelLayout 0x80200000 0x80210000 0x80300000 0x802f0000 0x80300000 0 0 0 0 0.

Lemma demo_layout_wf : layout_wf demo_layout.
Proof. unfold layout_wf, in_width. simpl. lia. Qed.

Lemma kernel_segments_identity_witness :
  ∃ s m', AddressSpace_new demo_alloc demo_layout ∅ 1 = Some (Ok s, m') ∧
          PageTable_translate m' (as_page_table s) 0x80201234 = Some 0x80201234.
Proof.
  pose proof (kernel_segments_identity demo_alloc demo_layout ∅ 1 demo_layout_wf) as H.
  destruct (AddressSpace_new demo_alloc demo_layout ∅ 1) as [[[s|e] m']|] eqn:E;
    [|vm_compute in E; discriminate|vm_compute in E; discriminate].
  exists s, m'. split; [reflexivity|]. destruct H as (_ & _ & _ & Htr).
  rewrite (Htr 0x80201234 ltac:(unfold in_width; lia)). reflexivity.
Defined.
