(* ===== verification/AddressSpaceLaws.v ===== *)
(** * Laws of the address-space manager

    Every operation keeps the managed address spaces apart: unique ASIDs
    consistent with the allocator, disjoint page-table pages, W^X; and an
    operation through one handle does not change what another handle means. *)

From S2P Require Import Prelude PageTable PageTableProps PageTableLaws PageTableSafety AddressSpace AddressSpaceProps.

Definition live_space (mg : AddressSpaceManager) (i : nat) (s : AddressSpace) : Prop :=
  am_spaces mg !! i = Some (Some s).

Record am_ok (m : PtMem) (mg : AddressSpaceManager) : Prop := {
  am_tables : ∀ i s, live_space mg i s → safe_rep m (as_page_table s);
  am_disjoint : ∀ i j s t a, i ≠ j → live_space mg i s → live_space mg j t →
    a ∈ pt_owned (as_page_table s) → ¬ a ∈ pt_owned (as_page_table t);
  am_asid_inj : ∀ i j s t, live_space mg i s → live_space mg j t → as_asid s = as_asid t → i = j;
  am_asids_rep : ∃ L Q, asid_rep L Q (am_asids mg) ∧ ∀ x, x ∈ L ↔ ∃ i s, live_space mg i s ∧ as_asid s = x
}.

(** ** Memory changes that respect the other address spaces *)

Lemma safe_rep_other m p o m' o' :
  safe_rep m p → pt_extends m o m' o' → (∀ a, a ∈ o → ¬ a ∈ pt_owned p) →
  safe_rep m' p ∧ (∀ a, a ∈ o' → ¬ a ∈ pt_owned p) ∧
  ∀ va, PageTable_translate m' p va = PageTable_translate m p va.
Proof.
  intros (A & Hrep & Hwx) Hext Hdis. destruct (pt_rep_other _ _ _ _ _ _ Hrep Hext Hdis) as [Hrep' Hdis'].
  split_and!; [by exists A|done|]. intros va. by rewrite (translate_spec _ _ _ _ Hrep'), (translate_spec _ _ _ _ Hrep).
Qed.

Lemma safe_rep_drop m p q :
  safe_rep m p → (∀ a, a ∈ pt_owned q → ¬ a ∈ pt_owned p) →
  safe_rep (PageTable_drop m q) p ∧ ∀ va, PageTable_translate (PageTable_drop m q) p va = PageTable_translate m p va.
Proof.
  intros (A & Hrep & Hwx) Hdis. assert (Hrep' : pt_rep A (PageTable_drop m q) p).
  { apply (pt_rep_frame A m); [done|]. intros a Ha. rewrite drop_lookup, decide_False; [done|].
    intros Ha'. by apply (Hdis _ Ha'). }
  split; [by exists A|]. intros va. by rewrite (translate_spec _ _ _ _ Hrep'), (translate_spec _ _ _ _ Hrep).
Qed.

(** Replacing one space by one with the same ASID, whose table grew by fresh
    pages. *)
Lemma am_ok_update m mg i s s' m' :
  am_ok m mg → live_space mg i s → as_asid s' = as_asid s → safe_rep m' (as_page_table s') →
  pt_extends m (pt_owned (as_page_table s)) m' (pt_owned (as_page_table s')) →
  am_ok m' (am_put mg i (Some s')).
Proof.
  intros [Ht Hd Ha (L & Q & HL & HLs)] Hs Hasid Hsafe Hext.
  assert (Hlook : ∀ j t, live_space (am_put mg i (Some s')) j t → (j = i ∧ t = s') ∨ (j ≠ i ∧ live_space mg j t)).
  { intros j t. unfold live_space. simpl. destruct (decide (i = j)) as [<-|Hne].
    - rewrite list_lookup_insert_eq by (by eapply lookup_lt_Some). intros ?. simplify_eq. by left.
    - rewrite list_lookup_insert_ne by done. right. auto. }
  assert (Hback : ∀ j t, live_space mg j t → live_space (am_put mg i (Some s')) j (if decide (i = j) then s' else t)).
  { intros j t Hj. unfold live_space in *. simpl. case_decide; [subst|by rewrite list_lookup_insert_ne].
    rewrite list_lookup_insert_eq by (by eapply lookup_lt_Some). done. }
  assert (Hother : ∀ j t, j ≠ i → live_space mg j t →
            safe_rep m' (as_page_table t) ∧ ∀ a, a ∈ pt_owned (as_page_table s') → ¬ a ∈ pt_owned (as_page_table t)).
  { intros j t Hne Hj. destruct (safe_rep_other m (as_page_table t) _ _ _ (Ht _ _ Hj) Hext) as (? & ? & _); [|done].
    intros a Ha'. by eapply (Hd i j). }
  split; simpl.
  - intros j t [[-> ->]|[Hne Hj]]%Hlook; [done|]. by apply (Hother j t).
  - intros j1 j2 t1 t2 a Hne [[-> ->]|[Hn1 H1]]%Hlook [[-> ->]|[Hn2 H2]]%Hlook; [done| | |exact (Hd j1 j2 t1 t2 a Hne H1 H2)].
    + by apply (Hother j2 t2).
    + intros Hin1 Hin2. by apply (proj2 (Hother j1 t1 Hn1 H1) a Hin2).
  - intros j1 j2 t1 t2 [[-> ->]|[Hn1 H1]]%Hlook [[-> ->]|[Hn2 H2]]%Hlook E; [done| | |exact (Ha j1 j2 t1 t2 H1 H2 E)].
    + eapply (Ha i j2); [done..|congruence].
    + eapply (Ha j1 i); [done..|congruence].
  - exists L, Q. split; [done|]. intros x. rewrite HLs. split.
    + intros (j & t & Hj & <-). exists j. eexists. split; [by apply Hback|]. case_decide; [|done]. subst.
      unfold live_space in *. simplify_eq. done.
    + intros (j & t & [[-> ->]|[Hne Hj]]%Hlook & <-); eauto.
Qed.

(** ** Creation *)

Lemma place_space_spec spaces s k :
  ∃ i, (place_space spaces s k).1 = (k + i)%nat ∧ (spaces !! i = None ∨ spaces !! i = Some None) ∧
       ∀ j, (place_space spaces s k).2 !! j = if decide (i = j) then Some (Some s) else spaces !! j.
Proof.
  revert k. induction spaces as [|x spaces IH]; intros k; simpl.
  - exists 0%nat. split_and!; [simpl; lia|by left|]. intros [|j]; simpl; done.
  - destruct x as [x|].
    + destruct (IH (S k)) as (i & Hi & Hf & Hl). destruct (place_space spaces s (S k)) as [n l]. simpl in *.
      exists (S i). split_and!; [lia|done|]. intros [|j]; simpl; [done|]. rewrite Hl. repeat case_decide; naive_solver lia.
    + exists 0%nat. split_and!; [simpl; lia|by right|]. intros [|j]; simpl; done.
Qed.

Section Manager.
Context (alloc : PtMem → option Z) `{!PageAllocator alloc} (k : KernelLayout) (Hk : layout_wf k).

(** What building an address space does to memory. *)
Lemma as_new_extends m asid r m' :
  AddressSpace_new alloc k m asid = Some (r, m') →
  match r with
  | Ok s => as_asid s = asid ∧ safe_rep m' (as_page_table s) ∧ pt_extends m [] m' (pt_owned (as_page_table s))
  | Err _ => ∃ p m1, pt_extends m [] m1 (pt_owned p) ∧ m' = PageTable_drop m1 p
  end.
Proof using PageAllocator0 Hk.
  unfold AddressSpace_new, map_kernel_segments. destruct (PageTable_new alloc m) as [[p m1]|] eqn:E; [|done].
  destruct (safe_new alloc m p m1 E) as (Hsafe & Hext & _).
  pose proof (run_segments_spec alloc (kernel_segments k) m1 p (kernel_segments_wf k Hk) Hsafe) as H.
  destruct (run_segments alloc m1 p (kernel_segments k)) as [[[[[]|e] m2] p2]|]; [| |done];
    intros [= <- <-]; destruct H as (Hsafe2 & Hext2 & _).
  - split_and!; [done..|]. by eapply pt_extends_trans.
  - exists p2, m2. split; [|done]. by eapply pt_extends_trans.
Qed.

(** Only the ASID allocator changed. *)
Lemma am_ok_asids m mg m' asids L Q :
  am_ok m mg → (∀ i s, live_space mg i s → safe_rep m' (as_page_table s)) → asid_rep L Q asids →
  (∀ x, x ∈ L ↔ ∃ i s, live_space mg i s ∧ as_asid s = x) →
  am_ok m' (mkAddressSpaceManager (am_spaces mg) asids).
Proof using. intros [_ Hd Ha _] Ht HL HLs. split; [done|done|done|]. by exists L, Q. Qed.

Lemma create_ok m mg r m' mg' :
  am_ok m mg → AddressSpaceManager_create alloc k m mg = Some (r, m', mg') → am_ok m' mg'.
Proof using PageAllocator0 Hk.
  intros Hok. pose proof Hok as [Ht Hd Ha (L & Q & HL & HLs)]. unfold AddressSpaceManager_create.
  pose proof (allocate_rep L Q (am_asids mg) HL) as Hal.
  destruct (AsidAllocator_allocate (am_asids mg)) as [[[asid|] shot] asids].
  2: { intros [= <- <- <-]. destruct Hal as [_ Hal]. by eapply am_ok_asids. }
  destruct Hal as (_ & Hni & _ & Hal).
  destruct (AddressSpace_new alloc k m asid) as [[[s|e] m1]|] eqn:E; [| |done];
    pose proof (as_new_extends _ _ _ _ E) as Hnew; clear E.
  - destruct Hnew as (Hasid & Hsafe & Hext).
    destruct (place_space_spec (am_spaces mg) s 0) as (i & _ & Hfree & Hl).
    destruct (place_space (am_spaces mg) s 0) as [n spaces]. simpl in Hl. intros [= <- <- <-].
    assert (Hlook : ∀ j t, live_space (mkAddressSpaceManager spaces asids) j t ↔
              (j = i ∧ t = s) ∨ (j ≠ i ∧ live_space mg j t)).
    { intros j t. unfold live_space. simpl. rewrite Hl. clear -j t. case_decide as Eij.
      - subst. split; [intros ?; simplify_eq; by left|intros [[_ ->]|[? _]]; done].
      - split; [intros ?; right; split; [congruence|done]|intros [[-> _]|[_ ?]]; done]. }
    assert (Hold : ∀ j t, live_space mg j t → j ≠ i) by (intros j t Hj ->; unfold live_space in Hj; destruct Hfree; congruence).
    assert (Hother : ∀ j t, live_space mg j t → safe_rep m1 (as_page_table t) ∧
              ∀ a, a ∈ pt_owned (as_page_table s) → ¬ a ∈ pt_owned (as_page_table t)).
    { intros j t Hj. destruct (safe_rep_other m (as_page_table t) _ _ _ (Ht _ _ Hj) Hext) as (? & ? & _); [by intros ? ?%elem_of_nil|auto]. }
    split.
    + intros j t [[-> ->]|[_ Hj]]%Hlook; [done|]. by eapply Hother.
    + intros j1 j2 t1 t2 a Hne [[-> ->]|[_ H1]]%Hlook [[-> ->]|[_ H2]]%Hlook; [done| | |exact (Hd j1 j2 t1 t2 a Hne H1 H2)].
      * by apply (Hother _ _ H2).
      * intros Hin1 Hin2. by apply (proj2 (Hother _ _ H1) a Hin2).
    + intros j1 j2 t1 t2 [[-> ->]|[_ H1]]%Hlook [[-> ->]|[_ H2]]%Hlook E'; [done| | |exact (Ha j1 j2 t1 t2 H1 H2 E')].
      * exfalso. apply Hni, HLs. exists j2, t2. split; [done|congruence].
      * exfalso. apply Hni, HLs. exists j1, t1. split; [done|congruence].
    + eexists _, _. split; [exact Hal|]. intros x. rewrite elem_of_union, elem_of_singleton, HLs. split.
      * intros [->|(j & t & Hj & <-)]; [exists i, s; split; [apply Hlook; auto|done]|].
        exists j, t. split; [|done]. apply Hlook. right. split; [by eapply Hold|done].
      * intros (j & t & [[-> ->]|[_ Hj]]%Hlook & <-); [by left|right; eauto].
  - intros [= <- <- <-]. destruct Hnew as (p & m2 & Hext & ->).
    assert (Hin : asid ∈ {[asid]} ∪ L) by (apply elem_of_union_l, elem_of_singleton; reflexivity).
    pose proof (free_rep _ _ _ asid Hal Hin) as Hfr.
    eapply am_ok_asids; [done| |exact Hfr|].
    + intros j t Hj. destruct (safe_rep_other m (as_page_table t) _ _ _ (Ht _ _ Hj) Hext) as (? & ? & _); [by intros ? ?%elem_of_nil|].
      by apply safe_rep_drop.
    + intros x. rewrite <- HLs, elem_of_difference, elem_of_union, elem_of_singleton. clear -Hni.
      split; [tauto|]. intros Hx. split; [by right|]. by intros ->.
Qed.

(** ** Destruction *)

Lemma destroy_ok m mg handle : am_ok m mg → let '(_, m', mg') := AddressSpaceManager_destroy m mg handle in am_ok m' mg'.
Proof using.
  intros Hok. unfold AddressSpaceManager_destroy. destruct (am_spaces mg !! handle_index handle) as [[s|]|] eqn:E; try done.
  destruct (bool_decide (size (as_owners s) = 0%nat)); [|done]. simpl. set (i := handle_index handle) in *.
  pose proof Hok as [Ht Hd Ha (L & Q & HL & HLs)].
  assert (Hlook : ∀ j t, live_space (mkAddressSpaceManager (<[i := None]> (am_spaces mg))
             (AsidAllocator_free (am_asids mg) (as_asid s))) j t ↔ j ≠ i ∧ live_space mg j t).
  { intros j t. unfold live_space. simpl. destruct (decide (i = j)) as [<-|Hne].
    - rewrite list_lookup_insert_eq by (by eapply lookup_lt_Some). split; [done|by intros [? _]].
    - rewrite list_lookup_insert_ne by done. split; [split; congruence|by intros [_ ?]]. }
  split.
  - intros j t [Hne Hj]%Hlook. apply safe_rep_drop; [by eapply Ht|]. intros a. by eapply (Hd i j).
  - intros j1 j2 t1 t2 a Hne [_ H1]%Hlook [_ H2]%Hlook. exact (Hd j1 j2 t1 t2 a Hne H1 H2).
  - intros j1 j2 t1 t2 [_ H1]%Hlook [_ H2]%Hlook. exact (Ha j1 j2 t1 t2 H1 H2).
  - assert (Hin : as_asid s ∈ L) by (apply HLs; exists i, s; done).
    eexists _, _. split; [by apply free_rep|]. intros x. rewrite elem_of_difference, elem_of_singleton, HLs. split.
    + intros [(j & t & Hj & <-) Hne]. exists j, t. split; [|done]. apply Hlook. split; [|done]. intros ->.
      unfold live_space in Hj. apply Hne. congruence.
    + intros (j & t & [Hne Hj]%Hlook & <-). split; [eauto|]. intros E'. apply Hne. by eapply (Ha j i).
Qed.

(** ** Mapping *)

Lemma get_live mg handle s : AddressSpaceManager_get mg handle = Ok s → live_space mg (handle_index handle) s.
Proof using.
  unfold AddressSpaceManager_get, ok_or, live_space. destruct (am_spaces mg !! handle_index handle) as [[x|]|]; simpl; congruence.
Qed.

Lemma safe_set_flags m p va set :
  safe_rep m p → in_width 64 va → flags_wf set →
  safe_rep (PageTable_set_leaf_flags m p va set).2 p ∧
  pt_extends m (pt_owned p) (PageTable_set_leaf_flags m p va set).2 (pt_owned p).
Proof using PageAllocator0.
  intros (A & Hrep & Hwx) Hva Hf.
  apply (safe_exec alloc A m p (PSetFlags va set) (PageTable_set_leaf_flags m p va set).1); done.
Qed.

Lemma mark_global_safe m p va :
  safe_rep m p → in_width 64 va → safe_rep (mark_global m p va) p ∧ pt_extends m (pt_owned p) (mark_global m p va) (pt_owned p).
Proof using PageAllocator0.
  intros Hsafe Hva. assert (Hg : flags_wf PF_GLOBAL) by done.
  assert (Hif : ∀ (b : bool) m0, safe_rep m0 p →
            let m1 := if b then (PageTable_set_leaf_flags m0 p va PF_GLOBAL).2 else m0 in
            safe_rep m1 p ∧ pt_extends m0 (pt_owned p) m1 (pt_owned p)).
  { intros [] m0 H0; [by apply safe_set_flags|]. split; [done|apply pt_extends_refl]. }
  destruct (Hif ((0x80000000 <=? va) && (va <? 0x81000000))%bool m Hsafe) as [H1 E1].
  destruct (Hif ((0x10000000 <=? va) && (va <? 0x10001000))%bool _ H1) as [H2 E2]. split; [exact H2|].
  eapply pt_extends_trans; [exact E1|exact E2].
Qed.

(** What mapping a page through a handle does. *)
Lemma map_page_effect m mg handle va pa flags r m' mg' :
  am_ok m mg → in_width 64 va → in_width 64 pa → flags_wf flags →
  AddressSpaceManager_map_page alloc m mg handle va pa flags = Some (r, m', mg') →
  (m' = m ∧ mg' = mg ∧ r = Err AsInvalidHandle) ∨
  ∃ s s', live_space mg (handle_index handle) s ∧ as_asid s' = as_asid s ∧ mg' = am_put mg (handle_index handle) (Some s') ∧
    safe_rep m' (as_page_table s') ∧ pt_extends m (pt_owned (as_page_table s)) m' (pt_owned (as_page_table s')).
Proof using PageAllocator0.
  intros Hok Hva Hpa Hf. unfold AddressSpaceManager_map_page.
  destruct (AddressSpaceManager_get mg handle) as [s|e] eqn:Eg.
  2: { intros [= <- <- <-]. left. split_and!; try done. unfold AddressSpaceManager_get, ok_or in Eg. by case_match; simplify_eq. }
  pose proof (get_live _ _ _ Eg) as Hs. pose proof (am_tables _ _ Hok _ _ Hs) as (A & Hrep & Hwx).
  destruct (PageTable_map alloc m (as_page_table s) va pa flags) as [[[r1 m1] p1]|] eqn:Em; [|done].
  destruct (safe_exec alloc A m (as_page_table s) (PMap va pa flags) r1 m1 p1) as [Hsafe1 Hext1]; try done.
  destruct r1 as [[]|e]; intros [= <- <- <-]; right; exists s, (as_set_table s p1).
  - destruct (mark_global_safe m1 p1 va Hsafe1 Hva) as [Hsafe2 Hext2].
    split_and!; try done. by eapply pt_extends_trans.
  - by split_and!.
Qed.

(** ** Every operation *)

Inductive am_op :=
| AMCreate | AMAttach (handle pid : Z) | AMDetach (handle pid : Z) | AMDestroy (handle : Z)
| AMMapPage (handle va pa flags : Z) | AMSetFlags (handle va set : Z).

Definition am_op_wf (op : am_op) : Prop :=
  match op with
  | AMMapPage _ va pa flags => in_width 64 va ∧ in_width 64 pa ∧ flags_wf flags
  | AMSetFlags _ va set => in_width 64 va ∧ flags_wf set
  | _ => True
  end.

Definition am_step (m : PtMem) (mg : AddressSpaceManager) (op : am_op) : option (PtMem * AddressSpaceManager) :=
  match op with
  | AMCreate => (fun '(_, m', mg') => (m', mg')) <$> AddressSpaceManager_create alloc k m mg
  | AMAttach handle pid => Some (m, (AddressSpaceManager_attach mg handle pid).2)
  | AMDetach handle pid => Some (m, (AddressSpaceManager_detach mg handle pid).2)
  | AMDestroy handle => let '(_, m', mg') := AddressSpaceManager_destroy m mg handle in Some (m', mg')
  | AMMapPage handle va pa flags =>
      (fun '(_, m', mg') => (m', mg')) <$> AddressSpaceManager_map_page alloc m mg handle va pa flags
  | AMSetFlags handle va set => Some ((AddressSpaceManager_set_leaf_flags m mg handle va set).2, mg)
  end.

Lemma am_put_same mg i s : live_space mg i s → am_put mg i (Some s) = mg.
Proof using. intros H. unfold am_put. rewrite list_insert_id by done. by destruct mg. Qed.

Lemma am_step_ok m mg op m' mg' :
  am_ok m mg → am_op_wf op → am_step m mg op = Some (m', mg') → am_ok m' mg'.
Proof using PageAllocator0 Hk.
  intros Hok Hwf Hst. destruct op as [|handle pid|handle pid|handle|handle va pa flags|handle va set]; simpl in *.
  - destruct (AddressSpaceManager_create alloc k m mg) as [[[r m1] mg1]|] eqn:E; simplify_eq/=. by eapply create_ok.
  - unfold AddressSpaceManager_attach in Hst. destruct (AddressSpaceManager_get mg handle) eqn:Eg; simplify_eq/=; [|done].
    apply get_live in Eg. eapply (am_ok_update _ _ _ _ _ _ Hok Eg); [reflexivity| |apply pt_extends_refl].
    exact (am_tables _ _ Hok _ _ Eg).
  - unfold AddressSpaceManager_detach in Hst. destruct (AddressSpaceManager_get mg handle) eqn:Eg; simplify_eq/=; [|done].
    apply get_live in Eg. eapply (am_ok_update _ _ _ _ _ _ Hok Eg); [reflexivity| |apply pt_extends_refl].
    exact (am_tables _ _ Hok _ _ Eg).
  - pose proof (destroy_ok m mg handle Hok) as H. destruct (AddressSpaceManager_destroy m mg handle) as [[r m1] mg1].
    by simplify_eq.
  - destruct Hwf as (Hva & Hpa & Hf).
    destruct (AddressSpaceManager_map_page alloc m mg handle va pa flags) as [[[r m1] mg1]|] eqn:E; simplify_eq/=.
    destruct (map_page_effect _ _ _ _ _ _ _ _ _ Hok Hva Hpa Hf E) as [(-> & -> & _)|(s & s' & Hs & Ha & -> & Hsafe & Hext)]; [done|].
    by eapply am_ok_update.
  - destruct Hwf as [Hva Hf]. unfold AddressSpaceManager_set_leaf_flags in Hst.
    destruct (AddressSpaceManager_get mg handle) as [s|] eqn:Eg; simplify_eq/=; [|done]. apply get_live in Eg.
    destruct (safe_set_flags m (as_page_table s) va set (am_tables _ _ Hok _ _ Eg) Hva Hf) as [Hsafe Hext].
    destruct (PageTable_set_leaf_flags m (as_page_table s) va set) as [r m1]. simpl in *.
    rewrite <- (am_put_same _ _ _ Eg). by eapply am_ok_update.
Qed.

(** An operation fails to return only if the allocator fails. *)
Lemma am_step_none m mg op : am_ok m mg → am_op_wf op → am_step m mg op = None → ∃ m1, alloc m1 = None.
Proof using PageAllocator0 Hk.
  intros Hok Hwf Hst. destruct op as [|handle pid|handle pid|handle|handle va pa flags|handle va set]; simpl in *; try done.
  - apply fmap_None in Hst. unfold AddressSpaceManager_create in Hst.
    destruct (AsidAllocator_allocate _) as [[[asid|] shot] asids]; [|done].
    destruct (AddressSpace_new alloc k m asid) as [[[s|e] m1]|] eqn:E; [by destruct (place_space _ _ _)|done|].
    unfold AddressSpace_new, map_kernel_segments in E. destruct (PageTable_new alloc m) as [[p m1]|] eqn:En.
    + destruct (safe_new alloc m p m1 En) as (Hsafe & _ & _).
      pose proof (run_segments_spec alloc (kernel_segments k) m1 p (kernel_segments_wf k Hk) Hsafe) as H.
      destruct (run_segments _ _ _ _) as [[[[|] ?] ?]|]; done.
    + unfold PageTable_new, alloc_page in En. repeat case_match; simplify_eq. eauto.
  - by destruct (AddressSpaceManager_destroy m mg handle) as [[r m1] mg1].
  - apply fmap_None in Hst. unfold AddressSpaceManager_map_page in Hst.
    destruct (AddressSpaceManager_get mg handle) as [s|] eqn:Eg; [|done]. apply get_live in Eg.
    destruct (PageTable_map alloc m (as_page_table s) va pa flags) as [[[[|] m1] p1]|] eqn:Em; [done..|].
    exact (map_any_none alloc m (as_page_table s) false va pa flags (am_tables _ _ Hok _ _ Eg) (proj1 Hwf)
             (proj1 (proj2 Hwf)) (proj2 (proj2 Hwf)) Em).
Qed.

Fixpoint am_run (m : PtMem) (mg : AddressSpaceManager) (ops : list am_op) : option (PtMem * AddressSpaceManager) :=
  match ops with
  | [] => Some (m, mg)
  | op :: ops' =>
      match am_step m mg op with
      | Some (m', mg') => am_run m' mg' ops'
      | None => None
      end
  end.

Lemma am_new_ok m : am_ok m AddressSpaceManager_new.
Proof using.
  split; try (intros *; unfold live_space; simpl; by rewrite lookup_nil).
  exists ∅, ∅. split; [apply asid_new_rep|]. intros x. split; [by intros ?%elem_of_empty|].
  intros (i & s & H & _). unfold live_space in H. simpl in H. by rewrite lookup_nil in H.
Qed.

(** C30: the address-space manager keeps address spaces apart.  From an empty
    manager, every sequence of create, attach, detach, destroy, map and flag
    operations keeps: unique non-zero ASIDs that the allocator counts as live,
    page tables that own disjoint pages, and W^X tables; it fails to return
    only if the page allocator does. *)
Theorem as_manager_invariant m ops :
  Forall am_op_wf ops →
  match am_run m AddressSpaceManager_new ops with
  | None => ∃ m1, alloc m1 = None
  | Some (m', mg') => am_ok m' mg'
  end.
Proof using PageAllocator0 Hk.
  intros Hops. generalize (am_new_ok m). generalize AddressSpaceManager_new. revert m.
  induction Hops as [|op ops Hop _ IH]; intros m mg Hok; simpl; [done|].
  destruct (am_step m mg op) as [[m1 mg1]|] eqn:E; [|by eapply am_step_none].
  apply IH. by eapply am_step_ok.
Qed.

(** ** Isolation between handles *)

Definition op_target (op : am_op) : option nat :=
  match op with
  | AMCreate => None
  | AMAttach handle _ | AMDetach handle _ | AMDestroy handle | AMMapPage handle _ _ _ | AMSetFlags handle _ _ =>
      Some (handle_index handle)
  end.

Lemma am_put_other mg i s j t : i ≠ j → live_space mg j t → live_space (am_put mg i s) j t.
Proof using. intros Hne Hj. unfold live_space in *. simpl. by rewrite list_lookup_insert_ne. Qed.

(** An operation through one handle (or the creation of a new address
    space) leaves every other address space as it is: it stays live under its
    handle, with the same ASID and owners, and translates every address as
    before. *)
Theorem handles_isolated m mg op m' mg' j t :
  am_ok m mg → am_op_wf op → am_step m mg op = Some (m', mg') → live_space mg j t → op_target op ≠ Some j →
  live_space mg' j t ∧
  ∀ va, PageTable_translate m' (as_page_table t) va = PageTable_translate m (as_page_table t) va.
Proof using PageAllocator0 Hk.
  intros Hok Hwf Hst Hj Hne. pose proof (am_tables _ _ Hok _ _ Hj) as Hsafe.
  destruct op as [|handle pid|handle pid|handle|handle va pa flags|handle va set]; simpl in *.
  - destruct (AddressSpaceManager_create alloc k m mg) as [[[r m1] mg1]|] eqn:E; simplify_eq/=.
    unfold AddressSpaceManager_create in E. destruct (AsidAllocator_allocate _) as [[[asid|] shot] asids]; [|by simplify_eq].
    destruct (AddressSpace_new alloc k m asid) as [[[s|e] m1]|] eqn:En; [| |done];
      pose proof (as_new_extends _ _ _ _ En) as Hnew.
    + destruct Hnew as (_ & _ & Hext). destruct (place_space_spec (am_spaces mg) s 0) as (i & _ & Hfree & Hl).
      destruct (place_space (am_spaces mg) s 0) as [n spaces]. simpl in Hl. simplify_eq. split.
      * unfold live_space in *. simpl. rewrite Hl, decide_False; [done|]. intros ->. destruct Hfree; congruence.
      * apply (safe_rep_other m (as_page_table t) _ _ _ Hsafe Hext). by intros ? ?%elem_of_nil.
    + simplify_eq. destruct Hnew as (p & m2 & Hext & ->). split; [done|].
      destruct (safe_rep_other m (as_page_table t) _ _ _ Hsafe Hext) as (Hs2 & Hd2 & Htr2); [by intros ? ?%elem_of_nil|].
      intros va. rewrite <- Htr2. by apply safe_rep_drop.
  - unfold AddressSpaceManager_attach in Hst. destruct (AddressSpaceManager_get mg handle); simplify_eq/=; [|done].
    split; [|done]. apply am_put_other; [congruence|done].
  - unfold AddressSpaceManager_detach in Hst. destruct (AddressSpaceManager_get mg handle); simplify_eq/=; [|done].
    split; [|done]. apply am_put_other; [congruence|done].
  - unfold AddressSpaceManager_destroy in Hst. destruct (am_spaces mg !! handle_index handle) as [[s|]|] eqn:E;
      [|by simplify_eq|by simplify_eq]. destruct (bool_decide (size (as_owners s) = 0%nat)); simplify_eq/=; [|done]. split.
    + unfold live_space in *. simpl. rewrite list_lookup_insert_ne by congruence. done.
    + apply safe_rep_drop; [done|]. intros a. apply (am_disjoint _ _ Hok (handle_index handle) j s t a); [congruence|done..].
  - destruct Hwf as (Hva & Hpa & Hf).
    destruct (AddressSpaceManager_map_page alloc m mg handle va pa flags) as [[[r m1] mg1]|] eqn:E; simplify_eq/=.
    destruct (map_page_effect _ _ _ _ _ _ _ _ _ Hok Hva Hpa Hf E) as [(-> & -> & _)|(s & s' & Hs & Ha & -> & _ & Hext)]; [done|].
    split; [apply am_put_other; [congruence|done]|].
    apply (safe_rep_other m (as_page_table t) _ _ _ Hsafe Hext).
    intros a. apply (am_disjoint _ _ Hok (handle_index handle) j s t a); [congruence|done..].
  - destruct Hwf as [Hva Hf]. unfold AddressSpaceManager_set_leaf_flags in Hst.
    destruct (AddressSpaceManager_get mg handle) as [s|] eqn:Eg; simplify_eq/=; [|done]. apply get_live in Eg.
    destruct (safe_set_flags m (as_page_table s) va set (am_tables _ _ Hok _ _ Eg) Hva Hf) as [_ Hext].
    destruct (PageTable_set_leaf_flags m (as_page_table s) va set) as [r m1]. simpl in *. split; [done|].
    apply (safe_rep_other m (as_page_table t) _ _ _ Hsafe Hext).
    intros a. apply (am_disjoint _ _ Hok (handle_index handle) j s t a); [congruence|done..].
Qed.
End Manager.

Lemma as_manager_invariant_witness :
  match am_run demo_alloc demo_layout ∅ AddressSpaceManager_new [AMCreate; AMAttach 1 7; AMMapPage 1 0x400000 0x90000000 19; AMDestroy 1] with
  | None => ∃ m1, demo_alloc m1 = None
  | Some (m', mg') => am_ok m' mg'
  end.
Proof.
  apply (as_manager_invariant demo_alloc demo_layout demo_layout_wf).
  do 4 (apply Forall_cons; split; [unfold am_op_wf, in_width, flags_wf; lia || exact I|]). constructor.
Defined.

Definition demo_spaces : PtMem * AddressSpaceManager :=
  default (∅, AddressSpaceManager_new) (am_run demo_alloc demo_layout ∅ AddressSpaceManager_new [AMCreate]).

Lemma demo_spaces_ok : am_ok demo_spaces.1 demo_spaces.2.
Proof.
  destruct (am_step demo_alloc demo_layout ∅ AddressSpaceManager_new AMCreate) as [[m mg]|] eqn:E.
  - pose proof (am_step_ok demo_alloc demo_layout demo_layout_wf _ _ AMCreate m mg (am_new_ok ∅) I E) as H.
    unfold demo_spaces. cbn [am_run]. rewrite E. exact H.
  - vm_compute in E. discriminate.
Qed.

Lemma handles_isolated_witness :
  ∃ m' mg' t, am_step demo_alloc demo_layout demo_spaces.1 demo_spaces.2 AMCreate = Some (m', mg') ∧
    live_space mg' 0 t ∧
    ∀ va, PageTable_translate m' (as_page_table t) va = PageTable_translate demo_spaces.1 (as_page_table t) va.
Proof.
  destruct (am_step demo_alloc demo_layout demo_spaces.1 demo_spaces.2 AMCreate) as [[m' mg']|] eqn:E;
    [|vm_compute in E; discriminate].
  destruct (am_spaces demo_spaces.2 !! 0%nat) as [[t|]|] eqn:Et; [|vm_compute in Et; discriminate..].
  exists m', mg', t. split; [reflexivity|].
  apply (handles_isolated demo_alloc demo_layout demo_layout_wf demo_spaces.1 demo_spaces.2 AMCreate m' mg' 0%nat t
           demo_spaces_ok I E Et). discriminate.
Defined.
