(* ===== verification/Smp.v ===== *)
(** * SMP coordination ([source/kernel/neuron/src/core/smp/mod.rs], [core/smp/runtime.rs])

    The online mask, the reschedule request/trap/acknowledge handshake, the
    WFI wake hints, round-robin placement of new tasks, the steal rate gate and
    the preemption tick gate.

    The statics indexed by CPU are grouped in one record per CPU.  A counter is
    an [AtomicUsize]: [fetch_add] wraps at 64 bits.  The result of the SBI call
    [send_ipi] is an argument.  The identity of the executing hart is an
    argument; only the resolution rule of the fallback path is modelled. *)

From S2P Require Import Prelude Sched.

(** ** Data *)

Record SmpCpu := mkSmpCpu {
  RESCHED_PENDING : Z;
  RESCHED_REQ_ACCEPTED : Z;
  RESCHED_IPI_SENT_OK : Z;
  RESCHED_SSOFT_TRAPS : Z;
  RESCHED_ACK : Z;
  WAKE_HINT : Z;
  LAST_STEAL_NS : Z;
  PREEMPT_TICKS : Z;
  TIMER_TICKS : Z;
  USER_DISPATCHES : Z
}.

Record Smp := mkSmp {
  CPU_ONLINE_MASK : Z;
  smp_cpus : list SmpCpu;
  SELFTEST_FORCE_IPI_SEND_FAIL : Z;
  RUNTIME_READY : bool;
  SPAWN_RR : Z;
  WORK_STEAL_EVENTS : Z
}.

Record ReschedEvidence := mkReschedEvidence {
  request_accepted_count : Z;
  ipi_send_ok_count : Z;
  ssoft_trap_count : Z;
  ack_count : Z
}.

Inductive ReschedTrapOutcome := Acked | NoPendingRequest.

Definition SmpCpu_zero : SmpCpu := mkSmpCpu 0 0 0 0 0 0 0 0 0 0.
Definition Smp_init : Smp := mkSmp 0 (replicate MAX_CPUS SmpCpu_zero) 0 false 0 0.

(** The cell of one CPU as a read and as an update. *)
Definition smp_cpu (s : Smp) (idx : nat) : SmpCpu := default SmpCpu_zero (smp_cpus s !! idx).
Definition smp_update (f : SmpCpu → SmpCpu) (idx : nat) (s : Smp) : Smp :=
  mkSmp (CPU_ONLINE_MASK s) (alter f idx (smp_cpus s)) (SELFTEST_FORCE_IPI_SEND_FAIL s) (RUNTIME_READY s)
    (SPAWN_RR s) (WORK_STEAL_EVENTS s).

Definition set_pending (v : Z) (c : SmpCpu) : SmpCpu :=
  mkSmpCpu v (RESCHED_REQ_ACCEPTED c) (RESCHED_IPI_SENT_OK c) (RESCHED_SSOFT_TRAPS c) (RESCHED_ACK c)
    (WAKE_HINT c) (LAST_STEAL_NS c) (PREEMPT_TICKS c) (TIMER_TICKS c) (USER_DISPATCHES c).
Definition add_accepted (c : SmpCpu) : SmpCpu :=
  mkSmpCpu (RESCHED_PENDING c) (wrapping_add 64 (RESCHED_REQ_ACCEPTED c) 1) (RESCHED_IPI_SENT_OK c)
    (RESCHED_SSOFT_TRAPS c) (RESCHED_ACK c) (WAKE_HINT c) (LAST_STEAL_NS c) (PREEMPT_TICKS c) (TIMER_TICKS c)
    (USER_DISPATCHES c).
Definition add_ipi_ok (c : SmpCpu) : SmpCpu :=
  mkSmpCpu (RESCHED_PENDING c) (RESCHED_REQ_ACCEPTED c) (wrapping_add 64 (RESCHED_IPI_SENT_OK c) 1)
    (RESCHED_SSOFT_TRAPS c) (RESCHED_ACK c) (WAKE_HINT c) (LAST_STEAL_NS c) (PREEMPT_TICKS c) (TIMER_TICKS c)
    (USER_DISPATCHES c).
Definition add_ssoft (c : SmpCpu) : SmpCpu :=
  mkSmpCpu (RESCHED_PENDING c) (RESCHED_REQ_ACCEPTED c) (RESCHED_IPI_SENT_OK c)
    (wrapping_add 64 (RESCHED_SSOFT_TRAPS c) 1) (RESCHED_ACK c) (WAKE_HINT c) (LAST_STEAL_NS c) (PREEMPT_TICKS c)
    (TIMER_TICKS c) (USER_DISPATCHES c).
Definition add_ack (c : SmpCpu) : SmpCpu :=
  mkSmpCpu (RESCHED_PENDING c) (RESCHED_REQ_ACCEPTED c) (RESCHED_IPI_SENT_OK c) (RESCHED_SSOFT_TRAPS c)
    (wrapping_add 64 (RESCHED_ACK c) 1) (WAKE_HINT c) (LAST_STEAL_NS c) (PREEMPT_TICKS c) (TIMER_TICKS c)
    (USER_DISPATCHES c).
Definition set_hint (v : Z) (c : SmpCpu) : SmpCpu :=
  mkSmpCpu (RESCHED_PENDING c) (RESCHED_REQ_ACCEPTED c) (RESCHED_IPI_SENT_OK c) (RESCHED_SSOFT_TRAPS c)
    (RESCHED_ACK c) v (LAST_STEAL_NS c) (PREEMPT_TICKS c) (TIMER_TICKS c) (USER_DISPATCHES c).
Definition set_last_steal (v : Z) (c : SmpCpu) : SmpCpu :=
  mkSmpCpu (RESCHED_PENDING c) (RESCHED_REQ_ACCEPTED c) (RESCHED_IPI_SENT_OK c) (RESCHED_SSOFT_TRAPS c)
    (RESCHED_ACK c) (WAKE_HINT c) v (PREEMPT_TICKS c) (TIMER_TICKS c) (USER_DISPATCHES c).
Definition add_preempt_tick (c : SmpCpu) : SmpCpu :=
  mkSmpCpu (RESCHED_PENDING c) (RESCHED_REQ_ACCEPTED c) (RESCHED_IPI_SENT_OK c) (RESCHED_SSOFT_TRAPS c)
    (RESCHED_ACK c) (WAKE_HINT c) (LAST_STEAL_NS c) (wrapping_add 64 (PREEMPT_TICKS c) 1) (TIMER_TICKS c)
    (USER_DISPATCHES c).
Definition add_timer_tick (c : SmpCpu) : SmpCpu :=
  mkSmpCpu (RESCHED_PENDING c) (RESCHED_REQ_ACCEPTED c) (RESCHED_IPI_SENT_OK c) (RESCHED_SSOFT_TRAPS c)
    (RESCHED_ACK c) (WAKE_HINT c) (LAST_STEAL_NS c) (PREEMPT_TICKS c) (wrapping_add 64 (TIMER_TICKS c) 1)
    (USER_DISPATCHES c).
Definition add_dispatch (c : SmpCpu) : SmpCpu :=
  mkSmpCpu (RESCHED_PENDING c) (RESCHED_REQ_ACCEPTED c) (RESCHED_IPI_SENT_OK c) (RESCHED_SSOFT_TRAPS c)
    (RESCHED_ACK c) (WAKE_HINT c) (LAST_STEAL_NS c) (PREEMPT_TICKS c) (TIMER_TICKS c)
    (wrapping_add 64 (USER_DISPATCHES c) 1).

(** ** Identity and the online mask *)

(** [1 << idx] and the test of a mask bit. *)
Definition cpu_bit (idx : nat) : Z := Z.shiftl 1 (Z.of_nat idx).
Definition mask_has (mask : Z) (idx : nat) : bool := negb (Z.land mask (cpu_bit idx) =? 0).

Definition CPU_BOOT : nat := 0.

Definition resolve_cpu_id (tp_hint stack_cpu : option nat) : nat :=
  match tp_hint, stack_cpu with
  | Some tp, Some stack => if bool_decide (tp = stack) then tp else stack
  | None, Some stack => stack
  | Some tp, None => if bool_decide (tp = CPU_BOOT) then tp else CPU_BOOT
  | None, None => CPU_BOOT
  end.

Definition cpu_is_online (s : Smp) (cpu : nat) : bool := mask_has (CPU_ONLINE_MASK s) cpu.

Definition mark_cpu_online (s : Smp) (cpu : nat) : Smp :=
  if bool_decide (MAX_CPUS ≤ cpu)%nat then s
  else mkSmp (Z.lor (CPU_ONLINE_MASK s) (cpu_bit cpu)) (smp_cpus s) (SELFTEST_FORCE_IPI_SEND_FAIL s)
         (RUNTIME_READY s) (SPAWN_RR s) (WORK_STEAL_EVENTS s).

(** ** The reschedule handshake *)

Definition set_wake_hint (s : Smp) (cpu : nat) : Smp :=
  if bool_decide (cpu < MAX_CPUS)%nat then smp_update (set_hint 1) cpu s else s.

(** [ipi_ok]: the SBI call reports no error. *)
Definition request_resched (ipi_ok : bool) (s : Smp) (target : nat) : bool * Smp :=
  if (bool_decide (MAX_CPUS ≤ target)%nat || negb (cpu_is_online s target))%bool then (false, s)
  else
    let s1 := smp_update add_accepted target s in
    let s2 := smp_update (set_pending 1) target s1 in
    let s3 := set_wake_hint s2 target in
    (true,
     if ((SELFTEST_FORCE_IPI_SEND_FAIL s3 =? 0) && ipi_ok)%bool then smp_update add_ipi_ok target s3 else s3).

Definition take_resched (s : Smp) (cpu : nat) : bool * Smp :=
  if bool_decide (MAX_CPUS ≤ cpu)%nat then (false, s)
  else (negb (RESCHED_PENDING (smp_cpu s cpu) =? 0), smp_update (set_pending 0) cpu s).

Definition acknowledge_resched (s : Smp) (cpu : nat) : Smp :=
  if bool_decide (MAX_CPUS ≤ cpu)%nat then s else smp_update add_ack cpu s.

Definition record_ssoft_trap (s : Smp) (cpu : nat) : Smp :=
  if bool_decide (MAX_CPUS ≤ cpu)%nat then s else smp_update add_ssoft cpu s.

Definition handle_ssoft_resched (s : Smp) (cpu : nat) : ReschedTrapOutcome * Smp :=
  let s1 := record_ssoft_trap s cpu in
  match take_resched s1 cpu with
  | (true, s2) => (Acked, acknowledge_resched s2 cpu)
  | (false, s2) => (NoPendingRequest, s2)
  end.

Definition clear_resched_pending (s : Smp) (cpu : nat) : Smp :=
  if bool_decide (MAX_CPUS ≤ cpu)%nat then s else smp_update (set_pending 0) cpu s.

Definition resched_evidence (s : Smp) (cpu : nat) : ReschedEvidence :=
  if bool_decide (MAX_CPUS ≤ cpu)%nat then mkReschedEvidence 0 0 0 0
  else let c := smp_cpu s cpu in
       mkReschedEvidence (RESCHED_REQ_ACCEPTED c) (RESCHED_IPI_SENT_OK c) (RESCHED_SSOFT_TRAPS c) (RESCHED_ACK c).

Definition take_wake_hint (s : Smp) (cpu : nat) : bool * Smp :=
  if bool_decide (cpu < MAX_CPUS)%nat then
    (negb (WAKE_HINT (smp_cpu s cpu) =? 0), smp_update (set_hint 0) cpu s)
  else (false, s).

Definition selftest_force_ipi_send_failure (s : Smp) (enable : bool) : Smp :=
  mkSmp (CPU_ONLINE_MASK s) (smp_cpus s) (if enable then 1 else 0) (RUNTIME_READY s) (SPAWN_RR s)
    (WORK_STEAL_EVENTS s).

Definition record_work_steal (s : Smp) : Smp :=
  mkSmp (CPU_ONLINE_MASK s) (smp_cpus s) (SELFTEST_FORCE_IPI_SEND_FAIL s) (RUNTIME_READY s) (SPAWN_RR s)
    (wrapping_add 64 (WORK_STEAL_EVENTS s) 1).

Definition reset_counters (c : SmpCpu) : SmpCpu :=
  mkSmpCpu 0 0 0 0 0 (WAKE_HINT c) (LAST_STEAL_NS c) (PREEMPT_TICKS c) (TIMER_TICKS c) (USER_DISPATCHES c).
Definition reset_selftest_counters (s : Smp) : Smp :=
  mkSmp (CPU_ONLINE_MASK s) (map reset_counters (smp_cpus s)) 0 (RUNTIME_READY s) (SPAWN_RR s) 0.

(** ** Runtime state *)

Definition mark_runtime_ready (s : Smp) : Smp :=
  mkSmp (CPU_ONLINE_MASK s) (smp_cpus s) (SELFTEST_FORCE_IPI_SEND_FAIL s) true (SPAWN_RR s) (WORK_STEAL_EVENTS s).

Definition record_user_dispatch (s : Smp) (cpu : nat) : Smp :=
  if bool_decide (cpu < MAX_CPUS)%nat then smp_update add_dispatch cpu s else s.

Definition record_timer_tick (s : Smp) (cpu : nat) : Z * Smp :=
  if bool_decide (cpu < MAX_CPUS)%nat then (TIMER_TICKS (smp_cpu s cpu), smp_update add_timer_tick cpu s) else (0, s).

(** [mask.count_ones()], the mask having bits below [MAX_CPUS] only. *)
Definition online_cpus (mask : Z) : list nat := filter (fun i => mask_has mask i = true) (seq 0 MAX_CPUS).
Fixpoint count_ones (bits : nat) (mask : Z) : nat :=
  match bits with
  | O => 0
  | S b => (if mask_has mask b then 1 else 0) + count_ones b mask
  end%nat.

(** The placement loop: the [k]-th set bit of the mask, the boot CPU if there
    is none. *)
Fixpoint spawn_loop (mask : Z) (k : nat) (indices : list nat) : nat :=
  match indices with
  | [] => CPU_BOOT
  | idx :: rest =>
      if mask_has mask idx then match k with O => idx | S k' => spawn_loop mask k' rest end
      else spawn_loop mask k rest
  end.

Definition assign_spawn_cpu (hart : nat) (s : Smp) : nat * Smp :=
  if negb (RUNTIME_READY s) then (hart, s)
  else
    let mask := CPU_ONLINE_MASK s in
    let count := count_ones 64 mask in
    if bool_decide (count ≤ 1)%nat then (hart, s)
    else
      let n := SPAWN_RR s in
      let k := Z.to_nat (n mod Z.of_nat count) in
      (spawn_loop mask k (seq 0 MAX_CPUS),
       mkSmp (CPU_ONLINE_MASK s) (smp_cpus s) (SELFTEST_FORCE_IPI_SEND_FAIL s) (RUNTIME_READY s)
         (wrapping_add 64 n 1) (WORK_STEAL_EVENTS s)).

Definition steal_rate_gate (s : Smp) (cpu : nat) (now_ns min_interval_ns : Z) : bool * Smp :=
  if bool_decide (MAX_CPUS ≤ cpu)%nat then (false, s)
  else if saturating_sub now_ns (LAST_STEAL_NS (smp_cpu s cpu)) <? min_interval_ns then (false, s)
  else (true, smp_update (set_last_steal now_ns) cpu s).

Definition preempt_tick_and_rotate (s : Smp) (cpu : nat) (slice_ticks : Z) : bool * Smp :=
  let ticks := wrapping_add 64 (PREEMPT_TICKS (smp_cpu s cpu)) 1 in
  ((slice_ticks <=? 1) || (ticks mod slice_ticks =? 0), smp_update add_preempt_tick cpu s)%bool.

(** ** * Properties of the SMP coordination state

    The reschedule handshake over arbitrary interleavings of requesters, traps
    and idle loops, and the fairness of task placement. *)

(** ** Histories *)

Inductive smp_op :=
| SOnline (cpu : nat)
| SRequest (ipi_ok : bool) (target : nat)
| SSoft (cpu : nat)
| SClear (cpu : nat)
| STakeHint (cpu : nat)
| SSpawn (hart : nat)
| SReady
| SStealGate (cpu : nat) (now_ns min_interval_ns : Z)
| SPreempt (cpu : nat) (slice_ticks : Z)
| STimer (cpu : nat)
| SDispatch (cpu : nat)
| SForceIpiFail (enable : bool)
| SWorkSteal.

Definition smp_step (s : Smp) (op : smp_op) : Smp :=
  match op with
  | SOnline cpu => mark_cpu_online s cpu
  | SRequest ipi_ok target => (request_resched ipi_ok s target).2
  | SSoft cpu => (handle_ssoft_resched s cpu).2
  | SClear cpu => clear_resched_pending s cpu
  | STakeHint cpu => (take_wake_hint s cpu).2
  | SSpawn hart => (assign_spawn_cpu hart s).2
  | SReady => mark_runtime_ready s
  | SStealGate cpu now_ns min_interval_ns => (steal_rate_gate s cpu now_ns min_interval_ns).2
  | SPreempt cpu slice_ticks => (preempt_tick_and_rotate s cpu slice_ticks).2
  | STimer cpu => (record_timer_tick s cpu).2
  | SDispatch cpu => record_user_dispatch s cpu
  | SForceIpiFail enable => selftest_force_ipi_send_failure s enable
  | SWorkSteal => record_work_steal s
  end.

Definition smp_run (ops : list smp_op) : Smp := foldl smp_step Smp_init ops.

Lemma smp_run_snoc ops op : smp_run (ops ++ [op]) = smp_step (smp_run ops) op.
Proof. apply foldl_snoc. Qed.

(** "[P] happened and [Q] has not happened since." *)
Definition since (P : list smp_op → smp_op → Prop) (Q : smp_op → Prop) (ops : list smp_op) : Prop :=
  ∃ pre op suf, ops = pre ++ op :: suf ∧ P pre op ∧ Forall (fun o => ¬ Q o) suf.

Lemma since_nil P Q : ¬ since P Q [].
Proof. intros (pre & op & suf & H & _). by destruct pre. Qed.

Lemma since_snoc P Q ops op : since P Q (ops ++ [op]) ↔ P ops op ∨ (since P Q ops ∧ ¬ Q op).
Proof.
  split.
  - intros (pre & o & suf & H & HP & HQ). destruct suf as [|x suf _] using rev_ind.
    + apply app_inj_tail in H as [<- <-]. by left.
    + right. rewrite app_comm_cons, app_assoc in H. apply app_inj_tail in H as [-> ->].
      apply Forall_app in HQ as [HQ Hx]. split; [by exists pre, o, suf|by inversion_clear Hx].
  - intros [HP|[(pre & o & suf & -> & HP & HQ) Hn]].
    + by exists ops, op, [].
    + exists pre, o, (suf ++ [op]). rewrite <- app_assoc. split; [done|]. split; [done|].
      apply Forall_app. auto.
Qed.

(** ** Cells *)

Lemma smp_cpu_update f i s j :
  smp_cpu (smp_update f i s) j =
    if decide (i = j ∧ (i < length (smp_cpus s))%nat) then f (smp_cpu s j) else smp_cpu s j.
Proof.
  unfold smp_cpu, smp_update. simpl. destruct (decide (i = j)) as [->|Hne].
  - rewrite list_lookup_alter_eq. destruct (smp_cpus s !! j) eqn:E; simpl.
    + apply lookup_lt_Some in E. by rewrite decide_True.
    + apply lookup_ge_None in E. rewrite decide_False; [done|]. lia.
  - rewrite list_lookup_alter_ne by done. rewrite decide_False; naive_solver.
Qed.

Lemma smp_update_length f i s : length (smp_cpus (smp_update f i s)) = length (smp_cpus s).
Proof. apply length_alter. Qed.

Lemma smp_step_length s op : length (smp_cpus (smp_step s op)) = length (smp_cpus s).
Proof.
  destruct op; simpl; unfold mark_cpu_online, request_resched, handle_ssoft_resched, record_ssoft_trap, take_resched,
    acknowledge_resched, clear_resched_pending, take_wake_hint, assign_spawn_cpu, steal_rate_gate,
    record_timer_tick, record_user_dispatch, set_wake_hint; repeat case_match; simplify_eq/=;
    rewrite ?length_alter; done.
Qed.

Lemma smp_run_length ops : length (smp_cpus (smp_run ops)) = MAX_CPUS.
Proof.
  induction ops as [|op ops IH] using rev_ind; [done|]. by rewrite smp_run_snoc, smp_step_length.
Qed.

(** What one step does to the cell of CPU [t]. *)
Definition cell_effect (s : Smp) (op : smp_op) (t : nat) (c : SmpCpu) : SmpCpu :=
  match op with
  | SRequest ipi_ok target =>
      if decide (target = t ∧ cpu_is_online s t = true) then
        (if ((SELFTEST_FORCE_IPI_SEND_FAIL s =? 0) && ipi_ok)%bool then add_ipi_ok else id)
          (set_hint 1 (set_pending 1 (add_accepted c)))
      else c
  | SSoft cpu =>
      if decide (cpu = t) then
        (if RESCHED_PENDING c =? 0 then id else add_ack) (set_pending 0 (add_ssoft c))
      else c
  | SClear cpu => if decide (cpu = t) then set_pending 0 c else c
  | STakeHint cpu => if decide (cpu = t) then set_hint 0 c else c
  | SStealGate cpu now_ns min_interval_ns =>
      if decide (cpu = t ∧ min_interval_ns ≤ saturating_sub now_ns (LAST_STEAL_NS c)) then set_last_steal now_ns c
      else c
  | SPreempt cpu _ => if decide (cpu = t) then add_preempt_tick c else c
  | STimer cpu => if decide (cpu = t) then add_timer_tick c else c
  | SDispatch cpu => if decide (cpu = t) then add_dispatch c else c
  | SOnline _ | SSpawn _ | SReady | SForceIpiFail _ | SWorkSteal => c
  end.

Ltac smp_crush :=
  repeat first
    [ rewrite smp_cpu_update | rewrite smp_update_length
    | progress (repeat case_decide; repeat case_bool_decide; repeat case_match; simplify_eq/=) ].

Lemma smp_step_cell s op t :
  length (smp_cpus s) = MAX_CPUS → (t < MAX_CPUS)%nat →
  smp_cpu (smp_step s op) t = cell_effect s op t (smp_cpu s t).
Proof.
  intros Hlen Ht. destruct op as [c|ok c|c|c|c|h| |c now mi|c sl|c|c|b|]; simpl; try done.
  - unfold mark_cpu_online. by case_match.
  - unfold request_resched, set_wake_hint. destruct (decide (c = t ∧ cpu_is_online s t = true)) as [[-> Hon]|Hn].
    + rewrite bool_decide_false, Hon by lia. simpl. rewrite bool_decide_true by done.
      change (SELFTEST_FORCE_IPI_SEND_FAIL (smp_update (set_hint 1) t _)) with (SELFTEST_FORCE_IPI_SEND_FAIL s).
      destruct ((_ =? 0) && ok)%bool; rewrite !smp_cpu_update, !smp_update_length, !decide_True by lia; done.
    + case_match eqn:E; [done|]. simpl_bool.
      destruct (decide (c = t)) as [->|Hne]; [naive_solver|]. rewrite bool_decide_true by lia.
      simpl. case_match; rewrite !smp_cpu_update, !decide_False by naive_solver; done.
  - unfold handle_ssoft_resched, take_resched, acknowledge_resched, record_ssoft_trap.
    destruct (decide (c = t)) as [->|Hne].
    + rewrite !bool_decide_false by lia. simpl. rewrite smp_cpu_update, decide_True by lia. simpl.
      destruct (RESCHED_PENDING (smp_cpu s t) =? 0); simpl;
        rewrite !smp_cpu_update, !smp_update_length, !decide_True by lia; done.
    + repeat case_match; simplify_eq/=; rewrite ?smp_cpu_update, ?decide_False by naive_solver; done.
  - unfold clear_resched_pending. smp_crush; done || lia.
  - unfold take_wake_hint. smp_crush; done || lia.
  - unfold assign_spawn_cpu. by repeat case_match.
  - unfold steal_rate_gate. destruct (decide (c = t)) as [->|Hne].
    + rewrite bool_decide_false by lia. case_match; simpl_bool.
      * rewrite decide_False by lia. done.
      * simpl. rewrite smp_cpu_update, !decide_True by lia. done.
    + rewrite (decide_False (P:=c = t ∧ _)) by naive_solver. repeat case_match; simpl; [done|done|].
      rewrite smp_cpu_update, decide_False by naive_solver. done.
  - smp_crush; done || lia.
  - unfold record_timer_tick. smp_crush; done || lia.
  - unfold record_user_dispatch. smp_crush; done || lia.
Qed.

(** ** The handshake *)

(** An accepted request for [t]. *)
Definition accepted_request (t : nat) (pre : list smp_op) (op : smp_op) : Prop :=
  (∃ ipi_ok, op = SRequest ipi_ok t) ∧ cpu_is_online (smp_run pre) t = true.

Definition takes_hint (t : nat) (op : smp_op) : Prop := op = STakeHint t.
Definition takes_pending (t : nat) (op : smp_op) : Prop := op = SSoft t ∨ op = SClear t.

Ltac cell_cases :=
  repeat (case_decide; simplify_eq/=); try (case_match; simplify_eq/=).

Ltac cpu_cases t := unfold MAX_CPUS in *; do 4 (destruct t as [|t]; [done|]); lia.

Lemma hint_since t ops :
  (t < MAX_CPUS)%nat →
  WAKE_HINT (smp_cpu (smp_run ops) t) ≠ 0 ↔ since (accepted_request t) (takes_hint t) ops.
Proof.
  intros Ht. induction ops as [|op ops IH] using rev_ind.
  - split; [intros []; cpu_cases t|]. intros H. by apply since_nil in H.
  - rewrite smp_run_snoc, since_snoc, <- IH, smp_step_cell by (done || apply smp_run_length).
    unfold accepted_request, takes_hint.
    destruct op; simpl; cell_cases; naive_solver.
Qed.

Lemma pending_since t ops :
  (t < MAX_CPUS)%nat →
  RESCHED_PENDING (smp_cpu (smp_run ops) t) ≠ 0 ↔ since (accepted_request t) (takes_pending t) ops.
Proof.
  intros Ht. induction ops as [|op ops IH] using rev_ind.
  - split; [intros []; cpu_cases t|]. intros H. by apply since_nil in H.
  - rewrite smp_run_snoc, since_snoc, <- IH, smp_step_cell by (done || apply smp_run_length).
    unfold accepted_request, takes_pending.
    destruct op; simpl; cell_cases; naive_solver.
Qed.

Definition pending_one (c : SmpCpu) : Z := if RESCHED_PENDING c =? 0 then 0 else 1.

Lemma evidence_bounds t ops :
  (t < MAX_CPUS)%nat → vlen ops < 2 ^ 64 →
  let c := smp_cpu (smp_run ops) t in
  0 ≤ RESCHED_ACK c ∧ RESCHED_ACK c + pending_one c ≤ RESCHED_REQ_ACCEPTED c ∧
  RESCHED_ACK c ≤ RESCHED_SSOFT_TRAPS c ∧
  RESCHED_REQ_ACCEPTED c ≤ vlen ops ∧ RESCHED_SSOFT_TRAPS c ≤ vlen ops.
Proof.
  intros Ht. induction ops as [|op ops IH] using rev_ind; intros Hlen.
  - unfold vlen. cpu_cases t.
  - rewrite vlen_app in *. change (vlen [op]) with 1 in *. pose proof (vlen_nonneg ops).
    rewrite smp_run_snoc, smp_step_cell by (done || apply smp_run_length).
    specialize (IH ltac:(lia)). simpl in IH. set (c := smp_cpu (smp_run ops) t) in *. clearbody c.
    unfold pending_one in *. destruct op; simpl; cell_cases; repeat (case_match; simpl_bool; simpl in * );
      unfold wrapping_add; rewrite ?Z.mod_small by lia; lia.
Qed.

(** The reschedule handshake loses nothing and acknowledges nothing
    spurious, however requesters, traps and idle loops interleave.  The idle
    loop's wake hint is set exactly when a request for the CPU was accepted
    after its last check, whatever the trap handler consumed in between; a
    software-interrupt trap acknowledges exactly when a request was accepted
    since the last trap or clear; and over any history shorter than the
    counters' range there are never more acknowledgements than accepted
    requests or than traps. *)
Theorem resched_handshake ops t :
  (t < MAX_CPUS)%nat →
  let s := smp_run ops in
  ((take_wake_hint s t).1 = true ↔ since (accepted_request t) (takes_hint t) ops) ∧
  ((handle_ssoft_resched s t).1 = Acked ↔ since (accepted_request t) (takes_pending t) ops) ∧
  (vlen ops < 2 ^ 64 →
   ack_count (resched_evidence s t) ≤ request_accepted_count (resched_evidence s t) ∧
   ack_count (resched_evidence s t) ≤ ssoft_trap_count (resched_evidence s t)).
Proof.
  intros Ht s. split_and!.
  - rewrite <- hint_since by done. unfold take_wake_hint. rewrite bool_decide_true by done. simpl.
    destruct (Z.eqb_spec (WAKE_HINT (smp_cpu s t)) 0); naive_solver.
  - rewrite <- pending_since by done.
    unfold handle_ssoft_resched, take_resched, record_ssoft_trap. rewrite !bool_decide_false by lia.
    rewrite smp_cpu_update, decide_True by (split; [done|unfold s; rewrite smp_run_length; done]). simpl.
    change (smp_cpu s t) with (smp_cpu (smp_run ops) t).
    destruct (Z.eqb_spec (RESCHED_PENDING (smp_cpu (smp_run ops) t)) 0); simpl; naive_solver.
  - intros Hlen. pose proof (evidence_bounds t ops Ht Hlen) as H. simpl in H.
    unfold resched_evidence. rewrite bool_decide_false by lia. simpl. fold s in H. unfold pending_one in H.
    case_match; lia.
Qed.

Lemma resched_handshake_witness :
  (take_wake_hint (smp_run [SOnline 1; SRequest true 1; SSoft 1; SSoft 1]) 1).1 = true.
Proof.
  apply (resched_handshake [SOnline 1; SRequest true 1; SSoft 1; SSoft 1] 1); [unfold MAX_CPUS; lia|].
  exists [SOnline 1], (SRequest true 1), [SSoft 1; SSoft 1].
  split; [done|]. split; [by split; [exists true|]|].
  by repeat constructor.
Defined.

(** ** Placement *)

Lemma mask_has_testbit mask i : mask_has mask i = Z.testbit mask (Z.of_nat i).
Proof.
  unfold mask_has, cpu_bit. rewrite Z.shiftl_1_l. destruct (Z.testbit mask (Z.of_nat i)) eqn:E.
  - apply negb_true_iff, Z.eqb_neq. intros H.
    assert (Hb : Z.testbit (Z.land mask (2 ^ Z.of_nat i)) (Z.of_nat i) = false) by by rewrite H, Z.bits_0.
    rewrite Z.land_spec, E, Z.pow2_bits_true in Hb by lia. done.
  - apply negb_false_iff, Z.eqb_eq, Z.bits_inj'. intros n Hn. rewrite Z.land_spec, Z.pow2_bits_eqb, Z.bits_0 by lia.
    destruct (Z.eqb_spec (Z.of_nat i) n) as [<-|]; [by rewrite E|by rewrite andb_false_r].
Qed.

Lemma count_ones_filter bits mask :
  count_ones bits mask = length (filter (fun i => mask_has mask i = true) (seq 0 bits)).
Proof.
  induction bits as [|b IH]; [done|]. rewrite seq_S, filter_app, length_app, <- IH. simpl.
  rewrite filter_cons, filter_nil. destruct (mask_has mask b); simpl; lia.
Qed.

Lemma online_cpus_count mask : in_width (Z.of_nat MAX_CPUS) mask → count_ones 64 mask = length (online_cpus mask).
Proof.
  intros Hm. rewrite count_ones_filter. change 64%nat with (MAX_CPUS + 60)%nat. rewrite seq_app, filter_app, length_app.
  replace (filter _ (seq (0 + MAX_CPUS) 60)) with (@nil nat); [simpl; unfold online_cpus; by rewrite Nat.add_0_r|].
  destruct (filter _ (seq (0 + MAX_CPUS) 60)) as [|i rest] eqn:E; [done|].
  assert (Hi : i ∈ i :: rest) by by left. rewrite <- E in Hi. apply list_elem_of_filter in Hi as [H Hi%elem_of_seq].
  rewrite mask_has_testbit in H. rewrite Z.bits_above_log2 in H; [done| |].
  - unfold in_width in Hm. lia.
  - unfold in_width in Hm. destruct (decide (mask = 0)) as [->|]; [simpl; unfold MAX_CPUS in *; lia|].
    apply Z.log2_lt_pow2; [lia|]. apply Z.lt_le_trans with (2 ^ Z.of_nat MAX_CPUS); [lia|].
    apply Z.pow_le_mono_r; lia.
Qed.

Lemma spawn_loop_lookup mask k indices :
  spawn_loop mask k indices = default CPU_BOOT (filter (fun i => mask_has mask i = true) indices !! k).
Proof.
  revert k. induction indices as [|i rest IH]; intros k; simpl; [done|].
  rewrite filter_cons. destruct (mask_has mask i); simpl; [destruct k; simpl; [done|apply IH]|].
  apply IH.
Qed.

(** [n] placements in a row. *)
Fixpoint spawn_many (n : nat) (hart : nat) (s : Smp) : list nat :=
  match n with
  | O => []
  | S n' => let '(cpu, s1) := assign_spawn_cpu hart s in cpu :: spawn_many n' hart s1
  end.

Lemma assign_spawn_eq hart s :
  let l := online_cpus (CPU_ONLINE_MASK s) in
  RUNTIME_READY s = true → in_width (Z.of_nat MAX_CPUS) (CPU_ONLINE_MASK s) → (1 < length l)%nat →
  assign_spawn_cpu hart s =
    (default CPU_BOOT (l !! Z.to_nat (SPAWN_RR s mod vlen l)),
     mkSmp (CPU_ONLINE_MASK s) (smp_cpus s) (SELFTEST_FORCE_IPI_SEND_FAIL s) true
       (wrapping_add 64 (SPAWN_RR s) 1) (WORK_STEAL_EVENTS s)).
Proof.
  intros l Hr Hm Hl. unfold assign_spawn_cpu. rewrite Hr, online_cpus_count by done. fold l. cbn [negb].
  rewrite bool_decide_false by lia. by rewrite spawn_loop_lookup.
Qed.

Lemma spawn_many_lookup n hart s i :
  let l := online_cpus (CPU_ONLINE_MASK s) in
  RUNTIME_READY s = true → in_width (Z.of_nat MAX_CPUS) (CPU_ONLINE_MASK s) →
  (1 < length l)%nat → 0 ≤ SPAWN_RR s → SPAWN_RR s + Z.of_nat n < 2 ^ 64 → (i < n)%nat →
  spawn_many n hart s !! i = Some (default CPU_BOOT (l !! Z.to_nat ((SPAWN_RR s + Z.of_nat i) mod vlen l))).
Proof.
  revert s i. induction n as [|n IH]; intros s i l Hr Hm Hl H0 Hw Hi; [lia|].
  cbn [spawn_many]. rewrite assign_spawn_eq by done. fold l.
  destruct i as [|i]; [by rewrite Z.add_0_r|]. cbn [lookup list_lookup].
  rewrite IH; cbn [RUNTIME_READY CPU_ONLINE_MASK SPAWN_RR]; fold l; unfold wrapping_add;
    rewrite ?(Z.mod_small (SPAWN_RR s + 1)) by lia; try done; try lia.
  replace (SPAWN_RR s + 1 + Z.of_nat i) with (SPAWN_RR s + Z.of_nat (S i)) by lia. done.
Qed.

Lemma spawn_many_length n hart s : length (spawn_many n hart s) = n.
Proof.
  revert s. induction n as [|n IH]; intros s; simpl; [done|]. destruct (assign_spawn_cpu hart s). simpl. by rewrite IH.
Qed.

Lemma smp_run_online ops : in_width (Z.of_nat MAX_CPUS) (CPU_ONLINE_MASK (smp_run ops)).
Proof.
  induction ops as [|op ops IH] using rev_ind; [done|]. rewrite smp_run_snoc. set (s := smp_run ops) in *. clearbody s.
  destruct op; simpl; unfold mark_cpu_online, request_resched, handle_ssoft_resched, record_ssoft_trap, take_resched,
    acknowledge_resched, clear_resched_pending, take_wake_hint, assign_spawn_cpu, steal_rate_gate,
    record_timer_tick, record_user_dispatch, set_wake_hint; repeat case_match; simplify_eq/=; try done.
  case_bool_decide; [done|]. unfold in_width in *. split; [apply Z.lor_nonneg; split; [lia|]|].
  - unfold cpu_bit. apply Z.shiftl_nonneg. lia.
  - unfold MAX_CPUS in *. assert (H16 : ∀ x y, 0 ≤ x < 16 → 0 ≤ y < 16 → Z.lor x y < 16).
    { intros x y Hx Hy. destruct (decide (Z.lor x y = 0)) as [->|]; [lia|].
      apply (Z.log2_lt_pow2 _ 4).
      - pose proof (proj2 (Z.lor_nonneg x y) ltac:(lia)). lia.
      - rewrite Z.log2_lor by lia. apply Z.max_lub_lt; (destruct (decide (x = 0)) as [->|]; [simpl; try lia|]);
          try (apply Z.log2_lt_pow2; lia); (destruct (decide (y = 0)) as [->|]; [simpl; lia|]); apply Z.log2_lt_pow2; lia. }
    apply H16; [done|]. do 4 (destruct cpu as [|cpu]; [done|]). lia.
Qed.

(** New tasks are spread fairly.  Once the runtime is released with at
    least two CPUs online, as many consecutive placements as there are online
    CPUs are a rotation of the online CPUs: every online CPU gets exactly one,
    no offline CPU gets any (up to the wrap of the 64-bit cursor). *)
Theorem spawn_round_robin ops hart :
  let s := smp_run ops in
  let l := online_cpus (CPU_ONLINE_MASK s) in
  RUNTIME_READY s = true → (1 < length l)%nat → 0 ≤ SPAWN_RR s → SPAWN_RR s + vlen l < 2 ^ 64 →
  spawn_many (length l) hart s = rotate (Z.to_nat (SPAWN_RR s)) l ∧ Permutation (spawn_many (length l) hart s) l.
Proof.
  intros s l Hr Hl H0 Hw.
  assert (E : spawn_many (length l) hart s = rotate (Z.to_nat (SPAWN_RR s)) l).
  { apply list_eq_same_length with (length l); [by rewrite length_rotate|by rewrite spawn_many_length|].
    intros i x y Hi Hx Hy. rewrite spawn_many_lookup in Hx by (done || apply smp_run_online).
    rewrite lookup_rotate_r in Hy by done. unfold rotate_nat_add in Hy.
    rewrite Z2Nat.id in Hy by done. fold l in Hx. unfold vlen in Hx.
    rewrite Hy in Hx. by simplify_eq/=. }
  split; [done|]. rewrite E. unfold rotate. rewrite Permutation_app_comm. by rewrite take_drop.
Qed.

Lemma spawn_round_robin_witness :
  Permutation (spawn_many 3 0 (smp_run [SOnline 0; SOnline 1; SOnline 3; SReady; SSpawn 0])) [0; 1; 3]%nat.
Proof.
  exact (proj2 (spawn_round_robin [SOnline 0; SOnline 1; SOnline 3; SReady; SSpawn 0] 0
    eq_refl ltac:(vm_compute; lia) ltac:(done) ltac:(done))).
Defined.
