(* ===== verification/Tlb.v ===== *)
(** * TLB shootdown ([source/kernel/neuron/src/core/smp/tlb.rs])

    The epoch and mailbox protocol, at the granularity of its atomic accesses:
    the initiator's [shootdown_all] and every hart's [poll_mailbox] are state
    machines whose steps interleave freely (sequential consistency for the
    acquire/release accesses).  Shootdowns are serialised by the big kernel
    lock, so there is one initiator at a time.

    Ghost state, read by no step: the number of page-table changes made so far
    ([tb_version]), for each hart the version as of its last full flush
    ([tb_seen]: later translations can only be filled from that version or a
    newer one), and the version at which each epoch was started
    ([tb_versions]). *)

From S2P Require Import Prelude Sched Smp.

(** ** Data *)

Record TlbMailbox := mkTlbMailbox { tm_requested : Z; tm_acked : Z }.

(** Where a hart is in [poll_mailbox]: outside, after the load of [requested],
    after the comparison with [acked], after the flush. *)
Inductive poll_pc :=
| PollOut
| PollLoaded (requested : Z)
| PollFlush (requested : Z)
| PollStore (requested : Z).

(** Where the initiator is in [shootdown_all]. *)
Inductive shoot_pc :=
| ShootOut
| ShootFlush
| ShootMask
| ShootEpoch (online : Z)
| ShootRequest (online epoch targets : Z) (idx : nat)
| ShootWait (online epoch targets : Z) (idx : nat)
| ShootTime (online epoch targets : Z)
| ShootDone (online epoch targets : Z)
| ShootPanic.

Record TlbSys := mkTlbSys {
  TLB_EPOCH : Z;
  TLB_MAIL : list TlbMailbox;
  tb_polls : list poll_pc;
  tb_me : nat;
  tb_shoot : shoot_pc;
  tb_version : nat;
  tb_seen : list nat;
  tb_versions : list nat
}.

Definition TlbSys_init : TlbSys :=
  mkTlbSys 0 (replicate MAX_CPUS (mkTlbMailbox 0 0)) (replicate MAX_CPUS PollOut) 0 ShootOut 0
    (replicate MAX_CPUS 0%nat) [0%nat].

(** ** Steps *)

Definition tb_mail (s : TlbSys) (idx : nat) : TlbMailbox := default (mkTlbMailbox 0 0) (TLB_MAIL s !! idx).
Definition tb_poll (s : TlbSys) (idx : nat) : poll_pc := default PollOut (tb_polls s !! idx).
Definition tb_seen_at (s : TlbSys) (idx : nat) : nat := default 0%nat (tb_seen s !! idx).

Definition tb_set_poll (s : TlbSys) (idx : nat) (p : poll_pc) : TlbSys :=
  mkTlbSys (TLB_EPOCH s) (TLB_MAIL s) (<[idx := p]> (tb_polls s)) (tb_me s) (tb_shoot s) (tb_version s) (tb_seen s)
    (tb_versions s).
Definition tb_set_mail (s : TlbSys) (idx : nat) (b : TlbMailbox) : TlbSys :=
  mkTlbSys (TLB_EPOCH s) (<[idx := b]> (TLB_MAIL s)) (tb_polls s) (tb_me s) (tb_shoot s) (tb_version s) (tb_seen s)
    (tb_versions s).
Definition tb_set_shoot (s : TlbSys) (p : shoot_pc) : TlbSys :=
  mkTlbSys (TLB_EPOCH s) (TLB_MAIL s) (tb_polls s) (tb_me s) p (tb_version s) (tb_seen s) (tb_versions s).

(** [sfence.vma x0, x0] on hart [idx]. *)
Definition local_flush_all (s : TlbSys) (idx : nat) : TlbSys :=
  mkTlbSys (TLB_EPOCH s) (TLB_MAIL s) (tb_polls s) (tb_me s) (tb_shoot s) (tb_version s)
    (<[idx := tb_version s]> (tb_seen s)) (tb_versions s).

(** One atomic step of [poll_mailbox] on hart [cpu]. *)
Definition poll_mailbox (s : TlbSys) (cpu : nat) : TlbSys :=
  if bool_decide (MAX_CPUS ≤ cpu)%nat then s
  else match tb_poll s cpu with
       | PollOut => tb_set_poll s cpu (PollLoaded (tm_requested (tb_mail s cpu)))
       | PollLoaded requested =>
           if requested <=? tm_acked (tb_mail s cpu) then tb_set_poll s cpu PollOut
           else tb_set_poll s cpu (PollFlush requested)
       | PollFlush requested => tb_set_poll (local_flush_all s cpu) cpu (PollStore requested)
       | PollStore requested =>
           tb_set_poll (tb_set_mail s cpu (mkTlbMailbox (tm_requested (tb_mail s cpu)) requested)) cpu PollOut
       end.

(** The epoch's [fetch_add]. *)
Definition advance_epoch (s : TlbSys) : Z * TlbSys :=
  let epoch := wrapping_add 64 (TLB_EPOCH s) 1 in
  (epoch, mkTlbSys epoch (TLB_MAIL s) (tb_polls s) (tb_me s) (tb_shoot s) (tb_version s) (tb_seen s)
            (tb_versions s ++ [tb_version s])).

(** One atomic step of [shootdown_all].  [online] is the online mask when it is
    read, [late] says whether the clock has passed the deadline when it is. *)
Definition shootdown_all (online : Z) (late : bool) (s : TlbSys) : TlbSys :=
  match tb_shoot s with
  | ShootOut | ShootDone _ _ _ | ShootPanic => s
  | ShootFlush => tb_set_shoot (local_flush_all s (tb_me s)) ShootMask
  | ShootMask => tb_set_shoot s (ShootEpoch online)
  | ShootEpoch online => let '(epoch, s1) := advance_epoch s in tb_set_shoot s1 (ShootRequest online epoch 0 0)
  | ShootRequest online epoch targets idx =>
      if bool_decide (idx < MAX_CPUS)%nat then
        if (bool_decide (idx = tb_me s) || negb (mask_has online idx))%bool then
          tb_set_shoot s (ShootRequest online epoch targets (S idx))
        else
          let b := tb_mail s idx in
          tb_set_shoot (tb_set_mail s idx (mkTlbMailbox (Z.max (tm_requested b) epoch) (tm_acked b)))
            (ShootRequest online epoch (Z.lor targets (cpu_bit idx)) (S idx))
      else if targets =? 0 then tb_set_shoot s (ShootDone online epoch targets)
      else tb_set_shoot s (ShootWait online epoch targets 0)
  | ShootWait online epoch targets idx =>
      if bool_decide (idx < MAX_CPUS)%nat then
        if negb (mask_has targets idx) then tb_set_shoot s (ShootWait online epoch targets (S idx))
        else if tm_acked (tb_mail s idx) <? epoch then tb_set_shoot s (ShootTime online epoch targets)
        else tb_set_shoot s (ShootWait online epoch targets (S idx))
      else tb_set_shoot s (ShootDone online epoch targets)
  | ShootTime online epoch targets =>
      if late then tb_set_shoot s ShootPanic else tb_set_shoot s (ShootWait online epoch targets 0)
  end.

(** What can happen: a page-table change by the holder of the kernel lock
    outside a shootdown, the call of a shootdown on hart [me] and its return,
    a step of the initiator, a step of a hart's trap handler. *)
Inductive tlb_label :=
| TModify
| TCall (me : nat)
| TShoot (online : Z) (late : bool)
| TReturn
| TPoll (cpu : nat).

#[export] Instance label_eq_dec : EqDecision tlb_label.
Proof. solve_decision. Defined.

Definition tlb_step (s : TlbSys) (l : tlb_label) : TlbSys :=
  match l with
  | TModify =>
      match tb_shoot s with
      | ShootOut => mkTlbSys (TLB_EPOCH s) (TLB_MAIL s) (tb_polls s) (tb_me s) (tb_shoot s) (S (tb_version s))
                      (tb_seen s) (tb_versions s)
      | _ => s
      end
  | TCall me =>
      match tb_shoot s with
      | ShootOut => mkTlbSys (TLB_EPOCH s) (TLB_MAIL s) (tb_polls s) me ShootFlush (tb_version s) (tb_seen s)
                      (tb_versions s)
      | _ => s
      end
  | TShoot online late => shootdown_all online late s
  | TReturn => match tb_shoot s with ShootDone _ _ _ => tb_set_shoot s ShootOut | _ => s end
  | TPoll cpu => poll_mailbox s cpu
  end.

Definition tlb_run (s : TlbSys) (ls : list tlb_label) : TlbSys := foldl tlb_step s ls.

(** ** * Correctness of the TLB shootdown

    When [shootdown_all] returns, no online hart can use a translation older
    than the last page-table change; and every hart that is asked to flush
    acknowledges within a bounded number of its own steps, without taking the
    kernel lock. *)

(** ** The invariant *)

(** A hart whose translations are at least as new as [seen] has flushed since
    epoch [e] was started. *)
Definition seen_since (vs : list nat) (e : Z) (seen : nat) : Prop :=
  ∃ v, vs !! Z.to_nat e = Some v ∧ (v ≤ seen)%nat.

Definition poll_ok (vs : list nat) (b : TlbMailbox) (p : poll_pc) (seen : nat) : Prop :=
  match p with
  | PollOut => True
  | PollLoaded r => 0 ≤ r ≤ tm_requested b
  | PollFlush r => tm_acked b < r ≤ tm_requested b
  | PollStore r => tm_acked b < r ≤ tm_requested b ∧ seen_since vs r seen
  end.

(** What holds of one hart: its mailbox, its place in the handler and its TLB. *)
Definition hart_ok (E : Z) (vs : list nat) (V : nat) (b : TlbMailbox) (p : poll_pc) (seen : nat) : Prop :=
  0 ≤ tm_acked b ≤ tm_requested b ∧ tm_requested b ≤ E ∧ seen_since vs (tm_acked b) seen ∧ (seen ≤ V)%nat ∧
  poll_ok vs b p seen.

(** The initiator's knowledge, once the epoch [e] is started. *)
Definition epoch_current (s : TlbSys) (e : Z) : Prop :=
  e = TLB_EPOCH s ∧ tb_versions s !! Z.to_nat e = Some (tb_version s).
Definition me_flushed (s : TlbSys) : Prop := (tb_me s < MAX_CPUS)%nat → tb_seen_at s (tb_me s) = tb_version s.
Definition targets_below (s : TlbSys) (online targets : Z) (n : nat) : Prop :=
  ∀ j, (j < MAX_CPUS)%nat →
    mask_has targets j = true ↔ (j < n)%nat ∧ j ≠ tb_me s ∧ mask_has online j = true.
Definition requested_all (s : TlbSys) (e targets : Z) : Prop :=
  ∀ j, (j < MAX_CPUS)%nat → mask_has targets j = true → e ≤ tm_requested (tb_mail s j).
Definition acked_below (s : TlbSys) (e targets : Z) (n : nat) : Prop :=
  ∀ j, (j < MAX_CPUS)%nat → (j < n)%nat → mask_has targets j = true → e ≤ tm_acked (tb_mail s j).

Definition shoot_ok (s : TlbSys) : Prop :=
  match tb_shoot s with
  | ShootOut | ShootFlush | ShootPanic => True
  | ShootMask | ShootEpoch _ => me_flushed s
  | ShootRequest online e targets idx =>
      epoch_current s e ∧ me_flushed s ∧ targets_below s online targets idx ∧ requested_all s e targets
  | ShootWait online e targets idx =>
      epoch_current s e ∧ me_flushed s ∧ targets_below s online targets MAX_CPUS ∧ requested_all s e targets ∧
      acked_below s e targets idx
  | ShootTime online e targets =>
      epoch_current s e ∧ me_flushed s ∧ targets_below s online targets MAX_CPUS ∧ requested_all s e targets
  | ShootDone online e targets =>
      epoch_current s e ∧ me_flushed s ∧ targets_below s online targets MAX_CPUS ∧ acked_below s e targets MAX_CPUS
  end.

Record tlb_inv (s : TlbSys) : Prop := {
  ti_mail : length (TLB_MAIL s) = MAX_CPUS;
  ti_polls : length (tb_polls s) = MAX_CPUS;
  ti_seen : length (tb_seen s) = MAX_CPUS;
  ti_epoch : TLB_EPOCH s + 1 = vlen (tb_versions s);
  ti_sorted : ∀ i j v w, (i ≤ j)%nat → tb_versions s !! i = Some v → tb_versions s !! j = Some w → (v ≤ w)%nat;
  ti_top : ∀ i v, tb_versions s !! i = Some v → (v ≤ tb_version s)%nat;
  ti_hart : ∀ j, (j < MAX_CPUS)%nat →
    hart_ok (TLB_EPOCH s) (tb_versions s) (tb_version s) (tb_mail s j) (tb_poll s j) (tb_seen_at s j);
  ti_shoot : shoot_ok s
}.

(** ** Reading after writing *)

Lemma default_insert {A} (d : A) (l : list A) i j x :
  default d (<[i := x]> l !! j) = if decide (i = j ∧ (i < length l)%nat) then x else default d (l !! j).
Proof.
  destruct (decide (i = j ∧ (i < length l)%nat)) as [[-> Hi]|Hn].
  - by rewrite list_lookup_insert_eq.
  - destruct (decide (i = j)) as [->|Hne].
    + rewrite list_insert_ge; [done|]. lia.
    + by rewrite list_lookup_insert_ne.
Qed.

Lemma seen_since_mono vs vs' e seen seen' :
  vs `prefix_of` vs' → (seen ≤ seen')%nat → seen_since vs e seen → seen_since vs' e seen'.
Proof.
  intros Hp Hs (v & Hv & Hle). exists v. split; [by eapply prefix_lookup_Some|lia].
Qed.

Lemma hart_ok_mono E vs V E' vs' V' b p seen :
  E ≤ E' → vs `prefix_of` vs' → (V ≤ V')%nat → hart_ok E vs V b p seen → hart_ok E' vs' V' b p seen.
Proof.
  intros HE Hp HV (Ha & Hr & Hs & Hle & Hpoll). split_and!; try lia.
  - by eapply seen_since_mono.
  - destruct p; simpl in *; try done. destruct Hpoll as [H1 H2]. split; [done|]. by eapply seen_since_mono.
Qed.

(** A request only raises [requested]. *)
Lemma hart_ok_request E vs V b p seen r :
  tm_requested b ≤ r ≤ E → hart_ok E vs V b p seen → hart_ok E vs V (mkTlbMailbox r (tm_acked b)) p seen.
Proof.
  intros Hr (Ha & Hq & Hs & Hle & Hpoll). split_and!; simpl; try done; try lia.
  destruct p; simpl in *; try done; try lia. destruct Hpoll. split; [lia|done].
Qed.

Lemma seen_since_now s e : tlb_inv s → 0 ≤ e ≤ TLB_EPOCH s → seen_since (tb_versions s) e (tb_version s).
Proof.
  intros I He. pose proof (ti_epoch _ I) as HE. unfold vlen in HE.
  destruct (lookup_lt_is_Some_2 (tb_versions s) (Z.to_nat e)) as [v Hv]; [lia|].
  exists v. split; [done|]. by eapply ti_top.
Qed.

(** The initiator's knowledge survives whatever only raises mailboxes and
    keeps its own TLB current. *)
Lemma shoot_ok_frame s s' :
  TLB_EPOCH s' = TLB_EPOCH s → tb_versions s' = tb_versions s → tb_version s' = tb_version s →
  tb_me s' = tb_me s → tb_shoot s' = tb_shoot s → (me_flushed s → me_flushed s') →
  (∀ j, (j < MAX_CPUS)%nat → tm_requested (tb_mail s j) ≤ tm_requested (tb_mail s' j)) →
  (∀ j, (j < MAX_CPUS)%nat → tm_acked (tb_mail s j) ≤ tm_acked (tb_mail s' j)) →
  shoot_ok s → shoot_ok s'.
Proof.
  intros HE Hvs HV Hme Hsh Hfl Hr Ha. unfold shoot_ok. rewrite Hsh.
  assert (Hc : ∀ e, epoch_current s e → epoch_current s' e) by (intros e; unfold epoch_current; by rewrite HE, Hvs, HV).
  assert (Hq : ∀ e t, requested_all s e t → requested_all s' e t).
  { intros e t H j Hj Ht. specialize (H j Hj Ht). specialize (Hr j Hj). lia. }
  assert (Hk : ∀ e t n, acked_below s e t n → acked_below s' e t n).
  { intros e t n H j Hj Hn Ht. specialize (H j Hj Hn Ht). specialize (Ha j Hj). lia. }
  assert (Ht : ∀ o t n, targets_below s o t n → targets_below s' o t n)
    by (intros o t n; unfold targets_below; by rewrite Hme).
  destruct (tb_shoot s); naive_solver.
Qed.

(** *** The trap handler *)

Lemma poll_shape s cpu :
  let s' := poll_mailbox s cpu in
  TLB_EPOCH s' = TLB_EPOCH s ∧ tb_versions s' = tb_versions s ∧ tb_version s' = tb_version s ∧
  tb_me s' = tb_me s ∧ tb_shoot s' = tb_shoot s ∧ length (TLB_MAIL s') = length (TLB_MAIL s) ∧
  length (tb_polls s') = length (tb_polls s) ∧ length (tb_seen s') = length (tb_seen s).
Proof.
  unfold poll_mailbox. repeat case_match; simpl; rewrite ?length_insert; done.
Qed.

Lemma poll_other s cpu j :
  j ≠ cpu →
  tb_mail (poll_mailbox s cpu) j = tb_mail s j ∧ tb_poll (poll_mailbox s cpu) j = tb_poll s j ∧
  tb_seen_at (poll_mailbox s cpu) j = tb_seen_at s j.
Proof.
  intros Hne. unfold poll_mailbox, tb_mail, tb_poll, tb_seen_at.
  repeat case_match; simpl; rewrite ?list_lookup_insert_ne by done; done.
Qed.

Lemma poll_self s cpu :
  tlb_inv s → (cpu < MAX_CPUS)%nat →
  let s' := poll_mailbox s cpu in
  hart_ok (TLB_EPOCH s) (tb_versions s) (tb_version s) (tb_mail s' cpu) (tb_poll s' cpu) (tb_seen_at s' cpu) ∧
  tm_requested (tb_mail s' cpu) = tm_requested (tb_mail s cpu) ∧ tm_acked (tb_mail s cpu) ≤ tm_acked (tb_mail s' cpu) ∧
  (tb_seen_at s' cpu = tb_seen_at s cpu ∨ tb_seen_at s' cpu = tb_version s).
Proof.
  intros I Hc. pose proof (ti_mail _ I) as Hm. pose proof (ti_polls _ I) as Hp. pose proof (ti_seen _ I) as Hs.
  destruct (ti_hart _ I cpu Hc) as (Ha & Hr & Hsn & Hle & Hpoll).
  pose proof (seen_since_now s) as Hnow.
  unfold poll_mailbox. rewrite bool_decide_false by lia.
  destruct (tb_poll s cpu) as [|r|r|r] eqn:Ep; simpl in Hpoll; [|case_match; simpl_bool| |];
    unfold hart_ok, tb_mail, tb_poll, tb_seen_at in *; simpl;
    rewrite ?default_insert, ?decide_True by lia; simpl; split_and!; try done; try lia; auto.
  - apply Hnow; [done|lia].
  - apply Hnow; [done|lia].
  - apply Hpoll.
Qed.

Lemma poll_inv s cpu : tlb_inv s → tlb_inv (poll_mailbox s cpu).
Proof.
  intros I. destruct (decide (cpu < MAX_CPUS)%nat) as [Hc|Hc].
  2: { unfold poll_mailbox. rewrite bool_decide_true by lia. done. }
  destruct (poll_shape s cpu) as (HE & Hvs & HV & Hme & Hsh & L1 & L2 & L3).
  destruct (poll_self s cpu I Hc) as (Hok & Hr & Ha & Hsn).
  assert (Hcases : ∀ j, tb_mail (poll_mailbox s cpu) j = tb_mail s j ∨ j = cpu).
  { intros j. destruct (decide (j = cpu)) as [->|Hne]; [by right|left]. by apply poll_other. }
  split; rewrite ?L1, ?L2, ?L3, ?HE, ?Hvs, ?HV; try apply I.
  - intros j Hj. destruct (decide (j = cpu)) as [->|Hne]; [done|].
    destruct (poll_other s cpu j Hne) as (-> & -> & ->). by apply I.
  - apply (shoot_ok_frame s); try done; [| | |apply I].
    + unfold me_flushed. rewrite Hme, HV. destruct (decide (tb_me s = cpu)) as [->|Hne].
      * intros H _. destruct Hsn as [->| ->]; auto.
      * by destruct (poll_other s cpu (tb_me s) Hne) as (_ & _ & ->).
    + intros j Hj. destruct (Hcases j) as [->| ->]; lia.
    + intros j Hj. destruct (Hcases j) as [->| ->]; lia.
Qed.

(** *** The initiator *)

Lemma set_shoot_inv s p : tlb_inv s → shoot_ok (tb_set_shoot s p) → tlb_inv (tb_set_shoot s p).
Proof. intros [] Hs. by split. Qed.

Lemma flush_inv s p cpu :
  tlb_inv s → shoot_ok (tb_set_shoot (local_flush_all s cpu) p) → tlb_inv (tb_set_shoot (local_flush_all s cpu) p).
Proof.
  intros I Hs. split; try apply I; [|intros j Hj|done].
  - simpl. rewrite length_insert. apply I.
  - destruct (ti_hart _ I j Hj) as (Ha & Hr & Hsn & Hle & Hpoll).
    unfold tb_seen_at. simpl. rewrite default_insert, (ti_seen _ I).
    destruct (decide _) as [[-> _]|_]; [|by apply I].
    change (hart_ok (TLB_EPOCH s) (tb_versions s) (tb_version s) (tb_mail s j) (tb_poll s j) (tb_version s)).
    split_and!; try done; try lia.
    + apply (seen_since_now s); [done|lia].
    + destruct (tb_poll s j); simpl in *; try done.
      destruct Hpoll as [H1 _]. split; [done|]. apply (seen_since_now s); [done|lia].
Qed.

Lemma mail_inv s p idx r :
  tlb_inv s → (idx < MAX_CPUS)%nat → tm_requested (tb_mail s idx) ≤ r ≤ TLB_EPOCH s →
  let s' := tb_set_shoot (tb_set_mail s idx (mkTlbMailbox r (tm_acked (tb_mail s idx)))) p in
  shoot_ok s' → tlb_inv s'.
Proof.
  intros I Hi Hr s' Hs. split; try apply I; [|intros j Hj|done].
  - simpl. rewrite length_insert. apply I.
  - unfold s', tb_mail. simpl. rewrite default_insert, (ti_mail _ I).
    destruct (decide _) as [[-> _]|_]; [|by apply I].
    apply (hart_ok_request _ _ _ (tb_mail s j)); [done|]. by apply I.
Qed.

Lemma advance_inv s online :
  tlb_inv s → tb_shoot s = ShootEpoch online → vlen (tb_versions s) < 2 ^ 64 →
  let '(e, s1) := advance_epoch s in tlb_inv (tb_set_shoot s1 (ShootRequest online e 0 0)).
Proof.
  intros I Hsh Hw. unfold advance_epoch. pose proof (ti_epoch _ I) as HE. unfold vlen in *.
  pose proof (ti_hart _ I 0%nat ltac:(unfold MAX_CPUS; lia)) as (H0 & H1 & _).
  assert (Hep : wrapping_add 64 (TLB_EPOCH s) 1 = TLB_EPOCH s + 1)
    by (unfold wrapping_add; apply Z.mod_small; lia).
  assert (Hlast : ∀ i v, (tb_versions s ++ [tb_version s]) !! i = Some v →
    tb_versions s !! i = Some v ∨ (i = length (tb_versions s) ∧ v = tb_version s)).
  { intros i v. rewrite lookup_app_Some, list_lookup_singleton_Some. intros [?|[? [? ?]]]; [by left|right].
    split; [lia|done]. }
  split; simpl; try apply I.
  - unfold vlen. rewrite length_app. simpl. lia.
  - intros i j v w Hij [Hv|[-> ->]]%Hlast [Hw'|[-> ->]]%Hlast; try done; [by eapply ti_sorted|by eapply ti_top|].
    apply lookup_lt_Some in Hw'. lia.
  - intros i v [Hv|[-> ->]]%Hlast; [by eapply ti_top|done].
  - intros j Hj. eapply hart_ok_mono; [| | |by apply I]; [lia|by eexists|done].
  - pose proof (ti_shoot _ I) as Hs. unfold shoot_ok in Hs. rewrite Hsh in Hs. unfold shoot_ok. simpl. split_and!.
    + split; simpl; [done|]. rewrite Hep. replace (Z.to_nat (TLB_EPOCH s + 1)) with (length (tb_versions s)) by lia.
      by rewrite list_lookup_middle.
    + done.
    + intros j Hj. unfold mask_has. rewrite Z.land_0_l. simpl. split; [done|lia].
    + intros j Hj Ht. unfold mask_has in Ht. by rewrite Z.land_0_l in Ht.
Qed.

Lemma mask_has_lor a b j : mask_has (Z.lor a b) j = (mask_has a j || mask_has b j)%bool.
Proof. by rewrite !mask_has_testbit, Z.lor_spec. Qed.

Lemma mask_has_bit i j : mask_has (cpu_bit i) j = bool_decide (i = j).
Proof.
  rewrite mask_has_testbit. unfold cpu_bit. rewrite Z.shiftl_1_l, Z.pow2_bits_eqb by lia.
  destruct (Z.eqb_spec (Z.of_nat i) (Z.of_nat j)); case_bool_decide; lia || done.
Qed.

Lemma targets_next s online targets idx :
  targets_below s online targets idx → (idx < MAX_CPUS)%nat →
  (idx = tb_me s ∨ mask_has online idx = false → targets_below s online targets (S idx)) ∧
  (idx ≠ tb_me s → mask_has online idx = true → targets_below s online (Z.lor targets (cpu_bit idx)) (S idx)).
Proof.
  intros Ht Hi. split; intros H; [|intros Ho]; intros j Hj; rewrite ?mask_has_lor, ?mask_has_bit;
    specialize (Ht j Hj).
  - rewrite Ht. destruct (decide (j = idx)) as [->|]; [|naive_solver lia].
    split; [lia|]. intros (_ & ? & Ho). destruct H; congruence.
  - destruct (decide (idx = j)) as [->|Hne].
    + rewrite bool_decide_true, orb_true_r by done. split; [intros _; split_and!; [lia|done|done]|done].
    + rewrite bool_decide_false, orb_false_r by done. rewrite Ht. naive_solver lia.
Qed.

Lemma shoot_inv online late s :
  tlb_inv s → vlen (tb_versions s) < 2 ^ 64 → tlb_inv (shootdown_all online late s).
Proof.
  intros I Hw. pose proof (ti_shoot _ I) as Hs. unfold shoot_ok in Hs. unfold shootdown_all.
  destruct (tb_shoot s) as [| | |o|o e t idx|o e t idx|o e t|o e t|] eqn:Esh; try done.
  - apply flush_inv; [done|]. unfold shoot_ok, me_flushed. simpl. intros Hme. unfold tb_seen_at. simpl.
    rewrite default_insert, (ti_seen _ I), decide_True by done. done.
  - by apply set_shoot_inv.
  - by pose proof (advance_inv s o I Esh Hw).
  - destruct Hs as (He & Hme & Ht & Hr). case_bool_decide as Hi.
    + destruct (targets_next s o t idx Ht Hi) as [Hskip Hadd]. case_match eqn:Ec; simpl_bool.
      * apply set_shoot_inv; [done|]. unfold shoot_ok. simpl. split_and!; try done. apply Hskip.
        destruct (bool_decide (idx = tb_me s)) eqn:Em; [left; by apply bool_decide_eq_true in Em|right].
        by destruct (mask_has o idx).
      * apply mail_inv; [done|done|destruct He; subst; pose proof (ti_hart _ I idx Hi) as (_ & ? & _); lia|].
        unfold shoot_ok. simpl. split_and!; [done|done|by apply Hadd|].
        intros j Hj. rewrite mask_has_lor, mask_has_bit. unfold tb_mail. simpl. rewrite default_insert, (ti_mail _ I).
        destruct (decide (idx = j ∧ _)) as [[-> _]|Hn]; simpl; [lia|].
        rewrite bool_decide_false, orb_false_r by naive_solver. by apply Hr.
    + assert (Ht' : targets_below s o t MAX_CPUS).
      { intros j Hj. rewrite (Ht j Hj). naive_solver lia. }
      case_match eqn:Ez; simpl_bool; apply set_shoot_inv; try done; unfold shoot_ok; simpl; split_and!; try done.
      * subst t. intros j _ _ H. unfold mask_has in H. by rewrite Z.land_0_l in H.
      * intros j _ H. lia.
  - destruct Hs as (He & Hme & Ht & Hr & Ha). case_bool_decide as Hi.
    + assert (Hnext : (mask_has t idx = true → e ≤ tm_acked (tb_mail s idx)) → acked_below s e t (S idx)).
      { intros H j Hj Hlt Hm. destruct (decide (j = idx)) as [->|]; [auto|]. apply (Ha j Hj); [lia|done]. }
      repeat (case_match; simpl_bool); apply set_shoot_inv; try done; unfold shoot_ok; simpl; split_and!; try done;
        apply Hnext; intros; congruence || lia.
    + apply set_shoot_inv; [done|]. unfold shoot_ok. simpl. split_and!; try done.
      intros j Hj _. apply (Ha j Hj). lia.
  - destruct Hs as (He & Hme & Ht & Hr). destruct late; apply set_shoot_inv; try done.
    unfold shoot_ok. simpl. split_and!; try done. intros j _ H. lia.
Qed.

Lemma tlb_init_inv : tlb_inv TlbSys_init.
Proof.
  split; try done.
  - intros i j v w _ [-> <-]%list_lookup_singleton_Some [-> <-]%list_lookup_singleton_Some. done.
  - intros i v [-> <-]%list_lookup_singleton_Some. done.
  - intros j Hj. unfold MAX_CPUS in Hj.
    assert (H : hart_ok 0 [0%nat] 0 (mkTlbMailbox 0 0) PollOut 0).
    { split_and!; simpl; try done. by exists 0%nat. }
    do 4 (destruct j as [|j]; [exact H|]). lia.
Qed.

Lemma tlb_step_versions s l : vlen (tb_versions (tlb_step s l)) ≤ vlen (tb_versions s) + 1.
Proof.
  destruct l; simpl; unfold shootdown_all, poll_mailbox, advance_epoch; repeat case_match; simplify_eq/=;
    rewrite ?vlen_app; try (change (vlen [tb_version s]) with 1); lia.
Qed.

Lemma tlb_run_versions ls s : vlen (tb_versions (tlb_run s ls)) ≤ vlen (tb_versions s) + vlen ls.
Proof.
  revert s. induction ls as [|l ls IH]; intros s; [unfold vlen; simpl; lia|].
  specialize (IH (tlb_step s l)). pose proof (tlb_step_versions s l). unfold vlen in *. simpl in *. lia.
Qed.

Lemma tlb_step_inv s l : tlb_inv s → vlen (tb_versions s) < 2 ^ 64 → tlb_inv (tlb_step s l).
Proof.
  intros I Hw. destruct l as [|me|online late| |cpu]; simpl.
  - destruct (tb_shoot s) eqn:E; try done. destruct I. split; simpl; try done.
    + intros i v H%ti_top0. lia.
    + intros j Hj. eapply hart_ok_mono; [| | |by apply ti_hart0]; [done|done|lia].
  - destruct (tb_shoot s) eqn:E; try done. destruct I. by split.
  - by apply shoot_inv.
  - destruct (tb_shoot s) eqn:E; try done. by apply set_shoot_inv.
  - by apply poll_inv.
Qed.

Lemma tlb_run_inv s ls :
  tlb_inv s → vlen (tb_versions s) + vlen ls ≤ 2 ^ 64 → tlb_inv (tlb_run s ls).
Proof.
  revert s. induction ls as [|l ls IH]; intros s I Hw; [done|]. unfold vlen in *. simpl in *.
  apply IH; [apply tlb_step_inv; [done|unfold vlen; lia]|].
  pose proof (tlb_step_versions s l). unfold vlen in *. lia.
Qed.

(** ** Progress *)

(** How many own steps hart [j] still needs, at most, before it has
    acknowledged epoch [e]. *)
Definition poll_left (s : TlbSys) (j : nat) (e : Z) : nat :=
  if e <=? tm_acked (tb_mail s j) then 0
  else match tb_poll s j with
       | PollOut => 4
       | PollLoaded r => if (e <=? r)%Z then 3 else 7
       | PollFlush r => if (e <=? r)%Z then 2 else 6
       | PollStore r => if (e <=? r)%Z then 1 else 5
       end%nat.

Lemma poll_self_eq s j :
  tlb_inv s → (j < MAX_CPUS)%nat →
  let b := tb_mail s j in
  (tb_mail (poll_mailbox s j) j, tb_poll (poll_mailbox s j) j) =
    match tb_poll s j with
    | PollOut => (b, PollLoaded (tm_requested b))
    | PollLoaded r => (b, if r <=? tm_acked b then PollOut else PollFlush r)
    | PollFlush r => (b, PollStore r)
    | PollStore r => (mkTlbMailbox (tm_requested b) r, PollOut)
    end.
Proof.
  intros I Hj b. pose proof (ti_mail _ I) as Hm. pose proof (ti_polls _ I) as Hp.
  unfold poll_mailbox. rewrite bool_decide_false by lia. fold b.
  destruct (tb_poll s j) as [|r|r|r]; [|destruct (r <=? tm_acked b)| |]; unfold tb_mail, tb_poll; simpl;
    rewrite ?default_insert, ?decide_True by lia; done.
Qed.

Lemma poll_left_step s j e :
  tlb_inv s → (j < MAX_CPUS)%nat → e ≤ tm_requested (tb_mail s j) →
  (poll_left (poll_mailbox s j) j e ≤ pred (poll_left s j e))%nat.
Proof.
  intros I Hj He. destruct (ti_hart _ I j Hj) as (Ha & Hr & _ & _ & Hpoll).
  pose proof (poll_self_eq s j I Hj) as Heq. simpl in Heq. unfold poll_left.
  destruct (tb_poll s j) as [|r|r|r]; simpl in *; apply pair_equal_spec in Heq as [-> ->]; simpl;
    repeat (case_match; simpl_bool; simplify_eq/=); simpl in *; lia.
Qed.

(** Steps of others do not delay hart [j], and a request stays. *)
Lemma step_left_le s l j e :
  tlb_inv s → (j < MAX_CPUS)%nat → e ≤ tm_requested (tb_mail s j) → l ≠ TPoll j →
  (poll_left (tlb_step s l) j e ≤ poll_left s j e)%nat ∧ e ≤ tm_requested (tb_mail (tlb_step s l) j).
Proof.
  intros I Hj He Hne.
  assert (Hsame : ∀ s', (tb_poll s' j = tb_poll s j) → tm_acked (tb_mail s' j) = tm_acked (tb_mail s j) →
    tm_requested (tb_mail s j) ≤ tm_requested (tb_mail s' j) →
    (poll_left s' j e ≤ poll_left s j e)%nat ∧ e ≤ tm_requested (tb_mail s' j)).
  { intros s' Hp Ha Hr. unfold poll_left. rewrite Hp, Ha. split; [done|lia]. }
  destruct l as [|me|online late| |cpu]; simpl.
  - apply Hsame; by destruct (tb_shoot s).
  - apply Hsame; by destruct (tb_shoot s).
  - apply Hsame; unfold shootdown_all, advance_epoch; repeat case_match; try done; unfold tb_mail; simpl;
      rewrite default_insert; (destruct (decide (_ ∧ _)) as [[-> _]|_]; simpl; done || lia).
  - apply Hsame; by destruct (tb_shoot s).
  - destruct (poll_other s cpu j) as (Hm & Hp & _); [congruence|]. apply Hsame; [done|by rewrite Hm|by rewrite Hm].
Qed.

Definition polls_of (j : nat) (ls : list tlb_label) : nat := length (filter (fun l => l = TPoll j) ls).

Lemma run_left ls s j e :
  tlb_inv s → vlen (tb_versions s) + vlen ls ≤ 2 ^ 64 → (j < MAX_CPUS)%nat → e ≤ tm_requested (tb_mail s j) →
  (poll_left (tlb_run s ls) j e ≤ poll_left s j e - polls_of j ls)%nat.
Proof.
  revert s. induction ls as [|l ls IH]; intros s I Hw Hj He; [unfold polls_of; simpl; lia|].
  unfold vlen in Hw. simpl in Hw. pose proof (tlb_step_versions s l) as Hv. unfold vlen in Hv.
  assert (I' : tlb_inv (tlb_step s l)) by (apply tlb_step_inv; [done|unfold vlen; lia]).
  simpl. unfold polls_of. rewrite filter_cons. destruct (decide (l = TPoll j)) as [->|Hne].
  - pose proof (poll_left_step s j e I Hj He) as Hd. destruct (poll_self s j I Hj) as (_ & Hr & _).
    assert (IHs := IH (poll_mailbox s j) I' ltac:(unfold vlen; simpl in *; lia) Hj ltac:(lia)).
    unfold polls_of in IHs. simpl in *. lia.
  - destruct (step_left_le s l j e I Hj He Hne) as [Hd Hr].
    assert (IHs := IH (tlb_step s l) I' ltac:(unfold vlen; lia) Hj Hr). unfold polls_of in IHs. lia.
Qed.

(** C7: TLB shootdowns are complete and cannot be lost.  In every interleaving
    of an initiator with the trap handlers of all harts (shorter than the
    epoch counter's range): when [shootdown_all] returns, its own hart and
    every hart that was online have flushed after the last page-table change,
    so none can use an older translation; and while it waits, any continuation
    in which each target hart takes at least seven steps of its handler leaves
    every target's acknowledgement at the awaited epoch. *)
Theorem tlb_shootdown_complete ls :
  vlen ls < 2 ^ 64 →
  let s := tlb_run TlbSys_init ls in
  (∀ online e targets, tb_shoot s = ShootDone online e targets →
     ∀ j, (j < MAX_CPUS)%nat → (j = tb_me s ∨ mask_has online j = true) → tb_seen_at s j = tb_version s) ∧
  (∀ online e targets idx, tb_shoot s = ShootWait online e targets idx →
     ∀ ls', vlen ls + vlen ls' < 2 ^ 64 →
     ∀ j, (j < MAX_CPUS)%nat → j ≠ tb_me s → mask_has online j = true → (7 ≤ polls_of j ls')%nat →
     e ≤ tm_acked (tb_mail (tlb_run s ls') j)).
Proof.
  intros Hw s. assert (I : tlb_inv s).
  { apply tlb_run_inv; [apply tlb_init_inv|]. change (vlen (tb_versions TlbSys_init)) with 1. lia. }
  pose proof (ti_shoot _ I) as Hs. unfold shoot_ok in Hs. split.
  - intros online e targets E. rewrite E in Hs. destruct Hs as ((He & Hv) & Hme & Ht & Ha). intros j Hj Hon.
    destruct (decide (j = tb_me s)) as [->|Hne]; [by apply Hme|].
    assert (Hj' : e ≤ tm_acked (tb_mail s j)) by (apply Ha; [done|done|]; apply Ht; naive_solver).
    destruct (ti_hart _ I j Hj) as (Hacked & Hreq & (v & Hv' & Hle) & Hmax & _).
    assert (tm_acked (tb_mail s j) = e) as Heq by lia. rewrite Heq, Hv in Hv'. simplify_eq. lia.
  - intros online e targets idx E ls' Hw' j Hj Hne Hon Hp. rewrite E in Hs. destruct Hs as (_ & _ & Ht & Hr & _).
    assert (Hvs : vlen (tb_versions s) + vlen ls' ≤ 2 ^ 64).
    { pose proof (tlb_run_versions ls TlbSys_init). change (vlen (tb_versions TlbSys_init)) with 1 in *. unfold s. lia. }
    assert (Hreq : e ≤ tm_requested (tb_mail s j)) by (apply Hr; [done|]; apply Ht; naive_solver).
    pose proof (run_left ls' s j e I Hvs Hj Hreq) as H.
    assert (Hmax : (poll_left s j e ≤ 7)%nat) by (unfold poll_left; repeat case_match; lia).
    assert (H0 : poll_left (tlb_run s ls') j e = 0%nat) by lia.
    unfold poll_left in H0. case_match; simpl_bool; [done|]. repeat case_match; lia.
Qed.

(** Hart 1 answers a shootdown of hart 0 after a page-table change. *)
Definition demo_shootdown : list tlb_label :=
  [TModify; TCall 0; TShoot 3 false; TShoot 3 false; TShoot 3 false] ++ replicate 5 (TShoot 3 false) ++
  replicate 4 (TPoll 1) ++ replicate 5 (TShoot 3 false).

Lemma tlb_shootdown_complete_witness :
  tb_shoot (tlb_run TlbSys_init demo_shootdown) = ShootDone 3 1 2 ∧
  tb_seen_at (tlb_run TlbSys_init demo_shootdown) 1 = 1%nat.
Proof.
  split; [vm_compute; reflexivity|].
  exact (proj1 (tlb_shootdown_complete demo_shootdown eq_refl) 3 1 2 ltac:(vm_compute; reflexivity) 1%nat
    ltac:(unfold MAX_CPUS; lia) (or_intror eq_refl)).
Defined.
