(* ===== verification/Task.v ===== *)
(** * Tasks ([source/kernel/neuron/src/task/mod.rs], [task/stack_pool.rs], [image_allocs.rs])

    The task control block, the task table and its operations: spawn, resume,
    block, wake, capability transfer, exit and reaping, with the guarded-stack
    pool and the record of image memory.

    The operations of [TaskTable] take the scheduler and the address-space
    manager by reference and reach the SMP state and the stack pool through
    statics; here they act on one [World].  [None] means that the page
    allocator failed (the kernel does not survive that).  The page contents of
    user stacks, UART traces and the [user_guard_info] diagnostics carry no
    behaviour and are not followed further. *)

From S2P Require Import Prelude Cap Ipc Sched SchedProps PageTable AddressSpace Smp.

(** ** Image memory records *)

Definition MAX_RANGES : nat := 12.

Record ImageAllocs := mkImageAllocs {
  ia_ranges : list (Z * Z);
  ia_len : nat;
  ia_untracked : Z
}.

Definition ImageAllocs_new : ImageAllocs := mkImageAllocs (replicate MAX_RANGES (0, 0)) 0 0.

Definition ImageAllocs_push (a : ImageAllocs) (base len : Z) : ImageAllocs :=
  if len =? 0 then a
  else if bool_decide (ia_len a = MAX_RANGES) then mkImageAllocs (ia_ranges a) (ia_len a) (ia_untracked a + 1)
  else mkImageAllocs (<[ia_len a := (base, len)]> (ia_ranges a)) (S (ia_len a)) (ia_untracked a).

Definition ImageAllocs_take (a : ImageAllocs) : ImageAllocs * ImageAllocs := (a, ImageAllocs_new).
Definition ImageAllocs_iter (a : ImageAllocs) : list (Z * Z) := take (ia_len a) (ia_ranges a).

(** ** Data *)

Definition ALL_CPUS_MASK : Z := Z.shiftl 1 (Z.of_nat MAX_CPUS) - 1.
Definition DEFAULT_SHARES : Z := 100.
Definition PID_KERNEL : Z := 0.

Inductive TaskState := Running | Suspended | Zombie.

Inductive BlockReason :=
| BrIpcRecv (endpoint deadline_ns : Z)
| BrIpcSend (endpoint deadline_ns : Z)
| BrWaitChild (target : option Z)
| BrWaitset (ws_id deadline_ns : Z)
| BrFence (fence_id target deadline_ns : Z).

Inductive WakeOutcome := WkTaskNotFound | WkTaskNotBlocked | WkWoken | WkWokenNoopSelftest | WkEnqueueRejected.
Inductive ResumeOutcome := RsTaskNotFound | RsNotSuspended | RsResumed | RsEnqueueRejected.
Inductive WaitError := WeNoChildren | WeNoSuchPid | WeInvalidTarget | WeWouldBlock.

Inductive SpawnFailReason :=
| SfUnknown | SfOutOfMemory | SfCapTableFull | SfEndpointQuota | SfMapFailed | SfInvalidPayload | SfDeniedByPolicy.

Inductive SpawnError :=
| SpInvalidParent | SpInvalidEntryPoint | SpInvalidStackPointer | SpBootstrapNotEndpoint
| SpCapability (e : CapError) | SpIpc (e : IpcError) | SpAddressSpace (e : AddressSpaceError)
| SpStackExhausted | SpRunQueueFull.

Inductive TransferError := TrInvalidParent | TrInvalidChild | TrCapability (e : CapError).
Inductive TransferMode := CopyAllocate | CopyToSlot (slot : nat).

#[export] Instance TaskState_eq_dec : EqDecision TaskState.
Proof. solve_decision. Defined.
#[export] Instance BlockReason_eq_dec : EqDecision BlockReason.
Proof. solve_decision. Defined.

Definition SpawnFailReason_as_u8 (r : SpawnFailReason) : Z :=
  match r with
  | SfUnknown => 0
  | SfOutOfMemory => 1
  | SfCapTableFull => 2
  | SfEndpointQuota => 3
  | SfMapFailed => 4
  | SfInvalidPayload => 5
  | SfDeniedByPolicy => 6
  end.

Definition spawn_fail_reason (err : SpawnError) : SpawnFailReason :=
  match err with
  | SpInvalidParent | SpInvalidEntryPoint | SpInvalidStackPointer | SpBootstrapNotEndpoint => SfInvalidPayload
  | SpCapability CapNoSpace => SfCapTableFull
  | SpCapability _ => SfInvalidPayload
  | SpIpc IpcNoSpace => SfEndpointQuota
  | SpIpc _ => SfInvalidPayload
  | SpAddressSpace AsAsidExhausted => SfMapFailed
  | SpAddressSpace (AsMapping _) => SfMapFailed
  | SpAddressSpace _ => SfInvalidPayload
  | SpStackExhausted | SpRunQueueFull => SfOutOfMemory
  end.

Record TrapFrame := mkTrapFrame {
  tf_x : list Z;
  tf_sepc : Z;
  tf_sstatus : Z;
  tf_scause : Z;
  tf_stval : Z
}.
Definition TrapFrame_EMPTY : TrapFrame := mkTrapFrame (replicate 32 0) 0 0 0 0.

Record UserGuardInfo := mkUserGuardInfo { stack_guard_va : Z; info_guard_va : option Z }.

Record Task := mkTask {
  tk_pid : Z;
  tk_parent : option Z;
  tk_state : TaskState;
  tk_exit_code : option Z;
  tk_frame : TrapFrame;
  tk_caps : CapTable;
  tk_trap_domain : Z;
  tk_qos : QosClass;
  tk_blocked : bool;
  tk_block_reason : option BlockReason;
  tk_address_space : option Z;
  tk_user_guard_info : option UserGuardInfo;
  tk_service_id : Z;
  tk_home_cpu : nat;
  tk_affinity_mask : Z;
  tk_shares : Z;
  tk_last_spawn_fail_reason : option SpawnFailReason;
  tk_bootstrap_slot : option nat;
  tk_children : list Z;
  tk_image_allocs : ImageAllocs
}.

Definition Task_set_state (v : TaskState) (t : Task) : Task :=
  mkTask (tk_pid t) (tk_parent t) v (tk_exit_code t) (tk_frame t) (tk_caps t) (tk_trap_domain t) (tk_qos t)
    (tk_blocked t) (tk_block_reason t) (tk_address_space t) (tk_user_guard_info t) (tk_service_id t)
    (tk_home_cpu t) (tk_affinity_mask t) (tk_shares t) (tk_last_spawn_fail_reason t) (tk_bootstrap_slot t)
    (tk_children t) (tk_image_allocs t).

Definition Task_set_blocked (reason : BlockReason) (t : Task) : Task :=
  mkTask (tk_pid t) (tk_parent t) (tk_state t) (tk_exit_code t) (tk_frame t) (tk_caps t) (tk_trap_domain t)
    (tk_qos t) true (Some reason) (tk_address_space t) (tk_user_guard_info t) (tk_service_id t) (tk_home_cpu
    t) (tk_affinity_mask t) (tk_shares t) (tk_last_spawn_fail_reason t) (tk_bootstrap_slot t) (tk_children
    t) (tk_image_allocs t).

Definition Task_clear_blocked (t : Task) : Task :=
  mkTask (tk_pid t) (tk_parent t) (tk_state t) (tk_exit_code t) (tk_frame t) (tk_caps t) (tk_trap_domain t)
    (tk_qos t) false None (tk_address_space t) (tk_user_guard_info t) (tk_service_id t) (tk_home_cpu t)
    (tk_affinity_mask t) (tk_shares t) (tk_last_spawn_fail_reason t) (tk_bootstrap_slot t) (tk_children t)
    (tk_image_allocs t).

Definition Task_set_home_cpu (v : nat) (t : Task) : Task :=
  mkTask (tk_pid t) (tk_parent t) (tk_state t) (tk_exit_code t) (tk_frame t) (tk_caps t) (tk_trap_domain t)
    (tk_qos t) (tk_blocked t) (tk_block_reason t) (tk_address_space t) (tk_user_guard_info t) (tk_service_id
    t) v (tk_affinity_mask t) (tk_shares t) (tk_last_spawn_fail_reason t) (tk_bootstrap_slot t) (tk_children
    t) (tk_image_allocs t).

Definition Task_set_caps (v : CapTable) (t : Task) : Task :=
  mkTask (tk_pid t) (tk_parent t) (tk_state t) (tk_exit_code t) (tk_frame t) v (tk_trap_domain t) (tk_qos t)
    (tk_blocked t) (tk_block_reason t) (tk_address_space t) (tk_user_guard_info t) (tk_service_id t)
    (tk_home_cpu t) (tk_affinity_mask t) (tk_shares t) (tk_last_spawn_fail_reason t) (tk_bootstrap_slot t)
    (tk_children t) (tk_image_allocs t).

Definition Task_set_children (v : list Z) (t : Task) : Task :=
  mkTask (tk_pid t) (tk_parent t) (tk_state t) (tk_exit_code t) (tk_frame t) (tk_caps t) (tk_trap_domain t)
    (tk_qos t) (tk_blocked t) (tk_block_reason t) (tk_address_space t) (tk_user_guard_info t) (tk_service_id
    t) (tk_home_cpu t) (tk_affinity_mask t) (tk_shares t) (tk_last_spawn_fail_reason t) (tk_bootstrap_slot
    t) v (tk_image_allocs t).

Definition Task_set_image_allocs (v : ImageAllocs) (t : Task) : Task :=
  mkTask (tk_pid t) (tk_parent t) (tk_state t) (tk_exit_code t) (tk_frame t) (tk_caps t) (tk_trap_domain t)
    (tk_qos t) (tk_blocked t) (tk_block_reason t) (tk_address_space t) (tk_user_guard_info t) (tk_service_id
    t) (tk_home_cpu t) (tk_affinity_mask t) (tk_shares t) (tk_last_spawn_fail_reason t) (tk_bootstrap_slot
    t) (tk_children t) v.

Definition Task_set_spawn_fail (v : option SpawnFailReason) (t : Task) : Task :=
  mkTask (tk_pid t) (tk_parent t) (tk_state t) (tk_exit_code t) (tk_frame t) (tk_caps t) (tk_trap_domain t)
    (tk_qos t) (tk_blocked t) (tk_block_reason t) (tk_address_space t) (tk_user_guard_info t) (tk_service_id
    t) (tk_home_cpu t) (tk_affinity_mask t) (tk_shares t) v (tk_bootstrap_slot t) (tk_children t)
    (tk_image_allocs t).

Definition Task_set_affinity_mask (v : Z) (t : Task) : Task :=
  mkTask (tk_pid t) (tk_parent t) (tk_state t) (tk_exit_code t) (tk_frame t) (tk_caps t) (tk_trap_domain t)
    (tk_qos t) (tk_blocked t) (tk_block_reason t) (tk_address_space t) (tk_user_guard_info t) (tk_service_id
    t) (tk_home_cpu t) v (tk_shares t) (tk_last_spawn_fail_reason t) (tk_bootstrap_slot t) (tk_children t)
    (tk_image_allocs t).

Definition Task_set_shares (v : Z) (t : Task) : Task :=
  mkTask (tk_pid t) (tk_parent t) (tk_state t) (tk_exit_code t) (tk_frame t) (tk_caps t) (tk_trap_domain t)
    (tk_qos t) (tk_blocked t) (tk_block_reason t) (tk_address_space t) (tk_user_guard_info t) (tk_service_id
    t) (tk_home_cpu t) (tk_affinity_mask t) v (tk_last_spawn_fail_reason t) (tk_bootstrap_slot t)
    (tk_children t) (tk_image_allocs t).

Definition Task_set_qos (v : QosClass) (t : Task) : Task :=
  mkTask (tk_pid t) (tk_parent t) (tk_state t) (tk_exit_code t) (tk_frame t) (tk_caps t) (tk_trap_domain t)
    v (tk_blocked t) (tk_block_reason t) (tk_address_space t) (tk_user_guard_info t) (tk_service_id t)
    (tk_home_cpu t) (tk_affinity_mask t) (tk_shares t) (tk_last_spawn_fail_reason t) (tk_bootstrap_slot t)
    (tk_children t) (tk_image_allocs t).

Definition Task_set_service_id (v : Z) (t : Task) : Task :=
  mkTask (tk_pid t) (tk_parent t) (tk_state t) (tk_exit_code t) (tk_frame t) (tk_caps t) (tk_trap_domain t)
    (tk_qos t) (tk_blocked t) (tk_block_reason t) (tk_address_space t) (tk_user_guard_info t) v (tk_home_cpu
    t) (tk_affinity_mask t) (tk_shares t) (tk_last_spawn_fail_reason t) (tk_bootstrap_slot t) (tk_children
    t) (tk_image_allocs t).

Definition Task_set_user_guard_info (v : UserGuardInfo) (t : Task) : Task :=
  mkTask (tk_pid t) (tk_parent t) (tk_state t) (tk_exit_code t) (tk_frame t) (tk_caps t) (tk_trap_domain t)
    (tk_qos t) (tk_blocked t) (tk_block_reason t) (tk_address_space t) (Some v) (tk_service_id t)
    (tk_home_cpu t) (tk_affinity_mask t) (tk_shares t) (tk_last_spawn_fail_reason t) (tk_bootstrap_slot t)
    (tk_children t) (tk_image_allocs t).

(** The fields [exit_current] rewrites. *)
Definition Task_exited (status : Z) (t : Task) : Task :=
  mkTask (tk_pid t) (tk_parent t) Zombie (Some status) TrapFrame_EMPTY CapTable_default (tk_trap_domain t)
    (tk_qos t) (tk_blocked t) (tk_block_reason t) (tk_address_space t) (tk_user_guard_info t) (tk_service_id
    t) (tk_home_cpu t) (tk_affinity_mask t) (tk_shares t) (tk_last_spawn_fail_reason t) None []
    ImageAllocs_new.

(** The fields [reap_child] rewrites in the child ([address_space.take()] included). *)
Definition Task_reaped (t : Task) : Task :=
  mkTask (tk_pid t) None (tk_state t) None TrapFrame_EMPTY CapTable_default (tk_trap_domain t) (tk_qos t)
    (tk_blocked t) (tk_block_reason t) None (tk_user_guard_info t) (tk_service_id t) (tk_home_cpu t)
    (tk_affinity_mask t) (tk_shares t) (tk_last_spawn_fail_reason t) None [] (tk_image_allocs t).

(** [CpuId::as_index] shifts an 8-bit mask; CPU indices are below [MAX_CPUS]. *)
Definition Task_affinity_allows (t : Task) (cpu : nat) : bool := mask_has (tk_affinity_mask t) cpu.

Definition SSTATUS_SPIE : Z := Z.shiftl 1 5.
Definition SSTATUS_SPP : Z := Z.shiftl 1 8.
Definition SSTATUS_SUM : Z := Z.shiftl 1 18.

Definition Task_bootstrap : Task :=
  mkTask PID_KERNEL None Running None
    (mkTrapFrame (replicate 32 0) 0 (Z.lor (Z.lor SSTATUS_SPP SSTATUS_SPIE) SSTATUS_SUM) 0 0)
    CapTable_new 0 PerfBurst false None None None 0 CPU_BOOT ALL_CPUS_MASK DEFAULT_SHARES None None [] ImageAllocs_new.

Record TaskTable := mkTaskTable {
  tt_tasks : list Task;
  tt_current : list Z
}.

(** Everything the operations below reach. *)
Record World := mkWorld {
  w_table : TaskTable;
  w_sched : Scheduler;
  w_smp : Smp;
  w_mem : PtMem;
  w_spaces : AddressSpaceManager;
  w_stack_cursor : Z
}.

(** The executing hart and the outcome of the SBI inter-processor interrupt. *)
Record Env := mkEnv { env_hart : nat; env_ipi_ok : bool }.

Definition w_set_table (w : World) (t : TaskTable) : World :=
  mkWorld t (w_sched w) (w_smp w) (w_mem w) (w_spaces w) (w_stack_cursor w).
Definition w_set_sched (w : World) (s : Scheduler) : World :=
  mkWorld (w_table w) s (w_smp w) (w_mem w) (w_spaces w) (w_stack_cursor w).
Definition w_set_smp (w : World) (s : Smp) : World :=
  mkWorld (w_table w) (w_sched w) s (w_mem w) (w_spaces w) (w_stack_cursor w).
Definition w_set_mm (w : World) (m : PtMem) (mg : AddressSpaceManager) : World :=
  mkWorld (w_table w) (w_sched w) (w_smp w) m mg (w_stack_cursor w).
Definition w_set_cursor (w : World) (c : Z) : World :=
  mkWorld (w_table w) (w_sched w) (w_smp w) (w_mem w) (w_spaces w) c.

(** ** The task table *)

(** [Pid::as_index] and [Pid::from_raw(len as u32)]. *)
Definition pid_index (pid : Z) : nat := Z.to_nat pid.
Definition pid_of_len (n : nat) : Z := Z.of_nat n mod 2 ^ 32.

Definition TaskTable_new : TaskTable := mkTaskTable [Task_bootstrap] (replicate MAX_CPUS PID_KERNEL).

(** A [Pid] is a [u32]: a negative number names no task. *)
Definition TaskTable_task (t : TaskTable) (pid : Z) : option Task :=
  if pid <? 0 then None else tt_tasks t !! pid_index pid.
(** [task_mut] as an update; nothing happens for an unknown PID. *)
Definition TaskTable_update (f : Task → Task) (pid : Z) (t : TaskTable) : TaskTable :=
  mkTaskTable (alter f (pid_index pid) (tt_tasks t)) (tt_current t).

Definition TaskTable_current_pid (hart : nat) (t : TaskTable) : Z :=
  default PID_KERNEL (tt_current t !! current_cpu_index hart).
Definition TaskTable_set_current (hart : nat) (t : TaskTable) (pid : Z) : TaskTable :=
  mkTaskTable (tt_tasks t) (<[current_cpu_index hart := pid]> (tt_current t)).

Definition TaskTable_push (t : TaskTable) (task : Task) : TaskTable :=
  mkTaskTable (tt_tasks t ++ [task]) (tt_current t).
Definition TaskTable_pop (t : TaskTable) : TaskTable :=
  mkTaskTable (take (length (tt_tasks t) - 1) (tt_tasks t)) (tt_current t).

Definition TaskTable_set_last_spawn_fail_reason (t : TaskTable) (pid : Z) (reason : SpawnFailReason) : TaskTable :=
  TaskTable_update (Task_set_spawn_fail (Some reason)) pid t.
Definition TaskTable_take_last_spawn_fail_reason (t : TaskTable) (pid : Z) : option SpawnFailReason * TaskTable :=
  (TaskTable_task t pid ≫= tk_last_spawn_fail_reason, TaskTable_update (Task_set_spawn_fail None) pid t).
Definition TaskTable_set_image_allocs (t : TaskTable) (pid : Z) (allocs : ImageAllocs) : TaskTable :=
  TaskTable_update (Task_set_image_allocs allocs) pid t.
Definition TaskTable_set_home_cpu (t : TaskTable) (pid : Z) (cpu : nat) : TaskTable :=
  TaskTable_update (Task_set_home_cpu cpu) pid t.

(** ** Placement *)

Definition validate_affinity_mask (mask online_mask : Z) : result Z unit :=
  if ((mask =? 0) || (ALL_CPUS_MASK <? mask))%bool then Err tt
  else if Z.land mask online_mask =? 0 then Err tt
  else Ok (mask mod 2 ^ 8).

Definition clamp_home_to_affinity (mask : Z) (home : nat) (online_mask : Z) : nat :=
  if (mask_has mask home && mask_has online_mask home)%bool then home
  else match list_find (fun i => mask_has mask i = true ∧ mask_has online_mask i = true) (seq 0 MAX_CPUS) with
       | Some (_, i) => i
       | None => CPU_BOOT
       end.

Definition home_of (w : World) (t : Task) : nat :=
  clamp_home_to_affinity (tk_affinity_mask t) (tk_home_cpu t) (CPU_ONLINE_MASK (w_smp w)).

(** The kick of another hart after an enqueue. *)
Definition kick (env : Env) (cpu : nat) (w : World) : World :=
  if bool_decide (cpu = env_hart env) then w
  else w_set_smp w (request_resched (env_ipi_ok env) (w_smp w) cpu).2.

(** ** The stack pool *)

Definition USER_STACK_TOP : Z := 0x40000000.
Definition STACK_PAGES : Z := 4.
Definition STACK_POOL_BASE : Z := 0x80000000 + 0x100000.
Definition STACK_POOL_LIMIT : Z := 0x80000000 + 0x200000.

Definition StackPool_alloc (cursor pages : Z) : option Z * Z :=
  let c1 := if cursor =? 0 then STACK_POOL_LIMIT else cursor in
  let c2 := if ((c1 <? STACK_POOL_BASE) || (STACK_POOL_LIMIT <? c1))%bool then STACK_POOL_LIMIT else c1 in
  let bytes := pages * PAGE_SIZE in
  if 2 ^ 64 <=? bytes then (None, c2)
  else if c2 <? bytes then (None, c2)
  else let next := c2 - bytes in
       if next <? STACK_POOL_BASE then (None, c2) else (Some next, next).

(** The mapping loop over the stack pages. *)
Fixpoint map_stack_pages (alloc : PtMem → option Z) (m : PtMem) (mg : AddressSpaceManager) (handle va_base pa_base flags : Z)
    (pages : list Z) : option (result unit AddressSpaceError * PtMem * AddressSpaceManager) :=
  match pages with
  | [] => Some (Ok tt, m, mg)
  | page :: rest =>
      match AddressSpaceManager_map_page alloc m mg handle (va_base + page * PAGE_SIZE) (pa_base + page * PAGE_SIZE)
              flags with
      | Some (Ok _, m1, mg1) => map_stack_pages alloc m1 mg1 handle va_base pa_base flags rest
      | r => r
      end
  end.

Definition allocate_guarded_stack (alloc : PtMem → option Z) (w : World) (handle : Z) :
    option (result Z SpawnError * World) :=
  let '(base, cursor) := StackPool_alloc (w_stack_cursor w) STACK_PAGES in
  let w1 := w_set_cursor w cursor in
  match base with
  | None => Some (Err SpStackExhausted, w1)
  | Some phys_base =>
      let flags := Z.lor (Z.lor PF_VALID PF_READ) (Z.lor PF_WRITE PF_USER) in
      let guard_bottom := USER_STACK_TOP - (STACK_PAGES + 1) * PAGE_SIZE in
      match map_stack_pages alloc (w_mem w1) (w_spaces w1) handle (guard_bottom + PAGE_SIZE) phys_base flags
              [0; 1; 2; 3] with
      | None => None
      | Some (Err e, m, mg) => Some (Err (SpAddressSpace e), w_set_mm w1 m mg)
      | Some (Ok _, m, mg) =>
          (* [VirtAddr::page_aligned(USER_STACK_TOP)] *)
          Some (if (is_canonical_sv39 USER_STACK_TOP && (USER_STACK_TOP mod PAGE_SIZE =? 0))%bool
                then Ok USER_STACK_TOP else Err SpInvalidStackPointer,
                w_set_mm w1 m mg)
      end
  end.

(** ** Spawn *)

Definition ensure_entry_in_kernel_text (k : KernelLayout) (entry : Z) (address_space : option Z) :
    result unit SpawnError :=
  match address_space with
  | Some _ => Ok tt
  | None =>
      if ((kl_text_end k <=? kl_text_start k) || (entry <? kl_text_start k) || (kl_text_end k <=? entry))%bool
      then Err SpInvalidEntryPoint else Ok tt
  end.

Definition FACTORY_PARENT_SLOT : nat := 2.
Definition FACTORY_CHILD_SLOT : nat := 1.

(** The child's capabilities: the bootstrap endpoint in its slot and, for a
    user task spawned by the kernel, an endpoint factory if PID 0 holds one. *)
Definition spawn_child_caps (parent : Z) (parent_caps : CapTable) (address_space : option Z) (slot : nat) :
    result CapTable SpawnError :=
  let? cap := map_err SpCapability (CapTable_get parent_caps slot) in
  match cap_kind cap with
  | CkEndpoint _ =>
      match CapTable_set CapTable_new slot cap with
      | (Err e, _) => Err (SpCapability e)
      | (Ok _, child_caps) =>
          Ok (if ((parent =? PID_KERNEL) && bool_decide (is_Some address_space))%bool then
                match CapTable_get parent_caps FACTORY_PARENT_SLOT with
                | Ok factory =>
                    if (bool_decide (cap_kind factory = CkEndpointFactory) &&
                        rights_contains (cap_rights factory) MANAGE)%bool
                    then (CapTable_set child_caps FACTORY_CHILD_SLOT (mkCapability CkEndpointFactory MANAGE)).2
                    else child_caps
                | Err _ => child_caps
                end
              else child_caps)
      end
  | _ => Err SpBootstrapNotEndpoint
  end.

(** The address space and the stack top of the child. *)
Definition spawn_space (alloc : PtMem → option Z) (k : KernelLayout) (w : World) (address_space stack_sp : option Z) :
    option (result (Z * Z) SpawnError * World) :=
  match address_space with
  | Some handle => Some (let? sp := ok_or stack_sp SpInvalidStackPointer in Ok (handle, sp), w)
  | None =>
      match stack_sp with
      | Some _ => Some (Err SpInvalidStackPointer, w)
      | None =>
          match AddressSpaceManager_create alloc k (w_mem w) (w_spaces w) with
          | None => None
          | Some (Err e, m, mg) => Some (Err (SpAddressSpace e), w_set_mm w m mg)
          | Some (Ok handle, m, mg) =>
              match allocate_guarded_stack alloc (w_set_mm w m mg) handle with
              | None => None
              | Some (Err e, w1) => Some (Err e, w1)
              | Some (Ok top, w1) => Some (Ok (handle, top), w1)
              end
          end
      end
  end.

Definition spawn_frame (entry sp gp : Z) (user : bool) : TrapFrame :=
  mkTrapFrame (<[3%nat := gp]> (<[1%nat := 0]> (<[2%nat := sp]> (replicate 32 0)))) entry
    (if user then Z.lor SSTATUS_SPIE SSTATUS_SUM else Z.lor (Z.lor SSTATUS_SPP SSTATUS_SPIE) SSTATUS_SUM) 0 0.

(** [retain(|p| *p != pid)] *)
Definition retain_other (pid : Z) (l : list Z) : list Z := filter (fun p => p ≠ pid) l.

(** From the push of the new task on: attach, link to the parent, enqueue
    unless suspended. *)
Definition spawn_commit (env : Env) (w : World) (parent handle : Z) (task : Task) :
    result Z SpawnError * World :=
  let pid := tk_pid task in
  let w1 := w_set_table w (TaskTable_push (w_table w) task) in
  match AddressSpaceManager_attach (w_spaces w1) handle pid with
  | (Err e, mg) =>
      (Err (SpAddressSpace e), w_set_table (w_set_mm w1 (w_mem w1) mg) (TaskTable_pop (w_table w1)))
  | (Ok _, mg) =>
      let w2 := w_set_mm w1 (w_mem w1) mg in
      let w3 := w_set_table w2
        (TaskTable_update (fun p => Task_set_children (tk_children p ++ [pid]) p) parent (w_table w2)) in
      let suspended := match last (tt_tasks (w_table w3)) with
                       | Some t => bool_decide (tk_state t = Suspended) | None => false end in
      let child_home := match last (tt_tasks (w_table w3)) with Some t => tk_home_cpu t | None => CPU_BOOT end in
      if suspended then (Ok pid, w3)
      else match Scheduler_enqueue_on_cpu (w_sched w3) child_home pid Normal with
           | (Enqueued, s) => (Ok pid, kick env child_home (w_set_sched w3 s))
           | (Rejected _, s) =>
               let w4 := w_set_sched w3 s in
               let w5 := w_set_table w4
                 (TaskTable_update (fun p => Task_set_children (retain_other pid (tk_children p)) p) parent
                    (w_table w4)) in
               let mg1 := (AddressSpaceManager_detach (w_spaces w5) handle pid).2 in
               let '(_, m2, mg2) := AddressSpaceManager_destroy (w_mem w5) mg1 handle in
               (Err SpRunQueueFull, w_set_table (w_set_mm w5 m2 mg2) (TaskTable_pop (w_table w5)))
           end
  end.

Definition TaskTable_spawn (alloc : PtMem → option Z) (k : KernelLayout) (env : Env) (w : World) (parent entry_pc : Z)
    (stack_sp address_space : option Z) (global_pointer : Z) (bootstrap_slot : nat) :
    option (result Z SpawnError * World) :=
  match TaskTable_task (w_table w) parent with
  | None => Some (Err SpInvalidParent, w)
  | Some parent_task =>
      match ensure_entry_in_kernel_text k entry_pc address_space with
      | Err e => Some (Err e, w)
      | Ok _ =>
          match spawn_child_caps parent (tk_caps parent_task) address_space bootstrap_slot with
          | Err e => Some (Err e, w)
          | Ok child_caps =>
              match spawn_space alloc k w address_space stack_sp with
              | None => None
              | Some (Err e, w1) => Some (Err e, w1)
              | Some (Ok (handle, stack_top), w1) =>
                  let pid := pid_of_len (length (tt_tasks (w_table w1))) in
                  let '(rr_cpu, smp) := assign_spawn_cpu (env_hart env) (w_smp w1) in
                  let w2 := w_set_smp w1 smp in
                  let mask := tk_affinity_mask parent_task in
                  let task :=
                    mkTask pid (Some parent) Suspended None
                      (spawn_frame entry_pc stack_top global_pointer (bool_decide (is_Some address_space)))
                      child_caps (tk_trap_domain parent_task) Normal false None (Some handle) None 0
                      (clamp_home_to_affinity mask rr_cpu (CPU_ONLINE_MASK (w_smp w2)))
                      mask (tk_shares parent_task) None (Some bootstrap_slot) [] ImageAllocs_new in
                  Some (spawn_commit env w2 parent handle task)
              end
          end
      end
  end.

(** ** Scheduling transitions *)

Definition TaskTable_resume_task (env : Env) (w : World) (pid : Z) : ResumeOutcome * World :=
  match TaskTable_task (w_table w) pid with
  | None => (RsTaskNotFound, w)
  | Some task =>
      if negb (bool_decide (tk_state task = Suspended)) then (RsNotSuspended, w)
      else
        let w1 := w_set_table w (TaskTable_update (Task_set_state Running) pid (w_table w)) in
        let home := home_of w task in
        match Scheduler_enqueue_on_cpu (w_sched w1) home pid (tk_qos task) with
        | (Enqueued, s) => (RsResumed, kick env home (w_set_sched w1 s))
        | (Rejected _, s) =>
            (RsEnqueueRejected,
             w_set_sched (w_set_table w1 (TaskTable_update (Task_set_state Suspended) pid (w_table w1))) s)
        end
  end.

Definition TaskTable_block_current (env : Env) (w : World) (reason : BlockReason) : World :=
  let pid := TaskTable_current_pid (env_hart env) (w_table w) in
  let w1 := w_set_table w (TaskTable_update (Task_set_blocked reason) pid (w_table w)) in
  w_set_sched w1 (Scheduler_finish_current (env_hart env) (Scheduler_purge (w_sched w1) pid)).

Definition TaskTable_wake (env : Env) (w : World) (pid : Z) : WakeOutcome * World :=
  match TaskTable_task (w_table w) pid with
  | None => (WkTaskNotFound, w)
  | Some task =>
      if negb (tk_blocked task) then (WkTaskNotBlocked, w)
      else if (bool_decide (tk_address_space task = None) && (tf_sepc (tk_frame task) =? 0))%bool then
        (WkWokenNoopSelftest, w_set_table w (TaskTable_update Task_clear_blocked pid (w_table w)))
      else
        let home := home_of w task in
        match Scheduler_enqueue_on_cpu (Scheduler_purge (w_sched w) pid) home pid (tk_qos task) with
        | (Rejected _, s) => (WkEnqueueRejected, w_set_sched w s)
        | (Enqueued, s) =>
            (WkWoken,
             kick env home (w_set_table (w_set_sched w s) (TaskTable_update Task_clear_blocked pid (w_table w))))
        end
  end.

Definition TaskTable_wake_parent_waiter (env : Env) (w : World) (child : Z) : World :=
  match TaskTable_task (w_table w) child ≫= tk_parent with
  | None => w
  | Some parent =>
      match TaskTable_task (w_table w) parent with
      | None => w
      | Some parent_task =>
          if negb (tk_blocked parent_task) then w
          else match tk_block_reason parent_task with
               | Some (BrWaitChild target) =>
                   if (bool_decide (target = None) || bool_decide (target = Some child))%bool
                   then (TaskTable_wake env w parent).2 else w
               | _ => w
               end
      end
  end.

(** ** Capability transfer *)

Definition TaskTable_transfer_cap_with_mode (t : TaskTable) (parent child : Z) (parent_slot : nat) (rights : Rights)
    (mode : TransferMode) : result nat TransferError * TaskTable :=
  match TaskTable_task t parent with
  | None => (Err TrInvalidParent, t)
  | Some parent_task =>
      match CapTable_derive (tk_caps parent_task) parent_slot rights with
      | Err e => (Err (TrCapability e), t)
      | Ok derived =>
          match TaskTable_task t child with
          | None => (Err TrInvalidChild, t)
          | Some child_task =>
              match mode with
              | CopyAllocate =>
                  let '(r, caps) := CapTable_allocate (tk_caps child_task) derived in
                  (map_err TrCapability r, TaskTable_update (Task_set_caps caps) child t)
              | CopyToSlot child_slot =>
                  let '(r, caps) := CapTable_set_if_empty (tk_caps child_task) child_slot derived in
                  (let? _ := map_err TrCapability r in Ok child_slot, TaskTable_update (Task_set_caps caps) child t)
              end
          end
      end
  end.

Definition TaskTable_transfer_cap (t : TaskTable) (parent child : Z) (parent_slot : nat) (rights : Rights) :
    result nat TransferError * TaskTable :=
  TaskTable_transfer_cap_with_mode t parent child parent_slot rights CopyAllocate.

Definition TaskTable_transfer_cap_to_slot (t : TaskTable) (parent child : Z) (parent_slot : nat) (rights : Rights)
    (child_slot : nat) : result unit TransferError * TaskTable :=
  let '(r, t1) := TaskTable_transfer_cap_with_mode t parent child parent_slot rights (CopyToSlot child_slot) in
  (let? _ := r in Ok tt, t1).

(** ** Exit and reaping *)

Definition TaskTable_exit_current (hart : nat) (t : TaskTable) (status : Z) : ImageAllocs * TaskTable :=
  let pid := TaskTable_current_pid hart t in
  match TaskTable_task t pid with
  | None => (ImageAllocs_new, t)
  | Some task => (tk_image_allocs task, TaskTable_update (Task_exited status) pid t)
  end.

(** A child that [reap_child] may take: a zombie with an unread exit code. *)
Definition reapable (t : TaskTable) (pid : Z) : bool :=
  match TaskTable_task t pid with
  | Some c => (bool_decide (tk_state c = Zombie) && bool_decide (is_Some (tk_exit_code c)))%bool
  | None => false
  end.

Definition reap_select (t : TaskTable) (parent : Z) (children : list Z) (target : option Z) : result Z WaitError :=
  match target with
  | Some pid =>
      if pid =? parent then Err WeInvalidTarget
      else if negb (bool_decide (pid ∈ children)) then Err WeNoSuchPid
      else Ok pid
  | None =>
      match list_find (fun p => reapable t p = true) children with
      | Some (_, p) => Ok p
      | None => Err WeWouldBlock
      end
  end.

Definition reap_status (t : TaskTable) (parent child : Z) : result Z WaitError :=
  match TaskTable_task t child with
  | None => Err WeNoSuchPid
  | Some c =>
      if negb (bool_decide (tk_parent c = Some parent)) then Err WeNoSuchPid
      else if negb (bool_decide (tk_state c = Zombie)) then Err WeWouldBlock
      else ok_or (tk_exit_code c) WeWouldBlock
  end.

Definition TaskTable_reap_child (hart : nat) (w : World) (target : option Z) : result (Z * Z) WaitError * World :=
  let t := w_table w in
  let parent := TaskTable_current_pid hart t in
  match TaskTable_task t parent with
  | None => (Err WeNoChildren, w)
  | Some parent_task =>
      match tk_children parent_task with
      | [] => (Err WeNoChildren, w)
      | children =>
          match (let? child := reap_select t parent children target in
                 let? status := reap_status t parent child in Ok (child, status)) with
          | Err e => (Err e, w)
          | Ok (child, status) =>
              let t1 := TaskTable_update (fun p => Task_set_children (retain_other child (tk_children p)) p) parent t in
              let space := TaskTable_task t1 child ≫= tk_address_space in
              let w1 := w_set_table w (TaskTable_update Task_reaped child t1) in
              (Ok (child, status),
               match space with
               | None => w1
               | Some handle =>
                   let mg1 := (AddressSpaceManager_detach (w_spaces w1) handle child).2 in
                   let '(_, m2, mg2) := AddressSpaceManager_destroy (w_mem w1) mg1 handle in
                   w_set_mm w1 m2 mg2
               end)
          end
      end
  end.

Definition TaskTable_selftest_create_dummy_task (env : Env) (w : World) (parent : Z) : option (Z * World) :=
  match TaskTable_task (w_table w) parent with
  | None => None
  | Some parent_task =>
      let pid := pid_of_len (length (tt_tasks (w_table w))) in
      let '(rr_cpu, smp) := assign_spawn_cpu (env_hart env) (w_smp w) in
      let mask := tk_affinity_mask parent_task in
      let task :=
        mkTask pid (Some parent) Running None TrapFrame_EMPTY CapTable_new (tk_trap_domain parent_task) PerfBurst
          true None None None 0 (clamp_home_to_affinity mask rr_cpu (CPU_ONLINE_MASK smp))
          mask (tk_shares parent_task) None None [] ImageAllocs_new in
      Some (pid,
            w_set_table (w_set_smp w smp)
              (TaskTable_update (fun p => Task_set_children (tk_children p ++ [pid]) p) parent
                 (TaskTable_push (w_table w) task)))
  end.

(** ** * What the task operations do to the task vector and the scheduler

    The shape of every operation's effect, used by the properties of system
    calls. *)

Definition w_tasks (w : World) : list Task := tt_tasks (w_table w).

Lemma kick_table env cpu w : w_table (kick env cpu w) = w_table w.
Proof. unfold kick. by case_match. Qed.
Lemma kick_sched env cpu w : w_sched (kick env cpu w) = w_sched w.
Proof. unfold kick. by case_match. Qed.

Lemma task_some tt pid t : TaskTable_task tt pid = Some t → 0 ≤ pid ∧ tt_tasks tt !! pid_index pid = Some t.
Proof. unfold TaskTable_task. destruct (Z.ltb_spec pid 0); [done|]. auto. Qed.
Lemma task_at tt pid : 0 ≤ pid → TaskTable_task tt pid = tt_tasks tt !! pid_index pid.
Proof. intros. unfold TaskTable_task. by rewrite (proj2 (Z.ltb_ge _ _)). Qed.

(** ** Wake *)

(** A wake changes nothing, only purges the scheduler, or unblocks the task —
    enqueued on its home CPU after a purge unless it is the selftest's dummy. *)
Lemma wake_effect env w pid :
  let w' := (TaskTable_wake env w pid).2 in
  w' = w ∨
  (∃ t, TaskTable_task (w_table w) pid = Some t ∧ tk_blocked t = true ∧
    ((w_table w' = TaskTable_update Task_clear_blocked pid (w_table w) ∧ w_sched w' = w_sched w) ∨
     let '(o, s) := Scheduler_enqueue_on_cpu (Scheduler_purge (w_sched w) pid) (home_of w t) pid (tk_qos t) in
     w_sched w' = s ∧
     w_table w' = match o with
                  | Enqueued => TaskTable_update Task_clear_blocked pid (w_table w)
                  | Rejected _ => w_table w
                  end)).
Proof.
  unfold TaskTable_wake. destruct (TaskTable_task (w_table w) pid) as [t|]; [|by left].
  destruct (tk_blocked t) eqn:Eb; [|by left]. simpl. right. exists t. split_and!; [done..|].
  case_match; [by left|]. right. destruct (Scheduler_enqueue_on_cpu _ _ _ _) as [o s]. destruct o; simpl.
  - by rewrite kick_table, kick_sched.
  - done.
Qed.

(** ** Resume *)

Lemma resume_effect env w pid :
  let w' := (TaskTable_resume_task env w pid).2 in
  w' = w ∨
  (∃ t, TaskTable_task (w_table w) pid = Some t ∧ tk_state t = Suspended ∧
    let '(o, s) := Scheduler_enqueue_on_cpu (w_sched w) (home_of w t) pid (tk_qos t) in
    w_sched w' = s ∧
    w_table w' = match o with
                 | Enqueued => TaskTable_update (Task_set_state Running) pid (w_table w)
                 | Rejected _ =>
                     TaskTable_update (Task_set_state Suspended) pid
                       (TaskTable_update (Task_set_state Running) pid (w_table w))
                 end).
Proof.
  unfold TaskTable_resume_task. destruct (TaskTable_task (w_table w) pid) as [t|]; [|by left].
  destruct (bool_decide (tk_state t = Suspended)) eqn:E; [|by left]. simpl_bool. simpl. right. exists t.
  split_and!; [done..|]. destruct (Scheduler_enqueue_on_cpu _ _ _ _) as [o s]. destruct o; simpl; [|done].
  by rewrite kick_table, kick_sched.
Qed.

(** ** Spawn *)

(** The steps before the commit touch neither tasks nor scheduler. *)
Lemma spawn_space_frame alloc k w space sp r w' :
  spawn_space alloc k w space sp = Some (r, w') → w_table w' = w_table w ∧ w_sched w' = w_sched w.
Proof.
  unfold spawn_space, allocate_guarded_stack. intros H. repeat case_match; simplify_eq/=; done.
Qed.

Lemma push_pop (l : list Task) x : take (length (l ++ [x]) - 1) (l ++ [x]) = l.
Proof. rewrite length_app. simpl. replace (length l + 1 - 1)%nat with (length l) by lia. by rewrite take_app_length. Qed.

(** A spawn fails without a trace in the task vector and the scheduler, or
    appends one suspended, unblocked task and links it to its parent. *)
Lemma spawn_effect alloc k env w parent entry sp space gp slot r w' :
  TaskTable_spawn alloc k env w parent entry sp space gp slot = Some (r, w') →
  w_sched w' = w_sched w ∧ tt_current (w_table w') = tt_current (w_table w) ∧
  ((w_tasks w' = w_tasks w ∧ is_ok r = false) ∨
   ∃ pt task caps,
     TaskTable_task (w_table w) parent = Some pt ∧ spawn_child_caps parent (tk_caps pt) space slot = Ok caps ∧
     tk_caps task = caps ∧ tk_state task = Suspended ∧ tk_blocked task = false ∧
     r = Ok (pid_of_len (length (w_tasks w))) ∧
     w_tasks w' = alter (fun p => Task_set_children (tk_children p ++ [pid_of_len (length (w_tasks w))]) p)
                    (pid_index parent) (w_tasks w ++ [task])).
Proof.
  unfold TaskTable_spawn. destruct (TaskTable_task (w_table w) parent) as [pt|] eqn:Ep; [|intros [= <- <-]; auto].
  destruct (ensure_entry_in_kernel_text k entry space); [|intros [= <- <-]; auto].
  destruct (spawn_child_caps parent (tk_caps pt) space slot) as [caps|] eqn:Ec; [|intros [= <- <-]; auto].
  destruct (spawn_space alloc k w space sp) as [[[[handle top]|e] w1]|] eqn:Es; [| |done].
  2: { apply spawn_space_frame in Es as [E1 E2]. intros [= <- <-]. unfold w_tasks. rewrite E1, E2. auto. }
  apply spawn_space_frame in Es as [E1 E2].
  destruct (assign_spawn_cpu (env_hart env) (w_smp w1)) as [rr smp]. intros [= E].
  set (task := mkTask _ _ _ _ _ _ _ _ _ _ _ _ _ _ _ _ _ _ _ _) in E.
  unfold spawn_commit in E. simpl in E.
  destruct (AddressSpaceManager_attach (w_spaces w1) handle _) as [[[]|e] mg].
  2: { injection E as <- <-. unfold w_tasks, TaskTable_pop. cbn -[take]. rewrite push_pop, E1, E2. auto. }
  simpl in E. set (f := fun p => Task_set_children _ p) in E.
  assert (Hlast : ∃ t, last (alter f (pid_index parent) (tt_tasks (w_table w1) ++ [task])) = Some t ∧ tk_state t = Suspended).
  { rewrite last_lookup, length_alter, length_app. simpl.
    replace (Init.Nat.pred (length (tt_tasks (w_table w1)) + 1)) with (length (tt_tasks (w_table w1))) by lia.
    assert (Hl : (tt_tasks (w_table w1) ++ [task]) !! length (tt_tasks (w_table w1)) = Some task).
    { rewrite lookup_app_r by lia. by rewrite Nat.sub_diag. }
    destruct (decide (pid_index parent = length (tt_tasks (w_table w1)))) as [->|Hne].
    - rewrite list_lookup_alter_eq, Hl. simpl. eauto.
    - rewrite list_lookup_alter_ne by done. rewrite Hl. eauto. }
  destruct Hlast as (t & Hl & Ht). rewrite Hl in E. rewrite bool_decide_eq_true_2 in E by done.
  injection E as <- <-. simpl. rewrite E2, E1. split_and!; [done|done|]. right.
  exists pt, task, caps. unfold w_tasks, f. simpl. rewrite E1. done.
Qed.

(** ** Reap *)

(** A reap changes the parent's list of children and clears the reaped zombie. *)
Lemma reap_effect hart w target :
  let w' := (TaskTable_reap_child hart w target).2 in
  w_sched w' = w_sched w ∧ tt_current (w_table w') = tt_current (w_table w) ∧
  (w_tasks w' = w_tasks w ∨
   ∃ child c, TaskTable_task (w_table w) child = Some c ∧ tk_state c = Zombie ∧
     w_tasks w' = alter Task_reaped (pid_index child)
                    (alter (fun p => Task_set_children (retain_other child (tk_children p)) p)
                       (pid_index (TaskTable_current_pid hart (w_table w))) (w_tasks w))).
Proof.
  unfold TaskTable_reap_child. destruct (TaskTable_task _ _) as [pt|] eqn:Ep; [|auto].
  destruct (tk_children pt) as [|c0 cs]; [auto|].
  destruct (reap_select _ _ _ _) as [child|]; simpl; [|auto].
  destruct (reap_status (w_table w) _ child) as [status|] eqn:Es; simpl; [|auto].
  unfold reap_status in Es. destruct (TaskTable_task (w_table w) child) as [c|] eqn:Ec; [|done].
  destruct (negb (bool_decide (tk_parent c = _))); [done|].
  destruct (bool_decide (tk_state c = Zombie)) eqn:Ez; [|done]. simpl_bool.
  assert (Hright : ∀ w', w_table w' = TaskTable_update Task_reaped child
      (TaskTable_update (fun p => Task_set_children (retain_other child (tk_children p)) p)
         (TaskTable_current_pid hart (w_table w)) (w_table w)) → w_sched w' = w_sched w →
      w_sched w' = w_sched w ∧ tt_current (w_table w') = tt_current (w_table w) ∧
      (w_tasks w' = w_tasks w ∨ ∃ child c, TaskTable_task (w_table w) child = Some c ∧ tk_state c = Zombie ∧
       w_tasks w' = alter Task_reaped (pid_index child)
                    (alter (fun p => Task_set_children (retain_other child (tk_children p)) p)
                       (pid_index (TaskTable_current_pid hart (w_table w))) (w_tasks w)))).
  { intros w' E1 E2. unfold w_tasks. rewrite E1. split_and!; [done..|]. right. by exists child, c. }
  destruct (TaskTable_task _ child ≫= tk_address_space) as [handle|].
  - destruct (AddressSpaceManager_destroy _ _ _) as [[d m2] mg2]. by apply Hright.
  - by apply Hright.
Qed.

(** ** Block *)

Lemma block_effect env w reason :
  let w' := TaskTable_block_current env w reason in
  let pid := TaskTable_current_pid (env_hart env) (w_table w) in
  w_table w' = TaskTable_update (Task_set_blocked reason) pid (w_table w) ∧
  w_sched w' = Scheduler_finish_current (env_hart env) (Scheduler_purge (w_sched w) pid).
Proof. done. Qed.
