(* ===== verification/VmoPool.v ===== *)
(** * The user VMO arena ([source/kernel/neuron/src/syscall/api/vmo.rs], [VmoPool])

    The bump-and-reuse allocator behind VMOs and process images: best-fit reuse
    of clean ranges, a list of freed ranges still to be zeroed by idle harts,
    and a frontier of memory zeroed ahead of time.

    The arena's memory is a function from addresses to bytes; [write_bytes]
    with zero is [zero_range].  The pool's lock makes every operation atomic. *)

From S2P Require Import Prelude PageTable AddressSpace.

(** ** Data *)

Definition VMO_FREE_SLOTS : nat := 16.

Definition Bytes := Z → Z.
Definition zero_range (m : Bytes) (start len : Z) : Bytes :=
  fun x => if ((start <=? x) && (x <? start + len))%bool then 0 else m x.

Record VmoPool := mkVmoPool {
  vp_base : Z;
  vp_next : Z;
  vp_limit : Z;
  vp_peak_next : Z;
  vp_free_list : list (Z * Z);
  vp_dirty_list : list (Z * Z);
  vp_leaked : Z;
  vp_zeroed_until : Z
}.

Record VmoPoolStats := mkVmoPoolStats { vs_base : Z; vs_used : Z; vs_remaining : Z; vs_peak_used : Z }.

Definition VmoPool_new : VmoPool :=
  mkVmoPool 0 0 0 0 (replicate VMO_FREE_SLOTS (0, 0)) (replicate VMO_FREE_SLOTS (0, 0)) 0 0.

(** ** Helpers *)

Definition align_len (len : Z) : option Z :=
  if len =? 0 then Some 0
  else (fun v => Z.land v (not64 (PAGE_SIZE - 1))) <$> checked_add 64 len (PAGE_SIZE - 1).

Definition align_up_addr (addr : Z) : Z := Z.land (addr + (PAGE_SIZE - 1)) (not64 (PAGE_SIZE - 1)).

Definition VmoPool_ensure_initialized (p : VmoPool) : VmoPool :=
  if negb (vp_base p =? 0) then p
  else let start := align_up_addr USER_VMO_ARENA_BASE in
       mkVmoPool start start (saturating_add 64 start USER_VMO_ARENA_LEN) start (vp_free_list p) (vp_dirty_list p)
         (vp_leaked p) start.

Definition VmoPool_stats (p : VmoPool) : VmoPoolStats :=
  mkVmoPoolStats (vp_base p) (saturating_sub (vp_next p) (vp_base p)) (saturating_sub (vp_limit p) (vp_next p))
    (saturating_sub (vp_peak_next p) (vp_base p)).

(** The smallest free entry that fits, the first among equals. *)
Fixpoint best_fit (aligned : Z) (index : nat) (best : option (nat * Z)) (rest : list (Z * Z)) : option (nat * Z) :=
  match rest with
  | [] => best
  | (_, entry_len) :: rest' =>
      let better := match best with None => true | Some (_, prev_len) => entry_len <? prev_len end in
      best_fit aligned (S index) (if ((aligned <=? entry_len) && better)%bool then Some (index, entry_len) else best) rest'
  end.

(** Reuse of the entry [index]: the range handed out and the list left. *)
Definition split_entry (free : list (Z * Z)) (index : nat) (aligned : Z) : Z * list (Z * Z) :=
  let '(entry_base, entry_len) := default (0, 0) (free !! index) in
  (entry_base,
   <[index := if aligned <? entry_len then (entry_base + aligned, entry_len - aligned) else (0, 0)]> free).

(** The first empty entry takes the range. *)
Fixpoint place_range (range : Z * Z) (l : list (Z * Z)) : option (list (Z * Z)) :=
  match l with
  | [] => None
  | (b, n) :: rest => if n =? 0 then Some (range :: rest) else cons (b, n) <$> place_range range rest
  end.

Definition set_free (p : VmoPool) (free : list (Z * Z)) : VmoPool :=
  mkVmoPool (vp_base p) (vp_next p) (vp_limit p) (vp_peak_next p) free (vp_dirty_list p) (vp_leaked p)
    (vp_zeroed_until p).
Definition set_dirty (p : VmoPool) (dirty : list (Z * Z)) : VmoPool :=
  mkVmoPool (vp_base p) (vp_next p) (vp_limit p) (vp_peak_next p) (vp_free_list p) dirty (vp_leaked p)
    (vp_zeroed_until p).
Definition add_leaked (p : VmoPool) (n : Z) : VmoPool :=
  mkVmoPool (vp_base p) (vp_next p) (vp_limit p) (vp_peak_next p) (vp_free_list p) (vp_dirty_list p)
    (saturating_add 64 (vp_leaked p) n) (vp_zeroed_until p).
Definition set_zeroed (p : VmoPool) (z : Z) : VmoPool :=
  mkVmoPool (vp_base p) (vp_next p) (vp_limit p) (vp_peak_next p) (vp_free_list p) (vp_dirty_list p) (vp_leaked p) z.
Definition bump (p : VmoPool) (next : Z) : VmoPool :=
  mkVmoPool (vp_base p) next (vp_limit p) (Z.max next (vp_peak_next p)) (vp_free_list p) (vp_dirty_list p)
    (vp_leaked p) (vp_zeroed_until p).

(** The error of every refusal: [Error::Capability(CapError::PermissionDenied)]. *)
Inductive VmoError := VmoDenied.

(** ** Allocation *)

(** What both allocation paths share: reuse the best fit, or find out how far
    the bump frontier moves.  [Ok (base, aligned, reused, pool)]. *)
Definition reserve (p : VmoPool) (len : Z) : result (Z * Z * bool * VmoPool) VmoError :=
  if len =? 0 then Err VmoDenied
  else match align_len len with
       | None => Err VmoDenied
       | Some aligned =>
           match best_fit aligned 0 None (vp_free_list p) with
           | Some (index, _) =>
               let '(entry_base, free) := split_entry (vp_free_list p) index aligned in
               Ok (entry_base, aligned, true, set_free p free)
           | None =>
               match checked_add 64 (vp_next p) aligned with
               | None => Err VmoDenied
               | Some next => if vp_limit p <? next then Err VmoDenied else Ok (vp_next p, aligned, false, bump p next)
               end
           end
       end.

(** The second test of the source's [if !needs_zero && ...] never holds. *)
Definition VmoPool_allocate_nozero (p : VmoPool) (len : Z) : result (Z * Z * bool) VmoError * VmoPool :=
  let p0 := VmoPool_ensure_initialized p in
  match reserve p0 len with
  | Err e => (Err e, p0)
  | Ok (base, aligned, true, p1) => (Ok (base, aligned, false), p1)
  | Ok (base, aligned, false, p1) =>
      let needs_zero := vp_zeroed_until p1 <? base + aligned in
      (Ok (base, aligned, needs_zero),
       if (negb needs_zero && (vp_zeroed_until p1 <? base + aligned))%bool then set_zeroed p1 (base + aligned) else p1)
  end.

Definition VmoPool_allocate (m : Bytes) (p : VmoPool) (len : Z) : result (Z * Z) VmoError * Bytes * VmoPool :=
  let p0 := VmoPool_ensure_initialized p in
  match reserve p0 len with
  | Err e => (Err e, m, p0)
  | Ok (base, aligned, true, p1) => (Ok (base, aligned), m, p1)
  | Ok (base, aligned, false, p1) =>
      let end_ := base + aligned in
      let dirty_from := Z.max base (Z.min (vp_zeroed_until p1) end_) in
      (Ok (base, aligned),
       if dirty_from <? end_ then zero_range m dirty_from (end_ - dirty_from) else m,
       if vp_zeroed_until p1 <? end_ then set_zeroed p1 end_ else p1)
  end.

(** ** Idle zeroing *)

(** The coalescing loop of a promotion. *)
Fixpoint coalesce (base len : Z) (free : list (Z * Z)) : Z * Z * list (Z * Z) :=
  match free with
  | [] => (base, len, [])
  | (b, n) :: rest =>
      if n =? 0 then let '(base', len', rest') := coalesce base len rest in (base', len', (b, n) :: rest')
      else if b + n =? base then let '(base', len', rest') := coalesce b (len + n) rest in (base', len', (0, 0) :: rest')
      else if base + len =? b then
             let '(base', len', rest') := coalesce base (len + n) rest in (base', len', (0, 0) :: rest')
      else let '(base', len', rest') := coalesce base len rest in (base', len', (b, n) :: rest')
  end.

Definition promote (p : VmoPool) (base len : Z) : VmoPool :=
  let '(base', len', free) := coalesce base len (vp_free_list p) in
  match place_range (base', len') free with
  | Some free' => set_free p free'
  | None => add_leaked (set_free p free) len'
  end.

Definition FRONTIER_AHEAD : Z := 8 * 1024 * 1024.

Definition VmoPool_idle_zero_step (m : Bytes) (p : VmoPool) (budget : Z) : Z * Bytes * VmoPool :=
  let p0 := VmoPool_ensure_initialized p in
  match list_find (fun e => e.2 ≠ 0) (vp_dirty_list p0) with
  | Some (i, (base, len)) =>
      let n := Z.min len budget in
      let m1 := zero_range m base n in
      if n =? len then (n, m1, promote (set_dirty p0 (<[i := (0, 0)]> (vp_dirty_list p0))) base len)
      else (n, m1, set_dirty p0 (<[i := (base + n, len - n)]> (vp_dirty_list p0)))
  | None =>
      let p1 := if vp_zeroed_until p0 <? vp_next p0 then set_zeroed p0 (vp_next p0) else p0 in
      let target := Z.min (vp_limit p1) (saturating_add 64 (vp_next p1) FRONTIER_AHEAD) in
      let end_ := Z.min target (saturating_add 64 (vp_zeroed_until p1) budget) in
      if end_ <=? vp_zeroed_until p1 then (0, m, p1)
      else let n := end_ - vp_zeroed_until p1 in (n, zero_range m (vp_zeroed_until p1) n, set_zeroed p1 end_)
  end.

Definition vmo_idle_zero_step (m : Bytes) (p : VmoPool) : Z * Bytes * VmoPool :=
  VmoPool_idle_zero_step m p (64 * 1024).

(** ** Release *)

Definition overlaps_entry (base end_ : Z) (e : Z * Z) : bool :=
  (negb (e.2 =? 0) && (e.1 <? end_) && (base <? e.1 + e.2))%bool.

Definition VmoPool_free (m : Bytes) (p : VmoPool) (base len : Z) : result unit VmoError * Bytes * VmoPool :=
  let p0 := VmoPool_ensure_initialized p in
  match align_len len with
  | None => (Err VmoDenied, m, p0)
  | Some aligned =>
      if ((aligned =? 0) || negb (Z.land base (PAGE_SIZE - 1) =? 0))%bool then (Err VmoDenied, m, p0)
      else match checked_add 64 base aligned with
           | None => (Err VmoDenied, m, p0)
           | Some end_ =>
               if ((base <? vp_base p0) || (vp_next p0 <? end_))%bool then (Err VmoDenied, m, p0)
               else if existsb (overlaps_entry base end_) (vp_free_list p0 ++ vp_dirty_list p0) then
                      (Err VmoDenied, m, p0)
               else if base + aligned =? vp_next p0 then
                      (Ok tt, m,
                       mkVmoPool (vp_base p0) base (vp_limit p0) (vp_peak_next p0) (vp_free_list p0) (vp_dirty_list p0)
                         (vp_leaked p0) (Z.min (vp_zeroed_until p0) base))
               else match place_range (base, aligned) (vp_dirty_list p0) with
                    | Some dirty => (Ok tt, m, set_dirty p0 dirty)
                    | None =>
                        let m1 := zero_range m base aligned in
                        match place_range (base, aligned) (vp_free_list p0) with
                        | Some free => (Ok tt, m1, set_free p0 free)
                        | None => (Ok tt, m1, add_leaked p0 aligned)
                        end
                    end
           end
  end.

Definition VmoPool_contains (p : VmoPool) (addr len : Z) : bool :=
  if ((vp_base p =? 0) || (len =? 0))%bool then false
  else match checked_add 64 addr len with
       | None => false
       | Some end_ => ((vp_base p <=? addr) && (end_ <=? vp_limit p))%bool
       end.
