(* ===== verification/VmoProps.v ===== *)
(** * Safety of the user VMO arena

    Whatever sequence of allocations, phased allocations, releases, idle
    zeroing and writes by owners happens: ranges handed out never overlap,
    stay in the arena, and read as zero when their owner gets them. *)

From S2P Require Import Prelude PageTable AddressSpace AddressSpaceProps VmoPool.

(** ** Histories *)

(** A range that is out of the pool: reserved by the phased path (and whether
    it is still to be zeroed), or owned. *)
Inductive range_status := Reserved (needs_zero : bool) | Owned.

Record Arena := mkArena {
  ar_mem : Bytes;
  ar_pool : VmoPool;
  ar_out : list (Z * Z * range_status)
}.

Definition Arena_init (m : Bytes) : Arena := mkArena m VmoPool_new [].

Definition write_byte (m : Bytes) (x v : Z) : Bytes := fun y => if y =? x then v else m y.

Inductive arena_op :=
| VAllocate (len : Z)
| VReserve (len : Z)
| VFinish (i : nat)
| VFree (i : nat)
| VIdle
| VWrite (i : nat) (offset v : Z).

(** [VFinish] is the zero pass of the phased path, done outside the lock;
    [VWrite] is a write of an owner inside its range. *)
Definition arena_step (a : Arena) (op : arena_op) : Arena :=
  let 'mkArena m p out := a in
  match op with
  | VAllocate len =>
      match VmoPool_allocate m p len with
      | (Ok (b, n), m1, p1) => mkArena m1 p1 ((b, n, Owned) :: out)
      | (Err _, m1, p1) => mkArena m1 p1 out
      end
  | VReserve len =>
      match VmoPool_allocate_nozero p len with
      | (Ok (b, n, nz), p1) => mkArena m p1 ((b, n, Reserved nz) :: out)
      | (Err _, p1) => mkArena m p1 out
      end
  | VFinish i =>
      match out !! i with
      | Some (b, n, Reserved nz) => mkArena (if nz then zero_range m b n else m) p (<[i := (b, n, Owned)]> out)
      | _ => a
      end
  | VFree i =>
      match out !! i with
      | Some (b, n, Owned) =>
          match VmoPool_free m p b n with
          | (Ok _, m1, p1) => mkArena m1 p1 (delete i out)
          | (Err _, m1, p1) => mkArena m1 p1 out
          end
      | _ => a
      end
  | VIdle => let '(_, m1, p1) := vmo_idle_zero_step m p in mkArena m1 p1 out
  | VWrite i offset v =>
      match out !! i with
      | Some (b, n, Owned) =>
          if ((0 <=? offset) && (offset <? n))%bool then mkArena (write_byte m (b + offset) v) p out else a
      | _ => a
      end
  end.

Definition arena_run (m : Bytes) (ops : list arena_op) : Arena := foldl arena_step (Arena_init m) ops.

(** ** How often an address is covered *)

Definition in_range (x : Z) (r : Z * Z) : Z := if ((r.1 <=? x) && (x <? r.1 + r.2))%bool then 1 else 0.
Definition cover (x : Z) (l : list (Z * Z)) : Z := zsum (in_range x) l.
Arguments cover : simpl never.
Arguments in_range : simpl never.

Lemma in_range_nonneg x r : 0 ≤ in_range x r.
Proof. unfold in_range. case_match; lia. Qed.

Lemma cover_nonneg x l : 0 ≤ cover x l.
Proof. apply zsum_nonneg. intros. apply in_range_nonneg. Qed.

Lemma cover_insert x l i r r' : l !! i = Some r → cover x (<[i := r']> l) = cover x l - in_range x r + in_range x r'.
Proof. apply zsum_insert. Qed.

Lemma cover_elem x l r : r ∈ l → in_range x r ≤ cover x l.
Proof.
  intros [i Hi]%list_elem_of_lookup_1. eapply zsum_elem_le; [|done]. intros. apply in_range_nonneg.
Qed.

Lemma in_range_zero x : in_range x (0, 0) = 0.
Proof. unfold in_range. simpl. case_match; simpl_bool; lia. Qed.

Lemma in_range_spec x b n : in_range x (b, n) = 1 ↔ b ≤ x < b + n.
Proof. unfold in_range. simpl. case_match; simpl_bool; split; lia || done. Qed.

Lemma in_range_split x b n k : 0 ≤ k ≤ n → in_range x (b, n) = in_range x (b, k) + in_range x (b + k, n - k).
Proof. intros Hk. unfold in_range. simpl. repeat case_match; simpl_bool; lia. Qed.

(** ** The invariant *)

Definition range_wf (lo hi : Z) (r : Z * Z) : Prop :=
  r.1 mod PAGE_SIZE = 0 ∧ r.2 mod PAGE_SIZE = 0 ∧ 0 ≤ r.2 ∧ (r.2 = 0 ∨ (lo ≤ r.1 ∧ r.1 + r.2 ≤ hi)).

Record pool_ok (m : Bytes) (p : VmoPool) (out : list (Z * Z)) : Prop := {
  po_base : 0 < vp_base p ≤ vp_next p;
  po_limit : vp_next p ≤ vp_limit p < 2 ^ 64;
  po_aligned : vp_next p mod PAGE_SIZE = 0;
  po_free : Forall (range_wf (vp_base p) (vp_next p)) (vp_free_list p);
  po_dirty : Forall (range_wf (vp_base p) (vp_next p)) (vp_dirty_list p);
  po_out : Forall (fun r => range_wf (vp_base p) (vp_next p) r ∧ 0 < r.2) out;
  po_cover : ∀ x, cover x out + cover x (vp_free_list p) + cover x (vp_dirty_list p) ≤
                  in_range x (vp_base p, vp_next p - vp_base p);
  po_clean : ∀ x, 0 < cover x (vp_free_list p) → m x = 0;
  po_frontier : ∀ x, vp_next p ≤ x < vp_zeroed_until p → m x = 0
}.

(** Ranges reserved by the phased path that need no zero pass are still zero. *)
Definition reserved_clean (m : Bytes) (r : Z * Z * range_status) : Prop :=
  r.2 = Reserved false → ∀ x, r.1.1 ≤ x < r.1.1 + r.1.2 → m x = 0.

Definition pool_span (p : VmoPool) : Z * Z := (vp_base p, vp_limit p).

Definition arena_ok (a : Arena) : Prop :=
  pool_ok (ar_mem a) (VmoPool_ensure_initialized (ar_pool a)) (ar_out a).*1 ∧
  Forall (reserved_clean (ar_mem a)) (ar_out a) ∧
  pool_span (VmoPool_ensure_initialized (ar_pool a)) = (USER_VMO_ARENA_BASE, USER_VMO_ARENA_BASE + USER_VMO_ARENA_LEN).

(** ** Alignment *)

Lemma land_page x : in_width 64 x → Z.land x (not64 (PAGE_SIZE - 1)) = x / PAGE_SIZE * PAGE_SIZE.
Proof.
  intros Hx. unfold PAGE_SIZE. change (not64 (4096 - 1)) with (Z.ones 52 * 2 ^ 12). change 4096 with (2 ^ 12).
  apply Z.bits_inj'. intros n Hn. rewrite Z.land_spec. destruct (Z.ltb_spec n 12).
  - by rewrite !Z.mul_pow2_bits_low, andb_false_r by lia.
  - rewrite !Z.mul_pow2_bits, Z.div_pow2_bits by lia. replace (n - 12 + 12) with n by lia.
    destruct (Z.ltb_spec (n - 12) 52).
    + rewrite Z.ones_spec_low by lia. by rewrite andb_true_r.
    + rewrite Z.ones_spec_high by lia. rewrite andb_false_r. symmetry.
      destruct (decide (x = 0)) as [->|]; [apply Z.bits_0|]. unfold in_width in Hx.
      apply Z.bits_above_log2; [lia|]. apply Z.log2_lt_pow2; [lia|].
      apply Z.lt_le_trans with (2 ^ 64); [lia|]. apply Z.pow_le_mono_r; lia.
Qed.

Lemma page_add a b : a mod PAGE_SIZE = 0 → b mod PAGE_SIZE = 0 → (a + b) mod PAGE_SIZE = 0.
Proof. unfold PAGE_SIZE. intros Ha Hb. rewrite Z.add_mod, Ha, Hb by lia. done. Qed.

Lemma page_sub a b : a mod PAGE_SIZE = 0 → b mod PAGE_SIZE = 0 → (a - b) mod PAGE_SIZE = 0.
Proof. unfold PAGE_SIZE. intros Ha Hb. rewrite Zminus_mod, Ha, Hb. done. Qed.

Lemma align_len_spec len a :
  in_width 64 len → align_len len = Some a →
  a mod PAGE_SIZE = 0 ∧ len ≤ a < 2 ^ 64 ∧ 0 ≤ a ∧ (0 < len → 0 < a) ∧ (len mod PAGE_SIZE = 0 → a = len).
Proof.
  unfold align_len, checked_add. intros Hl. destruct (Z.eqb_spec len 0) as [->|Hne].
  - intros [= <-]. unfold in_width, PAGE_SIZE. split_and!; (done || lia).
  - destruct (Z.ltb_spec (len + (PAGE_SIZE - 1)) (2 ^ 64)); [|done]. cbn. intros [= <-].
    unfold in_width in Hl. rewrite land_page by (unfold in_width, PAGE_SIZE in *; lia).
    unfold PAGE_SIZE in *. pose proof (Z.div_mod (len + (4096 - 1)) 4096 ltac:(lia)).
    pose proof (Z.mod_pos_bound (len + (4096 - 1)) 4096 ltac:(lia)). split_and!; try lia.
    + apply Z.mod_mul. lia.
    + intros Hm. pose proof (Z.div_mod len 4096 ltac:(lia)).
      replace (len + (4096 - 1)) with (4095 + len / 4096 * 4096) by lia.
      rewrite Z.div_add by lia. change (4095 / 4096) with 0. lia.
Qed.

Lemma align_len_aligned n : 0 < n → n + PAGE_SIZE ≤ 2 ^ 64 → n mod PAGE_SIZE = 0 → align_len n = Some n.
Proof.
  intros Hn Hlt Hm. destruct (align_len n) as [a|] eqn:E.
  - apply align_len_spec in E as (_ & _ & _ & _ & E); [by rewrite (E Hm)|]. unfold in_width, PAGE_SIZE in *. lia.
  - unfold align_len, checked_add in E. destruct (Z.eqb_spec n 0); [lia|].
    destruct (Z.ltb_spec (n + (PAGE_SIZE - 1)) (2 ^ 64)); [done|lia].
Qed.

(** ** Reuse and placement *)

Lemma best_fit_spec aligned rest index best i n :
  best_fit aligned index best rest = Some (i, n) →
  best = Some (i, n) ∨ (∃ b, rest !! (i - index)%nat = Some (b, n) ∧ (index ≤ i)%nat ∧ aligned ≤ n).
Proof.
  revert index best. induction rest as [|[b l] rest IH]; intros index best; simpl; [by left|].
  intros H. apply IH in H as [H|(b' & H & Hi & Hn)].
  - case_match eqn:E; [|by left]. simplify_eq. simpl_bool. right. exists b.
    rewrite Nat.sub_diag. split_and!; try done; try lia.
  - right. exists b'. replace (i - index)%nat with (S (i - S index)) by lia. simpl. split_and!; [done|lia|done].
Qed.

Lemma split_entry_cover free i b l aligned x :
  free !! i = Some (b, l) → 0 ≤ aligned ≤ l →
  let '(eb, free') := split_entry free i aligned in
  eb = b ∧ cover x free = cover x free' + in_range x (b, aligned).
Proof.
  intros Hi Ha. unfold split_entry. rewrite Hi. cbn [default from_option id]. split; [done|].
  rewrite (cover_insert _ _ _ _ _ Hi), (in_range_split x b l aligned) by lia.
  destruct (Z.ltb_spec aligned l) as [Hlt|Hge]; [lia|].
  rewrite in_range_zero. replace (l - aligned) with 0 by lia. unfold in_range at 2. simpl. case_match; simpl_bool; lia.
Qed.

Lemma split_entry_wf lo hi free i b l aligned :
  free !! i = Some (b, l) → 0 ≤ aligned ≤ l → aligned mod PAGE_SIZE = 0 → 0 < aligned →
  Forall (range_wf lo hi) free → Forall (range_wf lo hi) (split_entry free i aligned).2 ∧ range_wf lo hi (b, aligned).
Proof.
  intros Hi Ha Hm Hpos Hf. pose proof (Forall_lookup_1 _ _ _ _ Hf Hi) as (Hb & Hl & H0 & Hr). simpl in *.
  unfold split_entry. rewrite Hi. simpl. split.
  - apply Forall_insert; [done|]. case_match; simpl_bool; unfold range_wf; simpl; [|split_and!; (done || by left)].
    split_and!; [by apply page_add|by apply page_sub|lia|right; lia].
  - unfold range_wf. simpl. split_and!; try done; lia.
Qed.

Lemma place_range_spec range l l' x :
  place_range range l = Some l' → Forall (fun r => 0 ≤ r.2) l → cover x l' = cover x l + in_range x range.
Proof.
  revert l'. induction l as [|[b n] l IH]; intros l'; simpl; [done|]. intros H Hf. apply Forall_cons in Hf as [Hn Hf].
  case_match eqn:E; simplify_eq; simpl_bool.
  - subst n. unfold cover. rewrite !zsum_cons.
    replace (in_range x (b, 0)) with 0; [lia|]. unfold in_range. simpl. case_match; simpl_bool; lia.
  - destruct (place_range range l) as [l1|]; [|done]. injection H as <-. unfold cover in *. rewrite !zsum_cons.
    rewrite (IH l1) by done. lia.
Qed.

Lemma place_range_Forall P range l l' : place_range range l = Some l' → P range → Forall P l → Forall P l'.
Proof.
  revert l'. induction l as [|[b n] l IH]; intros l'; simpl; [done|]. intros H Hr Hf. apply Forall_cons in Hf as [Hn Hf].
  case_match; [by simplify_eq; constructor|]. destruct (place_range range l); [|done]. simplify_eq/=. constructor; auto.
Qed.

Lemma coalesce_cover free base len x :
  Forall (fun r => 0 ≤ r.2) free → 0 ≤ len →
  let '(base', len', free') := coalesce base len free in
  cover x free' + in_range x (base', len') = cover x free + in_range x (base, len) ∧ len ≤ len'.
Proof.
  revert base len. induction free as [|[b n] free IH]; intros base len Hf Hl; simpl; [unfold cover; simpl; lia|].
  apply Forall_cons in Hf as [Hn Hf]. simpl in Hn.
  destruct (Z.eqb_spec n 0) as [->|Hne].
  - specialize (IH base len Hf Hl). destruct (coalesce base len free) as [[base' len'] free'].
    unfold cover in *. rewrite !zsum_cons. lia.
  - destruct (Z.eqb_spec (b + n) base) as [<-|].
    + specialize (IH b (len + n) Hf ltac:(lia)). destruct (coalesce b (len + n) free) as [[base' len'] free'].
      unfold cover in *. rewrite !zsum_cons, in_range_zero. destruct IH as [IH Hle]. split; [|lia].
      rewrite (in_range_split x b (len + n) n) in IH by lia. replace (len + n - n) with len in IH by lia. lia.
    + destruct (Z.eqb_spec (base + len) b) as [<-|].
      * specialize (IH base (len + n) Hf ltac:(lia)). destruct (coalesce base (len + n) free) as [[base' len'] free'].
        unfold cover in *. rewrite !zsum_cons, in_range_zero. destruct IH as [IH Hle]. split; [|lia].
        rewrite (in_range_split x base (len + n) len) in IH by lia. replace (len + n - len) with n in IH by lia. lia.
      * specialize (IH base len Hf Hl). destruct (coalesce base len free) as [[base' len'] free'].
        unfold cover in *. rewrite !zsum_cons. lia.
Qed.

Lemma coalesce_wf lo hi free base len :
  Forall (range_wf lo hi) free → range_wf lo hi (base, len) → 0 < len →
  let '(base', len', free') := coalesce base len free in
  Forall (range_wf lo hi) free' ∧ range_wf lo hi (base', len') ∧ 0 < len'.
Proof.
  revert base len. induction free as [|[b n] free IH]; intros base len Hf Hr Hl; simpl; [done|].
  apply Forall_cons in Hf as [Hn Hf].
  assert (Hz : range_wf lo hi (0, 0)) by (split_and!; try done; by left).
  destruct Hr as (Hrb & Hrl & H0 & Hr), Hn as (Hnb & Hnl & Hn0 & Hn). simpl in *.
  assert (Hbase : range_wf lo hi (base, len)) by (split_and!; simpl; try done; lia).
  assert (Hself : range_wf lo hi (b, n)) by (split_and!; simpl; try done; lia).
  repeat case_match; simpl_bool.
  all: match goal with
       | E : coalesce ?b0 ?l0 _ = _ |- _ =>
           let H := fresh in
           assert (H : range_wf lo hi (b0, l0)) by
             (split_and!; simpl; (done || lia || (by apply page_add)));
           specialize (IH b0 l0 Hf H ltac:(lia)); rewrite E in IH
       end; destruct IH as (IH1 & IH2 & IH3); simplify_eq; split_and!; try done; constructor; done.
Qed.

(** ** Allocation *)

Lemma cover_app x l1 l2 : cover x (l1 ++ l2) = cover x l1 + cover x l2.
Proof. apply zsum_app. Qed.

Lemma cover_cons x r l : cover x (r :: l) = in_range x r + cover x l.
Proof. done. Qed.

Lemma range_wf_mono lo hi hi' r : hi ≤ hi' → range_wf lo hi r → range_wf lo hi' r.
Proof. unfold range_wf. intros. intuition lia. Qed.

Lemma Forall_range_mono lo hi hi' l : hi ≤ hi' → Forall (range_wf lo hi) l → Forall (range_wf lo hi') l.
Proof. intros H HF. eapply Forall_impl; [done|]. intros r. by apply range_wf_mono. Qed.

Lemma Forall_out_mono lo hi hi' l :
  hi ≤ hi' → Forall (fun r => range_wf lo hi r ∧ 0 < r.2) l → Forall (fun r => range_wf lo hi' r ∧ 0 < r.2) l.
Proof. intros H HF. eapply Forall_impl; [done|]. intros r [? ?]. split; [by eapply range_wf_mono|done]. Qed.

Lemma range_wf_nonneg lo hi l : Forall (range_wf lo hi) l → Forall (fun r => 0 ≤ r.2) l.
Proof. intros HF. eapply Forall_impl; [done|]. by intros r (_ & _ & ? & _). Qed.

Lemma reserve_ok m p out len b n reused p1 :
  pool_ok m p out → in_width 64 len → reserve p len = Ok (b, n, reused, p1) →
  pool_ok m p1 ((b, n) :: out) ∧ len ≤ n ∧ vp_limit p1 = vp_limit p ∧ vp_base p1 = vp_base p ∧
  (∀ x, b ≤ x < b + n → cover x out = 0) ∧ vp_zeroed_until p1 = vp_zeroed_until p ∧
  (if reused then vp_next p1 = vp_next p ∧ ∀ x, b ≤ x < b + n → m x = 0
   else b = vp_next p ∧ vp_next p1 = b + n).
Proof.
  intros I Hl. unfold reserve. destruct (Z.eqb_spec len 0) as [|Hne]; [done|].
  destruct (align_len len) as [aligned|] eqn:Ea; [|done]. pose proof Hl as Hl'. unfold in_width in Hl'.
  apply align_len_spec in Ea as (Hm & Hle & H0 & Hpos & _); [|done]. specialize (Hpos ltac:(lia)).
  destruct (best_fit aligned 0 None (vp_free_list p)) as [[i l]|] eqn:Eb.
  - apply best_fit_spec in Eb as [|(eb & Hi & _ & Hal)]; [done|]. rewrite Nat.sub_0_r in Hi.
    pose proof (fun x => split_entry_cover _ _ _ _ aligned x Hi ltac:(lia)) as Hc.
    destruct (split_entry_wf _ _ _ _ _ _ aligned Hi ltac:(lia) Hm Hpos (po_free _ _ _ I)) as [Hwf Hr].
    destruct (split_entry (vp_free_list p) i aligned) as [eb' free']. intros [= <- <- <- <-].
    destruct (Hc 0) as [-> _].
    assert (Hfree : ∀ x, eb ≤ x < eb + aligned → 1 ≤ cover x (vp_free_list p)).
    { intros x Hx. destruct (Hc x) as [_ ->]. apply in_range_spec in Hx as ->. pose proof (cover_nonneg x free'). lia. }
    split_and!; try done; try lia.
    + destruct I. split; simpl in *; try done.
      * by constructor.
      * intros x. specialize (po_cover0 x). destruct (Hc x) as [_ E]. rewrite cover_cons. lia.
      * intros x Hx. apply po_clean0. destruct (Hc x) as [_ E]. pose proof (in_range_nonneg x (eb, aligned)). lia.
    + intros x Hx. pose proof (po_cover _ _ _ I x) as Hcov. specialize (Hfree x Hx).
      pose proof (cover_nonneg x out). pose proof (cover_nonneg x (vp_dirty_list p)).
      unfold in_range in Hcov. case_match; lia.
    + intros x Hx. apply (po_clean _ _ _ I). specialize (Hfree x Hx). lia.
  - unfold checked_add. destruct (Z.ltb_spec (vp_next p + aligned) (2 ^ 64)); [|done].
    destruct (Z.ltb_spec (vp_limit p) (vp_next p + aligned)); [done|]. intros [= <- <- <- <-].
    pose proof (po_base _ _ _ I) as Hb.
    split_and!; try done; try lia.
    + destruct I. split; simpl in *; try done; try lia.
      * by apply page_add.
      * eapply Forall_range_mono; [|done]. lia.
      * eapply Forall_range_mono; [|done]. lia.
      * constructor; [|eapply Forall_out_mono; [|done]; lia]. split; [|done]. split_and!; simpl; try done; lia.
      * intros x. specialize (po_cover0 x). rewrite cover_cons.
        rewrite (in_range_split x (vp_base p) (vp_next p + aligned - vp_base p) (vp_next p - vp_base p)) by lia.
        replace (vp_base p + (vp_next p - vp_base p)) with (vp_next p) by lia.
        replace (vp_next p + aligned - vp_base p - (vp_next p - vp_base p)) with aligned by lia. lia.
      * intros x Hx. apply po_frontier0. lia.
    + intros x Hx. pose proof (po_cover _ _ _ I x) as Hcov. pose proof (cover_nonneg x out).
      pose proof (cover_nonneg x (vp_free_list p)). pose proof (cover_nonneg x (vp_dirty_list p)).
      unfold in_range in Hcov. simpl in Hcov. case_match; simpl_bool; lia.
Qed.

(** ** Memory effects *)

Lemma zero_range_in m s l x : s ≤ x < s + l → zero_range m s l x = 0.
Proof. intros Hx. unfold zero_range. case_match; simpl_bool; lia || done. Qed.

Lemma zero_range_out m s l x : ¬ (s ≤ x < s + l) → zero_range m s l x = m x.
Proof. intros Hx. unfold zero_range. case_match; simpl_bool; lia || done. Qed.

Lemma zero_range_keeps m s l x : m x = 0 → zero_range m s l x = 0.
Proof. intros Hx. unfold zero_range. by case_match. Qed.

Lemma pool_ok_mem m m' p out :
  pool_ok m p out →
  (∀ x, 0 < cover x (vp_free_list p) ∨ vp_next p ≤ x < vp_zeroed_until p → m x = 0 → m' x = 0) → pool_ok m' p out.
Proof. intros [] H. split; try done; intros x Hx; apply H; auto. Qed.

Lemma pool_ok_zero m p out s l : pool_ok m p out → pool_ok (zero_range m s l) p out.
Proof. intros I. eapply pool_ok_mem; [done|]. intros x _. apply zero_range_keeps. Qed.

Lemma cover_perm x l l' : l ≡ₚ l' → cover x l = cover x l'.
Proof. induction 1; rewrite ?cover_cons; lia || congruence. Qed.

Lemma pool_ok_perm m p out out' : out ≡ₚ out' → pool_ok m p out → pool_ok m p out'.
Proof.
  intros HP []. split; try done; [by rewrite <- HP|]. intros x. specialize (po_cover0 x).
  by rewrite <- (cover_perm _ _ _ HP).
Qed.

Lemma pool_ok_zeroed m p out z :
  pool_ok m p out → (∀ x, vp_next p ≤ x < z → m x = 0) → pool_ok m (set_zeroed p z) out.
Proof. intros [] H. by split. Qed.

(** Any two of the three families of ranges are disjoint. *)
Lemma pool_ok_once m p out x :
  pool_ok m p out → cover x out + cover x (vp_free_list p) + cover x (vp_dirty_list p) ≤ 1 ∧
  (vp_next p ≤ x → cover x out = 0 ∧ cover x (vp_free_list p) = 0 ∧ cover x (vp_dirty_list p) = 0).
Proof.
  intros I. pose proof (po_cover _ _ _ I x) as H. pose proof (po_base _ _ _ I).
  pose proof (cover_nonneg x out). pose proof (cover_nonneg x (vp_free_list p)).
  pose proof (cover_nonneg x (vp_dirty_list p)). unfold in_range in H. simpl in H.
  case_match; simpl_bool; lia.
Qed.

Lemma initialized_id m p out : pool_ok m p out → VmoPool_ensure_initialized p = p.
Proof.
  intros I. pose proof (po_base _ _ _ I). unfold VmoPool_ensure_initialized. by destruct (Z.eqb_spec (vp_base p) 0); [lia|].
Qed.

Lemma initialized_idem p : vp_base (VmoPool_ensure_initialized p) ≠ 0 →
  VmoPool_ensure_initialized (VmoPool_ensure_initialized p) = VmoPool_ensure_initialized p.
Proof. intros H. unfold VmoPool_ensure_initialized at 1. by destruct (Z.eqb_spec (vp_base (VmoPool_ensure_initialized p)) 0). Qed.

(** ** The two allocation paths *)

Definition handed_over (m : Bytes) (b n : Z) : Prop := ∀ x, b ≤ x < b + n → m x = 0.

(** What an allocation of [len] bytes promises about the range [(b, n)]. *)
Definition alloc_ok (p p1 : VmoPool) (out : list (Z * Z)) (len b n : Z) : Prop :=
  len ≤ n ∧ pool_span p1 = pool_span p ∧ (∀ x, b ≤ x < b + n → cover x out = 0).

Lemma allocate_nozero_ok m p out len b n nz p1 :
  pool_ok m (VmoPool_ensure_initialized p) out → in_width 64 len → VmoPool_allocate_nozero p len = (Ok (b, n, nz), p1) →
  pool_ok m p1 ((b, n) :: out) ∧ alloc_ok (VmoPool_ensure_initialized p) p1 out len b n ∧ (nz = false → handed_over m b n).
Proof.
  intros I Hl. unfold VmoPool_allocate_nozero.
  destruct (reserve (VmoPool_ensure_initialized p) len) as [[[[b0 n0] reused] p2]|] eqn:E; [|done].
  destruct (reserve_ok _ _ _ _ _ _ _ _ I Hl E) as (I1 & Hn & Hlim & Hbase & Hd & Hz & Hr).
  destruct reused.
  - intros [= <- <- <- <-]. unfold alloc_ok, pool_span. rewrite Hlim, Hbase. split_and!; try done. intros _. exact (proj2 Hr).
  - destruct Hr as [Hb Hnext]. destruct (Z.ltb_spec (vp_zeroed_until p2) (b0 + n0)).
    all: intros [= <- <- <- <-]; unfold alloc_ok, pool_span; rewrite Hlim, Hbase; split_and!; try done.
    intros _ x Hx. apply (po_frontier _ _ _ I). lia.
Qed.

Lemma allocate_ok m p out len b n m1 p1 :
  pool_ok m (VmoPool_ensure_initialized p) out → in_width 64 len → VmoPool_allocate m p len = (Ok (b, n), m1, p1) →
  pool_ok m1 p1 ((b, n) :: out) ∧ alloc_ok (VmoPool_ensure_initialized p) p1 out len b n ∧ handed_over m1 b n ∧
  (∀ x, ¬ (b ≤ x < b + n) → m1 x = m x).
Proof.
  intros I Hl. unfold VmoPool_allocate.
  destruct (reserve (VmoPool_ensure_initialized p) len) as [[[[b0 n0] reused] p2]|] eqn:E; [|done].
  destruct (reserve_ok _ _ _ _ _ _ _ _ I Hl E) as (I1 & Hn & Hlim & Hbase & Hd & Hz & Hr).
  destruct reused.
  - intros [= <- <- <- <-]. unfold alloc_ok, pool_span. rewrite Hlim, Hbase. split_and!; try done. exact (proj2 Hr).
  - destruct Hr as [Hb Hnext]. intros H.
    assert (Hbn : b0 = b ∧ n0 = n) by (by simplify_eq). destruct Hbn as [-> ->]. injection H as <- <-.
    assert (Hpos : 0 < n) by (pose proof (po_out _ _ _ I1) as [[_ ?] _]%Forall_cons; done).
    split_and!.
    + assert (Hi : pool_ok m (if vp_zeroed_until p2 <? b + n then set_zeroed p2 (b + n) else p2) ((b, n) :: out)).
      { case_match; [|done]. apply pool_ok_zeroed; [done|]. intros. lia. }
      match goal with |- pool_ok (if ?c then _ else _) _ _ => destruct c end; [by apply pool_ok_zero|done].
    + unfold alloc_ok, pool_span. split_and!; try done. case_match; simpl; by rewrite Hlim, Hbase.
    + intros x Hx. destruct (Z.ltb_spec (Z.max b (Z.min (vp_zeroed_until p2) (b + n))) (b + n)).
      * destruct (decide (Z.max b (Z.min (vp_zeroed_until p2) (b + n)) ≤ x)); [apply zero_range_in; lia|].
        rewrite zero_range_out by lia. apply (po_frontier _ _ _ I). lia.
      * apply (po_frontier _ _ _ I). lia.
    + intros x Hx. case_match; [apply zero_range_out; lia|done].
Qed.

(** ** Idle zeroing *)

Definition preserves_out (out : list (Z * Z)) (m m' : Bytes) : Prop := ∀ x, 0 < cover x out → m' x = m x.

Lemma zero_preserves m out s l : (∀ x, s ≤ x < s + l → cover x out = 0) → preserves_out out m (zero_range m s l).
Proof. intros H x Hx. apply zero_range_out. intros Hr. specialize (H x Hr). lia. Qed.

(** Dropping a dirty range and adding it, zeroed, to the clean list. *)
Lemma promote_ok m p out b n :
  pool_ok m p out → range_wf (vp_base p) (vp_next p) (b, n) → 0 < n → handed_over m b n →
  (∀ x, cover x out + cover x (vp_free_list p) + cover x (vp_dirty_list p) + in_range x (b, n) ≤
        in_range x (vp_base p, vp_next p - vp_base p)) →
  pool_ok m (promote p b n) out ∧ pool_span (promote p b n) = pool_span p.
Proof.
  intros I Hr Hn Hz Hcov. unfold promote.
  pose proof (coalesce_wf _ _ _ _ _ (po_free _ _ _ I) Hr Hn) as Hwf.
  pose proof (fun x => coalesce_cover (vp_free_list p) b n x (range_wf_nonneg _ _ _ (po_free _ _ _ I)) ltac:(lia)) as Hc.
  destruct (coalesce b n (vp_free_list p)) as [[b' n'] free'] eqn:Ec. destruct Hwf as (Hf & Hr' & Hn').
  assert (Hclean : ∀ x, 0 < cover x free' + in_range x (b', n') → m x = 0).
  { intros x Hx. destruct (Hc x) as [E _]. rewrite E in Hx.
    destruct (decide (0 < cover x (vp_free_list p))); [by apply (po_clean _ _ _ I)|].
    apply Hz, in_range_spec. pose proof (in_range_nonneg x (b, n)). unfold in_range in *. simpl in *. case_match; lia. }
  destruct (place_range (b', n') free') as [free''|] eqn:Ep.
  - split; [|done]. pose proof (fun x => place_range_spec _ _ _ x Ep (range_wf_nonneg _ _ _ Hf)) as Hp.
    destruct I. split; simpl in *; try done.
    + by eapply place_range_Forall.
    + intros x. specialize (Hcov x). rewrite Hp. destruct (Hc x) as [E _]. lia.
    + intros x. rewrite Hp. apply Hclean.
  - split; [|done]. destruct I. split; simpl in *; try done.
    + intros x. specialize (Hcov x). destruct (Hc x) as [E _]. pose proof (in_range_nonneg x (b', n')). lia.
    + intros x Hx. apply Hclean. pose proof (in_range_nonneg x (b', n')). lia.
Qed.

Lemma set_dirty_ok m p out i b n b' n' :
  pool_ok m p out → vp_dirty_list p !! i = Some (b, n) → (∀ x, in_range x (b', n') ≤ in_range x (b, n)) →
  range_wf (vp_base p) (vp_next p) (b', n') → pool_ok m (set_dirty p (<[i := (b', n')]> (vp_dirty_list p))) out.
Proof.
  intros [] Hi Hle Hr. split; simpl; try done.
  - by apply Forall_insert.
  - intros x. specialize (po_cover0 x). rewrite (cover_insert _ _ _ _ _ Hi). specialize (Hle x). lia.
Qed.

Lemma idle_zero_ok m p out budget :
  pool_ok m (VmoPool_ensure_initialized p) out → 0 < budget → budget mod PAGE_SIZE = 0 →
  let '(_, m1, p1) := VmoPool_idle_zero_step m p budget in
  pool_ok m1 p1 out ∧ preserves_out out m m1 ∧ pool_span p1 = pool_span (VmoPool_ensure_initialized p).
Proof.
  intros I Hb Hbm. unfold VmoPool_idle_zero_step. set (p0 := VmoPool_ensure_initialized p) in *.
  destruct (list_find (fun e => e.2 ≠ 0) (vp_dirty_list p0)) as [[i [b n]]|] eqn:Ef.
  - apply list_find_Some in Ef as (Hi & Hn & _). simpl in Hn.
    pose proof (Forall_lookup_1 _ _ _ _ (po_dirty _ _ _ I) Hi) as (Hbp & Hnp & Hn0 & Hr). simpl in *.
    assert (Hpre : ∀ k, k ≤ n → preserves_out out m (zero_range m b k)).
    { intros k Hk. apply zero_preserves. intros x Hx.
      pose proof (cover_elem x _ _ (list_elem_of_lookup_2 _ _ _ Hi)) as He.
      replace (in_range x (b, n)) with 1 in He by (symmetry; apply in_range_spec; lia).
      pose proof (pool_ok_once _ _ _ x I) as [Ho _]. pose proof (cover_nonneg x out).
      pose proof (cover_nonneg x (vp_free_list p0)). lia. }
    assert (Hin0 : ∀ x, in_range x (0, 0) ≤ in_range x (b, n)).
    { intros x. rewrite in_range_zero. apply in_range_nonneg. }
    destruct (Z.eqb_spec (Z.min n budget) n) as [->|Hmin].
    + assert (I1 : pool_ok (zero_range m b n) (set_dirty p0 (<[i:=(0, 0)]> (vp_dirty_list p0))) out).
      { apply pool_ok_zero. eapply set_dirty_ok; try done. split_and!; try done. by left. }
      destruct (promote_ok _ _ _ b n I1) as [I2 Hs]; try done.
      * lia.
      * intros x. apply zero_range_in.
      * intros x. simpl. rewrite (cover_insert _ _ _ _ _ Hi), in_range_zero. pose proof (po_cover _ _ _ I x). lia.
      * split_and!; [done|apply Hpre; lia|done].
    + assert (Hm : Z.min n budget = budget) by lia. rewrite Hm in *.
      split_and!; [|apply Hpre; lia|done]. apply pool_ok_zero. eapply set_dirty_ok; try done.
      * intros x. rewrite (in_range_split x b n budget) by lia. pose proof (in_range_nonneg x (b, budget)). lia.
      * split_and!; simpl; [by apply page_add|by apply page_sub|lia|right; lia].
  - set (p1 := if vp_zeroed_until p0 <? vp_next p0 then _ else _).
    assert (H1 : pool_ok m p1 out ∧ vp_next p1 = vp_next p0 ∧ vp_limit p1 = vp_limit p0 ∧ vp_base p1 = vp_base p0 ∧
                 vp_next p0 ≤ vp_zeroed_until p1).
    { subst p1. destruct (Z.ltb_spec (vp_zeroed_until p0) (vp_next p0)); [|done].
      split_and!; try done. apply pool_ok_zeroed; [done|]. intros. lia. }
    destruct H1 as (I1 & Hnx & Hlim & Hbase & Hz). unfold pool_span.
    set (e := Z.min _ (saturating_add 64 (vp_zeroed_until p1) budget)).
    destruct (Z.leb_spec e (vp_zeroed_until p1)); [split_and!; [done|by intros x _|by rewrite Hlim, Hbase]|].
    split_and!; [|apply zero_preserves|simpl; by rewrite Hlim, Hbase].
    + apply pool_ok_zeroed; [by apply pool_ok_zero|]. intros x Hx.
      destruct (decide (vp_zeroed_until p1 ≤ x)); [apply zero_range_in; lia|].
      apply zero_range_keeps, (po_frontier _ _ _ I1). lia.
    + intros x Hx. apply (pool_ok_once _ _ _ x I1). lia.
Qed.

(** ** Release *)

Lemma disjoint_entry m p out b n r :
  pool_ok m p ((b, n) :: out) → r ∈ out ++ vp_free_list p ++ vp_dirty_list p → 0 < r.2 → r.1 + r.2 ≤ b ∨ b + n ≤ r.1.
Proof.
  intros I Hr Hpos. pose proof (po_out _ _ _ I) as [[_ Hn] _]%Forall_cons. simpl in Hn.
  destruct (decide (r.1 + r.2 ≤ b)); [by left|]. destruct (decide (b + n ≤ r.1)); [by right|]. exfalso.
  set (x := Z.max b r.1). pose proof (pool_ok_once _ _ _ x I) as [Ho _]. rewrite cover_cons in Ho.
  pose proof (cover_elem x _ _ Hr) as He. rewrite !cover_app in He.
  replace (in_range x r) with 1 in He by (destruct r; symmetry; apply in_range_spec; simpl in *; lia).
  replace (in_range x (b, n)) with 1 in Ho by (symmetry; apply in_range_spec; lia). lia.
Qed.

Lemma range_wf_below lo hi b n r :
  range_wf lo hi r → b + n = hi → 0 < n → lo ≤ b → (0 < r.2 → r.1 + r.2 ≤ b ∨ b + n ≤ r.1) → range_wf lo b r.
Proof. intros (? & ? & ? & ?) <- Hn Hb Hd. split_and!; try done. destruct (decide (r.2 = 0)); [by left|right]. lia. Qed.

(** Moving an owned range to another list of ranges. *)
Lemma pool_ok_uncover m p out b n : pool_ok m p ((b, n) :: out) → pool_ok m p out.
Proof.
  intros []. apply Forall_cons in po_out0 as [_ ?]. split; try done.
  intros x. specialize (po_cover0 x). rewrite cover_cons in po_cover0. pose proof (in_range_nonneg x (b, n)). lia.
Qed.

Lemma rewind_ok m p out b n :
  pool_ok m p ((b, n) :: out) → b + n = vp_next p →
  pool_ok m (mkVmoPool (vp_base p) b (vp_limit p) (vp_peak_next p) (vp_free_list p) (vp_dirty_list p) (vp_leaked p)
               (Z.min (vp_zeroed_until p) b)) out.
Proof.
  intros I Hnext. pose proof (fun r => disjoint_entry _ _ _ _ _ r I) as Hd.
  destruct I. apply Forall_cons in po_out0 as [[(Hb & Hn & _ & Hr) Hpos] Hout]. simpl in *.
  assert (HF : ∀ l, l ⊆ out ++ vp_free_list p ++ vp_dirty_list p → Forall (range_wf (vp_base p) (vp_next p)) l →
                    Forall (range_wf (vp_base p) b) l).
  { intros l Hl Hf. apply Forall_forall. intros r Hi. rewrite Forall_forall in Hf.
    eapply range_wf_below; [by apply Hf|done..|lia|]. apply Hd, Hl, Hi. }
  split; simpl; try done; try lia.
  - apply HF; [set_solver|done].
  - apply HF; [set_solver|done].
  - apply Forall_forall. intros r Hi. rewrite Forall_forall in Hout. destruct (Hout r Hi) as [Hw ?]. split; [|done].
    eapply range_wf_below; [done..|lia|]. apply Hd. set_solver.
  - intros x. specialize (po_cover0 x). rewrite cover_cons in po_cover0.
    rewrite (in_range_split x (vp_base p) (vp_next p - vp_base p) (b - vp_base p)) in po_cover0 by lia.
    replace (vp_base p + (b - vp_base p)) with b in po_cover0 by lia.
    replace (vp_next p - vp_base p - (b - vp_base p)) with n in po_cover0 by lia. lia.
Qed.

Lemma no_overlap m p out b n :
  pool_ok m p ((b, n) :: out) → existsb (overlaps_entry b (b + n)) (vp_free_list p ++ vp_dirty_list p) = false.
Proof.
  intros I. apply not_true_is_false. intros (r & Hin & Ho)%existsb_exists. unfold overlaps_entry in Ho. simpl_bool.
  apply list_elem_of_In in Hin. pose proof I as [].
  assert (Hnn : 0 ≤ r.2).
  { pose proof (range_wf_nonneg _ _ _ po_free0) as Hf. pose proof (range_wf_nonneg _ _ _ po_dirty0) as Hg.
    rewrite Forall_forall in Hf, Hg. apply elem_of_app in Hin as [?|?]; auto. }
  destruct (disjoint_entry _ _ _ _ _ r I) as [?|?]; [set_solver|lia..].
Qed.

Lemma free_owned m p out b n :
  pool_ok m (VmoPool_ensure_initialized p) ((b, n) :: out) →
  ∃ m1 p1, VmoPool_free m p b n = (Ok tt, m1, p1) ∧ pool_ok m1 p1 out ∧ preserves_out out m m1 ∧
           pool_span p1 = pool_span (VmoPool_ensure_initialized p).
Proof.
  intros I. unfold VmoPool_free. set (p0 := VmoPool_ensure_initialized p) in *.
  pose proof (no_overlap _ _ _ _ _ I) as Hno. pose proof (pool_ok_uncover _ _ _ _ _ I) as I'.
  pose proof (po_base _ _ _ I). pose proof (po_limit _ _ _ I).
  pose proof (po_out _ _ _ I) as [[Hwf Hpos] _]%Forall_cons. pose proof Hwf as (Hb & Hn & _ & Hr). simpl in *.
  assert (HP : PAGE_SIZE ≤ b).
  { pose proof (Z.div_mod b PAGE_SIZE ltac:(done)). unfold PAGE_SIZE in *. nia. }
  rewrite align_len_aligned by (done || lia).
  replace (Z.land b (PAGE_SIZE - 1)) with 0 by (symmetry; etransitivity; [apply (Z.land_ones b 12); lia|exact Hb]).
  destruct (Z.eqb_spec n 0); [lia|]. simpl. unfold checked_add.
  destruct (Z.ltb_spec (b + n) (2 ^ 64)); [|lia].
  destruct (Z.ltb_spec b (vp_base p0)); [lia|]. destruct (Z.ltb_spec (vp_next p0) (b + n)); [lia|]. simpl.
  rewrite Hno. destruct (Z.eqb_spec (b + n) (vp_next p0)) as [Hnext|].
  - eexists _, _. split_and!; [done|by eapply rewind_ok|by intros x _|done].
  - assert (Hcov : ∀ x, cover x out + cover x (vp_free_list p0) + cover x (vp_dirty_list p0) + in_range x (b, n) ≤
                        in_range x (vp_base p0, vp_next p0 - vp_base p0)).
    { intros x. pose proof (po_cover _ _ _ I x) as Hc. rewrite cover_cons in Hc. lia. }
    assert (Hkeep : preserves_out out m (zero_range m b n)).
    { apply zero_preserves. intros x Hx. pose proof (pool_ok_once _ _ _ x I) as [Ho _]. rewrite cover_cons in Ho.
      replace (in_range x (b, n)) with 1 in Ho by (symmetry; by apply in_range_spec).
      pose proof (cover_nonneg x out). pose proof (cover_nonneg x (vp_free_list p0)).
      pose proof (cover_nonneg x (vp_dirty_list p0)). lia. }
    destruct (place_range (b, n) (vp_dirty_list p0)) as [d|] eqn:Ed.
    + eexists _, _. split_and!; [done| |by intros x _|done].
      pose proof (fun x => place_range_spec _ _ _ x Ed (range_wf_nonneg _ _ _ (po_dirty _ _ _ I))) as Hp.
      destruct I'. split; simpl; try done; [by eapply place_range_Forall|].
      intros x. rewrite Hp. specialize (Hcov x). lia.
    + destruct (place_range (b, n) (vp_free_list p0)) as [f|] eqn:Ef.
      * eexists _, _. split_and!; [done| |done|done].
        pose proof (fun x => place_range_spec _ _ _ x Ef (range_wf_nonneg _ _ _ (po_free _ _ _ I))) as Hp.
        apply (pool_ok_zero _ _ _ b n) in I' as []. split; simpl; try done; [by eapply place_range_Forall|..].
        -- intros x. rewrite Hp. specialize (Hcov x). lia.
        -- intros x. rewrite Hp. intros Hx. destruct (decide (b ≤ x < b + n)); [by apply zero_range_in|].
           apply po_clean0. unfold in_range in Hx. simpl in Hx. case_match; simpl_bool; lia.
      * eexists _, _. split_and!; [done| |done|done]. apply (pool_ok_zero _ _ _ b n) in I' as []. by split.
Qed.

(** ** Every history keeps the arena sound *)

Lemma elem_of_out (r : Z * Z * range_status) (out : list (Z * Z * range_status)) : r ∈ out → r.1 ∈ out.*1.
Proof. apply (list_elem_of_fmap_2 fst). Qed.

Lemma reserved_clean_preserves m m' out :
  preserves_out out.*1 m m' → Forall (reserved_clean m) out → Forall (reserved_clean m') out.
Proof.
  intros Hp Hf. apply Forall_forall. intros [[b n] s] Hr Hs x Hx. simpl in *. rewrite Hp.
  - rewrite Forall_forall in Hf. by apply (Hf _ Hr).
  - pose proof (cover_elem x _ _ (elem_of_out _ _ Hr)) as He. simpl in He.
    apply in_range_spec in Hx. lia.
Qed.

Lemma cover_split (out : list (Z * Z * range_status)) i r x :
  out !! i = Some r → cover x out.*1 = in_range x r.1 + cover x (delete i out).*1.
Proof. intros Hi. rewrite (cover_perm x out.*1 (r :: delete i out).*1); [done|]. by rewrite <- delete_Permutation. Qed.

(** An owner changes memory only inside its own range. *)
Lemma own_range_write m m' p out i b n s :
  pool_ok m p out.*1 → Forall (reserved_clean m) out → out !! i = Some (b, n, s) →
  (∀ x, ¬ (b ≤ x < b + n) → m' x = m x) →
  pool_ok m' p (<[i := (b, n, Owned)]> out).*1 ∧ Forall (reserved_clean m') (<[i := (b, n, Owned)]> out).
Proof.
  intros I Hf Hi Hm.
  assert (Hin : ∀ x, b ≤ x < b + n → cover x (delete i out).*1 = 0 ∧ cover x (vp_free_list p) = 0 ∧ x < vp_next p).
  { intros x Hx. destruct (pool_ok_once _ _ _ x I) as [Ho Hout]. rewrite (cover_split _ _ _ _ Hi) in Ho, Hout. simpl in *.
    apply in_range_spec in Hx. rewrite Hx in Ho, Hout. pose proof (cover_nonneg x (delete i out).*1).
    pose proof (cover_nonneg x (vp_free_list p)). pose proof (cover_nonneg x (vp_dirty_list p)).
    split_and!; try lia. }
  split.
  - rewrite list_fmap_insert. simpl. rewrite list_insert_id by (by rewrite list_lookup_fmap, Hi).
    eapply pool_ok_mem; [done|]. intros x Hx H0. destruct (decide (b ≤ x < b + n)) as [Hr|Hr]; [|by rewrite Hm].
    specialize (Hin x Hr). lia.
  - apply Forall_lookup. intros j r Hj. destruct (decide (i = j)) as [<-|Hne].
    + rewrite list_lookup_insert_eq in Hj by (by eapply lookup_lt_Some). by injection Hj as <-.
    + rewrite list_lookup_insert_ne in Hj by done. intros Hs x Hx. rewrite Hm; [by eapply (Forall_lookup_1 _ _ _ _ Hf Hj)|].
      intros Hr. destruct (Hin x Hr) as [Hc _].
      assert (Hel : r ∈ delete i out).
      { destruct (decide (j < i)%nat).
        - apply (list_elem_of_lookup_2 _ j). by rewrite list_lookup_delete_lt.
        - apply (list_elem_of_lookup_2 _ (j - 1)). rewrite list_lookup_delete_ge by lia. by replace (S (j - 1)) with j by lia. }
      pose proof (cover_elem x _ _ (elem_of_out _ _ Hel)) as He. destruct r as [[b' n'] s']. simpl in *.
      apply in_range_spec in Hx. lia.
Qed.

Definition op_width (op : arena_op) : Prop := match op with VAllocate len | VReserve len => in_width 64 len | _ => True end.

Lemma Arena_init_ok m : arena_ok (Arena_init m).
Proof.
  set (p0 := VmoPool_ensure_initialized VmoPool_new).
  assert (Hz : ∀ x k, cover x (replicate k (0, 0)) = 0).
  { intros x k. induction k; [done|]. simpl. rewrite cover_cons, in_range_zero. lia. }
  unfold arena_ok. simpl. fold p0. split_and!; [split| |]; try done.
  all: try (by apply Forall_replicate; split_and!; try done; left).
  - intros x. pose proof (Hz x VMO_FREE_SLOTS) as H16.
    change (cover x [] + cover x (replicate VMO_FREE_SLOTS (0, 0)) + cover x (replicate VMO_FREE_SLOTS (0, 0)) ≤
            in_range x (vp_base p0, vp_next p0 - vp_base p0)).
    rewrite H16. apply in_range_nonneg.
  - intros x Hx. change (0 < cover x (replicate VMO_FREE_SLOTS (0, 0))) in Hx. rewrite Hz in Hx. lia.
  - intros x. change (vp_next p0) with (vp_zeroed_until p0). lia.
Qed.

Lemma alloc_refused m p len e m1 p1 :
  VmoPool_allocate m p len = (Err e, m1, p1) → m1 = m ∧ p1 = VmoPool_ensure_initialized p.
Proof. unfold VmoPool_allocate. destruct (reserve _ _) as [[[[? ?] []] ?]|]; intros; by simplify_eq. Qed.

Lemma reserve_refused p len e p1 :
  VmoPool_allocate_nozero p len = (Err e, p1) → p1 = VmoPool_ensure_initialized p.
Proof. unfold VmoPool_allocate_nozero. destruct (reserve _ _) as [[[[? ?] []] ?]|]; intros; by simplify_eq. Qed.

Lemma arena_step_ok a op : arena_ok a → op_width op → arena_ok (arena_step a op).
Proof.
  destruct a as [m p out]. intros (I & Hf & Hs) Hw. pose proof (initialized_id _ _ _ I) as Hid. simpl in *.
  destruct op as [len|len|i|i| |i off v]; simpl in *.
  - destruct (VmoPool_allocate m p len) as [[[[b n]|e] m1] p1] eqn:E.
    + destruct (allocate_ok _ _ _ _ _ _ _ _ I Hw E) as (I1 & (_ & Hsp & Hd) & _ & Hm).
      unfold arena_ok. simpl. rewrite (initialized_id _ _ _ I1). split_and!; [done| |by rewrite Hsp].
      constructor; [done|]. eapply reserved_clean_preserves; [|done]. intros x Hx. apply Hm. intros Hr.
      rewrite (Hd x Hr) in Hx. lia.
    + apply alloc_refused in E as [-> ->]. unfold arena_ok. simpl. by rewrite Hid.
  - destruct (VmoPool_allocate_nozero p len) as [[[[b n] nz]|e] p1] eqn:E.
    + destruct (allocate_nozero_ok _ _ _ _ _ _ _ _ I Hw E) as (I1 & (_ & Hsp & Hd) & Hz).
      unfold arena_ok. simpl. rewrite (initialized_id _ _ _ I1). split_and!; [done| |by rewrite Hsp].
      constructor; [|done]. intros [= ->]. by apply Hz.
    + apply reserve_refused in E as ->. unfold arena_ok. simpl. by rewrite Hid.
  - destruct (out !! i) as [[[b n] [nz|]]|] eqn:Ei; [|done|done].
    destruct (own_range_write m (if nz then zero_range m b n else m) _ out i b n _ I Hf Ei); [|done].
    intros x Hx. destruct nz; [by apply zero_range_out|done].
  - destruct (out !! i) as [[[b n] [nz|]]|] eqn:Ei; [done| |done].
    apply (pool_ok_perm _ _ _ ((b, n) :: (delete i out).*1)) in I; [|by rewrite (delete_Permutation out i _ Ei) at 1].
    destruct (free_owned _ _ _ _ _ I) as (m1 & p1 & -> & I1 & Hp & Hsp).
    unfold arena_ok. simpl. rewrite (initialized_id _ _ _ I1). split_and!; [done| |by rewrite Hsp].
    eapply reserved_clean_preserves; [done|]. by apply Forall_delete.
  - unfold vmo_idle_zero_step. pose proof (idle_zero_ok m p _ (64 * 1024) I ltac:(lia) eq_refl) as Hidle.
    destruct (VmoPool_idle_zero_step m p (64 * 1024)) as [[k m1] p1]. destruct Hidle as (I1 & Hp & Hsp).
    unfold arena_ok. simpl. rewrite (initialized_id _ _ _ I1). split_and!; [done| |by rewrite Hsp].
    by eapply reserved_clean_preserves.
  - destruct (out !! i) as [[[b n] [nz|]]|] eqn:Ei; [done| |done].
    destruct ((0 <=? off) && (off <? n))%bool eqn:Eo; [|done]. simpl_bool.
    destruct (own_range_write m (write_byte m (b + off) v) _ out i b n _ I Hf Ei) as [I1 Hf1].
    { intros x Hx. unfold write_byte. destruct (Z.eqb_spec x (b + off)); [lia|done]. }
    rewrite list_insert_id in I1, Hf1 by done. done.
Qed.

Lemma arena_run_ok m ops : Forall op_width ops → arena_ok (arena_run m ops).
Proof.
  intros Hw. unfold arena_run. induction ops as [|op ops IH] using rev_ind; [apply Arena_init_ok|].
  apply Forall_app in Hw as [Hw [Hop _]%Forall_cons]. rewrite foldl_app. simpl. by apply arena_step_ok, Hop; apply IH.
Qed.

Definition overlap (r1 r2 : Z * Z) : Prop := ∃ x, (r1.1 ≤ x < r1.1 + r1.2) ∧ (r2.1 ≤ x < r2.1 + r2.2).

Lemma cover_zero_disjoint out b n r :
  (∀ x, b ≤ x < b + n → cover x out = 0) → r ∈ out → ¬ overlap (b, n) r.
Proof.
  intros Hd Hr (x & Hx & Hy). simpl in *. pose proof (cover_elem x _ _ Hr) as He. destruct r as [b' n'].
  rewrite (Hd x Hx), (proj2 (in_range_spec x b' n') Hy) in He. lia.
Qed.

Definition in_arena (b n : Z) : Prop :=
  b mod PAGE_SIZE = 0 ∧ n mod PAGE_SIZE = 0 ∧ 0 < n ∧ USER_VMO_ARENA_BASE ≤ b ∧
  b + n ≤ USER_VMO_ARENA_BASE + USER_VMO_ARENA_LEN.

Lemma out_in_arena m p out b n :
  pool_ok m p ((b, n) :: out) → pool_span p = (USER_VMO_ARENA_BASE, USER_VMO_ARENA_BASE + USER_VMO_ARENA_LEN) →
  in_arena b n.
Proof.
  intros I [= Hb Hl]. pose proof (po_out _ _ _ I) as [[(? & ? & ? & ?) ?] _]%Forall_cons. cbn [fst snd] in *.
  pose proof (po_limit _ _ _ I). unfold in_arena. split_and!; try done; lia.
Qed.

(** C5: in every history of allocations (direct, and the phased path that
    zeroes outside the pool's lock), writes by owners, releases and idle
    zeroing, starting from arbitrary memory: an allocation hands over a
    page-aligned range of at least the requested size, inside the arena,
    disjoint from every range still out, all of whose bytes are zero, and
    changes no byte of a range still out; a phased allocation is disjoint too
    and reads zero once its zero pass (skipped when the pool says so) is over;
    idle zeroing changes no byte of a range that is out; and releasing an owned
    range always succeeds. *)
Theorem vmo_arena_safe m ops a (Hw : Forall op_width ops) (Ha : a = arena_run m ops) :
  (∀ len b n m1 p1, in_width 64 len → VmoPool_allocate (ar_mem a) (ar_pool a) len = (Ok (b, n), m1, p1) →
     len ≤ n ∧ in_arena b n ∧ handed_over m1 b n ∧
     (∀ r, r ∈ (ar_out a).*1 → ¬ overlap (b, n) r) ∧ (∀ x, ¬ (b ≤ x < b + n) → m1 x = ar_mem a x)) ∧
  (∀ len b n nz p1, in_width 64 len → VmoPool_allocate_nozero (ar_pool a) len = (Ok (b, n, nz), p1) →
     len ≤ n ∧ in_arena b n ∧ (∀ r, r ∈ (ar_out a).*1 → ¬ overlap (b, n) r)) ∧
  (∀ i b n nz, ar_out a !! i = Some (b, n, Reserved nz) → handed_over (ar_mem (arena_step a (VFinish i))) b n) ∧
  (∀ r x, r ∈ (ar_out a).*1 → r.1 ≤ x < r.1 + r.2 → ar_mem (arena_step a VIdle) x = ar_mem a x) ∧
  (∀ i b n, ar_out a !! i = Some (b, n, Owned) →
     ∃ m1 p1, VmoPool_free (ar_mem a) (ar_pool a) b n = (Ok tt, m1, p1)).
Proof.
  pose proof (arena_run_ok m ops Hw) as Hok. rewrite <- Ha in Hok. clear Ha. destruct a as [m0 p out].
  destruct Hok as (I & Hf & Hs). simpl in *. split_and!.
  - intros len b n m1 p1 Hl E. destruct (allocate_ok _ _ _ _ _ _ _ _ I Hl E) as (I1 & (Hn & Hsp & Hd) & Hz & Hm).
    split_and!; try done; [eapply out_in_arena; [done|by rewrite Hsp]|]. intros r. by apply cover_zero_disjoint.
  - intros len b n nz p1 Hl E. destruct (allocate_nozero_ok _ _ _ _ _ _ _ _ I Hl E) as (I1 & (Hn & Hsp & Hd) & Hz).
    split_and!; try done; [eapply out_in_arena; [done|by rewrite Hsp]|]. intros r. by apply cover_zero_disjoint.
  - intros i b n nz Hi. rewrite Hi. simpl. intros x Hx. destruct nz; [by apply zero_range_in|].
    by apply (Forall_lookup_1 _ _ _ _ Hf Hi).
  - intros r x Hr Hx. unfold vmo_idle_zero_step.
    pose proof (idle_zero_ok m0 p _ (64 * 1024) I ltac:(lia) eq_refl) as Hidle.
    destruct (VmoPool_idle_zero_step m0 p (64 * 1024)) as [[k m1] p1]. destruct Hidle as (_ & Hp & _). apply Hp.
    pose proof (cover_elem x _ _ Hr) as He. destruct r as [b n]. rewrite (proj2 (in_range_spec x b n) Hx) in He. lia.
  - intros i b n Hi.
    apply (pool_ok_perm _ _ _ ((b, n) :: (delete i out).*1)) in I; [|by rewrite (delete_Permutation out i _ Hi) at 1].
    destruct (free_owned _ _ _ _ _ I) as (m1 & p1 & ? & _). eauto.
Qed.

(** A dirty range is zeroed by the idle hart and reused. *)
Lemma vmo_arena_safe_witness :
  let ops := [VAllocate 5000; VAllocate 100; VWrite 1 7 255; VReserve 4096; VFree 2; VIdle] in
  let a := arena_run (fun _ => 90) ops in
  ar_mem a (USER_VMO_ARENA_BASE + 7) = 0 ∧
  (∃ m1 p1, VmoPool_allocate (ar_mem a) (ar_pool a) 8000 = (Ok (USER_VMO_ARENA_BASE, 8192), m1, p1) ∧
            handed_over m1 USER_VMO_ARENA_BASE 8192).
Proof.
  intros ops a.
  assert (Hw : Forall op_width ops) by (repeat constructor; vm_compute; (done || (split; congruence))).
  destruct (vmo_arena_safe (fun _ => 90) ops a Hw eq_refl) as (Halloc & _).
  split; [vm_compute; reflexivity|].
  destruct (VmoPool_allocate (ar_mem a) (ar_pool a) 8000) as [[r m1] p1] eqn:E.
  assert (Hr : r = Ok (USER_VMO_ARENA_BASE, 8192)).
  { change r with (r, m1, p1).1.1. rewrite <- E. vm_compute. reflexivity. }
  subst r. exists m1, p1. split; [reflexivity|]. apply (Halloc 8000 _ _ m1 p1); [vm_compute; split; congruence|exact E].
Defined.
