(* ===== verification/Kernel.v ===== *)
(** * The state a system call works on
      ([syscall/mod.rs], [syscall/api/mod.rs], [core/trap/runtime.rs], [core/irq.rs] under [source/kernel/neuron/src])

    [Kernel] gathers what [Context] and the statics reach: tasks, scheduler,
    SMP state and address spaces ([World]), the IPC router, timers, waitsets and
    fences, the VMO arena with the physical memory behind it, the IRQ bindings
    and the armed wake-up deadlines.

    Handlers are written in a small state-and-error monad [Sys]: [Err] keeps the
    state reached so far, as the early returns of the source do, and [None]
    means that the kernel itself stops (a panic, an unhandled page fault, or no
    page left for a page table).

    [Machine] holds what the hardware decides: the hart that executes, the
    outcome of every inter-processor interrupt, every reading of the clock, the
    page allocator, the linker's layout of the kernel image and the boot flags
    read from the firmware configuration.  Clock readings
    and interrupts are numbered by [k_events]. *)

From S2P Require Import Prelude Cap Ipc Sched Timer Sync PageTable AddressSpace Smp Task VmoPool.

(** ** Errors and state *)

Inductive SysError :=
| SeInvalidSyscall
| SeCapability (e : CapError)
| SeIpc (e : IpcError)
| SeSpawn (e : SpawnError)
| SeTransfer (e : TransferError)
| SeAddressSpace (e : AddressSpaceError)
| SeWait (e : WaitError)
| SeTaskExit
| SeReschedule
| SeInvalidTarget
| SeRunQueueFull.

Record Machine := mkMachine {
  mc_hart : nat;
  mc_ipi : nat → bool;
  mc_clock : nat → Z;
  mc_alloc : PtMem → option Z;
  mc_layout : KernelLayout;
  mc_fold_verdicts : bool;
  mc_display_mode : Z
}.

Record Kernel := mkKernel {
  k_world : World;
  k_router : Router;
  k_timers : HartTimers;
  k_waitsets : WaitsetTable;
  k_fences : FenceTable;
  k_pool : VmoPool;
  k_phys : Bytes;
  k_irq : list Z;
  k_armed : list Z;
  k_satp : list Z;
  k_last_message : option Message;
  k_events : nat
}.

Definition k_set_world (w : World) (k : Kernel) : Kernel :=
  mkKernel w (k_router k) (k_timers k) (k_waitsets k) (k_fences k) (k_pool k) (k_phys k) (k_irq k) (k_armed k) (k_satp k)
    (k_last_message k) (k_events k).
Definition k_set_router (r : Router) (k : Kernel) : Kernel :=
  mkKernel (k_world k) r (k_timers k) (k_waitsets k) (k_fences k) (k_pool k) (k_phys k) (k_irq k) (k_armed k) (k_satp k)
    (k_last_message k) (k_events k).
Definition k_set_timers (h : HartTimers) (k : Kernel) : Kernel :=
  mkKernel (k_world k) (k_router k) h (k_waitsets k) (k_fences k) (k_pool k) (k_phys k) (k_irq k) (k_armed k) (k_satp k)
    (k_last_message k) (k_events k).
Definition k_set_waitsets (t : WaitsetTable) (k : Kernel) : Kernel :=
  mkKernel (k_world k) (k_router k) (k_timers k) t (k_fences k) (k_pool k) (k_phys k) (k_irq k) (k_armed k) (k_satp k)
    (k_last_message k) (k_events k).
Definition k_set_fences (t : FenceTable) (k : Kernel) : Kernel :=
  mkKernel (k_world k) (k_router k) (k_timers k) (k_waitsets k) t (k_pool k) (k_phys k) (k_irq k) (k_armed k) (k_satp k)
    (k_last_message k) (k_events k).
Definition k_set_pool (p : VmoPool) (k : Kernel) : Kernel :=
  mkKernel (k_world k) (k_router k) (k_timers k) (k_waitsets k) (k_fences k) p (k_phys k) (k_irq k) (k_armed k) (k_satp k)
    (k_last_message k) (k_events k).
Definition k_set_phys (m : Bytes) (k : Kernel) : Kernel :=
  mkKernel (k_world k) (k_router k) (k_timers k) (k_waitsets k) (k_fences k) (k_pool k) m (k_irq k) (k_armed k) (k_satp k)
    (k_last_message k) (k_events k).
Definition k_set_irq (l : list Z) (k : Kernel) : Kernel :=
  mkKernel (k_world k) (k_router k) (k_timers k) (k_waitsets k) (k_fences k) (k_pool k) (k_phys k) l (k_armed k) (k_satp k)
    (k_last_message k) (k_events k).
Definition k_set_armed (l : list Z) (k : Kernel) : Kernel :=
  mkKernel (k_world k) (k_router k) (k_timers k) (k_waitsets k) (k_fences k) (k_pool k) (k_phys k) (k_irq k) l (k_satp k)
    (k_last_message k) (k_events k).
Definition k_set_satp (l : list Z) (k : Kernel) : Kernel :=
  mkKernel (k_world k) (k_router k) (k_timers k) (k_waitsets k) (k_fences k) (k_pool k) (k_phys k) (k_irq k) (k_armed k) l
    (k_last_message k) (k_events k).
Definition k_set_last_message (o : option Message) (k : Kernel) : Kernel :=
  mkKernel (k_world k) (k_router k) (k_timers k) (k_waitsets k) (k_fences k) (k_pool k) (k_phys k) (k_irq k) (k_armed k)
    (k_satp k) o (k_events k).
Definition k_tick (k : Kernel) : Kernel :=
  mkKernel (k_world k) (k_router k) (k_timers k) (k_waitsets k) (k_fences k) (k_pool k) (k_phys k) (k_irq k) (k_armed k)
    (k_satp k) (k_last_message k) (S (k_events k)).

Definition k_table (k : Kernel) : TaskTable := w_table (k_world k).
Definition k_set_table (t : TaskTable) (k : Kernel) : Kernel := k_set_world (w_set_table (k_world k) t) k.

(** ** The monad *)

Definition Sys (A : Type) : Type := Kernel → option (result A SysError * Kernel).

#[export] Instance Sys_ret : MRet Sys := fun A a k => Some (Ok a, k).
#[export] Instance Sys_bind : MBind Sys := fun A B f m k =>
  match m k with
  | None => None
  | Some (Err e, k1) => Some (Err e, k1)
  | Some (Ok a, k1) => f a k1
  end.

Definition fail {A} (e : SysError) : Sys A := fun k => Some (Err e, k).
Definition panic {A} : Sys A := fun _ => None.
Definition gets {A} (f : Kernel → A) : Sys A := fun k => Some (Ok (f k), k).
Definition modify (f : Kernel → Kernel) : Sys unit := fun k => Some (Ok tt, f k).
Definition state_op {A} (f : Kernel → A * Kernel) : Sys A := fun k => let '(a, k1) := f k in Some (Ok a, k1).

(** The [?] operator on a pure result and on an option. *)
Definition lift {A E} (inj : E → SysError) (r : result A E) : Sys A := fun k => Some (map_err inj r, k).
Definition require {A} (e : SysError) (o : option A) : Sys A := fun k => Some (ok_or o e, k).
Definition check (b : bool) (e : SysError) : Sys unit := fun k => Some (if b then Ok tt else Err e, k).

(** An operation of the router, with its error kept ([let _ = ...] and [match]). *)
Definition router_op {A} (f : Router → A * Router) : Sys A :=
  state_op (fun k => let '(a, r) := f (k_router k) in (a, k_set_router r k)).

Definition invalid_args : SysError := SeAddressSpace AsInvalidArgs.
Definition denied : SysError := SeCapability CapPermissionDenied.

(** ** Machine words *)

Definition Args := list Z.
Definition arg (args : Args) (i : nat) : Z := default 0 (args !! i).

Definition as_u16 (x : Z) : Z := x mod 2 ^ 16.
Definition as_u32 (x : Z) : Z := x mod 2 ^ 32.
Definition as_i32 (x : Z) : Z := let m := x mod 2 ^ 32 in if m <? 2 ^ 31 then m else m - 2 ^ 32.
(** An operand of type [usize]. *)
Definition as_usize (x : Z) : Z := x mod 2 ^ 64.
Definition USIZE_MAX : Z := max_of 64.

(** [read_u16_le], [read_u32_le], [read_u64_le]: [n] is 2, 4 or 8. *)
Definition read_le (n : nat) (bytes : list Z) (off : Z) : result Z SysError :=
  match checked_add 64 off (Z.of_nat n) with
  | None => Err invalid_args
  | Some end_ =>
      if vlen bytes <? end_ then Err invalid_args
      else Ok (le_value (slice (Z.to_nat off) (Z.to_nat end_) bytes))
  end.

(** [VirtAddr::new], [page_aligned] and [instr_aligned] (two bytes on RISC-V). *)
Definition VirtAddr_new (addr : Z) : option Z := if is_canonical_sv39 addr then Some addr else None.
Definition VirtAddr_page_aligned (addr : Z) : option Z :=
  VirtAddr_new addr ≫= fun va => if va mod PAGE_SIZE =? 0 then Some va else None.
Definition VirtAddr_instr_aligned (addr : Z) : option Z :=
  VirtAddr_new addr ≫= fun va => if va mod 2 =? 0 then Some va else None.

Definition PageLen_from_bytes_aligned (bytes : Z) : option Z :=
  if bytes =? 0 then None else if bytes mod PAGE_SIZE =? 0 then Some bytes else None.

(** [Rights::from_bits] and [PageFlags::from_bits] refuse unknown bits. *)
Definition Rights_from_bits (bits : Z) : option Rights := if Z.land bits 15 =? bits then Some (mkRights bits) else None.
Definition PageFlags_from_bits (bits : Z) : option Z := if Z.land bits 255 =? bits then Some bits else None.
Definition AsHandle_from_raw (raw : Z) : option Z := if raw =? 0 then None else Some raw.

Section with_machine.
Context (mc : Machine).

(** ** Tasks and the scheduler *)

Definition current_pid : Sys Z := gets (fun k => TaskTable_current_pid (mc_hart mc) (k_table k)).
Definition task_of (pid : Z) : Sys (option Task) := gets (fun k => TaskTable_task (k_table k) pid).

(** [current_task()] indexes the vector: it panics on an unknown PID. *)
Definition current_task : Sys Task := fun k =>
  match TaskTable_task (k_table k) (TaskTable_current_pid (mc_hart mc) (k_table k)) with
  | Some t => Some (Ok t, k)
  | None => None
  end.
Definition current_caps : Sys CapTable := t ← current_task; mret (tk_caps t).
Definition current_service_id : Sys Z := t ← current_task; mret (tk_service_id t).

Definition update_task (pid : Z) (f : Task → Task) : Sys unit :=
  modify (fun k => k_set_table (TaskTable_update f pid (k_table k)) k).
Definition set_current (pid : Z) : Sys unit :=
  modify (fun k => k_set_table (TaskTable_set_current (mc_hart mc) (k_table k) pid) k).

(** [current_caps_mut().op(...)], its result kept. *)
Definition caps_op {A} (f : CapTable → A * CapTable) : Sys A :=
  t ← current_caps;
  pid ← current_pid;
  let '(a, t1) := f t in
  _ ← update_task pid (Task_set_caps t1);
  mret a.

(** [current_caps_mut().op(...)?]. *)
Definition caps_try {A} (f : CapTable → result A CapError * CapTable) : Sys A :=
  r ← caps_op f;
  lift SeCapability r.

Definition derive (slot : nat) (rights : Rights) : Sys Capability :=
  t ← current_caps; lift SeCapability (CapTable_derive t slot rights).
Definition derive_endpoint (slot : nat) (rights : Rights) : Sys Z :=
  t ← current_caps;
  r ← lift SeCapability (CapTable_derive_endpoint_ref t slot rights);
  mret (ecr_endpoint r).

Definition env_of (k : Kernel) : Env := mkEnv (mc_hart mc) (mc_ipi mc (k_events k)).

(** An operation of the task table on the world. *)
Definition world_op {A} (f : Env → World → A * World) : Sys A :=
  state_op (fun k => let '(a, w) := f (env_of k) (k_world k) in (a, k_tick (k_set_world w k))).

(** [tasks.wake] with [observe_wake_outcome], which only logs. *)
Definition wake (pid : Z) : Sys unit := world_op (fun env w => (tt, (TaskTable_wake env w pid).2)).

Fixpoint wake_all (pids : list Z) : Sys unit :=
  match pids with
  | [] => mret tt
  | pid :: rest => _ ← wake pid; wake_all rest
  end.

Definition block_current (reason : BlockReason) : Sys unit :=
  world_op (fun env w => (tt, TaskTable_block_current env w reason)).

Definition schedule_next : Sys (option Z) :=
  state_op (fun k => let '(next, s) := Scheduler_schedule_next (mc_hart mc) (w_sched (k_world k)) in
                     (next, k_set_world (w_set_sched (k_world k) s) k)).

(** ** The clock *)

Definition now : Sys Z := fun k => Some (Ok (mc_clock mc (k_events k)), k_tick k).

(** [armed_slot()]; the compare register follows the shadow slot. *)
Definition arm_wakeup (deadline_ns : Z) : Sys unit :=
  if deadline_ns =? 0 then mret tt
  else
    let slot := current_cpu_index (mc_hart mc) in
    armed ← gets (fun k => default 0 (k_armed k !! slot));
    t ← now;
    if ((t <? armed) && (armed <=? deadline_ns))%bool then mret tt
    else modify (fun k => k_set_armed (<[slot := deadline_ns]> (k_armed k)) k).

(** [deadline_ns != 0 && timer.now() >= deadline_ns]: the clock is read only
    for a deadline. *)
Definition expired (deadline_ns : Z) : Sys bool :=
  if deadline_ns =? 0 then mret false else t ← now; mret (deadline_ns <=? t).

(** ** Expired blocking operations *)

Fixpoint remove_recv_all (endpoints : list Z) (pid : Z) : Sys unit :=
  match endpoints with
  | [] => mret tt
  | ep :: rest => _ ← router_op (fun r => Router_remove_recv_waiter r ep pid); remove_recv_all rest pid
  end.

Definition wake_expired_one (t : Z) (pid : Z) : Sys unit :=
  task ← task_of pid;
  match task with
  | None => mret tt
  | Some task =>
      if negb (tk_blocked task) then mret tt
      else
        let due deadline_ns := (negb (deadline_ns =? 0) && (deadline_ns <=? t))%bool in
        match tk_block_reason task with
        | Some (BrIpcRecv endpoint deadline_ns) =>
            if due deadline_ns
            then _ ← router_op (fun r => Router_remove_recv_waiter r endpoint pid); wake pid else mret tt
        | Some (BrIpcSend endpoint deadline_ns) =>
            if due deadline_ns
            then _ ← router_op (fun r => Router_remove_send_waiter r endpoint pid); wake pid else mret tt
        | Some (BrWaitset ws_id deadline_ns) =>
            if due deadline_ns
            then members ← gets (fun k => default [] (WaitsetTable_members (k_waitsets k) ws_id));
                 _ ← remove_recv_all members pid; wake pid
            else mret tt
        | Some (BrFence fence_id _ deadline_ns) =>
            if due deadline_ns
            then _ ← modify (fun k => k_set_fences (FenceTable_remove_waiter (k_fences k) fence_id pid) k); wake pid
            else mret tt
        | _ => mret tt
        end
  end.

Fixpoint wake_expired_loop (t : Z) (pids : list nat) : Sys unit :=
  match pids with
  | [] => mret tt
  | i :: rest => _ ← wake_expired_one t (pid_of_len i); wake_expired_loop t rest
  end.

Definition wake_expired_blocked : Sys unit :=
  t ← now;
  len ← gets (fun k => length (tt_tasks (k_table k)));
  wake_expired_loop t (seq 0 len).

(** The end of every blocking path: switch to the next task and retry the
    call, or undo the registration and wake the caller again. *)
Definition switch_or_wake {A} (cur : Z) (undo : Sys unit) : Sys A :=
  next ← schedule_next;
  match next with
  | Some pid => _ ← set_current pid; fail SeReschedule
  | None => _ ← undo; _ ← wake cur; fail SeReschedule
  end.

(** ** User memory *)

Definition USER_VADDR_LIMIT : Z := 0x80000000.

Definition ensure_user_slice (ptr len : Z) : result unit SysError :=
  if len =? 0 then Ok tt
  else if ptr =? 0 then Err invalid_args
  else if USER_VADDR_LIMIT <=? ptr then Err invalid_args
  else match checked_add 64 ptr (len - 1) with
       | None => Err invalid_args
       | Some last => if USER_VADDR_LIMIT <=? last then Err invalid_args else Ok tt
       end.

Definition user_slice (ptr len : Z) : Sys unit := fun k => Some (ensure_user_slice ptr len, k).

(** The physical address the MMU gives the kernel for [va] while the current
    task's page table is active ([sstatus.SUM] is set, so both user and
    supervisor pages are reachable). *)
Definition user_pa (k : Kernel) (write : bool) (va : Z) : option Z :=
  task ← TaskTable_task (k_table k) (TaskTable_current_pid (mc_hart mc) (k_table k));
  handle ← tk_address_space task;
  match AddressSpaceManager_get (w_spaces (k_world k)) handle with
  | Err _ => None
  | Ok space =>
      match pt_walk (w_mem (k_world k)) 0 (pt_root (as_page_table space)) (vpn_indices va) with
      | WLeaf level _ _ entry =>
          if has_bits entry (if write then PF_WRITE else PF_READ) then Some (leaf_translate level entry va) else None
      | _ => None
      end
  end.

(** [copy_nonoverlapping] from and to user memory; an unmapped page faults. *)
Fixpoint load_user (k : Kernel) (va : Z) (n : nat) : option (list Z) :=
  match n with
  | O => Some []
  | S n' => pa ← user_pa k false va; rest ← load_user k (va + 1) n'; Some (k_phys k pa :: rest)
  end.

Definition read_user (va n : Z) : Sys (list Z) := fun k =>
  match load_user k va (Z.to_nat n) with
  | Some bytes => Some (Ok bytes, k)
  | None => None
  end.

Fixpoint store_user (k : Kernel) (va : Z) (bytes : list Z) (m : Bytes) : option Bytes :=
  match bytes with
  | [] => Some m
  | b :: rest => pa ← user_pa k true va; store_user k (va + 1) rest (fun x => if x =? pa then b else m x)
  end.

Definition write_user (va : Z) (bytes : list Z) : Sys unit := fun k =>
  match store_user k va bytes (k_phys k) with
  | Some m => Some (Ok tt, k_set_phys m k)
  | None => None
  end.

(** [copy_nonoverlapping] from and to the arena's identity mapping. *)
Definition load_phys (m : Bytes) (base : Z) (n : nat) : list Z := map (fun i => m (base + Z.of_nat i)) (seq 0 n).
Definition store_phys (m : Bytes) (base : Z) (bytes : list Z) : Bytes := fun x =>
  if ((base <=? x) && (x <? base + vlen bytes))%bool then default 0 (bytes !! Z.to_nat (x - base)) else m x.

End with_machine.
