(* ===== verification/SysTask.v ===== *)
(** * Scheduling and life-cycle system calls
      ([source/kernel/neuron/src/syscall/api/sched_task.rs], [task_image.rs])

    QoS and scheduling attributes, yield, exit, wait, spawn and resume.
    Logging ([qos_audit], UART traces) and the budget reports of [sys_sched]
    operations 4 and 5 leave no trace in the state. *)

From S2P Require Import Prelude Cap Ipc Sched Timer Sync PageTable AddressSpace Smp Task VmoPool Kernel.

(** ** Decoders *)

Record SpawnArgsTyped := mkSpawnArgsTyped {
  sa_entry_pc : Z;
  sa_stack_sp : option Z;
  sa_as_handle : option Z;
  sa_bootstrap_slot : nat;
  sa_global_pointer : Z
}.

Definition SpawnArgs_decode (args : Args) : result SpawnArgsTyped SysError :=
  let? entry_pc := ok_or (VirtAddr_instr_aligned (arg args 0)) invalid_args in
  let? stack_sp := (if arg args 1 =? 0 then Ok None
                    else let? sp := ok_or (VirtAddr_new (arg args 1)) invalid_args in Ok (Some sp)) in
  Ok (mkSpawnArgsTyped entry_pc stack_sp (AsHandle_from_raw (as_u32 (arg args 2))) (Z.to_nat (arg args 3)) (arg args 4)).

Definition SpawnArgs_check (a : SpawnArgsTyped) : result unit SysError :=
  match sa_as_handle a, sa_stack_sp a with
  | Some _, None | None, Some _ => Err invalid_args
  | _, _ => Ok tt
  end.

Record TaskQosArgsTyped := mkTaskQosArgsTyped { qa_op : Z; qa_target : Z; qa_qos_raw : Z }.

Definition TaskQosArgs_decode (args : Args) : result TaskQosArgsTyped SysError :=
  if max_of 32 <? arg args 1 then Err invalid_args
  else if max_of 8 <? arg args 2 then Err invalid_args
  else Ok (mkTaskQosArgsTyped (arg args 0) (arg args 1) (arg args 2)).

Definition TASK_QOS_OP_GET_SELF : Z := 0.
Definition TASK_QOS_OP_SET : Z := 1.

(** ** Service identities: FNV-1a, 64 bits *)

Definition service_id_from_name (name : list Z) : Z :=
  fold_left (fun h b => Z.lxor h b * 0x100000001b3 mod 2 ^ 64) name 0xcbf29ce484222325.

(** ["execd"], ["policyd"], ["init-lite"], ["nexus-init"], ["dsoftbusd"] and ["touchd"] in ASCII. *)
Definition NAME_execd : list Z := [101; 120; 101; 99; 100].
Definition NAME_policyd : list Z := [112; 111; 108; 105; 99; 121; 100].
Definition NAME_init_lite : list Z := [105; 110; 105; 116; 45; 108; 105; 116; 101].
Definition NAME_nexus_init : list Z := [110; 101; 120; 117; 115; 45; 105; 110; 105; 116].
Definition NAME_dsoftbusd : list Z := [100; 115; 111; 102; 116; 98; 117; 115; 100].
Definition NAME_touchd : list Z := [116; 111; 117; 99; 104; 100].

Definition QOS_ADMINS : list (list Z) := [NAME_execd; NAME_policyd; NAME_init_lite; NAME_nexus_init].

Definition is_qos_admin (sid : Z) : bool := existsb (fun name => sid =? service_id_from_name name) QOS_ADMINS.

Definition initial_qos_for (service_id : Z) : QosClass :=
  if ((service_id =? service_id_from_name NAME_dsoftbusd) || (service_id =? service_id_from_name NAME_touchd))%bool
  then Idle else Normal.

Definition qos_raw (q : QosClass) : Z := Z.of_nat (qos_index q).

(** The status register [a1] the waiting parent sees. *)
Definition Task_set_a1 (v : Z) (t : Task) : Task :=
  mkTask (tk_pid t) (tk_parent t) (tk_state t) (tk_exit_code t)
    (mkTrapFrame (<[11%nat := v]> (tf_x (tk_frame t))) (tf_sepc (tk_frame t)) (tf_sstatus (tk_frame t))
       (tf_scause (tk_frame t)) (tf_stval (tk_frame t)))
    (tk_caps t) (tk_trap_domain t) (tk_qos t) (tk_blocked t) (tk_block_reason t) (tk_address_space t)
    (tk_user_guard_info t) (tk_service_id t) (tk_home_cpu t) (tk_affinity_mask t) (tk_shares t)
    (tk_last_spawn_fail_reason t) (tk_bootstrap_slot t) (tk_children t) (tk_image_allocs t).

(** ** Releasing a process image *)

(** The result of [release_image] is the number of bytes reclaimed. *)
Fixpoint release_ranges (ranges : list (Z * Z)) (bytes : Z) : Sys Z :=
  match ranges with
  | [] => mret bytes
  | (base, len) :: rest =>
      ok ← state_op (fun k => let '(r, m, p) := VmoPool_free (k_phys k) (k_pool k) (as_usize base) (as_usize len) in
                              (is_ok r, k_set_phys m (k_set_pool p k)));
      release_ranges rest (if (ok : bool) then saturating_add 64 bytes len else bytes)
  end.

Definition release_image (allocs : ImageAllocs) : Sys Z := release_ranges (ImageAllocs_iter allocs) 0.

Section with_machine.
Context (mc : Machine).

Definition caller_has_qos_admin : Sys bool := sid ← current_service_id mc; mret (is_qos_admin sid).

Definition exit_current_and_release (status : Z) : Sys unit :=
  allocs ← state_op (fun k => let '(allocs, t) := TaskTable_exit_current (mc_hart mc) (k_table k) status in
                              (allocs, k_set_table t k));
  _ ← release_image allocs;
  mret tt.

(** ** QoS and scheduling attributes *)

Definition set_task_qos (target : Z) (qos : QosClass) : Sys SetQosOutcome :=
  state_op (fun k => let '(r, s) := Scheduler_set_task_qos (w_sched (k_world k)) target qos in
                     (r, k_set_world (w_set_sched (k_world k) s) k)).

Definition sys_task_qos (args : Args) : Sys Z :=
  typed ← lift id (TaskQosArgs_decode args);
  if qa_op typed =? TASK_QOS_OP_GET_SELF then t ← current_task mc; mret (qos_raw (tk_qos t))
  else if qa_op typed =? TASK_QOS_OP_SET then
    qos ← require invalid_args (QosClass_from_u8 (qa_qos_raw typed));
    current ← current_pid mc;
    task ← task_of (qa_target typed);
    task ← require invalid_args task;
    privileged ← caller_has_qos_admin;
    _ ← check ((qa_target typed =? current) || privileged) denied;
    _ ← check ((qos_raw qos <=? qos_raw (tk_qos task)) || privileged) denied;
    outcome ← set_task_qos (qa_target typed) qos;
    match outcome with
    | QosQueueFull => fail (SeIpc QueueFull)
    | _ => _ ← update_task (qa_target typed) (Task_set_qos qos); mret 0
    end
  else fail invalid_args.

Definition SCHED_OP_GET_AFFINITY : Z := 0.
Definition SCHED_OP_SET_AFFINITY : Z := 1.
Definition SCHED_OP_GET_SHARES : Z := 2.
Definition SCHED_OP_SET_SHARES : Z := 3.

Definition sys_sched (args : Args) : Sys Z :=
  let op := arg args 0 in
  if ((op =? 5) || (op =? 4))%bool then mret 0
  else
    _ ← check (arg args 1 <=? max_of 32) invalid_args;
    current ← current_pid mc;
    let target := if arg args 1 =? 0 then current else arg args 1 in
    admin ← (if target =? current then mret true else caller_has_qos_admin);
    _ ← check admin denied;
    let value := arg args 2 in
    if op =? SCHED_OP_GET_AFFINITY then
      task ← task_of target; task ← require invalid_args task; mret (tk_affinity_mask task)
    else if op =? SCHED_OP_SET_AFFINITY then
      online ← gets (fun k => CPU_ONLINE_MASK (w_smp (k_world k)));
      mask ← lift (fun _ => invalid_args) (validate_affinity_mask value online);
      task ← task_of target;
      task ← require invalid_args task;
      _ ← update_task target (Task_set_affinity_mask mask);
      _ ← update_task target (Task_set_home_cpu (clamp_home_to_affinity mask (tk_home_cpu task) online));
      mret 0
    else if op =? SCHED_OP_GET_SHARES then
      task ← task_of target; task ← require invalid_args task; mret (tk_shares task)
    else if op =? SCHED_OP_SET_SHARES then
      let shares := Z.max 1 (Z.min value 1000) in
      task ← task_of target;
      _ ← require invalid_args task;
      _ ← update_task target (Task_set_shares shares);
      mret shares
    else fail invalid_args.

Definition selftest_sched_op (op target value : Z) : Sys Z := sys_sched [op; target; value; 0; 0; 0].

(** ** Life cycle *)

Definition sys_spawn_last_error (args : Args) : Sys Z :=
  pid ← current_pid mc;
  reason ← state_op (fun k => let '(r, t) := TaskTable_take_last_spawn_fail_reason (k_table k) pid in
                              (r, k_set_table t k));
  mret (SpawnFailReason_as_u8 (default SfUnknown reason)).

Definition yield_current : Sys unit :=
  modify (fun k => k_set_world (w_set_sched (k_world k) (Scheduler_yield_current (mc_hart mc) (w_sched (k_world k)))) k).

Definition finish_current : Sys unit :=
  modify (fun k => k_set_world (w_set_sched (k_world k) (Scheduler_finish_current (mc_hart mc) (w_sched (k_world k)))) k).

Definition sys_yield (args : Args) : Sys Z :=
  _ ← wake_expired_blocked mc;
  _ ← yield_current;
  next ← schedule_next mc;
  match next with
  | Some pid => _ ← set_current mc pid; mret pid
  | None => current_pid mc
  end.

(** [AddressSpaceManager::activate]: the hart's [satp]. *)
Definition activate (handle : Z) : Sys unit :=
  r ← gets (fun k => AddressSpaceManager_get (w_spaces (k_world k)) handle);
  space ← lift SeAddressSpace r;
  modify (fun k => k_set_satp (<[current_cpu_index (mc_hart mc) := AddressSpace_satp_value space]> (k_satp k)) k).

Definition sys_exit (args : Args) : Sys Z :=
  let status := as_i32 (arg args 0) in
  exiting ← current_pid mc;
  waiters ← router_op (fun r => Router_close_endpoints_for_owner r exiting);
  _ ← modify (fun k => k_set_router (Router_remove_waiter_from_all (k_router k) exiting) k);
  _ ← exit_current_and_release status;
  _ ← wake_all mc waiters;
  _ ← world_op mc (fun env w => (tt, TaskTable_wake_parent_waiter env w exiting));
  _ ← finish_current;
  next ← schedule_next mc;
  _ ← (match next with
       | Some pid =>
           _ ← set_current mc pid;
           task ← task_of pid;
           match task ≫= tk_address_space with
           | Some handle => activate handle
           | None => mret tt
           end
       | None => set_current mc PID_KERNEL
       end);
  fail SeTaskExit.

(** The loop of the source leaves on its first round on every path. *)
Definition sys_wait (args : Args) : Sys Z :=
  let raw_pid := as_i32 (arg args 0) in
  let target := if raw_pid <=? 0 then None else Some raw_pid in
  r ← state_op (fun k => let '(r, w) := TaskTable_reap_child (mc_hart mc) (k_world k) target in (r, k_set_world w k));
  match r with
  | Ok (pid, status) =>
      cur ← current_pid mc;
      _ ← update_task cur (Task_set_a1 (status mod 2 ^ 64));
      mret pid
  | Err WeWouldBlock =>
      cur ← current_pid mc;
      _ ← block_current mc (BrWaitChild target);
      switch_or_wake mc cur (mret tt)
  | Err e => fail (SeWait e)
  end.

Definition sys_as_self (args : Args) : Sys Z :=
  pid ← current_pid mc;
  task ← task_of pid;
  require (SeAddressSpace AsInvalidHandle) (task ≫= tk_address_space).

(** [tasks.spawn], its error kept. *)
Definition spawn (parent entry_pc : Z) (stack_sp as_handle : option Z) (gp : Z) (slot : nat) : Sys (result Z SpawnError) :=
  fun k => match TaskTable_spawn (mc_alloc mc) (mc_layout mc) (env_of mc k) (k_world k) parent entry_pc stack_sp as_handle
                   gp slot with
           | None => None
           | Some (r, w) => Some (Ok r, k_tick (k_set_world w k))
           end.

Definition sys_spawn (args : Args) : Sys Z :=
  typed ← lift id (SpawnArgs_decode args);
  _ ← lift id (SpawnArgs_check typed);
  parent ← current_pid mc;
  r ← spawn parent (sa_entry_pc typed) (sa_stack_sp typed) (sa_as_handle typed) (sa_global_pointer typed)
        (sa_bootstrap_slot typed);
  match r with
  | Err err =>
      _ ← modify (fun k => k_set_table (TaskTable_set_last_spawn_fail_reason (k_table k) parent (spawn_fail_reason err)) k);
      fail (SeSpawn err)
  | Ok pid =>
      _ ← (match sa_as_handle typed with
           | None => world_op mc (fun env w => (tt, (TaskTable_resume_task env w pid).2))
           | Some _ => mret tt
           end);
      mret pid
  end.

Definition sys_task_resume (args : Args) : Sys Z :=
  r ← world_op mc (fun env w => TaskTable_resume_task env w (as_u32 (arg args 0)));
  match r with
  | RsResumed => mret 0
  | RsTaskNotFound | RsNotSuspended => fail SeInvalidTarget
  | RsEnqueueRejected => fail SeRunQueueFull
  end.

End with_machine.
