(* ===== verification/SysCaps.v ===== *)
(** * Capability system calls ([source/kernel/neuron/src/syscall/api/caps.rs])

    Endpoint creation (gated by an endpoint factory) and closing, closing,
    cloning and querying capabilities, and their transfer to a child with the
    restrictions on [MANAGE] and on the factory. *)

From S2P Require Import Prelude Cap Ipc Sched Timer Sync PageTable AddressSpace Smp Task VmoPool Kernel.

(** ** Decoders *)

Record CapTransferArgsTyped := mkCapTransferArgsTyped {
  ct_child : Z;
  ct_parent_slot : nat;
  ct_rights_bits : Z;
  ct_child_slot : nat
}.

(** [CapTransferArgsTyped] and [CapTransferToArgsTyped] (which adds the child's slot). *)
Definition CapTransferArgs_decode (args : Args) : CapTransferArgsTyped :=
  mkCapTransferArgsTyped (as_u32 (arg args 0)) (Z.to_nat (arg args 1)) (as_u32 (arg args 2)) (Z.to_nat (arg args 3)).

Definition CapTransferArgs_check (a : CapTransferArgsTyped) : result Rights SysError :=
  ok_or (Rights_from_bits (ct_rights_bits a)) (SeTransfer (TrCapability CapPermissionDenied)).

Definition is_factory (c : Capability) : bool := bool_decide (cap_kind c = CkEndpointFactory).

(** [matches!(kind, EndpointFactory | Fence(_))] *)
Definition manage_transferable (k : CapabilityKind) : bool :=
  match k with CkEndpointFactory | CkFence _ => true | _ => false end.

Section with_machine.
Context (mc : Machine).

(** ** Endpoints *)

Definition sys_ipc_endpoint_create (args : Args) : Sys Z := fail denied.

(** The factory the current task must hold in [slot]. *)
Definition require_factory (slot : nat) : Sys Z :=
  current ← current_pid mc;
  task ← task_of current;
  task ← require denied task;
  cap ← lift SeCapability (CapTable_get (tk_caps task) slot);
  _ ← check (is_factory cap && rights_contains (cap_rights cap) MANAGE) denied;
  mret current.

Definition endpoint_rights : Rights := rights_union (rights_union SEND RECV) MANAGE.

(** A new endpoint for [owner] and the caller's capability for it. *)
Definition mint_endpoint (depth owner : Z) : Sys Z :=
  r ← router_op (fun r => Router_create_endpoint r depth (Some owner));
  id ← lift SeIpc r;
  slot ← caps_try mc (fun t => CapTable_allocate t (mkCapability (CkEndpoint id) endpoint_rights));
  mret (Z.of_nat slot).

Definition sys_ipc_endpoint_create_v2 (args : Args) : Sys Z :=
  let depth := arg args 1 in
  _ ← check (negb ((depth =? 0) || (256 <? depth))) invalid_args;
  current ← require_factory (Z.to_nat (arg args 0));
  mint_endpoint depth current.

Definition sys_ipc_endpoint_create_for (args : Args) : Sys Z :=
  let owner_pid := as_u32 (arg args 1) in
  let depth := arg args 2 in
  _ ← check (negb ((depth =? 0) || (256 <? depth))) invalid_args;
  current ← require_factory (Z.to_nat (arg args 0));
  owner ← task_of owner_pid;
  owner ← require denied owner;
  _ ← check ((owner_pid =? current) || bool_decide (tk_parent owner = Some current)) denied;
  mint_endpoint depth owner_pid.

(** The capability leaves the table before its kind and rights are looked at. *)
Definition sys_ipc_endpoint_close (args : Args) : Sys Z :=
  cap ← caps_try mc (fun t => CapTable_take t (Z.to_nat (arg args 0)));
  match cap_kind cap with
  | CkEndpoint id =>
      _ ← check (rights_contains (cap_rights cap) MANAGE) denied;
      r ← router_op (fun r => Router_close_endpoint r id);
      waiters ← lift SeIpc r;
      _ ← wake_all mc waiters;
      mret 0
  | _ => fail (SeCapability InvalidSlot)
  end.

(** ** Local operations *)

Definition release_object (kind : CapabilityKind) (pid : Z) : Sys unit :=
  match kind with
  | CkTimer id => modify (fun k => k_set_timers (HartTimers_free (k_timers k) id).2 k)
  | CkWaitset id => modify (fun k => k_set_waitsets (WaitsetTable_free (k_waitsets k) id).2 k)
  | CkFence id =>
      modify (fun k => if FenceTable_owned_by (k_fences k) id pid
                       then k_set_fences (FenceTable_free (k_fences k) id).2 k else k)
  | _ => mret tt
  end.

Definition sys_cap_close (args : Args) : Sys Z :=
  cap ← caps_try mc (fun t => CapTable_take t (Z.to_nat (arg args 0)));
  pid ← current_pid mc;
  _ ← release_object (cap_kind cap) pid;
  mret 0.

Definition sys_cap_clone (args : Args) : Sys Z :=
  t ← current_caps mc;
  cap ← lift SeCapability (CapTable_get t (Z.to_nat (arg args 0)));
  _ ← check (negb (is_factory cap)) denied;
  slot ← caps_try mc (fun t => CapTable_allocate t cap);
  mret (Z.of_nat slot).

Definition sys_cap_query (args : Args) : Sys Z :=
  let out_ptr := arg args 1 in
  _ ← user_slice out_ptr 24;
  cap ← derive mc (Z.to_nat (arg args 0)) MAP;
  out ← (match cap_kind cap with
         | CkVmo base len => mret (le_bytes 4 1 ++ le_bytes 4 0 ++ le_bytes 8 base ++ le_bytes 8 len)
         | CkDeviceMmio base len => mret (le_bytes 4 2 ++ le_bytes 4 0 ++ le_bytes 8 base ++ le_bytes 8 len)
         | _ => fail denied
         end);
  _ ← write_user mc out_ptr out;
  mret 0.

(** ** Transfer *)

(** The checks [sys_cap_transfer] and [sys_cap_transfer_to] share. *)
Definition transfer_guard (parent child : Z) (parent_slot : nat) (rights : Rights) : Sys unit :=
  parent_task ← task_of parent;
  _ ← (if rights_contains rights MANAGE then
         parent_task ← require (SeTransfer TrInvalidParent) parent_task;
         base ← lift (fun e => SeTransfer (TrCapability e)) (CapTable_get (tk_caps parent_task) parent_slot);
         check (manage_transferable (cap_kind base)) (SeTransfer (TrCapability CapPermissionDenied))
       else mret tt);
  match parent_task with
  | Some parent_task =>
      match CapTable_get (tk_caps parent_task) parent_slot with
      | Ok base =>
          check (negb (is_factory base && negb ((parent =? PID_KERNEL) && (child =? 1))))
            (SeTransfer (TrCapability CapPermissionDenied))
      | Err _ => mret tt
      end
  | None => mret tt
  end.

Definition sys_cap_transfer (args : Args) : Sys Z :=
  let typed := CapTransferArgs_decode args in
  rights ← lift id (CapTransferArgs_check typed);
  parent ← current_pid mc;
  _ ← transfer_guard parent (ct_child typed) (ct_parent_slot typed) rights;
  r ← state_op (fun k => let '(r, t) := TaskTable_transfer_cap (k_table k) parent (ct_child typed) (ct_parent_slot typed)
                                          rights in (r, k_set_table t k));
  slot ← lift SeTransfer r;
  mret (Z.of_nat slot).

Definition sys_cap_transfer_to (args : Args) : Sys Z :=
  let typed := CapTransferArgs_decode args in
  rights ← lift id (CapTransferArgs_check typed);
  parent ← current_pid mc;
  _ ← transfer_guard parent (ct_child typed) (ct_parent_slot typed) rights;
  r ← state_op (fun k => let '(r, t) := TaskTable_transfer_cap_to_slot (k_table k) parent (ct_child typed)
                                          (ct_parent_slot typed) rights (ct_child_slot typed) in (r, k_set_table t k));
  _ ← lift SeTransfer r;
  mret (Z.of_nat (ct_child_slot typed)).

End with_machine.
