(* ===== verification/SysIpc.v ===== *)
(** * IPC system calls ([source/kernel/neuron/src/syscall/api/ipc_msg.rs])

    The legacy [sys_send]/[sys_recv], [sys_ipc_send_v1] with the in-band move of
    a capability, and [sys_ipc_recv_v1]/[sys_ipc_recv_v2].  The [loop]s of the
    source leave on their first round on every path (a blocked task retries the
    whole call when it runs again), so they are written without recursion. *)

From S2P Require Import Prelude Cap Ipc Sched Timer Sync PageTable AddressSpace Smp Task VmoPool Kernel.

(** ** Decoders *)

Record SendArgsTyped := mkSendArgsTyped { sd_slot : Z; sd_ty : Z; sd_flags : Z; sd_len : Z }.
Definition SendArgs_decode (args : Args) : SendArgsTyped :=
  mkSendArgsTyped (arg args 0) (as_u16 (arg args 1)) (as_u16 (arg args 2)) (as_u32 (arg args 3)).

Definition SYS_MAX_FRAME_BYTES : Z := 8 * 1024.
Definition IPC_SYS_NONBLOCK : Z := Z.shiftl 1 0.
Definition IPC_SYS_TRUNCATE : Z := Z.shiftl 1 1.

Record IpcSendV1ArgsTyped := mkIpcSendV1ArgsTyped {
  sv_slot : Z; sv_header_ptr : Z; sv_payload_ptr : Z; sv_payload_len : Z; sv_sys_flags : Z; sv_deadline_ns : Z
}.
Definition IpcSendV1Args_decode (args : Args) : IpcSendV1ArgsTyped :=
  mkIpcSendV1ArgsTyped (arg args 0) (arg args 1) (arg args 2) (arg args 3) (arg args 4) (arg args 5).
Definition IpcSendV1Args_check (a : IpcSendV1ArgsTyped) : result unit SysError :=
  let? _ := ensure_user_slice (sv_header_ptr a) 16 in
  if SYS_MAX_FRAME_BYTES <? sv_payload_len a then Err invalid_args
  else if negb (sv_payload_len a =? 0) then ensure_user_slice (sv_payload_ptr a) (sv_payload_len a)
  else Ok tt.

(** What both receive calls decode ([IpcRecvV1ArgsTyped]; v2 reads it from its descriptor). *)
Record IpcRecvArgs := mkIpcRecvArgs {
  rv_slot : Z; rv_header_out_ptr : Z; rv_payload_out_ptr : Z; rv_payload_out_max : Z; rv_sys_flags : Z; rv_deadline_ns : Z
}.
Definition IpcRecvV1Args_decode (args : Args) : IpcRecvArgs :=
  mkIpcRecvArgs (arg args 0) (arg args 1) (arg args 2) (arg args 3) (arg args 4) (arg args 5).
Definition IpcRecvV1Args_check (a : IpcRecvArgs) : result unit SysError :=
  let? _ := ensure_user_slice (rv_header_out_ptr a) 16 in
  if negb (rv_payload_out_max a =? 0) then ensure_user_slice (rv_payload_out_ptr a) (rv_payload_out_max a) else Ok tt.

Definition IPC_MSG_FLAG_CAP_MOVE : Z := Z.shiftl 1 0.

(** [flags & mask != 0] *)
Definition flag_set (flags mask : Z) : bool := negb (Z.land flags mask =? 0).

(** Field updates of a message. *)
Definition msg_set_moved (c : option Capability) (m : Message) : Message :=
  mkMessage (msg_header m) (msg_payload m) c (msg_capmove_expected_ep m) (msg_sender_service_id m).
Definition msg_set_src (src : Z) (m : Message) : Message :=
  mkMessage (mkMessageHeader src (hdr_dst (msg_header m)) (hdr_ty (msg_header m)) (hdr_flags (msg_header m))
               (hdr_len (msg_header m)))
    (msg_payload m) (msg_moved_cap m) (msg_capmove_expected_ep m) (msg_sender_service_id m).

Section with_machine.
Context (mc : Machine).

(** ** The legacy pair *)

Definition sys_send (args : Args) : Sys Z :=
  let typed := SendArgs_decode args in
  endpoint ← derive_endpoint mc (Z.to_nat (sd_slot typed)) SEND;
  let header := mkMessageHeader (as_u32 (sd_slot typed)) endpoint (sd_ty typed) (sd_flags typed) (sd_len typed) in
  r ← router_op (fun r => Router_send r endpoint (Message_new header [] None));
  _ ← lift SeIpc r;
  mret (sd_len typed).

Definition sys_recv (args : Args) : Sys Z :=
  endpoint ← derive_endpoint mc (Z.to_nat (arg args 0)) RECV;
  r ← router_op (fun r => Router_recv r endpoint);
  message ← lift SeIpc r;
  _ ← modify (k_set_last_message (Some message));
  mret (hdr_len (msg_header message)).

(** ** Send *)

(** Put the moved capability back into the sender's slot. *)
Definition restore_cap (slot : option nat) (msg : Message) : Sys unit :=
  match slot, msg_moved_cap msg with
  | Some slot, Some cap => _ ← caps_op mc (fun t => CapTable_set t slot cap); mret tt
  | _, _ => mret tt
  end.

(** Take the capability for this attempt, refusing [MANAGE] authority, the
    endpoint factory and dead endpoints. *)
Definition take_moved_cap (slot : nat) : Sys Capability :=
  cap ← caps_try mc (fun t => CapTable_take t slot);
  let refuse (e : SysError) : Sys Capability := _ ← caps_op mc (fun t => CapTable_set t slot cap); fail e in
  if (rights_contains (cap_rights cap) MANAGE || bool_decide (cap_kind cap = CkEndpointFactory))%bool then refuse denied
  else match cap_kind cap with
       | CkEndpoint id =>
           alive ← gets (fun k => Router_endpoint_alive (k_router k) id);
           if (alive : bool) then mret cap else refuse (SeIpc NoSuchEndpoint)
       | _ => mret cap
       end.

(** Wake the task at the head of a waiter list. *)
Definition wake_waiter (pop : Router → result (option Z) IpcError * Router) : Sys unit :=
  r ← router_op pop;
  match r with
  | Ok (Some waiter) => wake mc waiter
  | _ => mret tt
  end.

Definition send_message (service_id : Z) (header : MessageHeader) (payload : list Z) (moved : option Capability) : Message :=
  let msg := Message_new header payload moved in
  mkMessage (msg_header msg) (msg_payload msg) (msg_moved_cap msg)
    (match moved with
     | Some (mkCapability (CkEndpoint id) _) => id
     | _ => msg_capmove_expected_ep msg
     end)
    service_id.

(** One attempt: take, send, and on failure restore, then block or fail. *)
Definition send_attempt (endpoint : Z) (nonblock : bool) (deadline_ns : Z) (header : MessageHeader) (payload : list Z)
    (cap_move_slot : option nat) : Sys unit :=
  moved ← (match cap_move_slot with
           | Some slot => cap ← take_moved_cap slot; mret (Some cap)
           | None => mret None
           end);
  service_id ← current_service_id mc;
  r ← router_op (fun r => Router_send_returning_message r endpoint (send_message service_id header payload moved));
  match r with
  | Ok _ => wake_waiter (fun r => Router_pop_recv_waiter r endpoint)
  | Err (e, msg) =>
      _ ← restore_cap cap_move_slot msg;
      if (bool_decide (e = QueueFull) && negb nonblock)%bool then
        late ← expired mc deadline_ns;
        _ ← check (negb late) (SeIpc TimedOut);
        cur ← current_pid mc;
        r ← router_op (fun r => Router_register_send_waiter r endpoint cur);
        _ ← lift SeIpc r;
        _ ← block_current mc (BrIpcSend endpoint deadline_ns);
        _ ← wake_expired_blocked mc;
        switch_or_wake mc cur (_ ← router_op (fun r => Router_remove_send_waiter r endpoint cur); mret tt)
      else fail (SeIpc e)
  end.

Definition sys_ipc_send_v1 (args : Args) : Sys Z :=
  let typed := IpcSendV1Args_decode args in
  _ ← lift id (IpcSendV1Args_check typed);
  _ ← check (Z.land (sv_sys_flags typed) (not64 IPC_SYS_NONBLOCK) =? 0) invalid_args;
  let nonblock := flag_set (sv_sys_flags typed) IPC_SYS_NONBLOCK in
  endpoint ← derive_endpoint mc (Z.to_nat (sv_slot typed)) SEND;
  hdr_bytes ← read_user mc (sv_header_ptr typed) 16;
  let user_hdr := MessageHeader_from_le_bytes hdr_bytes in
  let cap_move := flag_set (hdr_flags user_hdr) IPC_MSG_FLAG_CAP_MOVE in
  _ ← check (hdr_len user_hdr =? sv_payload_len typed) invalid_args;
  payload ← read_user mc (sv_payload_ptr typed) (sv_payload_len typed);
  let cap_move_slot := if cap_move then Some (Z.to_nat (hdr_src user_hdr)) else None in
  cur ← current_pid mc;
  let header := mkMessageHeader 0 cur (hdr_ty user_hdr) (hdr_flags user_hdr) (as_u32 (sv_payload_len typed)) in
  _ ← (if nonblock then mret tt else arm_wakeup mc (sv_deadline_ns typed));
  _ ← send_attempt endpoint nonblock (sv_deadline_ns typed) header payload cap_move_slot;
  mret (sv_payload_len typed).

(** ** Receive *)

(** A message was dequeued: one blocked sender gets the room. *)
Definition received (endpoint : Z) (msg : Message) : Sys Message :=
  _ ← wake_waiter (fun r => Router_pop_send_waiter r endpoint); mret msg.

Definition recv_attempt (endpoint : Z) (nonblock : bool) (deadline_ns : Z) : Sys Message :=
  r ← router_op (fun r => Router_recv r endpoint);
  match r with
  | Ok msg => received endpoint msg
  | Err e =>
      if (bool_decide (e = QueueEmpty) && negb nonblock)%bool then
        late ← expired mc deadline_ns;
        _ ← check (negb late) (SeIpc TimedOut);
        cur ← current_pid mc;
        r ← router_op (fun r => Router_register_recv_waiter r endpoint cur);
        _ ← lift SeIpc r;
        let unregister : Sys unit := _ ← router_op (fun r => Router_remove_recv_waiter r endpoint cur); mret tt in
        r ← router_op (fun r => Router_recv r endpoint);
        match r with
        | Ok msg => _ ← unregister; received endpoint msg
        | Err QueueEmpty =>
            _ ← block_current mc (BrIpcRecv endpoint deadline_ns);
            _ ← wake_expired_blocked mc;
            switch_or_wake mc cur unregister
        | Err e => _ ← unregister; fail (SeIpc e)
        end
      else fail (SeIpc e)
  end.

(** The capability the receiver installs: the endpoint the sender observed wins. *)
Definition expected_cap (expected_ep : Z) (cap : Capability) : Capability :=
  match cap_kind cap with
  | CkEndpoint id =>
      if (negb (expected_ep =? 0) && negb (id =? expected_ep))%bool
      then mkCapability (CkEndpoint expected_ep) (cap_rights cap) else cap
  | _ => cap
  end.

(** Install a moved capability; without a free slot the message goes back to
    the front of its queue. *)
Definition accept_moved_cap (endpoint : Z) (msg : Message) : Sys Message :=
  match msg_moved_cap msg with
  | None => mret msg
  | Some cap0 =>
      let cap := expected_cap (msg_capmove_expected_ep msg) cap0 in
      r ← caps_op mc (fun t => CapTable_allocate t cap);
      match r with
      | Ok slot => mret (msg_set_src (as_u32 (Z.of_nat slot)) (msg_set_moved None msg))
      | Err _ =>
          _ ← router_op (fun r => Router_requeue_front r endpoint (msg_set_moved (Some cap) msg));
          fail (SeIpc IpcNoSpace)
      end
  end.

(** The payload copy-out. *)
Definition deliver_payload (a : IpcRecvArgs) (msg : Message) : Sys Z :=
  let total := msg_len msg in
  if ((total =? 0) || (rv_payload_out_max a =? 0))%bool then
    _ ← modify (k_set_last_message (Some msg)); mret 0
  else
    _ ← check (negb ((rv_payload_out_max a <? total) && negb (flag_set (rv_sys_flags a) IPC_SYS_TRUNCATE))) invalid_args;
    let n := Z.min total (rv_payload_out_max a) in
    _ ← write_user mc (rv_payload_out_ptr a) (take (Z.to_nat n) (msg_payload msg));
    _ ← modify (k_set_last_message (Some msg));
    mret n.

(** From the flag check to the accepted message. *)
Definition recv_common (a : IpcRecvArgs) : Sys Message :=
  _ ← check (Z.land (rv_sys_flags a) (not64 (Z.lor IPC_SYS_NONBLOCK IPC_SYS_TRUNCATE)) =? 0) invalid_args;
  endpoint ← derive_endpoint mc (Z.to_nat (rv_slot a)) RECV;
  let nonblock := flag_set (rv_sys_flags a) IPC_SYS_NONBLOCK in
  _ ← (if nonblock then mret tt else arm_wakeup mc (rv_deadline_ns a));
  msg ← recv_attempt endpoint nonblock (rv_deadline_ns a);
  accept_moved_cap endpoint msg.

Definition sys_ipc_recv_v1 (args : Args) : Sys Z :=
  let a := IpcRecvV1Args_decode args in
  _ ← lift id (IpcRecvV1Args_check a);
  msg ← recv_common a;
  _ ← write_user mc (rv_header_out_ptr a) (MessageHeader_to_le_bytes (msg_header msg));
  deliver_payload a msg.

Definition IPC_RECV_V2_MAGIC : Z := 0x4E584932.
Definition IPC_RECV_V2_VERSION : Z := 1.

(** [size_of::<IpcRecvV2Desc>()] under [repr(C)]. *)
Definition IPC_RECV_V2_DESC_LEN : Z := 64.

Definition recv_v2_decode (raw : list Z) : result (IpcRecvArgs * Z) SysError :=
  let? magic := read_le 4 raw 0 in
  let? version := read_le 4 raw 4 in
  if (negb (magic =? IPC_RECV_V2_MAGIC) || negb (version =? IPC_RECV_V2_VERSION))%bool then Err invalid_args
  else
    let? slot := read_le 4 raw 8 in
    let? header_out_ptr := read_le 8 raw 16 in
    let? payload_out_ptr := read_le 8 raw 24 in
    let? payload_out_max := read_le 8 raw 32 in
    let? sender_service_id_out_ptr := read_le 8 raw 40 in
    let? sys_flags := read_le 4 raw 48 in
    let? deadline_ns := read_le 8 raw 56 in
    Ok (mkIpcRecvArgs slot header_out_ptr payload_out_ptr payload_out_max sys_flags deadline_ns,
        sender_service_id_out_ptr).

Definition recv_v2_check (a : IpcRecvArgs) (sid_ptr : Z) : result unit SysError :=
  let? _ := ensure_user_slice (rv_header_out_ptr a) 16 in
  if SYS_MAX_FRAME_BYTES <? rv_payload_out_max a then Err invalid_args
  else
    let? _ := (if negb (rv_payload_out_max a =? 0)
               then ensure_user_slice (rv_payload_out_ptr a) (rv_payload_out_max a) else Ok tt) in
    ensure_user_slice sid_ptr 8.

Definition sys_ipc_recv_v2 (args : Args) : Sys Z :=
  _ ← user_slice (arg args 0) IPC_RECV_V2_DESC_LEN;
  raw ← read_user mc (arg args 0) IPC_RECV_V2_DESC_LEN;
  desc ← lift id (recv_v2_decode raw);
  let '(a, sid_ptr) := desc in
  _ ← lift id (recv_v2_check a sid_ptr);
  msg ← recv_common a;
  _ ← write_user mc (rv_header_out_ptr a) (MessageHeader_to_le_bytes (msg_header msg));
  _ ← write_user mc sid_ptr (le_bytes 8 (msg_sender_service_id msg));
  deliver_payload a msg.

End with_machine.
