(* ===== verification/SysSync.v ===== *)
(** * Timer, interrupt, waitset and fence system calls
      ([source/kernel/neuron/src/syscall/api/sync_objects.rs], [core/irq.rs], [hal/plic.rs])

    The interrupt controller's registers (enable, claim, complete) are hardware:
    a bind is visible here as the routing-table entry only, and the claims of an
    external interrupt are an argument. *)

From S2P Require Import Prelude Cap Ipc Sched Timer Sync PageTable AddressSpace Smp Task VmoPool Kernel.

(** ** Error mapping *)

Definition map_timer_error (e : TimerError) : SysError :=
  match e with
  | TimResourceExhausted => SeCapability CapNoSpace
  | TimInvalidHandle => SeCapability InvalidSlot
  | TimAlreadyArmed => SeCapability CapPermissionDenied
  end.
Definition map_waitset_error (e : WaitsetError) : SysError :=
  match e with
  | WsResourceExhausted => SeCapability CapNoSpace
  | WsInvalidHandle => SeCapability InvalidSlot
  end.
Definition map_fence_error (e : FenceError) : SysError :=
  match e with
  | FenResourceExhausted => SeCapability CapNoSpace
  | FenInvalidHandle => SeCapability InvalidSlot
  end.

(** ** Interrupt routing *)

Definition MAX_IRQ : Z := 95.
Definition IRQ_TABLE_LEN : nat := 96.
Definition IrqId_new (raw : Z) : option Z := if ((raw =? 0) || (MAX_IRQ <? raw))%bool then None else Some raw.

Definition irq_bind (irq endpoint : Z) (table : list Z) : list Z := <[Z.to_nat irq := endpoint]> table.
Definition irq_binding (irq : Z) (table : list Z) : option Z :=
  match default 0 (table !! Z.to_nat irq) with 0 => None | ep => Some ep end.

Definition OP_IRQ_FIRED : Z := 0x70.
Definition irq_message (irq ep : Z) : Message :=
  Message_new (mkMessageHeader 0 ep OP_IRQ_FIRED 0 4) (le_bytes 4 irq) None.

Section with_machine.
Context (mc : Machine).

(** The delivery of one claimed source; an unbound one is only masked. *)
Definition deliver_irq (irq : Z) : Sys unit :=
  table ← gets k_irq;
  match irq_binding irq table with
  | None => mret tt
  | Some ep =>
      r ← router_op (fun r => Router_send r ep (irq_message irq ep));
      match r with
      | Err _ => mret tt
      | Ok _ =>
          r ← router_op (fun r => Router_pop_recv_waiter r ep);
          match r with Ok (Some waiter) => wake mc waiter | _ => mret tt end
      end
  end.

(** [claims]: what [plic::claim] returns, round by round, until [None]. *)
Fixpoint dispatch_claims (rounds : nat) (claims : list Z) : Sys unit :=
  match rounds, claims with
  | O, _ | _, [] => mret tt
  | S rounds', irq :: rest => _ ← deliver_irq irq; dispatch_claims rounds' rest
  end.
Definition dispatch_external (claims : list Z) : Sys unit := dispatch_claims IRQ_TABLE_LEN claims.

Definition endpoint_of_slot (slot : nat) : Sys Z :=
  t ← current_caps mc;
  cap ← lift SeCapability (CapTable_get t slot);
  match cap_kind cap with
  | CkEndpoint id => mret id
  | _ => fail (SeCapability InvalidSlot)
  end.

Definition sys_irq_bind (args : Args) : Sys Z :=
  irq ← require (SeCapability InvalidSlot) (IrqId_new (as_u32 (arg args 0)));
  endpoint ← endpoint_of_slot (Z.to_nat (arg args 1));
  _ ← modify (fun k => k_set_irq (irq_bind irq endpoint (k_irq k)) k);
  mret 0.

Definition sys_irq_complete (args : Args) : Sys Z :=
  _ ← require (SeCapability InvalidSlot) (IrqId_new (as_u32 (arg args 0)));
  mret 0.

(** ** Timers *)

Definition timer_op {A} (f : HartTimers → result A TimerError * HartTimers) : Sys A :=
  r ← state_op (fun k => let '(r, h) := f (k_timers k) in (r, k_set_timers h k));
  lift map_timer_error r.

Definition timer_id_from_cap (slot : nat) : Sys Z :=
  t ← current_caps mc;
  cap ← lift SeCapability (CapTable_get t slot);
  _ ← check (rights_contains (cap_rights cap) MANAGE) denied;
  match cap_kind cap with
  | CkTimer id =>
      pid ← current_pid mc;
      owned ← gets (fun k => HartTimers_owned_by (k_timers k) id pid);
      _ ← check owned denied;
      mret id
  | _ => fail (SeCapability InvalidSlot)
  end.

Definition timer_alloc (owner notify_ep interval_ns : Z) : Sys Z := fun k =>
  match HartTimers_alloc (k_timers k) owner notify_ep interval_ns with
  | None => None
  | Some (r, h) => Some (map_err map_timer_error r, k_set_timers h k)
  end.

Definition sys_timer_create (args : Args) : Sys Z :=
  notify_ep ← endpoint_of_slot (Z.to_nat (arg args 0));
  pid ← current_pid mc;
  timer_id ← timer_alloc pid notify_ep (arg args 1);
  r ← caps_op mc (fun t => CapTable_allocate t (mkCapability (CkTimer timer_id) MANAGE));
  match r with
  | Ok slot => mret (Z.of_nat slot)
  | Err e => _ ← modify (fun k => k_set_timers (HartTimers_free (k_timers k) timer_id).2 k); fail (SeCapability e)
  end.

Definition sys_timer_set (args : Args) : Sys Z :=
  timer_id ← timer_id_from_cap (Z.to_nat (arg args 0));
  _ ← timer_op (fun h => HartTimers_arm h timer_id (arg args 1));
  _ ← arm_wakeup mc (arg args 1);
  mret 0.

Definition sys_timer_cancel (args : Args) : Sys Z :=
  timer_id ← timer_id_from_cap (Z.to_nat (arg args 0));
  _ ← timer_op (fun h => HartTimers_disarm h timer_id);
  mret 0.

(** ** Waitsets *)

Definition waitset_id_from_cap (slot : nat) : Sys Z :=
  t ← current_caps mc;
  cap ← lift SeCapability (CapTable_get t slot);
  match cap_kind cap with
  | CkWaitset id =>
      pid ← current_pid mc;
      owned ← gets (fun k => WaitsetTable_owned_by (k_waitsets k) id pid);
      _ ← check owned denied;
      mret id
  | _ => fail (SeCapability InvalidSlot)
  end.

Definition waitset_alloc (owner : Z) : Sys Z := fun k =>
  match WaitsetTable_alloc (k_waitsets k) owner with
  | None => None
  | Some (r, t) => Some (map_err map_waitset_error r, k_set_waitsets t k)
  end.

Definition sys_waitset_create (args : Args) : Sys Z :=
  owner ← current_pid mc;
  ws_id ← waitset_alloc owner;
  r ← caps_op mc (fun t => CapTable_allocate_high t (mkCapability (CkWaitset ws_id) MANAGE));
  match r with
  | Ok slot => mret (Z.of_nat slot)
  | Err e => _ ← modify (fun k => k_set_waitsets (WaitsetTable_free (k_waitsets k) ws_id).2 k); fail (SeCapability e)
  end.

Definition sys_waitset_add (args : Args) : Sys Z :=
  ws_id ← waitset_id_from_cap (Z.to_nat (arg args 0));
  endpoint ← derive_endpoint mc (Z.to_nat (arg args 1)) RECV;
  r ← state_op (fun k => let '(r, t) := WaitsetTable_add_member (k_waitsets k) ws_id endpoint in (r, k_set_waitsets t k));
  _ ← lift map_waitset_error r;
  mret 0.

Fixpoint register_recv_all (endpoints : list Z) (pid : Z) : Sys unit :=
  match endpoints with
  | [] => mret tt
  | ep :: rest => _ ← router_op (fun r => Router_register_recv_waiter r ep pid); register_recv_all rest pid
  end.

Definition ready_member (members : list Z) : Sys (option nat) :=
  gets (fun k => first_ready members (Router_pending (k_router k))).

Definition sys_waitset_wait (args : Args) : Sys Z :=
  let deadline_ns := arg args 1 in
  ws_id ← waitset_id_from_cap (Z.to_nat (arg args 0));
  _ ← arm_wakeup mc deadline_ns;
  members ← gets (fun k => WaitsetTable_members (k_waitsets k) ws_id);
  members ← require (SeCapability InvalidSlot) members;
  cur ← current_pid mc;
  _ ← remove_recv_all members cur;
  ready ← ready_member members;
  match ready with
  | Some index => mret (Z.of_nat index)
  | None =>
      late ← expired mc deadline_ns;
      _ ← check (negb late) (SeIpc TimedOut);
      _ ← register_recv_all members cur;
      ready ← ready_member members;
      match ready with
      | Some index => _ ← remove_recv_all members cur; mret (Z.of_nat index)
      | None =>
          _ ← block_current mc (BrWaitset ws_id deadline_ns);
          _ ← wake_expired_blocked mc;
          switch_or_wake mc cur (remove_recv_all members cur)
      end
  end.

(** ** Fences *)

Definition fence_id_from_cap (slot : nat) : Sys Z :=
  t ← current_caps mc;
  cap ← lift SeCapability (CapTable_get t slot);
  match cap_kind cap with
  | CkFence id =>
      alive ← gets (fun k => FenceTable_exists (k_fences k) id);
      _ ← check alive (SeCapability InvalidSlot);
      mret id
  | _ => fail (SeCapability InvalidSlot)
  end.

Definition fence_alloc (owner : Z) : Sys Z := fun k =>
  match FenceTable_alloc (k_fences k) owner with
  | None => None
  | Some (r, t) => Some (map_err map_fence_error r, k_set_fences t k)
  end.

Definition sys_fence_create (args : Args) : Sys Z :=
  owner ← current_pid mc;
  fence_id ← fence_alloc owner;
  r ← caps_op mc (fun t => CapTable_allocate t (mkCapability (CkFence fence_id) MANAGE));
  match r with
  | Ok slot => mret (Z.of_nat slot)
  | Err e => _ ← modify (fun k => k_set_fences (FenceTable_free (k_fences k) fence_id).2 k); fail (SeCapability e)
  end.

Definition sys_fence_signal (args : Args) : Sys Z :=
  fence_id ← fence_id_from_cap (Z.to_nat (arg args 0));
  r ← state_op (fun k => let '(r, t) := FenceTable_signal (k_fences k) fence_id (arg args 1) in (r, k_set_fences t k));
  _ ← lift map_fence_error r;
  woken ← state_op (fun k => let '(n, out, t) := FenceTable_take_satisfied (k_fences k) fence_id
                                                   (replicate MAX_FENCE_WAITERS 0) in
                             (take n out, k_set_fences t k));
  _ ← wake_all mc woken;
  mret 0.

Definition remove_fence_waiter (fence_id pid : Z) : Sys unit :=
  modify (fun k => k_set_fences (FenceTable_remove_waiter (k_fences k) fence_id pid) k).

Definition fence_satisfied (fence_id target : Z) : Sys bool :=
  gets (fun k => bool_decide (FenceTable_is_satisfied (k_fences k) fence_id target = Some true)).

Definition sys_fence_wait (args : Args) : Sys Z :=
  let target := arg args 1 in
  let deadline_ns := arg args 2 in
  fence_id ← fence_id_from_cap (Z.to_nat (arg args 0));
  _ ← arm_wakeup mc deadline_ns;
  cur ← current_pid mc;
  _ ← remove_fence_waiter fence_id cur;
  done ← fence_satisfied fence_id target;
  if (done : bool) then mret 0
  else
    late ← expired mc deadline_ns;
    _ ← check (negb late) (SeIpc TimedOut);
    r ← state_op (fun k => let '(r, t) := FenceTable_register_waiter (k_fences k) fence_id cur target in
                           (r, k_set_fences t k));
    _ ← lift map_fence_error r;
    done ← fence_satisfied fence_id target;
    if (done : bool) then _ ← remove_fence_waiter fence_id cur; mret 0
    else
      _ ← block_current mc (BrFence fence_id target deadline_ns);
      _ ← wake_expired_blocked mc;
      switch_or_wake mc cur (remove_fence_waiter fence_id cur).

End with_machine.
