(* ===== verification/SysVmo.v ===== *)
(** * Memory system calls ([source/kernel/neuron/src/syscall/api/vmo.rs])

    Mapping VMOs and device windows, creating device capabilities, the VMO life
    cycle (with the two-phase creation that zeroes outside the big lock), VMO
    reads and writes, and address spaces. *)

From S2P Require Import Prelude Cap Ipc Sched Timer Sync PageTable AddressSpace Smp Task VmoPool Kernel.

(** ** Decoders *)

Definition PROT_READ : Z := Z.shiftl 1 0.
Definition PROT_WRITE : Z := Z.shiftl 1 1.
Definition PROT_EXEC : Z := Z.shiftl 1 2.
Definition MAP_FLAG_USER : Z := Z.shiftl 1 0.

(** [x & mask != 0] *)
Definition any_bit (x mask : Z) : bool := negb (Z.land x mask =? 0).

Definition map_denied : SysError := SeAddressSpace (AsMapping MapPermissionDenied).

Record AsMapArgsTyped := mkAsMapArgsTyped {
  am_handle : Z; am_vmo_slot : nat; am_va : Z; am_len : Z; am_prot : Z; am_flags : Z
}.
Definition AsMapArgs_decode (args : Args) : result AsMapArgsTyped SysError :=
  let? handle := ok_or (AsHandle_from_raw (as_u32 (arg args 0))) (SeAddressSpace AsInvalidHandle) in
  let? va := ok_or (VirtAddr_page_aligned (arg args 2)) invalid_args in
  let? len := ok_or (PageLen_from_bytes_aligned (arg args 3)) invalid_args in
  Ok (mkAsMapArgsTyped handle (Z.to_nat (arg args 1)) va len (as_u32 (arg args 4)) (as_u32 (arg args 5))).
Definition AsMapArgs_check (a : AsMapArgsTyped) : result unit SysError :=
  if am_len a =? 0 then Err invalid_args
  else if (any_bit (am_prot a) PROT_WRITE && any_bit (am_prot a) PROT_EXEC)%bool then Err map_denied
  else let? _ := ok_or (checked_add 64 (am_va a) (am_len a)) invalid_args in Ok tt.

Record MapArgsTyped := mkMapArgsTyped { mp_slot : nat; mp_va : Z; mp_offset : Z; mp_flags : Z }.
Definition MapArgs_decode (args : Args) : result MapArgsTyped SysError :=
  let? va := ok_or (VirtAddr_page_aligned (arg args 1)) invalid_args in
  let? flags := ok_or (PageFlags_from_bits (arg args 3)) invalid_args in
  Ok (mkMapArgsTyped (Z.to_nat (arg args 0)) va (arg args 2) flags).
Definition MapArgs_check (a : MapArgsTyped) : result unit SysError :=
  if (bits_contain (mp_flags a) PF_WRITE && bits_contain (mp_flags a) PF_EXECUTE)%bool then Err map_denied else Ok tt.

Definition DeviceCapCreateArgs_check (base len : Z) : result unit SysError :=
  if len =? 0 then Err invalid_args
  else if (any_bit base (PAGE_SIZE - 1) || any_bit len (PAGE_SIZE - 1))%bool then Err invalid_args
  else let? end_ := ok_or (checked_add 64 base len) invalid_args in
       if end_ <=? base then Err invalid_args else Ok tt.

Definition VmoCreateArgs_check (len : Z) : result unit SysError := if len =? 0 then Err denied else Ok tt.

(** [typed.offset.checked_add(typed.len)] against the length of the VMO. *)
Definition vmo_span_check (offset len vmo_len : Z) : result unit SysError :=
  let? span_end := ok_or (checked_add 64 offset len) denied in
  if vmo_len <? span_end then Err denied else Ok tt.

Definition PROT_FLAGS (prot flags : Z) : Z :=
  Z.lor (Z.lor (Z.lor (Z.lor PF_VALID (if any_bit prot PROT_READ then PF_READ else 0))
                 (if any_bit prot PROT_WRITE then PF_WRITE else 0))
           (if any_bit prot PROT_EXEC then PF_EXECUTE else 0))
    (if any_bit flags MAP_FLAG_USER then PF_USER else 0).

(** References to [base, base + len) held by any task. *)
Definition vmo_refs (t : TaskTable) (base len : Z) : nat :=
  sum_list (map (fun task => CapTable_vmo_overlap_count (tk_caps task) base len) (tt_tasks t)).

(** ** Operations on the pool *)

Definition vmo_error (e : VmoError) : SysError := denied.

Definition pool_allocate (len : Z) : Sys (Z * Z) :=
  r ← state_op (fun k => let '(r, m, p) := VmoPool_allocate (k_phys k) (k_pool k) (as_usize len) in
                         (r, k_set_phys m (k_set_pool p k)));
  lift vmo_error r.
Definition pool_allocate_nozero (len : Z) : Sys (Z * Z * bool) :=
  r ← state_op (fun k => let '(r, p) := VmoPool_allocate_nozero (k_pool k) (as_usize len) in (r, k_set_pool p k));
  lift vmo_error r.
Definition pool_free (base len : Z) : Sys (result unit VmoError) :=
  state_op (fun k => let '(r, m, p) := VmoPool_free (k_phys k) (k_pool k) (as_usize base) (as_usize len) in
                     (r, k_set_phys m (k_set_pool p k))).

(** An operation of the address-space manager on page tables. *)
Definition spaces_op {A} (f : PtMem → AddressSpaceManager → option (result A AddressSpaceError * PtMem * AddressSpaceManager)) :
    Sys A := fun k =>
  match f (w_mem (k_world k)) (w_spaces (k_world k)) with
  | None => None
  | Some (r, m, mg) => Some (map_err SeAddressSpace r, k_set_world (w_set_mm (k_world k) m mg) k)
  end.

Section with_machine.
Context (mc : Machine).

Definition map_page (handle va pa flags : Z) : Sys unit :=
  spaces_op (fun m mg => AddressSpaceManager_map_page (mc_alloc mc) m mg handle va pa flags).

(** [current_task().address_space()?] *)
Definition current_space : Sys Z :=
  task ← current_task mc; require (SeAddressSpace AsInvalidHandle) (tk_address_space task).

(** ** Mapping *)

Definition sys_map (args : Args) : Sys Z :=
  typed ← lift id (MapArgs_decode args);
  _ ← lift id (MapArgs_check typed);
  cap ← derive mc (mp_slot typed) MAP;
  match cap_kind cap with
  | CkVmo base len =>
      _ ← check (mp_offset typed <? len) denied;
      handle ← current_space;
      _ ← map_page handle (mp_va typed) (base + Z.land (mp_offset typed) (not64 0xfff)) (mp_flags typed);
      mret 0
  | _ => fail denied
  end.

Definition MMIO_FLAGS : Z := Z.lor (Z.lor PF_VALID PF_USER) (Z.lor PF_READ PF_WRITE).

Definition sys_mmio_map (args : Args) : Sys Z :=
  va ← require invalid_args (VirtAddr_page_aligned (arg args 1));
  let offset := arg args 2 in
  cap ← derive mc (Z.to_nat (arg args 0)) MAP;
  match cap_kind cap with
  | CkDeviceMmio base len =>
      _ ← check (offset <? len) denied;
      _ ← check (negb (any_bit offset (PAGE_SIZE - 1))) denied;
      handle ← current_space;
      pa ← require invalid_args (checked_add 64 base (Z.land offset (not64 (PAGE_SIZE - 1))));
      _ ← map_page handle va pa MMIO_FLAGS;
      mret 0
  | _ => fail denied
  end.

(** Install [cap]: [usize::MAX] asks for a free slot. *)
Definition install_cap (slot_raw : Z) (cap : Capability) : Sys (result Z CapError) :=
  if slot_raw =? USIZE_MAX
  then r ← caps_op mc (fun t => CapTable_allocate t cap); mret (let? slot := r in Ok (Z.of_nat slot))
  else r ← caps_op mc (fun t => CapTable_set t (Z.to_nat slot_raw) cap); mret (let? _ := r in Ok slot_raw).

Definition sys_device_cap_create (args : Args) : Sys Z :=
  let base := arg args 0 in
  let len := arg args 1 in
  _ ← lift id (DeviceCapCreateArgs_check base len);
  t ← current_caps mc;
  factory ← lift (fun _ => denied) (CapTable_get t 1);
  _ ← check (bool_decide (cap_kind factory = CkEndpointFactory) && rights_contains (cap_rights factory) MANAGE) denied;
  r ← install_cap (arg args 2) (mkCapability (CkDeviceMmio base len) MAP);
  lift SeCapability r.

(** ** VMO life cycle *)

Definition sys_vmo_create (args : Args) : Sys Z :=
  let slot_raw := arg args 0 in
  _ ← lift id (VmoCreateArgs_check (arg args 1));
  range ← pool_allocate (arg args 1);
  r ← install_cap slot_raw (mkCapability (CkVmo range.1 range.2) MAP);
  lift SeCapability r.

(** Phase A: [(base, aligned_len, needs_zero, slot_raw)]. *)
Definition vmo_create_reserve (args : Args) : Sys (Z * Z * bool * Z) :=
  _ ← lift id (VmoCreateArgs_check (arg args 1));
  range ← pool_allocate_nozero (arg args 1);
  mret (range, arg args 0).

(** Phase C: install the capability, or give the range back. *)
Definition vmo_create_finish (base aligned slot_raw : Z) : Sys Z :=
  r ← install_cap slot_raw (mkCapability (CkVmo base aligned) MAP);
  _ ← (if is_ok r then mret tt else _ ← pool_free base aligned; mret tt);
  lift SeCapability r.

Definition sys_vmo_destroy (args : Args) : Sys Z :=
  let slot := Z.to_nat (arg args 0) in
  t ← current_caps mc;
  cap ← lift SeCapability (CapTable_get t slot);
  match cap_kind cap with
  | CkVmo base len =>
      refs ← gets (fun k => vmo_refs (k_table k) base len);
      _ ← check (bool_decide (refs = 1%nat)) denied;
      _ ← caps_try mc (fun t => CapTable_take t slot);
      r ← pool_free base len;
      _ ← lift vmo_error r;
      mret 0
  | _ => fail denied
  end.

(** The VMO behind a slot, with [MAP] authority. *)
Definition vmo_of_slot (slot : nat) : Sys (Z * Z) :=
  cap ← derive mc slot MAP;
  match cap_kind cap with
  | CkVmo base len => mret (base, len)
  | _ => fail denied
  end.

Definition sys_vmo_read (args : Args) : Sys Z :=
  let offset := arg args 1 in
  let user_ptr := arg args 2 in
  let len := arg args 3 in
  vmo ← vmo_of_slot (Z.to_nat (arg args 0));
  _ ← lift id (vmo_span_check offset len vmo.2);
  _ ← user_slice user_ptr len;
  bytes ← gets (fun k => load_phys (k_phys k) (vmo.1 + offset) (Z.to_nat len));
  _ ← write_user mc user_ptr bytes;
  mret len.

Definition sys_vmo_write (args : Args) : Sys Z :=
  let offset := arg args 1 in
  let user_ptr := arg args 2 in
  let len := arg args 3 in
  vmo ← vmo_of_slot (Z.to_nat (arg args 0));
  _ ← lift id (vmo_span_check offset len vmo.2);
  _ ← user_slice user_ptr len;
  bytes ← read_user mc user_ptr len;
  _ ← modify (fun k => k_set_phys (store_phys (k_phys k) (vmo.1 + offset) bytes) k);
  mret len.

(** ** Address spaces *)

Definition sys_as_create (args : Args) : Sys Z := spaces_op (AddressSpaceManager_create (mc_alloc mc) (mc_layout mc)).

(** The mapping loop; the pages before a failing one stay mapped. *)
Fixpoint map_pages (handle va base flags : Z) (pages : list nat) : Sys unit :=
  match pages with
  | [] => mret tt
  | page :: rest =>
      page_va ← require invalid_args (checked_add 64 va (Z.of_nat page * PAGE_SIZE));
      page_pa ← require invalid_args (checked_add 64 base (Z.of_nat page * PAGE_SIZE));
      _ ← map_page handle page_va page_pa flags;
      map_pages handle va base flags rest
  end.

Definition sys_as_map (args : Args) : Sys Z :=
  typed ← lift id (AsMapArgs_decode args);
  _ ← lift id (AsMapArgs_check typed);
  vmo ← vmo_of_slot (am_vmo_slot typed);
  let map_bytes := Z.min (am_len typed) vmo.2 in
  let aligned_bytes := map_bytes - map_bytes mod PAGE_SIZE in
  _ ← check (negb (aligned_bytes =? 0)) invalid_args;
  let pages := aligned_bytes / PAGE_SIZE in
  _ ← require invalid_args (checked_add 64 (am_va typed) (pages * PAGE_SIZE));
  let flags := PROT_FLAGS (am_prot typed) (am_flags typed) in
  _ ← check (negb (bits_contain flags PF_WRITE && bits_contain flags PF_EXECUTE)) map_denied;
  _ ← map_pages (am_handle typed) (am_va typed) vmo.1 flags (seq 0 (Z.to_nat pages));
  mret 0.

End with_machine.
