(* ===== verification/Exec.v ===== *)
(** * The ELF loader ([source/kernel/neuron/src/syscall/api/exec.rs])

    [sys_exec] and [sys_exec_v2]: parsing of the program headers, allocation and
    mapping of segments and of the stack, the staged copy plan, the metadata
    pages of version 2 and the spawn of the new task.

    The image is a slice over user memory: every field read loads from the
    caller's address space.  The bookkeeping the loader keeps in locals ([plan],
    [image], the ranges) is [LoadState]; the monad [Ld] threads it through, so
    that the clean-up of version 2 sees what had been recorded when an error
    occurred. *)

From S2P Require Import Prelude Cap Ipc Sched Timer Sync PageTable AddressSpace Smp Task VmoPool Kernel SysTask SysVmo.

(** ** The copy plan *)

Definition MAX_COPY_OPS : nat := 24.

(** [co_src = None] is the pure zero operation ([usize::MAX] in the source). *)
Record CopyOp := mkCopyOp { co_src : option Z; co_dst : Z; co_len : Z }.

(** The used prefix of the operation array; [fence.i] has no effect here. *)
Record CopyPlan := mkCopyPlan { cp_ops : list CopyOp; cp_fence_i : bool }.
Definition CopyPlan_new : CopyPlan := mkCopyPlan [] false.

Definition CopyPlan_push (p : CopyPlan) (op : CopyOp) : result CopyPlan SysError :=
  if bool_decide (MAX_COPY_OPS ≤ length (cp_ops p))%nat then Err invalid_args
  else Ok (mkCopyPlan (cp_ops p ++ [op]) (cp_fence_i p)).

(** ** Loader state *)

Record LoadRange := mkLoadRange { lr_start : Z; lr_end : Z; lr_writable : bool }.

Record LoadState := mkLoadState {
  ls_plan : CopyPlan;
  ls_image : ImageAllocs;
  ls_first_rw : option Z;
  ls_max_end_va : Z;
  ls_ranges : list LoadRange
}.
Definition LoadState_new : LoadState := mkLoadState CopyPlan_new ImageAllocs_new None 0 [].

Definition ls_set_plan (p : CopyPlan) (s : LoadState) : LoadState :=
  mkLoadState p (ls_image s) (ls_first_rw s) (ls_max_end_va s) (ls_ranges s).
Definition ls_push_image (base len : Z) (s : LoadState) : LoadState :=
  mkLoadState (ls_plan s) (ImageAllocs_push (ls_image s) base len) (ls_first_rw s) (ls_max_end_va s) (ls_ranges s).
Definition ls_note_rw (va : Z) (s : LoadState) : LoadState :=
  mkLoadState (ls_plan s) (ls_image s) (match ls_first_rw s with None => Some va | o => o end) (ls_max_end_va s)
    (ls_ranges s).
Definition ls_add_range (r : LoadRange) (s : LoadState) : LoadState :=
  mkLoadState (ls_plan s) (ls_image s) (ls_first_rw s) (Z.max (ls_max_end_va s) (lr_end r)) (ls_ranges s ++ [r]).

Definition Ld (A : Type) : Type := LoadState → Kernel → option (result A SysError * LoadState * Kernel).

#[export] Instance Ld_ret : MRet Ld := fun A a s k => Some (Ok a, s, k).
#[export] Instance Ld_bind : MBind Ld := fun A B f m s k =>
  match m s k with
  | None => None
  | Some (Err e, s1, k1) => Some (Err e, s1, k1)
  | Some (Ok a, s1, k1) => f a s1 k1
  end.

Definition embed {A} (m : Sys A) : Ld A := fun s k =>
  match m k with
  | None => None
  | Some (r, k1) => Some (r, s, k1)
  end.
Definition ls_modify (f : LoadState → LoadState) : Ld unit := fun s k => Some (Ok tt, f s, k).
Definition ls_gets {A} (f : LoadState → A) : Ld A := fun s k => Some (Ok (f s), s, k).

Definition plan_push (op : CopyOp) : Ld unit := fun s k =>
  match CopyPlan_push (ls_plan s) op with
  | Ok p => Some (Ok tt, ls_set_plan p s, k)
  | Err e => Some (Err e, s, k)
  end.
Definition plan_fence_i : Ld unit := ls_modify (fun s => ls_set_plan (mkCopyPlan (cp_ops (ls_plan s)) true) s).

(** ** Decoders *)

Record ExecArgs := mkExecArgs {
  xa_elf_ptr : Z; xa_elf_len : Z; xa_stack_pages : Z; xa_global_pointer : Z; xa_name_ptr : Z; xa_name_len : Z
}.

Definition ExecArgs_decode (args : Args) : result ExecArgs SysError :=
  if ((arg args 1 =? 0) || (arg args 2 =? 0))%bool then Err invalid_args
  else Ok (mkExecArgs (arg args 0) (arg args 1) (arg args 2) (arg args 3) (arg args 4) (arg args 5)).

(** [ExecArgsTyped::check]. *)
Definition ExecArgs_check (a : ExecArgs) : result unit SysError :=
  let? _ := ensure_user_slice (xa_elf_ptr a) (xa_elf_len a) in
  if xa_stack_pages a =? 0 then Err invalid_args else Ok tt.

Definition MAX_NAME_LEN : Z := 64.

(** [ExecV2ArgsTyped::check]. *)
Definition ExecV2Args_check (a : ExecArgs) : result unit SysError :=
  let? _ := ensure_user_slice (xa_elf_ptr a) (xa_elf_len a) in
  if negb (xa_name_len a =? 0) then
    if MAX_NAME_LEN <? xa_name_len a then Err invalid_args else ensure_user_slice (xa_name_ptr a) (xa_name_len a)
  else Ok tt.

Definition PT_LOAD : Z := 1.
Definition PH_R : Z := 4.
Definition PH_W : Z := 2.
Definition PH_X : Z := 1.

Record Phdr := mkPhdr {
  ph_flags : Z; ph_offset : Z; ph_vaddr : Z; ph_filesz : Z; ph_memsz : Z
}.

(** The checks of a loadable segment against the image, and W^X. *)
Definition Phdr_check (elf_len : Z) (p : Phdr) : result unit SysError :=
  if ph_memsz p <? ph_filesz p then Err invalid_args
  else
    let? end_ := ok_or (checked_add 64 (ph_offset p) (ph_filesz p)) invalid_args in
    if elf_len <? end_ then Err invalid_args
    else if (any_bit (ph_flags p) PH_W && any_bit (ph_flags p) PH_X)%bool then Err map_denied
    else Ok tt.

Definition Phdr_page_flags (p : Phdr) : Z :=
  Z.lor (Z.lor (Z.lor (Z.lor PF_VALID PF_USER) (if any_bit (ph_flags p) PH_R then PF_READ else 0))
           (if any_bit (ph_flags p) PH_W then PF_WRITE else 0))
    (if any_bit (ph_flags p) PH_X then PF_EXECUTE else 0).

Definition ph_page_off (p : Phdr) : Z := Z.land (ph_vaddr p) (PAGE_SIZE - 1).

Definition RISCV_GP_BIAS : Z := 0x800.

Definition choose_gp (arg_gp : Z) (first_rw : option Z) (entry : Z) : Z :=
  if negb (arg_gp =? 0) then arg_gp
  else match first_rw ≫= fun va => checked_add 64 va RISCV_GP_BIAS with
       | Some gp => gp
       | None => default 0 (checked_add 64 entry RISCV_GP_BIAS)
       end.

(** [sort_by_key(|r| r.start)] is stable. *)
Fixpoint insert_range (r : LoadRange) (l : list LoadRange) : list LoadRange :=
  match l with
  | [] => [r]
  | x :: rest => if lr_start r <=? lr_start x then r :: l else x :: insert_range r rest
  end.
Definition sort_ranges (l : list LoadRange) : list LoadRange := foldr insert_range [] l.

(** The guard-gap assertion: a page right after a writable segment, in a gap, that is mapped. *)
Fixpoint gap_mapped (mapped : Z → bool) (l : list LoadRange) : bool :=
  match l with
  | [] => false
  | r :: rest =>
      let next_start := match rest with n :: _ => lr_start n | [] => USIZE_MAX end in
      ((lr_writable r && (saturating_add 64 (lr_end r) PAGE_SIZE <=? next_start) && (lr_end r <? USER_VADDR_LIMIT) &&
        mapped (lr_end r)) || gap_mapped mapped rest)%bool
  end.

(** [#[repr(C)] struct BootstrapInfo]. *)
Definition BootstrapInfo_bytes (meta_name_ptr meta_name_len service_id : Z) : list Z :=
  le_bytes 4 2 ++ le_bytes 4 0 ++ le_bytes 8 meta_name_ptr ++ le_bytes 4 meta_name_len ++ le_bytes 4 0 ++
  le_bytes 8 service_id.

Section with_machine.
Context (mc : Machine).

Fixpoint run_copy_ops (ops : list CopyOp) : Sys unit :=
  match ops with
  | [] => mret tt
  | op :: rest =>
      _ ← (if co_len op =? 0 then mret tt
           else match co_src op with
                | None => modify (fun k => k_set_phys (zero_range (k_phys k) (co_dst op) (co_len op)) k)
                | Some src =>
                    bytes ← read_user mc src (co_len op);
                    modify (fun k => k_set_phys (store_phys (k_phys k) (co_dst op) bytes) k)
                end);
      run_copy_ops rest
  end.
Definition run_copy_plan (plan : CopyPlan) : Sys unit := run_copy_ops (cp_ops plan).

(** ** Parsing *)

(** A field of the image, bounds-checked like [read_u16_le] and its siblings. *)
Definition elf_le (a : ExecArgs) (n : nat) (off : Z) : Sys Z :=
  end_ ← require invalid_args (checked_add 64 off (Z.of_nat n));
  _ ← check (end_ <=? xa_elf_len a) invalid_args;
  bytes ← read_user mc (xa_elf_ptr a + off) (Z.of_nat n);
  mret (le_value bytes).

Record ElfHeader := mkElfHeader { eh_entry : Z; eh_phoff : Z; eh_phentsize : Z; eh_phnum : Z }.

(** ["\x7FELF"], 64-bit, little endian. *)
Definition parse_elf_header (a : ExecArgs) : Sys ElfHeader :=
  _ ← check (64 <=? xa_elf_len a) invalid_args;
  magic ← read_user mc (xa_elf_ptr a) 4;
  _ ← check (bool_decide (magic = [127; 69; 76; 70])) invalid_args;
  class ← read_user mc (xa_elf_ptr a + 4) 2;
  _ ← check (bool_decide (class = [2; 1])) invalid_args;
  entry ← elf_le a 8 24;
  phoff ← elf_le a 8 32;
  phentsize ← elf_le a 2 54;
  phnum ← elf_le a 2 56;
  _ ← check (phoff <? xa_elf_len a) invalid_args;
  mret (mkElfHeader entry phoff phentsize phnum).

(** Program header [i]; [None] unless it is [PT_LOAD]. *)
Definition parse_phdr (a : ExecArgs) (h : ElfHeader) (i : nat) : Sys (option Phdr) :=
  off ← require invalid_args (checked_add 64 (eh_phoff h) (Z.of_nat i * eh_phentsize h));
  _ ← check (off + 56 <=? xa_elf_len a) invalid_args;
  p_type ← elf_le a 4 off;
  if negb (p_type =? PT_LOAD) then mret None
  else
    flags ← elf_le a 4 (off + 4);
    offset ← elf_le a 8 (off + 8);
    vaddr ← elf_le a 8 (off + 16);
    filesz ← elf_le a 8 (off + 32);
    memsz ← elf_le a 8 (off + 40);
    mret (Some (mkPhdr flags offset vaddr filesz memsz)).

(** The trace of version 1 reads the first word of the segment before the
    segment is checked: [p_offset + 4] overflows for an offset near the top of
    the address space, and the kernel panics (on the overflow, or on the index
    that the wrapped sum lets through). *)
Definition trace_first4 (a : ExecArgs) (p : Phdr) : Sys unit :=
  if 2 ^ 64 <=? ph_offset p + 4 then panic
  else if ph_offset p + 4 <=? xa_elf_len a then _ ← read_user mc (xa_elf_ptr a + ph_offset p) 4; mret tt
  else mret tt.

(** ** Loading *)

(** Allocate, stage and map one checked segment; the length of its range. *)
Definition place_segment (a : ExecArgs) (handle : Z) (p : Phdr) : Ld Z :=
  _ ← (if any_bit (ph_flags p) PH_W then ls_modify (ls_note_rw (ph_vaddr p)) else mret tt);
  let page_off := ph_page_off p in
  size ← embed (require invalid_args (checked_add 64 (ph_memsz p) page_off));
  want ← embed (require invalid_args (align_len size));
  range ← embed (pool_allocate_nozero want);
  let '(base, alloc_len, needs_zero) := range in
  _ ← ls_modify (ls_push_image base alloc_len);
  _ ← (if (needs_zero : bool) then plan_push (mkCopyOp None base alloc_len) else mret tt);
  _ ← (if negb (ph_filesz p =? 0) then
         _ ← plan_push (mkCopyOp (Some (xa_elf_ptr a + ph_offset p)) (base + page_off) (ph_filesz p)); plan_fence_i
       else mret tt);
  _ ← embed (map_pages mc handle (ph_vaddr p - page_off) base (Phdr_page_flags p)
               (seq 0 (Z.to_nat (alloc_len / PAGE_SIZE))));
  mret alloc_len.

(** One round of the program-header loop of version 1. *)
Definition load_segment_v1 (a : ExecArgs) (h : ElfHeader) (handle : Z) (i : nat) : Ld unit :=
  phdr ← embed (parse_phdr a h i);
  match phdr with
  | None => mret tt
  | Some p =>
      _ ← embed (trace_first4 a p);
      if ph_memsz p =? 0 then mret tt
      else _ ← embed (lift id (Phdr_check (xa_elf_len a) p)); _ ← place_segment a handle p; mret tt
  end.

(** Version 2 also records the mapped range. *)
Definition load_segment_v2 (a : ExecArgs) (h : ElfHeader) (handle : Z) (i : nat) : Ld unit :=
  phdr ← embed (parse_phdr a h i);
  match phdr with
  | None => mret tt
  | Some p =>
      if ph_memsz p =? 0 then mret tt
      else
        _ ← embed (lift id (Phdr_check (xa_elf_len a) p));
        alloc_len ← place_segment a handle p;
        let start := ph_vaddr p - ph_page_off p in
        seg_end ← embed (require invalid_args (checked_add 64 start alloc_len));
        ls_modify (ls_add_range (mkLoadRange start seg_end (any_bit (ph_flags p) PH_W)))
  end.

Fixpoint load_segments (load : nat → Ld unit) (indices : list nat) : Ld unit :=
  match indices with
  | [] => mret tt
  | i :: rest => _ ← load i; load_segments load rest
  end.

Definition STACK_TOP : Z := 0x20000000.
Definition STACK_FLAGS : Z := Z.lor (Z.lor PF_VALID PF_USER) (Z.lor PF_READ PF_WRITE).

(** [(stack_sp, mapped_top)] *)
Definition map_process_stack (handle stack_pages : Z) : Ld (Z * Z) :=
  total_pages ← embed (require invalid_args (checked_add 64 stack_pages 11));
  _ ← embed (check (total_pages * PAGE_SIZE <? 2 ^ 64) invalid_args);
  range ← embed (pool_allocate_nozero (total_pages * PAGE_SIZE));
  let '(stack_base, stack_len, needs_zero) := range in
  _ ← ls_modify (ls_push_image stack_base stack_len);
  _ ← (if (needs_zero : bool) then plan_push (mkCopyOp None stack_base stack_len) else mret tt);
  let mapped_top := STACK_TOP + 10 * PAGE_SIZE in
  _ ← embed (check (stack_len <=? mapped_top) invalid_args);
  let stack_bottom := mapped_top - stack_len in
  _ ← embed (map_pages mc handle stack_bottom stack_base STACK_FLAGS (seq 0 (Z.to_nat total_pages)));
  sp ← embed (require invalid_args (VirtAddr_new (Z.land (mapped_top - 2 * PAGE_SIZE) (not64 0xf))));
  mret (sp, mapped_top).

(** Only tasks with a [SEND] right in slot 0 may exec. *)
Definition exec_gate : Sys unit :=
  t ← current_caps mc; _ ← lift (fun _ => denied) (CapTable_derive t 0 SEND); mret tt.

(** [tasks.spawn(...)?] *)
Definition spawn_child (entry sp handle gp : Z) : Sys Z :=
  entry_pc ← require invalid_args (VirtAddr_instr_aligned entry);
  parent ← current_pid mc;
  r ← spawn mc parent entry_pc (Some sp) (Some handle) gp 0;
  lift SeSpawn r.

(** ** Version 1 *)

Definition exec_v1_body (a : ExecArgs) (h : ElfHeader) (handle : Z) : Ld Z :=
  _ ← load_segments (load_segment_v1 a h handle) (seq 0 (Z.to_nat (eh_phnum h)));
  first_rw ← ls_gets ls_first_rw;
  let gp := choose_gp (xa_global_pointer a) first_rw (eh_entry h) in
  stack ← map_process_stack handle (xa_stack_pages a);
  pid ← embed (spawn_child (eh_entry h) stack.1 handle gp);
  _ ← embed (update_task pid (Task_set_user_guard_info (mkUserGuardInfo stack.2 None)));
  image ← ls_gets ls_image;
  _ ← embed (update_task pid (Task_set_image_allocs image));
  mret pid.

(** Run the loader from empty bookkeeping; the staged plan goes with the PID. *)
Definition run_v1 (m : Ld Z) : Sys (Z * CopyPlan) := fun k =>
  match m LoadState_new k with
  | None => None
  | Some (Ok pid, s, k1) => Some (Ok (pid, ls_plan s), k1)
  | Some (Err e, _, k1) => Some (Err e, k1)
  end.

Definition exec_phase_a (args : Args) : Sys (Z * CopyPlan) :=
  a ← lift id (ExecArgs_decode args);
  _ ← lift id (ExecArgs_check a);
  _ ← exec_gate;
  h ← parse_elf_header a;
  handle ← sys_as_create mc [];
  run_v1 (exec_v1_body a h handle).

Definition sys_exec (args : Args) : Sys Z :=
  r ← exec_phase_a args; _ ← run_copy_plan r.2; mret r.1.

(** ** Version 2 *)

(** [space.page_table().lookup(va)] when the space exists. *)
Definition space_lookup (handle va : Z) (k : Kernel) : option Z :=
  match AddressSpaceManager_get (w_spaces (k_world k)) handle with
  | Ok space => PageTable_lookup (w_mem (k_world k)) (as_page_table space) va
  | Err _ => None
  end.

(** [panic!] unless [ok] holds of the state. *)
Definition assert_state (ok : Kernel → bool) : Sys unit := fun k => if ok k then Some (Ok tt, k) else None.

(** The service name copied into the metadata page, and its identity. *)
Definition copy_name (a : ExecArgs) (meta_pa : Z) : Sys Z :=
  if xa_name_len a =? 0 then mret 0
  else
    name ← read_user mc (xa_name_ptr a) (xa_name_len a);
    _ ← modify (fun k => k_set_phys (store_phys (k_phys k) meta_pa name) k);
    _ ← (if xa_name_len a <? PAGE_SIZE
         then modify (fun k => k_set_phys (store_phys (k_phys k) (meta_pa + xa_name_len a) [0]) k) else mret tt);
    mret (service_id_from_name name).

Definition META_FLAGS : Z := Z.lor (Z.lor PF_VALID PF_USER) PF_READ.

(** The metadata and information pages: the service identity. *)
Definition map_info_pages (a : ExecArgs) (handle meta_va info_va : Z) : Ld Z :=
  meta ← embed (pool_allocate PAGE_SIZE);
  _ ← ls_modify (ls_push_image meta.1 meta.2);
  service_id ← embed (copy_name a meta.1);
  _ ← embed (map_page mc handle meta_va meta.1 META_FLAGS);
  info ← embed (pool_allocate PAGE_SIZE);
  _ ← ls_modify (ls_push_image info.1 info.2);
  _ ← embed (modify (fun k =>
         k_set_phys (store_phys (k_phys k) info.1 (BootstrapInfo_bytes meta_va (xa_name_len a) service_id)) k));
  _ ← embed (map_page mc handle info_va info.1 META_FLAGS);
  mret service_id.

Definition exec_v2_body (a : ExecArgs) (h : ElfHeader) (handle : Z) : Ld Z :=
  _ ← load_segments (load_segment_v2 a h handle) (seq 0 (Z.to_nat (eh_phnum h)));
  ranges ← ls_gets (fun s => sort_ranges (ls_ranges s));
  _ ← embed (assert_state (fun k => negb (gap_mapped (fun va => bool_decide (is_Some (space_lookup handle va k))) ranges)));
  first_rw ← ls_gets ls_first_rw;
  max_end_va ← ls_gets ls_max_end_va;
  let gp := choose_gp (xa_global_pointer a) first_rw (eh_entry h) in
  stack ← map_process_stack handle (xa_stack_pages a);
  let mapped_top := stack.2 in
  meta_va ← embed (require invalid_args (checked_add 64 mapped_top PAGE_SIZE));
  info_va ← embed (require invalid_args (checked_add 64 mapped_top (2 * PAGE_SIZE)));
  _ ← embed (check (info_va + PAGE_SIZE <? USER_VADDR_LIMIT) invalid_args);
  _ ← embed (check (negb (negb (max_end_va =? 0) && ((meta_va <? max_end_va) || (info_va <? max_end_va)))) invalid_args);
  service_id ← map_info_pages a handle meta_va info_va;
  guard_va ← embed (require invalid_args (checked_add 64 info_va PAGE_SIZE));
  _ ← embed (assert_state (fun k => negb ((guard_va <? USER_VADDR_LIMIT) &&
                                          bool_decide (is_Some (space_lookup handle guard_va k)))));
  _ ← embed (assert_state (fun k => match space_lookup handle meta_va k with
                                    | Some entry => negb (any_bit entry PF_WRITE)
                                    | None => true
                                    end));
  pid ← embed (spawn_child (eh_entry h) stack.1 handle gp);
  _ ← embed (update_task pid (fun t => Task_set_user_guard_info (mkUserGuardInfo mapped_top (Some guard_va))
                                         (Task_set_qos (initial_qos_for service_id) (Task_set_service_id service_id t))));
  image ← ls_gets ls_image;
  _ ← embed (update_task pid (Task_set_image_allocs image));
  mret pid.

(** On failure the address space and the recorded ranges are given back. *)
Definition run_v2 (handle : Z) (m : Ld Z) : Sys (Z * CopyPlan) := fun k =>
  match m LoadState_new k with
  | None => None
  | Some (Ok pid, s, k1) => Some (Ok (pid, ls_plan s), k1)
  | Some (Err e, s, k1) =>
      let '(_, m, mg) := AddressSpaceManager_destroy (w_mem (k_world k1)) (w_spaces (k_world k1)) handle in
      (_ ← release_image (ls_image s); fail e) (k_set_world (w_set_mm (k_world k1) m mg) k1)
  end.

Definition exec_v2_phase_a (args : Args) : Sys (Z * CopyPlan) :=
  a ← lift id (ExecArgs_decode args);
  _ ← lift id (ExecV2Args_check a);
  _ ← exec_gate;
  h ← parse_elf_header a;
  handle ← sys_as_create mc [];
  run_v2 handle (exec_v2_body a h handle).

Definition sys_exec_v2 (args : Args) : Sys Z :=
  r ← exec_v2_phase_a args; _ ← run_copy_plan r.2; mret r.1.

End with_machine.
