(* ===== verification/Syscall.v ===== *)
(** * The system-call table ([source/kernel/neuron/src/syscall/mod.rs], [syscall/api/mod.rs])

    Registration and dispatch of the handlers, and the handlers that only touch
    the UART, the clock or boot-time flags. *)

From S2P Require Import Prelude Cap Ipc Sched Timer Sync PageTable AddressSpace Smp Task VmoPool Kernel SysTask SysCaps SysIpc SysSync SysVmo Exec.

Definition MAX_SYSCALL : nat := 64.

Definition Handler : Type := Args → Sys Z.
Definition SyscallTable : Type := list (option Handler).
Definition SyscallTable_new : SyscallTable := replicate MAX_SYSCALL None.

(** [assert!]: registering a number twice panics ([None]). *)
Definition SyscallTable_register (number : nat) (handler : Handler) (t : SyscallTable) : option SyscallTable :=
  if bool_decide (number < MAX_SYSCALL)%nat then
    match t !! number with
    | Some None => Some (<[number := Some handler]> t)
    | _ => None
    end
  else Some t.

Definition SyscallTable_dispatch (t : SyscallTable) (number : Z) (args : Args) : Sys Z :=
  match (if number <? Z.of_nat MAX_SYSCALL then t !! Z.to_nat number ≫= id else None) with
  | Some handler => handler args
  | None => fail SeInvalidSyscall
  end.

Section with_machine.
Context (mc : Machine).

Definition sys_getpid (args : Args) : Sys Z := current_pid mc.
Definition sys_nsec (args : Args) : Sys Z := now mc.
Definition sys_debug_putc (args : Args) : Sys Z := mret (Z.land (arg args 0) 0xff).
Definition sys_boot_mode (args : Args) : Sys Z := mret (if mc_fold_verdicts mc then 1 else 0).
Definition sys_boot_display_mode (args : Args) : Sys Z := mret (mc_display_mode mc).

Definition MAX_DEBUG_WRITE : Z := 1024.
Definition sys_debug_write (args : Args) : Sys Z :=
  let len := Z.min (arg args 1) MAX_DEBUG_WRITE in
  if len =? 0 then mret 0
  else
    _ ← user_slice (arg args 0) len;
    _ ← read_user mc (arg args 0) len;
    mret len.

(** Numbers and handlers, in the order of [install_handlers]. *)
Definition handlers : list (nat * Handler) :=
  [(0%nat, sys_yield mc); (1%nat, sys_nsec); (2%nat, sys_send mc); (3%nat, sys_recv mc); (4%nat, sys_map mc);
   (27%nat, sys_mmio_map mc); (28%nat, sys_cap_query mc); (30%nat, sys_device_cap_create mc);
   (5%nat, sys_vmo_create mc); (6%nat, sys_vmo_write mc); (46%nat, sys_vmo_destroy mc); (47%nat, sys_vmo_read mc);
   (7%nat, sys_spawn mc); (8%nat, sys_cap_transfer mc); (31%nat, sys_cap_transfer_to mc); (9%nat, sys_as_create mc);
   (10%nat, sys_as_map mc); (11%nat, sys_exit mc); (12%nat, sys_wait mc); (13%nat, sys_exec mc);
   (14%nat, sys_ipc_send_v1 mc); (17%nat, sys_exec_v2 mc); (18%nat, sys_ipc_recv_v1 mc);
   (19%nat, sys_ipc_endpoint_create); (20%nat, sys_cap_close mc); (24%nat, sys_cap_clone mc);
   (21%nat, sys_ipc_endpoint_close mc); (22%nat, sys_ipc_endpoint_create_v2 mc);
   (23%nat, sys_ipc_endpoint_create_for mc); (25%nat, sys_getpid); (15%nat, sys_task_qos mc); (48%nat, sys_sched mc);
   (49%nat, sys_as_self mc); (32%nat, sys_task_resume mc); (33%nat, sys_timer_create mc); (34%nat, sys_timer_set mc);
   (35%nat, sys_timer_cancel mc); (36%nat, sys_irq_bind mc); (37%nat, sys_irq_complete); (38%nat, sys_waitset_create mc);
   (39%nat, sys_waitset_add mc); (40%nat, sys_waitset_wait mc); (41%nat, sys_fence_create mc);
   (42%nat, sys_fence_signal mc); (43%nat, sys_fence_wait mc); (26%nat, sys_ipc_recv_v2 mc);
   (29%nat, sys_spawn_last_error mc); (16%nat, sys_debug_putc); (44%nat, sys_debug_write); (45%nat, sys_boot_mode);
   (50%nat, sys_boot_display_mode)].

Fixpoint register_all (l : list (nat * Handler)) (t : SyscallTable) : option SyscallTable :=
  match l with
  | [] => Some t
  | (number, handler) :: rest => SyscallTable_register number handler t ≫= register_all rest
  end.

Definition install_handlers (t : SyscallTable) : option SyscallTable := register_all handlers t.

End with_machine.

(** ** * The system-call table *)

Lemma register_all_complete (l : list (nat * Handler)) (t : list (option Handler)) :
  NoDup l.*1 → length t = MAX_SYSCALL → (∀ n, n ∈ l.*1 → (n < MAX_SYSCALL)%nat ∧ t !! n = Some None) →
  ∃ t', register_all l t = Some t' ∧ length t' = MAX_SYSCALL ∧
        (∀ n h, (n, h) ∈ l → t' !! n = Some (Some h)) ∧ (∀ n, n ∉ l.*1 → t' !! n = t !! n).
Proof.
  revert t. induction l as [|[n h] l IH]; intros t Hnd Hlen Hfree; simpl in *.
  - exists t. split_and!; try done. intros n h Hin. by apply not_elem_of_nil in Hin.
  - apply NoDup_cons in Hnd as [Hn Hnd]. destruct (Hfree n ltac:(set_solver)) as [Hlt Hnone].
    unfold SyscallTable_register, SyscallTable. rewrite bool_decide_eq_true_2 by done. rewrite Hnone. simpl.
    destruct (IH (<[n := Some h]> t)) as (t' & Hr & Hl' & Hin & Hout).
    + done.
    + by rewrite length_insert.
    + intros m Hm. split; [apply Hfree; set_solver|]. rewrite list_lookup_insert_ne by (intros ->; done).
      apply Hfree. set_solver.
    + exists t'. split_and!; try done.
      * intros m h' [[= -> ->]|Hm]%elem_of_cons; [|by apply Hin].
        rewrite Hout by done. apply list_lookup_insert_eq. lia.
      * intros m Hm. rewrite Hout by set_solver. apply list_lookup_insert_ne. set_solver.
Qed.

(** Installing the handlers never trips the duplicate-number assertion, each
    of the 51 numbers dispatches to exactly its handler, and every other number
    is refused with [InvalidSyscall] without touching the state. *)
Theorem dispatch_table_correct mc :
  ∃ t, install_handlers mc SyscallTable_new = Some t ∧
       (∀ n h args, (n, h) ∈ handlers mc → SyscallTable_dispatch t (Z.of_nat n) args = h args) ∧
       (∀ number args k, 0 ≤ number → Z.to_nat number ∉ (handlers mc).*1 →
          SyscallTable_dispatch t number args k = Some (Err SeInvalidSyscall, k)) ∧
       length (handlers mc) = 51%nat.
Proof.
  assert (Hnums : (handlers mc).*1 = [0;1;2;3;4;27;28;30;5;6;46;47;7;8;31;9;10;11;12;13;14;17;18;19;20;24;21;22;23;25;15;48;
                                      49;32;33;34;35;36;37;38;39;40;41;42;43;26;29;16;44;45;50]%nat) by done.
  destruct (register_all_complete (handlers mc) SyscallTable_new) as (t & Hr & Hl & Hin & Hout).
  - rewrite Hnums. apply (bool_decide_unpack _). by vm_compute.
  - done.
  - intros n Hn.
    assert (Hlt : (n < MAX_SYSCALL)%nat).
    { rewrite Hnums in Hn. unfold MAX_SYSCALL. clear -Hn. repeat (apply elem_of_cons in Hn as [->|Hn]; [lia|]).
      by apply not_elem_of_nil in Hn. }
    split; [done|]. by apply lookup_replicate_2.
  - unfold SyscallTable, Handler in *.
    assert (Hlt : ∀ n h, (n, h) ∈ handlers mc → Z.of_nat n < Z.of_nat MAX_SYSCALL).
    { intros n h Hnh. apply Hin, lookup_lt_Some in Hnh. lia. }
    exists t. split_and!; [done| | |done].
    + intros n h args Hnh. unfold SyscallTable_dispatch, SyscallTable, Handler. rewrite (proj2 (Z.ltb_lt _ _) (Hlt n h Hnh)).
      rewrite Nat2Z.id. by rewrite (Hin n h Hnh).
    + intros number args k Hpos Hno. unfold SyscallTable_dispatch, SyscallTable, Handler. destruct (Z.ltb_spec number (Z.of_nat MAX_SYSCALL)); [|done].
      rewrite Hout by done. unfold SyscallTable_new. by rewrite lookup_replicate_2 by lia.
Qed.

(** ** * A small concrete system

    One hart, the bootstrap task with an endpoint and the endpoint factory, and
    a user task; used to run handlers on concrete inputs. *)

Definition demo_layout : KernelLayout :=
  mkKernelLayout 0x80200000 0x80400000 0x80600000 0x80600000 0x80610000 0x80620000 0x80624000 0x80628000 0x8062c000 1.

Definition demo_mc : Machine :=
  mkMachine 0 (fun _ => true) (fun n => 1000 * Z.of_nat n) (fun _ => None) demo_layout false 0.

Definition demo_caps (l : list (nat * Capability)) : CapTable :=
  fold_left (fun t p => (CapTable_set t p.1 p.2).2) l CapTable_new.

Definition demo_user (pid : Z) (caps : CapTable) : Task :=
  mkTask pid (Some 0) Running None (mkTrapFrame (replicate 32 0) 0x10000 0 0 0) caps 0 Normal false None None None 0 0
    ALL_CPUS_MASK DEFAULT_SHARES None (Some 0%nat) [] ImageAllocs_new.

Definition demo_smp : Smp := mark_cpu_online Smp_init 0.

(** Tasks 0, 1, ..., the first runnable on hart 0 being [current]. *)
Definition demo_world (tasks : list Task) (current : Z) (queued : list Z) : World :=
  let s0 := sc_set_cpu (Scheduler_new 1000000) 0
              (rq_set_current (sc_cpu (Scheduler_new 1000000) 0) (Some (mkSTask current Normal))) in
  let s := fold_left (fun s pid => (Scheduler_enqueue_on_cpu s 0 pid Normal).2) queued s0 in
  mkWorld (mkTaskTable tasks (<[0%nat := current]> (replicate MAX_CPUS 0))) s demo_smp ∅ AddressSpaceManager_new 0.

Definition demo_kernel (w : World) (r : Router) : Kernel :=
  mkKernel w r HartTimers_new WaitsetTable_new FenceTable_new VmoPool_new (fun _ => 0) (replicate IRQ_TABLE_LEN 0)
    (replicate MAX_CPUS 0) (replicate MAX_CPUS 0) None 0.

Definition demo_table : SyscallTable := default [] (install_handlers demo_mc SyscallTable_new).

Definition cap_endpoint (id : Z) : Capability := mkCapability (CkEndpoint id) (rights_union SEND RECV).
Definition cap_factory : Capability := mkCapability CkEndpointFactory MANAGE.

Definition demo_boot : Kernel :=
  demo_kernel
    (demo_world [Task_set_caps (demo_caps [(0%nat, cap_endpoint 0); (2%nat, cap_factory)]) Task_bootstrap;
                 demo_user 1 (demo_caps [(0%nat, cap_endpoint 0)])] 0 [])
    (Router_new 1).

(** A system whose current task 1 has the first gigabyte mapped one to one. *)
Definition demo_root : Z := 0x81000000.
Definition demo_mm (k : Kernel) : Kernel :=
  k_set_world
    (w_set_mm (k_world k)
       {[ demo_root := <[0%nat := make_entry 0 (Z.lor (Z.lor PF_VALID PF_USER) (Z.lor PF_READ PF_WRITE))]> (replicate 512 0) ]}
       (mkAddressSpaceManager [Some (mkAddressSpace (mkPageTable demo_root [demo_root]) 1 {[1]})] AsidAllocator_new)) k.

Definition demo_task (pid : Z) (caps : CapTable) : Task :=
  mkTask pid (Some 0) Running None (mkTrapFrame (replicate 32 0) 0x10000 0 0 0) caps 0 Normal false None (Some 1) None 77 0
    ALL_CPUS_MASK DEFAULT_SHARES None (Some 0%nat) [] ImageAllocs_new.

Definition cap_vmo : Capability := mkCapability (CkVmo 0x84000000 4096) MAP.

(** Task 1 has a message header with a capability move at 0x1000, its payload at 0x2000. *)
Definition demo_header : MessageHeader := mkMessageHeader 3 0 7 1 2.
Definition demo_ipc : Kernel :=
  k_set_phys (store_phys (store_phys (fun _ => 0) 0x1000 (MessageHeader_to_le_bytes demo_header)) 0x2000 [65; 66])
    (demo_mm (demo_kernel
       (demo_world [Task_bootstrap; demo_task 1 (demo_caps [(0%nat, cap_endpoint 0); (3%nat, cap_vmo)])] 1 [])
       (Router_new 1))).
