(* ===== verification/SysLogic.v ===== *)
(** * Reasoning about handlers

    [hoare I m Q]: from a state with [I], whatever [m] does, [I] holds again
    when it ends — in success or in error — and a successful result satisfies
    [Q].  [I] is an invariant of the kernel state and [Q] a property of values,
    so the rules compose along the structure of a handler; the [handlers]
    database and [hstep] do the structural part. *)

From S2P Require Import Prelude Cap Ipc Sched Timer Sync PageTable AddressSpace Smp Task VmoPool Kernel SysTask SysCaps SysIpc SysSync SysVmo Exec.

Definition hoare {A} (I : Kernel → Prop) (m : Sys A) (Q : A → Prop) : Prop :=
  ∀ k r k', I k → m k = Some (r, k') → I k' ∧ (∀ a, r = Ok a → Q a).

(** The same for the loader's monad. *)
Definition hoareL {A} (I : Kernel → Prop) (J : LoadState → Prop) (m : Ld A) (Q : A → Prop) : Prop :=
  ∀ s k r s' k', I k → J s → m s k = Some (r, s', k') → I k' ∧ J s' ∧ (∀ a, r = Ok a → Q a).

Definition any {A} (_ : A) : Prop := True.

(** The two ways a sequence can end. *)
Lemma bind_inv {A B} (m : Sys A) (f : A → Sys B) k r k' :
  (m ≫= f) k = Some (r, k') →
  (∃ a k1, m k = Some (Ok a, k1) ∧ f a k1 = Some (r, k')) ∨ (∃ e, r = Err e ∧ m k = Some (Err e, k')).
Proof. unfold mbind, Sys_bind. destruct (m k) as [[[a|e] k1]|]; [eauto| |done]. intros [= <- <-]. eauto. Qed.

Section rules.
Context (I : Kernel → Prop).

Lemma hoare_ret {A} (a : A) (Q : A → Prop) : Q a → hoare I (mret a) Q.
Proof. intros HQ k r k' HI [= <- <-]. split; [done|]. by intros ? [= <-]. Qed.

Lemma hoare_bind {A B} (m : Sys A) (f : A → Sys B) (Q : A → Prop) (Q' : B → Prop) :
  hoare I m Q → (∀ a, Q a → hoare I (f a) Q') → hoare I (m ≫= f) Q'.
Proof.
  intros Hm Hf k r k' HI. unfold mbind, Sys_bind. destruct (m k) as [[[a|e] k1]|] eqn:E; [| |done].
  - destruct (Hm _ _ _ HI E) as [HI1 HQ]. apply (Hf a); auto.
  - intros [= <- <-]. destruct (Hm _ _ _ HI E) as [HI1 _]. done.
Qed.

Lemma hoare_weaken {A} (m : Sys A) (Q Q' : A → Prop) : hoare I m Q → (∀ a, Q a → Q' a) → hoare I m Q'.
Proof. intros Hm HQ k r k' HI E. destruct (Hm _ _ _ HI E). split; [done|]. eauto. Qed.

Lemma hoare_any {A} (m : Sys A) (Q : A → Prop) : hoare I m Q → hoare I m any.
Proof. intros. by eapply hoare_weaken. Qed.

Lemma hoare_fail {A} e (Q : A → Prop) : hoare I (fail e) Q.
Proof. by intros k r k' HI [= <- <-]. Qed.

Lemma hoare_panic {A} (Q : A → Prop) : hoare I panic Q.
Proof. by intros k r k' HI [=]. Qed.

Lemma hoare_gets {A} (f : Kernel → A) (Q : A → Prop) : (∀ k, I k → Q (f k)) → hoare I (gets f) Q.
Proof. intros HQ k r k' HI [= <- <-]. split; [done|]. intros a [= <-]. auto. Qed.

Lemma hoare_modify f : (∀ k, I k → I (f k)) → hoare I (modify f) any.
Proof. intros Hf k r k' HI [= <- <-]. split; [auto|done]. Qed.

Lemma hoare_state_op {A} (f : Kernel → A * Kernel) (Q : A → Prop) :
  (∀ k, I k → I (f k).2 ∧ Q (f k).1) → hoare I (state_op f) Q.
Proof.
  intros Hf k r k' HI. unfold state_op. specialize (Hf k HI). destruct (f k) as [a k1]. intros [= <- <-].
  split; [apply Hf|]. intros ? [= <-]. apply Hf.
Qed.

Lemma hoare_lift {A E} (inj : E → SysError) (r : result A E) (Q : A → Prop) :
  (∀ a, r = Ok a → Q a) → hoare I (lift inj r) Q.
Proof. intros HQ k x k' HI [= <- <-]. split; [done|]. destruct r; simpl; intros ? [=]. subst. auto. Qed.

Lemma hoare_require {A} e (o : option A) (Q : A → Prop) : (∀ a, o = Some a → Q a) → hoare I (require e o) Q.
Proof. intros HQ k x k' HI [= <- <-]. split; [done|]. destruct o; simpl; intros ? [=]. subst. auto. Qed.

Lemma hoare_check b e : hoare I (check b e) (fun _ => b = true).
Proof. intros k x k' HI [= <- <-]. split; [done|]. by destruct b. Qed.

Lemma hoare_user_slice ptr len : hoare I (user_slice ptr len) (fun _ => ensure_user_slice ptr len = Ok tt).
Proof. intros k x k' HI [= <- <-]. split; [done|]. intros [] ->. done. Qed.

Lemma hoare_now mc : (∀ k, I k → I (k_tick k)) → hoare I (now mc) any.
Proof. intros Ht k x k' HI [= <- <-]. split; [auto|done]. Qed.

Lemma hoare_current_pid mc : hoare I (current_pid mc) any.
Proof. by apply hoare_gets. Qed.

Lemma hoare_task_of pid : hoare I (task_of pid) any.
Proof. by apply hoare_gets. Qed.

Lemma hoare_current_task mc : hoare I (current_task mc) any.
Proof. intros k x k' HI. unfold current_task. case_match; intros [=]. subst. done. Qed.

Lemma hoare_current_caps mc : hoare I (current_caps mc) any.
Proof. eapply hoare_bind; [apply hoare_current_task|]. intros. by apply hoare_ret. Qed.

Lemma hoare_current_service_id mc : hoare I (current_service_id mc) any.
Proof. eapply hoare_bind; [apply hoare_current_task|]. intros. by apply hoare_ret. Qed.

Lemma hoare_derive_endpoint mc slot rights : hoare I (derive_endpoint mc slot rights) any.
Proof.
  eapply hoare_bind; [apply hoare_current_caps|]. intros t _.
  eapply (hoare_bind _ _ any); [by apply hoare_lift|]. intros. by apply hoare_ret.
Qed.

Lemma hoare_derive mc slot rights : hoare I (derive mc slot rights) any.
Proof. eapply hoare_bind; [apply hoare_current_caps|]. intros t _. by apply hoare_lift. Qed.

Lemma hoare_read_user mc va n : hoare I (read_user mc va n) any.
Proof. intros k x k' HI. unfold read_user. case_match; intros [=]. subst. done. Qed.

Lemma hoare_write_user mc va bytes : (∀ k m, I k → I (k_set_phys m k)) → hoare I (write_user mc va bytes) any.
Proof. intros Hm k x k' HI. unfold write_user. case_match; intros [=]. subst. split; [auto|done]. Qed.

Lemma hoare_assert_state ok : hoare I (assert_state ok) any.
Proof. intros k x k' HI. unfold assert_state. case_match; intros [=]. subst. done. Qed.

(** The loader's monad. *)
Context (J : LoadState → Prop).

Lemma hoareL_ret {A} (a : A) (Q : A → Prop) : Q a → hoareL I J (mret a) Q.
Proof. intros HQ s k r s' k' HI HJ [= <- <- <-]. split_and!; [done..|]. by intros ? [= <-]. Qed.

Lemma hoareL_bind {A B} (m : Ld A) (f : A → Ld B) (Q : A → Prop) (Q' : B → Prop) :
  hoareL I J m Q → (∀ a, Q a → hoareL I J (f a) Q') → hoareL I J (m ≫= f) Q'.
Proof.
  intros Hm Hf s k r s' k' HI HJ. unfold mbind, Ld_bind. destruct (m s k) as [[[[a|e] s1] k1]|] eqn:E; [| |done].
  - destruct (Hm _ _ _ _ _ HI HJ E) as (HI1 & HJ1 & HQ). apply (Hf a); auto.
  - intros [= <- <- <-]. destruct (Hm _ _ _ _ _ HI HJ E) as (HI1 & HJ1 & _). done.
Qed.

Lemma hoareL_embed {A} (m : Sys A) (Q : A → Prop) : hoare I m Q → hoareL I J (embed m) Q.
Proof.
  intros Hm s k r s' k' HI HJ. unfold embed. destruct (m k) as [[r1 k1]|] eqn:E; intros [=]. subst.
  destruct (Hm _ _ _ HI E). done.
Qed.

Lemma hoareL_modify f : (∀ s, J s → J (f s)) → hoareL I J (ls_modify f) any.
Proof. intros Hf s k r s' k' HI HJ [= <- <- <-]. split_and!; auto. by intros. Qed.

Lemma hoareL_gets {A} (f : LoadState → A) (Q : A → Prop) : (∀ s, J s → Q (f s)) → hoareL I J (ls_gets f) Q.
Proof. intros HQ s k r s' k' HI HJ [= <- <- <-]. split_and!; [done..|]. intros a [= <-]. auto. Qed.

End rules.

(** ** The interface of an invariant

    What a property of the kernel state must be closed under for every handler
    to keep it: [S] holds of every capability a task holds or receives, [M] of
    every queued message.  Handlers are proved against this interface; each
    property of the development discharges it once. *)

Definition benign (f : Task → Task) : Prop :=
  ∀ t, tk_caps (f t) = tk_caps t ∧ tk_state (f t) = tk_state t ∧ tk_blocked (f t) = tk_blocked t ∧
       tk_exit_code (f t) = tk_exit_code t.

Definition caps_sat (S : Capability → Prop) (t : CapTable) : Prop := ∀ i c, cap_slots t !! i = Some (Some c) → S c.
Definition router_sat (M : Message → Prop) (r : Router) : Prop :=
  ∀ ep msg, ep ∈ rt_endpoints r → msg ∈ ep_queue ep → M msg.

Class HandlerInv (mc : Machine) (I : Kernel → Prop) (S : Capability → Prop) (M : Message → Prop) : Prop := {
  hi_tick k : I k → I (k_tick k);
  hi_phys k m : I k → I (k_set_phys m k);
  hi_alloc k len : I k →
    let '(r, m, p) := VmoPool_allocate (k_phys k) (k_pool k) (as_usize len) in
    I (k_set_phys m (k_set_pool p k)) ∧ (∀ b l, r = Ok (b, l) → S (mkCapability (CkVmo b l) MAP));
  hi_nozero k len : I k → I (k_set_pool (VmoPool_allocate_nozero (k_pool k) (as_usize len)).2 k);
  hi_free k base len : I k →
    let '(_, m, p) := VmoPool_free (k_phys k) (k_pool k) (as_usize base) (as_usize len) in I (k_set_phys m (k_set_pool p k));
  hi_timers k h : I k → I (k_set_timers h k);
  hi_waitsets k t : I k → I (k_set_waitsets t k);
  hi_fences k t : I k → I (k_set_fences t k);
  hi_irq k l : I k → I (k_set_irq l k);
  hi_armed k l : I k → I (k_set_armed l k);
  hi_satp k l : I k → I (k_set_satp l k);
  hi_last k o : I k → I (k_set_last_message o k);
  hi_mm k m mg : I k → I (k_set_world (w_set_mm (k_world k) m mg) k);
  hi_update k pid f : benign f → I k → I (k_set_table (TaskTable_update f pid (k_table k)) k);
  hi_qos k pid q : I k → I (k_set_world (w_set_sched (k_world k) (Scheduler_set_task_qos (w_sched (k_world k)) pid q).2) k);
  hi_yield k : I k → I (k_set_world (w_set_sched (k_world k) (Scheduler_yield_current (mc_hart mc) (w_sched (k_world k)))) k);
  hi_wake k env pid : I k → I (k_set_world (TaskTable_wake env (k_world k) pid).2 k);
  hi_block k ipi reason : I k → I (k_set_world (TaskTable_block_current (mkEnv (mc_hart mc) ipi) (k_world k) reason) k);
  hi_schedule k : I k →
    let '(next, s) := Scheduler_schedule_next (mc_hart mc) (w_sched (k_world k)) in
    let k1 := k_set_world (w_set_sched (k_world k) s) k in
    match next with
    | Some pid => I (k_set_table (TaskTable_set_current (mc_hart mc) (k_table k1) pid) k1)
    | None => I k1
    end;
  hi_resume k env pid : I k → I (k_set_world (TaskTable_resume_task env (k_world k) pid).2 k);
  hi_spawn k env parent entry sp space gp slot r w : I k →
    TaskTable_spawn (mc_alloc mc) (mc_layout mc) env (k_world k) parent entry sp space gp slot = Some (r, w) →
    I (k_set_world w k);
  hi_reap k target : I k → I (k_set_world (TaskTable_reap_child (mc_hart mc) (k_world k) target).2 k);
  hi_caps k pid t : I k → TaskTable_task (k_table k) pid = Some t → caps_sat S (tk_caps t);
  hi_set_caps k pid c : I k → caps_sat S c → I (k_set_table (TaskTable_update (Task_set_caps c) pid (k_table k)) k);
  hi_router k r : I k → router_sat M r → I (k_set_router r k);
  hi_msgs k : I k → router_sat M (k_router k);
  hi_derive c rights : S c → rights_sub rights (cap_rights c) → S (mkCapability (cap_kind c) rights);
  hi_plain msg : msg_moved_cap msg = None → M msg;
  hi_send sid h p c : S c → M (send_message sid h p (Some c));
  hi_recv msg c : M msg → msg_moved_cap msg = Some c →
    S (expected_cap (msg_capmove_expected_ep msg) c) ∧
    M (msg_set_moved (Some (expected_cap (msg_capmove_expected_ep msg) c)) msg)
}.

(** ** Router operations keep what holds of every queued message *)

Section router.
Context (M : Message → Prop).

Lemma router_sat_put r id ep : router_sat M r → Forall M (ep_queue ep) → router_sat M (rt_put_endpoint r id ep).
Proof.
  intros Hr Hep ep' msg. unfold rt_put_endpoint. simpl. intros (i & Hi)%list_elem_of_lookup Hm.
  apply list_lookup_insert_Some in Hi as [(_ & <- & _)|(_ & Hi)].
  - by eapply Forall_forall in Hm; [|done].
  - eapply Hr; [|done]. by eapply list_elem_of_lookup_2.
Qed.

Lemma router_sat_queue r id ep : router_sat M r → rt_endpoint r id = Some ep → Forall M (ep_queue ep).
Proof. intros Hr Hep. apply Forall_forall. intros msg Hm. eapply Hr; [|done]. by eapply list_elem_of_lookup_2. Qed.

Lemma router_sat_endpoints r r' : rt_endpoints r' = rt_endpoints r → router_sat M r → router_sat M r'.
Proof. unfold router_sat. by intros ->. Qed.

Lemma router_sat_live {A} r id (f : Endpoint → A * Endpoint) :
  router_sat M r → (∀ ep, ep_queue (f ep).2 = ep_queue ep) → router_sat M (with_live_endpoint r id f).2.
Proof.
  intros Hr Hf. unfold with_live_endpoint. destruct (rt_endpoint r id) as [ep|] eqn:E; [|done].
  destruct (negb (ep_alive ep)); [done|]. specialize (Hf ep). destruct (f ep) as [a ep']. simpl in *.
  apply router_sat_put; [done|]. rewrite Hf. by eapply router_sat_queue.
Qed.

Lemma account_push_endpoints r o n : rt_endpoints (account_push r o n) = rt_endpoints r.
Proof. by destruct r, o. Qed.
Lemma account_pop_endpoints r o n : rt_endpoints (account_pop r o n) = rt_endpoints r.
Proof. by destruct r, o. Qed.

Lemma router_sat_send r id msg : router_sat M r → M msg → router_sat M (Router_send_returning_message r id msg).2.
Proof.
  intros Hr Hm. unfold Router_send_returning_message. repeat (case_match; [done|]).
  destruct (rt_endpoint r id) as [ep|] eqn:E; [|done]. pose proof (router_sat_queue _ _ _ Hr E) as Hq.
  destruct (Endpoint_push ep msg) as [res ep'] eqn:Ep. simpl.
  assert (Hp : router_sat M (rt_put_endpoint r id ep')).
  { apply router_sat_put; [done|]. unfold Endpoint_push in Ep. repeat case_match; simplify_eq/=; try done.
    apply Forall_app. auto. }
  case_match; [|done]. eapply router_sat_endpoints; [apply account_push_endpoints|done].
Qed.

Lemma router_sat_recv r id :
  router_sat M r → router_sat M (Router_recv r id).2 ∧ (∀ msg, (Router_recv r id).1 = Ok msg → M msg).
Proof.
  intros Hr. unfold Router_recv. destruct (rt_endpoint r id) as [ep|] eqn:E; [|done].
  pose proof (router_sat_queue _ _ _ Hr E) as Hq.
  destruct (Endpoint_pop ep) as [res ep'] eqn:Ep.
  assert (Hp : Forall M (ep_queue ep') ∧ (∀ msg, res = Ok msg → M msg)).
  { unfold Endpoint_pop in Ep. destruct (negb (ep_alive ep)); [by simplify_eq|].
    destruct (ep_queue ep) as [|msg q] eqn:Eq; simplify_eq/=; [by rewrite Eq|].
    apply Forall_cons in Hq as [? ?]. split; [done|]. by intros ? [= <-]. }
  destruct Hp as [Hp1 Hp2]. pose proof (router_sat_put _ id _ Hr Hp1) as Hput. simpl.
  split; [|done]. case_match; [|done]. eapply router_sat_endpoints; [apply account_pop_endpoints|done].
Qed.

Lemma router_sat_requeue r id msg : router_sat M r → M msg → router_sat M (Router_requeue_front r id msg).2.
Proof.
  intros Hr Hm. unfold Router_requeue_front. repeat (case_match; [done|]).
  destruct (rt_endpoint r id) as [ep|] eqn:E; [|done]. pose proof (router_sat_queue _ _ _ Hr E) as Hq.
  destruct (Endpoint_push_front ep msg) as [res ep'] eqn:Ep. simpl.
  assert (Hp : router_sat M (rt_put_endpoint r id ep')).
  { apply router_sat_put; [done|]. unfold Endpoint_push_front in Ep. repeat case_match; simplify_eq/=; try done.
    by constructor. }
  case_match; [|done]. eapply router_sat_endpoints; [apply account_push_endpoints|done].
Qed.

Lemma router_sat_waiters r id pid :
  router_sat M r →
  router_sat M (Router_register_recv_waiter r id pid).2 ∧ router_sat M (Router_register_send_waiter r id pid).2 ∧
  router_sat M (Router_remove_recv_waiter r id pid).2 ∧ router_sat M (Router_remove_send_waiter r id pid).2.
Proof.
  intros Hr. split_and!; apply router_sat_live; try done; intros ep; simpl.
  - unfold Endpoint_register_recv_waiter. by repeat case_match.
  - unfold Endpoint_register_send_waiter. by repeat case_match.
Qed.

Lemma router_sat_pops r id :
  router_sat M r → router_sat M (Router_pop_recv_waiter r id).2 ∧ router_sat M (Router_pop_send_waiter r id).2.
Proof.
  intros Hr. split; apply router_sat_live; try done; intros ep.
  - unfold Endpoint_pop_recv_waiter. by repeat case_match.
  - unfold Endpoint_pop_send_waiter. by repeat case_match.
Qed.

Lemma router_sat_create r depth owner : router_sat M r → router_sat M (Router_create_endpoint r depth owner).2.
Proof.
  intros Hr. unfold Router_create_endpoint. repeat (case_match; [done|]). intros ep msg. simpl.
  intros [?|?%list_elem_of_singleton]%elem_of_app Hm; [by eapply Hr|]. subst. simpl in Hm. set_solver.
Qed.

Lemma router_sat_close r id : router_sat M r → router_sat M (Router_close_endpoint r id).2.
Proof.
  intros Hr. unfold Router_close_endpoint. destruct (rt_endpoint r id) as [ep|]; [|done].
  destruct (negb (ep_alive ep)); [done|]. simpl.
  apply (router_sat_endpoints (rt_put_endpoint r id (ep_closed ep))); [done|]. apply router_sat_put; [done|]. constructor.
Qed.

Lemma close_owned_queues owner eps ep' :
  ep' ∈ (close_owned_loop owner eps).2 → ep_queue ep' = [] ∨ ep' ∈ eps.
Proof.
  induction eps as [|ep eps IH]; simpl; [by right|].
  destruct (Endpoint_close_if_owned_by ep owner) as [d e1] eqn:E.
  destruct (close_owned_loop owner eps) as [out rest]. simpl in *. intros [->|H]%elem_of_cons.
  - unfold Endpoint_close_if_owned_by in E. repeat case_match; simplify_eq; [right; set_solver|by left].
  - destruct (IH H); [by left|right; set_solver].
Qed.

Lemma router_sat_close_owner r owner : router_sat M r → router_sat M (Router_close_endpoints_for_owner r owner).2.
Proof.
  intros Hr. unfold Router_close_endpoints_for_owner.
  pose proof (close_owned_queues owner (rt_endpoints r)) as Hq.
  destruct (close_owned_loop owner (rt_endpoints r)) as [out eps]. simpl in *.
  intros ep msg Hep Hm. simpl in Hep. destruct (Hq ep Hep) as [E|E]; [by rewrite E in Hm; set_solver|by eapply Hr].
Qed.

Lemma router_sat_forget r pid : router_sat M r → router_sat M (Router_remove_waiter_from_all r pid).
Proof.
  intros Hr ep msg. simpl. intros (e & -> & He)%list_elem_of_fmap Hm. by eapply Hr.
Qed.

End router.
