(* ===== verification/HandlerLaws.v ===== *)
(** * Every handler keeps what the interface [HandlerInv] describes

    The primitives first, then the handlers, by the structure of their code. *)

From S2P Require Import Prelude Cap Ipc Sched Timer Sync PageTable AddressSpace Smp Task VmoPool Kernel SysTask SysCaps SysIpc SysSync SysVmo Exec SysLogic.

Create HintDb hoare discriminated.
#[export] Hint Resolve hoare_fail hoare_panic hoare_check hoare_user_slice hoare_current_pid hoare_task_of
  hoare_current_task hoare_current_service_id hoare_derive_endpoint hoare_read_user hoare_assert_state : hoare.

Lemma hoare_gets_any I {A} (f : Kernel → A) : hoare I (gets f) any.
Proof. by apply hoare_gets. Qed.
Lemma hoare_lift_any I {A E} (inj : E → SysError) (r : result A E) : hoare I (lift inj r) any.
Proof. by apply hoare_lift. Qed.
Lemma hoare_require_any I {A} e (o : option A) : hoare I (require e o) any.
Proof. by apply hoare_require. Qed.
Lemma hoare_ret_any I {A} (a : A) : hoare I (mret a) any.
Proof. by apply hoare_ret. Qed.
#[export] Hint Resolve hoare_gets_any hoare_lift_any hoare_require_any hoare_ret_any : hoare.

(** Follow the code: binds, conditionals and matches; primitives by the hints. *)
Ltac hprim := first [ solve [eauto with hoare] | eapply hoare_any; solve [eauto with hoare] ].
Ltac hstep :=
  lazymatch goal with
  | |- hoare _ (mbind ?f ?m) _ =>
      lazymatch m with
      | match _ with _ => _ end => eapply (hoare_bind _ m f any)
      | mbind _ _ => eapply (hoare_bind _ m f any)
      | _ => first [ eapply (hoare_bind _ m f); [solve [eauto with hoare]|] | eapply (hoare_bind _ m f any) ]
      end
  | |- hoare _ (match ?x with _ => _ end) _ => destruct x eqn:?
  | |- hoare _ ?m _ => hprim
  end.
Ltac hgo := intros; repeat (hstep; intros).

(** ** Capability tables *)

Section caps.
Context (S : Capability → Prop).

Lemma caps_sat_write t i o : caps_sat S t → (∀ c, o = Some c → S c) → caps_sat S (mkCapTable (<[i := o]> (cap_slots t))).
Proof.
  intros Ht Ho j c. simpl. intros [(_ & -> & _)|(_ & Hj)]%list_lookup_insert_Some; [by apply Ho|by eapply Ht].
Qed.

Lemma caps_sat_set t i c : caps_sat S t → S c → caps_sat S (CapTable_set t i c).2.
Proof.
  intros Ht Hc. unfold CapTable_set. repeat case_match; try done. apply caps_sat_write; [done|]. by intros ? [= <-].
Qed.

Lemma caps_sat_set_if_empty t i c : caps_sat S t → S c → caps_sat S (CapTable_set_if_empty t i c).2.
Proof.
  intros Ht Hc. unfold CapTable_set_if_empty. repeat case_match; try done.
  apply caps_sat_write; [done|]. by intros ? [= <-].
Qed.

Lemma allocate_loop_elem i l c i' l' j x :
  allocate_loop i l c = Some (i', l') → l' !! j = Some (Some x) → x = c ∨ l !! j = Some (Some x).
Proof.
  revert i l' j. induction l as [|[y|] l IH]; intros i l' j; simpl; [done| |].
  - destruct (allocate_loop (Datatypes.S i) l c) as [[i1 r1]|] eqn:E; [|done]. intros [= <- <-].
    destruct j as [|j]; simpl; [by right|]. by eapply IH.
  - intros [= <- <-]. destruct j as [|j]; simpl; [intros [= <-]; by left|by right].
Qed.

Lemma caps_sat_allocate t c : caps_sat S t → S c → caps_sat S (CapTable_allocate t c).2.
Proof.
  intros Ht Hc. unfold CapTable_allocate. destruct (allocate_loop 0 (cap_slots t) c) as [[i l]|] eqn:E; [|done].
  intros j x Hj. simpl in Hj. destruct (allocate_loop_elem _ _ _ _ _ _ _ E Hj) as [->|H]; [done|by eapply Ht].
Qed.

Lemma allocate_high_elem n l c i l' j x :
  allocate_high_loop n l c = Some (i, l') → l' !! j = Some (Some x) → x = c ∨ l !! j = Some (Some x).
Proof.
  induction n as [|n IH]; simpl; [done|]. destruct (l !! n) as [[y|]|]; try apply IH.
  intros [= <- <-] [(_ & [= <-] & _)|(_ & Hj)]%list_lookup_insert_Some; auto.
Qed.

Lemma caps_sat_allocate_high t c : caps_sat S t → S c → caps_sat S (CapTable_allocate_high t c).2.
Proof.
  intros Ht Hc. unfold CapTable_allocate_high.
  destruct (allocate_high_loop (length (cap_slots t)) (cap_slots t) c) as [[i l]|] eqn:E; [|done].
  intros j x Hj. simpl in Hj. destruct (allocate_high_elem _ _ _ _ _ _ _ E Hj) as [->|H]; [done|by eapply Ht].
Qed.

Lemma caps_sat_get t i c : caps_sat S t → CapTable_get t i = Ok c → S c.
Proof.
  intros Ht. unfold CapTable_get. destruct (cap_slots t !! i) as [[x|]|] eqn:E; intros [=]. subst. by eapply Ht.
Qed.

Lemma caps_sat_take t i :
  caps_sat S t → caps_sat S (CapTable_take t i).2 ∧ (∀ c, (CapTable_take t i).1 = Ok c → S c).
Proof.
  intros Ht. unfold CapTable_take. destruct (cap_slots t !! i) as [[x|]|] eqn:E; simpl; split; try done.
  all: try (apply caps_sat_write; [done|]; done).
  intros c [= <-]. by eapply Ht.
Qed.

Lemma caps_sat_new : caps_sat S CapTable_new.
Proof. intros i c Hi. by apply (lookup_replicate DEFAULT_CAP_SLOTS) in Hi as [[=] _]. Qed.

Lemma caps_sat_default : caps_sat S CapTable_default.
Proof. by intros i c. Qed.

End caps.

Section handlers.
Context {mc : Machine} {I : Kernel → Prop} {S : Capability → Prop} {M : Message → Prop}.
Context `{!HandlerInv mc I S M}.

(** ** Primitives *)

Lemma h_router_op {A} (f : Router → A * Router) (Q : A → Prop) :
  (∀ r, router_sat M r → router_sat M (f r).2 ∧ Q (f r).1) → hoare I (router_op f) Q.
Proof.
  intros Hf. apply hoare_state_op. intros k HI. specialize (Hf (k_router k) (hi_msgs k HI)).
  destruct (f (k_router k)) as [a r]. simpl in *. split; [|apply Hf]. apply hi_router; [done|apply Hf].
Qed.

Lemma h_router_any {A} (f : Router → A * Router) :
  (∀ r, router_sat M r → router_sat M (f r).2) → hoare I (router_op f) any.
Proof. intros Hf. apply h_router_op. intros r Hr. split; [auto|done]. Qed.

Lemma h_world {A} (f : Env → World → A * World) :
  (∀ k ipi, I k → I (k_set_world (f (mkEnv (mc_hart mc) ipi) (k_world k)).2 k)) → hoare I (world_op mc f) any.
Proof.
  intros Hf. apply hoare_state_op. intros k HI. specialize (Hf k (mc_ipi mc (k_events k)) HI). unfold env_of.
  destruct (f _ (k_world k)) as [a w]. simpl in *. split; [by apply hi_tick|done].
Qed.

Lemma h_wake pid : hoare I (wake mc pid) any.
Proof. apply h_world. intros. simpl. by apply hi_wake. Qed.

Lemma h_block reason : hoare I (block_current mc reason) any.
Proof. apply h_world. intros. simpl. by apply hi_block. Qed.

Lemma h_update pid f : benign f → hoare I (update_task pid f) any.
Proof. intros Hf. apply hoare_modify. intros. by apply hi_update. Qed.

Lemma h_now : hoare I (now mc) any.
Proof. apply hoare_now. intros. by apply hi_tick. Qed.

Lemma h_current_caps : hoare I (current_caps mc) (caps_sat S).
Proof.
  unfold current_caps, current_task. intros k r k' HI. unfold mbind, Sys_bind.
  destruct (TaskTable_task _ _) as [t|] eqn:E; [|done]. intros [= <- <-]. split; [done|]. intros ? [= <-].
  by eapply hi_caps.
Qed.

Lemma h_caps_op {A} (f : CapTable → A * CapTable) (Q : A → Prop) :
  (∀ t, caps_sat S t → caps_sat S (f t).2 ∧ Q (f t).1) → hoare I (caps_op mc f) Q.
Proof.
  intros Hf. eapply hoare_bind; [apply h_current_caps|]. intros t Ht.
  eapply hoare_bind; [apply hoare_current_pid|]. intros pid _. specialize (Hf t Ht).
  destruct (f t) as [a t1]. simpl in *. eapply (hoare_bind _ _ _ any).
  - apply hoare_modify. intros. by apply hi_set_caps; [|apply Hf].
  - intros _ _. apply hoare_ret, Hf.
Qed.

Lemma h_caps_try {A} (f : CapTable → result A CapError * CapTable) (Q : A → Prop) :
  (∀ t, caps_sat S t → caps_sat S (f t).2 ∧ (∀ a, (f t).1 = Ok a → Q a)) → hoare I (caps_try mc f) Q.
Proof.
  intros Hf. eapply (hoare_bind _ _ _ (fun r => ∀ a, r = Ok a → Q a)); [by apply h_caps_op|].
  intros r Hr. apply hoare_lift. auto.
Qed.

Lemma h_take slot : hoare I (caps_try mc (fun t => CapTable_take t slot)) S.
Proof. apply h_caps_try. intros. by apply caps_sat_take. Qed.

Lemma h_set slot c : S c → hoare I (caps_op mc (fun t => CapTable_set t slot c)) any.
Proof. intros Hc. apply h_caps_op. intros. split; [by apply caps_sat_set|done]. Qed.

Lemma h_allocate c : S c → hoare I (caps_op mc (fun t => CapTable_allocate t c)) any.
Proof. intros Hc. apply h_caps_op. intros. split; [by apply caps_sat_allocate|done]. Qed.

Lemma h_allocate_try c : S c → hoare I (caps_try mc (fun t => CapTable_allocate t c)) any.
Proof. intros Hc. apply h_caps_try. intros. split; [by apply caps_sat_allocate|done]. Qed.

Lemma h_get t slot inj : caps_sat S t → hoare I (lift inj (CapTable_get t slot)) S.
Proof. intros Ht. apply hoare_lift. intros c Hc. by eapply caps_sat_get. Qed.

Lemma h_router_waiters id pid :
  hoare I (router_op (fun r => Router_register_recv_waiter r id pid)) any ∧
  hoare I (router_op (fun r => Router_register_send_waiter r id pid)) any ∧
  hoare I (router_op (fun r => Router_remove_recv_waiter r id pid)) any ∧
  hoare I (router_op (fun r => Router_remove_send_waiter r id pid)) any.
Proof. split_and!; apply h_router_any; intros r Hr; by apply router_sat_waiters. Qed.

Lemma h_register_recv id pid : hoare I (router_op (fun r => Router_register_recv_waiter r id pid)) any.
Proof. apply h_router_waiters. Qed.
Lemma h_register_send id pid : hoare I (router_op (fun r => Router_register_send_waiter r id pid)) any.
Proof. apply h_router_waiters. Qed.
Lemma h_remove_recv id pid : hoare I (router_op (fun r => Router_remove_recv_waiter r id pid)) any.
Proof. apply h_router_waiters. Qed.
Lemma h_remove_send id pid : hoare I (router_op (fun r => Router_remove_send_waiter r id pid)) any.
Proof. apply h_router_waiters. Qed.

Lemma h_recv id :
  hoare I (router_op (fun r => Router_recv r id)) (fun x => ∀ msg, x = Ok msg → M msg).
Proof. apply h_router_op. intros r Hr. by apply router_sat_recv. Qed.

Lemma h_write_user va bytes : hoare I (write_user mc va bytes) any.
Proof. apply hoare_write_user. intros. by apply hi_phys. Qed.

Lemma h_spaces {A} f : hoare I (spaces_op (A := A) f) any.
Proof.
  intros k x k' HI. unfold spaces_op. destruct (f _ _) as [[[r m] mg]|]; [|done]. intros [= <- <-].
  split; [by apply hi_mm|done].
Qed.

End handlers.

#[export] Hint Resolve h_wake h_block h_now h_current_caps h_take h_register_recv h_register_send h_remove_recv
  h_remove_send h_recv h_write_user h_spaces : hoare.

Section shared.
Context {mc : Machine} {I : Kernel → Prop} {S : Capability → Prop} {M : Message → Prop}.
Context `{!HandlerInv mc I S M}.

Lemma h_wake_all pids : hoare I (wake_all mc pids) any.
Proof. induction pids; simpl; hgo. Qed.

Lemma h_arm_wakeup d : hoare I (arm_wakeup mc d) any.
Proof. unfold arm_wakeup. hgo. apply hoare_modify. intros. by apply hi_armed. Qed.

Lemma h_expired d : hoare I (expired mc d) any.
Proof. unfold expired. hgo. Qed.

Lemma h_remove_recv_all eps pid : hoare I (remove_recv_all eps pid) any.
Proof. induction eps; simpl; hgo. Qed.

Lemma h_register_recv_all eps pid : hoare I (register_recv_all eps pid) any.
Proof. induction eps; simpl; hgo. Qed.

Lemma h_set_fences f : hoare I (modify (fun k => k_set_fences (f k) k)) any.
Proof. apply hoare_modify. intros. by apply hi_fences. Qed.

#[local] Hint Resolve h_wake_all h_arm_wakeup h_expired h_remove_recv_all h_register_recv_all h_set_fences : hoare.

Lemma h_wake_expired_one t pid : hoare I (wake_expired_one mc t pid) any.
Proof. unfold wake_expired_one. hgo. Qed.
#[local] Hint Resolve h_wake_expired_one : hoare.

Lemma h_wake_expired_loop t pids : hoare I (wake_expired_loop mc t pids) any.
Proof. induction pids; simpl; hgo. Qed.
#[local] Hint Resolve h_wake_expired_loop : hoare.

Lemma h_wake_expired_blocked : hoare I (wake_expired_blocked mc) any.
Proof. unfold wake_expired_blocked. hgo. Qed.
#[local] Hint Resolve h_wake_expired_blocked : hoare.

(** Scheduling and switching are one step of the interface. *)
Lemma h_switch {A} (f : Z → Sys A) (g : Sys A) Q :
  (∀ pid, hoare I (f pid) Q) → hoare I g Q →
  hoare I (next ← schedule_next mc; match next with Some pid => _ ← set_current mc pid; f pid | None => g end) Q.
Proof.
  intros Hf Hg k r k' HI. pose proof (hi_schedule k HI) as Hs. unfold mbind, Sys_bind, schedule_next, state_op.
  destruct (Scheduler_schedule_next (mc_hart mc) (w_sched (k_world k))) as [[pid|] s]; simpl in *.
  - intros E. by eapply Hf.
  - intros E. by eapply Hg.
Qed.

Lemma h_switch_or_wake {A} cur (undo : Sys unit) (Q : A → Prop) :
  hoare I undo any → hoare I (switch_or_wake mc cur undo) Q.
Proof.
  intros Hu. apply h_switch; [intros; apply hoare_fail|]. eapply hoare_bind; [done|]. intros _ _.
  eapply hoare_bind; [apply h_wake|]. intros. apply hoare_fail.
Qed.

Lemma h_wake_waiter pop :
  (∀ r, router_sat M r → router_sat M (pop r).2) → hoare I (wake_waiter mc pop) any.
Proof. intros Hp. unfold wake_waiter. eapply hoare_bind; [by apply h_router_any|]. hgo. Qed.

Lemma h_wake_recv id : hoare I (wake_waiter mc (fun r => Router_pop_recv_waiter r id)) any.
Proof. apply h_wake_waiter. intros. by apply router_sat_pops. Qed.
Lemma h_wake_send id : hoare I (wake_waiter mc (fun r => Router_pop_send_waiter r id)) any.
Proof. apply h_wake_waiter. intros. by apply router_sat_pops. Qed.

End shared.

#[export] Hint Resolve h_wake_all h_arm_wakeup h_expired h_remove_recv_all h_register_recv_all h_set_fences
  h_wake_expired_blocked h_wake_recv h_wake_send : hoare.

(** ** IPC *)

Section ipc.
Context {mc : Machine} {I : Kernel → Prop} {S : Capability → Prop} {M : Message → Prop}.
Context `{!HandlerInv mc I S M}.

Lemma router_sat_send_plain r id msg : router_sat M r → M msg → router_sat M (Router_send r id msg).2.
Proof.
  intros Hr Hm. pose proof (router_sat_send M r id msg Hr Hm) as Hs. unfold Router_send.
  by destruct (Router_send_returning_message r id msg).
Qed.

Lemma h_sys_send args : hoare I (sys_send mc args) any.
Proof.
  unfold sys_send. hstep. intros a _. eapply (hoare_bind _ _ _ any); [|hgo].
  apply h_router_any. intros r Hr. apply router_sat_send_plain; [done|]. by apply hi_plain.
Qed.

Lemma h_sys_recv args : hoare I (sys_recv mc args) any.
Proof. unfold sys_recv. hgo. apply hoare_modify. intros. by apply hi_last. Qed.

Lemma h_take_moved slot : hoare I (take_moved_cap mc slot) S.
Proof.
  unfold take_moved_cap. eapply hoare_bind; [apply h_take|]. intros c Hc.
  assert (Hr : ∀ e, hoare I (_ ← caps_op mc (fun t => CapTable_set t slot c); fail e) S).
  { intros e. eapply hoare_bind; [by apply h_set|]. intros. apply hoare_fail. }
  case_match; [apply Hr|]. case_match; try (by apply hoare_ret).
  eapply hoare_bind; [apply hoare_gets_any|]. intros [] _; [by apply hoare_ret|apply Hr].
Qed.

Lemma h_restore slot msg : (∀ c, msg_moved_cap msg = Some c → S c) → hoare I (restore_cap mc slot msg) any.
Proof.
  intros Hm. unfold restore_cap. destruct slot as [i|]; [|by apply hoare_ret].
  destruct (msg_moved_cap msg) as [c|]; [|by apply hoare_ret].
  eapply hoare_bind; [apply h_set; auto|]. intros. by apply hoare_ret.
Qed.

(** A failed send gives the message back unchanged. *)
Lemma send_returns_message r id msg e m :
  (Router_send_returning_message r id msg).1 = Err (e, m) → m = msg.
Proof.
  unfold Router_send_returning_message. repeat (case_match; [by intros; simplify_eq/=|]).
  destruct (rt_endpoint r id) as [ep|]; [|by intros; simplify_eq/=].
  destruct (Endpoint_push ep msg) as [res ep'] eqn:E. simpl. intros ->.
  unfold Endpoint_push in E. repeat case_match; by simplify_eq.
Qed.

Lemma h_send_attempt ep nonblock d h p slot : hoare I (send_attempt mc ep nonblock d h p slot) any.
Proof.
  unfold send_attempt. eapply (hoare_bind _ _ _ (fun o => ∀ c, o = Some c → S c)).
  { case_match; [|by apply hoare_ret]. eapply hoare_bind; [apply h_take_moved|]. intros c Hc. apply hoare_ret.
    by intros ? [= <-]. }
  intros moved Hmoved. hstep. intros sid _.
  set (msg := send_message sid h p moved).
  assert (HM : M msg).
  { destruct moved as [c|]; [by apply hi_send, Hmoved|by apply hi_plain]. }
  assert (Hmsg : msg_moved_cap msg = moved) by done.
  eapply (hoare_bind _ _ _ (fun x => ∀ e m, x = Err (e, m) → m = msg)).
  { apply h_router_op. intros r Hr. split; [by apply router_sat_send|]. intros e m. apply send_returns_message. }
  intros [[]|[e m]] Hx; [apply h_wake_recv|]. rewrite (Hx e m eq_refl).
  eapply hoare_bind; [apply h_restore; by rewrite Hmsg|]. intros _ _.
  case_match; [|apply hoare_fail]. hgo. apply h_switch_or_wake. hgo.
Qed.

Lemma h_sys_ipc_send_v1 args : hoare I (sys_ipc_send_v1 mc args) any.
Proof. unfold sys_ipc_send_v1. hgo. apply h_send_attempt. Qed.

Lemma h_received ep msg : M msg → hoare I (received mc ep msg) M.
Proof. intros HM. unfold received. eapply hoare_bind; [apply h_wake_send|]. intros. by apply hoare_ret. Qed.

Lemma h_recv_attempt ep nonblock d : hoare I (recv_attempt mc ep nonblock d) M.
Proof.
  unfold recv_attempt. eapply hoare_bind; [apply h_recv|]. intros [msg|e] Hm; [by apply h_received, Hm|].
  case_match; [|apply hoare_fail]. do 5 (hstep; intros).
  eapply hoare_bind; [apply h_recv|]. intros [msg|e'] Hm'.
  - eapply (hoare_bind _ _ _ any); [hgo|]. intros. by apply h_received, Hm'.
  - case_match; try (eapply (hoare_bind _ _ _ any); [hgo|]; intros; apply hoare_fail).
    do 2 (hstep; intros). apply h_switch_or_wake. hgo.
Qed.

Lemma h_accept ep msg : M msg → hoare I (accept_moved_cap mc ep msg) any.
Proof.
  intros HM. unfold accept_moved_cap. destruct (msg_moved_cap msg) as [c|] eqn:E; [|by apply hoare_ret].
  destruct (hi_recv msg c HM E) as [HS HM']. eapply hoare_bind; [by apply h_allocate|]. intros [i|e] _; [by apply hoare_ret|].
  eapply (hoare_bind _ _ _ any); [|intros; apply hoare_fail]. apply h_router_any. intros. by apply router_sat_requeue.
Qed.

Lemma h_recv_common a : hoare I (recv_common mc a) any.
Proof.
  unfold recv_common. do 2 (hstep; intros). eapply (hoare_bind _ _ _ any); [hgo|]. intros. eapply hoare_bind; [apply h_recv_attempt|]. intros. by apply h_accept.
Qed.

Lemma h_deliver a msg : hoare I (deliver_payload mc a msg) any.
Proof. unfold deliver_payload. hgo. all: apply hoare_modify; intros; by apply hi_last. Qed.

Lemma h_sys_ipc_recv_v1 args : hoare I (sys_ipc_recv_v1 mc args) any.
Proof. unfold sys_ipc_recv_v1. hgo; (apply h_recv_common || apply h_deliver). Qed.

Lemma h_sys_ipc_recv_v2 args : hoare I (sys_ipc_recv_v2 mc args) any.
Proof. unfold sys_ipc_recv_v2. hgo; (apply h_recv_common || apply h_deliver). Qed.

End ipc.
