(* ===== verification/HandlerAll.v ===== *)
(** * Every handler keeps what [HandlerInv] describes: capabilities, objects, memory, tasks, exec

    [handlers_keep] sums up: every entry of the system-call table except the
    exit and the calls that mint new capabilities, which each property treats
    on its own. *)

From S2P Require Import Prelude Cap Ipc Sched Timer Sync PageTable AddressSpace Smp Task VmoPool Kernel SysTask SysCaps SysIpc SysSync SysVmo Exec Syscall SysLogic HandlerLaws.

Section objects.
Context {mc : Machine} {I : Kernel → Prop} {S : Capability → Prop} {M : Message → Prop}.
Context `{!HandlerInv mc I S M}.

Lemma h_set_timers f : hoare I (modify (fun k => k_set_timers (f k) k)) any.
Proof. apply hoare_modify. intros. by apply hi_timers. Qed.
Lemma h_set_waitsets f : hoare I (modify (fun k => k_set_waitsets (f k) k)) any.
Proof. apply hoare_modify. intros. by apply hi_waitsets. Qed.
Lemma h_set_irq f : hoare I (modify (fun k => k_set_irq (f k) k)) any.
Proof. apply hoare_modify. intros. by apply hi_irq. Qed.
Lemma h_set_phys f : hoare I (modify (fun k => k_set_phys (f k) k)) any.
Proof. apply hoare_modify. intros. by apply hi_phys. Qed.
Lemma h_fence_state {A} (f : Kernel → A * FenceTable) :
  hoare I (state_op (fun k => let '(r, t) := f k in (r, k_set_fences t k))) any.
Proof. apply hoare_state_op. intros k HI. destruct (f k). simpl. split; [by apply hi_fences|done]. Qed.
Lemma h_waitset_state {A} (f : Kernel → A * WaitsetTable) :
  hoare I (state_op (fun k => let '(r, t) := f k in (r, k_set_waitsets t k))) any.
Proof. apply hoare_state_op. intros k HI. destruct (f k). simpl. split; [by apply hi_waitsets|done]. Qed.
Lemma h_timer_op {A} (f : HartTimers → result A TimerError * HartTimers) : hoare I (timer_op f) any.
Proof.
  unfold timer_op. eapply (hoare_bind _ _ _ any); [|hgo]. apply hoare_state_op. intros k HI.
  destruct (f (k_timers k)). simpl. split; [by apply hi_timers|done].
Qed.
#[local] Hint Resolve h_set_timers h_set_waitsets h_set_irq h_set_phys h_timer_op : hoare.

(** ** Timers, interrupts, waitsets and fences *)

Lemma h_endpoint_of_slot slot : hoare I (endpoint_of_slot mc slot) any.
Proof. unfold endpoint_of_slot. hgo. Qed.
Lemma h_timer_id slot : hoare I (timer_id_from_cap mc slot) any.
Proof. unfold timer_id_from_cap. hgo. Qed.
Lemma h_waitset_id slot : hoare I (waitset_id_from_cap mc slot) any.
Proof. unfold waitset_id_from_cap. hgo. Qed.
Lemma h_fence_id slot : hoare I (fence_id_from_cap mc slot) any.
Proof. unfold fence_id_from_cap. hgo. Qed.
Lemma h_ready members : hoare I (ready_member members) any.
Proof. apply hoare_gets_any. Qed.
Lemma h_satisfied id target : hoare I (fence_satisfied id target) any.
Proof. apply hoare_gets_any. Qed.
Lemma h_remove_fence id pid : hoare I (remove_fence_waiter id pid) any.
Proof. apply h_set_fences. Qed.
#[local] Hint Resolve h_endpoint_of_slot h_timer_id h_waitset_id h_fence_id h_ready h_satisfied h_remove_fence : hoare.

Lemma h_sys_irq_bind args : hoare I (sys_irq_bind mc args) any.
Proof. unfold sys_irq_bind. hgo. Qed.
Lemma h_sys_irq_complete args : hoare I (sys_irq_complete args) any.
Proof. unfold sys_irq_complete. hgo. Qed.
Lemma h_sys_timer_set args : hoare I (sys_timer_set mc args) any.
Proof. unfold sys_timer_set. hgo. Qed.
Lemma h_sys_timer_cancel args : hoare I (sys_timer_cancel mc args) any.
Proof. unfold sys_timer_cancel. hgo. Qed.

Lemma h_sys_waitset_add args : hoare I (sys_waitset_add mc args) any.
Proof. unfold sys_waitset_add. hgo. apply h_waitset_state. Qed.

Lemma h_sys_waitset_wait args : hoare I (sys_waitset_wait mc args) any.
Proof. unfold sys_waitset_wait. hgo. apply h_switch_or_wake. hgo. Qed.

Lemma h_sys_fence_signal args : hoare I (sys_fence_signal mc args) any.
Proof.
  unfold sys_fence_signal. hgo; [apply h_fence_state|]. apply hoare_state_op. intros k HI.
  destruct (FenceTable_take_satisfied _ _ _) as [[n out] t]. simpl. split; [by apply hi_fences|done].
Qed.

Lemma h_sys_fence_wait args : hoare I (sys_fence_wait mc args) any.
Proof. unfold sys_fence_wait. hgo; [apply h_fence_state|]. apply h_switch_or_wake. hgo. Qed.

(** ** Capabilities *)

Lemma h_sys_ipc_endpoint_close args : hoare I (sys_ipc_endpoint_close mc args) any.
Proof. unfold sys_ipc_endpoint_close. hgo. apply h_router_any. intros. by apply router_sat_close. Qed.

Lemma h_release_object kind pid : hoare I (release_object kind pid) any.
Proof. unfold release_object. hgo. apply hoare_modify. intros. case_match; [by apply hi_fences|done]. Qed.

Lemma h_sys_cap_close args : hoare I (sys_cap_close mc args) any.
Proof. unfold sys_cap_close. hgo. apply h_release_object. Qed.

Lemma h_sys_cap_clone args : hoare I (sys_cap_clone mc args) any.
Proof.
  unfold sys_cap_clone. hstep. intros t Ht. eapply hoare_bind; [by apply h_get|]. intros c Hc. hstep. intros.
  eapply hoare_bind; [by apply h_allocate_try|]. hgo.
Qed.

Lemma h_sys_cap_query args : hoare I (sys_cap_query mc args) any.
Proof. unfold sys_cap_query. hgo. apply hoare_derive. Qed.

Lemma h_transfer_guard parent child slot rights : hoare I (transfer_guard parent child slot rights) any.
Proof. unfold transfer_guard. hgo. Qed.

Lemma transfer_keeps k parent child slot rights mode :
  I k → I (k_set_table (TaskTable_transfer_cap_with_mode (k_table k) parent child slot rights mode).2 k).
Proof.
  intros HI. assert (Hid : I (k_set_table (k_table k) k)).
  { replace (k_set_table (k_table k) k) with k; [done|]. by destruct k as [[]]. }
  unfold TaskTable_transfer_cap_with_mode. destruct (TaskTable_task (k_table k) parent) as [pt|] eqn:Ep; [|done].
  destruct (CapTable_derive (tk_caps pt) slot rights) as [d|e] eqn:Ed; [|done].
  destruct (TaskTable_task (k_table k) child) as [ct|] eqn:Ec; [|done].
  assert (HS : S d).
  { unfold CapTable_derive in Ed. destruct (CapTable_get (tk_caps pt) slot) as [c|] eqn:Eg; simplify_eq/=.
    destruct (rights_contains (cap_rights c) rights) eqn:Er; simplify_eq/=. apply hi_derive.
    - eapply caps_sat_get; [|done]. by eapply hi_caps.
    - by apply rights_contains_spec. }
  assert (Hc : caps_sat S (tk_caps ct)) by (by eapply hi_caps).
  destruct mode as [|i].
  - pose proof (caps_sat_allocate S _ _ Hc HS) as Ha. destruct (CapTable_allocate (tk_caps ct) d) as [r c1]. simpl in *.
    by apply hi_set_caps.
  - pose proof (caps_sat_set_if_empty S _ i _ Hc HS) as Ha. destruct (CapTable_set_if_empty (tk_caps ct) i d) as [r c1].
    simpl in *. by apply hi_set_caps.
Qed.

Lemma h_sys_cap_transfer args : hoare I (sys_cap_transfer mc args) any.
Proof.
  unfold sys_cap_transfer. hgo; [apply h_transfer_guard|]. apply hoare_state_op. intros k HI.
  match goal with |- context [TaskTable_transfer_cap ?t ?p ?c ?s ?r] =>
    pose proof (transfer_keeps k p c s r CopyAllocate HI) as Ht end.
  unfold TaskTable_transfer_cap. destruct (TaskTable_transfer_cap_with_mode _ _ _ _ _ _). by simpl in *.
Qed.

Lemma h_sys_cap_transfer_to args : hoare I (sys_cap_transfer_to mc args) any.
Proof.
  unfold sys_cap_transfer_to. hgo; [apply h_transfer_guard|]. apply hoare_state_op. intros k HI.
  match goal with |- context [TaskTable_transfer_cap_to_slot ?t ?p ?c ?s ?r ?i] =>
    pose proof (transfer_keeps k p c s r (CopyToSlot i) HI) as Ht end.
  unfold TaskTable_transfer_cap_to_slot. destruct (TaskTable_transfer_cap_with_mode _ _ _ _ _ _). by simpl in *.
Qed.

(** ** Memory *)

Lemma h_pool_allocate len : hoare I (pool_allocate len) (fun r => S (mkCapability (CkVmo r.1 r.2) MAP)).
Proof.
  unfold pool_allocate.
  eapply (hoare_bind _ _ _ (fun r => ∀ x, r = Ok x → S (mkCapability (CkVmo x.1 x.2) MAP))).
  - apply hoare_state_op. intros k HI. pose proof (hi_alloc k len HI) as H.
    destruct (VmoPool_allocate _ _ _) as [[r m] p]. simpl. destruct H as [H1 H2]. split; [done|].
    intros [b l] ->. by apply H2.
  - intros r Hr. apply hoare_lift. auto.
Qed.
Lemma h_pool_nozero len : hoare I (pool_allocate_nozero len) any.
Proof.
  unfold pool_allocate_nozero. eapply (hoare_bind _ _ _ any); [|hgo]. apply hoare_state_op. intros k HI.
  pose proof (hi_nozero k len HI) as H. destruct (VmoPool_allocate_nozero _ _). simpl in *. done.
Qed.
Lemma h_pool_free base len : hoare I (pool_free base len) any.
Proof.
  apply hoare_state_op. intros k HI. pose proof (hi_free k base len HI) as H.
  destruct (VmoPool_free _ _ _ _) as [[r m] p]. simpl. done.
Qed.
Lemma h_map_page handle va pa flags : hoare I (map_page mc handle va pa flags) any.
Proof. apply h_spaces. Qed.
Lemma h_current_space : hoare I (current_space mc) any.
Proof. unfold current_space. hgo. Qed.
Lemma h_install slot c : S c → hoare I (install_cap mc slot c) any.
Proof.
  intros Hc. unfold install_cap. case_match; (eapply hoare_bind; [|hgo]); [by apply h_allocate|by apply h_set].
Qed.
Lemma h_vmo_of_slot slot : hoare I (vmo_of_slot mc slot) any.
Proof. unfold vmo_of_slot. hgo. apply hoare_derive. Qed.
#[local] Hint Resolve h_pool_allocate h_pool_nozero h_pool_free h_map_page h_current_space h_vmo_of_slot
  hoare_derive : hoare.

Lemma h_map_pages handle va base flags pages : hoare I (map_pages mc handle va base flags pages) any.
Proof. induction pages; simpl; hgo. Qed.
#[local] Hint Resolve h_map_pages : hoare.

Lemma h_sys_map args : hoare I (sys_map mc args) any.
Proof. unfold sys_map. hgo. Qed.
Lemma h_sys_mmio_map args : hoare I (sys_mmio_map mc args) any.
Proof. unfold sys_mmio_map. hgo. Qed.
Lemma h_sys_vmo_create args : hoare I (sys_vmo_create mc args) any.
Proof.
  unfold sys_vmo_create. do 2 (hstep; intros). eapply (hoare_bind _ _ _ any); [by apply h_install|]. hgo.
Qed.
Lemma h_sys_vmo_destroy args : hoare I (sys_vmo_destroy mc args) any.
Proof. unfold sys_vmo_destroy. hgo. Qed.
Lemma h_sys_vmo_read args : hoare I (sys_vmo_read mc args) any.
Proof. unfold sys_vmo_read. hgo. Qed.
Lemma h_sys_vmo_write args : hoare I (sys_vmo_write mc args) any.
Proof. unfold sys_vmo_write. hgo. Qed.
Lemma h_sys_as_create args : hoare I (sys_as_create mc args) any.
Proof. apply h_spaces. Qed.
Lemma h_sys_as_map args : hoare I (sys_as_map mc args) any.
Proof. unfold sys_as_map. hgo. Qed.

End objects.

#[export] Hint Resolve h_set_phys h_pool_allocate h_pool_nozero h_pool_free h_map_page h_map_pages h_sys_as_create : hoare.

(** ** Tasks *)

Section tasks.
Context {mc : Machine} {I : Kernel → Prop} {S : Capability → Prop} {M : Message → Prop}.
Context `{!HandlerInv mc I S M}.

Lemma h_set_task_qos pid q : hoare I (set_task_qos pid q) any.
Proof.
  apply hoare_state_op. intros k HI. pose proof (hi_qos k pid q HI) as H.
  destruct (Scheduler_set_task_qos _ _ _). simpl in *. done.
Qed.
Lemma h_admin : hoare I (caller_has_qos_admin mc) any.
Proof. unfold caller_has_qos_admin. hgo. Qed.
Lemma h_yield : hoare I (yield_current mc) any.
Proof. apply hoare_modify. intros. by apply hi_yield. Qed.
#[local] Hint Resolve h_set_task_qos h_admin h_yield : hoare.
#[local] Hint Extern 1 (hoare _ (update_task _ _) _) => (apply h_update; by intros t) : hoare.

Lemma h_sys_task_qos args : hoare I (sys_task_qos mc args) any.
Proof. unfold sys_task_qos. hgo. Qed.
Lemma h_sys_sched args : hoare I (sys_sched mc args) any.
Proof. unfold sys_sched. hgo. Qed.

Lemma h_sys_spawn_last_error args : hoare I (sys_spawn_last_error mc args) any.
Proof.
  unfold sys_spawn_last_error. hgo. apply hoare_state_op. intros k HI. simpl. split; [|done].
  by apply hi_update; [intros t|].
Qed.

Lemma h_sys_yield args : hoare I (sys_yield mc args) any.
Proof. unfold sys_yield. do 2 (hstep; intros). apply h_switch; hgo. Qed.

Lemma h_sys_wait args : hoare I (sys_wait mc args) any.
Proof.
  unfold sys_wait. eapply (hoare_bind _ _ _ any).
  - apply hoare_state_op. intros k HI.
    match goal with |- context [TaskTable_reap_child ?h ?w ?t] => pose proof (hi_reap k t HI) as H end.
    destruct (TaskTable_reap_child _ _ _). simpl in *. done.
  - hgo. apply h_switch_or_wake. hgo.
Qed.

Lemma h_sys_as_self args : hoare I (sys_as_self mc args) any.
Proof. unfold sys_as_self. hgo. Qed.

Lemma h_spawn parent entry sp space gp slot : hoare I (spawn mc parent entry sp space gp slot) any.
Proof.
  intros k x k' HI. unfold spawn. destruct (TaskTable_spawn _ _ _ _ _ _ _ _ _ _) as [[r w]|] eqn:E; [|done].
  intros [= <- <-]. split; [|done]. apply hi_tick. by eapply hi_spawn.
Qed.
#[local] Hint Resolve h_spawn : hoare.

Lemma h_resume pid : hoare I (world_op mc (fun env w => TaskTable_resume_task env w pid)) any.
Proof. apply h_world. intros. by apply hi_resume. Qed.
Lemma h_resume_unit pid : hoare I (world_op mc (fun env w => (tt, (TaskTable_resume_task env w pid).2))) any.
Proof. apply h_world. intros. simpl. by apply hi_resume. Qed.
#[local] Hint Resolve h_resume h_resume_unit : hoare.

Lemma h_sys_spawn args : hoare I (sys_spawn mc args) any.
Proof. unfold sys_spawn. hgo. apply hoare_modify. intros. by apply hi_update; [intros t|]. Qed.
Lemma h_sys_task_resume args : hoare I (sys_task_resume mc args) any.
Proof. unfold sys_task_resume. hgo. Qed.

Lemma h_release ranges bytes : hoare I (release_ranges ranges bytes) any.
Proof.
  revert bytes. induction ranges as [|[b l] ranges IH]; intros bytes; simpl; [hgo|].
  eapply (hoare_bind _ _ _ any); [|intros; apply IH]. apply hoare_state_op. intros k HI.
  pose proof (hi_free k b l HI) as H. destruct (VmoPool_free _ _ _ _) as [[r m] p]. simpl. done.
Qed.

(** ** Exec *)

Lemma h_run_copy_ops ops : hoare I (run_copy_ops mc ops) any.
Proof. induction ops; simpl; hgo. Qed.
Lemma h_elf_le a n off : hoare I (elf_le mc a n off) any.
Proof. unfold elf_le. hgo. Qed.
#[local] Hint Resolve h_run_copy_ops h_elf_le : hoare.
Lemma h_parse_header a : hoare I (parse_elf_header mc a) any.
Proof. unfold parse_elf_header. hgo. Qed.
Lemma h_parse_phdr a h i : hoare I (parse_phdr mc a h i) any.
Proof. unfold parse_phdr. hgo. Qed.
Lemma h_trace a p : hoare I (trace_first4 mc a p) any.
Proof. unfold trace_first4. hgo. Qed.
Lemma h_gate : hoare I (exec_gate mc) any.
Proof. unfold exec_gate. hgo. Qed.
Lemma h_spawn_child entry sp handle gp : hoare I (spawn_child mc entry sp handle gp) any.
Proof. unfold spawn_child. hgo. Qed.
Lemma h_copy_name a pa : hoare I (copy_name mc a pa) any.
Proof. unfold copy_name. hgo. Qed.
#[local] Hint Resolve h_parse_header h_parse_phdr h_trace h_gate h_spawn_child h_copy_name : hoare.

Let J : LoadState → Prop := any.

Lemma hL_embed {A} (m : Sys A) : hoare I m any → hoareL I J (embed m) any.
Proof. apply hoareL_embed. Qed.

Lemma hL_plan op : hoareL I J (plan_push op) any.
Proof. intros s k r s' k' HI _. unfold plan_push. by case_match; intros; simplify_eq. Qed.

Ltac lstep :=
  lazymatch goal with
  | |- hoareL _ _ (mbind ?f ?m) _ => eapply (hoareL_bind _ _ m f any)
  | |- hoareL _ _ (mret _) _ => by apply hoareL_ret
  | |- hoareL _ _ (match ?x with _ => _ end) _ => destruct x eqn:?
  | |- hoareL _ _ (embed _) _ => apply hL_embed; hgo
  | |- hoareL _ _ (ls_modify _) _ => by apply hoareL_modify
  | |- hoareL _ _ plan_fence_i _ => by apply hoareL_modify
  | |- hoareL _ _ (ls_gets _) _ => by apply hoareL_gets
  | |- hoareL _ _ (plan_push _) _ => apply hL_plan
  end.
Ltac lgo := intros; repeat (lstep; intros).

Lemma hL_place a handle p : hoareL I J (place_segment mc a handle p) any.
Proof. unfold place_segment. lgo. Qed.

Lemma hL_load_v1 a h handle i : hoareL I J (load_segment_v1 mc a h handle i) any.
Proof. unfold load_segment_v1. lgo. apply hL_place. Qed.

Lemma hL_load_v2 a h handle i : hoareL I J (load_segment_v2 mc a h handle i) any.
Proof. unfold load_segment_v2. lgo. apply hL_place. Qed.

Lemma hL_segments load l : (∀ i, hoareL I J (load i) any) → hoareL I J (load_segments load l) any.
Proof. intros Hl. induction l; simpl; lgo; [apply Hl|done]. Qed.

Lemma hL_stack handle pages : hoareL I J (map_process_stack mc handle pages) any.
Proof. unfold map_process_stack. lgo. Qed.

Lemma hL_info a handle meta info : hoareL I J (map_info_pages mc a handle meta info) any.
Proof. unfold map_info_pages. lgo. Qed.

Lemma hL_v1 a h handle : hoareL I J (exec_v1_body mc a h handle) any.
Proof. unfold exec_v1_body. lgo; [apply hL_segments, hL_load_v1|apply hL_stack]. Qed.

Lemma hL_v2 a h handle : hoareL I J (exec_v2_body mc a h handle) any.
Proof. unfold exec_v2_body. lgo; [apply hL_segments, hL_load_v2|apply hL_stack|apply hL_info]. Qed.

Lemma h_run_v1 m : hoareL I J m any → hoare I (run_v1 m) any.
Proof.
  intros Hm k r k' HI. unfold run_v1. destruct (m LoadState_new k) as [[[[a|e] s] k1]|] eqn:E; [| |done].
  all: intros [= <- <-]; destruct (Hm _ _ _ _ _ HI Logic.I E) as (HI1 & _); done.
Qed.

Lemma h_run_v2 handle m : hoareL I J m any → hoare I (run_v2 handle m) any.
Proof.
  intros Hm k r k' HI. unfold run_v2. destruct (m LoadState_new k) as [[[[a|e] s] k1]|] eqn:E; [| |done].
  - intros [= <- <-]. destruct (Hm _ _ _ _ _ HI Logic.I E) as (HI1 & _). done.
  - destruct (Hm _ _ _ _ _ HI Logic.I E) as (HI1 & _).
    destruct (AddressSpaceManager_destroy _ _ _) as [[d m1] mg]. intros H.
    refine (hoare_bind I (release_image (ls_image s)) (fun _ => fail e) any any _ _ _ _ _ _ H).
    + apply h_release.
    + intros. apply hoare_fail.
    + by apply hi_mm.
Qed.

Lemma h_sys_exec args : hoare I (sys_exec mc args) any.
Proof. unfold sys_exec, exec_phase_a, run_copy_plan. hgo. apply h_run_v1, hL_v1. Qed.

Lemma h_sys_exec_v2 args : hoare I (sys_exec_v2 mc args) any.
Proof. unfold sys_exec_v2, exec_v2_phase_a, run_copy_plan. hgo. apply h_run_v2, hL_v2. Qed.

(** ** The table *)

Lemma h_sys_nsec args : hoare I (sys_nsec mc args) any.
Proof. apply h_now. Qed.
Lemma h_sys_debug_write args : hoare I (sys_debug_write mc args) any.
Proof. unfold sys_debug_write. hgo. Qed.

(** Exit, and the calls that mint capabilities. *)
Definition special_calls : list nat := [11; 22; 23; 30; 33; 38; 41]%nat.

Lemma handlers_keep n h : (n, h) ∈ handlers mc → n ∉ special_calls → ∀ args, hoare I (h args) any.
Proof.
  intros Hin Hn args. unfold handlers in Hin.
  repeat (apply elem_of_cons in Hin as [[= -> ->]|Hin];
          [first [ apply h_sys_yield | apply h_sys_nsec | apply h_sys_send | apply h_sys_recv | apply h_sys_map
                 | apply h_sys_mmio_map | apply h_sys_cap_query | apply h_sys_vmo_create | apply h_sys_vmo_write
                 | apply h_sys_vmo_destroy | apply h_sys_vmo_read | apply h_sys_spawn | apply h_sys_cap_transfer
                 | apply h_sys_cap_transfer_to | apply h_sys_as_create | apply h_sys_as_map | apply h_sys_wait
                 | apply h_sys_exec | apply h_sys_ipc_send_v1 | apply h_sys_exec_v2 | apply h_sys_ipc_recv_v1
                 | apply h_sys_cap_close | apply h_sys_cap_clone | apply h_sys_ipc_endpoint_close | apply h_sys_task_qos
                 | apply h_sys_sched | apply h_sys_as_self | apply h_sys_task_resume | apply h_sys_timer_set
                 | apply h_sys_timer_cancel | apply h_sys_irq_bind | apply h_sys_irq_complete | apply h_sys_waitset_add
                 | apply h_sys_waitset_wait | apply h_sys_fence_signal | apply h_sys_fence_wait | apply h_sys_ipc_recv_v2
                 | apply h_sys_spawn_last_error | apply h_sys_debug_write | apply hoare_fail | apply hoare_current_pid
                 | by apply hoare_ret | by destruct Hn; unfold special_calls; set_solver ]|]).
  by apply not_elem_of_nil in Hin.
Qed.

End tasks.

(** ** The calls that mint, for a property that holds of every capability *)

Section mints.
Context {mc : Machine} {I : Kernel → Prop} {S : Capability → Prop} {M : Message → Prop}.
Context `{!HandlerInv mc I S M}.
Hypothesis S_all : ∀ c, S c.

Lemma h_require_factory slot : hoare I (require_factory mc slot) any.
Proof. unfold require_factory. hgo. Qed.
Lemma h_mint_endpoint depth owner : hoare I (mint_endpoint mc depth owner) any.
Proof.
  unfold mint_endpoint. eapply (hoare_bind _ _ _ any); [apply h_router_any; intros; by apply router_sat_create|]. intros r _.
  hstep. intros id _. eapply hoare_bind; [by apply h_allocate_try|]. hgo.
Qed.
#[local] Hint Resolve h_require_factory h_mint_endpoint : hoare.

Lemma h_sys_ipc_endpoint_create_v2 args : hoare I (sys_ipc_endpoint_create_v2 mc args) any.
Proof. unfold sys_ipc_endpoint_create_v2. hgo. Qed.
Lemma h_sys_ipc_endpoint_create_for args : hoare I (sys_ipc_endpoint_create_for mc args) any.
Proof. unfold sys_ipc_endpoint_create_for. hgo. Qed.
Lemma h_sys_device_cap_create args : hoare I (sys_device_cap_create mc args) any.
Proof. unfold sys_device_cap_create. hgo. by apply h_install. Qed.

Lemma h_timer_alloc owner ep ns : hoare I (timer_alloc owner ep ns) any.
Proof. intros k r k' HI. unfold timer_alloc. repeat case_match; intros; simplify_eq. split; [by apply hi_timers|done]. Qed.
Lemma h_waitset_alloc owner : hoare I (waitset_alloc owner) any.
Proof. intros k r k' HI. unfold waitset_alloc. repeat case_match; intros; simplify_eq. split; [by apply hi_waitsets|done]. Qed.
Lemma h_fence_alloc owner : hoare I (fence_alloc owner) any.
Proof. intros k r k' HI. unfold fence_alloc. repeat case_match; intros; simplify_eq. split; [by apply hi_fences|done]. Qed.
#[local] Hint Resolve h_timer_alloc h_waitset_alloc h_fence_alloc h_endpoint_of_slot h_set_timers h_set_waitsets : hoare.

Lemma h_sys_timer_create args : hoare I (sys_timer_create mc args) any.
Proof. unfold sys_timer_create. do 3 (hstep; intros). eapply hoare_bind; [by apply h_allocate|]. hgo. Qed.
Lemma h_sys_fence_create args : hoare I (sys_fence_create mc args) any.
Proof. unfold sys_fence_create. do 2 (hstep; intros). eapply hoare_bind; [by apply h_allocate|]. hgo. Qed.
Lemma h_sys_waitset_create args : hoare I (sys_waitset_create mc args) any.
Proof.
  unfold sys_waitset_create. do 2 (hstep; intros). eapply (hoare_bind _ _ _ any); [|hgo].
  apply h_caps_op. intros t Ht. split; [by apply caps_sat_allocate_high|done].
Qed.

(** Every entry of the table but the exit. *)
Lemma handlers_keep_all n h : (n, h) ∈ handlers mc → n ≠ 11%nat → ∀ args, hoare I (h args) any.
Proof.
  intros Hin Hn args. destruct (decide (n ∈ special_calls)) as [Hs|Hs]; [|by eapply handlers_keep].
  unfold handlers in Hin. unfold special_calls in Hs.
  repeat (apply elem_of_cons in Hin as [[= -> ->]|Hin];
          [first [ by exfalso; set_solver | apply h_sys_ipc_endpoint_create_v2 | apply h_sys_ipc_endpoint_create_for
                 | apply h_sys_device_cap_create | apply h_sys_timer_create | apply h_sys_fence_create
                 | apply h_sys_waitset_create ]|]).
  by apply not_elem_of_nil in Hin.
Qed.

End mints.

(** ** Dispatch *)

(** The table built by [install_handlers], entry by entry. *)
Lemma register_all_lookup l t t' n h :
  register_all l t = Some t' → t' !! n = Some (Some h) → t !! n = Some (Some h) ∨ (n, h) ∈ l.
Proof.
  revert t. induction l as [|[n1 h1] l IH]; intros t; simpl; [intros [= <-]; by left|].
  unfold SyscallTable_register. intros H Hn. repeat case_match; simplify_eq/=; try done.
  - destruct (IH _ H Hn) as [[(-> & [= ->] & _)|(_ & ?)]%list_lookup_insert_Some|?]; [right; set_solver|by left|right; set_solver].
  - destruct (IH _ H Hn); [by left|right; set_solver].
Qed.

Lemma dispatch_handler mc t number args k r k' :
  install_handlers mc SyscallTable_new = Some t → SyscallTable_dispatch t number args k = Some (r, k') →
  (r = Err SeInvalidSyscall ∧ k' = k) ∨ ∃ n h, (n, h) ∈ handlers mc ∧ h args k = Some (r, k').
Proof.
  intros Hi. unfold SyscallTable_dispatch.
  destruct (if number <? Z.of_nat MAX_SYSCALL then _ else None) as [h|] eqn:E; [|intros [= <- <-]; by left].
  intros H. right. exists (Z.to_nat number), h. split; [|done]. case_match; [|done].
  destruct (t !! Z.to_nat number) as [[h'|]|] eqn:Et; simplify_eq/=.
  destruct (register_all_lookup _ _ _ _ _ Hi Et) as [Hnew|?]; [|done].
  by apply (lookup_replicate MAX_SYSCALL) in Hnew as [[=] _].
Qed.

Lemma handler_exit mc h : (11%nat, h) ∈ handlers mc → h = sys_exit mc.
Proof.
  unfold handlers. intros Hin. repeat (apply elem_of_cons in Hin as [Heq|Hin]; [by simplify_eq|]).
  by apply not_elem_of_nil in Hin.
Qed.
