(* ===== verification/Authority.v ===== *)
(** * No system call creates authority

    Every capability in the system after a call — in a task's table or in a
    queued message — is one that was there before, with no more rights, or is
    minted by the rules: a new endpoint or a device window for a caller with the
    endpoint factory, a VMO inside the arena, a new timer, waitset or fence. *)

From S2P Require Import Prelude Cap Ipc Sched IdAlloc Timer Sync PageTable AddressSpace AddressSpaceProps Smp Task VmoPool VmoProps Kernel SysTask SysCaps SysIpc SysSync SysVmo Exec Syscall SysLogic HandlerLaws HandlerAll.

(** ** The arena's ranges, whatever the memory holds *)

Definition blank : Bytes := fun _ => 0.

(** The arena's bookkeeping is sound and it spans the arena. *)
Definition pool_sound (p : VmoPool) : Prop :=
  pool_ok blank (VmoPool_ensure_initialized p) [] ∧
  pool_span (VmoPool_ensure_initialized p) = (USER_VMO_ARENA_BASE, USER_VMO_ARENA_BASE + USER_VMO_ARENA_LEN).

Lemma pool_ok_blank m p out : pool_ok m p out → pool_ok blank p out.
Proof. intros I. by eapply pool_ok_mem. Qed.

Lemma pool_sound_of m p : pool_ok m p [] → pool_span p = (USER_VMO_ARENA_BASE, USER_VMO_ARENA_BASE + USER_VMO_ARENA_LEN) →
  pool_sound p.
Proof. intros I Hs. unfold pool_sound. rewrite (initialized_id _ _ _ I). split; [by eapply pool_ok_blank|done]. Qed.

(** The pool after an allocation does not depend on the memory. *)
Lemma allocate_pool_blank m p len :
  let '(r, _, p1) := VmoPool_allocate m p len in
  let '(r', _, p1') := VmoPool_allocate blank p len in r = r' ∧ p1 = p1'.
Proof. unfold VmoPool_allocate. by destruct (reserve _ _) as [[[[? ?] []] ?]|]. Qed.

Lemma pool_sound_init p : pool_sound p → pool_sound (VmoPool_ensure_initialized p).
Proof. intros [I Hs]. by eapply pool_sound_of. Qed.

Lemma pool_sound_allocate m p len :
  pool_sound p → in_width 64 len →
  let '(r, _, p1) := VmoPool_allocate m p len in pool_sound p1 ∧ (∀ b n, r = Ok (b, n) → in_arena b n).
Proof.
  intros [I Hs] Hl. pose proof (allocate_pool_blank m p len) as He.
  destruct (VmoPool_allocate m p len) as [[r m1] p1].
  destruct (VmoPool_allocate blank p len) as [[[[b n]|e] m1'] p1'] eqn:E; destruct He as [-> ->].
  - destruct (allocate_ok _ _ _ _ _ _ _ _ I Hl E) as (I1 & (_ & Hsp & _) & _).
    split; [eapply pool_sound_of; [by eapply pool_ok_uncover|by rewrite Hsp]|].
    intros ? ? [= <- <-]. eapply out_in_arena; [done|by rewrite Hsp].
  - apply alloc_refused in E as [_ ->]. split; [by apply pool_sound_init|done].
Qed.

Lemma pool_sound_nozero p len : pool_sound p → in_width 64 len → pool_sound (VmoPool_allocate_nozero p len).2.
Proof.
  intros [I Hs] Hl. destruct (VmoPool_allocate_nozero p len) as [[[[b n] nz]|e] p1] eqn:E; simpl.
  - destruct (allocate_nozero_ok _ _ _ _ _ _ _ _ I Hl E) as (I1 & (_ & Hsp & _) & _).
    eapply pool_sound_of; [by eapply pool_ok_uncover|by rewrite Hsp].
  - apply reserve_refused in E as ->. by apply pool_sound_init.
Qed.

(** A range that passes the checks of [free] is covered by nothing in the pool. *)
Lemma free_checked p b n :
  pool_ok blank p [] → b mod PAGE_SIZE = 0 → n mod PAGE_SIZE = 0 → 0 < n → vp_base p ≤ b → b + n ≤ vp_next p →
  existsb (overlaps_entry b (b + n)) (vp_free_list p ++ vp_dirty_list p) = false → pool_ok blank p [(b, n)].
Proof.
  intros I Hb Hn Hpos Hlo Hhi Hno. pose proof (po_cover _ _ _ I) as Hcov.
  assert (Hz : ∀ x, b ≤ x < b + n → cover x (vp_free_list p ++ vp_dirty_list p) = 0).
  { intros x Hx. clear -Hno Hx. induction (vp_free_list p ++ vp_dirty_list p) as [|[eb el] l IH]; [done|]. simpl in Hno.
    apply orb_false_iff in Hno as [H1 H2]. rewrite cover_cons, IH by done.
    unfold overlaps_entry in H1. simpl in H1. unfold in_range. simpl. case_match; simpl_bool; [|lia].
    destruct (Z.eqb_spec el 0); simpl in H1; [lia|].
    destruct (Z.ltb_spec eb (b + n)); simpl in H1; [|lia]. destruct (Z.ltb_spec b (eb + el)); [done|lia]. }
  destruct I. split; try done.
  - constructor; [|done]. split; [|done]. split_and!; simpl; try done; lia.
  - intros x. specialize (Hcov x). rewrite cover_cons. change (cover x []) with 0 in *.
    destruct (decide (b ≤ x < b + n)) as [Hx|Hx].
    + specialize (Hz x Hx). rewrite cover_app in Hz.
      rewrite (proj2 (in_range_spec x b n) Hx), (proj2 (in_range_spec x (vp_base p) (vp_next p - vp_base p))); lia.
    + replace (in_range x (b, n)) with 0; [lia|]. unfold in_range. simpl. case_match; simpl_bool; lia.
Qed.

Lemma free_pool_eq m p b n len : align_len len = align_len n → (VmoPool_free m p b len).2 = (VmoPool_free blank p b n).2.
Proof. unfold VmoPool_free. intros ->. by repeat case_match. Qed.

(** Either [free] refuses and leaves the pool as it is, or its checks held. *)
Lemma free_cases m p b len p0 :
  p0 = VmoPool_ensure_initialized p → in_width 64 len →
  (VmoPool_free m p b len).2 = p0 ∨
  ∃ n, align_len len = Some n ∧ n mod PAGE_SIZE = 0 ∧ 0 < n ∧ b mod PAGE_SIZE = 0 ∧ vp_base p0 ≤ b ∧ b + n ≤ vp_next p0 ∧
       existsb (overlaps_entry b (b + n)) (vp_free_list p0 ++ vp_dirty_list p0) = false.
Proof.
  intros Hp0 Hl. unfold VmoPool_free. rewrite <- Hp0.
  destruct (align_len len) as [n|] eqn:Ea; [|by left].
  pose proof Ea as (Hn & Hle & H0 & Hpos & _)%align_len_spec; [|done].
  destruct ((n =? 0) || negb (Z.land b (PAGE_SIZE - 1) =? 0))%bool eqn:Eb; [by left|].
  unfold checked_add. destruct (Z.ltb_spec (b + n) (2 ^ 64)); [|by left].
  destruct ((b <? vp_base p0) || (vp_next p0 <? b + n))%bool eqn:Ec; [by left|].
  destruct (existsb _ _) eqn:Eo; [by left|]. right. exists n. simpl_bool. split_and!; try done; try lia.
  replace (b mod PAGE_SIZE) with (Z.land b (PAGE_SIZE - 1)); [done|]. apply (Z.land_ones b 12). lia.
Qed.

Lemma pool_sound_free m p b len : pool_sound p → in_width 64 len → pool_sound (VmoPool_free m p b len).2.
Proof.
  intros Hp Hl. pose proof (pool_sound_init _ Hp) as Hp0. destruct Hp as [I Hs].
  destruct (free_cases m p b len _ eq_refl Hl) as [->|(n & Ea & Hn & Hpos & Hb & Hlo & Hhi & Hno)]; [done|].
  pose proof (free_checked _ _ _ I Hb Hn Hpos Hlo Hhi Hno) as I1.
  destruct (free_owned _ _ _ _ _ I1) as (m2 & p2 & E2 & I2 & _ & Hs2).
  assert (En : align_len len = align_len n).
  { rewrite Ea. symmetry. apply align_len_aligned; [done| |done].
    pose proof (po_limit _ _ _ I). pose proof (po_base _ _ _ I). unfold in_width in Hl.
    assert (PAGE_SIZE ≤ b); [|lia]. pose proof (Z.div_mod b PAGE_SIZE ltac:(done)). unfold PAGE_SIZE in *. nia. }
  rewrite (free_pool_eq m p b n len En), E2. simpl. eapply pool_sound_of; [done|]. by rewrite Hs2.
Qed.

(** ** Capabilities present in the system *)

Definition held (k : Kernel) (c : Capability) : Prop :=
  ∃ pid t i, tt_tasks (k_table k) !! pid = Some t ∧ cap_slots (tk_caps t) !! i = Some (Some c).
Definition in_flight (k : Kernel) (c : Capability) : Prop :=
  ∃ ep msg, ep ∈ rt_endpoints (k_router k) ∧ msg ∈ ep_queue ep ∧ msg_moved_cap msg = Some c.
Definition present (k : Kernel) (c : Capability) : Prop := held k c ∨ in_flight k c.

(** [c] grants no more than [c0]. *)
Definition dominated (c c0 : Capability) : Prop := cap_kind c = cap_kind c0 ∧ rights_sub (cap_rights c) (cap_rights c0).

(** The caller holds the endpoint factory with [MANAGE]. *)
Definition caller_has_factory (mc : Machine) (k : Kernel) : Prop :=
  ∃ t i c, TaskTable_task (k_table k) (TaskTable_current_pid (mc_hart mc) (k_table k)) = Some t ∧
           cap_slots (tk_caps t) !! i = Some (Some c) ∧ cap_kind c = CkEndpointFactory ∧
           rights_contains (cap_rights c) MANAGE = true.

(** What a call of the current task may mint. *)
Definition minted (mc : Machine) (k : Kernel) (c : Capability) : Prop :=
  match cap_kind c with
  | CkEndpoint id => id = vlen (rt_endpoints (k_router k)) ∧ caller_has_factory mc k
  | CkDeviceMmio _ _ => rights_sub (cap_rights c) MAP ∧ caller_has_factory mc k
  | CkVmo b l => rights_sub (cap_rights c) MAP ∧ in_arena b l
  | CkTimer id => rights_sub (cap_rights c) MANAGE ∧ ht_table (k_timers k) !! id = None
  | CkWaitset id => rights_sub (cap_rights c) MANAGE ∧ wt_table (k_waitsets k) !! id = None
  | CkFence id => rights_sub (cap_rights c) MANAGE ∧ ft_table (k_fences k) !! id = None
  | CkEndpointFactory | CkIrq _ | CkSchedSetAffinity => False
  end.

Definition authorized (mc : Machine) (k : Kernel) (c : Capability) : Prop :=
  (∃ c0, present k c0 ∧ dominated c c0) ∨ minted mc k c.

(** The endpoint recorded beside a moved capability is the capability's own. *)
Definition move_consistent (msg : Message) : Prop :=
  ∀ c, msg_moved_cap msg = Some c → expected_cap (msg_capmove_expected_ep msg) c = c.
Definition in_flight_consistent (k : Kernel) : Prop := router_sat move_consistent (k_router k).

(** ** The invariant behind the theorem *)

Section authority.
Context (S : Capability → Prop).
Hypothesis S_derive : ∀ c rights, S c → rights_sub rights (cap_rights c) → S (mkCapability (cap_kind c) rights).
Hypothesis S_vmo : ∀ b l, in_arena b l → S (mkCapability (CkVmo b l) MAP).

Definition moves (msg : Message) : Prop := (∀ c, msg_moved_cap msg = Some c → S c) ∧ move_consistent msg.

Definition confined (k : Kernel) : Prop :=
  Forall (fun t => caps_sat S (tk_caps t)) (tt_tasks (k_table k)) ∧ router_sat moves (k_router k) ∧ pool_sound (k_pool k).

Lemma Forall_alter (P : Task → Prop) f i l : Forall P l → (∀ t, P t → P (f t)) → Forall P (alter f i l).
Proof.
  intros Hl Hf. apply Forall_lookup. intros j t Hj. destruct (decide (i = j)) as [<-|Hne].
  - rewrite list_lookup_alter_eq in Hj. destruct (l !! i) as [t0|] eqn:E; simplify_eq/=.
    apply Hf. by eapply Forall_lookup_1.
  - rewrite list_lookup_alter_ne in Hj by done. by eapply Forall_lookup_1.
Qed.

Lemma confined_tasks k k' :
  k_router k' = k_router k → k_pool k' = k_pool k →
  Forall (fun t => caps_sat S (tk_caps t)) (tt_tasks (k_table k')) → confined k → confined k'.
Proof. unfold confined. intros -> -> H (_ & ? & ?). done. Qed.

Lemma confined_same k k' :
  k_router k' = k_router k → k_pool k' = k_pool k → tt_tasks (k_table k') = tt_tasks (k_table k) → confined k → confined k'.
Proof. intros ? ? E Hc. eapply confined_tasks; [done..| |done]. rewrite E. apply Hc. Qed.

(** Operations on tasks that keep every capability table. *)
Definition caps_kept (l l' : list Task) : Prop := tk_caps <$> l' = tk_caps <$> l.

Lemma caps_kept_Forall l l' :
  caps_kept l l' → Forall (fun t => caps_sat S (tk_caps t)) l → Forall (fun t => caps_sat S (tk_caps t)) l'.
Proof. unfold caps_kept. intros E H. apply (Forall_fmap tk_caps (caps_sat S)). rewrite E. by apply Forall_fmap. Qed.

Lemma caps_kept_alter f i l : (∀ t, tk_caps (f t) = tk_caps t) → caps_kept l (alter f i l).
Proof.
  intros Hf. unfold caps_kept. apply list_eq. intros j. rewrite !list_lookup_fmap. destruct (decide (i = j)) as [<-|Hne].
  - rewrite list_lookup_alter_eq. destruct (l !! i); simpl; [by rewrite Hf|done].
  - by rewrite list_lookup_alter_ne.
Qed.

Lemma confined_kept k k' :
  k_router k' = k_router k → k_pool k' = k_pool k → caps_kept (w_tasks (k_world k)) (w_tasks (k_world k')) →
  confined k → confined k'.
Proof. intros ? ? E Hc. eapply confined_tasks; [done..| |done]. eapply caps_kept_Forall; [done|]. apply Hc. Qed.

Lemma wake_caps env w pid : caps_kept (w_tasks w) (w_tasks (TaskTable_wake env w pid).2).
Proof.
  destruct (wake_effect env w pid) as [->|(t & _ & _ & [[E _]|E])]; [done| |].
  - unfold w_tasks. rewrite E. by apply caps_kept_alter.
  - destruct (Scheduler_enqueue_on_cpu _ _ _ _) as [o s]. destruct E as [_ E]. unfold w_tasks. rewrite E.
    destruct o; [by apply caps_kept_alter|done].
Qed.

Lemma caps_kept_trans l1 l2 l3 : caps_kept l1 l2 → caps_kept l2 l3 → caps_kept l1 l3.
Proof. unfold caps_kept. by intros <- <-. Qed.

Lemma resume_caps env w pid : caps_kept (w_tasks w) (w_tasks (TaskTable_resume_task env w pid).2).
Proof.
  destruct (resume_effect env w pid) as [->|(t & _ & _ & E)]; [done|].
  destruct (Scheduler_enqueue_on_cpu _ _ _ _) as [o s]. destruct E as [_ E]. unfold w_tasks. rewrite E.
  destruct o; [by apply caps_kept_alter|]. eapply caps_kept_trans; by apply caps_kept_alter.
Qed.

(** The capabilities a child starts with. *)
Lemma spawn_child_caps_sat parent pcaps space slot caps :
  caps_sat S pcaps → spawn_child_caps parent pcaps space slot = Ok caps → caps_sat S caps.
Proof.
  intros Hp. unfold spawn_child_caps. destruct (CapTable_get pcaps slot) as [c|] eqn:Eg; [|done]. simpl.
  pose proof (caps_sat_get S _ _ _ Hp Eg) as Hc.
  destruct (cap_kind c); try done.
  pose proof (caps_sat_set S _ slot _ (caps_sat_new S) Hc) as Hset.
  destruct (CapTable_set CapTable_new slot c) as [[[]|e] t1]; [|done]. intros [= <-]. simpl in Hset.
  case_match; [|done]. destruct (CapTable_get pcaps FACTORY_PARENT_SLOT) as [f|] eqn:Ef; [|done].
  case_match; [|done]. simpl_bool. apply caps_sat_set; [done|].
  replace CkEndpointFactory with (cap_kind f) by done. apply S_derive; [exact (caps_sat_get S _ _ _ Hp Ef)|].
  by apply rights_contains_spec.
Qed.

Lemma spawn_confined alloc l env k parent entry sp space gp slot r w :
  confined k → TaskTable_spawn alloc l env (k_world k) parent entry sp space gp slot = Some (r, w) →
  confined (k_set_world w k).
Proof.
  intros Hc E. destruct (spawn_effect _ _ _ _ _ _ _ _ _ _ _ _ E) as (_ & _ & [[Et _]|Hn]).
  - by apply (confined_same k); [| |exact Et|].
  - destruct Hn as (pt & task & caps & Hp & Hcaps & Ht & _ & _ & _ & Et).
    apply (confined_tasks k); [done..| |done]. destruct Hc as (Hall & _ & _).
    change (tt_tasks (k_table (k_set_world w k))) with (w_tasks w). rewrite Et.
    apply Forall_alter; [|done]. apply Forall_app. split; [done|]. constructor; [|done]. rewrite Ht.
    eapply spawn_child_caps_sat; [|done]. exact (Forall_lookup_1 _ _ _ _ Hall (proj2 (task_some _ _ _ Hp))).
Qed.

Lemma reap_confined hart k target : confined k → confined (k_set_world (TaskTable_reap_child hart (k_world k) target).2 k).
Proof.
  intros Hc. destruct (reap_effect hart (k_world k) target) as (_ & _ & [Et|(child & c & _ & _ & Et)]).
  - by apply (confined_same k); [| |exact Et|].
  - apply (confined_tasks k); [done..| |done]. unfold k_table. simpl. fold (w_tasks (TaskTable_reap_child hart (k_world k) target).2).
    rewrite Et. apply Forall_alter; [apply Forall_alter; [apply Hc|done]|]. intros. apply caps_sat_default.
Qed.

#[export] Instance confined_inv mc : HandlerInv mc confined S moves.
Proof.
  split; try (intros; by eapply confined_same).
  - intros k len Hc. pose proof (pool_sound_allocate (k_phys k) (k_pool k) (as_usize len)) as H.
    destruct (VmoPool_allocate _ _ _) as [[r m] p]. destruct H as [H1 H2].
    + apply Hc.
    + apply Z.mod_pos_bound. lia.
    + destruct Hc as (? & ? & ?). split; [done|]. intros b l ->. by apply S_vmo, H2.
  - intros k len (? & ? & ?). split_and!; [done..|]. apply pool_sound_nozero; [done|]. apply Z.mod_pos_bound. lia.
  - intros k b len (? & ? & Hp). pose proof (pool_sound_free (k_phys k) _ (as_usize b) (as_usize len) Hp) as H'.
    destruct (VmoPool_free _ _ _ _) as [[r m] p]. split_and!; [done..|]. apply H', Z.mod_pos_bound. lia.
  - intros k pid f Hf Hc. apply (confined_kept k); [done..| |done]. apply caps_kept_alter. intros t. by destruct (Hf t).
  - intros k env pid Hc. apply (confined_kept k); [done..| |done]. apply wake_caps.
  - intros k ipi reason Hc. apply (confined_kept k); [done..| |done]. by apply caps_kept_alter.
  - intros k Hc. destruct (Scheduler_schedule_next _ _) as [[pid|] s]; by eapply confined_same.
  - intros k env pid Hc. apply (confined_kept k); [done..| |done]. apply resume_caps.
  - intros. by eapply spawn_confined.
  - intros. by apply reap_confined.
  - intros k pid t Hc Ht. destruct Hc as (Hall & _). exact (Forall_lookup_1 _ _ _ _ Hall (proj2 (task_some _ _ _ Ht))).
  - intros k pid c (Hall & ? & ?) Hcaps. split_and!; [|done..]. by apply Forall_alter.
  - by intros k r (? & ? & ?) Hr.
  - exact S_derive.
  - intros msg Hm. split; intros c Hc; congruence.
  - intros sid h p c Hc. split; intros c' [= <-]; [done|]. destruct c as [[] rights]; try done.
    unfold expected_cap. simpl. by rewrite Z.eqb_refl, andb_false_r.
  - intros msg c [HS Hm] Hc. specialize (Hm c Hc) as He. rewrite He. split; [by apply HS|].
    split; intros c' [= <-]; [by apply HS|done].
Qed.

(** ** Exit *)

Lemma exit_confined mc args : hoare confined (sys_exit mc args) any.
Proof.
  pose proof (confined_inv mc) as Hinv. unfold sys_exit. eapply hoare_bind; [apply hoare_current_pid|]. intros exiting _.
  eapply (hoare_bind _ _ _ any); [apply (h_router_any (mc := mc)); intros; by apply router_sat_close_owner|]. intros waiters _.
  eapply (hoare_bind _ _ _ any).
  { apply hoare_modify. intros k (? & ? & ?). split_and!; [done| |done]. by apply router_sat_forget. }
  intros _ _. eapply (hoare_bind _ _ _ any).
  { unfold exit_current_and_release. eapply (hoare_bind _ _ _ any).
    - apply hoare_state_op. intros k Hc. unfold TaskTable_exit_current.
      destruct (TaskTable_task (k_table k) _); simpl; (split; [|done]).
      + apply (confined_tasks k); [done..| |done]. apply Forall_alter; [apply Hc|]. intros. apply caps_sat_default.
      + by eapply confined_same.
    - intros a _. eapply (hoare_bind _ _ _ any); [apply (h_release (mc := mc))|]. hgo. }
  intros _ _. hstep. intros. eapply (hoare_bind _ _ _ any).
  { apply h_world. intros k ipi Hc. simpl. unfold TaskTable_wake_parent_waiter.
    assert (Hid : confined (k_set_world (k_world k) k)) by (by eapply confined_same).
    repeat (case_match; try done). by apply (hi_wake (mc := mc)). }
  intros _ _. eapply (hoare_bind _ _ _ any); [apply hoare_modify; intros; by eapply confined_same|]. intros _ _.
  eapply (hoare_bind _ _ _ any).
  { apply hoare_state_op. intros k Hc. destruct (Scheduler_schedule_next _ _). simpl. split; [by eapply confined_same|done]. }
  intros next _. eapply (hoare_bind _ _ _ any); [|intros; apply hoare_fail].
  assert (Hset : ∀ pid, hoare confined (set_current mc pid) any).
  { intros pid. apply hoare_modify. intros. by eapply confined_same. }
  destruct next as [pid|]; [|apply Hset]. eapply hoare_bind; [apply Hset|]. intros _ _. hstep. intros t _.
  case_match; [|by apply hoare_ret]. unfold activate. hgo. apply hoare_modify. intros. by eapply confined_same.
Qed.

End authority.

(** ** Calls that mint capabilities *)

Section mint.
Context (mc : Machine) (k0 : Kernel).
Hypothesis Hmoves : in_flight_consistent k0.
Hypothesis Hpool : pool_sound (k_pool k0).

Let S := authorized mc k0.

Lemma authorized_derive c rights : S c → rights_sub rights (cap_rights c) → S (mkCapability (cap_kind c) rights).
Proof.
  intros [(c0 & Hp & Hk & Hr)|Hm] Hs; [left|right].
  - exists c0. split; [done|]. split; [done|]. simpl. by etransitivity.
  - unfold minted in *. simpl. destruct (cap_kind c); try done; destruct Hm; split; try done; by etransitivity.
Qed.

Lemma authorized_vmo b l : in_arena b l → S (mkCapability (CkVmo b l) MAP).
Proof. intros Ha. right. by split. Qed.

#[local] Instance confined_here : HandlerInv mc (confined S) S (moves S) :=
  confined_inv S authorized_derive authorized_vmo mc.

Lemma confined_start : confined S k0.
Proof.
  assert (Hself : ∀ c, present k0 c → S c) by (intros c Hc; left; exists c; by split).
  split_and!; [| |done].
  - apply Forall_lookup. intros pid t Ht i c Hc. apply Hself. left. by exists pid, t, i.
  - intros ep msg He Hm. split; [|by eapply Hmoves]. intros c Hc. apply Hself. right. by exists ep, msg.
Qed.

(** A prefix that only reads, then the rest from the same state. *)
Lemma after_reads {A B} (m : Sys A) (f : A → Sys B) (Q : A → Prop) :
  hoare (eq k0) m Q → (∀ a, Q a → ∀ r k', f a k0 = Some (r, k') → confined S k') →
  ∀ r k', (m ≫= f) k0 = Some (r, k') → confined S k'.
Proof.
  intros Hm Hf r k'. unfold mbind, Sys_bind. destruct (m k0) as [[[a|e] k1]|] eqn:E; [| |done].
  - destruct (Hm _ _ _ eq_refl E) as [<- HQ]. apply Hf. auto.
  - destruct (Hm _ _ _ eq_refl E) as [<- _]. intros [= <- <-]. apply confined_start.
Qed.

Lemma reads_current_caps :
  hoare (eq k0) (current_caps mc)
    (fun t => ∃ task, TaskTable_task (k_table k0) (TaskTable_current_pid (mc_hart mc) (k_table k0)) = Some task ∧
                      t = tk_caps task).
Proof.
  unfold current_caps, current_task. intros k r k' <-. unfold mbind, Sys_bind.
  destruct (TaskTable_task _ _) as [t|] eqn:E; [|done]. intros [= <- <-]. split; [done|]. intros ? [= <-]. eauto.
Qed.

Lemma reads_factory slot : hoare (eq k0) (require_factory mc slot) (fun _ => caller_has_factory mc k0).
Proof.
  unfold require_factory. eapply (hoare_bind _ _ _ (fun pid => pid = TaskTable_current_pid (mc_hart mc) (k_table k0))).
  { apply hoare_gets. by intros ? <-. }
  intros pid ->. eapply (hoare_bind _ _ _ (fun o => o = TaskTable_task (k_table k0) (TaskTable_current_pid (mc_hart mc) (k_table k0)))).
  { apply hoare_gets. by intros ? <-. }
  intros o ->. eapply hoare_bind; [by apply hoare_require; intros t Ht; exact Ht|]. intros t Ht.
  eapply hoare_bind; [by apply hoare_lift; intros c Hc; exact Hc|]. intros c Hc. cbv beta in *.
  eapply hoare_bind; [apply hoare_check|]. cbv beta. intros _ Hok. apply hoare_ret. simpl_bool.
  unfold is_factory in *. simpl_bool. unfold CapTable_get in Hc.
  destruct (cap_slots (tk_caps t) !! slot) as [[c'|]|] eqn:E; simplify_eq. by exists t, slot, c.
Qed.

Lemma mint_endpoint_confined depth owner r k' :
  caller_has_factory mc k0 → mint_endpoint mc depth owner k0 = Some (r, k') → confined S k'.
Proof.
  intros Hf. unfold mint_endpoint. unfold mbind at 1, Sys_bind at 1, router_op, state_op.
  assert (Hr : confined S (k_set_router (Router_create_endpoint (k_router k0) depth (Some owner)).2 k0)).
  { apply (hi_router (mc := mc)); [apply confined_start|]. apply router_sat_create. apply confined_start. }
  destruct (Router_create_endpoint (k_router k0) depth (Some owner)) as [res r1] eqn:E. simpl in Hr.
  assert (Hid : ∀ id, res = Ok id → S (mkCapability (CkEndpoint id) endpoint_rights)).
  { intros id ->. right. unfold minted. simpl. split; [|done]. unfold Router_create_endpoint in E.
    repeat case_match; by simplify_eq. }
  intros H. refine (proj1 (hoare_bind (confined S) (lift SeIpc res) _ _ any _ _ _ _ _ Hr H)).
  - apply hoare_lift. exact Hid.
  - intros id Hs. eapply hoare_bind; [by apply h_allocate_try|]. hgo.
Qed.

Lemma create_v2_confined args r k' : sys_ipc_endpoint_create_v2 mc args k0 = Some (r, k') → confined S k'.
Proof.
  unfold sys_ipc_endpoint_create_v2. apply (after_reads _ _ any); [hgo|]. intros _ _.
  apply (after_reads _ _ _ (reads_factory _)). intros. by eapply mint_endpoint_confined.
Qed.

Lemma create_for_confined args r k' : sys_ipc_endpoint_create_for mc args k0 = Some (r, k') → confined S k'.
Proof.
  unfold sys_ipc_endpoint_create_for. apply (after_reads _ _ any); [hgo|]. intros _ _.
  apply (after_reads _ _ _ (reads_factory _)). intros pid Hf. cbv beta in Hf.
  do 3 (apply (after_reads _ _ any); [hgo|]; intros ? _).
  intros. by eapply mint_endpoint_confined.
Qed.

Lemma device_confined args r k' : sys_device_cap_create mc args k0 = Some (r, k') → confined S k'.
Proof.
  unfold sys_device_cap_create. apply (after_reads _ _ any); [hgo|]. intros _ _.
  apply (after_reads _ _ _ reads_current_caps). intros t (task & Ht & ->).
  eapply after_reads; [apply hoare_lift; intros c Hc; exact Hc|]. intros c Hc. cbv beta in *.
  eapply after_reads; [apply hoare_check|]. cbv beta. intros _ Hok. simpl_bool.
  assert (Hf : caller_has_factory mc k0).
  { unfold CapTable_get in Hc. destruct (cap_slots (tk_caps task) !! 1%nat) as [[c'|]|] eqn:E; simplify_eq.
    by exists task, 1%nat, c. }
  intros r1 k1 Hrun. refine (proj1 (hoare_bind (confined S) _ _ any any _ _ _ _ _ confined_start Hrun)); [|hgo].
  apply h_install. right. by split.
Qed.

(** Timers, waitsets and fences: allocate the object, then install its
    capability or give the object back. *)
Lemma object_confined (alloc : Sys Z) (kind : Z → CapabilityKind) (install : Capability → Sys (result nat CapError))
    (undo : Z → Sys unit) r k' :
  (∀ r k1, alloc k0 = Some (r, k1) → confined S k1 ∧ (∀ id, r = Ok id → S (mkCapability (kind id) MANAGE))) →
  (∀ c, S c → hoare (confined S) (install c) any) → (∀ id, hoare (confined S) (undo id) any) →
  (id ← alloc;
   r ← install (mkCapability (kind id) MANAGE);
   match r with
   | Ok slot => mret (Z.of_nat slot)
   | Err e => _ ← undo id; fail (SeCapability e)
   end) k0 = Some (r, k') → confined S k'.
Proof.
  intros Ha Hi Hu. unfold mbind at 1, Sys_bind at 1. destruct (alloc k0) as [[[id|e] k1]|] eqn:E; [| |done].
  - destruct (Ha _ _ eq_refl) as [H1 H2]. intros H.
    refine (proj1 (hoare_bind (confined S) _ _ any any _ _ _ _ _ H1 H)); [by apply Hi, H2|].
    intros [slot|e] _; [hgo|]. eapply hoare_bind; [apply Hu|]. hgo.
  - destruct (Ha _ _ eq_refl) as [H1 _]. by intros [= <- <-].
Qed.

Lemma probe_fresh {V} bump fuel (table : gmap Z V) x id next :
  probe_id bump fuel table x = Some (id, next) → table !! id = None.
Proof.
  revert x. induction fuel as [|fuel IH]; intros x; simpl; [done|]. intros H. repeat case_match; simplify_eq; eauto.
Qed.

Lemma timer_create_confined args r k' : sys_timer_create mc args k0 = Some (r, k') → confined S k'.
Proof.
  unfold sys_timer_create. apply (after_reads _ _ any); [unfold endpoint_of_slot; hgo; apply hoare_current_caps|].
  intros ep _. apply (after_reads _ _ any); [hgo|]. intros pid _ r1 k1.
  apply (object_confined (timer_alloc pid ep (arg args 1)) CkTimer
           (fun c => caps_op mc (fun t => CapTable_allocate t c))
           (fun id => modify (fun k => k_set_timers (HartTimers_free (k_timers k) id).2 k))).
  - unfold timer_alloc, HartTimers_alloc. intros r2 k2. pose proof confined_start as Hc.
    destruct (bool_decide _); intros H'.
    + simplify_eq. split; [by apply (hi_timers (mc := mc))|done].
    + destruct (probe_id _ _ _ _) as [[id next]|] eqn:E; simplify_eq. split; [by apply (hi_timers (mc := mc))|].
      intros ? [= <-]. right. split; [done|]. by eapply probe_fresh.
  - intros c Hs. by apply h_allocate.
  - intros id. apply (h_set_timers (mc := mc)).
Qed.

Lemma waitset_create_confined args r k' : sys_waitset_create mc args k0 = Some (r, k') → confined S k'.
Proof.
  unfold sys_waitset_create. apply (after_reads _ _ any); [hgo|]. intros pid _ r1 k1.
  apply (object_confined (waitset_alloc pid) CkWaitset (fun c => caps_op mc (fun t => CapTable_allocate_high t c))
           (fun id => modify (fun k => k_set_waitsets (WaitsetTable_free (k_waitsets k) id).2 k))).
  - unfold waitset_alloc, WaitsetTable_alloc. intros r2 k2. pose proof confined_start as Hc.
    destruct (bool_decide _); intros H'.
    + simplify_eq. split; [by apply (hi_waitsets (mc := mc))|done].
    + destruct (probe_id _ _ _ _) as [[id next]|] eqn:E; simplify_eq. split; [by apply (hi_waitsets (mc := mc))|].
      intros ? [= <-]. right. split; [done|]. by eapply probe_fresh.
  - intros c Hs. apply h_caps_op. intros t Ht. split; [by apply caps_sat_allocate_high|done].
  - intros id. apply (h_set_waitsets (mc := mc)).
Qed.

Lemma fence_create_confined args r k' : sys_fence_create mc args k0 = Some (r, k') → confined S k'.
Proof.
  unfold sys_fence_create. apply (after_reads _ _ any); [hgo|]. intros pid _ r1 k1.
  apply (object_confined (fence_alloc pid) CkFence (fun c => caps_op mc (fun t => CapTable_allocate t c))
           (fun id => modify (fun k => k_set_fences (FenceTable_free (k_fences k) id).2 k))).
  - unfold fence_alloc, FenceTable_alloc. intros r2 k2. pose proof confined_start as Hc.
    destruct (bool_decide _); intros H'.
    + simplify_eq. split; [by apply (hi_fences (mc := mc))|done].
    + destruct (probe_id _ _ _ _) as [[id next]|] eqn:E; simplify_eq. split; [by apply (hi_fences (mc := mc))|].
      intros ? [= <-]. right. split; [done|]. by eapply probe_fresh.
  - intros c Hs. by apply h_allocate.
  - intros id. apply (h_set_fences (mc := mc)).
Qed.

(** Every registered handler. *)
Lemma handler_confined n h args r k' : (n, h) ∈ handlers mc → h args k0 = Some (r, k') → confined S k'.
Proof.
  intros Hin E. destruct (decide (n ∈ special_calls)) as [Hs|Hs].
  - unfold handlers in Hin. unfold special_calls in Hs.
    repeat (apply elem_of_cons in Hin as [[= -> ->]|Hin];
            [first [ by exfalso; set_solver | by eapply create_v2_confined | by eapply create_for_confined
                   | by eapply device_confined | by eapply timer_create_confined | by eapply waitset_create_confined
                   | by eapply fence_create_confined
                   | exact (proj1 (exit_confined S authorized_derive authorized_vmo mc args _ _ _ confined_start E)) ]|]).
    by apply not_elem_of_nil in Hin.
  - exact (proj1 (handlers_keep (mc := mc) _ _ Hin Hs args _ _ _ confined_start E)).
Qed.

End mint.

(** C1: whatever system call the current task makes — any number, any
    arguments, any outcome — every capability present afterwards, in a task's
    table or in a message in flight, grants no more than one present before, or
    is minted by the rules: a fresh endpoint or a device window only for a
    caller that holds the endpoint factory with MANAGE, a MAP-only VMO inside
    the user arena, a MANAGE capability for a timer, waitset or fence that did
    not exist.  The conditions the argument needs (moved capabilities agree
    with the endpoint recorded beside them, the arena's bookkeeping is sound)
    hold again afterwards. *)
Theorem no_authority_from_nothing mc t k number args r k'
    (Hi : install_handlers mc SyscallTable_new = Some t)
    (Hmoves : in_flight_consistent k) (Hpool : pool_sound (k_pool k))
    (Hrun : SyscallTable_dispatch t number args k = Some (r, k')) :
  (∀ c, present k' c → (∃ c0, present k c0 ∧ dominated c c0) ∨ minted mc k c) ∧
  in_flight_consistent k' ∧ pool_sound (k_pool k').
Proof.
  assert (Hc : confined (authorized mc k) k').
  { destruct (dispatch_handler _ _ _ _ _ _ _ Hi Hrun) as [[_ ->]|(n & h & Hin & E)].
    - by apply confined_start.
    - by eapply handler_confined. }
  destruct Hc as (Hcaps & Hmsgs & Hp). split_and!; [| |done].
  - intros c [(pid & task & i & Ht & Hi')|(ep & msg & He & Hm & Hmv)].
    + exact (Forall_lookup_1 _ _ _ _ Hcaps Ht i c Hi').
    + by apply (Hmsgs ep msg He Hm).
  - intros ep msg He Hm. by apply (Hmsgs ep msg He Hm).
Qed.

Lemma pool_sound_new : pool_sound VmoPool_new.
Proof. destruct (Arena_init_ok blank) as (I & _ & Hs). by split. Qed.

(** Run of the call on the concrete system of [Syscall.v]: the bootstrap task
    mints endpoint 1 through its factory, in slot 1. *)
Definition demo_mint : Kernel :=
  match SyscallTable_dispatch demo_table 22 [2; 8] demo_boot with Some (_, k') => k' | None => demo_boot end.

Lemma no_authority_from_nothing_witness :
  SyscallTable_dispatch demo_table 22 [2; 8] demo_boot = Some (Ok 1, demo_mint) ∧
  held demo_mint (mkCapability (CkEndpoint 1) (rights_union (rights_union SEND RECV) MANAGE)) ∧
  (∀ c, present demo_mint c → (∃ c0, present demo_boot c0 ∧ dominated c c0) ∨ minted demo_mc demo_boot c).
Proof.
  assert (Hrun : SyscallTable_dispatch demo_table 22 [2; 8] demo_boot = Some (Ok 1, demo_mint)) by (by vm_compute).
  split; [exact Hrun|split].
  - exists 0%nat. eexists _, 1%nat. split; vm_compute; reflexivity.
  - refine (proj1 (no_authority_from_nothing demo_mc demo_table demo_boot 22 [2; 8] (Ok 1) demo_mint _ _ _ Hrun)).
    + reflexivity.
    + intros ep msg Hep Hm. apply elem_of_replicate in Hep as [-> _]. by apply not_elem_of_nil in Hm.
    + apply pool_sound_new.
Defined.
