(* ===== verification/CapMove.v ===== *)
(** * Moving a capability with a message

    [sys_ipc_send_v1] takes the capability named by the header out of the
    sender's table before it tries to send and puts it back on every failure.
    The theorem says that the call is atomic: on any error — refused
    capability, dead endpoint, full queue, exhausted byte budget, deadline,
    blocking — every capability table and every queue is as before; on success
    exactly one message was appended, attributed by the kernel to the sender,
    and the moved capability left exactly its slot. *)

From S2P Require Import Prelude Cap Ipc Sched Timer Sync PageTable AddressSpace Smp Task VmoPool Kernel SysTask SysCaps SysIpc SysSync SysVmo Exec Syscall SysLogic HandlerLaws.

Definition cap_tables (k : Kernel) : list CapTable := tk_caps <$> tt_tasks (k_table k).
Definition queues (k : Kernel) : list (list Message) := ep_queue <$> rt_endpoints (k_router k).

(** ** What waiting, waking and switching leave alone *)

Definition frame (C : list CapTable) (Q : list (list Message)) (k : Kernel) : Prop := cap_tables k = C ∧ queues k = Q.

Lemma caps_alter f i (l : list Task) : (∀ t, tk_caps (f t) = tk_caps t) → tk_caps <$> alter f i l = tk_caps <$> l.
Proof.
  intros Hf. apply list_eq. intros j. rewrite !list_lookup_fmap. destruct (decide (i = j)) as [->|Hne].
  - rewrite list_lookup_alter_eq. destruct (l !! j); simpl; [by rewrite Hf|done].
  - by rewrite list_lookup_alter_ne.
Qed.

Lemma queues_put r id ep ep' :
  rt_endpoint r id = Some ep → ep_queue ep' = ep_queue ep →
  ep_queue <$> rt_endpoints (rt_put_endpoint r id ep') = ep_queue <$> rt_endpoints r.
Proof.
  unfold rt_endpoint. intros He Hq. simpl. rewrite list_fmap_insert, Hq. apply list_insert_id.
  by rewrite list_lookup_fmap, He.
Qed.

Lemma queues_live {A} r id (f : Endpoint → A * Endpoint) :
  (∀ ep, ep_queue (f ep).2 = ep_queue ep) →
  ep_queue <$> rt_endpoints (with_live_endpoint r id f).2 = ep_queue <$> rt_endpoints r.
Proof.
  intros Hf. unfold with_live_endpoint. destruct (rt_endpoint r id) as [ep|] eqn:E; [|done].
  destruct (negb (ep_alive ep)); [done|]. specialize (Hf ep). destruct (f ep) as [a ep']. by eapply queues_put.
Qed.

Lemma waiters_keep_queues r id pid :
  let same r' := ep_queue <$> rt_endpoints r' = ep_queue <$> rt_endpoints r in
  same (Router_register_send_waiter r id pid).2 ∧ same (Router_remove_send_waiter r id pid).2 ∧
  same (Router_remove_recv_waiter r id pid).2 ∧ same (Router_pop_recv_waiter r id).2.
Proof.
  simpl. split_and!; apply queues_live; intros ep; simpl; try done.
  - unfold Endpoint_register_send_waiter. by repeat case_match.
  - unfold Endpoint_pop_recv_waiter. by repeat case_match.
Qed.

Section frame.
Context (mc : Machine) (C : list CapTable) (Q : list (list Message)).
Let I := frame C Q.

Lemma f_world {A} (f : Env → World → A * World) :
  (∀ env w, tk_caps <$> tt_tasks (w_table (f env w).2) = tk_caps <$> tt_tasks (w_table w)) → hoare I (world_op mc f) any.
Proof.
  intros Hf. apply hoare_state_op. intros k [HC HQ]. specialize (Hf (env_of mc k) (k_world k)).
  destruct (f _ _) as [a w]. simpl in *. split; [|done]. split; [|done]. unfold cap_tables, k_table in *. simpl.
  by rewrite Hf.
Qed.

Lemma f_wake pid : hoare I (wake mc pid) any.
Proof.
  apply f_world. intros env w. simpl. destruct (wake_effect env w pid) as [->|(t & _ & _ & [[-> _]|H])]; [done| |].
  - by apply caps_alter.
  - destruct (Scheduler_enqueue_on_cpu _ _ _ _) as [o s]. destruct H as [_ ->]. destruct o; [by apply caps_alter|done].
Qed.

Lemma f_block reason : hoare I (block_current mc reason) any.
Proof. apply f_world. intros env w. simpl. by apply caps_alter. Qed.

Lemma f_router {A} (f : Router → A * Router) :
  (∀ r, ep_queue <$> rt_endpoints (f r).2 = ep_queue <$> rt_endpoints r) → hoare I (router_op f) any.
Proof.
  intros Hf. apply hoare_state_op. intros k [HC HQ]. specialize (Hf (k_router k)). destruct (f _) as [a r]. simpl in *.
  split; [|done]. split; [done|]. unfold queues in *. simpl. by rewrite Hf.
Qed.

Lemma f_register_send id pid : hoare I (router_op (fun r => Router_register_send_waiter r id pid)) any.
Proof. apply f_router. intros. by apply waiters_keep_queues. Qed.
Lemma f_remove_send id pid : hoare I (router_op (fun r => Router_remove_send_waiter r id pid)) any.
Proof. apply f_router. intros. by apply waiters_keep_queues. Qed.
Lemma f_remove_recv id pid : hoare I (router_op (fun r => Router_remove_recv_waiter r id pid)) any.
Proof. apply f_router. intros. by apply waiters_keep_queues. Qed.
Lemma f_pop_recv id : hoare I (router_op (fun r => Router_pop_recv_waiter r id)) any.
Proof. apply f_router. intros r. by apply (waiters_keep_queues r id 0). Qed.

Lemma f_now : hoare I (now mc) any.
Proof. apply hoare_now. by intros k []. Qed.

End frame.

#[export] Hint Resolve f_wake f_block f_register_send f_remove_send f_remove_recv f_pop_recv f_now : hoare.

Section waiting.
Context (mc : Machine) (C : list CapTable) (Q : list (list Message)).
Let I := frame C Q.

Lemma f_arm_wakeup d : hoare I (arm_wakeup mc d) any.
Proof. unfold arm_wakeup, I. hgo. apply hoare_modify. by intros k []. Qed.
Lemma f_expired d : hoare I (expired mc d) any.
Proof. unfold expired, I. hgo. Qed.
Lemma f_remove_recv_all eps pid : hoare I (remove_recv_all eps pid) any.
Proof. unfold I. induction eps; simpl; hgo. Qed.
Lemma f_remove_fence f : hoare I (modify (fun k => k_set_fences (f k) k)) any.
Proof. apply hoare_modify. by intros k []. Qed.
#[local] Hint Resolve f_arm_wakeup f_expired f_remove_recv_all f_remove_fence : hoare.

Lemma f_wake_expired_one t pid : hoare I (wake_expired_one mc t pid) any.
Proof. unfold wake_expired_one, I. hgo. Qed.
#[local] Hint Resolve f_wake_expired_one : hoare.
Lemma f_wake_expired_loop t pids : hoare I (wake_expired_loop mc t pids) any.
Proof. unfold I. induction pids; simpl; hgo. Qed.
#[local] Hint Resolve f_wake_expired_loop : hoare.
Lemma f_wake_expired_blocked : hoare I (wake_expired_blocked mc) any.
Proof. unfold wake_expired_blocked, I. hgo. Qed.

Lemma f_schedule_next : hoare I (schedule_next mc) any.
Proof.
  apply hoare_state_op. intros k Hk. by destruct (Scheduler_schedule_next _ _).
Qed.
Lemma f_set_current pid : hoare I (set_current mc pid) any.
Proof. apply hoare_modify. by intros k []. Qed.
#[local] Hint Resolve f_schedule_next f_set_current : hoare.
Lemma f_switch_or_wake {A} cur undo (P : A → Prop) : hoare I undo any → hoare I (switch_or_wake mc cur undo) P.
Proof. intros Hu. unfold switch_or_wake, I. hgo. Qed.

End waiting.

#[export] Hint Resolve f_arm_wakeup f_expired f_wake_expired_blocked : hoare.

(** ** Taking the capability and putting it back *)

Section move.
Context (mc : Machine).

Definition here (k : Kernel) : Z := TaskTable_current_pid (mc_hart mc) (k_table k).
Definition sender (k : Kernel) : option Task := TaskTable_task (k_table k) (here k).

(** The sender's table after the capability left [slot]. *)
Definition without (t : Task) (slot : nat) : CapTable := mkCapTable (<[slot := None]> (cap_slots (tk_caps t))).

(** What may travel in a message: no [MANAGE] authority, no endpoint factory. *)
Definition movable (c : Capability) : Prop :=
  rights_contains (cap_rights c) MANAGE = false ∧ cap_kind c ≠ CkEndpointFactory.

Definition took (k k1 : Kernel) (t : Task) (slot : nat) (c : Capability) : Prop :=
  sender k = Some t ∧ cap_slots (tk_caps t) !! slot = Some (Some c) ∧
  k_table k1 = TaskTable_update (Task_set_caps (without t slot)) (here k) (k_table k).

Lemma caps_set i T (l : list Task) : tk_caps <$> alter (Task_set_caps T) i l = <[i := T]> (tk_caps <$> l).
Proof.
  apply list_eq. intros j. rewrite list_lookup_fmap. destruct (decide (i = j)) as [->|Hne].
  - rewrite list_lookup_alter_eq. destruct (l !! j) as [t|] eqn:E; simpl.
    + rewrite list_lookup_insert_eq; [done|]. rewrite length_fmap. by eapply lookup_lt_Some.
    + symmetry. apply lookup_ge_None_2. rewrite length_insert, length_fmap. by apply lookup_ge_None.
  - by rewrite list_lookup_alter_ne, list_lookup_insert_ne, list_lookup_fmap.
Qed.

(** The sender's table in the list of all tables. *)
Lemma sender_caps k t : sender k = Some t → cap_tables k !! pid_index (here k) = Some (tk_caps t).
Proof. unfold sender, cap_tables. intros [_ Ht]%task_some. by rewrite list_lookup_fmap, Ht. Qed.

Lemma caps_op_run {A} (f : CapTable → A * CapTable) k t :
  sender k = Some t →
  caps_op mc f k = Some (Ok (f (tk_caps t)).1,
                         k_set_table (TaskTable_update (Task_set_caps (f (tk_caps t)).2) (here k) (k_table k)) k).
Proof.
  intros Ht. unfold caps_op, current_caps, current_task, current_pid, gets, update_task, modify, mbind, Sys_bind, mret, Sys_ret.
  fold (here k). fold (sender k). rewrite Ht. by destruct (f (tk_caps t)).
Qed.

Lemma took_here k k1 t slot c : took k k1 t slot c → here k1 = here k.
Proof. intros (_ & _ & Htab). unfold here. by rewrite Htab. Qed.

Lemma took_sender k k1 t slot c : took k k1 t slot c → sender k1 = Some (Task_set_caps (without t slot) t).
Proof.
  intros Hk. pose proof (took_here _ _ _ _ _ Hk) as Hh. destruct Hk as (Ht & _ & Htab).
  unfold sender in *. apply task_some in Ht as [Hp Ht]. rewrite Hh, Htab, task_at by done. simpl.
  by rewrite list_lookup_alter_eq, Ht.
Qed.

Lemma took_put_back k k1 k2 t slot c r :
  took k k1 t slot c → caps_op mc (fun t => CapTable_set t slot c) k1 = Some (r, k2) →
  cap_tables k2 = cap_tables k ∧ k_router k2 = k_router k1.
Proof.
  intros Hk. pose proof (took_here _ _ _ _ _ Hk) as Hh. pose proof (took_sender _ _ _ _ _ Hk) as Ht1.
  destruct Hk as (Ht & Hslot & Htab).
  rewrite (caps_op_run _ _ _ Ht1). intros [= <- <-]. split; [|done].
  pose proof (lookup_lt_Some _ _ _ Hslot) as Hlt.
  assert (Hback : (CapTable_set (without t slot) slot c).2 = tk_caps t).
  { unfold CapTable_set. simpl. rewrite length_insert, bool_decide_eq_false_2 by lia.
    rewrite list_lookup_insert_eq by done. simpl. rewrite list_insert_insert_eq, list_insert_id by done.
    by destruct (tk_caps t). }
  change (tk_caps <$> alter (Task_set_caps (CapTable_set (without t slot) slot c).2) (pid_index (here k1)) (tt_tasks (k_table k1)) =
          cap_tables k).
  rewrite Hback, Hh, caps_set, Htab. simpl. rewrite caps_set, list_insert_insert_eq. apply list_insert_id.
  by apply sender_caps.
Qed.

Lemma take_moved_spec slot k r k1 :
  take_moved_cap mc slot k = Some (r, k1) →
  match r with
  | Err _ => frame (cap_tables k) (queues k) k1
  | Ok c => movable c ∧ k_router k1 = k_router k ∧ ∃ t, took k k1 t slot c
  end.
Proof.
  unfold take_moved_cap, caps_try. unfold mbind at 1. unfold Sys_bind at 1. unfold mbind at 1. unfold Sys_bind at 1.
  destruct (sender k) as [t|] eqn:Ht.
  2:{ unfold caps_op, current_caps, current_task, mbind, Sys_bind. fold (here k). fold (sender k). by rewrite Ht. }
  rewrite (caps_op_run _ _ _ Ht). unfold CapTable_take.
  destruct (cap_slots (tk_caps t) !! slot) as [[c|]|] eqn:Es; simpl.
  - intros E. set (k2 := k_set_table _ k) in E. assert (Hk : took k k2 t slot c) by done.
    assert (Href : ∀ e, (_ ← caps_op mc (fun t => CapTable_set t slot c); fail e) k2 = Some (r, k1) →
                        match r with Err _ => frame (cap_tables k) (queues k) k1 | Ok _ => False end).
    { intros e. unfold mbind, Sys_bind. destruct (caps_op mc _ k2) as [[[x|x] k3]|] eqn:Ec; [| |done].
      all: destruct (took_put_back _ _ _ _ _ _ _ Hk Ec) as [H1 H2]; intros [= <- <-].
      all: split; [done|]; unfold queues; by rewrite H2. }
    destruct (_ || _)%bool eqn:Eb; [apply Href in E; by destruct r|].
    assert (Hmv : movable c) by (by apply orb_false_iff in Eb as [? ?%bool_decide_eq_false]).
    assert (Hok : (mret c : Sys Capability) k2 = Some (r, k1) → match r with Err _ => False | Ok c => movable c ∧ k_router k1 = k_router k ∧ ∃ t, took k k1 t slot c end).
    { intros [= <- <-]. eauto. }
    destruct (cap_kind c); try (apply Hok in E; by destruct r).
    unfold mbind, Sys_bind, gets in E. destruct (Router_endpoint_alive _ _); [apply Hok in E|apply Href in E]; by destruct r.
  - intros [= <- <-]. split; [|done]. eapply eq_trans; [apply caps_set|]. apply list_insert_id.
    rewrite list_insert_id by done. destruct (tk_caps t) eqn:Ec. simpl. rewrite <- Ec. by apply sender_caps.
  - intros [= <- <-]. split; [|done]. eapply eq_trans; [apply caps_set|]. apply list_insert_id. by apply sender_caps.
Qed.

(** ** One attempt *)

Lemma send_queues r id msg :
  let '(res, r') := Router_send_returning_message r id msg in
  match res with
  | Err (_, m) => m = msg ∧ ep_queue <$> rt_endpoints r' = ep_queue <$> rt_endpoints r
  | Ok _ => ∃ q, (ep_queue <$> rt_endpoints r) !! Z.to_nat id = Some q ∧
                 ep_queue <$> rt_endpoints r' = <[Z.to_nat id := q ++ [msg]]> (ep_queue <$> rt_endpoints r)
  end.
Proof.
  unfold Router_send_returning_message. destruct (rt_deny_next_send r); [done|].
  destruct (_ <? _); [done|]. destruct (owner_budget_exceeded _ _ _); [done|].
  destruct (rt_endpoint r id) as [ep|] eqn:E; [|done]. destruct (Endpoint_push ep msg) as [res ep'] eqn:Ep.
  unfold Endpoint_push in Ep. repeat case_match; simplify_eq/=; try (split; [done|by eapply queues_put]).
  exists (ep_queue ep). unfold rt_endpoint in E. split; [by rewrite list_lookup_fmap, E|].
  by rewrite list_fmap_insert.
Qed.

(** The message [msg] went to endpoint [ep], with the capability of [slot]. *)
Definition delivered (k k' : Kernel) (ep : Z) (h : MessageHeader) (p : list Z) (slot : option nat) : Prop :=
  ∃ t q msg, sender k = Some t ∧ queues k !! Z.to_nat ep = Some q ∧
    queues k' = <[Z.to_nat ep := q ++ [msg]]> (queues k) ∧
    msg_header msg = h ∧ msg_payload msg = p ∧ msg_sender_service_id msg = tk_service_id t ∧
    match slot with
    | None => msg_moved_cap msg = None ∧ cap_tables k' = cap_tables k
    | Some i => ∃ c, msg_moved_cap msg = Some c ∧ cap_slots (tk_caps t) !! i = Some (Some c) ∧ movable c ∧
                     cap_tables k' = <[pid_index (here k) := without t i]> (cap_tables k)
    end.

Lemma took_tables k k1 t slot c : took k k1 t slot c → cap_tables k1 = <[pid_index (here k) := without t slot]> (cap_tables k).
Proof. intros (_ & _ & Htab). unfold cap_tables. rewrite Htab. apply caps_set. Qed.

(** Blocking or failing after the capability went back. *)
Lemma after_restore C Q ep nonblock d e :
  hoare (frame C Q)
    (if (bool_decide (e = QueueFull) && negb nonblock)%bool then
       late ← expired mc d;
       _ ← check (negb late) (SeIpc TimedOut);
       cur ← current_pid mc;
       r ← router_op (fun r => Router_register_send_waiter r ep cur);
       _ ← lift SeIpc r;
       _ ← block_current mc (BrIpcSend ep d);
       _ ← wake_expired_blocked mc;
       switch_or_wake mc cur (_ ← router_op (fun r => Router_remove_send_waiter r ep cur); mret tt)
     else fail (SeIpc e)) (fun _ : unit => False).
Proof.
  destruct (_ && _)%bool; [|apply hoare_fail]. do 7 (hstep; intros). apply f_switch_or_wake. hgo.
Qed.

(** The state in which the message is sent. *)
Definition moved_from (k k1 : Kernel) (t : Task) (slot : option nat) (moved : option Capability) : Prop :=
  match slot, moved with
  | None, None => k1 = k ∧ sender k = Some t
  | Some i, Some c => movable c ∧ k_router k1 = k_router k ∧ took k k1 t i c
  | _, _ => False
  end.

Lemma moved_sender k k1 t slot moved :
  moved_from k k1 t slot moved → ∃ t1, sender k1 = Some t1 ∧ tk_service_id t1 = tk_service_id t.
Proof.
  destruct slot as [i|], moved as [c|]; try done.
  - intros (_ & _ & Hk). eexists. by rewrite (took_sender _ _ _ _ _ Hk).
  - intros [-> ?]. eauto.
Qed.

Lemma moved_router k k1 t slot moved : moved_from k k1 t slot moved → k_router k1 = k_router k ∧ sender k = Some t.
Proof. destruct slot, moved; try done; [by intros (_ & ? & ? & _)|by intros [-> ?]]. Qed.

(** Restoring brings every table back. *)
Lemma moved_back k k1 k2 t slot moved msg r k3 :
  moved_from k k1 t slot moved → msg_moved_cap msg = moved → k_table k2 = k_table k1 →
  restore_cap mc slot msg k2 = Some (r, k3) → cap_tables k3 = cap_tables k ∧ k_router k3 = k_router k2.
Proof.
  intros Hm Hmsg Htab. unfold restore_cap. rewrite Hmsg. destruct slot as [i|], moved as [c|]; try done; simpl in Hm.
  - destruct Hm as (_ & _ & Ht & Hs & Hk). intros [(x & k4 & E & [= <- <-])|(e & -> & E)]%bind_inv.
    all: eapply (took_put_back k k2); [|exact E]; split_and!; [done..|]; by rewrite Htab.
  - destruct Hm as [-> _]. intros [= <- <-]. unfold cap_tables. by rewrite Htab.
Qed.

Lemma service_id_run k r k' :
  current_service_id mc k = Some (r, k') → ∃ t, sender k = Some t ∧ r = Ok (tk_service_id t) ∧ k' = k.
Proof.
  unfold current_service_id, current_task, mbind, Sys_bind. fold (here k). fold (sender k).
  destruct (sender k) as [t|]; [|done]. intros [= <- <-]. eauto.
Qed.

Lemma moved_start k slot moved k1 t1 :
  (match slot with Some slot => cap ← take_moved_cap mc slot; mret (Some cap) | None => mret None end) k = Some (Ok moved, k1) →
  sender k1 = Some t1 → ∃ t, moved_from k k1 t slot moved.
Proof.
  destruct slot as [i|]; [|intros [= <- <-]; by exists t1].
  intros [(c & k2 & E & [= <- <-])|(e & [=] & _)]%bind_inv _.
  destruct (take_moved_spec _ _ _ _ E) as (Hmv & Hr & t & Hk). by exists t.
Qed.

(** Waking a receiver succeeds and keeps tables and queues. *)
Lemma wake_receiver ep k r k' :
  wake_waiter mc (fun r => Router_pop_recv_waiter r ep) k = Some (r, k') →
  frame (cap_tables k) (queues k) k' ∧ r = Ok tt.
Proof.
  intros E. split.
  - assert (H : hoare (frame (cap_tables k) (queues k)) (wake_waiter mc (fun r => Router_pop_recv_waiter r ep)) any)
      by (unfold wake_waiter; hgo).
    by apply (H _ _ _ (conj eq_refl eq_refl) E).
  - apply bind_inv in E as [(x & k1 & _ & E)|(e & _ & E)].
    + destruct x as [[w|]|]; by injection E.
    + unfold router_op, state_op in E. by destruct (Router_pop_recv_waiter _ _).
Qed.

(** An attempt delivers, or changes no table and no queue. *)
Lemma send_attempt_spec ep nonblock d h p slot k r k' :
  send_attempt mc ep nonblock d h p slot k = Some (r, k') →
  match r with
  | Ok _ => delivered k k' ep h (take (Z.to_nat (hdr_len h)) p) slot
  | Err _ => frame (cap_tables k) (queues k) k'
  end.
Proof.
  unfold send_attempt. intros [(moved & k1 & Em & E)|(e & -> & E)]%bind_inv.
  2:{ destruct slot as [i|]; [|done]. apply bind_inv in E as [(c & k1 & _ & [=])|(e' & [= <-] & E)].
      exact (take_moved_spec _ _ _ _ E). }
  apply bind_inv in E as [(sid & k2 & Es & E)|(e & _ & Es)]; apply service_id_run in Es as (t1 & Ht1 & Hsid & ->); [|done].
  destruct (moved_start _ _ _ _ _ Em Ht1) as [t Hm]. destruct (moved_router _ _ _ _ _ Hm) as [Hr Ht].
  destruct (moved_sender _ _ _ _ _ Hm) as (t1' & Ht1' & Hid). assert (t1' = t1) as -> by congruence. injection Hsid as ->.
  apply bind_inv in E as [(res & k3 & Ex & E)|(e & _ & Ex)].
  2:{ unfold router_op, state_op in Ex. by destruct (Router_send_returning_message _ _ _). }
  set (msg := send_message (tk_service_id t1) h p moved) in *. pose proof (send_queues (k_router k1) ep msg) as Hq.
  unfold router_op, state_op in Ex. destruct (Router_send_returning_message (k_router k1) ep msg) as [res' r'].
  simplify_eq. rewrite Hr in Hq. destruct res as [[]|[e m]].
  - destruct Hq as (q & Hq1 & Hq2).
    destruct (wake_receiver _ _ _ _ E) as [[Hc HQ] Hok]. rewrite Hok.
    exists t, q, msg. split_and!; try done; [by rewrite HQ|].
    destruct slot as [i|], moved as [c|]; try done; [|by destruct Hm as [-> _]].
    destruct Hm as (Hmv & _ & Hk). exists c. split_and!; try done; [apply Hk|]. rewrite Hc. by apply took_tables in Hk.
  - destruct Hq as [-> Hq].
    apply bind_inv in E as [(x & k4 & Eb & E)|(e' & -> & Eb)].
    + destruct (moved_back _ _ (k_set_router r' k1) _ _ _ msg _ _ Hm eq_refl eq_refl Eb) as [Hc Hr4].
      destruct (after_restore (cap_tables k) (queues k) ep nonblock d e k4 r k') as [Hf Hno]; [|done|].
      { split; [done|]. unfold queues. by rewrite Hr4. }
      destruct r as [u|]; [by destruct (Hno u)|done].
    + destruct (moved_back _ _ (k_set_router r' k1) _ _ _ msg _ _ Hm eq_refl eq_refl Eb) as [Hc Hr4].
      split; [done|]. unfold queues. by rewrite Hr4.
Qed.

(** ** The whole call *)

Lemma arm_run d k r k' :
  arm_wakeup mc d k = Some (r, k') → r = Ok tt ∧ k_table k' = k_table k ∧ k_router k' = k_router k.
Proof.
  unfold arm_wakeup. destruct (d =? 0); [by intros [= <- <-]|]. unfold now, gets, modify, mbind, Sys_bind.
  destruct (_ && _)%bool; by intros [= <- <-].
Qed.

Lemma delivered_start k k1 k' ep h p slot :
  k_table k1 = k_table k → k_router k1 = k_router k → delivered k1 k' ep h p slot → delivered k k' ep h p slot.
Proof. unfold delivered, sender, here, queues, cap_tables. by intros -> ->. Qed.

Lemma frame_start k k1 k' :
  k_table k1 = k_table k → k_router k1 = k_router k → frame (cap_tables k1) (queues k1) k' →
  frame (cap_tables k) (queues k) k'.
Proof. unfold frame, queues, cap_tables. by intros -> ->. Qed.

Lemma load_user_length k va n bytes : load_user mc k va n = Some bytes → length bytes = n.
Proof.
  revert va bytes. induction n as [|n IH]; intros va bytes; simpl; [by intros [= <-]|].
  destruct (user_pa _ _ _ _) as [pa|]; [|done]. simpl. destruct (load_user mc k (va + 1) n) eqn:E; [|done]. simpl.
  intros [= <-]. simpl. by rewrite (IH _ _ E).
Qed.

Lemma read_user_run k va n r k' :
  read_user mc va n k = Some (r, k') → ∃ bytes, load_user mc k va (Z.to_nat n) = Some bytes ∧ r = Ok bytes ∧ k' = k.
Proof. unfold read_user. destruct (load_user _ _ _ _) as [bytes|]; intros [=]; subst; eauto. Qed.

Lemma derive_endpoint_run slot rights k r k' :
  derive_endpoint mc slot rights k = Some (r, k') →
  k' = k ∧ ∀ id, r = Ok id → ∃ t ep, sender k = Some t ∧
    CapTable_derive_endpoint_ref (tk_caps t) slot rights = Ok ep ∧ id = ecr_endpoint ep.
Proof.
  unfold derive_endpoint, current_caps, current_task, mbind, Sys_bind, lift. fold (here k). fold (sender k).
  destruct (sender k) as [t|] eqn:Ht; [|done]. simpl.
  destruct (CapTable_derive_endpoint_ref _ _ _) as [ep|e] eqn:E; simpl; intros [= <- <-]; split; try done.
  intros id [= <-]. eauto.
Qed.

End move.

Lemma arg_width args i : Forall (in_width 64) args → in_width 64 (arg args i).
Proof.
  intros Hw. unfold arg, Args. destruct (args !! i) as [x|] eqn:E; simpl; [by apply (Forall_lookup_1 _ _ _ _ Hw E)|].
  split; lia.
Qed.

Lemma send_payload_width args :
  Forall (in_width 64) args → map_err id (IpcSendV1Args_check (IpcSendV1Args_decode args)) = Ok tt →
  as_u32 (arg args 3) = arg args 3.
Proof.
  intros Hw. unfold IpcSendV1Args_check. destruct (ensure_user_slice _ _); simpl; [|done].
  destruct (Z.ltb_spec SYS_MAX_FRAME_BYTES (arg args 3)); [done|]. intros _. unfold as_u32. apply Z.mod_small.
  pose proof (arg_width _ 3 Hw) as [? _]. unfold SYS_MAX_FRAME_BYTES in *. lia.
Qed.

(** C3: sending with a moved capability is atomic.  Whenever [sys_ipc_send_v1]
    ends in an error — a refused or dead capability, a full queue, an exhausted
    byte budget, a deadline, or after blocking for a retry — every task's
    capability table and every endpoint's queue is exactly as before.  When it
    succeeds, exactly one message was appended, to the endpoint the sender's
    slot names with [SEND]; its header carries the sender's PID and the kernel's
    record of its service identity, its payload is the user's; and if the header
    asked for a move, the message holds that capability, which carried no
    [MANAGE] right and was no factory, and the sender's table lost exactly that
    slot. *)
Theorem send_cap_move_atomic mc args k r k'
    (Hw : Forall (in_width 64) args) (Hrun : sys_ipc_send_v1 mc args k = Some (r, k')) :
  match r with
  | Err _ => cap_tables k' = cap_tables k ∧ queues k' = queues k
  | Ok n => ∃ t ep bytes payload,
      sender mc k = Some t ∧ n = arg args 3 ∧
      CapTable_derive_endpoint_ref (tk_caps t) (Z.to_nat (arg args 0)) SEND = Ok ep ∧
      load_user mc k (arg args 1) 16 = Some bytes ∧ load_user mc k (arg args 2) (Z.to_nat n) = Some payload ∧
      let hdr := MessageHeader_from_le_bytes bytes in
      delivered mc k k' (ecr_endpoint ep) (mkMessageHeader 0 (here mc k) (hdr_ty hdr) (hdr_flags hdr) n) payload
        (if flag_set (hdr_flags hdr) IPC_MSG_FLAG_CAP_MOVE then Some (Z.to_nat (hdr_src hdr)) else None)
  end.
Proof.
  revert Hrun. unfold sys_ipc_send_v1, lift, check, current_pid, gets.
  intros [(u & k1 & [= Hchk <-] & E)|(e & -> & [= _ <-])]%bind_inv; [|done].
  apply bind_inv in E as [(u2 & k1 & [= _ <-] & E)|(e & -> & [= _ <-])]; [|done].
  apply bind_inv in E as [(id & k1 & E1 & E)|(e & -> & E1)]; apply derive_endpoint_run in E1 as [-> Hep]; [|done].
  destruct (Hep _ eq_refl) as (t & ep & Ht & Hd & ->).
  apply bind_inv in E as [(bytes & k1 & E1 & E)|(e & -> & E1)]; apply read_user_run in E1 as (bs & Hb & [= <-] & ->).
  apply bind_inv in E as [(u3 & k1 & [= _ <-] & E)|(e & -> & [= _ <-])]; [|done].
  apply bind_inv in E as [(pl & k1 & E1 & E)|(e & -> & E1)]; apply read_user_run in E1 as (bs & Hp & [= <-] & ->).
  apply bind_inv in E as [(pid & k1 & [= <- <-] & E)|(e & -> & [=])].
  assert (Harm : ∀ r1 k1, (if flag_set (sv_sys_flags (IpcSendV1Args_decode args)) IPC_SYS_NONBLOCK then mret tt
                           else arm_wakeup mc (sv_deadline_ns (IpcSendV1Args_decode args)) : Sys unit) k = Some (r1, k1) →
                  r1 = Ok tt ∧ k_table k1 = k_table k ∧ k_router k1 = k_router k).
  { intros r1 k1. destruct (flag_set _ _); [by intros [= <- <-]|apply arm_run]. }
  apply bind_inv in E as [(u4 & k1 & E1 & E)|(e & -> & E1)]; destruct (Harm _ _ E1) as (Hu & Htab & Hr); [|done].
  apply bind_inv in E as [(u5 & k2 & E2 & [= <- <-])|(e & -> & E2)]; apply send_attempt_spec in E2.
  2:{ by eapply frame_start. }
  destruct u. pose proof (send_payload_width _ Hw Hchk) as Hn. simpl in *. rewrite Hn in E2.
  rewrite take_ge in E2 by (by rewrite (load_user_length _ _ _ _ _ Hp)).
  exists t, ep, bytes, pl. split_and!; try done. by eapply delivered_start.
Qed.

(** Task 1 moves its VMO capability out of slot 3 into endpoint 0. *)
Definition demo_send : Kernel :=
  match sys_ipc_send_v1 demo_mc [0; 0x1000; 0x2000; 2; 1; 0] demo_ipc with Some (_, k') => k' | None => demo_ipc end.

Lemma send_cap_move_atomic_witness :
  sys_ipc_send_v1 demo_mc [0; 0x1000; 0x2000; 2; 1; 0] demo_ipc = Some (Ok 2, demo_send) ∧
  (∃ t ep bytes payload,
      sender demo_mc demo_ipc = Some t ∧ 2 = 2 ∧
      CapTable_derive_endpoint_ref (tk_caps t) 0 SEND = Ok ep ∧
      load_user demo_mc demo_ipc 0x1000 16 = Some bytes ∧ load_user demo_mc demo_ipc 0x2000 2 = Some payload ∧
      let hdr := MessageHeader_from_le_bytes bytes in
      delivered demo_mc demo_ipc demo_send (ecr_endpoint ep)
        (mkMessageHeader 0 (here demo_mc demo_ipc) (hdr_ty hdr) (hdr_flags hdr) 2) payload
        (if flag_set (hdr_flags hdr) IPC_MSG_FLAG_CAP_MOVE then Some (Z.to_nat (hdr_src hdr)) else None)) ∧
  cap_tables demo_send !! 1%nat = Some (demo_caps [(0%nat, cap_endpoint 0)]).
Proof.
  assert (Hrun : sys_ipc_send_v1 demo_mc [0; 0x1000; 0x2000; 2; 1; 0] demo_ipc = Some (Ok 2, demo_send)) by (by vm_compute).
  split; [exact Hrun|split; [|by vm_compute]].
  refine (send_cap_move_atomic demo_mc [0; 0x1000; 0x2000; 2; 1; 0] demo_ipc (Ok 2) demo_send _ Hrun).
  repeat (apply Forall_cons; split; [split; lia|]). by apply Forall_nil.
Defined.
