(* ===== verification/VmoAccess.v ===== *)
(** * Reading and writing a VMO

    [sys_vmo_write] and [sys_vmo_read] copy between user memory and the physical
    range of a VMO.  A write changes exactly the bytes of the requested span,
    which lies inside a VMO the caller may map; a read right after it with the
    same operands hands the same bytes back. *)

From S2P Require Import Prelude Cap Ipc Sched Timer Sync PageTable AddressSpace Smp Task VmoPool Kernel SysTask SysCaps SysIpc SysSync SysVmo Exec Syscall SysLogic CapMove.

Section access.
Context (mc : Machine).

(** The VMO [base, base + len) the caller holds in [slot] with [MAP]. *)
Definition holds_vmo (k : Kernel) (slot : nat) (base len : Z) : Prop :=
  ∃ t c, sender mc k = Some t ∧ cap_slots (tk_caps t) !! slot = Some (Some c) ∧ cap_kind c = CkVmo base len ∧
         rights_contains (cap_rights c) MAP = true.

Lemma vmo_of_slot_run slot k r k' :
  vmo_of_slot mc slot k = Some (r, k') → k' = k ∧ ∀ v, r = Ok v → holds_vmo k slot v.1 v.2.
Proof.
  unfold vmo_of_slot, derive, current_caps, current_task, mbind, Sys_bind, lift. fold (here mc k). fold (sender mc k).
  destruct (sender mc k) as [t|] eqn:Ht; [|done]. simpl. unfold CapTable_derive, CapTable_get.
  destruct (cap_slots (tk_caps t) !! slot) as [[c|]|] eqn:Es; simpl; try (by intros [= <- <-]).
  destruct (rights_contains (cap_rights c) MAP) eqn:Er; simpl; [|by intros [= <- <-]].
  destruct (cap_kind c) as [| |base len| | | | | |] eqn:Ek; intros [= <- <-]; split; try done.
  intros v [= <-]. by exists t, c.
Qed.

Lemma holds_vmo_det k slot b1 l1 b2 l2 : holds_vmo k slot b1 l1 → holds_vmo k slot b2 l2 → b1 = b2 ∧ l1 = l2.
Proof. intros (t & c & Ht & Hc & Hk & _) (t' & c' & Ht' & Hc' & Hk' & _).
  rewrite Ht in Ht'. injection Ht' as <-. rewrite Hc in Hc'. injection Hc' as <-. rewrite Hk in Hk'. by injection Hk'. Qed.

(** A successful check of the span keeps it inside the VMO. *)
Lemma span_check_ok off n len : vmo_span_check off n len = Ok tt → off + n ≤ len.
Proof.
  unfold vmo_span_check, checked_add, ok_or. case_match; [|done]. simpl. destruct (Z.ltb_spec len z); [done|].
  case_match; by simplify_eq.
Qed.

(** What both calls check before they touch memory. *)
Lemma vmo_access_run {A} args (body : Z * Z → Sys A) k r k' :
  (vmo ← vmo_of_slot mc (Z.to_nat (arg args 0));
   _ ← lift id (vmo_span_check (arg args 1) (arg args 3) vmo.2);
   _ ← user_slice (arg args 2) (arg args 3);
   body vmo) k = Some (r, k') →
  (∃ e, r = Err e ∧ k' = k) ∨
  (∃ base len, holds_vmo k (Z.to_nat (arg args 0)) base len ∧ arg args 1 + arg args 3 ≤ len ∧
               ensure_user_slice (arg args 2) (arg args 3) = Ok tt ∧ body (base, len) k = Some (r, k')).
Proof.
  intros [([base len] & k1 & Hv & E)|(e & -> & Hv)]%bind_inv; apply vmo_of_slot_run in Hv as [-> Hv]; [|left; by exists e].
  apply bind_inv in E as [(u & k1 & [= Hs <-] & E)|(e & -> & [= _ <-])]; [|left; by exists e].
  apply bind_inv in E as [(u2 & k1 & [= Hu <-] & E)|(e & -> & [= _ <-])]; [|left; by exists e].
  right. exists base, len. destruct u, u2. split_and!; try done; [by apply (Hv (base, len))|].
  apply span_check_ok. simpl in Hs. by destruct (vmo_span_check _ _ _).
Qed.

(** ** Memory *)

Lemma store_phys_out m base bytes x : ¬ (base ≤ x < base + vlen bytes) → store_phys m base bytes x = m x.
Proof. intros H. unfold store_phys. case_match eqn:E; [|done]. apply andb_true_iff in E. lia. Qed.

Lemma load_store_phys m base bytes : load_phys (store_phys m base bytes) base (length bytes) = bytes.
Proof.
  apply list_eq. intros i. unfold load_phys. rewrite list_lookup_fmap.
  destruct (decide (i < length bytes)%nat) as [Hi|Hi].
  - rewrite lookup_seq_lt by done. simpl. destruct (lookup_lt_is_Some_2 bytes i Hi) as [b Hb]. rewrite Hb. f_equal.
    unfold store_phys, vlen. case_match eqn:E; [|apply andb_false_iff in E; lia].
    replace (Z.to_nat (base + Z.of_nat i - base)) with i by lia. by rewrite Hb.
  - rewrite lookup_seq_ge by lia. symmetry. apply lookup_ge_None. lia.
Qed.

Lemma user_pa_phys m k w va : user_pa mc (k_set_phys m k) w va = user_pa mc k w va.
Proof. done. Qed.

Lemma load_phys_length m base n : length (load_phys m base n) = n.
Proof. unfold load_phys. by rewrite length_map, length_seq. Qed.

(** A byte stored through an address no later byte is stored through stays. *)
Lemma store_user_keep k bytes : ∀ va m m' pa,
  store_user mc k va bytes m = Some m' → (∀ j, (j < length bytes)%nat → user_pa mc k true (va + Z.of_nat j) ≠ Some pa) →
  m' pa = m pa.
Proof.
  induction bytes as [|b bytes IH]; intros va m m' pa; simpl; [by intros [= ->]|].
  destruct (user_pa mc k true va) as [p0|] eqn:Ep; simpl; [|done]. intros Hs Hno.
  rewrite (IH _ _ _ _ Hs).
  - destruct (Z.eqb_spec pa p0) as [->|]; [|done]. exfalso. apply (Hno 0%nat); [lia|]. by rewrite Z.add_0_r.
  - intros j Hj. specialize (Hno (S j) ltac:(lia)). by replace (va + 1 + Z.of_nat j) with (va + Z.of_nat (S j)) by lia.
Qed.

Lemma store_user_at k bytes : ∀ va m m' i b pa,
  store_user mc k va bytes m = Some m' → bytes !! i = Some b → user_pa mc k true (va + Z.of_nat i) = Some pa →
  (∀ j, (i < j < length bytes)%nat → user_pa mc k true (va + Z.of_nat j) ≠ Some pa) → m' pa = b.
Proof.
  induction bytes as [|b0 bytes IH]; intros va m m' i b pa; simpl; [done|].
  destruct (user_pa mc k true va) as [p0|] eqn:Ep; simpl; [|done]. intros Hs Hb Hpa Hno.
  destruct i as [|i]; simpl in Hb.
  - simplify_eq. rewrite Z.add_0_r, Ep in Hpa. simplify_eq. rewrite (store_user_keep _ _ _ _ _ _ Hs).
    + by rewrite Z.eqb_refl.
    + intros j Hj. specialize (Hno (S j) ltac:(lia)). by replace (va + 1 + Z.of_nat j) with (va + Z.of_nat (S j)) by lia.
  - apply (IH _ _ _ i b pa Hs Hb); [by replace (va + 1 + Z.of_nat i) with (va + Z.of_nat (S i)) by lia|].
    intros j Hj. specialize (Hno (S j) ltac:(lia)). by replace (va + 1 + Z.of_nat j) with (va + Z.of_nat (S j)) by lia.
Qed.

(** ** The two calls *)

Lemma sys_vmo_read_run args k r k' :
  sys_vmo_read mc args k = Some (r, k') →
  (∃ e, r = Err e ∧ k' = k) ∨
  (∃ base len m, r = Ok (arg args 3) ∧ holds_vmo k (Z.to_nat (arg args 0)) base len ∧ arg args 1 + arg args 3 ≤ len ∧
     k' = k_set_phys m k ∧
     store_user mc k (arg args 2) (load_phys (k_phys k) (base + arg args 1) (Z.to_nat (arg args 3))) (k_phys k) = Some m).
Proof.
  intros [(e & ? & ?)|(base & len & Hh & Hl & _ & E)]%vmo_access_run; [left; by exists e|right].
  apply bind_inv in E as [(bs & k1 & [= <- <-] & E)|(e & -> & [=])].
  unfold write_user in E. apply bind_inv in E. simpl in E. destruct (store_user _ _ _ _ _) as [m|] eqn:Es; [|naive_solver].
  destruct E as [(u & k1 & [= _ <-] & [= <- <-])|(e & _ & [=])]. by exists base, len, m.
Qed.

Lemma sys_vmo_write_run args k r k' :
  sys_vmo_write mc args k = Some (r, k') →
  (∃ e, r = Err e ∧ k' = k) ∨
  (∃ base len bytes, r = Ok (arg args 3) ∧ holds_vmo k (Z.to_nat (arg args 0)) base len ∧ arg args 1 + arg args 3 ≤ len ∧
     load_user mc k (arg args 2) (Z.to_nat (arg args 3)) = Some bytes ∧
     k' = k_set_phys (store_phys (k_phys k) (base + arg args 1) bytes) k).
Proof.
  intros [(e & ? & ?)|(base & len & Hh & Hl & _ & E)]%vmo_access_run; [left; by exists e|right].
  apply bind_inv in E as [(bytes & k1 & E1 & E)|(e & -> & E1)]; apply read_user_run in E1 as (bs & Hb & [= <-] & ->).
  apply bind_inv in E as [(u & k1 & [= _ <-] & [= <- <-])|(e & _ & [=])]. by exists base, len, bytes.
Qed.

End access.

(** C8: writing to a VMO and reading it back.  [sys_vmo_write] fails without any
    effect, or copies exactly the requested number of bytes from the caller's
    memory into the span at the requested offset of a VMO the caller holds with
    [MAP], the whole span lying inside that VMO, and changes nothing else.  A
    successful [sys_vmo_read] of the same span right afterwards reports the same
    length and leaves each byte that was written at the physical address behind
    its place in the destination buffer (the last one, should two places of the
    buffer share an address). *)
Theorem vmo_write_read_roundtrip mc args k r k'
    (Hw : Forall (in_width 64) args) (Hrun : sys_vmo_write mc args k = Some (r, k')) :
  match r with
  | Err _ => k' = k
  | Ok n => ∃ base len bytes,
      n = arg args 3 ∧ holds_vmo mc k (Z.to_nat (arg args 0)) base len ∧ 0 ≤ arg args 1 ∧ arg args 1 + n ≤ len ∧
      load_user mc k (arg args 2) (Z.to_nat n) = Some bytes ∧
      k' = k_set_phys (k_phys k') k ∧
      (∀ x, ¬ (base + arg args 1 ≤ x < base + arg args 1 + n) → k_phys k' x = k_phys k x) ∧
      load_phys (k_phys k') (base + arg args 1) (Z.to_nat n) = bytes ∧
      (∀ ptr n2 k2, sys_vmo_read mc [arg args 0; arg args 1; ptr; n] k' = Some (Ok n2, k2) →
         n2 = n ∧
         ∀ i b pa, bytes !! i = Some b → user_pa mc k true (ptr + Z.of_nat i) = Some pa →
           (∀ j, (i < j)%nat → Z.of_nat j < n → user_pa mc k true (ptr + Z.of_nat j) ≠ Some pa) → k_phys k2 pa = b)
  end.
Proof.
  destruct (sys_vmo_write_run _ _ _ _ _ Hrun) as [(e & -> & ->)|(base & len & bytes & -> & Hh & Hl & Hu & ->)]; [done|].
  pose proof (arg_width _ 1 Hw) as H1. pose proof (arg_width _ 3 Hw) as H3. unfold in_width in *.
  pose proof (load_user_length _ _ _ _ _ Hu) as Hlen.
  exists base, len, bytes. split_and!; try done; [lia| | |].
  - intros x Hx. apply store_phys_out. unfold vlen. lia.
  - rewrite <- Hlen. apply load_store_phys.
  - intros ptr n2 k2 Hr. apply sys_vmo_read_run in Hr as [(e & [=] & _)|(b2 & l2 & m & [= ->] & Hh2 & _ & -> & Hs)].
    destruct (holds_vmo_det _ _ _ _ _ _ _ Hh Hh2) as [<- <-]. change (arg [arg args 0; arg args 1; ptr; arg args 3] 3) with (arg args 3) in Hs.
    change (arg [arg args 0; arg args 1; ptr; arg args 3] 1) with (arg args 1) in Hs. rewrite <- Hlen in Hs.
    change (k_phys (k_set_phys ?m _)) with m in Hs. rewrite load_store_phys in Hs.
    split; [done|]. intros i b pa Hb Hpa Hno. apply (store_user_at _ _ _ _ _ _ _ _ _ Hs Hb Hpa).
    intros j Hj. apply Hno; lia.
Qed.

(** Task 1 writes two bytes of its memory at offset 16 of its VMO and reads
    them back elsewhere. *)
Definition demo_written : Kernel :=
  match sys_vmo_write demo_mc [3; 16; 0x2000; 2] demo_ipc with Some (_, k') => k' | None => demo_ipc end.
Definition demo_read_back : Kernel :=
  match sys_vmo_read demo_mc [3; 16; 0x5000; 2] demo_written with Some (_, k') => k' | None => demo_written end.

(** The state of a run whose result is known. *)
Lemma run_value {A} (m : Sys A) (k d : Kernel) v :
  fst <$> m k = Some v → m k = Some (v, match m k with Some (_, k') => k' | None => d end).
Proof. destruct (m k) as [[r k']|]; [|done]. by intros [= ->]. Qed.

Lemma vmo_write_read_roundtrip_witness :
  sys_vmo_write demo_mc [3; 16; 0x2000; 2] demo_ipc = Some (Ok 2, demo_written) ∧
  load_phys (k_phys demo_written) 0x84000010 2 = [65; 66] ∧
  sys_vmo_read demo_mc [3; 16; 0x5000; 2] demo_written = Some (Ok 2, demo_read_back) ∧
  k_phys demo_read_back 0x5001 = 66.
Proof.
  assert (Hrun : sys_vmo_write demo_mc [3; 16; 0x2000; 2] demo_ipc = Some (Ok 2, demo_written)).
  { apply run_value. by vm_compute. }
  assert (Hread : sys_vmo_read demo_mc [3; 16; 0x5000; 2] demo_written = Some (Ok 2, demo_read_back)).
  { apply run_value. by vm_compute. }
  assert (Hw : Forall (in_width 64) [3; 16; 0x2000; 2]).
  { repeat (apply Forall_cons; split; [split; lia|]). by apply Forall_nil. }
  split; [exact Hrun|].
  destruct (vmo_write_read_roundtrip demo_mc [3; 16; 0x2000; 2] demo_ipc (Ok 2) demo_written Hw Hrun)
    as (base & len & bytes & _ & Hh & _ & _ & Hb & _ & _ & Hl & Hr).
  assert (bytes = [65; 66]) as -> by (vm_compute in Hb; congruence).
  assert (Hh0 : holds_vmo demo_mc demo_ipc 3 0x84000000 4096).
  { exists (demo_task 1 (demo_caps [(0%nat, cap_endpoint 0); (3%nat, cap_vmo)])), cap_vmo. by split_and!; vm_compute. }
  destruct (holds_vmo_det _ _ _ _ _ _ _ Hh Hh0) as [-> ->].
  split; [exact Hl|]. split; [exact Hread|]. destruct (Hr _ _ _ Hread) as [_ H].
  apply (H 1%nat 66 0x5001); [done|by vm_compute|]. intros j ? ?. lia.
Defined.
