(* ===== verification/ExecProps.v ===== *)
(** * The loader touches only fresh memory

    [sys_exec] and [sys_exec_v2] copy an image given by the caller into memory
    taken from the VMO arena.  Whatever the image says, every byte the loader
    writes lies in a range it allocated in this call, every byte it stages for
    copying lies in the caller's image, and the memory recorded for the new task
    is disjoint from all memory in use. *)

From S2P Require Import Prelude Cap Ipc Sched Timer Sync PageTable AddressSpace Smp Task VmoPool VmoProps Kernel SysTask SysCaps SysIpc SysSync SysVmo Exec Syscall SysLogic HandlerLaws CapMove VmoAccess.

(** ** Memory *)

Definition bytes_ok (m : Bytes) : Prop := ∀ x, is_byte (m x).

Lemma bytes_zero m s l : bytes_ok m → bytes_ok (zero_range m s l).
Proof. intros H x. unfold zero_range. case_match; [by split|apply H]. Qed.

Lemma bytes_store m base l : bytes_ok m → Forall is_byte l → bytes_ok (store_phys m base l).
Proof.
  intros H Hl x. unfold store_phys. case_match; [|apply H].
  destruct (l !! Z.to_nat (x - base)) as [b|] eqn:E; [by eapply Forall_lookup_1|by split].
Qed.

Lemma load_user_bytes mc k va n l : bytes_ok (k_phys k) → load_user mc k va n = Some l → Forall is_byte l.
Proof.
  intros H. revert va l. induction n as [|n IH]; intros va l; simpl; [by intros [= <-]|].
  destruct (user_pa mc k false va) as [pa|]; simpl; [|done].
  destruct (load_user mc k (va + 1) n) as [rest|] eqn:E; simpl; intros [= <-]. constructor; [apply H|by eapply IH].
Qed.

(** ** Steps that leave memory and the arena alone *)

Section quiet.
Context (mc : Machine) (m0 : Bytes) (p0 : VmoPool) (Hb : bytes_ok m0).

Definition still (k : Kernel) : Prop := k_phys k = m0 ∧ k_pool k = p0.

Lemma q_spaces {A} f : hoare still (spaces_op (A := A) f) any.
Proof. intros k r k' Hk. unfold spaces_op. destruct (f _ _) as [[[r1 m] mg]|]; intros; by simplify_eq. Qed.

Lemma q_update pid f : hoare still (update_task pid f) any.
Proof. by apply hoare_modify. Qed.

Lemma q_panic {A} : hoare still (panic : Sys A) any.
Proof. by intros k r k' _. Qed.
Hint Resolve q_spaces q_update q_panic hoare_current_caps hoare_current_pid hoare_read_user hoare_check : hoare.

Lemma q_map_pages handle va base flags pages : hoare still (map_pages mc handle va base flags pages) any.
Proof. revert va base. induction pages; intros; simpl; hgo. Qed.

Lemma q_spawn parent entry sp space gp slot : hoare still (spawn mc parent entry sp space gp slot) any.
Proof. intros k r k' Hk. unfold spawn. case_match; [|done]. case_match. intros. by simplify_eq. Qed.
Hint Resolve q_spawn : hoare.

Lemma q_spawn_child entry sp handle gp : hoare still (spawn_child mc entry sp handle gp) any.
Proof. unfold spawn_child. hgo. Qed.

Lemma q_gate : hoare still (exec_gate mc) any.
Proof. unfold exec_gate. hgo. Qed.

Lemma q_trace a p : hoare still (trace_first4 mc a p) any.
Proof. unfold trace_first4. hgo. Qed.

(** Fields of the image are natural numbers. *)
Lemma q_read va n : hoare still (read_user mc va n) (Forall is_byte).
Proof.
  intros k r k' [Hm Hp] (bs & Hl & -> & ->)%read_user_run. split; [done|]. intros ? [= <-].
  eapply load_user_bytes; [|done]. by rewrite Hm.
Qed.

Lemma q_elf a n off : hoare still (elf_le mc a n off) (fun v => 0 ≤ v).
Proof.
  unfold elf_le. eapply (hoare_bind _ _ _ any); [by apply hoare_require|]. intros.
  eapply hoare_bind; [apply hoare_check|]. intros. eapply hoare_bind; [apply q_read|]. intros bs Hbs. simpl in Hbs.
  apply hoare_ret. by apply le_value_bound in Hbs as [? _].
Qed.

Definition phdr_nat (o : option Phdr) : Prop :=
  ∀ p, o = Some p → 0 ≤ ph_offset p ∧ 0 ≤ ph_vaddr p ∧ 0 ≤ ph_filesz p ∧ 0 ≤ ph_memsz p.

Lemma q_phdr a h i : hoare still (parse_phdr mc a h i) phdr_nat.
Proof.
  unfold parse_phdr. eapply (hoare_bind _ _ _ any); [by apply hoare_require|]. intros.
  eapply hoare_bind; [apply hoare_check|]. intros. eapply hoare_bind; [apply q_elf|]. intros.
  case_match; [by apply hoare_ret|].
  do 5 (eapply hoare_bind; [apply q_elf|]; intros). apply hoare_ret. by intros p [= <-].
Qed.

Lemma q_header a : hoare still (parse_elf_header mc a) any.
Proof.
  unfold parse_elf_header. hgo.
  all: eapply hoare_any; apply q_elf.
Qed.

End quiet.

(** ** The record of image memory *)

Definition image_wf (a : ImageAllocs) : Prop := length (ia_ranges a) = MAX_RANGES ∧ (ia_len a ≤ MAX_RANGES)%nat.

Lemma image_new : image_wf ImageAllocs_new ∧ ImageAllocs_iter ImageAllocs_new = [].
Proof. split; [split; [done|unfold MAX_RANGES; simpl; lia]|done]. Qed.

Lemma image_push a b n mine :
  image_wf a → ImageAllocs_iter a ⊆+ mine →
  image_wf (ImageAllocs_push a b n) ∧ ImageAllocs_iter (ImageAllocs_push a b n) ⊆+ (b, n) :: mine.
Proof.
  intros [Hl Hle] Hs. unfold ImageAllocs_push. destruct (n =? 0); [split; [done|by apply submseteq_cons]|].
  case_bool_decide; [split; [done|by apply submseteq_cons]|]. unfold image_wf, ImageAllocs_iter in *. simpl.
  split; [rewrite length_insert; lia|].
  rewrite (take_S_r _ _ (b, n)) by (rewrite list_lookup_insert_eq; [done|lia]).
  rewrite take_insert_ge by lia. rewrite <- Permutation_cons_append. by apply submseteq_skip.
Qed.

(** ** What holds while the loader works *)

Section loader.
Context (mc : Machine) (a : ExecArgs) (m0 : Bytes) (out : list (Z * Z)).

(** A staged operation writes inside a range of [mine] and reads inside the
    caller's image. *)
Definition op_ok (mine : list (Z * Z)) (op : CopyOp) : Prop :=
  0 ≤ co_len op ∧ (∃ r, r ∈ mine ∧ r.1 ≤ co_dst op ∧ co_dst op + co_len op ≤ r.1 + r.2) ∧
  (∀ src, co_src op = Some src → xa_elf_ptr a ≤ src ∧ src + co_len op ≤ xa_elf_ptr a + xa_elf_len a).

Definition plan_ok (mine : list (Z * Z)) (p : CopyPlan) : Prop :=
  Forall (op_ok mine) (cp_ops p) ∧ (length (cp_ops p) ≤ MAX_COPY_OPS)%nat.

(** [mine] is out of the pool beside [out]; only bytes of [mine] differ from
    [m0]. *)
Definition mem_ok (mine : list (Z * Z)) (k : Kernel) : Prop :=
  pool_ok (k_phys k) (VmoPool_ensure_initialized (k_pool k)) (mine ++ out) ∧
  pool_span (VmoPool_ensure_initialized (k_pool k)) = (USER_VMO_ARENA_BASE, USER_VMO_ARENA_BASE + USER_VMO_ARENA_LEN) ∧
  bytes_ok (k_phys k) ∧ (∀ x, cover x mine = 0 → k_phys k x = m0 x).

Definition load_ok (mine : list (Z * Z)) (s : LoadState) (k : Kernel) : Prop :=
  mem_ok mine k ∧ plan_ok mine (ls_plan s) ∧ image_wf (ls_image s) ∧ ImageAllocs_iter (ls_image s) ⊆+ mine.

(** The loader's steps may add ranges to [mine]. *)
Definition loads {A} (mine : list (Z * Z)) (m : Ld A) (Q : A → list (Z * Z) → Prop) : Prop :=
  ∀ s k r s' k', load_ok mine s k → m s k = Some (r, s', k') →
    ∃ mine', mine ⊆ mine' ∧ load_ok mine' s' k' ∧ (∀ x, r = Ok x → Q x mine').

Lemma loads_bind {A B} mine (m : Ld A) (f : A → Ld B) Q Q' :
  loads mine m Q → (∀ x mine', mine ⊆ mine' → Q x mine' → loads mine' (f x) Q') → loads mine (m ≫= f) Q'.
Proof.
  intros Hm Hf s k r s' k' HL. unfold mbind, Ld_bind. destruct (m s k) as [[[[x|e] s1] k1]|] eqn:E; [| |done].
  - destruct (Hm _ _ _ _ _ HL E) as (mine1 & Hsub & HL1 & HQ). intros E2.
    destruct (Hf x mine1 Hsub (HQ x eq_refl) _ _ _ _ _ HL1 E2) as (mine2 & Hsub2 & HL2 & HQ2).
    exists mine2. split; [set_solver|done].
  - intros [= <- <- <-]. destruct (Hm _ _ _ _ _ HL E) as (mine1 & Hsub & HL1 & HQ). by exists mine1.
Qed.

Lemma loads_ret {A} mine (x : A) (Q : A → list (Z * Z) → Prop) : Q x mine → loads mine (mret x) Q.
Proof. intros HQ s k r s' k' HL [= <- <- <-]. exists mine. split_and!; try done. by intros ? [= <-]. Qed.

Lemma loads_modify mine f :
  (∀ s, ls_plan (f s) = ls_plan s ∧ ls_image (f s) = ls_image s) → loads mine (ls_modify f) (fun _ _ => True).
Proof.
  intros Hf s k r s' k' (Hm & Hp & Hw & Hi) [= <- <- <-]. exists mine. destruct (Hf s) as [E1 E2].
  split; [done|]. split; [|done]. unfold load_ok. by rewrite E1, E2.
Qed.

Lemma loads_gets {A} mine (f : LoadState → A) : loads mine (ls_gets f) (fun _ _ => True).
Proof. intros s k r s' k' HL [= <- <- <-]. by exists mine. Qed.

Lemma loads_fence mine : loads mine plan_fence_i (fun _ _ => True).
Proof. intros s k r s' k' HL [= <- <- <-]. by exists mine. Qed.

Lemma loads_plan mine op : op_ok mine op → loads mine (plan_push op) (fun _ _ => True).
Proof.
  intros Ho s k r s' k' HL. unfold plan_push, CopyPlan_push. case_bool_decide as Hl; intros [= <- <- <-].
  - by exists mine.
  - exists mine. split; [done|]. split; [|done]. destruct HL as (Hm & [Hp Hlen] & Hw & Hi). split_and!; try done.
    split; simpl; [apply Forall_app; split; [done|by constructor]|rewrite length_app; simpl; lia].
Qed.

(** A step of the kernel that leaves memory and arena alone. *)
Lemma loads_quiet {A} mine (m : Sys A) (Q : A → Prop) :
  (∀ m1 p1, bytes_ok m1 → hoare (still m1 p1) m Q) → loads mine (embed m) (fun x _ => Q x).
Proof.
  intros Hm s k r s' k' (Hk & HL). unfold embed. destruct (m k) as [[r1 k1]|] eqn:E; intros [= <- <- <-].
  destruct Hk as (Hpool & Hsp & Hb & Hf).
  destruct (Hm (k_phys k) (k_pool k) Hb k r1 k1 (conj eq_refl eq_refl) E) as ([E1 E2] & HQ).
  exists mine. split; [done|]. split; [|done]. split; [|done]. unfold mem_ok. by rewrite E1, E2.
Qed.

Lemma op_ok_mono mine mine' op : mine ⊆ mine' → op_ok mine op → op_ok mine' op.
Proof. intros Hs (H0 & (r & Hr & ?) & ?). split_and!; try done. exists r. split; [by apply Hs|done]. Qed.

(** A range just taken from the pool, recorded in the image. *)
Lemma load_ok_take mine b n s k k' :
  mem_ok ((b, n) :: mine) k' → load_ok mine s k → load_ok ((b, n) :: mine) (ls_push_image b n s) k'.
Proof.
  intros Hm (_ & [Hp Hl] & Hw & Hi). destruct (image_push _ b n _ Hw Hi) as [Hw' Hi'].
  split_and!; try done. split; [|done]. eapply Forall_impl; [done|]. intros op. apply op_ok_mono. set_solver.
Qed.

Lemma mem_ok_take mine b n k k' :
  pool_ok (k_phys k') (k_pool k') ((b, n) :: mine ++ out) → pool_span (k_pool k') = pool_span (VmoPool_ensure_initialized (k_pool k)) →
  bytes_ok (k_phys k') → (∀ x, ¬ (b ≤ x < b + n) → k_phys k' x = k_phys k x) → mem_ok mine k → mem_ok ((b, n) :: mine) k'.
Proof.
  intros I1 Hsp1 Hb Hm (_ & Hsp & _ & Hf). unfold mem_ok. rewrite (initialized_id _ _ _ I1). split_and!; try done.
  - by rewrite Hsp1.
  - intros x. rewrite cover_cons. pose proof (in_range_nonneg x (b, n)). pose proof (cover_nonneg x mine). intros Hx.
    rewrite Hm; [apply Hf; lia|]. intros E%in_range_spec. lia.
Qed.

(** A refused allocation. *)
Lemma mem_ok_init mine k k' :
  k_phys k' = k_phys k → k_pool k' = VmoPool_ensure_initialized (k_pool k) → mem_ok mine k → mem_ok mine k'.
Proof.
  intros E1 E2 (Hpool & H). unfold mem_ok. rewrite E1, E2, (initialized_id _ _ _ Hpool). done.
Qed.

Lemma loads_nozero {A} mine len (g : Z → Z → bool → Ld A) Q :
  in_width 64 len →
  (∀ b n nz mine', mine ⊆ mine' → (b, n) ∈ mine' → len ≤ n → loads mine' (g b n nz) Q) →
  loads mine (range ← embed (pool_allocate_nozero len);
              let '(b, n, nz) := range in _ ← ls_modify (ls_push_image b n); g b n nz) Q.
Proof.
  intros Hl Hg s k r s' k' HL. pose proof HL as (Hmem & HL'). pose proof Hmem as (Hpool & Hsp & Hb & Hf).
  unfold embed, pool_allocate_nozero, mbind, Ld_bind, Sys_bind, state_op, lift. unfold as_usize. rewrite Z.mod_small by done.
  destruct (VmoPool_allocate_nozero (k_pool k) len) as [[[[b n] nz]|e] p1] eqn:E; simpl.
  - destruct (allocate_nozero_ok _ _ _ _ _ _ _ _ Hpool Hl E) as (I1 & (Hn & Hsp1 & Hd) & _). intros Hrun.
    destruct (Hg b n nz ((b, n) :: mine) ltac:(set_solver) ltac:(set_solver) Hn _ _ _ _ _
                (load_ok_take mine b n s k (k_set_pool p1 k) (mem_ok_take mine b n k (k_set_pool p1 k) I1 Hsp1 Hb (fun _ _ => eq_refl) Hmem) HL) Hrun)
      as (mine' & Hsub & H). exists mine'. split; [set_solver|done].
  - intros [= <- <- <-]. apply reserve_refused in E as ->. exists mine. split; [done|]. split; [|done]. split; [|done].
    by apply (mem_ok_init mine k).
Qed.

Lemma loads_zeroed {A} mine len (g : Z * Z → Ld A) Q :
  in_width 64 len →
  (∀ r mine', mine ⊆ mine' → r ∈ mine' → len ≤ r.2 → loads mine' (g r) Q) →
  loads mine (r ← embed (pool_allocate len); _ ← ls_modify (ls_push_image r.1 r.2); g r) Q.
Proof.
  intros Hl Hg s k r s' k' HL. pose proof HL as (Hmem & HL'). pose proof Hmem as (Hpool & Hsp & Hb & Hf).
  unfold embed, pool_allocate, mbind, Ld_bind, Sys_bind, state_op, lift. unfold as_usize. rewrite Z.mod_small by done.
  destruct (VmoPool_allocate (k_phys k) (k_pool k) len) as [[[[b n]|e] m1] p1] eqn:E; simpl.
  - destruct (allocate_ok _ _ _ _ _ _ _ _ Hpool Hl E) as (I1 & (Hn & Hsp1 & Hd) & Hz & Hm). intros Hrun.
    assert (Hb1 : bytes_ok m1).
    { intros x. destruct (decide (b ≤ x < b + n)) as [Hx|Hx]; [rewrite Hz by done; by split|rewrite Hm by done; apply Hb]. }
    set (k1 := k_set_phys m1 (k_set_pool p1 k)).
    destruct (Hg (b, n) ((b, n) :: mine) ltac:(set_solver) ltac:(set_solver) Hn _ _ _ _ _
                (load_ok_take mine b n s k k1 (mem_ok_take mine b n k k1 I1 Hsp1 Hb1 Hm Hmem) HL) Hrun)
      as (mine' & Hsub & H). exists mine'. split; [set_solver|done].
  - intros [= <- <- <-]. apply alloc_refused in E as [-> ->]. exists mine. split; [done|]. split; [|done]. split; [|done].
    by apply (mem_ok_init mine k).
Qed.

(** ** Writing into one's own ranges *)

Lemma mem_ok_write mine k m r :
  mem_ok mine k → r ∈ mine → bytes_ok m → (∀ x, ¬ (r.1 ≤ x < r.1 + r.2) → m x = k_phys k x) → mem_ok mine (k_set_phys m k).
Proof.
  intros (Hpool & Hsp & _ & Hf) Hr Hb Hm.
  assert (Hin : ∀ x, r.1 ≤ x < r.1 + r.2 → 0 < cover x mine).
  { intros x Hx. pose proof (cover_elem x _ _ Hr) as He. destruct r as [b n]. rewrite (proj2 (in_range_spec x b n) Hx) in He. lia. }
  unfold mem_ok. simpl. split_and!; try done.
  - eapply pool_ok_mem; [done|]. intros x Hx H0. destruct (decide (r.1 ≤ x < r.1 + r.2)) as [Hi|Hi]; [|by rewrite Hm].
    exfalso. specialize (Hin x Hi). destruct (pool_ok_once _ _ _ x Hpool) as [Ho Hout]. rewrite cover_app in Ho, Hout.
    pose proof (cover_nonneg x out). pose proof (cover_nonneg x (vp_free_list (VmoPool_ensure_initialized (k_pool k)))).
    pose proof (cover_nonneg x (vp_dirty_list (VmoPool_ensure_initialized (k_pool k)))). lia.
  - intros x Hx. rewrite Hm; [by apply Hf|]. intros Hi. specialize (Hin x Hi). lia.
Qed.

Lemma loads_store mine r base l :
  r ∈ mine → r.1 ≤ base → base + vlen l ≤ r.1 + r.2 → Forall is_byte l →
  ∀ s k, load_ok mine s k → load_ok mine s (k_set_phys (store_phys (k_phys k) base l) k).
Proof.
  intros Hr Hlo Hhi Hl s k (Hm & HL). split; [|done]. apply (mem_ok_write mine k _ r); try done.
  - apply bytes_store; [apply Hm|done].
  - intros x Hx. apply store_phys_out. lia.
Qed.

(** ** The parts of the loader *)

Definition done_ {A} (_ : A) (_ : list (Z * Z)) : Prop := True.

Lemma loads_any {A} mine (m : Ld A) Q : loads mine m Q → loads mine m done_.
Proof. intros H s k r s' k' HL E. destruct (H _ _ _ _ _ HL E) as (mine' & ? & ? & _). by exists mine'. Qed.

Lemma loads_embed {A} mine (m : Sys A) : (∀ m1 p1, bytes_ok m1 → hoare (still m1 p1) m any) → loads mine (embed m) done_.
Proof. intros H. eapply loads_any, loads_quiet, H. Qed.

Lemma segment_fits p want :
  0 ≤ ph_offset p ∧ 0 ≤ ph_vaddr p ∧ 0 ≤ ph_filesz p ∧ 0 ≤ ph_memsz p → Phdr_check (xa_elf_len a) p = Ok tt →
  checked_add 64 (ph_memsz p) (ph_page_off p) ≫= align_len = Some want →
  in_width 64 want ∧ 0 ≤ ph_page_off p ∧ ph_page_off p + ph_filesz p ≤ want ∧ ph_offset p + ph_filesz p ≤ xa_elf_len a.
Proof.
  intros (Ho & Hv & Hf & Hm) Hc Hw. unfold Phdr_check in Hc. destruct (Z.ltb_spec (ph_memsz p) (ph_filesz p)); [done|].
  assert (Hoff : 0 ≤ ph_page_off p) by (apply Z.land_nonneg; by left).
  unfold checked_add in *. destruct (Z.ltb_spec (ph_offset p + ph_filesz p) (2 ^ 64)); [|done]. simpl in Hc.
  destruct (Z.ltb_spec (xa_elf_len a) (ph_offset p + ph_filesz p)); [done|].
  destruct (Z.ltb_spec (ph_memsz p + ph_page_off p) (2 ^ 64)); [|done]. simpl in Hw.
  apply align_len_spec in Hw as (_ & ? & ? & _); [|split; lia]. unfold in_width. lia.
Qed.

Lemma loads_place mine handle p :
  0 ≤ ph_offset p ∧ 0 ≤ ph_vaddr p ∧ 0 ≤ ph_filesz p ∧ 0 ≤ ph_memsz p → Phdr_check (xa_elf_len a) p = Ok tt →
  loads mine (place_segment mc a handle p) done_.
Proof.
  intros Hn Hc. unfold place_segment. eapply (loads_bind _ _ _ done_).
  { destruct (any_bit _ _); [by apply loads_modify|by apply loads_ret]. }
  intros _ m1 _ _. eapply loads_bind; [apply (loads_quiet _ _ (fun v => checked_add 64 (ph_memsz p) (ph_page_off p) = Some v)); intros; by apply hoare_require|].
  intros size m2 _ Hsize. eapply loads_bind; [apply (loads_quiet _ _ (fun v => align_len size = Some v)); intros; by apply hoare_require|].
  intros want m3 _ Hwant. destruct (segment_fits p want Hn Hc) as (Hw & Hoff & Hfit & Hsrc); [by rewrite Hsize|].
  apply loads_nozero; [done|]. intros b n nz m4 _ Hin Hle.
  eapply (loads_bind _ _ _ done_).
  { destruct nz; [|by apply loads_ret]. apply loads_plan. split_and!; simpl; [unfold in_width in Hw; lia| |done].
    exists (b, n). simpl. split_and!; [done|lia..]. }
  intros _ m5 H5 _. eapply (loads_bind _ _ _ done_).
  { destruct (negb _); [|by apply loads_ret]. eapply loads_bind; [|intros; apply loads_fence].
    apply loads_plan. split_and!; simpl; [lia| |].
    - exists (b, n). simpl. split_and!; [by apply H5|lia..].
    - intros src [= <-]. lia. }
  intros _ m6 _ _. eapply loads_bind; [apply loads_embed; intros; apply q_map_pages|]. intros. by apply loads_ret.
Qed.

Lemma loads_v1 mine h handle i : loads mine (load_segment_v1 mc a h handle i) done_.
Proof.
  unfold load_segment_v1. eapply loads_bind; [apply loads_quiet; intros; by apply q_phdr|].
  intros [p|] m1 _ Hp; [|by apply loads_ret]. specialize (Hp p eq_refl).
  eapply loads_bind; [apply loads_embed; intros; apply q_trace|]. intros _ m2 _ _.
  destruct (ph_memsz p =? 0); [by apply loads_ret|].
  eapply loads_bind; [apply (loads_quiet _ _ (fun v => Phdr_check (xa_elf_len a) p = Ok v)); intros; by apply hoare_lift|].
  intros [] m3 _ Hc. eapply loads_bind; [by apply loads_place|]. intros. by apply loads_ret.
Qed.

Lemma loads_v2 mine h handle i : loads mine (load_segment_v2 mc a h handle i) done_.
Proof.
  unfold load_segment_v2. eapply loads_bind; [apply loads_quiet; intros; by apply q_phdr|].
  intros [p|] m1 _ Hp; [|by apply loads_ret]. specialize (Hp p eq_refl).
  destruct (ph_memsz p =? 0); [by apply loads_ret|].
  eapply loads_bind; [apply (loads_quiet _ _ (fun v => Phdr_check (xa_elf_len a) p = Ok v)); intros; by apply hoare_lift|].
  intros [] m2 _ Hc. eapply loads_bind; [by apply loads_place|]. intros n m3 _ _.
  eapply loads_bind; [apply loads_embed; intros; by apply hoare_require|]. intros e m4 _ _. by apply loads_modify.
Qed.

Lemma loads_segments load l : (∀ mine i, loads mine (load i) done_) → ∀ mine, loads mine (load_segments load l) done_.
Proof.
  intros Hl. induction l as [|i l IH]; intros mine; simpl; [by apply loads_ret|].
  eapply loads_bind; [apply Hl|]. intros. apply IH.
Qed.

Lemma loads_stack mine handle pages : 0 ≤ pages → loads mine (map_process_stack mc handle pages) done_.
Proof.
  intros Hp. unfold map_process_stack.
  eapply loads_bind; [apply (loads_quiet _ _ (fun v => checked_add 64 pages 11 = Some v)); intros; by apply hoare_require|].
  intros total m1 _ Ht. eapply loads_bind; [apply loads_quiet; intros; apply hoare_check|]. intros [] m2 _ Hlt. simpl in Hlt.
  assert (Htot : 0 ≤ total) by (unfold checked_add in Ht; case_match; simplify_eq; lia).
  apply loads_nozero; [apply Z.ltb_lt in Hlt; unfold in_width, PAGE_SIZE in *; lia|]. intros b n nz m3 _ Hin Hle.
  eapply (loads_bind _ _ _ done_).
  { destruct nz; [|by apply loads_ret]. apply loads_plan. split_and!; simpl; [unfold PAGE_SIZE in *; lia| |done].
    exists (b, n). simpl. split_and!; [done|lia..]. }
  intros _ m4 _ _. eapply loads_bind; [apply loads_quiet; intros; apply hoare_check|]. intros _ m5 _ _.
  eapply loads_bind; [apply loads_embed; intros; apply q_map_pages|]. intros _ m6 _ _.
  eapply loads_bind; [apply loads_embed; intros; by apply hoare_require|]. intros. by apply loads_ret.
Qed.

(** The metadata page: the name and its terminator. *)
Lemma loads_name mine pa n :
  (pa, n) ∈ mine → PAGE_SIZE ≤ n → 0 ≤ xa_name_len a → xa_name_len a ≤ MAX_NAME_LEN → loads mine (embed (copy_name mc a pa)) done_.
Proof.
  intros Hin Hn H0 Hmax s k r s' k' HL. unfold embed, copy_name. destruct (xa_name_len a =? 0).
  { intros [= <- <- <-]. by exists mine. }
  destruct ((name ← read_user mc (xa_name_ptr a) (xa_name_len a); _) k) as [[r1 k1]|] eqn:E; [|done].
  intros [= <- <- <-]. exists mine. split; [done|]. split; [|done].
  apply bind_inv in E as [(name & k2 & E1 & E)|(e & -> & E1)]; apply read_user_run in E1 as (bs & Hb & [= <-] & ->).
  pose proof (load_user_length _ _ _ _ _ Hb) as Hlen.
  pose proof (load_user_bytes _ _ _ _ _ (proj1 (proj2 (proj2 (proj1 HL)))) Hb) as Hbytes.
  unfold MAX_NAME_LEN, PAGE_SIZE in *.
  apply bind_inv in E as [(u & k2 & [= _ <-] & E)|(e & _ & [=])].
  assert (Hst : load_ok mine s (k_set_phys (store_phys (k_phys k) pa name) k)).
  { apply (loads_store mine (pa, n)); [done|simpl; lia|unfold vlen; simpl; lia|done|done]. }
  apply bind_inv in E as [(u2 & k3 & E2 & [= <- <-])|(e & _ & E2)].
  - destruct (xa_name_len a <? 4096); injection E2 as _ <-; [|done].
    apply (loads_store mine (pa, n)); [done|simpl; lia|unfold vlen; simpl; lia|by repeat constructor|done].
  - by destruct (xa_name_len a <? 4096).
Qed.

Lemma info_bytes v n id : Forall is_byte (BootstrapInfo_bytes v n id) ∧ vlen (BootstrapInfo_bytes v n id) = 32.
Proof.
  unfold BootstrapInfo_bytes, vlen. split; [|by rewrite !length_app, !le_bytes_length].
  repeat (apply Forall_app; split); apply le_bytes_byte.
Qed.

Lemma loads_info mine handle meta_va info_va :
  0 ≤ xa_name_len a → xa_name_len a ≤ MAX_NAME_LEN → loads mine (map_info_pages mc a handle meta_va info_va) done_.
Proof.
  intros H0 Hmax. unfold map_info_pages. apply loads_zeroed; [unfold in_width, PAGE_SIZE; lia|].
  intros [pa n] m1 _ Hin Hn. eapply loads_bind; [by apply (loads_name _ _ n)|]. intros id m2 _ _.
  eapply loads_bind; [apply loads_embed; intros; apply q_spaces|]. intros _ m3 _ _.
  apply loads_zeroed; [unfold in_width, PAGE_SIZE; lia|]. intros [ib il] m4 _ Hi Hl.
  eapply (loads_bind _ _ _ done_).
  { intros s k r s' k' HL [= <- <- <-]. exists m4. split; [done|]. split; [|done].
    destruct (info_bytes meta_va (xa_name_len a) id) as [Hb Hv].
    apply (loads_store m4 (ib, il)); [done|simpl; lia|simpl in *; unfold PAGE_SIZE in Hl; lia|done|done]. }
  intros _ m5 _ _. eapply loads_bind; [apply loads_embed; intros; apply q_spaces|]. intros. by apply loads_ret.
Qed.

(** ** The whole loader *)

Ltac quiet_step := eapply loads_bind; [first [apply loads_gets | apply loads_embed; intros;
  first [by apply hoare_require | apply q_spawn_child | apply q_update | apply hoare_assert_state |
         eapply hoare_any; apply hoare_check]]|]; intros.

Lemma loads_body_v1 mine h handle : 0 ≤ xa_stack_pages a → loads mine (exec_v1_body mc a h handle) done_.
Proof.
  intros Hp. unfold exec_v1_body. eapply loads_bind; [apply loads_segments; intros; apply loads_v1|]. intros _ m1 _ _.
  quiet_step. eapply loads_bind; [by apply loads_stack|]. intros. do 4 quiet_step. by apply loads_ret.
Qed.

Lemma loads_body_v2 mine h handle :
  0 ≤ xa_stack_pages a → 0 ≤ xa_name_len a → xa_name_len a ≤ MAX_NAME_LEN → loads mine (exec_v2_body mc a h handle) done_.
Proof.
  intros Hp H0 Hmax. unfold exec_v2_body. eapply loads_bind; [apply loads_segments; intros; apply loads_v2|]. intros _ m1 _ _.
  do 4 quiet_step. eapply loads_bind; [by apply loads_stack|]. intros. do 4 quiet_step.
  eapply loads_bind; [by apply loads_info|]. intros. do 7 quiet_step. by apply loads_ret.
Qed.

(** The copy phase. *)
Lemma copy_ok mine ops : ∀ k r k',
  Forall (op_ok mine) ops → mem_ok mine k → run_copy_ops mc ops k = Some (r, k') →
  mem_ok mine k' ∧ k_table k' = k_table k.
Proof.
  induction ops as [|op ops IH]; intros k r k' Ho Hm; simpl; [by intros [= <- <-]|].
  apply Forall_cons in Ho as [(H0 & (rg & Hr & Hlo & Hhi) & _) Ho].
  assert (Hstep : ∀ r1 k1, (if co_len op =? 0 then mret tt
           else match co_src op with
                | None => modify (fun k => k_set_phys (zero_range (k_phys k) (co_dst op) (co_len op)) k)
                | Some src =>
                    bytes ← read_user mc src (co_len op);
                    modify (fun k => k_set_phys (store_phys (k_phys k) (co_dst op) bytes) k)
                end) k = Some (r1, k1) → mem_ok mine k1 ∧ k_table k1 = k_table k).
  { intros r1 k1. destruct (co_len op =? 0); [by intros [= <- <-]|]. destruct (co_src op) as [src|].
    - intros [(bs & k2 & E1 & E)|(e & _ & E1)]%bind_inv; apply read_user_run in E1 as (bs' & Hb & Heq & ->); [|done].
      injection Heq as ->. injection E as _ <-. split; [|done]. pose proof (load_user_length _ _ _ _ _ Hb).
      apply (mem_ok_write mine k _ rg); try done.
      + apply bytes_store; [apply Hm|]. eapply load_user_bytes; [apply Hm|done].
      + intros x Hx. apply store_phys_out. unfold vlen. lia.
    - intros [= _ <-]. split; [|done]. apply (mem_ok_write mine k _ rg); try done; [apply bytes_zero, Hm|].
      intros x Hx. apply zero_range_out. lia. }
  intros [([] & k1 & E1 & E)|(e & _ & E1)]%bind_inv; destruct (Hstep _ _ E1) as [Hm1 Ht1]; [|done].
  destruct (IH _ _ _ Ho Hm1 E) as [? Ht]. split; [done|]. by rewrite Ht.
Qed.

End loader.

(** ** Giving back what a failed load had recorded *)

Lemma free_mem m p b n x :
  in_width 64 n → n mod PAGE_SIZE = 0 → ¬ (b ≤ x < b + n) → (VmoPool_free m p b n).1.2 x = m x.
Proof.
  intros Hn Hp Hx. unfold VmoPool_free. destruct (align_len n) as [al|] eqn:E; [|done].
  apply align_len_spec in E as (_ & _ & _ & _ & E); [|done]. rewrite (E Hp).
  repeat (case_match; try done); simpl; by apply zero_range_out.
Qed.

Lemma release_mem l ranges : ∀ bytes k r k',
  pool_ok (k_phys k) (VmoPool_ensure_initialized (k_pool k)) (ranges ++ l) → release_ranges ranges bytes k = Some (r, k') →
  pool_ok (k_phys k') (VmoPool_ensure_initialized (k_pool k')) l ∧
  pool_span (VmoPool_ensure_initialized (k_pool k')) = pool_span (VmoPool_ensure_initialized (k_pool k)) ∧
  (∀ x, cover x ranges = 0 → k_phys k' x = k_phys k x).
Proof.
  induction ranges as [|[b n] ranges IH]; intros bytes k r k' Hp; simpl; [by intros [= <- <-]|].
  unfold mbind, Sys_bind, state_op. simpl in Hp.
  pose proof (po_out _ _ _ Hp) as [[(Hbm & Hnm & Hn0 & Hr) Hpos] _]%Forall_cons. cbn [fst snd] in *.
  pose proof (po_limit _ _ _ Hp) as Hlim. pose proof (po_base _ _ _ Hp) as Hbase.
  unfold as_usize. rewrite !Z.mod_small by lia.
  destruct (free_owned _ _ _ _ _ Hp) as (m1 & p1 & E & I1 & _ & Hsp).
  pose proof (fun x => free_mem (k_phys k) (k_pool k) b n x ltac:(split; lia) Hnm) as Hm. rewrite E in *. simpl in *.
  rewrite <- (initialized_id _ _ _ I1) in I1. intros Hrun.
  destruct (IH _ (k_set_phys m1 (k_set_pool p1 k)) _ _ I1 Hrun) as (HI & Hsp' & Hf). split_and!; [done| |].
  - rewrite Hsp'. simpl. rewrite <- Hsp. f_equal. apply (initialized_id m1 p1 (ranges ++ l)).
    by destruct (free_owned _ _ _ _ _ Hp) as (m2 & p2 & [= <- <-]%(eq_trans (eq_sym E)) & I2 & _).
  - intros x. rewrite cover_cons. pose proof (in_range_nonneg x (b, n)). pose proof (cover_nonneg x ranges). intros Hx.
    rewrite Hf by lia. simpl. apply Hm. intros Hin%in_range_spec. lia.
Qed.

(** The ranges of a sublist are freed, those left over stay out. *)
Lemma release_image_mem out m0 image mine k r k' :
  ImageAllocs_iter image ⊆+ mine → mem_ok m0 out mine k → release_image image k = Some (r, k') →
  pool_ok (k_phys k') (VmoPool_ensure_initialized (k_pool k')) out ∧
  (∀ x, cover x mine = 0 → k_phys k' x = m0 x).
Proof.
  intros [more Hperm]%submseteq_Permutation (Hp & _ & _ & Hf) Hrun.
  apply (pool_ok_perm _ _ _ (ImageAllocs_iter image ++ more ++ out)) in Hp; [|by rewrite Hperm, (assoc_L (++))].
  destruct (release_mem _ _ _ _ _ _ Hp Hrun) as (HI & _ & Hsame). split.
  - clear -HI. induction more as [|[b n] more IH]; [done|]. apply IH. by eapply pool_ok_uncover.
  - intros x Hx. rewrite Hsame; [by apply Hf|]. rewrite Hperm, cover_app in Hx || rewrite (cover_perm x _ _ Hperm), cover_app in Hx.
    pose proof (cover_nonneg x (ImageAllocs_iter image)). pose proof (cover_nonneg x more). lia.
Qed.

(** ** The new task's record *)

(** A successful load leaves its image in the record of the task it names. *)
Definition records (m : Ld Z) : Prop :=
  ∀ s k pid s' k', m s k = Some (Ok pid, s', k') →
    ∃ t, TaskTable_task (k_table k') pid = Some t ∧ tk_image_allocs t = ls_image s'.

Lemma records_bind {A} (m : Ld A) (f : A → Ld Z) : (∀ x, records (f x)) → records (m ≫= f).
Proof.
  intros Hf s k pid s' k'. unfold mbind, Ld_bind. destruct (m s k) as [[[[x|e] s1] k1]|]; [|done|done]. apply Hf.
Qed.

Lemma spawn_child_ok mc entry sp handle gp k pid k' :
  spawn_child mc entry sp handle gp k = Some (Ok pid, k') → is_Some (TaskTable_task (k_table k') pid).
Proof.
  unfold spawn_child. intros [(pc & k1 & _ & E)|(e & [=] & _)]%bind_inv.
  apply bind_inv in E as [(parent & k2 & _ & E)|(e & [=] & _)].
  apply bind_inv in E as [(r & k3 & E3 & [= E <-])|(e & [=] & _)].
  unfold spawn in E3. destruct (TaskTable_spawn _ _ _ _ _ _ _ _ _ _) as [[r1 w]|] eqn:Es; [|done]. injection E3 as <- <-.
  apply spawn_effect in Es as (_ & _ & [[_ Hr]|(pt & task & caps & H)]); [by destruct r1|].
  destruct H as (_ & _ & _ & _ & _ & -> & Ht). injection E as <-. unfold pid_of_len.
  pose proof (Z.mod_pos_bound (Z.of_nat (length (w_tasks (k_world k2)))) (2 ^ 32) ltac:(lia)).
  pose proof (Z.mod_le (Z.of_nat (length (w_tasks (k_world k2)))) (2 ^ 32) ltac:(lia) ltac:(lia)).
  rewrite task_at by lia. apply lookup_lt_is_Some_2. change (tt_tasks (k_table _)) with (w_tasks w). rewrite Ht.
  rewrite length_alter, length_app. unfold pid_index. simpl. lia.
Qed.

Lemma records_tail mc entry sp handle gp f :
  records (pid ← embed (spawn_child mc entry sp handle gp);
           _ ← embed (update_task pid f);
           image ← ls_gets ls_image;
           _ ← embed (update_task pid (Task_set_image_allocs image));
           mret pid).
Proof.
  intros s k pid s' k'. unfold mbind, Ld_bind, embed. destruct (spawn_child _ _ _ _ _ k) as [[[p|e] k1]|] eqn:E; [|done|done].
  apply spawn_child_ok in E as [t Ht]. simpl. intros [= <- <- <-]. apply task_some in Ht as [Hp Ht].
  exists (Task_set_image_allocs (ls_image s) (f t)). split; [|done]. rewrite task_at by done.
  unfold k_table in *. simpl. by rewrite !list_lookup_alter_eq, Ht.
Qed.

Lemma records_v1 mc a h handle : records (exec_v1_body mc a h handle).
Proof. unfold exec_v1_body. do 3 (apply records_bind; intros). apply records_tail. Qed.
Lemma records_v2 mc a h handle : records (exec_v2_body mc a h handle).
Proof. unfold exec_v2_body. do 14 (apply records_bind; intros). apply records_tail. Qed.

(** ** Both phases *)

Definition in_arena_at (x : Z) : Prop := USER_VMO_ARENA_BASE ≤ x < USER_VMO_ARENA_BASE + USER_VMO_ARENA_LEN.

(** Memory in use, and everything outside the arena, is as in [m]. *)
Definition untouched (out : list (Z * Z)) (m m' : Bytes) : Prop := ∀ x, 0 < cover x out ∨ ¬ in_arena_at x → m' x = m x.

Definition pool_out (k : Kernel) (out : list (Z * Z)) : Prop :=
  pool_ok (k_phys k) (VmoPool_ensure_initialized (k_pool k)) out.

Section phases.
Context (mc : Machine) (m0 : Bytes) (out : list (Z * Z)).

Lemma mine_apart mine k x : mem_ok m0 out mine k → 0 < cover x out ∨ ¬ in_arena_at x → cover x mine = 0.
Proof.
  intros (Hp & Hsp & _). destruct (pool_ok_once _ _ _ x Hp) as [Ho _]. rewrite cover_app in Ho.
  pose proof (po_cover _ _ _ Hp x) as Hc. rewrite cover_app in Hc. injection Hsp as Hb Hl. pose proof (po_limit _ _ _ Hp).
  pose proof (cover_nonneg x out). pose proof (cover_nonneg x mine).
  pose proof (cover_nonneg x (vp_free_list (VmoPool_ensure_initialized (k_pool k)))).
  pose proof (cover_nonneg x (vp_dirty_list (VmoPool_ensure_initialized (k_pool k)))).
  intros [?|Hn]; [lia|]. unfold in_arena_at, in_range in *. simpl in Hc. case_match; simpl_bool; lia.
Qed.

Lemma pool_out_drop mine k : pool_out k (mine ++ out) → pool_out k out.
Proof. unfold pool_out. induction mine as [|[b n] mine IH]; [done|]. intros H. apply IH. by eapply pool_ok_uncover. Qed.

(** What a load leaves behind. *)
Definition staged (a : ExecArgs) (r : result (Z * CopyPlan) SysError) (k : Kernel) : Prop :=
  match r with
  | Ok (pid, plan) => ∃ mine, mem_ok m0 out mine k ∧ plan_ok a mine plan ∧
      ∃ t, TaskTable_task (k_table k) pid = Some t ∧ ImageAllocs_iter (tk_image_allocs t) ⊆+ mine
  | Err _ => untouched out m0 (k_phys k) ∧ pool_out k out
  end.

Lemma mem_ok_err mine k : mem_ok m0 out mine k → untouched out m0 (k_phys k) ∧ pool_out k out.
Proof.
  intros Hm. split; [|eapply pool_out_drop, Hm]. intros x Hx. pose proof Hm as (_ & _ & _ & Hf). apply Hf. by eapply mine_apart.
Qed.

Lemma load_start a k : mem_ok m0 out [] k → load_ok a m0 out [] LoadState_new k.
Proof. intros Hm. destruct image_new as [Hw Hi]. split_and!; try done. split; [by constructor|simpl; lia]. Qed.

Lemma run_v1_staged a body k r k' :
  loads a m0 out [] body done_ → records body → mem_ok m0 out [] k → run_v1 body k = Some (r, k') → staged a r k'.
Proof.
  intros Hl Hrec Hm. unfold run_v1. destruct (body LoadState_new k) as [[[[pid|e] s] k1]|] eqn:E; intros [= <- <-].
  all: destruct (Hl _ _ _ _ _ (load_start a k Hm) E) as (mine & _ & (Hmem & Hplan & _ & Hi) & _).
  - exists mine. split_and!; [done..|]. destruct (Hrec _ _ _ _ _ E) as (t & Ht & Him). exists t. by rewrite Him.
  - by eapply mem_ok_err.
Qed.

Lemma run_v2_staged a handle body k r k' :
  loads a m0 out [] body done_ → records body → mem_ok m0 out [] k → run_v2 handle body k = Some (r, k') → staged a r k'.
Proof.
  intros Hl Hrec Hm. unfold run_v2. destruct (body LoadState_new k) as [[[[pid|e] s] k1]|] eqn:E; [| |done].
  all: destruct (Hl _ _ _ _ _ (load_start a k Hm) E) as (mine & _ & (Hmem & Hplan & _ & Hi) & _).
  - intros [= <- <-]. exists mine. split_and!; [done..|]. destruct (Hrec _ _ _ _ _ E) as (t & Ht & Him). exists t. by rewrite Him.
  - destruct (AddressSpaceManager_destroy _ _ _) as [[d m1] mg]. set (k2 := k_set_world _ k1).
    intros [(n & k3 & Er & [= <- <-])|(e' & -> & Er)]%bind_inv.
    all: destruct (release_image_mem out m0 (ls_image s) mine k2 _ _ Hi Hmem Er) as [Hp Hf].
    all: split; [|done]; intros x Hx; apply Hf; by eapply mine_apart.
Qed.

Lemma quiet_keeps {A} (m : Sys A) k r k' :
  (∀ m1 p1, bytes_ok m1 → hoare (still m1 p1) m any) → mem_ok m0 out [] k → m k = Some (r, k') → mem_ok m0 out [] k'.
Proof.
  intros Hq (Hp & Hsp & Hb & Hf) E. destruct (Hq _ (k_pool k) Hb k r k' (conj eq_refl eq_refl) E) as ([E1 E2] & _).
  unfold mem_ok. by rewrite E1, E2.
Qed.

(** Phase A: the arguments are decoded to [a]. *)
Definition exec_args (args : Args) : ExecArgs :=
  mkExecArgs (arg args 0) (arg args 1) (arg args 2) (arg args 3) (arg args 4) (arg args 5).

Lemma decode_args args a : map_err id (ExecArgs_decode args) = Ok a → a = exec_args args.
Proof. unfold ExecArgs_decode. case_match; [done|]. by intros [= <-]. Qed.

(** One quiet step of phase A, whose failure leaves everything as it was. *)
Lemma staged_step {A} a (m : Sys A) f k r k' :
  (∀ m1 p1, bytes_ok m1 → hoare (still m1 p1) m any) → mem_ok m0 out [] k → (m ≫= f) k = Some (r, k') →
  (∀ x k1, m k = Some (Ok x, k1) → mem_ok m0 out [] k1 → f x k1 = Some (r, k') → staged a r k') → staged a r k'.
Proof.
  intros Hq Hm [(x & k1 & E1 & E)|(e & -> & E1)]%bind_inv Hf; pose proof (quiet_keeps _ _ _ _ Hq Hm E1) as Hm1.
  - by eapply Hf.
  - by apply mem_ok_err in Hm1.
Qed.

Lemma phase_a_v1 args k r k' :
  Forall (in_width 64) args → mem_ok m0 out [] k → exec_phase_a mc args k = Some (r, k') → staged (exec_args args) r k'.
Proof.
  intros Hw Hm E. refine (staged_step _ _ _ _ _ _ _ Hm E _); [intros; by apply hoare_lift|].
  intros a k1 [= Ha%decode_args <-] Hm1 E1. subst a.
  refine (staged_step _ _ _ _ _ _ _ Hm1 E1 _); [intros; by apply hoare_lift|]. intros _ k2 _ Hm2 E2.
  refine (staged_step _ _ _ _ _ _ _ Hm2 E2 _); [intros; apply q_gate|]. intros _ k3 _ Hm3 E3.
  refine (staged_step _ _ _ _ _ _ _ Hm3 E3 _); [intros; by apply q_header|]. intros h k4 _ Hm4 E4.
  refine (staged_step _ _ _ _ _ _ _ Hm4 E4 _); [intros; apply q_spaces|]. intros handle k5 _ Hm5 E5.
  eapply run_v1_staged; [|apply records_v1|done|exact E5]. apply loads_body_v1. by apply (arg_width _ 2) in Hw as [? _].
Qed.

Lemma phase_a_v2 args k r k' :
  Forall (in_width 64) args → mem_ok m0 out [] k → exec_v2_phase_a mc args k = Some (r, k') → staged (exec_args args) r k'.
Proof.
  intros Hw Hm E. refine (staged_step _ _ _ _ _ _ _ Hm E _); [intros; by apply hoare_lift|].
  intros a k1 [= Ha%decode_args <-] Hm1 E1. subst a.
  refine (staged_step _ _ _ _ _ _ _ Hm1 E1 _); [intros; by apply hoare_lift|]. intros u k2 [= Hc _] Hm2 E2.
  assert (Hname : xa_name_len (exec_args args) ≤ MAX_NAME_LEN).
  { unfold ExecV2Args_check in Hc. simpl in Hc. destruct (ensure_user_slice _ _) as [[]|]; [|done]. simpl in Hc.
    destruct (Z.eqb_spec (arg args 5) 0) as [E0|]; simpl in Hc; [simpl; rewrite E0; done|].
    destruct (Z.ltb_spec MAX_NAME_LEN (arg args 5)); [done|done]. }
  refine (staged_step _ _ _ _ _ _ _ Hm2 E2 _); [intros; apply q_gate|]. intros _ k3 _ Hm3 E3.
  refine (staged_step _ _ _ _ _ _ _ Hm3 E3 _); [intros; by apply q_header|]. intros h k4 _ Hm4 E4.
  refine (staged_step _ _ _ _ _ _ _ Hm4 E4 _); [intros; apply q_spaces|]. intros handle k5 _ Hm5 E5.
  eapply run_v2_staged; [|apply records_v2|done|exact E5].
  apply loads_body_v2; [by apply (arg_width _ 2) in Hw as [? _]|by apply (arg_width _ 5) in Hw as [? _]|done].
Qed.

(** Phase B runs the plan. *)
Lemma copy_phase a (phase : Sys (Z * CopyPlan)) k r k' :
  (∀ r1 k1, phase k = Some (r1, k1) → staged a r1 k1) →
  (res ← phase; _ ← run_copy_plan mc res.2; mret res.1) k = Some (r, k') →
  untouched out m0 (k_phys k') ∧ pool_out k' out ∧
  ∀ pid, r = Ok pid → ∃ t, TaskTable_task (k_table k') pid = Some t ∧ pool_out k' (ImageAllocs_iter (tk_image_allocs t) ++ out).
Proof.
  intros Hs [([pid plan] & k1 & E1 & E)|(e & -> & E1)]%bind_inv; specialize (Hs _ _ E1); [|by destruct Hs].
  destruct Hs as (mine & Hm & [Hops _] & t & Ht & Hi).
  assert (Hfin : ∀ r2 k2, run_copy_plan mc plan k1 = Some (r2, k2) →
            untouched out m0 (k_phys k2) ∧ pool_out k2 out ∧
            ∃ t, TaskTable_task (k_table k2) pid = Some t ∧ pool_out k2 (ImageAllocs_iter (tk_image_allocs t) ++ out)).
  { intros r2 k2 E2. destruct (copy_ok mc a m0 out mine _ _ _ _ Hops Hm E2) as [Hm2 Ht2].
    destruct (mem_ok_err _ _ Hm2) as [Hu Hp]. split_and!; [done..|]. exists t. split; [by rewrite Ht2|].
    apply submseteq_Permutation in Hi as [more Hperm]. destruct Hm2 as (Hp2 & _). unfold pool_out.
    apply (pool_ok_perm _ _ _ (more ++ ImageAllocs_iter (tk_image_allocs t) ++ out)) in Hp2.
    - clear -Hp2. induction more as [|[b n] more IH]; [done|]. apply IH. by eapply pool_ok_uncover.
    - rewrite Hperm. rewrite (Permutation_app_comm _ more). by rewrite (assoc_L (++)). }
  apply bind_inv in E as [(u & k2 & E2 & [= <- <-])|(e & -> & E2)]; destruct (Hfin _ _ E2) as (? & ? & ?); split_and!; try done.
  by intros ? [= <-].
Qed.

End phases.

(** C6: loading a program touches only fresh memory, whatever the image says.
    For the memory in use [out], known to the arena: both versions of exec leave
    every byte in use and every byte outside the arena as it was, in success and
    in failure; at most 24 operations are staged, each reads inside the image
    the caller passed and writes inside the arena, off all memory in use; and
    the memory recorded for the new task is out of the pool and disjoint from
    all memory that was in use, so giving it back at exit is sound. *)
Theorem exec_confined mc args k out (v2 : bool)
    (Hw : Forall (in_width 64) args) (Hbytes : bytes_ok (k_phys k)) (Hpool : pool_out k out)
    (Hspan : pool_span (VmoPool_ensure_initialized (k_pool k)) =
             (USER_VMO_ARENA_BASE, USER_VMO_ARENA_BASE + USER_VMO_ARENA_LEN)) :
  (∀ r k', (if v2 then sys_exec_v2 mc args else sys_exec mc args) k = Some (r, k') →
     untouched out (k_phys k) (k_phys k') ∧ pool_out k' out ∧
     ∀ pid, r = Ok pid →
       ∃ t, TaskTable_task (k_table k') pid = Some t ∧ pool_out k' (ImageAllocs_iter (tk_image_allocs t) ++ out)) ∧
  (∀ pid plan k', (if v2 then exec_v2_phase_a mc args else exec_phase_a mc args) k = Some (Ok (pid, plan), k') →
     (length (cp_ops plan) ≤ MAX_COPY_OPS)%nat ∧
     ∀ op, op ∈ cp_ops plan →
       (∀ src, co_src op = Some src → arg args 0 ≤ src ∧ src + co_len op ≤ arg args 0 + arg args 1) ∧
       (∀ x, co_dst op ≤ x < co_dst op + co_len op → in_arena_at x ∧ cover x out = 0)).
Proof.
  assert (Hm : mem_ok (k_phys k) out [] k) by (by split_and!).
  assert (Hs : ∀ r1 k1, (if v2 then exec_v2_phase_a mc args else exec_phase_a mc args) k = Some (r1, k1) →
                        staged (k_phys k) out (exec_args args) r1 k1).
  { intros r1 k1. destruct v2; [by apply phase_a_v2|by apply phase_a_v1]. }
  split.
  - intros r k' E. eapply copy_phase; [exact Hs|]. by destruct v2.
  - intros pid plan k' E. destruct (Hs _ _ E) as (mine & Hmem & [Hops Hlen] & _). split; [done|]. intros op Hop.
    rewrite Forall_forall in Hops. destruct (Hops op Hop) as (_ & (rg & Hr & Hlo & Hhi) & Hsrc). split; [exact Hsrc|].
    intros x Hx. pose proof (cover_elem x _ _ Hr) as He. destruct rg as [b n]. simpl in *.
    rewrite (proj2 (in_range_spec x b n) ltac:(lia)) in He.
    split.
    + destruct (decide (in_arena_at x)) as [?|Hn]; [done|]. pose proof (mine_apart _ _ _ _ x Hmem (or_intror Hn)). lia.
    + destruct (decide (0 < cover x out)) as [Hc|Hc]; [pose proof (mine_apart _ _ _ _ x Hmem (or_introl Hc)); lia|].
      pose proof (cover_nonneg x out). lia.
Qed.

(** A one-segment program of four bytes, loaded for task 1. *)
Definition demo_elf : list Z :=
  [127; 69; 76; 70; 2; 1] ++ replicate 18 0 ++ le_bytes 8 0x10000 ++ le_bytes 8 64 ++ replicate 14 0 ++ le_bytes 2 56 ++
  le_bytes 2 1 ++ replicate 6 0 ++
  le_bytes 4 1 ++ le_bytes 4 5 ++ le_bytes 8 120 ++ le_bytes 8 0x10000 ++ le_bytes 8 0 ++ le_bytes 8 4 ++ le_bytes 8 8 ++
  le_bytes 8 4096 ++ [19; 1; 2; 3].
Definition demo_loader : Machine :=
  mkMachine 0 (fun _ => true) (fun n => 1000 * Z.of_nat n) (window_alloc 0x80000000 64)
    (mkKernelLayout 0x80200000 0x80202000 0x80204000 0x80204000 0x80206000 0x80208000 0x8020a000 0x8020c000 0x8020e000 1)
    false 0.
Definition demo_image : Bytes := store_phys (fun _ => 0) 0x4000 demo_elf.
Definition demo_caller : Kernel := k_set_phys demo_image demo_ipc.
Definition demo_loaded : Kernel :=
  match sys_exec demo_loader [0x4000; 124; 2; 0; 0; 0] demo_caller with Some (_, k') => k' | None => demo_caller end.

Lemma demo_caller_pool : pool_out demo_caller [].
Proof. exact (proj1 (Arena_init_ok demo_image)). Qed.

Lemma exec_confined_witness :
  sys_exec demo_loader [0x4000; 124; 2; 0; 0; 0] demo_caller = Some (Ok 2, demo_loaded) ∧
  k_phys demo_loaded USER_VMO_ARENA_BASE = 19 ∧
  untouched [] (k_phys demo_caller) (k_phys demo_loaded) ∧
  ∃ t, TaskTable_task (k_table demo_loaded) 2 = Some t ∧ pool_out demo_loaded (ImageAllocs_iter (tk_image_allocs t) ++ []).
Proof.
  assert (Hrun : sys_exec demo_loader [0x4000; 124; 2; 0; 0; 0] demo_caller = Some (Ok 2, demo_loaded)).
  { apply run_value. by vm_compute. }
  assert (Hw : Forall (in_width 64) [0x4000; 124; 2; 0; 0; 0]).
  { repeat (apply Forall_cons; split; [split; lia|]). by apply Forall_nil. }
  assert (Hb : bytes_ok (k_phys demo_caller)).
  { apply bytes_store; [by split|]. apply (bool_decide_unpack _). by vm_compute. }
  split; [exact Hrun|split; [by vm_compute|]].
  destruct (exec_confined demo_loader [0x4000; 124; 2; 0; 0; 0] demo_caller [] false Hw Hb demo_caller_pool eq_refl)
    as [Hex _].
  destruct (Hex _ _ Hrun) as (Hu & _ & Ht). split; [exact Hu|exact (Ht 2 eq_refl)].
Defined.
