(* ===== verification/Runnable.v ===== *)
(** * Only runnable tasks are scheduled

    The scheduler knows tasks by number only; that a number in a run queue or in
    a current slot belongs to a task that may run — not blocked, not suspended,
    not exited — and that it occurs at most once in the whole machine is kept by
    the task operations and the system calls together.  The invariant is proved
    for every entry of the system-call table, through the interface of
    [SysLogic]. *)

From S2P Require Import Prelude Cap Ipc Sched SchedProps SchedLaws IdAlloc Timer Sync PageTable AddressSpace Smp Task VmoPool Kernel SysTask SysCaps SysIpc SysSync SysVmo Exec Syscall SysLogic HandlerLaws HandlerAll.

Definition runnable (t : Task) : Prop := tk_state t = Running ∧ tk_blocked t = false.

(** The invariant, except for the tasks [e] (one that is exiting). *)
Definition safe_but (e : Z → Prop) (w : World) : Prop :=
  sched_ok (w_sched w) ∧
  (∀ x, sched_occ x (w_sched w) ≤ 1) ∧
  (∀ x, ¬ e x → 0 < sched_occ x (w_sched w) → ∃ t, TaskTable_task (w_table w) x = Some t ∧ runnable t) ∧
  (∀ i t, w_tasks w !! i = Some t → tk_blocked t = true → tk_state t = Running).

Definition sched_safe (w : World) : Prop := safe_but (fun _ => False) w.

(** The task the hart executes has not been suspended and has not exited. *)
Definition cur_running (hart : nat) (w : World) : Prop :=
  ∃ t, TaskTable_task (w_table w) (TaskTable_current_pid hart (w_table w)) = Some t ∧ tk_state t = Running.

(** ** Changes that keep the invariant *)

Lemma pid_index_inj x y : 0 ≤ x → 0 ≤ y → pid_index x = pid_index y → x = y.
Proof. unfold pid_index. lia. Qed.

(** One task and its place in the scheduler change. *)
Lemma safe_change e f pid w w' t :
  safe_but e w → TaskTable_task (w_table w) pid = Some t → sched_ok (w_sched w') →
  (∀ x, x ≠ pid → sched_occ x (w_sched w') ≤ sched_occ x (w_sched w)) →
  w_tasks w' = alter f (pid_index pid) (w_tasks w) →
  sched_occ pid (w_sched w') ≤ 1 →
  (¬ e pid → 0 < sched_occ pid (w_sched w') → runnable (f t)) →
  (tk_blocked (f t) = true → tk_state (f t) = Running) →
  safe_but e w'.
Proof.
  intros (_ & Hle & Hrun & Hb) [Hp Ht]%task_some Hs' Hocc Ht' Hpid Hpr Hpb. fold (w_tasks w) in Ht.
  split_and!; [done| | |].
  - intros x. destruct (decide (x = pid)) as [->|Hne]; [done|]. specialize (Hle x). specialize (Hocc x Hne). lia.
  - intros x Hx Hpos. destruct (decide (x = pid)) as [->|Hne].
    + exists (f t). rewrite task_at by done. fold (w_tasks w'). rewrite Ht', list_lookup_alter_eq, Ht. split; [done|auto].
    + destruct (Hrun x Hx ltac:(specialize (Hocc x Hne); lia)) as (tx & [Hpx Htx]%task_some & Hr). exists tx.
      split; [|done]. rewrite task_at by done. fold (w_tasks w'). rewrite Ht', list_lookup_alter_ne; [done|].
      intros E. by apply Hne, pid_index_inj.
  - intros i ti. rewrite Ht'. destruct (decide (pid_index pid = i)) as [<-|Hne].
    + rewrite list_lookup_alter_eq, Ht. by intros [= <-].
    + rewrite list_lookup_alter_ne by done. apply Hb.
Qed.

(** Only what the scheduler looks at matters. *)
Definition status (w : World) : list (TaskState * bool) := (fun t => (tk_state t, tk_blocked t)) <$> w_tasks w.

Lemma status_lookup w w' x t :
  status w' = status w → TaskTable_task (w_table w) x = Some t →
  ∃ t', TaskTable_task (w_table w') x = Some t' ∧ tk_state t' = tk_state t ∧ tk_blocked t' = tk_blocked t.
Proof.
  intros Hst [Hx Ht]%task_some. assert (H : status w' !! pid_index x = Some (tk_state t, tk_blocked t)).
  { rewrite Hst. unfold status, w_tasks. by rewrite list_lookup_fmap, Ht. }
  unfold status, w_tasks in H. rewrite list_lookup_fmap in H. rewrite task_at by done.
  destruct (tt_tasks (w_table w') !! pid_index x) as [t'|]; simplify_eq/=. by exists t'.
Qed.

Lemma safe_status e w w' :
  status w' = status w → sched_ok (w_sched w') → (∀ x, sched_occ x (w_sched w') ≤ sched_occ x (w_sched w)) →
  safe_but e w → safe_but e w'.
Proof.
  intros Hst Hs Hocc (_ & Hle & Hrun & Hb). split_and!; [done| | |].
  - intros x. specialize (Hle x). specialize (Hocc x). lia.
  - intros x Hx Hpos. destruct (Hrun x Hx) as (t & Ht & Hr); [specialize (Hocc x); lia|].
    destruct (status_lookup _ _ _ _ Hst Ht) as (t' & Ht' & E1 & E2). exists t'. split; [done|]. unfold runnable.
    by rewrite E1, E2.
  - intros i t Hi Hbl. assert (H : status w !! i = Some (tk_state t, tk_blocked t)).
    { rewrite <- Hst. unfold status. by rewrite list_lookup_fmap, Hi. }
    unfold status in H. rewrite list_lookup_fmap in H. destruct (w_tasks w !! i) as [t0|] eqn:E; [|done].
    injection H as H1 H2. rewrite <- H1. apply (Hb i t0 E). congruence.
Qed.

(** ** The scheduler's side *)

Lemma hit_nonneg x t : 0 ≤ hit x t.
Proof. unfold hit. by case_match. Qed.
Lemma occ_nonneg x s : 0 ≤ sched_occ x s.
Proof.
  apply zsum_nonneg. intros c _. unfold cpu_occ. apply Z.add_nonneg_nonneg.
  - apply zsum_nonneg. intros q _. apply zsum_nonneg. intros t _. apply hit_nonneg.
  - destruct (rq_current c); [apply hit_nonneg|done].
Qed.

Lemma occ_current s i t : sched_ok s → (i < MAX_CPUS)%nat → rq_current (sc_cpu s i) = Some t → 0 < sched_occ (st_id t) s.
Proof.
  intros Hs Hi Ht. pose proof (occ_set_current (st_id t) s i None Hs Hi) as H. rewrite Ht in H. simpl in H.
  pose proof (occ_nonneg (st_id t) (sc_set_cpu s i (rq_set_current (sc_cpu s i) None))) as Hn.
  unfold hit in H. rewrite Z.eqb_refl in H. lia.
Qed.

Lemma enqueue_occ s cpu id q :
  sched_ok s →
  let '(o, s') := Scheduler_enqueue_on_cpu s cpu id q in
  sched_ok s' ∧ ∀ x, sched_occ x s' = sched_occ x s + match o with Enqueued => if x =? id then 1 else 0 | Rejected _ => 0 end.
Proof.
  intros Hs. pose proof (sched_step_ok s (SEnqueueOnCpu cpu id q) Hs) as Hok. simpl in Hok.
  unfold Scheduler_enqueue_on_cpu in *. case_bool_decide; [split; [done|intros; lia]|].
  assert (Hocc : ∀ x, _) by (intros x; exact (occ_push x s cpu id q RUNTIME_QOS_QUEUE_CAPACITY Hs ltac:(lia))).
  destruct (push_on_cpu s cpu id q RUNTIME_QOS_QUEUE_CAPACITY) as [o s']. simpl in *. split; [done|].
  intros x. rewrite Hocc. destruct o; [|done]. unfold hit. simpl. by rewrite Z.eqb_sym.
Qed.

Lemma purge_ok s id : sched_ok s → sched_ok (Scheduler_purge s id).
Proof. apply (sched_step_ok s (SPurge id)). Qed.
Lemma finish_ok hart s : sched_ok s → sched_ok (Scheduler_finish_current hart s).
Proof. apply (sched_step_ok s (SFinish hart)). Qed.
Lemma finish_occ hart s x :
  sched_ok s → sched_occ x (Scheduler_finish_current hart s) = sched_occ x s - current_occ x (rq_current (sc_cpu s (current_cpu_index hart))).
Proof. intros Hs. unfold Scheduler_finish_current. rewrite occ_set_current by (try done; apply current_cpu_index_lt). simpl. lia. Qed.
Lemma current_occ_nonneg x o : 0 ≤ current_occ x o.
Proof. destruct o; [apply hit_nonneg|done]. Qed.

(** ** The task operations *)

Lemma wake_safe e env w pid : (∀ x, e x → ∀ t, TaskTable_task (w_table w) x = Some t → tk_blocked t = false) →
  safe_but e w → safe_but e (TaskTable_wake env w pid).2.
Proof.
  intros He Hw. destruct (wake_effect env w pid) as [->|(t & Ht & Hb & Hcase)]; [done|].
  assert (Hnot : ¬ e pid) by (intros Hp; rewrite (He pid Hp t Ht) in Hb; done).
  assert (Hstate : tk_state t = Running).
  { apply task_some in Ht as [_ Ht]. destruct Hw as (_ & _ & _ & H). by eapply H. }
  assert (Hocc : sched_occ pid (w_sched w) = 0).
  { destruct Hw as (_ & _ & Hrun & _). pose proof (occ_nonneg pid (w_sched w)).
    destruct (decide (0 < sched_occ pid (w_sched w))) as [Hpos|]; [|lia].
    destruct (Hrun pid Hnot Hpos) as (t' & Ht' & [_ Hb']). congruence. }
  destruct Hcase as [[Etab Esch]|Hcase].
  - apply (safe_change e Task_clear_blocked pid w _ t); try done; unfold w_tasks; rewrite ?Etab, ?Esch;
      first [done|apply Hw|intros; lia].
  - pose proof (enqueue_occ (Scheduler_purge (w_sched w) pid) (home_of w t) pid (tk_qos t)) as Hq.
    destruct (Scheduler_enqueue_on_cpu _ _ _ _) as [o s]. destruct Hcase as [Esch Etab].
    destruct Hq as [Hok Hq]; [by apply purge_ok, Hw|].
    assert (Hne : ∀ x, x ≠ pid → sched_occ x s ≤ sched_occ x (w_sched w)).
    { intros x Hx. rewrite Hq, occ_purge. rewrite (proj2 (Z.eqb_neq x pid) Hx). destruct o; lia. }
    assert (Hp : sched_occ pid s ≤ 1) by (rewrite Hq, occ_purge, Z.eqb_refl; destruct o; lia).
    destruct o as [|rej].
    + apply (safe_change e Task_clear_blocked pid w _ t); try done; unfold w_tasks; rewrite ?Etab, ?Esch; done.
    + apply (safe_status e w); [unfold status, w_tasks; by rewrite Etab|by rewrite Esch| |done].
      intros x. rewrite Esch. destruct (decide (x = pid)) as [->|]; [|auto]. rewrite Hq, occ_purge, Z.eqb_refl. lia.
Qed.

Lemma block_safe hart ipi w reason :
  sched_safe w → cur_running hart w → sched_safe (TaskTable_block_current (mkEnv hart ipi) w reason).
Proof.
  intros Hw (t & Ht & Hstate). destruct (block_effect (mkEnv hart ipi) w reason) as [Etab Esch].
  change (env_hart (mkEnv hart ipi)) with hart in *.
  set (pid := TaskTable_current_pid hart (w_table w)) in *.
  assert (Hok : sched_ok (Scheduler_purge (w_sched w) pid)) by apply purge_ok, Hw.
  assert (Hocc : ∀ x, sched_occ x (w_sched (TaskTable_block_current (mkEnv hart ipi) w reason)) ≤
                      if x =? pid then 0 else sched_occ x (w_sched w)).
  { intros x. rewrite Esch, finish_occ, occ_purge by done.
    pose proof (current_occ_nonneg x (rq_current (sc_cpu (Scheduler_purge (w_sched w) pid) (current_cpu_index hart)))). lia. }
  apply (safe_change _ (Task_set_blocked reason) pid w _ t); try done.
  - rewrite Esch. by apply finish_ok.
  - intros x Hx. specialize (Hocc x). by rewrite (proj2 (Z.eqb_neq x pid) Hx) in Hocc.
  - specialize (Hocc pid). rewrite Z.eqb_refl in Hocc. lia.
  - specialize (Hocc pid). rewrite Z.eqb_refl in Hocc. intros. lia.
Qed.

(** A suspended task is in no queue. *)
Lemma suspended_absent w pid t :
  sched_safe w → TaskTable_task (w_table w) pid = Some t → tk_state t = Suspended →
  sched_occ pid (w_sched w) = 0 ∧ tk_blocked t = false.
Proof.
  intros (_ & _ & Hrun & Hb) Ht Hs. pose proof (occ_nonneg pid (w_sched w)). split.
  - destruct (decide (0 < sched_occ pid (w_sched w))) as [Hpos|]; [|lia].
    destruct (Hrun pid (fun F => F) Hpos) as (t' & Ht' & [Hr _]). congruence.
  - apply task_some in Ht as [_ Ht]. destruct (tk_blocked t) eqn:E; [|done]. rewrite (Hb _ _ Ht E) in Hs. done.
Qed.

Lemma resume_safe env w pid : sched_safe w → sched_safe (TaskTable_resume_task env w pid).2.
Proof.
  intros Hw. destruct (resume_effect env w pid) as [->|(t & Ht & Hs & Hcase)]; [done|].
  destruct (suspended_absent w pid t Hw Ht Hs) as [Hocc Hb].
  pose proof (enqueue_occ (w_sched w) (home_of w t) pid (tk_qos t)) as Hq.
  destruct (Scheduler_enqueue_on_cpu _ _ _ _) as [o s]. destruct Hcase as [Esch Etab].
  destruct Hq as [Hok Hq]; [apply Hw|].
  destruct o as [|rej].
  - apply (safe_change _ (Task_set_state Running) pid w _ t); try done; unfold w_tasks; rewrite ?Etab, ?Esch; try done.
    + intros x Hx. rewrite Hq, (proj2 (Z.eqb_neq x pid) Hx). lia.
    + rewrite Hq, Z.eqb_refl. lia.
  - apply (safe_status _ w); [|by rewrite Esch|intros; rewrite Esch, Hq; lia|done].
    unfold status, w_tasks. rewrite Etab. simpl. apply list_eq. intros j. rewrite !list_lookup_fmap.
    destruct (decide (pid_index pid = j)) as [<-|Hne]; [|by rewrite !list_lookup_alter_ne].
    apply task_some in Ht as [_ Ht]. rewrite !list_lookup_alter_eq, Ht. simpl. by rewrite Hs.
Qed.

Lemma status_alter f i (l : list Task) :
  (∀ t, tk_state (f t) = tk_state t ∧ tk_blocked (f t) = tk_blocked t) →
  (fun t => (tk_state t, tk_blocked t)) <$> alter f i l = (fun t => (tk_state t, tk_blocked t)) <$> l.
Proof.
  intros Hf. apply list_eq. intros j. rewrite !list_lookup_fmap. destruct (decide (i = j)) as [<-|Hne].
  - rewrite list_lookup_alter_eq. destruct (l !! i) as [t|]; [|done]. simpl. by destruct (Hf t) as [-> ->].
  - by rewrite list_lookup_alter_ne.
Qed.

(** A task appended suspended and unblocked. *)
Lemma safe_append w w' :
  sched_safe w → w_sched w' = w_sched w → status w' = status w ++ [(Suspended, false)] → sched_safe w'.
Proof.
  intros (Hok & Hle & Hrun & Hb) Es Hst. rewrite <- Es in *. split_and!; [done..| |].
  - intros x Hx Hpos. destruct (Hrun x Hx Hpos) as (t & [Hp Ht]%task_some & Hr).
    assert (H : status w' !! pid_index x = Some (tk_state t, tk_blocked t)).
    { rewrite Hst. apply lookup_app_l_Some. unfold status, w_tasks. by rewrite list_lookup_fmap, Ht. }
    unfold status, w_tasks in H. rewrite list_lookup_fmap in H.
    destruct (tt_tasks (w_table w') !! pid_index x) as [t'|] eqn:E; [|done]. injection H as H1 H2. exists t'.
    rewrite task_at, E by done. split; [done|]. unfold runnable. by rewrite H1, H2.
  - intros i t Hi Hbl. assert (H : status w' !! i = Some (tk_state t, tk_blocked t)).
    { unfold status. by rewrite list_lookup_fmap, Hi. }
    rewrite Hst in H. apply lookup_app_Some in H as [H|[_ H]].
    + unfold status in H. rewrite list_lookup_fmap in H. destruct (w_tasks w !! i) as [t0|] eqn:E; [|done].
      injection H as H1 H2. rewrite <- H1. apply (Hb i t0 E). congruence.
    + apply list_lookup_singleton_Some in H as [_ [= _ H]]. congruence.
Qed.

Lemma cur_keep hart w w' :
  tt_current (w_table w') = tt_current (w_table w) →
  (∀ i t, w_tasks w !! i = Some t → tk_state t = Running → ∃ t', w_tasks w' !! i = Some t' ∧ tk_state t' = Running) →
  cur_running hart w → cur_running hart w'.
Proof.
  intros Hc Hk (t & [Hp Ht]%task_some & Hr). destruct (Hk _ _ Ht Hr) as (t' & Ht' & Hr'). exists t'.
  unfold TaskTable_current_pid in *. rewrite Hc, task_at by done. done.
Qed.

Lemma cur_alter hart f i w w' :
  tt_current (w_table w') = tt_current (w_table w) → w_tasks w' = alter f i (w_tasks w) →
  (∀ t, tk_state t = Running → tk_state (f t) = Running) → cur_running hart w → cur_running hart w'.
Proof.
  intros Hc Ht Hf. apply cur_keep; [done|]. intros j t Hj Hr. rewrite Ht. destruct (decide (i = j)) as [<-|Hne].
  - rewrite list_lookup_alter_eq, Hj. simpl. eauto.
  - rewrite list_lookup_alter_ne by done. eauto.
Qed.

Lemma cur_same hart w w' :
  tt_current (w_table w') = tt_current (w_table w) → w_tasks w' = w_tasks w → cur_running hart w → cur_running hart w'.
Proof. intros Hc Ht. apply cur_keep; [done|]. rewrite Ht. eauto. Qed.

Lemma wake_cur hart env w pid : cur_running hart w → cur_running hart (TaskTable_wake env w pid).2.
Proof.
  destruct (wake_effect env w pid) as [->|(t & _ & _ & [[Etab _]|H])]; [done| |].
  - by eapply (cur_alter _ Task_clear_blocked (pid_index pid)); unfold w_tasks; rewrite ?Etab.
  - destruct (Scheduler_enqueue_on_cpu _ _ _ _) as [o s]. destruct H as [_ Etab]. destruct o.
    + by eapply (cur_alter _ Task_clear_blocked (pid_index pid)); unfold w_tasks; rewrite ?Etab.
    + by apply cur_same; unfold w_tasks; rewrite Etab.
Qed.

Lemma resume_cur hart env w pid : cur_running hart w → cur_running hart (TaskTable_resume_task env w pid).2.
Proof.
  destruct (resume_effect env w pid) as [->|(t & Ht & Hs & H)]; [done|]. apply task_some in Ht as [_ Ht].
  destruct (Scheduler_enqueue_on_cpu _ _ _ _) as [o s]. destruct H as [_ Etab].
  apply cur_keep; [by rewrite Etab; destruct o|]. intros i ti Hi Hr. unfold w_tasks. rewrite Etab.
  destruct (decide (pid_index pid = i)) as [<-|Hne]; [unfold w_tasks in Hi; congruence|].
  exists ti. destruct o; simpl; by rewrite !list_lookup_alter_ne.
Qed.

(** The invariant of the handlers. *)
Definition I (mc : Machine) (k : Kernel) : Prop := sched_safe (k_world k) ∧ cur_running (mc_hart mc) (k_world k).

Lemma I_sched mc k s :
  I mc k → sched_ok s → (∀ x, sched_occ x s ≤ sched_occ x (w_sched (k_world k))) →
  I mc (k_set_world (w_set_sched (k_world k) s) k).
Proof. intros [Hs Hc] Hok Hocc. split; [by apply (safe_status _ (k_world k))|done]. Qed.

Lemma I_tasks mc k k' :
  I mc k → w_sched (k_world k') = w_sched (k_world k) → tt_current (k_table k') = tt_current (k_table k) →
  status (k_world k') = status (k_world k) → I mc k'.
Proof.
  intros [Hs Hc] Esch Ecur Est. split.
  - apply (safe_status _ (k_world k)); [done|rewrite Esch; apply Hs|rewrite Esch; intros; lia|done].
  - destruct Hc as (t & Ht & Hr). destruct (status_lookup _ _ _ _ Est Ht) as (t' & Ht' & E1 & _). exists t'.
    unfold TaskTable_current_pid, k_table in *. rewrite Ecur. by rewrite Ht', E1.
Qed.

Lemma schedule_I mc k :
  I mc k →
  let '(next, s) := Scheduler_schedule_next (mc_hart mc) (w_sched (k_world k)) in
  let k1 := k_set_world (w_set_sched (k_world k) s) k in
  match next with
  | Some pid => I mc (k_set_table (TaskTable_set_current (mc_hart mc) (k_table k1) pid) k1)
  | None => I mc k1
  end.
Proof.
  intros HI. pose proof HI as [Hs Hc]. destruct Hs as (Hok & _).
  assert (Hocc : ∀ x, sched_occ x (Scheduler_schedule_next (mc_hart mc) (w_sched (k_world k))).2 ≤ sched_occ x (w_sched (k_world k))).
  { intros x. rewrite occ_schedule_next by done.
    pose proof (current_occ_nonneg x (rq_current (sc_cpu (w_sched (k_world k)) (current_cpu_index (mc_hart mc))))). lia. }
  pose proof (schedule_next_ok (mc_hart mc) _ Hok) as Hok'.
  assert (Hnext : ∀ pid, (Scheduler_schedule_next (mc_hart mc) (w_sched (k_world k))).1 = Some pid →
                         0 < sched_occ pid (Scheduler_schedule_next (mc_hart mc) (w_sched (k_world k))).2).
  { intros pid. unfold Scheduler_schedule_next. destruct (pick_first _ _) as [[t c]|] eqn:E; simpl; [|done]. intros [= <-].
    apply (occ_current _ (current_cpu_index (mc_hart mc))); [|apply current_cpu_index_lt|].
    - pose proof Hok' as H. unfold Scheduler_schedule_next in H. by rewrite E in H.
    - by rewrite sc_cpu_set_eq by (try done; apply current_cpu_index_lt). }
  destruct (Scheduler_schedule_next _ _) as [[pid|] s]; simpl in *; [|by apply I_sched].
  destruct (I_sched mc k s HI Hok' Hocc) as [Hs1 Hc1]. split; [exact Hs1|].
  destruct Hs1 as (_ & _ & Hrun & _). destruct (Hrun pid (fun F => F) (Hnext pid eq_refl)) as (t & Ht & Hr & _). simpl in Ht.
  unfold cur_running, TaskTable_current_pid. simpl.
  destruct (decide (current_cpu_index (mc_hart mc) < length (tt_current (w_table (k_world k))))%nat).
  - exists t. rewrite list_lookup_insert_eq by done. done.
  - rewrite list_insert_ge; [exact Hc1|]. unfold k_table. simpl. lia.
Qed.

Lemma spawn_I mc env k parent entry sp space gp slot r w :
  I mc k → TaskTable_spawn (mc_alloc mc) (mc_layout mc) env (k_world k) parent entry sp space gp slot = Some (r, w) →
  I mc (k_set_world w k).
Proof.
  intros HI E. destruct (spawn_effect _ _ _ _ _ _ _ _ _ _ _ _ E) as (Esch & Ecur & [[Et _]|Hn]).
  - apply (I_tasks mc k); try done. unfold status. simpl. by rewrite Et.
  - destruct Hn as (pt & task & caps & _ & _ & _ & Hst & Hbl & _ & Et). destruct HI as [Hs Hc].
    assert (Est : status w = status (k_world k) ++ [(Suspended, false)]).
    { unfold status. rewrite Et, status_alter by done. rewrite fmap_app. simpl. by rewrite Hst, Hbl. }
    split; [by eapply safe_append|]. apply (cur_keep _ (k_world k)); [done| |done]. intros i t Hi Hr. simpl.
    assert (H : status w !! i = Some (tk_state t, tk_blocked t)).
    { rewrite Est. apply lookup_app_l_Some. unfold status. by rewrite list_lookup_fmap, Hi. }
    unfold status in H. rewrite list_lookup_fmap in H. destruct (w_tasks w !! i) as [t'|]; [|done].
    injection H as H1 _. exists t'. by rewrite H1.
Qed.

#[export] Instance runnable_inv mc : HandlerInv mc (I mc) any any.
Proof.
  split; try done.
  - intros k len HI. by destruct (VmoPool_allocate _ _ _) as [[? ?] ?].
  - intros k b len HI. by destruct (VmoPool_free _ _ _ _) as [[? ?] ?].
  - intros k pid f Hf HI. apply (I_tasks mc k); try done. apply status_alter. intros t. by destruct (Hf t) as (_ & ? & ? & _).
  - intros k pid q HI. pose proof HI as [(Hok & _) _].
    apply I_sched; [done|by apply set_task_qos_ok|]. intros x. rewrite occ_set_task_qos by done. lia.
  - intros k HI. pose proof HI as [(Hok & _) _].
    apply I_sched; [done|by apply yield_current_ok|]. intros x. rewrite occ_yield by done. lia.
  - intros k env pid [Hs Hc]. split; [by apply wake_safe|by apply wake_cur].
  - intros k ipi reason [Hs Hc]. split; [by apply block_safe|].
    by apply (cur_alter _ (Task_set_blocked reason) (pid_index (TaskTable_current_pid (mc_hart mc) (k_table k))) (k_world k)).
  - apply schedule_I.
  - intros k env pid [Hs Hc]. split; [by apply resume_safe|by apply resume_cur].
  - intros. by eapply spawn_I.
  - intros k target HI. destruct (reap_effect (mc_hart mc) (k_world k) target) as (Esch & Ecur & H).
    apply (I_tasks mc k); try done. unfold status. simpl. destruct H as [->|(child & c & _ & _ & ->)]; [done|].
    by rewrite !status_alter.
  - intros k pid c HI _. apply (I_tasks mc k); try done. by apply status_alter.
Qed.

(** ** Exit

    Between [exit_current] and [finish_current] the exiting task is a zombie
    that the hart's current slot still names. *)

Lemma purge_current s id i :
  rq_current (sc_cpu (Scheduler_purge s id) i) =
  match rq_current (sc_cpu s i) with Some t => if st_id t =? id then None else Some t | None => None end.
Proof. unfold sc_cpu, Scheduler_purge. simpl. rewrite list_lookup_fmap. by destruct (sc_cpus s !! i). Qed.

Lemma enqueue_current s cpu id q i :
  sched_ok s → rq_current (sc_cpu (Scheduler_enqueue_on_cpu s cpu id q).2 i) = rq_current (sc_cpu s i).
Proof.
  intros Hs. unfold Scheduler_enqueue_on_cpu. case_bool_decide; [done|]. unfold push_on_cpu.
  destruct (bounded_push _ _ _ _) as [o qu]. simpl. destruct (decide (cpu = i)) as [<-|Hne].
  - by rewrite sc_cpu_set_eq by (try done; lia).
  - by rewrite sc_cpu_set_ne by (try done; lia).
Qed.

Section exit.
Context (mc : Machine) (pid : Z).

Definition leaving (k : Kernel) : Prop :=
  safe_but (eq pid) (k_world k) ∧
  (∃ t, TaskTable_task (k_table k) pid = Some t ∧ tk_blocked t = false) ∧
  (∃ st, rq_current (sc_cpu (w_sched (k_world k)) (current_cpu_index (mc_hart mc))) = Some st ∧ st_id st = pid).

Lemma leaving_world k k' : k_world k' = k_world k → leaving k → leaving k'.
Proof. unfold leaving, k_table. by intros ->. Qed.

Lemma leaving_wake env k q : leaving k → leaving (k_set_world (TaskTable_wake env (k_world k) q).2 k).
Proof.
  intros (Hs & (t & Ht & Hb) & (st & Hst & Hid)). split_and!.
  - apply wake_safe; [|done]. intros x <- t' Ht'. unfold k_table in Ht. congruence.
  - unfold k_table. simpl. destruct (wake_effect env (k_world k) q) as [->|(tq & Hq & Hbq & H)]; [eauto|].
    assert (Hne : q ≠ pid) by (intros ->; unfold k_table in Ht; congruence).
    assert (Hup : TaskTable_task (TaskTable_update Task_clear_blocked q (w_table (k_world k))) pid = Some t).
    { apply task_some in Ht as [Hp Ht]. apply task_some in Hq as [Hpq _]. rewrite task_at by done. simpl.
      rewrite list_lookup_alter_ne; [done|]. intros E. by apply Hne, pid_index_inj. }
    exists t. split; [|done]. destruct H as [[-> _]|H]; [done|].
    destruct (Scheduler_enqueue_on_cpu _ _ _ _) as [o s]. destruct H as [_ ->]. by destruct o.
  - exists st. split; [|done]. simpl. destruct (wake_effect env (k_world k) q) as [->|(tq & Hq & Hbq & H)]; [done|].
    assert (Hne : q ≠ pid) by (intros ->; unfold k_table in Ht; congruence).
    destruct H as [[_ ->]|H]; [done|].
    pose proof (enqueue_current (Scheduler_purge (w_sched (k_world k)) q) (home_of (k_world k) tq) q (tk_qos tq)
                  (current_cpu_index (mc_hart mc)) (purge_ok _ _ (proj1 Hs))) as He.
    destruct (Scheduler_enqueue_on_cpu _ _ _ _) as [o s]. destruct H as [-> _]. simpl in He. rewrite He, purge_current, Hst.
    destruct (Z.eqb_spec (st_id st) q); [congruence|done].
Qed.

Lemma l_world {A} (f : Env → World → A * World) :
  (∀ env k, leaving k → leaving (k_set_world (f env (k_world k)).2 k)) → hoare leaving (world_op mc f) any.
Proof.
  intros Hf. apply hoare_state_op. intros k Hk. specialize (Hf (env_of mc k) k Hk).
  destruct (f _ _) as [a w]. simpl in *. split; [|done]. by eapply leaving_world.
Qed.
Lemma l_wake q : hoare leaving (wake mc q) any.
Proof. apply l_world. intros env k Hk. by apply leaving_wake. Qed.
Lemma l_wake_all qs : hoare leaving (wake_all mc qs) any.
Proof.
  induction qs; simpl; [apply hoare_ret_any|]. eapply hoare_bind; [apply l_wake|]. by intros _ _.
Qed.
Lemma l_release ranges bytes : hoare leaving (release_ranges ranges bytes) any.
Proof.
  revert bytes. induction ranges as [|[b l] ranges IH]; intros bytes; simpl; [apply hoare_ret_any|].
  eapply (hoare_bind _ _ _ any); [|intros; apply IH]. apply hoare_state_op. intros k Hk.
  destruct (VmoPool_free _ _ _ _) as [[r m] p]. simpl. split; [by eapply leaving_world|done].
Qed.
Lemma l_wake_parent : hoare leaving (world_op mc (fun env w => (tt, TaskTable_wake_parent_waiter env w pid))) any.
Proof.
  apply l_world. intros env k Hk. simpl. unfold TaskTable_wake_parent_waiter.
  assert (Hid : leaving (k_set_world (k_world k) k)) by (by eapply leaving_world).
  repeat (case_match; try done). by apply leaving_wake.
Qed.

(** The exiting task enters the state, and leaves it with [finish_current]. *)
Lemma leaving_start k status :
  sched_safe (k_world k) → Scheduler_current_task_id (mc_hart mc) (w_sched (k_world k)) = Some pid →
  TaskTable_current_pid (mc_hart mc) (k_table k) = pid →
  leaving (k_set_table (TaskTable_exit_current (mc_hart mc) (k_table k) status).2 k).
Proof.
  intros Hs Hcur Hpid. unfold Scheduler_current_task_id in Hcur.
  destruct (rq_current _) as [st|] eqn:Est; [|done]. injection Hcur as Hid.
  pose proof (occ_current _ _ _ (proj1 Hs) (current_cpu_index_lt _) Est) as Hocc. rewrite Hid in Hocc.
  destruct Hs as (Hok & Hle & Hrun & Hb). destruct (Hrun _ (fun F => F) Hocc) as (t & Ht & Hr & Hbl).
  unfold TaskTable_exit_current. rewrite Hpid. fold (k_table k) in Ht. rewrite Ht. simpl.
  pose proof (task_some _ _ _ Ht) as [Hp Hti].
  split_and!; [|exists (Task_exited status t); split; [|done]|by exists st].
  - apply (safe_change _ (Task_exited status) pid (k_world k) _ t); try done; [by split_and!; eauto|].
    simpl. congruence.
  - rewrite task_at by done. simpl. by rewrite list_lookup_alter_eq, Hti.
Qed.

Lemma leaving_finish k :
  leaving k →
  sched_safe (w_set_sched (k_world k) (Scheduler_finish_current (mc_hart mc) (w_sched (k_world k)))).
Proof.
  intros ((Hok & Hle & Hrun & Hb) & _ & (st & Hst & Hid)).
  assert (Hocc : ∀ x, sched_occ x (Scheduler_finish_current (mc_hart mc) (w_sched (k_world k))) ≤
                      if x =? pid then 0 else sched_occ x (w_sched (k_world k))).
  { intros x. rewrite finish_occ, Hst by done. simpl. pose proof (hit_nonneg x st). specialize (Hle x). unfold hit in *.
    rewrite Hid, Z.eqb_sym in *. destruct (x =? pid); lia. }
  split_and!; [by apply finish_ok| | |done].
  - intros x. specialize (Hocc x). specialize (Hle x). simpl. destruct (x =? pid); lia.
  - intros x _ Hpos. simpl in Hpos. specialize (Hocc x). destruct (Z.eqb_spec x pid); [lia|].
    apply (Hrun x); [congruence|lia].
Qed.

End exit.

(** What remains of an exit once the slot is free: another task is picked. *)
Lemma exit_tail mc :
  hoare (fun k => sched_safe (k_world k))
    (next ← schedule_next mc;
     _ ← (match next with
          | Some pid =>
              _ ← set_current mc pid;
              task ← task_of pid;
              match task ≫= tk_address_space with
              | Some handle => activate mc handle
              | None => mret tt
              end
          | None => set_current mc PID_KERNEL
          end);
     fail SeTaskExit) (fun _ : Z => True).
Proof.
  assert (Hset : ∀ pid, hoare (fun k => sched_safe (k_world k)) (set_current mc pid) any).
  { intros pid. apply hoare_modify. intros k Hs. by apply (safe_status _ (k_world k)); [|apply Hs| |]. }
  eapply (hoare_bind _ _ _ any).
  { apply hoare_state_op. intros k Hs. pose proof (schedule_next_ok (mc_hart mc) _ (proj1 Hs)) as Hok.
    pose proof (fun x => occ_schedule_next x (mc_hart mc) _ (proj1 Hs)) as Hocc.
    destruct (Scheduler_schedule_next _ _) as [next s]. simpl in *. split; [|done].
    apply (safe_status _ (k_world k)); [done..| |done]. intros x. simpl. rewrite Hocc.
    pose proof (current_occ_nonneg x (rq_current (sc_cpu (w_sched (k_world k)) (current_cpu_index (mc_hart mc))))). lia. }
  intros next _. eapply (hoare_bind _ _ _ any); [|intros; apply hoare_fail].
  destruct next as [pid|]; [|apply Hset]. eapply hoare_bind; [apply Hset|]. intros _ _. hstep. intros t _.
  case_match; [|by apply hoare_ret]. unfold activate. hgo. by apply hoare_modify.
Qed.

(** Steps without an error of their own. *)
Definition sure {A} (m : Sys A) : Prop := ∀ k e k', m k = Some (Err e, k') → False.

Lemma sure_bind {A B} (m : Sys A) (f : A → Sys B) : sure m → (∀ a, sure (f a)) → sure (m ≫= f).
Proof. intros Hm Hf k e k' [(a & k1 & _ & E)|(e' & _ & E)]%bind_inv; [by eapply Hf|by eapply Hm]. Qed.
Lemma sure_state_op {A} (f : Kernel → A * Kernel) : sure (state_op f).
Proof. intros k e k'. unfold state_op. by destruct (f k). Qed.
Lemma sure_ret {A} (a : A) : sure (mret a).
Proof. done. Qed.
Lemma sure_wake_all mc pids : sure (wake_all mc pids).
Proof. induction pids; simpl; [apply sure_ret|]. apply sure_bind; [apply sure_state_op|done]. Qed.
Lemma sure_release ranges bytes : sure (release_ranges ranges bytes).
Proof.
  revert bytes. induction ranges as [|[b l] ranges IH]; intros bytes; simpl; [apply sure_ret|].
  apply sure_bind; [apply sure_state_op|]. intros. apply IH.
Qed.

(** A step that cannot fail, then the rest. *)
Lemma step {A B} (P P' : Kernel → Prop) (m : Sys A) (f : A → Sys B) k r k' :
  sure m → (∀ r1 k1, m k = Some (r1, k1) → P k → P' k1) → P k → (m ≫= f) k = Some (r, k') →
  ∃ a k1, m k = Some (Ok a, k1) ∧ P' k1 ∧ f a k1 = Some (r, k').
Proof. intros Hs Hm HP [(a & k1 & E1 & E)|(e & _ & E)]%bind_inv; [eauto 6|by apply Hs in E]. Qed.

Lemma exit_safe mc args k r k' :
  sched_safe (k_world k) →
  Scheduler_current_task_id (mc_hart mc) (w_sched (k_world k)) = Some (TaskTable_current_pid (mc_hart mc) (k_table k)) →
  sys_exit mc args k = Some (r, k') → sched_safe (k_world k').
Proof.
  intros Hs Hcur. unfold sys_exit.
  intros [(pid & k1 & [= <- <-] & E)|(e & _ & [=])]%bind_inv.
  set (pid := TaskTable_current_pid (mc_hart mc) (k_table k)) in *.
  apply (step (fun k1 => k1 = k) (fun k1 => k_world k1 = k_world k)) in E as (waiters & k1 & _ & Hk1 & E); [|apply sure_state_op| |done].
  2:{ intros r1 k1 E1 _. unfold router_op, state_op in E1. destruct (Router_close_endpoints_for_owner _ _). by simplify_eq. }
  apply bind_inv in E as [([] & k2 & [= <-] & E)|(e & _ & [=])]. unfold exit_current_and_release in E.
  set (k2 := k_set_router _ k1) in E.
  apply (step (fun k3 => k3 = k2) (leaving mc pid)) in E as (u & k4 & _ & Hk4 & E); [| | |done].
  2:{ apply sure_bind; [apply sure_state_op|]. intros. apply sure_bind; [apply sure_release|]. intros. apply sure_ret. }
  2:{ intros r1 k3 E3 _. apply bind_inv in E3 as [(allocs & k3' & E3 & E4)|(e & _ & E3)].
      - assert (Hl : leaving mc pid k3').
        { unfold state_op in E3. pose proof (leaving_start mc pid k2 (as_i32 (arg args 0))) as Hl.
          unfold k_table in Hl. change (k_world k2) with (k_world k1) in Hl. rewrite Hk1 in Hl.
          specialize (Hl Hs Hcur eq_refl). unfold k_table in E3. change (k_world k2) with (k_world k1) in E3. rewrite Hk1 in E3.
          destruct (TaskTable_exit_current _ _ _) as [al t]. simplify_eq/=. exact Hl. }
        refine (proj1 (hoare_bind _ (release_image allocs) (fun _ => mret tt) any any _ _ k3' r1 k3 Hl E4)).
        + apply l_release.
        + intros. by apply hoare_ret.
      - unfold state_op in E3. by destruct (TaskTable_exit_current _ _ _). }
  apply (step (leaving mc pid) (leaving mc pid)) in E as (u2 & k5 & _ & Hk5 & E); [|apply sure_wake_all| |done].
  2:{ intros r1 k5 E5 Hl. by apply (l_wake_all mc pid waiters k4 r1 k5). }
  apply (step (leaving mc pid) (leaving mc pid)) in E as (u3 & k6 & _ & Hk6 & E); [|apply sure_state_op| |done].
  2:{ intros r1 k6 E6 Hl. by apply (l_wake_parent mc pid k5 r1 k6). }
  apply bind_inv in E as [([] & k7 & [= <-] & E)|(e & _ & [=])].
  refine (proj1 (exit_tail mc _ r k' _ E)). by apply leaving_finish in Hk6.
Qed.

(** ** Every system call *)

(** The hypotheses on the caller: the hart's scheduler slot and the task table
    agree on who runs. *)
Definition in_step (mc : Machine) (k : Kernel) : Prop :=
  Scheduler_current_task_id (mc_hart mc) (w_sched (k_world k)) = Some (TaskTable_current_pid (mc_hart mc) (k_table k)).

Lemma in_step_I mc k : sched_safe (k_world k) → in_step mc k → I mc k.
Proof.
  intros Hsafe Hcur. split; [done|]. unfold in_step, Scheduler_current_task_id in Hcur.
  destruct (rq_current _) as [st|] eqn:Est; [|done].
  injection Hcur as Hid. pose proof (occ_current _ _ _ (proj1 Hsafe) (current_cpu_index_lt _) Est) as Hocc.
  rewrite Hid in Hocc. destruct Hsafe as (_ & _ & Hr & _). destruct (Hr _ (fun F => F) Hocc) as (x & Hx & Hs & _).
  by exists x.
Qed.

Lemma handler_safe mc n h args k r k' :
  (n, h) ∈ handlers mc → sched_safe (k_world k) → in_step mc k → h args k = Some (r, k') → sched_safe (k_world k').
Proof.
  intros Hin Hsafe Hcur E. destruct (decide (n = 11%nat)) as [->|Hn].
  - apply handler_exit in Hin as ->. by eapply exit_safe.
  - by apply (handlers_keep_all (mc := mc) (fun _ => Logic.I) _ _ Hin Hn args k r k' (in_step_I mc k Hsafe Hcur) E).
Qed.

(** C2: whatever system call is made — any number, any arguments, any outcome —
    by the task the hart's scheduler slot names, afterwards as before every
    entry of every run queue and of every current slot names a task that may run
    (neither blocked nor suspended nor exited), no task occurs twice in the
    whole machine, the run queues are well formed and no suspended or exited
    task is marked blocked. *)
Theorem only_runnable_scheduled mc t k number args r k'
    (Hi : install_handlers mc SyscallTable_new = Some t)
    (Hsafe : sched_safe (k_world k))
    (Hcur : in_step mc k)
    (Hrun : SyscallTable_dispatch t number args k = Some (r, k')) :
  sched_safe (k_world k').
Proof.
  destruct (dispatch_handler _ _ _ _ _ _ _ Hi Hrun) as [[_ ->]|(n & h & Hin & E)]; [done|]. by eapply handler_safe.
Qed.

(** Task 1 runs, task 2 waits in the queue; task 1 blocks on an empty endpoint
    and task 2 takes the hart. *)
Definition demo_pair : Kernel :=
  demo_mm (demo_kernel
    (demo_world [Task_bootstrap; demo_task 1 (demo_caps [(0%nat, cap_endpoint 0)]); demo_task 2 CapTable_new] 1 [2])
    (Router_new 1)).
Definition demo_blocked : Kernel :=
  match SyscallTable_dispatch demo_table 18 [0; 0x1000; 0x2000; 64; 0; 0] demo_pair with
  | Some (_, k') => k'
  | None => demo_pair
  end.

Lemma demo_pair_occ x :
  sched_occ x (w_sched (k_world demo_pair)) = (if 1 =? x then 1 else 0) + (if 2 =? x then 1 else 0).
Proof.
  assert (H : sc_cpus (w_sched (k_world demo_pair)) =
    [mkCpuRunQueues [[]; [mkSTask 2 Normal]; []; []] (Some (mkSTask 1 Normal)); CpuRunQueues_new; CpuRunQueues_new;
     CpuRunQueues_new]) by (by vm_compute).
  unfold sched_occ. rewrite H. unfold zsum, cpu_occ, queue_occ, current_occ, hit. simpl. lia.
Qed.

Lemma demo_pair_safe : sched_safe (k_world demo_pair).
Proof.
  split_and!.
  - change (w_sched (k_world demo_pair)) with (sched_step (sc_set_cpu (Scheduler_new 1000000) 0
      (rq_set_current (sc_cpu (Scheduler_new 1000000) 0) (Some (mkSTask 1 Normal)))) (SEnqueueOnCpu 0 2 Normal)).
    apply sched_step_ok, set_current_ok; [apply sched_new_ok|unfold MAX_CPUS; lia].
  - intros x. rewrite demo_pair_occ. destruct (Z.eqb_spec 1 x), (Z.eqb_spec 2 x); lia.
  - intros x _. rewrite demo_pair_occ.
    destruct (Z.eqb_spec 1 x) as [<-|]; [intros _; eexists; split; [by vm_compute|done]|].
    destruct (Z.eqb_spec 2 x) as [<-|]; [intros _; eexists; split; [by vm_compute|done]|lia].
  - intros i t Hi Hb. by do 3 (destruct i as [|i]; [by injection Hi as <-|]).
Qed.

Lemma only_runnable_scheduled_witness :
  SyscallTable_dispatch demo_table 18 [0; 0x1000; 0x2000; 64; 0; 0] demo_pair = Some (Err SeReschedule, demo_blocked) ∧
  TaskTable_current_pid 0 (k_table demo_blocked) = 2 ∧ sched_safe (k_world demo_blocked).
Proof.
  assert (Hrun : SyscallTable_dispatch demo_table 18 [0; 0x1000; 0x2000; 64; 0; 0] demo_pair = Some (Err SeReschedule, demo_blocked))
    by (by vm_compute).
  split; [exact Hrun|split; [by vm_compute|]].
  refine (only_runnable_scheduled demo_mc demo_table demo_pair 18 _ _ demo_blocked _ demo_pair_safe _ Hrun).
  - reflexivity.
  - by vm_compute.
Defined.
