(* ===== verification/WaitProps.v ===== *)
(** * Collecting the exit status of a child

    [sys_wait] hands the status of a finished child to its parent.  Whatever
    system calls happen before and after, each status goes to the parent that
    spawned the child, and it is handed out once: a reaped task stays a zombie
    without a status for ever. *)

From S2P Require Import Prelude Cap Ipc Sched SchedProps SchedLaws Timer Sync PageTable AddressSpace Smp Task VmoPool Kernel SysTask SysCaps SysIpc SysSync SysVmo Exec Syscall SysLogic HandlerLaws HandlerAll Runnable.

(** ** Settled tasks *)

Definition over (t : Task) : Prop := tk_state t = Zombie ∧ tk_exit_code t = None.
Definition over_at (l : list Task) (i : nat) : Prop := ∃ t, l !! i = Some t ∧ over t.

(** Task [pid] has exited and its status has been collected. *)
Definition settled (pid : Z) (k : Kernel) : Prop := 0 ≤ pid ∧ over_at (tt_tasks (k_table k)) (pid_index pid).

Lemma over_alter f j l i :
  (∀ t, l !! i = Some t → i = j → over t → over (f t)) → over_at l i → over_at (alter f j l) i.
Proof.
  intros Hf (t & Ht & Ho). unfold over_at. destruct (decide (j = i)) as [->|Hne].
  - exists (f t). rewrite list_lookup_alter_eq, Ht. split; [done|by apply Hf].
  - exists t. by rewrite list_lookup_alter_ne.
Qed.

Lemma over_app l l' i : over_at l i → over_at (l ++ l') i.
Proof. intros (t & Ht & Ho). exists t. split; [by apply lookup_app_l_Some|done]. Qed.

Section settled.
Context (pid : Z).

Lemma settled_tasks k k' :
  (over_at (tt_tasks (k_table k)) (pid_index pid) → over_at (tt_tasks (k_table k')) (pid_index pid)) →
  settled pid k → settled pid k'.
Proof. intros H [Hp Ho]. split; auto. Qed.

Lemma settled_update f q k :
  (∀ t, over t → over (f t)) → settled pid k → settled pid (k_set_table (TaskTable_update f q (k_table k)) k).
Proof. intros Hf. apply settled_tasks. apply over_alter. auto. Qed.

Lemma settled_wake env q k : settled pid k → settled pid (k_set_world (TaskTable_wake env (k_world k) q).2 k).
Proof.
  apply settled_tasks. unfold k_table. simpl. destruct (wake_effect env (k_world k) q) as [->|(t & _ & _ & H)]; [done|].
  destruct H as [[-> _]|H]; [by apply over_alter|].
  destruct (Scheduler_enqueue_on_cpu _ _ _ _) as [o s]. destruct H as [_ ->]. destruct o; [by apply over_alter|done].
Qed.

(** Only a suspended task is resumed. *)
Lemma settled_resume env q k : settled pid k → settled pid (k_set_world (TaskTable_resume_task env (k_world k) q).2 k).
Proof.
  apply settled_tasks. unfold k_table. simpl. destruct (resume_effect env (k_world k) q) as [->|(t & Ht & Hs & H)]; [done|].
  apply task_some in Ht as [_ Ht]. intros Ho.
  assert (Hne : pid_index q ≠ pid_index pid) .
  { intros E. destruct Ho as (t' & Ht' & [Hz _]). rewrite <- E in Ht'. change (tt_tasks (w_table (k_world k)) !! pid_index q = Some t') in Ht'.
    rewrite Ht in Ht'. injection Ht' as ->. by rewrite Hs in Hz. }
  destruct (Scheduler_enqueue_on_cpu _ _ _ _) as [o s]. destruct H as [_ ->].
  destruct o; simpl; repeat (apply over_alter; [intros ? _ E; by destruct (Hne (eq_sym E))|]); done.
Qed.

#[export] Instance settled_inv mc : HandlerInv mc (settled pid) any any.
Proof.
  split; try done.
  - intros k len HI. by destruct (VmoPool_allocate _ _ _) as [[? ?] ?].
  - intros k b len HI. by destruct (VmoPool_free _ _ _ _) as [[? ?] ?].
  - intros k q f Hf. apply settled_update. intros t [Hz He]. destruct (Hf t) as (_ & E1 & _ & E2). split; congruence.
  - intros k env q. apply settled_wake.
  - intros k ipi reason. by apply settled_update.
  - intros k HI. by destruct (Scheduler_schedule_next _ _) as [[q|] s].
  - intros k env q. apply settled_resume.
  - intros k env parent entry sp space gp slot r w HI E. revert HI. apply settled_tasks.
    destruct (spawn_effect _ _ _ _ _ _ _ _ _ _ _ _ E) as (_ & _ & [[Et _]|(pt & task & caps & H)]).
    + unfold k_table. simpl. unfold w_tasks in Et. by rewrite Et.
    + unfold k_table. simpl. unfold w_tasks in H. destruct H as (_ & _ & _ & _ & _ & _ & ->). intros Ho.
      apply over_alter; [by intros t _ _ [? ?]|by apply over_app].
  - intros k target. apply settled_tasks. unfold k_table. simpl.
    destruct (reap_effect (mc_hart mc) (k_world k) target) as (_ & _ & [E|(child & c & _ & _ & E)]); unfold w_tasks in E; rewrite E.
    + done.
    + intros Ho. apply over_alter; [by intros t _ _ [? ?]|]. apply over_alter; [by intros t _ _ [? ?]|done].
  - intros k q c HI _. by apply settled_update.
Qed.

(** ** Exit *)

(** An exit changes the task that makes it, which has not exited before. *)
Lemma settled_leave mc status k r k' :
  settled pid k → cur_running (mc_hart mc) (k_world k) → exit_current_and_release mc status k = Some (r, k') → settled pid k'.
Proof.
  intros Hk (t & Ht & Hrun). pose proof (settled_inv mc) as Hinv. unfold exit_current_and_release.
  assert (H3 : settled pid (k_set_table (TaskTable_exit_current (mc_hart mc) (k_table k) status).2 k)).
  { unfold TaskTable_exit_current. destruct (TaskTable_task (k_table k) _) as [t'|] eqn:Et; [|done].
    revert Hk. apply settled_tasks. apply over_alter. intros t1 Ht1 Hi [Hz _]. exfalso.
    apply task_some in Ht as [_ Ht]. rewrite Hi in Ht1.
    change (tt_tasks (k_table k) !! pid_index (TaskTable_current_pid (mc_hart mc) (k_table k)) = Some t) in Ht.
    rewrite Ht in Ht1. injection Ht1 as ->. by rewrite Hrun in Hz. }
  intros [(allocs & k3 & E3 & E)|(e & _ & E3)]%bind_inv; unfold state_op in E3;
    destruct (TaskTable_exit_current _ _ _) as [al tb]; simplify_eq/=.
  refine (proj1 (hoare_bind _ (release_image allocs) (fun _ => mret tt) any any _ _ _ r k' H3 E)).
  - by apply (h_release (mc := mc)).
  - intros. by apply hoare_ret.
Qed.

(** Everything an exit does after that. *)
Lemma settled_tail mc waiters exiting :
  hoare (settled pid)
    (_ ← wake_all mc waiters;
     _ ← world_op mc (fun env w => (tt, TaskTable_wake_parent_waiter env w exiting));
     _ ← finish_current mc;
     next ← schedule_next mc;
     _ ← (match next with
          | Some pid =>
              _ ← set_current mc pid;
              task ← task_of pid;
              match task ≫= tk_address_space with
              | Some handle => activate mc handle
              | None => mret tt
              end
          | None => set_current mc PID_KERNEL
          end);
     fail SeTaskExit) (fun _ : Z => True).
Proof.
  pose proof (settled_inv mc) as Hinv.
  assert (Hset : ∀ q, hoare (settled pid) (set_current mc q) any) by (intros q; by apply hoare_modify).
  eapply (hoare_bind _ _ _ any); [by apply (h_wake_all (mc := mc))|]. intros _ _.
  eapply (hoare_bind _ _ _ any).
  { apply (h_world (mc := mc) (I := settled pid) (S := any) (M := any)). intros k ipi Hk. simpl.
    unfold TaskTable_wake_parent_waiter. assert (Hid : settled pid (k_set_world (k_world k) k)) by done.
    repeat (case_match; try done). by apply settled_wake. }
  intros _ _. eapply (hoare_bind _ _ _ any); [by apply hoare_modify|]. intros _ _.
  eapply (hoare_bind _ _ _ any).
  { apply hoare_state_op. intros k Hk. by destruct (Scheduler_schedule_next _ _) as [next s]. }
  intros next _. eapply (hoare_bind _ _ _ any); [|intros; apply hoare_fail].
  destruct next as [q|]; [|apply Hset]. eapply hoare_bind; [apply Hset|]. intros _ _. hstep. intros t _.
  case_match; [|by apply hoare_ret]. unfold activate. hgo. by apply hoare_modify.
Qed.

Lemma settled_exit mc args k r k' :
  settled pid k → I mc k → sys_exit mc args k = Some (r, k') → settled pid k'.
Proof.
  intros Hk [_ (t & Ht & Hrun)]. unfold sys_exit.
  intros [(q & k1 & [= <- <-] & E)|(e & _ & [=])]%bind_inv.
  apply (step (fun k1 => k1 = k) (fun k1 => k_world k1 = k_world k)) in E as (waiters & k1 & _ & Hk1 & E); [|apply sure_state_op| |done].
  2:{ intros r1 k1 E1 _. unfold router_op, state_op in E1. destruct (Router_close_endpoints_for_owner _ _). by simplify_eq. }
  apply bind_inv in E as [([] & k2 & [= <-] & E)|(e & _ & [=])]. unfold exit_current_and_release in E.
  assert (H2 : settled pid (k_set_router (Router_remove_waiter_from_all (k_router k1) (TaskTable_current_pid (mc_hart mc) (k_table k))) k1)).
  { revert Hk. apply settled_tasks. unfold k_table. simpl. by rewrite Hk1. }
  assert (Hc : cur_running (mc_hart mc) (k_world k1)) by (rewrite Hk1; by exists t).
  apply bind_inv in E as [(u & k4 & E4 & E)|(e & -> & E4)]; apply settled_leave in E4; try done.
  exact (proj1 (settled_tail mc waiters _ k4 r k' E4 E)).
Qed.

(** Every entry of the system-call table. *)
Lemma settled_handler mc n h args k r k' :
  (n, h) ∈ handlers mc → I mc k → settled pid k → h args k = Some (r, k') → settled pid k'.
Proof.
  intros Hin HI Hk E. destruct (decide (n = 11%nat)) as [->|Hn].
  - apply handler_exit in Hin as ->. by eapply settled_exit.
  - pose proof (settled_inv mc) as Hinv.
    by apply (handlers_keep_all (mc := mc) (I := settled pid) (fun _ => Logic.I) _ _ Hin Hn args k r k' Hk E).
Qed.

End settled.

(** ** A successful wait *)

(** [pid] is a finished child of the task the hart runs, with [status] not yet
    collected. *)
Definition finished_child (mc : Machine) (k : Kernel) (pid : Z) (parent child : Task) (status : Z) : Prop :=
  let cur := TaskTable_current_pid (mc_hart mc) (k_table k) in
  TaskTable_task (k_table k) cur = Some parent ∧ pid ∈ tk_children parent ∧
  TaskTable_task (k_table k) pid = Some child ∧ tk_parent child = Some cur ∧ tk_state child = Zombie ∧
  tk_exit_code child = Some status.

(** The effect of collecting it: the status in the caller's second result
    register, the child off its list, the child's record cleared, nothing else
    about any task changed. *)
Definition collected (mc : Machine) (k k' : Kernel) (pid : Z) (parent child : Task) (status : Z) : Prop :=
  let cur := TaskTable_current_pid (mc_hart mc) (k_table k) in
  TaskTable_task (k_table k') cur =
    Some (Task_set_a1 (status mod 2 ^ 64) (Task_set_children (retain_other pid (tk_children parent)) parent)) ∧
  TaskTable_task (k_table k') pid = Some (Task_reaped child) ∧
  (∀ q, q ≠ cur → q ≠ pid → TaskTable_task (k_table k') q = TaskTable_task (k_table k) q).

Lemma reap_child_ok mc k target pid status w :
  cur_running (mc_hart mc) (k_world k) → TaskTable_reap_child (mc_hart mc) (k_world k) target = (Ok (pid, status), w) →
  (∀ p, target = Some p → pid = p) ∧
  ∃ parent child, finished_child mc k pid parent child status ∧
    w_table w = TaskTable_update Task_reaped pid
      (TaskTable_update (fun p => Task_set_children (retain_other pid (tk_children p)) p)
         (TaskTable_current_pid (mc_hart mc) (k_table k)) (k_table k)).
Proof.
  intros (t & Ht & Hrun) E. unfold TaskTable_reap_child in E. fold (k_table k) in *.
  set (cur := TaskTable_current_pid (mc_hart mc) (k_table k)) in *. rewrite Ht in E.
  destruct (tk_children t) as [|c0 cs] eqn:Ech; [done|]. rewrite <- Ech in E.
  destruct (reap_select _ _ _ _) as [child|] eqn:Esel; simpl in E; [|done].
  destruct (reap_status _ _ child) as [st|] eqn:Est; simpl in E; [|done].
  assert (Hsel : child ∈ tk_children t ∧ ∀ p, target = Some p → child = p).
  { unfold reap_select in Esel. destruct target as [p|].
    - destruct (p =? cur); [done|]. case_bool_decide; [|done]. simplify_eq/=. split; [done|by intros ? [= <-]].
    - destruct (list_find _ _) as [[i p]|] eqn:Ef; [|done]. apply list_find_Some in Ef as (Hi & _). simplify_eq.
      split; [by eapply list_elem_of_lookup_2|done]. }
  unfold reap_status in Est. destruct (TaskTable_task (k_table k) child) as [c|] eqn:Ec; [|done].
  repeat case_bool_decide; try done. simpl in Est. destruct (tk_exit_code c) as [st'|] eqn:Ex; [|done]. injection Est as ->.
  assert (Hw : child = pid ∧ st = status ∧ w_table w = TaskTable_update Task_reaped child
      (TaskTable_update (fun p => Task_set_children (retain_other child (tk_children p)) p) cur (k_table k))).
  { destruct (TaskTable_task _ child ≫= tk_address_space) as [handle|].
    - destruct (AddressSpaceManager_destroy _ _ _) as [[d m2] mg2]. by simplify_eq.
    - by simplify_eq. }
  destruct Hw as (-> & -> & Hw). split; [apply Hsel|]. exists t, c. split; [|done]. by split_and!; try apply Hsel.
Qed.

(** What an update at one PID means for the others. *)
Lemma task_update f q tb p :
  0 ≤ q → TaskTable_task (TaskTable_update f q tb) p = if decide (p = q) then f <$> TaskTable_task tb p else TaskTable_task tb p.
Proof.
  intros Hq. unfold TaskTable_task. destruct (Z.ltb_spec p 0); [by case_decide; [lia|]|].
  unfold TaskTable_update. simpl. case_decide as E; [by subst; rewrite list_lookup_alter_eq|].
  rewrite list_lookup_alter_ne; [done|]. intros E'. by apply E, eq_sym, pid_index_inj.
Qed.

Lemma sys_wait_ok mc args k pid k' :
  I mc k → sys_wait mc args k = Some (Ok pid, k') →
  (0 < as_i32 (arg args 0) → pid = as_i32 (arg args 0)) ∧
  ∃ parent child status, finished_child mc k pid parent child status ∧ collected mc k k' pid parent child status.
Proof.
  intros [_ Hc]. unfold sys_wait. set (target := if _ <=? 0 then None else Some _).
  destruct (TaskTable_reap_child (mc_hart mc) (k_world k) target) as [r w] eqn:Er.
  intros [(a & k1 & E1 & E)|(e & [=] & _)]%bind_inv. unfold state_op in E1. rewrite Er in E1. injection E1 as <- <-.
  destruct r as [[p status]|[]]; try done.
  2:{ exfalso. unfold switch_or_wake in E. apply bind_inv in E as [(? & ? & _ & E)|(? & [=] & _)].
      apply bind_inv in E as [(? & ? & _ & E)|(? & [=] & _)]. apply bind_inv in E as [(next & ? & _ & E)|(? & [=] & _)].
      destruct next; repeat (apply bind_inv in E as [(? & ? & _ & E)|(? & [=] & _)]); done. }
  injection E as <- Hk'. destruct (reap_child_ok mc k target p status w Hc Er) as (Htgt & parent & child & Hf & Hw).
  split. { intros Hpos. apply Htgt. unfold target. destruct (Z.leb_spec (as_i32 (arg args 0)) 0); [lia|done]. }
  exists parent, child, status. split; [done|]. destruct Hf as (Hp & _ & Hch & _ & Hz & _). destruct Hc as (t & Ht & Hrun).
  assert (t = parent) as -> by (unfold k_table in Hp; congruence). unfold collected.
  set (cur := TaskTable_current_pid (mc_hart mc) (k_table k)) in *.
  assert (Hne : p ≠ cur) by (intros ->; congruence).
  apply task_some in Hp as Hp0. apply task_some in Hch as Hc0. destruct Hp0 as [Hp0 _], Hc0 as [Hc0 _].
  assert (Htab : k_table k' = TaskTable_update (Task_set_a1 (status mod 2 ^ 64)) cur (w_table w)).
  { rewrite <- Hk'. assert (Hcur : TaskTable_current_pid (mc_hart mc) (w_table w) = cur) by (by rewrite Hw).
    change (k_table (k_set_world w k)) with (w_table w). by rewrite Hcur. }
  rewrite Htab, Hw. split_and!.
  - rewrite !task_update by done. rewrite decide_True, decide_False, decide_True by done. by rewrite Hp.
  - rewrite !task_update by done. rewrite decide_False, decide_True, decide_False by done. by rewrite Hch.
  - intros q Hq1 Hq2. rewrite !task_update by done. by rewrite !decide_False by done.
Qed.

(** A finished child that is asked for by name is collected. *)
Lemma sys_wait_named mc args k pid parent child status :
  I mc k → finished_child mc k pid parent child status → as_i32 (arg args 0) = pid → 0 < pid →
  ∃ k', sys_wait mc args k = Some (Ok pid, k').
Proof.
  intros [_ (t & Ht & Hrun)] (Hp & Hin & Hch & Hpar & Hz & Hx) Harg Hpos. unfold sys_wait. rewrite Harg.
  assert (t = parent) as -> by (unfold k_table in Hp; congruence).
  rewrite (proj2 (Z.leb_gt _ _) Hpos).
  assert (Hr : ∃ w, TaskTable_reap_child (mc_hart mc) (k_world k) (Some pid) = (Ok (pid, status), w)).
  { unfold TaskTable_reap_child. fold (k_table k). rewrite Hp.
    destruct (tk_children parent) as [|c0 cs] eqn:Ec; [by apply not_elem_of_nil in Hin|].
    assert (Hs : reap_select (k_table k) (TaskTable_current_pid (mc_hart mc) (k_table k)) (c0 :: cs) (Some pid) = Ok pid).
    { unfold reap_select. destruct (Z.eqb_spec pid (TaskTable_current_pid (mc_hart mc) (k_table k))); [congruence|].
      by rewrite bool_decide_eq_true_2. }
    assert (Hst : reap_status (k_table k) (TaskTable_current_pid (mc_hart mc) (k_table k)) pid = Ok status).
    { unfold reap_status. rewrite Hch, !bool_decide_eq_true_2 by done. simpl. by rewrite Hx. }
    rewrite Hs. simpl. rewrite Hst. simpl. case_match; [|by eexists].
    destruct (AddressSpaceManager_destroy _ _ _) as [[d m2] mg2]. by eexists. }
  destruct Hr as [w Hr]. unfold mbind, Sys_bind, state_op. rewrite Hr. by eexists.
Qed.

Lemma collected_settled mc k k' pid parent child status :
  finished_child mc k pid parent child status → collected mc k k' pid parent child status → settled pid k'.
Proof.
  intros (_ & _ & _ & _ & Hz & _) (_ & [Hp Hc]%task_some & _). split; [done|]. by exists (Task_reaped child).
Qed.

(** ** Histories of system calls *)

(** Any number of system calls, on any harts, each by the task its hart runs. *)
Inductive calls : Kernel → Kernel → Prop :=
| calls_none k : calls k k
| calls_one mc t number args r k k1 k2 :
    install_handlers mc SyscallTable_new = Some t → in_step mc k →
    SyscallTable_dispatch t number args k = Some (r, k1) → calls k1 k2 → calls k k2.

Lemma calls_keep k k' pid :
  calls k k' → sched_safe (k_world k) → sched_safe (k_world k') ∧ (settled pid k → settled pid k').
Proof.
  induction 1 as [|mc t number args r k k1 k2 Hi Hcur Hd _ IH]; intros Hs; [done|].
  destruct (dispatch_handler _ _ _ _ _ _ _ Hi Hd) as [[_ ->]|(n & h & Hin & E)]; [by apply IH|].
  destruct IH as [IH1 IH2]; [by eapply handler_safe|]. split; [done|]. intros Hp. apply IH2.
  exact (settled_handler pid mc n h args k r k1 Hin (in_step_I mc k Hs Hcur) Hp E).
Qed.

Lemma wait_in_table mc : (12%nat, sys_wait mc) ∈ handlers mc.
Proof. unfold handlers. set_solver. Qed.

(** C4: exit statuses are collected by the parent, truthfully and once.  After
    any history of system calls, a wait that returns a PID names a finished
    child of the caller (the one asked for, if one was), hands over the status
    the child exited with, takes the child off the caller's list, clears its
    record and touches no other task; a finished child that the caller asks for
    by name is collected at once; and whatever calls follow, on any hart, no
    later wait by any task returns that PID again. *)
Theorem wait_collects_once k0 k mc args pid k'
    (Hsafe : sched_safe (k_world k0)) (Hbefore : calls k0 k) (Hcur : in_step mc k) :
  (sys_wait mc args k = Some (Ok pid, k') →
   (0 < as_i32 (arg args 0) → pid = as_i32 (arg args 0)) ∧
   (∃ parent child status,
      finished_child mc k pid parent child status ∧ collected mc k k' pid parent child status) ∧
   (∀ k1 mc' args' pid' k2,
      calls k' k1 → in_step mc' k1 → sys_wait mc' args' k1 = Some (Ok pid', k2) → pid' ≠ pid)) ∧
  (∀ parent child status,
     finished_child mc k pid parent child status → as_i32 (arg args 0) = pid → 0 < pid →
     ∃ k2, sys_wait mc args k = Some (Ok pid, k2)).
Proof.
  destruct (calls_keep _ _ pid Hbefore Hsafe) as [Hs _]. pose proof (in_step_I _ _ Hs Hcur) as HI.
  split; [|intros; by eapply sys_wait_named]. intros Hw.
  destruct (sys_wait_ok _ _ _ _ _ HI Hw) as (Htgt & parent & child & status & Hf & Hc).
  split_and!; [done|by exists parent, child, status|]. intros k1 mc' args' pid' k2 Hcalls Hcur' Hw' ->.
  assert (Hs' : sched_safe (k_world k')) by exact (handler_safe _ _ _ _ _ _ _ (wait_in_table mc) Hs Hcur Hw).
  destruct (calls_keep _ _ pid Hcalls Hs') as [Hs1 Hset].
  destruct (Hset (collected_settled _ _ _ _ _ _ _ Hf Hc)) as [_ (t & Ht & _ & Hx)].
  destruct (sys_wait_ok _ _ _ _ _ (in_step_I _ _ Hs1 Hcur') Hw') as (_ & p & c & st & (_ & _ & [_ Hc']%task_some & _ & _ & Hx') & _).
  congruence.
Qed.

(** Task 1 runs; its child 2 has exited with status 5. *)
Definition demo_child : Task :=
  Task_exited 5 (mkTask 2 (Some 1) Running None TrapFrame_EMPTY CapTable_new 0 Normal false None None None 0 0
                   ALL_CPUS_MASK DEFAULT_SHARES None None [] ImageAllocs_new).
Definition demo_family : Kernel :=
  demo_mm (demo_kernel
    (demo_world [Task_bootstrap; Task_set_children [2] (demo_task 1 CapTable_new); demo_child] 1 []) (Router_new 1)).
Definition demo_collected : Kernel :=
  match sys_wait demo_mc [0] demo_family with Some (_, k') => k' | None => demo_family end.

Lemma demo_family_occ x : sched_occ x (w_sched (k_world demo_family)) = if 1 =? x then 1 else 0.
Proof.
  assert (H : sc_cpus (w_sched (k_world demo_family)) =
    [mkCpuRunQueues [[]; []; []; []] (Some (mkSTask 1 Normal)); CpuRunQueues_new; CpuRunQueues_new;
     CpuRunQueues_new]) by (by vm_compute).
  unfold sched_occ. rewrite H. unfold zsum, cpu_occ, queue_occ, current_occ, hit. simpl. lia.
Qed.

Lemma demo_family_safe : sched_safe (k_world demo_family).
Proof.
  split_and!.
  - apply set_current_ok; [apply sched_new_ok|unfold MAX_CPUS; lia].
  - intros x. rewrite demo_family_occ. destruct (Z.eqb_spec 1 x); lia.
  - intros x _. rewrite demo_family_occ.
    destruct (Z.eqb_spec 1 x) as [<-|]; [intros _; eexists; split; [by vm_compute|done]|lia].
  - intros i t Hi Hb. by do 3 (destruct i as [|i]; [by injection Hi as <-|]).
Qed.

Lemma wait_collects_once_witness :
  sys_wait demo_mc [0] demo_family = Some (Ok 2, demo_collected) ∧
  (∃ parent child status,
     finished_child demo_mc demo_family 2 parent child status ∧
     collected demo_mc demo_family demo_collected 2 parent child status) ∧
  (∀ k1 mc' args' pid' k2,
     calls demo_collected k1 → in_step mc' k1 → sys_wait mc' args' k1 = Some (Ok pid', k2) → pid' ≠ 2).
Proof.
  assert (Hrun : sys_wait demo_mc [0] demo_family = Some (Ok 2, demo_collected)) by (by vm_compute).
  split; [exact Hrun|].
  exact (proj2 (proj1 (wait_collects_once demo_family demo_family demo_mc [0] 2 demo_collected demo_family_safe
                         (calls_none _) ltac:(by vm_compute)) Hrun)).
Defined.
