(* ===== verification/Bytes.v ===== *)
(** Byte strings shared by the userspace storage libraries: cursors over a
    slice that has not been consumed yet, the UTF-8 check and the searches of
    [core::str] the sources call, splicing a run of bytes into a block, and the
    bitwise CRC-32 both journals and the partition table use.

    A [u8] is a [Z]; a [Vec<u8>], a [&[u8]] and the bytes of a [String] are
    lists of them.  A [&str] is a byte list that satisfies [utf8_valid]. *)

From S2P Require Import Prelude.

Abbreviation bytes := (list Z).

(** ** Cursors

    The decoders of the sources keep an offset into a slice and advance it.
    The model keeps the part of the slice behind the offset, so a read returns
    the value and the rest, and [off == buf.len()] is [rest = []]. *)

(** [buf.get(off..off + n)]. *)
Definition take_bytes (n : nat) (l : bytes) : option (bytes * bytes) :=
  if (length l <? n)%nat then None else Some (take n l, drop n l).

(** [from_le_bytes] of the next [n] bytes. *)
Definition take_le (n : nat) (l : bytes) : option (Z * bytes) :=
  match take_bytes n l with
  | Some (b, rest) => Some (le_value b, rest)
  | None => None
  end.

Definition zeros (n : nat) : bytes := replicate n 0.

(** [buf[off..off + data.len()].copy_from_slice(data)] for a range inside
    [buf]. *)
Definition splice (buf : bytes) (off : nat) (data : bytes) : bytes :=
  take off buf ++ data ++ drop (off + length data) buf.

(** ** [core::str] *)

Definition cont (b : Z) : bool := (0x80 <=? b) && (b <=? 0xBF).
Definition within (lo hi b : Z) : bool := (lo <=? b) && (b <=? hi).

(** [str::from_utf8(..).is_ok()]: the well-formed byte sequences of Unicode's
    table 3-7. *)
Fixpoint utf8_valid (l : bytes) : bool :=
  match l with
  | [] => true
  | b0 :: r0 =>
      if within 0 0x7F b0 then utf8_valid r0
      else match r0 with
      | [] => false
      | b1 :: r1 =>
          if within 0xC2 0xDF b0 then cont b1 && utf8_valid r1
          else match r1 with
          | [] => false
          | b2 :: r2 =>
              if b0 =? 0xE0 then within 0xA0 0xBF b1 && cont b2 && utf8_valid r2
              else if within 0xE1 0xEC b0 then cont b1 && cont b2 && utf8_valid r2
              else if b0 =? 0xED then within 0x80 0x9F b1 && cont b2 && utf8_valid r2
              else if within 0xEE 0xEF b0 then cont b1 && cont b2 && utf8_valid r2
              else match r2 with
              | [] => false
              | b3 :: r3 =>
                  if b0 =? 0xF0 then
                    within 0x90 0xBF b1 && cont b2 && cont b3 && utf8_valid r3
                  else if within 0xF1 0xF3 b0 then
                    cont b1 && cont b2 && cont b3 && utf8_valid r3
                  else if b0 =? 0xF4 then
                    within 0x80 0x8F b1 && cont b2 && cont b3 && utf8_valid r3
                  else false
              end
          end
      end
  end.

(** [str::from_utf8]. *)
Definition from_utf8 (l : bytes) : option bytes := if utf8_valid l then Some l else None.

(** [str::starts_with], [str::ends_with] and [str::contains] of a string. *)
Definition starts_with (p s : bytes) : bool := bool_decide (take (length p) s = p).
Definition ends_with (p s : bytes) : bool :=
  (length p <=? length s)%nat && bool_decide (drop (length s - length p) s = p).
Fixpoint str_contains (p s : bytes) : bool :=
  starts_with p s || match s with [] => false | _ :: s' => str_contains p s' end.

(** [str::split(c)] for an ASCII character: always at least one segment. *)
Fixpoint split_on (c : Z) (s : bytes) : list bytes :=
  match s with
  | [] => [[]]
  | b :: s' =>
      if b =? c then [] :: split_on c s'
      else match split_on c s' with
           | seg :: segs => (b :: seg) :: segs
           | [] => [[b]]
           end
  end.

(** The order of [String]: byte-wise lexicographic. *)
Fixpoint bytes_cmp (a b : bytes) : comparison :=
  match a, b with
  | [], [] => Eq
  | [], _ :: _ => Lt
  | _ :: _, [] => Gt
  | x :: a', y :: b' =>
      match x ?= y with
      | Eq => bytes_cmp a' b'
      | c => c
      end
  end.

Definition bytes_le (a b : bytes) : Prop := bytes_cmp a b ≠ Gt.

#[export] Instance bytes_le_dec a b : Decision (bytes_le a b).
Proof. unfold bytes_le. destruct (bytes_cmp a b); [left|left|right]; naive_solver. Defined.

(** [BTreeMap<String, _>::keys]. *)
Definition str_keys {V} (m : gmap bytes V) : list bytes :=
  merge_sort bytes_le (elements (dom m)).

(** ** CRC-32, bit by bit *)

(** One round: [mask = (crc & 1).wrapping_neg(); (crc >> 1) ^ (poly & mask)]. *)
Definition crc_round (poly crc : Z) : Z :=
  let mask := (- Z.land crc 1) mod 2 ^ 32 in
  Z.lxor (Z.shiftr crc 1) (Z.land poly mask).

Definition crc_byte (poly crc byte : Z) : Z :=
  Nat.iter 8 (crc_round poly) (Z.lxor crc byte).

(** The loop over the data, from the all-ones state, and the final complement. *)
Definition crc32 (poly : Z) (data : bytes) : Z :=
  Z.lxor (foldl (crc_byte poly) (max_of 32) data) (max_of 32).

(** ** Lemmas: cursors and splices *)

Lemma take_bytes_app n b rest :
  length b = n → take_bytes n (b ++ rest) = Some (b, rest).
Proof.
  intros <-. unfold take_bytes. rewrite length_app.
  destruct (Nat.ltb_spec (length b + length rest) (length b)); [lia|].
  by rewrite take_app_length, drop_app_length.
Qed.

Lemma take_bytes_Some n l b rest :
  take_bytes n l = Some (b, rest) → l = b ++ rest ∧ length b = n.
Proof.
  unfold take_bytes. destruct (Nat.ltb_spec (length l) n); [done|]. intros [= <- <-].
  by rewrite take_drop, length_take_le.
Qed.

Lemma take_le_app n x rest :
  in_width (8 * Z.of_nat n) x → take_le n (le_bytes n x ++ rest) = Some (x, rest).
Proof.
  intros Hx. unfold take_le. rewrite take_bytes_app by apply le_bytes_length.
  by rewrite le_value_bytes.
Qed.

Lemma take_le_Some n l x rest :
  take_le n l = Some (x, rest) → ∃ b, l = b ++ rest ∧ length b = n ∧ x = le_value b.
Proof.
  unfold take_le. destruct (take_bytes n l) as [[b r]|] eqn:E; [|done].
  intros [= <- <-]. apply take_bytes_Some in E as [-> ?]. eauto.
Qed.

(** A cursor read of a byte string yields an integer of its width and leaves a
    byte string behind. *)
Lemma take_le_width n l x rest :
  Forall is_byte l → take_le n l = Some (x, rest) →
  in_width (8 * Z.of_nat n) x ∧ Forall is_byte rest.
Proof.
  intros Hl (b & -> & <- & ->)%take_le_Some. apply Forall_app in Hl as [Hb Hr].
  split; [|done]. by apply le_value_bound.
Qed.

Lemma vlen_le_bytes n x : vlen (le_bytes n x) = Z.of_nat n.
Proof. unfold vlen. by rewrite le_bytes_length. Qed.

Lemma length_zeros n : length (zeros n) = n.
Proof. apply length_replicate. Qed.

Lemma zeros_byte n : Forall is_byte (zeros n).
Proof. apply Forall_replicate. unfold is_byte. lia. Qed.

Lemma zeros_app n m : zeros n ++ zeros m = zeros (n + m).
Proof. symmetry. apply replicate_add. Qed.

Lemma drop_zeros k n : drop k (zeros n) = zeros (n - k).
Proof. apply drop_replicate. Qed.

Lemma take_zeros k n : take k (zeros n) = zeros (min k n).
Proof. apply take_replicate. Qed.

Lemma le_value_zeros n : le_value (zeros n) = 0.
Proof. induction n as [|n IH]; [done|]. change (0 + 256 * le_value (zeros n) = 0). lia. Qed.

Lemma le_value_mono a b : Forall2 Z.le a b → le_value a ≤ le_value b.
Proof. induction 1; simpl; lia. Qed.

Lemma zeros_le l : Forall is_byte l → Forall2 Z.le (zeros (length l)) l.
Proof.
  induction 1 as [|b l Hb _ IH]; [constructor|]. constructor; [|done]. unfold is_byte in Hb. lia.
Qed.

(** A write torn after [k] bytes over zeros is, byte for byte, at most the
    whole write. *)
Lemma torn_le l k : Forall is_byte l → Forall2 Z.le (take k l ++ zeros (length l - k)) l.
Proof.
  intros Hl. rewrite <- (take_drop k l) at 3. apply Forall2_app; [reflexivity|].
  replace (length l - k)%nat with (length (drop k l)) by (by rewrite length_drop).
  by apply zeros_le, Forall_drop.
Qed.

Lemma splice_length buf off data :
  (off + length data ≤ length buf)%nat → length (splice buf off data) = length buf.
Proof. intros. unfold splice. rewrite !length_app, length_take_le, length_drop by lia. lia. Qed.

Lemma splice_byte buf off data :
  Forall is_byte buf → Forall is_byte data → Forall is_byte (splice buf off data).
Proof.
  intros Hb Hd. unfold splice. repeat apply Forall_app_2; auto using Forall_take, Forall_drop.
Qed.

Create Rewrite HintDb len.
Create HintDb bytes discriminated.

#[export] Hint Rewrite @length_app @length_take @length_drop @length_replicate le_bytes_length
  length_zeros : len.
#[export] Hint Resolve le_bytes_byte zeros_byte splice_byte Forall_take Forall_drop : bytes.

(** Length side conditions of byte strings. *)
Ltac len := autorewrite with len in *; simpl length in *; try lia.

(** *** Slices of concatenations *)

Lemma slice_at {A} (a b c : list A) i j :
  length a = i → (i + length b)%nat = j → slice i j (a ++ b ++ c) = b.
Proof.
  intros <- <-. unfold slice. rewrite drop_app_length.
  replace (length a + length b - length a)%nat with (length b) by lia.
  apply take_app_length.
Qed.

Lemma slice_start {A} (b c : list A) j : length b = j → slice 0 j (b ++ c) = b.
Proof. intros. by apply (slice_at []). Qed.

Lemma slice_end {A} (a b : list A) i j :
  length a = i → (i + length b)%nat = j → slice i j (a ++ b) = b.
Proof. intros. rewrite <- (app_nil_r b) at 1. by apply slice_at. Qed.

Lemma slice_app_l {A} (a b : list A) i j :
  (j ≤ length a)%nat → slice i j (a ++ b) = slice i j a.
Proof.
  intros Hj. unfold slice. destruct (decide (i ≤ j)%nat).
  - rewrite drop_app_le by lia. rewrite take_app_le; [done|]. rewrite length_drop. lia.
  - by replace (j - i)%nat with 0%nat by lia.
Qed.

Lemma slice_length {A} (l : list A) i j :
  (j ≤ length l)%nat → length (slice i j l) = (j - i)%nat.
Proof. intros. unfold slice. rewrite length_take, length_drop. lia. Qed.

Lemma slice_length_le {A} (l : list A) i j : (length (slice i j l) ≤ j - i)%nat.
Proof. unfold slice. rewrite length_take. lia. Qed.

Lemma slice_byte l i j : Forall is_byte l → Forall is_byte (slice i j l).
Proof. intros. by apply Forall_take, Forall_drop. Qed.

Lemma slice_slice_app {A} (l : list A) i j k :
  (i ≤ j ≤ k)%nat → slice i j l ++ slice j k l = slice i k l.
Proof.
  intros Hijk. unfold slice.
  replace (drop j l) with (drop (j - i) (drop i l)) by (rewrite drop_drop; f_equal; lia).
  rewrite take_take_drop. f_equal. lia.
Qed.

Lemma slice_lookup {A} (l : list A) i j k :
  slice i j l !! k = if decide (k < j - i)%nat then l !! (i + k)%nat else None.
Proof.
  unfold slice. case_decide; [by rewrite lookup_take_lt, lookup_drop|].
  apply lookup_ge_None_2. rewrite length_take. lia.
Qed.

Lemma splice_lookup buf off data j :
  (off + length data ≤ length buf)%nat →
  splice buf off data !! j =
    if decide (off ≤ j < off + length data)%nat then data !! (j - off)%nat else buf !! j.
Proof.
  intros Hl. unfold splice. case_decide as Hj.
  - rewrite lookup_app_r, length_take_le by (rewrite ?length_take_le; lia).
    by rewrite lookup_app_l by lia.
  - destruct (decide (j < off)%nat).
    + by rewrite lookup_app_l, lookup_take_lt by (rewrite ?length_take_le; lia).
    + rewrite lookup_app_r, length_take_le by (rewrite ?length_take_le; lia).
      rewrite lookup_app_r, lookup_drop by lia. f_equal. lia.
Qed.

(** Writing a window of a block is writing the window of the array. *)
Lemma splice_window buf i n w c :
  (i + n ≤ length buf)%nat → (w + length c ≤ n)%nat →
  splice buf i (splice (slice i (i + n) buf) w c) = splice buf (i + w) c.
Proof.
  intros Hi Hw. apply list_eq. intros j.
  assert (Hs : length (slice i (i + n) buf) = n) by (rewrite slice_length; lia).
  rewrite !splice_lookup; rewrite ?splice_length; try lia.
  rewrite slice_lookup. repeat case_decide; try lia; f_equal; lia.
Qed.

(** Two writes side by side are one. *)
Lemma splice_splice buf i a b :
  (i + length a + length b ≤ length buf)%nat →
  splice (splice buf i a) (i + length a) b = splice buf i (a ++ b).
Proof.
  intros Hl. apply list_eq. intros j.
  rewrite !splice_lookup; rewrite ?splice_length, ?length_app; try lia.
  repeat case_decide; try lia; try done.
  - rewrite lookup_app_r by lia. f_equal. lia.
  - by rewrite lookup_app_l by lia.
Qed.

Lemma splice_nil buf i : (i ≤ length buf)%nat → splice buf i [] = buf.
Proof. intros. unfold splice. simpl. rewrite Nat.add_0_r. apply take_drop. Qed.

(** ** Lemmas: the CRC *)

Section Crc.
Context (poly : Z) (Hpoly : in_width 32 poly) (Htop : Z.testbit poly 31 = true).

Lemma land_one_bit x : Z.land x 1 = Z.b2z (Z.testbit x 0).
Proof.
  apply Z.bits_inj'. intros n Hn. rewrite Z.land_spec.
  destruct (decide (n = 0)) as [->|Hn0]; [by destruct (Z.testbit x 0)|].
  replace (Z.testbit 1 n) with false by (symmetry; apply (Z.bits_above_log2 1); simpl; lia).
  rewrite andb_false_r. destruct (Z.testbit x 0); simpl; [|by rewrite Z.bits_0].
  symmetry. apply (Z.bits_above_log2 1); simpl; lia.
Qed.

(** The round, with the mask read as a test of the low bit. *)
Lemma crc_round_bit crc :
  crc_round poly crc = Z.lxor (Z.shiftr crc 1) (if Z.testbit crc 0 then poly else 0).
Proof.
  unfold crc_round. f_equal. rewrite land_one_bit. destruct (Z.testbit crc 0).
  - change ((- Z.b2z true) mod 2 ^ 32) with (Z.ones 32).
    rewrite Z.land_ones by lia. by apply Z.mod_small.
  - change ((- Z.b2z false) mod 2 ^ 32) with 0. apply Z.land_0_r.
Qed.

Lemma crc_round_width crc : in_width 32 crc → in_width 32 (crc_round poly crc).
Proof.
  intros Hc. unfold in_width in *. rewrite crc_round_bit.
  assert (Hs : 0 ≤ Z.shiftr crc 1 < 2 ^ 32).
  { rewrite Z.shiftr_div_pow2 by lia. split; [apply Z.div_pos; lia|].
    apply Z.div_lt_upper_bound; lia. }
  split.
  - apply Z.lxor_nonneg. destruct (Z.testbit crc 0); lia.
  - destruct (Z.testbit crc 0); [|rewrite Z.lxor_0_r; lia].
    destruct (Z.eq_dec (Z.lxor (Z.shiftr crc 1) poly) 0) as [->|]; [lia|].
    apply Z.log2_lt_pow2; [pose proof (Z.lxor_nonneg (Z.shiftr crc 1) poly); lia|].
    eapply Z.le_lt_trans; [apply Z.log2_lxor; lia|].
    apply Z.max_lub_lt; [destruct (Z.eq_dec (Z.shiftr crc 1) 0) as [->|]|
                         destruct (Z.eq_dec poly 0) as [->|]]; try (simpl; lia);
      apply Z.log2_lt_pow2; lia.
Qed.

(** The round is linear over xor. *)
Lemma crc_round_lxor a b :
  crc_round poly (Z.lxor a b) = Z.lxor (crc_round poly a) (crc_round poly b).
Proof.
  rewrite !crc_round_bit. rewrite Z.shiftr_lxor, Z.lxor_spec.
  apply Z.bits_inj'. intros n Hn. rewrite !Z.lxor_spec.
  destruct (Z.testbit a 0), (Z.testbit b 0); simpl; rewrite ?Z.bits_0;
    destruct (Z.testbit (Z.shiftr a 1) n), (Z.testbit (Z.shiftr b 1) n), (Z.testbit poly n); done.
Qed.

(** A round loses nothing: the top bit of the result tells the bit shifted out,
    because the polynomial has its top bit set. *)
Lemma crc_round_zero a : in_width 32 a → crc_round poly a = 0 → a = 0.
Proof.
  intros Ha H. rewrite crc_round_bit in H.
  assert (H31 : Z.testbit (Z.shiftr a 1) 31 = false).
  { rewrite Z.shiftr_spec by lia. unfold in_width in Ha.
    destruct (Z.eq_dec a 0) as [->|]; [apply Z.bits_0|].
    apply Z.bits_above_log2; [lia|]. apply Z.log2_lt_pow2; lia. }
  destruct (Z.testbit a 0) eqn:E0.
  - apply (f_equal (fun z => Z.testbit z 31)) in H. rewrite Z.lxor_spec, H31, Htop, Z.bits_0 in H.
    done.
  - rewrite Z.lxor_0_r in H. apply Z.bits_inj'. intros n Hn. rewrite Z.bits_0.
    destruct (decide (n = 0)) as [->|Hn0]; [done|].
    apply (f_equal (fun z => Z.testbit z (n - 1))) in H.
    rewrite Z.shiftr_spec, Z.bits_0 in H by lia. by replace (n - 1 + 1) with n in H by lia.
Qed.

Abbreviation rounds k := (Nat.iter k (crc_round poly)).

Lemma crc_rounds_width k a : in_width 32 a → in_width 32 (rounds k a).
Proof. intros Ha. induction k; simpl; auto using crc_round_width. Qed.

Lemma crc_rounds_lxor k a b : rounds k (Z.lxor a b) = Z.lxor (rounds k a) (rounds k b).
Proof. induction k; simpl; [done|]. by rewrite IHk, crc_round_lxor. Qed.

Lemma crc_rounds_zero k a : in_width 32 a → rounds k a = 0 → a = 0.
Proof.
  intros Ha. induction k; simpl; [done|]. intros H%crc_round_zero; auto using crc_rounds_width.
Qed.

Lemma lxor_width a b : in_width 32 a → in_width 32 b → in_width 32 (Z.lxor a b).
Proof.
  unfold in_width. intros Ha Hb. split; [apply Z.lxor_nonneg; lia|].
  destruct (Z.eq_dec (Z.lxor a b) 0) as [->|]; [lia|].
  pose proof (Z.lxor_nonneg a b).
  apply Z.log2_lt_pow2; [lia|]. eapply Z.le_lt_trans; [apply Z.log2_lxor; lia|].
  apply Z.max_lub_lt; [destruct (Z.eq_dec a 0) as [->|]|destruct (Z.eq_dec b 0) as [->|]];
    try (simpl; lia); apply Z.log2_lt_pow2; lia.
Qed.

Lemma crc_rounds_inj k a b :
  in_width 32 a → in_width 32 b → rounds k a = rounds k b → a = b.
Proof.
  intros Ha Hb H. apply Z.lxor_eq. apply (crc_rounds_zero k); [by apply lxor_width|].
  by rewrite crc_rounds_lxor, H, Z.lxor_nilpotent.
Qed.
(** Rounds on a number whose low bits are clear only shift it down. *)
Lemma crc_rounds_shift k a : rounds k (a * 2 ^ Z.of_nat k) = a.
Proof.
  revert a. induction k as [|k IH]; intros a; [simpl; lia|].
  rewrite Nat.iter_succ_r. replace (2 ^ Z.of_nat (S k)) with (2 ^ Z.of_nat k * 2)
    by (rewrite Nat2Z.inj_succ, Z.pow_succ_r; lia).
  rewrite crc_round_bit. rewrite Z.mul_assoc, Z.shiftr_div_pow2 by lia.
  rewrite Z.bit0_odd, Z.odd_mul, andb_false_r, Z.lxor_0_r.
  change (2 ^ 1) with 2. rewrite Z.div_mul by lia. apply IH.
Qed.

Lemma lxor_low_byte b v : is_byte b → Z.lxor b (256 * v) = b + 256 * v.
Proof.
  unfold is_byte. intros Hb. symmetry. rewrite (Z.mul_comm 256).
  change 256 with (2 ^ 8). rewrite <- Z.shiftl_mul_pow2 by lia. apply Z.add_nocarry_lxor.
  apply Z.bits_inj'. intros n Hn. rewrite Z.land_spec, Z.bits_0.
  destruct (Z.lt_ge_cases n 8); [rewrite Z.shiftl_spec_low by lia; apply andb_false_r|].
  destruct (Z.eq_dec b 0) as [->|]; [by rewrite Z.bits_0|].
  rewrite (Z.bits_above_log2 b); [done|lia|]. apply Z.lt_le_trans with 8; [|lia].
  apply Z.log2_lt_pow2; lia.
Qed.

(** Feeding a run of bytes is xoring their little-endian value into the state
    and running eight rounds per byte. *)
Lemma crc_bytes_rounds x c :
  Forall is_byte x →
  foldl (crc_byte poly) c x = rounds (8 * length x) (Z.lxor c (le_value x)).
Proof.
  intros Hx. revert c. induction Hx as [|b x Hb _ IH]; intros c; [simpl; by rewrite Z.lxor_0_r|].
  cbn [foldl length le_value]. rewrite IH. unfold crc_byte.
  rewrite <- (crc_rounds_shift 8 (le_value x)) at 1. rewrite <- crc_rounds_lxor.
  replace (8 * S (length x))%nat with (8 * length x + 8)%nat by lia.
  rewrite Nat.iter_add. do 2 f_equal. rewrite Z.lxor_assoc. f_equal.
  change (2 ^ Z.of_nat 8) with 256. rewrite (Z.mul_comm _ 256). by apply lxor_low_byte.
Qed.

Lemma crc_bytes_width x c :
  Forall is_byte x → in_width 32 c → in_width 32 (foldl (crc_byte poly) c x).
Proof.
  intros Hx. revert c. induction Hx as [|b x Hb _ IH]; intros c Hc; simpl; [done|].
  apply IH, crc_rounds_width, lxor_width; [done|]. unfold is_byte, in_width in *. lia.
Qed.

Lemma crc_bytes_inj x c d :
  Forall is_byte x → in_width 32 c → in_width 32 d →
  foldl (crc_byte poly) c x = foldl (crc_byte poly) d x → c = d.
Proof.
  intros Hx. revert c d. induction Hx as [|b x Hb _ IH]; intros c d Hc Hd H; simpl in *; [done|].
  assert (Hb32 : in_width 32 b) by (unfold is_byte, in_width in *; lia).
  assert (E : crc_byte poly c b = crc_byte poly d b)
    by (apply IH; [apply crc_rounds_width..|]; auto using lxor_width).
  apply crc_rounds_inj in E; [|by apply lxor_width..].
  apply (f_equal (fun z => Z.lxor z b)) in E.
  by rewrite !Z.lxor_assoc, !Z.lxor_nilpotent, !Z.lxor_0_r in E.
Qed.

Lemma crc32_width data : Forall is_byte data → in_width 32 (crc32 poly data).
Proof.
  intros H. apply lxor_width; [|unfold in_width, max_of; lia].
  apply crc_bytes_width; [done|]. unfold in_width, max_of. lia.
Qed.

(** Two byte strings that differ only inside a window of four bytes have
    different checksums: every error burst of at most 32 bits, aligned to
    bytes, is detected. *)
Lemma crc32_burst pre x y post :
  Forall is_byte pre → Forall is_byte x → Forall is_byte y → Forall is_byte post →
  length x = length y → (length x ≤ 4)%nat → x ≠ y →
  crc32 poly (pre ++ x ++ post) ≠ crc32 poly (pre ++ y ++ post).
Proof.
  intros Hpre Hx Hy Hpost Hlen H4 Hne Heq. apply Hne.
  set (c := foldl (crc_byte poly) (max_of 32) pre).
  assert (Hc : in_width 32 c) by (apply crc_bytes_width; [done|unfold in_width, max_of; lia]).
  unfold crc32 in Heq. rewrite !foldl_app in Heq. fold c in Heq.
  apply (f_equal (fun z => Z.lxor z (max_of 32))) in Heq.
  rewrite !Z.lxor_assoc, !Z.lxor_nilpotent, !Z.lxor_0_r in Heq.
  apply crc_bytes_inj in Heq; [|done|by apply crc_bytes_width..].
  rewrite !crc_bytes_rounds, Hlen in Heq by done.
  assert (Hv : ∀ l, Forall is_byte l → (length l ≤ 4)%nat → in_width 32 (le_value l)).
  { intros l Hl Hl4. pose proof (le_value_bound l Hl) as [? Hb]. split; [done|].
    eapply Z.lt_le_trans; [exact Hb|]. apply Z.pow_le_mono_r; lia. }
  apply crc_rounds_inj in Heq; [|apply lxor_width; auto with lia..].
  apply (f_equal (fun z => Z.lxor c z)) in Heq.
  rewrite <- !Z.lxor_assoc, !Z.lxor_nilpotent, !Z.lxor_0_l in Heq.
  rewrite <- (le_bytes_value x), <- (le_bytes_value y) by done. by rewrite Hlen, Heq.
Qed.
End Crc.

(** ** Lemmas: arrays of equal blocks *)

Section Blocks.
Context (n : nat).
Implicit Types bs : list bytes.
Abbreviation uniform := (Forall (fun b : bytes => length b = n)).

Lemma concat_length bs : uniform bs → length (concat bs) = (length bs * n)%nat.
Proof. induction 1 as [|b bs Hb _ IH]; simpl; [done|]. rewrite length_app. lia. Qed.

Lemma concat_take bs i : uniform bs → take (i * n) (concat bs) = concat (take i bs).
Proof.
  intros Hu. revert i. induction Hu as [|b bs Hb _ IH]; intros [|i]; simpl; try done.
  - by rewrite take_nil.
  - rewrite take_app, Hb. rewrite take_ge by lia. f_equal.
    replace (n + i * n - n)%nat with (i * n)%nat by lia. apply IH.
Qed.

Lemma concat_drop bs i : uniform bs → drop (i * n) (concat bs) = concat (drop i bs).
Proof.
  intros Hu. revert i. induction Hu as [|b bs Hb _ IH]; intros [|i]; simpl; try done.
  - by rewrite drop_nil.
  - rewrite drop_app, Hb, drop_ge by lia. simpl.
    replace (n + i * n - n)%nat with (i * n)%nat by lia. apply IH.
Qed.

(** Replacing one block splices its bytes in. *)
Lemma concat_insert bs i b :
  uniform bs → length b = n → (i < length bs)%nat →
  concat (<[i := b]> bs) = splice (concat bs) (i * n) b.
Proof.
  intros Hu Hb Hi. unfold splice. rewrite concat_take, Hb by done.
  replace (i * n + n)%nat with (S i * n)%nat by lia. rewrite concat_drop by done.
  rewrite insert_take_drop by done. rewrite concat_app. simpl. done.
Qed.

Lemma concat_lookup_slice bs i b :
  uniform bs → bs !! i = Some b → b = slice (i * n) (S i * n) (concat bs).
Proof.
  intros Hu Hi. unfold slice. rewrite concat_drop by done.
  replace (S i * n - i * n)%nat with n by lia.
  rewrite (drop_S _ _ _ Hi). simpl. rewrite take_app_length'; [done|].
  by eapply Forall_lookup_1 in Hu.
Qed.

End Blocks.
