(* ===== verification/Storage.v ===== *)
(** The block layer of the userspace storage stack
    ([userspace/storage/src/lib.rs], [gpt.rs], [blockproto.rs]): the
    [BlockDevice] trait as a class of operations, the contract its clients rely
    on as a class of laws, the in-memory device, the partition view and the
    block protocol.

    [BlockStore] is the interface between this file and the engines above it:
    the journals of [Statefs] and [Nxfs] are proved against it, and
    [MemBlockDevice] and [PartitionView] discharge it. *)

From S2P Require Import Prelude Bytes.

Inductive BlockError :=
| IoError
| OutOfRange.

#[export] Instance BlockError_eq_dec : EqDecision BlockError.
Proof. solve_decision. Defined.

(** The trait.  [read_block] returns the contents of the caller's buffer;
    [write_block] and [sync] return the device with the result, since an error
    may leave a device changed. *)
Class BlockDevice (D : Type) := {
  block_size : D → nat;
  block_count : D → Z;
  read_block : D → Z → bytes → result bytes BlockError;
  write_block : D → Z → bytes → D * result unit BlockError;
  dev_sync : D → D * result unit BlockError
}.

(** What a client may rely on: a device in working order is an array of
    [block_count] blocks of [block_size] bytes, a read returns the block, a
    write replaces it and nothing else, and out-of-range accesses are refused
    without effect. *)
Class BlockStore (D : Type) `{BlockDevice D} := {
  dev_wf : D → Prop;
  dev_blocks : D → list bytes;
  dev_size_pos : ∀ d, dev_wf d → (0 < block_size d)%nat;
  dev_count : ∀ d, dev_wf d → block_count d = vlen (dev_blocks d);
  dev_block_ok : ∀ d, dev_wf d →
    Forall (fun b => length b = block_size d ∧ Forall is_byte b) (dev_blocks d);
  dev_read : ∀ d i buf b, dev_wf d → length buf = block_size d →
    dev_blocks d !! i = Some b → read_block d (Z.of_nat i) buf = Ok b;
  dev_read_range : ∀ d i buf, dev_wf d → block_count d ≤ i →
    read_block d i buf = Err OutOfRange;
  dev_write : ∀ d i data, dev_wf d → length data = block_size d → Forall is_byte data →
    (i < length (dev_blocks d))%nat →
    ∃ d', write_block d (Z.of_nat i) data = (d', Ok tt) ∧ dev_wf d' ∧
          block_size d' = block_size d ∧ dev_blocks d' = <[i := data]> (dev_blocks d);
  dev_write_range : ∀ d i data, dev_wf d → block_count d ≤ i →
    write_block d i data = (d, Err OutOfRange);
  dev_sync_ok : ∀ d, dev_wf d →
    ∃ d', dev_sync d = (d', Ok tt) ∧ dev_wf d' ∧
          block_size d' = block_size d ∧ dev_blocks d' = dev_blocks d
}.

(** The bytes of a device, in order. *)
Definition dev_bytes {D} `{BlockStore D} (d : D) : bytes := concat (dev_blocks d).

(** ** The in-memory device *)

Module Mem.

Record MemBlockDevice := {
  mem_block_size : nat;
  blocks : list bytes
}.

Definition new (block_size : nat) (block_count : Z) : MemBlockDevice :=
  {| mem_block_size := block_size;
     blocks := replicate (Z.to_nat block_count) (zeros block_size) |}.

Definition read_block (d : MemBlockDevice) (block_idx : Z) (buf : bytes)
    : result bytes BlockError :=
  match d.(blocks) !! Z.to_nat block_idx with
  | None => Err OutOfRange
  | Some b =>
      if (length buf <? d.(mem_block_size))%nat then Err IoError
      else Ok (b ++ drop d.(mem_block_size) buf)
  end.

Definition write_block (d : MemBlockDevice) (block_idx : Z) (buf : bytes)
    : MemBlockDevice * result unit BlockError :=
  if (length d.(blocks) <=? Z.to_nat block_idx)%nat then (d, Err OutOfRange)
  else if (length buf <? d.(mem_block_size))%nat then (d, Err IoError)
  else ({| mem_block_size := d.(mem_block_size);
           blocks := <[Z.to_nat block_idx := take d.(mem_block_size) buf]> d.(blocks) |}, Ok tt).

Definition sync (d : MemBlockDevice) : MemBlockDevice * result unit BlockError := (d, Ok tt).

#[global] Instance mem_block_device : BlockDevice MemBlockDevice := {|
  Storage.block_size := mem_block_size;
  Storage.block_count := fun d => vlen d.(blocks);
  Storage.read_block := read_block;
  Storage.write_block := write_block;
  Storage.dev_sync := sync
|}.

Definition wf (d : MemBlockDevice) : Prop :=
  (0 < d.(mem_block_size))%nat ∧
  Forall (fun b => length b = d.(mem_block_size) ∧ Forall is_byte b) d.(blocks).

Lemma new_wf sz n : (0 < sz)%nat → wf (new sz n).
Proof.
  intros H. split; [done|]. apply Forall_replicate. split; [apply length_zeros|apply zeros_byte].
Qed.

Lemma new_zeros sz n : concat (blocks (new sz n)) = zeros (Z.to_nat n * sz).
Proof.
  simpl. induction (Z.to_nat n) as [|k IH]; simpl; [done|]. by rewrite IH, zeros_app.
Qed.

#[global] Program Instance mem_block_store : BlockStore MemBlockDevice := {|
  dev_wf := wf;
  dev_blocks := blocks
|}.
Next Obligation. by intros d []. Qed.
Next Obligation. done. Qed.
Next Obligation. by intros d []. Qed.
Next Obligation.
  intros d i buf b [_ Hf] Hbuf Hi. simpl in *. unfold read_block. rewrite Nat2Z.id, Hi, Hbuf.
  rewrite Nat.ltb_irrefl, drop_ge by lia. by rewrite app_nil_r.
Qed.
Next Obligation.
  intros d i buf _ Hi. simpl in *. unfold read_block, vlen in *.
  by rewrite lookup_ge_None_2 by lia.
Qed.
Next Obligation.
  intros d i data [Hp Hf] Hlen Hb Hi. simpl in *. unfold write_block. rewrite Nat2Z.id, Hlen.
  destruct (Nat.leb_spec (length (blocks d)) i); [lia|]. rewrite Nat.ltb_irrefl.
  eexists. split; [reflexivity|]. simpl. rewrite take_ge by lia. repeat split; try done; simpl.
  by apply Forall_insert.
Qed.
Next Obligation.
  intros d i data _ Hi. simpl in *. unfold write_block, vlen in *.
  destruct (Nat.leb_spec (length (blocks d)) (Z.to_nat i)); [done|lia].
Qed.
Next Obligation. intros d Hd. exists d. done. Qed.

End Mem.

(** ** Lemmas on devices *)

Section Store.
Context {D : Type} `{BlockStore D}.

Lemma dev_block_length d i b :
  dev_wf d → dev_blocks d !! i = Some b → length b = block_size d.
Proof.
  intros Hd Hi. pose proof (dev_block_ok d Hd) as Hf. by eapply Forall_lookup_1 in Hf as [? _].
Qed.

Lemma dev_block_byte d i b :
  dev_wf d → dev_blocks d !! i = Some b → Forall is_byte b.
Proof.
  intros Hd Hi. pose proof (dev_block_ok d Hd) as Hf. by eapply Forall_lookup_1 in Hf as [_ ?].
Qed.

Lemma dev_bytes_byte d : dev_wf d → Forall is_byte (dev_bytes d).
Proof.
  intros Hd. unfold dev_bytes. apply Forall_concat.
  eapply Forall_impl; [by apply dev_block_ok|]. by intros b [].
Qed.

End Store.

(** ** The partition view ([gpt.rs]) *)

Record Partition := {
  type_guid : bytes;
  first_lba : Z;
  last_lba : Z;
  part_name : bytes
}.

Inductive GptError :=
| Io
| NoGpt
| Invalid.

#[export] Instance GptError_eq_dec : EqDecision GptError.
Proof. solve_decision. Defined.
#[export] Instance Partition_eq_dec : EqDecision Partition.
Proof. solve_decision. Defined.

Module View.
Section View.
Context {D : Type} `{BlockStore D}.

Record PartitionView := {
  inner : D;
  view_first : Z;
  view_blocks : Z
}.

Definition new (d : D) (partition : Partition) : result PartitionView GptError :=
  if (block_count d <=? partition.(last_lba))
     || (partition.(last_lba) <? partition.(first_lba)) then Err Invalid
  else Ok {| inner := d; view_first := partition.(first_lba);
             view_blocks := partition.(last_lba) - partition.(first_lba) + 1 |}.

Definition into_inner (v : PartitionView) : D := v.(inner).

Definition read_block (v : PartitionView) (block_idx : Z) (buf : bytes)
    : result bytes BlockError :=
  if v.(view_blocks) <=? block_idx then Err OutOfRange
  else Storage.read_block v.(inner) (v.(view_first) + block_idx) buf.

Definition write_block (v : PartitionView) (block_idx : Z) (buf : bytes)
    : PartitionView * result unit BlockError :=
  if v.(view_blocks) <=? block_idx then (v, Err OutOfRange)
  else let '(d, r) := Storage.write_block v.(inner) (v.(view_first) + block_idx) buf in
       ({| inner := d; view_first := v.(view_first); view_blocks := v.(view_blocks) |}, r).

Definition sync (v : PartitionView) : PartitionView * result unit BlockError :=
  let '(d, r) := dev_sync v.(inner) in
  ({| inner := d; view_first := v.(view_first); view_blocks := v.(view_blocks) |}, r).

#[global] Instance view_block_device : BlockDevice PartitionView := {|
  Storage.block_size := fun v => block_size v.(inner);
  Storage.block_count := view_blocks;
  Storage.read_block := read_block;
  Storage.write_block := write_block;
  Storage.dev_sync := sync
|}.

(** The range of the view lies inside a working device. *)
Definition wf (v : PartitionView) : Prop :=
  dev_wf v.(inner) ∧ 0 ≤ v.(view_first) ∧ 0 ≤ v.(view_blocks) ∧
  v.(view_first) + v.(view_blocks) ≤ block_count v.(inner).

Definition window (v : PartitionView) : list bytes :=
  take (Z.to_nat v.(view_blocks)) (drop (Z.to_nat v.(view_first)) (dev_blocks v.(inner))).

Lemma window_length v : wf v → vlen (window v) = v.(view_blocks).
Proof.
  intros (Hd & ? & ? & Hr). rewrite (dev_count _ Hd) in Hr. unfold window, vlen in *.
  rewrite length_take, length_drop. lia.
Qed.

Lemma window_lookup v i :
  (i < Z.to_nat v.(view_blocks))%nat →
  window v !! i = dev_blocks v.(inner) !! (Z.to_nat v.(view_first) + i)%nat.
Proof. intros Hi. unfold window. by rewrite lookup_take_lt, lookup_drop. Qed.

#[global] Program Instance view_block_store : BlockStore PartitionView := {|
  dev_wf := wf;
  dev_blocks := window
|}.
Next Obligation. intros v (Hd & _). simpl. by apply dev_size_pos. Qed.
Next Obligation. intros v Hv. simpl. by rewrite window_length. Qed.
Next Obligation.
  intros v (Hd & _). simpl. unfold window. apply Forall_take, Forall_drop. by apply dev_block_ok.
Qed.
Next Obligation.
  intros v i buf b Hv Hbuf Hi. pose proof (window_length v Hv) as Hw.
  pose proof (lookup_lt_Some _ _ _ Hi). destruct Hv as (Hd & Hf & Hb & Hr). unfold vlen in Hw.
  simpl in *. unfold read_block. destruct (Z.leb_spec (view_blocks v) (Z.of_nat i)); [lia|].
  rewrite window_lookup in Hi by lia.
  replace (view_first v + Z.of_nat i) with (Z.of_nat (Z.to_nat (view_first v) + i)) by lia.
  by apply dev_read.
Qed.
Next Obligation.
  intros v i buf Hv Hi. simpl in *. unfold read_block.
  by destruct (Z.leb_spec (view_blocks v) i); [|lia].
Qed.
Next Obligation.
  intros v i data Hv Hlen Hb Hi. pose proof (window_length v Hv) as Hw. unfold vlen in Hw.
  destruct Hv as (Hd & Hf & Hbl & Hr). simpl in *. unfold write_block.
  destruct (Z.leb_spec (view_blocks v) (Z.of_nat i)); [lia|].
  replace (view_first v + Z.of_nat i) with (Z.of_nat (Z.to_nat (view_first v) + i)) by lia.
  pose proof (dev_count _ Hd) as Hc. unfold vlen in Hc.
  destruct (dev_write (inner v) (Z.to_nat (view_first v) + i) data) as (d' & -> & Hd' & Hs & Hbs);
    [done|done|done|lia|].
  eexists. split; [reflexivity|]. simpl. unfold wf, window. simpl.
  rewrite (dev_count _ Hd'), Hbs. unfold vlen in *. rewrite length_insert.
  split_and!; try done; [lia|].
  rewrite drop_insert_ge by lia. replace (Z.to_nat (view_first v) + i - Z.to_nat (view_first v))%nat
    with i by lia. by rewrite take_insert_lt by lia.
Qed.
Next Obligation.
  intros v i data Hv Hi. simpl in *. unfold write_block.
  by destruct (Z.leb_spec (view_blocks v) i); [|lia].
Qed.
Next Obligation.
  intros v (Hd & Hf & Hb & Hr). simpl. unfold sync. destruct (dev_sync_ok _ Hd) as (d' & -> & Hd' & Hs & Hbs).
  eexists. split; [reflexivity|]. unfold wf, window. simpl.
  rewrite (dev_count _ Hd'), Hbs, <- (dev_count _ Hd). done.
Qed.

Lemma view_new_wf d p v :
  dev_wf d → 0 ≤ p.(first_lba) → new d p = Ok v → wf v.
Proof.
  unfold new. intros Hd Hp Hnew. destruct (_ || _) eqn:E; [done|]. simplify_eq. simpl_bool.
  split_and!; simpl; try done; lia.
Qed.

(** Two devices differ at most inside the range of the view. *)
Definition same_outside (v v' : PartitionView) : Prop :=
  ∀ j, (j < Z.to_nat v.(view_first) ∨ Z.to_nat (v.(view_first) + v.(view_blocks)) ≤ j)%nat →
       dev_blocks v'.(inner) !! j = dev_blocks v.(inner) !! j.

Lemma write_same_outside v i data :
  wf v → 0 ≤ i → length data = block_size (inner v) → Forall is_byte data →
  same_outside v (write_block v i data).1.
Proof.
  intros (Hd & Hf & Hb & Hr) Hi Hlen Hbyte. unfold write_block.
  destruct (Z.leb_spec (view_blocks v) i); [done|].
  pose proof (dev_count _ Hd) as Hc. unfold vlen in Hc.
  destruct (dev_write (inner v) (Z.to_nat (view_first v + i)) data) as (d' & Hw & _ & _ & Hbs);
    [done..|lia|]. rewrite Z2Nat.id in Hw by lia. rewrite Hw. simpl.
  intros j Hj. simpl. rewrite Hbs. apply list_lookup_insert_ne. lia.
Qed.

End View.
Arguments PartitionView D : clear implicits.
End View.
