(* ===== verification/BlockProto.v ===== *)
(** The partition-scoped block protocol ([userspace/storage/src/blockproto.rs]):
    the request and reply codec shared by the block server and its clients,
    with its round trips and the bounds a decoded request obeys. *)

From S2P Require Import Prelude Bytes.

Definition OP_INFO : Z := 1.
Definition OP_READ : Z := 2.
Definition OP_WRITE : Z := 3.
Definition OP_SYNC : Z := 4.
Definition PART_STATE : Z := 0.
Definition PART_DATA : Z := 1.
Definition SECTOR_SIZE : Z := 512.
Definition MAX_BLOCKS_PER_REQ : Z := 12.
Definition STATUS_OK : Z := 0.
Definition STATUS_OUT_OF_RANGE : Z := 1.
Definition STATUS_IO : Z := 2.
Definition STATUS_MALFORMED : Z := 3.
Definition STATUS_UNKNOWN_PART : Z := 4.

Inductive BlockRequest :=
| Info (part : Z)
| Read (part lba count : Z)
| Write (part lba : Z) (data : bytes)
| Sync (part : Z).

Definition encode_info (part : Z) : bytes := [OP_INFO; part].
Definition encode_read (part lba count : Z) : bytes :=
  [OP_READ; part] ++ le_bytes 8 lba ++ le_bytes 2 count.
Definition encode_write (part lba : Z) (data : bytes) : bytes :=
  [OP_WRITE; part] ++ le_bytes 8 lba ++ data.
Definition encode_sync (part : Z) : bytes := [OP_SYNC; part].

Definition decode_request (frame : bytes) : option BlockRequest :=
  match frame with
  | [] => None
  | op :: body =>
      if (op =? OP_INFO) && (length frame =? 2)%nat then
        Info <$> (frame !! 1%nat)
      else if (op =? OP_READ) && (length frame =? 12)%nat then
        part ← frame !! 1%nat;
        let lba := le_value (slice 2 10 frame) in
        let count := le_value (slice 10 12 frame) in
        if (count =? 0) || (MAX_BLOCKS_PER_REQ <? count) then None
        else Some (Read part lba count)
      else if (op =? OP_WRITE) && (10 <? length frame)%nat then
        part ← frame !! 1%nat;
        let lba := le_value (slice 2 10 frame) in
        let data := drop 10 frame in
        if bool_decide (data = []) || negb (vlen data mod SECTOR_SIZE =? 0)
           || (MAX_BLOCKS_PER_REQ <? vlen data / SECTOR_SIZE) then None
        else Some (Write part lba data)
      else if (op =? OP_SYNC) && (length frame =? 2)%nat then
        Sync <$> (frame !! 1%nat)
      else None
  end.

Definition encode_status (status : Z) : bytes := [status].
Definition encode_info_reply (block_size block_count : Z) : bytes :=
  [STATUS_OK] ++ le_bytes 4 block_size ++ le_bytes 8 block_count.
Definition decode_info_reply (frame : bytes) : option (Z * Z) :=
  if negb (length frame =? 13)%nat || negb (default (-1) (frame !! 0%nat) =? STATUS_OK) then None
  else Some (le_value (slice 1 5 frame), le_value (slice 5 13 frame)).
Definition encode_read_reply (data : bytes) : bytes := [STATUS_OK] ++ data.
Definition decode_read_reply (frame : bytes) (expect_sectors : Z) : option bytes :=
  match frame with
  | status :: data =>
      if negb (status =? STATUS_OK) then None
      else if vlen data =? expect_sectors * SECTOR_SIZE then Some data else None
  | [] => None
  end.
Definition decode_status (frame : bytes) : option Z :=
  match frame with
  | [status] => Some status
  | _ => None
  end.

(** The encoder of a request, and the requests the protocol admits. *)
Definition encode_request (r : BlockRequest) : bytes :=
  match r with
  | Info part => encode_info part
  | Read part lba count => encode_read part lba count
  | Write part lba data => encode_write part lba data
  | Sync part => encode_sync part
  end.

Definition request_ok (r : BlockRequest) : Prop :=
  match r with
  | Info part | Sync part => is_byte part
  | Read part lba count => is_byte part ∧ in_width 64 lba ∧ 1 ≤ count ≤ MAX_BLOCKS_PER_REQ
  | Write part lba data =>
      is_byte part ∧ in_width 64 lba ∧ Forall is_byte data ∧
      ∃ k, 1 ≤ k ≤ MAX_BLOCKS_PER_REQ ∧ vlen data = k * SECTOR_SIZE
  end.

(** The fields of a frame [op, part, a, b] with an eight-byte [a]. *)
Lemma frame_lba op part (a b : bytes) :
  length a = 8%nat → slice 2 10 (op :: part :: a ++ b) = a.
Proof. intros Ha. unfold slice. simpl. by apply take_app_length'. Qed.

Lemma frame_rest op part (a b : bytes) :
  length a = 8%nat → drop 10 (op :: part :: a ++ b) = b.
Proof. intros Ha. simpl. by apply drop_app_length'. Qed.

Lemma frame_count op part (a b : bytes) :
  length a = 8%nat → length b = 2%nat → slice 10 12 (op :: part :: a ++ b) = b.
Proof. intros Ha Hb. unfold slice. rewrite frame_rest by done. apply take_ge. simpl. lia. Qed.

Lemma decode_encode r : request_ok r → decode_request (encode_request r) = Some r.
Proof.
  destruct r as [part|part lba count|part lba data|part]; try done.
  - intros (_ & Hl & Hc). unfold encode_request, encode_read, decode_request.
    remember (le_bytes 8 lba) as a eqn:Ea. remember (le_bytes 2 count) as b eqn:Eb.
    assert (length a = 8%nat ∧ length b = 2%nat) as [Ha Hb] by (by subst).
    cbn [app]. rewrite frame_lba, frame_count by done. simpl length. rewrite length_app, Ha, Hb.
    simpl. subst a b. unfold MAX_BLOCKS_PER_REQ in *.
    rewrite !le_value_bytes by (unfold in_width in *; simpl; lia).
    destruct (Z.eqb_spec count 0); [lia|]. destruct (Z.ltb_spec 12 count); [lia|]. done.
  - intros (_ & Hl & _ & k & Hk & Hd). unfold encode_request, encode_write, decode_request.
    remember (le_bytes 8 lba) as a eqn:Ea. assert (Ha : length a = 8%nat) by (by subst).
    cbn [app]. rewrite frame_lba, frame_rest by done. simpl length. rewrite length_app, Ha.
    unfold SECTOR_SIZE, MAX_BLOCKS_PER_REQ, vlen in *.
    cbn [Z.eqb OP_WRITE OP_READ OP_INFO Pos.eqb andb].
    destruct (Nat.ltb_spec 10 (S (S (8 + length data)))); [|lia]. simpl.
    subst a. rewrite le_value_bytes by done. rewrite Hd, Z.mod_mul, Z.div_mul by lia. simpl.
    rewrite bool_decide_eq_false_2 by (intros ->; simpl in Hd; lia).
    by destruct (Z.ltb_spec 12 k); [lia|].
Qed.

(** A frame of at least ten bytes, split into its fields. *)
Lemma frame_split (frame : bytes) op :
  (10 ≤ length frame)%nat → frame !! 0%nat = Some op →
  ∃ part a b, frame = op :: part :: a ++ b ∧ length a = 8%nat ∧
              length b = (length frame - 10)%nat.
Proof.
  destruct frame as [|x [|p r]]; simpl; intros Hl ?; simplify_eq; [lia|].
  exists p, (take 8 r), (drop 8 r). rewrite take_drop, length_take, length_drop.
  split_and!; [done|lia|lia].
Qed.

Lemma frame_lba_inv a : length a = 8%nat → Forall is_byte a → a = le_bytes 8 (le_value a).
Proof. intros Ha Hb. rewrite <- Ha. symmetry. by apply le_bytes_value. Qed.

Lemma decode_sound frame r :
  Forall is_byte frame → decode_request frame = Some r → request_ok r ∧ frame = encode_request r.
Proof.
  intros Hb Hdec. destruct frame as [|op body]; [done|]. unfold decode_request in Hdec.
  destruct ((op =? OP_INFO) && _) eqn:E1;
    [|destruct ((op =? OP_READ) && _) eqn:E2;
      [|destruct ((op =? OP_WRITE) && _) eqn:E3;
        [|destruct ((op =? OP_SYNC) && _) eqn:E4; [|done]]]]; simpl_bool; subst op.
  - destruct body as [|p [|]]; simplify_eq/=. by apply Forall_cons in Hb as [_ [Hp _]%Forall_cons].
  - destruct (frame_split (OP_READ :: body) OP_READ) as (p & a & b & Ef & Ha & Hlb);
      [apply Nat.eqb_eq in H0; lia|done|]. apply Nat.eqb_eq in H0. rewrite Ef in *.
    rewrite H0 in Hlb. rewrite frame_lba, frame_count in Hdec by done. simpl in Hdec.
    apply Forall_cons in Hb as [_ [Hp [Hba Hbb]%Forall_app]%Forall_cons].
    destruct (_ || _) eqn:Ec; simplify_eq. simpl_bool.
    unfold encode_request, encode_read. simpl request_ok.
    pose proof (le_value_bound a Hba) as Hla. rewrite Ha in Hla.
    pose proof (le_value_bound b Hbb) as Hbw. unfold in_width in Hbw.
    unfold MAX_BLOCKS_PER_REQ in *. split; [split_and!; [done|done|lia|done]|].
    rewrite <- frame_lba_inv by done. replace 2%nat with (length b) by done.
    rewrite le_bytes_value by done. done.
  - destruct (frame_split (OP_WRITE :: body) OP_WRITE) as (p & a & b & Ef & Ha & Hlb);
      [apply Nat.ltb_lt in H0; lia|done|]. rewrite Ef in *. clear Ef.
    rewrite frame_lba, frame_rest in Hdec by done. simpl in Hdec.
    apply Forall_cons in Hb as [_ [Hp [Hba Hbb]%Forall_app]%Forall_cons].
    destruct (_ || _) eqn:Ec; simplify_eq. simpl_bool.
    pose proof (le_value_bound a Hba) as Hla. rewrite Ha in Hla.
    assert (Hpos : 0 < vlen b) by (destruct b; [done|unfold vlen; simpl; lia]).
    unfold SECTOR_SIZE, MAX_BLOCKS_PER_REQ in *.
    split; [simpl; split_and!; try done; exists (vlen b / 512); unfold SECTOR_SIZE|].
    + unfold MAX_BLOCKS_PER_REQ. pose proof (Z.div_mod (vlen b) 512). lia.
    + unfold encode_request, encode_write. by rewrite <- frame_lba_inv.
  - destruct body as [|p [|]]; simplify_eq/=. by apply Forall_cons in Hb as [_ [Hp _]%Forall_cons].
Qed.

(** The block protocol is a bijection between admissible requests and
    accepted frames: a frame decodes to a request exactly when the request is
    within the protocol's bounds (1 to 12 sectors, whole sectors) and the frame
    is its encoding, so client and server cannot disagree on the wire, and
    every reply round-trips. *)
Theorem block_protocol_codec frame r :
  Forall is_byte frame →
  (decode_request frame = Some r ↔ request_ok r ∧ frame = encode_request r) ∧
  (∀ size count, in_width 32 size → in_width 64 count →
     decode_info_reply (encode_info_reply size count) = Some (size, count)) ∧
  (∀ data sectors, decode_read_reply (encode_read_reply data) sectors =
     if vlen data =? sectors * SECTOR_SIZE then Some data else None) ∧
  (∀ status, decode_status (encode_status status) = Some status).
Proof.
  intros Hb. split_and!; [|intros size count Hs Hc|done|done].
  - split; [by apply decode_sound|]. intros [Hr ->]. by apply decode_encode.
  - unfold decode_info_reply, encode_info_reply.
    remember (le_bytes 4 size) as a eqn:Ea. remember (le_bytes 8 count) as b eqn:Eb.
    assert (length a = 4%nat ∧ length b = 8%nat) as [Ha Hlb] by (by subst).
    cbn [app]. cbn [length]. rewrite length_app, Ha, Hlb. simpl. unfold slice. simpl.
    rewrite (take_app_length' a b), (drop_app_length' a b), (take_ge b) by lia. subst a b.
    by rewrite !le_value_bytes.
Qed.

Lemma block_protocol_codec_witness :
  ∃ frame r, Forall is_byte frame ∧ decode_request frame = Some r ∧ frame = encode_request r.
Proof.
  exists (encode_read PART_DATA 42 3), (Read PART_DATA 42 3).
  assert (Hb : Forall is_byte (encode_read PART_DATA 42 3))
    by (vm_compute; repeat constructor; intros [=]).
  split; [exact Hb|].
  assert (Hd : decode_request (encode_read PART_DATA 42 3) = Some (Read PART_DATA 42 3))
    by (vm_compute; reflexivity).
  split; [exact Hd|].
  exact (proj2 (proj1 (proj1 (block_protocol_codec _ (Read PART_DATA 42 3) Hb)) Hd)).
Defined.
