(* ===== verification/Gpt.v ===== *)
(** The partition table ([userspace/storage/src/gpt.rs]): the checksum, the
    bounded parser of the primary table, the formatter, and their round trip.
    [entries_lba + i] is a [u64] addition and wraps. *)

From S2P Require Import Prelude Bytes Storage.

#[local] Arguments le_bytes : simpl never.
#[local] Arguments zeros : simpl never.

(** "EFI PART". *)
Definition GPT_SIGNATURE : bytes := [69; 70; 73; 32; 80; 65; 82; 84].
Definition HEADER_LBA : Z := 1.
Definition MAX_ENTRIES : Z := 128.
Definition ENTRY_SIZE : nat := 128.

(** "NEXUS-STATE-v1\0\0" and "NEXUS-DATA-v1\0\0\0". *)
Definition GUID_NEXUS_STATE : bytes :=
  [78; 69; 88; 85; 83; 45; 83; 84; 65; 84; 69; 45; 118; 49; 0; 0].
Definition GUID_NEXUS_DATA : bytes :=
  [78; 69; 88; 85; 83; 45; 68; 65; 84; 65; 45; 118; 49; 0; 0; 0].

Definition crc32_ieee (data : bytes) : Z := crc32 0xEDB88320 data.

(** The name: UTF-16 code units up to the first zero, everything outside
    printable ASCII as ['?']. *)
Fixpoint decode_name (l : bytes) : bytes :=
  match l with
  | lo :: hi :: l' =>
      let code := lo + 256 * hi in
      if code =? 0 then []
      else (if (0x20 <=? code) && (code <? 0x7F) then code else 63) :: decode_name l'
  | _ => []
  end.

(** One slot of the table: unused, a partition, or invalid. *)
Definition parse_entry (device_blocks : Z) (entry : bytes) : result (option Partition) GptError :=
  let type_guid := slice 0 16 entry in
  if bool_decide (type_guid = zeros 16) then Ok None
  else
    let first := le_value (slice 32 40 entry) in
    let last := le_value (slice 40 48 entry) in
    if (first =? 0) || (last <? first) || (device_blocks <=? last) then Err Invalid
    else Ok (Some {| type_guid := type_guid; first_lba := first; last_lba := last;
                     part_name := decode_name (slice 56 128 entry) |}).

Fixpoint parse_entries (device_blocks : Z) (n : nat) (table : bytes)
    : result (list Partition) GptError :=
  match n with
  | O => Ok []
  | S n' =>
      let? p := parse_entry device_blocks (take ENTRY_SIZE table) in
      let? ps := parse_entries device_blocks n' (drop ENTRY_SIZE table) in
      Ok (match p with Some q => q :: ps | None => ps end)
  end.

(** [a.div_ceil(b)]. *)
Definition div_ceil (a b : nat) : nat := ((a + (b - 1)) / b)%nat.

Section Gpt.
Context {D : Type} `{BlockDevice D}.

(** The table, block by block. *)
Fixpoint read_table (d : D) (lba : Z) (n : nat) : result bytes GptError :=
  match n with
  | O => Ok []
  | S n' =>
      match read_block d lba (zeros (block_size d)) with
      | Err _ => Err Io
      | Ok b =>
          let? rest := read_table d (wrapping_add 64 lba 1) n' in
          Ok (b ++ rest)
      end
  end.

Definition parse_gpt (d : D) : result (list Partition) GptError :=
  let sector := block_size d in
  if (sector <? 92)%nat then Err Invalid
  else
    match read_block d HEADER_LBA (zeros sector) with
    | Err _ => Err Io
    | Ok header =>
        if negb (bool_decide (slice 0 8 header = GPT_SIGNATURE)) then Err NoGpt
        else
          let header_size := le_value (slice 12 16 header) in
          if (header_size <? 92) || (Z.of_nat sector <? header_size) then Err Invalid
          else
            let stored_crc := le_value (slice 16 20 header) in
            let scratch := splice (take (Z.to_nat header_size) header) 16 (zeros 4) in
            if negb (crc32_ieee scratch =? stored_crc) then Err Invalid
            else
              let entries_lba := le_value (slice 72 80 header) in
              let entry_count := le_value (slice 80 84 header) in
              let entry_size := le_value (slice 84 88 header) in
              let entries_crc := le_value (slice 88 92 header) in
              if negb (entry_size =? Z.of_nat ENTRY_SIZE) || (entry_count =? 0)
                 || (MAX_ENTRIES <? entry_count) then Err Invalid
              else
                let table_bytes := (Z.to_nat entry_count * ENTRY_SIZE)%nat in
                let? table := read_table d entries_lba (div_ceil table_bytes sector) in
                if negb (crc32_ieee (take table_bytes table) =? entries_crc) then Err Invalid
                else parse_entries (block_count d) (Z.to_nat entry_count) table
    end.

Definition find_partition (ps : list Partition) (guid : bytes) : option Partition :=
  snd <$> list_find (fun p => p.(type_guid) = guid) ps.

(** ** The formatter *)

(** The name field: one UTF-16 unit per byte, at most 35 of them. *)
Definition encode_name (name : bytes) : bytes :=
  let units := concat (map (fun ch => [ch; 0]) (take 35 name)) in
  units ++ zeros (72 - length units).

Definition encode_entry (p : Partition) : bytes :=
  p.(type_guid) ++ p.(type_guid) ++ le_bytes 8 p.(first_lba) ++ le_bytes 8 p.(last_lba)
  ++ zeros 8 ++ encode_name p.(part_name).

Definition encode_table (ps : list Partition) : bytes :=
  concat (map encode_entry ps) ++ zeros ((128 - length ps) * ENTRY_SIZE).

(** The header with a given checksum field. *)
Definition encode_header (sector : nat) (crc entries_crc : Z) : bytes :=
  GPT_SIGNATURE ++ le_bytes 4 0x00010000 ++ le_bytes 4 92 ++ le_bytes 4 crc ++ zeros 4
  ++ le_bytes 8 HEADER_LBA ++ zeros 40 ++ le_bytes 8 2 ++ le_bytes 4 128
  ++ le_bytes 4 (Z.of_nat ENTRY_SIZE) ++ le_bytes 4 entries_crc ++ zeros (sector - 92).

Fixpoint write_table (d : D) (lba : Z) (n : nat) (table : bytes) : D * result unit GptError :=
  match n with
  | O => (d, Ok tt)
  | S n' =>
      match write_block d lba (take (block_size d) table) with
      | (d', Err _) => (d', Err Io)
      | (d', Ok _) => write_table d' (lba + 1) n' (drop (block_size d) table)
      end
  end.

Definition write_gpt (d : D) (ps : list Partition) : D * result unit GptError :=
  let sector := block_size d in
  if (sector <? 128)%nat || (MAX_ENTRIES <? vlen ps) then (d, Err Invalid)
  else
    let table := encode_table ps in
    let entries_crc := crc32_ieee table in
    let crc := crc32_ieee (take 92 (encode_header sector 0 entries_crc)) in
    let header := encode_header sector crc entries_crc in
    match write_block d HEADER_LBA header with
    | (d1, Err _) => (d1, Err Io)
    | (d1, Ok _) =>
        let table_blocks := div_ceil (128 * ENTRY_SIZE) sector in
        let padded := table ++ zeros (table_blocks * sector - 128 * ENTRY_SIZE) in
        match write_table d1 2 table_blocks padded with
        | (d2, Err e) => (d2, Err e)
        | (d2, Ok _) =>
            match dev_sync d2 with
            | (d3, Err _) => (d3, Err Io)
            | (d3, Ok _) => (d3, Ok tt)
            end
        end
    end.

End Gpt.

(** ** Slots *)

(** What the formatter is given: a 16-byte type, a range inside the device, a
    printable name that fits. *)
Definition partition_ok (device_blocks : Z) (p : Partition) : Prop :=
  length p.(type_guid) = 16%nat ∧ Forall is_byte p.(type_guid) ∧ p.(type_guid) ≠ zeros 16 ∧
  0 < p.(first_lba) ≤ p.(last_lba) ∧ p.(last_lba) < device_blocks ∧ device_blocks ≤ 2 ^ 64 ∧
  Forall (fun c => 0x20 ≤ c < 0x7F) p.(part_name) ∧ (length p.(part_name) ≤ 35)%nat.

Lemma units_length name : length (concat (map (fun ch : Z => [ch; 0]) name)) = (2 * length name)%nat.
Proof. induction name as [|c name IH]; simpl; [done|]. rewrite IH. lia. Qed.

Lemma encode_name_length name : length (encode_name name) = 72%nat.
Proof.
  unfold encode_name. rewrite length_app, length_zeros, units_length, length_take. lia.
Qed.

Lemma decode_encode_name name :
  Forall (fun c => 0x20 ≤ c < 0x7F) name → (length name ≤ 35)%nat →
  decode_name (encode_name name) = name.
Proof.
  intros Hp Hl. unfold encode_name. rewrite take_ge by lia.
  assert (Hm : ∀ m, (2 ≤ m)%nat → decode_name (concat (map (fun ch => [ch; 0]) name) ++ zeros m) = name).
  { intros m Hm. clear Hl. induction Hp as [|c name Hc _ IH]; simpl.
    - by destruct m as [|[|m]]; [lia|lia|].
    - rewrite Z.add_0_r. destruct (Z.eqb_spec c 0); [lia|].
      destruct (Z.leb_spec 32 c); [|lia]. destruct (Z.ltb_spec c 127); [|lia]. simpl. by rewrite IH. }
  apply Hm. rewrite units_length. lia.
Qed.

Lemma encode_entry_length p : length p.(type_guid) = 16%nat → length (encode_entry p) = ENTRY_SIZE.
Proof.
  intros Hg. unfold encode_entry, ENTRY_SIZE.
  rewrite !length_app, Hg, !le_bytes_length, length_zeros, encode_name_length. lia.
Qed.

Lemma parse_encode_entry n p : partition_ok n p → parse_entry n (encode_entry p) = Ok (Some p).
Proof.
  intros (Hg & Hgb & Hgz & Hfl & Hl & Hn & Hname & Hnl). unfold parse_entry, encode_entry.
  pose proof (encode_name_length (part_name p)) as Hnm.
  destruct p as [g f l nm]. cbn [type_guid first_lba last_lba part_name] in *.
  rewrite slice_start, bool_decide_eq_false_2 by done.
  rewrite (app_assoc g), slice_at by (rewrite ?length_app, ?le_bytes_length; lia).
  rewrite (app_assoc (g ++ g)), slice_at by (rewrite ?length_app, ?le_bytes_length; lia).
  rewrite !le_value_bytes by (unfold in_width; simpl; lia).
  destruct (Z.eqb_spec f 0); [lia|]. destruct (Z.ltb_spec l f); [lia|].
  destruct (Z.leb_spec n l); [lia|]. cbn [orb]. do 3 f_equal.
  rewrite (app_assoc (_ ++ le_bytes 8 f)), (app_assoc _ (zeros 8)).
  rewrite slice_end by (rewrite ?length_app, ?le_bytes_length, ?length_zeros; lia).
  by apply decode_encode_name.
Qed.

Lemma parse_entry_zeros n : parse_entry n (zeros ENTRY_SIZE) = Ok None.
Proof. unfold parse_entry. by rewrite bool_decide_eq_true_2. Qed.

Lemma parse_entries_zeros n k rest : parse_entries n k (zeros (k * ENTRY_SIZE) ++ rest) = Ok [].
Proof.
  induction k as [|k IH]; cbn [parse_entries]; [done|].
  replace (S k * ENTRY_SIZE)%nat with (ENTRY_SIZE + k * ENTRY_SIZE)%nat by lia.
  rewrite <- zeros_app, <- app_assoc.
  rewrite take_app_length', drop_app_length' by (by rewrite length_zeros).
  rewrite parse_entry_zeros. cbn [result_bind]. by rewrite IH.
Qed.

Lemma parse_entries_table n ps k rest :
  Forall (partition_ok n) ps →
  parse_entries n (length ps + k) (concat (map encode_entry ps) ++ zeros (k * ENTRY_SIZE) ++ rest)
    = Ok ps.
Proof.
  induction 1 as [|p ps Hp _ IH]; [apply parse_entries_zeros|].
  pose proof Hp as (Hg & _). pose proof (encode_entry_length p Hg) as Hl.
  cbn [length Nat.add parse_entries map concat]. rewrite <- app_assoc.
  rewrite take_app_length', drop_app_length', parse_encode_entry, IH by done. done.
Qed.

(** What the parser lets through lies inside the device. *)
Lemma parse_entries_sound n k table ps :
  Forall is_byte table → parse_entries n k table = Ok ps →
  (length ps ≤ k)%nat ∧ Forall (fun p => 0 < p.(first_lba) ≤ p.(last_lba) ∧ p.(last_lba) < n) ps.
Proof.
  revert table ps. induction k as [|k IH]; intros table ps Hb Hp; cbn [parse_entries] in Hp.
  { simplify_eq. split; [done|constructor]. }
  unfold parse_entry in Hp.
  set (f := le_value (slice 32 40 (take ENTRY_SIZE table))) in *.
  assert (Hf : 0 ≤ f) by (apply le_value_bound, slice_byte; by apply Forall_take).
  destruct (bool_decide _) in Hp; cbn [result_bind] in Hp.
  - destruct (parse_entries _ _ _) as [ps'|] eqn:E; simplify_eq/=.
    apply IH in E as [? ?]; [|by apply Forall_drop]. split; [lia|done].
  - destruct (_ || _) eqn:Ec; [done|]. cbn [result_bind] in Hp.
    destruct (parse_entries _ _ _) as [ps'|] eqn:E; simplify_eq/=.
    apply IH in E as [? ?]; [|by apply Forall_drop]. simpl_bool.
    split; [lia|]. constructor; [simpl; fold f; lia|done].
Qed.

(** ** The table on a device *)

Section Device.
Context {D : Type} `{BlockStore D}.

Lemma read_table_blocks d n i :
  dev_wf d → (i + n ≤ length (dev_blocks d))%nat → block_count d ≤ 2 ^ 64 →
  read_table d (Z.of_nat i) n = Ok (concat (take n (drop i (dev_blocks d)))).
Proof.
  intros Hd. revert i. induction n as [|n IH]; intros i Hi Hc; cbn [read_table]; [by rewrite take_0|].
  destruct (lookup_lt_is_Some_2 (dev_blocks d) i) as [b Hb]; [lia|].
  rewrite (dev_read d i _ b Hd (length_zeros _) Hb).
  rewrite (drop_S _ _ _ Hb). cbn [take concat].
  destruct n as [|n].
  { cbn [read_table result_bind]. by rewrite take_0. }
  pose proof (dev_count d Hd) as Hn. unfold vlen in Hn.
  replace (wrapping_add 64 (Z.of_nat i) 1) with (Z.of_nat (S i))
    by (unfold wrapping_add; rewrite Z.mod_small; lia).
  by rewrite IH by lia.
Qed.

Lemma write_table_blocks d n i bs :
  dev_wf d → (i + n ≤ length (dev_blocks d))%nat → length bs = n →
  Forall (fun b => length b = block_size d ∧ Forall is_byte b) bs →
  ∃ d', write_table d (Z.of_nat i) n (concat bs) = (d', Ok tt) ∧ dev_wf d' ∧
    block_size d' = block_size d ∧
    dev_blocks d' = take i (dev_blocks d) ++ bs ++ drop (i + n) (dev_blocks d).
Proof.
  intros Hd. revert d i bs Hd. induction n as [|n IH]; intros d i bs Hd Hi Hl Hb; cbn [write_table].
  { destruct bs; [|done]. exists d. rewrite Nat.add_0_r. simpl. by rewrite take_drop. }
  destruct bs as [|b bs]; [done|]. apply Forall_cons in Hb as [[Hbl Hbb] Hb]. simpl in Hl.
  cbn [concat]. rewrite take_app_length', drop_app_length' by done.
  destruct (dev_write d i b) as (d1 & -> & Hd1 & Hs1 & Hb1); [done|done|done|lia|].
  replace (Z.of_nat i + 1) with (Z.of_nat (S i)) by lia.
  destruct (IH d1 (S i) bs) as (d' & -> & Hd' & Hs' & Hb');
    [done|rewrite Hb1, length_insert; lia|lia|by rewrite Hs1|].
  exists d'. split_and!; try done; [congruence|].
  rewrite Hb', Hb1. rewrite drop_insert_lt by lia.
  rewrite (take_S_r _ _ b) by (rewrite list_lookup_insert_eq; [done|lia]).
  rewrite take_insert_ge by lia. rewrite <- app_assoc. simpl.
  by replace (i + S n)%nat with (S (i + n)) by lia.
Qed.

(** A byte string cut into whole blocks. *)
Fixpoint chunks (n bs : nat) (l : bytes) : list bytes :=
  match n with
  | O => []
  | S n' => take bs l :: chunks n' bs (drop bs l)
  end.

Lemma chunks_length n bs l : length (chunks n bs l) = n.
Proof. revert l. induction n; intros l; simpl; auto. Qed.

Lemma chunks_concat n bs l : length l = (n * bs)%nat → concat (chunks n bs l) = l.
Proof.
  revert l. induction n as [|n IH]; intros l Hl; simpl.
  { by destruct l. }
  rewrite IH by (rewrite length_drop; lia). apply take_drop.
Qed.

Lemma chunks_ok n bs l :
  length l = (n * bs)%nat → Forall is_byte l →
  Forall (fun b => length b = bs ∧ Forall is_byte b) (chunks n bs l).
Proof.
  revert l. induction n as [|n IH]; intros l Hl Hb; simpl; constructor.
  - split; [rewrite length_take; lia|by apply Forall_take].
  - apply IH; [rewrite length_drop; lia|by apply Forall_drop].
Qed.

(** *** The header *)

Lemma header_length sector crc ecrc :
  (92 ≤ sector)%nat → length (encode_header sector crc ecrc) = sector.
Proof.
  intros Hs. unfold encode_header.
  rewrite !length_app, !le_bytes_length, !length_zeros. change (length GPT_SIGNATURE) with 8%nat. lia.
Qed.

Lemma header_byte sector crc ecrc : Forall is_byte (encode_header sector crc ecrc).
Proof.
  unfold encode_header. repeat apply Forall_app_2; auto using le_bytes_byte, zeros_byte.
  repeat constructor; unfold is_byte; lia.
Qed.

Lemma header_scratch sector crc ecrc :
  splice (take 92 (encode_header sector crc ecrc)) 16 (zeros 4) =
  take 92 (encode_header sector 0 ecrc).
Proof. reflexivity. Qed.

Lemma crc32_ieee_width data : Forall is_byte data → in_width 32 (crc32_ieee data).
Proof. intros. apply crc32_width; [unfold in_width; lia|done..]. Qed.

Lemma encode_table_length ps :
  Forall (fun p => length p.(type_guid) = 16%nat) ps → (length ps ≤ 128)%nat →
  length (encode_table ps) = (128 * ENTRY_SIZE)%nat.
Proof.
  intros Hg Hn. unfold encode_table. rewrite length_app, length_zeros, (concat_length ENTRY_SIZE).
  - rewrite length_map. rewrite <- Nat.mul_add_distr_r. f_equal. lia.
  - apply Forall_map. eapply Forall_impl; [exact Hg|]. intros p. apply encode_entry_length.
Qed.

Lemma encode_entry_byte n p : partition_ok n p → Forall is_byte (encode_entry p).
Proof.
  intros (_ & Hg & _ & _ & _ & _ & Hname & _). unfold encode_entry, encode_name.
  repeat apply Forall_app_2; auto using le_bytes_byte, zeros_byte.
  apply Forall_concat, Forall_map, Forall_take. eapply Forall_impl; [exact Hname|].
  intros c Hc. simpl in Hc. apply Forall_cons. rewrite Forall_singleton. unfold is_byte. lia.
Qed.

Lemma encode_table_byte n ps : Forall (partition_ok n) ps → Forall is_byte (encode_table ps).
Proof.
  intros Hp. unfold encode_table. apply Forall_app_2; [|apply zeros_byte].
  apply Forall_concat, Forall_map. eapply Forall_impl; [exact Hp|]. intros p. apply encode_entry_byte.
Qed.

(** The parser on a device whose second block is a formatted header and whose
    table follows. *)
Lemma parse_formatted d ps pad :
  dev_wf d → (128 ≤ block_size d)%nat → block_count d ≤ 2 ^ 64 → (length ps ≤ 128)%nat →
  Forall (partition_ok (block_count d)) ps →
  let sector := block_size d in
  let n := div_ceil (128 * ENTRY_SIZE) sector in
  let ecrc := crc32_ieee (encode_table ps) in
  let crc := crc32_ieee (take 92 (encode_header sector 0 ecrc)) in
  dev_blocks d !! 1%nat = Some (encode_header sector crc ecrc) →
  (2 + n ≤ length (dev_blocks d))%nat →
  concat (take n (drop 2 (dev_blocks d))) = encode_table ps ++ pad →
  parse_gpt d = Ok ps.
Proof.
  intros Hd Hs Hc Hl Hok sector n ecrc crc Hh Hfit Htab. unfold parse_gpt. fold sector.
  destruct (Nat.ltb_spec sector 92); [lia|].
  pose proof (dev_read d 1 _ _ Hd (length_zeros _) Hh) as Hr. fold sector in Hr.
  change (Z.of_nat 1) with HEADER_LBA in Hr. rewrite Hr.
  assert (Hew : in_width 32 ecrc) by (by eapply crc32_ieee_width, encode_table_byte).
  assert (Hcw : in_width 32 crc) by (apply crc32_ieee_width, Forall_take, header_byte).
  change (slice 0 8 (encode_header sector crc ecrc)) with GPT_SIGNATURE.
  rewrite bool_decide_eq_true_2 by done. cbn [negb].
  change (le_value (slice 12 16 (encode_header sector crc ecrc))) with 92.
  destruct (Z.ltb_spec 92 92); [lia|]. destruct (Z.ltb_spec (Z.of_nat sector) 92); [lia|]. cbn [orb].
  change (Z.to_nat 92) with 92%nat. rewrite header_scratch. fold crc.
  change (slice 16 20 (encode_header sector crc ecrc)) with (le_bytes 4 crc).
  rewrite le_value_bytes by done. rewrite Z.eqb_refl. cbn [negb].
  change (le_value (slice 72 80 (encode_header sector crc ecrc))) with (Z.of_nat 2).
  change (le_value (slice 80 84 (encode_header sector crc ecrc))) with 128.
  change (le_value (slice 84 88 (encode_header sector crc ecrc))) with 128.
  change (slice 88 92 (encode_header sector crc ecrc)) with (le_bytes 4 ecrc).
  rewrite le_value_bytes by done.
  destruct (Z.eqb_spec 128 (Z.of_nat ENTRY_SIZE)); [|done]. destruct (Z.eqb_spec 128 0); [done|].
  destruct (Z.ltb_spec MAX_ENTRIES 128); [done|]. cbn [negb orb].
  change (Z.to_nat 128) with 128%nat. fold n. rewrite read_table_blocks by done.
  cbn [result_bind]. rewrite Htab.
  assert (Htl : length (encode_table ps) = (128 * ENTRY_SIZE)%nat).
  { apply encode_table_length; [|done]. eapply Forall_impl; [exact Hok|]. by intros p []. }
  rewrite take_app_length' by done. fold ecrc. rewrite Z.eqb_refl. cbn [negb].
  unfold encode_table. rewrite <- app_assoc.
  replace 128%nat with (length ps + (128 - length ps))%nat at 1 by lia. by apply parse_entries_table.
Qed.

Lemma div_ceil_cover a b : (0 < b)%nat → (a ≤ div_ceil a b * b)%nat.
Proof.
  intros Hb. unfold div_ceil. pose proof (Nat.div_mod_eq (a + (b - 1)) b).
  pose proof (Nat.mod_upper_bound (a + (b - 1)) b). nia.
Qed.

(** The formatter's effect on the blocks. *)
Lemma write_gpt_blocks d ps :
  dev_wf d → (128 ≤ block_size d)%nat → (length ps ≤ 128)%nat →
  Forall (partition_ok (block_count d)) ps →
  let sector := block_size d in
  let n := div_ceil (128 * ENTRY_SIZE) sector in
  let ecrc := crc32_ieee (encode_table ps) in
  let crc := crc32_ieee (take 92 (encode_header sector 0 ecrc)) in
  (2 + n ≤ length (dev_blocks d))%nat →
  ∃ d' bs pad, write_gpt d ps = (d', Ok tt) ∧ dev_wf d' ∧ block_size d' = sector ∧ length bs = n ∧
    concat bs = encode_table ps ++ pad ∧
    dev_blocks d' = take 2 (<[1%nat := encode_header sector crc ecrc]> (dev_blocks d)) ++ bs
                    ++ drop (2 + n) (dev_blocks d).
Proof.
  intros Hd Hs Hl Hok sector n ecrc crc Hfit. unfold write_gpt. fold sector.
  destruct (Nat.ltb_spec sector 128); [lia|]. unfold MAX_ENTRIES, vlen.
  destruct (Z.ltb_spec 128 (Z.of_nat (length ps))); [lia|]. cbn [orb]. fold ecrc crc n.
  destruct (dev_write d 1 (encode_header sector crc ecrc)) as (d1 & Hw & Hd1 & Hs1 & Hb1);
    [done|apply header_length; lia|apply header_byte|lia|].
  change (Z.of_nat 1) with HEADER_LBA in Hw. rewrite Hw.
  set (pad := zeros (n * sector - 128 * ENTRY_SIZE)).
  assert (Htl : length (encode_table ps) = (128 * ENTRY_SIZE)%nat).
  { apply encode_table_length; [|done]. eapply Forall_impl; [exact Hok|]. by intros p []. }
  assert (Hpl : length (encode_table ps ++ pad) = (n * sector)%nat).
  { unfold pad. rewrite length_app, length_zeros, Htl.
    pose proof (div_ceil_cover (128 * ENTRY_SIZE) sector ltac:(lia)) as Hcov. fold n in Hcov.
    remember (128 * ENTRY_SIZE)%nat as tb. lia. }
  assert (Hpb : Forall is_byte (encode_table ps ++ pad))
    by (apply Forall_app_2; [by eapply encode_table_byte|apply zeros_byte]).
  destruct (write_table_blocks d1 n 2 (chunks n sector (encode_table ps ++ pad)))
    as (d2 & Hwt & Hd2 & Hs2 & Hb2);
    [done|rewrite Hb1, length_insert; lia|apply chunks_length|rewrite Hs1; by apply chunks_ok|].
  rewrite chunks_concat in Hwt by done. change (Z.of_nat 2) with 2 in Hwt. rewrite Hwt.
  destruct (dev_sync_ok d2 Hd2) as (d3 & -> & Hd3 & Hs3 & Hb3).
  exists d3, (chunks n sector (encode_table ps ++ pad)), pad.
  split_and!; try done; [by rewrite Hs3, Hs2, Hs1|apply chunks_length|by apply chunks_concat|].
  rewrite Hb3, Hb2, Hb1. by rewrite drop_insert_lt by lia.
Qed.

End Device.

(** A formatted partition table reads back.  On a device with room for the
    table, formatting any list of at most 128 valid partitions succeeds, parsing
    the device returns exactly that list, and no block behind the table has
    changed. *)
Theorem gpt_roundtrip {D} `{BlockStore D} (d : D) (ps : list Partition) :
  dev_wf d → (128 ≤ block_size d)%nat → block_count d ≤ 2 ^ 64 → vlen ps ≤ MAX_ENTRIES →
  Forall (partition_ok (block_count d)) ps →
  let n := div_ceil (128 * ENTRY_SIZE) (block_size d) in
  Z.of_nat (2 + n) ≤ block_count d →
  ∃ d', write_gpt d ps = (d', Ok tt) ∧ parse_gpt d' = Ok ps ∧
        drop (2 + n) (dev_blocks d') = drop (2 + n) (dev_blocks d).
Proof.
  intros Hd Hs Hc Hl Hok n Hfit. unfold MAX_ENTRIES, vlen in Hl.
  pose proof (dev_count d Hd) as Hcnt. unfold vlen in Hcnt.
  assert (Hfit' : (2 + n ≤ length (dev_blocks d))%nat) by lia.
  destruct (write_gpt_blocks d ps) as (d' & bs & pad & Hw & Hd' & Hs' & Hbl & Hcat & Hb);
    [done|done|lia|done|done|]. fold n in Hbl, Hb.
  set (h := encode_header _ _ _) in Hb.
  assert (Ht2 : length (take 2 (<[1%nat := h]> (dev_blocks d))) = 2%nat)
    by (rewrite length_take, length_insert; lia).
  assert (Hlen : length (dev_blocks d') = length (dev_blocks d))
    by (rewrite Hb, !length_app, Ht2, Hbl, length_drop; lia).
  assert (Hcnt' : block_count d' = block_count d)
    by (rewrite (dev_count d' Hd'); unfold vlen; by rewrite Hlen, Hcnt).
  exists d'. split; [done|]. split.
  - apply (parse_formatted d' ps pad); rewrite ?Hs', ?Hcnt'; try done; [lia| | |]; fold n.
    + rewrite Hb, lookup_app_l by lia. rewrite lookup_take_lt by lia.
      rewrite list_lookup_insert_eq; [done|lia].
    + lia.
    + rewrite Hb. rewrite drop_app_length' by lia. rewrite take_app_length' by done. done.
  - rewrite Hb, app_assoc. rewrite drop_app_length'; [done|]. rewrite length_app. lia.
Qed.

(** ** Isolation *)

(** A sequence of writes through a view. *)
Definition view_writes {D} `{BlockStore D} (v : View.PartitionView D) (ws : list (Z * bytes))
    : View.PartitionView D :=
  foldl (fun v '(i, data) => (View.write_block v i data).1) v ws.

Section Isolation.
Context {D : Type} `{BlockStore D}.

Lemma view_write_wf (v : View.PartitionView D) i data :
  View.wf v → 0 ≤ i → length data = block_size v → Forall is_byte data →
  View.wf (View.write_block v i data).1 ∧
  block_size (View.write_block v i data).1 = block_size v ∧
  (View.write_block v i data).1.(View.view_first) = v.(View.view_first) ∧
  (View.write_block v i data).1.(View.view_blocks) = v.(View.view_blocks).
Proof.
  intros Hv Hi Hl Hb. pose proof (View.window_length v Hv) as Hw. unfold vlen in Hw.
  destruct (Z.leb_spec (View.view_blocks v) i) as [Hout|Hin].
  - unfold View.write_block. destruct (Z.leb_spec (View.view_blocks v) i); [done|lia].
  - destruct (dev_write (D := View.PartitionView D) v (Z.to_nat i) data) as (v' & Hwr & Hwf & Hs & _);
      [done|done|done|simpl; lia|].
    rewrite Z2Nat.id in Hwr by lia. simpl in Hwr. unfold View.write_block in *.
    destruct (Z.leb_spec (View.view_blocks v) i); [lia|].
    destruct (write_block (View.inner v) _ data) as [d' r]. simplify_eq/=. done.
Qed.

Lemma view_writes_outside ws (v : View.PartitionView D) :
  View.wf v →
  Forall (fun '(i, data) => 0 ≤ i ∧ length data = block_size v ∧ Forall is_byte data) ws →
  View.same_outside v (view_writes v ws).
Proof.
  revert v. induction ws as [|[i data] ws IH]; intros v Hv Hws; simpl; [done|].
  apply Forall_cons in Hws as [(Hi & Hl & Hb) Hws].
  destruct (view_write_wf v i data Hv Hi Hl Hb) as (Hv' & Hs' & Hf' & Hn').
  pose proof (View.write_same_outside v i data Hv Hi Hl Hb) as H1.
  assert (H2 : View.same_outside (View.write_block v i data).1
                 (view_writes (View.write_block v i data).1 ws)).
  { apply IH; [done|]. eapply Forall_impl; [exact Hws|]. intros [j b]. by rewrite Hs'. }
  intros j Hj. rewrite H2; [by apply H1|]. by rewrite Hf', Hn'.
Qed.

End Isolation.

Lemma dev_read_inv {D} `{BlockStore D} (d : D) i buf b :
  dev_wf d → 0 ≤ i → length buf = block_size d → read_block d i buf = Ok b →
  dev_blocks d !! Z.to_nat i = Some b.
Proof.
  intros Hd Hi Hl Hr. pose proof (dev_count d Hd) as Hc. unfold vlen in Hc.
  destruct (Z.leb_spec (block_count d) i); [by rewrite dev_read_range in Hr|].
  destruct (lookup_lt_is_Some_2 (dev_blocks d) (Z.to_nat i)) as [b' Hb]; [lia|].
  pose proof (dev_read d (Z.to_nat i) buf b' Hd Hl Hb) as Hr'. rewrite Z2Nat.id in Hr' by lia.
  congruence.
Qed.

Lemma read_table_byte {D} `{BlockStore D} (d : D) n lba table :
  dev_wf d → 0 ≤ lba → read_table d lba n = Ok table → Forall is_byte table.
Proof.
  intros Hd. revert lba table. induction n as [|n IH]; intros lba table Hl Ht; simpl in Ht.
  { simplify_eq. constructor. }
  destruct (read_block _ _ _) as [b|] eqn:Er; [|done].
  destruct (read_table d _ n) as [rest|] eqn:En; simplify_eq/=.
  apply dev_read_inv in Er; [|done|done|apply length_zeros].
  apply Forall_app_2; [by eapply dev_block_byte|].
  eapply IH; [|exact En]. apply Z.mod_pos_bound. lia.
Qed.

(** A parsed partition confines its user.  Every partition the parser
    returns opens as a view over the device, the view is itself a block device
    in working order, and no sequence of writes through it, in range or not,
    changes a block outside the partition's range. *)
Theorem partition_isolation {D} `{BlockStore D} (d : D) ps p ws :
  dev_wf d → parse_gpt d = Ok ps → p ∈ ps →
  Forall (fun '(i, data) => 0 ≤ i ∧ length data = block_size d ∧ Forall is_byte data) ws →
  ∃ v, View.new d p = Ok v ∧ dev_wf v ∧
    block_count v = p.(last_lba) - p.(first_lba) + 1 ∧
    ∀ j, (j < Z.to_nat p.(first_lba) ∨ Z.to_nat p.(last_lba) < j)%nat →
      dev_blocks (View.into_inner (view_writes v ws)) !! j = dev_blocks d !! j.
Proof.
  intros Hd Hp Hin Hws.
  assert (Hr : 0 < p.(first_lba) ≤ p.(last_lba) ∧ p.(last_lba) < block_count d).
  { unfold parse_gpt in Hp. destruct (_ <? _)%nat; [done|].
    destruct (read_block _ _ _) as [header|] eqn:Eh; [|done].
    destruct (negb _); [done|]. destruct (_ || _); [done|].
    destruct (negb _); [done|]. destruct (_ || _); [done|].
    destruct (read_table _ _ _) as [table|] eqn:Et; [|done]. cbn [result_bind] in Hp.
    destruct (negb _); [done|].
    apply dev_read_inv in Eh; [|done|done|apply length_zeros].
    apply read_table_byte in Et; [|done|].
    - apply parse_entries_sound in Hp as [_ Hf]; [|done]. rewrite Forall_forall in Hf. by apply Hf.
    - apply le_value_bound, slice_byte. by eapply dev_block_byte. }
  unfold View.new. destruct (Z.leb_spec (block_count d) (last_lba p)); [lia|].
  destruct (Z.ltb_spec (last_lba p) (first_lba p)); [lia|]. cbn [orb].
  eexists. split; [reflexivity|].
  set (v := View.Build_PartitionView _ _ _).
  assert (Hv : View.wf v) by (split_and!; simpl; (done || lia)).
  split_and!; [done|done|]. intros j Hj.
  pose proof (view_writes_outside ws v Hv Hws j) as Ho. unfold v in Ho. simpl in Ho.
  apply Ho. lia.
Qed.

(** A two-partition table on a small device. *)
Definition demo_gpt_device : Mem.MemBlockDevice := Mem.new 4096 16.
Definition demo_partitions : list Partition :=
  [ {| type_guid := GUID_NEXUS_STATE; first_lba := 6; last_lba := 9; part_name := [115; 116] |};
    {| type_guid := GUID_NEXUS_DATA; first_lba := 10; last_lba := 15; part_name := [100] |} ].

Lemma demo_partitions_ok : Forall (partition_ok 16) demo_partitions.
Proof.
  repeat (apply Forall_cons; split); [..|constructor];
    (split_and!; simpl; try lia; try done; repeat constructor; unfold is_byte; lia).
Qed.

Lemma gpt_roundtrip_witness :
  ∃ d', write_gpt demo_gpt_device demo_partitions = (d', Ok tt) ∧ parse_gpt d' = Ok demo_partitions.
Proof.
  destruct (gpt_roundtrip demo_gpt_device demo_partitions) as (d' & Hw & Hp & _).
  - apply Mem.new_wf. lia.
  - simpl. lia.
  - simpl. unfold vlen. simpl. lia.
  - unfold vlen, MAX_ENTRIES. simpl. lia.
  - exact demo_partitions_ok.
  - vm_compute. discriminate.
  - exists d'. split; [exact Hw|exact Hp].
Defined.

Lemma partition_isolation_witness :
  ∃ (d : Mem.MemBlockDevice) p v, parse_gpt d = Ok demo_partitions ∧ p ∈ demo_partitions ∧
    View.new d p = Ok v ∧
    dev_blocks (View.into_inner (view_writes v [(0, zeros 4096)])) !! 10%nat = dev_blocks d !! 10%nat.
Proof.
  destruct (write_gpt_blocks demo_gpt_device demo_partitions) as (d & bs & pad & Hw & Hd & Hs & _).
  - apply Mem.new_wf. lia.
  - simpl. lia.
  - simpl. lia.
  - exact demo_partitions_ok.
  - apply Nat.leb_le. vm_compute. reflexivity.
  - assert (Hp : parse_gpt d = Ok demo_partitions).
    { replace d with (write_gpt demo_gpt_device demo_partitions).1 by (rewrite Hw; reflexivity).
      vm_compute. reflexivity. }
    destruct (partition_isolation d demo_partitions
                {| type_guid := GUID_NEXUS_STATE; first_lba := 6; last_lba := 9;
                   part_name := [115; 116] |} [(0, zeros 4096)]) as (v & Hv & _ & _ & Ho).
    + exact Hd.
    + exact Hp.
    + left.
    + constructor; [|constructor]. split; [lia|]. split; [rewrite Hs; reflexivity|apply zeros_byte].
    + eexists d, _, v. split; [exact Hp|]. split; [|split; [exact Hv|]]; [left|].
      apply Ho. right. simpl. lia.
Defined.
