(* ===== verification/Statefs.v ===== *)
(** The journaled key-value store ([userspace/statefs/src/lib.rs]): the record
    format, the streaming replay and the engine, over any [BlockDevice].

    [parse_record] and [replay] follow the source; [replay_bytes] is the
    reference they are compared with in [StatefsProps]: parse records from the
    front of one byte string until the first that does not parse. *)

From S2P Require Import Prelude Bytes Storage.

Definition JOURNAL_MAGIC : Z := 0x4E585346.
Definition MAX_KEY_LEN : Z := 255.
Definition MAX_VALUE_SIZE : Z := 65536.
Definition MAX_REPLAY_RECORDS : Z := 100000.
Definition RECORD_HEADER_SIZE : nat := 15.

Inductive StatefsError :=
| NotFound
| AccessDenied
| ValueTooLarge
| KeyTooLong
| IoError
| Corrupted
| InvalidKey
| ReplayLimitExceeded.

#[export] Instance StatefsError_eq_dec : EqDecision StatefsError.
Proof. solve_decision. Defined.

(** ** Records *)

Inductive JournalOpCode :=
| Put
| Delete
| Checkpoint.

#[export] Instance JournalOpCode_eq_dec : EqDecision JournalOpCode.
Proof. solve_decision. Defined.

Definition op_code (op : JournalOpCode) : Z :=
  match op with
  | Put => 0x01
  | Delete => 0x02
  | Checkpoint => 0x03
  end.

Definition from_u8 (v : Z) : option JournalOpCode :=
  if v =? 0x01 then Some Put
  else if v =? 0x02 then Some Delete
  else if v =? 0x03 then Some Checkpoint
  else None.

Record JournalRecord := {
  op : JournalOpCode;
  key : bytes;
  value : bytes
}.

Definition crc32c (data : bytes) : Z := crc32 0x82F63B78 data.

(** The record without its checksum, then with it. *)
Definition record_body (o : JournalOpCode) (k v : bytes) : bytes :=
  le_bytes 4 JOURNAL_MAGIC ++ [op_code o] ++ le_bytes 2 (vlen k) ++ le_bytes 4 (vlen v) ++ k ++ v.

Definition serialize_record (o : JournalOpCode) (k v : bytes) : bytes :=
  let body := record_body o k v in
  body ++ le_bytes 4 (crc32c body).

#[global] Arguments serialize_record : simpl never.
#[global] Arguments record_body : simpl never.

(** The length fields of a header. *)
Definition key_len_of (data : bytes) : nat := Z.to_nat (le_value (slice 5 7 data)).
Definition value_len_of (data : bytes) : nat := Z.to_nat (le_value (slice 7 11 data)).
Definition total_len_of (data : bytes) : nat :=
  (RECORD_HEADER_SIZE + key_len_of data + value_len_of data)%nat.

Definition parse_record (data : bytes)
    : result (option (JournalRecord * nat)) StatefsError :=
  if (length data <? RECORD_HEADER_SIZE)%nat then Ok None
  else if negb (le_value (slice 0 4 data) =? JOURNAL_MAGIC) then Ok None
  else
    let? o := ok_or (from_u8 (default 0 (data !! 4%nat))) Corrupted in
    let key_len := key_len_of data in
    let value_len := value_len_of data in
    if MAX_KEY_LEN <? Z.of_nat key_len then Err Corrupted
    else if MAX_VALUE_SIZE <? Z.of_nat value_len then Err Corrupted
    else
      let total_len := (RECORD_HEADER_SIZE + key_len + value_len)%nat in
      if (length data <? total_len)%nat then Ok None
      else
        let key_end := (11 + key_len)%nat in
        let value_end := (key_end + value_len)%nat in
        let stored_crc := le_value (slice value_end (value_end + 4) data) in
        if negb (stored_crc =? crc32c (take value_end data)) then Err Corrupted
        else
          let? k := ok_or (from_utf8 (slice 11 key_end data)) Corrupted in
          Ok (Some ({| op := o; key := k; value := slice key_end value_end data |}, total_len)).

(** ** The engine *)

Definition apply_record (r : JournalRecord) (kv : gmap bytes bytes) : gmap bytes bytes :=
  match r.(op) with
  | Put => <[r.(key) := r.(value)]> kv
  | Delete => delete r.(key) kv
  | Checkpoint => kv
  end.

(** The loop variables of [replay]: [rest] is [buf[pos..buf_len]]. *)
Record replay_state := {
  rest : bytes;
  rkv : gmap bytes bytes;
  rcount : Z;
  file_pos : nat
}.

(** The inner [while] loop: parse records off the buffer; the flag is [done].
    Each round consumes a whole record, so as many rounds as the buffer has
    bytes are enough. *)
Fixpoint drain (fuel : nat) (s : replay_state) : replay_state * result bool StatefsError :=
  match fuel with
  | O => (s, Ok false)
  | S fuel' =>
      if (length s.(rest) =? 0)%nat || (MAX_REPLAY_RECORDS <=? s.(rcount)) then (s, Ok false)
      else if (length s.(rest) <? RECORD_HEADER_SIZE)%nat then (s, Ok false)
      else if bool_decide (slice 0 4 s.(rest) = le_bytes 4 JOURNAL_MAGIC)
              && (length s.(rest) <? total_len_of s.(rest))%nat then (s, Ok false)
      else
        match parse_record s.(rest) with
        | Ok (Some (r, consumed)) =>
            drain fuel' {| rest := drop consumed s.(rest);
                           rkv := apply_record r s.(rkv);
                           rcount := s.(rcount) + 1;
                           file_pos := s.(file_pos) + consumed |}
        | Ok None => (s, Ok true)
        | Err Corrupted => (s, Ok true)
        | Err e => (s, Err e)
        end
  end.

(** What replay reads of one byte string: the reference definition. *)
Fixpoint replay_bytes (fuel : nat) (s : replay_state) : replay_state :=
  match fuel with
  | O => s
  | S fuel' =>
      if MAX_REPLAY_RECORDS <=? s.(rcount) then s
      else
        match parse_record s.(rest) with
        | Ok (Some (r, consumed)) =>
            replay_bytes fuel' {| rest := drop consumed s.(rest);
                                  rkv := apply_record r s.(rkv);
                                  rcount := s.(rcount) + 1;
                                  file_pos := s.(file_pos) + consumed |}
        | _ => s
        end
  end.

(** [str::starts_with] and friends on the literals of [validate_key]. *)
Definition PREFIX_STATE : bytes := [47; 115; 116; 97; 116; 101; 47].   (* "/state/" *)
Definition STATE_DIR : bytes := [47; 115; 116; 97; 116; 101].          (* "/state" *)
Definition DOTDOT_SEG : bytes := [47; 46; 46; 47].                     (* "/../" *)
Definition DOT_SEG : bytes := [47; 46; 47].                            (* "/./" *)
Definition DOTDOT_END : bytes := [47; 46; 46].                         (* "/.." *)
Definition DOT_END : bytes := [47; 46].                                (* "/." *)

Definition validate_key (k : bytes) : result unit StatefsError :=
  if MAX_KEY_LEN <? vlen k then Err KeyTooLong
  else if negb (starts_with PREFIX_STATE k) then Err InvalidKey
  else if str_contains DOTDOT_SEG k || str_contains DOT_SEG k
          || ends_with DOTDOT_END k || ends_with DOT_END k then Err InvalidKey
  else Ok tt.

Section Engine.
Context {D : Type} `{BlockDevice D}.

Record JournalEngine := {
  device : D;
  kv : gmap bytes bytes;
  write_pos : nat;
  record_count : Z
}.

(** The outer loop of [replay] over the blocks [idxs]: read a block, append it
    to the buffer, drain the buffer. *)
Fixpoint replay_blocks (d : D) (idxs : list nat) (s : replay_state)
    : replay_state * result unit StatefsError :=
  match idxs with
  | [] => (s, Ok tt)
  | i :: idxs' =>
      match read_block d (Z.of_nat i) (zeros (block_size d)) with
      | Err _ => (s, Err IoError)
      | Ok block =>
          let s := {| rest := s.(rest) ++ block; rkv := s.(rkv);
                      rcount := s.(rcount); file_pos := s.(file_pos) |} in
          match drain (length s.(rest)) s with
          | (s', Ok done) => if (done : bool) then (s', Ok tt) else replay_blocks d idxs' s'
          | (s', Err e) => (s', Err e)
          end
      end
  end.

(** [replay] updates the map and the record count as it goes, the write
    position only at the end: an error leaves the first two as they are then. *)
Definition replay (e : JournalEngine) : JournalEngine * result unit StatefsError :=
  let s := {| rest := []; rkv := e.(kv); rcount := e.(record_count); file_pos := 0 |} in
  let '(s', r) := replay_blocks e.(device) (seq 0 (Z.to_nat (block_count e.(device)))) s in
  let e' := {| device := e.(device); kv := s'.(rkv);
               write_pos := e.(write_pos); record_count := s'.(rcount) |} in
  match r with
  | Err err => (e', Err err)
  | Ok _ =>
      if MAX_REPLAY_RECORDS <=? s'.(rcount) then (e', Err ReplayLimitExceeded)
      else ({| device := e.(device); kv := s'.(rkv);
               write_pos := s'.(file_pos); record_count := s'.(rcount) |}, Ok tt)
  end.

(** The engine before a replay. *)
Definition blank (d : D) : JournalEngine :=
  {| device := d; kv := ∅; write_pos := 0; record_count := 0 |}.

Definition open (d : D) : result JournalEngine StatefsError :=
  let '(e, r) := replay (blank d) in
  let? _ := r in Ok e.

Definition reopen (e : JournalEngine) : JournalEngine * result unit StatefsError :=
  replay (blank e.(device)).

(** The read-modify-write loop of [append_record] over the blocks [idxs];
    [off] is [record_offset].  An error leaves the blocks already written. *)
Fixpoint append_blocks (d : D) (pos : nat) (record : bytes) (off : nat) (idxs : list nat)
    : D * result unit StatefsError :=
  match idxs with
  | [] => (d, Ok tt)
  | i :: idxs' =>
      let bs := block_size d in
      match read_block d (Z.of_nat i) (zeros bs) with
      | Err _ => (d, Err IoError)
      | Ok buf =>
          let block_start_byte := (i * bs)%nat in
          let block_end_byte := (block_start_byte + bs)%nat in
          let end_byte := (pos + length record)%nat in
          let write_start := (pos - block_start_byte)%nat in
          let write_end := if (end_byte <? block_end_byte)%nat
                           then (end_byte - block_start_byte)%nat else bs in
          let chunk := (write_end - write_start)%nat in
          let buf' := splice buf write_start (slice off (off + chunk) record) in
          match write_block d (Z.of_nat i) buf' with
          | (d', Err _) => (d', Err IoError)
          | (d', Ok _) => append_blocks d' pos record (off + chunk) idxs'
          end
      end
  end.

(** [end_byte.div_ceil(block_size)]. *)
Definition div_ceil (a b : nat) : nat := ((a + (b - 1)) / b)%nat.

(** The blocks a record of [n] bytes at [pos] touches. *)
Definition record_blocks (bs pos n : nat) : list nat :=
  seq (pos / bs) (div_ceil (pos + n) bs - pos / bs).

Definition append_record (e : JournalEngine) (o : JournalOpCode) (k v : bytes)
    : JournalEngine * result unit StatefsError :=
  let record := serialize_record o k v in
  let bs := block_size e.(device) in
  let end_byte := (e.(write_pos) + length record)%nat in
  if block_count e.(device) <? Z.of_nat (div_ceil end_byte bs) then (e, Err IoError)
  else
    match append_blocks e.(device) e.(write_pos) record 0
            (record_blocks bs e.(write_pos) (length record)) with
    | (d, Err err) =>
        ({| device := d; kv := e.(kv); write_pos := e.(write_pos);
            record_count := e.(record_count) |}, Err err)
    | (d, Ok _) =>
        ({| device := d; kv := e.(kv); write_pos := end_byte;
            record_count := e.(record_count) + 1 |}, Ok tt)
    end.

Definition set_kv (e : JournalEngine) (m : gmap bytes bytes) : JournalEngine :=
  {| device := e.(device); kv := m; write_pos := e.(write_pos);
     record_count := e.(record_count) |}.

Definition put (e : JournalEngine) (k v : bytes) : JournalEngine * result unit StatefsError :=
  match validate_key k with
  | Err err => (e, Err err)
  | Ok _ =>
      if MAX_VALUE_SIZE <? vlen v then (e, Err ValueTooLarge)
      else
        match append_record e Put k v with
        | (e', Err err) => (e', Err err)
        | (e', Ok _) => (set_kv e' (<[k := v]> e'.(kv)), Ok tt)
        end
  end.

Definition get (e : JournalEngine) (k : bytes) : result bytes StatefsError :=
  let? _ := validate_key k in
  ok_or (e.(kv) !! k) NotFound.

Definition delete_key (e : JournalEngine) (k : bytes)
    : JournalEngine * result unit StatefsError :=
  match validate_key k with
  | Err err => (e, Err err)
  | Ok _ =>
      if bool_decide (is_Some (e.(kv) !! k)) then
        match append_record e Delete k [] with
        | (e', Err err) => (e', Err err)
        | (e', Ok _) => (set_kv e' (base.delete k e'.(kv)), Ok tt)
        end
      else (e, Err NotFound)
  end.

Definition list_keys (e : JournalEngine) (prefix : bytes) (limit : nat)
    : result (list bytes) StatefsError :=
  if negb (starts_with PREFIX_STATE prefix) && negb (bool_decide (prefix = STATE_DIR))
  then Err InvalidKey
  else Ok (take limit (filter (fun k => starts_with prefix k = true) (str_keys e.(kv)))).

Definition sync (e : JournalEngine) : JournalEngine * result unit StatefsError :=
  match dev_sync e.(device) with
  | (d, r) => ({| device := d; kv := e.(kv); write_pos := e.(write_pos);
                  record_count := e.(record_count) |}, map_err (fun _ => IoError) r)
  end.

Definition len (e : JournalEngine) : Z := Z.of_nat (size e.(kv)).
Definition is_empty (e : JournalEngine) : bool := bool_decide (e.(kv) = ∅).

End Engine.
Arguments JournalEngine D : clear implicits.
