(* ===== verification/StatefsProps.v ===== *)
(** Properties of the statefs record format and of its replay: records
    round-trip, the streaming replay equals the reference parse of the whole
    device, and the parse of a record depends on its own bytes only. *)

From S2P Require Import Prelude Bytes Storage Statefs.

(** ** The record format *)

(** What the engine may journal: a key and a value within the bounds. *)
Definition record_ok (k v : bytes) : Prop :=
  utf8_valid k = true ∧ Forall is_byte k ∧ Forall is_byte v ∧
  vlen k ≤ MAX_KEY_LEN ∧ vlen v ≤ MAX_VALUE_SIZE.

Lemma crc32c_width data : Forall is_byte data → in_width 32 (crc32c data).
Proof. intros. apply crc32_width; [unfold in_width; lia|done..]. Qed.

Lemma op_code_byte o : is_byte (op_code o).
Proof. unfold is_byte. destruct o; simpl; lia. Qed.

Lemma record_body_byte o k v :
  Forall is_byte k → Forall is_byte v → Forall is_byte (record_body o k v).
Proof.
  intros Hk Hv. unfold record_body.
  repeat apply Forall_app_2; auto using le_bytes_byte, op_code_byte.
Qed.

Lemma record_body_length o k v : length (record_body o k v) = (11 + length k + length v)%nat.
Proof. unfold record_body. rewrite !length_app, !le_bytes_length. simpl. lia. Qed.

Lemma serialize_length o k v :
  length (serialize_record o k v) = (RECORD_HEADER_SIZE + length k + length v)%nat.
Proof.
  unfold serialize_record, RECORD_HEADER_SIZE.
  rewrite length_app, record_body_length, le_bytes_length. lia.
Qed.

Lemma serialize_byte o k v :
  Forall is_byte k → Forall is_byte v → Forall is_byte (serialize_record o k v).
Proof. intros. apply Forall_app_2; auto using record_body_byte, le_bytes_byte. Qed.

(** The fields of a byte string that starts with a record body. *)
Section Fields.
Context (o : JournalOpCode) (k v tail : bytes).
Let data := record_body o k v ++ tail.

Lemma body_magic : slice 0 4 data = le_bytes 4 JOURNAL_MAGIC.
Proof.
  unfold data, record_body. rewrite <- !app_assoc. by apply (slice_at []).
Qed.

Lemma body_op : data !! 4%nat = Some (op_code o).
Proof.
  unfold data, record_body. rewrite <- !app_assoc. rewrite lookup_app_r by done. done.
Qed.

Lemma body_key_len : vlen k ≤ MAX_KEY_LEN → key_len_of data = length k.
Proof.
  intros Hk. unfold key_len_of, data, record_body. rewrite <- !app_assoc, (app_assoc _ [op_code o]).
  rewrite slice_at by done. unfold MAX_KEY_LEN, vlen in *.
  rewrite le_value_bytes by (unfold in_width; simpl; lia). lia.
Qed.

Lemma body_value_len : vlen v ≤ MAX_VALUE_SIZE → value_len_of data = length v.
Proof.
  intros Hv. unfold value_len_of, data, record_body.
  rewrite <- !app_assoc, (app_assoc _ [op_code o]), (app_assoc _ (le_bytes 2 _)).
  rewrite slice_at by done. unfold MAX_VALUE_SIZE, vlen in *.
  rewrite le_value_bytes by (unfold in_width; simpl; lia). lia.
Qed.

Lemma body_key : slice 11 (11 + length k) data = k.
Proof.
  unfold data, record_body.
  rewrite <- !app_assoc, (app_assoc _ [op_code o]), (app_assoc _ (le_bytes 2 _)),
    (app_assoc _ (le_bytes 4 (vlen v))).
  by apply slice_at.
Qed.

Lemma body_value : slice (11 + length k) (11 + length k + length v) data = v.
Proof.
  unfold data, record_body.
  rewrite <- !app_assoc, (app_assoc _ [op_code o]), (app_assoc _ (le_bytes 2 _)),
    (app_assoc _ (le_bytes 4 (vlen v))), (app_assoc _ k).
  apply slice_at; [rewrite length_app|]; done.
Qed.
End Fields.

Lemma from_u8_op_code o : from_u8 (op_code o) = Some o.
Proof. by destruct o. Qed.

(** A serialized record parses back to itself, whatever follows it. *)
Lemma parse_serialize o k v tail :
  record_ok k v →
  parse_record (serialize_record o k v ++ tail) =
    Ok (Some ({| op := o; key := k; value := v |}, length (serialize_record o k v))).
Proof.
  intros (Hu & Hkb & Hvb & Hk & Hv). unfold parse_record. rewrite length_app, serialize_length.
  unfold RECORD_HEADER_SIZE. destruct (Nat.ltb_spec (15 + length k + length v + length tail) 15); [lia|].
  unfold serialize_record. rewrite <- app_assoc. set (c := le_bytes 4 _ ++ tail).
  rewrite body_magic, le_value_bytes by (unfold in_width, JOURNAL_MAGIC; simpl; lia).
  rewrite Z.eqb_refl, body_op. cbn [negb]. change (default 0 (Some (op_code o))) with (op_code o).
  rewrite from_u8_op_code. cbn [ok_or result_bind].
  rewrite body_key_len, body_value_len by done. unfold vlen in Hk, Hv.
  destruct (Z.ltb_spec MAX_KEY_LEN (Z.of_nat (length k))); [lia|].
  destruct (Z.ltb_spec MAX_VALUE_SIZE (Z.of_nat (length v))); [lia|].
  destruct (Nat.ltb_spec (15 + length k + length v + length tail) (15 + length k + length v)); [lia|].
  rewrite body_key, body_value. unfold c.
  assert (Hlen : (11 + length k + length v)%nat = length (record_body o k v))
    by (by rewrite record_body_length).
  rewrite Hlen, take_app_length, slice_at by done.
  rewrite le_value_bytes by (apply crc32c_width; by apply record_body_byte).
  rewrite Z.eqb_refl. cbn [negb]. unfold from_utf8. rewrite Hu. done.
Qed.

(** A header that is complete and not waiting for more bytes parses the same
    whatever is appended. *)
Definition waiting (data : bytes) : bool :=
  bool_decide (slice 0 4 data = le_bytes 4 JOURNAL_MAGIC)
  && (length data <? total_len_of data)%nat.

Lemma total_len_app data more :
  (11 ≤ length data)%nat → total_len_of (data ++ more) = total_len_of data.
Proof.
  intros Hl. unfold total_len_of, key_len_of, value_len_of.
  by rewrite !slice_app_l by lia.
Qed.

Lemma magic_slice data :
  Forall is_byte data → (4 ≤ length data)%nat →
  le_value (slice 0 4 data) = JOURNAL_MAGIC ↔ slice 0 4 data = le_bytes 4 JOURNAL_MAGIC.
Proof.
  intros Hb Hl. split.
  - intros <-. replace 4%nat with (length (slice 0 4 data)) at 2 by (rewrite slice_length; lia).
    symmetry. apply le_bytes_value. by apply slice_byte.
  - intros ->. by apply le_value_bytes.
Qed.

Lemma parse_app data more :
  Forall is_byte data → (RECORD_HEADER_SIZE ≤ length data)%nat → waiting data = false →
  parse_record (data ++ more) = parse_record data.
Proof.
  intros Hb Hl Hw. unfold parse_record, RECORD_HEADER_SIZE in *. rewrite length_app.
  destruct (Nat.ltb_spec (length data + length more) 15); [lia|].
  destruct (Nat.ltb_spec (length data) 15); [lia|].
  rewrite slice_app_l by lia. destruct (Z.eqb_spec (le_value (slice 0 4 data)) JOURNAL_MAGIC) as [Hm|];
    [|done]. simpl negb. cbn iota.
  unfold waiting in Hw. apply (magic_slice data Hb) in Hm; [|lia].
  rewrite bool_decide_eq_true_2 in Hw by done. simpl in Hw. apply Nat.ltb_ge in Hw.
  rewrite lookup_app_l by lia. destruct (from_u8 _) as [o|]; [|done]. cbn [ok_or result_bind].
  unfold total_len_of, RECORD_HEADER_SIZE in Hw. unfold key_len_of, value_len_of in *.
  rewrite !slice_app_l by lia.
  set (kl := Z.to_nat (le_value (slice 5 7 data))) in *.
  set (vl := Z.to_nat (le_value (slice 7 11 data))) in *.
  destruct (_ <? _); [done|]. destruct (_ <? _); [done|].
  destruct (Nat.ltb_spec (length data + length more) (15 + kl + vl)); [lia|].
  destruct (Nat.ltb_spec (length data) (15 + kl + vl)); [lia|].
  rewrite ?slice_app_l by lia. by rewrite take_app_le by lia.
Qed.

Lemma parse_Some data r n :
  parse_record data = Ok (Some (r, n)) →
  (RECORD_HEADER_SIZE ≤ n ≤ length data)%nat ∧ n = total_len_of data ∧
  le_value (slice 0 4 data) = JOURNAL_MAGIC.
Proof.
  unfold parse_record, total_len_of, RECORD_HEADER_SIZE. intros Hp.
  destruct (Nat.ltb_spec (length data) 15); [done|].
  destruct (Z.eqb_spec (le_value (slice 0 4 data)) JOURNAL_MAGIC); [|done]. cbn [negb] in Hp.
  destruct (from_u8 _); [|done]. cbn [ok_or result_bind] in Hp.
  destruct (_ <? _); [done|]. destruct (_ <? _); [done|].
  destruct (Nat.ltb_spec (length data) (15 + key_len_of data + value_len_of data)); [done|].
  destruct (negb _); [done|]. destruct (from_utf8 _); [|done]. cbn [ok_or result_bind] in Hp.
  simplify_eq. split_and!; try done; lia.
Qed.

(** The parse of a record depends on the bytes of the record only. *)
Lemma parse_prefix data r n X :
  Forall is_byte data → parse_record data = Ok (Some (r, n)) →
  parse_record (take n data ++ X) = Ok (Some (r, n)).
Proof.
  intros Hb Hp. destruct (parse_Some _ _ _ Hp) as (Hn & Ht & Hm).
  assert (Hl : length (take n data) = n) by (rewrite length_take; lia).
  assert (Hw : waiting (take n data) = false).
  { unfold waiting. apply andb_false_iff. right. apply Nat.ltb_ge.
    rewrite <- (total_len_app _ (drop n data)), take_drop by (unfold RECORD_HEADER_SIZE in *; lia).
    lia. }
  rewrite <- (take_drop n data), parse_app in Hp; [|by apply Forall_take|lia|done].
  rewrite parse_app; [done|by apply Forall_take|lia|done].
Qed.

(** Only [Corrupted] is reported by the parser. *)
Lemma parse_Err data e : parse_record data = Err e → e = Corrupted.
Proof.
  unfold parse_record. intros Hp.
  destruct (_ <? _)%nat; [done|]. destruct (negb _); [done|].
  destruct (from_u8 _); simpl in Hp; [|congruence].
  repeat (match type of Hp with context [if ?b then _ else _] => destruct b end; try congruence).
  destruct (from_utf8 _); simpl in Hp; congruence.
Qed.

(** ** The reference replay *)

(** One parse step of the reference. *)
Definition next_state (s : replay_state) (r : JournalRecord) (n : nat) : replay_state :=
  {| rest := drop n s.(rest); rkv := apply_record r s.(rkv);
     rcount := s.(rcount) + 1; file_pos := s.(file_pos) + n |}.

(** The reference with enough fuel for its input. *)
Definition run_ref (s : replay_state) : replay_state := replay_bytes (S (length s.(rest))) s.

Lemma replay_bytes_fuel f g s :
  (length s.(rest) < f)%nat → (length s.(rest) < g)%nat → replay_bytes f s = replay_bytes g s.
Proof.
  revert g s. induction f as [|f IH]; intros [|g] s Hf Hg; try lia. simpl.
  destruct (_ <=? _); [done|]. destruct (parse_record _) as [[[r n]|]|] eqn:Ep; try done.
  apply parse_Some in Ep as (Hn & _). unfold RECORD_HEADER_SIZE in Hn.
  apply IH; simpl; rewrite length_drop; lia.
Qed.

Lemma run_ref_unfold s :
  run_ref s =
    if MAX_REPLAY_RECORDS <=? s.(rcount) then s
    else match parse_record s.(rest) with
         | Ok (Some (r, n)) => run_ref (next_state s r n)
         | _ => s
         end.
Proof.
  unfold run_ref at 1. cbn [replay_bytes]. destruct (_ <=? _); [done|].
  destruct (parse_record _) as [[[r n]|]|] eqn:Ep; try done.
  apply parse_Some in Ep as (Hn & _). unfold RECORD_HEADER_SIZE in Hn.
  apply replay_bytes_fuel; simpl; rewrite length_drop; lia.
Qed.

(** Induction along the records of the input. *)
Lemma run_ref_ind (P : replay_state → Prop) :
  (∀ s, (∀ r n, parse_record s.(rest) = Ok (Some (r, n)) → P (next_state s r n)) → P s) →
  ∀ s, P s.
Proof.
  intros Hstep s. remember (length s.(rest)) as m eqn:Hm. revert s Hm.
  induction m as [m IH] using lt_wf_ind. intros s ->. apply Hstep. intros r n Hp.
  eapply IH; [|done]. apply parse_Some in Hp as (Hn & _). unfold RECORD_HEADER_SIZE in Hn.
  simpl. rewrite length_drop. lia.
Qed.

Definition more_bytes (s : replay_state) (more : bytes) : replay_state :=
  {| rest := s.(rest) ++ more; rkv := s.(rkv); rcount := s.(rcount); file_pos := s.(file_pos) |}.

Lemma next_more s r n more :
  (n ≤ length s.(rest))%nat →
  next_state (more_bytes s more) r n = more_bytes (next_state s r n) more.
Proof. intros Hn. unfold next_state, more_bytes. simpl. by rewrite drop_app_le. Qed.

(** ** The streaming replay *)

(** Waiting for more bytes is stopping when there are none. *)
Definition stuck (s : replay_state) : Prop := run_ref s = s.

Lemma stuck_intro s :
  MAX_REPLAY_RECORDS ≤ s.(rcount) ∨
  (∀ r n, parse_record s.(rest) ≠ Ok (Some (r, n))) → stuck s.
Proof.
  intros Hs. unfold stuck. rewrite run_ref_unfold.
  destruct (Z.leb_spec MAX_REPLAY_RECORDS (rcount s)); [done|]. destruct Hs as [?|Hp]; [lia|].
  destruct (parse_record _) as [[[r n]|]|]; try done. by destruct (Hp r n).
Qed.

Lemma parse_short data r n :
  (length data < RECORD_HEADER_SIZE)%nat → parse_record data ≠ Ok (Some (r, n)).
Proof. intros Hl Hp. apply parse_Some in Hp as (Hn & _). lia. Qed.

Lemma parse_waiting data r n : waiting data = true → parse_record data ≠ Ok (Some (r, n)).
Proof.
  intros [_ Hw]%andb_true_iff Hp. apply Nat.ltb_lt in Hw.
  apply parse_Some in Hp as (Hn & Ht & _). lia.
Qed.

(** The inner loop does what the reference does on the buffered bytes, and what
    the reference would do with more bytes behind them. *)
Lemma drain_ref fuel s :
  Forall is_byte s.(rest) → (length s.(rest) ≤ fuel)%nat →
  match drain fuel s with
  | (s', Ok false) =>
      stuck s' ∧ Forall is_byte s'.(rest) ∧
      ∀ more, run_ref (more_bytes s more) = run_ref (more_bytes s' more)
  | (s', Ok true) => ∀ more, run_ref (more_bytes s more) = more_bytes s' more
  | (_, Err _) => False
  end.
Proof.
  revert s. induction fuel as [|fuel IH]; intros s Hb Hl.
  { simpl. split_and!; [|done|done]. apply stuck_intro. right. intros r n.
    apply parse_short. unfold RECORD_HEADER_SIZE. lia. }
  cbn [drain]. destruct (_ || _) eqn:E0.
  { split_and!; [|done|done]. apply stuck_intro.
    apply orb_true_iff in E0 as [E0|E0]; [apply Nat.eqb_eq in E0|apply Z.leb_le in E0; by left].
    right. intros r n. apply parse_short. unfold RECORD_HEADER_SIZE. lia. }
  apply orb_false_iff in E0 as [_ Ec].
  destruct (Nat.ltb_spec (length (rest s)) RECORD_HEADER_SIZE) as [|Hh].
  { split_and!; [|done|done]. apply stuck_intro. right. intros r n. by apply parse_short. }
  fold (waiting (rest s)). destruct (waiting (rest s)) eqn:Ew.
  { split_and!; [|done|done]. apply stuck_intro. right. intros r n. by apply parse_waiting. }
  assert (Hu : ∀ more, run_ref (more_bytes s more) =
                 match parse_record (rest s) with
                 | Ok (Some (r, n)) => run_ref (more_bytes (next_state s r n) more)
                 | _ => more_bytes s more
                 end).
  { intros more. rewrite run_ref_unfold. simpl. rewrite Ec, parse_app by done.
    destruct (parse_record (rest s)) as [[[r n]|]|] eqn:Ep; try done.
    rewrite next_more; [done|]. by apply parse_Some in Ep as ([_ ?] & _). }
  destruct (parse_record (rest s)) as [[[r n]|]|e] eqn:Ep.
  - apply parse_Some in Ep as (Hn & _). unfold RECORD_HEADER_SIZE in Hn.
    specialize (IH (next_state s r n)). unfold next_state in *. simpl in IH.
    pose proof (IH (Forall_drop _ _ _ Hb)) as IH'. rewrite length_drop in IH'.
    specialize (IH' ltac:(lia)). destruct (drain fuel _) as [s' [[]|]]; [| |done].
    + intros more. by rewrite Hu.
    + destruct IH' as (Hs & Hb' & Hm). split_and!; [done|done|]. intros more. by rewrite Hu.
  - done.
  - apply parse_Err in Ep as He. by subst e.
Qed.

(** The states agree on everything but the unread bytes. *)
Definition same_result (s s' : replay_state) : Prop :=
  s.(rkv) = s'.(rkv) ∧ s.(rcount) = s'.(rcount) ∧ s.(file_pos) = s'.(file_pos).

Section Device.
Context {D : Type} `{BlockStore D}.

Lemma replay_blocks_ref d n i s :
  dev_wf d → Forall is_byte s.(rest) → stuck s → (i + n = length (dev_blocks d))%nat →
  ∃ s', replay_blocks d (seq i n) s = (s', Ok tt) ∧
        same_result s' (run_ref (more_bytes s (concat (drop i (dev_blocks d))))).
Proof.
  intros Hd. revert i s. induction n as [|n IH]; intros i s Hb Hs Hin; cbn [seq replay_blocks].
  - exists s. split; [done|]. rewrite drop_ge by lia. unfold more_bytes. simpl. rewrite app_nil_r.
    destruct s as [r k c f]. simpl. by rewrite Hs.
  - destruct (lookup_lt_is_Some_2 (dev_blocks d) i) as [b Hi]; [lia|].
    rewrite (dev_read d i _ b Hd (length_zeros _) Hi). simpl.
    fold (more_bytes s b). set (s1 := more_bytes s b).
    assert (Hb1 : Forall is_byte (rest s1)) by (apply Forall_app_2; eauto using dev_block_byte).
    pose proof (drain_ref (length (rest s1)) s1 Hb1 (le_n _)) as Hdr. unfold s1 in Hdr at 1. simpl in Hdr.
    rewrite (drop_S _ _ _ Hi). simpl. set (tail := concat (drop (S i) (dev_blocks d))).
    assert (Hm : more_bytes s (b ++ tail) = more_bytes s1 tail)
      by (unfold more_bytes, s1; simpl; by rewrite app_assoc).
    destruct (drain _ s1) as [s2 [[]|]]; [| |done].
    + exists s2. split; [done|]. rewrite Hm, Hdr. done.
    + destruct Hdr as (Hs2 & Hb2 & Hr). destruct (IH (S i) s2 Hb2 Hs2) as (s' & -> & Hsame); [lia|].
      exists s'. split; [done|]. by rewrite Hm, Hr.
Qed.

(** What the reference makes of the whole device. *)
Definition device_ref (d : D) : replay_state :=
  run_ref {| rest := dev_bytes d; rkv := ∅; rcount := 0; file_pos := 0 |}.

Lemma replay_blank d :
  dev_wf d →
  let s := device_ref d in
  replay (blank d) =
    if MAX_REPLAY_RECORDS <=? s.(rcount) then
      ({| device := d; kv := s.(rkv); write_pos := 0; record_count := s.(rcount) |},
       Err ReplayLimitExceeded)
    else ({| device := d; kv := s.(rkv); write_pos := s.(file_pos);
             record_count := s.(rcount) |}, Ok tt).
Proof.
  intros Hd. unfold replay, blank. cbn [device kv write_pos record_count].
  pose proof (dev_count d Hd) as Hc. unfold vlen in Hc. rewrite Hc, Nat2Z.id.
  set (s0 := {| rest := []; rkv := ∅; rcount := 0; file_pos := 0 |}).
  destruct (replay_blocks_ref d (length (dev_blocks d)) 0 s0) as (s' & -> & Hk & Hr & Hf);
    [done|constructor| |lia|].
  { apply stuck_intro. right. intros r n. apply parse_short. simpl. unfold RECORD_HEADER_SIZE. lia. }
  rewrite Hk, Hr, Hf. done.
Qed.

End Device.
