(* ===== verification/StatefsDurable.v ===== *)
(** Durability of statefs: what [append_record] leaves on the device, the
    invariant that ties the engine to the bytes of its device, and what a
    reopened engine finds after any history of operations or after a crash in
    the middle of one. *)

From S2P Require Import Prelude Bytes Storage Statefs StatefsProps.

(** ** The bytes [append_record] writes *)

Section Append.
Context {D : Type} `{BlockStore D}.

Lemma dev_uniform d : dev_wf d → Forall (fun b : bytes => length b = block_size d) (dev_blocks d).
Proof. intros Hd. eapply Forall_impl; [by apply dev_block_ok|]. by intros b []. Qed.

Lemma dev_bytes_length d :
  dev_wf d → length (dev_bytes d) = (length (dev_blocks d) * block_size d)%nat.
Proof. intros Hd. apply concat_length. by apply dev_uniform. Qed.

(** Reading a block and writing it back with a window replaced. *)
Lemma dev_update d i w c :
  dev_wf d → (i < length (dev_blocks d))%nat → (w + length c ≤ block_size d)%nat →
  Forall is_byte c →
  ∃ b d', read_block d (Z.of_nat i) (zeros (block_size d)) = Ok b ∧
    write_block d (Z.of_nat i) (splice b w c) = (d', Ok tt) ∧ dev_wf d' ∧
    block_size d' = block_size d ∧ length (dev_blocks d') = length (dev_blocks d) ∧
    dev_bytes d' = splice (dev_bytes d) (i * block_size d + w) c.
Proof.
  intros Hd Hi Hw Hc. destruct (lookup_lt_is_Some_2 (dev_blocks d) i Hi) as [b Hb].
  pose proof (dev_block_length d i b Hd Hb) as Hbl.
  destruct (dev_write d i (splice b w c)) as (d' & Hwr & Hd' & Hs & Hbs);
    [done|by rewrite splice_length by lia|eauto using splice_byte, dev_block_byte|done|].
  exists b, d'. split_and!; try done.
  - apply dev_read; auto using length_zeros.
  - by rewrite Hbs, length_insert.
  - unfold dev_bytes. rewrite Hbs.
    rewrite (concat_insert (block_size d)); [|by apply dev_uniform|by rewrite splice_length by lia|done].
    rewrite (concat_lookup_slice (block_size d) _ _ _ (dev_uniform d Hd) Hb).
    replace (S i * block_size d)%nat with (i * block_size d + block_size d)%nat by lia.
    apply splice_window; [|done].
    pose proof (dev_bytes_length d Hd) as Hl. unfold dev_bytes in Hl. rewrite Hl. nia.
Qed.

(** The loop over [n] blocks from block [i] writes the part of the record that
    lies in them, nothing else. *)
Lemma append_blocks_spec n i d pos record :
  dev_wf d → Forall is_byte record → (pos < S i * block_size d)%nat →
  (i + n ≤ length (dev_blocks d))%nat →
  (0 < n → (i + n - 1) * block_size d < pos + length record)%nat →
  ∃ d', append_blocks d pos record (i * block_size d - pos) (seq i n) = (d', Ok tt) ∧
    dev_wf d' ∧ block_size d' = block_size d ∧
    length (dev_blocks d') = length (dev_blocks d) ∧
    dev_bytes d' = splice (dev_bytes d) (max pos (i * block_size d))
                     (slice (i * block_size d - pos) ((i + n) * block_size d - pos) record).
Proof.
  intros Hd Hr. revert i d Hd. induction n as [|n IH]; intros i d Hd Hpos Hin Hend.
  - exists d. split_and!; try done. rewrite Nat.add_0_r. unfold slice. rewrite Nat.sub_diag, take_0.
    pose proof (dev_bytes_length d Hd). pose proof (dev_size_pos d Hd).
    destruct (decide (max pos (i * block_size d) ≤ length (dev_bytes d))%nat).
    + by rewrite splice_nil.
    + unfold splice. rewrite take_ge, drop_ge by (simpl; lia). by rewrite !app_nil_r.
  - pose proof (dev_size_pos d Hd) as Hbs. set (bs := block_size d) in *.
    specialize (Hend ltac:(lia)). replace (i + S n - 1)%nat with (i + n)%nat in Hend by lia.
    assert (Hmul : ((i + n) * bs = i * bs + n * bs)%nat) by lia.
    assert (Hie : (i * bs < pos + length record)%nat) by lia.
    cbn [seq append_blocks]. fold bs.
    set (we := if (pos + length record <? i * bs + bs)%nat
               then (pos + length record - i * bs)%nat else bs).
    assert (Hwe : (we ≤ bs)%nat ∧ (we ≤ pos + length record - i * bs)%nat ∧ (pos - i * bs ≤ we)%nat).
    { unfold we. destruct (Nat.ltb_spec (pos + length record) (i * bs + bs)); lia. }
    set (ws := (pos - i * bs)%nat) in *. set (off := (i * bs - pos)%nat).
    set (c := slice off (off + (we - ws)) record).
    assert (Hc : length c = (we - ws)%nat) by (unfold c; rewrite slice_length; lia).
    destruct (dev_update d i ws c) as (b & d1 & Hrd & Hw & Hd1 & Hs1 & Hl1 & Hb1);
      [done|lia|lia|by apply slice_byte|].
    fold bs in Hrd, Hs1, Hb1. rewrite Hrd, Hw.
    assert (Hpos1 : max pos (i * bs) = (i * bs + ws)%nat) by lia.
    destruct n as [|n].
    + exists d1. cbn [seq append_blocks]. split_and!; try done.
      rewrite Hb1, Hpos1. f_equal. unfold c, slice.
      unfold we. destruct (Nat.ltb_spec (pos + length record) (i * bs + bs)); [|f_equal; lia].
      rewrite !take_ge; rewrite ?length_drop; try done; lia.
    + assert (Hfull : we = bs).
      { unfold we. destruct (Nat.ltb_spec (pos + length record) (i * bs + bs)); [nia|done]. }
      assert (Hoff : (off + (we - ws))%nat = (S i * block_size d1 - pos)%nat) by (rewrite Hs1; nia).
      destruct (IH (S i) d1) as (d2 & Hap & Hd2 & Hs2 & Hl2 & Hb2);
        [done|rewrite Hs1; nia|lia|rewrite Hs1; nia|].
      rewrite Hoff, Hap. exists d2. split_and!; try done; [congruence|lia|].
      rewrite Hb2, Hb1, Hs1, Hpos1.
      replace (max pos (S i * bs))%nat with (i * bs + ws + length c)%nat by lia.
      rewrite splice_splice.
      * f_equal. unfold c. rewrite <- Hs1, Hoff, Hs1.
        replace (S i + S n)%nat with (i + S (S n))%nat by lia. apply slice_slice_app. nia.
      * rewrite (dev_bytes_length d Hd). fold bs.
        pose proof (slice_length_le record (S i * bs - pos) ((S i + S n) * bs - pos)) as Hsl.
        assert ((i + S (S n)) * bs ≤ length (dev_blocks d) * bs)%nat by (apply Nat.mul_le_mono_r; lia).
        lia.
Qed.
(** The blocks of a record: the first holds its first byte, the last its last. *)
Lemma record_blocks_bounds bs pos n :
  (0 < bs)%nat → (0 < n)%nat →
  ∃ m, record_blocks bs pos n = seq (pos / bs) m ∧
       (pos / bs * bs ≤ pos < S (pos / bs) * bs)%nat ∧
       (pos + n ≤ (pos / bs + m) * bs)%nat ∧ ((pos / bs + m - 1) * bs < pos + n)%nat ∧ (0 < m)%nat ∧
       (pos / bs + m = div_ceil (pos + n) bs)%nat.
Proof.
  intros Hbs Hn. unfold record_blocks, div_ceil. eexists. split; [reflexivity|].
  pose proof (Nat.div_mod_eq pos bs). pose proof (Nat.mod_upper_bound pos bs).
  pose proof (Nat.div_mod_eq (pos + n + (bs - 1)) bs).
  pose proof (Nat.mod_upper_bound (pos + n + (bs - 1)) bs).
  set (q := (pos / bs)%nat) in *. set (c := ((pos + n + (bs - 1)) / bs)%nat) in *.
  assert (Hqc : (q < c)%nat) by nia. replace (q + (c - q))%nat with c by lia.
  split_and!; nia.
Qed.

Lemma div_ceil_le a b c : (0 < b)%nat → (div_ceil a b ≤ c)%nat ↔ (a ≤ c * b)%nat.
Proof.
  intros Hb. unfold div_ceil. pose proof (Nat.div_mod_eq (a + (b - 1)) b).
  pose proof (Nat.mod_upper_bound (a + (b - 1)) b). set (q := ((a + (b - 1)) / b)%nat) in *.
  split; intros; nia.
Qed.

(** The device after the first [j] block writes of an append holds a prefix of
    the record, the whole of it once all blocks are written. *)
Lemma append_prefix d pos record j :
  dev_wf d → Forall is_byte record → record ≠ [] →
  (div_ceil (pos + length record) (block_size d) ≤ length (dev_blocks d))%nat →
  let idxs := record_blocks (block_size d) pos (length record) in
  ∃ d' k, append_blocks d pos record 0 (take j idxs) = (d', Ok tt) ∧
    dev_wf d' ∧ block_size d' = block_size d ∧
    length (dev_blocks d') = length (dev_blocks d) ∧
    dev_bytes d' = splice (dev_bytes d) pos (take k record) ∧
    (length idxs ≤ j → length record ≤ k)%nat.
Proof.
  intros Hd Hr Hne Hfit idxs. pose proof (dev_size_pos d Hd) as Hbs.
  assert (Hn : (0 < length record)%nat) by (destruct record; [done|simpl; lia]).
  destruct (record_blocks_bounds (block_size d) pos (length record) Hbs Hn)
    as (m & Hidx & [Hlo Hhi] & Hcov & Hlast & Hm & Hceil).
  set (s := (pos / block_size d)%nat) in *.
  unfold idxs. rewrite Hidx, length_seq.
  replace (take j (seq s m)) with (seq s (min j m))
    by (rewrite <- (Nat.min_id m) at 2; rewrite take_seq; f_equal; lia).
  destruct (append_blocks_spec (min j m) s d pos record) as (d' & Hap & Hd' & Hs & Hl & Hb);
    [done..|lia| |].
  { intros Hj. assert (((s + min j m - 1) * block_size d ≤ (s + m - 1) * block_size d)%nat)
      by (apply Nat.mul_le_mono_r; lia). lia. }
  rewrite (proj2 (Nat.sub_0_le _ _) Hlo) in Hap, Hb.
  exists d', ((s + min j m) * block_size d - pos)%nat. rewrite Hap. split_and!; try done.
  - rewrite Hb. rewrite Nat.max_l by done. unfold slice. by rewrite drop_0, Nat.sub_0_r.
  - intros Hj. rewrite Nat.min_r by done. lia.
Qed.

(** An append that fits writes exactly its record at the write position. *)
Lemma append_record_ok (e : JournalEngine D) o k v :
  dev_wf e.(device) → Forall is_byte k → Forall is_byte v →
  let record := serialize_record o k v in
  (e.(write_pos) + length record ≤ length (dev_bytes e.(device)))%nat →
  ∃ d', append_record e o k v =
          ({| device := d'; kv := e.(kv); write_pos := e.(write_pos) + length record;
              record_count := e.(record_count) + 1 |}, Ok tt) ∧
    dev_wf d' ∧ block_size d' = block_size e.(device) ∧
    length (dev_blocks d') = length (dev_blocks e.(device)) ∧
    dev_bytes d' = splice (dev_bytes e.(device)) e.(write_pos) record.
Proof.
  intros Hd Hk Hv record Hfit. unfold append_record. fold record.
  pose proof (dev_count _ Hd) as Hc. unfold vlen in Hc. rewrite Hc.
  pose proof (dev_size_pos _ Hd) as Hbs. rewrite dev_bytes_length in Hfit by done.
  apply div_ceil_le in Hfit as Hceil; [|done].
  set (bs := block_size (device e)) in *. set (en := (write_pos e + length record)%nat) in *.
  destruct (Z.ltb_spec (Z.of_nat (length (dev_blocks (device e)))) (Z.of_nat (div_ceil en bs))); [lia|].
  assert (Hrl : length record = (15 + length k + length v)%nat) by apply serialize_length.
  destruct (append_prefix (device e) (write_pos e) record
              (length (record_blocks bs (write_pos e) (length record))))
    as (d' & n & Hap & Hd' & Hs & Hl & Hbytes & Hn); [done|by apply serialize_byte| |done|].
  { intros E. rewrite E in Hrl. simpl in Hrl. lia. }
  fold bs in Hap, Hs, Hn. rewrite take_ge in Hap by done. specialize (Hn ltac:(done)).
  rewrite take_ge in Hbytes by lia. rewrite Hap. exists d'. done.
Qed.

Lemma append_record_full (e : JournalEngine D) o k v :
  dev_wf e.(device) →
  (length (dev_bytes e.(device)) < e.(write_pos) + length (serialize_record o k v))%nat →
  append_record e o k v = (e, Err IoError).
Proof.
  intros Hd Hno. unfold append_record.
  pose proof (dev_count _ Hd) as Hc. unfold vlen in Hc. rewrite Hc.
  pose proof (dev_size_pos _ Hd) as Hbs. rewrite dev_bytes_length in Hno by done.
  pose proof (div_ceil_le (write_pos e + length (serialize_record o k v)) (block_size (device e))
                (length (dev_blocks (device e))) Hbs) as Hdc.
  destruct (Z.ltb_spec (Z.of_nat (length (dev_blocks (device e))))
    (Z.of_nat (div_ceil (write_pos e + length (serialize_record o k v)) (block_size (device e)))));
    [done|lia].
Qed.

End Append.

(** ** Journals

    A journal is a sequence of records; [journal_bytes] is what they occupy on
    the device and [journal_kv] the map they describe. *)

Definition record_bytes (r : JournalRecord) : bytes := serialize_record r.(op) r.(key) r.(value).
Definition journal_bytes (rs : list JournalRecord) : bytes := concat (map record_bytes rs).
Definition journal_kv (rs : list JournalRecord) (m : gmap bytes bytes) : gmap bytes bytes :=
  foldl (fun acc r => apply_record r acc) m rs.
Definition records_ok (rs : list JournalRecord) : Prop :=
  Forall (fun r => record_ok r.(key) r.(value)) rs.

Lemma journal_bytes_app rs rs' : journal_bytes (rs ++ rs') = journal_bytes rs ++ journal_bytes rs'.
Proof. unfold journal_bytes. by rewrite map_app, concat_app. Qed.

Lemma journal_bytes_one r : journal_bytes [r] = record_bytes r.
Proof. apply app_nil_r. Qed.

Lemma journal_bytes_byte rs : records_ok rs → Forall is_byte (journal_bytes rs).
Proof.
  induction 1 as [|r rs (_ & ? & ? & _) _ IH]; simpl; [constructor|].
  apply Forall_app_2; [by apply serialize_byte|done].
Qed.

(** The reference reads a journal record by record, as long as the bound on
    replayed records allows. *)
Lemma run_ref_journal rs X s :
  records_ok rs → s.(rest) = journal_bytes rs ++ X →
  s.(rcount) + Z.of_nat (length rs) ≤ MAX_REPLAY_RECORDS →
  run_ref s = run_ref {| rest := X; rkv := journal_kv rs s.(rkv);
                         rcount := s.(rcount) + Z.of_nat (length rs);
                         file_pos := s.(file_pos) + length (journal_bytes rs) |}.
Proof.
  intros Hok. revert s. induction Hok as [|r rs Hr _ IH]; intros s Hs Hc.
  - destruct s as [b m c f]. simpl in *. subst b. by rewrite Nat.add_0_r, Z.add_0_r.
  - cbn [length] in Hc. rewrite run_ref_unfold. destruct (Z.leb_spec MAX_REPLAY_RECORDS (rcount s)); [lia|].
    rewrite Hs. unfold journal_bytes. cbn [map concat]. rewrite <- app_assoc.
    destruct r as [o k v]. change (record_bytes _) with (serialize_record o k v).
    rewrite parse_serialize by done.
    rewrite IH; cbn [next_state rest rkv rcount file_pos].
    + f_equal. f_equal; [cbn [length]; lia|].
      rewrite length_app. unfold journal_bytes. lia.
    + rewrite Hs. unfold journal_bytes. cbn [map concat]. rewrite <- app_assoc.
      by rewrite drop_app_length.
    + lia.
Qed.

(** A journal that reaches the bound stops there, whatever it holds. *)
Lemma run_ref_limit rs X s :
  records_ok rs → s.(rest) = journal_bytes rs ++ X → 0 ≤ s.(rcount) ≤ MAX_REPLAY_RECORDS →
  MAX_REPLAY_RECORDS ≤ s.(rcount) + Z.of_nat (length rs) →
  (run_ref s).(rcount) = MAX_REPLAY_RECORDS ∧
  (run_ref s).(rkv) = journal_kv (take (Z.to_nat (MAX_REPLAY_RECORDS - s.(rcount))) rs) s.(rkv).
Proof.
  intros Hok Hs Hc Hl. set (n := Z.to_nat (MAX_REPLAY_RECORDS - rcount s)).
  rewrite (run_ref_journal (take n rs) (journal_bytes (drop n rs) ++ X)).
  - rewrite run_ref_unfold. cbn [rcount rkv]. rewrite length_take.
    destruct (Z.leb_spec MAX_REPLAY_RECORDS (rcount s + Z.of_nat (n `min` length rs))); [|lia].
    simpl. split; [lia|done].
  - by apply Forall_take.
  - rewrite app_assoc, <- journal_bytes_app, take_drop. done.
  - rewrite length_take. lia.
Qed.

(** Nothing parses out of zeros. *)
Lemma parse_zeros m r n : parse_record (zeros m) ≠ Ok (Some (r, n)).
Proof.
  intros Hp. apply parse_Some in Hp as (_ & _ & Hm). unfold slice in Hm.
  rewrite drop_zeros, take_zeros, le_value_zeros in Hm. done.
Qed.

(** ** The invariant *)

Section Durable.
Context {D : Type} `{BlockStore D}.

(** The device holds the journal [rs] and zeros behind it; the engine's map,
    write position and count are those of the journal. *)
Definition engine_inv (rs : list JournalRecord) (e : JournalEngine D) : Prop :=
  dev_wf e.(device) ∧ records_ok rs ∧
  (∃ m, dev_bytes e.(device) = journal_bytes rs ++ zeros m) ∧
  e.(kv) = journal_kv rs ∅ ∧ e.(write_pos) = length (journal_bytes rs) ∧
  e.(record_count) = Z.of_nat (length rs).

Definition capacity (e : JournalEngine D) : nat :=
  (length (dev_blocks e.(device)) * block_size e.(device))%nat.

(** A device that holds a journal shorter than the replay bound, followed by
    bytes that do not parse, opens to the map of the journal. *)
Lemma replay_journal d rs X :
  dev_wf d → records_ok rs → dev_bytes d = journal_bytes rs ++ X →
  (∀ r n, parse_record X ≠ Ok (Some (r, n))) → Z.of_nat (length rs) < MAX_REPLAY_RECORDS →
  replay (blank d) =
    ({| device := d; kv := journal_kv rs ∅; write_pos := length (journal_bytes rs);
        record_count := Z.of_nat (length rs) |}, Ok tt).
Proof.
  intros Hd Hok Hb Hp Hlt. rewrite replay_blank by done. unfold device_ref.
  rewrite (run_ref_journal rs X); [|done|done|simpl; lia].
  rewrite run_ref_unfold. cbn [rcount rest].
  destruct (Z.leb_spec MAX_REPLAY_RECORDS (0 + Z.of_nat (length rs))); [lia|].
  destruct (parse_record X) as [[[r n]|]|]; [by destruct (Hp r n)|..]; cbn [rcount rkv file_pos];
    by (destruct (Z.leb_spec MAX_REPLAY_RECORDS (0 + Z.of_nat (length rs))); [lia|]).
Qed.

(** What a reopened engine finds: everything, as long as the journal is shorter
    than the replay bound. *)
Lemma reopen_inv rs e :
  engine_inv rs e → Z.of_nat (length rs) < MAX_REPLAY_RECORDS → reopen e = (e, Ok tt).
Proof.
  intros (Hd & Hok & (m & Hb) & Hkv & Hpos & Hcnt) Hlt. unfold reopen.
  rewrite (replay_journal _ rs (zeros m)) by auto using parse_zeros.
  destruct e; simpl in *; subst; done.
Qed.

Lemma reopen_limit rs e :
  engine_inv rs e → MAX_REPLAY_RECORDS ≤ Z.of_nat (length rs) →
  (reopen e).2 = Err ReplayLimitExceeded ∧ (reopen e).1.(write_pos) = 0%nat.
Proof.
  intros (Hd & Hok & (m & Hb) & _) Hle. unfold reopen. rewrite replay_blank by done.
  destruct (run_ref_limit rs (zeros m)
              {| rest := dev_bytes (device e); rkv := ∅; rcount := 0; file_pos := 0 |})
    as [Hr _]; [done|done|simpl; unfold MAX_REPLAY_RECORDS; lia|simpl; lia|].
  unfold device_ref. rewrite Hr. done.
Qed.

(** A blank device opens to an empty store. *)
Lemma open_zero d :
  dev_wf d → (∃ m, dev_bytes d = zeros m) →
  open d = Ok (blank d) ∧ engine_inv [] (blank d).
Proof.
  intros Hd (m & Hb).
  assert (Hinv : engine_inv [] (blank d)) by (split_and!; try done; [constructor|by exists m]).
  split; [|done]. unfold open. pose proof (reopen_inv [] (blank d) Hinv) as Hr.
  unfold reopen in Hr. simpl in Hr. rewrite Hr; done.
Qed.

(** An append succeeds exactly when the record fits, extends the journal by the
    record, and otherwise changes nothing. *)
Lemma append_inv rs e o k v :
  engine_inv rs e → record_ok k v →
  let r := {| op := o; key := k; value := v |} in
  if (e.(write_pos) + length (record_bytes r) <=? capacity e)%nat then
    ∃ e', append_record e o k v = (e', Ok tt) ∧ e'.(kv) = e.(kv) ∧ capacity e' = capacity e ∧
          engine_inv (rs ++ [r]) (set_kv e' (apply_record r e.(kv)))
  else append_record e o k v = (e, Err IoError).
Proof.
  intros (Hd & Hok & (m & Hb) & Hkv & Hpos & Hcnt) Hr r.
  change (serialize_record o k v) with (record_bytes r).
  pose proof (dev_bytes_length _ Hd) as Hlen. unfold capacity. rewrite <- Hlen.
  destruct (Nat.leb_spec (write_pos e + length (record_bytes r)) (length (dev_bytes (device e))))
    as [Hfit|Hno]; [|by apply append_record_full].
  destruct Hr as (Hu & Hkb & Hvb & Hk & Hv).
  destruct (append_record_ok e o k v Hd Hkb Hvb Hfit) as (d' & Hap & Hd' & Hs & Hl & Hbytes).
  change (serialize_record o k v) with (record_bytes r) in *. rewrite Hap.
  eexists. split; [reflexivity|]. split; [done|]. split; [cbn [device]; by rewrite Hs, Hl|].
  unfold engine_inv. cbn [kv device set_kv write_pos record_count]. split_and!; try done.
  - apply Forall_app_2; [done|]. by apply Forall_singleton.
  - exists (m - length (record_bytes r))%nat. rewrite Hbytes, Hb, journal_bytes_app. unfold splice.
    rewrite Hb, length_app, length_zeros in Hlen.
    rewrite Hpos, take_app_length, <- app_assoc, journal_bytes_one.
    by rewrite drop_app_add, drop_zeros.
  - unfold journal_kv. rewrite foldl_app. simpl. by rewrite Hkv.
  - by rewrite Hpos, journal_bytes_app, length_app, journal_bytes_one.
  - rewrite length_app. simpl. lia.
Qed.

(** ** The abstract store

    A map, the bytes used of a fixed capacity, and nothing else: no blocks, no
    records, no replay. *)

Record store := {
  smap : gmap bytes bytes;
  sused : nat
}.

Inductive store_op :=
| SPut (k v : bytes)
| SDelete (k : bytes)
| SGet (k : bytes)
| SList (prefix : bytes) (limit : nat)
| SSync
| SReopen.

Inductive store_reply :=
| RUnit (r : result unit StatefsError)
| RBytes (r : result bytes StatefsError)
| RKeys (r : result (list bytes) StatefsError).

(** A mutation that takes [n] bytes of journal. *)
Definition spec_commit (cap : nat) (s : store) (n : nat) (m : gmap bytes bytes)
    : store * store_reply :=
  if (s.(sused) + n <=? cap)%nat
  then ({| smap := m; sused := s.(sused) + n |}, RUnit (Ok tt))
  else (s, RUnit (Err IoError)).

Definition spec_op (cap : nat) (s : store) (o : store_op) : store * store_reply :=
  match o with
  | SPut k v =>
      match validate_key k with
      | Err e => (s, RUnit (Err e))
      | Ok _ =>
          if MAX_VALUE_SIZE <? vlen v then (s, RUnit (Err ValueTooLarge))
          else spec_commit cap s (15 + length k + length v) (<[k := v]> s.(smap))
      end
  | SDelete k =>
      match validate_key k with
      | Err e => (s, RUnit (Err e))
      | Ok _ =>
          if bool_decide (is_Some (s.(smap) !! k))
          then spec_commit cap s (15 + length k) (base.delete k s.(smap))
          else (s, RUnit (Err NotFound))
      end
  | SGet k => (s, RBytes (let? _ := validate_key k in ok_or (s.(smap) !! k) NotFound))
  | SList p n =>
      (s, RKeys (if negb (starts_with PREFIX_STATE p) && negb (bool_decide (p = STATE_DIR))
                 then Err InvalidKey
                 else Ok (take n (filter (fun k => starts_with p k = true) (str_keys s.(smap))))))
  | SSync | SReopen => (s, RUnit (Ok tt))
  end.

(** The engine's answer to an operation. *)
Definition engine_op (e : JournalEngine D) (o : store_op) : JournalEngine D * store_reply :=
  match o with
  | SPut k v => let '(e', r) := put e k v in (e', RUnit r)
  | SDelete k => let '(e', r) := delete_key e k in (e', RUnit r)
  | SGet k => (e, RBytes (get e k))
  | SList p n => (e, RKeys (list_keys e p n))
  | SSync => let '(e', r) := sync e in (e', RUnit r)
  | SReopen => let '(e', r) := reopen e in (e', RUnit r)
  end.

(** Keys and prefixes are [&str], values [&[u8]]. *)
Definition op_typed (o : store_op) : Prop :=
  match o with
  | SPut k v => utf8_valid k = true ∧ Forall is_byte k ∧ Forall is_byte v
  | SDelete k | SGet k | SList k _ => utf8_valid k = true ∧ Forall is_byte k
  | SSync | SReopen => True
  end.

Definition abs (e : JournalEngine D) : store := {| smap := e.(kv); sused := e.(write_pos) |}.

Lemma validate_key_len k u : validate_key k = Ok u → vlen k ≤ MAX_KEY_LEN.
Proof. unfold validate_key. destruct (Z.ltb_spec MAX_KEY_LEN (vlen k)); [done|lia]. Qed.

(** A journaled mutation refines the abstract commit. *)
Lemma commit_refines rs e o k v :
  engine_inv rs e → record_ok k v →
  let r := {| op := o; key := k; value := v |} in
  let m := apply_record r e.(kv) in
  let '(e1, res) := append_record e o k v in
  ∃ rs', engine_inv rs' (if is_ok res then set_kv e1 m else e1) ∧
    (length rs' ≤ S (length rs))%nat ∧
    capacity (if is_ok res then set_kv e1 m else e1) = capacity e ∧ e1.(kv) = e.(kv) ∧
    spec_commit (capacity e) (abs e) (15 + length k + length v) m =
      (abs (if is_ok res then set_kv e1 m else e1), RUnit res).
Proof.
  intros Hinv Hr r m. pose proof (append_inv rs e o k v Hinv Hr) as Ha. cbv zeta in Ha. fold r in Ha.
  assert (Hl : length (record_bytes r) = (15 + length k + length v)%nat) by apply serialize_length.
  unfold spec_commit. change (sused (abs e)) with (write_pos e). rewrite <- Hl.
  destruct (Nat.leb_spec (write_pos e + length (record_bytes r)) (capacity e)).
  - destruct Ha as (e1 & -> & Hkv & Hcap & Hinv'). exists (rs ++ [r]). cbn [is_ok].
    split_and!; try done; [rewrite length_app; simpl; lia|].
    unfold abs, set_kv. cbn [kv write_pos]. do 2 f_equal.
    destruct Hinv as (_ & _ & _ & _ & Hp & _). destruct Hinv' as (_ & _ & _ & _ & Hp' & _).
    simpl in Hp'. rewrite Hp', Hp, journal_bytes_app, length_app, journal_bytes_one. done.
  - rewrite Ha. exists rs. cbn [is_ok]. split_and!; try done. lia.
Qed.

Lemma sync_refines rs e :
  engine_inv rs e →
  ∃ e', sync e = (e', Ok tt) ∧ engine_inv rs e' ∧ capacity e' = capacity e ∧ abs e' = abs e.
Proof.
  intros (Hd & Hok & (m & Hb) & Hkv & Hpos & Hcnt). unfold sync.
  destruct (dev_sync_ok _ Hd) as (d' & -> & Hd' & Hs & Hbs). simpl. eexists. split; [reflexivity|].
  unfold engine_inv, capacity, abs. simpl. rewrite Hs, Hbs. split_and!; try done.
  exists m. unfold dev_bytes in *. by rewrite Hbs.
Qed.

(** One operation of the engine is the same operation of the abstract store. *)
Lemma engine_op_refines rs e o :
  engine_inv rs e → op_typed o → Z.of_nat (length rs) < MAX_REPLAY_RECORDS →
  let '(e', reply) := engine_op e o in
  spec_op (capacity e) (abs e) o = (abs e', reply) ∧ capacity e' = capacity e ∧
  ∃ rs', engine_inv rs' e' ∧ (length rs' ≤ S (length rs))%nat.
Proof.
  intros Hinv Hty Hlt. destruct o as [k v|k|k|p n| |]; simpl in *.
  - destruct Hty as (Hu & Hk & Hv). unfold put. destruct (validate_key k) as [u|er] eqn:Ek; [|eauto 6].
    destruct (Z.ltb_spec MAX_VALUE_SIZE (vlen v)); [eauto 6|].
    assert (Hrok : record_ok k v) by (split_and!; eauto using validate_key_len).
    pose proof (commit_refines rs e Put k v Hinv Hrok) as Hc. simpl in Hc.
    destruct (append_record e Put k v) as [e1 [[]|er]];
      destruct Hc as (rs' & Hi & Hl & Hcap & Hkv & Hsp); simpl in *.
    + rewrite Hkv. eauto 6.
    + eauto 6.
  - destruct Hty as (Hu & Hk). unfold delete_key.
    destruct (validate_key k) as [u|er] eqn:Ek; [|eauto 6].
    case_bool_decide; [|eauto 6].
    assert (Hrok : record_ok k []) by (split_and!; eauto using validate_key_len; done).
    pose proof (commit_refines rs e Delete k [] Hinv Hrok) as Hc. simpl in Hc.
    destruct (append_record e Delete k []) as [e1 [[]|er]];
      destruct Hc as (rs' & Hi & Hl & Hcap & Hkv & Hsp); simpl in *; rewrite Nat.add_0_r in Hsp.
    + rewrite Hkv. eauto 6.
    + eauto 6.
  - split_and!; eauto.
  - split_and!; eauto.
  - destruct (sync_refines rs e Hinv) as (e' & -> & Hi & Hcap & Habs). rewrite Habs. eauto 6.
  - rewrite (reopen_inv rs e Hinv Hlt). eauto 6.
Qed.

(** Histories. *)
Fixpoint engine_run (e : JournalEngine D) (h : list store_op) : JournalEngine D * list store_reply :=
  match h with
  | [] => (e, [])
  | o :: h' =>
      let '(e1, r) := engine_op e o in
      let '(e2, rs) := engine_run e1 h' in (e2, r :: rs)
  end.

Fixpoint spec_run (cap : nat) (s : store) (h : list store_op) : store * list store_reply :=
  match h with
  | [] => (s, [])
  | o :: h' =>
      let '(s1, r) := spec_op cap s o in
      let '(s2, rs) := spec_run cap s1 h' in (s2, r :: rs)
  end.

Lemma engine_run_refines h rs e :
  engine_inv rs e → Forall op_typed h →
  Z.of_nat (length rs + length h) < MAX_REPLAY_RECORDS →
  let '(e', replies) := engine_run e h in
  spec_run (capacity e) (abs e) h = (abs e', replies) ∧
  ∃ rs', engine_inv rs' e' ∧ (length rs' ≤ length rs + length h)%nat.
Proof.
  revert rs e. induction h as [|o h IH]; intros rs e Hinv Hty Hlt; simpl in *.
  { split; [done|]. exists rs. split; [done|lia]. }
  apply Forall_cons in Hty as [Ho Hty].
  pose proof (engine_op_refines rs e o Hinv Ho) as Hs.
  destruct (engine_op e o) as [e1 r]. destruct Hs as (Hsp & Hcap & rs1 & Hi1 & Hl1); [lia|].
  rewrite Hsp, <- Hcap. specialize (IH rs1 e1 Hi1 Hty). destruct (engine_run e1 h) as [e2 rr].
  destruct IH as (Hrun & rs2 & Hi2 & Hl2); [lia|]. rewrite Hrun. split; [done|].
  exists rs2. split; [done|lia].
Qed.

End Durable.
Arguments engine_run {D _} e h.

