(* ===== verification/StatefsCrash.v ===== *)
(** Crashes of statefs: a block write is atomic, a crash in the middle of an
    append leaves a prefix of its block writes on the device, and what a store
    opened on that device holds. *)

From S2P Require Import Prelude Bytes Storage Statefs StatefsProps StatefsDurable.

(** The checksum detects a torn record: no prefix of the torn image that
    differs from the record is followed by its own checksum.  It is the
    assumption a 32-bit checksum stands for; [crc32_burst] proves it for
    differences inside a window of four bytes. *)
Definition torn_detected (record image : bytes) : Prop :=
  ∀ n, (11 ≤ n)%nat → (n + 4 ≤ length record)%nat → take (n + 4) image ≠ take (n + 4) record →
       le_value (slice n (n + 4) image) ≠ crc32c (take n image).

(** What the parser checked of a record it accepts. *)
Lemma parse_crc data r n :
  parse_record data = Ok (Some (r, n)) →
  (15 ≤ n)%nat ∧ le_value (slice (n - 4) n data) = crc32c (take (n - 4) data).
Proof.
  intros Hp. pose proof (parse_Some _ _ _ Hp) as (Hn & Ht & _). unfold RECORD_HEADER_SIZE in Hn.
  split; [lia|]. unfold parse_record in Hp. unfold total_len_of, RECORD_HEADER_SIZE in *.
  destruct (_ <? _)%nat; [done|]. destruct (negb _); [done|]. destruct (from_u8 _); [|done].
  cbn [ok_or result_bind] in Hp. destruct (_ <? _); [done|]. destruct (_ <? _); [done|].
  destruct (_ <? _)%nat; [done|]. destruct (negb _) eqn:Ec; [done|]. clear Hp.
  apply negb_false_iff, Z.eqb_eq in Ec.
  replace (n - 4)%nat with (11 + key_len_of data + value_len_of data)%nat by lia.
  by replace n with (11 + key_len_of data + value_len_of data + 4)%nat by lia.
Qed.

(** The length fields of a torn record are at most those of the record. *)
Lemma torn_total record k m :
  Forall is_byte record → (15 ≤ length record)%nat → (length record - k ≤ m)%nat →
  (total_len_of (take k record ++ zeros m) ≤ total_len_of record)%nat.
Proof.
  intros Hb Hl Hm.
  assert (Hf : ∀ i j, (j ≤ 11)%nat →
    le_value (slice i j (take k record ++ zeros m)) ≤ le_value (slice i j record)).
  { intros i j Hj. apply le_value_mono.
    replace m with (length record - k + (m - (length record - k)))%nat by lia.
    rewrite <- zeros_app, app_assoc, slice_app_l by len. unfold slice.
    apply Forall2_take, Forall2_drop. by apply torn_le. }
  unfold total_len_of, key_len_of, value_len_of.
  pose proof (Hf 5%nat 7%nat ltac:(lia)). pose proof (Hf 7%nat 11%nat ltac:(lia)). lia.
Qed.

Lemma serialize_total o k v :
  vlen k ≤ MAX_KEY_LEN → vlen v ≤ MAX_VALUE_SIZE →
  total_len_of (serialize_record o k v) = length (serialize_record o k v).
Proof.
  intros Hk Hv. unfold total_len_of. unfold serialize_record at 1 2.
  rewrite body_key_len, body_value_len, serialize_length by done. done.
Qed.

(** A torn image either holds the whole record or does not parse. *)
Lemma torn_parse o k v n m :
  record_ok k v →
  let record := serialize_record o k v in
  let image := take n record ++ zeros m in
  (length record - n ≤ m)%nat → torn_detected record image →
  take (length record) image = record ∨ ∀ r c, parse_record image ≠ Ok (Some (r, c)).
Proof.
  intros (Hu & Hkb & Hvb & Hk & Hv) record image Hm Hdet.
  destruct (decide (take (length record) image = record)) as [|Hne]; [by left|right].
  intros r c Hp. pose proof (parse_Some _ _ _ Hp) as (Hc & Ht & _).
  destruct (parse_crc _ _ _ Hp) as [Hc15 Hcrc].
  assert (Hrl : length record = (15 + length k + length v)%nat) by apply serialize_length.
  assert (Hle : (c ≤ length record)%nat).
  { rewrite Ht. unfold record. rewrite <- serialize_total by done.
    apply torn_total; [by apply serialize_byte|fold record; lia|done]. }
  destruct (decide (take c image = take c record)) as [Heq|Hdiff].
  - apply Hne. assert (Hcr : c = length record).
    { rewrite Ht. rewrite <- (take_drop c image), total_len_app, Heq by (rewrite length_take; lia).
      rewrite <- (total_len_app _ (drop c record)), take_drop by (rewrite length_take; lia).
      by apply serialize_total. }
    by rewrite <- Hcr, Heq, Hcr, take_ge.
  - specialize (Hdet (c - 4)%nat ltac:(lia) ltac:(lia)).
    replace (c - 4 + 4)%nat with c in Hdet by lia. by apply Hdet.
Qed.

Section Crash.
Context {D : Type} `{BlockStore D}.

(** The device after the first [j] block writes of an append. *)
Definition crash_device (e : JournalEngine D) (o : JournalOpCode) (k v : bytes) (j : nat) : D :=
  let record := serialize_record o k v in
  (append_blocks e.(device) e.(write_pos) record 0
     (take j (record_blocks (block_size e.(device)) e.(write_pos) (length record)))).1.

(** The bytes at the end of the journal after the crash. *)
Definition crash_image (e : JournalEngine D) (o : JournalOpCode) (k v : bytes) (j : nat) : bytes :=
  drop e.(write_pos) (dev_bytes (crash_device e o k v j)).

Lemma crash_bytes rs e o k v j :
  engine_inv rs e → record_ok k v →
  (e.(write_pos) + length (serialize_record o k v) ≤ capacity e)%nat →
  let record := serialize_record o k v in
  dev_wf (crash_device e o k v j) ∧
  ∃ n m, (length record - n ≤ m)%nat ∧
    dev_bytes (crash_device e o k v j) = journal_bytes rs ++ take n record ++ zeros m ∧
    (length (record_blocks (block_size e.(device)) e.(write_pos) (length record)) ≤ j →
     length record ≤ n)%nat.
Proof.
  intros (Hd & Hok & (m & Hb) & Hkv & Hpos & Hcnt) (Hu & Hkb & Hvb & _) Hfit record.
  assert (Hrl : length record = (15 + length k + length v)%nat) by apply serialize_length.
  unfold crash_device. fold record.
  destruct (append_prefix (device e) (write_pos e) record j)
    as (d' & n & Hap & Hd' & _ & _ & Hbytes & Hn); [done|by apply serialize_byte| | |].
  { intros E. rewrite E in Hrl. simpl in Hrl. lia. }
  { apply div_ceil_le; [by apply dev_size_pos|]. done. }
  rewrite Hap. cbn [fst]. split; [done|]. exists n, (m - length (take n record))%nat.
  pose proof (dev_bytes_length _ Hd) as Hlen. rewrite Hb, length_app, length_zeros in Hlen.
  unfold capacity in Hfit. rewrite <- Hlen, Hpos in Hfit. fold record in Hfit.
  split_and!; [rewrite length_take; lia| |done].
  rewrite Hbytes, Hb. unfold splice. rewrite Hpos, take_app_length, drop_app_add, drop_zeros. done.
Qed.


End Crash.

(** A decision procedure for [torn_detected]. *)
Definition torn_detectedb (record image : bytes) : bool :=
  forallb (fun n => bool_decide (take (n + 4) image = take (n + 4) record)
                    || negb (le_value (slice n (n + 4) image) =? crc32c (take n image)))
          (seq 11 (length record - 14)).

Lemma torn_detectedb_sound record image :
  torn_detectedb record image = true → torn_detected record image.
Proof.
  intros Hb n Hlo Hhi Hne Heq. unfold torn_detectedb in Hb. rewrite forallb_forall in Hb.
  specialize (Hb n). rewrite in_seq, bool_decide_eq_false_2, Heq, Z.eqb_refl in Hb by done.
  discriminate Hb. lia.
Qed.

(** ** A small store for examples: 8 blocks of 32 bytes. *)

Definition demo_device : Mem.MemBlockDevice := Mem.new 32 8.
Definition KEY_A : bytes := PREFIX_STATE ++ [97].
Definition KEY_B : bytes := PREFIX_STATE ++ [98].
Definition KEY_K : bytes := PREFIX_STATE ++ [107].

Lemma demo_wf : dev_wf demo_device.
Proof. apply Mem.new_wf. lia. Qed.

Lemma demo_inv : engine_inv [] (blank demo_device).
Proof. apply open_zero; [apply demo_wf|]. exists 256%nat. vm_compute. reflexivity. Qed.

Lemma Forall_is_byteb l : forallb (fun b => (0 <=? b) && (b <? 256)) l = true → Forall is_byte l.
Proof.
  rewrite forallb_forall, Forall_forall. intros Hf b Hb.
  specialize (Hf b). apply list_elem_of_In in Hb. specialize (Hf Hb). simpl_bool. unfold is_byte. lia.
Qed.



(** ** What the journal does with the bytes behind its end

    The engine writes a record over whatever follows the last one that parsed
    and does not clear the rest, so the tail of a torn record stays behind a
    shorter one. *)

(** The value of the torn record carries a whole record for another key. *)
Definition forged : bytes := serialize_record Put KEY_K [66].
Definition torn_value : bytes := zeros 13 ++ forged ++ zeros 20.

(** The run, and what it shows of the three maps. *)
Definition torn_run : option (list (bytes * bytes) * list (bytes * bytes) * option bytes) :=
  match open (crash_device (blank demo_device) Put KEY_A torn_value 2) with
  | Err _ => None
  | Ok e1 =>
      match put e1 KEY_B (zeros 9) with
      | (_, Err _) => None
      | (e2, Ok _) =>
          match open e2.(device) with
          | Err _ => None
          | Ok e3 => Some (map_to_list e1.(kv), map_to_list e2.(kv), e3.(kv) !! KEY_K)
          end
      end
  end.

(** Bytes of a torn record can be replayed as a record of their own.  A put
    whose value embeds an encoded record for another key is torn by a crash and
    correctly discarded on reopen; a later, shorter put ends exactly where the
    embedded record starts, and the next reopen finds the embedded key, which
    nobody ever stored. *)
Theorem statefs_torn_value_replayed :
  ∃ e1 e2 e3,
    open (crash_device (blank demo_device) Put KEY_A torn_value 2) = Ok e1 ∧ e1.(kv) = ∅ ∧
    put e1 KEY_B (zeros 9) = (e2, Ok tt) ∧ e2.(kv) = {[ KEY_B := zeros 9 ]} ∧
    open e2.(device) = Ok e3 ∧ e3.(kv) !! KEY_K = Some [66].
Proof.
  assert (Hrun : torn_run = Some ([], [(KEY_B, zeros 9)], Some [66])) by (vm_compute; reflexivity).
  unfold torn_run in Hrun. destruct (open (crash_device _ _ _ _ _)) as [e1|]; [|done].
  destruct (put e1 KEY_B (zeros 9)) as [e2 [[]|]] eqn:E2; [|done].
  destruct (open (device e2)) as [e3|] eqn:E3; [|done]. injection Hrun as H1 H2 H3.
  exists e1, e2, e3. split_and!; try done; [by apply map_to_list_empty_iff|].
  apply map_to_list_inj. by rewrite H2, map_to_list_singleton.
Qed.

(** ** Limits of statefs: the replay bound is enforced when a journal is read but
    not when it is written, and a failed replay leaves an engine that writes
    over its own journal. *)

Section Limits.
Context {D : Type} `{BlockStore D}.

Lemma put_inv rs e k v :
  engine_inv rs e → record_ok k v → validate_key k = Ok tt →
  (e.(write_pos) + length (serialize_record Put k v) ≤ capacity e)%nat →
  ∃ e', put e k v = (e', Ok tt) ∧ capacity e' = capacity e ∧
        engine_inv (rs ++ [{| op := Put; key := k; value := v |}]) e'.
Proof.
  intros Hinv Hr Hk Hfit. pose proof (append_inv rs e Put k v Hinv Hr) as Ha. cbv zeta in Ha.
  change (record_bytes _) with (serialize_record Put k v) in Ha.
  destruct (Nat.leb_spec (write_pos e + length (serialize_record Put k v)) (capacity e)); [|lia].
  destruct Ha as (e1 & Hap & Hkv & Hcap & Hi). unfold put. rewrite Hk.
  destruct Hr as (_ & _ & _ & _ & Hv). destruct (Z.ltb_spec MAX_VALUE_SIZE (vlen v)); [lia|].
  rewrite Hap. eexists. split; [reflexivity|]. split; [done|]. by rewrite Hkv.
Qed.

(** Any number of puts that fit are accepted. *)
Lemma puts_inv n rs e k v :
  engine_inv rs e → record_ok k v → validate_key k = Ok tt →
  (e.(write_pos) + n * length (serialize_record Put k v) ≤ capacity e)%nat →
  ∃ e', engine_run e (replicate n (SPut k v)) = (e', replicate n (RUnit (Ok tt))) ∧
        engine_inv (rs ++ replicate n {| op := Put; key := k; value := v |}) e'.
Proof.
  revert rs e. induction n as [|n IH]; intros rs e Hinv Hr Hk Hfit; cbn [replicate engine_run].
  { exists e. rewrite app_nil_r. done. }
  destruct (put_inv rs e k v Hinv Hr Hk) as (e1 & Hp & Hcap & Hi1); [lia|].
  cbn [engine_op]. rewrite Hp.
  destruct (IH _ e1 Hi1 Hr Hk) as (e' & -> & Hi').
  - destruct Hinv as (_ & _ & _ & _ & Hpos & _). destruct Hi1 as (_ & _ & _ & _ & Hpos1 & _).
    rewrite Hcap, Hpos1, journal_bytes_app, length_app, journal_bytes_one, <- Hpos.
    change (record_bytes _) with (serialize_record Put k v). lia.
  - exists e'. split; [done|]. by rewrite <- app_assoc in Hi'.
Qed.

(** The store accepts more records than it can read back.  On every zeroed
    device with room for them, 100000 puts of one small pair are all
    acknowledged; from then on every open and every reopen fails with
    [ReplayLimitExceeded], and the reopen leaves an engine whose write position
    is 0, so that the next put overwrites the first record of the journal. *)
Theorem statefs_replay_limit (d : D) k v :
  dev_wf d → (∃ m, dev_bytes d = zeros m) → record_ok k v → validate_key k = Ok tt →
  (Z.to_nat MAX_REPLAY_RECORDS * length (serialize_record Put k v) ≤ length (dev_bytes d))%nat →
  let n := Z.to_nat MAX_REPLAY_RECORDS in
  ∃ e e', engine_run (blank d) (replicate n (SPut k v)) = (e, replicate n (RUnit (Ok tt))) ∧
    open e.(device) = Err ReplayLimitExceeded ∧
    reopen e = (e', Err ReplayLimitExceeded) ∧ e'.(write_pos) = 0%nat ∧
    ∃ e'', put e' k v = (e'', Ok tt) ∧
           dev_bytes e''.(device) = splice (dev_bytes e.(device)) 0 (serialize_record Put k v).
Proof.
  intros Hd Hz Hr Hk Hfit n. destruct (open_zero d Hd Hz) as [_ Hinv].
  destruct (puts_inv n [] (blank d) k v Hinv Hr Hk) as (e & Hrun & Hi).
  { unfold capacity. cbn [blank write_pos device]. rewrite <- dev_bytes_length by done. lia. }
  destruct (reopen_limit _ e Hi) as [Hre Hw]; [rewrite length_app, length_replicate; simpl; lia|].
  destruct (reopen e) as [e' r] eqn:Ere. simpl in Hre, Hw. subst r.
  exists e, e'. split_and!; try done.
  - unfold open. unfold reopen in Ere. rewrite Ere. done.
  - assert (Hdev : device e' = device e).
    { unfold reopen, replay in Ere. destruct (replay_blocks _ _ _) as [s [[]|]]; [destruct (_ <=? _)|];
        by simplify_eq. }
    destruct Hi as (Hd' & _ & (m & Hb) & _).
    destruct Hr as (Hu & Hkb & Hvb & Hkl & Hv).
    destruct (append_record_ok e' Put k v) as (d'' & Hap & _ & _ & _ & Hbytes);
      [by rewrite Hdev|done|done| |].
    { rewrite Hw, Hdev, Hb, length_app, journal_bytes_app, length_app.
      assert (Hone : (length (serialize_record Put k v) ≤
                 length (journal_bytes (replicate n {| op := Put; key := k; value := v |})))%nat).
      { replace n with (S (Z.to_nat (MAX_REPLAY_RECORDS - 1))) by (unfold n, MAX_REPLAY_RECORDS; lia).
        cbn [replicate]. unfold journal_bytes. cbn [map concat]. rewrite length_app.
        change (record_bytes _) with (serialize_record Put k v). lia. }
      lia. }
    rewrite Hw, Hdev in Hbytes. unfold put. rewrite Hk.
    destruct (Z.ltb_spec MAX_VALUE_SIZE (vlen v)); [lia|]. rewrite Hap. eexists. done.
Qed.

End Limits.

Lemma statefs_replay_limit_witness :
  ∃ (e : JournalEngine Mem.MemBlockDevice) h,
    engine_run (blank (Mem.new 512 4688)) h = (e, replicate (length h) (RUnit (Ok tt))) ∧
    open e.(device) = Err ReplayLimitExceeded.
Proof.
  destruct (statefs_replay_limit (Mem.new 512 4688) KEY_A [1]) as (e & e' & Hrun & Hopen & _).
  - apply Mem.new_wf. lia.
  - exists (Z.to_nat 4688 * 512)%nat. apply Mem.new_zeros.
  - repeat split; try (apply Forall_is_byteb; reflexivity); vm_compute; congruence.
  - reflexivity.
  - unfold dev_bytes. cbn [dev_blocks Mem.mem_block_store]. rewrite Mem.new_zeros, length_zeros.
    change (length (serialize_record Put KEY_A [1])) with 24%nat. unfold MAX_REPLAY_RECORDS. lia.
  - exists e, (replicate (Z.to_nat MAX_REPLAY_RECORDS) (SPut KEY_A [1])).
    rewrite length_replicate. split; [exact Hrun|exact Hopen].
Defined.
