(* ===== verification/StatefsProto.v ===== *)
(** The statefs request protocol ([userspace/statefs/src/lib.rs], module
    [protocol]): frames with and without a nonce, requests, replies, statuses;
    its round trips, and what a frame the server accepts looks like. *)

From S2P Require Import Prelude Bytes Storage Statefs.

Definition MAGIC0 : Z := 83.   (* 'S' *)
Definition MAGIC1 : Z := 70.   (* 'F' *)
Definition VERSION : Z := 1.
Definition VERSION_V2 : Z := 2.
Definition OP_PUT : Z := 1.
Definition OP_GET : Z := 2.
Definition OP_DEL : Z := 3.
Definition OP_LIST : Z := 4.
Definition OP_SYNC : Z := 5.
Definition OP_REOPEN : Z := 6.
Definition STATUS_OK : Z := 0.
Definition STATUS_NOT_FOUND : Z := 1.
Definition STATUS_ACCESS_DENIED : Z := 2.
Definition STATUS_VALUE_TOO_LARGE : Z := 3.
Definition STATUS_KEY_TOO_LONG : Z := 4.
Definition STATUS_INVALID_KEY : Z := 5.
Definition STATUS_MALFORMED : Z := 6.
Definition STATUS_IO_ERROR : Z := 7.
Definition STATUS_UNSUPPORTED : Z := 8.
Definition MAX_LIST_LIMIT : Z := 256.

Inductive Request :=
| ReqPut (key value : bytes)
| ReqGet (key : bytes)
| ReqDelete (key : bytes)
| ReqList (prefix : bytes) (limit : Z)
| ReqSync
| ReqReopen.

#[export] Instance Request_eq_dec : EqDecision Request.
Proof. solve_decision. Defined.

(** The byte at an index the source has checked to exist. *)
Definition at_byte (frame : bytes) (i : nat) : Z := default 0 (frame !! i).

(** ** Decoding requests *)

Definition decode_put_payload (payload : bytes) : result Request Z :=
  if (length payload <? 6)%nat then Err STATUS_MALFORMED
  else
    let key_len := le_value (slice 0 2 payload) in
    let val_len := le_value (slice 2 6 payload) in
    if key_len =? 0 then Err STATUS_MALFORMED
    else if MAX_KEY_LEN <? key_len then Err STATUS_KEY_TOO_LONG
    else if MAX_VALUE_SIZE <? val_len then Err STATUS_VALUE_TOO_LARGE
    else
      let expected := 6 + key_len + val_len in
      if negb (vlen payload =? expected) then Err STATUS_MALFORMED
      else
        let key_end := Z.to_nat (6 + key_len) in
        let? key := ok_or (from_utf8 (slice 6 key_end payload)) STATUS_MALFORMED in
        Ok (ReqPut key (slice key_end (Z.to_nat expected) payload)).

Definition decode_key_only_payload (payload : bytes) : result bytes Z :=
  if (length payload <? 2)%nat then Err STATUS_MALFORMED
  else
    let key_len := le_value (slice 0 2 payload) in
    if key_len =? 0 then Err STATUS_MALFORMED
    else if MAX_KEY_LEN <? key_len then Err STATUS_KEY_TOO_LONG
    else
      let expected := 2 + key_len in
      if negb (vlen payload =? expected) then Err STATUS_MALFORMED
      else ok_or (from_utf8 (slice 2 (Z.to_nat expected) payload)) STATUS_MALFORMED.

Definition clamp_limit (limit : Z) : Z := if limit =? 0 then 1 else Z.min limit MAX_LIST_LIMIT.

Definition decode_list_payload (payload : bytes) : result Request Z :=
  if (length payload <? 4)%nat then Err STATUS_MALFORMED
  else
    let prefix_len := le_value (slice 0 2 payload) in
    let limit := le_value (slice 2 4 payload) in
    if MAX_KEY_LEN <? prefix_len then Err STATUS_KEY_TOO_LONG
    else
      let expected := 4 + prefix_len in
      if negb (vlen payload =? expected) then Err STATUS_MALFORMED
      else
        let? prefix := ok_or (from_utf8 (slice 4 (Z.to_nat expected) payload)) STATUS_MALFORMED in
        Ok (ReqList prefix (clamp_limit limit)).

Definition decode_empty_payload (payload : bytes) (r : Request) : result Request Z :=
  match payload with
  | [] => Ok r
  | _ => Err STATUS_MALFORMED
  end.

(** The [match op] both versions of the frame share. *)
Definition decode_op (op : Z) (payload : bytes) : result Request Z :=
  if op =? OP_PUT then decode_put_payload payload
  else if op =? OP_GET then let? key := decode_key_only_payload payload in Ok (ReqGet key)
  else if op =? OP_DEL then let? key := decode_key_only_payload payload in Ok (ReqDelete key)
  else if op =? OP_LIST then decode_list_payload payload
  else if op =? OP_SYNC then decode_empty_payload payload ReqSync
  else if op =? OP_REOPEN then decode_empty_payload payload ReqReopen
  else Err STATUS_UNSUPPORTED.

Definition decode_request_no_nonce (frame : bytes) : result Request Z :=
  if (length frame <? 4)%nat || negb (at_byte frame 0 =? MAGIC0)
     || negb (at_byte frame 1 =? MAGIC1) || negb (at_byte frame 2 =? VERSION)
  then Err STATUS_MALFORMED
  else decode_op (at_byte frame 3) (drop 4 frame).

Definition decode_request_with_nonce (frame : bytes) : result (Request * option Z) Z :=
  if (length frame <? 4)%nat || negb (at_byte frame 0 =? MAGIC0)
     || negb (at_byte frame 1 =? MAGIC1)
  then Err STATUS_MALFORMED
  else if at_byte frame 2 =? VERSION then
    let? r := decode_request_no_nonce frame in Ok (r, None)
  else if at_byte frame 2 =? VERSION_V2 then
    if (length frame <? 12)%nat then Err STATUS_MALFORMED
    else
      let nonce := le_value (slice 4 12 frame) in
      let? req := decode_op (at_byte frame 3) (drop 12 frame) in
      Ok (req, Some nonce)
  else Err STATUS_MALFORMED.

Definition decode_request (frame : bytes) : result Request Z :=
  let? p := decode_request_with_nonce frame in Ok (fst p).

(** ** Encoding requests *)

Definition encode_put_request (key value : bytes) : result bytes StatefsError :=
  if MAX_KEY_LEN <? vlen key then Err KeyTooLong
  else if MAX_VALUE_SIZE <? vlen value then Err ValueTooLarge
  else Ok ([MAGIC0; MAGIC1; VERSION; OP_PUT] ++ le_bytes 2 (vlen key) ++ le_bytes 4 (vlen value)
           ++ key ++ value).

Definition encode_key_only_request (op : Z) (key : bytes) : result bytes StatefsError :=
  if MAX_KEY_LEN <? vlen key then Err KeyTooLong
  else Ok ([MAGIC0; MAGIC1; VERSION; op] ++ le_bytes 2 (vlen key) ++ key).

Definition encode_list_request (prefix : bytes) (limit : Z) : result bytes StatefsError :=
  if MAX_KEY_LEN <? vlen prefix then Err KeyTooLong
  else Ok ([MAGIC0; MAGIC1; VERSION; OP_LIST] ++ le_bytes 2 (vlen prefix)
           ++ le_bytes 2 (clamp_limit limit) ++ prefix).

Definition encode_sync_request : bytes := [MAGIC0; MAGIC1; VERSION; OP_SYNC].
Definition encode_reopen_request : bytes := [MAGIC0; MAGIC1; VERSION; OP_REOPEN].

(** The client's upgrade of a request frame: the nonce behind the header. *)
Definition upgrade_request (frame : bytes) (nonce : Z) : result bytes StatefsError :=
  if (length frame <? 4)%nat || negb (at_byte frame 0 =? MAGIC0)
     || negb (at_byte frame 1 =? MAGIC1) || negb (at_byte frame 2 =? VERSION)
  then Err IoError
  else Ok (<[2%nat := VERSION_V2]> (take 4 frame) ++ le_bytes 8 nonce ++ drop 4 frame).

(** ** Replies *)

Definition reply_op (op : Z) : Z := Z.lor op 0x80.

Definition encode_status_response (op status : Z) : bytes :=
  [MAGIC0; MAGIC1; VERSION; reply_op op; status].

Definition encode_status_response_with_nonce (op status : Z) (nonce : option Z) : bytes :=
  match nonce with
  | Some n => [MAGIC0; MAGIC1; VERSION_V2; reply_op op; status] ++ le_bytes 8 n
  | None => encode_status_response op status
  end.

Definition encode_get_response (status : Z) (value : bytes) : bytes :=
  [MAGIC0; MAGIC1; VERSION; reply_op OP_GET; status] ++ le_bytes 4 (vlen value) ++ value.

Definition encode_get_response_with_nonce (status : Z) (value : bytes) (nonce : option Z) : bytes :=
  match nonce with
  | Some n => [MAGIC0; MAGIC1; VERSION_V2; reply_op OP_GET; status] ++ le_bytes 8 n
              ++ le_bytes 4 (vlen value) ++ value
  | None => encode_get_response status value
  end.

(** The loop over the keys of a listing: [out_len] is [out.len()]; the result
    is the entries appended and their count. *)
Fixpoint list_entries (keys : list bytes) (out_len max_bytes count : Z) : bytes * Z :=
  match keys with
  | [] => ([], count)
  | key :: keys' =>
      if MAX_KEY_LEN <? vlen key then list_entries keys' out_len max_bytes count
      else
        let entry_len := 2 + vlen key in
        if max_bytes <? out_len + entry_len then ([], count)
        else
          let count := saturating_add 16 count 1 in
          if count =? max_of 16 then (le_bytes 2 (vlen key) ++ key, count)
          else
            let '(entries, n) := list_entries keys' (out_len + entry_len) max_bytes count in
            (le_bytes 2 (vlen key) ++ key ++ entries, n)
  end.

Definition encode_list_response (status : Z) (keys : list bytes) (max_bytes : Z) : bytes :=
  let head := [MAGIC0; MAGIC1; VERSION; reply_op OP_LIST; status] in
  let '(entries, count) := list_entries keys 7 max_bytes 0 in
  head ++ le_bytes 2 count ++ entries.

Definition encode_list_response_with_nonce (status : Z) (keys : list bytes) (max_bytes : Z)
    (nonce : option Z) : bytes :=
  match nonce with
  | Some n =>
      let head := [MAGIC0; MAGIC1; VERSION_V2; reply_op OP_LIST; status] ++ le_bytes 8 n in
      let '(entries, count) := list_entries keys 15 max_bytes 0 in
      head ++ le_bytes 2 count ++ entries
  | None => encode_list_response status keys max_bytes
  end.

Definition status_from_error (err : StatefsError) : Z :=
  match err with
  | NotFound => STATUS_NOT_FOUND
  | AccessDenied => STATUS_ACCESS_DENIED
  | ValueTooLarge => STATUS_VALUE_TOO_LARGE
  | KeyTooLong => STATUS_KEY_TOO_LONG
  | InvalidKey => STATUS_INVALID_KEY
  | IoError => STATUS_IO_ERROR
  | Corrupted => STATUS_MALFORMED
  | ReplayLimitExceeded => STATUS_IO_ERROR
  end.

Definition error_from_status (status : Z) : StatefsError :=
  if status =? STATUS_NOT_FOUND then NotFound
  else if status =? STATUS_ACCESS_DENIED then AccessDenied
  else if status =? STATUS_VALUE_TOO_LARGE then ValueTooLarge
  else if status =? STATUS_KEY_TOO_LONG then KeyTooLong
  else if status =? STATUS_INVALID_KEY then InvalidKey
  else if status =? STATUS_IO_ERROR then IoError
  else Corrupted.

Definition decode_status_response (expected_op : Z) (frame : bytes) : result Z StatefsError :=
  if (length frame <? 5)%nat || negb (at_byte frame 0 =? MAGIC0)
     || negb (at_byte frame 1 =? MAGIC1) then Err Corrupted
  else if negb (at_byte frame 3 =? reply_op expected_op) then Err Corrupted
  else if at_byte frame 2 =? VERSION then Ok (at_byte frame 4)
  else if at_byte frame 2 =? VERSION_V2 then
    if (length frame <? 13)%nat then Err Corrupted else Ok (at_byte frame 4)
  else Err Corrupted.

(** The value behind a header of [head] bytes whose last four are its length. *)
Definition decode_value_at (head : nat) (frame : bytes) : result bytes StatefsError :=
  if (length frame <? head)%nat then Err Corrupted
  else
    let status := at_byte frame 4 in
    if negb (status =? STATUS_OK) then Err (error_from_status status)
    else
      let val_len := le_value (slice (head - 4) head frame) in
      if (MAX_VALUE_SIZE <? val_len) || negb (vlen frame =? Z.of_nat head + val_len)
      then Err Corrupted
      else Ok (slice head (head + Z.to_nat val_len) frame).

Definition decode_get_response (frame : bytes) : result bytes StatefsError :=
  if (length frame <? 9)%nat || negb (at_byte frame 0 =? MAGIC0)
     || negb (at_byte frame 1 =? MAGIC1) then Err Corrupted
  else if negb (at_byte frame 3 =? reply_op OP_GET) then Err Corrupted
  else if at_byte frame 2 =? VERSION then decode_value_at 9 frame
  else if at_byte frame 2 =? VERSION_V2 then decode_value_at 17 frame
  else Err Corrupted.

(** The keys of a listing, [rest] being the frame from [pos] on. *)
Fixpoint decode_keys (count : nat) (rest : bytes) : result (list bytes) StatefsError :=
  match count with
  | O => Ok []
  | S count' =>
      let? p := ok_or (take_le 2 rest) Corrupted in
      let '(key_len, rest1) := p in
      if (MAX_KEY_LEN <? key_len) || (vlen rest1 <? key_len) then Err Corrupted
      else
        let? key := ok_or (from_utf8 (take (Z.to_nat key_len) rest1)) Corrupted in
        let? keys := decode_keys count' (drop (Z.to_nat key_len) rest1) in
        Ok (key :: keys)
  end.

Definition decode_list_at (head : nat) (frame : bytes) : result (list bytes) StatefsError :=
  if (length frame <? head)%nat then Err Corrupted
  else
    let count := le_value (slice (head - 2) head frame) in
    let status := at_byte frame 4 in
    if negb (status =? STATUS_OK) then Err (error_from_status status)
    else decode_keys (Z.to_nat count) (drop head frame).

Definition decode_list_response (frame : bytes) : result (list bytes) StatefsError :=
  if (length frame <? 7)%nat || negb (at_byte frame 0 =? MAGIC0)
     || negb (at_byte frame 1 =? MAGIC1) then Err Corrupted
  else if negb (at_byte frame 3 =? reply_op OP_LIST) then Err Corrupted
  else if at_byte frame 2 =? VERSION then decode_list_at 7 frame
  else if at_byte frame 2 =? VERSION_V2 then decode_list_at 15 frame
  else Err Corrupted.

(** ** Round trips *)

(** A length field of a payload. *)
Lemma len_field n (l : bytes) a rest :
  vlen l < 2 ^ (8 * Z.of_nat n) → le_value (slice (length a) (length a + n) (a ++ le_bytes n (vlen l) ++ rest)) = vlen l.
Proof.
  intros Hl. rewrite slice_at; [|done|by rewrite le_bytes_length].
  apply le_value_bytes. split; [apply vlen_nonneg|done].
Qed.

Lemma put_payload_roundtrip k v :
  utf8_valid k = true → 1 ≤ vlen k ≤ MAX_KEY_LEN → vlen v ≤ MAX_VALUE_SIZE →
  decode_put_payload (le_bytes 2 (vlen k) ++ le_bytes 4 (vlen v) ++ k ++ v) = Ok (ReqPut k v).
Proof.
  unfold MAX_KEY_LEN, MAX_VALUE_SIZE. intros Hu Hk Hv. unfold decode_put_payload.
  pose proof (len_field 2 k [] (le_bytes 4 (vlen v) ++ k ++ v) ltac:(simpl; lia)) as H1.
  pose proof (len_field 4 v (le_bytes 2 (vlen k)) (k ++ v) ltac:(simpl; lia)) as H2.
  rewrite le_bytes_length in H2. cbn [app length Nat.add] in H1, H2. rewrite H1, H2.
  rewrite !length_app, !le_bytes_length.
  destruct (Nat.ltb_spec (2 + (4 + (length k + length v))) 6); [lia|].
  destruct (Z.eqb_spec (vlen k) 0); [lia|].
  destruct (Z.ltb_spec MAX_KEY_LEN (vlen k)); [unfold MAX_KEY_LEN in *; lia|].
  destruct (Z.ltb_spec MAX_VALUE_SIZE (vlen v)); [unfold MAX_VALUE_SIZE in *; lia|].
  rewrite !vlen_app, !vlen_le_bytes.
  replace (Z.of_nat 2 + (Z.of_nat 4 + (vlen k + vlen v))) with (6 + vlen k + vlen v) by lia.
  rewrite Z.eqb_refl. cbn [negb]. rewrite (app_assoc (le_bytes 2 _)).
  rewrite slice_at by (rewrite ?length_app, ?le_bytes_length; unfold vlen; lia).
  unfold from_utf8. rewrite Hu. cbn [ok_or result_bind]. do 2 f_equal.
  rewrite (app_assoc (le_bytes 2 _ ++ _)).
  apply slice_end; rewrite ?length_app, ?le_bytes_length; unfold vlen; lia.
Qed.

Lemma key_payload_roundtrip k :
  utf8_valid k = true → 1 ≤ vlen k ≤ MAX_KEY_LEN →
  decode_key_only_payload (le_bytes 2 (vlen k) ++ k) = Ok k.
Proof.
  unfold MAX_KEY_LEN. intros Hu Hk. unfold decode_key_only_payload.
  pose proof (len_field 2 k [] k ltac:(simpl; lia)) as H1. cbn [app length Nat.add] in H1. rewrite H1.
  rewrite length_app, le_bytes_length. destruct (Nat.ltb_spec (2 + length k) 2); [lia|].
  destruct (Z.eqb_spec (vlen k) 0); [lia|].
  destruct (Z.ltb_spec MAX_KEY_LEN (vlen k)); [unfold MAX_KEY_LEN in *; lia|].
  rewrite vlen_app, vlen_le_bytes. change (Z.of_nat 2) with 2. rewrite Z.eqb_refl. cbn [negb].
  rewrite slice_end by (rewrite ?le_bytes_length; unfold vlen; lia).
  unfold from_utf8. by rewrite Hu.
Qed.

Lemma list_payload_roundtrip p n :
  utf8_valid p = true → vlen p ≤ MAX_KEY_LEN → in_width 16 n →
  decode_list_payload (le_bytes 2 (vlen p) ++ le_bytes 2 n ++ p) = Ok (ReqList p (clamp_limit n)).
Proof.
  unfold MAX_KEY_LEN. intros Hu Hk Hn. unfold decode_list_payload.
  pose proof (len_field 2 p [] (le_bytes 2 n ++ p) ltac:(simpl; lia)) as H1.
  cbn [app length Nat.add] in H1. rewrite H1.
  rewrite (slice_at (le_bytes 2 (vlen p)) (le_bytes 2 n) p 2 4) by done.
  rewrite le_value_bytes by done.
  rewrite !length_app, !le_bytes_length. destruct (Nat.ltb_spec (2 + (2 + length p)) 4); [lia|].
  destruct (Z.ltb_spec MAX_KEY_LEN (vlen p)); [unfold MAX_KEY_LEN in *; lia|].
  rewrite !vlen_app, !vlen_le_bytes.
  replace (Z.of_nat 2 + (Z.of_nat 2 + vlen p)) with (4 + vlen p) by lia. rewrite Z.eqb_refl.
  cbn [negb]. rewrite app_assoc.
  rewrite slice_end by (rewrite ?length_app, ?le_bytes_length; unfold vlen; lia).
  unfold from_utf8. by rewrite Hu.
Qed.

(** The client's encoder of a request. *)
Definition encode_request (r : Request) : result bytes StatefsError :=
  match r with
  | ReqPut k v => encode_put_request k v
  | ReqGet k => encode_key_only_request OP_GET k
  | ReqDelete k => encode_key_only_request OP_DEL k
  | ReqList p n => encode_list_request p n
  | ReqSync => Ok encode_sync_request
  | ReqReopen => Ok encode_reopen_request
  end.

Definition key_ok (k : bytes) : Prop :=
  utf8_valid k = true ∧ Forall is_byte k ∧ 1 ≤ vlen k ≤ MAX_KEY_LEN.

(** The requests the protocol carries. *)
Definition request_ok (r : Request) : Prop :=
  match r with
  | ReqPut k v => key_ok k ∧ Forall is_byte v ∧ vlen v ≤ MAX_VALUE_SIZE
  | ReqGet k | ReqDelete k => key_ok k
  | ReqList p n =>
      utf8_valid p = true ∧ Forall is_byte p ∧ vlen p ≤ MAX_KEY_LEN ∧ 1 ≤ n ≤ MAX_LIST_LIMIT
  | ReqSync | ReqReopen => True
  end.

Definition request_op (r : Request) : Z :=
  match r with
  | ReqPut _ _ => OP_PUT
  | ReqGet _ => OP_GET
  | ReqDelete _ => OP_DEL
  | ReqList _ _ => OP_LIST
  | ReqSync => OP_SYNC
  | ReqReopen => OP_REOPEN
  end.

(** A request frame: the header and a payload the server decodes back. *)
Lemma encode_request_frame r :
  request_ok r →
  ∃ payload, encode_request r = Ok ([MAGIC0; MAGIC1; VERSION; request_op r] ++ payload) ∧
             decode_op (request_op r) payload = Ok r.
Proof.
  destruct r as [k v|k|k|p n| |]; simpl; intros Hr.
  - destruct Hr as ((Hu & _ & Hk) & _ & Hv). unfold encode_put_request.
    destruct (Z.ltb_spec MAX_KEY_LEN (vlen k)); [lia|].
    destruct (Z.ltb_spec MAX_VALUE_SIZE (vlen v)); [lia|].
    eexists. split; [reflexivity|]. by apply put_payload_roundtrip.
  - destruct Hr as (Hu & _ & Hk). unfold encode_key_only_request.
    destruct (Z.ltb_spec MAX_KEY_LEN (vlen k)); [lia|].
    eexists. split; [reflexivity|]. unfold decode_op. cbn [Z.eqb OP_GET OP_PUT Pos.eqb].
    by rewrite key_payload_roundtrip.
  - destruct Hr as (Hu & _ & Hk). unfold encode_key_only_request.
    destruct (Z.ltb_spec MAX_KEY_LEN (vlen k)); [lia|].
    eexists. split; [reflexivity|]. unfold decode_op. cbn [Z.eqb OP_DEL OP_GET OP_PUT Pos.eqb].
    by rewrite key_payload_roundtrip.
  - destruct Hr as (Hu & _ & Hp & Hn). unfold encode_list_request.
    destruct (Z.ltb_spec MAX_KEY_LEN (vlen p)); [lia|].
    eexists. split; [reflexivity|].
    unfold decode_op. cbn [Z.eqb OP_LIST OP_DEL OP_GET OP_PUT Pos.eqb].
    assert (Hc : clamp_limit n = n).
    { unfold clamp_limit. destruct (Z.eqb_spec n 0); [lia|]. lia. }
    rewrite list_payload_roundtrip; rewrite ?Hc; [done..|]. unfold in_width, MAX_LIST_LIMIT in *. lia.
  - by exists [].
  - by exists [].
Qed.

(** The nonce the client inserts is the one the server reads. *)
Lemma upgrade_decode op payload nonce r :
  decode_op op payload = Ok r → in_width 64 nonce →
  ∃ f, upgrade_request ([MAGIC0; MAGIC1; VERSION; op] ++ payload) nonce = Ok f ∧
       decode_request_with_nonce f = Ok (r, Some nonce).
Proof.
  intros Hd Hn. eexists. split; [reflexivity|].
  remember (le_bytes 8 nonce) as nb eqn:En.
  assert (Hnb : length nb = 8%nat) by (by subst).
  simpl app. unfold decode_request_with_nonce. cbn [length]. rewrite !length_app, Hnb.
  destruct (Nat.ltb_spec (S (S (S (S (8 + length payload))))) 4); [lia|].
  destruct (Nat.ltb_spec (S (S (S (S (8 + length payload))))) 12); [lia|].
  simpl. unfold slice. simpl. rewrite !drop_0, take_app_length', drop_app_length' by done.
  unfold at_byte. simpl. rewrite Hd. simpl. subst nb. by rewrite le_value_bytes.
Qed.

(** ** What the server accepts *)

Lemma from_utf8_Some l s : from_utf8 l = Some s → s = l ∧ utf8_valid l = true.
Proof. unfold from_utf8. destruct (utf8_valid l) eqn:E; [|done]. by intros [= <-]. Qed.

Lemma vlen_slice {A} (l : list A) i j : (i ≤ j ≤ length l)%nat → vlen (slice i j l) = Z.of_nat (j - i).
Proof. intros. unfold vlen. by rewrite slice_length by lia. Qed.

Lemma decode_put_sound payload r :
  Forall is_byte payload → decode_put_payload payload = Ok r → request_ok r.
Proof.
  intros Hb Hd. unfold decode_put_payload in Hd. destruct (_ <? _)%nat; [done|].
  set (kl := le_value (slice 0 2 payload)) in *. set (vl := le_value (slice 2 6 payload)) in *.
  assert (Hk0 : 0 ≤ kl) by (apply le_value_bound; by apply slice_byte).
  assert (Hv0 : 0 ≤ vl) by (apply le_value_bound; by apply slice_byte).
  destruct (Z.eqb_spec kl 0); [done|]. destruct (Z.ltb_spec MAX_KEY_LEN kl); [done|].
  destruct (Z.ltb_spec MAX_VALUE_SIZE vl); [done|].
  destruct (Z.eqb_spec (vlen payload) (6 + kl + vl)) as [Hl|]; [|done]. cbn [negb] in Hd.
  destruct (from_utf8 _) as [k|] eqn:Ek; [|done]. cbn [ok_or result_bind] in Hd. simplify_eq.
  apply from_utf8_Some in Ek as [-> Hu]. unfold vlen in Hl.
  split; [split_and!|split]; auto using slice_byte; rewrite vlen_slice by lia; lia.
Qed.

Lemma decode_key_sound payload k :
  Forall is_byte payload → decode_key_only_payload payload = Ok k → key_ok k.
Proof.
  intros Hb Hd. unfold decode_key_only_payload in Hd. destruct (_ <? _)%nat; [done|].
  set (kl := le_value (slice 0 2 payload)) in *.
  assert (Hk0 : 0 ≤ kl) by (apply le_value_bound; by apply slice_byte).
  destruct (Z.eqb_spec kl 0); [done|]. destruct (Z.ltb_spec MAX_KEY_LEN kl); [done|].
  destruct (Z.eqb_spec (vlen payload) (2 + kl)) as [Hl|]; [|done]. cbn [negb] in Hd.
  destruct (from_utf8 _) as [s|] eqn:Ek; [|done]. cbn [ok_or] in Hd. simplify_eq.
  apply from_utf8_Some in Ek as [-> Hu]. unfold vlen in Hl.
  split_and!; auto using slice_byte; rewrite vlen_slice by lia; lia.
Qed.

Lemma decode_list_sound payload r :
  Forall is_byte payload → decode_list_payload payload = Ok r → request_ok r.
Proof.
  intros Hb Hd. unfold decode_list_payload in Hd. destruct (_ <? _)%nat; [done|].
  set (kl := le_value (slice 0 2 payload)) in *. set (n := le_value (slice 2 4 payload)) in *.
  assert (Hk0 : 0 ≤ kl) by (apply le_value_bound; by apply slice_byte).
  assert (Hn0 : 0 ≤ n) by (apply le_value_bound; by apply slice_byte).
  destruct (Z.ltb_spec MAX_KEY_LEN kl); [done|].
  destruct (Z.eqb_spec (vlen payload) (4 + kl)) as [Hl|]; [|done]. cbn [negb] in Hd.
  destruct (from_utf8 _) as [s|] eqn:Ek; [|done]. cbn [ok_or result_bind] in Hd. simplify_eq.
  apply from_utf8_Some in Ek as [-> Hu]. unfold vlen in Hl.
  split_and!; auto using slice_byte; rewrite ?vlen_slice by lia;
    unfold clamp_limit, MAX_LIST_LIMIT; destruct (Z.eqb_spec n 0); lia.
Qed.

Lemma decode_op_sound op payload r :
  Forall is_byte payload → decode_op op payload = Ok r → request_ok r ∧ op = request_op r.
Proof.
  intros Hb Hd. unfold decode_op in Hd.
  destruct (Z.eqb_spec op OP_PUT) as [->|].
  { split; [by eapply decode_put_sound|]. unfold decode_put_payload in Hd.
    repeat (match type of Hd with context [if ?b then _ else _] => destruct b end; try done).
    destruct (from_utf8 _); by simplify_eq/=. }
  destruct (Z.eqb_spec op OP_GET) as [->|].
  { destruct (decode_key_only_payload payload) eqn:E; simplify_eq/=. split; [|done].
    by eapply decode_key_sound. }
  destruct (Z.eqb_spec op OP_DEL) as [->|].
  { destruct (decode_key_only_payload payload) eqn:E; simplify_eq/=. split; [|done].
    by eapply decode_key_sound. }
  destruct (Z.eqb_spec op OP_LIST) as [->|].
  { split; [by eapply decode_list_sound|]. unfold decode_list_payload in Hd.
    repeat (match type of Hd with context [if ?b then _ else _] => destruct b end; try done).
    destruct (from_utf8 _); by simplify_eq/=. }
  destruct (Z.eqb_spec op OP_SYNC) as [->|]; [destruct payload; by simplify_eq/=|].
  destruct (Z.eqb_spec op OP_REOPEN) as [->|]; [destruct payload; by simplify_eq/=|done].
Qed.

Lemma decode_request_sound frame r nonce :
  Forall is_byte frame → decode_request_with_nonce frame = Ok (r, nonce) →
  request_ok r ∧ at_byte frame 3 = request_op r.
Proof.
  intros Hb Hd. unfold decode_request_with_nonce in Hd. destruct (_ || _); [done|].
  destruct (_ =? VERSION).
  - destruct (decode_request_no_nonce frame) eqn:E; simplify_eq/=.
    unfold decode_request_no_nonce in E. destruct (_ || _); [done|].
    apply decode_op_sound in E; [done|by apply Forall_drop].
  - destruct (_ =? VERSION_V2); [|done]. destruct (_ <? _)%nat; [done|].
    destruct (decode_op _ _) eqn:E; simplify_eq/=.
    apply decode_op_sound in E; [done|by apply Forall_drop].
Qed.

(** ** Replies *)

Lemma status_reply_roundtrip op status nonce :
  decode_status_response op (encode_status_response_with_nonce op status nonce) = Ok status.
Proof.
  unfold decode_status_response, encode_status_response_with_nonce. destruct nonce as [n|].
  - unfold at_byte. simpl. by rewrite Z.eqb_refl.
  - unfold at_byte. simpl. by rewrite Z.eqb_refl.
Qed.

Lemma value_reply_at (head lenb v : bytes) h :
  lenb = le_bytes 4 (vlen v) → (length head + 4)%nat = h → at_byte head 4 = STATUS_OK →
  (5 ≤ length head)%nat → vlen v ≤ MAX_VALUE_SIZE →
  decode_value_at h (head ++ lenb ++ v) = Ok v.
Proof.
  intros -> <- Hs Hh Hv. unfold decode_value_at. rewrite !length_app, le_bytes_length.
  destruct (Nat.ltb_spec (length head + (4 + length v)) (length head + 4)); [lia|].
  unfold at_byte in *. rewrite lookup_app_l, Hs by lia. cbn [negb Z.eqb STATUS_OK].
  replace (length head + 4 - 4)%nat with (length head) by lia.
  rewrite slice_at by (rewrite ?le_bytes_length; lia).
  rewrite le_value_bytes by (split; [apply vlen_nonneg|unfold MAX_VALUE_SIZE in Hv; simpl; lia]).
  destruct (Z.ltb_spec MAX_VALUE_SIZE (vlen v)); [lia|].
  rewrite !vlen_app, vlen_le_bytes.
  destruct (Z.eqb_spec (vlen head + (Z.of_nat 4 + vlen v)) (Z.of_nat (length head + 4) + vlen v)) as [_|Hne];
    [|unfold vlen in Hne; lia]. cbn [orb negb].
  rewrite app_assoc. f_equal. apply slice_end; rewrite ?length_app, ?le_bytes_length; unfold vlen; lia.
Qed.

Lemma get_reply_roundtrip v nonce :
  vlen v ≤ MAX_VALUE_SIZE →
  decode_get_response (encode_get_response_with_nonce STATUS_OK v nonce) = Ok v.
Proof.
  intros Hv. unfold encode_get_response_with_nonce, encode_get_response. destruct nonce as [n|].
  - unfold decode_get_response, at_byte. rewrite !length_app, !le_bytes_length. simpl.
    refine (value_reply_at ([MAGIC0; MAGIC1; VERSION_V2; reply_op OP_GET; STATUS_OK] ++ le_bytes 8 n)
              (le_bytes 4 (vlen v)) v 17 eq_refl _ _ _ Hv); [done..|simpl; lia].
  - unfold decode_get_response, at_byte. rewrite !length_app, !le_bytes_length. simpl.
    by refine (value_reply_at [MAGIC0; MAGIC1; VERSION; reply_op OP_GET; STATUS_OK]
                 (le_bytes 4 (vlen v)) v 9 eq_refl _ _ _ Hv).
Qed.

(** The keys of a listing that fit into a reply of [max_bytes]. *)
Fixpoint list_fit (keys : list bytes) (out_len max_bytes : Z) : list bytes :=
  match keys with
  | [] => []
  | key :: keys' =>
      if max_bytes <? out_len + (2 + vlen key) then []
      else key :: list_fit keys' (out_len + (2 + vlen key)) max_bytes
  end.

Definition list_key_ok (k : bytes) : Prop :=
  utf8_valid k = true ∧ Forall is_byte k ∧ vlen k ≤ MAX_KEY_LEN.

Lemma decode_keys_one k count rest :
  list_key_ok k →
  decode_keys (S count) (le_bytes 2 (vlen k) ++ k ++ rest) =
    let? keys := decode_keys count rest in Ok (k :: keys).
Proof.
  intros (Hu & _ & Hk). unfold MAX_KEY_LEN in Hk. cbn [decode_keys].
  rewrite take_le_app by (split; [apply vlen_nonneg|simpl; lia]). cbn [ok_or result_bind].
  destruct (Z.ltb_spec MAX_KEY_LEN (vlen k)); [unfold MAX_KEY_LEN in *; lia|].
  rewrite vlen_app. pose proof (vlen_nonneg rest).
  destruct (Z.ltb_spec (vlen k + vlen rest) (vlen k)); [lia|]. simpl.
  unfold vlen. rewrite Nat2Z.id, take_app_length, drop_app_length. unfold from_utf8. by rewrite Hu.
Qed.

(** The entries of a listing decode to the keys that fit. *)
Lemma list_entries_decode keys out_len max_bytes count :
  Forall list_key_ok keys → 0 ≤ count → count + vlen keys < max_of 16 →
  let '(entries, n) := list_entries keys out_len max_bytes count in
  n = count + vlen (list_fit keys out_len max_bytes) ∧
  decode_keys (Z.to_nat (n - count)) entries = Ok (list_fit keys out_len max_bytes).
Proof.
  intros Hok. revert out_len count. induction Hok as [|k keys Hk _ IH]; intros out_len count Hc Hn.
  { simpl. unfold vlen. simpl. rewrite Z.add_0_r, Z.sub_diag. done. }
  cbn [list_entries list_fit]. pose proof Hk as (_ & _ & Hkl).
  destruct (Z.ltb_spec MAX_KEY_LEN (vlen k)); [lia|].
  destruct (Z.ltb_spec max_bytes (out_len + (2 + vlen k))).
  { unfold vlen. simpl. rewrite Z.add_0_r, Z.sub_diag. done. }
  assert (Hcons : vlen (k :: keys) = 1 + vlen keys) by (unfold vlen; simpl; lia).
  pose proof (vlen_nonneg keys). unfold saturating_add. rewrite Z.min_l by lia.
  destruct (Z.eqb_spec (count + 1) (max_of 16)); [lia|].
  specialize (IH (out_len + (2 + vlen k)) (count + 1) ltac:(lia) ltac:(lia)).
  destruct (list_entries keys _ max_bytes (count + 1)) as [entries n'].
  destruct IH as [-> Hd]. set (fit := list_fit keys _ _) in *. pose proof (vlen_nonneg fit).
  split; [unfold vlen; simpl; lia|].
  replace (Z.to_nat (count + 1 + vlen fit - count)) with (S (Z.to_nat (count + 1 + vlen fit - (count + 1)))) by lia.
  rewrite decode_keys_one by done. by rewrite Hd.
Qed.

Lemma list_fit_prefix keys out_len max_bytes : list_fit keys out_len max_bytes `prefix_of` keys.
Proof.
  revert out_len. induction keys as [|k keys IH]; intros out_len; simpl; [done|].
  destruct (_ <? _); [apply prefix_nil|]. by apply prefix_cons.
Qed.

Lemma list_reply_at (head : bytes) keys max_bytes h :
  (length head + 2)%nat = h → at_byte head 4 = STATUS_OK → (5 ≤ length head)%nat →
  Forall list_key_ok keys → vlen keys < max_of 16 →
  let '(entries, count) := list_entries keys (Z.of_nat h) max_bytes 0 in
  decode_list_at h (head ++ le_bytes 2 count ++ entries) =
    Ok (list_fit keys (Z.of_nat h) max_bytes).
Proof.
  intros <- Hs Hh Hok Hn.
  pose proof (list_entries_decode keys (Z.of_nat (length head + 2)) max_bytes 0 Hok) as He.
  destruct (list_entries _ _ _ _) as [entries n]. destruct He as [Hnn Hd]; [lia|lia|].
  pose proof (prefix_length _ _ (list_fit_prefix keys (Z.of_nat (length head + 2)) max_bytes)) as Hp.
  unfold decode_list_at. rewrite !length_app, le_bytes_length.
  destruct (Nat.ltb_spec (length head + (2 + length entries)) (length head + 2)); [lia|].
  unfold at_byte in *. rewrite lookup_app_l, Hs by lia. cbn [negb Z.eqb STATUS_OK].
  replace (length head + 2 - 2)%nat with (length head) by lia.
  rewrite slice_at by (rewrite ?le_bytes_length; lia).
  unfold vlen, max_of in *.
  rewrite le_value_bytes by (split; [|change (8 * Z.of_nat 2) with 16]; lia).
  rewrite Z.sub_0_r in Hd. rewrite <- Hd. f_equal. rewrite app_assoc.
  apply drop_app_length'. rewrite length_app, le_bytes_length. lia.
Qed.

Lemma list_reply_roundtrip keys max_bytes nonce :
  Forall list_key_ok keys → vlen keys < max_of 16 →
  decode_list_response (encode_list_response_with_nonce STATUS_OK keys max_bytes nonce) =
    Ok (list_fit keys (match nonce with Some _ => 15 | None => 7 end) max_bytes).
Proof.
  intros Hok Hn. unfold encode_list_response_with_nonce, encode_list_response.
  destruct nonce as [n|].
  - pose proof (list_reply_at ([MAGIC0; MAGIC1; VERSION_V2; reply_op OP_LIST; STATUS_OK] ++ le_bytes 8 n)
                  keys max_bytes 15 eq_refl eq_refl ltac:(simpl; lia) Hok Hn) as Hl.
    change (Z.of_nat 15) with 15 in Hl. destruct (list_entries keys 15 max_bytes 0) as [entries c].
    rewrite <- Hl. unfold decode_list_response, at_byte. rewrite !length_app, !le_bytes_length. done.
  - pose proof (list_reply_at [MAGIC0; MAGIC1; VERSION; reply_op OP_LIST; STATUS_OK]
                  keys max_bytes 7 eq_refl eq_refl ltac:(simpl; lia) Hok Hn) as Hl.
    change (Z.of_nat 7) with 7 in Hl. destruct (list_entries keys 7 max_bytes 0) as [entries c].
    rewrite <- Hl. unfold decode_list_response, at_byte. rewrite !length_app, !le_bytes_length. done.
Qed.

(** The statefs wire protocol round-trips.  Every request within the bounds
    is read back by the server as sent, with no nonce from the plain frame and
    with the client's nonce from the upgraded one; the value of a successful
    get, every status, and the keys of a listing that fit the reply (a prefix
    of the listing, in order) are read back by the client. *)
Theorem statefs_protocol_roundtrip r nonce :
  request_ok r → in_width 64 nonce →
  (∃ f f2, encode_request r = Ok f ∧ decode_request_with_nonce f = Ok (r, None) ∧
     upgrade_request f nonce = Ok f2 ∧ decode_request_with_nonce f2 = Ok (r, Some nonce)) ∧
  (∀ v n, vlen v ≤ MAX_VALUE_SIZE →
     decode_get_response (encode_get_response_with_nonce STATUS_OK v n) = Ok v) ∧
  (∀ op status n, decode_status_response op (encode_status_response_with_nonce op status n) = Ok status) ∧
  (∀ keys max_bytes n, Forall list_key_ok keys → vlen keys < max_of 16 →
     ∃ fit, decode_list_response (encode_list_response_with_nonce STATUS_OK keys max_bytes n) = Ok fit ∧
            fit `prefix_of` keys).
Proof.
  intros Hr Hn. split_and!.
  - destruct (encode_request_frame r Hr) as (payload & He & Hd).
    destruct (upgrade_decode _ _ _ _ Hd Hn) as (f2 & Hu & Hd2).
    eexists _, f2. split_and!; [exact He| |exact Hu|exact Hd2].
    unfold decode_request_with_nonce, decode_request_no_nonce, at_byte. simpl.
    rewrite drop_0, Hd. done.
  - intros v n. apply get_reply_roundtrip.
  - intros op status n. apply status_reply_roundtrip.
  - intros keys max_bytes n Hok Hlen. eexists. split; [by apply list_reply_roundtrip|].
    apply list_fit_prefix.
Qed.

Lemma statefs_protocol_roundtrip_witness :
  ∃ f f2, encode_request (ReqPut [47; 115] [1; 2]) = Ok f ∧
    decode_request_with_nonce f = Ok (ReqPut [47; 115] [1; 2], None) ∧
    upgrade_request f 7 = Ok f2 ∧
    decode_request_with_nonce f2 = Ok (ReqPut [47; 115] [1; 2], Some 7).
Proof.
  refine (proj1 (statefs_protocol_roundtrip (ReqPut [47; 115] [1; 2]) 7 _ _)).
  - repeat split; try (repeat constructor; unfold is_byte; lia); unfold vlen, MAX_KEY_LEN, MAX_VALUE_SIZE; simpl; lia.
  - unfold in_width. lia.
Defined.
