(* ===== verification/Statefsd.v ===== *)
(** The state service ([source/services/statefsd/src/os_lite.rs], [lib.rs]): one
    request frame against the engine under the policy daemon's decisions, the
    reply frame, and the loop that may switch to the persistent backend.

    The policy daemon is another process; its answer to a capability query is
    the parameter [policyd_allows] of the model. *)

From S2P Require Import Prelude Bytes Storage Statefs StatefsProps StatefsDurable StatefsCrash StatefsProto.

Definition MAX_LIST_RESPONSE_BYTES : Z := 512.
Definition IPC_MAX_FRAME_BYTES : Z := 8 * 1024.
Definition MAX_INLINE_VALUE_BYTES : Z := IPC_MAX_FRAME_BYTES - 64.
Definition VIRTIO_MAX_RETRIES : Z := 5.

(** "statefs.read", "statefs.write", "statefs.keystore", "statefs.boot". *)
Definition CAP_READ : bytes := [115; 116; 97; 116; 101; 102; 115; 46; 114; 101; 97; 100].
Definition CAP_WRITE : bytes := [115; 116; 97; 116; 101; 102; 115; 46; 119; 114; 105; 116; 101].
Definition CAP_KEYSTORE : bytes :=
  [115; 116; 97; 116; 101; 102; 115; 46; 107; 101; 121; 115; 116; 111; 114; 101].
Definition CAP_BOOT : bytes := [115; 116; 97; 116; 101; 102; 115; 46; 98; 111; 111; 116].

(** "/state/keystore/" and "/state/boot/". *)
Definition DIR_KEYSTORE : bytes := PREFIX_STATE ++ [107; 101; 121; 115; 116; 111; 114; 101; 47].
Definition DIR_BOOT : bytes := PREFIX_STATE ++ [98; 111; 111; 116; 47].

(** "selftest-client", "metricsd". *)
Definition NAME_SELFTEST : bytes :=
  [115; 101; 108; 102; 116; 101; 115; 116; 45; 99; 108; 105; 101; 110; 116].
Definition NAME_METRICSD : bytes := [109; 101; 116; 114; 105; 99; 115; 100].

Definition SID_METRICSD_ALT : Z := 0xed205ae1e47c393d.

(** "/state/crash/child.demo.minidump.nmd". *)
Definition TASK0018_CHILD_DUMP_PATH : bytes :=
  PREFIX_STATE ++ [99; 114; 97; 115; 104; 47; 99; 104; 105; 108; 100; 46; 100; 101; 109; 111; 46;
                   109; 105; 110; 105; 100; 117; 109; 112; 46; 110; 109; 100].

(** The service identity of a name: FNV-1a, 64 bits ([nexus-abi]). *)
Definition service_id_from_name (name : bytes) : Z :=
  foldl (fun h b => (Z.lxor h b * 0x100000001b3) mod 2 ^ 64) 0xcbf29ce484222325 name.

Definition canonical_policy_subject_for_statefs
    (subject_id op : Z) (path : bytes) (selftest_sid metricsd_sid : Z) : Z :=
  if (subject_id =? 0) && (op =? OP_PUT) && bool_decide (path = TASK0018_CHILD_DUMP_PATH)
  then selftest_sid
  else if subject_id =? SID_METRICSD_ALT then metricsd_sid
  else subject_id.

Definition required_cap (op : Z) (path : bytes) : bytes :=
  if starts_with DIR_KEYSTORE path then CAP_KEYSTORE
  else if starts_with DIR_BOOT path then CAP_BOOT
  else if (op =? OP_PUT) || (op =? OP_DEL) || (op =? OP_SYNC) || (op =? OP_REOPEN) then CAP_WRITE
  else CAP_READ.

Section Server.
Context {D : Type} `{BlockStore D}.
Context (policyd_allows : Z → bytes → bool).

Definition policy_allows (sender op : Z) (path : bytes) : bool :=
  policyd_allows
    (canonical_policy_subject_for_statefs sender op path
       (service_id_from_name NAME_SELFTEST) (service_id_from_name NAME_METRICSD))
    (required_cap op path).

(** Sync and reopen: boot authority or the generic writer. *)
Definition maintenance_allowed (sender : Z) : bool :=
  policyd_allows sender CAP_BOOT || policyd_allows sender CAP_WRITE.

Definition status_of (r : result unit StatefsError) : Z :=
  match r with
  | Ok _ => STATUS_OK
  | Err err => status_from_error err
  end.

Definition handle_frame (e : JournalEngine D) (sender : Z) (frame : bytes)
    : JournalEngine D * bytes :=
  let op_hint := default OP_GET (frame !! 3%nat) in
  match decode_request_with_nonce frame with
  | Err status => (e, encode_status_response_with_nonce op_hint status None)
  | Ok (ReqPut key value, nonce) =>
      if MAX_INLINE_VALUE_BYTES <? vlen value then
        (e, encode_status_response_with_nonce OP_PUT STATUS_VALUE_TOO_LARGE nonce)
      else if negb (policy_allows sender OP_PUT key) then
        (e, encode_status_response_with_nonce OP_PUT STATUS_ACCESS_DENIED nonce)
      else
        let '(e', r) := put e key value in
        (e', encode_status_response_with_nonce OP_PUT (status_of r) nonce)
  | Ok (ReqGet key, nonce) =>
      if negb (policy_allows sender OP_GET key) then
        (e, encode_get_response_with_nonce STATUS_ACCESS_DENIED [] nonce)
      else
        match get e key with
        | Ok value =>
            if MAX_INLINE_VALUE_BYTES <? vlen value
            then (e, encode_get_response_with_nonce STATUS_VALUE_TOO_LARGE [] nonce)
            else (e, encode_get_response_with_nonce STATUS_OK value nonce)
        | Err err => (e, encode_get_response_with_nonce (status_from_error err) [] nonce)
        end
  | Ok (ReqDelete key, nonce) =>
      if negb (policy_allows sender OP_DEL key) then
        (e, encode_status_response_with_nonce OP_DEL STATUS_ACCESS_DENIED nonce)
      else
        let '(e', r) := delete_key e key in
        (e', encode_status_response_with_nonce OP_DEL (status_of r) nonce)
  | Ok (ReqList prefix limit, nonce) =>
      if negb (policy_allows sender OP_LIST prefix) then
        (e, encode_list_response_with_nonce STATUS_ACCESS_DENIED [] MAX_LIST_RESPONSE_BYTES nonce)
      else
        match list_keys e prefix (Z.to_nat limit) with
        | Ok keys => (e, encode_list_response_with_nonce STATUS_OK keys MAX_LIST_RESPONSE_BYTES nonce)
        | Err err =>
            (e, encode_list_response_with_nonce (status_from_error err) []
                  MAX_LIST_RESPONSE_BYTES nonce)
        end
  | Ok (ReqSync, nonce) =>
      if negb (maintenance_allowed sender) then
        (e, encode_status_response_with_nonce OP_SYNC STATUS_ACCESS_DENIED nonce)
      else
        let '(e', r) := sync e in
        (e', encode_status_response_with_nonce OP_SYNC (status_of r) nonce)
  | Ok (ReqReopen, nonce) =>
      if negb (maintenance_allowed sender) then
        (e, encode_status_response_with_nonce OP_REOPEN STATUS_ACCESS_DENIED nonce)
      else
        let '(e', r) := reopen e in
        (e', encode_status_response_with_nonce OP_REOPEN (status_of r) nonce)
  end.

(** The state of the service loop. *)
Record service := {
  engine : JournalEngine D;
  pristine : bool;
  virtio_upgraded : bool;
  virtio_retry_count : Z
}.

(** The backend upgrade in front of a request: [virtio] is the persistent
    device when its window has been granted and the driver came up. *)
Definition try_upgrade (s : service) (virtio : option D) : service :=
  if s.(pristine) && negb s.(virtio_upgraded) && (s.(virtio_retry_count) <? VIRTIO_MAX_RETRIES)
  then match virtio with
       | None => s
       | Some blk =>
           match open blk with
           | Ok e => {| engine := e; pristine := s.(pristine); virtio_upgraded := true;
                        virtio_retry_count := s.(virtio_retry_count) |}
           | Err _ => {| engine := s.(engine); pristine := s.(pristine);
                         virtio_upgraded := s.(virtio_upgraded);
                         virtio_retry_count := s.(virtio_retry_count) + 1 |}
           end
       end
  else s.

Definition mutating_op (op : Z) : bool :=
  (op =? OP_PUT) || (op =? OP_DEL) || (op =? OP_SYNC) || (op =? OP_REOPEN).

(** One request of the loop. *)
Definition service_step (s : service) (virtio : option D) (sender : Z) (frame : bytes)
    : service * bytes :=
  let s := try_upgrade s virtio in
  let '(e, rsp) := handle_frame s.(engine) sender frame in
  let pristine := match frame !! 3%nat with
                  | Some op => if mutating_op op then false else s.(pristine)
                  | None => s.(pristine)
                  end in
  ({| engine := e; pristine := pristine; virtio_upgraded := s.(virtio_upgraded);
      virtio_retry_count := s.(virtio_retry_count) |}, rsp).

(** ** Access control *)

(** The policy's verdict on a decoded request. *)
Definition allowed (sender : Z) (r : Request) : bool :=
  match r with
  | ReqPut key _ => policy_allows sender OP_PUT key
  | ReqGet key => policy_allows sender OP_GET key
  | ReqDelete key => policy_allows sender OP_DEL key
  | ReqList prefix _ => policy_allows sender OP_LIST prefix
  | ReqSync | ReqReopen => maintenance_allowed sender
  end.

(** A refused request changes nothing and its reply does not depend on the
    store. *)
Lemma refused sender frame r nonce :
  decode_request_with_nonce frame = Ok (r, nonce) → allowed sender r = false →
  ∃ rsp, ∀ e' : JournalEngine D, handle_frame e' sender frame = (e', rsp).
Proof.
  intros Hd Ha. unfold handle_frame. rewrite Hd.
  destruct r; simpl in Ha; rewrite Ha; simpl; [|eauto..].
  destruct (_ <? _); eauto.
Qed.

Lemma append_record_kv (e : JournalEngine D) o k v : (append_record e o k v).1.(kv) = e.(kv).
Proof.
  unfold append_record. destruct (_ <? _); [done|].
  by destruct (append_blocks _ _ _ _ _) as [d [[]|]].
Qed.

Lemma put_other (e : JournalEngine D) k v k' : k' ≠ k → (put e k v).1.(kv) !! k' = e.(kv) !! k'.
Proof.
  intros Hne. unfold put. destruct (validate_key k); [|done]. destruct (_ <? _); [done|].
  pose proof (append_record_kv e Put k v) as Hk.
  destruct (append_record e Put k v) as [e' [[]|]]; simpl in *; rewrite Hk; [|done].
  by apply lookup_insert_ne.
Qed.

Lemma delete_other (e : JournalEngine D) k k' :
  k' ≠ k → (delete_key e k).1.(kv) !! k' = e.(kv) !! k'.
Proof.
  intros Hne. unfold delete_key. destruct (validate_key k); [|done].
  case_bool_decide; [|done]. pose proof (append_record_kv e Delete k []) as Hk.
  destruct (append_record e Delete k []) as [e' [[]|]]; simpl in *; rewrite Hk; [|done].
  by apply lookup_delete_ne.
Qed.

Lemma sync_kv (e : JournalEngine D) : (sync e).1.(kv) = e.(kv).
Proof. unfold sync. by destruct (dev_sync _). Qed.

(** A frame that changes a key is an allowed put or delete of that key. *)
Lemma change_authorised rs e sender frame k :
  engine_inv rs e → vlen rs < MAX_REPLAY_RECORDS →
  (handle_frame e sender frame).1.(kv) !! k ≠ e.(kv) !! k →
  ∃ r nonce, decode_request_with_nonce frame = Ok (r, nonce) ∧
    ((∃ v, r = ReqPut k v) ∧ policy_allows sender OP_PUT k = true ∨
     r = ReqDelete k ∧ policy_allows sender OP_DEL k = true).
Proof.
  intros Hinv Hlt Hne. unfold handle_frame in Hne.
  destruct (decode_request_with_nonce frame) as [[r nonce]|status]; [|done].
  destruct r as [key v|key|key|p n| |].
  - destruct (_ <? _); [done|]. destruct (policy_allows sender OP_PUT key) eqn:Ep; [|done].
    simpl in Hne. destruct (decide (k = key)) as [->|Hk]; [by eauto 8|].
    pose proof (put_other e key v k Hk) as Hp. destruct (put e key v); simpl in *; congruence.
  - destruct (negb _); [done|]. by destruct (get e key); [destruct (_ <? _)|].
  - destruct (policy_allows sender OP_DEL key) eqn:Ep; [|done].
    simpl in Hne. destruct (decide (k = key)) as [->|Hk]; [by eauto 8|].
    pose proof (delete_other e key k Hk) as Hp. destruct (delete_key e key); simpl in *; congruence.
  - destruct (negb _); [done|]. by destruct (list_keys e p _).
  - destruct (negb _); [done|]. pose proof (sync_kv e). destruct (sync e); simpl in *; congruence.
  - destruct (negb _); [done|]. by rewrite (reopen_inv rs e Hinv) in Hne.
Qed.


(** ** The backend upgrade *)

Definition run_frames (s : service) (frames : list (option D * Z * bytes)) : service :=
  foldl (fun s '(virtio, sender, frame) => (service_step s virtio sender frame).1) s frames.

(** Once a mutating request has been taken the loop never leaves its engine:
    the store it answers from is the one that took the request. *)
Lemma upgrade_pristine_only s virtio : s.(pristine) = false → try_upgrade s virtio = s.
Proof. intros Hp. unfold try_upgrade. by rewrite Hp. Qed.

Lemma step_keeps_dirty s virtio sender frame :
  s.(pristine) = false → (service_step s virtio sender frame).1.(pristine) = false.
Proof.
  intros Hp. unfold service_step. rewrite upgrade_pristine_only by done.
  destruct (handle_frame _ _ _). simpl. destruct (frame !! 3%nat); [|done]. by destruct (mutating_op _).
Qed.

(** The engine reached by the frames alone, without the loop around them. *)
Definition run_engine (e : JournalEngine D) (frames : list (option D * Z * bytes)) : JournalEngine D :=
  foldl (fun e '(_, sender, frame) => (handle_frame e sender frame).1) e frames.

Lemma dirty_engine s frames :
  s.(pristine) = false → (run_frames s frames).(engine) = run_engine s.(engine) frames.
Proof.
  revert s. induction frames as [|[[v sender] frame] frames IH]; intros s Hp; simpl; [done|].
  rewrite IH by (by apply step_keeps_dirty). f_equal.
  unfold service_step. rewrite upgrade_pristine_only by done. by destruct (handle_frame _ _ _).
Qed.

End Server.

(** ** Examples *)

(** A policy that grants reading and nothing else, and a store with one key of
    the keystore directory and one other. *)
Definition read_only (subject : Z) (cap : bytes) : bool := bool_decide (cap = CAP_READ).
Definition write_only (subject : Z) (cap : bytes) : bool := bool_decide (cap = CAP_WRITE).
Definition KEY_SECRET : bytes := DIR_KEYSTORE ++ [115].

Definition demo_store : JournalEngine Mem.MemBlockDevice :=
  (put (put (blank (Mem.new 64 8)) KEY_SECRET [1; 2]).1 KEY_A [3]).1.

Definition frame_of (r : Request) : bytes :=
  match encode_request r with
  | Ok f => f
  | Err _ => []
  end.


(** A listing is authorised by its prefix, not by the keys it returns.  A
    subject that holds only the read capability is refused the value of a
    keystore key and a listing of the keystore directory, but a listing of
    [/state/] returns the name of that key to it. *)
Theorem statefsd_list_crosses_directories :
  let get := handle_frame read_only demo_store 7 (frame_of (ReqGet KEY_SECRET)) in
  let ls1 := handle_frame read_only demo_store 7 (frame_of (ReqList DIR_KEYSTORE 10)) in
  let ls2 := handle_frame read_only demo_store 7 (frame_of (ReqList PREFIX_STATE 10)) in
  decode_get_response get.2 = Err AccessDenied ∧
  decode_list_response ls1.2 = Err AccessDenied ∧
  decode_list_response ls2.2 = Ok [KEY_A; KEY_SECRET].
Proof. split_and!; vm_compute; reflexivity. Qed.

(** The loop never drops an acknowledged mutation when it switches to the
    persistent device: after a request whose opcode mutates, every later frame
    is served by the same engine, whatever devices appear. *)
Theorem statefsd_upgrade_keeps_writes {D} `{BlockStore D} (policyd : Z → bytes → bool)
    (s : @service D) virtio sender frame op frames :
  frame !! 3%nat = Some op → mutating_op op = true →
  let s1 := (service_step policyd s virtio sender frame).1 in
  (run_frames policyd s1 frames).(engine) = run_engine policyd s1.(engine) frames ∧
  s1.(engine) = (handle_frame policyd (try_upgrade s virtio).(engine) sender frame).1.
Proof.
  intros Hf Hm s1. split.
  - apply dirty_engine. unfold s1, service_step. destruct (handle_frame _ _ _ _). simpl.
    by rewrite Hf, Hm.
  - unfold s1, service_step. by destruct (handle_frame _ _ _ _).
Qed.

Lemma statefsd_upgrade_keeps_writes_witness :
  let s := {| engine := blank demo_device; pristine := true; virtio_upgraded := false;
              virtio_retry_count := 0 |} in
  let s1 := (service_step write_only s None 7 (frame_of (ReqPut KEY_A [1]))).1 in
  (run_frames write_only s1 [(Some (Mem.new 64 8), 7, frame_of (ReqGet KEY_A))]).(engine) =
    run_engine write_only s1.(engine) [(Some (Mem.new 64 8), 7, frame_of (ReqGet KEY_A))].
Proof.
  refine (proj1 (statefsd_upgrade_keeps_writes write_only _ None 7 (frame_of (ReqPut KEY_A [1])) OP_PUT
            [(Some (Mem.new 64 8), 7, frame_of (ReqGet KEY_A))] _ _)); reflexivity.
Defined.
