(* ===== verification/NxfsFormat.v ===== *)
(** The on-disk format of the user-data filesystem
    ([userspace/nxfs/src/format.rs], [lib.rs]): constants, errors, the
    superblock with its two checkpoint slots, names. *)

From S2P Require Import Prelude Bytes Storage.

Definition LOGICAL_BLOCK_SIZE : nat := 4096.
Definition NXFS_VERSION : Z := 1.
Definition SB_MAGIC : bytes := [78; 88; 70; 83].        (* "NXFS" *)
Definition JOURNAL_MAGIC : bytes := [78; 88; 74; 76].   (* "NXJL" *)
Definition MAX_NAME_LEN : Z := 255.
Definition MAX_DEPTH : nat := 32.
Definition ROOT_OBJECT : Z := 1.
Definition KIND_FILE : Z := 0.
Definition KIND_DIR : Z := 1.

(** The errors of the engine. *)
Inductive NxfsError :=
| NotFound
| NotDir
| IsDir
| Exists
| NoSpace
| TooBig
| Integrity
| Busy
| Invalid
| Io
| Unsupported.

#[export] Instance NxfsError_eq_dec : EqDecision NxfsError.
Proof. solve_decision. Defined.

Record CheckpointSlot := {
  generation : Z;
  root_lb : Z;
  len_bytes : Z;
  slot_crc : Z
}.

Definition default_slot : CheckpointSlot :=
  {| generation := 0; root_lb := 0; len_bytes := 0; slot_crc := 0 |}.

(** The superblock; [slots] is the array of two. *)
Record Superblock := {
  uuid : bytes;
  sb_total_blocks : Z;
  journal_start : Z;
  journal_blocks : Z;
  slot0 : CheckpointSlot;
  slot1 : CheckpointSlot;
  enc_mode : Z
}.

#[export] Instance CheckpointSlot_eq_dec : EqDecision CheckpointSlot.
Proof. solve_decision. Defined.
#[export] Instance Superblock_eq_dec : EqDecision Superblock.
Proof. solve_decision. Defined.

Definition SB_ENCODED_LEN : nat := 107.

Definition crc32c (data : bytes) : Z := crc32 0x82F63B78 data.

Definition encode_slot (s : CheckpointSlot) : bytes :=
  le_bytes 8 s.(generation) ++ le_bytes 8 s.(root_lb) ++ le_bytes 8 s.(len_bytes)
  ++ le_bytes 4 s.(slot_crc).

Definition sb_body (sb : Superblock) : bytes :=
  SB_MAGIC ++ le_bytes 2 NXFS_VERSION ++ sb.(uuid) ++ le_bytes 8 sb.(sb_total_blocks)
  ++ le_bytes 8 sb.(journal_start) ++ le_bytes 8 sb.(journal_blocks)
  ++ encode_slot sb.(slot0) ++ encode_slot sb.(slot1) ++ [sb.(enc_mode)].

(** [Superblock::encode]: one logical block, zero-padded behind the checksum. *)
Definition sb_encode (sb : Superblock) : bytes :=
  let body := sb_body sb in
  body ++ le_bytes 4 (crc32c body) ++ zeros (LOGICAL_BLOCK_SIZE - SB_ENCODED_LEN).

Definition decode_slot (block : bytes) (off : nat) : CheckpointSlot :=
  {| generation := le_value (slice off (off + 8) block);
     root_lb := le_value (slice (off + 8) (off + 16) block);
     len_bytes := le_value (slice (off + 16) (off + 24) block);
     slot_crc := le_value (slice (off + 24) (off + 28) block) |}.

(** [Superblock::decode]. *)
Definition sb_decode (block : bytes) : result Superblock NxfsError :=
  if (length block <? SB_ENCODED_LEN)%nat then Err Integrity
  else if negb (bool_decide (slice 0 4 block = SB_MAGIC)) then Err Integrity
  else if negb (le_value (slice 4 6 block) =? NXFS_VERSION) then Err Integrity
  else if negb (crc32c (take 103 block) =? le_value (slice 103 107 block)) then Err Integrity
  else
    let sb := {| uuid := slice 6 22 block;
                 sb_total_blocks := le_value (slice 22 30 block);
                 journal_start := le_value (slice 30 38 block);
                 journal_blocks := le_value (slice 38 46 block);
                 slot0 := decode_slot block 46;
                 slot1 := decode_slot block 74;
                 enc_mode := default 0 (block !! 102%nat) |} in
    if (sb.(journal_start) =? 0) || (sb.(journal_blocks) =? 0)
       || (sb.(sb_total_blocks) <=? saturating_add 64 sb.(journal_start) sb.(journal_blocks))
    then Err Integrity
    else Ok sb.

(** The slot the next checkpoint overwrites, and the newest one ([false] is
    slot 0). *)
Definition older_slot (sb : Superblock) : bool :=
  sb.(slot1).(generation) <? sb.(slot0).(generation).

Definition newest_slot (sb : Superblock) : option bool :=
  if (sb.(slot0).(generation) =? 0) && (sb.(slot1).(generation) =? 0) then None
  else if sb.(slot1).(generation) <=? sb.(slot0).(generation) then Some false
  else Some true.

Definition get_slot (sb : Superblock) (i : bool) : CheckpointSlot :=
  if i then sb.(slot1) else sb.(slot0).

Definition set_slot (sb : Superblock) (i : bool) (s : CheckpointSlot) : Superblock :=
  {| uuid := sb.(uuid); sb_total_blocks := sb.(sb_total_blocks);
     journal_start := sb.(journal_start); journal_blocks := sb.(journal_blocks);
     slot0 := if i then sb.(slot0) else s; slot1 := if i then s else sb.(slot1);
     enc_mode := sb.(enc_mode) |}.

Definition DOT : bytes := [46].
Definition DOTDOT : bytes := [46; 46].

Definition validate_name (name : bytes) : result unit NxfsError :=
  if bool_decide (name = []) || (MAX_NAME_LEN <? vlen name) then Err TooBig
  else if bool_decide (name = DOT) || bool_decide (name = DOTDOT)
          || bool_decide (47 ∈ name) || bool_decide (0 ∈ name) then Err Invalid
  else Ok tt.

(** ** The superblock round trip *)

Definition slot_ok (s : CheckpointSlot) : Prop :=
  in_width 64 s.(generation) ∧ in_width 64 s.(root_lb) ∧ in_width 64 s.(len_bytes) ∧
  in_width 32 s.(slot_crc).

(** A superblock as the engine writes it: fields of their width, the journal
    inside the container. *)
Definition sb_ok (sb : Superblock) : Prop :=
  length sb.(uuid) = 16%nat ∧ Forall is_byte sb.(uuid) ∧ in_width 64 sb.(sb_total_blocks) ∧
  0 < sb.(journal_start) ∧ 0 < sb.(journal_blocks) ∧
  sb.(journal_start) + sb.(journal_blocks) < sb.(sb_total_blocks) ∧
  slot_ok sb.(slot0) ∧ slot_ok sb.(slot1) ∧ is_byte sb.(enc_mode).

Lemma sb_crc_width data : Forall is_byte data → in_width 32 (crc32c data).
Proof. intros. apply crc32_width; [unfold in_width; lia|done..]. Qed.

Lemma encode_slot_length s : length (encode_slot s) = 28%nat.
Proof. unfold encode_slot. by rewrite !length_app, !le_bytes_length. Qed.

Lemma encode_slot_byte s : Forall is_byte (encode_slot s).
Proof. unfold encode_slot. repeat apply Forall_app_2; apply le_bytes_byte. Qed.

Lemma sb_body_length sb : length sb.(uuid) = 16%nat → length (sb_body sb) = 103%nat.
Proof.
  intros Hu. unfold sb_body. rewrite !length_app, !le_bytes_length, !encode_slot_length, Hu. done.
Qed.

Lemma sb_body_byte sb : sb_ok sb → Forall is_byte (sb_body sb).
Proof.
  intros (_ & Hu & _ & _ & _ & _ & _ & _ & He). unfold sb_body.
  repeat apply Forall_app_2; auto using le_bytes_byte, encode_slot_byte; repeat constructor;
    unfold is_byte in *; lia.
Qed.

Lemma sb_encode_length sb : length sb.(uuid) = 16%nat → length (sb_encode sb) = LOGICAL_BLOCK_SIZE.
Proof.
  intros Hu. unfold sb_encode. rewrite !length_app, sb_body_length, le_bytes_length, length_zeros by done.
  reflexivity.
Qed.

Lemma sb_encode_byte sb : sb_ok sb → Forall is_byte (sb_encode sb).
Proof.
  intros Hs. unfold sb_encode. apply Forall_app_2; [by apply sb_body_byte|].
  apply Forall_app_2; [apply le_bytes_byte|apply zeros_byte].
Qed.

(** A slot decodes where it was encoded. *)
Lemma decode_slot_at a s c off :
  slot_ok s → length a = off → decode_slot (a ++ encode_slot s ++ c) off = s.
Proof.
  intros (Hg & Hr & Hl & Hc) Ha. unfold decode_slot, encode_slot. rewrite <- !app_assoc.
  set (g := le_bytes 8 (generation s)). set (r := le_bytes 8 (root_lb s)).
  set (l := le_bytes 8 (len_bytes s)). set (k := le_bytes 4 (slot_crc s)).
  assert (length g = 8%nat ∧ length r = 8%nat ∧ length l = 8%nat ∧ length k = 4%nat)
    as (Hlg & Hlr & Hll & Hlk) by done.
  rewrite (slice_at a g) by lia.
  rewrite (app_assoc a g), (slice_at (a ++ g) r) by (rewrite ?length_app; lia).
  rewrite (app_assoc (a ++ g) r), (slice_at ((a ++ g) ++ r) l) by (rewrite ?length_app; lia).
  rewrite (app_assoc ((a ++ g) ++ r) l), (slice_at (((a ++ g) ++ r) ++ l) k) by (rewrite ?length_app; lia).
  unfold g, r, l, k. rewrite !le_value_bytes by done. by destruct s.
Qed.

Lemma sb_roundtrip sb : sb_ok sb → sb_decode (sb_encode sb) = Ok sb.
Proof.
  intros Hs. pose proof (sb_body_byte sb Hs) as Hbb.
  destruct Hs as (Hu & Hub & Ht & Hjs & Hjb & Hj & H0 & H1 & He).
  unfold sb_decode. rewrite sb_encode_length by done.
  pose proof (sb_body_length sb Hu) as Hbl.
  assert (Hcrc : negb (crc32c (take 103 (sb_encode sb)) =? le_value (slice 103 107 (sb_encode sb))) = false).
  { unfold sb_encode. rewrite take_app_length' by done. rewrite slice_at by (rewrite ?le_bytes_length; lia).
    rewrite le_value_bytes by (by apply sb_crc_width). by rewrite Z.eqb_refl. }
  rewrite Hcrc. clear Hcrc. unfold sb_encode, sb_body in *. rewrite <- !app_assoc.
  set (tail := le_bytes 4 _ ++ zeros _).
  set (v := le_bytes 2 NXFS_VERSION). set (t := le_bytes 8 (sb_total_blocks sb)).
  set (js := le_bytes 8 (journal_start sb)). set (jb := le_bytes 8 (journal_blocks sb)).
  assert (length SB_MAGIC = 4%nat ∧ length v = 2%nat ∧ length t = 8%nat ∧ length js = 8%nat ∧ length jb = 8%nat)
    as (Hlm & Hlv & Hlt & Hljs & Hljb) by done.
  destruct (Nat.ltb_spec LOGICAL_BLOCK_SIZE SB_ENCODED_LEN) as [Hlt'|_];
    [unfold LOGICAL_BLOCK_SIZE, SB_ENCODED_LEN in Hlt'; lia|].
  rewrite slice_start by done. rewrite bool_decide_eq_true_2 by done. cbn [negb].
  rewrite (slice_at SB_MAGIC v) by lia. change (le_value v =? NXFS_VERSION) with true. cbn [negb].
  rewrite (app_assoc SB_MAGIC v). set (p1 := SB_MAGIC ++ v).
  rewrite (slice_at p1 (uuid sb)) by (unfold p1; rewrite ?length_app; lia).
  rewrite (app_assoc p1). set (p2 := p1 ++ uuid sb).
  rewrite (slice_at p2 t) by (unfold p2, p1; rewrite ?length_app; lia).
  rewrite (app_assoc p2). set (p3 := p2 ++ t).
  rewrite (slice_at p3 js) by (unfold p3, p2, p1; rewrite ?length_app; lia).
  rewrite (app_assoc p3). set (p4 := p3 ++ js).
  rewrite (slice_at p4 jb) by (unfold p4, p3, p2, p1; rewrite ?length_app; lia).
  rewrite (app_assoc p4). set (p5 := p4 ++ jb).
  assert (Hp5 : length p5 = 46%nat) by (unfold p5, p4, p3, p2, p1; rewrite !length_app; lia).
  rewrite (decode_slot_at p5) by done. rewrite (app_assoc p5).
  rewrite (decode_slot_at (p5 ++ encode_slot (slot0 sb))) by
    (try done; rewrite length_app, encode_slot_length; lia).
  rewrite (app_assoc _ (encode_slot (slot1 sb))), lookup_app_r by (rewrite !length_app, !encode_slot_length; lia).
  rewrite !length_app, !encode_slot_length, Hp5. simpl lookup.
  unfold t, js, jb, in_width in *. rewrite !le_value_bytes by (unfold in_width; simpl; lia).
  cbn [journal_start journal_blocks sb_total_blocks].
  destruct (Z.eqb_spec (journal_start sb) 0); [lia|]. destruct (Z.eqb_spec (journal_blocks sb) 0); [lia|].
  unfold saturating_add, max_of. destruct (Z.leb_spec (sb_total_blocks sb)
    (Z.min (journal_start sb + journal_blocks sb) (2 ^ 64 - 1))); [lia|]. cbn [orb].
  by destruct sb.
Qed.

(** The slots alternate: a checkpoint overwrites the slot that is not the
    newest and makes it the newest. *)
Lemma slot_flip sb s :
  0 ≤ sb.(slot0).(generation) → 0 ≤ sb.(slot1).(generation) →
  s.(generation) = Z.max sb.(slot0).(generation) sb.(slot1).(generation) + 1 →
  newest_slot (set_slot sb (older_slot sb) s) = Some (older_slot sb) ∧
  (sb.(slot0).(generation) ≠ sb.(slot1).(generation) →
   newest_slot sb = Some (negb (older_slot sb))).
Proof.
  intros H0 H1 Hg. unfold newest_slot, older_slot, set_slot.
  destruct (Z.ltb_spec (generation (slot1 sb)) (generation (slot0 sb))); cbn [slot0 slot1]; rewrite ?Hg.
  - split.
    + destruct (Z.eqb_spec (generation (slot0 sb)) 0); [lia|]. cbn [andb].
      destruct (Z.leb_spec (Z.max (generation (slot0 sb)) (generation (slot1 sb)) + 1)
                  (generation (slot0 sb))); [lia|done].
    + intros _. destruct (Z.eqb_spec (generation (slot0 sb)) 0); [lia|]. cbn [andb].
      destruct (Z.leb_spec (generation (slot1 sb)) (generation (slot0 sb))); [done|lia].
  - split.
    + destruct (Z.eqb_spec (Z.max (generation (slot0 sb)) (generation (slot1 sb)) + 1) 0); [lia|].
      cbn [andb]. destruct (Z.leb_spec (generation (slot1 sb))
        (Z.max (generation (slot0 sb)) (generation (slot1 sb)) + 1)); [done|lia].
    + intros Hne. destruct (Z.eqb_spec (generation (slot1 sb)) 0); [lia|]. rewrite andb_false_r.
      destruct (Z.leb_spec (generation (slot1 sb)) (generation (slot0 sb))); [lia|done].
Qed.
