(* ===== verification/NxfsJournal.v ===== *)
(** The metadata journal of nxfs ([userspace/nxfs/src/journal.rs]): the
    operations, their encoding, transactions as byte runs and the replay of a
    journal region. *)

From S2P Require Import Prelude Bytes Storage NxfsFormat.

Definition KIND_BEGIN : Z := 1.
Definition KIND_COMMIT : Z := 2.
Definition KIND_MKNODE : Z := 3.
Definition KIND_WRITE : Z := 4.
Definition KIND_REMOVE : Z := 5.
Definition KIND_RENAME : Z := 6.
Definition RECORD_OVERHEAD : nat := 21.
Definition MAX_PAYLOAD : Z := 64 + 2 * (MAX_NAME_LEN + 2).
Definition MAX_EXTENTS_PER_WRITE : Z := 256.

(** One contiguous run of logical blocks ([state.rs]). *)
Record Extent := {
  lb : Z;
  blocks : Z
}.

#[export] Instance Extent_eq_dec : EqDecision Extent.
Proof. solve_decision. Defined.

Inductive Op :=
| MkNode (parent id kind : Z) (name : bytes)
| Write (id size : Z) (extents : list Extent)
| Remove (parent id : Z) (name : bytes)
| Rename (from_parent : Z) (from_name : bytes) (to_parent : Z) (to_name : bytes) (replaced : Z).

#[export] Instance Op_eq_dec : EqDecision Op.
Proof. solve_decision. Defined.

(** ** Encoding *)

Definition record_body (txn kind : Z) (payload : bytes) : bytes :=
  JOURNAL_MAGIC ++ le_bytes 8 txn ++ [kind] ++ le_bytes 4 (vlen payload) ++ payload.

(** What [push_record] appends. *)
Definition push_record (txn kind : Z) (payload : bytes) : bytes :=
  let body := record_body txn kind payload in
  body ++ le_bytes 4 (crc32c body).

Definition push_name_bounds (name : bytes) : result unit NxfsError :=
  if bool_decide (name = []) || (MAX_NAME_LEN <? vlen name) then Err TooBig else Ok tt.

Definition push_name (name : bytes) : bytes := (vlen name mod 256) :: name.

Definition encode_extent (e : Extent) : bytes := le_bytes 8 e.(lb) ++ le_bytes 4 e.(blocks).

Definition encode_op (o : Op) : result (Z * bytes) NxfsError :=
  match o with
  | MkNode parent id kind name =>
      let? _ := push_name_bounds name in
      Ok (KIND_MKNODE, le_bytes 8 parent ++ le_bytes 8 id ++ [kind] ++ push_name name)
  | Write id size extents =>
      if MAX_EXTENTS_PER_WRITE <? vlen extents then Err TooBig
      else Ok (KIND_WRITE, le_bytes 8 id ++ le_bytes 8 size ++ le_bytes 2 (vlen extents)
                           ++ concat (map encode_extent extents))
  | Remove parent id name =>
      let? _ := push_name_bounds name in
      Ok (KIND_REMOVE, le_bytes 8 parent ++ le_bytes 8 id ++ push_name name)
  | Rename from_parent from_name to_parent to_name replaced =>
      let? _ := push_name_bounds from_name in
      let? _ := push_name_bounds to_name in
      Ok (KIND_RENAME, le_bytes 8 from_parent ++ le_bytes 8 to_parent ++ le_bytes 8 replaced
                       ++ push_name from_name ++ push_name to_name)
  end.

(** The records of the operations of a transaction. *)
Fixpoint encode_ops (txn : Z) (ops : list Op) : result bytes NxfsError :=
  match ops with
  | [] => Ok []
  | o :: ops' =>
      let? p := encode_op o in
      let? rest := encode_ops txn ops' in
      Ok (push_record txn (fst p) (snd p) ++ rest)
  end.

Definition encode_txn (txn : Z) (ops : list Op) : result bytes NxfsError :=
  let? body := encode_ops txn ops in
  Ok (push_record txn KIND_BEGIN [] ++ body ++ push_record txn KIND_COMMIT []).

(** ** Decoding *)

(** [parse_record], on the region from [offset] on; the last component is the
    length of the record. *)
Definition parse_record (head : bytes) : option (Z * Z * bytes * nat) :=
  if negb (bool_decide (slice 0 4 head = JOURNAL_MAGIC)) then None
  else
    let txn := le_value (slice 4 12 head) in
    let kind := default 0 (head !! 12%nat) in
    let len := le_value (slice 13 17 head) in
    if MAX_PAYLOAD + MAX_EXTENTS_PER_WRITE * 12 <? len then None
    else
      let total := (RECORD_OVERHEAD + Z.to_nat len)%nat in
      if (length head <? total)%nat then None
      else
        let body_end := (17 + Z.to_nat len)%nat in
        if negb (crc32c (take body_end head) =? le_value (slice body_end total head)) then None
        else Some (txn, kind, slice 17 body_end head, total).

Definition take_u64 (l : bytes) : option (Z * bytes) := take_le 8 l.
Definition take_u32 (l : bytes) : option (Z * bytes) := take_le 4 l.
Definition take_u16 (l : bytes) : option (Z * bytes) := take_le 2 l.
Definition take_u8 (l : bytes) : option (Z * bytes) :=
  match l with
  | b :: r => Some (b, r)
  | [] => None
  end.

Definition take_name (l : bytes) : option (bytes * bytes) :=
  '(len, r) ← take_u8 l;
  if (len =? 0) || (MAX_NAME_LEN <? len) then None
  else
    '(b, r') ← take_bytes (Z.to_nat len) r;
    name ← from_utf8 b;
    Some (name, r').

Fixpoint take_extents (n : nat) (l : bytes) : option (list Extent * bytes) :=
  match n with
  | O => Some ([], l)
  | S n' =>
      '(b, l1) ← take_u64 l;
      '(k, l2) ← take_u32 l1;
      '(es, l3) ← take_extents n' l2;
      Some ({| lb := b; blocks := k |} :: es, l3)
  end.

(** [(off == payload.len()).then_some(op)]. *)
Definition at_end {A} (rest : bytes) (a : A) : option A :=
  match rest with
  | [] => Some a
  | _ => None
  end.

Definition decode_op (kind : Z) (payload : bytes) : option Op :=
  if kind =? KIND_MKNODE then
    '(parent, r) ← take_u64 payload;
    '(id, r) ← take_u64 r;
    '(node_kind, r) ← take_u8 r;
    '(name, r) ← take_name r;
    at_end r (MkNode parent id node_kind name)
  else if kind =? KIND_WRITE then
    '(id, r) ← take_u64 payload;
    '(size, r) ← take_u64 r;
    '(count, r) ← take_u16 r;
    if MAX_EXTENTS_PER_WRITE <? count then None
    else
      '(extents, r) ← take_extents (Z.to_nat count) r;
      at_end r (Write id size extents)
  else if kind =? KIND_REMOVE then
    '(parent, r) ← take_u64 payload;
    '(id, r) ← take_u64 r;
    '(name, r) ← take_name r;
    at_end r (Remove parent id name)
  else if kind =? KIND_RENAME then
    '(from_parent, r) ← take_u64 payload;
    '(to_parent, r) ← take_u64 r;
    '(replaced, r) ← take_u64 r;
    '(from_name, r) ← take_name r;
    '(to_name, r) ← take_name r;
    at_end r (Rename from_parent from_name to_parent to_name replaced)
  else None.

(** ** Replay *)

(** The loop variables of [replay]. *)
Record replay_state := {
  committed : list Op;
  pending : list Op;
  pending_txn : option Z;
  offset : nat;
  committed_end : nat;
  max_seen_txn : Z;
  orphan : bool
}.

Definition open_live (min_txn : Z) (p : option Z) : bool :=
  match p with
  | Some t => min_txn <=? t
  | None => false
  end.

(** The body of the loop for a record [(txn, kind, payload)] of [total] bytes. *)
Definition replay_step (min_txn : Z) (s : replay_state) (txn kind : Z) (payload : bytes)
    (total : nat) : replay_state :=
  let next := (s.(offset) + total)%nat in
  let seen := if s.(max_seen_txn) <? txn then txn else s.(max_seen_txn) in
  let live := min_txn <=? txn in
  let is_open := bool_decide (s.(pending_txn) = Some txn) in
  if kind =? KIND_BEGIN then
    {| committed := s.(committed); pending := []; pending_txn := Some txn; offset := next;
       committed_end := s.(committed_end); max_seen_txn := seen;
       orphan := s.(orphan) || open_live min_txn s.(pending_txn) |}
  else if kind =? KIND_COMMIT then
    if is_open then
      {| committed := if live then s.(committed) ++ s.(pending) else s.(committed);
         pending := []; pending_txn := None; offset := next;
         committed_end := next; max_seen_txn := seen; orphan := s.(orphan) |}
    else
      {| committed := s.(committed); pending := []; pending_txn := None; offset := next;
         committed_end := s.(committed_end); max_seen_txn := seen; orphan := s.(orphan) || live |}
  else if is_open then
    match decode_op kind payload with
    | Some o =>
        {| committed := s.(committed); pending := s.(pending) ++ [o];
           pending_txn := s.(pending_txn); offset := next; committed_end := s.(committed_end);
           max_seen_txn := seen; orphan := s.(orphan) |}
    | None =>
        {| committed := s.(committed); pending := []; pending_txn := None; offset := next;
           committed_end := s.(committed_end); max_seen_txn := seen; orphan := s.(orphan) || live |}
    end
  else
    {| committed := s.(committed); pending := s.(pending); pending_txn := s.(pending_txn);
       offset := next; committed_end := s.(committed_end); max_seen_txn := seen;
       orphan := s.(orphan) || live |}.

(** The loop; [rest] is the region from [offset] on.  Every round consumes a
    record, so one round per byte is enough. *)
Fixpoint replay_loop (fuel : nat) (min_txn : Z) (s : replay_state) (rest : bytes) : replay_state :=
  match fuel with
  | O => s
  | S fuel' =>
      if (length rest <? RECORD_OVERHEAD)%nat then s
      else
        match parse_record rest with
        | None => s
        | Some (txn, kind, payload, total) =>
            replay_loop fuel' min_txn (replay_step min_txn s txn kind payload total)
              (drop total rest)
        end
  end.

Record ReplayResult := {
  ops : list Op;
  write_head : nat;
  next_txn : Z;
  discarded : bool
}.

Definition replay_start : replay_state :=
  {| committed := []; pending := []; pending_txn := None; offset := 0; committed_end := 0;
     max_seen_txn := 0; orphan := false |}.

Definition replay_finish (min_txn : Z) (s : replay_state) : ReplayResult :=
  {| ops := s.(committed); write_head := s.(committed_end);
     next_txn := Z.max (s.(max_seen_txn) + 1) min_txn;
     discarded := s.(orphan) || open_live min_txn s.(pending_txn) |}.

Definition replay (region : bytes) (min_txn : Z) : ReplayResult :=
  replay_finish min_txn (replay_loop (S (length region)) min_txn replay_start region).
