(* ===== verification/NxfsJournalProps.v ===== *)
(** Properties of the nxfs journal: records, operations and transactions round
    trip, the replay of a region is the concatenation of its committed
    transactions, and a transaction cut anywhere is discarded as a whole. *)

From S2P Require Import Prelude Bytes Storage NxfsFormat NxfsJournal.

Lemma Ok_inj {A E} (a b : A) : @Ok A E a = Ok b → a = b.
Proof. congruence. Qed.

(** ** Operations *)

Definition name_ok (n : bytes) : Prop :=
  utf8_valid n = true ∧ Forall is_byte n ∧ 1 ≤ vlen n ≤ MAX_NAME_LEN.

Definition extent_ok (e : Extent) : Prop := in_width 64 e.(lb) ∧ in_width 32 e.(blocks).

(** The operations the engine journals: fields of their width, names within
    their bound, at most 256 extents. *)
Definition op_ok (o : Op) : Prop :=
  match o with
  | MkNode parent id kind name =>
      in_width 64 parent ∧ in_width 64 id ∧ is_byte kind ∧ name_ok name
  | Write id size extents =>
      in_width 64 id ∧ in_width 64 size ∧ Forall extent_ok extents ∧
      vlen extents ≤ MAX_EXTENTS_PER_WRITE
  | Remove parent id name => in_width 64 parent ∧ in_width 64 id ∧ name_ok name
  | Rename fp fn tp tn replaced =>
      in_width 64 fp ∧ in_width 64 tp ∧ in_width 64 replaced ∧ name_ok fn ∧ name_ok tn
  end.

Lemma push_name_bounds_ok n : name_ok n → push_name_bounds n = Ok tt.
Proof.
  intros (_ & _ & Hl). unfold push_name_bounds. rewrite bool_decide_eq_false_2.
  - destruct (Z.ltb_spec MAX_NAME_LEN (vlen n)); [lia|done].
  - intros ->. unfold vlen in Hl. simpl in Hl. lia.
Qed.

Lemma take_name_push n rest : name_ok n → take_name (push_name n ++ rest) = Some (n, rest).
Proof.
  intros (Hu & _ & Hl). unfold MAX_NAME_LEN in Hl. unfold take_name, push_name. simpl.
  rewrite Z.mod_small by lia. destruct (Z.eqb_spec (vlen n) 0); [lia|].
  destruct (Z.ltb_spec MAX_NAME_LEN (vlen n)); [unfold MAX_NAME_LEN in *; lia|]. simpl.
  rewrite take_bytes_app by (unfold vlen; lia). simpl. unfold from_utf8. by rewrite Hu.
Qed.

Lemma take_extents_encode es rest :
  Forall extent_ok es →
  take_extents (length es) (concat (map encode_extent es) ++ rest) = Some (es, rest).
Proof.
  induction 1 as [|[b k] es [Hb Hk] _ IH]; [done|].
  cbn [length take_extents map concat]. unfold encode_extent at 1. cbn [lb blocks] in *.
  rewrite <- !app_assoc. unfold take_u64, take_u32. rewrite take_le_app by done. cbn [mbind option_bind].
  rewrite take_le_app by done. cbn [mbind option_bind]. rewrite IH. done.
Qed.

Lemma u64_app x rest : in_width 64 x → take_u64 (le_bytes 8 x ++ rest) = Some (x, rest).
Proof. apply (take_le_app 8). Qed.

Lemma take_name_end n : name_ok n → take_name (push_name n) = Some (n, []).
Proof. intros Hn. rewrite <- (app_nil_r (push_name n)). by apply take_name_push. Qed.

Lemma take_extents_end es :
  Forall extent_ok es → take_extents (length es) (concat (map encode_extent es)) = Some (es, []).
Proof. intros. rewrite <- (app_nil_r (concat _)). by apply take_extents_encode. Qed.

Lemma u16_app x rest : in_width 16 x → take_u16 (le_bytes 2 x ++ rest) = Some (x, rest).
Proof. apply (take_le_app 2). Qed.

(** Read the fields of a payload off the front. *)
Ltac decode_fields :=
  repeat (first [ rewrite u64_app by done | rewrite u16_app by done
                | rewrite take_name_end by done | rewrite take_name_push by done
                | rewrite take_extents_end by done ];
          cbn [mbind option_bind]).

Lemma push_name_size n : name_ok n → Forall is_byte (push_name n) ∧ vlen (push_name n) ≤ 256.
Proof.
  intros (_ & Hb & Hl). unfold push_name, MAX_NAME_LEN in *. split.
  - constructor; [apply Z.mod_pos_bound; lia|done].
  - unfold vlen in *. simpl. lia.
Qed.

Lemma extents_size es :
  Forall is_byte (concat (map encode_extent es)) ∧
  vlen (concat (map encode_extent es)) = 12 * vlen es.
Proof.
  induction es as [|e es [IHb IHl]]; cbn [map concat]; [done|]. unfold encode_extent at 1 3. split.
  - repeat apply Forall_app_2; auto using le_bytes_byte.
  - rewrite !vlen_app, IHl. unfold vlen. rewrite !le_bytes_length. cbn [length]. lia.
Qed.

(** Every operation survives encoding, in a payload within the parser's bound. *)
Lemma op_roundtrip o :
  op_ok o →
  ∃ kind payload, encode_op o = Ok (kind, payload) ∧ decode_op kind payload = Some o ∧
    KIND_MKNODE ≤ kind ≤ KIND_RENAME ∧ Forall is_byte payload ∧
    vlen payload ≤ MAX_PAYLOAD + MAX_EXTENTS_PER_WRITE * 12.
Proof.
  assert (Hmax : MAX_PAYLOAD + MAX_EXTENTS_PER_WRITE * 12 = 3650) by reflexivity. rewrite Hmax. clear Hmax.
  unfold KIND_MKNODE, KIND_RENAME.
  destruct o as [parent id kind name|id size es|parent id name|fp fn tp tn rp]; cbn [op_ok encode_op].
  - intros (Hp & Hi & Hk & Hname). rewrite push_name_bounds_ok by done. cbn [result_bind].
    destruct (push_name_size name Hname) as [Hnb Hnl].
    eexists _, _. split_and!; [reflexivity| |unfold KIND_MKNODE; lia..| |].
    + unfold decode_op. cbn [Z.eqb KIND_MKNODE Pos.eqb]. decode_fields. cbn [take_u8 app mbind option_bind].
      decode_fields. done.
    + repeat apply Forall_app_2; auto using le_bytes_byte.
    + rewrite !vlen_app, !vlen_le_bytes. unfold vlen at 1. cbn [length]. lia.
  - intros (Hi & Hs & He & Hl). destruct (extents_size es) as [Heb Hel]. unfold MAX_EXTENTS_PER_WRITE in *.
    destruct (Z.ltb_spec 256 (vlen es)); [lia|].
    assert (Hw : in_width 16 (vlen es)) by (unfold in_width; pose proof (vlen_nonneg es); lia).
    eexists _, _. split_and!; [reflexivity| |unfold KIND_WRITE; lia..| |].
    + unfold decode_op. cbn [Z.eqb KIND_WRITE KIND_MKNODE Pos.eqb]. decode_fields.
      unfold MAX_EXTENTS_PER_WRITE. destruct (Z.ltb_spec 256 (vlen es)); [lia|].
      unfold vlen. rewrite Nat2Z.id. decode_fields. done.
    + repeat apply Forall_app_2; auto using le_bytes_byte.
    + rewrite !vlen_app, !vlen_le_bytes, Hel. lia.
  - intros (Hp & Hi & Hname). rewrite push_name_bounds_ok by done. cbn [result_bind].
    destruct (push_name_size name Hname) as [Hnb Hnl].
    eexists _, _. split_and!; [reflexivity| |unfold KIND_REMOVE; lia..| |].
    + unfold decode_op. cbn [Z.eqb KIND_REMOVE KIND_WRITE KIND_MKNODE Pos.eqb]. decode_fields. done.
    + repeat apply Forall_app_2; auto using le_bytes_byte.
    + rewrite !vlen_app, !vlen_le_bytes. lia.
  - intros (Hf & Ht & Hr & Hfn & Htn). rewrite !push_name_bounds_ok by done. cbn [result_bind].
    destruct (push_name_size fn Hfn) as [Hfb Hfl]. destruct (push_name_size tn Htn) as [Htb Htl].
    eexists _, _. split_and!; [reflexivity| |unfold KIND_RENAME; lia..| |].
    + unfold decode_op. cbn [Z.eqb KIND_RENAME KIND_REMOVE KIND_WRITE KIND_MKNODE Pos.eqb].
      decode_fields. done.
    + repeat apply Forall_app_2; auto using le_bytes_byte.
    + rewrite !vlen_app, !vlen_le_bytes. lia.
Qed.

(** ** Records *)

Lemma txn_body_length txn kind p : length (record_body txn kind p) = (17 + length p)%nat.
Proof. unfold record_body. rewrite !length_app, !le_bytes_length. reflexivity. Qed.

Lemma push_record_length txn kind p : length (push_record txn kind p) = (21 + length p)%nat.
Proof. unfold push_record. rewrite length_app, txn_body_length, le_bytes_length. lia. Qed.

Lemma txn_body_byte txn kind p :
  is_byte kind → Forall is_byte p → Forall is_byte (record_body txn kind p).
Proof.
  intros Hk Hp. unfold record_body.
  repeat apply Forall_app_2; auto using le_bytes_byte; repeat constructor; unfold is_byte in *; lia.
Qed.

Lemma push_record_byte txn kind p :
  is_byte kind → Forall is_byte p → Forall is_byte (push_record txn kind p).
Proof.
  intros. unfold push_record. apply Forall_app_2; [by apply txn_body_byte|apply le_bytes_byte].
Qed.

(** The fields of a byte string that starts with a record body. *)
Section Fields.
Context (txn kind : Z) (p tail : bytes).
Let data := record_body txn kind p ++ tail.

Lemma txn_body_magic : slice 0 4 data = JOURNAL_MAGIC.
Proof. unfold data, record_body. rewrite <- !app_assoc. by apply slice_start. Qed.

Lemma body_txn : in_width 64 txn → le_value (slice 4 12 data) = txn.
Proof.
  intros Ht. unfold data, record_body. rewrite <- !app_assoc.
  rewrite slice_at by done. by apply le_value_bytes.
Qed.

Lemma body_kind : data !! 12%nat = Some kind.
Proof.
  unfold data, record_body. rewrite <- !app_assoc, (app_assoc JOURNAL_MAGIC).
  rewrite lookup_app_r by done. done.
Qed.

Lemma body_len : vlen p < 2 ^ 32 → le_value (slice 13 17 data) = vlen p.
Proof.
  intros Hp. unfold data, record_body.
  rewrite <- !app_assoc, (app_assoc JOURNAL_MAGIC), (app_assoc _ [kind]).
  rewrite slice_at by done. apply le_value_bytes. split; [apply vlen_nonneg|done].
Qed.

Lemma body_payload : slice 17 (17 + length p) data = p.
Proof.
  unfold data, record_body.
  rewrite <- !app_assoc, (app_assoc JOURNAL_MAGIC), (app_assoc _ [kind]), (app_assoc _ (le_bytes 4 _)).
  by apply slice_at.
Qed.
End Fields.

(** A record parses back to itself, whatever follows it. *)
Lemma parse_push txn kind p tail :
  in_width 64 txn → is_byte kind → Forall is_byte p →
  vlen p ≤ MAX_PAYLOAD + MAX_EXTENTS_PER_WRITE * 12 →
  parse_record (push_record txn kind p ++ tail) =
    Some (txn, kind, p, length (push_record txn kind p)).
Proof.
  intros Ht Hk Hp Hl. rewrite push_record_length. unfold parse_record, push_record.
  rewrite <- app_assoc. set (c := le_bytes 4 _ ++ tail).
  rewrite txn_body_magic, bool_decide_eq_true_2 by done. cbn [negb].
  assert (Hmax : MAX_PAYLOAD + MAX_EXTENTS_PER_WRITE * 12 = 3650) by reflexivity.
  rewrite body_txn, body_kind, body_len by (done || lia).
  change (default 0 (Some kind)) with kind.
  destruct (Z.ltb_spec (MAX_PAYLOAD + MAX_EXTENTS_PER_WRITE * 12) (vlen p)); [lia|].
  unfold vlen. rewrite Nat2Z.id. unfold RECORD_OVERHEAD.
  rewrite length_app, txn_body_length. unfold c. rewrite length_app, le_bytes_length.
  destruct (Nat.ltb_spec (17 + length p + (4 + length tail)) (21 + length p)); [lia|].
  rewrite body_payload.
  rewrite take_app_length' by (by rewrite txn_body_length).
  rewrite slice_at by (rewrite ?txn_body_length, ?le_bytes_length; lia).
  rewrite le_value_bytes by (apply sb_crc_width; by apply txn_body_byte).
  rewrite Z.eqb_refl. done.
Qed.

Lemma parse_total l txn kind p total :
  parse_record l = Some (txn, kind, p, total) → (21 ≤ total ≤ length l)%nat.
Proof.
  unfold parse_record, RECORD_OVERHEAD. intros Hp. destruct (negb _); [done|].
  destruct (_ <? _); [done|]. destruct (Nat.ltb_spec (length l) (21 + Z.to_nat (le_value (slice 13 17 l)))); [done|].
  destruct (negb _); [done|]. simplify_eq. lia.
Qed.

(** ** The replay loop *)

Definition run (min_txn : Z) (s : replay_state) (rest : bytes) : replay_state :=
  replay_loop (S (length rest)) min_txn s rest.

Lemma replay_loop_fuel f g min s rest :
  (length rest < f)%nat → (length rest < g)%nat →
  replay_loop f min s rest = replay_loop g min s rest.
Proof.
  revert g s rest. induction f as [|f IH]; intros [|g] s rest Hf Hg; try lia. cbn [replay_loop].
  destruct (_ <? _)%nat; [done|]. destruct (parse_record rest) as [[[[t k] p] n]|] eqn:Ep; [|done].
  apply parse_total in Ep. apply IH; rewrite length_drop; lia.
Qed.

Lemma run_unfold min s rest :
  run min s rest =
    if (length rest <? RECORD_OVERHEAD)%nat then s
    else match parse_record rest with
         | None => s
         | Some (txn, kind, payload, total) =>
             run min (replay_step min s txn kind payload total) (drop total rest)
         end.
Proof.
  unfold run at 1. cbn [replay_loop]. destruct (_ <? _)%nat; [done|].
  destruct (parse_record rest) as [[[[t k] p] n]|] eqn:Ep; [|done].
  apply parse_total in Ep. apply replay_loop_fuel; rewrite length_drop; lia.
Qed.

Lemma replay_run region min : replay region min = replay_finish min (run min replay_start region).
Proof. done. Qed.

(** One whole record at the front. *)
Lemma run_record min s txn kind p rest :
  in_width 64 txn → is_byte kind → Forall is_byte p →
  vlen p ≤ MAX_PAYLOAD + MAX_EXTENTS_PER_WRITE * 12 →
  run min s (push_record txn kind p ++ rest) =
    run min (replay_step min s txn kind p (length (push_record txn kind p))) rest.
Proof.
  intros Ht Hk Hp Hl. rewrite run_unfold, length_app, push_record_length. unfold RECORD_OVERHEAD.
  destruct (Nat.ltb_spec (21 + length p + length rest) 21); [lia|].
  rewrite parse_push by done. rewrite push_record_length.
  by rewrite drop_app_length' by (by rewrite push_record_length).
Qed.

Lemma parse_record_zeros m : parse_record (zeros m) = None.
Proof.
  unfold parse_record. rewrite bool_decide_eq_false_2; [done|].
  unfold slice. rewrite drop_zeros, take_zeros. intros E.
  apply (f_equal (fun l => l !! 0%nat)) in E. destruct (_ `min` _)%nat; done.
Qed.

Lemma run_zeros min s m : run min s (zeros m) = s.
Proof. rewrite run_unfold, parse_record_zeros. by destruct (_ <? _)%nat. Qed.

(** ** Transactions *)

(** The state after the records of [os] inside an open transaction. *)
Definition add_pending (s : replay_state) (os : list Op) (n : nat) : replay_state :=
  {| committed := s.(committed); pending := s.(pending) ++ os; pending_txn := s.(pending_txn);
     offset := s.(offset) + n; committed_end := s.(committed_end);
     max_seen_txn := s.(max_seen_txn); orphan := s.(orphan) |}.

(** One operation record inside its open transaction. *)
Lemma step_op min s txn kind p o n :
  s.(pending_txn) = Some txn → txn ≤ s.(max_seen_txn) → decode_op kind p = Some o →
  KIND_MKNODE ≤ kind → replay_step min s txn kind p n = add_pending s [o] n.
Proof.
  intros Hp Hs Hd Hk. unfold KIND_MKNODE in Hk. unfold replay_step, KIND_BEGIN, KIND_COMMIT.
  destruct (Z.eqb_spec kind 1); [lia|]. destruct (Z.eqb_spec kind 2); [lia|].
  rewrite bool_decide_eq_true_2, Hd by done. unfold add_pending.
  destruct (Z.ltb_spec (max_seen_txn s) txn); [lia|done].
Qed.

Lemma run_ops min txn os body s rest :
  in_width 64 txn → Forall op_ok os → encode_ops txn os = Ok body →
  s.(pending_txn) = Some txn → txn ≤ s.(max_seen_txn) →
  run min s (body ++ rest) = run min (add_pending s os (length body)) rest.
Proof.
  intros Ht Hok. revert s body. induction Hok as [|o os Ho _ IH]; intros s body He Hp Hs; cbn [encode_ops] in He.
  - simplify_eq. unfold add_pending. simpl. rewrite app_nil_r, Nat.add_0_r. by destruct s.
  - destruct (op_roundtrip o Ho) as (kind & p & Heo & Hdo & Hk & Hpb & Hpl). rewrite Heo in He.
    cbn [result_bind fst snd] in He. destruct (encode_ops txn os) as [body'|] eqn:Eb; [|done].
    cbn [result_bind] in He. apply Ok_inj in He as <-. rewrite <- app_assoc. unfold KIND_MKNODE, KIND_RENAME in Hk.
    rewrite run_record by (try done; unfold is_byte; lia).
    rewrite (step_op min s txn kind p o) by (try done; unfold KIND_MKNODE; lia).
    rewrite (IH _ body') by done. f_equal. unfold add_pending.
    cbn [committed pending pending_txn offset committed_end max_seen_txn orphan].
    rewrite <- app_assoc, length_app. f_equal. lia.
Qed.

Definition seen (s : replay_state) (txn : Z) : Z :=
  if s.(max_seen_txn) <? txn then txn else s.(max_seen_txn).

(** The state after a whole transaction of [n] bytes. *)
Definition commit_state (min : Z) (s : replay_state) (txn : Z) (os : list Op) (n : nat) : replay_state :=
  {| committed := s.(committed) ++ (if min <=? txn then os else []); pending := [];
     pending_txn := None; offset := s.(offset) + n; committed_end := s.(offset) + n;
     max_seen_txn := seen s txn; orphan := s.(orphan) || open_live min s.(pending_txn) |}.

(** The state behind the BEGIN record. *)
Definition begin_state (min : Z) (s : replay_state) (txn : Z) : replay_state :=
  {| committed := s.(committed); pending := []; pending_txn := Some txn; offset := s.(offset) + 21;
     committed_end := s.(committed_end); max_seen_txn := seen s txn;
     orphan := s.(orphan) || open_live min s.(pending_txn) |}.

Lemma seen_le s txn : txn ≤ seen s txn ∧ s.(max_seen_txn) ≤ seen s txn ∧ seen s txn ≤ Z.max s.(max_seen_txn) txn.
Proof. unfold seen. destruct (Z.ltb_spec (max_seen_txn s) txn); lia. Qed.

Lemma empty_payload : Forall is_byte [] ∧ vlen (@nil Z) ≤ MAX_PAYLOAD + MAX_EXTENTS_PER_WRITE * 12.
Proof. split; [constructor|]. unfold vlen, MAX_PAYLOAD, MAX_NAME_LEN, MAX_EXTENTS_PER_WRITE. simpl. lia. Qed.

Lemma run_begin min s txn rest :
  in_width 64 txn →
  run min s (push_record txn KIND_BEGIN [] ++ rest) = run min (begin_state min s txn) rest.
Proof.
  intros Ht. destruct empty_payload. rewrite run_record by (try done; unfold is_byte, KIND_BEGIN; lia).
  rewrite push_record_length. done.
Qed.

(** A whole transaction at the front of the region is committed as one. *)
Lemma run_txn min s txn os run_bytes rest :
  in_width 64 txn → Forall op_ok os → encode_txn txn os = Ok run_bytes →
  run min s (run_bytes ++ rest) = run min (commit_state min s txn os (length run_bytes)) rest.
Proof.
  intros Ht Hok He. unfold encode_txn in He. destruct (encode_ops txn os) as [body|] eqn:Eb; [|done].
  cbn [result_bind] in He. apply Ok_inj in He as <-. rewrite <- !app_assoc, run_begin by done. destruct empty_payload.
  pose proof (seen_le s txn).
  rewrite (run_ops min txn os body _ _ Ht Hok Eb) by (simpl; (done || lia)).
  rewrite run_record by (try done; unfold is_byte, KIND_COMMIT; lia).
  f_equal. unfold replay_step. cbn [Z.eqb KIND_COMMIT KIND_BEGIN Pos.eqb].
  cbn [add_pending begin_state pending_txn committed pending offset max_seen_txn orphan].
  rewrite bool_decide_eq_true_2 by done. unfold commit_state.
  rewrite !length_app, !push_record_length. cbn [length].
  destruct (Z.ltb_spec (seen s txn) txn); [lia|].
  f_equal; try lia. destruct (min <=? txn); [done|by rewrite app_nil_r].
Qed.

(** ** Torn writes *)

(** The first [k] bytes of [data] reached the disk; zeros follow. *)
Definition cut (k m : nat) (data : bytes) : bytes := take k data ++ zeros m.

Definition same_commits (s s' : replay_state) : Prop :=
  s'.(committed) = s.(committed) ∧ s'.(committed_end) = s.(committed_end).

#[export] Instance same_commits_pre : PreOrder same_commits.
Proof. split; [done|]. intros a b c [H1 H2] [H3 H4]. split; congruence. Qed.

(** A record other than a COMMIT commits nothing. *)
Lemma step_same min s txn kind p n :
  kind ≠ KIND_COMMIT → same_commits s (replay_step min s txn kind p n).
Proof.
  intros Hk. unfold replay_step. destruct (kind =? KIND_BEGIN); [done|].
  destruct (Z.eqb_spec kind KIND_COMMIT); [done|]. destruct (bool_decide _); [|done].
  by destruct (decode_op _ _).
Qed.

Lemma cut_lookup k m data i :
  (k ≤ length data)%nat →
  cut k m data !! i = if decide (i < k)%nat then data !! i else zeros m !! (i - k)%nat.
Proof.
  intros Hk. unfold cut. case_decide.
  - rewrite lookup_app_l by (rewrite length_take; lia). by apply lookup_take_lt.
  - rewrite lookup_app_r by (rewrite length_take; lia). by rewrite length_take_le by lia.
Qed.

Lemma cut_slice k m data i j :
  (j ≤ k ≤ length data)%nat → slice i j (cut k m data) = slice i j data.
Proof.
  intros Hk. unfold cut. rewrite slice_app_l by (rewrite length_take; lia).
  rewrite <- (take_drop k data) at 2. rewrite slice_app_l by (rewrite length_take; lia). done.
Qed.

Lemma cut_drop k m data i : (k ≤ i)%nat → drop i (cut k m data) = zeros (m - (i - k `min` length data)).
Proof.
  intros Hi. unfold cut. rewrite drop_app_ge by (rewrite length_take; lia).
  by rewrite drop_zeros, length_take.
Qed.

(** Whatever a cut record parses as, it covers every byte that was written;
    its kind byte was. *)
Lemma parse_cut k m txn kind p t kd pl total :
  (k < length (push_record txn kind p))%nat →
  vlen p ≤ MAX_PAYLOAD + MAX_EXTENTS_PER_WRITE * 12 →
  parse_record (cut k m (push_record txn kind p)) = Some (t, kd, pl, total) →
  (k ≤ total)%nat ∧ (kd = 0 ∨ kd = kind ∧ (13 ≤ k)%nat).
Proof.
  intros Hk Hl Hp. unfold parse_record, RECORD_OVERHEAD in Hp. destruct (negb _); [done|].
  destruct (_ <? _); [done|]. destruct (_ <? _)%nat; [done|]. destruct (negb _); [done|].
  injection Hp as <- <- <- <-. rewrite push_record_length in Hk. split.
  - destruct (decide (k ≤ 21)%nat); [lia|].
    rewrite cut_slice by (rewrite push_record_length; lia).
    unfold push_record. rewrite body_len; [unfold vlen; lia|].
    assert (Hmax : MAX_PAYLOAD + MAX_EXTENTS_PER_WRITE * 12 = 3650) by reflexivity. lia.
  - rewrite cut_lookup by (rewrite push_record_length; lia). case_decide.
    + right. unfold push_record. rewrite body_kind. split; [done|lia].
    + left. unfold zeros. destruct (replicate m 0 !! (12 - k)%nat) as [z|] eqn:E; [|done].
      by apply lookup_replicate in E as [-> _].
Qed.

(** A cut record of another kind than COMMIT is the end of the journal. *)
Lemma run_cut_record min s k m txn kind p :
  (k < length (push_record txn kind p))%nat → kind ≠ KIND_COMMIT →
  vlen p ≤ MAX_PAYLOAD + MAX_EXTENTS_PER_WRITE * 12 →
  same_commits s (run min s (cut k m (push_record txn kind p))).
Proof.
  intros Hk Hkd Hl. rewrite run_unfold. destruct (_ <? _)%nat; [done|].
  destruct (parse_record _) as [[[[t kd] pl] total]|] eqn:Ep; [|done].
  apply parse_cut in Ep as [Ht Hkind]; [|done..].
  rewrite cut_drop by done. rewrite run_zeros. apply step_same.
  destruct Hkind as [->|[-> _]]; [unfold KIND_COMMIT; lia|done].
Qed.

(** The body of a COMMIT record ends in four zero bytes, so from its kind byte
    on a cut only matters in the checksum. *)
Lemma cut_commit_body k m txn :
  (13 ≤ k < 21)%nat → (21 ≤ k + m)%nat →
  take 17 (cut k m (push_record txn KIND_COMMIT [])) = record_body txn KIND_COMMIT [].
Proof.
  intros Hk Hm. apply list_eq. intros i. rewrite lookup_take. case_decide as Hi; cycle 1.
  { symmetry. apply lookup_ge_None. rewrite txn_body_length. cbn [length]. lia. }
  rewrite cut_lookup by (rewrite push_record_length; cbn [length]; lia).
  unfold push_record. rewrite lookup_app_l by (rewrite txn_body_length; cbn [length]; lia).
  case_decide as Hik; [done|]. unfold zeros. rewrite lookup_replicate_2 by lia.
  unfold record_body. rewrite !app_assoc, app_nil_r.
  rewrite lookup_app_r by (rewrite !length_app, le_bytes_length; cbn [length]; simpl; lia).
  rewrite !length_app, le_bytes_length. change (le_bytes 4 (vlen [])) with (zeros 4). unfold zeros.
  rewrite lookup_replicate_2; [done|]. simpl. lia.
Qed.

Lemma cut_byte k m data : Forall is_byte data → Forall is_byte (cut k m data).
Proof. intros. apply Forall_app_2; [by apply Forall_take|apply zeros_byte]. Qed.

(** A cut COMMIT record that still parses as a COMMIT is complete: the bytes
    that are missing are zero. *)
Lemma cut_commit_complete k m txn t pl total :
  (13 ≤ k < 21)%nat → (21 ≤ k + m)%nat →
  parse_record (cut k m (push_record txn KIND_COMMIT [])) = Some (t, KIND_COMMIT, pl, total) →
  cut k m (push_record txn KIND_COMMIT []) = push_record txn KIND_COMMIT [] ++ zeros (m - (21 - k)).
Proof.
  intros Hk Hm Ep. pose proof (cut_commit_body k m txn Hk Hm) as Hbody.
  pose proof (push_record_length txn KIND_COMMIT []) as Hrl. cbn [length] in Hrl.
  set (c := cut k m (push_record txn KIND_COMMIT [])) in *.
  assert (Hcl : length c = (k + m)%nat).
  { unfold c, cut. rewrite length_app, length_take_le, length_zeros by lia. done. }
  assert (Hlenb : slice 13 17 c = zeros 4).
  { transitivity (slice 13 17 (take 17 c)).
    - unfold slice. rewrite skipn_firstn_comm, firstn_firstn. done.
    - rewrite Hbody. unfold record_body. rewrite app_nil_r, !app_assoc. by apply slice_end. }
  unfold parse_record, RECORD_OVERHEAD in Ep. destruct (negb _); [done|]. destruct (_ <? _); [done|].
  destruct (_ <? _)%nat; [done|]. rewrite Hlenb, le_value_zeros in Ep.
  change (17 + Z.to_nat 0)%nat with 17%nat in Ep. change (21 + Z.to_nat 0)%nat with 21%nat in Ep.
  rewrite Hbody in Ep.
  destruct (Z.eqb_spec (crc32c (record_body txn KIND_COMMIT [])) (le_value (slice 17 21 c)))
    as [Hcrc|]; [|done].
  assert (Hsl : le_bytes 4 (le_value (slice 17 21 c)) = slice 17 21 c).
  { assert (Hl4 : length (slice 17 21 c) = 4%nat) by (rewrite slice_length; lia).
    rewrite <- Hl4 at 1. apply le_bytes_value, slice_byte, cut_byte, push_record_byte; [|constructor].
    unfold is_byte, KIND_COMMIT. lia. }
  unfold push_record at 1. rewrite Hcrc, Hsl, <- Hbody, <- app_assoc.
  rewrite <- (take_drop 17 c) at 1. f_equal. rewrite <- (take_drop 4 (drop 17 c)) at 1. f_equal.
  rewrite drop_drop. unfold c. rewrite cut_drop by lia. f_equal. lia.
Qed.

(** A cut COMMIT record is the end of the journal, or complete. *)
Lemma run_cut_commit min s k m txn :
  (k < length (push_record txn KIND_COMMIT []))%nat →
  same_commits s (run min s (cut k m (push_record txn KIND_COMMIT []))) ∨
  ∃ m', cut k m (push_record txn KIND_COMMIT []) = push_record txn KIND_COMMIT [] ++ zeros m'.
Proof.
  intros Hk. pose proof (push_record_length txn KIND_COMMIT []) as Hrl. cbn [length] in Hrl.
  rewrite run_unfold. destruct (_ <? _)%nat; [by left|].
  destruct (parse_record _) as [[[[t kd] pl] total]|] eqn:Ep; [|by left].
  pose proof (parse_total _ _ _ _ _ Ep) as Htl. pose proof Ep as Ep'.
  destruct empty_payload as [_ Hlen]. apply parse_cut in Ep' as [Ht Hkind]; [|done..].
  destruct Hkind as [->|[-> Hk13]].
  { left. rewrite cut_drop by done. rewrite run_zeros. by apply step_same. }
  right. eexists. eapply cut_commit_complete; [lia| |done].
  unfold cut in Htl. rewrite length_app, length_take, length_zeros in Htl. lia.
Qed.

Lemma cut_app_ge k m a b : (length a ≤ k)%nat → cut k m (a ++ b) = a ++ cut (k - length a) m b.
Proof. intros. unfold cut. rewrite take_app_ge by done. by rewrite <- app_assoc. Qed.

Lemma cut_app_lt k m a b : (k < length a)%nat → cut k m (a ++ b) = cut k m a.
Proof. intros. unfold cut. rewrite take_app_le by lia. done. Qed.

Lemma cut_all k m a : (length a ≤ k)%nat → cut k m a = a ++ zeros m.
Proof. intros. unfold cut. by rewrite take_ge. Qed.

(** The rest of a transaction behind its BEGIN, cut anywhere. *)
Lemma run_cut_ops min txn os body s k m :
  in_width 64 txn → Forall op_ok os → encode_ops txn os = Ok body →
  s.(pending_txn) = Some txn → txn ≤ s.(max_seen_txn) →
  let data := body ++ push_record txn KIND_COMMIT [] in
  same_commits s (run min s (cut k m data)) ∨ ∃ m', cut k m data = data ++ zeros m'.
Proof.
  intros Ht Hok. revert s body k. induction Hok as [|o os Ho _ IH]; intros s body k He Hp Hs;
    cbn [encode_ops] in He.
  - apply Ok_inj in He as <-. cbn zeta. cbn [app].
    destruct (decide (length (push_record txn KIND_COMMIT []) ≤ k)%nat).
    + right. exists m. by apply cut_all.
    + apply run_cut_commit. lia.
  - destruct (op_roundtrip o Ho) as (kind & p & Heo & Hdo & Hk & Hpb & Hpl). rewrite Heo in He.
    cbn [result_bind fst snd] in He. destruct (encode_ops txn os) as [body'|] eqn:Eb; [|done].
    cbn [result_bind] in He. apply Ok_inj in He as <-. cbn zeta. rewrite <- app_assoc.
    unfold KIND_MKNODE, KIND_RENAME in Hk.
    destruct (decide (length (push_record txn kind p) ≤ k)%nat) as [Hge|Hlt].
    + rewrite cut_app_ge by done. rewrite run_record by (try done; unfold is_byte; lia).
      rewrite (step_op min s txn kind p o) by (try done; unfold KIND_MKNODE; lia).
      destruct (IH (add_pending s [o] (length (push_record txn kind p))) body'
                  (k - length (push_record txn kind p))%nat eq_refl Hp Hs) as [Hsame|[m' Hm']].
      * by left.
      * right. exists m'. by rewrite Hm', <- !app_assoc.
    + rewrite cut_app_lt by lia. left. apply run_cut_record; [lia| |done]. unfold KIND_COMMIT. lia.
Qed.

(** A transaction cut anywhere: nothing of it is committed, or it is complete. *)
Lemma run_cut_txn min s txn os data k m :
  in_width 64 txn → Forall op_ok os → encode_txn txn os = Ok data →
  same_commits s (run min s (cut k m data)) ∨ ∃ m', cut k m data = data ++ zeros m'.
Proof.
  intros Ht Hok He. unfold encode_txn in He. destruct (encode_ops txn os) as [body|] eqn:Eb; [|done].
  cbn [result_bind] in He. apply Ok_inj in He as <-. destruct empty_payload as [_ Hlen].
  pose proof (seen_le s txn) as Hseen.
  destruct (decide (length (push_record txn KIND_BEGIN []) ≤ k)%nat) as [Hge|Hlt].
  - rewrite cut_app_ge, run_begin by done.
    destruct (run_cut_ops min txn os body (begin_state min s txn)
      (k - length (push_record txn KIND_BEGIN []))%nat m Ht Hok Eb) as [Hsame|[m' Hm']];
      [done|cbn [begin_state max_seen_txn]; lia| |].
    + by left.
    + right. exists m'. by rewrite Hm', <- !app_assoc.
  - rewrite cut_app_lt by lia. left. by apply run_cut_record; [lia| |].
Qed.

(** ** Journals *)

(** The transactions of a journal, in the order they were appended. *)
Fixpoint encode_journal (txns : list (Z * list Op)) : result bytes NxfsError :=
  match txns with
  | [] => Ok []
  | (t, os) :: txns' =>
      let? d := encode_txn t os in
      let? rest := encode_journal txns' in
      Ok (d ++ rest)
  end.

Definition txn_ok (p : Z * list Op) : Prop := in_width 64 p.1 ∧ Forall op_ok p.2.

(** What a mount applies: the operations of the transactions from the
    checkpoint's watermark on. *)
Definition live_ops (min : Z) (txns : list (Z * list Op)) : list Op :=
  concat (map snd (filter (fun p => min ≤ p.1) txns)).

Lemma live_ops_cons min t os txns :
  live_ops min ((t, os) :: txns) = (if min <=? t then os else []) ++ live_ops min txns.
Proof.
  unfold live_ops. rewrite filter_cons. simpl. case_decide; destruct (Z.leb_spec min t); try lia; done.
Qed.

Definition journal_state (min : Z) (s : replay_state) (txns : list (Z * list Op)) (n : nat) : replay_state :=
  {| committed := s.(committed) ++ live_ops min txns; pending := []; pending_txn := None;
     offset := s.(offset) + n; committed_end := s.(offset) + n;
     max_seen_txn := foldl (fun m p => if m <? p.1 then p.1 else m) s.(max_seen_txn) txns;
     orphan := s.(orphan) |}.

Lemma run_journal min txns s data rest :
  Forall txn_ok txns → encode_journal txns = Ok data →
  s.(pending) = [] → s.(pending_txn) = None → s.(committed_end) = s.(offset) →
  run min s (data ++ rest) = run min (journal_state min s txns (length data)) rest.
Proof.
  intros Hok. revert s data. induction Hok as [|[t os] txns [Ht Hos] _ IH];
    intros s data He Hpe Hpt Hend; cbn [encode_journal] in He.
  - apply Ok_inj in He as <-. unfold journal_state. cbn [app length foldl].
    change (live_ops min []) with (@nil Op). rewrite app_nil_r, Nat.add_0_r.
    destruct s; cbn in *; by subst.
  - destruct (encode_txn t os) as [d|] eqn:Ed; [|done]. cbn [result_bind] in He.
    destruct (encode_journal txns) as [r|] eqn:Er; [|done]. cbn [result_bind] in He.
    apply Ok_inj in He as <-. rewrite <- app_assoc. cbn [fst snd] in *.
    rewrite (run_txn min s t os d) by done. rewrite (IH _ r) by done. f_equal.
    unfold journal_state, commit_state.
    cbn [committed pending pending_txn offset committed_end max_seen_txn orphan foldl fst].
    rewrite live_ops_cons, Hpt, length_app, <- app_assoc. cbn [open_live]. rewrite orb_false_r.
    unfold seen. f_equal; lia.
Qed.

Lemma live_ops_app min a b : live_ops min (a ++ b) = live_ops min a ++ live_ops min b.
Proof. unfold live_ops. by rewrite filter_app, map_app, concat_app. Qed.

Lemma encode_journal_snoc txns data t os d :
  encode_journal txns = Ok data → encode_txn t os = Ok d →
  encode_journal (txns ++ [(t, os)]) = Ok (data ++ d).
Proof.
  intros Hd He. revert data Hd. induction txns as [|[t' os'] txns IH]; intros data Hd;
    cbn [encode_journal app] in *.
  - apply Ok_inj in Hd as <-. rewrite He. cbn [result_bind app]. by rewrite app_nil_r.
  - destruct (encode_txn t' os') as [d'|]; [|done]. cbn [result_bind] in *.
    destruct (encode_journal txns) as [r|]; [|done]. cbn [result_bind] in *. apply Ok_inj in Hd as <-.
    rewrite (IH r) by done. cbn [result_bind]. by rewrite app_assoc.
Qed.

Lemma replay_txns min txns data n :
  Forall txn_ok txns → encode_journal txns = Ok data →
  replay (data ++ zeros n) min =
    replay_finish min (journal_state min replay_start txns (length data)).
Proof. intros Hok Hd. by rewrite replay_run, (run_journal _ txns), run_zeros. Qed.

Lemma fold_seen (txns : list (Z * list Op)) m :
  let top := foldl (fun m p => if m <? p.1 then p.1 else m) m txns in
  Forall (fun p => p.1 ≤ top) txns.
Proof.
  assert (Hmono : ∀ (l : list (Z * list Op)) a, a ≤ foldl (fun m p => if m <? p.1 then p.1 else m) a l).
  { induction l as [|p l IHl]; intros a; cbn [foldl]; [done|].
    etransitivity; [|apply IHl]. destruct (Z.ltb_spec a p.1); lia. }
  revert m. induction txns as [|p txns IH]; intros m; cbn zeta; cbn [foldl]; constructor; [|apply IH].
  etransitivity; [|apply Hmono]. destruct (Z.ltb_spec m p.1); lia.
Qed.

(** A mount reads back exactly the journal: replaying the transactions a
    session appended (zeros behind them) yields the operations of those at or
    above the checkpoint's watermark, in order, puts the write head behind the
    last one, reports no orphan, and hands out transaction numbers above every
    one in the journal; and when the last append was cut after any number of
    bytes, the replay yields either the journal without that transaction, with
    the write head where it started, or the whole transaction -- never a part
    of it. *)
Theorem nxfs_journal_atomic min txns data txn os run_bytes k m :
  Forall txn_ok txns → encode_journal txns = Ok data →
  in_width 64 txn → Forall op_ok os → encode_txn txn os = Ok run_bytes →
  let r := replay (data ++ zeros m) min in
  let torn := replay (data ++ take k run_bytes ++ zeros m) min in
  (r.(ops) = live_ops min txns ∧ r.(write_head) = length data ∧ r.(discarded) = false ∧
   min ≤ r.(next_txn) ∧ Forall (fun p => p.1 < r.(next_txn)) txns) ∧
  (torn.(ops) = r.(ops) ∧ torn.(write_head) = r.(write_head) ∨
   torn.(ops) = live_ops min (txns ++ [(txn, os)]) ∧
   torn.(write_head) = length (data ++ run_bytes) ∧ torn.(discarded) = false) ∧
  ((length run_bytes ≤ k)%nat → torn.(ops) = live_ops min (txns ++ [(txn, os)])).
Proof.
  intros Hok Hd Ht Hos He r torn.
  assert (Hall : ∀ n, replay (data ++ run_bytes ++ zeros n) min =
    replay_finish min (journal_state min replay_start (txns ++ [(txn, os)]) (length (data ++ run_bytes)))).
  { intros n. rewrite app_assoc. apply replay_txns; [|by apply encode_journal_snoc].
    apply Forall_app_2; [done|]. constructor; [|constructor]. by split. }
  assert (Hr : r = replay_finish min (journal_state min replay_start txns (length data))) by
    (by apply replay_txns).
  assert (Htorn : torn = replay_finish min
    (run min (journal_state min replay_start txns (length data)) (cut k m run_bytes))).
  { unfold torn. by rewrite replay_run, (run_journal _ txns). }
  split_and!.
  - by rewrite Hr.
  - rewrite Hr. cbn. lia.
  - by rewrite Hr.
  - rewrite Hr. cbn [replay_finish next_txn]. lia.
  - rewrite Hr. cbn [replay_finish next_txn journal_state max_seen_txn]. eapply Forall_impl;
      [apply (fold_seen txns (max_seen_txn replay_start))|].
    intros p Hp. cbv beta in Hp |- *. lia.
  - destruct (run_cut_txn min (journal_state min replay_start txns (length data))
      txn os run_bytes k m Ht Hos He) as [[Hc Hce]|[m' Hm']].
    + left. rewrite Hr, Htorn. split; [exact Hc|exact Hce].
    + right. unfold torn. change (take k run_bytes ++ zeros m) with (cut k m run_bytes).
      rewrite Hm', Hall. split_and!; done.
  - intros Hk. unfold torn. rewrite take_ge by done. by rewrite Hall.
Qed.

(** A journal of two transactions below and at the watermark; a third one cut
    inside its last record. *)
Lemma nxfs_journal_atomic_witness :
  let old := [(3, [MkNode 1 2 0 [97]]); (4, [MkNode 1 3 1 [98]; Write 3 5 [{| lb := 40; blocks := 1 |}]])] in
  let new := [Remove 1 2 [97]] in
  ∃ data run_bytes, encode_journal old = Ok data ∧ encode_txn 5 new = Ok run_bytes ∧
    live_ops 4 old = [MkNode 1 3 1 [98]; Write 3 5 [{| lb := 40; blocks := 1 |}]] ∧
    let torn := replay (data ++ take 70 run_bytes ++ zeros 64) 4 in
    (torn.(ops) = live_ops 4 old ∧ torn.(write_head) = length data ∨
     torn.(ops) = live_ops 4 (old ++ [(5, new)]) ∧ torn.(write_head) = length (data ++ run_bytes)).
Proof.
  intros old new. destruct (encode_journal old) as [data|] eqn:Ed; [|by vm_compute in Ed].
  destruct (encode_txn 5 new) as [rb|] eqn:Er; [|by vm_compute in Er].
  exists data, rb. split_and!; [done..| |].
  { reflexivity. }
  assert (Hn : name_ok [97] ∧ name_ok [98]).
  { split; split_and!; try (repeat constructor; done); done. }
  destruct Hn as [Ha Hb].
  destruct (nxfs_journal_atomic 4 old data 5 new rb 70 64) as ((Ho & Hw & _) & Ht & _).
  - repeat first [apply Forall_nil_2 | apply Forall_cons_2 | assumption | split | done].
  - done.
  - unfold in_width. lia.
  - repeat first [apply Forall_nil_2 | apply Forall_cons_2 | assumption | split | done].
  - done.
  - intros torn. destruct Ht as [[H1 H2]|(H1 & H2 & _)].
    + left. split; [by rewrite <- Ho|by rewrite <- Hw].
    + right. by split.
Defined.
