(* ===== verification/NxfsState.v ===== *)
(** The in-memory state of nxfs ([userspace/nxfs/src/state.rs]): the object
    table, the directory tables and the allocation bitmap, the allocator, and
    [apply], through which both the running engine and a mount's replay change
    the state. *)

From S2P Require Import Prelude Bytes Storage NxfsFormat NxfsJournal.

Record Object := {
  kind : Z;
  size : Z;
  extents : list Extent
}.

#[export] Instance Object_eq_dec : EqDecision Object.
Proof. solve_decision. Defined.

(** Name to object identifier and kind. *)
Abbreviation DirTable := (gmap bytes (Z * Z)).

(** The bitmap holds 64 blocks per word; a set bit is a block in use. *)
Record State := {
  objects : gmap Z Object;
  dirs : gmap Z DirTable;
  next_object : Z;
  bitmap : list Z;
  data_start : Z;
  total_blocks : Z
}.

#[export] Instance State_eq_dec : EqDecision State.
Proof. solve_decision. Defined.

Definition with_bitmap (s : State) (b : list Z) : State :=
  {| objects := s.(objects); dirs := s.(dirs); next_object := s.(next_object); bitmap := b;
     data_start := s.(data_start); total_blocks := s.(total_blocks) |}.

Definition with_tables (s : State) (o : gmap Z Object) (d : gmap Z DirTable) : State :=
  {| objects := o; dirs := d; next_object := s.(next_object); bitmap := s.(bitmap);
     data_start := s.(data_start); total_blocks := s.(total_blocks) |}.

(** ** The bitmap *)

Definition word_mark (b : list Z) (lb : Z) : list Z :=
  match b !! Z.to_nat (lb / 64) with
  | Some w => <[Z.to_nat (lb / 64) := Z.lor w (Z.shiftl 1 (lb mod 64))]> b
  | None => b
  end.

Definition word_free (b : list Z) (lb : Z) : list Z :=
  match b !! Z.to_nat (lb / 64) with
  | Some w =>
      <[Z.to_nat (lb / 64) := Z.land w (Z.lxor (max_of 64) (Z.shiftl 1 (lb mod 64)))]> b
  | None => b
  end.

Definition mark_used (s : State) (lb : Z) : State := with_bitmap s (word_mark s.(bitmap) lb).
Definition mark_free (s : State) (lb : Z) : State := with_bitmap s (word_free s.(bitmap) lb).

(** A block outside the bitmap counts as used. *)
Definition is_used (s : State) (lb : Z) : bool :=
  match s.(bitmap) !! Z.to_nat (lb / 64) with
  | None => true
  | Some w => Z.land (Z.shiftr w (lb mod 64)) 1 =? 1
  end.

Definition div_ceil (a b : Z) : Z := (a + (b - 1)) / b.

(** [State::new_empty]: the blocks below [data_start] and the superblock mirror
    are in use, the root directory is empty. *)
Definition new_empty (total data_start : Z) : State :=
  let s := {| objects := ∅; dirs := ∅; next_object := ROOT_OBJECT + 1;
              bitmap := replicate (Z.to_nat (div_ceil total 64)) 0;
              data_start := data_start; total_blocks := total |} in
  let s := foldl mark_used s (seqZ 0 data_start) in
  let s := mark_used s (total - 1) in
  with_tables s {[ROOT_OBJECT := {| kind := KIND_DIR; size := 0; extents := [] |}]}
              {[ROOT_OBJECT := ∅]}.

Definition extent_in (total : Z) (e : Extent) : bool :=
  saturating_add 64 e.(lb) e.(blocks) <=? total.

Definition validate_extents (s : State) (es : list Extent) : result unit NxfsError :=
  if forallb (extent_in s.(total_blocks)) es then Ok tt else Err Integrity.

(** The blocks of an extent list, in order. *)
Definition extent_blocks (e : Extent) : list Z := seqZ e.(lb) e.(blocks).
Definition blocks_of (es : list Extent) : list Z := concat (map extent_blocks es).

Definition mark_extents (s : State) (es : list Extent) : State :=
  foldl (fun s e => foldl mark_used s (extent_blocks e)) s es.

Definition free_extents (s : State) (es : list Extent) : State :=
  foldl (fun s e => foldl mark_free s (extent_blocks e)) s es.

(** ** The allocator *)

Record alloc_state := {
  found : list Extent;
  need : Z;
  run_start : option Z;
  run_len : Z
}.

(** One round of the scan, at block [lb]. *)
Definition alloc_step (used : bool) (lb : Z) (a : alloc_state) : alloc_state :=
  if negb used then
    let start := default lb a.(run_start) in
    let len := (match a.(run_start) with None => 0 | Some _ => a.(run_len) end) + 1 in
    if (len =? a.(need)) || (len =? max_of 32) then
      {| found := a.(found) ++ [{| lb := start; blocks := len |}]; need := a.(need) - len;
         run_start := None; run_len := 0 |}
    else {| found := a.(found); need := a.(need); run_start := Some start; run_len := len |}
  else
    match a.(run_start) with
    | Some start =>
        {| found := a.(found) ++ [{| lb := start; blocks := a.(run_len) |}];
           need := a.(need) - a.(run_len); run_start := None; run_len := 0 |}
    | None => a
    end.

(** The scan from [lb]; [fuel] is the number of blocks up to the end of the
    container. *)
Fixpoint alloc_scan (fuel : nat) (s : State) (lb : Z) (a : alloc_state) : alloc_state :=
  match fuel with
  | O => a
  | S fuel' =>
      if 0 <? a.(need) then alloc_scan fuel' s (lb + 1) (alloc_step (is_used s lb) lb a) else a
  end.

Definition alloc_blocks (s : State) (n : Z) : State * result (list Extent) NxfsError :=
  if n =? 0 then (s, Ok [])
  else
    let a := alloc_scan (Z.to_nat (s.(total_blocks) - s.(data_start))) s s.(data_start)
               {| found := []; need := n; run_start := None; run_len := 0 |} in
    if 0 <? a.(need) then (s, Err NoSpace)
    else (mark_extents s a.(found), Ok a.(found)).

(** ** Operations *)

(** Drops an object: its blocks become free, and its table goes when it is a
    directory. *)
Definition drop_object (s : State) (id : Z) : State :=
  match s.(objects) !! id with
  | Some o =>
      let s := free_extents (with_tables s (delete id s.(objects)) s.(dirs)) o.(extents) in
      if o.(kind) =? KIND_DIR then with_tables s s.(objects) (delete id s.(dirs)) else s
  | None => s
  end.

Definition bump_next (s : State) (id : Z) : State :=
  if s.(next_object) <=? id then
    {| objects := s.(objects); dirs := s.(dirs); next_object := id + 1; bitmap := s.(bitmap);
       data_start := s.(data_start); total_blocks := s.(total_blocks) |}
  else s.

Definition apply (s : State) (o : Op) : State * result unit NxfsError :=
  match o with
  | MkNode parent id k name =>
      match s.(dirs) !! parent with
      | None => (s, Err Integrity)
      | Some dir =>
          let ds := <[parent := <[name := (id, k)]> dir]> s.(dirs) in
          let os := <[id := {| kind := k; size := 0; extents := [] |}]> s.(objects) in
          let ds := if k =? KIND_DIR then <[id := ∅]> ds else ds in
          (bump_next (with_tables s os ds) id, Ok tt)
      end
  | Write id sz es =>
      match validate_extents s es with
      | Err e => (s, Err e)
      | Ok _ =>
          match s.(objects) !! id with
          | None => (s, Err Integrity)
          | Some obj =>
              if negb (obj.(kind) =? KIND_FILE) then (s, Err Integrity)
              else
                let new := {| kind := obj.(kind); size := sz; extents := es |} in
                let s := with_tables s (<[id := new]> s.(objects)) s.(dirs) in
                (mark_extents (free_extents s obj.(extents)) es, Ok tt)
          end
      end
  | Remove parent id name =>
      match s.(dirs) !! parent with
      | None => (s, Err Integrity)
      | Some dir =>
          let s := with_tables s s.(objects) (<[parent := delete name dir]> s.(dirs)) in
          (drop_object s id, Ok tt)
      end
  | Rename from_parent from_name to_parent to_name replaced =>
      match s.(dirs) !! from_parent with
      | None => (s, Err Integrity)
      | Some from =>
          match from !! from_name with
          | None => (s, Err Integrity)
          | Some entry =>
              let s := with_tables s s.(objects)
                         (<[from_parent := delete from_name from]> s.(dirs)) in
              let s := if negb (replaced =? 0) then drop_object s replaced else s in
              match s.(dirs) !! to_parent with
              | None => (s, Err Integrity)
              | Some to =>
                  (with_tables s s.(objects) (<[to_parent := <[to_name := entry]> to]> s.(dirs)),
                   Ok tt)
              end
          end
      end
  end.

(** Operations in order, stopping at the first error. *)
Fixpoint apply_all (s : State) (os : list Op) : State * result unit NxfsError :=
  match os with
  | [] => (s, Ok tt)
  | o :: os' =>
      match apply s o with
      | (s', Ok _) => apply_all s' os'
      | (s', Err e) => (s', Err e)
      end
  end.
