(* ===== verification/NxfsStateProps.v ===== *)
(** Properties of the nxfs state: what the bitmap operations do block by block,
    and the allocator as "the first free blocks, in order". *)

From S2P Require Import Prelude Bytes Storage NxfsFormat NxfsJournal NxfsState.

(** ** The bitmap, bit by bit *)

Definition bitmap_ok (b : list Z) : Prop := Forall (in_width 64) b.

(** The blocks the bitmap covers. *)
Definition covered (b : list Z) (x : Z) : Prop := 0 ≤ x < 64 * vlen b.

#[export] Instance covered_dec b x : Decision (covered b x).
Proof. unfold covered. apply _. Defined.

Definition bit (b : list Z) (x : Z) : bool :=
  match b !! Z.to_nat (x / 64) with
  | Some w => Z.testbit w (x mod 64)
  | None => true
  end.

Lemma is_used_bit s x : is_used s x = bit s.(bitmap) x.
Proof.
  unfold is_used, bit. destruct (_ !! _) as [w|]; [|done].
  rewrite land_one_bit, Z.shiftr_spec, Z.add_0_l by lia. by destruct (Z.testbit _ _).
Qed.

Lemma covered_word b x : covered b x → ∃ w, b !! Z.to_nat (x / 64) = Some w.
Proof.
  intros [H0 H1]. apply lookup_lt_is_Some_2. unfold vlen in H1.
  assert (x / 64 < Z.of_nat (length b)) by (apply Z.div_lt_upper_bound; lia).
  assert (0 ≤ x / 64) by (apply Z.div_pos; lia). lia.
Qed.

Lemma mod64 x : 0 ≤ x mod 64 < 64.
Proof. apply Z.mod_pos_bound. lia. Qed.

Lemma same_block x y :
  0 ≤ x → 0 ≤ y → Z.to_nat (x / 64) = Z.to_nat (y / 64) → x mod 64 = y mod 64 → x = y.
Proof.
  intros Hx Hy Hd Hm. rewrite (Z.div_mod x 64), (Z.div_mod y 64) by lia.
  assert (0 ≤ x / 64 ∧ 0 ≤ y / 64) by (split; apply Z.div_pos; lia). f_equal; lia.
Qed.

(** Changing one word of the bitmap by an operation that touches one bit. *)
Lemma bit_update b x y w v f :
  covered b x → covered b y → b !! Z.to_nat (x / 64) = Some w →
  (∀ n, 0 ≤ n < 64 → Z.testbit f n = if n =? x mod 64 then v else Z.testbit w n) →
  bit (<[Z.to_nat (x / 64) := f]> b) y = if decide (y = x) then v else bit b y.
Proof.
  intros Hx Hy Hw Hf. unfold bit. destruct (decide (Z.to_nat (y / 64) = Z.to_nat (x / 64))) as [E|E].
  - rewrite E, list_lookup_insert_eq by (by eapply lookup_lt_Some). rewrite Hf by apply mod64. rewrite Hw.
    destruct (Z.eqb_spec (y mod 64) (x mod 64)) as [Em|Em]; case_decide as Exy; try done.
    + by apply same_block in Em; [|apply Hy|apply Hx|].
    + by subst.
  - rewrite list_lookup_insert_ne by done. case_decide; [|done]. by subst.
Qed.

Lemma shiftl1_testbit k n : 0 ≤ k → 0 ≤ n → Z.testbit (Z.shiftl 1 k) n = (n =? k).
Proof.
  intros Hk Hn. rewrite Z.shiftl_spec by lia. destruct (Z.eqb_spec n k) as [->|Hne].
  - by rewrite Z.sub_diag.
  - destruct (Z.lt_ge_cases (n - k) 0) as [?|?]; [by apply Z.testbit_neg_r|].
    replace (n - k) with (Z.succ (n - k - 1)) by lia. change 1 with (2 * 0 + 1).
    rewrite Z.testbit_odd_succ by lia. apply Z.testbit_0_l.
Qed.

Lemma bit_mark b x y :
  covered b x → covered b y → bit (word_mark b x) y = if decide (y = x) then true else bit b y.
Proof.
  intros Hx Hy. destruct (covered_word b x Hx) as [w Hw]. unfold word_mark. rewrite Hw.
  apply (bit_update _ _ _ w); [done..|]. intros n Hn. pose proof (mod64 x).
  rewrite Z.lor_spec, shiftl1_testbit by lia.
  destruct (n =? x mod 64); [apply orb_true_r|apply orb_false_r].
Qed.

Lemma bit_free b x y :
  covered b x → covered b y → bit (word_free b x) y = if decide (y = x) then false else bit b y.
Proof.
  intros Hx Hy. destruct (covered_word b x Hx) as [w Hw]. unfold word_free. rewrite Hw.
  apply (bit_update _ _ _ w); [done..|]. intros n Hn. pose proof (mod64 x).
  rewrite Z.land_spec, Z.lxor_spec, shiftl1_testbit by lia.
  change (max_of 64) with (Z.ones 64). rewrite Z.ones_spec_low by lia.
  destruct (n =? x mod 64); [apply andb_false_r|apply andb_true_r].
Qed.

Lemma word_mark_length b x : length (word_mark b x) = length b.
Proof. unfold word_mark. destruct (_ !! _); [apply length_insert|done]. Qed.

Lemma word_free_length b x : length (word_free b x) = length b.
Proof. unfold word_free. destruct (_ !! _); [apply length_insert|done]. Qed.

Lemma width_bits w : in_width 64 w ↔ 0 ≤ w ∧ ∀ n, 64 ≤ n → Z.testbit w n = false.
Proof.
  unfold in_width. split.
  - intros Hw. split; [lia|]. intros n Hn. destruct (Z.eq_dec w 0) as [->|]; [apply Z.testbit_0_l|].
    apply Z.bits_above_log2; [lia|]. apply Z.log2_lt_pow2; [lia|].
    eapply Z.lt_le_trans; [apply Hw|]. apply Z.pow_le_mono_r; lia.
  - intros [H0 Hb]. split; [done|]. destruct (Z.lt_ge_cases w (2 ^ 64)) as [?|Hge]; [done|].
    assert (64 ≤ Z.log2 w) by (apply Z.log2_le_pow2; lia).
    pose proof (Z.bit_log2 w ltac:(lia)) as Hl. by rewrite Hb in Hl.
Qed.

Lemma word_mark_ok b x : bitmap_ok b → bitmap_ok (word_mark b x).
Proof.
  intros Hb. unfold word_mark. destruct (_ !! _) as [w|] eqn:E; [|done]. apply Forall_insert; [done|].
  eapply Forall_lookup_1 in Hb; [|done]. apply width_bits in Hb as [H0 Hb]. apply width_bits.
  pose proof (mod64 x). split; [apply Z.lor_nonneg; split; [done|apply Z.shiftl_nonneg; lia]|].
  intros n Hn. rewrite Z.lor_spec, Hb, shiftl1_testbit by lia. by apply Z.eqb_neq; lia.
Qed.

Lemma word_free_ok b x : bitmap_ok b → bitmap_ok (word_free b x).
Proof.
  intros Hb. unfold word_free. destruct (_ !! _) as [w|] eqn:E; [|done]. apply Forall_insert; [done|].
  eapply Forall_lookup_1 in Hb; [|done]. apply width_bits in Hb as [H0 Hb]. apply width_bits.
  split; [apply Z.land_nonneg; by left|]. intros n Hn. by rewrite Z.land_spec, Hb.
Qed.

(** Two bitmaps of the same size with the same bits are the same. *)
Lemma bitmap_ext a b :
  bitmap_ok a → bitmap_ok b → length a = length b →
  (∀ x, covered a x → bit a x = bit b x) → a = b.
Proof.
  intros Ha Hb Hl Hbits. apply list_eq. intros i.
  destruct (a !! i) as [w|] eqn:Ea; destruct (b !! i) as [v|] eqn:Eb; try done.
  - f_equal. apply Z.bits_inj'. intros n Hn.
    eapply Forall_lookup_1 in Ha; [|done]. eapply Forall_lookup_1 in Hb; [|done].
    apply width_bits in Ha as [_ Ha]. apply width_bits in Hb as [_ Hb].
    destruct (Z.lt_ge_cases n 64) as [Hlt|?]; [|by rewrite Ha, Hb].
    apply lookup_lt_Some in Ea as Hi.
    specialize (Hbits (64 * Z.of_nat i + n)). unfold bit in Hbits.
    assert (Hd : (64 * Z.of_nat i + n) / 64 = Z.of_nat i) by
      (rewrite Z.mul_comm, Z.div_add_l, Z.div_small; lia).
    assert (Hm : (64 * Z.of_nat i + n) mod 64 = n) by
      (rewrite Z.add_comm, Z.mul_comm, Z_mod_plus_full; apply Z.mod_small; lia).
    rewrite Hd, Hm, Nat2Z.id, Ea, Eb in Hbits. apply Hbits. unfold covered, vlen. lia.
  - apply lookup_ge_None in Eb. apply lookup_lt_Some in Ea. lia.
  - apply lookup_ge_None in Ea. apply lookup_lt_Some in Eb. lia.
Qed.

(** ** Extents *)

Lemma blocks_of_app a b : blocks_of (a ++ b) = blocks_of a ++ blocks_of b.
Proof. unfold blocks_of. by rewrite map_app, concat_app. Qed.

Lemma foldl_concat {A B} (f : A → B → A) (ls : list (list B)) a :
  foldl (fun a l => foldl f a l) a ls = foldl f a (concat ls).
Proof. revert a. induction ls as [|l ls IH]; intros a; simpl; [done|]. by rewrite foldl_app, IH. Qed.

Lemma foldl_map {A B C} (f : A → B → A) (g : C → B) l a :
  foldl f a (map g l) = foldl (fun a c => f a (g c)) a l.
Proof. revert a. induction l as [|x l IH]; intros a; simpl; [done|]. apply IH. Qed.

Lemma foldl_bitmap (f : list Z → Z → list Z) (g : State → Z → State) l s :
  (∀ s x, g s x = with_bitmap s (f s.(bitmap) x)) →
  foldl g s l = with_bitmap s (foldl f s.(bitmap) l).
Proof.
  intros Hg. revert s. induction l as [|x l IH]; intros s; simpl; [by destruct s|].
  rewrite IH, !Hg. done.
Qed.

Lemma mark_used_all l s :
  foldl mark_used s l = with_bitmap s (foldl word_mark s.(bitmap) l).
Proof. by apply foldl_bitmap. Qed.

Lemma mark_extents_bitmap s es :
  mark_extents s es = with_bitmap s (foldl word_mark s.(bitmap) (blocks_of es)).
Proof.
  unfold mark_extents, blocks_of. rewrite <- (foldl_map (foldl mark_used)), foldl_concat.
  apply mark_used_all.
Qed.

Lemma free_extents_bitmap s es :
  free_extents s es = with_bitmap s (foldl word_free s.(bitmap) (blocks_of es)).
Proof.
  unfold free_extents, blocks_of. rewrite <- (foldl_map (foldl mark_free)), foldl_concat.
  by apply foldl_bitmap.
Qed.

Lemma marks_length l b : length (foldl word_mark b l) = length b.
Proof. revert b. induction l; intros b; simpl; [done|]. by rewrite IHl, word_mark_length. Qed.

Lemma frees_length l b : length (foldl word_free b l) = length b.
Proof. revert b. induction l; intros b; simpl; [done|]. by rewrite IHl, word_free_length. Qed.

Lemma marks_ok l b : bitmap_ok b → bitmap_ok (foldl word_mark b l).
Proof. revert b. induction l; intros b; simpl; auto using word_mark_ok. Qed.

Lemma frees_ok l b : bitmap_ok b → bitmap_ok (foldl word_free b l).
Proof. revert b. induction l; intros b; simpl; auto using word_free_ok. Qed.

Lemma covered_length a b x : length a = length b → covered a x ↔ covered b x.
Proof. unfold covered, vlen. by intros ->. Qed.

Lemma bit_marks l b y :
  Forall (covered b) l → covered b y →
  bit (foldl word_mark b l) y = if decide (y ∈ l) then true else bit b y.
Proof.
  revert b. induction l as [|x l IH]; intros b Hl Hy; cbn [foldl].
  - rewrite decide_False by (by intros ?%elem_of_nil). done.
  - inversion_clear Hl as [|? ? Hx Hl']. rewrite IH.
    + rewrite bit_mark by done. repeat case_decide; set_solver.
    + eapply Forall_impl; [exact Hl'|]. intros z. apply covered_length. by rewrite word_mark_length.
    + eapply covered_length; [|exact Hy]. apply word_mark_length.
Qed.

Lemma bit_frees l b y :
  Forall (covered b) l → covered b y →
  bit (foldl word_free b l) y = if decide (y ∈ l) then false else bit b y.
Proof.
  revert b. induction l as [|x l IH]; intros b Hl Hy; cbn [foldl].
  - rewrite decide_False by (by intros ?%elem_of_nil). done.
  - inversion_clear Hl as [|? ? Hx Hl']. rewrite IH.
    + rewrite bit_free by done. repeat case_decide; set_solver.
    + eapply Forall_impl; [exact Hl'|]. intros z. apply covered_length. by rewrite word_free_length.
    + eapply covered_length; [|exact Hy]. apply word_free_length.
Qed.

(** ** The allocator *)

(** The shape of a state: a bitmap of the right size over a container whose
    data region starts inside it. *)
Record shape_ok (s : State) : Prop := {
  shape_bits : bitmap_ok s.(bitmap);
  shape_words : vlen s.(bitmap) = div_ceil s.(total_blocks) 64;
  shape_data : 0 ≤ s.(data_start) ≤ s.(total_blocks);
  shape_width : s.(total_blocks) < 2 ^ 64
}.

Lemma covered_block s x : shape_ok s → 0 ≤ x < s.(total_blocks) → covered s.(bitmap) x.
Proof.
  intros Hs Hx. unfold covered. rewrite (shape_words s Hs). unfold div_ceil.
  pose proof (Z.div_mod (total_blocks s + (64 - 1)) 64). pose proof (mod64 (total_blocks s + (64 - 1))). lia.
Qed.

Lemma seqZ_snoc a n : 0 ≤ n → seqZ a (n + 1) = seqZ a n ++ [a + n].
Proof. intros Hn. rewrite seqZ_app by lia. done. Qed.

Definition is_free (s : State) (x : Z) : Prop := is_used s x = false.

#[export] Instance is_free_dec s x : Decision (is_free s x).
Proof. unfold is_free. apply _. Defined.

(** The free blocks of the data region, in order. *)
Definition free_list (s : State) : list Z :=
  filter (is_free s) (seqZ s.(data_start) (s.(total_blocks) - s.(data_start))).

Definition extent_valid (s : State) (e : Extent) : Prop :=
  s.(data_start) ≤ e.(lb) ∧ 0 < e.(blocks) ≤ max_of 32 ∧ e.(lb) + e.(blocks) ≤ s.(total_blocks).

Definition run_blocks (a : alloc_state) : list Z :=
  match a.(run_start) with
  | Some st => seqZ st a.(run_len)
  | None => []
  end.

(** The scan has passed the blocks below [x]: the extents it found and the open
    run are the free ones among them. *)
Record scan_inv (s : State) (n x : Z) (a : alloc_state) : Prop := {
  scan_blocks : blocks_of a.(found) ++ run_blocks a = filter (is_free s) (seqZ s.(data_start) (x - s.(data_start)));
  scan_need : vlen (blocks_of a.(found)) + a.(need) = n;
  scan_pos : 0 ≤ a.(need);
  scan_valid : Forall (extent_valid s) a.(found);
  scan_run : match a.(run_start) with
             | Some st => 0 < a.(run_len) < a.(need) ∧ a.(run_len) < max_of 32 ∧
                          s.(data_start) ≤ st ∧ st + a.(run_len) = x
             | None => a.(run_len) = 0
             end
}.

Lemma blocks_of_snoc es e : blocks_of (es ++ [e]) = blocks_of es ++ extent_blocks e.
Proof. rewrite blocks_of_app. unfold blocks_of at 2. simpl. by rewrite app_nil_r. Qed.

Lemma vlen_seqZ a n : 0 ≤ n → vlen (seqZ a n) = n.
Proof. intros. unfold vlen. rewrite length_seqZ. lia. Qed.

(** Closing a run of [len] blocks that ends at [x]. *)
Lemma scan_close s n x found need st len :
  blocks_of found ++ seqZ st len = filter (is_free s) (seqZ s.(data_start) (x - s.(data_start))) →
  vlen (blocks_of found) + need = n → 0 < len ≤ need → len ≤ max_of 32 →
  s.(data_start) ≤ st → st + len ≤ s.(total_blocks) → Forall (extent_valid s) found →
  scan_inv s n x {| found := found ++ [{| lb := st; blocks := len |}]; need := need - len;
                    run_start := None; run_len := 0 |}.
Proof.
  intros Hb Hn Hl Hm Hst Hend Hv. split; cbn [NxfsState.found NxfsState.need run_start run_len run_blocks];
    [| |lia| |done].
  - rewrite blocks_of_snoc. unfold run_blocks. cbn [run_start]. rewrite app_nil_r. exact Hb.
  - rewrite blocks_of_snoc, vlen_app. unfold extent_blocks. cbn [lb blocks]. rewrite vlen_seqZ; lia.
  - apply Forall_app_2; [done|]. repeat constructor; cbn [lb blocks]; lia.
Qed.

Lemma scan_step s n x a :
  s.(data_start) ≤ x < s.(total_blocks) → 0 < a.(need) → scan_inv s n x a →
  scan_inv s n (x + 1) (alloc_step (is_used s x) x a).
Proof.
  intros Hx Hneed [Hb Hn Hp Hv Hr]. destruct a as [fd nd rs rl].
  cbn [found need run_start run_len run_blocks] in *.
  assert (Hseq : seqZ (data_start s) (x + 1 - data_start s) =
                 seqZ (data_start s) (x - data_start s) ++ [x]).
  { replace (x + 1 - data_start s) with (x - data_start s + 1) by lia.
    rewrite seqZ_snoc by lia. do 2 f_equal. lia. }
  unfold alloc_step. cbn [found need run_start run_len]. destruct (is_used s x) eqn:Eu; cbn [negb].
  - assert (Hfil : filter (is_free s) (seqZ (data_start s) (x + 1 - data_start s)) =
                   filter (is_free s) (seqZ (data_start s) (x - data_start s))).
    { rewrite Hseq, filter_app, filter_cons, decide_False, filter_nil, app_nil_r;
        [done|]. unfold is_free. by rewrite Eu. }
    destruct rs as [st|].
    + apply scan_close; try done; try lia. by rewrite Hfil.
    + split; cbn [found need run_start run_len]; try done. by rewrite Hfil.
  - assert (Hfil : filter (is_free s) (seqZ (data_start s) (x + 1 - data_start s)) =
                   filter (is_free s) (seqZ (data_start s) (x - data_start s)) ++ [x]).
    { rewrite Hseq, filter_app, filter_cons, decide_True, filter_nil; [done|exact Eu]. }
    set (st := default x rs). set (len := match rs with None => 0 | Some _ => rl end + 1).
    assert (Hrun : 0 < len ≤ nd ∧ len ≤ max_of 32 ∧ data_start s ≤ st ∧ st + len = x + 1 ∧
                   blocks_of fd ++ seqZ st len = filter (is_free s) (seqZ (data_start s) (x + 1 - data_start s))).
    { unfold st, len. rewrite Hfil, <- Hb. unfold run_blocks. cbn [run_start run_len].
      destruct rs as [st'|]; cbn [default] in *; unfold id.
      - split_and!; try lia. rewrite seqZ_snoc, app_assoc by lia. do 2 f_equal. lia.
      - unfold max_of. split_and!; try lia. rewrite app_nil_r. done. }
    destruct Hrun as (Hl & Hm & Hst & Hend & Hblk).
    destruct ((len =? nd) || (len =? max_of 32)) eqn:Ec.
    + apply scan_close; (done || lia).
    + apply orb_false_iff in Ec as [E1 E2]. apply Z.eqb_neq in E1, E2.
      split; cbn [found need run_start run_len run_blocks]; try done. lia.
Qed.

Lemma scan_end s n fuel x a :
  s.(data_start) ≤ x → x + Z.of_nat fuel = s.(total_blocks) → scan_inv s n x a →
  let a' := alloc_scan fuel s x a in
  (a'.(need) = 0 ∧ ∃ y, y ≤ s.(total_blocks) ∧ s.(data_start) ≤ y ∧ scan_inv s n y a') ∨
  (0 < a'.(need) ∧ scan_inv s n s.(total_blocks) a').
Proof.
  revert x a. induction fuel as [|fuel IH]; intros x a Hx Hend Hinv; cbn [alloc_scan].
  - replace x with (total_blocks s) in Hinv by lia. destruct (decide (need a = 0)) as [E|E].
    + left. split; [done|]. exists (total_blocks s). split_and!; [lia|lia|done].
    + right. split; [|done]. pose proof (scan_pos _ _ _ _ Hinv). lia.
  - destruct (Z.ltb_spec 0 (need a)) as [Hn|Hn].
    + apply IH; [lia|lia|]. apply scan_step; [lia|done..].
    + left. pose proof (scan_pos _ _ _ _ Hinv). split; [lia|]. exists x. split_and!; [lia..|done].
Qed.

Lemma filter_prefix s y :
  s.(data_start) ≤ y ≤ s.(total_blocks) →
  filter (is_free s) (seqZ s.(data_start) (y - s.(data_start))) `prefix_of` free_list s.
Proof.
  intros Hy. unfold free_list.
  replace (total_blocks s - data_start s) with ((y - data_start s) + (total_blocks s - y)) by lia.
  rewrite (seqZ_app (data_start s)), filter_app by lia. by apply prefix_app_r.
Qed.

(** The scan from the start of the data region: it finds exactly the first [n]
    free blocks, or there are fewer than [n]. *)
Lemma alloc_scan_spec s n :
  shape_ok s → 0 < n →
  let a := alloc_scan (Z.to_nat (s.(total_blocks) - s.(data_start))) s s.(data_start)
             {| found := []; need := n; run_start := None; run_len := 0 |} in
  (a.(need) = 0 ∧ n ≤ vlen (free_list s) ∧ blocks_of a.(found) = take (Z.to_nat n) (free_list s) ∧
   Forall (extent_valid s) a.(found)) ∨
  (0 < a.(need) ∧ vlen (free_list s) < n).
Proof.
  intros Hs Hn a. destruct (shape_data s Hs) as [Hd0 Hd1].
  assert (H0 : scan_inv s n (data_start s) {| found := []; need := n; run_start := None; run_len := 0 |}).
  { split; cbn [found need run_start run_len]; try done; try lia. rewrite Z.sub_diag. done. }
  pose proof (scan_end s n (Z.to_nat (total_blocks s - data_start s)) _ _ (Z.le_refl _) ltac:(lia) H0)
    as Hend. cbn zeta in Hend. fold a in Hend.
  destruct Hend as [[Hneed (y & Hy1 & Hy2 & [Hb Hnn Hp Hv Hr])]|[Hneed [Hb Hnn Hp Hv Hr]]].
  - left. assert (Hrs : run_blocks a = []).
    { unfold run_blocks. destruct (run_start a); [lia|done]. }
    rewrite Hrs, app_nil_r in Hb. rewrite Hneed, Z.add_0_r in Hnn. split; [done|].
    destruct (filter_prefix s y ltac:(lia)) as [rest Hrest]. rewrite <- Hb in Hrest.
    split_and!; [| |done].
    + rewrite Hrest, vlen_app. pose proof (vlen_nonneg rest). lia.
    + rewrite Hrest, take_app_length'; [done|]. unfold vlen in Hnn. lia.
  - right. split; [done|]. unfold free_list. rewrite <- Hb, vlen_app. unfold run_blocks.
    destruct (run_start a) as [st|]; [rewrite vlen_seqZ by lia|change (vlen []) with 0]; lia.
Qed.

Lemma elem_of_blocks es x :
  x ∈ blocks_of es ↔ ∃ e, e ∈ es ∧ e.(lb) ≤ x < e.(lb) + e.(blocks).
Proof.
  unfold blocks_of. induction es as [|e es IH]; simpl.
  - rewrite elem_of_nil. split; [done|]. by intros (e & []%elem_of_nil & _).
  - rewrite elem_of_app, IH. unfold extent_blocks. rewrite elem_of_seqZ. split.
    + intros [Hx|(e' & He' & Hx)]; [exists e|exists e']; (split; [by set_solver|done]).
    + intros (e' & [->|He']%elem_of_cons & Hx); [by left|]. right. by exists e'.
Qed.

(** Extents inside the container lie inside the bitmap. *)
Definition extents_in (s : State) (es : list Extent) : Prop :=
  Forall (fun e => 0 ≤ e.(lb) ∧ e.(lb) + e.(blocks) ≤ s.(total_blocks)) es.

Lemma extents_covered s es :
  shape_ok s → extents_in s es → Forall (covered s.(bitmap)) (blocks_of es).
Proof.
  intros Hs Hes. apply Forall_forall. intros x (e & He & Hx)%elem_of_blocks.
  unfold extents_in in Hes. rewrite Forall_forall in Hes. specialize (Hes e He).
  apply covered_block; [done|]. lia.
Qed.

Lemma is_used_marks s es x :
  shape_ok s → extents_in s es → 0 ≤ x < s.(total_blocks) →
  is_used (mark_extents s es) x = if decide (x ∈ blocks_of es) then true else is_used s x.
Proof.
  intros Hs Hes Hx. rewrite mark_extents_bitmap, !is_used_bit. cbn [bitmap with_bitmap].
  apply bit_marks; [by apply extents_covered|by apply covered_block].
Qed.

Lemma is_used_frees s es x :
  shape_ok s → extents_in s es → 0 ≤ x < s.(total_blocks) →
  is_used (free_extents s es) x = if decide (x ∈ blocks_of es) then false else is_used s x.
Proof.
  intros Hs Hes Hx. rewrite free_extents_bitmap, !is_used_bit. cbn [bitmap with_bitmap].
  apply bit_frees; [by apply extents_covered|by apply covered_block].
Qed.

Lemma extent_valid_in s es : shape_ok s → Forall (extent_valid s) es → extents_in s es.
Proof.
  intros Hs Hv. eapply Forall_impl; [exact Hv|]. intros e (H1 & _ & H3). pose proof (shape_data s Hs). lia.
Qed.

Lemma free_list_elem s x : x ∈ free_list s ↔ is_used s x = false ∧ s.(data_start) ≤ x < s.(total_blocks).
Proof. unfold free_list. rewrite list_elem_of_filter, elem_of_seqZ. unfold is_free. intuition lia. Qed.

Lemma free_list_NoDup s : NoDup (free_list s).
Proof. apply NoDup_filter, NoDup_seqZ. Qed.

(** Freeing what was just allocated restores the bitmap. *)
Lemma free_marks s es :
  shape_ok s → extents_in s es → (∀ x, x ∈ blocks_of es → is_used s x = false) →
  free_extents (mark_extents s es) es = s.
Proof.
  intros Hs Hes Hfree. rewrite free_extents_bitmap, mark_extents_bitmap. cbn [bitmap with_bitmap].
  pose proof (extents_covered s es Hs Hes) as Hc. unfold with_bitmap.
  cbn [objects dirs next_object bitmap data_start total_blocks].
  enough (E : foldl word_free (foldl word_mark (bitmap s) (blocks_of es)) (blocks_of es) = bitmap s)
    by (rewrite E; by destruct s).
  destruct Hs as [Hb _ _ _]. apply bitmap_ext.
  - by apply frees_ok, marks_ok.
  - done.
  - by rewrite frees_length, marks_length.
  - intros x Hx. assert (Hx' : covered (bitmap s) x).
    { eapply covered_length; [|exact Hx]. by rewrite frees_length, marks_length. }
    rewrite bit_frees.
    + case_decide as Hin; [by rewrite <- is_used_bit, Hfree|].
      rewrite bit_marks by done. by rewrite decide_False.
    + eapply Forall_impl; [exact Hc|]. intros y. apply covered_length. by rewrite marks_length.
    + eapply covered_length; [|exact Hx']. by rewrite marks_length.
Qed.

(** What [alloc_blocks] does, on both branches. *)
Lemma alloc_blocks_cases s n :
  shape_ok s → 0 ≤ n →
  (n ≤ vlen (free_list s) ∧ ∃ es, alloc_blocks s n = (mark_extents s es, Ok es) ∧
     blocks_of es = take (Z.to_nat n) (free_list s) ∧ Forall (extent_valid s) es) ∨
  (vlen (free_list s) < n ∧ alloc_blocks s n = (s, Err NoSpace)).
Proof.
  intros Hs Hn. unfold alloc_blocks. destruct (Z.eqb_spec n 0) as [->|Hn0].
  - left. split; [apply vlen_nonneg|]. exists []. by split_and!.
  - pose proof (alloc_scan_spec s n Hs ltac:(lia)) as Hspec. cbn zeta in Hspec.
    destruct Hspec as [(Hneed & Hle & Hb & Hv)|(Hneed & Hlt)].
    + left. split; [done|]. eexists. rewrite Hneed. split_and!; [reflexivity|done..].
    + right. split; [done|]. by destruct (Z.ltb_spec 0 (need (alloc_scan
        (Z.to_nat (total_blocks s - data_start s)) s (data_start s)
        {| found := []; need := n; run_start := None; run_len := 0 |}))); [|lia].
Qed.

(** The allocator hands out exactly the first [n] free blocks of the data
    region, in order: it fails with [NoSpace], leaving the state as it was, only
    when fewer than [n] are free; otherwise the extents are non-empty, lie
    inside the data region, overlap nothing that is in use nor each other, are
    then in use and change no other block, and freeing them restores the state
    exactly. *)
Theorem alloc_blocks_spec s n s' r :
  shape_ok s → 0 ≤ n → alloc_blocks s n = (s', r) →
  match r with
  | Ok es =>
      blocks_of es = take (Z.to_nat n) (free_list s) ∧ vlen (blocks_of es) = n ∧
      NoDup (blocks_of es) ∧ Forall (extent_valid s) es ∧
      (∀ x, x ∈ blocks_of es → is_used s x = false) ∧
      (∀ x, 0 ≤ x < s.(total_blocks) →
            is_used s' x = bool_decide (x ∈ blocks_of es) || is_used s x) ∧
      s'.(objects) = s.(objects) ∧ s'.(dirs) = s.(dirs) ∧ free_extents s' es = s
  | Err e => e = NoSpace ∧ s' = s ∧ vlen (free_list s) < n
  end.
Proof.
  intros Hs Hn Ha. destruct (alloc_blocks_cases s n Hs Hn) as [(Hle & es & Heq & Hb & Hv)|[Hlt Heq]];
    rewrite Heq in Ha; injection Ha as <- <-; [|done].
  pose proof (extent_valid_in s es Hs Hv) as Hin.
  assert (Hfree : ∀ x, x ∈ blocks_of es → is_used s x = false).
  { intros x Hx. rewrite Hb in Hx. apply (subseteq_take _ _) in Hx. by apply free_list_elem in Hx as [? _]. }
  split_and!; try done.
  - rewrite Hb. unfold vlen in *. rewrite length_take. lia.
  - rewrite Hb. eapply sublist_NoDup; [apply free_list_NoDup|apply sublist_take].
  - intros x Hx. rewrite is_used_marks by done. by case_decide; [rewrite bool_decide_true|rewrite bool_decide_false].
  - by rewrite mark_extents_bitmap.
  - by rewrite mark_extents_bitmap.
  - by apply free_marks.
Qed.

(** A container of 70 blocks with blocks 12 and 13 taken: five blocks come in
    two runs. *)
Lemma alloc_blocks_spec_witness :
  let s := mark_extents (new_empty 70 10) [{| lb := 12; blocks := 2 |}] in
  let '(s', r) := alloc_blocks s 5 in
  r = Ok [{| lb := 10; blocks := 2 |}; {| lb := 14; blocks := 3 |}] ∧
  free_extents s' [{| lb := 10; blocks := 2 |}; {| lb := 14; blocks := 3 |}] = s ∧
  NoDup (blocks_of [{| lb := 10; blocks := 2 |}; {| lb := 14; blocks := 3 |}]).
Proof.
  assert (H5 : 0 ≤ 5) by lia. intros s. destruct (alloc_blocks s 5) as [s' r] eqn:E.
  assert (Hr : r = Ok [{| lb := 10; blocks := 2 |}; {| lb := 14; blocks := 3 |}]).
  { change r with (s', r).2. rewrite <- E. vm_compute. reflexivity. }
  assert (Hs : shape_ok s).
  { clear E Hr. assert (Et : total_blocks s = 70) by (vm_compute; reflexivity).
    assert (Ed : data_start s = 10) by (vm_compute; reflexivity).
    split; [|vm_compute; reflexivity|rewrite Et, Ed; lia|rewrite Et; lia].
    assert (Eb : bitmap s = [13311; 32]) by (vm_compute; reflexivity).
    unfold bitmap_ok. rewrite Eb. apply Forall_cons_2; [|apply Forall_cons_2; [|constructor]];
      unfold in_width; lia. }
  pose proof (alloc_blocks_spec s 5 s' r Hs H5 E) as Hspec. rewrite Hr in Hspec.
  destruct Hspec as (_ & _ & Hnd & _ & _ & _ & _ & _ & Hf).
  split; [exact Hr|]. split; [exact Hf|exact Hnd].
Defined.
