(* ===== verification/NxfsTree.v ===== *)
(** The invariant of the nxfs state and its preservation by [apply]: object and
    directory tables agree, every object has at most one name, extents are
    disjoint and the bitmap is exactly the reserved blocks plus the extents. *)

From S2P Require Import Prelude Bytes Storage NxfsFormat NxfsJournal NxfsJournalProps NxfsState NxfsStateProps.

(** The directory [p] names object [c], of kind [k], [n]. *)
Definition entry (s : State) (p : Z) (n : bytes) (c k : Z) : Prop :=
  ∃ t, s.(dirs) !! p = Some t ∧ t !! n = Some (c, k).

(** Block [x] belongs to object [id]. *)
Definition owns (s : State) (id x : Z) : Prop :=
  ∃ o, s.(objects) !! id = Some o ∧ x ∈ blocks_of o.(extents).

(** An extent in the data region, below the superblock mirror. *)
Definition extent_data (ds total : Z) (e : Extent) : Prop :=
  ds ≤ e.(lb) ∧ 0 < e.(blocks) ≤ max_of 32 ∧ e.(lb) + e.(blocks) < total.

Record object_ok (ds total : Z) (o : Object) : Prop := {
  obj_kind : o.(kind) = KIND_FILE ∨ o.(kind) = KIND_DIR;
  obj_size : in_width 64 o.(size);
  obj_extents : Forall (extent_data ds total) o.(extents);
  obj_count : vlen o.(extents) ≤ MAX_EXTENTS_PER_WRITE;
  obj_nodup : NoDup (blocks_of o.(extents));
  obj_dir : o.(kind) = KIND_DIR → o.(extents) = []
}.

Definition reserved (s : State) (x : Z) : Prop := x < s.(data_start) ∨ x = s.(total_blocks) - 1.

Record state_ok (s : State) : Prop := {
  ok_shape : shape_ok s;
  ok_room : s.(data_start) < s.(total_blocks);
  ok_root : ∃ o, s.(objects) !! ROOT_OBJECT = Some o ∧ o.(kind) = KIND_DIR;
  ok_ids : ∀ id, is_Some (s.(objects) !! id) → ROOT_OBJECT ≤ id < s.(next_object);
  ok_next : in_width 64 s.(next_object);
  ok_objects : ∀ id o, s.(objects) !! id = Some o → object_ok s.(data_start) s.(total_blocks) o;
  ok_dirs : ∀ id, is_Some (s.(dirs) !! id) ↔ ∃ o, s.(objects) !! id = Some o ∧ o.(kind) = KIND_DIR;
  ok_entries : ∀ p n c k, entry s p n c k →
    name_ok n ∧ c ≠ ROOT_OBJECT ∧ ∃ o, s.(objects) !! c = Some o ∧ o.(kind) = k;
  ok_unique : ∀ p n k p' n' k' c, entry s p n c k → entry s p' n' c k' → p = p' ∧ n = n';
  ok_disjoint : ∀ id id' x, owns s id x → owns s id' x → id = id';
  ok_bitmap : ∀ x, covered s.(bitmap) x →
    bit s.(bitmap) x = true ↔ reserved s x ∨ ∃ id, owns s id x
}.

(** ** Editing one table entry *)

Definition set_entry (s : State) (p : Z) (t : DirTable) (n : bytes) (v : Z * Z) : State :=
  with_tables s s.(objects) (<[p := <[n := v]> t]> s.(dirs)).

Definition del_entry (s : State) (p : Z) (t : DirTable) (n : bytes) : State :=
  with_tables s s.(objects) (<[p := delete n t]> s.(dirs)).

Lemma entry_del s p t n p' n' c k :
  s.(dirs) !! p = Some t →
  entry (del_entry s p t n) p' n' c k ↔ entry s p' n' c k ∧ ¬ (p' = p ∧ n' = n).
Proof.
  intros Hp. unfold entry, del_entry. cbn [dirs with_tables].
  destruct (decide (p' = p)) as [->|Hne].
  - rewrite lookup_insert_eq. rewrite Hp. split.
    + intros (t' & [= <-] & [Hn Hl]%lookup_delete_Some). naive_solver.
    + intros [(t' & [= <-] & Hl) Hn]. eexists. split; [done|].
      rewrite lookup_delete_ne; [done|]. naive_solver.
  - rewrite lookup_insert_ne by done. naive_solver.
Qed.

Lemma entry_set s p t n v p' n' c k :
  s.(dirs) !! p = Some t →
  entry (set_entry s p t n v) p' n' c k ↔
    (p' = p ∧ n' = n ∧ v = (c, k)) ∨ (entry s p' n' c k ∧ ¬ (p' = p ∧ n' = n)).
Proof.
  intros Hp. unfold entry, set_entry. cbn [dirs with_tables].
  destruct (decide (p' = p)) as [->|Hne].
  - rewrite lookup_insert_eq, Hp. split.
    + intros (t' & [= <-] & [[-> ->]|[Hn Hl]]%lookup_insert_Some); naive_solver.
    + intros [(_ & -> & ->)|[(t' & [= <-] & Hl) Hn]].
      * eexists. split; [done|]. apply lookup_insert_eq.
      * eexists. split; [done|]. rewrite lookup_insert_ne; [done|]. naive_solver.
  - rewrite lookup_insert_ne by done. naive_solver.
Qed.

Lemma dirs_dom_insert {A} (m : gmap Z A) p t t' i :
  m !! p = Some t → is_Some (<[p := t']> m !! i) ↔ is_Some (m !! i).
Proof.
  intros Hp. destruct (decide (i = p)) as [->|?]; [by rewrite lookup_insert_eq, Hp|].
  by rewrite lookup_insert_ne.
Qed.

Lemma shape_tables s o d : shape_ok s → shape_ok (with_tables s o d).
Proof. intros []. by split. Qed.

Lemma del_entry_ok s p t n :
  state_ok s → s.(dirs) !! p = Some t → state_ok (del_entry s p t n).
Proof.
  intros [] Hp. split; try done.
  - by apply shape_tables.
  - intros id. cbn [dirs objects del_entry set_entry with_tables].
    rewrite (dirs_dom_insert _ _ t) by done. auto.
  - intros p' n' c k [He _]%entry_del; [|done]. eauto.
  - intros p1 n1 k1 p2 n2 k2 c [H1 _]%entry_del [H2 _]%entry_del; [|done..]. eauto.
Qed.

Lemma set_entry_ok s p t n c k :
  state_ok s → s.(dirs) !! p = Some t → name_ok n → c ≠ ROOT_OBJECT →
  (∃ o, s.(objects) !! c = Some o ∧ o.(kind) = k) →
  (∀ p' n' k', entry s p' n' c k' → p' = p ∧ n' = n) →
  state_ok (set_entry s p t n (c, k)).
Proof.
  intros [] Hp Hn Hc Ho Hun. split; try done.
  - by apply shape_tables.
  - intros id. cbn [dirs objects del_entry set_entry with_tables].
    rewrite (dirs_dom_insert _ _ t) by done. auto.
  - intros p' n' c' k' [(-> & -> & [= <- <-])|[He _]]%entry_set; [done|by eauto|done].
  - intros p1 n1 k1 p2 n2 k2 c'.
    intros [(-> & -> & [= <- <-])|[H1 Hn1]]%entry_set; [| |done];
    intros [(-> & -> & E2)|[H2 Hn2]]%entry_set; try done.
    + by apply Hun in H2 as [-> ->].
    + simplify_eq. by apply Hun in H1 as [-> ->].
    + eauto.
Qed.

(** ** Removing and adding objects *)

Lemma drop_object_eq s id o :
  s.(objects) !! id = Some o →
  drop_object s id =
    {| objects := delete id s.(objects);
       dirs := if o.(kind) =? KIND_DIR then delete id s.(dirs) else s.(dirs);
       next_object := s.(next_object);
       bitmap := foldl word_free s.(bitmap) (blocks_of o.(extents));
       data_start := s.(data_start); total_blocks := s.(total_blocks) |}.
Proof.
  intros Ho. unfold drop_object. rewrite Ho, free_extents_bitmap. by destruct (kind o =? KIND_DIR).
Qed.

Lemma data_covered s o :
  state_ok s → object_ok s.(data_start) s.(total_blocks) o → Forall (covered s.(bitmap)) (blocks_of o.(extents)).
Proof.
  intros Hs Ho. apply extents_covered; [apply Hs|]. destruct Ho as [_ _ He _ _ _].
  eapply Forall_impl; [exact He|]. intros e (H1 & H2 & H3). pose proof (shape_data s (ok_shape s Hs)). lia.
Qed.

Lemma owned_range s id x : state_ok s → owns s id x → s.(data_start) ≤ x < s.(total_blocks) - 1.
Proof.
  intros Hs (o & Ho & Hx). apply elem_of_blocks in Hx as (e & He & Hx).
  destruct (ok_objects s Hs id o Ho) as [_ _ Hes _ _ _]. rewrite Forall_forall in Hes.
  destruct (Hes e He) as (H1 & H2 & H3). lia.
Qed.

Lemma owned_not_reserved s id x : state_ok s → owns s id x → ¬ reserved s x.
Proof. intros Hs Hx. apply owned_range in Hx; [|done]. unfold reserved. lia. Qed.

Lemma drop_object_ok s id o :
  state_ok s → s.(objects) !! id = Some o → id ≠ ROOT_OBJECT →
  (∀ p n k, ¬ entry s p n id k) → state_ok (drop_object s id).
Proof.
  intros Hs Ho Hid Hno. pose proof (ok_objects s Hs id o Ho) as Hobj.
  pose proof (data_covered s o Hs Hobj) as Hcov.
  rewrite (drop_object_eq s id o Ho). set (s' := Build_State _ _ _ _ _ _).
  assert (Hent : ∀ p n c k, entry s' p n c k → entry s p n c k ∧ c ≠ id).
  { intros p n c k (t & Ht & Hc). cbn [dirs s'] in Ht.
    assert (He : entry s p n c k).
    { exists t. split; [|done]. destruct (kind o =? KIND_DIR); [|done]. by apply lookup_delete_Some in Ht as [_ ?]. }
    split; [done|]. intros ->. by apply (Hno p n k). }
  assert (Hown : ∀ i x, owns s' i x ↔ owns s i x ∧ i ≠ id).
  { intros i x. unfold owns. cbn [objects s']. setoid_rewrite lookup_delete_Some. naive_solver. }
  pose proof Hs as [Hsh Hroom Hroot Hids Hnext Hobjs Hdirs Hents Huniq Hdisj Hbits]. split; try done.
  - destruct Hsh as [Hb Hw Hd Ht]. split; cbn [bitmap total_blocks data_start s']; try done.
    + by apply frees_ok.
    + unfold vlen. rewrite frees_length. exact Hw.
  - destruct Hroot as (r & Hr & Hk). exists r. cbn [objects s']. by rewrite lookup_delete_ne.
  - intros i [x Hx]. cbn [objects s'] in Hx. apply lookup_delete_Some in Hx as [_ Hx]. by apply Hids.
  - intros i x Hx. cbn [objects s'] in Hx. apply lookup_delete_Some in Hx as [_ Hx].
    by destruct (Hobjs i x Hx); split.
  - intros i. cbn [objects dirs s']. destruct (decide (i = id)) as [->|Hi].
    + rewrite lookup_delete_eq. split; [|by intros (? & ? & _)].
      destruct (Z.eqb_spec (kind o) KIND_DIR) as [Ek|Ek]; [by rewrite lookup_delete_eq; intros []|].
      intros (o' & Ho' & Hk)%Hdirs. naive_solver.
    + rewrite lookup_delete_ne by done. rewrite <- Hdirs.
      destruct (kind o =? KIND_DIR); [by rewrite lookup_delete_ne|done].
  - intros p n c k [He Hc]%Hent. destruct (Hents _ _ _ _ He) as (Hn & Hr & x & Hx & Hk).
    split_and!; [done..|]. exists x. cbn [objects s']. by rewrite lookup_delete_ne.
  - intros p1 n1 k1 p2 n2 k2 c [H1 _]%Hent [H2 _]%Hent. eauto.
  - intros i j x [H1 _]%Hown [H2 _]%Hown. eauto.
  - intros x Hx. cbn [bitmap s'] in Hx |- *. assert (Hx' : covered (bitmap s) x).
    { eapply covered_length; [|exact Hx]. by rewrite frees_length. }
    rewrite bit_frees by done. case_decide as Hin.
    + split; [done|]. intros [Hr|[i Hi]].
      * exfalso. apply (owned_not_reserved s id x Hs); [by exists o|exact Hr].
      * apply Hown in Hi as [Hi Hne]. destruct Hne. eapply Hdisj; [exact Hi|]. by exists o.
    + rewrite Hbits by done. change (reserved s' x) with (reserved s x).
      setoid_rewrite Hown. split; [|naive_solver]. intros [?|[i Hi]]; [by left|]. right. exists i.
      split; [done|]. intros ->. destruct Hi as (o' & Ho' & Hx''). by simplify_eq.
Qed.

Definition add_object (s : State) (k : Z) : State :=
  let id := s.(next_object) in
  bump_next (with_tables s (<[id := {| kind := k; size := 0; extents := [] |}]> s.(objects))
               (if k =? KIND_DIR then <[id := ∅]> s.(dirs) else s.(dirs))) id.

Lemma add_object_eq s k :
  add_object s k =
    {| objects := <[s.(next_object) := {| kind := k; size := 0; extents := [] |}]> s.(objects);
       dirs := if k =? KIND_DIR then <[s.(next_object) := ∅]> s.(dirs) else s.(dirs);
       next_object := s.(next_object) + 1; bitmap := s.(bitmap);
       data_start := s.(data_start); total_blocks := s.(total_blocks) |}.
Proof.
  unfold add_object, bump_next. cbn [next_object with_tables].
  by rewrite (proj2 (Z.leb_le (next_object s) (next_object s))).
Qed.

Lemma next_fresh s : state_ok s → s.(objects) !! s.(next_object) = None.
Proof.
  intros Hs. destruct (objects s !! next_object s) eqn:E; [|done].
  assert (is_Some (objects s !! next_object s)) as H%(ok_ids s Hs) by done. lia.
Qed.

Lemma next_fresh_dir s : state_ok s → s.(dirs) !! s.(next_object) = None.
Proof.
  intros Hs. destruct (dirs s !! next_object s) eqn:E; [|done].
  assert (is_Some (dirs s !! next_object s)) as (o & Ho & _)%(ok_dirs s Hs) by done.
  by rewrite next_fresh in Ho.
Qed.

Lemma add_object_ok s k :
  state_ok s → k = KIND_FILE ∨ k = KIND_DIR → s.(next_object) + 1 < 2 ^ 64 →
  state_ok (add_object s k).
Proof.
  intros Hs Hk Hroom. pose proof (next_fresh s Hs) as Hfo. pose proof (next_fresh_dir s Hs) as Hfd.
  rewrite add_object_eq. set (s' := Build_State _ _ _ _ _ _).
  assert (Hent : ∀ p n c k', entry s' p n c k' ↔ entry s p n c k').
  { intros p n c k'. unfold entry. cbn [dirs s']. destruct (k =? KIND_DIR); [|done].
    destruct (decide (p = next_object s)) as [->|?]; [|by rewrite lookup_insert_ne].
    rewrite lookup_insert_eq, Hfd. split; [|by intros (? & ? & _)].
    intros (t & [= <-] & Hn). by rewrite lookup_empty in Hn. }
  assert (Hown : ∀ i x, owns s' i x ↔ owns s i x).
  { intros i x. unfold owns. cbn [objects s'].
    destruct (decide (i = next_object s)) as [->|?]; [|by rewrite lookup_insert_ne].
    rewrite lookup_insert_eq, Hfo. split; [|by intros (? & ? & _)].
    intros (o & [= <-] & Hx). by apply elem_of_nil in Hx. }
  pose proof Hs as [Hsh Hr Hroot Hids Hnext Hobjs Hdirs Hents Huniq Hdisj Hbits].
  assert (Hrid : ROOT_OBJECT < next_object s).
  { destruct Hroot as (r & Hr' & _). assert (is_Some (objects s !! ROOT_OBJECT)) as Hx%Hids by done. lia. }
  split; try done.
  - by destruct Hsh; split.
  - destruct Hroot as (r & Hr' & Hkr). exists r. cbn [objects s']. rewrite lookup_insert_ne by lia. done.
  - intros i Hi. cbn [objects next_object s'] in *. destruct (decide (i = next_object s)) as [->|Hne]; [lia|].
    rewrite lookup_insert_ne in Hi by done. apply Hids in Hi. lia.
  - unfold in_width in *. cbn [next_object s']. lia.
  - intros i o Ho. cbn [objects s'] in Ho. apply lookup_insert_Some in Ho as [[<- <-]|[_ Ho]]; [|by eapply Hobjs].
    split; cbn [kind size extents]; try done. apply NoDup_nil_2.
  - intros i. cbn [objects dirs s']. destruct (decide (i = next_object s)) as [->|Hne].
    + rewrite lookup_insert_eq. destruct (Z.eqb_spec k KIND_DIR) as [->|Hkd].
      * rewrite lookup_insert_eq. naive_solver.
      * rewrite Hfd. split; [by intros []|]. intros (o & [= <-] & Hko). done.
    + rewrite lookup_insert_ne by done. rewrite <- Hdirs.
      destruct (k =? KIND_DIR); [by rewrite lookup_insert_ne|done].
  - intros p n c k' He%Hent. destruct (Hents _ _ _ _ He) as (Hn & Hc & x & Hx & Hkx).
    split_and!; [done..|]. exists x. cbn [objects s']. rewrite lookup_insert_ne; [done|].
    intros <-. by rewrite Hfo in Hx.
  - intros p1 n1 k1 p2 n2 k2 c H1%Hent H2%Hent. eauto.
  - intros i j x H1%Hown H2%Hown. eauto.
  - intros x Hx. setoid_rewrite Hown. by apply Hbits.
Qed.

(** ** Replacing the contents of a file *)

(** New extents are in the data region and belong to no object. *)
Record extents_fresh (s : State) (es : list Extent) : Prop := {
  fresh_data : Forall (extent_data s.(data_start) s.(total_blocks)) es;
  fresh_count : vlen es ≤ MAX_EXTENTS_PER_WRITE;
  fresh_nodup : NoDup (blocks_of es);
  fresh_free : ∀ x id, x ∈ blocks_of es → ¬ owns s id x
}.

Definition set_contents (s : State) (id : Z) (o : Object) (sz : Z) (es : list Extent) : State :=
  {| objects := <[id := {| kind := o.(kind); size := sz; extents := es |}]> s.(objects);
     dirs := s.(dirs); next_object := s.(next_object);
     bitmap := foldl word_mark (foldl word_free s.(bitmap) (blocks_of o.(extents))) (blocks_of es);
     data_start := s.(data_start); total_blocks := s.(total_blocks) |}.

Lemma extents_data_in s es :
  state_ok s → Forall (extent_data s.(data_start) s.(total_blocks)) es → extents_in s es.
Proof.
  intros Hs He. eapply Forall_impl; [exact He|]. intros e (H1 & H2 & H3).
  pose proof (shape_data s (ok_shape s Hs)). lia.
Qed.

Lemma extents_validate s es :
  state_ok s → Forall (extent_data s.(data_start) s.(total_blocks)) es → validate_extents s es = Ok tt.
Proof.
  intros Hs He. unfold validate_extents. replace (forallb _ es) with true; [done|]. symmetry.
  apply forallb_forall. intros e Hin%list_elem_of_In. rewrite Forall_forall in He.
  destruct (He e Hin) as (H1 & H2 & H3). unfold extent_in, saturating_add. apply Z.leb_le.
  unfold max_of. pose proof (shape_data s (ok_shape s Hs)). pose proof (shape_width s (ok_shape s Hs)). lia.
Qed.

Lemma apply_write s id o sz es :
  state_ok s → s.(objects) !! id = Some o → o.(kind) = KIND_FILE →
  Forall (extent_data s.(data_start) s.(total_blocks)) es →
  apply s (Write id sz es) = (set_contents s id o sz es, Ok tt).
Proof.
  intros Hs Ho Hk He. cbn [apply]. rewrite extents_validate, Ho, Hk by done. cbn [Z.eqb negb KIND_FILE].
  rewrite mark_extents_bitmap, free_extents_bitmap. unfold set_contents. by rewrite Hk.
Qed.

Lemma set_contents_ok s id o sz es :
  state_ok s → s.(objects) !! id = Some o → o.(kind) = KIND_FILE → in_width 64 sz →
  extents_fresh s es → state_ok (set_contents s id o sz es).
Proof.
  intros Hs Ho Hk Hsz [Hed Hec Hen Hef]. pose proof (ok_objects s Hs id o Ho) as Hobj.
  pose proof (data_covered s o Hs Hobj) as Hcov.
  pose proof (extents_covered s es (ok_shape s Hs) (extents_data_in s es Hs Hed)) as Hcov2.
  set (s' := set_contents s id o sz es).
  assert (Hown : ∀ i x, owns s' i x ↔ (i = id ∧ x ∈ blocks_of es) ∨ (i ≠ id ∧ owns s i x)).
  { intros i x. unfold owns. cbn [objects s' set_contents]. setoid_rewrite lookup_insert_Some.
    split; [|naive_solver]. intros (o' & [[<- <-]|[Hne Ho']] & Hx); naive_solver. }
  pose proof Hs as [Hsh Hr Hroot Hids Hnext Hobjs Hdirs Hents Huniq Hdisj Hbits]. split; try done.
  - destruct Hsh as [Hb Hw Hd Ht]. split; try done.
    + cbn [bitmap s' set_contents]. by apply marks_ok, frees_ok.
    + cbn [bitmap s' set_contents]. unfold vlen. rewrite marks_length, frees_length. exact Hw.
  - destruct Hroot as (r & Hr' & Hkr). exists r. cbn [objects s' set_contents].
    rewrite lookup_insert_ne; [done|]. intros ->. simplify_eq. by rewrite Hk in Hkr.
  - intros i [x Hx]. cbn [objects s' set_contents] in Hx.
    apply lookup_insert_Some in Hx as [[<- <-]|[_ Hx]]; by apply Hids.
  - intros i x Hx. cbn [objects s' set_contents] in Hx.
    apply lookup_insert_Some in Hx as [[<- <-]|[_ Hx]]; [|by eapply Hobjs].
    split; cbn [kind size extents]; auto. rewrite Hk. done.
  - intros i. cbn [objects dirs s' set_contents]. rewrite Hdirs.
    destruct (decide (i = id)) as [->|Hne]; [|by rewrite lookup_insert_ne].
    rewrite lookup_insert_eq, Ho. naive_solver.
  - intros p n c k He. destruct (Hents p n c k He) as (Hn & Hc & x & Hx & Hkx).
    split_and!; [done..|]. cbn [objects s' set_contents].
    destruct (decide (c = id)) as [->|Hne]; [|rewrite lookup_insert_ne by done; by exists x].
    eexists. rewrite lookup_insert_eq. split; [done|]. simplify_eq. done.
  - intros i j x [[-> H1]|[Hi H1]]%Hown [[-> H2]|[Hj H2]]%Hown; eauto.
    + by apply Hef in H2.
    + by apply Hef in H1.
  - intros x Hx. cbn [bitmap s' set_contents] in Hx |- *. assert (Hx' : covered (bitmap s) x).
    { eapply covered_length; [|exact Hx]. by rewrite marks_length, frees_length. }
    rewrite bit_marks; cycle 1.
    { eapply Forall_impl; [exact Hcov2|]. intros y. apply covered_length. by rewrite frees_length. }
    { eapply covered_length; [|exact Hx']. by rewrite frees_length. }
    rewrite bit_frees by done. change (reserved s' x) with (reserved s x). setoid_rewrite Hown.
    case_decide as Hnew; [split; [|done]; intros _; right; exists id; by left|].
    case_decide as Hold.
    + split; [done|]. intros [Hres|[i [[_ Hi]|[Hne Hi]]]]; [|done|].
      * exfalso. apply (owned_not_reserved s id x Hs); [by exists o|done].
      * destruct Hne. eapply Hdisj; [exact Hi|]. by exists o.
    + rewrite Hbits by done. split; [|naive_solver]. intros [?|[i Hi]]; [by left|]. right. exists i. right.
      split; [|done]. intros ->. destruct Hi as (o' & Ho' & Hx''). by simplify_eq.
Qed.

(** ** Operations *)

Definition empty_if_dir (s : State) (id : Z) : Prop := ∀ t, s.(dirs) !! id = Some t → t = ∅.

(** The operations the engine submits, on the state it submits them in. *)
Definition op_valid (s : State) (o : Op) : Prop :=
  match o with
  | MkNode p id k n =>
      id = s.(next_object) ∧ is_Some (s.(dirs) !! p) ∧ (∀ c k', ¬ entry s p n c k') ∧ name_ok n ∧
      (k = KIND_FILE ∨ k = KIND_DIR) ∧ s.(next_object) + 1 < 2 ^ 64
  | Write id sz es =>
      in_width 64 sz ∧ (∃ obj, s.(objects) !! id = Some obj ∧ obj.(kind) = KIND_FILE) ∧
      extents_fresh s es
  | Remove p id n => ∃ k, entry s p n id k ∧ empty_if_dir s id
  | Rename fp fn tp tn r =>
      ∃ c k, entry s fp fn c k ∧ is_Some (s.(dirs) !! tp) ∧ name_ok tn ∧
        (r = 0 ∧ (∀ c' k', ¬ entry s tp tn c' k') ∨
         (∃ k', entry s tp tn r k') ∧ r ≠ c ∧ empty_if_dir s r)
  end.

Lemma entry_dir s p n c k : entry s p n c k → ∃ t, s.(dirs) !! p = Some t ∧ t !! n = Some (c, k).
Proof. done. Qed.

Lemma apply_mknode_ok s p k n :
  state_ok s → op_valid s (MkNode p s.(next_object) k n) →
  ∃ s', apply s (MkNode p s.(next_object) k n) = (s', Ok tt) ∧ state_ok s'.
Proof.
  intros Hs (_ & [t Ht] & Hno & Hn & Hk & Hroom). pose proof (next_fresh_dir s Hs) as Hfd.
  assert (Hpn : next_object s ≠ p) by (intros <-; by rewrite Hfd in Ht).
  set (s1 := add_object s k).
  assert (Hs1 : state_ok s1) by (by apply add_object_ok).
  assert (Ht1 : dirs s1 !! p = Some t).
  { unfold s1. rewrite add_object_eq. cbn [dirs]. destruct (k =? KIND_DIR); [by rewrite lookup_insert_ne|done]. }
  exists (set_entry s1 p t n (next_object s, k)). split.
  - cbn [apply]. rewrite Ht. f_equal. unfold s1, set_entry. rewrite add_object_eq.
    unfold bump_next. cbn [next_object with_tables].
    rewrite (proj2 (Z.leb_le (next_object s) (next_object s))) by lia.
    unfold with_tables. cbn [objects dirs next_object bitmap data_start total_blocks]. f_equal.
    destruct (k =? KIND_DIR); [by rewrite insert_insert_ne|done].
  - apply set_entry_ok; try done.
    + destruct (ok_root s Hs) as (r & Hr & _). intros E. rewrite <- E in Hr. by rewrite next_fresh in Hr.
    + eexists. unfold s1. rewrite add_object_eq. cbn [objects]. by rewrite lookup_insert_eq.
    + intros p' n' k' He. exfalso. assert (Hent : entry s p' n' (next_object s) k').
      { destruct He as (t' & Ht' & Hn'). unfold s1 in Ht'. rewrite add_object_eq in Ht'. cbn [dirs] in Ht'.
        exists t'. split; [|done]. destruct (k =? KIND_DIR); [|done].
        apply lookup_insert_Some in Ht' as [[<- <-]|[_ ?]]; [by rewrite lookup_empty in Hn'|done]. }
      apply (ok_entries s Hs) in Hent as (_ & _ & o & Ho & _). by rewrite next_fresh in Ho.
Qed.

(** The directory an entry is in is not the emptied object. *)
Lemma entry_parent_ne s p n c k id : entry s p n c k → empty_if_dir s id → p ≠ id.
Proof. intros (t & Ht & Hn) He ->. apply He in Ht as ->. by rewrite lookup_empty in Hn. Qed.

Lemma apply_remove_ok s p id n :
  state_ok s → op_valid s (Remove p id n) →
  ∃ s', apply s (Remove p id n) = (s', Ok tt) ∧ state_ok s'.
Proof.
  intros Hs (k & He & Hempty). destruct (entry_dir _ _ _ _ _ He) as (t & Ht & Hn).
  destruct (ok_entries s Hs _ _ _ _ He) as (_ & Hroot & o & Ho & Hk).
  exists (drop_object (del_entry s p t n) id). split; [cbn [apply]; by rewrite Ht|].
  apply (drop_object_ok _ _ o); [by apply del_entry_ok|done..|].
  intros p' n' k' [He' Hne]%entry_del; [|done]. exact (Hne (ok_unique s Hs _ _ _ _ _ _ _ He' He)).
Qed.

Lemma apply_rename_ok s fp fn tp tn r :
  state_ok s → op_valid s (Rename fp fn tp tn r) →
  ∃ s', apply s (Rename fp fn tp tn r) = (s', Ok tt) ∧ state_ok s'.
Proof.
  intros Hs (c & k & He & Htp & Htn & Hr). destruct (entry_dir _ _ _ _ _ He) as (from & Hfp & Hfn).
  destruct (ok_entries s Hs _ _ _ _ He) as (_ & Hc & o & Ho & Hk).
  set (s1 := del_entry s fp from fn). assert (Hs1 : state_ok s1) by (by apply del_entry_ok).
  assert (Hno : ∀ p' n' k', ¬ entry s1 p' n' c k').
  { intros p' n' k' [He' Hne]%entry_del; [|done]. exact (Hne (ok_unique s Hs _ _ _ _ _ _ _ He' He)). }
  assert (Hto : ∃ to, dirs s1 !! tp = Some to).
  { apply (dirs_dom_insert (dirs s) fp from (delete fn from)); [done|exact Htp]. }
  destruct Hto as [to Hto]. cbn [apply]. rewrite Hfp, Hfn.
  change (with_tables s (objects s) (<[fp:=delete fn from]> (dirs s))) with s1.
  destruct Hr as [[-> Hfree]|((k' & He') & Hrc & Hempty)].
  - cbn [Z.eqb negb]. exists (set_entry s1 tp to tn (c, k)). split; [by rewrite Hto|].
    apply set_entry_ok; try done; [by exists o|]. intros p' n' k' H'. by apply Hno in H'.
  - destruct (ok_entries s Hs _ _ _ _ He') as (_ & Hrr & ro & Hro & Hrk).
    assert (Hr0 : r ≠ 0).
    { assert (is_Some (objects s !! r)) as Hx%(ok_ids s Hs) by done. unfold ROOT_OBJECT in Hx. lia. }
    rewrite (proj2 (Z.eqb_neq r 0) Hr0). cbn [negb].
    assert (Htr : tp ≠ r) by (eapply entry_parent_ne; done).
    set (s2 := del_entry s1 tp to tn). assert (Hs2 : state_ok s2) by (by apply del_entry_ok).
    assert (Hs3 : state_ok (drop_object s2 r)).
    { apply (drop_object_ok _ _ ro); try done. intros p' n' k'' [H1 Hne]%entry_del; [|done].
      apply entry_del in H1 as [H1 _]; [|done]. exact (Hne (ok_unique s Hs _ _ _ _ _ _ _ H1 He')). }
    assert (Ht3 : dirs (drop_object s2 r) !! tp = Some (delete tn to)).
    { rewrite (drop_object_eq s2 r ro) by done. cbn [dirs].
      destruct (kind ro =? KIND_DIR); [rewrite lookup_delete_ne by done|];
        unfold s2, del_entry; cbn [dirs with_tables]; by rewrite lookup_insert_eq. }
    exists (set_entry (drop_object s2 r) tp (delete tn to) tn (c, k)). split.
    + rewrite (drop_object_eq s1 r ro), (drop_object_eq s2 r ro) by done. cbn [dirs].
      assert (Hd : (if kind ro =? KIND_DIR then delete r (dirs s1) else dirs s1) !! tp = Some to).
      { destruct (kind ro =? KIND_DIR); [by rewrite lookup_delete_ne|done]. }
      rewrite Hd. f_equal. unfold set_entry, with_tables, s2, del_entry.
      cbn [objects dirs next_object bitmap data_start total_blocks with_tables].
      f_equal. rewrite insert_delete_eq. destruct (kind ro =? KIND_DIR).
      * rewrite delete_insert_ne by done. by rewrite insert_insert_eq.
      * by rewrite insert_insert_eq.
    + apply set_entry_ok; try done.
      * exists o. rewrite (drop_object_eq s2 r ro) by done. cbn [objects].
        rewrite lookup_delete_ne by done. done.
      * intros p' n' k'' (t & Ht & Hn). exfalso.
        rewrite (drop_object_eq s2 r ro) in Ht by done. cbn [dirs] in Ht.
        assert (Ht2 : dirs s2 !! p' = Some t).
        { destruct (kind ro =? KIND_DIR); [by apply lookup_delete_Some in Ht as [_ ?]|done]. }
        assert (H2 : entry s2 p' n' c k'') by (by exists t).
        apply entry_del in H2 as [H2 _]; [|done]. by apply Hno in H2.
Qed.

(** Every operation the engine submits succeeds and keeps the invariant. *)
Lemma apply_ok s o : state_ok s → op_valid s o → ∃ s', apply s o = (s', Ok tt) ∧ state_ok s'.
Proof.
  intros Hs Ho. destruct o as [p id k n|id sz es|p id n|fp fn tp tn r].
  - assert (id = next_object s) as -> by apply Ho. by apply apply_mknode_ok.
  - destruct Ho as (Hsz & (obj & Hobj & Hk) & Hf). eexists. split.
    + apply apply_write; try done. apply Hf.
    + by apply set_contents_ok.
  - by apply apply_remove_ok.
  - by apply apply_rename_ok.
Qed.

(** The engine marks the blocks of a write when it allocates them, a replay
    only when it applies the operation: the states agree afterwards. *)
Lemma apply_write_marked s id o sz es :
  state_ok s → s.(objects) !! id = Some o → o.(kind) = KIND_FILE →
  Forall (extent_data s.(data_start) s.(total_blocks)) es →
  apply (mark_extents s es) (Write id sz es) = apply s (Write id sz es).
Proof.
  intros Hs Ho Hk He. rewrite (apply_write s id o) by done. cbn [apply].
  rewrite mark_extents_bitmap. unfold validate_extents. cbn [total_blocks with_bitmap].
  fold (validate_extents s es). rewrite extents_validate by done.
  cbn [objects with_bitmap]. rewrite Ho, Hk. cbn [Z.eqb negb KIND_FILE].
  rewrite mark_extents_bitmap, free_extents_bitmap. unfold set_contents, with_bitmap.
  cbn [objects dirs next_object bitmap data_start total_blocks with_bitmap with_tables].
  pose proof (ok_shape s Hs) as Hsh. pose proof (shape_bits s Hsh) as Hb.
  pose proof (data_covered s o Hs (ok_objects s Hs id o Ho)) as Hcov.
  pose proof (extents_covered s es Hsh (extents_data_in s es Hs He)) as Hcov2.
  rewrite Hk. f_equal. f_equal. set (B := bitmap s) in *. set (N := blocks_of es) in *. set (O := blocks_of (extents o)) in *.
  assert (Hcl : ∀ b, length b = length B → Forall (covered b) N ∧ Forall (covered b) O).
  { intros b Hl. split; (eapply Forall_impl; [eassumption|]); intros y; by apply covered_length. }
  assert (Hl : ∀ l, length (foldl word_mark B l) = length B) by (intros; apply marks_length).
  assert (Hlf : ∀ b l, length (foldl word_free b l) = length b) by (intros; apply frees_length).
  apply bitmap_ext.
  - by apply marks_ok, frees_ok, marks_ok.
  - by apply marks_ok, frees_ok.
  - by rewrite !marks_length, !frees_length, marks_length.
  - intros x Hx. assert (Hx' : covered B x).
    { eapply covered_length; [|exact Hx]. by rewrite marks_length, frees_length, marks_length. }
    assert (Hcx : ∀ b, length b = length B → covered b x) by (intros b Hb'; by eapply covered_length).
    rewrite !bit_marks by (first [apply Hcl|apply Hcx]; by rewrite ?Hlf, ?Hl).
    case_decide; [done|]. rewrite !bit_frees by (first [apply Hcl|apply Hcx]; by rewrite ?Hlf, ?Hl).
    case_decide; [done|]. rewrite bit_marks by done. by rewrite decide_False.
Qed.

(** ** The empty state *)

Lemma bit_replicate n x : covered (replicate n 0) x → bit (replicate n 0) x = false.
Proof.
  intros Hx. unfold bit. destruct (covered_word _ _ Hx) as [w Hw]. rewrite Hw.
  apply lookup_replicate in Hw as [-> _]. apply Z.testbit_0_l.
Qed.

Lemma new_empty_eq total ds :
  new_empty total ds =
    {| objects := {[ROOT_OBJECT := {| kind := KIND_DIR; size := 0; extents := [] |}]};
       dirs := {[ROOT_OBJECT := ∅]}; next_object := ROOT_OBJECT + 1;
       bitmap := foldl word_mark (replicate (Z.to_nat (div_ceil total 64)) 0)
                   (seqZ 0 ds ++ [total - 1]);
       data_start := ds; total_blocks := total |}.
Proof. unfold new_empty. rewrite mark_used_all, foldl_app. done. Qed.

Lemma new_empty_shape total ds :
  0 ≤ ds < total → total < 2 ^ 64 → shape_ok (new_empty total ds).
Proof.
  intros Hd Ht. rewrite new_empty_eq. split; cbn [bitmap total_blocks data_start]; try lia.
  - apply marks_ok. apply Forall_replicate. unfold in_width. lia.
  - unfold vlen. rewrite marks_length, length_replicate. unfold div_ceil.
    rewrite Z2Nat.id; [done|]. apply Z.div_pos; lia.
Qed.

Lemma new_empty_ok total ds :
  0 ≤ ds < total → total < 2 ^ 64 → state_ok (new_empty total ds).
Proof.
  intros Hd Ht. pose proof (new_empty_shape total ds Hd Ht) as Hsh.
  assert (Hob : objects (new_empty total ds) = {[ROOT_OBJECT := {| kind := KIND_DIR; size := 0; extents := [] |}]})
    by (by rewrite new_empty_eq).
  assert (Hdi : dirs (new_empty total ds) = {[ROOT_OBJECT := ∅]}) by (by rewrite new_empty_eq).
  assert (Hnx : next_object (new_empty total ds) = ROOT_OBJECT + 1) by (by rewrite new_empty_eq).
  assert (Hds : data_start (new_empty total ds) = ds) by (by rewrite new_empty_eq).
  assert (Htt : total_blocks (new_empty total ds) = total) by (by rewrite new_empty_eq).
  assert (Hno : ∀ id x, ¬ owns (new_empty total ds) id x).
  { intros id x (o & Ho & Hx). rewrite Hob in Ho. apply lookup_singleton_Some in Ho as [_ <-].
    by apply elem_of_nil in Hx. }
  assert (Hne : ∀ p n c k, ¬ entry (new_empty total ds) p n c k).
  { intros p n c k (t & Ht' & Hn). rewrite Hdi in Ht'. apply lookup_singleton_Some in Ht' as [_ <-].
    by rewrite lookup_empty in Hn. }
  split.
  - done.
  - rewrite Hds, Htt. lia.
  - rewrite Hob. eexists. by rewrite lookup_singleton_eq.
  - intros id [o Ho]. rewrite Hob in Ho. apply lookup_singleton_Some in Ho as [<- _]. rewrite Hnx. lia.
  - rewrite Hnx. unfold in_width, ROOT_OBJECT. lia.
  - intros id o Ho. rewrite Hob in Ho. apply lookup_singleton_Some in Ho as [_ <-].
    split; cbn [kind size extents]; try done; [by right|apply NoDup_nil_2].
  - intros id. rewrite Hob, Hdi. destruct (decide (id = ROOT_OBJECT)) as [->|Hid].
    + rewrite !lookup_singleton_eq. naive_solver.
    + rewrite !lookup_singleton_ne by done. split; [by intros []|by intros (? & ? & _)].
  - intros p n c k He. by apply Hne in He.
  - intros p n k p' n' k' c He. by apply Hne in He.
  - intros id id' x Hx. by apply Hno in Hx.
  - intros x Hx. unfold reserved. rewrite Hds, Htt.
    assert (Hcov : Forall (covered (replicate (Z.to_nat (div_ceil total 64)) 0)) (seqZ 0 ds ++ [total - 1])).
    { apply Forall_forall. intros y Hy. eapply covered_length; cycle 1.
      - apply (covered_block (new_empty total ds) y Hsh). rewrite Htt.
        apply elem_of_app in Hy as [Hy%elem_of_seqZ|Hy%list_elem_of_singleton]; lia.
      - rewrite new_empty_eq. cbn [bitmap]. by rewrite marks_length. }
    rewrite new_empty_eq in Hx |- *. cbn [bitmap] in *.
    assert (Hx' : covered (replicate (Z.to_nat (div_ceil total 64)) 0) x).
    { eapply covered_length; [|exact Hx]. by rewrite marks_length. }
    rewrite bit_marks by done. rewrite bit_replicate by done.
    destruct Hx' as [Hx0 _]. case_decide as Hin.
    + split; [|done]. intros _. left. apply elem_of_app in Hin as [Hy%elem_of_seqZ|Hy%list_elem_of_singleton]; lia.
    + split; [done|]. intros [Hr|[id Hid]]; [|by apply Hno in Hid]. destruct Hin.
      apply elem_of_app. rewrite elem_of_seqZ, list_elem_of_singleton. lia.
Qed.
