(* ===== verification/NxfsCheckpoint.v ===== *)
(** Checkpoints of nxfs ([userspace/nxfs/src/checkpoint.rs]): the object and
    directory tables as one byte string and back, with the round trip. *)

From S2P Require Import Prelude Bytes Storage NxfsFormat NxfsJournal NxfsJournalProps NxfsState NxfsStateProps NxfsTree.

(** ** Encoding *)

Definition encode_object (m : gmap Z Object) (id : Z) : bytes :=
  match m !! id with
  | None => []
  | Some o =>
      le_bytes 8 id ++ [o.(kind)] ++ le_bytes 8 o.(size) ++ le_bytes 4 (vlen o.(extents))
      ++ concat (map encode_extent o.(extents))
  end.

Definition encode_dirent (t : DirTable) (name : bytes) : bytes :=
  match t !! name with
  | None => []
  | Some (child, k) => push_name name ++ le_bytes 8 child ++ [k]
  end.

Definition encode_dir (m : gmap Z DirTable) (id : Z) : bytes :=
  match m !! id with
  | None => []
  | Some t =>
      le_bytes 8 id ++ le_bytes 4 (vlen (str_keys t)) ++ concat (map (encode_dirent t) (str_keys t))
  end.

(** The tables are walked in key order, as [BTreeMap] iterates. *)
Definition encode (s : State) (next_txn : Z) : bytes :=
  le_bytes 8 s.(next_object) ++ le_bytes 8 next_txn
  ++ le_bytes 4 (vlen (sorted_keys s.(objects)))
  ++ concat (map (encode_object s.(objects)) (sorted_keys s.(objects)))
  ++ le_bytes 4 (vlen (sorted_keys s.(dirs)))
  ++ concat (map (encode_dir s.(dirs)) (sorted_keys s.(dirs))).

(** ** Decoding *)

(** [?] on a cursor of this file: running out of bytes is [Integrity]. *)
Definition cursor {A} (o : option (A * bytes)) : result (A * bytes) NxfsError := ok_or o Integrity.

Fixpoint decode_extents (total : Z) (n : nat) (l : bytes)
    : result (list Extent * bytes) NxfsError :=
  match n with
  | O => Ok ([], l)
  | S n' =>
      let? p1 := cursor (take_u64 l) in
      let? p2 := cursor (take_u32 p1.2) in
      let e := {| lb := p1.1; blocks := p2.1 |} in
      if negb (extent_in total e) then Err Integrity
      else
        let? p3 := decode_extents total n' p2.2 in
        Ok (e :: p3.1, p3.2)
  end.

Definition decode_object (total : Z) (l : bytes) : result ((Z * Object) * bytes) NxfsError :=
  let? id := cursor (take_u64 l) in
  let? k := cursor (take_u8 id.2) in
  let? sz := cursor (take_u64 k.2) in
  let? cnt := cursor (take_u32 sz.2) in
  let? es := decode_extents total (Z.to_nat cnt.1) cnt.2 in
  Ok ((id.1, {| kind := k.1; size := sz.1; extents := es.1 |}), es.2).

Definition decode_dirent (l : bytes) : result ((bytes * (Z * Z)) * bytes) NxfsError :=
  let? len := cursor (take_u8 l) in
  if (len.1 =? 0) || (MAX_NAME_LEN <? len.1) then Err Integrity
  else
    let? b := cursor (take_bytes (Z.to_nat len.1) len.2) in
    let? name := ok_or (from_utf8 b.1) Integrity in
    let? child := cursor (take_u64 b.2) in
    let? k := cursor (take_u8 child.2) in
    Ok ((name, (child.1, k.1)), k.2).

(** [for _ in 0..n { ... map.insert(key, value) }]. *)
Fixpoint decode_map {K V} `{Countable K} (item : bytes → result ((K * V) * bytes) NxfsError)
    (n : nat) (m : gmap K V) (l : bytes) : result (gmap K V * bytes) NxfsError :=
  match n with
  | O => Ok (m, l)
  | S n' =>
      let? p := item l in
      decode_map item n' (<[p.1.1 := p.1.2]> m) p.2
  end.

Definition decode_dir (l : bytes) : result ((Z * DirTable) * bytes) NxfsError :=
  let? id := cursor (take_u64 l) in
  let? cnt := cursor (take_u32 id.2) in
  let? t := decode_map decode_dirent (Z.to_nat cnt.1) ∅ cnt.2 in
  Ok ((id.1, t.1), t.2).

(** Every table belongs to a directory object, every entry names an object. *)
Definition cross_check (os : gmap Z Object) (ds : gmap Z DirTable) : bool :=
  forallb (fun id =>
    match os !! id, ds !! id with
    | Some o, Some t =>
        (o.(kind) =? KIND_DIR) &&
        forallb (fun n => match t !! n with
                          | Some (c, _) => bool_decide (is_Some (os !! c))
                          | None => true
                          end) (str_keys t)
    | _, _ => false
    end) (sorted_keys ds).

Definition decode (blob : bytes) (total ds : Z) : result (State * Z) NxfsError :=
  let? nobj := cursor (take_u64 blob) in
  let? ntxn := cursor (take_u64 nobj.2) in
  let? oc := cursor (take_u32 ntxn.2) in
  let? os := decode_map (decode_object total) (Z.to_nat oc.1) ∅ oc.2 in
  let? dc := cursor (take_u32 os.2) in
  let? dt := decode_map decode_dir (Z.to_nat dc.1) ∅ dc.2 in
  match dt.2 with
  | _ :: _ => Err Integrity
  | [] =>
      if negb (cross_check os.1 dt.1) then Err Integrity
      else
        let s := new_empty total ds in
        let s := {| objects := os.1; dirs := dt.1; next_object := nobj.1; bitmap := s.(bitmap);
                    data_start := s.(data_start); total_blocks := s.(total_blocks) |} in
        let all := concat (map (fun id => match os.1 !! id with Some o => o.(extents) | None => [] end)
                             (sorted_keys os.1)) in
        Ok (mark_extents s all, ntxn.1)
  end.

(** ** The round trip *)

Lemma vlen_concat_ge {A} (enc : A → bytes) ks :
  (∀ k, k ∈ ks → 1 ≤ vlen (enc k)) → vlen ks ≤ vlen (concat (map enc ks)).
Proof.
  induction ks as [|k ks IH]; intros He; cbn [map concat]; [done|].
  rewrite vlen_app. pose proof (He k ltac:(by left)).
  assert (vlen ks ≤ vlen (concat (map enc ks))) by (apply IH; intros; apply He; by right).
  unfold vlen in *. cbn [length]. lia.
Qed.

Lemma vlen_concat_elem {A} (enc : A → bytes) ks k :
  k ∈ ks → vlen (enc k) ≤ vlen (concat (map enc ks)).
Proof.
  induction ks as [|x ks IH]; [by intros ?%elem_of_nil|].
  cbn [map concat]. rewrite vlen_app. pose proof (vlen_nonneg (enc x)).
  pose proof (vlen_nonneg (concat (map enc ks))). intros [->|Hk]%elem_of_cons; [lia|].
  specialize (IH Hk). lia.
Qed.

(** Reading back the items of a table, written for the keys [ks]. *)
Lemma decode_map_keys {K V} `{Countable K} (item : bytes → result ((K * V) * bytes) NxfsError)
    (enc : K → bytes) (m : gmap K V) ks acc rest :
  (∀ k, k ∈ ks → ∃ v, m !! k = Some v ∧ ∀ rest, item (enc k ++ rest) = Ok ((k, v), rest)) →
  ∃ m', decode_map item (length ks) acc (concat (map enc ks) ++ rest) = Ok (m', rest) ∧
    ∀ k, m' !! k = if decide (k ∈ ks) then m !! k else acc !! k.
Proof.
  revert acc. induction ks as [|k ks IH]; intros acc Hks; cbn [length decode_map map concat].
  - exists acc. split; [done|]. intros k. by rewrite decide_False by (by intros ?%elem_of_nil).
  - destruct (Hks k ltac:(by left)) as (v & Hv & Hi). rewrite <- app_assoc, Hi. cbn [result_bind fst snd].
    destruct (IH (<[k := v]> acc)) as (m' & Hm & Hl); [intros; apply Hks; by right|].
    exists m'. split; [done|]. intros k'. rewrite Hl. destruct (decide (k' = k)) as [->|Hne].
    + rewrite (decide_True (P := k ∈ k :: ks)) by (by left). rewrite lookup_insert_eq, Hv.
      by case_decide.
    + rewrite lookup_insert_ne by done. repeat case_decide; set_solver.
Qed.

(** The same with every key of the table. *)
Lemma decode_map_all {K V} `{Countable K} (item : bytes → result ((K * V) * bytes) NxfsError)
    (enc : K → bytes) (m : gmap K V) ks rest :
  (∀ k, k ∈ ks ↔ is_Some (m !! k)) →
  (∀ k v, m !! k = Some v → ∀ rest, item (enc k ++ rest) = Ok ((k, v), rest)) →
  decode_map item (length ks) ∅ (concat (map enc ks) ++ rest) = Ok (m, rest).
Proof.
  intros Hks Hi. destruct (decode_map_keys item enc m ks ∅ rest) as (m' & Hm & Hl).
  { intros k [v Hv]%Hks. exists v. split; [done|]. by apply Hi. }
  rewrite Hm. do 2 f_equal. apply map_eq. intros k. rewrite Hl. case_decide as Hk; [done|].
  rewrite lookup_empty. rewrite Hks in Hk. destruct (m !! k); [|done]. by destruct Hk.
Qed.

Lemma str_keys_elem {V} (m : gmap bytes V) k : k ∈ str_keys m ↔ is_Some (m !! k).
Proof.
  unfold str_keys. rewrite (merge_sort_Permutation bytes_le), elem_of_elements. apply elem_of_dom.
Qed.

Lemma cursor_u64 x rest : in_width 64 x → cursor (take_u64 (le_bytes 8 x ++ rest)) = Ok (x, rest).
Proof. intros. by rewrite u64_app. Qed.

Lemma cursor_u32 x rest : in_width 32 x → cursor (take_u32 (le_bytes 4 x ++ rest)) = Ok (x, rest).
Proof. intros. unfold take_u32. by rewrite (take_le_app 4). Qed.

Ltac decode_cursor :=
  repeat (first [ rewrite cursor_u64 by done | rewrite cursor_u32 by done ];
          cbn [result_bind fst snd]).

Lemma decode_extents_encode total es rest :
  Forall extent_ok es → Forall (fun e => extent_in total e = true) es →
  decode_extents total (length es) (concat (map encode_extent es) ++ rest) = Ok (es, rest).
Proof.
  induction 1 as [|[b k] es [Hb Hk] _ IH]; intros Hin; [done|]. inversion_clear Hin as [|? ? Hi Hin'].
  cbn [length decode_extents map concat]. unfold encode_extent at 1. cbn [lb blocks] in *.
  rewrite <- !app_assoc. decode_cursor. rewrite Hi. cbn [negb]. rewrite IH by done. done.
Qed.

Section Roundtrip.
Context (s : State) (txn : Z).
Hypothesis Hs : state_ok s.
Hypothesis Htxn : in_width 64 txn.
Hypothesis Hlen : vlen (encode s txn) < 2 ^ 32.

Lemma object_extents_ok id o :
  s.(objects) !! id = Some o →
  Forall extent_ok o.(extents) ∧ Forall (fun e => extent_in s.(total_blocks) e = true) o.(extents).
Proof.
  intros Ho. destruct (ok_objects s Hs id o Ho) as [_ _ He _ _ _].
  pose proof (shape_data s (ok_shape s Hs)). pose proof (shape_width s (ok_shape s Hs)).
  split; (eapply Forall_impl; [exact He|]); intros e (H1 & H2 & H3).
  - unfold extent_ok, in_width, max_of in *. lia.
  - unfold extent_in, saturating_add, max_of. apply Z.leb_le. lia.
Qed.

Lemma object_id_width id : is_Some (s.(objects) !! id) → in_width 64 id.
Proof.
  intros Hi%(ok_ids s Hs). pose proof (ok_next s Hs). unfold in_width, ROOT_OBJECT in *. lia.
Qed.

Lemma decode_object_encode id o rest :
  s.(objects) !! id = Some o →
  decode_object s.(total_blocks) (encode_object s.(objects) id ++ rest) = Ok ((id, o), rest).
Proof.
  intros Ho. unfold encode_object, decode_object. rewrite Ho.
  destruct (object_extents_ok id o Ho) as [He1 He2].
  destruct (ok_objects s Hs id o Ho) as [Hk Hsz _ Hc _ _].
  assert (in_width 64 id) by (by apply object_id_width).
  assert (in_width 32 (vlen (extents o))).
  { unfold in_width, MAX_EXTENTS_PER_WRITE in *. pose proof (vlen_nonneg (extents o)). lia. }
  rewrite <- !app_assoc. decode_cursor. cbn [app take_u8 cursor ok_or result_bind fst snd].
  decode_cursor. unfold vlen. rewrite Nat2Z.id, decode_extents_encode by done.
  cbn [result_bind fst snd]. by destruct o.
Qed.

Lemma encode_parts :
  vlen (sorted_keys s.(objects)) ≤ vlen (encode s txn) ∧
  vlen (sorted_keys s.(dirs)) ≤ vlen (encode s txn) ∧
  (∀ id t, s.(dirs) !! id = Some t → vlen (str_keys t) ≤ vlen (encode s txn)).
Proof.
  assert (Ho : ∀ k, k ∈ sorted_keys (objects s) → 1 ≤ vlen (encode_object (objects s) k)).
  { intros k [o Ho]%sorted_keys_elem. unfold encode_object. rewrite Ho.
    rewrite vlen_app, vlen_le_bytes. pose proof (vlen_nonneg ([kind o] ++ le_bytes 8 (size o) ++
      le_bytes 4 (vlen (extents o)) ++ concat (map encode_extent (extents o)))). lia. }
  assert (Hd : ∀ k, k ∈ sorted_keys (dirs s) → 1 ≤ vlen (encode_dir (dirs s) k)).
  { intros k [t Ht]%sorted_keys_elem. unfold encode_dir. rewrite Ht.
    rewrite !vlen_app, !vlen_le_bytes. pose proof (vlen_nonneg (concat (map (encode_dirent t) (str_keys t)))). lia. }
  apply vlen_concat_ge in Ho, Hd. unfold encode. rewrite !vlen_app, !vlen_le_bytes.
  pose proof (vlen_nonneg (concat (map (encode_object (objects s)) (sorted_keys (objects s))))).
  pose proof (vlen_nonneg (concat (map (encode_dir (dirs s)) (sorted_keys (dirs s))))).
  split_and!; [lia..|]. intros id t Ht.
  assert (Hid : id ∈ sorted_keys (dirs s)) by (apply sorted_keys_elem; by rewrite Ht).
  apply (vlen_concat_elem (encode_dir (dirs s))) in Hid. unfold encode_dir at 1 in Hid.
  rewrite Ht, !vlen_app, !vlen_le_bytes in Hid.
  assert (He : ∀ n, n ∈ str_keys t → 1 ≤ vlen (encode_dirent t n)).
  { intros n [[c k] Hn]%str_keys_elem. unfold encode_dirent. rewrite Hn, !vlen_app, vlen_le_bytes.
    pose proof (vlen_nonneg (push_name n)). pose proof (vlen_nonneg [k]). lia. }
  apply vlen_concat_ge in He. lia.
Qed.

Lemma decode_dirent_encode id t n v rest :
  s.(dirs) !! id = Some t → t !! n = Some v → decode_dirent (encode_dirent t n ++ rest) = Ok ((n, v), rest).
Proof.
  intros Ht Hn. destruct v as [c k]. assert (He : entry s id n c k) by (by exists t).
  apply (ok_entries s Hs) in He as (Hname & _ & o & Ho & Hk).
  unfold decode_dirent, encode_dirent. rewrite Hn. destruct Hname as (Hu & _ & Hl). unfold push_name.
  cbn [app take_u8 cursor ok_or result_bind fst snd]. unfold MAX_NAME_LEN in *.
  rewrite Z.mod_small by lia. destruct (Z.eqb_spec (vlen n) 0); [lia|].
  destruct (Z.ltb_spec 255 (vlen n)); [lia|]. cbn [orb]. rewrite <- !app_assoc.
  rewrite take_bytes_app by (unfold vlen; lia). cbn [cursor ok_or result_bind fst snd].
  unfold from_utf8. rewrite Hu. cbn [ok_or result_bind].
  rewrite cursor_u64 by (by apply object_id_width). done.
Qed.

Lemma decode_dir_encode id t rest :
  s.(dirs) !! id = Some t → decode_dir (encode_dir s.(dirs) id ++ rest) = Ok ((id, t), rest).
Proof.
  intros Ht. unfold decode_dir, encode_dir. rewrite Ht.
  assert (in_width 64 id).
  { apply object_id_width. assert (is_Some (dirs s !! id)) as (o & Ho & _)%(ok_dirs s Hs) by done. done. }
  destruct encode_parts as (_ & _ & Hp). specialize (Hp id t Ht).
  assert (in_width 32 (vlen (str_keys t))) by (unfold in_width; pose proof (vlen_nonneg (str_keys t)); lia).
  rewrite <- !app_assoc. decode_cursor. unfold vlen. rewrite Nat2Z.id.
  rewrite (decode_map_all decode_dirent (encode_dirent t) t).
  - done.
  - apply str_keys_elem.
  - intros n v Hn rest'. by eapply decode_dirent_encode.
Qed.

Lemma cross_check_ok : cross_check s.(objects) s.(dirs) = true.
Proof.
  apply forallb_forall. intros id Hid%list_elem_of_In. apply sorted_keys_elem in Hid as [t Ht].
  assert (is_Some (dirs s !! id)) as (o & Ho & Hk)%(ok_dirs s Hs) by done.
  rewrite Ho, Ht, Hk. cbn [Z.eqb KIND_DIR Pos.eqb andb]. apply forallb_forall. intros n Hn%list_elem_of_In.
  apply str_keys_elem in Hn as [[c k] Hn]. rewrite Hn. apply bool_decide_eq_true.
  destruct (ok_entries s Hs id n c k) as (_ & _ & o' & Ho' & _); [by exists t|done].
Qed.

(** The bitmap of the decoded state is the one that was encoded. *)
Lemma derived_bitmap :
  foldl word_mark (bitmap (new_empty s.(total_blocks) s.(data_start)))
    (blocks_of (concat (map (fun id => match s.(objects) !! id with Some o => o.(extents) | None => [] end)
                          (sorted_keys s.(objects))))) = s.(bitmap).
Proof.
  set (all := concat _). set (s0 := new_empty (total_blocks s) (data_start s)).
  pose proof (ok_shape s Hs) as Hsh. pose proof (shape_data s Hsh). pose proof (shape_width s Hsh).
  pose proof (ok_room s Hs). assert (Hs0 : state_ok s0) by (apply new_empty_ok; lia).
  assert (Hall : ∀ x, x ∈ blocks_of all ↔ ∃ id, owns s id x).
  { intros x. unfold all. rewrite elem_of_blocks. split.
    - intros (e & He & Hx). apply list_elem_of_In, in_concat in He as (l & Hl & He).
      apply in_map_iff in Hl as (id & <- & Hid). apply list_elem_of_In, sorted_keys_elem in Hid as [o Ho].
      rewrite Ho in He. exists id, o. split; [done|]. apply elem_of_blocks. exists e. by split; [apply list_elem_of_In|].
    - intros (id & o & Ho & (e & He & Hx)%elem_of_blocks). exists e. split; [|done].
      apply list_elem_of_In, in_concat. exists (extents o). split; [|by apply list_elem_of_In].
      apply in_map_iff. exists id. rewrite Ho. split; [done|]. apply list_elem_of_In, sorted_keys_elem. by rewrite Ho. }
  assert (Hbl : length (bitmap s0) = length (bitmap s)).
  { pose proof (shape_words s Hsh) as E1. pose proof (shape_words s0 (ok_shape s0 Hs0)) as E2.
    replace (total_blocks s0) with (total_blocks s) in E2 by (unfold s0; by rewrite new_empty_eq).
    unfold vlen in *. lia. }
  assert (Hcov : Forall (covered (bitmap s0)) (blocks_of all)).
  { apply Forall_forall. intros x (id & o & Ho & Hx)%Hall. eapply covered_length; [exact Hbl|].
    pose proof (data_covered s o Hs (ok_objects s Hs id o Ho)) as Hf. rewrite Forall_forall in Hf. by apply Hf. }
  apply bitmap_ext.
  - apply marks_ok, (shape_bits s0 (ok_shape s0 Hs0)).
  - exact (shape_bits s Hsh).
  - by rewrite marks_length.
  - intros x Hx. assert (Hx0 : covered (bitmap s0) x) by (eapply covered_length; [|exact Hx]; by rewrite marks_length).
    assert (Hx1 : covered (bitmap s) x) by (by eapply covered_length).
    rewrite bit_marks by done. apply eq_bool_prop_intro. rewrite !Is_true_true, (ok_bitmap s Hs x Hx1), <- Hall.
    case_decide as Hin; [tauto|]. rewrite (ok_bitmap s0 Hs0 x Hx0).
    assert (Hres : reserved s0 x ↔ reserved s x) by (unfold reserved, s0; by rewrite new_empty_eq).
    rewrite Hres. split; [|tauto]. intros [?|(id & o & Ho & Hx')]; [by left|].
    unfold s0 in Ho. rewrite new_empty_eq in Ho. cbn [objects] in Ho.
    apply lookup_singleton_Some in Ho as [_ <-]. by apply elem_of_nil in Hx'.
Qed.

Lemma checkpoint_roundtrip_sec : decode (encode s txn) s.(total_blocks) s.(data_start) = Ok (s, txn).
Proof.
  destruct encode_parts as (Hoc & Hdc & _).
  assert (in_width 32 (vlen (sorted_keys (objects s)))) by
    (unfold in_width; pose proof (vlen_nonneg (sorted_keys (objects s))); lia).
  assert (in_width 32 (vlen (sorted_keys (dirs s)))) by
    (unfold in_width; pose proof (vlen_nonneg (sorted_keys (dirs s))); lia).
  pose proof (ok_next s Hs). unfold decode, encode. decode_cursor. unfold vlen at 1. rewrite Nat2Z.id.
  rewrite (decode_map_all (decode_object (total_blocks s)) (encode_object (objects s)) (objects s));
    [|apply sorted_keys_elem|intros; by apply decode_object_encode].
  cbn [result_bind fst snd]. decode_cursor. unfold vlen. rewrite Nat2Z.id.
  rewrite <- (app_nil_r (concat (map (encode_dir (dirs s)) (sorted_keys (dirs s))))).
  rewrite (decode_map_all decode_dir (encode_dir (dirs s)) (dirs s));
    [|apply sorted_keys_elem|intros; by apply decode_dir_encode].
  cbn [result_bind fst snd]. rewrite cross_check_ok. cbn [negb]. rewrite mark_extents_bitmap.
  unfold with_bitmap. cbn [objects dirs next_object bitmap data_start total_blocks].
  rewrite derived_bitmap. rewrite new_empty_eq. cbn [data_start total_blocks]. by destruct s.
Qed.
End Roundtrip.
