(* ===== verification/NxfsDev.v ===== *)
(** The logical-block adapter of nxfs ([userspace/nxfs/src/dev.rs]): 4 KiB
    blocks over a device with smaller sectors, and its effect on the bytes of
    the device. *)

From S2P Require Import Prelude Bytes Storage NxfsFormat.

Section Adapter.
Context {D : Type} `{BlockDevice D}.

Record Dev := {
  inner : D;
  sectors_per_block : nat;
  logical_blocks : Z
}.

Definition dev_new (d : D) : result Dev NxfsError :=
  let sector := block_size d in
  if (sector =? 0)%nat || negb (LOGICAL_BLOCK_SIZE mod sector =? 0)%nat then Err Io
  else
    let spb := (LOGICAL_BLOCK_SIZE / sector)%nat in
    Ok {| inner := d; sectors_per_block := spb; logical_blocks := block_count d / Z.of_nat spb |}.

Definition into_inner (d : Dev) : D := d.(inner).

Definition with_inner (d : Dev) (i : D) : Dev :=
  {| inner := i; sectors_per_block := d.(sectors_per_block); logical_blocks := d.(logical_blocks) |}.

(** [n] sectors from the [i]-th of the block on; [sector] is the bounce buffer. *)
Fixpoint read_sectors (d : D) (base : Z) (n i : nat) (sector out : bytes)
    : result bytes NxfsError :=
  match n with
  | O => Ok out
  | S n' =>
      let? b := map_err (fun _ => Io) (read_block d (base + Z.of_nat i) sector) in
      read_sectors d base n' (S i) b (splice out (i * block_size d) b)
  end.

(** [Dev::read]: the contents of the caller's buffer afterwards. *)
Definition read (d : Dev) (lb : Z) (out : bytes) : result bytes NxfsError :=
  if d.(logical_blocks) <=? lb then Err Io
  else read_sectors d.(inner) (lb * Z.of_nat d.(sectors_per_block)) d.(sectors_per_block) 0
         (zeros (block_size d.(inner))) out.

Fixpoint write_sectors (d : D) (base : Z) (n i : nat) (sector_len : nat) (data : bytes)
    : D * result unit NxfsError :=
  match n with
  | O => (d, Ok tt)
  | S n' =>
      match write_block d (base + Z.of_nat i)
              (slice (i * sector_len) (i * sector_len + sector_len) data) with
      | (d', Ok _) => write_sectors d' base n' (S i) sector_len data
      | (d', Err _) => (d', Err Io)
      end
  end.

Definition write (d : Dev) (lb : Z) (data : bytes) : Dev * result unit NxfsError :=
  if d.(logical_blocks) <=? lb then (d, Err Io)
  else
    let '(i, r) := write_sectors d.(inner) (lb * Z.of_nat d.(sectors_per_block))
                     d.(sectors_per_block) 0 (block_size d.(inner)) data in
    (with_inner d i, r).

(** [slice::chunks]: one chunk per round. *)
Fixpoint chunks (fuel n : nat) (l : bytes) : list bytes :=
  match fuel, l with
  | S fuel', _ :: _ => take n l :: chunks fuel' n (drop n l)
  | _, _ => []
  end.

Fixpoint write_chunks (d : Dev) (lb : Z) (cs : list bytes) : Dev * result unit NxfsError :=
  match cs with
  | [] => (d, Ok tt)
  | c :: cs' =>
      match write d lb (c ++ zeros (LOGICAL_BLOCK_SIZE - length c)) with
      | (d', Ok _) => write_chunks d' (lb + 1) cs'
      | (d', Err e) => (d', Err e)
      end
  end.

Definition write_bytes (d : Dev) (lb : Z) (data : bytes) : Dev * result unit NxfsError :=
  write_chunks d lb (chunks (length data) LOGICAL_BLOCK_SIZE data).

(** [n] blocks, of which the first [remaining] bytes are wanted. *)
Fixpoint read_blocks (d : Dev) (lb : Z) (n remaining : nat) (block : bytes)
    : result bytes NxfsError :=
  match n with
  | O => Ok []
  | S n' =>
      let? b := read d lb block in
      let? rest := read_blocks d (lb + 1) n' (remaining - LOGICAL_BLOCK_SIZE) b in
      Ok (take (min remaining LOGICAL_BLOCK_SIZE) b ++ rest)
  end.

Definition read_bytes (d : Dev) (lb : Z) (len : nat) : result bytes NxfsError :=
  read_blocks d lb ((len + (LOGICAL_BLOCK_SIZE - 1)) / LOGICAL_BLOCK_SIZE) len
    (zeros LOGICAL_BLOCK_SIZE).

Definition sync (d : Dev) : Dev * result unit NxfsError :=
  let '(i, r) := dev_sync d.(inner) in (with_inner d i, map_err (fun _ => Io) r).

End Adapter.

Arguments Dev : clear implicits.

(** ** The logical-block adapter as an array of bytes: on a device in working
    order a read is a slice of its image and a write a splice. *)

Abbreviation LB := LOGICAL_BLOCK_SIZE.

Lemma LB_pos : (0 < LB)%nat.
Proof. unfold LB. lia. Qed.

Lemma LB_val : Z.of_nat LB = 4096.
Proof. reflexivity. Qed.

#[global] Opaque LOGICAL_BLOCK_SIZE.

(** *** Slices and splices *)

Lemma splice_all buf data : length data = length buf → splice buf 0 data = data.
Proof.
  intros Hl. unfold splice. rewrite take_0, Nat.add_0_l, drop_ge by lia. simpl. apply app_nil_r.
Qed.

Lemma slice_full {A} (l : list A) : slice 0 (length l) l = l.
Proof. unfold slice. rewrite drop_0. apply take_ge. lia. Qed.

Lemma slice_splice_same buf i data :
  (i + length data ≤ length buf)%nat → slice i (i + length data) (splice buf i data) = data.
Proof.
  intros Hl. unfold splice. apply slice_at; [rewrite length_take; lia|done].
Qed.

(** A slice that a splice does not touch. *)
Lemma slice_splice_other buf i data a b :
  (i + length data ≤ length buf)%nat → (b ≤ i ∨ i + length data ≤ a)%nat →
  slice a b (splice buf i data) = slice a b buf.
Proof.
  intros Hl Hd. apply list_eq. intros k. rewrite !slice_lookup. case_decide; [|done].
  rewrite splice_lookup by done. rewrite decide_False; [done|]. lia.
Qed.

(** A slice around what a splice changes. *)
Lemma slice_splice_in buf i data a b :
  (i + length data ≤ length buf)%nat → (a ≤ i)%nat → (i + length data ≤ b)%nat → (b ≤ length buf)%nat →
  slice a b (splice buf i data) = splice (slice a b buf) (i - a) data.
Proof.
  intros Hl Ha Hb Hbl. apply list_eq. intros k. rewrite slice_lookup.
  rewrite (splice_lookup (slice a b buf)) by (rewrite slice_length; lia).
  rewrite slice_lookup. destruct (decide (k < b - a)%nat) as [Hk|Hk].
  - rewrite splice_lookup by done.
    destruct (decide (i ≤ a + k < i + length data)%nat); destruct (decide (i - a ≤ k < i - a + length data)%nat);
      try lia; [f_equal; lia|done].
  - rewrite decide_False by lia. done.
Qed.

Section Image.
Context {D : Type} `{BlockStore D}.
Implicit Types d : Dev D.

Definition image (d : Dev D) : bytes := dev_bytes d.(inner).

(** An adapter over a device in working order. *)
Record dev_ok (d : Dev D) : Prop := {
  dok_inner : dev_wf d.(inner);
  dok_size : (d.(sectors_per_block) * block_size d.(inner))%nat = LB;
  dok_blocks : 0 ≤ d.(logical_blocks);
  dok_count : d.(logical_blocks) * Z.of_nat d.(sectors_per_block) ≤ block_count d.(inner)
}.

Definition lb_off (lb : Z) : nat := (Z.to_nat lb * LB)%nat.

Lemma inner_uniform i : dev_wf i → Forall (fun b => length b = block_size i) (dev_blocks i).
Proof. intros Hw. eapply Forall_impl; [by apply dev_block_ok|]. by intros b [? _]. Qed.

Lemma inner_length i : dev_wf i → length (dev_bytes i) = (length (dev_blocks i) * block_size i)%nat.
Proof. intros Hw. unfold dev_bytes. apply concat_length. by apply inner_uniform. Qed.

Lemma image_byte d : dev_ok d → Forall is_byte (image d).
Proof. intros Hd. apply dev_bytes_byte, Hd. Qed.

Lemma image_room d lb :
  dev_ok d → 0 ≤ lb < d.(logical_blocks) → (lb_off lb + LB ≤ length (image d))%nat.
Proof.
  intros [Hw Hs Hb Hc] Hlb. unfold image, lb_off. rewrite inner_length by done.
  rewrite (dev_count _ Hw) in Hc. unfold vlen in Hc. rewrite <- Hs.
  assert (Z.to_nat lb * sectors_per_block d + sectors_per_block d ≤ length (dev_blocks (inner d)))%nat by nia.
  nia.
Qed.

Lemma dev_new_ok (i : D) d : dev_wf i → dev_new i = Ok d → dev_ok d ∧ d.(inner) = i.
Proof.
  intros Hw. unfold dev_new. destruct (Nat.eqb_spec (block_size i) 0) as [|Hs]; [done|].
  destruct (Nat.eqb_spec (LB mod block_size i) 0) as [Hm|]; [|done]. cbn [orb negb].
  intros [= <-]. split; [|done].
  assert (Hdiv : (LB / block_size i * block_size i)%nat = LB).
  { pose proof (Nat.div_mod LB (block_size i) Hs). lia. }
  assert (0 < LB / block_size i)%nat by (pose proof LB_pos; destruct (LB / block_size i)%nat eqn:?; lia).
  assert (0 ≤ block_count i) by (rewrite (dev_count i Hw); apply vlen_nonneg).
  split; cbn [inner sectors_per_block logical_blocks]; try done.
  - apply Z.div_pos; lia.
  - rewrite Z.mul_comm. apply Z.mul_div_le. lia.
Qed.

(** *** Reading *)

Lemma read_sectors_spec (i : D) base n k sector out :
  dev_wf i → length sector = block_size i → (base + k + n ≤ length (dev_blocks i))%nat →
  ((k + n) * block_size i ≤ length out)%nat →
  read_sectors i (Z.of_nat base) n k sector out =
    Ok (splice out (k * block_size i)
          (slice ((base + k) * block_size i) ((base + k + n) * block_size i) (dev_bytes i))).
Proof.
  intros Hw. set (ss := block_size i). revert k sector out.
  pose proof (inner_length i Hw) as Hlen. fold ss in Hlen.
  induction n as [|n IH]; intros k sector out Hsec Hn Hout; cbn [read_sectors].
  - rewrite Nat.add_0_r. unfold slice. rewrite Nat.sub_diag, take_0. rewrite splice_nil; [done|]. lia.
  - destruct (lookup_lt_is_Some_2 (dev_blocks i) (base + k)) as [b Hb]; [lia|].
    rewrite <- Nat2Z.inj_add, (dev_read i _ _ b) by done. cbn [map_err result_bind].
    pose proof (dev_block_length i _ b Hw Hb) as Hbl.
    rewrite IH; [|done|lia|fold ss; rewrite splice_length; fold ss in Hbl; nia].
    fold ss. fold ss in Hbl. f_equal.
    assert (Hbs : b = slice ((base + k) * ss) ((base + S k) * ss) (dev_bytes i)).
    { replace (base + S k)%nat with (S (base + k)) by lia.
      apply concat_lookup_slice; [by apply inner_uniform|done]. }
    replace (S k * ss)%nat with (k * ss + length b)%nat by lia.
    rewrite splice_splice.
    + f_equal. rewrite Hbs at 1.
      replace (base + k + S n)%nat with (base + S k + n)%nat by lia.
      apply slice_slice_app. nia.
    + rewrite slice_length by (rewrite Hlen; nia). nia.
Qed.

Lemma read_spec d lb out :
  dev_ok d → 0 ≤ lb < d.(logical_blocks) → length out = LB →
  read d lb out = Ok (slice (lb_off lb) (lb_off lb + LB) (image d)).
Proof.
  intros Hd Hlb Hout. pose proof (image_room d lb Hd Hlb) as Hroom. destruct Hd as [Hw Hs Hb Hc].
  unfold read. destruct (Z.leb_spec (logical_blocks d) lb); [lia|].
  pose proof (inner_length (inner d) Hw) as Hlen. rewrite (dev_count _ Hw) in Hc. unfold vlen in Hc.
  replace (lb * Z.of_nat (sectors_per_block d)) with (Z.of_nat (Z.to_nat lb * sectors_per_block d)) by lia.
  rewrite read_sectors_spec; [|done|apply length_zeros|nia|rewrite Nat.add_0_l, Hs; lia].
  rewrite Nat.mul_0_l, !Nat.add_0_r. unfold image, lb_off in *.
  replace ((Z.to_nat lb * sectors_per_block d + sectors_per_block d) * block_size (inner d))%nat
    with (Z.to_nat lb * LB + LB)%nat by (rewrite <- Hs; nia).
  replace (Z.to_nat lb * sectors_per_block d * block_size (inner d))%nat with (Z.to_nat lb * LB)%nat
    by (rewrite <- Hs; nia).
  f_equal. apply splice_all. rewrite slice_length by done. lia.
Qed.

Lemma read_range d lb out : d.(logical_blocks) ≤ lb → read d lb out = Err Io.
Proof. intros Hlb. unfold read. destruct (Z.leb_spec (logical_blocks d) lb); [done|lia]. Qed.

(** *** Writing *)

(** [d'] is [d] with other bytes. *)
Record dev_same (d d' : Dev D) : Prop := {
  ds_ok : dev_ok d';
  ds_logical : d'.(logical_blocks) = d.(logical_blocks);
  ds_size : block_size d'.(inner) = block_size d.(inner);
  ds_spb : d'.(sectors_per_block) = d.(sectors_per_block);
  ds_length : length (image d') = length (image d)
}.

Lemma dev_same_refl d : dev_ok d → dev_same d d.
Proof. by split. Qed.

Lemma dev_same_trans a b c : dev_same a b → dev_same b c → dev_same a c.
Proof. intros [] []. split; [done|congruence..]. Qed.

Lemma write_sectors_spec (i : D) base n k data :
  dev_wf i → (base + k + n ≤ length (dev_blocks i))%nat → ((k + n) * block_size i ≤ length data)%nat →
  Forall is_byte data →
  ∃ i', write_sectors i (Z.of_nat base) n k (block_size i) data = (i', Ok tt) ∧ dev_wf i' ∧
    block_size i' = block_size i ∧ length (dev_blocks i') = length (dev_blocks i) ∧
    dev_bytes i' = splice (dev_bytes i) ((base + k) * block_size i)
                     (slice (k * block_size i) ((k + n) * block_size i) data).
Proof.
  intros Hw. set (ss := block_size i). assert (Hss : block_size i = ss) by done. clearbody ss. revert i k Hw Hss.
  induction n as [|n IH]; intros i k Hw Hss Hn Hd Hb; cbn [write_sectors].
  - exists i. pose proof (inner_length i Hw) as Hlen. split_and!; try done. rewrite Nat.add_0_r. unfold slice.
    rewrite Nat.sub_diag, take_0, splice_nil; [done|]. rewrite Hlen, Hss. nia.
  - set (chunk := slice (k * ss) (k * ss + ss) data).
    assert (Hcl : length chunk = ss) by (unfold chunk; rewrite slice_length; nia).
    destruct (dev_write i (base + k) chunk) as (i' & Hwr & Hw' & Hs' & Hbs); [done|lia|by apply slice_byte|lia|].
    rewrite <- Nat2Z.inj_add, Hwr.
    assert (Hl' : length (dev_blocks i') = length (dev_blocks i)) by (by rewrite Hbs, length_insert).
    destruct (IH i' (S k)) as (i2 & Hw2 & Hwf2 & Hs2 & Hl2 & Hbytes); [done|lia|rewrite Hl'; lia|nia|done|].
    exists i2. split_and!; [done|done|congruence|congruence|].
    assert (Hb1 : dev_bytes i' = splice (dev_bytes i) ((base + k) * ss) chunk).
    { unfold dev_bytes. rewrite Hbs. apply (concat_insert ss); [|done|lia]. rewrite <- Hss. by apply inner_uniform. }
    rewrite Hbytes, Hb1.
    replace ((base + S k) * ss)%nat with ((base + k) * ss + length chunk)%nat by (rewrite Hcl; lia).
    rewrite splice_splice.
    + f_equal. unfold chunk. replace (k * ss + ss)%nat with (S k * ss)%nat by lia.
      replace (k + S n)%nat with (S k + n)%nat by lia. apply slice_slice_app. nia.
    + rewrite slice_length by nia. rewrite (inner_length i Hw), Hss, Hcl. nia.
Qed.

Lemma write_spec d lb data :
  dev_ok d → 0 ≤ lb < d.(logical_blocks) → length data = LB → Forall is_byte data →
  ∃ d', write d lb data = (d', Ok tt) ∧ dev_same d d' ∧
        image d' = splice (image d) (lb_off lb) data.
Proof.
  intros Hd Hlb Hdl Hdb. pose proof (image_room d lb Hd Hlb) as Hroom. pose proof Hd as [Hw Hs Hb Hc].
  unfold write. destruct (Z.leb_spec (logical_blocks d) lb); [lia|].
  pose proof (inner_length (inner d) Hw) as Hlen. pose proof Hc as Hc'.
  rewrite (dev_count _ Hw) in Hc'. unfold vlen in Hc'.
  replace (lb * Z.of_nat (sectors_per_block d)) with (Z.of_nat (Z.to_nat lb * sectors_per_block d)) by lia.
  destruct (write_sectors_spec (inner d) (Z.to_nat lb * sectors_per_block d) (sectors_per_block d) 0 data)
    as (i' & Hwr & Hw' & Hs' & Hl' & Hbytes); [done|nia|rewrite Nat.add_0_l, Hs; lia|done|].
  rewrite Hwr. exists (with_inner d i'). split; [done|].
  assert (Himg : dev_bytes i' = splice (image d) (lb_off lb) data).
  { rewrite Hbytes. unfold image, lb_off. rewrite Nat.add_0_r, Nat.mul_0_l, Nat.add_0_l, Hs.
    rewrite <- Hdl, slice_full. f_equal. rewrite Hdl, <- Hs. nia. }
  split; [|exact Himg]. split; cbn [inner logical_blocks sectors_per_block with_inner]; try done.
  - split; cbn [inner logical_blocks sectors_per_block with_inner]; try done; [congruence|].
    rewrite (dev_count _ Hw'). unfold vlen. rewrite Hl'. lia.
  - unfold image at 1. cbn [inner with_inner]. rewrite Himg. apply splice_length. lia.
Qed.

(** A device with the same geometry gives the same adapter. *)
Lemma dev_same_new d d' :
  dev_new d.(inner) = Ok d → dev_ok d → dev_same d d' → dev_new d'.(inner) = Ok d'.
Proof.
  intros Hn Hd [Hd' Hl Hs Hp Hlen]. unfold dev_new in *. rewrite Hs.
  destruct (_ || _); [done|]. f_equal.
  assert (Hc : block_count (inner d') = block_count (inner d)).
  { rewrite (dev_count _ (dok_inner _ Hd)), (dev_count _ (dok_inner _ Hd')). unfold vlen. f_equal.
    unfold image in Hlen. rewrite !inner_length, Hs in Hlen by apply Hd' || apply Hd.
    pose proof (dev_size_pos _ (dok_inner _ Hd)). nia. }
  rewrite Hc. injection Hn as Hn. destruct d, d'. cbn in *. simplify_eq. done.
Qed.

(** *** Byte runs *)

Definition blocks_for (n : nat) : nat := ((n + (LB - 1)) / LB)%nat.

Lemma blocks_for_0 : blocks_for 0 = 0%nat.
Proof. unfold blocks_for. apply Nat.div_small. pose proof LB_pos. lia. Qed.

Lemma blocks_for_step n : (0 < n)%nat → blocks_for n = S (blocks_for (n - LB)).
Proof.
  intros Hn. unfold blocks_for. pose proof LB_pos. destruct (decide (n ≤ LB)%nat).
  - replace (n - LB)%nat with 0%nat by lia. rewrite (Nat.div_small (0 + (LB - 1))) by lia.
    replace (n + (LB - 1))%nat with ((n - 1) + 1 * LB)%nat by lia. rewrite Nat.div_add by lia.
    rewrite Nat.div_small by lia. done.
  - replace (n + (LB - 1))%nat with ((n - LB + (LB - 1)) + 1 * LB)%nat by lia.
    rewrite Nat.div_add by lia. lia.
Qed.

Lemma blocks_for_ge n : (n ≤ blocks_for n * LB)%nat.
Proof.
  unfold blocks_for. pose proof LB_pos. pose proof (Nat.div_mod (n + (LB - 1)) LB ltac:(lia)).
  pose proof (Nat.mod_upper_bound (n + (LB - 1)) LB ltac:(lia)). nia.
Qed.

(** What a byte run becomes on disk: padded to whole blocks. *)
Definition padded (data : bytes) : bytes := data ++ zeros (blocks_for (length data) * LB - length data).

Lemma padded_length data : length (padded data) = (blocks_for (length data) * LB)%nat.
Proof. unfold padded. rewrite length_app, length_zeros. pose proof (blocks_for_ge (length data)). lia. Qed.

Lemma padded_byte data : Forall is_byte data → Forall is_byte (padded data).
Proof. intros. apply Forall_app_2; [done|apply zeros_byte]. Qed.

Lemma padded_step data :
  data ≠ [] →
  padded data = (take LB data ++ zeros (LB - length (take LB data))) ++ padded (drop LB data).
Proof.
  intros Hne. assert (Hn : (0 < length data)%nat) by (destruct data; [done|simpl; lia]).
  unfold padded. rewrite (blocks_for_step (length data) Hn), length_drop, length_take.
  destruct (decide (length data ≤ LB)%nat).
  - rewrite (take_ge data), (drop_ge data) by lia.
    replace (length data - LB)%nat with 0%nat by lia. rewrite blocks_for_0.
    replace (LB `min` length data)%nat with (length data) by lia. cbn [app].
    change (zeros (0 * LB - 0)) with (@nil Z). rewrite !app_nil_r. do 2 f_equal; lia.
  - replace (LB - LB `min` length data)%nat with 0%nat by lia. cbn [zeros replicate]. rewrite app_nil_r.
    rewrite app_assoc, take_drop. f_equal. f_equal. pose proof (blocks_for_ge (length data - LB)). lia.
Qed.

Lemma write_chunks_spec d lb fuel data :
  dev_ok d → (length data ≤ fuel)%nat → 0 ≤ lb →
  lb + Z.of_nat (blocks_for (length data)) ≤ d.(logical_blocks) → Forall is_byte data →
  ∃ d', write_chunks d lb (chunks fuel LB data) = (d', Ok tt) ∧ dev_same d d' ∧
        image d' = (if decide (data = []) then image d else splice (image d) (lb_off lb) (padded data)).
Proof.
  revert d lb data. induction fuel as [|fuel IH]; intros d lb data Hd Hf Hlb Hroom Hb.
  - destruct data; [|simpl in Hf; lia]. exists d. split; [done|]. split; [by apply dev_same_refl|done].
  - destruct (decide (data = [])) as [->|Hne].
    { exists d. split; [done|]. split; [by apply dev_same_refl|done]. }
    assert (Hn : (0 < length data)%nat) by (destruct data; [done|simpl; lia]).
    assert (Hch : chunks (S fuel) LB data = take LB data :: chunks fuel LB (drop LB data)) by (by destruct data).
    rewrite Hch. cbn [write_chunks]. rewrite (blocks_for_step _ Hn) in Hroom.
    set (c := take LB data). assert (Hcl : (length c ≤ LB)%nat) by (unfold c; rewrite length_take; lia).
    pose proof LB_pos.
    destruct (write_spec d lb (c ++ zeros (LB - length c))) as (d1 & Hw & Hsame & Himg); [done|lia| | |].
    { rewrite length_app, length_zeros. lia. }
    { apply Forall_app_2; [by apply Forall_take|apply zeros_byte]. }
    rewrite Hw. destruct (IH d1 (lb + 1) (drop LB data)) as (d2 & Hw2 & Hsame2 & Himg2).
    { apply Hsame. } { rewrite length_drop. lia. } { lia. }
    { rewrite length_drop, (ds_logical _ _ Hsame). lia. } { by apply Forall_drop. }
    exists d2. split; [done|]. split; [by eapply dev_same_trans|].
    rewrite Himg2, Himg. rewrite (padded_step data) by done. fold c.
    assert (Hl : length (c ++ zeros (LB - length c)) = LB) by (rewrite length_app, length_zeros; lia).
    case_decide as Hd0.
    + rewrite Hd0. unfold padded. cbn [app length]. rewrite blocks_for_0. cbn [Nat.mul Nat.sub zeros replicate].
      by rewrite app_nil_r.
    + assert (Hoff : lb_off (lb + 1) = (lb_off lb + length (c ++ zeros (LB - length c)))%nat).
      { rewrite Hl. unfold lb_off. replace (Z.to_nat (lb + 1)) with (S (Z.to_nat lb)) by lia. lia. }
      rewrite Hoff. apply splice_splice. rewrite Hl, padded_length, length_drop.
      pose proof (image_room d (lb + Z.of_nat (blocks_for (length data - LB))) Hd ltac:(lia)) as Hr.
      unfold lb_off in *. nia.
Qed.

(** Writing a byte run splices its padded form in. *)
Lemma write_bytes_spec d lb data :
  dev_ok d → 0 ≤ lb → lb + Z.of_nat (blocks_for (length data)) ≤ d.(logical_blocks) →
  Forall is_byte data → data ≠ [] →
  ∃ d', write_bytes d lb data = (d', Ok tt) ∧ dev_same d d' ∧
        image d' = splice (image d) (lb_off lb) (padded data).
Proof.
  intros Hd Hlb Hroom Hb Hne. destruct (write_chunks_spec d lb (length data) data) as (d' & Hw & Hs & Hi);
    [done..|]. rewrite decide_False in Hi by done. by exists d'.
Qed.

Lemma read_blocks_spec d lb n remaining block :
  dev_ok d → 0 ≤ lb → lb + Z.of_nat n ≤ d.(logical_blocks) → length block = LB →
  n = blocks_for remaining →
  read_blocks d lb n remaining block = Ok (slice (lb_off lb) (lb_off lb + remaining) (image d)).
Proof.
  intros Hd. revert lb remaining block. induction n as [|n IH]; intros lb remaining block Hlb Hroom Hbl Hn;
    cbn [read_blocks].
  - destruct (decide (remaining = 0%nat)) as [->|]; [|rewrite blocks_for_step in Hn; lia].
    unfold slice. by rewrite Nat.add_0_r, Nat.sub_diag, take_0.
  - destruct (decide (remaining = 0%nat)) as [->|Hr]; [by rewrite blocks_for_0 in Hn|].
    rewrite blocks_for_step in Hn by lia. rewrite read_spec by (done || lia). cbn [result_bind].
    pose proof (image_room d lb Hd ltac:(lia)) as Hir.
    assert (Hsl : length (slice (lb_off lb) (lb_off lb + LB) (image d)) = LB) by (rewrite slice_length; lia).
    rewrite IH by (done || lia). cbn [result_bind]. f_equal.
    assert (Hoff : lb_off (lb + 1) = (lb_off lb + LB)%nat).
    { unfold lb_off. replace (Z.to_nat (lb + 1)) with (S (Z.to_nat lb)) by lia. lia. }
    rewrite Hoff. destruct (decide (remaining ≤ LB)%nat).
    + replace (remaining - LB)%nat with 0%nat by lia. rewrite Nat.add_0_r.
      unfold slice at 2. rewrite Nat.sub_diag, take_0, app_nil_r. unfold slice. rewrite take_take.
      f_equal. lia.
    + rewrite take_ge by (rewrite Hsl; lia). rewrite slice_slice_app by lia. f_equal. lia.
Qed.

Lemma read_bytes_spec d lb len :
  dev_ok d → 0 ≤ lb → lb + Z.of_nat (blocks_for len) ≤ d.(logical_blocks) →
  read_bytes d lb len = Ok (slice (lb_off lb) (lb_off lb + len) (image d)).
Proof. intros. unfold read_bytes. apply read_blocks_spec; try done; apply length_zeros. Qed.

Lemma sync_spec d :
  dev_ok d → ∃ d', sync d = (d', Ok tt) ∧ dev_same d d' ∧ image d' = image d.
Proof.
  intros [Hw Hs Hb Hc]. destruct (dev_sync_ok _ Hw) as (i' & Hsy & Hw' & Hs' & Hbl).
  unfold sync. rewrite Hsy. exists (with_inner d i'). split; [done|].
  assert (Himg : dev_bytes i' = dev_bytes (inner d)) by (unfold dev_bytes; by rewrite Hbl).
  split; [|exact Himg]. split; cbn [inner logical_blocks sectors_per_block with_inner]; try done.
  - split; cbn [inner logical_blocks sectors_per_block with_inner]; try done; [congruence|].
    rewrite (dev_count _ Hw'), Hbl, <- (dev_count _ Hw). done.
  - unfold image. cbn [inner with_inner]. by rewrite Himg.
Qed.

End Image.
