(* ===== verification/Nxfs.v ===== *)
(** The nxfs engine ([userspace/nxfs/src/fs.rs], [fsck.rs]): formatting,
    mounting, the file operations, and the transaction machinery under them. *)

From S2P Require Import Prelude Bytes Storage NxfsFormat NxfsJournal NxfsState NxfsCheckpoint NxfsDev.

Definition MAX_FILE_BYTES : Z := 4 * 1024 * 1024.
Definition MAX_ENTRIES_PER_PAGE : Z := 64.

Inductive FileKind :=
| File
| Dir.

Definition kind_of (k : Z) : FileKind := if k =? KIND_DIR then Dir else File.

Record DirEntry := {
  de_name : bytes;
  de_kind : FileKind;
  de_size : Z
}.

Record ReadDirPage := {
  entries : list DirEntry;
  next_cursor : Z;
  eof : bool
}.

Record MkfsOptions := {
  opt_uuid : bytes;
  opt_journal_blocks : Z
}.

Definition checkpoint_blocks (total : Z) : Z := Z.min (Z.max (total / 32) 16) 2048.

(** [Nxfs::split]: the segments of a path. *)
Fixpoint split_parts (segs : list bytes) : result (list bytes) NxfsError :=
  match segs with
  | [] => Ok []
  | seg :: segs' =>
      if bool_decide (seg = []) then split_parts segs'
      else if bool_decide (seg = DOT) || bool_decide (seg = DOTDOT) then Err Invalid
      else let? rest := split_parts segs' in Ok (seg :: rest)
  end.

Definition split (path : bytes) : result (list bytes) NxfsError :=
  let? parts := split_parts (split_on 47 path) in
  if (MAX_DEPTH <? length parts)%nat then Err TooBig else Ok parts.

(** The walks of [resolve] and [resolve_parent] through the directory tables. *)
Fixpoint walk (ds : gmap Z DirTable) (current : Z) (segs : list bytes) : result Z NxfsError :=
  match segs with
  | [] => Ok current
  | seg :: segs' =>
      let? table := ok_or (ds !! current) NotDir in
      let? p := ok_or (table !! seg) NotFound in
      walk ds p.1 segs'
  end.

Fixpoint walk_dirs (ds : gmap Z DirTable) (current : Z) (segs : list bytes) : result Z NxfsError :=
  match segs with
  | [] => Ok current
  | seg :: segs' =>
      let? table := ok_or (ds !! current) NotDir in
      let? p := ok_or (table !! seg) NotFound in
      if negb (p.2 =? KIND_DIR) then Err NotDir else walk_dirs ds p.1 segs'
  end.

(** [slice::split_last]. *)
Definition split_last {A} (l : list A) : option (A * list A) :=
  match rev l with
  | [] => None
  | x :: r => Some (x, rev r)
  end.

(** [Vec::resize(n, 0)]. *)
Definition resize (n : nat) (l : bytes) : bytes := take n l ++ zeros (n - length l).

Module Fs.
Section Engine.
Context {D : Type} `{BlockDevice D}.

Record Nxfs := {
  dev : Dev D;
  sb : Superblock;
  state : State;
  cp_blocks : Z;
  journal_head : nat;
  next_txn : Z;
  replay_discarded_tail : bool;
  formatted_fresh : bool
}.

Definition with_dev (fs : Nxfs) (d : Dev D) : Nxfs :=
  {| dev := d; sb := fs.(sb); state := fs.(state); cp_blocks := fs.(cp_blocks);
     journal_head := fs.(journal_head); next_txn := fs.(next_txn);
     replay_discarded_tail := fs.(replay_discarded_tail); formatted_fresh := fs.(formatted_fresh) |}.

Definition with_sb (fs : Nxfs) (x : Superblock) : Nxfs :=
  {| dev := fs.(dev); sb := x; state := fs.(state); cp_blocks := fs.(cp_blocks);
     journal_head := fs.(journal_head); next_txn := fs.(next_txn);
     replay_discarded_tail := fs.(replay_discarded_tail); formatted_fresh := fs.(formatted_fresh) |}.

Definition with_state (fs : Nxfs) (s : State) : Nxfs :=
  {| dev := fs.(dev); sb := fs.(sb); state := s; cp_blocks := fs.(cp_blocks);
     journal_head := fs.(journal_head); next_txn := fs.(next_txn);
     replay_discarded_tail := fs.(replay_discarded_tail); formatted_fresh := fs.(formatted_fresh) |}.

Definition with_head (fs : Nxfs) (head : nat) (txn : Z) : Nxfs :=
  {| dev := fs.(dev); sb := fs.(sb); state := fs.(state); cp_blocks := fs.(cp_blocks);
     journal_head := head; next_txn := txn;
     replay_discarded_tail := fs.(replay_discarded_tail); formatted_fresh := fs.(formatted_fresh) |}.

(** A device operation that a failure ends ([?]): the engine keeps the device
    as the operation left it. *)
Definition on_dev {A} (fs : Nxfs) (r : Dev D * result unit NxfsError)
    (k : Nxfs → Nxfs * result A NxfsError) : Nxfs * result A NxfsError :=
  match r with
  | (d, Ok _) => k (with_dev fs d)
  | (d, Err e) => (with_dev fs d, Err e)
  end.

(** ** Transactions *)

Definition region_start (fs : Nxfs) (i : bool) : Z :=
  fs.(sb).(journal_start) + fs.(sb).(journal_blocks) + (if i then fs.(cp_blocks) else 0).

Definition write_checkpoint (fs : Nxfs) : Nxfs * result unit NxfsError :=
  let blob := encode fs.(state) fs.(next_txn) in
  if fs.(cp_blocks) * Z.of_nat LOGICAL_BLOCK_SIZE <? vlen blob then (fs, Err NoSpace)
  else
    let slot_idx := older_slot fs.(sb) in
    let start := region_start fs slot_idx in
    on_dev fs (NxfsDev.write_bytes fs.(dev) start blob) (fun fs =>
    on_dev fs (NxfsDev.sync fs.(dev)) (fun fs =>
    let g := Z.max fs.(sb).(slot0).(generation) fs.(sb).(slot1).(generation) + 1 in
    let slot := {| generation := g; root_lb := start; len_bytes := vlen blob;
                   slot_crc := crc32c blob |} in
    let fs := with_sb fs (set_slot fs.(sb) slot_idx slot) in
    let encoded := sb_encode fs.(sb) in
    on_dev fs (NxfsDev.write fs.(dev) 0 encoded) (fun fs =>
    on_dev fs (NxfsDev.write fs.(dev) (fs.(sb).(sb_total_blocks) - 1) encoded) (fun fs =>
    on_dev fs (NxfsDev.sync fs.(dev)) (fun fs =>
    (with_head fs 0 fs.(next_txn), Ok tt)))))).

(** The loop of [append_journal]; every round writes at least one byte. *)
Fixpoint append_loop (fuel : nat) (d : Dev D) (base : Z) (head : nat) (remaining : bytes)
    : Dev D * result unit NxfsError :=
  match fuel, remaining with
  | S fuel', _ :: _ =>
      let lb := base + Z.of_nat (head / LOGICAL_BLOCK_SIZE) in
      let in_block := (head mod LOGICAL_BLOCK_SIZE)%nat in
      let n := min (length remaining) (LOGICAL_BLOCK_SIZE - in_block) in
      let block := if (in_block =? 0)%nat then Ok (zeros LOGICAL_BLOCK_SIZE)
                   else NxfsDev.read d lb (zeros LOGICAL_BLOCK_SIZE) in
      match block with
      | Err e => (d, Err e)
      | Ok block =>
          match NxfsDev.write d lb (splice block in_block (take n remaining)) with
          | (d', Ok _) => append_loop fuel' d' base (head + n) (drop n remaining)
          | (d', Err e) => (d', Err e)
          end
      end
  | _, _ => (d, Ok tt)
  end.

Definition append_journal (fs : Nxfs) (data : bytes) : Dev D * result unit NxfsError :=
  append_loop (length data) fs.(dev) fs.(sb).(journal_start) fs.(journal_head) data.

Definition rollback (fs : Nxfs) (es : list Extent) (e : NxfsError) : Nxfs * result unit NxfsError :=
  (with_state fs (free_extents fs.(state) es), Err e).

(** The end of [run_txn]: append, sync, apply. *)
Definition commit (fs : Nxfs) (data : bytes) (os : list Op) (rollback_extents : list Extent)
    : Nxfs * result unit NxfsError :=
  match append_journal fs data with
  | (d, Err e) => rollback (with_dev fs d) rollback_extents e
  | (d, Ok _) =>
      match NxfsDev.sync d with
      | (d, Err e) => rollback (with_dev fs d) rollback_extents e
      | (d, Ok _) =>
          let fs := with_head (with_dev fs d) (fs.(journal_head) + length data) (fs.(next_txn) + 1) in
          let '(s, r) := apply_all fs.(state) os in
          (with_state fs s, r)
      end
  end.

Definition run_txn (fs : Nxfs) (os : list Op) (rollback_extents : list Extent)
    : Nxfs * result unit NxfsError :=
  match encode_txn fs.(next_txn) os with
  | Err e => rollback fs rollback_extents e
  | Ok data =>
      let capacity := (Z.to_nat fs.(sb).(journal_blocks) * LOGICAL_BLOCK_SIZE)%nat in
      if (capacity <? fs.(journal_head) + length data)%nat then
        match write_checkpoint fs with
        | (fs, Err e) => rollback fs rollback_extents e
        | (fs, Ok _) =>
            if (capacity <? length data)%nat then rollback fs rollback_extents NoSpace
            else commit fs data os rollback_extents
        end
      else commit fs data os rollback_extents
  end.

(** ** Paths *)

Definition resolve (fs : Nxfs) (path : bytes) : result Z NxfsError :=
  let? parts := split path in walk fs.(state).(dirs) ROOT_OBJECT parts.

Definition resolve_parent (fs : Nxfs) (path : bytes) : result (Z * bytes) NxfsError :=
  let? parts := split path in
  let? p := ok_or (split_last parts) Invalid in
  let? parent := walk_dirs fs.(state).(dirs) ROOT_OBJECT p.2 in
  Ok (parent, p.1).

(** ** Reading *)

(** The loop of [materialize]; [got] is what has been read so far. *)
Fixpoint gather (d : Dev D) (es : list Extent) (size : nat) (got : bytes)
    : result bytes NxfsError :=
  match es with
  | [] => Ok got
  | e :: es' =>
      let extent_bytes := (Z.to_nat e.(blocks) * LOGICAL_BLOCK_SIZE)%nat in
      let remaining := (size - length got)%nat in
      if (remaining =? 0)%nat then Ok got
      else
        let? b := NxfsDev.read_bytes d e.(lb) (min remaining extent_bytes) in
        gather d es' size (got ++ b)
  end.

Definition materialize (fs : Nxfs) (es : list Extent) (size : Z) : result bytes NxfsError :=
  if MAX_FILE_BYTES <? size then Err TooBig
  else
    let? out := gather fs.(dev) es (Z.to_nat size) [] in
    if negb (length out =? Z.to_nat size)%nat then Err Integrity else Ok out.

(** The object a path names. *)
Definition lookup_object (fs : Nxfs) (path : bytes) : result (Z * Object) NxfsError :=
  let? id := resolve fs path in
  let? o := ok_or (fs.(state).(objects) !! id) NotFound in
  Ok (id, o).

Definition stat (fs : Nxfs) (path : bytes) : result (FileKind * Z) NxfsError :=
  let? p := lookup_object fs path in
  Ok (kind_of p.2.(kind), p.2.(size)).

Definition read (fs : Nxfs) (path : bytes) (offset len : Z) : result bytes NxfsError :=
  let? p := lookup_object fs path in
  let o := p.2 in
  if o.(kind) =? KIND_DIR then Err IsDir
  else
    let? content := materialize fs o.(extents) o.(size) in
    let start := Z.to_nat (Z.min offset o.(size)) in
    let stop := Z.to_nat (Z.min (saturating_add 64 (Z.min offset o.(size)) len) (vlen content)) in
    Ok (slice start stop content).

Definition dir_entry (s : State) (table : DirTable) (name : bytes) : DirEntry :=
  let '(child, k) := default (0, 0) (table !! name) in
  {| de_name := name; de_kind := kind_of k;
     de_size := match s.(objects) !! child with Some o => o.(size) | None => 0 end |}.

Definition read_dir (fs : Nxfs) (path : bytes) (cursor limit : Z) : result ReadDirPage NxfsError :=
  let? p := lookup_object fs path in
  if negb (p.2.(kind) =? KIND_DIR) then Err NotDir
  else
    let? table := ok_or (fs.(state).(dirs) !! p.1) Integrity in
    let all := map (dir_entry fs.(state) table) (str_keys table) in
    let limit := Z.min (Z.max limit 1) MAX_ENTRIES_PER_PAGE in
    let start := Z.min cursor (vlen all) in
    let n := Z.min (vlen all - start) limit in
    Ok {| entries := slice (Z.to_nat start) (Z.to_nat (start + n)) all;
          next_cursor := (start + n) mod 2 ^ 32;
          eof := vlen all <=? start + n |}.

(** ** Writing *)

(** A failing step before any change. *)
Definition check {A} (fs : Nxfs) (r : result A NxfsError)
    (k : A → Nxfs * result unit NxfsError) : Nxfs * result unit NxfsError :=
  match r with
  | Ok a => k a
  | Err e => (fs, Err e)
  end.

Definition mknode (fs : Nxfs) (path : bytes) (k : Z) : Nxfs * result unit NxfsError :=
  check fs (resolve_parent fs path) (fun '(parent, name) =>
  check fs (validate_name name) (fun _ =>
  check fs (ok_or (fs.(state).(dirs) !! parent) NotDir) (fun table =>
  if bool_decide (is_Some (table !! name)) then (fs, Err Exists)
  else run_txn fs [MkNode parent fs.(state).(next_object) k name] []))).

Definition create (fs : Nxfs) (path : bytes) : Nxfs * result unit NxfsError := mknode fs path KIND_FILE.
Definition mkdir (fs : Nxfs) (path : bytes) : Nxfs * result unit NxfsError := mknode fs path KIND_DIR.

(** The data loop of [rewrite]; [false] when a write failed. *)
Fixpoint write_extents (d : Dev D) (es : list Extent) (content : bytes) (written : nat)
    : Dev D * bool :=
  match es with
  | [] => (d, true)
  | e :: es' =>
      let extent_bytes := (Z.to_nat e.(blocks) * LOGICAL_BLOCK_SIZE)%nat in
      let stop := min (written + extent_bytes) (length content) in
      match NxfsDev.write_bytes d e.(lb) (slice written stop content) with
      | (d', Ok _) => write_extents d' es' content stop
      | (d', Err _) => (d', false)
      end
  end.

Definition rewrite (fs : Nxfs) (id : Z) (content : bytes) : Nxfs * result unit NxfsError :=
  let n := div_ceil (vlen content) (Z.of_nat LOGICAL_BLOCK_SIZE) in
  match alloc_blocks fs.(state) n with
  | (s, Err e) => (with_state fs s, Err e)
  | (s, Ok es) =>
      let fs := with_state fs s in
      if MAX_EXTENTS_PER_WRITE <? vlen es then rollback fs es NoSpace
      else
        match write_extents fs.(dev) es content 0 with
        | (d, false) => rollback (with_dev fs d) es Io
        | (d, true) => run_txn (with_dev fs d) [Write id (vlen content) es] es
        end
  end.

Definition write (fs : Nxfs) (path : bytes) (offset : Z) (data : bytes) : Nxfs * result unit NxfsError :=
  check fs (lookup_object fs path) (fun '(id, o) =>
  if o.(kind) =? KIND_DIR then (fs, Err IsDir)
  else
    let new_size := Z.max o.(size) (saturating_add 64 offset (vlen data)) in
    if MAX_FILE_BYTES <? new_size then (fs, Err TooBig)
    else
      check fs (materialize fs o.(extents) o.(size)) (fun content =>
      rewrite fs id (splice (resize (Z.to_nat new_size) content) (Z.to_nat offset) data))).

Definition truncate (fs : Nxfs) (path : bytes) (sz : Z) : Nxfs * result unit NxfsError :=
  check fs (lookup_object fs path) (fun '(id, o) =>
  if o.(kind) =? KIND_DIR then (fs, Err IsDir)
  else if MAX_FILE_BYTES <? sz then (fs, Err TooBig)
  else
    check fs (materialize fs o.(extents) o.(size)) (fun content =>
    rewrite fs id (resize (Z.to_nat sz) content))).

(** [kind == KIND_DIR && dirs.get(id).is_some_and(|t| !t.is_empty())]. *)
Definition dir_busy (s : State) (id k : Z) : bool :=
  (k =? KIND_DIR) &&
  match s.(dirs) !! id with
  | Some t => negb (bool_decide (t = ∅))
  | None => false
  end.

Definition remove (fs : Nxfs) (path : bytes) : Nxfs * result unit NxfsError :=
  check fs (resolve_parent fs path) (fun '(parent, name) =>
  check fs (ok_or (fs.(state).(dirs) !! parent) NotDir) (fun table =>
  check fs (ok_or (table !! name) NotFound) (fun '(id, k) =>
  if dir_busy fs.(state) id k then (fs, Err Busy)
  else run_txn fs [Remove parent id name] []))).

Definition rename (fs : Nxfs) (from to : bytes) : Nxfs * result unit NxfsError :=
  check fs (resolve_parent fs from) (fun '(from_parent, from_name) =>
  check fs (resolve_parent fs to) (fun '(to_parent, to_name) =>
  check fs (validate_name to_name) (fun _ =>
  check fs (ok_or (fs.(state).(dirs) !! from_parent) NotDir) (fun from_table =>
  check fs (ok_or (from_table !! from_name) NotFound) (fun '(moving_id, _) =>
  check fs (ok_or (fs.(state).(dirs) !! to_parent) NotDir) (fun to_table =>
  match to_table !! to_name with
  | None => run_txn fs [Rename from_parent from_name to_parent to_name 0] []
  | Some (existing, k) =>
      if existing =? moving_id then (fs, Ok tt)
      else if dir_busy fs.(state) existing k then (fs, Err Busy)
      else run_txn fs [Rename from_parent from_name to_parent to_name existing] []
  end)))))).

Definition sync (fs : Nxfs) : Nxfs * result unit NxfsError :=
  let '(d, r) := NxfsDev.sync fs.(dev) in (with_dev fs d, r).

(** ** Formatting and mounting *)

Definition mkfs (device : D) (opts : MkfsOptions) : result Nxfs NxfsError :=
  let? d := dev_new device in
  let total := d.(logical_blocks) in
  let cp := checkpoint_blocks total in
  let jb := opts.(opt_journal_blocks) in
  if (total <? 1 + jb + 2 * cp + 8) || (jb =? 0) then Err NoSpace
  else
    let? block := NxfsDev.read d 0 (zeros LOGICAL_BLOCK_SIZE) in
    if is_ok (sb_decode block) then Err Exists
    else
      let fs := {| dev := d;
                   sb := {| uuid := opts.(opt_uuid); sb_total_blocks := total; journal_start := 1;
                            journal_blocks := jb; slot0 := default_slot; slot1 := default_slot;
                            enc_mode := 0 |};
                   state := new_empty total (1 + jb + 2 * cp); cp_blocks := cp;
                   journal_head := 0; next_txn := 1; replay_discarded_tail := false;
                   formatted_fresh := true |} in
      let '(fs, r) := write_checkpoint fs in
      let? _ := r in Ok fs.

Definition read_superblock (d : Dev D) (total : Z) : result Superblock NxfsError :=
  let? block := NxfsDev.read d 0 (zeros LOGICAL_BLOCK_SIZE) in
  match sb_decode block with
  | Ok x => Ok x
  | Err _ =>
      let? block := NxfsDev.read d (total - 1) block in
      sb_decode block
  end.

(** One slot of the loop that loads a checkpoint: [None] is [continue]. *)
Definition load_slot (d : Dev D) (x : Superblock) (total data_start : Z) (i : bool)
    : option (State * Z) :=
  let slot := get_slot x i in
  if slot.(generation) =? 0 then None
  else
    match NxfsDev.read_bytes d slot.(root_lb) (Z.to_nat slot.(len_bytes)) with
    | Err _ => None
    | Ok blob =>
        if negb (crc32c blob =? slot.(slot_crc)) then None
        else match decode blob total data_start with Ok p => Some p | Err _ => None end
    end.

(** The journal region up to the first all-zero block. *)
Fixpoint read_journal (d : Dev D) (lb : Z) (n : nat) (block : bytes) : result bytes NxfsError :=
  match n with
  | O => Ok []
  | S n' =>
      let? b := NxfsDev.read d lb block in
      if forallb (fun x => x =? 0) b then Ok b
      else let? rest := read_journal d (lb + 1) n' b in Ok (b ++ rest)
  end.

Definition mount (device : D) : result Nxfs NxfsError :=
  let? d := dev_new device in
  let total := d.(logical_blocks) in
  let? x := read_superblock d total in
  let cp := checkpoint_blocks total in
  let ds := x.(journal_start) + x.(journal_blocks) + 2 * cp in
  let? first := ok_or (newest_slot x) Integrity in
  let? loaded := ok_or (match load_slot d x total ds first with
                        | Some p => Some p
                        | None => load_slot d x total ds (negb first)
                        end) Integrity in
  let? region := read_journal d x.(journal_start) (Z.to_nat x.(journal_blocks))
                   (zeros LOGICAL_BLOCK_SIZE) in
  let replayed := replay region loaded.2 in
  let '(s, r) := apply_all loaded.1 replayed.(ops) in
  let? _ := r in
  Ok {| dev := d; sb := x; state := s; cp_blocks := cp;
        journal_head := replayed.(write_head); next_txn := replayed.(NxfsJournal.next_txn);
        replay_discarded_tail := replayed.(discarded); formatted_fresh := false |}.

Definition open_or_format (device : D) (opts : MkfsOptions) : result Nxfs NxfsError :=
  let? d := dev_new device in
  let? block := NxfsDev.read d 0 (zeros LOGICAL_BLOCK_SIZE) in
  if is_ok (sb_decode block) then mount (into_inner d) else mkfs (into_inner d) opts.

Definition into_device (fs : Nxfs) : D := into_inner fs.(dev).

(** ** fsck *)

Inductive FsckOutcome :=
| Clean
| Repaired
| Unrecoverable.

Record FsckReport := {
  outcome : FsckOutcome;
  orphan_tail : bool;
  repaired : bool
}.

Definition fsck (device : D) (repair : bool) : FsckReport * option D :=
  match mount device with
  | Err _ => ({| outcome := Unrecoverable; orphan_tail := false; repaired := false |}, None)
  | Ok fs =>
      if negb fs.(replay_discarded_tail) then
        ({| outcome := Clean; orphan_tail := false; repaired := false |}, Some (into_device fs))
      else
        let '(fs, ok) := if repair then let '(fs, r) := write_checkpoint fs in (fs, is_ok r)
                         else (fs, false) in
        ({| outcome := Repaired; orphan_tail := true; repaired := ok |}, Some (into_device fs))
  end.

End Engine.
Arguments Nxfs : clear implicits.
End Fs.
