(* ===== verification/NxfsLog.v ===== *)
(** The journal region on disk: what [append_journal] writes and what a mount
    reads back. *)

From S2P Require Import Prelude Bytes Storage NxfsFormat NxfsJournal NxfsJournalProps NxfsState NxfsCheckpoint NxfsDev Nxfs.

(** The next multiple of the block size. *)
Definition round_up (n : nat) : nat := (blocks_for n * LB)%nat.

Lemma round_up_ge n : (n ≤ round_up n)%nat.
Proof. apply blocks_for_ge. Qed.

Lemma div_mod_LB n : n = (n / LB * LB + n mod LB)%nat.
Proof. pose proof LB_pos. pose proof (Nat.div_mod n LB). lia. Qed.

Lemma mod_LB n : (n mod LB < LB)%nat.
Proof. apply Nat.mod_upper_bound. pose proof LB_pos. lia. Qed.

Lemma blocks_for_mult k : blocks_for (k * LB) = k.
Proof.
  unfold blocks_for. pose proof LB_pos. rewrite Nat.add_comm, Nat.div_add by lia.
  rewrite Nat.div_small by lia. lia.
Qed.

Lemma blocks_for_le n k : (n ≤ k * LB)%nat → (blocks_for n ≤ k)%nat.
Proof.
  intros Hn. rewrite <- (blocks_for_mult k). unfold blocks_for.
  apply Nat.Div0.div_le_mono. lia.
Qed.

Lemma blocks_for_part n : (n mod LB ≠ 0)%nat → blocks_for n = S (n / LB).
Proof.
  intros Hm. unfold blocks_for. pose proof (div_mod_LB n) as Hn. pose proof (mod_LB n). pose proof LB_pos.
  rewrite Hn at 1. replace (n / LB * LB + n mod LB + (LB - 1))%nat with ((n mod LB - 1) + (S (n / LB)) * LB)%nat by nia.
  rewrite Nat.div_add by lia. rewrite Nat.div_small by lia. lia.
Qed.

Lemma round_up_mult k : round_up (k * LB) = (k * LB)%nat.
Proof. unfold round_up. by rewrite blocks_for_mult. Qed.

(** Inside a block, rounding up reaches the end of the block. *)
Lemma round_up_block n m :
  (0 < m)%nat → (n mod LB + m ≤ LB)%nat → round_up (n + m) = (n / LB * LB + LB)%nat.
Proof.
  intros Hm Hle. unfold round_up. pose proof (div_mod_LB n) as Hn. pose proof LB_pos.
  replace (n + m)%nat with ((n mod LB + m) + (n / LB) * LB)%nat by lia. unfold blocks_for.
  replace (n mod LB + m + n / LB * LB + (LB - 1))%nat
    with ((n mod LB + m - 1) + (S (n / LB)) * LB)%nat by nia.
  rewrite Nat.div_add by lia. rewrite Nat.div_small by lia. lia.
Qed.

Lemma slice_zeros_split (l : bytes) a b c :
  (a ≤ b ≤ c)%nat → (c ≤ length l)%nat → slice a c l = zeros (c - a) → slice b c l = zeros (c - b).
Proof.
  intros Hab Hc Hz. replace (slice b c l) with (drop (b - a) (slice a c l)).
  - rewrite Hz, drop_zeros. f_equal. lia.
  - unfold slice. rewrite skipn_firstn_comm, drop_drop. f_equal; [lia|]. f_equal. lia.
Qed.

Section Append.
Context {D : Type} `{BlockStore D}.

(** Zeros from the head to the end of its block. *)
Definition clean_tail (img : bytes) (j0 head : nat) : Prop :=
  (head mod LB)%nat ≠ 0%nat → slice (j0 + head) (j0 + round_up head) img = zeros (round_up head - head).

(** A run and the zeros that fill its last block. *)
Definition run_pad (head : nat) (data : bytes) : bytes :=
  data ++ zeros (round_up (head + length data) - (head + length data)).

Lemma run_pad_length head data :
  (head + length (run_pad head data) = round_up (head + length data))%nat.
Proof. unfold run_pad. rewrite length_app, length_zeros. pose proof (round_up_ge (head + length data)). lia. Qed.

(** One round: the block with [part] spliced in at the head is the image with
    [part] and zeros spliced in. *)
Lemma append_block img j0 head part :
  let off := (j0 + head / LB * LB)%nat in
  (off + LB ≤ length img)%nat → (head mod LB + length part ≤ LB)%nat → (0 < length part)%nat →
  clean_tail img j0 head →
  splice img off (splice (if (head mod LB =? 0)%nat then zeros LB else slice off (off + LB) img)
                    (head mod LB) part) =
  splice img (j0 + head) (run_pad head part).
Proof.
  intros off Hl Hp Hpos Hclean. pose proof (div_mod_LB head) as Hh. pose proof LB_pos as HLB.
  assert (Hru : round_up (head + length part) = (head / LB * LB + LB)%nat) by (by apply round_up_block).
  pose proof (run_pad_length head part) as Hrl. rewrite Hru in Hrl.
  destruct (Nat.eqb_spec (head mod LB) 0) as [E|E].
  - rewrite E in *. replace (j0 + head)%nat with off by (unfold off; lia). f_equal.
    unfold splice, run_pad. rewrite take_0, Nat.add_0_l, drop_zeros. cbn [app]. do 2 f_equal. lia.
  - specialize (Hclean E). rewrite splice_window by lia.
    replace (off + head mod LB)%nat with (j0 + head)%nat by (unfold off; lia).
    assert (Hru2 : round_up head = (head / LB * LB + LB)%nat).
    { unfold round_up. rewrite blocks_for_part by done. lia. }
    rewrite Hru2 in Hclean. apply list_eq. intros i.
    rewrite !splice_lookup by (unfold off in *; rewrite ?Hrl; lia).
    destruct (decide (j0 + head ≤ i < j0 + head + length part)%nat) as [Hi|Hi].
    + rewrite decide_True by lia. unfold run_pad. by rewrite lookup_app_l by lia.
    + destruct (decide (j0 + head ≤ i < j0 + head + length (run_pad head part))%nat) as [Hi2|]; [|done].
      unfold run_pad. rewrite lookup_app_r by lia.
      assert (Hz : slice (j0 + head) (j0 + (head / LB * LB + LB)) img !! (i - (j0 + head))%nat = Some 0).
      { rewrite Hclean. unfold zeros. apply lookup_replicate_2. lia. }
      rewrite slice_lookup, decide_True in Hz by lia.
      replace (j0 + head + (i - (j0 + head)))%nat with i in Hz by lia. rewrite Hz. symmetry.
      unfold zeros. apply lookup_replicate_2. rewrite Hru. lia.
Qed.

(** Appending splices the run and its padding in at the head. *)
Lemma append_loop_spec fuel (d : Dev D) base head data cap :
  dev_ok d → 0 ≤ base → base + Z.of_nat cap ≤ d.(logical_blocks) →
  (length data ≤ fuel)%nat → (head + length data ≤ cap * LB)%nat → Forall is_byte data → data ≠ [] →
  clean_tail (image d) (lb_off base) head →
  ∃ d', Fs.append_loop fuel d base head data = (d', Ok tt) ∧ dev_same d d' ∧
        image d' = splice (image d) (lb_off base + head) (run_pad head data).
Proof.
  revert d head data. induction fuel as [|fuel IH]; intros d head data Hd Hbase Hcap Hf Hroom Hb Hne Hclean.
  - destruct data; [done|]. simpl in Hf. lia.
  - assert (Hunf : ∀ x l, data = x :: l → Fs.append_loop (S fuel) d base head data =
      let lb := base + Z.of_nat (head / LB) in
      let in_block := (head mod LB)%nat in
      let n := min (length data) (LB - in_block) in
      match (if (in_block =? 0)%nat then Ok (zeros LB) else NxfsDev.read d lb (zeros LB)) with
      | Err e => (d, Err e)
      | Ok block =>
          match NxfsDev.write d lb (splice block in_block (take n data)) with
          | (d', Ok _) => Fs.append_loop fuel d' base (head + n) (drop n data)
          | (d', Err e) => (d', Err e)
          end
      end) by (by intros x l ->).
    destruct data as [|x l] eqn:Edata; [done|]. rewrite <- Edata in *. rewrite (Hunf x l) by done. clear Hunf.
    assert (Hdl : (0 < length data)%nat) by (rewrite Edata; simpl; lia).
    clear Edata x l. cbn zeta. pose proof (div_mod_LB head) as Hh. pose proof (mod_LB head) as Hm. pose proof LB_pos as HLB.
    set (n := min (length data) (LB - head mod LB)).
    assert (Hn : (0 < n ≤ length data)%nat) by lia.
    set (lb := base + Z.of_nat (head / LB)).
    assert (Hlb : 0 ≤ lb < logical_blocks d).
    { unfold lb. split; [lia|]. assert (head / LB < cap)%nat by nia. lia. }
    assert (Hoff : lb_off lb = (lb_off base + head / LB * LB)%nat) by (unfold lb_off, lb; nia).
    pose proof (image_room d lb Hd Hlb) as Hir.
    assert (Hblock : (if (head mod LB =? 0)%nat then Ok (zeros LB) else NxfsDev.read d lb (zeros LB)) =
              Ok (if (head mod LB =? 0)%nat then zeros LB else slice (lb_off lb) (lb_off lb + LB) (image d))).
    { destruct (head mod LB =? 0)%nat; [done|]. apply read_spec; [done..|apply length_zeros]. }
    rewrite Hblock. clear Hblock. set (block := if (head mod LB =? 0)%nat then _ else _).
    assert (Hbl : length block = LB).
    { unfold block. destruct (head mod LB =? 0)%nat; [apply length_zeros|]. rewrite slice_length; lia. }
    assert (Htl : length (take n data) = n) by (rewrite length_take; lia).
    destruct (write_spec d lb (splice block (head mod LB) (take n data))) as (d1 & Hw & Hsame & Himg); [done..| | |].
    { rewrite splice_length; lia. }
    { apply splice_byte; [|by apply Forall_take]. unfold block.
      destruct (head mod LB =? 0)%nat; [apply zeros_byte|by apply slice_byte, image_byte]. }
    rewrite Hw. unfold block in Himg. rewrite Hoff in Himg, Hir. rewrite append_block in Himg by (done || lia).
    destruct (decide (n = length data)) as [En|En].
    + rewrite En, drop_ge by lia. exists d1. split; [by destruct fuel|]. split; [done|].
      rewrite Himg. rewrite (take_ge data) by lia. done.
    + assert (HnLB : n = (LB - head mod LB)%nat) by lia.
      assert (Hhd : (head + n)%nat = (S (head / LB) * LB)%nat) by lia.
      assert (Hpad : run_pad head (take n data) = take n data).
      { unfold run_pad. rewrite Htl, Hhd, round_up_mult, Nat.sub_diag. cbn [zeros replicate]. apply app_nil_r. }
      rewrite Hpad in Himg.
      destruct (IH d1 (head + n)%nat (drop n data)) as (d2 & Hw2 & Hs2 & Hi2).
      * apply Hsame. * done. * by rewrite (ds_logical _ _ Hsame). * rewrite length_drop. lia.
      * rewrite length_drop. lia. * by apply Forall_drop.
      * intros E. apply (f_equal length) in E. rewrite length_drop in E. simpl in E. lia.
      * intros Hmod. exfalso. apply Hmod. rewrite Hhd. apply Nat.Div0.mod_mul.
      * exists d2. split; [done|]. split; [by eapply dev_same_trans|].
        rewrite Hi2, Himg.
        replace (lb_off base + (head + n))%nat with (lb_off base + head + length (take n data))%nat by lia.
        assert (Hrp : take n data ++ run_pad (head + n) (drop n data) = run_pad head data).
        { unfold run_pad. rewrite length_drop, app_assoc, take_drop.
          replace (head + n + (length data - n))%nat with (head + length data)%nat by lia. done. }
        rewrite splice_splice; [by rewrite Hrp|]. rewrite Htl.
        pose proof (run_pad_length (head + n) (drop n data)) as Hrl. rewrite length_drop in Hrl.
        replace (head + n + (length data - n))%nat with (head + length data)%nat in Hrl by lia.
        assert (round_up (head + length data) ≤ cap * LB)%nat.
        { unfold round_up. apply Nat.mul_le_mono_r. by apply blocks_for_le. }
        pose proof (image_room d (base + Z.of_nat cap - 1) Hd) as Hend. unfold lb_off in *.
        assert (0 < cap)%nat by nia. specialize (Hend ltac:(lia)). nia.
Qed.

(** ** Reading the region back *)

Definition block_zero (b : bytes) : bool := forallb (fun x => x =? 0) b.

Lemma block_zero_zeros b : block_zero b = true → b = zeros (length b).
Proof.
  intros Hb. unfold block_zero in Hb. rewrite forallb_forall in Hb. apply list_eq. intros i.
  destruct (b !! i) as [x|] eqn:E.
  - apply list_elem_of_lookup_2 in E as Hin. apply list_elem_of_In in Hin. apply Hb in Hin.
    apply Z.eqb_eq in Hin as ->. unfold zeros. symmetry. apply lookup_replicate_2. by eapply lookup_lt_Some.
  - symmetry. apply lookup_ge_None in E. apply lookup_ge_None. by rewrite length_zeros.
Qed.

(** A mount reads [k] blocks of the region: all, or up to the first zero one. *)
Lemma read_journal_spec n (d : Dev D) base block :
  dev_ok d → 0 ≤ base → base + Z.of_nat n ≤ d.(logical_blocks) → length block = LB →
  ∃ k, (k ≤ n)%nat ∧
    Fs.read_journal d base n block = Ok (slice (lb_off base) (lb_off base + k * LB) (image d)) ∧
    (k = n ∨ ∃ i, k = S i ∧
       block_zero (slice (lb_off base + i * LB) (lb_off base + i * LB + LB) (image d)) = true).
Proof.
  intros Hd. revert base block. induction n as [|n IH]; intros base block Hbase Hroom Hbl; cbn [Fs.read_journal].
  - exists 0%nat. split; [lia|]. split; [|by left]. unfold slice.
    by rewrite Nat.mul_0_l, Nat.add_0_r, Nat.sub_diag, take_0.
  - rewrite read_spec by (done || lia). cbn [result_bind].
    set (b := slice (lb_off base) (lb_off base + LB) (image d)).
    pose proof (image_room d base Hd ltac:(lia)) as Hir.
    assert (Hl : length b = LB) by (unfold b; rewrite slice_length; lia).
    change (forallb (fun x => x =? 0) b) with (block_zero b). destruct (block_zero b) eqn:Ez.
    + exists 1%nat. split; [lia|]. rewrite Nat.mul_1_l. split; [done|]. right. exists 0%nat.
      split; [done|]. by rewrite Nat.mul_0_l, Nat.add_0_r.
    + destruct (IH (base + 1) b) as (k & Hk & Hr & Hend); [lia..|done|]. rewrite Hr. cbn [result_bind].
      assert (Hoff : lb_off (base + 1) = (lb_off base + LB)%nat).
      { unfold lb_off. replace (Z.to_nat (base + 1)) with (S (Z.to_nat base)) by lia. lia. }
      exists (S k). split; [lia|]. rewrite Hoff in *. split.
      * f_equal. unfold b. rewrite slice_slice_app by lia. f_equal. lia.
      * destruct Hend as [->|(i & -> & Hi)]; [by left|]. right. exists (S i). split; [done|].
        replace (lb_off base + S i * LB)%nat with (lb_off base + LB + i * LB)%nat by lia. done.
Qed.
End Append.

(** ** Blocks of the journal are not zero *)

Definition record_like (r : bytes) : Prop := r !! 0%nat = Some 78 ∧ (length r ≤ 3671)%nat.

Lemma push_record_like txn kind p :
  vlen p ≤ MAX_PAYLOAD + MAX_EXTENTS_PER_WRITE * 12 → record_like (push_record txn kind p).
Proof.
  intros Hl. split; [done|]. rewrite push_record_length. unfold vlen in Hl.
  assert (Hmax : MAX_PAYLOAD + MAX_EXTENTS_PER_WRITE * 12 = 3650) by reflexivity. lia.
Qed.

Lemma encode_ops_records txn os body :
  Forall op_ok os → encode_ops txn os = Ok body →
  ∃ rs, body = concat rs ∧ Forall record_like rs ∧ Forall is_byte body.
Proof.
  intros Hok. revert body. induction Hok as [|o os Ho _ IH]; intros body He; cbn [encode_ops] in He.
  - apply Ok_inj in He as <-. by exists [].
  - destruct (op_roundtrip o Ho) as (kind & p & Heo & _ & Hk & Hpb & Hpl). rewrite Heo in He.
    cbn [result_bind fst snd] in He. destruct (encode_ops txn os) as [body'|] eqn:Eb; [|done].
    cbn [result_bind] in He. apply Ok_inj in He as <-. destruct (IH body' eq_refl) as (rs & -> & Hrs & Hb).
    exists (push_record txn kind p :: rs). split; [done|]. split.
    + apply Forall_cons_2; [by apply push_record_like|done].
    + apply Forall_app_2; [|done]. apply push_record_byte; [|done].
      unfold is_byte, KIND_MKNODE, KIND_RENAME in *. lia.
Qed.

Lemma encode_txn_records txn os data :
  Forall op_ok os → encode_txn txn os = Ok data →
  ∃ rs, data = concat rs ∧ Forall record_like rs ∧ Forall is_byte data ∧ data ≠ [].
Proof.
  intros Hok He. unfold encode_txn in He. destruct (encode_ops txn os) as [body|] eqn:Eb; [|done].
  cbn [result_bind] in He. apply Ok_inj in He as <-.
  destruct (encode_ops_records txn os body Hok Eb) as (rs & -> & Hrs & Hb). destruct empty_payload as [_ Hl].
  exists (push_record txn KIND_BEGIN [] :: rs ++ [push_record txn KIND_COMMIT []]). split_and!.
  - cbn [concat]. rewrite concat_app. cbn [concat]. by rewrite app_nil_r.
  - apply Forall_cons_2; [by apply push_record_like|]. apply Forall_app_2; [done|].
    apply Forall_cons_2; [by apply push_record_like|constructor].
  - apply Forall_app_2; [|apply Forall_app_2; [done|]];
      (apply push_record_byte; [unfold is_byte, KIND_BEGIN, KIND_COMMIT; lia|constructor]).
  - intros E. apply (f_equal length) in E. rewrite length_app, push_record_length in E. simpl in E. lia.
Qed.

Lemma encode_journal_records txns data :
  Forall txn_ok txns → encode_journal txns = Ok data →
  ∃ rs, data = concat rs ∧ Forall record_like rs ∧ Forall is_byte data.
Proof.
  intros Hok. revert data. induction Hok as [|[t os] txns [Ht Hos] _ IH]; intros data He;
    cbn [encode_journal] in He.
  - apply Ok_inj in He as <-. by exists [].
  - destruct (encode_txn t os) as [d|] eqn:Ed; [|done]. cbn [result_bind] in He.
    destruct (encode_journal txns) as [r|] eqn:Er; [|done]. cbn [result_bind] in He.
    apply Ok_inj in He as <-. destruct (encode_txn_records t os d Hos Ed) as (rs & -> & Hrs & Hb & _).
    destruct (IH r eq_refl) as (rs' & -> & Hrs' & Hb'). exists (rs ++ rs'). split_and!.
    + by rewrite concat_app.
    + by apply Forall_app_2.
    + by apply Forall_app_2.
Qed.

(** In every window as long as a record, some record starts. *)
Lemma records_window rs i :
  Forall record_like rs → (i + 3671 ≤ length (concat rs))%nat →
  ∃ j, (i ≤ j < i + 3671)%nat ∧ concat rs !! j = Some 78.
Proof.
  intros Hrs. revert i. induction Hrs as [|r rs [Hr Hl] Hrs IH]; intros i Hi; cbn [concat] in *.
  - simpl in Hi. lia.
  - assert (Hrp : (0 < length r)%nat) by (apply lookup_lt_Some in Hr; lia).
    rewrite length_app in Hi. destruct (decide (i = 0%nat)) as [->|Hi0].
    + exists 0%nat. split; [lia|]. by rewrite lookup_app_l.
    + destruct (decide (length r ≤ i)%nat) as [Hge|Hlt].
      * destruct (IH (i - length r)%nat ltac:(lia)) as (j & Hj & Hx). exists (length r + j)%nat.
        split; [lia|]. rewrite lookup_app_r by lia. by replace (length r + j - length r)%nat with j by lia.
      * exists (length r). split; [lia|]. rewrite lookup_app_r by lia. rewrite Nat.sub_diag.
        inversion Hrs as [|r' rs' [Hr' _] _]; subst; [simpl in Hi; lia|]. cbn [concat].
        rewrite lookup_app_l; [done|]. by apply lookup_lt_Some in Hr'.
Qed.

(** ** Replay of a journal with something behind it *)

Lemma run_zero_first min s l : run min s (0 :: l) = s.
Proof.
  rewrite run_unfold. destruct (_ <? _)%nat; [done|]. unfold parse_record.
  rewrite bool_decide_eq_false_2; [done|]. unfold slice. cbn [drop take Nat.sub]. done.
Qed.

(** Runs that differ only in what is committed already. *)
Record runs_alike (c : list Op) (s t : replay_state) : Prop := {
  alike_committed : s.(committed) = c ++ t.(committed);
  alike_pending : s.(pending) = t.(pending);
  alike_txn : s.(pending_txn) = t.(pending_txn)
}.

Lemma step_alike min c s t txn kind p n :
  runs_alike c s t → runs_alike c (replay_step min s txn kind p n) (replay_step min t txn kind p n).
Proof.
  intros [Hc Hp Ht]. unfold replay_step. rewrite Ht, Hp.
  destruct (kind =? KIND_BEGIN); [by split|]. destruct (kind =? KIND_COMMIT).
  - destruct (bool_decide _); [|by split]. split; cbn [committed pending pending_txn]; try done.
    destruct (min <=? txn); [|done]. by rewrite Hc, app_assoc.
  - destruct (bool_decide _); [|by split]. by destruct (decode_op kind p); split.
Qed.

Lemma run_alike min c s t rest :
  runs_alike c s t → runs_alike c (run min s rest) (run min t rest).
Proof.
  unfold run. generalize (S (length rest)). intros fuel. revert s t rest.
  induction fuel as [|fuel IH]; intros s t rest Hst; cbn [replay_loop]; [done|].
  destruct (_ <? _)%nat; [done|]. destruct (parse_record rest) as [[[[txn kind] p] n]|]; [|done].
  apply IH. by apply step_alike.
Qed.

(** The operations a mount applies when only [quiet] bytes follow the journal. *)
Lemma replay_journal_tail min txns data tail :
  Forall txn_ok txns → encode_journal txns = Ok data → (replay tail min).(ops) = [] →
  (replay (data ++ tail) min).(ops) = live_ops min txns.
Proof.
  intros Hok Hd Hq. rewrite replay_run, (run_journal _ txns) by done. cbn [replay_finish ops].
  assert (Hal : runs_alike (live_ops min txns) (journal_state min replay_start txns (length data)) replay_start).
  { split; cbn [journal_state replay_start committed pending pending_txn]; [|done..]. by rewrite app_nil_r. }
  apply (run_alike min _ _ _ tail) in Hal as [Hc _ _]. rewrite Hc.
  rewrite replay_run in Hq. cbn [replay_finish ops] in Hq. rewrite Hq. apply app_nil_r.
Qed.

Lemma live_ops_all min (txns : list (Z * list Op)) :
  Forall (fun p => min ≤ p.1) txns → live_ops min txns = concat (map snd txns).
Proof.
  intros Hf. unfold live_ops. do 2 f_equal. induction Hf as [|p txns Hp _ IH]; [done|].
  rewrite filter_cons, decide_True by done. by f_equal.
Qed.
