(* ===== verification/NxfsInv.v ===== *)
(** The invariant between the memory and the disk of a mounted nxfs, and what a
    mount makes of a disk in that shape. *)

From S2P Require Import Prelude Bytes Storage NxfsFormat NxfsJournal NxfsJournalProps NxfsState NxfsStateProps NxfsTree NxfsCheckpoint NxfsDev Nxfs NxfsLog.

Lemma checkpoint_blocks_bound total : 16 ≤ checkpoint_blocks total ≤ 2048.
Proof. unfold checkpoint_blocks. lia. Qed.

(** *** Encodings are byte strings *)

Lemma concat_map_byte {A} (f : A → bytes) l :
  (∀ x, x ∈ l → Forall is_byte (f x)) → Forall is_byte (concat (map f l)).
Proof.
  induction l as [|x l IH]; intros Hf; cbn [map concat]; [constructor|].
  apply Forall_app_2; [apply Hf; by left|apply IH; intros; apply Hf; by right].
Qed.

Lemma kind_byte k : k = KIND_FILE ∨ k = KIND_DIR → Forall is_byte [k].
Proof.
  unfold KIND_FILE, KIND_DIR. intros H. apply Forall_cons_2; [unfold is_byte; lia|constructor].
Qed.

Lemma encode_byte s txn : state_ok s → Forall is_byte (encode s txn).
Proof.
  intros Hs. unfold encode. repeat (apply Forall_app_2; [apply le_bytes_byte|]).
  apply Forall_app_2; [|apply Forall_app_2; [apply le_bytes_byte|]].
  - apply concat_map_byte. intros id [o Ho]%sorted_keys_elem. unfold encode_object. rewrite Ho.
    apply Forall_app_2; [apply le_bytes_byte|]. apply Forall_app_2; [apply kind_byte, (ok_objects s Hs id o Ho)|].
    repeat (apply Forall_app_2; [apply le_bytes_byte|]). apply extents_size.
  - apply concat_map_byte. intros id [t Ht]%sorted_keys_elem. unfold encode_dir. rewrite Ht.
    repeat (apply Forall_app_2; [apply le_bytes_byte|]). apply concat_map_byte.
    intros n [[c k] Hn]%str_keys_elem. unfold encode_dirent. rewrite Hn.
    assert (He : entry s id n c k) by (by exists t).
    apply (ok_entries s Hs) in He as (Hname & _ & o & Ho & <-).
    apply Forall_app_2; [by apply push_name_size|]. apply Forall_app_2; [apply le_bytes_byte|].
    apply kind_byte, (ok_objects s Hs c o Ho).
Qed.

Lemma encode_nonempty s txn : encode s txn ≠ [].
Proof. intros E. apply (f_equal length) in E. unfold encode in E. rewrite length_app, le_bytes_length in E. simpl in E. lia. Qed.

(** The encoding does not depend on the bitmap. *)
Lemma encode_bitmap s b txn : encode (with_bitmap s b) txn = encode s txn.
Proof. done. Qed.

Section Inv.
Context {D : Type} `{BlockStore D}.
Abbreviation Nxfs := (Fs.Nxfs D).
Implicit Types fs : Nxfs.

Abbreviation img fs := (image fs.(Fs.dev)).
Abbreviation total fs := fs.(Fs.dev).(logical_blocks).
Abbreviation jblocks fs := fs.(Fs.sb).(journal_blocks).

(** The layout: superblock, journal, two checkpoint regions, data, mirror. *)
Record fs_geo (fs : Nxfs) : Prop := {
  geo_dev : dev_ok fs.(Fs.dev);
  geo_new : dev_new fs.(Fs.dev).(inner) = Ok fs.(Fs.dev);
  geo_sb : sb_ok fs.(Fs.sb);
  geo_total : fs.(Fs.sb).(sb_total_blocks) = total fs;
  geo_start : fs.(Fs.sb).(journal_start) = 1;
  geo_journal : 0 < jblocks fs;
  geo_cp : fs.(Fs.cp_blocks) = checkpoint_blocks (total fs);
  geo_room : 1 + jblocks fs + 2 * fs.(Fs.cp_blocks) + 8 ≤ total fs
}.

(** The shape a state has in this container. *)
Definition fits (fs : Nxfs) (s : State) : Prop :=
  state_ok s ∧ s.(total_blocks) = total fs ∧
  s.(data_start) = 1 + jblocks fs + 2 * fs.(Fs.cp_blocks).

Definition journal_off : nat := lb_off 1.

(** The disk holds the superblock and a checkpoint of [s0] with watermark [wm]
    in the newest slot. *)
Record cp_on_disk (fs : Nxfs) (s0 : State) (wm : Z) : Prop := {
  disk_sb : slice 0 LB (img fs) = sb_encode fs.(Fs.sb);
  disk_slot : ∃ i g, newest_slot fs.(Fs.sb) = Some i ∧ 0 < g ∧
    get_slot fs.(Fs.sb) i =
      {| generation := g; root_lb := Fs.region_start fs i; len_bytes := vlen (encode s0 wm);
         slot_crc := crc32c (encode s0 wm) |} ∧
    slice (lb_off (Fs.region_start fs i)) (lb_off (Fs.region_start fs i) + length (encode s0 wm)) (img fs)
      = encode s0 wm;
  disk_len : vlen (encode s0 wm) ≤ fs.(Fs.cp_blocks) * Z.of_nat LB;
  disk_cp : fits fs s0;
  disk_wm : in_width 64 wm
}.

(** The journal holds the transactions [txns], encoded as [log]; applied to the
    checkpoint they give the state in memory. *)
Record on_disk (fs : Nxfs) (s0 : State) (wm : Z) (txns : list (Z * list Op)) (log : bytes) : Prop := {
  disk_base : cp_on_disk fs s0 wm;
  disk_log : encode_journal txns = Ok log;
  disk_head : length log = fs.(Fs.journal_head);
  disk_cap : (fs.(Fs.journal_head) ≤ Z.to_nat (jblocks fs) * LB)%nat;
  disk_bytes : slice journal_off (journal_off + fs.(Fs.journal_head)) (img fs) = log;
  disk_tail : clean_tail (img fs) journal_off fs.(Fs.journal_head);
  disk_txns : Forall txn_ok txns;
  disk_live : Forall (fun p => wm ≤ p.1) txns;
  disk_state : apply_all s0 (concat (map snd txns)) = (fs.(Fs.state), Ok tt)
}.

(** The counters stay below [n]. *)
Record counted (n : Z) (fs : Nxfs) : Prop := {
  cnt_gen0 : 0 ≤ fs.(Fs.sb).(slot0).(generation) ≤ n;
  cnt_gen1 : 0 ≤ fs.(Fs.sb).(slot1).(generation) ≤ n;
  cnt_txn : 1 ≤ fs.(Fs.next_txn) ≤ n;
  cnt_obj : fs.(Fs.state).(next_object) ≤ n;
  cnt_n : n < 2 ^ 63
}.

Record inv (n : Z) (fs : Nxfs) : Prop := {
  inv_geo : fs_geo fs;
  inv_state : fits fs fs.(Fs.state);
  inv_count : counted n fs;
  inv_disk : ∃ s0 wm txns log, on_disk fs s0 wm txns log ∧
    wm ≤ fs.(Fs.next_txn) ∧ Forall (fun p => p.1 < fs.(Fs.next_txn)) txns
}.

Lemma apply_all_app s a b :
  apply_all s (a ++ b) =
    match apply_all s a with
    | (s', Ok _) => apply_all s' b
    | (s', Err e) => (s', Err e)
    end.
Proof.
  revert s. induction a as [|o a IH]; intros s; cbn [app apply_all]; [done|].
  destruct (apply s o) as [s' []]; [apply IH|done].
Qed.

Lemma lb_off_mono a b : 0 ≤ a ≤ b → (lb_off a ≤ lb_off b)%nat.
Proof. intros. unfold lb_off. apply Nat.mul_le_mono_r. lia. Qed.

Lemma lb_off_add a b : 0 ≤ a → 0 ≤ b → lb_off (a + b) = (lb_off a + lb_off b)%nat.
Proof. intros. unfold lb_off. rewrite Z2Nat.inj_add by done. lia. Qed.

Lemma lb_off_nat n : lb_off (Z.of_nat n) = (n * LB)%nat.
Proof. unfold lb_off. by rewrite Nat2Z.id. Qed.

(** *** Mounting *)

(** What a mount reads of the journal. *)
Definition journal_region (fs : Nxfs) : bytes :=
  match Fs.read_journal fs.(Fs.dev) fs.(Fs.sb).(journal_start) (Z.to_nat (jblocks fs)) (zeros LB) with
  | Ok r => r
  | Err _ => []
  end.

(** The watermark of the newest checkpoint. *)
Definition watermark (fs : Nxfs) : Z :=
  match newest_slot fs.(Fs.sb) with
  | Some i =>
      match Fs.load_slot fs.(Fs.dev) fs.(Fs.sb) (total fs)
              (1 + jblocks fs + 2 * fs.(Fs.cp_blocks)) i with
      | Some p => p.2
      | None => 0
      end
  | None => 0
  end.

(** Nothing behind the journal's head replays.  Inside a block the bytes behind
    the head are zero; a head at a block boundary may be followed by records of
    before the last checkpoint. *)
Definition tail_quiet (fs : Nxfs) : bool :=
  negb (fs.(Fs.journal_head) mod LB =? 0)%nat
  || bool_decide ((replay (drop fs.(Fs.journal_head) (journal_region fs)) (watermark fs)).(ops) = []).

Section Checkpoint.
Context (fs : Nxfs) (s0 : State) (wm : Z).
Hypothesis Hgeo : fs_geo fs.
Hypothesis Hbase : cp_on_disk fs s0 wm.

Lemma total_width : total fs < 2 ^ 64.
Proof.
  rewrite <- (geo_total fs Hgeo). destruct (geo_sb fs Hgeo) as (_ & _ & [_ Hw] & _). exact Hw.
Qed.

Lemma read_superblock_inv : Fs.read_superblock fs.(Fs.dev) (total fs) = Ok fs.(Fs.sb).
Proof.
  unfold Fs.read_superblock. destruct Hgeo as [Hd _ Hsb _ _ Hj Hcp Hroom].
  pose proof (checkpoint_blocks_bound (total fs)).
  rewrite read_spec by (try done; try apply length_zeros; lia). cbn [result_bind].
  change (lb_off 0) with 0%nat. rewrite Nat.add_0_l, (disk_sb _ _ _ Hbase).
  by rewrite sb_roundtrip.
Qed.

Lemma blob_small : vlen (encode s0 wm) < 2 ^ 32.
Proof.
  pose proof (disk_len _ _ _ Hbase) as Hl. rewrite (geo_cp fs Hgeo), LB_val in Hl.
  pose proof (checkpoint_blocks_bound (total fs)). nia.
Qed.

Lemma region_bounds i :
  1 ≤ Fs.region_start fs i ∧ 1 + jblocks fs ≤ Fs.region_start fs i ∧
  Fs.region_start fs i + fs.(Fs.cp_blocks) ≤ 1 + jblocks fs + 2 * fs.(Fs.cp_blocks) ∧
  16 ≤ fs.(Fs.cp_blocks).
Proof.
  destruct Hgeo as [_ _ _ _ Hs Hj Hcp Hroom]. unfold Fs.region_start. rewrite Hs.
  pose proof (checkpoint_blocks_bound (total fs)). destruct i; lia.
Qed.

Lemma load_slot_inv i :
  newest_slot fs.(Fs.sb) = Some i →
  Fs.load_slot fs.(Fs.dev) fs.(Fs.sb) (total fs) (1 + jblocks fs + 2 * fs.(Fs.cp_blocks)) i = Some (s0, wm).
Proof.
  intros Hi. destruct (disk_slot _ _ _ Hbase) as (i' & g & Hn & Hg & Hslot & Hbytes).
  assert (i' = i) as -> by congruence. unfold Fs.load_slot. rewrite Hslot.
  cbn [generation root_lb len_bytes slot_crc]. rewrite (proj2 (Z.eqb_neq g 0)) by lia.
  unfold vlen. rewrite Nat2Z.id. destruct (region_bounds i) as (H1 & H2 & H3 & H4).
  rewrite read_bytes_spec.
  - rewrite Hbytes, Z.eqb_refl. cbn [negb]. destruct (disk_cp _ _ _ Hbase) as (Hok & Ht & Hds).
    rewrite <- Ht, <- Hds. by rewrite (checkpoint_roundtrip_sec s0 wm Hok (disk_wm _ _ _ Hbase) blob_small).
  - apply Hgeo.
  - lia.
  - pose proof (disk_len _ _ _ Hbase) as Hl. unfold vlen in Hl.
    assert (blocks_for (length (encode s0 wm)) ≤ Z.to_nat (Fs.cp_blocks fs))%nat by (apply blocks_for_le; nia).
    pose proof (geo_room fs Hgeo). lia.
Qed.

Lemma watermark_inv : watermark fs = wm.
Proof.
  destruct (disk_slot _ _ _ Hbase) as (i & g & Hn & _). unfold watermark.
  by rewrite Hn, (load_slot_inv i Hn).
Qed.

(** A mount loads the checkpoint and applies what the region replays. *)
Lemma mount_replay region s :
  Fs.read_journal fs.(Fs.dev) 1 (Z.to_nat (jblocks fs)) (zeros LB) = Ok region →
  apply_all s0 (replay region wm).(ops) = (s, Ok tt) →
  ∃ fs', Fs.mount (Fs.into_device fs) = Ok fs' ∧ fs'.(Fs.dev) = fs.(Fs.dev) ∧
    fs'.(Fs.sb) = fs.(Fs.sb) ∧ fs'.(Fs.state) = s ∧ fs'.(Fs.cp_blocks) = fs.(Fs.cp_blocks).
Proof.
  intros Hr Hs'. unfold Fs.mount, Fs.into_device, into_inner. rewrite (geo_new fs Hgeo). cbn [result_bind].
  rewrite read_superblock_inv. cbn [result_bind].
  destruct (disk_slot _ _ _ Hbase) as (i & g & Hn & _). rewrite Hn. cbn [ok_or result_bind].
  rewrite (geo_start fs Hgeo), <- (geo_cp fs Hgeo), (load_slot_inv i Hn).
  cbn [ok_or result_bind fst snd]. rewrite Hr. cbn [result_bind]. rewrite Hs'. cbn [result_bind].
  eexists. split; [reflexivity|]. done.
Qed.
End Checkpoint.

Section Mount.
Context (fs : Nxfs) (s0 : State) (wm : Z) (txns : list (Z * list Op)) (log : bytes).
Hypothesis Hgeo : fs_geo fs.
Hypothesis Hdisk : on_disk fs s0 wm txns log.

(** A mount reads at least the blocks the log reaches into. *)
Lemma journal_reach (d : Dev D) :
  dev_ok d → d.(logical_blocks) = total fs →
  slice journal_off (journal_off + fs.(Fs.journal_head)) (image d) = log →
  ∃ k, (fs.(Fs.journal_head) ≤ k * LB)%nat ∧ (k ≤ Z.to_nat (jblocks fs))%nat ∧
    Fs.read_journal d 1 (Z.to_nat (jblocks fs)) (zeros LB)
      = Ok (slice journal_off (journal_off + k * LB) (image d)).
Proof.
  intros Hd Htl Hbytes. pose proof (geo_room fs Hgeo) as Hroom. pose proof (geo_journal fs Hgeo) as Hj.
  pose proof (region_bounds fs Hgeo true) as Hrb. set (jn := Z.to_nat (jblocks fs)).
  destruct (read_journal_spec jn d 1 (zeros LB)) as (k & Hk & Hr & Hend); [done|lia|lia|apply length_zeros|].
  exists k. split_and!; [|done|exact Hr]. fold journal_off in Hend.
  pose proof (disk_head _ _ _ _ _ Hdisk) as Hhead. pose proof (disk_cap _ _ _ _ _ Hdisk) as Hcap. fold jn in Hcap.
  destruct (encode_journal_records txns log) as (rs & Hrs & Hlike & _); [apply Hdisk|apply Hdisk|].
  destruct Hend as [->|(i & -> & Hz)]; [done|].
  destruct (decide (Fs.journal_head fs ≤ S i * LB)%nat) as [|Hgt]; [done|].
  exfalso. pose proof LB_val. destruct (records_window rs (i * LB) Hlike) as (j & Hjw & Hj78).
  { rewrite <- Hrs, Hhead. lia. }
  rewrite <- Hrs, <- Hbytes, slice_lookup, decide_True in Hj78 by lia.
  apply block_zero_zeros in Hz.
  assert (Hx : slice (journal_off + i * LB) (journal_off + i * LB + LB) (image d) !! (j - i * LB)%nat = Some 78).
  { rewrite slice_lookup, decide_True by lia.
    by replace (journal_off + i * LB + (j - i * LB))%nat with (journal_off + j)%nat by lia. }
  rewrite Hz in Hx. apply lookup_replicate in Hx as [? _]. done.
Qed.

(** The region a mount reads is the journal and what is behind its head. *)
Lemma journal_region_inv :
  Fs.read_journal fs.(Fs.dev) 1 (Z.to_nat (jblocks fs)) (zeros LB) = Ok (journal_region fs) ∧
  ∃ tail, journal_region fs = log ++ tail ∧
    ((fs.(Fs.journal_head) mod LB)%nat ≠ 0%nat → ∃ l, tail = 0 :: l).
Proof.
  pose proof (disk_bytes _ _ _ _ _ Hdisk) as Hbytes.
  destruct (journal_reach (Fs.dev fs)) as (k & Hkl & _ & Hr); [apply Hgeo|done|done|].
  unfold journal_region. rewrite (geo_start fs Hgeo), Hr. split; [done|].
  exists (slice (journal_off + Fs.journal_head fs) (journal_off + k * LB) (img fs)). split.
  - rewrite <- Hbytes. rewrite slice_slice_app by lia. done.
  - intros Hm. pose proof (disk_tail _ _ _ _ _ Hdisk Hm) as Hz.
    assert (Hru : round_up (Fs.journal_head fs) = (Fs.journal_head fs / LB * LB + LB)%nat).
    { unfold round_up. rewrite blocks_for_part by done. lia. }
    pose proof (div_mod_LB (Fs.journal_head fs)) as Hdm. pose proof (mod_LB (Fs.journal_head fs)) as Hml.
    assert (Hk2 : (round_up (Fs.journal_head fs) ≤ k * LB)%nat).
    { unfold round_up. apply Nat.mul_le_mono_r. by apply blocks_for_le. }
    rewrite <- (slice_slice_app _ _ (journal_off + round_up (Fs.journal_head fs))) by lia.
    rewrite Hz. destruct (round_up (Fs.journal_head fs) - Fs.journal_head fs)%nat eqn:E; [lia|].
    cbn [zeros replicate app]. by eexists.
Qed.

(** A mount of the disk gives the state back. *)
Lemma mount_inv :
  tail_quiet fs = true →
  ∃ fs', Fs.mount (Fs.into_device fs) = Ok fs' ∧ fs'.(Fs.dev) = fs.(Fs.dev) ∧
    fs'.(Fs.sb) = fs.(Fs.sb) ∧ fs'.(Fs.state) = fs.(Fs.state) ∧ fs'.(Fs.cp_blocks) = fs.(Fs.cp_blocks).
Proof.
  intros Hq. pose proof (disk_base _ _ _ _ _ Hdisk) as Hbase.
  destruct journal_region_inv as [Hr (tail & Htail & Hz)].
  apply (mount_replay fs s0 wm Hgeo Hbase (journal_region fs)); [done|].
  assert (Hops : (replay (journal_region fs) wm).(ops) = concat (map snd txns)).
  { rewrite <- (live_ops_all wm txns) by apply Hdisk. rewrite Htail.
    apply replay_journal_tail; [apply Hdisk|apply Hdisk|]. unfold tail_quiet in Hq.
    destruct (Nat.eqb_spec (Fs.journal_head fs mod LB) 0) as [Hm|Hm].
    - cbn [negb orb] in Hq. apply bool_decide_eq_true in Hq. rewrite (watermark_inv fs s0 wm Hgeo Hbase), Htail in Hq.
      rewrite drop_app_length' in Hq by (symmetry; apply Hdisk). exact Hq.
    - destruct (Hz Hm) as [l ->]. rewrite replay_run, run_zero_first. done. }
  rewrite Hops. apply Hdisk.
Qed.
End Mount.
End Inv.
