(* ===== verification/NxfsEngine.v ===== *)
(** The engine keeps the invariant: checkpoints, journalled transactions and
    file contents. *)

From S2P Require Import Prelude Bytes Storage NxfsFormat NxfsJournal NxfsJournalProps NxfsState NxfsStateProps NxfsTree NxfsCheckpoint NxfsDev Nxfs NxfsLog NxfsInv.

(** What an operation changes besides the tables. *)
Lemma apply_frame s o s' r :
  apply s o = (s', r) →
  s'.(total_blocks) = s.(total_blocks) ∧ s'.(data_start) = s.(data_start) ∧
  (s'.(next_object) = s.(next_object) ∨
   ∃ p id k n, o = MkNode p id k n ∧ s.(next_object) ≤ id ∧ s'.(next_object) = id + 1).
Proof.
  assert (Hdrop : ∀ s id, total_blocks (drop_object s id) = total_blocks s ∧
    data_start (drop_object s id) = data_start s ∧ next_object (drop_object s id) = next_object s).
  { intros s1 id. unfold drop_object. destruct (objects s1 !! id) as [o'|]; [|done].
    rewrite free_extents_bitmap. by destruct (kind o' =? KIND_DIR). }
  destruct o as [p id k n|id sz es|p id n|fp fn tp tn rp]; cbn [apply].
  - destruct (dirs s !! p) as [t|]; intros [= <- <-]; [|split_and!; [done..|by left]].
    unfold bump_next. cbn [next_object with_tables]. destruct (Z.leb_spec (next_object s) id).
    + split_and!; [done..|]. right. by exists p, id, k, n.
    + split_and!; [done..|by left].
  - destruct (validate_extents s es); [|intros [= <- <-]; split_and!; [done..|by left]].
    destruct (objects s !! id) as [o'|]; [|intros [= <- <-]; split_and!; [done..|by left]].
    destruct (negb _); intros [= <- <-]; [split_and!; [done..|by left]|].
    rewrite mark_extents_bitmap, free_extents_bitmap. split_and!; [done..|by left].
  - destruct (dirs s !! p) as [t|]; intros [= <- <-]; [|split_and!; [done..|by left]].
    destruct (Hdrop (with_tables s (objects s) (<[p:=delete n t]> (dirs s))) id) as (H1 & H2 & H3).
    rewrite H1, H2, H3. split_and!; [done..|by left].
  - destruct (dirs s !! fp) as [t|]; [|intros [= <- <-]; split_and!; [done..|by left]].
    destruct (t !! fn) as [e|]; [|intros [= <- <-]; split_and!; [done..|by left]].
    set (s1 := with_tables s _ _). set (s2 := if negb (rp =? 0) then drop_object s1 rp else s1).
    assert (H2 : total_blocks s2 = total_blocks s ∧ data_start s2 = data_start s ∧ next_object s2 = next_object s).
    { unfold s2. destruct (negb (rp =? 0)); [by destruct (Hdrop s1 rp) as (-> & -> & ->)|done]. }
    destruct (dirs s2 !! tp) as [t2|]; intros [= <- <-]; destruct H2 as (H2 & H3 & H4);
      (split_and!; [done..|by left]).
Qed.

Section Engine.
Context {D : Type} `{BlockStore D}.
Abbreviation Nxfs := (Fs.Nxfs D).
Implicit Types fs : Nxfs.
Abbreviation img fs := (image fs.(Fs.dev)).
Abbreviation total fs := fs.(Fs.dev).(logical_blocks).
Abbreviation jblocks fs := fs.(Fs.sb).(journal_blocks).

Definition data_lb (fs : Nxfs) : Z := 1 + jblocks fs + 2 * fs.(Fs.cp_blocks).

(** The bytes of the data region, up to the mirror. *)
Definition data_img (fs : Nxfs) : bytes := slice (lb_off (data_lb fs)) (lb_off (total fs - 1)) (img fs).

(** Same container, same options; other memory and other bytes. *)
Record same_volume (fs fs' : Nxfs) : Prop := {
  sv_dev : dev_same fs.(Fs.dev) fs'.(Fs.dev);
  sv_journal : jblocks fs' = jblocks fs;
  sv_cp : fs'.(Fs.cp_blocks) = fs.(Fs.cp_blocks)
}.

Lemma same_volume_refl fs : dev_ok fs.(Fs.dev) → same_volume fs fs.
Proof. intros. by split; [apply dev_same_refl|..]. Qed.

Lemma same_volume_trans a b c : same_volume a b → same_volume b c → same_volume a c.
Proof. intros [] []. split; [by eapply dev_same_trans|congruence..]. Qed.

Lemma fits_volume fs fs' s : same_volume fs fs' → fits fs s → fits fs' s.
Proof.
  intros [Hd Hj Hc] (Hok & Ht & Hds). split; [done|]. rewrite Hj, Hc, (ds_logical _ _ Hd). done.
Qed.

Lemma img_length fs : dev_ok fs.(Fs.dev) → 0 < total fs → (lb_off (total fs) ≤ length (img fs))%nat.
Proof.
  intros Hd Hpos. pose proof (image_room (Fs.dev fs) (total fs - 1) Hd ltac:(lia)) as Hr.
  unfold lb_off in *. replace (Z.to_nat (total fs)) with (S (Z.to_nat (total fs - 1))) by lia. lia.
Qed.

Lemma lb_off_succ a : 0 ≤ a → lb_off (a + 1) = (lb_off a + LB)%nat.
Proof. intros. unfold lb_off. replace (Z.to_nat (a + 1)) with (S (Z.to_nat a)) by lia. lia. Qed.

(** *** Checkpoints *)

(** The superblock [write_checkpoint] writes. *)
Definition new_sb (fs : Nxfs) : Superblock :=
  set_slot fs.(Fs.sb) (older_slot fs.(Fs.sb))
    {| generation := Z.max fs.(Fs.sb).(slot0).(generation) fs.(Fs.sb).(slot1).(generation) + 1;
       root_lb := Fs.region_start fs (older_slot fs.(Fs.sb));
       len_bytes := vlen (encode fs.(Fs.state) fs.(Fs.next_txn));
       slot_crc := crc32c (encode fs.(Fs.state) fs.(Fs.next_txn)) |}.

Lemma new_sb_ok n fs :
  fs_geo fs → counted n fs → fits fs fs.(Fs.state) →
  vlen (encode fs.(Fs.state) fs.(Fs.next_txn)) ≤ fs.(Fs.cp_blocks) * Z.of_nat LB → sb_ok (new_sb fs).
Proof.
  intros Hg Hc (Hst & _) Hl. pose proof (geo_sb fs Hg) as (H1 & H2 & H3 & H4 & H5 & H6 & H7 & H8 & H9).
  assert (Hs : slot_ok {| generation := Z.max fs.(Fs.sb).(slot0).(generation) fs.(Fs.sb).(slot1).(generation) + 1;
       root_lb := Fs.region_start fs (older_slot fs.(Fs.sb));
       len_bytes := vlen (encode fs.(Fs.state) fs.(Fs.next_txn));
       slot_crc := crc32c (encode fs.(Fs.state) fs.(Fs.next_txn)) |}).
  { destruct Hc. unfold slot_ok. cbn [generation root_lb len_bytes slot_crc].
    destruct (region_bounds fs Hg (older_slot (Fs.sb fs))) as (Hr1 & Hr2 & Hr3 & Hr4).
    pose proof (geo_room fs Hg). pose proof (total_width fs Hg). pose proof (vlen_nonneg (encode (Fs.state fs) (Fs.next_txn fs))).
    pose proof (checkpoint_blocks_bound (total fs)). rewrite (geo_cp fs Hg), LB_val in Hl. unfold in_width.
    split_and!; try lia; apply sb_crc_width; by apply encode_byte. }
  unfold new_sb, set_slot, sb_ok. cbn. by destruct (older_slot (Fs.sb fs)).
Qed.

Lemma new_sb_gens n fs :
  counted n fs →
  0 ≤ (slot0 (new_sb fs)).(generation) ≤ n + 1 ∧ 0 ≤ (slot1 (new_sb fs)).(generation) ≤ n + 1.
Proof.
  intros [C0 C1 C2 C3 C4]. unfold new_sb, set_slot. cbn [slot0 slot1].
  destruct (older_slot (Fs.sb fs)); cbn [generation]; lia.
Qed.

Lemma write_checkpoint_spec n fs :
  fs_geo fs → fits fs fs.(Fs.state) → counted n fs → n + 1 < 2 ^ 63 →
  (Fs.write_checkpoint fs = (fs, Err NoSpace)) ∨
  ∃ fs', Fs.write_checkpoint fs = (fs', Ok tt) ∧ inv (n + 1) fs' ∧ same_volume fs fs' ∧
    fs'.(Fs.state) = fs.(Fs.state) ∧ fs'.(Fs.next_txn) = fs.(Fs.next_txn) ∧
    fs'.(Fs.journal_head) = 0%nat ∧ data_img fs' = data_img fs.
Proof.
  intros Hg Hst Hc Hn. unfold Fs.write_checkpoint.
  set (blob := encode (Fs.state fs) (Fs.next_txn fs)).
  destruct (Z.ltb_spec (Fs.cp_blocks fs * Z.of_nat LB) (vlen blob)) as [|Hl]; [by left|]. right.
  set (idx := older_slot (Fs.sb fs)).
  destruct (region_bounds fs Hg idx) as (Hr1 & Hr2 & Hr3 & Hr4). pose proof (geo_room fs Hg) as Hroom.
  pose proof (geo_dev fs Hg) as Hd. pose proof Hst as (Hsok & Hst_t & Hst_d).
  assert (Hbb : Forall is_byte blob) by (by apply encode_byte).
  assert (Hbf : (blocks_for (length blob) ≤ Z.to_nat (Fs.cp_blocks fs))%nat)
    by (apply blocks_for_le; unfold vlen in Hl; nia).
  destruct (write_bytes_spec (Fs.dev fs) (Fs.region_start fs idx) blob) as (d1 & Hw1 & Hs1 & Hi1);
    [done|lia|lia|done|apply encode_nonempty|].
  rewrite Hw1. cbn [Fs.on_dev].
  destruct (sync_spec d1) as (d2 & Hw2 & Hs2 & Hi2); [apply Hs1|].
  cbn [Fs.with_dev Fs.dev Fs.sb]. rewrite Hw2. cbn [Fs.on_dev Fs.with_dev Fs.dev Fs.sb Fs.with_sb].
  assert (Hnsb : set_slot (Fs.sb fs) idx
    {| generation := Z.max (slot0 (Fs.sb fs)).(generation) (slot1 (Fs.sb fs)).(generation) + 1;
       root_lb := Fs.region_start fs idx; len_bytes := vlen blob; slot_crc := crc32c blob |} = new_sb fs) by done.
  rewrite Hnsb. pose proof (new_sb_ok n fs Hg Hc Hst Hl) as Hsbok.
  assert (Hsl : length (sb_encode (new_sb fs)) = LB) by (apply sb_encode_length, Hsbok).
  assert (Hsbb : Forall is_byte (sb_encode (new_sb fs))) by (by apply sb_encode_byte).
  assert (Hlog2 : logical_blocks d2 = total fs) by (by rewrite (ds_logical _ _ Hs2), (ds_logical _ _ Hs1)).
  destruct (write_spec d2 0 (sb_encode (new_sb fs))) as (d3 & Hw3 & Hs3 & Hi3);
    [apply Hs2|lia|done|done|].
  rewrite Hw3. cbn [Fs.on_dev Fs.with_dev Fs.dev Fs.sb Fs.with_sb].
  assert (Htot : sb_total_blocks (new_sb fs) = total fs).
  { unfold new_sb, set_slot. cbn [sb_total_blocks]. apply Hg. }
  rewrite Htot. destruct (write_spec d3 (total fs - 1) (sb_encode (new_sb fs))) as (d4 & Hw4 & Hs4 & Hi4);
    [apply Hs3|rewrite (ds_logical _ _ Hs3); lia|done|done|].
  rewrite Hw4. cbn [Fs.on_dev Fs.with_dev Fs.dev Fs.sb Fs.with_sb].
  destruct (sync_spec d4) as (d5 & Hw5 & Hs5 & Hi5); [apply Hs4|].
  rewrite Hw5. cbn [Fs.on_dev Fs.with_dev Fs.dev Fs.sb Fs.with_sb Fs.with_head Fs.state Fs.cp_blocks Fs.next_txn].
  eexists. split; [reflexivity|]. match goal with |- inv _ ?f ∧ _ => set (fs' := f) end.
  assert (Hsame : dev_same (Fs.dev fs) d5) by
    exact (dev_same_trans _ _ _ Hs1 (dev_same_trans _ _ _ Hs2 (dev_same_trans _ _ _ Hs3
            (dev_same_trans _ _ _ Hs4 Hs5)))).
  assert (Hvol : same_volume fs fs') by (by split).
  assert (Htl : total fs' = total fs) by exact (ds_logical _ _ Hsame).
  set (I := img fs) in *. set (start := lb_off (Fs.region_start fs idx)) in *.
  assert (Himg : image d5 = splice (splice (splice I start (padded blob)) 0 (sb_encode (new_sb fs)))
                              (lb_off (total fs - 1)) (sb_encode (new_sb fs))).
  { rewrite Hi5, Hi4, Hi3, Hi2, Hi1. done. }
  pose proof (img_length fs Hd ltac:(lia)) as HI. fold I in HI.
  assert (Hoff : (LB ≤ start)%nat ∧ (start + length (padded blob) ≤ lb_off (data_lb fs))%nat ∧
                 (lb_off (data_lb fs) ≤ lb_off (total fs - 1))%nat ∧ (lb_off (total fs - 1) + LB = lb_off (total fs))%nat ∧
                 (LB ≤ lb_off (data_lb fs))%nat).
  { unfold start, data_lb. rewrite padded_length. split_and!.
    - change LB with (0 + LB)%nat at 1. change 0%nat with (lb_off 0). rewrite <- lb_off_succ by lia.
      apply lb_off_mono. lia.
    - rewrite <- lb_off_nat, <- lb_off_add by lia. apply lb_off_mono. lia.
    - apply lb_off_mono. lia.
    - rewrite <- lb_off_succ by lia. f_equal. lia.
    - change LB with (0 + LB)%nat at 1. change 0%nat with (lb_off 0). rewrite <- lb_off_succ by lia.
      apply lb_off_mono. lia. }
  destruct Hoff as (Ho1 & Ho2 & Ho3 & Ho4 & Ho5).
  set (I1 := splice I start (padded blob)) in *. assert (HI1 : length I1 = length I) by (apply splice_length; lia).
  set (I2 := splice I1 0 (sb_encode (new_sb fs))) in *.
  assert (HI2 : length I2 = length I) by (unfold I2; rewrite splice_length; lia).
  assert (Hnew : newest_slot (new_sb fs) = Some idx).
  { apply slot_flip; [apply (cnt_gen0 n fs Hc)|apply (cnt_gen1 n fs Hc)|done]. }
  split_and!; try done.
  - split.
    + destruct Hg as [G1 G2 G3 G4 G5 G6 G7 G8]. split; cbn [Fs.dev Fs.sb Fs.cp_blocks fs'].
      * apply Hsame.
      * by apply (dev_same_new (Fs.dev fs)).
      * done.
      * transitivity (total fs); [exact Htot|symmetry; apply (ds_logical _ _ Hsame)].
      * exact G5.
      * exact G6.
      * rewrite Htl. exact G7.
      * rewrite Htl. exact G8.
    + by apply (fits_volume fs).
    + destruct (new_sb_gens n fs Hc) as [Hg0 Hg1]. destruct Hc as [C0 C1 C2 C3 C4].
      split; [exact Hg0|exact Hg1| | |exact Hn].
      * change (Fs.next_txn fs') with (Fs.next_txn fs). lia.
      * change (Fs.state fs') with (Fs.state fs). lia.
    + exists (Fs.state fs), (Fs.next_txn fs), [], []. split; [|split; [cbn; lia|constructor]].
      split; [split|..].
      * change (img fs') with (image d5). change (Fs.sb fs') with (new_sb fs).
        rewrite Himg. rewrite slice_splice_other by lia. unfold I2.
        pose proof (slice_splice_same I1 0 (sb_encode (new_sb fs)) ltac:(lia)) as Hss.
        by rewrite Hsl in Hss.
      * change (img fs') with (image d5). change (Fs.sb fs') with (new_sb fs).
        exists idx. eexists. split; [exact Hnew|]. split; [|split].
        -- instantiate (1 := Z.max (slot0 (Fs.sb fs)).(generation) (slot1 (Fs.sb fs)).(generation) + 1).
           destruct Hc. lia.
        -- unfold get_slot, new_sb, set_slot. fold idx. cbn [slot0 slot1]. destruct idx; done.
        -- change (Fs.region_start fs' idx) with (Fs.region_start fs idx). fold start blob.
           rewrite Himg. rewrite slice_splice_other; [|lia|left; pose proof (blocks_for_ge (length blob)); rewrite padded_length in Ho2; lia].
           unfold I2. rewrite slice_splice_other; [|lia|right; lia].
           pose proof (slice_splice_same I start (padded blob) ltac:(lia)) as Hss. fold I1 in Hss.
           transitivity (take (length blob) (slice start (start + length (padded blob)) I1)).
           ++ unfold slice. rewrite take_take. f_equal. rewrite padded_length.
              pose proof (blocks_for_ge (length blob)). lia.
           ++ rewrite Hss. unfold padded. by rewrite take_app_length.
      * exact Hl.
      * by apply (fits_volume fs).
      * destruct Hc. unfold in_width. lia.
      * done.
      * done.
      * apply Nat.le_0_l.
      * change (Fs.journal_head fs') with 0%nat. unfold slice. by rewrite Nat.add_0_r, Nat.sub_diag, take_0.
      * intros Hm. exfalso. apply Hm. apply Nat.Div0.mod_0_l.
      * constructor.
      * constructor.
      * done.
  - unfold data_img. fold I. rewrite Htl. change (data_lb fs') with (data_lb fs).
    change (img fs') with (image d5). rewrite Himg.
    rewrite slice_splice_other by lia. unfold I2. rewrite slice_splice_other by lia.
    unfold I1. rewrite slice_splice_other by lia. done.
Qed.

(** *** Transactions *)

Lemma with_state_id fs : Fs.with_state fs fs.(Fs.state) = fs.
Proof. by destruct fs. Qed.

(** A checkpoint does not look at the bitmap. *)
Lemma write_checkpoint_bitmap fs b :
  Fs.write_checkpoint (Fs.with_state fs (with_bitmap fs.(Fs.state) b)) =
    let '(f, r) := Fs.write_checkpoint fs in
    (Fs.with_state f (with_bitmap f.(Fs.state) b), r).
Proof.
  unfold Fs.write_checkpoint. cbn [Fs.state Fs.with_state Fs.next_txn Fs.cp_blocks Fs.sb Fs.dev].
  rewrite encode_bitmap. set (blob := encode _ _). destruct (_ <? vlen blob); [done|].
  change (Fs.region_start (Fs.with_state fs (with_bitmap (Fs.state fs) b))) with (Fs.region_start fs).
  set (start := Fs.region_start fs (older_slot (Fs.sb fs))).
  destruct (NxfsDev.write_bytes (Fs.dev fs) start blob) as [d1 []]; [|done]. cbn.
  destruct (NxfsDev.sync d1) as [d2 []]; [|done]. cbn.
  destruct (NxfsDev.write d2 0 _) as [d3 []]; [|done]. cbn.
  destruct (NxfsDev.write d3 _ _) as [d4 []]; [|done]. cbn.
  destruct (NxfsDev.sync d4) as [d5 []]; done.
Qed.

Lemma inv_mono n m fs : inv n fs → n ≤ m < 2 ^ 63 → inv m fs.
Proof.
  intros [Hg Hs [C0 C1 C2 C3 C4] Hd] Hm. split; [done|done| |done]. split; lia.
Qed.

Lemma dir_id_width s id : state_ok s → is_Some (s.(dirs) !! id) → in_width 64 id.
Proof. intros Hs (o & Ho & _)%(ok_dirs s Hs). by apply (object_id_width s Hs). Qed.

Lemma op_valid_ok s o : state_ok s → op_valid s o → op_ok o.
Proof.
  intros Hs Ho. pose proof (ok_next s Hs) as Hnx.
  destruct o as [p id k n|id sz es|p id n|fp fn tp tn r]; cbn [op_valid op_ok] in *.
  - destruct Ho as (-> & Hp & _ & Hn & Hk & _). split_and!; [by eapply dir_id_width|done| |done].
    unfold is_byte, KIND_FILE, KIND_DIR in *. lia.
  - destruct Ho as (Hsz & (o & Ho & _) & [He Hc _ _]). split_and!; try done.
    + by apply (object_id_width s Hs).
    + eapply Forall_impl; [exact He|]. intros e (H1 & H2 & H3).
      pose proof (shape_data s (ok_shape s Hs)). pose proof (shape_width s (ok_shape s Hs)).
      unfold extent_ok, in_width, max_of in *. lia.
  - destruct Ho as (k & He & _). pose proof He as (t & Ht & _).
    apply (ok_entries s Hs) in He as (Hn & _ & o & Ho & _).
    split_and!; [by eapply dir_id_width|by apply (object_id_width s Hs)|done].
  - destruct Ho as (c & k & He & Htp & Htn & Hr). pose proof He as (t & Ht & _).
    apply (ok_entries s Hs) in He as (Hfn & _). split_and!; try done; [by eapply dir_id_width..|].
    destruct Hr as [[-> _]|((k' & He') & _)]; [unfold in_width; lia|].
    apply (ok_entries s Hs) in He' as (_ & _ & o & Ho & _). by apply (object_id_width s Hs).
Qed.

Lemma encode_txn_ok txn o : op_ok o → ∃ data, encode_txn txn [o] = Ok data.
Proof.
  intros Ho. destruct (op_roundtrip o Ho) as (kind & p & He & _). unfold encode_txn.
  cbn [encode_ops]. rewrite He. cbn [result_bind fst snd]. by eexists.
Qed.

(** Appending one committed transaction. *)
Lemma commit_spec n fs b o data es :
  inv n fs → n + 1 < 2 ^ 63 → op_valid fs.(Fs.state) o →
  apply (with_bitmap fs.(Fs.state) b) o = apply fs.(Fs.state) o →
  encode_txn fs.(Fs.next_txn) [o] = Ok data →
  (fs.(Fs.journal_head) + length data ≤ Z.to_nat (jblocks fs) * LB)%nat →
  ∃ fs', Fs.commit (Fs.with_state fs (with_bitmap fs.(Fs.state) b)) data [o] es = (fs', Ok tt) ∧
    inv (n + 1) fs' ∧ same_volume fs fs' ∧ apply fs.(Fs.state) o = (fs'.(Fs.state), Ok tt) ∧
    data_img fs' = data_img fs.
Proof.
  intros [Hg Hst Hc (s0 & wm & txns & log & Hdisk & Hwm & Htx)] Hn Hval Hap Henc Hfit.
  pose proof Hst as (Hsok & Hst_t & Hst_d). pose proof (op_valid_ok _ _ Hsok Hval) as Hok.
  destruct (encode_txn_records _ [o] data ltac:(by apply Forall_cons_2) Henc) as (_ & _ & _ & Hdb & Hdne).
  destruct (region_bounds fs Hg true) as (Hr1 & Hr2 & Hr3 & Hr4). pose proof (geo_room fs Hg) as Hroom.
  pose proof (geo_start fs Hg) as Hjs. pose proof (geo_journal fs Hg) as Hjb. pose proof (geo_dev fs Hg) as Hd.
  unfold Fs.commit, Fs.append_journal. cbn [Fs.with_state Fs.dev Fs.sb Fs.journal_head]. rewrite Hjs.
  destruct (append_loop_spec (length data) (Fs.dev fs) 1 (Fs.journal_head fs) data (Z.to_nat (jblocks fs)))
    as (d1 & Hw1 & Hs1 & Hi1); [done|lia|lia|done|done|done|done|apply Hdisk|].
  rewrite Hw1. destruct (sync_spec d1) as (d2 & Hw2 & Hs2 & Hi2); [apply Hs1|]. rewrite Hw2.
  cbn [Fs.with_dev Fs.with_head Fs.with_state Fs.state apply_all]. rewrite Hap.
  destruct (apply_ok (Fs.state fs) o Hsok Hval) as (s1 & Has & Hs1ok). rewrite Has.
  eexists. split; [reflexivity|]. match goal with |- inv _ ?f ∧ _ => set (fs' := f) end.
  pose proof (dev_same_trans _ _ _ Hs1 Hs2) as Hsame.
  assert (Hvol : same_volume fs fs') by (by split).
  assert (Htl : total fs' = total fs) by exact (ds_logical _ _ Hsame).
  set (I := img fs) in *. fold journal_off in Hi1.
  set (head := Fs.journal_head fs) in *.
  assert (Himg : img fs' = splice I (journal_off + head) (run_pad head data)) by (change (img fs') with (image d2); by rewrite Hi2, Hi1).
  pose proof (run_pad_length head data) as Hrl.
  assert (Hru : (round_up (head + length data) ≤ Z.to_nat (jblocks fs) * LB)%nat).
  { unfold round_up. apply Nat.mul_le_mono_r. by apply blocks_for_le. }
  assert (Hoff : (LB ≤ journal_off)%nat ∧ (journal_off + round_up (head + length data) ≤ lb_off (1 + jblocks fs))%nat ∧
     (lb_off (1 + jblocks fs) ≤ lb_off (data_lb fs))%nat ∧ (lb_off (data_lb fs) ≤ lb_off (total fs - 1))%nat ∧
     (lb_off (total fs - 1) ≤ length I)%nat).
  { unfold journal_off, data_lb. split_and!.
    - unfold lb_off. lia.
    - rewrite lb_off_add by lia. unfold lb_off at 3. lia.
    - apply lb_off_mono. lia.
    - apply lb_off_mono. lia.
    - etransitivity; [|apply (img_length fs Hd); lia]. apply lb_off_mono. lia. }
  destruct Hoff as (Ho1 & Ho2 & Ho3 & Ho4 & Ho5).
  assert (Hlow : ∀ a c, (c ≤ journal_off + head)%nat → slice a c (img fs') = slice a c I).
  { intros a c Hac. rewrite Himg. apply slice_splice_other; lia. }
  assert (Hhigh : ∀ a c, (lb_off (1 + jblocks fs) ≤ a)%nat → slice a c (img fs') = slice a c I).
  { intros a c Hac. rewrite Himg. apply slice_splice_other; lia. }
  assert (Hrun : slice (journal_off + head) (journal_off + round_up (head + length data)) (img fs') = run_pad head data).
  { rewrite Himg. rewrite <- Hrl, Nat.add_assoc. apply slice_splice_same. lia. }
  split_and!; [|done|done|].
  - split.
    + destruct Hg as [G1 G2 G3 G4 G5 G6 G7 G8].
      split; [apply Hsame|by apply (dev_same_new (Fs.dev fs))|exact G3|rewrite Htl; exact G4|exact G5|exact G6
             |rewrite Htl; exact G7|rewrite Htl; exact G8].
    + apply (fits_volume fs); [done|]. destruct (apply_frame _ _ _ _ Has) as (F1 & F2 & _).
      split; [done|]. change (Fs.state fs') with s1. by rewrite F1, F2.
    + destruct Hc as [C0 C1 C2 C3 C4]. split; [cbn; lia|cbn; lia|cbn; lia| |done].
      change (Fs.state fs') with s1. destruct (apply_frame _ _ _ _ Has) as (_ & _ & [->|(p & id & k & nm & -> & _ & ->)]); [lia|].
      destruct Hval as (-> & _). lia.
    + exists s0, wm, (txns ++ [(Fs.next_txn fs, [o])]), (log ++ data). split; cycle 1.
      { change (Fs.next_txn fs') with (Fs.next_txn fs + 1). split; [lia|]. apply Forall_app_2.
        - eapply Forall_impl; [exact Htx|]. cbv beta. lia.
        - apply Forall_cons_2; [cbn; lia|constructor]. }
      destruct Hdisk as [[D1 (i & g & D2 & D3 & D4 & D5) D6 D7 D8] D9 D10 D11 D12 D13 D14 D15 D16]. split; [split|..].
      * rewrite Hlow by lia. exact D1.
      * exists i, g. split_and!; [exact D2|exact D3|exact D4|].
        change (Fs.region_start fs' i) with (Fs.region_start fs i).
        rewrite Hhigh; [exact D5|]. apply lb_off_mono.
        destruct (region_bounds fs Hg i) as (? & ? & _). lia.
      * exact D6.
      * by apply (fits_volume fs).
      * exact D8.
      * by apply encode_journal_snoc.
      * change (Fs.journal_head fs') with (head + length data)%nat. rewrite length_app. fold head in D10. lia.
      * exact Hfit.
      * change (Fs.journal_head fs') with (head + length data)%nat.
        rewrite <- (slice_slice_app _ _ (journal_off + head)) by lia.
        rewrite Hlow by lia. fold head I in D12. rewrite D12. f_equal.
        transitivity (take (length data) (slice (journal_off + head) (journal_off + round_up (head + length data)) (img fs'))).
        -- unfold slice. rewrite take_take. f_equal. pose proof (round_up_ge (head + length data)). lia.
        -- rewrite Hrun. unfold run_pad. by rewrite take_app_length.
      * intros _. change (Fs.journal_head fs') with (head + length data)%nat.
        transitivity (drop (length data) (slice (journal_off + head) (journal_off + round_up (head + length data)) (img fs'))).
        -- unfold slice. rewrite skipn_firstn_comm, drop_drop.
           repeat (lia || f_equal).
        -- rewrite Hrun. unfold run_pad. by rewrite drop_app_length.
      * apply Forall_app_2; [done|]. apply Forall_cons_2; [|constructor]. split; cbn [fst snd].
        -- destruct Hc. unfold in_width. lia.
        -- by apply Forall_cons_2.
      * apply Forall_app_2; [done|]. by apply Forall_cons_2.
      * change (Fs.state fs') with s1. rewrite map_app, concat_app, apply_all_app, D16. cbn [map concat snd app apply_all].
        by rewrite Has.
  - unfold data_img. rewrite Htl. change (data_lb fs') with (data_lb fs). apply Hhigh. lia.
Qed.

(** A transaction commits, or the volume is full and nothing changed. *)
Lemma run_txn_spec n fs b o es fs' r :
  inv n fs → n + 2 < 2 ^ 63 → op_valid fs.(Fs.state) o →
  apply (with_bitmap fs.(Fs.state) b) o = apply fs.(Fs.state) o →
  free_extents (with_bitmap fs.(Fs.state) b) es = fs.(Fs.state) →
  Fs.run_txn (Fs.with_state fs (with_bitmap fs.(Fs.state) b)) [o] es = (fs', r) →
  inv (n + 2) fs' ∧ same_volume fs fs' ∧ data_img fs' = data_img fs ∧
  (r = Ok tt ∧ apply fs.(Fs.state) o = (fs'.(Fs.state), Ok tt) ∨
   r = Err NoSpace ∧ fs'.(Fs.state) = fs.(Fs.state)).
Proof.
  intros Hinv Hn Hval Hap Hfree. unfold Fs.run_txn. cbn [Fs.with_state Fs.next_txn Fs.sb Fs.journal_head].
  pose proof (geo_dev fs (inv_geo _ _ Hinv)) as Hd.
  destruct (encode_txn_ok (Fs.next_txn fs) o) as [data Henc].
  { eapply op_valid_ok; [|exact Hval]. apply (inv_state _ _ Hinv). }
  rewrite Henc. set (cap := (Z.to_nat (jblocks fs) * LB)%nat).
  destruct (Nat.ltb_spec cap (Fs.journal_head fs + length data)) as [Hover|Hfit].
  - fold (Fs.with_state fs (with_bitmap (Fs.state fs) b)). rewrite write_checkpoint_bitmap.
    destruct (write_checkpoint_spec n fs (inv_geo _ _ Hinv) (inv_state _ _ Hinv) (inv_count _ _ Hinv) ltac:(lia))
      as [->|(f & -> & Hinv' & Hvol & Hstate & Htxn & Hhead & Hdata)].
    + unfold Fs.rollback. cbn [Fs.with_state Fs.state]. rewrite Hfree. intros [= <- <-].
      change (Fs.with_state (Fs.with_state fs (with_bitmap (Fs.state fs) b)) (Fs.state fs))
        with (Fs.with_state fs (Fs.state fs)).
      rewrite with_state_id. split_and!; [by eapply inv_mono; [exact Hinv|lia]|by apply same_volume_refl|done|by right].
    + rewrite Hstate. destruct (Nat.ltb_spec cap (length data)) as [Hbig|Hok].
      * unfold Fs.rollback. cbn [Fs.with_state Fs.state]. rewrite Hfree. intros [= <- <-].
        change (Fs.with_state (Fs.with_state f (with_bitmap (Fs.state fs) b)) (Fs.state fs))
          with (Fs.with_state f (Fs.state fs)).
        rewrite <- Hstate, with_state_id.
        split_and!; [by eapply inv_mono; [exact Hinv'|lia]|done|done|right; done].
      * rewrite <- Hstate in Hval, Hap. rewrite <- Htxn in Henc. rewrite <- Hstate.
        destruct (commit_spec (n + 1) f b o data es Hinv') as (f' & Hc & Hi & Hv & Ha & Hdi);
          [lia|done|done|done| |].
        { rewrite Hhead, (sv_journal _ _ Hvol). exact Hok. }
        rewrite Hc. intros [= <- <-]. replace (n + 1 + 1) with (n + 2) in Hi by lia.
        split_and!; [done|by eapply same_volume_trans|by rewrite Hdi|]. left. by rewrite <- Ha.
  - destruct (commit_spec n fs b o data es Hinv) as (f' & Hc & Hi & Hv & Ha & Hdi); [lia|done..|].
    fold (Fs.with_state fs (with_bitmap (Fs.state fs) b)). rewrite Hc. intros [= <- <-].
    split_and!; [by eapply inv_mono; [exact Hi|lia]|done|done|by left].
Qed.
End Engine.
