(* ===== verification/NxfsFiles.v ===== *)
(** File contents of nxfs: reading the blocks of an extent list, writing new
    contents into free blocks, and the frame around both. *)

From S2P Require Import Prelude Bytes Storage NxfsFormat NxfsJournal NxfsJournalProps NxfsState NxfsStateProps NxfsTree NxfsCheckpoint NxfsDev Nxfs NxfsLog NxfsInv NxfsEngine.

(** One block of an image, and the bytes of an extent list. *)
Definition blk (I : bytes) (x : Z) : bytes := slice (lb_off x) (lb_off x + LB) I.

Definition contents (I : bytes) (es : list Extent) : bytes := concat (map (blk I) (blocks_of es)).

Definition file_bytes (I : bytes) (o : Object) : bytes := take (Z.to_nat o.(size)) (contents I o.(extents)).

Lemma contents_cons I e es : contents I (e :: es) = contents I [e] ++ contents I es.
Proof.
  unfold contents. change (e :: es) with ([e] ++ es). rewrite blocks_of_app, map_app, concat_app.
  done.
Qed.

Lemma blocks_of_single e : blocks_of [e] = seqZ e.(lb) e.(blocks).
Proof. unfold blocks_of. cbn. apply app_nil_r. Qed.

Lemma slice_blocks I lb n :
  0 ≤ lb → slice (lb_off lb) (lb_off lb + n * LB) I = concat (map (blk I) (seqZ lb (Z.of_nat n))).
Proof.
  intros Hlb. induction n as [|n IH].
  - unfold slice. rewrite Nat.mul_0_l, Nat.add_0_r, Nat.sub_diag, take_0. done.
  - replace (Z.of_nat (S n)) with (Z.of_nat n + 1) by lia. rewrite seqZ_snoc by lia.
    rewrite map_app, concat_app, <- IH. cbn [map concat]. rewrite app_nil_r. unfold blk.
    replace (lb_off (lb + Z.of_nat n)) with (lb_off lb + n * LB)%nat by (rewrite lb_off_add, lb_off_nat; lia).
    rewrite slice_slice_app by lia. f_equal. lia.
Qed.

(** An extent is one slice of the image. *)
Lemma contents_single I e :
  0 ≤ e.(lb) → 0 ≤ e.(blocks) →
  contents I [e] = slice (lb_off e.(lb)) (lb_off e.(lb) + Z.to_nat e.(blocks) * LB) I.
Proof.
  intros Hl Hb. unfold contents. rewrite blocks_of_single.
  rewrite <- (Z2Nat.id (blocks e)) at 1 by done. symmetry. by apply slice_blocks.
Qed.

Lemma contents_frame I I' es :
  (∀ x, x ∈ blocks_of es → blk I' x = blk I x) → contents I' es = contents I es.
Proof.
  intros Hf. unfold contents. f_equal. apply map_ext_in. intros x Hx. apply Hf. by apply list_elem_of_In.
Qed.

Lemma contents_length I es :
  (∀ x, x ∈ blocks_of es → (lb_off x + LB ≤ length I)%nat) →
  length (contents I es) = (length (blocks_of es) * LB)%nat.
Proof.
  intros Hf. unfold contents. rewrite (concat_length LB); [by rewrite length_map|].
  apply Forall_map. apply Forall_forall. intros x Hx. unfold blk. rewrite slice_length; [lia|auto].
Qed.

(** Splicing over whole blocks leaves the others. *)
Lemma blk_splice_other I lb data x :
  0 ≤ lb → 0 ≤ x → (lb_off lb + length data ≤ length I)%nat →
  x < lb ∨ lb + Z.of_nat (length data / LB) ≤ x → (length data mod LB = 0)%nat →
  blk (splice I (lb_off lb) data) x = blk I x.
Proof.
  intros Hlb Hx Hl Hd Hm. unfold blk. apply slice_splice_other; [done|].
  pose proof (div_mod_LB (length data)) as Hdm. rewrite Hm, Nat.add_0_r in Hdm. destruct Hd as [Hd|Hd].
  - left. rewrite <- lb_off_succ by done. apply lb_off_mono. lia.
  - right. rewrite Hdm, <- lb_off_nat, <- lb_off_add by lia. apply lb_off_mono. lia.
Qed.

Section Files.
Context {D : Type} `{BlockStore D}.

(** *** Reading *)

(** Extents of the device. *)
Definition on_device (d : Dev D) (e : Extent) : Prop :=
  0 ≤ e.(lb) ∧ 0 < e.(blocks) ∧ e.(lb) + e.(blocks) ≤ d.(logical_blocks).

Lemma on_device_room d e :
  dev_ok d → on_device d e → (lb_off e.(lb) + Z.to_nat e.(blocks) * LB ≤ length (image d))%nat.
Proof.
  intros Hd (H1 & H2 & H3). pose proof (image_room d (lb e + blocks e - 1) Hd ltac:(lia)) as Hr.
  unfold lb_off in *. nia.
Qed.

Lemma gather_spec d es sz got :
  dev_ok d → Forall (on_device d) es → (length got ≤ sz)%nat →
  Fs.gather d es sz got = Ok (take sz (got ++ contents (image d) es)).
Proof.
  intros Hd Hes. revert got. induction Hes as [|e es He Hes IH]; intros got Hg; cbn [Fs.gather].
  - unfold contents. cbn. rewrite app_nil_r. by rewrite take_ge.
  - pose proof (on_device_room d e Hd He) as Hroom. destruct He as (H1 & H2 & H3).
    destruct (Nat.eqb_spec (sz - length got) 0) as [E|E].
    { rewrite take_app_le by lia. by rewrite take_ge by lia. }
    set (eb := (Z.to_nat (blocks e) * LB)%nat).
    rewrite read_bytes_spec; [|done|done|]; cycle 1.
    { assert (blocks_for (Nat.min (sz - length got) eb) ≤ Z.to_nat (blocks e))%nat by (apply blocks_for_le; lia). lia. }
    cbn [result_bind]. rewrite (contents_cons _ e es), contents_single by lia. fold eb. fold eb in Hroom.
    set (ext := slice (lb_off (lb e)) (lb_off (lb e) + eb) (image d)).
    assert (Hel : length ext = eb) by (unfold ext; rewrite slice_length; lia).
    assert (Hsl : slice (lb_off (lb e)) (lb_off (lb e) + Nat.min (sz - length got) eb) (image d) =
                  take (sz - length got) ext).
    { unfold ext, slice. rewrite take_take. f_equal. lia. }
    rewrite Hsl. rewrite IH; [|rewrite length_app, length_take; lia]. f_equal.
    destruct (decide (eb ≤ sz - length got)%nat) as [Hle|Hgt].
    + rewrite (take_ge ext) by lia. by rewrite <- app_assoc.
    + rewrite take_app_le by (rewrite length_app, length_take; lia).
      rewrite !(take_app_ge got) by lia. rewrite take_take, (take_app_le ext) by lia.
      do 2 f_equal. lia.
Qed.

Lemma materialize_spec (fs : Fs.Nxfs D) es sz :
  dev_ok fs.(Fs.dev) → Forall (on_device fs.(Fs.dev)) es → 0 ≤ sz ≤ MAX_FILE_BYTES →
  (Z.to_nat sz ≤ length (contents (image fs.(Fs.dev)) es))%nat →
  Fs.materialize fs es sz = Ok (take (Z.to_nat sz) (contents (image fs.(Fs.dev)) es)).
Proof.
  intros Hd Hes Hsz Hl. unfold Fs.materialize. destruct (Z.ltb_spec MAX_FILE_BYTES sz); [lia|].
  rewrite gather_spec by (simpl; (done || lia)). cbn [result_bind app].
  rewrite length_take. replace (Z.to_nat sz `min` length (contents (image (Fs.dev fs)) es))%nat with (Z.to_nat sz) by lia.
  by rewrite Nat.eqb_refl.
Qed.

(** *** Writing *)

Definition count (es : list Extent) : nat := length (blocks_of es).

Lemma count_cons e es : 0 ≤ e.(blocks) → count (e :: es) = (Z.to_nat e.(blocks) + count es)%nat.
Proof.
  intros Hb. unfold count. change (e :: es) with ([e] ++ es). rewrite blocks_of_app, length_app, blocks_of_single.
  by rewrite length_seqZ.
Qed.

Lemma blocks_for_sub n k : (k * LB ≤ n)%nat → blocks_for (n - k * LB) = (blocks_for n - k)%nat.
Proof.
  intros Hk. unfold blocks_for. pose proof LB_pos.
  replace (n + (LB - 1))%nat with ((n - k * LB + (LB - 1)) + k * LB)%nat by lia.
  rewrite Nat.div_add by lia. lia.
Qed.

Lemma padded_full c k : length c = (k * LB)%nat → padded c = c.
Proof.
  intros Hl. unfold padded. rewrite Hl, blocks_for_mult, Nat.sub_diag. apply app_nil_r.
Qed.

Lemma padded_split c k :
  (k * LB ≤ length c)%nat → padded c = take (k * LB) c ++ padded (drop (k * LB) c).
Proof.
  intros Hk. unfold padded. rewrite app_assoc, take_drop, length_drop. do 2 f_equal.
  rewrite blocks_for_sub by done. pose proof (blocks_for_ge (length c)).
  assert (k ≤ blocks_for (length c))%nat by (pose proof LB_pos; nia). nia.
Qed.

Lemma padded_mod c : (length (padded c) mod LB = 0)%nat.
Proof. rewrite padded_length. apply Nat.Div0.mod_mul. Qed.

Lemma padded_div c : (length (padded c) / LB)%nat = blocks_for (length c).
Proof. rewrite padded_length. apply Nat.div_mul. pose proof LB_pos. lia. Qed.

(** The data loop of [rewrite] from [written] on: the extents hold the rest of
    the contents, everything else is as it was. *)
Lemma write_extents_spec d es content written lo :
  dev_ok d → Forall (on_device d) es → Forall (fun e => lo ≤ e.(lb)) es → NoDup (blocks_of es) →
  Forall is_byte content → 0 ≤ lo → (written ≤ length content)%nat →
  count es = blocks_for (length content - written) →
  ∃ d', Fs.write_extents d es content written = (d', true) ∧ dev_same d d' ∧
    contents (image d') es = padded (drop written content) ∧
    (∀ x, 0 ≤ x → x ∉ blocks_of es → blk (image d') x = blk (image d) x) ∧
    (∀ a c, (c ≤ lb_off lo)%nat → slice a c (image d') = slice a c (image d)).
Proof.
  intros Hd Hes Hlo Hnd Hb Hlo0. revert d written Hd Hes Hnd. induction es as [|e es IH];
    intros d written Hd Hes Hnd Hw Hcnt; cbn [Fs.write_extents].
  - exists d. assert (Hz : (length content - written = 0)%nat).
    { destruct (decide (length content - written = 0)%nat); [done|]. rewrite blocks_for_step in Hcnt; [|lia]. done. }
    split; [done|]. split; [by apply dev_same_refl|]. split_and!; try done.
    rewrite drop_ge by lia. done.
  - inversion_clear Hes as [|? ? He Hes']. inversion_clear Hlo as [|? ? Hle Hlo']. specialize (IH Hlo').
    pose proof (on_device_room d e Hd He) as Hroom. pose proof He as (H1 & H2 & H3).
    rewrite count_cons in Hcnt by lia. pose proof LB_pos as HLB.
    set (eb := (Z.to_nat (blocks e) * LB)%nat) in *.
    set (c := drop written content). assert (Hcl : length c = (length content - written)%nat) by (unfold c; by rewrite length_drop).
    rewrite <- Hcl in Hcnt.
    set (stop := Nat.min (written + eb) (length content)).
    assert (Hsl : slice written stop content = take eb c).
    { unfold slice, c, stop. destruct (decide (written + eb ≤ length content)%nat).
      - f_equal. lia.
      - rewrite !take_ge; [done|rewrite length_drop; lia..]. }
    rewrite Hsl. assert (Hcb : Forall is_byte (take eb c)) by (by apply Forall_take, Forall_drop).
    assert (Hc0 : (0 < length c)%nat).
    { destruct (decide (length c = 0)%nat) as [E|]; [|lia]. rewrite E, blocks_for_0 in Hcnt. lia. }
    assert (Heb : (0 < eb)%nat) by (unfold eb; nia).
    assert (Htl : length (take eb c) = Nat.min eb (length c)) by (by rewrite length_take).
    assert (Hbf : blocks_for (length (take eb c)) = Z.to_nat (blocks e)).
    { rewrite Htl. destruct (decide (eb ≤ length c)%nat).
      - replace (Nat.min eb (length c)) with eb by lia. apply blocks_for_mult.
      - replace (Nat.min eb (length c)) with (length c) by lia.
        assert (blocks_for (length c) ≤ Z.to_nat (blocks e))%nat by (apply blocks_for_le; fold eb; lia). lia. }
    destruct (write_bytes_spec d (lb e) (take eb c)) as (d1 & Hw1 & Hs1 & Hi1); [done|done|lia|done| |].
    { intros E. apply (f_equal length) in E. rewrite Htl in E. simpl in E. lia. }
    rewrite Hw1.
    change (e :: es) with ([e] ++ es) in Hnd. rewrite blocks_of_app in Hnd. apply NoDup_app in Hnd as (_ & Hdis & Hnd).
    assert (Hpl : length (padded (take eb c)) = eb) by (rewrite padded_length, Hbf; done).
    assert (Hframe1 : ∀ x, 0 ≤ x → x ∉ blocks_of [e] → blk (image d1) x = blk (image d) x).
    { intros x Hx Hni. rewrite Hi1. apply blk_splice_other; [done|done|rewrite Hpl; lia| |apply padded_mod].
      rewrite padded_div, Hbf. rewrite blocks_of_single, elem_of_seqZ in Hni. lia. }
    assert (Hlow1 : ∀ a b, (b ≤ lb_off lo)%nat → slice a b (image d1) = slice a b (image d)).
    { intros a b Hab. rewrite Hi1. apply slice_splice_other; [rewrite Hpl; lia|left].
      pose proof (lb_off_mono lo (lb e) ltac:(lia)). lia. }
    destruct (IH d1 stop) as (d2 & Hw2 & Hs2 & Hc2 & Hf2 & Hl2).
    { apply Hs1. }
    { eapply Forall_impl; [exact Hes'|]. intros e' He'. unfold on_device. by rewrite (ds_logical _ _ Hs1). }
    { done. }
    { unfold stop. lia. }
    { unfold stop. destruct (decide (eb ≤ length c)%nat) as [Hfull|Hpart].
      - replace (length content - Nat.min (written + eb) (length content))%nat with (length c - Z.to_nat (blocks e) * LB)%nat
          by (fold eb; lia). rewrite blocks_for_sub by (fold eb; lia). lia.
      - replace (length content - Nat.min (written + eb) (length content))%nat with 0%nat by lia. rewrite blocks_for_0.
        rewrite Htl in Hbf. replace (Nat.min eb (length c)) with (length c) in Hbf by lia. lia. }
    exists d2. split; [done|]. split; [by eapply dev_same_trans|]. split_and!.
    + rewrite contents_cons, Hc2.
      assert (He2 : contents (image d2) [e] = contents (image d1) [e]).
      { apply contents_frame. intros x Hx. apply Hf2; [|by apply Hdis].
        rewrite blocks_of_single, elem_of_seqZ in Hx. lia. }
      rewrite He2, contents_single by lia. fold eb.
      assert (Hex : slice (lb_off (lb e)) (lb_off (lb e) + eb) (image d1) = padded (take eb c)).
      { pose proof (slice_splice_same (image d) (lb_off (lb e)) (padded (take eb c)) ltac:(rewrite Hpl; lia)) as Hx.
        rewrite Hpl in Hx. by rewrite Hi1. }
      rewrite Hex. unfold stop. destruct (decide (eb ≤ length c)%nat) as [Hfull|Hpart].
      * rewrite (padded_full (take eb c) (Z.to_nat (blocks e))) by (rewrite Htl; unfold eb in *; lia).
        replace (Nat.min (written + eb) (length content)) with (written + eb)%nat by lia.
        rewrite <- drop_drop. fold c. symmetry. by apply padded_split.
      * rewrite (take_ge c) by lia. rewrite (drop_ge content) by lia. unfold padded at 2. cbn [length app].
        rewrite blocks_for_0. cbn [Nat.mul Nat.sub zeros replicate]. by rewrite app_nil_r.
    + intros x Hx Hni. change (e :: es) with ([e] ++ es) in Hni. rewrite blocks_of_app, not_elem_of_app in Hni.
      destruct Hni as [Hn1 Hn2]. rewrite Hf2 by done. by apply Hframe1.
    + intros a b Hab. rewrite Hl2 by done. by apply Hlow1.
Qed.
End Files.

(** ** Replacing the contents of a file: the blocks it allocates are free and in
    the data region, so no other file and no metadata is touched, and the file
    reads back as what was written. *)

(** Files are within the size cap and hold exactly the blocks they need;
    directories have no size. *)
Definition files_ok (s : State) : Prop :=
  ∀ id o, s.(objects) !! id = Some o →
    if o.(kind) =? KIND_DIR then o.(size) = 0
    else o.(size) ≤ MAX_FILE_BYTES ∧ count o.(extents) = blocks_for (Z.to_nat o.(size)).

(** Free blocks belong to nobody. *)
Lemma free_unowned s x id : state_ok s → is_used s x = false → 0 ≤ x < s.(total_blocks) → ¬ owns s id x.
Proof.
  intros Hs Hu Hx Hown. rewrite is_used_bit in Hu.
  assert (Hb : bit (bitmap s) x = true); [|congruence].
  apply (ok_bitmap s Hs x); [by apply covered_block; [apply Hs|]|]. right. by exists id.
Qed.

Lemma alloc_fresh s n es :
  state_ok s → 0 ≤ n → blocks_of es = take (Z.to_nat n) (free_list s) → Forall (extent_valid s) es →
  vlen es ≤ MAX_EXTENTS_PER_WRITE → extents_fresh s es.
Proof.
  intros Hs Hn Hb Hv Hc.
  assert (Hfree : ∀ x, x ∈ blocks_of es → is_used s x = false ∧ data_start s ≤ x < total_blocks s).
  { intros x Hx. rewrite Hb in Hx. apply (subseteq_take _ _) in Hx. by apply free_list_elem. }
  pose proof (shape_data s (ok_shape s Hs)) as Hsd.
  split; [|done| |].
  - apply Forall_forall. intros e He. rewrite Forall_forall in Hv. destruct (Hv e He) as (H1 & H2 & H3).
    split_and!; [done|lia|lia|]. destruct (decide (lb e + blocks e = total_blocks s)) as [E|]; [|lia]. exfalso.
    assert (Hin : lb e + blocks e - 1 ∈ blocks_of es) by (apply elem_of_blocks; exists e; split; [done|lia]).
    apply Hfree in Hin as [Hu Hr]. rewrite is_used_bit in Hu.
    assert (Hbit : bit (bitmap s) (lb e + blocks e - 1) = true); [|congruence].
    apply (ok_bitmap s Hs); [apply covered_block; [apply Hs|lia]|]. left. right. lia.
  - rewrite Hb. eapply sublist_NoDup; [apply free_list_NoDup|apply sublist_take].
  - intros x id Hx. apply Hfree in Hx as [Hu Hr]. apply free_unowned; [done..|lia].
Qed.

Lemma div_ceil_blocks n : Z.to_nat (div_ceil (Z.of_nat n) (Z.of_nat LB)) = blocks_for n.
Proof.
  unfold div_ceil, blocks_for. pose proof LB_pos.
  replace (Z.of_nat n + (Z.of_nat LB - 1)) with (Z.of_nat (n + (LB - 1))) by lia.
  rewrite <- Nat2Z.inj_div. apply Nat2Z.id.
Qed.

Section Rewrite.
Context {D : Type} `{BlockStore D}.
Abbreviation Nxfs := (Fs.Nxfs D).
Implicit Types fs : Nxfs.
Abbreviation img fs := (image fs.(Fs.dev)).
Abbreviation total fs := fs.(Fs.dev).(logical_blocks).
Abbreviation jblocks fs := fs.(Fs.sb).(journal_blocks).

(** Writing into the data region keeps the invariant. *)
Lemma inv_data n fs d :
  inv n fs → dev_same fs.(Fs.dev) d →
  (∀ a c, (c ≤ lb_off (data_lb fs))%nat → slice a c (image d) = slice a c (img fs)) →
  inv n (Fs.with_dev fs d) ∧ same_volume fs (Fs.with_dev fs d).
Proof.
  intros [Hg Hst Hc (s0 & wm & txns & log & Hdisk & Hwm & Htx)] Hsame Hlow.
  assert (Hvol : same_volume fs (Fs.with_dev fs d)) by (by split). split; [|done].
  assert (Htl : total (Fs.with_dev fs d) = total fs) by exact (ds_logical _ _ Hsame).
  pose proof (geo_room fs Hg) as Hroom. pose proof (geo_journal fs Hg) as Hjb. pose proof LB_pos as HLB.
  pose proof (fun i => region_bounds fs Hg i) as Hrb.
  assert (Hd1 : (LB ≤ lb_off (data_lb fs))%nat).
  { unfold lb_off, data_lb. destruct (Hrb true) as (_ & _ & _ & ?). nia. }
  split; [|by apply (fits_volume fs)|by destruct Hc; split|].
  - destruct Hg as [G1 G2 G3 G4 G5 G6 G7 G8].
    split; [apply Hsame|by apply (dev_same_new (Fs.dev fs))|exact G3|rewrite Htl; exact G4|exact G5|exact G6
           |rewrite Htl; exact G7|rewrite Htl; exact G8].
  - exists s0, wm, txns, log. split; [|done].
    destruct Hdisk as [[D1 (i & g & D2 & D3 & D4 & D5) D6 D7 D8] D9 D10 D11 D12 D13 D14 D15 D16].
    assert (Hjr : (journal_off + round_up (Fs.journal_head fs) ≤ lb_off (data_lb fs))%nat).
    { assert (round_up (Fs.journal_head fs) ≤ Z.to_nat (jblocks fs) * LB)%nat by
        (unfold round_up; apply Nat.mul_le_mono_r; by apply blocks_for_le).
      unfold journal_off, lb_off, data_lb in *. destruct (Hrb true) as (_ & _ & _ & ?). nia. }
    pose proof (round_up_ge (Fs.journal_head fs)) as Hru.
    split; [split; [| |exact D6| |exact D8]|exact D9|exact D10|exact D11| | |exact D14|exact D15|exact D16].
    + change (img (Fs.with_dev fs d)) with (image d). rewrite Hlow by exact Hd1. exact D1.
    + exists i, g. split_and!; [exact D2|exact D3|exact D4|].
      change (Fs.region_start (Fs.with_dev fs d) i) with (Fs.region_start fs i).
      change (img (Fs.with_dev fs d)) with (image d). rewrite Hlow; [exact D5|].
      destruct (Hrb i) as (R1 & R2 & R3 & R4).
      assert (Hbf : (length (encode s0 wm) ≤ Z.to_nat (Fs.cp_blocks fs) * LB)%nat) by (unfold vlen in D6; nia).
      unfold lb_off, data_lb in *. nia.
    + by apply (fits_volume fs).
    + change (img (Fs.with_dev fs d)) with (image d). change (Fs.journal_head (Fs.with_dev fs d)) with (Fs.journal_head fs).
      rewrite Hlow by lia. exact D12.
    + intros Hm. change (img (Fs.with_dev fs d)) with (image d).
      change (Fs.journal_head (Fs.with_dev fs d)) with (Fs.journal_head fs) in *.
      rewrite Hlow by lia. by apply D13.
Qed.

(** Blocks of the data region are part of it. *)
Lemma data_img_blk fs fs' x :
  same_volume fs fs' → data_img fs' = data_img fs → data_lb fs ≤ x → x < total fs - 1 → 0 ≤ data_lb fs →
  blk (img fs') x = blk (img fs) x.
Proof.
  intros Hvol Hdi H1 H2 H0'. unfold data_img in Hdi.
  assert (Hl : data_lb fs' = data_lb fs) by (unfold data_lb; by rewrite (sv_journal _ _ Hvol), (sv_cp _ _ Hvol)).
  rewrite Hl, (ds_logical _ _ (sv_dev _ _ Hvol)) in Hdi.
  assert (Hin : ∀ I, blk I x = slice (lb_off x - lb_off (data_lb fs)) (lb_off x - lb_off (data_lb fs) + LB)
                       (slice (lb_off (data_lb fs)) (lb_off (total fs - 1)) I)).
  { intros I. apply list_eq. intros i. unfold blk. rewrite !slice_lookup.
    pose proof (lb_off_mono (data_lb fs) x ltac:(lia)). pose proof (lb_off_mono (x + 1) (total fs - 1) ltac:(lia)) as Hm.
    rewrite lb_off_succ in Hm by lia.
    destruct (decide (i < lb_off x + LB - lb_off x)%nat).
    - rewrite decide_True by lia. rewrite decide_True by lia. f_equal. lia.
    - rewrite decide_False by lia. done. }
  rewrite (Hin (img fs')), (Hin (img fs)). by rewrite Hdi.
Qed.

(** What [rewrite] does. *)
Lemma rewrite_spec n fs id o content fs' r :
  inv n fs → n + 2 < 2 ^ 63 → fs.(Fs.state).(objects) !! id = Some o → o.(kind) = KIND_FILE →
  Forall is_byte content → vlen content ≤ MAX_FILE_BYTES →
  Fs.rewrite fs id content = (fs', r) →
  inv (n + 2) fs' ∧ same_volume fs fs' ∧
  (∀ id' x, owns fs.(Fs.state) id' x → blk (img fs') x = blk (img fs) x) ∧
  (r = Ok tt ∧ (∃ es, apply fs.(Fs.state) (Write id (vlen content) es) = (fs'.(Fs.state), Ok tt) ∧
      extents_fresh fs.(Fs.state) es ∧ count es = blocks_for (length content) ∧
      contents (img fs') es = padded content) ∨
   r = Err NoSpace ∧ fs'.(Fs.state) = fs.(Fs.state)).
Proof.
  intros Hinv Hn Ho Hk Hb Hmax. pose proof (inv_geo _ _ Hinv) as Hg. pose proof (geo_dev fs Hg) as Hd.
  pose proof (inv_state _ _ Hinv) as (Hsok & Hst_t & Hst_d). unfold Fs.rewrite, vlen.
  set (cnt := div_ceil (Z.of_nat (length content)) (Z.of_nat LB)).
  assert (Hcnt0 : 0 ≤ cnt) by (unfold cnt, div_ceil; pose proof LB_val; apply Z.div_pos; lia).
  assert (Hsame0 : ∀ id' x, owns (Fs.state fs) id' x → blk (img fs) x = blk (img fs) x) by done.
  destruct (alloc_blocks_cases (Fs.state fs) cnt (ok_shape _ Hsok) Hcnt0) as [(Hle & es & Heq & Hbl & Hv)|[Hlt Heq]];
    rewrite Heq; cycle 1.
  { rewrite with_state_id. intros [= <- <-].
    split_and!; [by eapply inv_mono; [exact Hinv|lia]|by apply same_volume_refl|done|by right]. }
  pose proof (extent_valid_in _ es (ok_shape _ Hsok) Hv) as Hin.
  assert (Hfree : ∀ x, x ∈ blocks_of es → is_used (Fs.state fs) x = false).
  { intros x Hx. rewrite Hbl in Hx. apply (subseteq_take _ _) in Hx. by apply free_list_elem in Hx as [? _]. }
  pose proof (free_marks _ es (ok_shape _ Hsok) Hin Hfree) as Hfm.
  rewrite mark_extents_bitmap in Hfm |- *. set (b := foldl word_mark (bitmap (Fs.state fs)) (blocks_of es)) in *.
  destruct (Z.ltb_spec MAX_EXTENTS_PER_WRITE (Z.of_nat (length es))) as [Hbig|Hfew].
  { unfold Fs.rollback. cbn [Fs.with_state Fs.state]. rewrite Hfm. intros [= <- <-].
    change (Fs.with_state (Fs.with_state fs (with_bitmap (Fs.state fs) b)) (Fs.state fs))
      with (Fs.with_state fs (Fs.state fs)).
    rewrite with_state_id. split_and!; [by eapply inv_mono; [exact Hinv|lia]|by apply same_volume_refl|done|by right]. }
  pose proof (alloc_fresh _ cnt es Hsok Hcnt0 Hbl Hv Hfew) as Hfresh.
  assert (Hcount : count es = blocks_for (length content)).
  { unfold count. rewrite Hbl, length_take. unfold vlen in Hle. rewrite <- div_ceil_blocks. fold cnt. lia. }
  assert (Hdlb : data_start (Fs.state fs) = data_lb fs) by exact Hst_d.
  pose proof (shape_data _ (ok_shape _ Hsok)) as Hsd.
  assert (Hrng : Forall (fun e => data_lb fs ≤ lb e ∧ 0 < blocks e ∧ lb e + blocks e < total fs) es).
  { eapply Forall_impl; [apply (fresh_data _ _ Hfresh)|]. intros e (H1 & H2 & H3). lia. }
  cbn [Fs.with_state Fs.dev].
  destruct (write_extents_spec (Fs.dev fs) es content 0 (data_lb fs)) as (d & Hw & Hsame & Hcont & Hframe & Hlow).
  { done. }
  { eapply Forall_impl; [exact Hrng|]. intros e He. cbv beta in He. unfold on_device. lia. }
  { eapply Forall_impl; [exact Hrng|]. cbv beta. lia. }
  { apply Hfresh. } { done. } { lia. } { lia. } { by rewrite Nat.sub_0_r. }
  rewrite Hw. rewrite drop_0 in Hcont.
  destruct (inv_data n fs d Hinv Hsame Hlow) as [Hinv1 Hvol1]. set (f1 := Fs.with_dev fs d) in *.
  change (Fs.with_dev (Fs.with_state fs (with_bitmap (Fs.state fs) b)) d)
    with (Fs.with_state f1 (with_bitmap (Fs.state f1) b)).
  assert (Hval : op_valid (Fs.state f1) (Write id (vlen content) es)).
  { split_and!; [|by exists o|done]. unfold in_width, MAX_FILE_BYTES in *. pose proof (vlen_nonneg content). lia. }
  assert (Hap : apply (with_bitmap (Fs.state f1) b) (Write id (vlen content) es) =
                apply (Fs.state f1) (Write id (vlen content) es)).
  { unfold b. rewrite <- mark_extents_bitmap. apply (apply_write_marked _ id o); try done. apply Hfresh. }
  fold (vlen content). intros Hrun.
  destruct (run_txn_spec n f1 b (Write id (vlen content) es) es fs' r Hinv1 Hn Hval Hap Hfm Hrun)
    as (Hinv2 & Hvol2 & Hdi & Hres).
  assert (Hdl1 : data_lb f1 = data_lb fs) by done.
  assert (Ht1 : total f1 = total fs) by exact (ds_logical _ _ Hsame).
  assert (Hblk : ∀ x, data_lb fs ≤ x < total fs - 1 → blk (img fs') x = blk (image d) x).
  { intros x Hx. apply (data_img_blk f1 fs'); try done; rewrite ?Hdl1, ?Ht1; lia. }
  split; [done|]. split; [by eapply same_volume_trans|]. split.
  - intros id' x Hown. assert (Hx : data_lb fs ≤ x < total fs - 1).
    { destruct (owned_range _ _ _ Hsok Hown). lia. }
    rewrite Hblk by done. apply Hframe; [lia|]. intros Hxe. by apply (fresh_free _ _ Hfresh x id' Hxe).
  - destruct Hres as [[-> Ha]|[-> Hs]]; [|by right]. left. split; [done|]. exists es. split_and!; try done.
    rewrite <- Hcont. apply contents_frame. intros x Hx. apply Hblk.
    apply elem_of_blocks in Hx as (e & He & Hx). rewrite Forall_forall in Hrng. specialize (Hrng e He). cbv beta in Hrng. lia.
Qed.
End Rewrite.
