(* ===== verification/NxfsRefine.v ===== *)
(** Paths of nxfs: the segments of a path that is valid UTF-8 are valid UTF-8
    and hold no separator, so every name the engine journals satisfies
    [name_ok]. *)

From S2P Require Import Prelude Bytes Storage NxfsFormat NxfsJournal NxfsJournalProps NxfsState NxfsStateProps NxfsTree NxfsCheckpoint NxfsDev Nxfs NxfsLog NxfsInv NxfsEngine NxfsFiles.

(** A [&str] argument. *)
Definition path_ok (p : bytes) : Prop := utf8_valid p = true ∧ Forall is_byte p.

Lemma split_on_ne c s : split_on c s ≠ [].
Proof.
  destruct s as [|b s]; simpl; [done|]. destruct (b =? c); [done|]. by destruct (split_on c s).
Qed.

Lemma split_on_byte c s : Forall is_byte s → Forall (Forall is_byte) (split_on c s).
Proof.
  induction 1 as [|b s Hb _ IH]; cbn [split_on]; [apply Forall_cons_2; constructor|].
  destruct (b =? c); [apply Forall_cons_2; [constructor|done]|].
  destruct (split_on c s) as [|seg segs]; [apply Forall_cons_2; [apply Forall_cons_2; [done|constructor]|done]|].
  inversion_clear IH. apply Forall_cons_2; [by apply Forall_cons_2|done].
Qed.

(** A code point's bytes: one byte below 128, or several from 128 on; dropping
    it does not change validity. *)
Definition utf8_char (ch : bytes) : Prop :=
  ch ≠ [] ∧ (∀ r, utf8_valid (ch ++ r) = utf8_valid r) ∧
  ((∃ b, ch = [b]) ∨ Forall (fun b => 128 ≤ b) ch).

Lemma utf8_char_multi ch :
  ch ≠ [] → (∀ r, utf8_valid (ch ++ r) = utf8_valid r) → Forall (fun b => 128 ≤ b) ch → utf8_char ch.
Proof. intros. split_and!; auto. Qed.

Ltac utf8_multi ch :=
  exists ch; eexists; split; [reflexivity|]; split; [|eassumption]; apply utf8_char_multi;
  [done
  |intros r; unfold cont, within in *; cbn [app utf8_valid]; unfold cont, within; simpl_bool;
   repeat match goal with
   | |- context [?a <=? ?b] => (rewrite (proj2 (Z.leb_le a b)) by lia) || (rewrite (proj2 (Z.leb_gt a b)) by lia)
   | |- context [?a =? ?b] => (rewrite (proj2 (Z.eqb_eq a b)) by lia) || (rewrite (proj2 (Z.eqb_neq a b)) by lia)
   end; cbn [andb]; done
  |unfold cont, within in *; simpl_bool; repeat apply Forall_cons_2; try lia; constructor].

Lemma utf8_first l :
  utf8_valid l = true → l ≠ [] → ∃ ch r, l = ch ++ r ∧ utf8_char ch ∧ utf8_valid r = true.
Proof.
  intros Hv Hne. destruct l as [|b0 r0]; [done|]. cbn [utf8_valid] in Hv.
  destruct (within 0 0x7F b0) eqn:E0.
  { exists [b0], r0. split; [done|]. split; [|done]. split_and!; [done| |left; by exists b0].
    intros r. cbn [app utf8_valid]. by rewrite E0. }
  destruct r0 as [|b1 r1]; [done|].
  destruct (within 0xC2 0xDF b0) eqn:E1; [apply andb_true_iff in Hv as [H1 Hv]; utf8_multi [b0; b1]|].
  destruct r1 as [|b2 r2]; [done|].
  destruct (b0 =? 0xE0) eqn:E2; [simpl_bool; utf8_multi [b0; b1; b2]|].
  destruct (within 0xE1 0xEC b0) eqn:E3; [simpl_bool; utf8_multi [b0; b1; b2]|].
  destruct (b0 =? 0xED) eqn:E4; [simpl_bool; utf8_multi [b0; b1; b2]|].
  destruct (within 0xEE 0xEF b0) eqn:E5; [simpl_bool; utf8_multi [b0; b1; b2]|].
  destruct r2 as [|b3 r3]; [done|].
  destruct (b0 =? 0xF0) eqn:E6; [simpl_bool; utf8_multi [b0; b1; b2; b3]|].
  destruct (within 0xF1 0xF3 b0) eqn:E7; [simpl_bool; utf8_multi [b0; b1; b2; b3]|].
  destruct (b0 =? 0xF4) eqn:E8; [simpl_bool; utf8_multi [b0; b1; b2; b3]|done].
Qed.

Lemma split_on_cons c b s seg segs :
  b ≠ c → split_on c s = seg :: segs → split_on c (b :: s) = (b :: seg) :: segs.
Proof. intros Hb Hs. cbn [split_on]. by rewrite (proj2 (Z.eqb_neq b c) Hb), Hs. Qed.

(** Splitting at an ASCII separator respects code points. *)
Lemma split_on_char c ch r :
  c < 128 → utf8_char ch → ch ≠ [c] →
  ∃ seg segs, split_on c r = seg :: segs ∧ split_on c (ch ++ r) = (ch ++ seg) :: segs.
Proof.
  intros Hc (_ & _ & Hch) Hne.
  assert (Hall : Forall (fun b => b ≠ c) ch).
  { destruct Hch as [[b ->]|Hb]; [by apply Forall_cons_2; [naive_solver|constructor]|].
    eapply Forall_impl; [exact Hb|]. cbv beta. lia. }
  destruct (split_on c r) as [|seg segs] eqn:E; [by apply split_on_ne in E|].
  exists seg, segs. split; [done|]. clear Hch Hne. induction Hall as [|b ch Hb _ IH]; [done|].
  cbn [app]. by apply split_on_cons.
Qed.

Lemma split_on_utf8 c s : c < 128 → utf8_valid s = true → Forall (fun g => utf8_valid g = true) (split_on c s).
Proof.
  intros Hc. induction s as [s IH] using (induction_ltof1 _ (@length Z)); intros Hv. unfold ltof in IH.
  destruct (decide (s = [])) as [->|Hne]; [by apply Forall_cons_2; [|constructor]|].
  destruct (utf8_first s Hv Hne) as (ch & r & -> & Hch & Hr). pose proof Hch as (Hn & Hdrop & _).
  assert (Hlt : (length r < length (ch ++ r))%nat) by (rewrite length_app; destruct ch; [done|simpl; lia]).
  specialize (IH r Hlt Hr). destruct (decide (ch = [c])) as [->|Hsep].
  - cbn [app split_on]. rewrite Z.eqb_refl. by apply Forall_cons_2.
  - destruct (split_on_char c ch r Hc Hch Hsep) as (seg & segs & Hs & ->). rewrite Hs in IH.
    inversion_clear IH as [|? ? Hseg Hsegs]. apply Forall_cons_2; [|done]. by rewrite Hdrop.
Qed.

(** The segments [split] returns. *)
Definition segment_ok (g : bytes) : Prop := utf8_valid g = true ∧ Forall is_byte g ∧ g ≠ [].

Lemma split_parts_ok segs parts :
  Forall (fun g => utf8_valid g = true ∧ Forall is_byte g) segs →
  split_parts segs = Ok parts → Forall segment_ok parts.
Proof.
  intros Hs. revert parts. induction Hs as [|g segs [Hu Hb] _ IH]; intros parts; cbn [split_parts].
  - intros [= <-]. constructor.
  - case_bool_decide as Hg; [apply IH|]. destruct (_ || _); [done|].
    destruct (split_parts segs) as [rest|]; [|done]. cbn [result_bind]. intros [= <-].
    apply Forall_cons_2; [done|by apply IH].
Qed.

Lemma split_segments path parts : path_ok path → split path = Ok parts → Forall segment_ok parts.
Proof.
  intros [Hu Hb]. unfold split. destruct (split_parts (split_on 47 path)) as [ps|] eqn:E; [|done].
  cbn [result_bind]. destruct (_ <? _)%nat; [done|]. intros [= <-]. eapply split_parts_ok; [|exact E].
  pose proof (split_on_utf8 47 path ltac:(lia) Hu) as H1. pose proof (split_on_byte 47 path Hb) as H2.
  rewrite Forall_forall in H1, H2. apply Forall_forall. auto.
Qed.

Lemma validate_name_ok g : segment_ok g → validate_name g = Ok tt → name_ok g.
Proof.
  intros (Hu & Hb & Hne). unfold validate_name. case_bool_decide; [done|]. cbn [orb].
  destruct (Z.ltb_spec MAX_NAME_LEN (vlen g)); [done|]. intros _. split_and!; [done..| |done].
  unfold vlen. destruct g; [done|]. cbn [length]. lia.
Qed.

(** ** The abstract filesystem: directories as tables of names, files as byte
    strings, and what each call does to them.  No blocks, no journal, no
    device. *)

Record tree := {
  t_dirs : gmap Z DirTable;
  t_files : gmap Z bytes;
  t_next : Z
}.

Definition empty_tree : tree :=
  {| t_dirs := {[ROOT_OBJECT := ∅]}; t_files := ∅; t_next := ROOT_OBJECT + 1 |}.

(** The calls that change a volume. *)
Inductive call :=
| Create (path : bytes)
| Mkdir (path : bytes)
| WriteAt (path : bytes) (offset : Z) (data : bytes)
| Truncate (path : bytes) (size : Z)
| RemovePath (path : bytes)
| RenamePath (from to : bytes)
| SyncAll.

Definition t_resolve (t : tree) (path : bytes) : result Z NxfsError :=
  let? parts := split path in walk t.(t_dirs) ROOT_OBJECT parts.

Definition t_parent (t : tree) (path : bytes) : result (Z * bytes) NxfsError :=
  let? parts := split path in
  let? p := ok_or (split_last parts) Invalid in
  let? parent := walk_dirs t.(t_dirs) ROOT_OBJECT p.2 in
  Ok (parent, p.1).

Definition t_check {A} (t : tree) (r : result A NxfsError) (k : A → tree * result unit NxfsError)
    : tree * result unit NxfsError :=
  match r with
  | Ok a => k a
  | Err e => (t, Err e)
  end.

Definition set_file (t : tree) (id : Z) (b : bytes) : tree :=
  {| t_dirs := t.(t_dirs); t_files := <[id := b]> t.(t_files); t_next := t.(t_next) |}.

Definition t_mknode (t : tree) (path : bytes) (k : Z) : tree * result unit NxfsError :=
  t_check t (t_parent t path) (fun '(parent, name) =>
  t_check t (validate_name name) (fun _ =>
  t_check t (ok_or (t.(t_dirs) !! parent) NotDir) (fun table =>
  if bool_decide (is_Some (table !! name)) then (t, Err Exists)
  else
    let ds := <[parent := <[name := (t.(t_next), k)]> table]> t.(t_dirs) in
    ({| t_dirs := if k =? KIND_DIR then <[t.(t_next) := ∅]> ds else ds;
        t_files := if k =? KIND_DIR then t.(t_files) else <[t.(t_next) := []]> t.(t_files);
        t_next := t.(t_next) + 1 |}, Ok tt)))).

Definition t_write (t : tree) (path : bytes) (offset : Z) (data : bytes) : tree * result unit NxfsError :=
  t_check t (t_resolve t path) (fun id =>
  match t.(t_files) !! id with
  | None => (t, Err IsDir)
  | Some b =>
      let new_size := Z.max (vlen b) (saturating_add 64 offset (vlen data)) in
      if MAX_FILE_BYTES <? new_size then (t, Err TooBig)
      else (set_file t id (splice (resize (Z.to_nat new_size) b) (Z.to_nat offset) data), Ok tt)
  end).

Definition t_truncate (t : tree) (path : bytes) (sz : Z) : tree * result unit NxfsError :=
  t_check t (t_resolve t path) (fun id =>
  match t.(t_files) !! id with
  | None => (t, Err IsDir)
  | Some b =>
      if MAX_FILE_BYTES <? sz then (t, Err TooBig)
      else (set_file t id (resize (Z.to_nat sz) b), Ok tt)
  end).

Definition t_busy (t : tree) (id : Z) : bool :=
  match t.(t_dirs) !! id with
  | Some tb => negb (bool_decide (tb = ∅))
  | None => false
  end.

Definition t_remove (t : tree) (path : bytes) : tree * result unit NxfsError :=
  t_check t (t_parent t path) (fun '(parent, name) =>
  t_check t (ok_or (t.(t_dirs) !! parent) NotDir) (fun table =>
  t_check t (ok_or (table !! name) NotFound) (fun '(id, k) =>
  if t_busy t id then (t, Err Busy)
  else ({| t_dirs := delete id (<[parent := delete name table]> t.(t_dirs));
           t_files := delete id t.(t_files); t_next := t.(t_next) |}, Ok tt)))).

(** Moves the entry [(from, from_name)]; [replaced] loses its name and goes. *)
Definition t_move (t : tree) (from : Z) (from_name : bytes) (to : Z) (to_name : bytes)
    (entry : Z * Z) (replaced : option Z) : tree :=
  let ds := alter (delete from_name) from t.(t_dirs) in
  let ds := match replaced with Some id => delete id ds | None => ds end in
  {| t_dirs := alter (fun tb => <[to_name := entry]> tb) to ds;
     t_files := match replaced with Some id => delete id t.(t_files) | None => t.(t_files) end;
     t_next := t.(t_next) |}.

Definition t_rename (t : tree) (from to : bytes) : tree * result unit NxfsError :=
  t_check t (t_parent t from) (fun '(fp, fn) =>
  t_check t (t_parent t to) (fun '(tp, tn) =>
  t_check t (validate_name tn) (fun _ =>
  t_check t (ok_or (t.(t_dirs) !! fp) NotDir) (fun from_table =>
  t_check t (ok_or (from_table !! fn) NotFound) (fun '(moving, mk) =>
  t_check t (ok_or (t.(t_dirs) !! tp) NotDir) (fun to_table =>
  match to_table !! tn with
  | None => (t_move t fp fn tp tn (moving, mk) None, Ok tt)
  | Some (existing, k) =>
      if existing =? moving then (t, Ok tt)
      else if t_busy t existing then (t, Err Busy)
      else (t_move t fp fn tp tn (moving, mk) (Some existing), Ok tt)
  end)))))).

Definition t_exec (t : tree) (c : call) : tree * result unit NxfsError :=
  match c with
  | Create path => t_mknode t path KIND_FILE
  | Mkdir path => t_mknode t path KIND_DIR
  | WriteAt path offset data => t_write t path offset data
  | Truncate path sz => t_truncate t path sz
  | RemovePath path => t_remove t path
  | RenamePath from to => t_rename t from to
  | SyncAll => (t, Ok tt)
  end.

(** The contents of a path, and its metadata. *)
Definition t_read (t : tree) (path : bytes) (offset len : Z) : result bytes NxfsError :=
  let? id := t_resolve t path in
  match t.(t_files) !! id with
  | None => Err IsDir
  | Some b =>
      let start := Z.min offset (vlen b) in
      Ok (slice (Z.to_nat start) (Z.to_nat (Z.min (saturating_add 64 start len) (vlen b))) b)
  end.

Definition t_stat (t : tree) (path : bytes) : result (FileKind * Z) NxfsError :=
  let? id := t_resolve t path in
  match t.(t_files) !! id with
  | None => Ok (Dir, 0)
  | Some b => Ok (File, vlen b)
  end.

(** A step of a volume: what the tree does, or a refusal for lack of space that
    changes nothing. *)
Inductive t_step (t : tree) (c : call) : result unit NxfsError → tree → Prop :=
| step_done t' r : t_exec t c = (t', r) → t_step t c r t'
| step_full : (t_exec t c).2 = Ok tt → t_step t c (Err NoSpace) t.

Inductive t_run : tree → list call → list (result unit NxfsError) → tree → Prop :=
| run_nil t : t_run t [] [] t
| run_cons t c r t' cs rs t'' : t_step t c r t' → t_run t' cs rs t'' → t_run t (c :: cs) (r :: rs) t''.

(** ** The engine refines the abstract filesystem: call by call, whatever the
    block device under it. *)

Definition file_view (I : bytes) (o : Object) : option bytes :=
  if o.(kind) =? KIND_DIR then None else Some (file_bytes I o).

Definition view (s : State) (I : bytes) : tree :=
  {| t_dirs := s.(dirs); t_files := omap (file_view I) s.(objects); t_next := s.(next_object) |}.

Lemma view_frame s I I' :
  (∀ id x, owns s id x → blk I' x = blk I x) → view s I' = view s I.
Proof.
  intros Hf. unfold view. f_equal. apply map_eq. intros id. rewrite !lookup_omap.
  destruct (objects s !! id) as [o|] eqn:Eo; [|done]. cbn. unfold file_view.
  destruct (kind o =? KIND_DIR); [done|]. unfold file_bytes. do 2 f_equal. apply contents_frame. intros x Hx.
  apply (Hf id). by exists o.
Qed.

Lemma view_files s I id : (view s I).(t_files) !! id = objects s !! id ≫= file_view I.
Proof. apply lookup_omap. Qed.

Lemma dirs_kind s id t : state_ok s → s.(dirs) !! id = Some t → ∃ o, s.(objects) !! id = Some o ∧ o.(kind) = KIND_DIR.
Proof. intros Hs Ht. apply (ok_dirs s Hs). by rewrite Ht. Qed.

Lemma kind_cases s id o :
  state_ok s → s.(objects) !! id = Some o → o.(kind) = KIND_FILE ∨ o.(kind) = KIND_DIR.
Proof. intros Hs Ho. apply (ok_objects s Hs id o Ho). Qed.

(** A path that resolves names an object. *)
Lemma walk_object s cur segs id :
  state_ok s → is_Some (s.(objects) !! cur) → walk s.(dirs) cur segs = Ok id → is_Some (s.(objects) !! id).
Proof.
  intros Hs. revert cur. induction segs as [|g segs IH]; intros cur Hc; cbn [walk]; [by intros [= <-]|].
  destruct (dirs s !! cur) as [t|] eqn:Et; [|done]. cbn [ok_or result_bind].
  destruct (t !! g) as [[c k]|] eqn:Eg; [|done]. cbn [ok_or result_bind fst]. apply IH.
  destruct (ok_entries s Hs cur g c k) as (_ & _ & o & Ho & _); [by exists t|]. by rewrite Ho.
Qed.

Lemma root_object s : state_ok s → is_Some (s.(objects) !! ROOT_OBJECT).
Proof. intros Hs. destruct (ok_root s Hs) as (o & Ho & _). by rewrite Ho. Qed.

(** The last segment of a path is a segment. *)
Lemma t_parent_segment t path p n : path_ok path → t_parent t path = Ok (p, n) → segment_ok n.
Proof.
  intros Hp. unfold t_parent. destruct (split path) as [parts|] eqn:E; [|done]. cbn [result_bind].
  pose proof (split_segments path parts Hp E) as Hs. unfold split_last.
  destruct (rev parts) as [|x r] eqn:Er; [done|]. cbn [ok_or result_bind fst snd].
  destruct (walk_dirs _ _ _); [|done]. cbn [result_bind]. intros [= <- <-].
  rewrite Forall_forall in Hs. apply Hs. apply list_elem_of_In, in_rev. rewrite Er. by left.
Qed.

(** *** The tree after each operation *)

Section View.
Context (s : State) (I : bytes).
Hypothesis Hs : state_ok s.

Lemma view_mknode p k n t s' r :
  s.(dirs) !! p = Some t → k = KIND_FILE ∨ k = KIND_DIR →
  apply s (MkNode p s.(next_object) k n) = (s', r) →
  view s' I =
    let ds := <[p := <[n := (s.(next_object), k)]> t]> s.(dirs) in
    {| t_dirs := if k =? KIND_DIR then <[s.(next_object) := ∅]> ds else ds;
       t_files := if k =? KIND_DIR then (view s I).(t_files) else <[s.(next_object) := []]> (view s I).(t_files);
       t_next := s.(next_object) + 1 |}.
Proof.
  intros Ht Hk. cbn [apply]. rewrite Ht. intros [= <- <-]. unfold bump_next. cbn [next_object with_tables].
  rewrite (proj2 (Z.leb_le (next_object s) (next_object s))) by lia. unfold view.
  cbn [objects dirs next_object with_tables t_files]. f_equal. apply map_eq. intros id. rewrite lookup_omap.
  pose proof (next_fresh s Hs) as Hf.
  destruct (decide (id = next_object s)) as [->|Hne].
  - rewrite lookup_insert_eq. cbn. unfold file_view. cbn [kind]. destruct (k =? KIND_DIR).
    + rewrite lookup_omap, Hf. done.
    + rewrite lookup_insert_eq. unfold file_bytes. cbn [size]. by rewrite Z2Nat.inj_0, take_0.
  - rewrite lookup_insert_ne by done. destruct (k =? KIND_DIR); [by rewrite lookup_omap|].
    rewrite lookup_insert_ne by done. by rewrite lookup_omap.
Qed.

(** Dropping an object from the view. *)
Lemma view_drop s1 id o :
  s1.(objects) !! id = Some o → (o.(kind) ≠ KIND_DIR → s1.(dirs) !! id = None) →
  view (drop_object s1 id) I =
    {| t_dirs := delete id s1.(dirs); t_files := delete id (view s1 I).(t_files); t_next := s1.(next_object) |}.
Proof.
  intros Ho Hd. rewrite (drop_object_eq s1 id o Ho). unfold view. cbn [objects dirs next_object t_files]. f_equal.
  - destruct (Z.eqb_spec (kind o) KIND_DIR) as [|Hk]; [done|]. symmetry. apply delete_id. by apply Hd.
  - apply map_eq. intros i. rewrite lookup_omap. destruct (decide (i = id)) as [->|Hne].
    + by rewrite !lookup_delete_eq.
    + rewrite !lookup_delete_ne by done. by rewrite lookup_omap.
Qed.

Lemma entry_object p n c k :
  entry s p n c k → ∃ o, s.(objects) !! c = Some o ∧ o.(kind) = k ∧ (o.(kind) ≠ KIND_DIR → s.(dirs) !! c = None).
Proof.
  intros He. destruct (ok_entries s Hs p n c k He) as (_ & _ & o & Ho & Hk). exists o. split_and!; [done..|].
  intros Hd. destruct (dirs s !! c) as [t|] eqn:E; [|done]. destruct (dirs_kind s c t Hs E) as (o' & Ho' & Hk').
  by simplify_eq.
Qed.

(** The directory an entry is in is not the object it names, when that object
    is not a busy directory. *)
Lemma entry_not_self p n c k t :
  s.(dirs) !! p = Some t → t !! n = Some (c, k) → Fs.dir_busy s c k = false → empty_if_dir s c ∧ p ≠ c.
Proof.
  intros Ht Hn Hb. assert (He : entry s p n c k) by (by exists t).
  assert (Hempty : empty_if_dir s c).
  { intros tc Htc. destruct (entry_object p n c k He) as (o & Ho & Hk & Hd).
    destruct (dirs_kind s c tc Hs Htc) as (o' & Ho' & Hk'). simplify_eq.
    unfold Fs.dir_busy in Hb. rewrite Htc, Hk' in Hb. cbn [Z.eqb KIND_DIR Pos.eqb andb] in Hb.
    apply negb_false_iff, bool_decide_eq_true in Hb. done. }
  split; [done|]. by eapply entry_parent_ne.
Qed.

Lemma busy_view p n c k : entry s p n c k → Fs.dir_busy s c k = t_busy (view s I) c.
Proof.
  intros He. destruct (entry_object p n c k He) as (o & Ho & Hk & Hd). unfold Fs.dir_busy, t_busy.
  cbn [t_dirs view]. destruct (Z.eqb_spec k KIND_DIR) as [->|Hne]; [done|]. rewrite Hd; [done|]. by rewrite Hk.
Qed.

Lemma view_remove p id n t k s' r :
  s.(dirs) !! p = Some t → t !! n = Some (id, k) → p ≠ id →
  apply s (Remove p id n) = (s', r) →
  view s' I = {| t_dirs := delete id (<[p := delete n t]> s.(dirs));
                 t_files := delete id (view s I).(t_files); t_next := s.(next_object) |}.
Proof.
  intros Ht Hn Hpi. assert (He : entry s p n id k) by (by exists t).
  destruct (entry_object p n id k He) as (o & Ho & Hk & Hd).
  cbn [apply]. rewrite Ht. intros [= <- <-].
  rewrite (view_drop (with_tables s (objects s) (<[p:=delete n t]> (dirs s))) id o); [done|done|].
  intros Hkd. cbn [dirs with_tables]. rewrite lookup_insert_ne by done. auto.
Qed.

Lemma view_rename fp fn tp tn from c k rp s' :
  s.(dirs) !! fp = Some from → from !! fn = Some (c, k) →
  match rp with
  | None => True
  | Some x => (∃ k', entry s tp tn x k') ∧ fp ≠ x ∧ x ≠ 0
  end →
  apply s (Rename fp fn tp tn (default 0 rp)) = (s', Ok tt) →
  view s' I = t_move (view s I) fp fn tp tn (c, k) rp.
Proof.
  intros Hfp Hfn Hrp. cbn [apply]. rewrite Hfp, Hfn. unfold t_move. cbn [t_dirs view t_next].
  assert (Hal : alter (delete fn) fp (dirs s) = <[fp := delete fn from]> (dirs s)).
  { apply map_eq. intros i. destruct (decide (i = fp)) as [->|Hne].
    - by rewrite lookup_alter_eq, lookup_insert_eq, Hfp.
    - by rewrite lookup_alter_ne, lookup_insert_ne. }
  rewrite Hal. set (s1 := with_tables s (objects s) (<[fp:=delete fn from]> (dirs s))).
  assert (Hto : ∀ (ds : gmap Z DirTable) to, ds !! tp = Some to →
    <[tp := <[tn := (c, k)]> to]> ds = alter (fun tb => <[tn := (c, k)]> tb) tp ds).
  { intros ds to Hd. apply map_eq. intros i. destruct (decide (i = tp)) as [->|Hne].
    - by rewrite lookup_alter_eq, lookup_insert_eq, Hd.
    - by rewrite lookup_alter_ne, lookup_insert_ne. }
  destruct rp as [x|]; cbn [default].
  - destruct Hrp as ((k' & He) & Hfx & Hx0). unfold id. rewrite (proj2 (Z.eqb_neq x 0) Hx0). cbn [negb].
    destruct (entry_object tp tn x k' He) as (o & Ho & Hk & Hd).
    assert (Hv : view (drop_object s1 x) I =
      {| t_dirs := delete x (<[fp := delete fn from]> (dirs s)); t_files := delete x (view s I).(t_files);
         t_next := next_object s |}).
    { rewrite (view_drop s1 x o); [done|done|]. intros Hkd. cbn [dirs with_tables s1].
      rewrite lookup_insert_ne by done. auto. }
    pose proof (f_equal t_dirs Hv) as Hvd. pose proof (f_equal t_files Hv) as Hvf. pose proof (f_equal t_next Hv) as Hvn.
    cbn [t_dirs t_files t_next view] in Hvd, Hvf, Hvn.
    destruct (dirs (drop_object s1 x) !! tp) as [to|] eqn:Eto; [|done]. intros [= <-].
    unfold view. cbn [objects dirs next_object with_tables t_files]. rewrite Hvf, Hvn.
    f_equal. rewrite <- Hvd. by apply Hto.
  - cbn [Z.eqb negb]. destruct (dirs s1 !! tp) as [to|] eqn:Eto; [|done]. intros [= <-].
    unfold view. cbn [objects dirs next_object with_tables]. f_equal. by apply Hto.
Qed.
End View.

(** *** Files keep their shape *)

Lemma drop_object_objects s id i o :
  (drop_object s id).(objects) !! i = Some o → s.(objects) !! i = Some o.
Proof.
  destruct (objects s !! id) as [x|] eqn:E.
  - rewrite (drop_object_eq s id x E). cbn [objects]. by intros [_ ?]%lookup_delete_Some.
  - unfold drop_object. by rewrite E.
Qed.

Lemma apply_objects s o s' :
  (∀ id sz es, o ≠ Write id sz es) → apply s o = (s', Ok tt) →
  ∀ i x, s'.(objects) !! i = Some x → s.(objects) !! i = Some x ∨ x.(size) = 0 ∧ x.(extents) = [].
Proof.
  intros Hnw. destruct o as [p id k n|id sz es|p id n|fp fn tp tn rp]; cbn [apply].
  - destruct (dirs s !! p); [|done]. intros [= <-] i x. unfold bump_next.
    destruct (_ <=? _); cbn [objects with_tables]; intros [[<- <-]|[_ ?]]%lookup_insert_Some; auto.
  - by destruct (Hnw id sz es).
  - destruct (dirs s !! p); [|done]. intros [= <-] i x Hx. apply drop_object_objects in Hx. by left.
  - destruct (dirs s !! fp) as [t|]; [|done]. destruct (t !! fn); [|done].
    set (s1 := with_tables s _ _). set (s2 := if negb (rp =? 0) then drop_object s1 rp else s1).
    destruct (dirs s2 !! tp); [|done]. intros [= <-] i x Hx. left. cbn [objects with_tables] in Hx.
    unfold s2 in Hx. destruct (negb (rp =? 0)); [by apply drop_object_objects in Hx|done].
Qed.

Lemma files_ok_apply s o s' :
  (∀ id sz es, o ≠ Write id sz es) → apply s o = (s', Ok tt) → files_ok s → files_ok s'.
Proof.
  intros Hnw Ha Hf i x Hx. destruct (apply_objects s o s' Hnw Ha i x Hx) as [H|[Hsz He]]; [by apply (Hf i)|].
  rewrite Hsz, He. destruct (kind x =? KIND_DIR); [done|]. split; [unfold MAX_FILE_BYTES; lia|].
  by rewrite Z2Nat.inj_0, blocks_for_0.
Qed.

Section Refine.
Context {D : Type} `{BlockStore D}.
Abbreviation Nxfs := (Fs.Nxfs D).
Implicit Types fs : Nxfs.
Abbreviation img fs := (image fs.(Fs.dev)).
Abbreviation total fs := fs.(Fs.dev).(logical_blocks).

(** The tree a mounted volume holds. *)
Definition abs (fs : Nxfs) : tree := view fs.(Fs.state) (img fs).

Definition vinv (n : Z) (fs : Nxfs) : Prop := inv n fs ∧ files_ok fs.(Fs.state).

Definition exec (fs : Nxfs) (c : call) : Nxfs * result unit NxfsError :=
  match c with
  | Create path => Fs.create fs path
  | Mkdir path => Fs.mkdir fs path
  | WriteAt path offset data => Fs.write fs path offset data
  | Truncate path sz => Fs.truncate fs path sz
  | RemovePath path => Fs.remove fs path
  | RenamePath from to => Fs.rename fs from to
  | SyncAll => Fs.sync fs
  end.

(** Arguments of their Rust types. *)
Definition call_ok (c : call) : Prop :=
  match c with
  | Create path | Mkdir path | RemovePath path => path_ok path
  | WriteAt path offset data => path_ok path ∧ in_width 64 offset ∧ Forall is_byte data
  | Truncate path sz => path_ok path ∧ in_width 64 sz
  | RenamePath from to => path_ok from ∧ path_ok to
  | SyncAll => True
  end.

(** An outcome the abstract filesystem allows. *)
Definition allowed (n : Z) (fs : Nxfs) (c : call) (fs' : Nxfs) (r : result unit NxfsError) : Prop :=
  vinv (n + 2) fs' ∧ t_step (abs fs) c r (abs fs').

Lemma vinv_mono n m fs : vinv n fs → n ≤ m < 2 ^ 63 → vinv m fs.
Proof. intros [Hi Hf] Hm. split; [by eapply inv_mono|done]. Qed.

(** A call that changes nothing. *)
Lemma allowed_same n fs c r :
  vinv n fs → n + 2 < 2 ^ 63 → t_exec (abs fs) c = (abs fs, r) → allowed n fs c fs r.
Proof. intros Hv Hn Ht. split; [by eapply vinv_mono; [exact Hv|lia]|by apply step_done]. Qed.

(** A metadata transaction. *)
Lemma run_txn_allowed n fs c o t' fs' r :
  vinv n fs → n + 2 < 2 ^ 63 → op_valid fs.(Fs.state) o → (∀ id sz es, o ≠ Write id sz es) →
  t_exec (abs fs) c = (t', Ok tt) →
  (∀ s', apply fs.(Fs.state) o = (s', Ok tt) → view s' (img fs) = t') →
  Fs.run_txn fs [o] [] = (fs', r) → allowed n fs c fs' r.
Proof.
  intros [Hi Hf] Hn Hval Hnw Ht Hview Hrun.
  assert (Hwb : ∀ s, with_bitmap s (bitmap s) = s) by (by intros []).
  rewrite <- (with_state_id fs), <- (Hwb (Fs.state fs)) in Hrun.
  destruct (run_txn_spec n fs (bitmap (Fs.state fs)) o [] fs' r Hi Hn Hval ltac:(by rewrite Hwb) ltac:(by rewrite Hwb) Hrun)
    as (Hi' & Hvol & Hdi & Hres).
  pose proof (inv_state _ _ Hi) as (Hsok & Hst & Hsd). pose proof (inv_state _ _ Hi') as (Hsok' & Hst' & Hsd').
  assert (Htl : total fs' = total fs) by exact (ds_logical _ _ (sv_dev _ _ Hvol)).
  assert (Hblk : ∀ s, state_ok s → total_blocks s = total fs → data_start s = data_lb fs →
                 view s (img fs') = view s (img fs)).
  { intros s Hs Hts Hds. apply view_frame. intros i x Hown. apply data_img_blk; try done.
    - destruct (owned_range s i x Hs Hown). lia.
    - destruct (owned_range s i x Hs Hown). lia.
    - pose proof (shape_data _ (ok_shape s Hs)). lia. }
  destruct Hres as [[-> Ha]|[-> Hs]].
  - split; [split; [done|by eapply files_ok_apply]|]. apply step_done. rewrite Ht. f_equal. unfold abs.
    rewrite Hblk; [symmetry; by apply Hview|done|congruence|].
    rewrite Hsd'. unfold data_lb. by rewrite (sv_journal _ _ Hvol), (sv_cp _ _ Hvol).
  - split; [split; [done|by rewrite Hs]|]. unfold abs at 2. rewrite Hs, Hblk; [|done..].
    fold (abs fs). apply step_full. by rewrite Ht.
Qed.

Lemma resolve_parent_abs fs path : Fs.resolve_parent fs path = t_parent (abs fs) path.
Proof. done. Qed.

Lemma resolve_abs fs path : Fs.resolve fs path = t_resolve (abs fs) path.
Proof. done. Qed.

Lemma mknode_allowed n fs path k fs' r :
  vinv n fs → n + 2 < 2 ^ 63 → path_ok path → k = KIND_FILE ∨ k = KIND_DIR →
  Fs.mknode fs path k = (fs', r) →
  ∀ c, t_exec (abs fs) c = t_mknode (abs fs) path k → allowed n fs c fs' r.
Proof.
  intros Hv Hn Hp Hk Hm c Hc. pose proof Hv as [Hi _]. pose proof (inv_state _ _ Hi) as (Hsok & _).
  unfold Fs.mknode in Hm. unfold t_mknode in Hc. rewrite resolve_parent_abs in Hm.
  destruct (t_parent (abs fs) path) as [[p nm]|e] eqn:Epa; cbn [Fs.check t_check] in Hm, Hc;
    [|injection Hm as <- <-; by apply allowed_same].
  destruct (validate_name nm) as [[]|e] eqn:Evn; cbn [Fs.check t_check] in Hm, Hc;
    [|injection Hm as <- <-; by apply allowed_same].
  change (t_dirs (abs fs)) with (dirs (Fs.state fs)) in Hc.
  destruct (dirs (Fs.state fs) !! p) as [t|] eqn:Et; cbn [Fs.check t_check ok_or] in Hm, Hc;
    [|injection Hm as <- <-; by apply allowed_same].
  case_bool_decide as Hex; [injection Hm as <- <-; by apply allowed_same|].
  eapply run_txn_allowed; [done|done| | |exact Hc| |exact Hm].
  - split_and!; [done|by rewrite Et| | |done|].
    + intros x k' (t' & Ht' & Hx). simplify_eq. apply Hex. by rewrite Hx.
    + apply validate_name_ok; [|done]. by eapply t_parent_segment.
    + destruct (inv_count _ _ Hi). lia.
  - done.
  - intros s' Ha. by rewrite (view_mknode (Fs.state fs) (img fs) Hsok p k nm t s' (Ok tt) Et Hk Ha).
Qed.

Lemma remove_allowed n fs path fs' r :
  vinv n fs → n + 2 < 2 ^ 63 → path_ok path → Fs.remove fs path = (fs', r) →
  allowed n fs (RemovePath path) fs' r.
Proof.
  intros Hv Hn Hp Hm. pose proof Hv as [Hi _]. pose proof (inv_state _ _ Hi) as (Hsok & _).
  assert (Hc : t_exec (abs fs) (RemovePath path) = t_remove (abs fs) path) by done.
  unfold Fs.remove in Hm. unfold t_remove in Hc. rewrite resolve_parent_abs in Hm.
  destruct (t_parent (abs fs) path) as [[p nm]|e] eqn:Epa; cbn [Fs.check t_check] in Hm, Hc;
    [|injection Hm as <- <-; by apply allowed_same].
  change (t_dirs (abs fs)) with (dirs (Fs.state fs)) in Hc.
  destruct (dirs (Fs.state fs) !! p) as [t|] eqn:Et; cbn [Fs.check t_check ok_or] in Hm, Hc;
    [|injection Hm as <- <-; by apply allowed_same].
  destruct (t !! nm) as [[id k]|] eqn:En; cbn [Fs.check t_check ok_or] in Hm, Hc;
    [|injection Hm as <- <-; by apply allowed_same].
  assert (He : entry (Fs.state fs) p nm id k) by (by exists t).
  rewrite (busy_view (Fs.state fs) (img fs) Hsok p nm id k He) in Hm. fold (abs fs) in Hm.
  destruct (t_busy (abs fs) id) eqn:Eb; [injection Hm as <- <-; by apply allowed_same|].
  assert (Hb' : Fs.dir_busy (Fs.state fs) id k = false) by
    (by rewrite (busy_view (Fs.state fs) (img fs) Hsok p nm id k He)).
  destruct (entry_not_self (Fs.state fs) Hsok p nm id k t Et En Hb') as [Hempty Hpi].
  eapply run_txn_allowed; [done|done| | |exact Hc| |exact Hm].
  - by exists k.
  - done.
  - intros s' Ha. by rewrite (view_remove (Fs.state fs) (img fs) Hsok p id nm t k s' (Ok tt) Et En Hpi Ha).
Qed.

Lemma rename_allowed n fs from to fs' r :
  vinv n fs → n + 2 < 2 ^ 63 → path_ok from → path_ok to → Fs.rename fs from to = (fs', r) →
  allowed n fs (RenamePath from to) fs' r.
Proof.
  intros Hv Hn Hpf Hpt Hm. pose proof Hv as [Hi _]. pose proof (inv_state _ _ Hi) as (Hsok & _).
  assert (Hc : t_exec (abs fs) (RenamePath from to) = t_rename (abs fs) from to) by done.
  unfold Fs.rename in Hm. unfold t_rename in Hc. rewrite !resolve_parent_abs in Hm.
  destruct (t_parent (abs fs) from) as [[fp fn]|e] eqn:Efa; cbn [Fs.check t_check] in Hm, Hc;
    [|injection Hm as <- <-; by apply allowed_same].
  destruct (t_parent (abs fs) to) as [[tp tn]|e] eqn:Eta; cbn [Fs.check t_check] in Hm, Hc;
    [|injection Hm as <- <-; by apply allowed_same].
  destruct (validate_name tn) as [[]|e] eqn:Evn; cbn [Fs.check t_check] in Hm, Hc;
    [|injection Hm as <- <-; by apply allowed_same].
  change (t_dirs (abs fs)) with (dirs (Fs.state fs)) in Hc.
  destruct (dirs (Fs.state fs) !! fp) as [ft|] eqn:Eft; cbn [Fs.check t_check ok_or] in Hm, Hc;
    [|injection Hm as <- <-; by apply allowed_same].
  destruct (ft !! fn) as [[mid mk]|] eqn:Efn; cbn [Fs.check t_check ok_or] in Hm, Hc;
    [|injection Hm as <- <-; by apply allowed_same].
  destruct (dirs (Fs.state fs) !! tp) as [tt'|] eqn:Ett; cbn [Fs.check t_check ok_or] in Hm, Hc;
    [|injection Hm as <- <-; by apply allowed_same].
  assert (Hname : name_ok tn) by (apply validate_name_ok; [by eapply t_parent_segment|done]).
  destruct (tt' !! tn) as [[ex k]|] eqn:Etn.
  - destruct (Z.eqb_spec ex mid) as [Heq|Hne]; [injection Hm as <- <-; by apply allowed_same|].
    assert (He : entry (Fs.state fs) tp tn ex k) by (by exists tt').
    rewrite (busy_view (Fs.state fs) (img fs) Hsok tp tn ex k He) in Hm. fold (abs fs) in Hm.
    destruct (t_busy (abs fs) ex) eqn:Eb; [injection Hm as <- <-; by apply allowed_same|].
    assert (Hb' : Fs.dir_busy (Fs.state fs) ex k = false) by
      (by rewrite (busy_view (Fs.state fs) (img fs) Hsok tp tn ex k He)).
    destruct (entry_not_self (Fs.state fs) Hsok tp tn ex k tt' Ett Etn Hb') as [Hempty _].
    assert (Hfx : fp ≠ ex) by (eapply (entry_parent_ne (Fs.state fs) fp fn mid mk); [by exists ft|done]).
    assert (Hx0 : ex ≠ 0).
    { destruct (entry_object (Fs.state fs) Hsok tp tn ex k He) as (o & Ho & _).
      assert (is_Some (objects (Fs.state fs) !! ex)) as Hid%(ok_ids _ Hsok) by (by rewrite Ho).
      unfold ROOT_OBJECT in Hid. lia. }
    eapply run_txn_allowed; [done|done| | |exact Hc| |exact Hm].
    + exists mid, mk. split_and!; [by exists ft|by rewrite Ett|done|]. right. split_and!; [by exists k|done|done].
    + done.
    + intros s' Ha. apply (view_rename (Fs.state fs) (img fs) Hsok fp fn tp tn ft mid mk (Some ex)); try done.
      by split_and!; [exists k|..].
  - eapply run_txn_allowed; [done|done| | |exact Hc| |exact Hm].
    + exists mid, mk. split_and!; [by exists ft|by rewrite Ett|done|]. left. split; [done|].
      intros c' k' (t' & Ht' & Hx). simplify_eq.
    + done.
    + intros s' Ha. by apply (view_rename (Fs.state fs) (img fs) Hsok fp fn tp tn ft mid mk None).
Qed.

Lemma sync_allowed n fs fs' r :
  vinv n fs → n + 2 < 2 ^ 63 → Fs.sync fs = (fs', r) → allowed n fs SyncAll fs' r.
Proof.
  intros [Hi Hf] Hn. unfold Fs.sync. destruct (sync_spec (Fs.dev fs)) as (d & Hw & Hs & Himg); [apply Hi|].
  rewrite Hw. intros [= <- <-]. destruct (inv_data n fs d Hi Hs) as [Hi' _]; [intros; by rewrite Himg|].
  split; [split; [by eapply inv_mono; [exact Hi'|lia]|done]|]. apply step_done. cbn [t_exec]. f_equal.
  unfold abs, view. cbn [Fs.state Fs.dev Fs.with_dev]. by rewrite Himg.
Qed.

(** *** Contents *)

Lemma file_facts n fs id o :
  vinv n fs → fs.(Fs.state).(objects) !! id = Some o → o.(kind) = KIND_FILE →
  Fs.materialize fs o.(extents) o.(size) = Ok (file_bytes (img fs) o) ∧
  vlen (file_bytes (img fs) o) = o.(size) ∧ Forall is_byte (file_bytes (img fs) o).
Proof.
  intros [Hi Hf] Ho Hk. pose proof (inv_state _ _ Hi) as (Hsok & Hst & Hsd).
  pose proof (geo_dev fs (inv_geo _ _ Hi)) as Hd. pose proof (shape_data _ (ok_shape _ Hsok)) as Hsh.
  specialize (Hf id o Ho). rewrite Hk in Hf. cbn [Z.eqb KIND_FILE KIND_DIR] in Hf. destruct Hf as [Hmax Hcnt].
  destruct (ok_objects _ Hsok id o Ho) as [_ [Hs0 _] Hes _ _ _].
  assert (Hlen : length (contents (img fs) (extents o)) = (count (extents o) * LB)%nat).
  { apply contents_length. intros x Hx. apply (image_room (Fs.dev fs) x Hd).
    destruct (owned_range (Fs.state fs) id x Hsok ltac:(by exists o)). lia. }
  assert (Hfit : (Z.to_nat (size o) ≤ length (contents (img fs) (extents o)))%nat).
  { rewrite Hlen, Hcnt. apply blocks_for_ge. }
  split_and!.
  - apply materialize_spec; [done| |lia|done]. eapply Forall_impl; [exact Hes|].
    intros e (E1 & E2 & E3). unfold on_device. lia.
  - unfold file_bytes, vlen. rewrite length_take. lia.
  - apply Forall_take. unfold contents. apply concat_map_byte. intros x _. by apply slice_byte, image_byte.
Qed.

(** The view after [Write]. *)
Lemma view_write s I id o sz es s' r :
  state_ok s → s.(objects) !! id = Some o → o.(kind) = KIND_FILE → extents_fresh s es →
  apply s (Write id sz es) = (s', r) →
  view s' I = set_file (view s I) id (take (Z.to_nat sz) (contents I es)) ∧
  s'.(objects) = <[id := {| kind := KIND_FILE; size := sz; extents := es |}]> s.(objects).
Proof.
  intros Hs Ho Hk Hf Ha. rewrite (apply_write s id o) in Ha; [|done..|apply Hf]. injection Ha as <- <-.
  unfold set_contents. rewrite Hk. split; [|done]. unfold view, set_file. cbn [objects dirs next_object t_dirs t_files t_next].
  f_equal. apply map_eq. intros i. rewrite lookup_omap. destruct (decide (i = id)) as [->|Hne].
  - by rewrite !lookup_insert_eq.
  - rewrite !lookup_insert_ne by done. by rewrite lookup_omap.
Qed.

Lemma rewrite_allowed n fs c id o b fs' r :
  vinv n fs → n + 2 < 2 ^ 63 → fs.(Fs.state).(objects) !! id = Some o → o.(kind) = KIND_FILE →
  Forall is_byte b → vlen b ≤ MAX_FILE_BYTES → t_exec (abs fs) c = (set_file (abs fs) id b, Ok tt) →
  Fs.rewrite fs id b = (fs', r) → allowed n fs c fs' r.
Proof.
  intros [Hi Hf] Hn Ho Hk Hb Hmax Hc Hrw. pose proof (inv_state _ _ Hi) as (Hsok & Hst & Hsd).
  destruct (rewrite_spec n fs id o b fs' r Hi Hn Ho Hk Hb Hmax Hrw) as (Hi' & Hvol & Hframe & Hres).
  assert (Hv : view (Fs.state fs) (img fs') = abs fs) by (by apply view_frame).
  destruct Hres as [[-> (es & Ha & Hfresh & Hcnt & Hcont)]|[-> Hs]].
  - destruct (view_write _ (img fs') id o (vlen b) es _ _ Hsok Ho Hk Hfresh Ha) as [Hview Hobjs].
    rewrite Hv, Hcont in Hview. unfold vlen in Hview. rewrite Nat2Z.id in Hview.
    unfold padded in Hview. rewrite take_app_length in Hview. split.
    + split; [done|]. intros i x Hx. rewrite Hobjs in Hx. apply lookup_insert_Some in Hx as [[<- <-]|[_ Hx]]; [|by apply (Hf i)].
      cbn [kind Z.eqb KIND_FILE KIND_DIR size extents]. split; [done|]. unfold vlen. by rewrite Nat2Z.id.
    + apply step_done. rewrite Hc. f_equal. symmetry. exact Hview.
  - split; [split; [done|by rewrite Hs]|]. unfold abs at 2. rewrite Hs, Hv. apply step_full. by rewrite Hc.
Qed.

(** The object behind a path, on both sides. *)
Lemma lookup_abs n fs path :
  vinv n fs →
  match Fs.lookup_object fs path with
  | Err e => t_resolve (abs fs) path = Err e
  | Ok (id, o) =>
      t_resolve (abs fs) path = Ok id ∧ fs.(Fs.state).(objects) !! id = Some o ∧
      (o.(kind) = KIND_DIR ∧ (abs fs).(t_files) !! id = None ∨
       o.(kind) = KIND_FILE ∧ (abs fs).(t_files) !! id = Some (file_bytes (img fs) o))
  end.
Proof.
  intros [Hi _]. pose proof (inv_state _ _ Hi) as (Hsok & _). unfold Fs.lookup_object. rewrite resolve_abs.
  destruct (t_resolve (abs fs) path) as [id|e] eqn:E; [|done]. cbn [result_bind].
  assert (Ho : is_Some (objects (Fs.state fs) !! id)).
  { unfold t_resolve in E. destruct (split path) as [parts|]; [|done]. cbn [result_bind] in E.
    eapply walk_object; [done| |exact E]. by apply root_object. }
  destruct Ho as [o Ho]. rewrite Ho. cbn [ok_or result_bind]. split_and!; [done..|].
  assert (Hv : t_files (abs fs) !! id = file_view (img fs) o) by (unfold abs; rewrite view_files, Ho; done).
  rewrite Hv. unfold file_view. destruct (kind_cases _ id o Hsok Ho) as [->| ->]; [by right|by left].
Qed.

Lemma resize_length n l : length (resize n l) = n.
Proof. unfold resize. rewrite length_app, length_take, length_zeros. lia. Qed.

Lemma resize_byte n l : Forall is_byte l → Forall is_byte (resize n l).
Proof. intros. apply Forall_app_2; [by apply Forall_take|apply zeros_byte]. Qed.

Lemma write_allowed n fs path offset data fs' r :
  vinv n fs → n + 2 < 2 ^ 63 → path_ok path → in_width 64 offset → Forall is_byte data →
  Fs.write fs path offset data = (fs', r) → allowed n fs (WriteAt path offset data) fs' r.
Proof.
  intros Hv Hn Hp Hoff Hdb Hm. pose proof (lookup_abs n fs path Hv) as Hl.
  assert (Hc : t_exec (abs fs) (WriteAt path offset data) = t_write (abs fs) path offset data) by done.
  unfold Fs.write in Hm. unfold t_write in Hc.
  destruct (Fs.lookup_object fs path) as [[id o]|e]; cbn [Fs.check] in Hm; cycle 1.
  { rewrite Hl in Hc. cbn [t_check] in Hc. injection Hm as <- <-. by apply allowed_same. }
  destruct Hl as (Hr & Ho & Hkind). rewrite Hr in Hc. cbn [t_check] in Hc.
  destruct Hkind as [[Hk Hf]|[Hk Hf]]; rewrite Hf in Hc; rewrite Hk in Hm; cbn [Z.eqb KIND_FILE KIND_DIR Pos.eqb] in Hm.
  { injection Hm as <- <-. by apply allowed_same. }
  destruct (file_facts n fs id o Hv Ho Hk) as (Hmat & Hvl & Hfb). rewrite Hvl in Hc.
  set (ns := Z.max (size o) (saturating_add 64 offset (vlen data))) in *.
  destruct (Z.ltb_spec MAX_FILE_BYTES ns) as [Hbig|Hok]; [injection Hm as <- <-; by apply allowed_same|].
  rewrite Hmat in Hm. cbn [Fs.check] in Hm.
  assert (Hfit : (Z.to_nat offset + length data ≤ Z.to_nat ns)%nat).
  { unfold ns, saturating_add, max_of, MAX_FILE_BYTES, vlen, in_width in *. lia. }
  eapply rewrite_allowed; [done|done|exact Ho|done| | |exact Hc|exact Hm].
  - apply splice_byte; [by apply resize_byte|done].
  - unfold vlen. rewrite splice_length by (rewrite resize_length; lia). rewrite resize_length.
    pose proof (vlen_nonneg data). unfold ns, saturating_add, max_of, in_width in *. lia.
Qed.

Lemma truncate_allowed n fs path sz fs' r :
  vinv n fs → n + 2 < 2 ^ 63 → path_ok path → in_width 64 sz →
  Fs.truncate fs path sz = (fs', r) → allowed n fs (Truncate path sz) fs' r.
Proof.
  intros Hv Hn Hp Hsz Hm. pose proof (lookup_abs n fs path Hv) as Hl.
  assert (Hc : t_exec (abs fs) (Truncate path sz) = t_truncate (abs fs) path sz) by done.
  unfold Fs.truncate in Hm. unfold t_truncate in Hc.
  destruct (Fs.lookup_object fs path) as [[id o]|e]; cbn [Fs.check] in Hm; cycle 1.
  { rewrite Hl in Hc. cbn [t_check] in Hc. injection Hm as <- <-. by apply allowed_same. }
  destruct Hl as (Hr & Ho & Hkind). rewrite Hr in Hc. cbn [t_check] in Hc.
  destruct Hkind as [[Hk Hf]|[Hk Hf]]; rewrite Hf in Hc; rewrite Hk in Hm; cbn [Z.eqb KIND_FILE KIND_DIR Pos.eqb] in Hm.
  { injection Hm as <- <-. by apply allowed_same. }
  destruct (file_facts n fs id o Hv Ho Hk) as (Hmat & Hvl & Hfb).
  destruct (Z.ltb_spec MAX_FILE_BYTES sz) as [Hbig|Hok]; [injection Hm as <- <-; by apply allowed_same|].
  rewrite Hmat in Hm. cbn [Fs.check] in Hm.
  eapply rewrite_allowed; [done|done|exact Ho|done|by apply resize_byte| |exact Hc|exact Hm].
  unfold vlen. rewrite resize_length. unfold in_width in Hsz. lia.
Qed.

(** Every call is one the abstract filesystem allows. *)
Lemma exec_allowed n fs c fs' r :
  vinv n fs → n + 2 < 2 ^ 63 → call_ok c → exec fs c = (fs', r) → allowed n fs c fs' r.
Proof.
  intros Hv Hn Hc He. destruct c as [path|path|path off data|path sz|path|from to|]; cbn [call_ok exec] in *.
  - eapply (mknode_allowed n fs path KIND_FILE); try done. by left.
  - eapply (mknode_allowed n fs path KIND_DIR); try done. by right.
  - destruct Hc as (Hp & Ho & Hd). by apply write_allowed.
  - destruct Hc. by apply truncate_allowed.
  - by apply remove_allowed.
  - destruct Hc. by apply rename_allowed.
  - by apply sync_allowed.
Qed.

(** *** Reading *)

Lemma read_abs n fs path offset len :
  vinv n fs → 0 ≤ offset → Fs.read fs path offset len = t_read (abs fs) path offset len.
Proof.
  intros Hv Hoff. pose proof (lookup_abs n fs path Hv) as Hl. unfold Fs.read, t_read.
  destruct (Fs.lookup_object fs path) as [[id o]|e]; cbn [result_bind]; [|by rewrite Hl].
  destruct Hl as (Hr & Ho & Hkind). rewrite Hr. cbn [result_bind snd].
  destruct Hkind as [[Hk Hf]|[Hk Hf]]; rewrite Hf, Hk; cbn [Z.eqb KIND_FILE KIND_DIR Pos.eqb]; [done|].
  destruct (file_facts n fs id o Hv Ho Hk) as (Hmat & Hvl & Hfb). rewrite Hmat. cbn [result_bind]. by rewrite Hvl.
Qed.

Lemma stat_abs n fs path : vinv n fs → Fs.stat fs path = t_stat (abs fs) path.
Proof.
  intros Hv. pose proof (lookup_abs n fs path Hv) as Hl. unfold Fs.stat, t_stat, kind_of.
  destruct (Fs.lookup_object fs path) as [[id o]|e]; cbn [result_bind]; [|by rewrite Hl].
  destruct Hl as (Hr & Ho & Hkind). rewrite Hr. cbn [result_bind snd].
  destruct Hkind as [[Hk Hf]|[Hk Hf]]; rewrite Hf, Hk; cbn [Z.eqb KIND_FILE KIND_DIR Pos.eqb].
  - destruct Hv as [_ Hfo]. specialize (Hfo id o Ho). rewrite Hk in Hfo. cbn in Hfo. by rewrite Hfo.
  - destruct (file_facts n fs id o Hv Ho Hk) as (_ & Hvl & _). by rewrite Hvl.
Qed.

(** *** Formatting and runs *)

Definition opts_ok (opts : MkfsOptions) : Prop :=
  length opts.(opt_uuid) = 16%nat ∧ Forall is_byte opts.(opt_uuid) ∧ 0 ≤ opts.(opt_journal_blocks).

Lemma mkfs_inv (d : D) opts fs :
  dev_wf d → block_count d < 2 ^ 64 → opts_ok opts → Fs.mkfs d opts = Ok fs →
  vinv 3 fs ∧ abs fs = empty_tree.
Proof.
  intros Hw Hbc (Hu & Hub & Hj0). unfold Fs.mkfs. destruct (dev_new d) as [dv|] eqn:En; [|done]. cbn [result_bind].
  destruct (dev_new_ok d dv Hw En) as [Hd Hdi]. set (jb := opt_journal_blocks opts).
  set (cp := checkpoint_blocks (logical_blocks dv)).
  destruct (Z.ltb_spec (logical_blocks dv) (1 + jb + 2 * cp + 8)) as [|Hroom]; [done|]. cbn [orb].
  destruct (Z.eqb_spec jb 0) as [|Hj]; [done|]. destruct (NxfsDev.read dv 0 (zeros LB)) as [blk0|]; [|done].
  cbn [result_bind]. destruct (is_ok (sb_decode blk0)); [done|].
  match goal with |- context [Fs.write_checkpoint ?f] => set (f0 := f) end.
  assert (Hlw : logical_blocks dv < 2 ^ 64).
  { destruct Hd as [_ Hs Hb Hc]. rewrite Hdi in Hc. assert (0 < sectors_per_block dv)%nat by (pose proof LB_pos; nia). nia. }
  pose proof (checkpoint_blocks_bound (logical_blocks dv)) as Hcpb. fold cp in Hcpb. fold jb in Hj0.
  assert (Hg : fs_geo f0).
  { split; cbn [Fs.dev Fs.sb Fs.cp_blocks f0 sb_total_blocks journal_start journal_blocks]; try done; try lia.
    - by rewrite Hdi.
    - unfold sb_ok. cbn [uuid sb_total_blocks journal_start journal_blocks slot0 slot1 enc_mode].
      unfold slot_ok, default_slot, in_width, is_byte. cbn. fold jb. split_and!; try done; lia. }
  assert (Hfit : fits f0 (Fs.state f0)).
  { split; [apply new_empty_ok; lia|]. cbn [Fs.state f0]. rewrite new_empty_eq. done. }
  assert (Hc : counted 2 f0).
  { split; cbn [Fs.sb Fs.next_txn Fs.state f0 slot0 slot1 generation default_slot]; try lia.
    rewrite new_empty_eq. cbn. unfold ROOT_OBJECT. lia. }
  destruct (write_checkpoint_spec 2 f0 Hg Hfit Hc ltac:(lia)) as [->|(f & -> & Hi & Hvol & Hst & _)]; [done|].
  cbn [result_bind]. intros [= <-]. split.
  - split; [done|]. rewrite Hst. intros i x Hx. cbn [Fs.state f0] in Hx. rewrite new_empty_eq in Hx. cbn [objects] in Hx.
    apply lookup_singleton_Some in Hx as [_ <-]. done.
  - unfold abs. rewrite Hst. cbn [Fs.state f0]. rewrite new_empty_eq. unfold view, empty_tree.
    reflexivity.
Qed.

Fixpoint exec_all (fs : Nxfs) (cs : list call) : Nxfs * list (result unit NxfsError) :=
  match cs with
  | [] => (fs, [])
  | c :: cs' =>
      let '(fs, r) := exec fs c in
      let '(fs, rs) := exec_all fs cs' in
      (fs, r :: rs)
  end.

Lemma exec_all_allowed n fs cs fs' rs :
  vinv n fs → n + 2 * vlen cs < 2 ^ 63 → Forall call_ok cs → exec_all fs cs = (fs', rs) →
  vinv (n + 2 * vlen cs) fs' ∧ t_run (abs fs) cs rs (abs fs').
Proof.
  intros Hv Hn Hcs. revert n fs fs' rs Hv Hn. induction Hcs as [|c cs Hc _ IH]; intros n fs fs' rs Hv Hn; cbn [exec_all].
  - intros [= <- <-]. split; [change (vlen []) with 0; by replace (n + 2 * 0) with n by lia|constructor].
  - assert (Hl : vlen (c :: cs) = vlen cs + 1) by (unfold vlen; cbn [length]; lia). rewrite Hl in *.
    pose proof (vlen_nonneg cs). destruct (exec fs c) as [f1 r] eqn:E1. destruct (exec_all f1 cs) as [f2 rs'] eqn:E2.
    intros [= <- <-]. destruct (exec_allowed n fs c f1 r Hv ltac:(lia) Hc E1) as [Hv1 Hstep].
    destruct (IH (n + 2) f1 f2 rs' Hv1 ltac:(lia) E2) as [Hv2 Hrun]. split; [|by eapply run_cons].
    by replace (n + 2 * (vlen cs + 1)) with (n + 2 + 2 * vlen cs) by lia.
Qed.

Lemma mount_abs n fs :
  vinv n fs → tail_quiet fs = true →
  ∃ fs', Fs.mount (Fs.into_device fs) = Ok fs' ∧ abs fs' = abs fs ∧ fs'.(Fs.state) = fs.(Fs.state) ∧
         fs'.(Fs.dev) = fs.(Fs.dev).
Proof.
  intros [[Hg Hst Hc (s0 & wm & txns & log & Hd & _)] _] Hq.
  destruct (mount_inv fs s0 wm txns log Hg Hd Hq) as (fs' & Hm & Hdev & _ & Hs & _).
  exists fs'. split_and!; try done. unfold abs. by rewrite Hdev, Hs.
Qed.
End Refine.
