(* ===== verification/NxfsTheorems.v ===== *)
(** The main results on nxfs volumes: refinement of the abstract filesystem,
    durability across a remount, the invariant of the state and the checkpoint
    round trip. *)

From S2P Require Import Prelude Bytes Storage NxfsFormat NxfsJournal NxfsJournalProps NxfsState NxfsStateProps NxfsTree NxfsCheckpoint NxfsDev Nxfs NxfsLog NxfsInv NxfsEngine NxfsFiles NxfsRefine.

(** A volume that was formatted and then used through [cs], with results [rs]. *)
Record used {D} `{BlockStore D} (cs : list call) (rs : list (result unit NxfsError))
    (fs : Fs.Nxfs D) : Prop := {
  used_from : ∃ d opts fs0, dev_wf d ∧ block_count d < 2 ^ 64 ∧ opts_ok opts ∧
                Fs.mkfs d opts = Ok fs0 ∧ exec_all fs0 cs = (fs, rs);
  used_calls : Forall call_ok cs;
  used_short : vlen cs < 2 ^ 61
}.

Section Used.
Context {D : Type} `{BlockStore D}.

Lemma used_run cs rs (fs : Fs.Nxfs D) :
  used cs rs fs → ∃ n, vinv n fs ∧ n + 4 < 2 ^ 63 ∧ t_run empty_tree cs rs (abs fs).
Proof.
  intros [(d & opts & fs0 & Hw & Hc & Ho & Hm & He) Hcs Hl].
  destruct (mkfs_inv d opts fs0 Hw Hc Ho Hm) as [Hv Ht].
  destruct (exec_all_allowed 3 fs0 cs fs rs Hv ltac:(lia) Hcs He) as [Hv' Hr].
  rewrite Ht in Hr. eexists. split_and!; [done|lia|done].
Qed.
End Used.

(** C11: nxfs implements the abstract filesystem on every block device in
    working order: whatever calls a freshly formatted volume has served, their
    results and the final tree are those of a run of the abstract filesystem in
    which a call either does what it should or is refused with [NoSpace] without
    effect; and [read] and [stat] answer from that tree. *)
Theorem nxfs_refines_tree {D} `{BlockStore D} cs rs (fs : Fs.Nxfs D) :
  used cs rs fs →
  t_run empty_tree cs rs (abs fs) ∧
  (∀ path offset len, 0 ≤ offset → Fs.read fs path offset len = t_read (abs fs) path offset len) ∧
  (∀ path, Fs.stat fs path = t_stat (abs fs) path).
Proof.
  intros Hu. destruct (used_run cs rs fs Hu) as (n & Hv & _ & Hr). split_and!; [done| |].
  - intros. by eapply read_abs.
  - intros. by eapply stat_abs.
Qed.

(** Nothing is lost across a remount: mounting the device of a volume in
    use succeeds and gives the same tree, the same tables and allocation
    bitmap, so every path reads and stats as before.  The hypothesis holds by
    definition unless the journal ends exactly at a block boundary; there it
    says that the bytes behind it (left over from before the last checkpoint)
    replay to nothing. *)
Theorem nxfs_remount {D} `{BlockStore D} cs rs (fs : Fs.Nxfs D) :
  used cs rs fs → tail_quiet fs = true →
  ∃ fs', Fs.mount (Fs.into_device fs) = Ok fs' ∧ abs fs' = abs fs ∧
    fs'.(Fs.state) = fs.(Fs.state) ∧
    (∀ path offset len, Fs.read fs' path offset len = Fs.read fs path offset len) ∧
    (∀ path, Fs.stat fs' path = Fs.stat fs path).
Proof.
  intros Hu Hq. destruct (used_run cs rs fs Hu) as (n & Hv & _).
  destruct (mount_abs n fs Hv Hq) as (fs' & Hm & Ha & Hs & Hd). exists fs'. split_and!; [done..| |].
  - intros. unfold Fs.read, Fs.lookup_object, Fs.resolve, Fs.materialize. by rewrite Hs, Hd.
  - intros. unfold Fs.stat, Fs.lookup_object, Fs.resolve. by rewrite Hs.
Qed.

(** C16: the metadata of a volume in use is consistent: every table belongs to a
    directory object, every name leads to an existing object and no object has
    two names, the extents of different files never overlap, and the bitmap
    marks exactly the reserved blocks and the extents; and a checkpoint of this
    state decodes to exactly this state, bitmap included. *)
Theorem nxfs_state_consistent {D} `{BlockStore D} cs rs (fs : Fs.Nxfs D) txn :
  used cs rs fs →
  let s := fs.(Fs.state) in
  (∀ p t n c k, s.(dirs) !! p = Some t → t !! n = Some (c, k) →
     (∃ o, s.(objects) !! p = Some o ∧ o.(kind) = KIND_DIR) ∧
     (∃ o, s.(objects) !! c = Some o ∧ o.(kind) = k)) ∧
  (∀ p n k p' n' k' c, entry s p n c k → entry s p' n' c k' → p = p' ∧ n = n') ∧
  (∀ id id' x, owns s id x → owns s id' x → id = id') ∧
  (∀ x, 0 ≤ x < s.(total_blocks) → is_used s x = true ↔ reserved s x ∨ ∃ id, owns s id x) ∧
  (in_width 64 txn → vlen (encode s txn) < 2 ^ 32 →
   decode (encode s txn) s.(total_blocks) s.(data_start) = Ok (s, txn)).
Proof.
  intros Hu s. destruct (used_run cs rs fs Hu) as (n & [Hi _] & _). destruct (inv_state _ _ Hi) as (Hs & _).
  fold s in Hs. split_and!.
  - intros p t nm c k Ht Hn. split; [by eapply dirs_kind|].
    destruct (ok_entries s Hs p nm c k) as (_ & _ & Ho); [by exists t|done].
  - apply (ok_unique s Hs).
  - apply (ok_disjoint s Hs).
  - intros x Hx. rewrite is_used_bit. apply (ok_bitmap s Hs). by apply covered_block; [apply Hs|].
  - intros Ht Hl. by apply checkpoint_roundtrip_sec.
Qed.

(** ** A volume *)

(** 48 blocks of 4 KiB, a journal of two blocks. *)
Definition demo_device : Mem.MemBlockDevice := Mem.new 4096 48.
Definition demo_opts : MkfsOptions := {| opt_uuid := replicate 16 7; opt_journal_blocks := 2 |}.

(** /d *)
Definition path_d : bytes := [47; 100].
(** /d/f *)
Definition path_df : bytes := [47; 100; 47; 102].
(** /g *)
Definition path_g : bytes := [47; 103].

Definition demo_calls : list call :=
  [Mkdir path_d; Create path_df; WriteAt path_df 2 [1; 2; 3]; RenamePath path_df path_g].

Definition demo_run : result (Fs.Nxfs Mem.MemBlockDevice * list (result unit NxfsError)) NxfsError :=
  let? fs := Fs.mkfs demo_device demo_opts in Ok (exec_all fs demo_calls).

Lemma demo_paths : Forall call_ok demo_calls.
Proof.
  assert (Hb : ∀ l, forallb (fun x => (0 <=? x) && (x <? 256)) l = true → Forall is_byte l).
  { intros l Hl. apply Forall_forall. intros x Hx%list_elem_of_In. rewrite forallb_forall in Hl.
    apply Hl in Hx. simpl_bool. unfold is_byte. lia. }
  assert (Hd : path_ok path_d) by (split; [by vm_compute|apply Hb; by vm_compute]).
  assert (Hf : path_ok path_df) by (split; [by vm_compute|apply Hb; by vm_compute]).
  assert (Hg : path_ok path_g) by (split; [by vm_compute|apply Hb; by vm_compute]).
  repeat (apply Forall_cons_2 || apply Forall_nil_2); cbn [call_ok]; try done.
  split_and!; [done|unfold in_width; lia..|apply Hb; by vm_compute].
Qed.

Lemma demo_used fs rs : demo_run = Ok (fs, rs) → used demo_calls rs fs.
Proof.
  unfold demo_run. destruct (Fs.mkfs demo_device demo_opts) as [fs0|] eqn:Em; [|done]. cbn [result_bind].
  intros [= He]. split.
  - exists demo_device, demo_opts, fs0. split_and!; [apply Mem.new_wf; lia|by vm_compute| |done|exact He].
    split_and!; [done|apply Forall_replicate; unfold is_byte; lia|done].
  - apply demo_paths.
  - done.
Qed.

(** The demo volume: the moved file holds the bytes, before and after a
    remount. *)
Lemma nxfs_refines_tree_witness :
  ∃ fs rs, demo_run = Ok (fs, rs) ∧ rs = [Ok tt; Ok tt; Ok tt; Ok tt] ∧
    t_run empty_tree demo_calls rs (abs fs) ∧ t_read (abs fs) path_g 0 10 = Ok [0; 0; 1; 2; 3].
Proof.
  destruct demo_run as [[fs rs]|] eqn:E; [|by vm_compute in E].
  assert (Hx : (let? p := demo_run in Ok (p.2, Fs.read p.1 path_g 0 10)) =
               Ok ([Ok tt; Ok tt; Ok tt; Ok tt], Ok [0; 0; 1; 2; 3])) by (vm_compute; reflexivity).
  rewrite E in Hx. cbn [result_bind fst snd] in Hx. injection Hx as Hrs Hrd.
  assert (H0 : 0 ≤ 0) by lia.
  destruct (nxfs_refines_tree demo_calls rs fs (demo_used fs rs E)) as (Hr & Hread & _).
  exists fs, rs. split; [exact eq_refl|]. split; [exact Hrs|]. split; [exact Hr|].
  rewrite <- (Hread path_g 0 10 H0). exact Hrd.
Defined.

Lemma nxfs_remount_witness :
  ∃ fs rs fs', demo_run = Ok (fs, rs) ∧ Fs.mount (Fs.into_device fs) = Ok fs' ∧
    Fs.read fs' path_g 0 10 = Ok [0; 0; 1; 2; 3] ∧ Fs.stat fs' path_df = Err NotFound.
Proof.
  destruct demo_run as [[fs rs]|] eqn:E; [|by vm_compute in E].
  assert (Hx : (let? p := demo_run in Ok (Fs.read p.1 path_g 0 10, Fs.stat p.1 path_df, tail_quiet p.1)) =
               Ok (Ok [0; 0; 1; 2; 3], Err NotFound, true)) by (vm_compute; reflexivity).
  rewrite E in Hx. cbn [result_bind fst snd] in Hx. injection Hx as Hrd Hst Hq.
  destruct (nxfs_remount demo_calls rs fs (demo_used fs rs E) Hq) as (fs' & Hm & _ & _ & Hread & Hstat).
  exists fs, rs, fs'. split; [exact eq_refl|]. split; [exact Hm|].
  split; [rewrite Hread; exact Hrd|rewrite Hstat; exact Hst].
Defined.

Lemma nxfs_state_consistent_witness :
  ∃ fs rs, demo_run = Ok (fs, rs) ∧
    decode (encode fs.(Fs.state) 9) fs.(Fs.state).(total_blocks) fs.(Fs.state).(data_start)
      = Ok (fs.(Fs.state), 9).
Proof.
  destruct demo_run as [[fs rs]|] eqn:E; [|by vm_compute in E].
  assert (Hx : (let? p := demo_run in Ok (vlen (encode p.1.(Fs.state) 9) <? 2 ^ 32)) = Ok true)
    by (vm_compute; reflexivity).
  rewrite E in Hx. cbn [result_bind fst snd] in Hx. injection Hx as Hl. apply Z.ltb_lt in Hl.
  assert (H9 : in_width 64 9) by (unfold in_width; lia).
  destruct (nxfs_state_consistent demo_calls rs fs 9 (demo_used fs rs E)) as (_ & _ & _ & _ & Hd).
  exists fs, rs. split; [exact eq_refl|]. exact (Hd H9 Hl).
Defined.

(** ** Behaviours of nxfs that its documentation does not promise, each as a
    computation on a small volume: a directory moved into itself, a damaged
    primary superblock at start-up, failing superblock writes. *)

(** ** Moving a directory into itself *)

(** /d/e *)
Definition path_de : bytes := [47; 100; 47; 101].

(** [rename] does not refuse to move a directory below itself: after
    mkdir /d, create /d/f, the call rename(/d, /d/e) succeeds, and from then on
    the root is empty and /d, /d/e and /d/f are all gone, while both objects and
    their tables stay allocated with no path leading to them. *)
Theorem nxfs_rename_into_itself :
  ∃ fs, Fs.mkfs demo_device demo_opts = Ok fs ∧
    let '(fs', rs) := exec_all fs [Mkdir path_d; Create path_df; RenamePath path_d path_de] in
    rs = [Ok tt; Ok tt; Ok tt] ∧
    Fs.stat fs' path_d = Err NotFound ∧ Fs.stat fs' path_de = Err NotFound ∧
    Fs.stat fs' path_df = Err NotFound ∧
    (let? page := Fs.read_dir fs' [47] 0 64 in Ok page.(entries)) = Ok [] ∧
    sorted_keys fs'.(Fs.state).(objects) = [1; 2; 3].
Proof.
  destruct (Fs.mkfs demo_device demo_opts) as [fs|] eqn:E; [|by vm_compute in E].
  exists fs. split; [exact eq_refl|].
  assert (Hx : (let? fs := Fs.mkfs demo_device demo_opts in
     let '(fs', rs) := exec_all fs [Mkdir path_d; Create path_df; RenamePath path_d path_de] in
     Ok (rs, Fs.stat fs' path_d, Fs.stat fs' path_de, Fs.stat fs' path_df,
         let? page := Fs.read_dir fs' [47] 0 64 in Ok page.(entries), sorted_keys fs'.(Fs.state).(objects)))
     = Ok ([Ok tt; Ok tt; Ok tt], Err NotFound, Err NotFound, Err NotFound, Ok [], [1; 2; 3]))
    by (vm_compute; reflexivity).
  rewrite E in Hx. cbn [result_bind] in Hx.
  destruct (exec_all fs [Mkdir path_d; Create path_df; RenamePath path_d path_de]) as [fs' rs].
  injection Hx as H1 H2 H3 H4 H5 H6. exact (conj H1 (conj H2 (conj H3 (conj H4 (conj H5 H6))))).
Qed.

(** ** A damaged primary superblock *)

(** The device with block 0 zeroed. *)
Definition wipe_primary (d : Mem.MemBlockDevice) : Mem.MemBlockDevice :=
  {| Mem.mem_block_size := d.(Mem.mem_block_size);
     Mem.blocks := <[0%nat := zeros 4096]> d.(Mem.blocks) |}.

(** When the primary superblock is unreadable, [mount] recovers the volume
    from the mirror, but [open_or_format] (which the service starts with) looks
    at the primary alone and formats the volume: the file is gone, although its
    container was mountable.  The format does not clear the journal either: the
    next mount of the fresh volume replays the old volume's transactions, and
    the old directory is back. *)
Theorem nxfs_damaged_primary_reformatted :
  ∃ fs, Fs.mkfs demo_device demo_opts = Ok fs ∧
    let d := wipe_primary (Fs.into_device (exec_all fs [Mkdir path_d]).1) in
    (let? m := Fs.mount d in Fs.stat m path_d) = Ok (Dir, 0) ∧
    (let? m := Fs.open_or_format d demo_opts in Ok (m.(Fs.formatted_fresh), Fs.stat m path_d))
      = Ok (true, Err NotFound) ∧
    (let? m := Fs.open_or_format d demo_opts in
     let? m' := Fs.mount (Fs.into_device m) in Fs.stat m' path_d) = Ok (Dir, 0).
Proof.
  destruct (Fs.mkfs demo_device demo_opts) as [fs|] eqn:E; [|by vm_compute in E].
  exists fs. split; [exact eq_refl|].
  assert (Hx : (let? fs := Fs.mkfs demo_device demo_opts in
     let d := wipe_primary (Fs.into_device (exec_all fs [Mkdir path_d]).1) in
     Ok (let? m := Fs.mount d in Fs.stat m path_d,
         let? m := Fs.open_or_format d demo_opts in Ok (m.(Fs.formatted_fresh), Fs.stat m path_d),
         let? m := Fs.open_or_format d demo_opts in
         let? m' := Fs.mount (Fs.into_device m) in Fs.stat m' path_d))
     = Ok (Ok (Dir, 0), Ok (true, Err NotFound), Ok (Dir, 0))) by (vm_compute; reflexivity).
  rewrite E in Hx. cbn [result_bind] in Hx. cbn zeta.
  destruct (exec_all fs [Mkdir path_d]) as [fs' rs]. cbn [fst] in Hx |- *.
  injection Hx as H1 H2 H3. exact (conj H1 (conj H2 H3)).
Qed.

(** ** Failing superblock writes *)

(** A device whose write of block 0 can be made to fail. *)
Record FlakyDevice := {
  store : Mem.MemBlockDevice;
  flaky : bool
}.

#[global] Instance flaky_block_device : BlockDevice FlakyDevice := {|
  block_size := fun d => block_size d.(store);
  block_count := fun d => block_count d.(store);
  read_block := fun d => read_block d.(store);
  write_block := fun d i buf =>
    if d.(flaky) && (i =? 0) then (d, Err IoError)
    else let '(m, r) := write_block d.(store) i buf in ({| store := m; flaky := d.(flaky) |}, r);
  dev_sync := fun d => (d, Ok tt)
|}.

Definition set_flaky (fs : Fs.Nxfs FlakyDevice) (b : bool) : Fs.Nxfs FlakyDevice :=
  Fs.with_dev fs (with_inner fs.(Fs.dev) {| store := fs.(Fs.dev).(inner).(store); flaky := b |}).

(** Two checkpoints with the first superblock write refused. *)
Definition flaky_checkpoints (fs : Fs.Nxfs FlakyDevice)
    : Fs.Nxfs FlakyDevice * result unit NxfsError * result unit NxfsError :=
  let fs := set_flaky fs true in
  let '(fs, r1) := Fs.write_checkpoint fs in
  let '(fs, r2) := Fs.write_checkpoint fs in
  (fs, r1, r2).

(** Failed checkpoints can make a volume unmountable.  [write_checkpoint]
    flips the slot in memory before the superblock is written, so after one
    failed superblock write the next checkpoint overwrites the region the
    superblock on disk still points to.  On a volume with a directory, two
    checkpoints whose superblock write fails leave a disk that no longer
    mounts, although it did before; each call only reported [Io]. *)
Theorem nxfs_failed_checkpoints_brick :
  ∃ fs, Fs.mkfs {| store := demo_device; flaky := false |} demo_opts = Ok fs ∧
    let '(fs1, rs) := exec_all fs [Mkdir path_d] in
    let '(fs2, r1, r2) := flaky_checkpoints fs1 in
    rs = [Ok tt] ∧ (let? m := Fs.mount (Fs.into_device fs1) in Fs.stat m path_d) = Ok (Dir, 0) ∧
    r1 = Err Io ∧ r2 = Err Io ∧
    (let? m := Fs.mount (Fs.into_device (set_flaky fs2 false)) in Ok tt) = Err Integrity.
Proof.
  destruct (Fs.mkfs {| store := demo_device; flaky := false |} demo_opts) as [fs|] eqn:E; [|by vm_compute in E].
  exists fs. split; [exact eq_refl|].
  assert (Hx : (let? fs := Fs.mkfs {| store := demo_device; flaky := false |} demo_opts in
     let '(fs1, rs) := exec_all fs [Mkdir path_d] in
     let '(fs2, r1, r2) := flaky_checkpoints fs1 in
     Ok (rs, let? m := Fs.mount (Fs.into_device fs1) in Fs.stat m path_d, r1, r2,
         let? m := Fs.mount (Fs.into_device (set_flaky fs2 false)) in Ok tt))
     = Ok ([Ok tt], Ok (Dir, 0), Err Io, Err Io, Err Integrity)) by (vm_compute; reflexivity).
  rewrite E in Hx. cbn [result_bind] in Hx.
  destruct (exec_all fs [Mkdir path_d]) as [fs1 rs]. destruct (flaky_checkpoints fs1) as [[fs2 r1] r2].
  injection Hx as H1 H2 H3 H4 H5. exact (conj H1 (conj H2 (conj H3 (conj H4 H5)))).
Qed.
