(* ===== verification/NxfsCrash.v ===== *)
(** A crash while a transaction is being appended to the journal of a volume in
    use: the mount that follows has the state before the transaction or the
    state after it. *)

From S2P Require Import Prelude Bytes Storage NxfsFormat NxfsJournal NxfsJournalProps NxfsState NxfsStateProps NxfsTree NxfsCheckpoint NxfsDev Nxfs NxfsLog NxfsInv NxfsEngine NxfsFiles NxfsRefine NxfsTheorems.

(** A write of [data] at [off] into zeros, of which the first bytes arrived:
    before [p] the image is the new one, from [p] on the old one. *)
Lemma torn_image I off data pad p :
  (off + length data + pad ≤ length I)%nat →
  slice (off + length data) (off + length data + pad) I = zeros pad →
  take p (splice I off (data ++ zeros pad)) ++ drop p I = splice I off (take (p - off) data).
Proof.
  intros Hl Hz. assert (HdL : length (data ++ zeros pad) = (length data + pad)%nat) by (by rewrite length_app, length_zeros).
  assert (Hz' : ∀ j, (off + length data ≤ j < off + length data + pad)%nat → I !! j = Some 0).
  { intros j Hj. assert (Hs : slice (off + length data) (off + length data + pad) I !! (j - (off + length data))%nat = Some 0).
    { rewrite Hz. unfold zeros. apply lookup_replicate_2. lia. }
    rewrite slice_lookup, decide_True in Hs by lia.
    by replace (off + length data + (j - (off + length data)))%nat with j in Hs by lia. }
  apply list_eq. intros j.
  rewrite (splice_lookup I off (take (p - off) data)) by (rewrite length_take; lia). rewrite length_take.
  destruct (decide (j < p)%nat) as [Hjp|Hjp]; [destruct (decide (j < length I)%nat) as [HjI|HjI]|].
  - rewrite lookup_app_l by (rewrite length_take, splice_length by lia; lia).
    rewrite lookup_take_lt by done. rewrite splice_lookup by lia. rewrite HdL.
    destruct (decide (off ≤ j < off + Nat.min (p - off) (length data))%nat).
    + rewrite decide_True by lia. rewrite lookup_app_l by lia. by rewrite lookup_take_lt by lia.
    + destruct (decide (off ≤ j < off + (length data + pad))%nat) as [Hin|]; [|done].
      rewrite lookup_app_r by lia. rewrite Hz' by lia. unfold zeros. apply lookup_replicate_2. lia.
  - rewrite decide_False by lia. rewrite (lookup_ge_None_2 I) by lia. apply lookup_ge_None.
    rewrite length_app, length_take, length_drop, splice_length by lia. lia.
  - rewrite decide_False by lia. destruct (decide (p ≤ length I)%nat).
    + rewrite lookup_app_r by (rewrite length_take, splice_length by lia; lia).
      rewrite length_take, splice_length by lia. rewrite lookup_drop. f_equal. lia.
    + rewrite (lookup_ge_None_2 I) by lia. apply lookup_ge_None.
      rewrite length_app, length_take, length_drop, splice_length by lia. lia.
Qed.

(** A cut run is still a cut run when the reading stops earlier. *)
Lemma cut_truncate q k m (data : bytes) :
  (q ≤ length (take k data) + m)%nat → ∃ m', take q (take k data ++ zeros m) = cut (Nat.min q k) m' data.
Proof.
  intros Hq. unfold cut. rewrite take_app, take_take, take_zeros. by eexists.
Qed.

(** What a replay makes of a journal with a cut transaction behind it. *)
Lemma replay_cut_ops min txns log txn os data k m :
  Forall txn_ok txns → encode_journal txns = Ok log → in_width 64 txn → Forall op_ok os →
  encode_txn txn os = Ok data →
  (replay (log ++ cut k m data) min).(ops) = live_ops min txns ∨
  (replay (log ++ cut k m data) min).(ops) = live_ops min (txns ++ [(txn, os)]).
Proof.
  intros Hok Hd Ht Hos He. rewrite replay_run, (run_journal _ txns) by done. cbn [replay_finish ops].
  destruct (run_cut_txn min (journal_state min replay_start txns (length log)) txn os data k m Ht Hos He)
    as [[Hc _]|[m' Hm']]; [left; exact Hc|right].
  rewrite Hm'. assert (Hall : run min (journal_state min replay_start txns (length log)) (data ++ zeros m') =
    run min replay_start ((log ++ data) ++ zeros m')).
  { rewrite <- app_assoc. symmetry. by apply run_journal. }
  rewrite Hall. rewrite (run_journal min (txns ++ [(txn, os)])); [|..|done|done|done].
  - rewrite run_zeros. done.
  - apply Forall_app_2; [done|]. apply Forall_cons_2; [by split|constructor].
  - by apply encode_journal_snoc.
Qed.

Section Crash.
Context {D : Type} `{BlockStore D}.
Abbreviation Nxfs := (Fs.Nxfs D).
Implicit Types fs : Nxfs.
Abbreviation img fs := (image fs.(Fs.dev)).
Abbreviation jblocks fs := fs.(Fs.sb).(journal_blocks).

(** A device of the same make with as many bytes is the same container. *)
Lemma dev_like fs (d : D) :
  fs_geo fs → dev_wf d → block_size d = block_size fs.(Fs.dev).(inner) →
  length (dev_bytes d) = length (img fs) → dev_same fs.(Fs.dev) (with_inner fs.(Fs.dev) d).
Proof.
  intros Hg Hw Hs Hl. destruct (geo_dev fs Hg) as [Gw Gs Gb Gc]. unfold image in Hl.
  rewrite !inner_length, Hs in Hl by done. pose proof (dev_size_pos _ Gw).
  assert (Hn : length (dev_blocks d) = length (dev_blocks (inner (Fs.dev fs)))) by nia.
  split; cbn [inner logical_blocks sectors_per_block with_inner]; try done.
  - split; cbn [inner logical_blocks sectors_per_block with_inner]; try done; [by rewrite Hs|].
    rewrite (dev_count _ Hw). rewrite (dev_count _ Gw) in Gc. unfold vlen in *. by rewrite Hn.
  - unfold image. cbn [inner with_inner]. rewrite !inner_length by done. by rewrite Hn, Hs.
Qed.

(** The zeros behind the journal's head. *)
Definition journal_blank (fs : Nxfs) : Prop :=
  let cap := (Z.to_nat (jblocks fs) * LB)%nat in
  slice (journal_off + fs.(Fs.journal_head)) (journal_off + cap) (img fs)
    = zeros (cap - fs.(Fs.journal_head)).

Lemma crash_mount n fs o data p d1 r1 (d : D) :
  inv n fs → op_valid fs.(Fs.state) o → encode_txn fs.(Fs.next_txn) [o] = Ok data →
  (fs.(Fs.journal_head) + length data ≤ Z.to_nat (jblocks fs) * LB)%nat → journal_blank fs →
  Fs.append_journal fs data = (d1, r1) →
  dev_wf d → block_size d = block_size fs.(Fs.dev).(inner) →
  dev_bytes d = take p (image d1) ++ drop p (img fs) →
  ∃ fs', Fs.mount d = Ok fs' ∧ data_img fs' = data_img fs ∧
    (fs'.(Fs.state) = fs.(Fs.state) ∨ apply fs.(Fs.state) o = (fs'.(Fs.state), Ok tt)).
Proof.
  intros [Hg Hst Hc (s0 & wm & txns & log & Hdisk & Hwm & Htx)] Hval Henc Hfit Hblank Hap Hw Hbs Hbytes.
  pose proof Hst as (Hsok & Hst_t & Hst_d). pose proof (op_valid_ok _ _ Hsok Hval) as Hok.
  destruct (encode_txn_records _ [o] data ltac:(by apply Forall_cons_2) Henc) as (_ & _ & _ & Hdb & Hdne).
  destruct (region_bounds fs Hg true) as (Hr1 & Hr2 & Hr3 & Hr4). pose proof (geo_room fs Hg) as Hroom.
  pose proof (geo_start fs Hg) as Hjs. pose proof (geo_journal fs Hg) as Hjb. pose proof (geo_dev fs Hg) as Hd.
  set (cap := (Z.to_nat (jblocks fs) * LB)%nat) in *. set (head := Fs.journal_head fs) in *. set (I := img fs) in *.
  unfold Fs.append_journal in Hap. rewrite Hjs in Hap.
  destruct (append_loop_spec (length data) (Fs.dev fs) 1 head data (Z.to_nat (jblocks fs)))
    as (d1' & Hw1 & Hs1 & Hi1); [done|lia|lia|done|done|done|done|apply Hdisk|].
  fold head in Hap. rewrite Hw1 in Hap. injection Hap as <- <-. fold journal_off I in Hi1.
  assert (Hru : (round_up (head + length data) ≤ cap)%nat).
  { unfold round_up, cap. apply Nat.mul_le_mono_r. by apply blocks_for_le. }
  pose proof (round_up_ge (head + length data)) as Hrg.
  assert (Hcl : (journal_off + cap ≤ lb_off (data_lb fs))%nat ∧ (lb_off (data_lb fs) ≤ length I)%nat ∧
                (LB ≤ journal_off)%nat ∧ (journal_off + cap)%nat = lb_off (1 + jblocks fs)).
  { unfold journal_off, cap, data_lb. split_and!.
    - unfold lb_off. nia.
    - etransitivity; [|apply (img_length fs Hd); lia]. apply lb_off_mono. lia.
    - unfold lb_off. lia.
    - rewrite lb_off_add by lia. done. }
  destruct Hcl as (Hc1 & Hc2 & Hc3 & Hc4).
  set (pad := (round_up (head + length data) - (head + length data))%nat).
  assert (Himg : dev_bytes d = splice I (journal_off + head) (take (p - (journal_off + head)) data)).
  { rewrite Hbytes, Hi1. unfold run_pad. fold pad. apply torn_image; [lia|].
    unfold journal_blank in Hblank. fold head cap I in Hblank.
    assert (Hz1 : slice (journal_off + head + length data) (journal_off + cap) I = zeros (cap - (head + length data))).
    { rewrite (slice_zeros_split I (journal_off + head) (journal_off + head + length data) (journal_off + cap)); [f_equal; lia|lia|lia|].
      rewrite Hblank. f_equal; lia. }
    transitivity (take pad (slice (journal_off + head + length data) (journal_off + cap) I)).
    - unfold slice. rewrite take_take. f_equal; lia.
    - rewrite Hz1, take_zeros. f_equal; lia. }
  set (k := (p - (journal_off + head))%nat) in *.
  assert (Htk : (length (take k data) ≤ length data)%nat) by (rewrite length_take; lia).
  assert (Hsame : dev_same (Fs.dev fs) (with_inner (Fs.dev fs) d)).
  { apply dev_like; try done. rewrite Himg, splice_length; [done|lia]. }
  set (f1 := Fs.with_dev fs (with_inner (Fs.dev fs) d)).
  assert (Hvol : same_volume fs f1) by (by split).
  assert (Hi1' : img f1 = splice I (journal_off + head) (take k data)) by exact Himg.
  assert (Htl : logical_blocks (Fs.dev f1) = logical_blocks (Fs.dev fs)) by exact (ds_logical _ _ Hsame).
  assert (Hlow : ∀ a c, (c ≤ journal_off + head)%nat → slice a c (img f1) = slice a c I).
  { intros a c Hac. rewrite Hi1'. apply slice_splice_other; lia. }
  assert (Hhigh : ∀ a c, (journal_off + cap ≤ a)%nat → slice a c (img f1) = slice a c I).
  { intros a c Hac. rewrite Hi1'. apply slice_splice_other; lia. }
  assert (Hg1 : fs_geo f1).
  { destruct Hg as [G1 G2 G3 G4 G5 G6 G7 G8].
    split; [apply Hsame|by apply (dev_same_new (Fs.dev fs))|exact G3|rewrite Htl; exact G4|exact G5|exact G6
           |rewrite Htl; exact G7|rewrite Htl; exact G8]. }
  assert (Hb1 : cp_on_disk f1 s0 wm).
  { destruct Hdisk as [[D1 (i & g & D2 & D3 & D4 & D5) D6 D7 D8] _ _ _ _ _ _ _ _].
    split; [rewrite Hlow by lia; exact D1| |exact D6|by apply (fits_volume fs)|exact D8].
    exists i, g. split_and!; [exact D2|exact D3|exact D4|].
    change (Fs.region_start f1 i) with (Fs.region_start fs i).
    rewrite Hhigh; [exact D5|]. rewrite Hc4. apply lb_off_mono.
    destruct (region_bounds fs Hg i) as (? & ? & _). lia. }
  assert (Hlog : slice journal_off (journal_off + head) (img f1) = log).
  { rewrite Hlow by lia. apply (disk_bytes _ _ _ _ _ Hdisk). }
  destruct (journal_reach fs s0 wm txns log Hg Hdisk (Fs.dev f1)) as (kk & Hk1 & Hk2 & Hread); [apply Hsame|done|done|].
  fold head in Hk1. set (q := (kk * LB - head)%nat).
  assert (Hkc : (kk * LB ≤ cap)%nat) by (unfold cap; apply Nat.mul_le_mono_r; done).
  assert (Htail : slice (journal_off + head) (journal_off + cap) (img f1) =
                  take k data ++ zeros (cap - head - length (take k data))).
  { rewrite Hi1', slice_splice_in by lia. rewrite Nat.sub_diag.
    unfold journal_blank in Hblank. fold head cap I in Hblank. rewrite Hblank. unfold splice.
    rewrite take_0, Nat.add_0_l, drop_zeros. done. }
  assert (Hreg : slice journal_off (journal_off + kk * LB) (img f1) =
                 log ++ take q (take k data ++ zeros (cap - head - length (take k data)))).
  { rewrite <- (slice_slice_app _ journal_off (journal_off + head)) by lia. rewrite Hlog. f_equal.
    rewrite <- Htail. unfold slice. rewrite take_take. f_equal; lia. }
  destruct (cut_truncate q k (cap - head - length (take k data)) data) as [m' Hcut]; [lia|].
  rewrite Hcut in Hreg. rewrite Hreg in Hread.
  assert (Htxok : in_width 64 (Fs.next_txn fs)) by (destruct Hc; unfold in_width; lia).
  destruct (apply_ok _ o Hsok Hval) as (s1 & Has & _).
  assert (Hfin : ∀ s, apply_all s0 (ops (replay (log ++ cut (Nat.min q k) m' data) wm)) = (s, Ok tt) →
    ∃ fs', Fs.mount d = Ok fs' ∧ data_img fs' = data_img fs ∧ Fs.state fs' = s).
  { intros s Hs. destruct (mount_replay f1 s0 wm Hg1 Hb1 _ s Hread Hs) as (fs' & Hm & Hdv & Hsb & Hs' & Hcp).
    exists fs'. split_and!; [exact Hm| |done]. unfold data_img, data_lb. rewrite Hdv, Hsb, Hcp, Htl.
    change (Fs.sb f1) with (Fs.sb fs). change (Fs.cp_blocks f1) with (Fs.cp_blocks fs). apply Hhigh. exact Hc1. }
  destruct (replay_cut_ops wm txns log (Fs.next_txn fs) [o] data (Nat.min q k) m') as [Hops|Hops];
    [apply Hdisk|apply Hdisk|done|by apply Forall_cons_2|done| |]; rewrite Hops in Hfin.
  - rewrite live_ops_all in Hfin by apply Hdisk.
    destruct (Hfin _ (disk_state _ _ _ _ _ Hdisk)) as (fs' & Hm & Hdi & Hs). exists fs'. split_and!; [done..|by left].
  - rewrite live_ops_all, map_app, concat_app in Hfin by
      (apply Forall_app_2; [apply Hdisk|apply Forall_cons_2; [done|constructor]]).
    rewrite apply_all_app, (disk_state _ _ _ _ _ Hdisk) in Hfin. cbn [map concat snd app apply_all] in Hfin.
    rewrite Has in Hfin. destruct (Hfin s1 eq_refl) as (fs' & Hm & Hdi & Hs). exists fs'. split_and!; [done..|].
    right. by rewrite Hs.
Qed.
End Crash.


(** *** A torn commit on the demo volume *)

(** mkdir /x *)
Definition demo_op (fs : Fs.Nxfs Mem.MemBlockDevice) : Op :=
  MkNode ROOT_OBJECT fs.(Fs.state).(next_object) KIND_DIR [120].

Definition demo_data (fs : Fs.Nxfs Mem.MemBlockDevice) : bytes :=
  match encode_txn fs.(Fs.next_txn) [demo_op fs] with Ok b => b | Err _ => [] end.

(** The first 50 bytes of the commit reach the disk. *)
Definition demo_cut (fs : Fs.Nxfs Mem.MemBlockDevice) : nat :=
  (journal_off + fs.(Fs.journal_head) + 50)%nat.

Definition demo_torn (fs : Fs.Nxfs Mem.MemBlockDevice) : Mem.MemBlockDevice :=
  let d0 := fs.(Fs.dev).(inner) in
  let d1 := (Fs.append_journal fs (demo_data fs)).1.(inner) in
  let a := (demo_cut fs - 4096)%nat in
  {| Mem.mem_block_size := 4096;
     Mem.blocks := <[1%nat := take a (default [] (d1.(Mem.blocks) !! 1%nat))
                              ++ drop a (default [] (d0.(Mem.blocks) !! 1%nat))]> d0.(Mem.blocks) |}.

Definition bytes_ok (b : bytes) : bool :=
  (length b =? 4096)%nat && forallb (fun x => (0 <=? x) && (x <? 256)) b.

(** What the witness needs of the demo volume, as one computation. *)
Definition demo_facts (fs : Fs.Nxfs Mem.MemBlockDevice) : bool :=
  let s := fs.(Fs.state) in
  bool_decide (is_Some (s.(dirs) !! ROOT_OBJECT))
  && bool_decide ((s.(dirs) !! ROOT_OBJECT ≫= fun t => t !! [120]) = None)
  && (s.(next_object) + 1 <? 2 ^ 64)
  && bool_decide (encode_txn fs.(Fs.next_txn) [demo_op fs] = Ok (demo_data fs))
  && (fs.(Fs.journal_head) + length (demo_data fs) <=? Z.to_nat fs.(Fs.sb).(journal_blocks) * LB)%nat
  && bool_decide (slice (journal_off + fs.(Fs.journal_head))
       (journal_off + Z.to_nat fs.(Fs.sb).(journal_blocks) * LB) (image fs.(Fs.dev))
     = zeros (Z.to_nat fs.(Fs.sb).(journal_blocks) * LB - fs.(Fs.journal_head)))
  && (fs.(Fs.dev).(inner).(Mem.mem_block_size) =? 4096)%nat
  && forallb bytes_ok (demo_torn fs).(Mem.blocks)
  && bool_decide (dev_bytes (demo_torn fs) =
       take (demo_cut fs) (image (Fs.append_journal fs (demo_data fs)).1)
       ++ drop (demo_cut fs) (image fs.(Fs.dev))).

Lemma demo_facts_true : (let? p := demo_run in Ok (demo_facts p.1)) = Ok true.
Proof. vm_compute. reflexivity. Qed.

Lemma bytes_ok_spec b : bytes_ok b = true → length b = 4096%nat ∧ Forall is_byte b.
Proof.
  unfold bytes_ok. intros [Hl Hb]%andb_true_iff. split; [by apply Nat.eqb_eq|]. apply Forall_forall.
  intros x Hx%list_elem_of_In. rewrite forallb_forall in Hb. apply Hb in Hx. simpl_bool. unfold is_byte. lia.
Qed.

Lemma demo_op_valid fs :
  is_Some (fs.(Fs.state).(dirs) !! ROOT_OBJECT) →
  (fs.(Fs.state).(dirs) !! ROOT_OBJECT ≫= fun t => t !! [120]) = None →
  fs.(Fs.state).(next_object) + 1 < 2 ^ 64 → op_valid fs.(Fs.state) (demo_op fs).
Proof.
  intros Hs Hn Hx.
  assert (Hname : name_ok [120]).
  { split_and!; [reflexivity|apply Forall_cons_2; [unfold is_byte; lia|constructor]|done|done]. }
  split_and!; [done|done| |done|by right|done].
  intros c k (t & Ht & Hc). rewrite Ht in Hn. cbn in Hn. by rewrite Hc in Hn.
Qed.

