(* ===== verification/Wire.v ===== *)
(** The frame codec shared by the services ([source/libs/nexus-wire/src]): the
    bounds-checked writer and reader ([codec.rs]), the frame language that the
    [frames!] macro expands ([frames.rs]), and the frames of each protocol as
    declarations in that language.  The theorems hold for every declaration. *)

From Stdlib Require Import String.
From S2P Require Import Prelude Bytes Storage.

Abbreviation length := List.length.

(** ** [codec.rs] *)

Definition REPLY_BIT : Z := 0x80.

(** A writer: the capacity of the caller's buffer and the bytes written. *)
Record Writer := { cap : nat; written : bytes }.

Definition writer_new (cap : nat) : Writer := {| cap := cap; written := [] |}.

Definition put_bytes (w : Writer) (b : bytes) : option Writer :=
  if (length w.(written) + length b <=? w.(cap))%nat
  then Some {| cap := w.(cap); written := w.(written) ++ b |} else None.

Definition put_u8 (w : Writer) (v : Z) : option Writer := put_bytes w [v].
Definition put_nz_u8 (w : Writer) (v : Z) : option Writer := if v =? 0 then None else put_u8 w v.
Definition put_u16le (w : Writer) (v : Z) : option Writer := put_bytes w (le_bytes 2 v).
Definition put_u32le (w : Writer) (v : Z) : option Writer := put_bytes w (le_bytes 4 v).
Definition put_u64le (w : Writer) (v : Z) : option Writer := put_bytes w (le_bytes 8 v).
Definition put_pad (w : Writer) (n : nat) : option Writer := put_bytes w (zeros n).

Definition in_range (n min max limit : Z) : bool := negb ((n <? min) || (max <? n) || (limit <? n)).

Definition put_len8_bytes (w : Writer) (b : bytes) (min max : Z) : option Writer :=
  if in_range (vlen b) min max 0xFF then w ← put_u8 w (vlen b); put_bytes w b else None.
Definition put_len8_str : Writer → bytes → Z → Z → option Writer := put_len8_bytes.
Definition put_len16_bytes (w : Writer) (b : bytes) (min max : Z) : option Writer :=
  if in_range (vlen b) min max 0xFFFF then w ← put_u16le w (vlen b); put_bytes w b else None.
Definition put_len32_bytes (w : Writer) (b : bytes) (min max : Z) : option Writer :=
  if in_range (vlen b) min max 0xFFFFFFFF then w ← put_u32le w (vlen b); put_bytes w b else None.

(** A reader is the part of the frame not yet consumed. *)
Definition take_bytes (r : bytes) (n : nat) : option (bytes * bytes) :=
  if (n <=? length r)%nat then Some (take n r, drop n r) else None.

Definition take_u8 (r : bytes) : option (Z * bytes) :=
  match r with
  | [] => None
  | b :: r => Some (b, r)
  end.

Definition take_nz_u8 (r : bytes) : option (Z * bytes) :=
  '(v, r) ← take_u8 r; if v =? 0 then None else Some (v, r).

Definition expect_u8 (r : bytes) (v : Z) : option bytes :=
  '(b, r) ← take_u8 r; if b =? v then Some r else None.

Definition take_le_n (n : nat) (r : bytes) : option (Z * bytes) :=
  '(b, r) ← take_bytes r n; Some (le_value b, r).

Definition take_u16le : bytes → option (Z * bytes) := take_le_n 2.
Definition take_u32le : bytes → option (Z * bytes) := take_le_n 4.
Definition take_u64le : bytes → option (Z * bytes) := take_le_n 8.

Definition skip (r : bytes) (n : nat) : option bytes := '(_, r) ← take_bytes r n; Some r.

(** The bytes behind a length prefix. *)
Definition take_counted (p : option (Z * bytes)) (min max : Z) : option (bytes * bytes) :=
  '(n, r) ← p; if (n <? min) || (max <? n) then None else take_bytes r (Z.to_nat n).

Definition take_len8_bytes (r : bytes) : Z → Z → option (bytes * bytes) := take_counted (take_u8 r).
Definition take_len16_bytes (r : bytes) : Z → Z → option (bytes * bytes) := take_counted (take_u16le r).
Definition take_len32_bytes (r : bytes) : Z → Z → option (bytes * bytes) := take_counted (take_u32le r).

Definition take_len8_str (r : bytes) (min max : Z) : option (bytes * bytes) :=
  '(b, r) ← take_len8_bytes r min max; s ← from_utf8 b; Some (s, r).

Definition finish_exact (r : bytes) : option unit := if bool_decide (r = []) then Some tt else None.

Definition put_hdr (w : Writer) (m0 m1 version op : Z) : option Writer :=
  w ← put_u8 w m0; w ← put_u8 w m1; w ← put_u8 w version; put_u8 w op.

Definition check_hdr (r : bytes) (m0 m1 version op : Z) : option bytes :=
  r ← expect_u8 r m0; r ← expect_u8 r m1; r ← expect_u8 r version; expect_u8 r op.

Definition request_op (frame : bytes) (m0 m1 version : Z) : option Z :=
  r ← expect_u8 frame m0; r ← expect_u8 r m1; r ← expect_u8 r version; '(op, _) ← take_u8 r; Some op.

(** ** [frames.rs] *)

Inductive field :=
| U8 | NzU8 | U16le | U32le | U64le
| Lit (b : Z)
| Pad (n : nat)
| Str8 (min max : Z)
| Bytes8 (min max : Z)
| Bytes16 (min max : Z)
| Bytes32 (min max : Z).

Inductive value :=
| VInt (n : Z)
| VBytes (b : bytes).

(** A declared frame: its header and fields; [wire_op] already carries the
    reply bit for replies. *)
Record frame := { f_magic0 : Z; f_magic1 : Z; f_version : Z; wire_op : Z; fields : list field }.

(** The statement the macro emits for one field of an encoder; literals and
    padding take no argument. *)
Definition put_field (w : Writer) (f : field) (vs : list value) : option (Writer * list value) :=
  match f, vs with
  | Lit b, _ => w ← put_u8 w b; Some (w, vs)
  | Pad n, _ => w ← put_pad w n; Some (w, vs)
  | U8, VInt v :: vs => w ← put_u8 w v; Some (w, vs)
  | NzU8, VInt v :: vs => w ← put_nz_u8 w v; Some (w, vs)
  | U16le, VInt v :: vs => w ← put_u16le w v; Some (w, vs)
  | U32le, VInt v :: vs => w ← put_u32le w v; Some (w, vs)
  | U64le, VInt v :: vs => w ← put_u64le w v; Some (w, vs)
  | Str8 min max, VBytes b :: vs => w ← put_len8_str w b min max; Some (w, vs)
  | Bytes8 min max, VBytes b :: vs => w ← put_len8_bytes w b min max; Some (w, vs)
  | Bytes16 min max, VBytes b :: vs => w ← put_len16_bytes w b min max; Some (w, vs)
  | Bytes32 min max, VBytes b :: vs => w ← put_len32_bytes w b min max; Some (w, vs)
  | _, _ => None
  end.

Fixpoint put_fields (w : Writer) (fs : list field) (vs : list value) : option Writer :=
  match fs with
  | [] => if bool_decide (length vs = 0%nat) then Some w else None
  | f :: fs => '(w, vs) ← put_field w f vs; put_fields w fs vs
  end.

(** The generated encoder, into a buffer of [cap] bytes. *)
Definition encode (fr : frame) (vs : list value) (cap : nat) : option bytes :=
  w ← put_hdr (writer_new cap) fr.(f_magic0) fr.(f_magic1) fr.(f_version) fr.(wire_op);
  w ← put_fields w fr.(fields) vs; Some w.(written).

Definition int_value (p : option (Z * bytes)) : option (list value * bytes) := '(v, r) ← p; Some ([VInt v], r).
Definition bytes_value (p : option (bytes * bytes)) : option (list value * bytes) := '(v, r) ← p; Some ([VBytes v], r).

Definition take_field (r : bytes) (f : field) : option (list value * bytes) :=
  match f with
  | Lit b => r ← expect_u8 r b; Some ([], r)
  | Pad n => r ← skip r n; Some ([], r)
  | U8 => int_value (take_u8 r)
  | NzU8 => int_value (take_nz_u8 r)
  | U16le => int_value (take_u16le r)
  | U32le => int_value (take_u32le r)
  | U64le => int_value (take_u64le r)
  | Str8 min max => bytes_value (take_len8_str r min max)
  | Bytes8 min max => bytes_value (take_len8_bytes r min max)
  | Bytes16 min max => bytes_value (take_len16_bytes r min max)
  | Bytes32 min max => bytes_value (take_len32_bytes r min max)
  end.

Fixpoint take_fields (r : bytes) (fs : list field) : option (list value * bytes) :=
  match fs with
  | [] => Some ([], r)
  | f :: fs => '(v, r) ← take_field r f; '(vs, r) ← take_fields r fs; Some (v ++ vs, r)
  end.

(** The generated decoder. *)
Definition decode (fr : frame) (b : bytes) : option (list value) :=
  r ← check_hdr b fr.(f_magic0) fr.(f_magic1) fr.(f_version) fr.(wire_op);
  '(vs, r) ← take_fields r fr.(fields); _ ← finish_exact r; Some vs.

(** ** What a field puts on the wire *)

Definition emit_counted (n : nat) (limit : Z) (b : bytes) (min max : Z) (vs : list value) : option (bytes * list value) :=
  if in_range (vlen b) min max limit then Some (le_bytes n (vlen b) ++ b, vs) else None.

Definition emit_field (f : field) (vs : list value) : option (bytes * list value) :=
  match f, vs with
  | Lit b, _ => Some ([b], vs)
  | Pad n, _ => Some (zeros n, vs)
  | U8, VInt v :: vs => Some ([v], vs)
  | NzU8, VInt v :: vs => if v =? 0 then None else Some ([v], vs)
  | U16le, VInt v :: vs => Some (le_bytes 2 v, vs)
  | U32le, VInt v :: vs => Some (le_bytes 4 v, vs)
  | U64le, VInt v :: vs => Some (le_bytes 8 v, vs)
  | (Str8 min max | Bytes8 min max), VBytes b :: vs => emit_counted 1 0xFF b min max vs
  | Bytes16 min max, VBytes b :: vs => emit_counted 2 0xFFFF b min max vs
  | Bytes32 min max, VBytes b :: vs => emit_counted 4 0xFFFFFFFF b min max vs
  | _, _ => None
  end.

Fixpoint emit_fields (fs : list field) (vs : list value) : option bytes :=
  match fs with
  | [] => if bool_decide (length vs = 0%nat) then Some [] else None
  | f :: fs => '(b, vs) ← emit_field f vs; t ← emit_fields fs vs; Some (b ++ t)
  end.

Lemma put_bytes_app w a b : (w ← put_bytes w a; put_bytes w b) = put_bytes w (a ++ b).
Proof.
  unfold put_bytes. rewrite length_app. destruct (Nat.leb_spec (length w.(written) + length a) w.(cap)); cbn [mbind option_bind].
  - cbn [cap written]. rewrite length_app, app_assoc, Nat.add_assoc. done.
  - destruct (Nat.leb_spec (length w.(written) + (length a + length b)) w.(cap)); [lia|done].
Qed.

Lemma le_bytes_1 v : 0 ≤ v < 256 → le_bytes 1 v = [v].
Proof. intros. simpl. by rewrite Z.mod_small. Qed.

Lemma in_range_iff n min max limit : in_range n min max limit = true ↔ min ≤ n ≤ max ∧ n ≤ limit.
Proof. unfold in_range. rewrite negb_true_iff, !orb_false_iff, !Z.ltb_ge. lia. Qed.

Lemma put_field_emit w f vs :
  put_field w f vs = '(b, vs) ← emit_field f vs; w ← put_bytes w b; Some (w, vs).
Proof.
  destruct f as [| | | | |l|n|min max|min max|min max|min max]; destruct vs as [|[v|b] vs]; try done; cbn [put_field emit_field mbind option_bind].
  all: try (unfold put_nz_u8; destruct (v =? 0); done).
  all: unfold emit_counted, put_len8_str, put_len8_bytes, put_len16_bytes, put_len32_bytes.
  all: destruct (in_range (vlen b) min max _) eqn:E; [|done]; cbn [mbind option_bind].
  all: try (unfold put_u16le, put_u32le; by rewrite put_bytes_app).
  all: apply in_range_iff in E; rewrite le_bytes_1 by (pose proof (vlen_nonneg b); lia).
  all: unfold put_u8; by rewrite put_bytes_app.
Qed.

Lemma put_fields_emit fs : ∀ w vs, (length w.(written) ≤ w.(cap))%nat →
  put_fields w fs vs = b ← emit_fields fs vs; put_bytes w b.
Proof.
  induction fs as [|f fs IH]; intros w vs Hw; cbn [put_fields emit_fields].
  - case_bool_decide; [|done]. cbn [mbind option_bind]. unfold put_bytes. rewrite Nat.add_0_r, app_nil_r.
    destruct w as [c wr]. cbn [cap written] in *. by rewrite (proj2 (Nat.leb_le _ _)).
  - rewrite put_field_emit. destruct (emit_field f vs) as [[b vs']|]; [|done]. cbn [mbind option_bind].
    destruct (put_bytes w b) as [w'|] eqn:Ew; cbn [mbind option_bind].
    + rewrite IH.
      2: { unfold put_bytes in Ew. destruct (Nat.leb_spec (length (written w) + length b) (cap w)); [|done].
           injection Ew as <-. cbn [cap written]. rewrite length_app. lia. }
      destruct (emit_fields fs vs') as [t|]; [|done]. cbn [mbind option_bind]. rewrite <- put_bytes_app, Ew. done.
    + destruct (emit_fields fs vs') as [t|]; [|done]. cbn [mbind option_bind]. rewrite <- put_bytes_app, Ew. done.
Qed.

(** The bytes of a frame. *)
Definition header (fr : frame) : bytes := [fr.(f_magic0); fr.(f_magic1); fr.(f_version); fr.(wire_op)].

Lemma encode_emit fr vs size :
  encode fr vs size =
    t ← emit_fields fr.(fields) vs;
    if (4 + length t <=? size)%nat then Some (header fr ++ t) else None.
Proof.
  unfold encode. destruct size as [|[|[|[|size]]]]; [by destruct (emit_fields _ _)..|].
  change (put_hdr _ _ _ _ _) with (Some {| cap := S (S (S (S size))); written := header fr |}). cbn [mbind option_bind].
  rewrite put_fields_emit by (simpl; lia). destruct (emit_fields (fields fr) vs) as [t|]; [|done].
  cbn [mbind option_bind]. unfold put_bytes. cbn [cap written]. by destruct (_ <=? _)%nat.
Qed.

(** ** Values of the declared types *)

Definition value_ok (f : field) (v : value) : Prop :=
  match f, v with
  | (U8 | NzU8), VInt n => in_width 8 n
  | U16le, VInt n => in_width 16 n
  | U32le, VInt n => in_width 32 n
  | U64le, VInt n => in_width 64 n
  | Str8 _ _, VBytes b => utf8_valid b = true
  | (Bytes8 _ _ | Bytes16 _ _ | Bytes32 _ _), VBytes b => True
  | _, _ => False
  end.

Definition has_value (f : field) : bool :=
  match f with
  | Lit _ | Pad _ => false
  | _ => true
  end.

(** The arguments of an encoder. *)
Definition values_ok (fs : list field) (vs : list value) : Prop := Forall2 value_ok (List.filter has_value fs) vs.

Lemma reader_take_app b r : take_bytes (b ++ r) (length b) = Some (b, r).
Proof.
  unfold take_bytes. rewrite length_app, (proj2 (Nat.leb_le _ _)) by lia. by rewrite take_app_length, drop_app_length.
Qed.

Lemma reader_le_app n v r : in_width (8 * Z.of_nat n) v → take_le_n n (le_bytes n v ++ r) = Some (v, r).
Proof.
  intros Hv. unfold take_le_n. pose proof (reader_take_app (le_bytes n v) r) as Ht. rewrite le_bytes_length in Ht.
  rewrite Ht. cbn [mbind option_bind]. by rewrite le_value_bytes.
Qed.

Lemma take_counted_app p b r min max limit :
  p = Some (vlen b, b ++ r) → in_range (vlen b) min max limit = true → take_counted p min max = Some (b, r).
Proof.
  intros -> Hr%in_range_iff. unfold take_counted. cbn [mbind option_bind].
  rewrite !(proj2 (Z.ltb_ge _ _)) by lia. cbn [orb]. unfold vlen. rewrite Nat2Z.id. apply reader_take_app.
Qed.

(** Reading back what was written. *)
Lemma take_emit_fixed f vs b vs' r :
  has_value f = false → emit_field f vs = Some (b, vs') → vs' = vs ∧ take_field (b ++ r) f = Some ([], r).
Proof.
  destruct f as [| | | | |l|n|min max|min max|min max|min max]; try done; intros _ [= <- <-]; (split; [done|]);
    cbn [take_field app].
  - unfold expect_u8. cbn [take_u8 mbind option_bind]. by rewrite Z.eqb_refl.
  - unfold skip. rewrite <- (length_zeros n) at 2. by rewrite reader_take_app.
Qed.

Lemma take_emit_value f v vs b vs' r :
  has_value f = true → value_ok f v → emit_field f (v :: vs) = Some (b, vs') →
  vs' = vs ∧ take_field (b ++ r) f = Some ([v], r).
Proof.
  intros _ Hv. destruct f as [| | | | |l|n|min max|min max|min max|min max], v as [v|s]; try done;
    cbn [emit_field take_field value_ok] in *.
  - by intros [= <- <-].
  - destruct (v =? 0) eqn:E; [done|]. intros [= <- <-]. split; [done|]. cbn [app]. unfold take_nz_u8.
    cbn [take_u8 mbind option_bind]. by rewrite E.
  - intros E. apply (inj Some) in E. apply pair_equal_spec in E as [<- <-]. split; [done|].
    unfold take_u16le. by rewrite reader_le_app.
  - intros E. apply (inj Some) in E. apply pair_equal_spec in E as [<- <-]. split; [done|].
    unfold take_u32le. by rewrite reader_le_app.
  - intros E. apply (inj Some) in E. apply pair_equal_spec in E as [<- <-]. split; [done|].
    unfold take_u64le. by rewrite reader_le_app.
  - unfold emit_counted. destruct (in_range (vlen s) min max 255) eqn:E; [|done].
    intros Hs. apply (inj Some) in Hs. apply pair_equal_spec in Hs as [<- <-]. split; [done|].
    unfold take_len8_str, take_len8_bytes. pose proof (proj1 (in_range_iff _ _ _ _) E).
    rewrite (take_counted_app _ s r min max 255); [|rewrite le_bytes_1 by (pose proof (vlen_nonneg s); lia); done|done].
    cbn [mbind option_bind]. unfold from_utf8. by rewrite Hv.
  - unfold emit_counted. destruct (in_range (vlen s) min max 255) eqn:E; [|done].
    intros Hs. apply (inj Some) in Hs. apply pair_equal_spec in Hs as [<- <-]. split; [done|].
    unfold take_len8_bytes. pose proof (proj1 (in_range_iff _ _ _ _) E).
    by rewrite (take_counted_app _ s r min max 255);
      [|rewrite le_bytes_1 by (pose proof (vlen_nonneg s); lia); done|done].
  - unfold emit_counted. destruct (in_range (vlen s) min max 65535) eqn:E; [|done].
    intros Hs. apply (inj Some) in Hs. apply pair_equal_spec in Hs as [<- <-]. split; [done|].
    unfold take_len16_bytes, take_u16le. pose proof (proj1 (in_range_iff _ _ _ _) E).
    rewrite (take_counted_app _ s r min max 65535); [done| |done].
    rewrite <- app_assoc, reader_le_app; [done|]. unfold in_width. pose proof (vlen_nonneg s). simpl. lia.
  - unfold emit_counted. destruct (in_range (vlen s) min max 4294967295) eqn:E; [|done].
    intros Hs. apply (inj Some) in Hs. apply pair_equal_spec in Hs as [<- <-]. split; [done|].
    unfold take_len32_bytes, take_u32le. pose proof (proj1 (in_range_iff _ _ _ _) E).
    rewrite (take_counted_app _ s r min max 4294967295); [done| |done].
    rewrite <- app_assoc, reader_le_app; [done|]. unfold in_width. pose proof (vlen_nonneg s). simpl. lia.
Qed.

Lemma take_emit_fields fs : ∀ vs t r,
  values_ok fs vs → emit_fields fs vs = Some t → take_fields (t ++ r) fs = Some (vs, r).
Proof.
  unfold values_ok. induction fs as [|f fs IH]; intros vs t r Hv; cbn [emit_fields take_fields].
  - case_bool_decide as Hl; [|done]. intros [= <-]. apply nil_length_inv in Hl. by subst.
  - destruct (emit_field f vs) as [[b vs']|] eqn:Ef; [|done]. cbn [mbind option_bind].
    destruct (emit_fields fs vs') as [u|] eqn:Eu; [|done]. intros [= <-]. rewrite <- app_assoc.
    cbn [List.filter] in Hv. destruct (has_value f) eqn:Eh.
    + inversion Hv as [|? v ? vs0 Hf Hvs]; subst.
      destruct (take_emit_value f v vs0 b vs' (u ++ r) Eh Hf Ef) as [-> ->]. cbn [mbind option_bind].
      by rewrite (IH vs0 u r Hvs Eu).
    + destruct (take_emit_fixed f vs b vs' (u ++ r) Eh Ef) as [-> ->]. cbn [mbind option_bind].
      by rewrite (IH vs u r Hv Eu).
Qed.

Lemma check_hdr_header fr r :
  check_hdr (header fr ++ r) fr.(f_magic0) fr.(f_magic1) fr.(f_version) fr.(wire_op) = Some r.
Proof.
  unfold check_hdr, expect_u8, header. by repeat (cbn [app take_u8 mbind option_bind]; rewrite Z.eqb_refl).
Qed.

Lemma expect_u8_inv r v r' : expect_u8 r v = Some r' → r = v :: r'.
Proof.
  unfold expect_u8. destruct r as [|b r]; [done|]. cbn [take_u8 mbind option_bind].
  destruct (Z.eqb_spec b v) as [->|]; [|done]. by intros [= ->].
Qed.

Lemma check_hdr_inv b m0 m1 ver op r : check_hdr b m0 m1 ver op = Some r → b = [m0; m1; ver; op] ++ r.
Proof.
  unfold check_hdr. intros (r1 & ->%expect_u8_inv & (r2 & ->%expect_u8_inv & (r3 & ->%expect_u8_inv &
    ->%expect_u8_inv)%bind_Some)%bind_Some)%bind_Some. done.
Qed.

Lemma decode_inv fr b vs :
  decode fr b = Some vs → ∃ t, b = header fr ++ t ∧ take_fields t fr.(fields) = Some (vs, []).
Proof.
  unfold decode. destruct (check_hdr b _ _ _ _) as [t|] eqn:Eh; [|done]. apply check_hdr_inv in Eh as ->.
  cbn [mbind option_bind]. destruct (take_fields t (fields fr)) as [[vs' r]|] eqn:Et; [|done]. cbn [mbind option_bind].
  unfold finish_exact. case_bool_decide as Hr; [|done]. intros [= <-]. subst r. by exists t.
Qed.

Lemma decode_header fr t vs : take_fields t fr.(fields) = Some (vs, []) → decode fr (header fr ++ t) = Some vs.
Proof. intros Ht. unfold decode. rewrite check_hdr_header. cbn [mbind option_bind]. by rewrite Ht. Qed.

(** ** What an accepted frame is *)

(** The reader looks only at what it consumes. *)
Lemma take_bytes_mono r n x r' t : take_bytes r n = Some (x, r') → take_bytes (r ++ t) n = Some (x, r' ++ t).
Proof.
  unfold take_bytes. rewrite length_app. destruct (Nat.leb_spec n (length r)); [|done]. intros [= <- <-].
  rewrite (proj2 (Nat.leb_le _ _)) by lia. by rewrite take_app_le, drop_app_le by lia.
Qed.

Lemma take_u8_mono r v r' t : take_u8 r = Some (v, r') → take_u8 (r ++ t) = Some (v, r' ++ t).
Proof. destruct r; [done|]. by intros [= <- <-]. Qed.

Lemma take_le_mono n r v r' t : take_le_n n r = Some (v, r') → take_le_n n (r ++ t) = Some (v, r' ++ t).
Proof.
  unfold take_le_n. destruct (take_bytes r n) as [[x y]|] eqn:E; [|done]. intros [= <- <-].
  by rewrite (take_bytes_mono _ _ _ _ t E).
Qed.

Lemma take_counted_mono p q min max x r' t :
  (∀ v r, p = Some (v, r) → q = Some (v, r ++ t)) → take_counted p min max = Some (x, r') →
  take_counted q min max = Some (x, r' ++ t).
Proof.
  intros Hpq. unfold take_counted. destruct p as [[v r]|]; [|done]. rewrite (Hpq v r eq_refl). cbn [mbind option_bind].
  destruct (_ || _); [done|]. apply take_bytes_mono.
Qed.

Lemma int_value_mono p q v r' t :
  (∀ v r, p = Some (v, r) → q = Some (v, r ++ t)) → int_value p = Some (v, r') → int_value q = Some (v, r' ++ t).
Proof.
  intros Hpq. unfold int_value. destruct p as [[x r]|]; [|done]. intros [= <- <-]. by rewrite (Hpq x r eq_refl).
Qed.

Lemma bytes_value_mono p q v r' t :
  (∀ v r, p = Some (v, r) → q = Some (v, r ++ t)) → bytes_value p = Some (v, r') → bytes_value q = Some (v, r' ++ t).
Proof.
  intros Hpq. unfold bytes_value. destruct p as [[x r]|]; [|done]. intros [= <- <-]. by rewrite (Hpq x r eq_refl).
Qed.

Lemma take_field_mono r f v r' t : take_field r f = Some (v, r') → take_field (r ++ t) f = Some (v, r' ++ t).
Proof.
  destruct f as [| | | | |l|n|min max|min max|min max|min max]; cbn [take_field].
  - apply int_value_mono. intros. by apply take_u8_mono.
  - apply int_value_mono. intros x y. unfold take_nz_u8. destruct (take_u8 r) as [[a b]|] eqn:E; [|done].
    rewrite (take_u8_mono _ _ _ t E). cbn [mbind option_bind]. destruct (a =? 0); [done|]. by intros [= <- <-].
  - apply int_value_mono. intros. by apply take_le_mono.
  - apply int_value_mono. intros. by apply take_le_mono.
  - apply int_value_mono. intros. by apply take_le_mono.
  - unfold expect_u8. destruct (take_u8 r) as [[a b]|] eqn:E; [|done]. rewrite (take_u8_mono _ _ _ t E).
    cbn [mbind option_bind]. destruct (a =? l); [|done]. by intros [= <- <-].
  - unfold skip. destruct (take_bytes r n) as [[a b]|] eqn:E; [|done]. rewrite (take_bytes_mono _ _ _ _ t E).
    by intros [= <- <-].
  - apply bytes_value_mono. intros x y. unfold take_len8_str, take_len8_bytes.
    destruct (take_counted (take_u8 r) min max) as [[a b]|] eqn:E; [|done].
    rewrite (take_counted_mono _ (take_u8 (r ++ t)) _ _ _ _ t (fun v r => take_u8_mono _ v r t) E).
    cbn [mbind option_bind]. destruct (from_utf8 a); [|done]. by intros [= <- <-].
  - apply bytes_value_mono. intros x y. apply take_counted_mono. intros. by apply take_u8_mono.
  - apply bytes_value_mono. intros x y. apply take_counted_mono. intros. by apply take_le_mono.
  - apply bytes_value_mono. intros x y. apply take_counted_mono. intros. by apply take_le_mono.
Qed.

Lemma take_fields_mono fs : ∀ r v r' t, take_fields r fs = Some (v, r') → take_fields (r ++ t) fs = Some (v, r' ++ t).
Proof.
  induction fs as [|f fs IH]; intros r v r' t; cbn [take_fields]; [by intros [= <- <-]|].
  destruct (take_field r f) as [[x y]|] eqn:E; [|done]. rewrite (take_field_mono _ _ _ _ t E). cbn [mbind option_bind].
  destruct (take_fields y fs) as [[u w]|] eqn:E2; [|done]. rewrite (IH _ _ _ t E2). by intros [= <- <-].
Qed.

Lemma take_bytes_inv r n x r' : take_bytes r n = Some (x, r') → r = x ++ r' ∧ length x = n.
Proof.
  unfold take_bytes. destruct (Nat.leb_spec n (length r)); [|done]. intros [= <- <-].
  by rewrite take_drop, length_take_le.
Qed.

Lemma take_u8_inv r v r' : take_u8 r = Some (v, r') → r = [v] ++ r'.
Proof. destruct r; [done|]. by intros [= <- <-]. Qed.

Lemma take_le_inv n r v r' :
  Forall is_byte r → take_le_n n r = Some (v, r') → r = le_bytes n v ++ r' ∧ in_width (8 * Z.of_nat n) v.
Proof.
  intros Hr. unfold take_le_n. intros ([x y] & (-> & <-)%take_bytes_inv & [= <- <-])%bind_Some.
  apply Forall_app in Hr as [Hx _]. split; [by rewrite le_bytes_value|by apply le_value_bound].
Qed.

Lemma take_counted_inv n p r min max limit x r' :
  (∀ v y, p = Some (v, y) → r = le_bytes n v ++ y ∧ 0 ≤ v ≤ limit) →
  take_counted p min max = Some (x, r') →
  r = (le_bytes n (vlen x) ++ x) ++ r' ∧ in_range (vlen x) min max limit = true.
Proof.
  intros Hp. unfold take_counted. destruct p as [[v y]|]; [|done]. destruct (Hp v y eq_refl) as [-> Hv].
  cbn [mbind option_bind]. destruct ((v <? min) || (max <? v)) eqn:E; [done|].
  intros [-> Hl]%take_bytes_inv. apply orb_false_iff in E as [E1%Z.ltb_ge E2%Z.ltb_ge].
  assert (Hx : vlen x = v) by (unfold vlen; lia). rewrite Hx, <- app_assoc. split; [done|]. apply in_range_iff. lia.
Qed.

Definition is_pad (f : field) : bool :=
  match f with
  | Pad _ => true
  | _ => false
  end.

(** [x] was read for a field that writes [b] for its values [v]. *)
Definition field_read (f : field) (x b : bytes) (v : list value) : Prop :=
  length x = length b ∧ (is_pad f = false → x = b) ∧ (∀ vs, emit_field f (v ++ vs) = Some (b, vs)) ∧
  Forall2 value_ok (List.filter has_value [f]) v.

Lemma field_read_int f n b :
  value_ok f (VInt n) → has_value f = true → (∀ vs, emit_field f (VInt n :: vs) = Some (b, vs)) →
  field_read f b b [VInt n].
Proof. intros Hv Hh He. split_and!; [done..|exact He|]. cbn [List.filter]. rewrite Hh. by repeat constructor. Qed.

Lemma field_read_bytes f s n limit min max :
  value_ok f (VBytes s) → has_value f = true →
  (∀ vs, emit_field f (VBytes s :: vs) = emit_counted n limit s min max vs) → in_range (vlen s) min max limit = true →
  field_read f (le_bytes n (vlen s) ++ s) (le_bytes n (vlen s) ++ s) [VBytes s].
Proof.
  intros Hv Hh He Hr. split_and!; [done..| |].
  - intros vs. cbn [app]. rewrite He. unfold emit_counted. by rewrite Hr.
  - cbn [List.filter]. rewrite Hh. by repeat constructor.
Qed.

Lemma take_u8_counted r :
  Forall is_byte r → ∀ v y, take_u8 r = Some (v, y) → r = le_bytes 1 v ++ y ∧ 0 ≤ v ≤ 255.
Proof.
  intros Hr v y ->%take_u8_inv. inversion_clear Hr as [|? ? Hv _]. unfold is_byte in Hv.
  rewrite le_bytes_1 by done. split; [done|lia].
Qed.

Lemma take_field_sound f r v r' :
  Forall is_byte r → take_field r f = Some (v, r') → ∃ x b, r = x ++ r' ∧ field_read f x b v.
Proof.
  intros Hr. destruct f as [| | | | |l|n|min max|min max|min max|min max]; cbn [take_field]; unfold int_value, bytes_value.
  - intros ([x y] & ->%take_u8_inv & [= <- <-])%bind_Some. inversion_clear Hr. exists [x], [x]. split; [done|].
    by apply field_read_int.
  - intros ([x y] & Hx & [= <- <-])%bind_Some. unfold take_nz_u8 in Hx.
    apply bind_Some in Hx as ([a b] & ->%take_u8_inv & Hx). destruct (a =? 0) eqn:E; [done|]. injection Hx as <- <-.
    inversion_clear Hr. exists [a], [a]. split; [done|]. apply field_read_int; [done..|]. cbn [emit_field]. by rewrite E.
  - intros ([x y] & Hx & [= <- <-])%bind_Some. apply take_le_inv in Hx as [-> Hw]; [|done].
    eexists _, _. split; [reflexivity|]. by apply field_read_int.
  - intros ([x y] & Hx & [= <- <-])%bind_Some. apply take_le_inv in Hx as [-> Hw]; [|done].
    eexists _, _. split; [reflexivity|]. by apply field_read_int.
  - intros ([x y] & Hx & [= <- <-])%bind_Some. apply take_le_inv in Hx as [-> Hw]; [|done].
    eexists _, _. split; [reflexivity|]. by apply field_read_int.
  - intros (y & ->%expect_u8_inv & [= <- <-])%bind_Some. exists [l], [l]. split; [done|]. by split_and!; try constructor.
  - intros (y & Hy & [= <- <-])%bind_Some. unfold skip in Hy.
    apply bind_Some in Hy as ([a b] & [-> Hl]%take_bytes_inv & [= <-]).
    exists a, (zeros n). split; [done|]. split_and!; [by rewrite length_zeros|done|done|constructor].
  - intros ([x y] & Hx & [= <- <-])%bind_Some. unfold take_len8_str in Hx.
    apply bind_Some in Hx as ([a b] & Ha & (s & Hs & [= <- <-])%bind_Some). unfold from_utf8 in Hs.
    destruct (utf8_valid a) eqn:Eu; [|done]. injection Hs as <-.
    apply (take_counted_inv 1 _ _ _ _ 255 _ _ (take_u8_counted r Hr)) in Ha as [-> Hin].
    eexists _, _. split; [reflexivity|]. by eapply field_read_bytes.
  - intros ([x y] & Ha & [= <- <-])%bind_Some.
    apply (take_counted_inv 1 _ _ _ _ 255 _ _ (take_u8_counted r Hr)) in Ha as [-> Hin].
    eexists _, _. split; [reflexivity|]. by eapply field_read_bytes.
  - intros ([x y] & Ha & [= <- <-])%bind_Some. apply (take_counted_inv 2 _ r _ _ 65535) in Ha as [-> Hin].
    + eexists _, _. split; [reflexivity|]. by eapply field_read_bytes.
    + intros v y' [Hy Hw]%take_le_inv; [|done]. split; [done|]. unfold in_width in Hw. simpl in Hw. lia.
  - intros ([x y] & Ha & [= <- <-])%bind_Some. apply (take_counted_inv 4 _ r _ _ 4294967295) in Ha as [-> Hin].
    + eexists _, _. split; [reflexivity|]. by eapply field_read_bytes.
    + intros v y' [Hy Hw]%take_le_inv; [|done]. split; [done|]. unfold in_width in Hw. simpl in Hw. lia.
Qed.

Lemma take_fields_sound fs : ∀ r vs r',
  Forall is_byte r → take_fields r fs = Some (vs, r') →
  ∃ x t, r = x ++ r' ∧ emit_fields fs vs = Some t ∧ length x = length t ∧
    (existsb is_pad fs = false → x = t) ∧ values_ok fs vs.
Proof.
  induction fs as [|f fs IH]; intros r vs r' Hr; cbn [take_fields emit_fields existsb].
  { intros [= <- <-]. exists [], []. by split_and!; try constructor. }
  intros ([v y] & Hf & ([us z] & Hu & [= <- <-])%bind_Some)%bind_Some.
  apply take_field_sound in Hf as (x & b & -> & Hl & Hp & He & Hv); [|done]. apply Forall_app in Hr as [_ Hy].
  apply IH in Hu as (x' & t & -> & Ht & Hl' & Hp' & Hv'); [|done].
  exists (x ++ x'), (b ++ t). rewrite He. cbn [mbind option_bind]. rewrite Ht. split_and!.
  - by rewrite app_assoc.
  - done.
  - rewrite !length_app. lia.
  - intros [H1 H2]%orb_false_iff. by rewrite Hp, Hp'.
  - unfold values_ok in *. change (f :: fs) with ([f] ++ fs). rewrite List.filter_app. by apply Forall2_app.
Qed.

(** ** The theorems *)

(** C32: round trip, for every frame of every protocol: the decoder generated
    from a declaration returns exactly the values given to the encoder, and
    what the encoder writes does not depend on the buffer beyond its fitting. *)
Theorem wire_roundtrip fr vs size b :
  values_ok fr.(fields) vs → encode fr vs size = Some b →
  decode fr b = Some vs ∧ (length b ≤ size)%nat ∧
  ∀ size', encode fr vs size' = if (length b <=? size')%nat then Some b else None.
Proof.
  intros Hv. rewrite encode_emit. intros (t & Ht & He)%bind_Some.
  destruct (Nat.leb_spec (4 + length t) size) as [Hs|]; [|done]. injection He as <-.
  change (length (header fr ++ t)) with (4 + length t)%nat. split_and!; [|done|].
  - apply decode_header. pose proof (take_emit_fields _ _ _ [] Hv Ht) as Hd. by rewrite app_nil_r in Hd.
  - intros size'. by rewrite encode_emit, Ht.
Qed.

(** C33: the decoders are strict, for every frame of every protocol: an accepted
    frame is, up to its padding bytes, the one encoding of the values it
    decodes to, which are of the declared types and within the declared bounds;
    no proper prefix and no extension of it is accepted; and no frame declared
    with another magic, version or opcode accepts it. *)
Theorem wire_strict fr b vs :
  Forall is_byte b → decode fr b = Some vs →
  values_ok fr.(fields) vs ∧
  (∃ b', encode fr vs (length b) = Some b' ∧ length b' = length b ∧ (existsb is_pad fr.(fields) = false → b' = b)) ∧
  (∀ k, (k < length b)%nat → decode fr (take k b) = None) ∧
  (∀ t, t ≠ [] → decode fr (b ++ t) = None) ∧
  (∀ fr' vs', decode fr' b = Some vs' → header fr' = header fr).
Proof.
  intros Hb Hd.
  assert (Hext : ∀ c us t, decode fr c = Some us → t ≠ [] → decode fr (c ++ t) = None).
  { intros c us t (x & -> & Hx)%decode_inv Ht. destruct (decode fr ((header fr ++ x) ++ t)) as [ws|] eqn:E; [|done]. exfalso.
    apply decode_inv in E as (y & Hy & Hf). apply (f_equal (drop 4)) in Hy. change (x ++ t = y) in Hy. subst y.
    rewrite (take_fields_mono _ _ _ _ t Hx) in Hf. by injection Hf as _ ->. }
  pose proof Hd as (x & -> & Hx)%decode_inv. apply Forall_app in Hb as [_ Hb].
  destruct (take_fields_sound _ _ _ _ Hb Hx) as (y & t & Hy & Ht & Hl & Hp & Hv). rewrite app_nil_r in Hy. subst y.
  split_and!; [done| | |by intros; eapply Hext|].
  - exists (header fr ++ t). rewrite encode_emit, Ht. cbn [mbind option_bind]. rewrite !length_app, <- Hl.
    change (length (header fr)) with 4%nat. rewrite Nat.leb_refl. split_and!; [done|done|]. intros Hnp. by rewrite Hp.
  - intros k Hk. destruct (decode fr (take k _)) as [us|] eqn:E; [|done].
    pose proof (Hext _ us (drop k (header fr ++ x)) E) as Hn. rewrite take_drop, Hd in Hn.
    assert (Hne : drop k (header fr ++ x) ≠ []); [|by apply Hn in Hne].
    intros Hz%(f_equal length). rewrite length_drop in Hz. simpl in Hz, Hk. lia.
  - intros fr' vs' (x' & Hx' & _)%decode_inv. symmetry. by apply (f_equal (take 4)) in Hx'.
Qed.

(** ** Fixed-size frames *)

Definition fixed_width (f : field) : option nat :=
  match f with
  | U8 | Lit _ => Some 1%nat
  | U16le => Some 2%nat
  | U32le => Some 4%nat
  | U64le => Some 8%nat
  | Pad n => Some n
  | _ => None
  end.

(** The array length of a [fixed] encoder. *)
Definition fixed_size (fr : frame) : option nat :=
  ws ← mapM fixed_width fr.(fields); Some (4 + foldr Nat.add 0 ws)%nat.

Lemma emit_fixed fs : ∀ vs ws,
  mapM fixed_width fs = Some ws → values_ok fs vs →
  ∃ t, emit_fields fs vs = Some t ∧ length t = foldr Nat.add 0%nat ws.
Proof.
  unfold values_ok. induction fs as [|f fs IH]; intros vs ws Hw Hv.
  { injection Hw as <-. inversion Hv. by exists []. }
  apply bind_Some in Hw as (w & Hf & (ws' & Hws & [= <-])%bind_Some). cbn [foldr].
  assert (Hone : ∃ b vs', emit_field f vs = Some (b, vs') ∧ length b = w ∧
    Forall2 value_ok (List.filter has_value fs) vs').
  { destruct f as [| | | | |l|n|min max|min max|min max|min max]; try discriminate Hf; injection Hf as <-; cbn [List.filter has_value] in Hv;
      try (inversion Hv as [|? [v|s] ? vs0 Hv0 Hvs]; subst; [|by destruct Hv0]); cbn [emit_field].
    all: eexists _, _; split; [reflexivity|]; split; [by rewrite ?le_bytes_length, ?length_zeros|done]. }
  destruct Hone as (b & vs' & He & Hl & Hvs). destruct (IH vs' ws' Hws Hvs) as (t & Ht & Hlt).
  exists (b ++ t). cbn [emit_fields]. rewrite He. cbn [mbind option_bind]. rewrite Ht.
  split; [done|]. rewrite length_app. lia.
Qed.

(** A fixed-size encoder never fails: with the array it sizes from the
    declaration, every choice of values of the declared types encodes and fills
    the array exactly. *)
Theorem wire_fixed_total fr n vs :
  fixed_size fr = Some n → values_ok fr.(fields) vs → ∃ b, encode fr vs n = Some b ∧ length b = n.
Proof.
  unfold fixed_size. intros (ws & Hw & [= <-])%bind_Some Hv. destruct (emit_fixed _ _ _ Hw Hv) as (t & Ht & Hl).
  exists (header fr ++ t). rewrite encode_emit, Ht. cbn [mbind option_bind]. rewrite Hl, Nat.leb_refl.
  split; [done|]. rewrite length_app, Hl. done.
Qed.

(** ** The protocols *)

Definition request_frame (m0 m1 ver op : Z) (fs : list field) : frame :=
  {| f_magic0 := m0; f_magic1 := m1; f_version := ver; wire_op := op; fields := fs |}.
Definition reply_frame (m0 m1 ver op : Z) (fs : list field) : frame :=
  request_frame m0 m1 ver (Z.lor op REPLY_BIT) fs.

Module Execd.
Definition request := request_frame 69 88 1.
Definition reply := reply_frame 69 88 1.
Definition OP_EXEC_IMAGE : Z := 1.
Definition MAX_REQUESTER_LEN : Z := 48.
Definition exec_image_req : frame := request OP_EXEC_IMAGE [U8; U8; Bytes8 1 MAX_REQUESTER_LEN].
Definition exec_image_rsp : frame := reply OP_EXEC_IMAGE [U8; U32le].

(** Written by hand in the source. *)
Definition encode_exec_image_req (requester : bytes) (image_id stack_pages : Z) (size : nat) : option bytes :=
  w ← put_hdr (writer_new size) 69 88 1 OP_EXEC_IMAGE;
  w ← put_u8 w image_id; w ← put_u8 w stack_pages; w ← put_len8_bytes w requester 1 MAX_REQUESTER_LEN;
  Some w.(written).
End Execd.

Module Routing.
Definition request := request_frame 82 84 1.
Definition OP_ROUTE_GET : Z := 0x40.
Definition OP_ROUTE_RSP : Z := 0x41.
Definition MAX_SERVICE_NAME_LEN : Z := 48.
Definition route_get : frame := request OP_ROUTE_GET [Bytes8 1 MAX_SERVICE_NAME_LEN].
Definition route_rsp : frame := request OP_ROUTE_RSP [U8; U32le; U32le].
End Routing.

Module Policy.
Definition OP_EXEC_CHECK : Z := 1.
Definition exec_check : frame := request_frame 80 67 1 OP_EXEC_CHECK [U32le; Bytes8 1 48; U8].
Definition exec_check_rsp : frame := reply_frame 80 67 1 OP_EXEC_CHECK [U32le; U8].
End Policy.

Module Policyd.
Definition VERSION_V2 : Z := 2.
Definition VERSION_V3 : Z := 3.
Definition OP_ROUTE : Z := 2.
Definition OP_EXEC : Z := 3.
Definition OP_ABI_PROFILE_GET : Z := 6.
Definition MAX_PROFILE_BYTES : Z := 512.
Definition route_v2 : frame := request_frame 80 79 VERSION_V2 OP_ROUTE [U32le; Bytes8 1 48; Bytes8 1 48].
Definition exec_v2 : frame := request_frame 80 79 VERSION_V2 OP_EXEC [U32le; Bytes8 1 48; U8].
Definition route_v3_id : frame := request_frame 80 79 VERSION_V3 OP_ROUTE [U32le; U64le; U64le].
Definition exec_v3_id : frame := request_frame 80 79 VERSION_V3 OP_EXEC [U32le; U64le; U8].
Definition abi_profile_get_v2 : frame := request_frame 80 79 VERSION_V2 OP_ABI_PROFILE_GET [U32le; U64le].
Definition abi_profile_rsp_v2 : frame :=
  reply_frame 80 79 VERSION_V2 OP_ABI_PROFILE_GET [U32le; U8; Pad 1; Bytes16 0 MAX_PROFILE_BYTES].
Definition rsp_v2 (op : Z) : frame := reply_frame 80 79 VERSION_V2 op [U32le; U8; Pad 1].
Definition rsp_v3 (op : Z) : frame := reply_frame 80 79 VERSION_V3 op [U32le; U8; Pad 1].

Definition decode_rsp_v2_or_v3 (b : bytes) : option (Z * Z * Z * Z) :=
  r ← expect_u8 b 80; r ← expect_u8 r 79; '(ver, r) ← take_u8 r;
  if negb (ver =? VERSION_V2) && negb (ver =? VERSION_V3) then None
  else
    '(op, r) ← take_u8 r;
    if Z.land op 0x80 =? 0 then None
    else
      '(nonce, r) ← take_u32le r; '(status, r) ← take_u8 r; r ← skip r 1; _ ← finish_exact r;
      Some (ver, Z.land op 0x7F, nonce, status).

Definition decode_rsp_v2 (b : bytes) : option (Z * Z * Z) :=
  '(ver, op, nonce, status) ← decode_rsp_v2_or_v3 b; if ver =? VERSION_V2 then Some (op, nonce, status) else None.
End Policyd.

Module Sessiond.
Definition OP_GET_STATE : Z := 1.
Definition OP_LOGIN : Z := 2.
Definition login_req : frame := request_frame 83 78 1 OP_LOGIN [Bytes8 1 255].
Definition login_rsp : frame := reply_frame 83 78 1 OP_LOGIN [U8; Bytes8 0 255].
Definition encode_get_state : bytes := [83; 78; 1; OP_GET_STATE].
Definition decode_request_op (b : bytes) : option Z := request_op b 83 78 1.
Definition decode_get_state_header (b : bytes) : option (Z * Z * Z * Z) :=
  r ← check_hdr b 83 78 1 (Z.lor OP_GET_STATE 0x80);
  '(status, r) ← take_u8 r; '(state, r) ← take_u8 r; '(active_idx, r) ← take_u8 r; '(count, _) ← take_u8 r;
  Some (status, state, active_idx, count).
End Sessiond.

Module Settingsd.
Definition request := request_frame 83 84 1.
Definition OP_GET : Z := 1.
Definition OP_SET : Z := 2.
Definition OP_WATCH : Z := 3.
Definition OP_EVENT : Z := 4.
Definition TYPE_TEXT : Z := 0.
Definition WATCH_PREFIX_MAX : Z := 64.
Definition get_req : frame := request OP_GET [Str8 1 255].
Definition set_req : frame := request OP_SET [Str8 1 255; Lit TYPE_TEXT; Str8 0 255].
Definition watch_req : frame := request OP_WATCH [Str8 1 WATCH_PREFIX_MAX].
Definition event : frame := request OP_EVENT [U8; Str8 1 255; Str8 0 255].
Definition response (op : Z) : frame := reply_frame 83 84 1 op [U8; Lit TYPE_TEXT; Str8 0 255].

Definition decode_request (b : bytes) : option (Z * bytes * bytes) :=
  op ← request_op b 83 84 1;
  if op =? OP_GET then
    match decode get_req b with Some [VBytes key] => Some (OP_GET, key, []) | _ => None end
  else if op =? OP_SET then
    match decode set_req b with Some [VBytes key; VBytes v] => Some (OP_SET, key, v) | _ => None end
  else if op =? OP_WATCH then
    match decode watch_req b with Some [VBytes prefix] => Some (OP_WATCH, prefix, []) | _ => None end
  else None.
End Settingsd.

Module Bundlemgrd.
Definition OP_LIST : Z := 1.
Definition OP_FETCH_IMAGE : Z := 3.
Definition OP_SET_ACTIVE_SLOT : Z := 4.
Definition OP_LIST_APPS : Z := 5.
Definition OP_GET_PAYLOAD : Z := 6.
Definition STATUS_OK : Z := 0.
Definition list_rsp : frame := reply_frame 66 78 1 OP_LIST [U8; U16le; Pad 1].
Definition fetch_image_rsp : frame := reply_frame 66 78 1 OP_FETCH_IMAGE [U8; Bytes32 0 0xFFFFFFFF].
Definition set_active_slot_rsp : frame := reply_frame 66 78 1 OP_SET_ACTIVE_SLOT [U8; U8; Pad 2].
Definition get_payload : frame := request_frame 66 78 1 OP_GET_PAYLOAD [Bytes8 1 48].
Definition encode_list : bytes := [66; 78; 1; OP_LIST].
Definition encode_fetch_image : bytes := [66; 78; 1; OP_FETCH_IMAGE].
Definition encode_list_apps : bytes := [66; 78; 1; OP_LIST_APPS].
Definition encode_set_active_slot_req (slot : Z) : bytes := [66; 78; 1; OP_SET_ACTIVE_SLOT; slot].
Definition decode_request_op (b : bytes) : option Z := request_op b 66 78 1.
Definition decode_list_apps_header (b : bytes) : option (Z * Z) :=
  r ← check_hdr b 66 78 1 (Z.lor OP_LIST_APPS 0x80); '(status, r) ← take_u8 r; '(count, _) ← take_u16le r;
  Some (status, count).

Definition PAYLOAD_MAGIC : bytes := [78; 88; 80; 76].
Definition PAYLOAD_DATA_OFFSET : nat := 16.
Definition encode_payload_header (status len : Z) : bytes :=
  PAYLOAD_MAGIC ++ [status] ++ zeros 3 ++ le_bytes 4 len ++ zeros 4.
Definition decode_payload_header (b : bytes) : option (Z * Z) :=
  if (length b <? PAYLOAD_DATA_OFFSET)%nat || negb (bool_decide (take 4 b = PAYLOAD_MAGIC)) then None
  else Some (nth 4 b 0, le_value (slice 8 12 b)).

(** The header a poller finds in front of the payload is read back whatever
    follows it, and memory that was never written is not taken for one. *)
Lemma payload_header_read status len rest :
  in_width 32 len → decode_payload_header (encode_payload_header status len ++ rest) = Some (status, len).
Proof.
  intros Hl. unfold decode_payload_header, encode_payload_header.
  rewrite !length_app, le_bytes_length, !length_zeros. cbn [length PAYLOAD_MAGIC PAYLOAD_DATA_OFFSET].
  rewrite (proj2 (Nat.ltb_ge _ _)) by (unfold PAYLOAD_DATA_OFFSET; lia). cbn [orb].
  rewrite bool_decide_eq_true_2 by reflexivity. cbn [negb]. f_equal. f_equal.
  transitivity (le_value (le_bytes 4 len)); [reflexivity|by apply le_value_bytes].
Qed.

Lemma payload_header_blank n : decode_payload_header (zeros n) = None.
Proof. do 5 (destruct n as [|n]; [reflexivity|]). unfold decode_payload_header. by destruct (_ <? _)%nat. Qed.
End Bundlemgrd.

Module Imed.
Definition request := request_frame 73 69 1.
Definition reply := reply_frame 73 69 1.
Definition OP_SET_FOCUS : Z := 1.
Definition OP_KEY : Z := 2.
Definition OP_COMMIT : Z := 3.
Definition OP_PREEDIT : Z := 4.
Definition OP_CANDIDATES : Z := 5.
Definition OP_CANDIDATE_SELECT : Z := 6.
Definition OP_ACTION : Z := 7.
Definition OP_SET_LAYOUT : Z := 8.
Definition LAYOUT_MAX_BYTES : Z := 8.
Definition TEXT_MAX_BYTES : Z := 64.
Definition CANDIDATES_MAX : Z := 8.
Definition CANDIDATE_MAX_BYTES : Z := 32.
Definition CANDIDATE_LIST_MAX_BYTES : Z := CANDIDATES_MAX * (1 + CANDIDATE_MAX_BYTES).
Definition set_focus : frame := request OP_SET_FOCUS [U64le; U8; U8; U16le; U16le; U16le; U16le].
Definition key : frame := request OP_KEY [U8; U8; U32le; U8; U8].
Definition commit : frame := request OP_COMMIT [U64le; Str8 1 TEXT_MAX_BYTES].
Definition preedit : frame := request OP_PREEDIT [U64le; U8; Str8 0 TEXT_MAX_BYTES].
Definition candidates : frame := request OP_CANDIDATES [U64le; U8; U8; Bytes16 0 CANDIDATE_LIST_MAX_BYTES].
Definition candidate_select : frame := request OP_CANDIDATE_SELECT [U8].
Definition set_layout : frame := request OP_SET_LAYOUT [Str8 1 LAYOUT_MAX_BYTES].
Definition action : frame := request OP_ACTION [U64le; U8].
Definition response (op : Z) : frame := reply op [U8].
Definition osk_reply (op : Z) : frame := reply op [U8; Str8 0 TEXT_MAX_BYTES].

(** The packing loop, on the bytes packed so far. *)
Fixpoint pack_candidates (cs : list bytes) (size : Z) (used : bytes) : option bytes :=
  match cs with
  | [] => Some used
  | c :: cs =>
      if (vlen c =? 0) || (CANDIDATE_MAX_BYTES <? vlen c) then None
      else
        let end_ := vlen used + 1 + vlen c in
        if (size <? end_) || (CANDIDATE_LIST_MAX_BYTES <? end_) then None
        else pack_candidates cs size (used ++ vlen c :: c)
  end.

Definition encode_candidate_list (cs : list bytes) (size : Z) : option bytes :=
  if CANDIDATES_MAX <? vlen cs then None else pack_candidates cs size [].

(** [seen] counts the entries passed; the list shrinks with every round. *)
Fixpoint candidate_from (fuel : nat) (rest : bytes) (seen index : Z) : option bytes :=
  match fuel, rest with
  | S fuel, len :: rest =>
      if (len =? 0) || (CANDIDATE_MAX_BYTES <? len) || (vlen rest <? len) then None
      else if seen =? index then from_utf8 (take (Z.to_nat len) rest)
      else if CANDIDATES_MAX <? seen + 1 then None
      else candidate_from fuel (drop (Z.to_nat len) rest) (seen + 1) index
  | _, _ => None
  end.

Definition candidate_at (l : bytes) (index : Z) : option bytes := candidate_from (length l) l 0 index.
End Imed.

Module Updated.
Definition OP_STAGE : Z := 1.
Definition OP_SWITCH : Z := 2.
Definition OP_HEALTH_OK : Z := 3.
Definition OP_GET_STATUS : Z := 4.
Definition OP_BOOT_ATTEMPT : Z := 5.
Definition STATUS_OK : Z := 0.
Definition STATUS_MALFORMED : Z := 1.
Definition STATUS_UNSUPPORTED : Z := 2.
Definition STATUS_FAILED : Z := 3.
Definition MAX_STAGE_BYTES : Z := 8 * 1024.
Definition request := request_frame 85 68 1.
Definition stage_req : frame := request OP_STAGE [Bytes32 1 MAX_STAGE_BYTES].
Definition switch_req : frame := request OP_SWITCH [NzU8].
Definition health_ok_req : frame := request OP_HEALTH_OK [].
Definition get_status_req : frame := request OP_GET_STATUS [].
Definition boot_attempt_req : frame := request OP_BOOT_ATTEMPT [].
Definition boot_attempt_rsp : frame := reply_frame 85 68 1 OP_BOOT_ATTEMPT [U8; U8; Pad 2].

Definition decode_request_op (b : bytes) : option Z := request_op b 85 68 1.
Definition empty_request (op : Z) (b : bytes) : bool :=
  (length b =? 4)%nat && bool_decide (decode_request_op b = Some op).
Definition decode_health_ok_req : bytes → bool := empty_request OP_HEALTH_OK.
Definition decode_get_status_req : bytes → bool := empty_request OP_GET_STATUS.
Definition decode_boot_attempt_req : bytes → bool := empty_request OP_BOOT_ATTEMPT.
Definition decode_stage_req (b : bytes) : option bytes :=
  match decode stage_req b with Some [VBytes p] => Some p | _ => None end.
Definition decode_switch_req (b : bytes) : option Z :=
  match decode switch_req b with Some [VInt t] => Some t | _ => None end.
Definition decode_boot_attempt_rsp (b : bytes) : option (Z * Z) :=
  match decode boot_attempt_rsp b with Some [VInt status; VInt slot] => Some (status, slot) | _ => None end.
End Updated.

Module Bundleimg.
Definition MAGIC : bytes := [78; 88; 66; 73].
Definition VERSION : Z := 1.
Record Entry := { bundle : bytes; version : bytes; path : bytes; kind : Z; entry_data : bytes }.

Definition decode_header (b : bytes) : option (Z * nat) :=
  '(m, r) ← take_bytes b 4;
  if bool_decide (m = MAGIC) then r ← expect_u8 r VERSION; '(count, _) ← take_u16le r; Some (count, 7%nat) else None.

(** The entry at an offset, and the offset behind it. *)
Definition decode_next (b : bytes) (off : nat) : option (Entry * nat) :=
  if (length b <=? off)%nat then None
  else
    let r0 := drop off b in
    '(bu, r) ← take_len8_bytes r0 0 0xFF; '(ve, r) ← take_len8_bytes r 0 0xFF;
    '(pa, r) ← take_len16_bytes r 0 0xFFFF; '(ki, r) ← take_u16le r; '(da, r) ← take_len32_bytes r 0 0xFFFFFFFF;
    Some ({| bundle := bu; version := ve; path := pa; kind := ki; entry_data := da |},
          (off + (length r0 - length r))%nat).
End Bundleimg.

(** Every frame declared with its own opcode. *)
Definition all_frames : list frame :=
  [Execd.exec_image_req; Execd.exec_image_rsp; Routing.route_get; Routing.route_rsp; Policy.exec_check;
   Policy.exec_check_rsp; Policyd.route_v2; Policyd.exec_v2; Policyd.route_v3_id; Policyd.exec_v3_id;
   Policyd.abi_profile_get_v2; Policyd.abi_profile_rsp_v2; Sessiond.login_req; Sessiond.login_rsp;
   Settingsd.get_req; Settingsd.set_req; Settingsd.watch_req; Settingsd.event; Bundlemgrd.list_rsp;
   Bundlemgrd.fetch_image_rsp; Bundlemgrd.set_active_slot_rsp; Bundlemgrd.get_payload; Imed.set_focus; Imed.key;
   Imed.commit; Imed.preedit; Imed.candidates; Imed.candidate_select; Imed.set_layout; Imed.action;
   Updated.stage_req; Updated.switch_req; Updated.health_ok_req; Updated.get_status_req; Updated.boot_attempt_req;
   Updated.boot_attempt_rsp].

(** The encoder written by hand is the one of the declaration. *)
Lemma exec_image_by_hand requester image_id stack_pages size :
  Execd.encode_exec_image_req requester image_id stack_pages size =
  encode Execd.exec_image_req [VInt image_id; VInt stack_pages; VBytes requester] size.
Proof.
  unfold Execd.encode_exec_image_req, encode. cbn [f_magic0 f_magic1 f_version wire_op fields Execd.exec_image_req
    Execd.request request_frame].
  destruct (put_hdr _ _ _ _ _) as [w|]; [|done]. cbn [mbind option_bind put_fields put_field].
  destruct (put_u8 w image_id) as [w1|]; [|done]. cbn [mbind option_bind].
  destruct (put_u8 w1 stack_pages) as [w2|]; [|done]. cbn [mbind option_bind].
  by destruct (put_len8_bytes w2 requester 1 Execd.MAX_REQUESTER_LEN).
Qed.

Lemma all_headers_distinct : NoDup (map header all_frames).
Proof. by apply (bool_decide_unpack _); vm_compute. Qed.

(** Dispatch is unambiguous: of all frames declared by the services with
    their own opcodes, at most one accepts a given byte string. *)
Theorem wire_unambiguous b fr fr' vs vs' :
  fr ∈ all_frames → fr' ∈ all_frames → decode fr b = Some vs → decode fr' b = Some vs' → fr = fr' ∧ vs = vs'.
Proof.
  intros Hfr Hfr' Hd Hd'.
  assert (Hh : header fr = header fr').
  { apply decode_inv in Hd as (x & -> & _). apply decode_inv in Hd' as (y & Hy & _).
    by apply (f_equal (take 4)) in Hy. }
  apply list_elem_of_lookup in Hfr as [i Hi]. apply list_elem_of_lookup in Hfr' as [j Hj].
  assert (i = j) as <-.
  { eapply (NoDup_lookup (map header all_frames)); [apply all_headers_distinct| |].
    - rewrite list_lookup_fmap, Hi. reflexivity.
    - rewrite list_lookup_fmap, Hj. cbn. by rewrite Hh. }
  rewrite Hi in Hj. injection Hj as <-. rewrite Hd in Hd'. by injection Hd' as <-.
Qed.

(** ** Candidate lists *)

Definition packed (cs : list bytes) : bytes := concat (map (fun c => vlen c :: c) cs).

Lemma pack_candidates_inv cs : ∀ size used l,
  Imed.pack_candidates cs size used = Some l →
  l = used ++ packed cs ∧ Forall (fun c => 0 < vlen c ≤ Imed.CANDIDATE_MAX_BYTES) cs ∧
  (vlen used ≤ Imed.CANDIDATE_LIST_MAX_BYTES → vlen l ≤ Imed.CANDIDATE_LIST_MAX_BYTES).
Proof.
  induction cs as [|c cs IH]; intros size used l; cbn [Imed.pack_candidates].
  { intros [= <-]. unfold packed. cbn. rewrite app_nil_r. by split_and!. }
  destruct (Z.eqb_spec (vlen c) 0); [done|]. destruct (Z.ltb_spec Imed.CANDIDATE_MAX_BYTES (vlen c)); [done|]. cbn [orb].
  destruct (_ || _) eqn:E; [done|]. apply orb_false_iff in E as [_ E%Z.ltb_ge].
  intros (-> & Hf & Hb)%IH. pose proof (vlen_nonneg c). split_and!.
  - unfold packed. cbn [map concat]. by rewrite <- !app_assoc.
  - constructor; [lia|done].
  - intros _. apply Hb. rewrite vlen_app. unfold vlen in *. cbn [length]. lia.
Qed.

Lemma candidate_from_packed cs : ∀ fuel seen i,
  Forall (fun c => 0 < vlen c ≤ Imed.CANDIDATE_MAX_BYTES ∧ utf8_valid c = true) cs →
  (length (packed cs) ≤ fuel)%nat → 0 ≤ seen → seen + vlen cs ≤ Imed.CANDIDATES_MAX → seen ≤ i →
  Imed.candidate_from fuel (packed cs) seen i = cs !! Z.to_nat (i - seen).
Proof.
  induction cs as [|c cs IH]; intros fuel seen i Hf Hl Hs Hn Hi; [by destruct fuel|].
  inversion_clear Hf as [|? ? [Hc Hu] Hcs]. unfold packed in *. cbn [map concat] in *. fold (packed cs) in *.
  destruct fuel as [|fuel]; [cbn in Hl; lia|]. cbn [app Imed.candidate_from].
  rewrite (proj2 (Z.eqb_neq _ _)) by lia. rewrite (proj2 (Z.ltb_ge _ (vlen c))) by lia.
  rewrite (proj2 (Z.ltb_ge _ _)) by (rewrite vlen_app; unfold vlen; lia). cbn [orb].
  assert (Hvl : Z.to_nat (vlen c) = length c) by (unfold vlen; lia). rewrite Hvl, take_app_length, drop_app_length.
  assert (Hlen : vlen (c :: cs) = vlen cs + 1) by (unfold vlen; cbn [length]; lia). pose proof (vlen_nonneg cs).
  destruct (Z.eqb_spec seen i) as [->|Hne].
  - rewrite Z.sub_diag. cbn. unfold from_utf8. by rewrite Hu.
  - rewrite (proj2 (Z.ltb_ge _ _)) by lia. rewrite IH; [|done|cbn in Hl; rewrite length_app in Hl; lia|lia..].
    replace (Z.to_nat (i - seen)) with (S (Z.to_nat (i - (seen + 1)))) by lia. done.
Qed.

(** A packed candidate list holds the candidates: whatever list the packer
    accepts (and [&str]s they are), reading it at an index returns the
    candidate at that index and nothing beyond the last; the payload always
    fits the bound of the frame that carries it. *)
Theorem candidate_list_roundtrip cs size l i :
  Forall (fun c => utf8_valid c = true) cs → 0 ≤ i → Imed.encode_candidate_list cs size = Some l →
  Imed.candidate_at l i = cs !! Z.to_nat i ∧ vlen l ≤ Imed.CANDIDATE_LIST_MAX_BYTES.
Proof.
  intros Hu Hi. unfold Imed.encode_candidate_list. destruct (Z.ltb_spec Imed.CANDIDATES_MAX (vlen cs)); [done|].
  intros (-> & Hf & Hb)%pack_candidates_inv. cbn [app] in *. split; [|apply Hb; done].
  unfold Imed.candidate_at. rewrite candidate_from_packed, Z.sub_0_r; [done|by apply Forall_and|lia..].
Qed.

(** ** Walking a bundle image *)

Lemma take_counted_shorter p (r : bytes) n min max x r' :
  (∀ v y, p = Some (v, y) → (length y + n = length r)%nat) → take_counted p min max = Some (x, r') →
  (length r' + n ≤ length r)%nat.
Proof.
  intros Hp. unfold take_counted. destruct p as [[v y]|]; [|done]. pose proof (Hp v y eq_refl). cbn [mbind option_bind].
  destruct (_ || _); [done|]. intros [-> _]%take_bytes_inv. rewrite length_app in *. lia.
Qed.

Lemma take_le_shorter n r v y : take_le_n n r = Some (v, y) → (length y + n = length r)%nat.
Proof.
  unfold take_le_n. intros ([a b] & [-> Hl]%take_bytes_inv & [= <- <-])%bind_Some. rewrite length_app. lia.
Qed.

Lemma take_u8_shorter r v y : take_u8 r = Some (v, y) → (length y + 1 = length r)%nat.
Proof. intros ->%take_u8_inv. rewrite length_app. cbn. lia. Qed.

(** The walk over a bundle image terminates inside the image: each entry
    read moves the cursor forward by at least its ten fixed bytes and never
    past the end of the image. *)
Theorem bundleimg_progress b off e off' :
  Bundleimg.decode_next b off = Some (e, off') → (off + 10 ≤ off' ≤ length b)%nat.
Proof.
  unfold Bundleimg.decode_next. destruct (Nat.leb_spec (length b) off) as [|Ho]; [done|].
  intros ([bu r1] & H1 & ([ve r2] & H2 & ([pa r3] & H3 & ([ki r4] & H4 & ([da r5] & H5 & [= <- <-])%bind_Some)
    %bind_Some)%bind_Some)%bind_Some)%bind_Some.
  apply (take_counted_shorter _ _ 1 _ _ _ _ (take_u8_shorter _)) in H1.
  apply (take_counted_shorter _ _ 1 _ _ _ _ (take_u8_shorter _)) in H2.
  apply (take_counted_shorter _ _ 2 _ _ _ _ (take_le_shorter 2 _)) in H3.
  apply take_le_shorter in H4. apply (take_counted_shorter _ _ 4 _ _ _ _ (take_le_shorter 4 _)) in H5.
  rewrite length_drop in *. lia.
Qed.

(** ** Frames *)

Lemma wire_roundtrip_witness :
  decode Settingsd.set_req [83; 84; 1; 2; 1; 107; 0; 2; 118; 118] = Some [VBytes [107]; VBytes [118; 118]].
Proof.
  apply (wire_roundtrip Settingsd.set_req [VBytes [107]; VBytes [118; 118]] 64).
  - repeat constructor.
  - vm_compute. reflexivity.
Defined.

Lemma wire_strict_witness :
  decode Settingsd.set_req (take 9 [83; 84; 1; 2; 1; 107; 0; 2; 118; 118]) = None.
Proof.
  assert (Hb : Forall is_byte [83; 84; 1; 2; 1; 107; 0; 2; 118; 118]) by (repeat constructor; simpl; lia).
  assert (Hd : decode Settingsd.set_req [83; 84; 1; 2; 1; 107; 0; 2; 118; 118] = Some [VBytes [107]; VBytes [118; 118]])
    by (vm_compute; reflexivity).
  destruct (wire_strict _ _ _ Hb Hd) as (_ & _ & Hk & _). apply (Hk 9%nat). simpl. lia.
Defined.

Lemma wire_fixed_total_witness :
  ∃ b, encode Imed.key [VInt 0; VInt 0; VInt 97; VInt 0; VInt 2] 12 = Some b ∧ length b = 12%nat.
Proof.
  apply (wire_fixed_total Imed.key 12 [VInt 0; VInt 0; VInt 97; VInt 0; VInt 2]).
  - reflexivity.
  - repeat constructor; simpl; lia.
Defined.

Lemma wire_unambiguous_witness :
  Settingsd.get_req = Settingsd.get_req ∧ [VBytes [107]] = [VBytes [107]].
Proof.
  apply (wire_unambiguous [83; 84; 1; 1; 1; 107] Settingsd.get_req Settingsd.get_req [VBytes [107]] [VBytes [107]]).
  - repeat (apply list_elem_of_here || apply list_elem_of_further).
  - repeat (apply list_elem_of_here || apply list_elem_of_further).
  - vm_compute. reflexivity.
  - vm_compute. reflexivity.
Defined.

Lemma candidate_list_roundtrip_witness :
  Imed.candidate_at [1; 97; 2; 98; 99] 1 = Some [98; 99].
Proof.
  apply (candidate_list_roundtrip [[97]; [98; 99]] 64 [1; 97; 2; 98; 99] 1).
  - repeat constructor.
  - lia.
  - vm_compute. reflexivity.
Defined.

Lemma bundleimg_progress_witness : (7 + 10 ≤ 19 ≤ 19)%nat.
Proof.
  apply (bundleimg_progress ([78; 88; 66; 73; 1; 1; 0] ++ [1; 97; 0; 0; 0; 0; 0; 1; 0; 0; 0; 5]) 7
    {| Bundleimg.bundle := [97]; Bundleimg.version := []; Bundleimg.path := []; Bundleimg.kind := 0;
       Bundleimg.entry_data := [5] |} 19).
  vm_compute. reflexivity.
Defined.
