(* ===== verification/SystemSet.v ===== *)
(** System-set archives ([userspace/updates/src/system_set.rs]): the tar
    reader, the index and its checks, the signature over the index and the
    digests of the bundles.  The Cap'n Proto reader (generated code), the
    signature check and the hash are parameters. *)

From Stdlib Require Import String.
From S2P Require Import Prelude Bytes Storage.

Abbreviation length := List.length.

Definition MAX_NXS_ARCHIVE_BYTES : Z := 100 * 1024 * 1024.
Definition MAX_SYSTEM_NXSINDEX_BYTES : Z := 1024 * 1024.
Definition MAX_MANIFEST_NXB_BYTES : Z := 256 * 1024.
Definition MAX_PAYLOAD_ELF_BYTES : Z := 50 * 1024 * 1024.
Definition MAX_BUNDLES_PER_SET : Z := 256.

(** The bytes of a string literal. *)
Definition text (s : string) : bytes := map (fun a => Z.of_N (Ascii.N_of_ascii a)) (list_ascii_of_string s).

Record BundleIndexEntry := {
  bi_name : bytes;
  bi_version : bytes;
  manifest_sha256 : bytes;
  payload_sha256 : bytes;
  payload_size : Z
}.

Record SystemSetIndex := {
  system_version : bytes;
  publisher : bytes;
  timestamp_unix_ms : Z;
  index_bundles : list BundleIndexEntry
}.

Record BundleRecord := {
  br_name : bytes;
  br_version : bytes;
  manifest : bytes;
  payload : bytes
}.

Record SystemSet := { index : SystemSetIndex; bundles : list BundleRecord }.

Inductive SystemSetError :=
| ArchiveTooLarge (actual max : Z)
| ArchiveMalformed (reason : string)
| MissingEntry (entry : string)
| UnexpectedEntry (name : bytes)
| OversizedEntry (name : bytes) (actual max : Z)
| InvalidSignature (reason : string)
| InvalidIndex (reason : string)
| DigestMismatch (name : bytes) (field : string).

(** ** The tar reader *)

(** The UTF-8 sequences of the characters [str::trim] removes. *)
Definition whitespace : list bytes :=
  [[9]; [10]; [11]; [12]; [13]; [32]; [194; 133]; [194; 160]; [225; 154; 128]]
  ++ map (fun k => [226; 128; k]) [128; 129; 130; 131; 132; 133; 134; 135; 136; 137; 138; 168; 169; 175]
  ++ [[226; 129; 159]; [227; 128; 128]].

Fixpoint strip_all (fuel : nat) (ws : list bytes) (s : bytes) : bytes :=
  match fuel with
  | O => s
  | S fuel =>
      match List.find (fun w => starts_with w s) ws with
      | Some w => strip_all fuel ws (drop (length w) s)
      | None => s
      end
  end.

(** [str::trim]: both ends. *)
Definition trim (s : bytes) : bytes :=
  let s := strip_all (length s) whitespace s in
  rev (strip_all (length s) (map (@rev Z) whitespace) (rev s)).

(** The bytes before the first zero. *)
Fixpoint until_zero (s : bytes) : bytes :=
  match s with
  | [] => []
  | b :: s => if b =? 0 then [] else b :: until_zero s
  end.

Definition parse_name (header : bytes) : result bytes SystemSetError :=
  match from_utf8 (until_zero (take 100 header)) with
  | None => Err (ArchiveMalformed "tar name invalid utf-8")
  | Some s =>
      let name := trim s in
      if bool_decide (name = []) then Err (ArchiveMalformed "empty tar name") else Ok name
  end.

(** [usize::checked_mul(8)] *)
Definition checked_mul8 (x : Z) : option Z := if x * 8 <? 2 ^ 64 then Some (x * 8) else None.

Fixpoint octal_digits (b : bytes) (out : Z) (saw_digit : bool) : result (Z * bool) SystemSetError :=
  match b with
  | [] => Ok (out, saw_digit)
  | d :: b =>
      if (d =? 0) || (d =? 32) then octal_digits b out saw_digit
      else if (d <? 48) || (55 <? d) then Err (ArchiveMalformed "invalid tar size")
      else
        match (v ← checked_mul8 out; checked_add 64 v (d - 48)) with
        | None => Err (ArchiveMalformed "tar size overflow")
        | Some out => octal_digits b out true
        end
  end.

Definition parse_octal (b : bytes) : result Z SystemSetError :=
  let? r := octal_digits b 0 false in
  if r.2 then Ok r.1 else Err (ArchiveMalformed "missing tar size").

Definition is_safe_path (path : bytes) : bool :=
  if starts_with [47] path || existsb (Z.eqb 0) path then false
  else forallb (fun part => negb (bool_decide (part = [46; 46]))) (split_on 47 path).

Record TarEntry := { te_name : bytes; te_data : bytes; is_dir : bool }.

(** One header block and what follows it, from the rest of the archive, which
    begins at [offset]. *)
Definition tar_entry (offset : Z) (rest : bytes) : result (TarEntry * Z) SystemSetError :=
  let header := take 512 rest in
  let? name := parse_name header in
  if negb (is_safe_path name) then Err (ArchiveMalformed "unsafe path")
  else
    let? size := parse_octal (slice 124 136 header) in
    let body := drop 512 rest in
    match checked_add 64 (offset + 512) size with
    | None => Err (ArchiveMalformed "tar size overflow")
    | Some data_end =>
        if offset + vlen rest <? data_end then Err (ArchiveMalformed "truncated tar entry")
        else Ok ({| te_name := name; te_data := take (Z.to_nat size) body; is_dir := nth 156 header 0 =? 53 |},
                 (size + 511) / 512 * 512)
    end.

(** The loop over the archive, on what is left of it; every round takes at
    least a header block, so the length of the archive bounds the rounds. *)
Fixpoint tar_loop (fuel : nat) (offset : Z) (rest : bytes) : result (list TarEntry) SystemSetError :=
  match fuel with
  | O => Ok []
  | S fuel =>
      if (length rest <? 512)%nat then Ok []
      else if forallb (Z.eqb 0) (take 512 rest) then Ok []
      else
        let? e := tar_entry offset rest in
        let? es := tar_loop fuel (offset + 512 + e.2) (drop (512 + Z.to_nat e.2) rest) in Ok (e.1 :: es)
  end.

Definition parse_tar_entries (b : bytes) : result (list TarEntry) SystemSetError := tar_loop (length b) 0 b.

(** ** The index *)

(** What the Cap'n Proto accessors of the generated reader return for the root
    and its bundles; [None] is the error of an accessor. *)
Record RawBundle := {
  get_name : option bytes;
  get_version : option bytes;
  get_manifest_sha256 : option bytes;
  get_payload_sha256 : option bytes;
  get_payload_size : Z
}.

Record RawIndex := {
  get_system_version : option bytes;
  get_publisher : option bytes;
  get_timestamp_unix_ms : Z;
  get_bundles : option (list RawBundle)
}.

(** A text field: present, UTF-8 and not blank. *)
Definition index_text (field : string) (o : option bytes) : result bytes SystemSetError :=
  match o with
  | None => Err (InvalidIndex (field ++ " missing"))
  | Some b =>
      match from_utf8 b with
      | None => Err (InvalidIndex (field ++ " invalid utf-8"))
      | Some s =>
          let t := trim s in
          if bool_decide (t = []) then Err (InvalidIndex (field ++ " empty")) else Ok t
      end
  end.

Definition index_bundle (e : RawBundle) : result BundleIndexEntry SystemSetError :=
  let? name := index_text "bundle name" e.(get_name) in
  let? version := index_text "bundle version" e.(get_version) in
  let? m := ok_or e.(get_manifest_sha256) (InvalidIndex "manifestSha256 missing") in
  let? p := ok_or e.(get_payload_sha256) (InvalidIndex "payloadSha256 missing") in
  if negb (vlen m =? 32) || negb (vlen p =? 32) then Err (InvalidIndex "digest must be 32 bytes")
  else Ok {| bi_name := name; bi_version := version; manifest_sha256 := m; payload_sha256 := p;
             payload_size := e.(get_payload_size) |}.

Fixpoint index_entries (es : list RawBundle) : result (list BundleIndexEntry) SystemSetError :=
  match es with
  | [] => Ok []
  | e :: es => let? b := index_bundle e in let? bs := index_entries es in Ok (b :: bs)
  end.

(** [parse_index] over the Cap'n Proto reader: the outer [None] is a message
    that does not decode, the inner one a message without a root. *)
Definition parse_index (read_message : bytes → option (option RawIndex)) (b : bytes)
    : result SystemSetIndex SystemSetError :=
  let? message := ok_or (read_message b) (InvalidIndex "capnp decode failed") in
  let? root := ok_or message (InvalidIndex "capnp root missing") in
  let? version := index_text "systemVersion" root.(get_system_version) in
  let? key := ok_or root.(get_publisher) (InvalidIndex "publisher missing") in
  if negb (vlen key =? 32) then Err (InvalidIndex "publisher must be 32 bytes")
  else
    let? raw := ok_or root.(get_bundles) (InvalidIndex "bundles missing") in
    let? bs := index_entries raw in
    Ok {| system_version := version; publisher := key; timestamp_unix_ms := root.(get_timestamp_unix_ms);
          index_bundles := bs |}.

(** ** The archive *)

Section Parse.
Context (read_message : bytes → option (option RawIndex)).
Context (verify_ed25519 : bytes → bytes → bytes → bool).
Context (sha256 : bytes → bytes).

(** The files behind the index and the signature; a later file replaces an
    earlier one of the same name. *)
Definition file_map (es : list TarEntry) : gmap bytes bytes :=
  foldl (fun m e => if e.(is_dir) then m else <[e.(te_name) := e.(te_data)]> m) ∅ es.

Definition manifest_path (name : bytes) : bytes := name ++ text ".nxb/manifest.nxb".
Definition payload_path (name : bytes) : bytes := name ++ text ".nxb/payload.elf".

(** One bundle of the index: its files leave the map. *)
Definition take_bundle (files : gmap bytes bytes) (b : BundleIndexEntry)
    : result (BundleRecord * gmap bytes bytes) SystemSetError :=
  match files !! manifest_path b.(bi_name) with
  | None => Err (MissingEntry "manifest.nxb")
  | Some m =>
      let files := delete (manifest_path b.(bi_name)) files in
      match files !! payload_path b.(bi_name) with
      | None => Err (MissingEntry "payload.elf")
      | Some p =>
          let files := delete (payload_path b.(bi_name)) files in
          if MAX_MANIFEST_NXB_BYTES <? vlen m then
            Err (OversizedEntry (manifest_path b.(bi_name)) (vlen m) MAX_MANIFEST_NXB_BYTES)
          else if MAX_PAYLOAD_ELF_BYTES <? vlen p then
            Err (OversizedEntry (payload_path b.(bi_name)) (vlen p) MAX_PAYLOAD_ELF_BYTES)
          else if negb (vlen p =? b.(payload_size)) then Err (DigestMismatch b.(bi_name) "payloadSize")
          else if negb (bool_decide (sha256 m = b.(manifest_sha256))) then Err (DigestMismatch b.(bi_name) "manifestSha256")
          else if negb (bool_decide (sha256 p = b.(payload_sha256))) then Err (DigestMismatch b.(bi_name) "payloadSha256")
          else Ok ({| br_name := b.(bi_name); br_version := b.(bi_version); manifest := m; payload := p |}, files)
      end
  end.

Fixpoint take_bundles (files : gmap bytes bytes) (bs : list BundleIndexEntry)
    : result (list BundleRecord * gmap bytes bytes) SystemSetError :=
  match bs with
  | [] => Ok ([], files)
  | b :: bs =>
      let? r := take_bundle files b in
      let? rs := take_bundles r.2 bs in Ok (r.1 :: rs.1, rs.2)
  end.

Definition parse (b : bytes) : result SystemSet SystemSetError :=
  if MAX_NXS_ARCHIVE_BYTES <? vlen b then Err (ArchiveTooLarge (vlen b) MAX_NXS_ARCHIVE_BYTES)
  else
    let? entries := parse_tar_entries b in
    match entries with
    | index_entry :: sig_entry :: files =>
        if negb (bool_decide (index_entry.(te_name) = text "system.nxsindex")) then Err (MissingEntry "system.nxsindex")
        else if negb (bool_decide (sig_entry.(te_name) = text "system.sig.ed25519")) then
          Err (MissingEntry "system.sig.ed25519")
        else if MAX_SYSTEM_NXSINDEX_BYTES <? vlen index_entry.(te_data) then
          Err (OversizedEntry index_entry.(te_name) (vlen index_entry.(te_data)) MAX_SYSTEM_NXSINDEX_BYTES)
        else if negb (vlen sig_entry.(te_data) =? 64) then Err (InvalidSignature "signature must be 64 bytes")
        else
          let? idx := parse_index read_message index_entry.(te_data) in
          if negb (verify_ed25519 idx.(publisher) index_entry.(te_data) sig_entry.(te_data)) then
            Err (InvalidSignature "signature verify failed")
          else if MAX_BUNDLES_PER_SET <? vlen idx.(index_bundles) then Err (ArchiveMalformed "too many bundles")
          else
            let? r := take_bundles (file_map files) idx.(index_bundles) in
            match str_keys r.2 with
            | extra :: _ => Err (UnexpectedEntry extra)
            | [] => Ok {| index := idx; bundles := r.1 |}
            end
    | _ => Err (ArchiveMalformed "missing system entries")
    end.
End Parse.

(** ** What an accepted archive is *)

Lemma tar_entry_ok offset rest e padded :
  tar_entry offset rest = Ok (e, padded) → is_safe_path e.(te_name) = true ∧ e.(te_name) ≠ [].
Proof.
  unfold tar_entry, parse_name. destruct (from_utf8 _) as [s|]; [|done]. case_bool_decide as Hn; [done|]. cbn [result_bind].
  destruct (is_safe_path (trim s)) eqn:Es; [|done]. cbn [negb].
  destruct (parse_octal _) as [size|]; [|done]. cbn [result_bind]. destruct (checked_add _ _ _) as [data_end|]; [|done].
  destruct (_ <? _); [done|]. by intros [= <- <-].
Qed.

Lemma tar_loop_safe fuel : ∀ offset rest es,
  tar_loop fuel offset rest = Ok es → Forall (fun e => is_safe_path e.(te_name) = true ∧ e.(te_name) ≠ []) es.
Proof.
  induction fuel as [|fuel IH]; intros offset rest es; cbn [tar_loop]; [by intros [= <-]|].
  destruct (_ <? _)%nat; [by intros [= <-]|]. destruct (forallb _ _); [by intros [= <-]|].
  destruct (tar_entry offset rest) as [[e padded]|] eqn:Ee; [|done]. cbn [result_bind fst snd].
  destruct (tar_loop fuel _ _) as [es'|] eqn:El; [|done]. intros [= <-].
  constructor; [by eapply tar_entry_ok|by eapply IH].
Qed.

(** The bound on the rounds is enough: more rounds read the same entries. *)
Lemma tar_loop_fuel fuel : ∀ fuel' offset rest,
  (length rest ≤ fuel)%nat → (fuel ≤ fuel')%nat → tar_loop fuel' offset rest = tar_loop fuel offset rest.
Proof.
  induction fuel as [|fuel IH]; intros fuel' offset rest Hl Hf.
  { destruct rest; [|simpl in Hl; lia]. by destruct fuel'. }
  destruct fuel' as [|fuel']; [lia|]. cbn [tar_loop].
  destruct (Nat.ltb_spec (length rest) 512); [done|]. destruct (forallb _ _); [done|].
  destruct (tar_entry offset rest) as [[e padded]|]; [|done]. cbn [result_bind fst snd].
  rewrite (IH fuel'); [done|rewrite length_drop; lia|lia].
Qed.

Lemma file_map_spec es name :
  file_map es !! name =
    te_data <$> last (List.filter (fun e => negb e.(is_dir) && bool_decide (e.(te_name) = name)) es).
Proof.
  unfold file_map. induction es as [|e es IH] using rev_ind; [done|].
  rewrite foldl_app, List.filter_app. cbn [foldl List.filter]. destruct (is_dir e); cbn [negb andb].
  - by rewrite app_nil_r.
  - case_bool_decide as Hn.
    + rewrite <- Hn, lookup_insert_eq, last_snoc. done.
    + rewrite lookup_insert_ne by done. by rewrite app_nil_r.
Qed.

Section Accepted.
Context (read_message : bytes → option (option RawIndex)).
Context (verify_ed25519 : bytes → bytes → bytes → bool).
Context (sha256 : bytes → bytes).

(** A bundle as the index describes it. *)
Definition bundle_matches (files : gmap bytes bytes) (b : BundleIndexEntry) (r : BundleRecord) : Prop :=
  r.(br_name) = b.(bi_name) ∧ r.(br_version) = b.(bi_version) ∧
  sha256 r.(manifest) = b.(manifest_sha256) ∧ sha256 r.(payload) = b.(payload_sha256) ∧
  vlen r.(payload) = b.(payload_size) ∧ vlen r.(manifest) ≤ MAX_MANIFEST_NXB_BYTES ∧
  vlen r.(payload) ≤ MAX_PAYLOAD_ELF_BYTES ∧
  files !! manifest_path b.(bi_name) = Some r.(manifest) ∧ files !! payload_path b.(bi_name) = Some r.(payload).

(** An entry of a parsed index. *)
Definition index_entry_ok (b : BundleIndexEntry) : Prop :=
  b.(bi_name) ≠ [] ∧ b.(bi_version) ≠ [] ∧ vlen b.(manifest_sha256) = 32 ∧ vlen b.(payload_sha256) = 32.

Lemma index_text_ok field o t : index_text field o = Ok t → t ≠ [].
Proof.
  unfold index_text. destruct o as [b|]; [|done]. destruct (from_utf8 b) as [s|]; [|done].
  cbv zeta. case_bool_decide; [done|]. by intros [= <-].
Qed.

Lemma index_bundle_ok e b : index_bundle e = Ok b → index_entry_ok b.
Proof.
  unfold index_bundle. destruct (index_text _ (get_name e)) as [n|] eqn:En; [|done]. cbn [result_bind].
  destruct (index_text _ (get_version e)) as [v|] eqn:Ev; [|done]. cbn [result_bind].
  destruct (get_manifest_sha256 e) as [m|]; [|done]. destruct (get_payload_sha256 e) as [p|]; [|done]. cbn [ok_or result_bind].
  destruct (Z.eqb_spec (vlen m) 32); [|done]. destruct (Z.eqb_spec (vlen p) 32); [|done]. cbn [negb orb].
  intros [= <-]. split_and!; [by eapply index_text_ok..|done|done].
Qed.

Lemma index_entries_ok es : ∀ bs, index_entries es = Ok bs → Forall index_entry_ok bs.
Proof.
  induction es as [|e es IH]; intros bs; cbn [index_entries]; [by intros [= <-]|].
  destruct (index_bundle e) as [b|] eqn:Eb; [|done]. cbn [result_bind].
  destruct (index_entries es) as [bs'|]; [|done]. intros [= <-].
  constructor; [by eapply index_bundle_ok|by apply IH].
Qed.

Lemma parse_index_ok b idx :
  parse_index read_message b = Ok idx → vlen idx.(publisher) = 32 ∧ Forall index_entry_ok idx.(index_bundles).
Proof.
  unfold parse_index. destruct (read_message b) as [[root|]|]; [|done..]. cbn [ok_or result_bind].
  destruct (index_text _ _); [|done]. cbn [result_bind]. destruct (get_publisher root) as [key|]; [|done]. cbn [ok_or result_bind].
  destruct (Z.eqb_spec (vlen key) 32); [|done]. cbn [negb]. destruct (get_bundles root) as [raw|]; [|done]. cbn [ok_or result_bind].
  destruct (index_entries raw) as [bs|] eqn:Eb; [|done]. intros [= <-]. split; [done|by eapply index_entries_ok].
Qed.

Lemma paths_differ a b : manifest_path a ≠ payload_path b.
Proof.
  unfold manifest_path, payload_path. intros H%(f_equal (@rev Z)). rewrite !rev_app_distr in H. by cbn in H.
Qed.

Lemma take_bundle_ok files b r files' :
  take_bundle sha256 files b = Ok (r, files') →
  bundle_matches files b r ∧ files' = delete (payload_path b.(bi_name)) (delete (manifest_path b.(bi_name)) files).
Proof.
  unfold take_bundle. destruct (files !! manifest_path (bi_name b)) as [m|] eqn:Em; [|done].
  destruct (delete _ files !! payload_path (bi_name b)) as [p|] eqn:Ep; [|done].
  destruct (Z.ltb_spec MAX_MANIFEST_NXB_BYTES (vlen m)); [done|].
  destruct (Z.ltb_spec MAX_PAYLOAD_ELF_BYTES (vlen p)); [done|].
  destruct (Z.eqb_spec (vlen p) (payload_size b)); [|done]. cbn [negb].
  case_bool_decide; [|done]. cbn [negb]. case_bool_decide; [|done]. cbn [negb]. intros [= <- <-].
  rewrite lookup_delete_ne in Ep by apply paths_differ. by split_and!.
Qed.

Lemma take_bundles_ok bs : ∀ files rs files',
  take_bundles sha256 files bs = Ok (rs, files') →
  Forall2 (bundle_matches files) bs rs ∧
  ∀ name, files' !! name = None → is_Some (files !! name) →
    ∃ b, b ∈ bs ∧ (name = manifest_path b.(bi_name) ∨ name = payload_path b.(bi_name)).
Proof.
  induction bs as [|b bs IH]; intros files rs files'; cbn [take_bundles].
  { intros [= <- <-]. split; [constructor|]. intros name Hn [x Hx]. congruence. }
  destruct (take_bundle sha256 files b) as [[r f1]|] eqn:Eb; [|done]. cbn [result_bind fst snd].
  destruct (take_bundles sha256 f1 bs) as [[rs' f2]|] eqn:Es; [|done]. intros [= <- <-].
  apply take_bundle_ok in Eb as [Hm ->]. apply IH in Es as [Hf Hn]. split.
  - constructor; [done|]. eapply Forall2_impl; [exact Hf|]. intros b' r' (H1 & H2 & H3 & H4 & H5 & H6 & H7 & H8 & H9).
    split_and!; try done.
    + apply lookup_delete_Some in H8 as [_ H8]. by apply lookup_delete_Some in H8 as [_ H8].
    + apply lookup_delete_Some in H9 as [_ H9]. by apply lookup_delete_Some in H9 as [_ H9].
  - intros name Hnone Hsome. destruct (decide (name = manifest_path (bi_name b))) as [->|H1].
    { exists b. split; [by apply list_elem_of_here|by left]. }
    destruct (decide (name = payload_path (bi_name b))) as [->|H2].
    { exists b. split; [by apply list_elem_of_here|by right]. }
    destruct (Hn name Hnone) as (b' & Hb' & Hp).
    + by rewrite !lookup_delete_ne by done.
    + exists b'. split; [by apply list_elem_of_further|done].
Qed.

(** C21: a staged archive is exactly what its signed index says.  When an archive
    is accepted, its first two entries are the index and a 64-byte signature
    that verifies the index under the 32-byte publisher key the index names;
    every entry of the index has a name, a version and 32-byte digests; the
    bundles are those of the index, in order, with manifest and payload of the
    recorded digests and size and within the bounds; every path in the archive
    is relative and free of [..]; and there is no file that is not the manifest
    or the payload of a bundle. *)
Theorem system_set_accepted b set :
  parse read_message verify_ed25519 sha256 b = Ok set →
  ∃ ie se files,
    parse_tar_entries b = Ok (ie :: se :: files) ∧ vlen b ≤ MAX_NXS_ARCHIVE_BYTES ∧
    ie.(te_name) = text "system.nxsindex" ∧ se.(te_name) = text "system.sig.ed25519" ∧ vlen se.(te_data) = 64 ∧
    parse_index read_message ie.(te_data) = Ok set.(index) ∧ vlen set.(index).(publisher) = 32 ∧
    Forall index_entry_ok set.(index).(index_bundles) ∧
    verify_ed25519 set.(index).(publisher) ie.(te_data) se.(te_data) = true ∧
    Forall2 (bundle_matches (file_map files)) set.(index).(index_bundles) set.(bundles) ∧
    Forall (fun e => is_safe_path e.(te_name) = true ∧ e.(te_name) ≠ []) files ∧
    Forall (fun e => e.(is_dir) = false → ∃ bd, bd ∈ set.(index).(index_bundles) ∧
      (e.(te_name) = manifest_path bd.(bi_name) ∨ e.(te_name) = payload_path bd.(bi_name))) files.
Proof.
  unfold parse. destruct (Z.ltb_spec MAX_NXS_ARCHIVE_BYTES (vlen b)); [done|].
  destruct (parse_tar_entries b) as [es|] eqn:Et; [|done]. cbn [result_bind].
  pose proof (tar_loop_safe _ _ _ _ Et) as Hsafe. destruct es as [|ie [|se files]]; [done..|].
  case_bool_decide as Hi; [|done]. case_bool_decide as Hs; [|done]. cbn [negb].
  destruct (_ <? vlen (te_data ie)); [done|]. destruct (Z.eqb_spec (vlen (te_data se)) 64) as [H64|]; [|done]. cbn [negb].
  destruct (parse_index read_message (te_data ie)) as [idx|] eqn:Ei; [|done]. cbn [result_bind].
  destruct (verify_ed25519 _ _ _) eqn:Ev; [|done]. cbn [negb]. destruct (_ <? vlen (index_bundles idx)); [done|].
  destruct (take_bundles sha256 (file_map files) _) as [[rs left_]|] eqn:Eb; [|done]. cbn [result_bind fst snd].
  destruct (str_keys left_) eqn:Ek; [|done]. intros [= <-]. cbn [index bundles].
  apply take_bundles_ok in Eb as [Hf Hn]. destruct (parse_index_ok _ _ Ei) as [Hp Hents].
  exists ie, se, files. split_and!; try done.
  { by inversion_clear Hsafe as [|? ? _ Hr]; inversion_clear Hr. }
  assert (Hempty : ∀ name, left_ !! name = None).
  { intros name. apply not_elem_of_dom. intros Hin%elem_of_elements.
    assert (Hin' : name ∈ str_keys left_) by (unfold str_keys; by rewrite merge_sort_Permutation).
    rewrite Ek in Hin'. by apply elem_of_nil in Hin'. }
  apply Forall_forall. intros e He Hd. apply (Hn (te_name e)); [done|].
  rewrite file_map_spec. apply fmap_is_Some, last_is_Some. intros Hnil.
  assert (Hin : List.In e (List.filter (fun e' => negb (is_dir e') && bool_decide (te_name e' = te_name e)) files)).
  { apply filter_In. split; [by apply list_elem_of_In|]. rewrite Hd. by rewrite bool_decide_eq_true_2. }
  by rewrite Hnil in Hin.
Qed.
End Accepted.

(** ** An archive *)

(** A tar writer for small files. *)
Definition octal11 (n : Z) : bytes := map (fun k => 48 + (n / 8 ^ k) mod 8) [10; 9; 8; 7; 6; 5; 4; 3; 2; 1; 0].
Definition tar_file (name data : bytes) : bytes :=
  let header := name ++ zeros (124 - length name) ++ octal11 (vlen data) ++ [0] ++ zeros 20 ++ [48] in
  header ++ zeros (512 - length header) ++ data ++ zeros (512 - length data).

Definition demo_digest (b : bytes) : bytes := b ++ zeros (32 - length b).

Definition demo_index : RawIndex :=
  {| get_system_version := Some [32; 49; 10]; get_publisher := Some (zeros 32); get_timestamp_unix_ms := 0;
     get_bundles := Some [{| get_name := Some [97]; get_version := Some [49]; get_manifest_sha256 := Some (demo_digest [2]);
                             get_payload_sha256 := Some (demo_digest [3; 4]); get_payload_size := 2 |}] |}.

Definition demo_archive (files : list (bytes * bytes)) : bytes :=
  tar_file (text "system.nxsindex") [1] ++ tar_file (text "system.sig.ed25519") (replicate 64 7) ++
  concat (map (fun f => tar_file f.1 f.2) files) ++ zeros 1024.

Definition demo_parse (b : bytes) : result SystemSet SystemSetError :=
  parse (fun d => if bool_decide (d = [1]) then Some (Some demo_index) else None)
    (fun _ _ s => bool_decide (s = replicate 64 7)) demo_digest b.

Lemma system_set_accepted_witness :
  ∃ ie se files,
    parse_tar_entries (demo_archive [(text "a.nxb/manifest.nxb", [2]); (text "a.nxb/payload.elf", [3; 4])])
      = Ok (ie :: se :: files) ∧ ie.(te_name) = text "system.nxsindex" ∧ se.(te_name) = text "system.sig.ed25519".
Proof.
  destruct (demo_parse (demo_archive [(text "a.nxb/manifest.nxb", [2]); (text "a.nxb/payload.elf", [3; 4])]))
    as [set|] eqn:E; [|by vm_compute in E].
  destruct (system_set_accepted _ _ _ _ _ E) as (ie & se & files & H1 & _ & H2 & H3 & _).
  exists ie, se, files. split; [exact H1|]. split; [exact H2|exact H3].
Defined.

(** A file beside the bundles, a changed payload and a path that climbs are
    refused. *)
Example demo_refused :
  let m := (text "a.nxb/manifest.nxb", [2]) in
  let refused files err := demo_parse (demo_archive files) = Err err in
  refused [m; (text "a.nxb/payload.elf", [3; 4]); (text "b", [])] (UnexpectedEntry (text "b")) ∧
  refused [m; (text "a.nxb/payload.elf", [3; 5])] (DigestMismatch [97] "payloadSha256") ∧
  refused [m; (text "a.nxb/../payload.elf", [3; 4])] (ArchiveMalformed "unsafe path") ∧
  refused [m] (MissingEntry "payload.elf").
Proof. vm_compute. repeat split. Qed.
