(* ===== verification/UpdateService.v ===== *)
(** System updates: the A/B boot control ([userspace/updates/src/bootctrl.rs]),
    the update service with its requests and its persisted state
    ([source/services/updated/src/os_lite.rs]), and the parts of bundlemgrd and
    of the init process that publish the active slot at boot. *)

From S2P Require Import Prelude Bytes Storage Statefs Wire SystemSet.

(** ** Boot control *)

Inductive Slot := A | B.

#[export] Instance Slot_eq_dec : EqDecision Slot.
Proof. solve_decision. Defined.

Definition other (s : Slot) : Slot :=
  match s with
  | A => B
  | B => A
  end.

Inductive BootCtrlError := NotStaged | AlreadyPending | NotPending | NoRollbackTarget.

Record BootCtrl := {
  active_slot : Slot;
  pending_slot : option Slot;
  staged_slot : option Slot;
  rollback_slot : option Slot;
  tries_left : Z;
  health_ok : bool
}.

Definition boot_new (s : Slot) : BootCtrl :=
  {| active_slot := s; pending_slot := None; staged_slot := None; rollback_slot := None; tries_left := 0; health_ok := false |}.

Definition stage (b : BootCtrl) : BootCtrl * Slot :=
  let standby := other b.(active_slot) in
  ({| active_slot := b.(active_slot); pending_slot := b.(pending_slot); staged_slot := Some standby;
      rollback_slot := b.(rollback_slot); tries_left := b.(tries_left); health_ok := b.(health_ok) |}, standby).

Definition switch (b : BootCtrl) (tries : Z) : BootCtrl * result Slot BootCtrlError :=
  match b.(pending_slot), b.(staged_slot) with
  | Some _, _ => (b, Err AlreadyPending)
  | None, None => (b, Err NotStaged)
  | None, Some slot =>
      ({| active_slot := slot; pending_slot := Some slot; staged_slot := None; rollback_slot := Some b.(active_slot);
          tries_left := tries; health_ok := false |}, Ok slot)
  end.

Definition commit_health (b : BootCtrl) : BootCtrl * result unit BootCtrlError :=
  match b.(pending_slot) with
  | None => (b, Err NotPending)
  | Some _ =>
      ({| active_slot := b.(active_slot); pending_slot := None; staged_slot := b.(staged_slot); rollback_slot := None;
          tries_left := 0; health_ok := true |}, Ok tt)
  end.

Definition rollback (b : BootCtrl) : BootCtrl * result Slot BootCtrlError :=
  match b.(rollback_slot) with
  | None => (b, Err NoRollbackTarget)
  | Some target =>
      ({| active_slot := target; pending_slot := None; staged_slot := None; rollback_slot := None; tries_left := 0;
          health_ok := false |}, Ok target)
  end.

Definition set_tries (b : BootCtrl) (n : Z) : BootCtrl :=
  {| active_slot := b.(active_slot); pending_slot := b.(pending_slot); staged_slot := b.(staged_slot);
     rollback_slot := b.(rollback_slot); tries_left := n; health_ok := b.(health_ok) |}.

Definition tick_boot_attempt (b : BootCtrl) : BootCtrl * result (option Slot) BootCtrlError :=
  match b.(pending_slot) with
  | None => (b, Ok None)
  | Some _ =>
      let b := if 0 <? b.(tries_left) then set_tries b (saturating_sub b.(tries_left) 1) else b in
      if b.(tries_left) =? 0 then
        let '(b, r) := rollback b in
        (b, let? s := r in Ok (Some s))
      else (b, Ok None)
  end.

(** ** The persisted state *)

Definition BOOTCTRL_STATE_VERSION : Z := 1.
Definition SLOT_NONE : Z := 0xff.

Definition encode_slot (s : Slot) : Z :=
  match s with
  | A => 1
  | B => 2
  end.

Definition decode_slot (b : Z) : result (option Slot) StatefsError :=
  if b =? 1 then Ok (Some A)
  else if b =? 2 then Ok (Some B)
  else if b =? SLOT_NONE then Ok None
  else Err Corrupted.

Record BootCtrlState := {
  st_active : Slot;
  st_pending : option Slot;
  st_staged : option Slot;
  st_tries_left : Z;
  st_health_ok : bool
}.

Definition from_bootctrl (b : BootCtrl) : BootCtrlState :=
  {| st_active := b.(active_slot); st_pending := b.(pending_slot); st_staged := b.(staged_slot);
     st_tries_left := b.(tries_left); st_health_ok := b.(health_ok) |}.

Definition opt_slot (s : option Slot) : Z := from_option encode_slot SLOT_NONE s.

Definition encode_bootctrl_state (b : BootCtrl) : bytes :=
  let s := from_bootctrl b in
  [BOOTCTRL_STATE_VERSION; encode_slot s.(st_active); opt_slot s.(st_pending); opt_slot s.(st_staged); s.(st_tries_left);
   if s.(st_health_ok) then 1 else 0].

Definition decode_bootctrl_state (b : bytes) : result BootCtrlState StatefsError :=
  match b with
  | [ver; a; p; s; t; h] =>
      if ver =? BOOTCTRL_STATE_VERSION then
        let? active := decode_slot a in
        match active with
        | None => Err Corrupted
        | Some active =>
            let? pending := decode_slot p in
            let? staged := decode_slot s in
            Ok {| st_active := active; st_pending := pending; st_staged := staged; st_tries_left := t; st_health_ok := h =? 1 |}
        end
      else Err Corrupted
  | _ => Err Corrupted
  end.

(** The record is replayed as a history that leads to it. *)
Definition bootctrl_from_state (s : BootCtrlState) : result BootCtrl BootCtrlError :=
  match s.(st_pending) with
  | Some _ =>
      let boot := (stage (boot_new (other s.(st_active)))).1 in
      let '(boot, r) := switch boot s.(st_tries_left) in
      let? _ := r in Ok boot
  | None =>
      if s.(st_health_ok) then
        let boot := (stage (boot_new (other s.(st_active)))).1 in
        let '(boot, r) := switch boot 0 in
        let? _ := r in
        let '(boot, r) := commit_health boot in
        let? _ := r in Ok boot
      else
        let boot := boot_new s.(st_active) in
        Ok (match s.(st_staged) with Some _ => (stage boot).1 | None => boot end)
  end.

(** The value of the key, [Err] when statefs does not give one. *)
Definition load_bootctrl_state (stored : result bytes StatefsError) : result BootCtrl StatefsError :=
  let? b := stored in
  let? s := decode_bootctrl_state b in
  match bootctrl_from_state s with
  | Ok boot => Ok boot
  | Err _ => Err Corrupted
  end.

(** ** The service *)

Definition OP_LOG_PROBE : Z := 0x7f.

Record UpdatedState := {
  boot : BootCtrl;
  staged : option bytes;
  us_staged_slot : option Slot
}.

(** The service together with what outlives it or lies outside it: the value of
    its key in statefs ([None] when absent), and the slot bundlemgrd publishes
    ([ACTIVE_SLOT]). *)
Record System := {
  service : UpdatedState;
  stored : option bytes;
  published : Slot
}.

(** How the request to bundlemgrd ends: acknowledged, applied with the reply
    lost, or not applied. *)
Inductive Hop := Acked | ReplyLost | Refused.

(** The surroundings during one request: whether a statefs client exists and
    what its calls do, and the requests to bundlemgrd in order. *)
Record Env := {
  has_statefs : bool;
  put_ok : bool;
  sync_ok : bool;
  hop1 : Hop;
  hop2 : Hop
}.

Section Service.
(** Whether [SystemSet::parse] accepts a payload. *)
Context (set_ok : bytes → bool).

Definition rsp (op status : Z) (payload : bytes) : bytes :=
  [85; 68; 1; Z.lor op 0x80; status] ++ le_bytes 2 (Z.min (vlen payload) 0xFFFF) ++ take (Z.to_nat (Z.min (vlen payload) 0xFFFF)) payload.

Definition set_service (sys : System) (u : UpdatedState) : System :=
  {| service := u; stored := sys.(stored); published := sys.(published) |}.

Definition set_boot (sys : System) (b : BootCtrl) : System :=
  set_service sys {| boot := b; staged := sys.(service).(staged); us_staged_slot := sys.(service).(us_staged_slot) |}.

(** [put] and [sync] of the encoded state. *)
Definition persist (e : Env) (sys : System) : System * bool :=
  if e.(has_statefs) then
    if e.(put_ok) then
      ({| service := sys.(service); stored := Some (encode_bootctrl_state sys.(service).(boot)); published := sys.(published) |},
       e.(sync_ok))
    else (sys, false)
  else (sys, true).

Definition bundlemgrd_set_active_slot (sys : System) (h : Hop) (s : Slot) : System * bool :=
  match h with
  | Acked => ({| service := sys.(service); stored := sys.(stored); published := s |}, true)
  | ReplyLost => ({| service := sys.(service); stored := sys.(stored); published := s |}, false)
  | Refused => (sys, false)
  end.

Definition persist_reply (e : Env) (sys : System) (op : Z) (payload : bytes) : System * bytes :=
  let '(sys, ok) := persist e sys in
  (sys, if ok then rsp op Updated.STATUS_OK payload else rsp op Updated.STATUS_FAILED []).

Definition handle_stage (e : Env) (sys : System) (frame : bytes) : System * bytes :=
  match Updated.decode_stage_req frame with
  | None => (sys, rsp Updated.OP_STAGE Updated.STATUS_MALFORMED [])
  | Some payload =>
      if Updated.MAX_STAGE_BYTES + 8 <? vlen payload + 8 then (sys, rsp Updated.OP_STAGE Updated.STATUS_MALFORMED [])
      else if set_ok payload then
        let '(b, slot) := stage sys.(service).(boot) in
        persist_reply e (set_service sys {| boot := b; staged := Some payload; us_staged_slot := Some slot |}) Updated.OP_STAGE []
      else (sys, rsp Updated.OP_STAGE Updated.STATUS_FAILED [])
  end.

Definition handle_switch (e : Env) (sys : System) (frame : bytes) : System * bytes :=
  match Updated.decode_switch_req frame with
  | None => (sys, rsp Updated.OP_SWITCH Updated.STATUS_MALFORMED [])
  | Some tries =>
      match switch sys.(service).(boot) tries with
      | (b, Ok slot) =>
          let '(sys, ok) := bundlemgrd_set_active_slot (set_boot sys b) e.(hop1) slot in
          if ok then
            let sys := set_service sys {| boot := sys.(service).(boot); staged := None; us_staged_slot := None |} in
            match persist e sys with
            | (sys, true) => (sys, rsp Updated.OP_SWITCH Updated.STATUS_OK [])
            | (sys, false) =>
                let sys := set_boot sys (rollback sys.(service).(boot)).1 in
                let sys := (bundlemgrd_set_active_slot sys e.(hop2) sys.(service).(boot).(active_slot)).1 in
                (sys, rsp Updated.OP_SWITCH Updated.STATUS_FAILED [])
            end
          else (set_boot sys (rollback sys.(service).(boot)).1, rsp Updated.OP_SWITCH Updated.STATUS_FAILED [])
      | (b, Err _) => (set_boot sys b, rsp Updated.OP_SWITCH Updated.STATUS_FAILED [])
      end
  end.

Definition handle_health_ok (e : Env) (sys : System) (frame : bytes) : System * bytes :=
  if Updated.decode_health_ok_req frame then
    match commit_health sys.(service).(boot) with
    | (b, Ok _) => persist_reply e (set_boot sys b) Updated.OP_HEALTH_OK []
    | (b, Err _) => (set_boot sys b, rsp Updated.OP_HEALTH_OK Updated.STATUS_FAILED [])
    end
  else (sys, rsp Updated.OP_HEALTH_OK Updated.STATUS_MALFORMED []).

Definition handle_get_status (sys : System) : bytes :=
  let b := sys.(service).(boot) in
  rsp Updated.OP_GET_STATUS Updated.STATUS_OK
    [encode_slot b.(active_slot); from_option encode_slot 0 b.(pending_slot); b.(tries_left); if b.(health_ok) then 1 else 0].

Definition handle_boot_attempt (e : Env) (sys : System) (frame : bytes) : System * bytes :=
  if Updated.decode_boot_attempt_req frame then
    match tick_boot_attempt sys.(service).(boot) with
    | (b, Ok (Some slot)) => persist_reply e (set_boot sys b) Updated.OP_BOOT_ATTEMPT [encode_slot slot]
    | (b, Ok None) => persist_reply e (set_boot sys b) Updated.OP_BOOT_ATTEMPT [0]
    | (b, Err _) => (set_boot sys b, rsp Updated.OP_BOOT_ATTEMPT Updated.STATUS_FAILED [])
    end
  else (sys, rsp Updated.OP_BOOT_ATTEMPT Updated.STATUS_MALFORMED []).

Definition handle_frame (e : Env) (sys : System) (frame : bytes) : System * bytes :=
  match Updated.decode_request_op frame with
  | None => (sys, rsp Updated.OP_STAGE Updated.STATUS_MALFORMED [])
  | Some op =>
      if op =? Updated.OP_STAGE then handle_stage e sys frame
      else if op =? Updated.OP_SWITCH then handle_switch e sys frame
      else if op =? Updated.OP_HEALTH_OK then handle_health_ok e sys frame
      else if op =? Updated.OP_GET_STATUS then (sys, handle_get_status sys)
      else if op =? Updated.OP_BOOT_ATTEMPT then handle_boot_attempt e sys frame
      else if op =? OP_LOG_PROBE then (sys, rsp OP_LOG_PROBE Updated.STATUS_OK [])
      else (sys, rsp op Updated.STATUS_UNSUPPORTED [])
  end.

(** ** A restart *)

(** The service starts on slot A and takes what it can load. *)
Definition start_service (e : Env) (stored : option bytes) : UpdatedState :=
  let fresh := boot_new A in
  {| boot := if e.(has_statefs) then
               match load_bootctrl_state (match stored with Some b => Ok b | None => Err NotFound end) with
               | Ok b => b
               | Err _ => fresh
               end
             else fresh;
     staged := None; us_staged_slot := None |}.

(** [handle_frame] of bundlemgrd on [SET_ACTIVE_SLOT]. *)
Definition bundlemgrd_slot (sys : System) (frame : bytes) : System :=
  match Bundlemgrd.decode_request_op frame, frame with
  | Some op, [_; _; _; _; slot] =>
      if op =? Bundlemgrd.OP_SET_ACTIVE_SLOT then
        {| service := sys.(service); stored := sys.(stored);
           published := if slot =? 1 then A else if slot =? 2 then B else sys.(published) |}
      else sys
  | _, _ => sys
  end.

(** What init makes of the reply to its boot-attempt request: the slot to
    publish, [None] for no rollback or an unusable reply. *)
Definition init_rollback_slot (reply : bytes) : option Z :=
  match Updated.decode_boot_attempt_rsp reply with
  | Some (status, slot) => if (status =? Updated.STATUS_OK) && negb (slot =? 0) then Some slot else None
  | None => None
  end.

(** A boot: bundlemgrd starts on slot A, the service loads its state, and init
    records the boot attempt and publishes the slot it decodes. *)
Definition reboot (e : Env) (sys : System) : System :=
  let sys := {| service := start_service e sys.(stored); stored := sys.(stored); published := A |} in
  let '(sys, reply) := handle_frame e sys [85; 68; 1; Updated.OP_BOOT_ATTEMPT] in
  match init_rollback_slot reply with
  | Some slot => bundlemgrd_slot sys (Bundlemgrd.encode_set_active_slot_req slot)
  | None => sys
  end.
End Service.

(** ** The invariant of the boot control *)

Record boot_wf (b : BootCtrl) : Prop := {
  wf_pending s : b.(pending_slot) = Some s →
    s = b.(active_slot) ∧ b.(rollback_slot) = Some (other b.(active_slot)) ∧ b.(health_ok) = false;
  wf_settled : b.(pending_slot) = None → b.(rollback_slot) = None ∧ b.(tries_left) = 0;
  wf_staged s : b.(staged_slot) = Some s → s = other b.(active_slot);
  wf_tries : 0 ≤ b.(tries_left) < 256
}.

Lemma other_other s : other (other s) = s.
Proof. by destruct s. Qed.

Lemma boot_new_wf s : boot_wf (boot_new s).
Proof. split; cbn; try done. Qed.

Lemma stage_wf b : boot_wf b → boot_wf (stage b).1.
Proof. intros [H1 H2 H3 H4]. split; cbn; try done. by intros s [= <-]. Qed.

Lemma switch_wf b n : boot_wf b → 0 ≤ n < 256 → boot_wf (switch b n).1.
Proof.
  intros Hb Hn. unfold switch. destruct (pending_slot b); [done|]. destruct (staged_slot b) as [s|] eqn:Es; [|done].
  apply (wf_staged b Hb) in Es as ->. split; cbn; try done. intros s [= <-]. by rewrite other_other.
Qed.

Lemma commit_wf b : boot_wf b → boot_wf (commit_health b).1.
Proof.
  intros Hb. unfold commit_health. destruct (pending_slot b); [|done]. split; cbn; try done.
  apply (wf_staged b Hb).
Qed.

Lemma rollback_wf b : boot_wf b → boot_wf (rollback b).1.
Proof. intros Hb. unfold rollback. destruct (rollback_slot b); [|done]. by split. Qed.

Lemma tick_wf b : boot_wf b → boot_wf (tick_boot_attempt b).1.
Proof.
  intros Hb. unfold tick_boot_attempt. destruct (pending_slot b) eqn:Ep; [|done].
  assert (Hs : boot_wf (if 0 <? tries_left b then set_tries b (saturating_sub (tries_left b) 1) else b)).
  { destruct (Z.ltb_spec 0 (tries_left b)); [|done]. destruct Hb as [H1 H2 H3 H4].
    split; cbn; [done|congruence|done|unfold saturating_sub; lia]. }
  destruct (_ =? 0); [|done]. apply rollback_wf in Hs. by destruct (rollback _).
Qed.

(** ** Persistence *)

Lemma decode_encode_slot s : decode_slot (encode_slot s) = Ok (Some s).
Proof. by destruct s. Qed.

Lemma decode_opt_slot s : decode_slot (opt_slot s) = Ok s.
Proof. by destruct s as [[]|]. Qed.

Lemma decode_encode_state b : decode_bootctrl_state (encode_bootctrl_state b) = Ok (from_bootctrl b).
Proof.
  unfold encode_bootctrl_state, decode_bootctrl_state. rewrite Z.eqb_refl, decode_encode_slot. cbn [result_bind].
  rewrite !decode_opt_slot. cbn [result_bind]. unfold from_bootctrl. cbn. by destruct (health_ok b).
Qed.

(** What survives a restart: all but a slot staged while an update is pending
    or after one was committed. *)
Definition reloaded (b : BootCtrl) : BootCtrl :=
  {| active_slot := b.(active_slot); pending_slot := b.(pending_slot);
     staged_slot := if bool_decide (b.(pending_slot) = None) && negb b.(health_ok) then b.(staged_slot) else None;
     rollback_slot := b.(rollback_slot); tries_left := b.(tries_left); health_ok := b.(health_ok) |}.

(** The persisted boot state round-trips: whatever well-formed boot state was
    persisted, the next start of the service loads the same active, pending and
    rollback slot, the same number of tries and the same health flag.  Only a
    staged slot is lost, and exactly when an update is pending or has been
    committed. *)
Theorem bootctl_roundtrip b :
  boot_wf b → load_bootctrl_state (Ok (encode_bootctrl_state b)) = Ok (reloaded b).
Proof.
  intros Hb. unfold load_bootctrl_state. cbn [result_bind]. rewrite decode_encode_state. cbn [result_bind].
  unfold bootctrl_from_state, reloaded. cbn [from_bootctrl st_pending st_active st_staged st_tries_left st_health_ok].
  destruct (pending_slot b) as [s|] eqn:Ep.
  - destruct (wf_pending b Hb s Ep) as (-> & Hr & Hh). cbn. rewrite Hr, Hh, other_other. done.
  - destruct (wf_settled b Hb Ep) as [Hr Ht]. rewrite Hr, Ht. destruct (health_ok b) eqn:Eh; cbn.
    + by rewrite other_other.
    + destruct (staged_slot b) as [s|] eqn:Es; cbn; [|done]. by rewrite (wf_staged b Hb s Es).
Qed.

Lemma reloaded_wf b : boot_wf b → boot_wf (reloaded b).
Proof.
  intros [H1 H2 H3 H4]. split; cbn; try done. intros s. destruct (_ && _); [apply H3|done].
Qed.

(** ** The service over its life *)

(** The boot control is well-formed, and so is the one in statefs. *)
Definition sys_wf (sys : System) : Prop :=
  boot_wf sys.(service).(boot) ∧ ∀ v, sys.(stored) = Some v → ∃ b, boot_wf b ∧ v = encode_bootctrl_state b.

Definition first_start : System :=
  {| service := {| boot := boot_new A; staged := None; us_staged_slot := None |}; stored := None; published := A |}.

Section Life.
Context (set_ok : bytes → bool).

(** Requests of any client and restarts, in any order, with any failures. *)
Inductive reachable : System → Prop :=
| reach_start : reachable first_start
| reach_request sys e frame :
    reachable sys → Forall is_byte frame → reachable (handle_frame set_ok e sys frame).1
| reach_reboot sys e : reachable sys → reachable (reboot set_ok e sys).

Lemma set_boot_wf sys b : sys_wf sys → boot_wf b → sys_wf (set_boot sys b).
Proof. by intros [_ Hs] Hb. Qed.

Lemma persist_wf e sys : sys_wf sys → sys_wf (persist e sys).1.
Proof.
  intros [Hb Hs]. unfold persist. destruct (has_statefs e); [|done]. destruct (put_ok e); [|done].
  split; [done|]. intros v [= <-]. eauto.
Qed.

Lemma persist_reply_wf e sys op payload : sys_wf sys → sys_wf (persist_reply e sys op payload).1.
Proof. intros Hs%(persist_wf e). unfold persist_reply. by destruct (persist e sys). Qed.

Lemma set_active_wf sys h s : sys_wf sys → sys_wf (bundlemgrd_set_active_slot sys h s).1.
Proof. by destruct h. Qed.

Lemma switch_req_byte frame n : Forall is_byte frame → Updated.decode_switch_req frame = Some n → 0 ≤ n < 256.
Proof.
  intros Hf. unfold Updated.decode_switch_req. destruct (decode Updated.switch_req frame) as [[|[v|] []]|] eqn:E; try done.
  intros [= <-]. apply decode_inv in E as (t & -> & Ht). apply Forall_app in Hf as [_ Hf].
  destruct (take_fields_sound _ _ _ _ Hf Ht) as (_ & _ & _ & _ & _ & _ & Hv). by inversion_clear Hv.
Qed.

Lemma handle_switch_wf e sys frame : Forall is_byte frame → sys_wf sys → sys_wf (handle_switch e sys frame).1.
Proof.
  intros Hf Hs. unfold handle_switch. destruct (Updated.decode_switch_req frame) as [n|] eqn:En; [|done].
  apply switch_req_byte in En; [|done]. pose proof (switch_wf _ n (proj1 Hs) En) as Hw.
  destruct (switch _ n) as [b [slot|]]; [|by apply set_boot_wf].
  pose proof (set_active_wf _ (hop1 e) slot (set_boot_wf sys b Hs Hw)) as Hs1.
  destruct (bundlemgrd_set_active_slot _ _ _) as [sys1 [|]]; cbn [fst] in Hs1.
  - set (sys2 := set_service sys1 _). assert (Hs2 : sys_wf sys2) by done.
    apply (persist_wf e) in Hs2. destruct (persist e sys2) as [sys3 [|]]; [done|]. cbn [fst] in *.
    apply set_active_wf. apply set_boot_wf; [done|]. apply rollback_wf, Hs2.
  - apply set_boot_wf; [done|]. apply rollback_wf, Hs1.
Qed.

Lemma handle_frame_wf e sys frame :
  Forall is_byte frame → sys_wf sys → sys_wf (handle_frame set_ok e sys frame).1.
Proof.
  intros Hf Hs. unfold handle_frame. destruct (Updated.decode_request_op frame) as [op|]; [|done].
  destruct (op =? Updated.OP_STAGE).
  { unfold handle_stage. destruct (Updated.decode_stage_req frame) as [p|]; [|done]. destruct (_ <? _); [done|].
    destruct (set_ok p); [|done]. pose proof (stage_wf _ (proj1 Hs)) as Hw. destruct (stage _) as [b slot].
    apply persist_reply_wf. by destruct Hs. }
  destruct (op =? Updated.OP_SWITCH); [by apply handle_switch_wf|].
  destruct (op =? Updated.OP_HEALTH_OK).
  { unfold handle_health_ok. destruct (Updated.decode_health_ok_req frame); [|done].
    pose proof (commit_wf _ (proj1 Hs)) as Hw. destruct (commit_health _) as [b [|]]; [apply persist_reply_wf|];
      by apply set_boot_wf. }
  destruct (op =? Updated.OP_GET_STATUS); [done|].
  destruct (op =? Updated.OP_BOOT_ATTEMPT).
  { unfold handle_boot_attempt. destruct (Updated.decode_boot_attempt_req frame); [|done].
    pose proof (tick_wf _ (proj1 Hs)) as Hw. destruct (tick_boot_attempt _) as [b [[slot|]|]];
      try apply persist_reply_wf; by apply set_boot_wf. }
  by destruct (op =? OP_LOG_PROBE).
Qed.

Lemma start_service_wf e sys : sys_wf sys → boot_wf (start_service e sys.(stored)).(boot).
Proof.
  intros [_ Hs]. unfold start_service. cbn [boot]. destruct (has_statefs e); [|apply boot_new_wf].
  destruct (stored sys) as [v|]; [|apply boot_new_wf]. destruct (Hs v eq_refl) as (b & Hb & ->).
  rewrite bootctl_roundtrip by done. by apply reloaded_wf.
Qed.

Lemma reboot_wf e sys : sys_wf sys → sys_wf (reboot set_ok e sys).
Proof.
  intros Hs. unfold reboot. set (sys1 := {| service := _; stored := _; published := _ |}).
  assert (Hs1 : sys_wf sys1) by (split; [by apply start_service_wf|apply Hs]).
  assert (Hf : Forall is_byte [85; 68; 1; Updated.OP_BOOT_ATTEMPT]).
  { repeat (apply Forall_cons_2; [unfold is_byte, Updated.OP_BOOT_ATTEMPT; lia|]). apply Forall_nil_2. }
  pose proof (handle_frame_wf e sys1 _ Hf Hs1) as Hs2. destruct (handle_frame _ e sys1 _) as [sys2 reply].
  destruct (init_rollback_slot reply); [|done]. unfold bundlemgrd_slot, Bundlemgrd.encode_set_active_slot_req.
  destruct (Bundlemgrd.decode_request_op _); [|done]. by destruct (_ =? _).
Qed.

Lemma reachable_wf sys : reachable sys → sys_wf sys.
Proof.
  induction 1 as [|sys e frame _ IH Hf|sys e _ IH].
  - split; [apply boot_new_wf|done].
  - by apply handle_frame_wf.
  - by apply reboot_wf.
Qed.
End Life.

(** The update state machine never gets into an undefined state: after any
    requests of any clients and any restarts, with any failures of statefs and
    bundlemgrd on the way, a pending update is the active slot and has the
    other slot to roll back to; without a pending update there is nothing to
    roll back to and no try left to count; a staged slot is never the active
    one; and the value kept in statefs is the encoding of such a state. *)
Theorem updated_state_wf set_ok sys :
  reachable set_ok sys →
  let b := sys.(service).(boot) in
  (∀ s, b.(pending_slot) = Some s → s = b.(active_slot) ∧ b.(rollback_slot) = Some (other s) ∧ b.(health_ok) = false) ∧
  (b.(pending_slot) = None → b.(rollback_slot) = None ∧ b.(tries_left) = 0) ∧
  (∀ s, b.(staged_slot) = Some s → s ≠ b.(active_slot)) ∧ 0 ≤ b.(tries_left) < 256 ∧
  (∀ v, sys.(stored) = Some v → ∃ b', boot_wf b' ∧ v = encode_bootctrl_state b').
Proof.
  intros [Hb Hs]%reachable_wf b. split_and!; try done.
  - intros s Hp. destruct (wf_pending _ Hb s Hp) as (-> & Hr & Hh). done.
  - apply (wf_settled _ Hb).
  - intros s ->%(wf_staged _ Hb). fold b. by destruct (active_slot b).
  - apply (wf_tries _ Hb).
  - apply (wf_tries _ Hb).
Qed.

(** ** Restarts count the tries *)

(** Statefs works. *)
Definition statefs_up (e : Env) : Prop := e.(has_statefs) = true ∧ e.(put_ok) = true ∧ e.(sync_ok) = true.

Section Restart.
Context (set_ok : bytes → bool).

Lemma bundlemgrd_slot_service sys f :
  (bundlemgrd_slot sys f).(service) = sys.(service) ∧ (bundlemgrd_slot sys f).(stored) = sys.(stored).
Proof. unfold bundlemgrd_slot. repeat case_match; done. Qed.

Lemma handle_boot_frame e sys :
  handle_frame set_ok e sys [85; 68; 1; Updated.OP_BOOT_ATTEMPT] =
    match tick_boot_attempt sys.(service).(boot) with
    | (b, Ok (Some slot)) => persist_reply e (set_boot sys b) Updated.OP_BOOT_ATTEMPT [encode_slot slot]
    | (b, Ok None) => persist_reply e (set_boot sys b) Updated.OP_BOOT_ATTEMPT [0]
    | (b, Err _) => (set_boot sys b, rsp Updated.OP_BOOT_ATTEMPT Updated.STATUS_FAILED [])
    end.
Proof. reflexivity. Qed.

(** A tick of a well-formed state does not fail. *)
Lemma tick_ok b : boot_wf b → ∃ r, (tick_boot_attempt b).2 = Ok r.
Proof.
  intros Hb. unfold tick_boot_attempt. destruct (pending_slot b) as [s|] eqn:Ep; [|eauto].
  destruct (wf_pending b Hb s Ep) as (_ & Hr & _).
  destruct (0 <? tries_left b); destruct (_ =? 0); cbn; unfold rollback; cbn; rewrite ?Hr; cbn; eauto.
Qed.

Lemma reboot_ticks e sys b :
  statefs_up e → boot_wf b → sys.(stored) = Some (encode_bootctrl_state b) →
  let b' := (tick_boot_attempt (reloaded b)).1 in
  (reboot set_ok e sys).(service).(boot) = b' ∧ (reboot set_ok e sys).(stored) = Some (encode_bootctrl_state b').
Proof.
  intros (Hh & Hp & Hs) Hb Hst b'. unfold reboot. rewrite handle_boot_frame. cbn [service].
  unfold start_service. cbn [boot]. rewrite Hh, Hst, bootctl_roundtrip by done.
  destruct (tick_ok (reloaded b) (reloaded_wf b Hb)) as [r Hr]. unfold b'.
  destruct (tick_boot_attempt (reloaded b)) as [b2 [o|]]; [|done]. cbn [fst].
  unfold persist_reply, persist. rewrite Hh, Hp, Hs.
  destruct o as [slot|]; cbn [fst snd]; destruct (init_rollback_slot _);
    rewrite ?(proj1 (bundlemgrd_slot_service _ _)), ?(proj2 (bundlemgrd_slot_service _ _)); done.
Qed.

(** The state after [k] restarts. *)
Definition after_ticks (b : BootCtrl) (s : Slot) (k : Z) (b' : BootCtrl) : Prop :=
  if k <? Z.max 1 b.(tries_left)
  then b'.(pending_slot) = Some s ∧ b'.(active_slot) = s ∧ b'.(tries_left) = b.(tries_left) - k
  else b'.(pending_slot) = None ∧ b'.(active_slot) = other s ∧ b'.(health_ok) = false.

Lemma tick_after b s k b' :
  boot_wf b' → 0 ≤ k → after_ticks b s k b' → after_ticks b s (k + 1) (tick_boot_attempt (reloaded b')).1.
Proof.
  intros Hb' Hk. unfold after_ticks. pose proof (wf_tries b' Hb') as Ht.
  destruct (Z.ltb_spec k (Z.max 1 (tries_left b))) as [Hlt|Hge].
  - intros (Hp & Ha & Hn). destruct (wf_pending b' Hb' s Hp) as (_ & Hr & _). rewrite Ha in Hr.
    unfold tick_boot_attempt, reloaded. cbn. rewrite Hp. cbn.
    destruct (Z.ltb_spec 0 (tries_left b')) as [H0|H0]; cbn.
    + unfold saturating_sub. replace (Z.max (tries_left b' - 1) 0) with (tries_left b' - 1) by lia.
      destruct (Z.eqb_spec (tries_left b' - 1) 0) as [He|He].
      * unfold rollback. cbn. rewrite Hr. cbn. rewrite (proj2 (Z.ltb_ge _ _)) by lia. done.
      * cbn. rewrite (proj2 (Z.ltb_lt _ _)) by lia. split_and!; [done..|lia].
    + rewrite (proj2 (Z.eqb_eq _ _)) by lia. unfold rollback. cbn. rewrite Hr. cbn.
      rewrite (proj2 (Z.ltb_ge _ _)) by lia. done.
  - intros (Hp & Ha & Hn). rewrite (proj2 (Z.ltb_ge _ _)) by lia.
    unfold tick_boot_attempt, reloaded. cbn. rewrite Hp. done.
Qed.
End Restart.

(** C22: an update that never reports health is rolled back, across restarts.
    When a pending update in slot [s] with [n] tries has been persisted and
    statefs works, then however often the system is restarted, the service is
    on [s] with one try fewer per restart before restart number [n], and from
    that restart on it is back on the other slot for good, without a pending
    update. *)
Theorem updated_rollback_deadline set_ok e sys s k :
  reachable set_ok sys → statefs_up e →
  sys.(stored) = Some (encode_bootctrl_state sys.(service).(boot)) → sys.(service).(boot).(pending_slot) = Some s →
  after_ticks sys.(service).(boot) s (Z.of_nat k) (Nat.iter k (reboot set_ok e) sys).(service).(boot).
Proof.
  intros [Hb _]%reachable_wf He Hst Hp.
  assert (Hall : let t := Nat.iter k (reboot set_ok e) sys in boot_wf t.(service).(boot) ∧
    t.(stored) = Some (encode_bootctrl_state t.(service).(boot)) ∧
    after_ticks sys.(service).(boot) s (Z.of_nat k) t.(service).(boot)); [|apply Hall].
  induction k as [|k (IHb & IHs & IHa)].
  - cbn [Nat.iter nat_rect]. split_and!; [done|done|]. unfold after_ticks. rewrite (proj2 (Z.ltb_lt _ _)) by lia.
    destruct (wf_pending _ Hb s Hp) as (-> & _). split_and!; [done..|lia].
  - rewrite Nat.iter_succ. destruct (reboot_ticks set_ok e _ _ He IHb IHs) as [H1 H2]. cbn zeta. rewrite H1, H2. split_and!; [|done|].
    + by apply tick_wf, reloaded_wf.
    + replace (Z.of_nat (S k)) with (Z.of_nat k + 1) by lia. apply tick_after; [done|lia|done].
Qed.

(** ** Switching *)

(** The slot bundlemgrd publishes is the slot the service considers active. *)
Definition slots_agree (sys : System) : Prop := sys.(published) = sys.(service).(boot).(active_slot).


(** ** What init publishes *)

(** At boot the init process always publishes slot A.  Whatever state was
    persisted and whatever fails, after a restart bundlemgrd publishes slot A:
    it starts on A, and init reads the slot of the boot-attempt reply from the
    byte where the service writes the length of its payload, which is 1; so a
    boot without a rollback is taken for a rollback to A, and a rollback to B
    too. *)
Theorem init_publishes_slot_a set_ok e sys : (reboot set_ok e sys).(published) = A.
Proof.
  unfold reboot. rewrite handle_boot_frame. cbn [service].
  destruct (tick_boot_attempt _) as [b [o|]]; [|reflexivity].
  destruct o as [[]|]; unfold persist_reply, persist;
    destruct (has_statefs e); try destruct (put_ok e); try destruct (sync_ok e); reflexivity.
Qed.

(** ** A run *)

Definition env_ok : Env := {| has_statefs := true; put_ok := true; sync_ok := true; hop1 := Acked; hop2 := Acked |}.
Definition any_set (_ : bytes) : bool := true.

(** Stage a set, and switch with two tries. *)
Definition stage_frame : bytes := [85; 68; 1; 1; 1; 0; 0; 0; 9].
Definition switch_frame : bytes := [85; 68; 1; 2; 2].
Definition health_frame : bytes := [85; 68; 1; 3].
Definition staged_sys : System := (handle_frame any_set env_ok first_start stage_frame).1.
Definition switched_sys : System := (handle_frame any_set env_ok staged_sys switch_frame).1.
Definition healthy_sys : System := (handle_frame any_set env_ok switched_sys health_frame).1.

Lemma small_bytes l : forallb (fun x => (0 <=? x) && (x <? 256)) l = true → Forall is_byte l.
Proof.
  intros Hl. apply Forall_forall. intros x Hx%list_elem_of_In. rewrite forallb_forall in Hl. apply Hl in Hx.
  simpl_bool. unfold is_byte. lia.
Qed.

Lemma staged_reachable : reachable any_set staged_sys.
Proof. apply reach_request; [apply reach_start|by apply small_bytes]. Qed.

Lemma switched_reachable : reachable any_set switched_sys.
Proof. apply reach_request; [apply staged_reachable|by apply small_bytes]. Qed.

Lemma updated_state_wf_witness : boot_wf (switched_sys.(service).(boot)) ∧ B ≠ other B.
Proof.
  split; [|discriminate].
  destruct (updated_state_wf any_set switched_sys switched_reachable) as (H1 & H2 & H3 & H4 & _).
  split.
  - intros s Hs. destruct (H1 s Hs) as (He & Hr & Hh). rewrite <- He. split; [reflexivity|]. split; [exact Hr|exact Hh].
  - exact H2.
  - intros s Hs. vm_compute in Hs. discriminate.
  - exact H4.
Defined.

Lemma bootctl_roundtrip_witness :
  load_bootctrl_state (Ok (encode_bootctrl_state (boot_new B))) = Ok (reloaded (boot_new B)).
Proof. apply (bootctl_roundtrip (boot_new B)). apply boot_new_wf. Defined.

Lemma updated_rollback_deadline_witness :
  let b k := (Nat.iter k (reboot any_set env_ok) switched_sys).(service).(boot) in
  (b 1%nat).(pending_slot) = Some B ∧ (b 1%nat).(tries_left) = 1 ∧ (b 2%nat).(active_slot) = A.
Proof.
  intros b.
  assert (He : statefs_up env_ok) by (repeat split).
  assert (Hs : switched_sys.(stored) = Some (encode_bootctrl_state switched_sys.(service).(boot))) by (vm_compute; reflexivity).
  assert (Hp : switched_sys.(service).(boot).(pending_slot) = Some B) by (vm_compute; reflexivity).
  pose proof (updated_rollback_deadline any_set env_ok switched_sys B 1 switched_reachable He Hs Hp) as H1.
  pose proof (updated_rollback_deadline any_set env_ok switched_sys B 2 switched_reachable He Hs Hp) as H2.
  assert (Ht : switched_sys.(service).(boot).(tries_left) = 2) by (vm_compute; reflexivity).
  unfold after_ticks in H1, H2. rewrite Ht in H1, H2.
  destruct H1 as (H1a & _ & H1b). destruct H2 as (_ & H2b & _).
  split; [exact H1a|]. split; [exact H1b|exact H2b].
Defined.


(** ** Behaviours outside the contract *)

(** After the update to B is committed, the next boot publishes slot A while
    the service reports B as active. *)
Theorem updated_commit_lost_at_boot :
  let sys := reboot any_set env_ok healthy_sys in
  healthy_sys.(published) = B ∧ sys.(service).(boot).(active_slot) = B ∧ sys.(service).(boot).(health_ok) = true ∧
  sys.(published) = A.
Proof. vm_compute. repeat split. Qed.

(** When the reply of bundlemgrd is lost, the switch is answered FAILED and the
    service is back on A, while bundlemgrd publishes B. *)
Theorem updated_lost_reply_splits_slots :
  let e := {| has_statefs := true; put_ok := true; sync_ok := true; hop1 := ReplyLost; hop2 := Acked |} in
  let '(sys, reply) := handle_frame any_set e staged_sys switch_frame in
  reply = rsp Updated.OP_SWITCH Updated.STATUS_FAILED [] ∧ sys.(service).(boot).(active_slot) = A ∧ sys.(published) = B.
Proof. vm_compute. repeat split. Qed.

(** A set staged after a committed update does not survive a restart: the
    switch that follows is refused. *)
Theorem updated_staged_set_forgotten :
  let sys := (handle_frame any_set env_ok healthy_sys stage_frame).1 in
  let sys' := reboot any_set env_ok sys in
  sys.(service).(boot).(staged_slot) = Some A ∧ sys'.(service).(boot).(staged_slot) = None ∧
  (handle_frame any_set env_ok sys' switch_frame).2 = rsp Updated.OP_SWITCH Updated.STATUS_FAILED [].
Proof. vm_compute. repeat split. Qed.

(** Staging is not refused while an update is pending, and it stages into the
    slot that the pending update would roll back to. *)
Theorem updated_stages_over_rollback_slot :
  let '(sys, reply) := handle_frame any_set env_ok switched_sys stage_frame in
  reply = rsp Updated.OP_STAGE Updated.STATUS_OK [] ∧ sys.(service).(boot).(pending_slot) = Some B ∧
  sys.(service).(boot).(staged_slot) = sys.(service).(boot).(rollback_slot) ∧
  sys.(service).(boot).(rollback_slot) = Some A.
Proof. vm_compute. repeat split. Qed.
