(* ===== verification/Logd.v ===== *)
(** The log service ([source/services/logd/src]): the bounded journal
    ([journal.rs]), the wire protocol in both versions ([protocol.rs]), the
    guards on senders and payloads ([security.rs]) and the request handler
    ([lite_handler.rs]). *)

From Stdlib Require Import String.
From S2P Require Import Prelude Bytes Storage Wire SystemSet.

(** ** [journal.rs] *)

Definition STORE_MAX_SCOPE_LEN : nat := 32.
Definition STORE_MAX_MSG_LEN : nat := 128.
Definition STORE_MAX_FIELDS_LEN : nat := 128.

Inductive LogLevel := Error | Warn | Info | Debug | Trace.

Record LogRecord := {
  record_id : Z;
  timestamp_nsec : Z;
  level : LogLevel;
  service_id : Z;
  scope : bytes;
  message : bytes;
  lr_fields : bytes;
  size_bytes : Z
}.

Inductive JournalError := JournalTooLarge.

Record Journal := {
  cap_records : Z;
  cap_bytes : Z;
  alloc_cap_bytes : Z;
  total_allocated_bytes : Z;
  next_id : Z;
  total_records : Z;
  dropped_records : Z;
  used_bytes : Z;
  records : list LogRecord
}.

Record JournalStats := {
  s_total : Z; s_dropped : Z; s_cap_records : Z; s_cap_bytes : Z; s_used_records : Z; s_used_bytes : Z
}.

Definition new_with_alloc_cap (crecs cbytes calloc : Z) : Journal :=
  {| cap_records := Z.max crecs 1; cap_bytes := Z.max cbytes 1; alloc_cap_bytes := Z.max calloc 1;
     total_allocated_bytes := 0; next_id := 1; total_records := 0; dropped_records := 0; used_bytes := 0; records := [] |}.

Definition OVERHEAD : Z := 64.

(** The sum is never zero, so the source's check on it never fires. *)
Definition record_size (scope_len msg_len fields_len : Z) : result Z JournalError :=
  let sum := saturating_add 32 (saturating_add 32 (saturating_add 32 scope_len msg_len) fields_len) OVERHEAD in
  if sum =? 0 then Err JournalTooLarge else Ok sum.

(** [records.len() as u32 >= cap_records || used_bytes + size > cap_bytes] *)
Definition over (j : Journal) (size : Z) : bool :=
  (j.(cap_records) <=? vlen j.(records)) || (j.(cap_bytes) <? saturating_add 32 j.(used_bytes) size).

Definition pop_front (j : Journal) (old : LogRecord) (rest : list LogRecord) : Journal :=
  {| cap_records := j.(cap_records); cap_bytes := j.(cap_bytes); alloc_cap_bytes := j.(alloc_cap_bytes);
     total_allocated_bytes := j.(total_allocated_bytes); next_id := j.(next_id); total_records := j.(total_records);
     dropped_records := saturating_add 64 j.(dropped_records) 1;
     used_bytes := saturating_sub j.(used_bytes) old.(size_bytes); records := rest |}.

(** The loop that makes room; every round drops a record. *)
Fixpoint make_room (fuel : nat) (j : Journal) (size : Z) : Journal :=
  match fuel with
  | O => j
  | S fuel =>
      if over j size then
        match j.(records) with
        | old :: rest => make_room fuel (pop_front j old rest) size
        | [] => j
        end
      else j
  end.

Definition push_back (j : Journal) (r : LogRecord) : Journal :=
  {| cap_records := j.(cap_records); cap_bytes := j.(cap_bytes); alloc_cap_bytes := j.(alloc_cap_bytes);
     total_allocated_bytes := saturating_add 32 j.(total_allocated_bytes) r.(size_bytes);
     next_id := saturating_add 64 j.(next_id) 1; total_records := saturating_add 64 j.(total_records) 1;
     dropped_records := j.(dropped_records); used_bytes := saturating_add 32 j.(used_bytes) r.(size_bytes);
     records := j.(records) ++ [r] |}.

(** [append], with the id and the number of dropped records on success. *)
Definition append (j : Journal) (sid ts : Z) (lvl : LogLevel) (sc msg flds : bytes)
    : Journal * result (Z * Z) JournalError :=
  let sc := take STORE_MAX_SCOPE_LEN sc in
  let msg := take STORE_MAX_MSG_LEN msg in
  let flds := take STORE_MAX_FIELDS_LEN flds in
  match record_size (vlen sc) (vlen msg) (vlen flds) with
  | Err e => (j, Err e)
  | Ok size =>
      if j.(cap_bytes) <? size then (j, Err JournalTooLarge)
      else if j.(alloc_cap_bytes) <? saturating_add 32 j.(total_allocated_bytes) size then (j, Err JournalTooLarge)
      else
        let j := make_room (S (length j.(records))) j size in
        if over j size then (j, Err JournalTooLarge)
        else if j.(alloc_cap_bytes) <? saturating_add 32 j.(used_bytes) size then (j, Err JournalTooLarge)
        else
          let r := {| record_id := j.(next_id); timestamp_nsec := ts; level := lvl; service_id := sid; scope := sc;
                      message := msg; lr_fields := flds; size_bytes := size |} in
          (push_back j r, Ok (j.(next_id), j.(dropped_records)))
  end.

Definition iter_since (j : Journal) (since : Z) : list LogRecord :=
  List.filter (fun r => since <=? r.(timestamp_nsec)) j.(records).

Definition query (j : Journal) (since max_count : Z) : list LogRecord :=
  take (Nat.min (Z.to_nat max_count) (length j.(records))) (iter_since j since).

Definition stats (j : Journal) : JournalStats :=
  {| s_total := j.(total_records); s_dropped := j.(dropped_records); s_cap_records := j.(cap_records);
     s_cap_bytes := j.(cap_bytes); s_used_records := vlen j.(records) mod 2 ^ 32; s_used_bytes := j.(used_bytes) |}.

(** ** [security.rs] *)

Definition MAX_RATE_SUBJECTS : nat := 64.
Definition RATE_WINDOW_NS : Z := 1000000000.
Definition RATE_MAX_APPENDS_PER_WINDOW : Z := 24.

Record SenderWindow := { sw_sender : Z; window_start_ns : Z; used_in_window : Z }.

(** The first entry of the sender is updated in place. *)
Fixpoint rate_check (entries : list SenderWindow) (sender now : Z) : option (list SenderWindow * bool) :=
  match entries with
  | [] => None
  | e :: entries =>
      if e.(sw_sender) =? sender then
        let e := if RATE_WINDOW_NS <=? saturating_sub now e.(window_start_ns)
                 then {| sw_sender := sender; window_start_ns := now; used_in_window := 0 |} else e in
        if RATE_MAX_APPENDS_PER_WINDOW <=? e.(used_in_window) then Some (e :: entries, true)
        else Some ({| sw_sender := sender; window_start_ns := e.(window_start_ns);
                      used_in_window := saturating_add 32 e.(used_in_window) 1 |} :: entries, false)
      else
        match rate_check entries sender now with
        | Some (entries, limited) => Some (e :: entries, limited)
        | None => None
        end
  end.

Definition is_rate_limited (entries : list SenderWindow) (sender now : Z) : list SenderWindow * bool :=
  match rate_check entries sender now with
  | Some r => r
  | None =>
      if (MAX_RATE_SUBJECTS <=? length entries)%nat then (entries, true)
      else (entries ++ [{| sw_sender := sender; window_start_ns := now; used_in_window := 1 |}], false)
  end.

Definition is_forbidden_identity_key (key : bytes) : bool :=
  existsb (fun k => bool_decide (key = k)) [text "sender_service_id"; text "service_id"; text "requester_id"; text "service"].

(** The bytes before the first [=], if there is one. *)
Fixpoint key_of (line : bytes) : option bytes :=
  match line with
  | [] => None
  | b :: line => if b =? 61 then Some [] else cons b <$> key_of line
  end.

(** The loop over the lines; an empty last line has no key. *)
Definition has_payload_identity_claim (fields : bytes) : bool :=
  existsb (fun line => match key_of line with Some k => is_forbidden_identity_key k | None => false end) (split_on 10 fields).

(** ** [protocol.rs] *)

Definition VERSION_V1 : Z := 1.
Definition VERSION_V2 : Z := 2.
Definition OP_APPEND : Z := 1.
Definition OP_QUERY : Z := 2.
Definition OP_STATS : Z := 3.
Definition STATUS_OK : Z := 0.
Definition STATUS_UNSUPPORTED : Z := 2.
Definition STATUS_INVALID_ARGS : Z := 4.
Definition STATUS_OVER_LIMIT : Z := 5.
Definition STATUS_RATE_LIMITED : Z := 6.
Definition MAX_SCOPE_LEN : Z := 64.
Definition MAX_MSG_LEN : Z := 256.
Definition MAX_FIELDS_LEN : Z := 512.
Definition QUERY_BOUNDED_CAP : Z := 512.

(** A request; the nonce is [None] for version 1. *)
Inductive Request :=
| Append (nonce : option Z) (lvl : LogLevel) (sc msg flds : bytes)
| Query (nonce : option Z) (since max_count : Z)
| Stats (nonce : option Z).

Inductive DecodeError := Malformed | Unsupported | TooLarge.

Definition decode_level (b : Z) : result LogLevel DecodeError :=
  if b =? 0 then Ok Error else if b =? 1 then Ok Warn else if b =? 2 then Ok Info
  else if b =? 3 then Ok Debug else if b =? 4 then Ok Trace else Err Malformed.

Definition encode_level (l : LogLevel) : Z :=
  match l with Error => 0 | Warn => 1 | Info => 2 | Debug => 3 | Trace => 4 end.

(** The body of an append, behind the header and the nonce. *)
Definition decode_append (nonce : option Z) (b : bytes) : result Request DecodeError :=
  if (length b <? 6)%nat then Err Malformed
  else
    let? lvl := decode_level (nth 0 b 0) in
    let sl := nth 1 b 0 in
    let ml := le_value (slice 2 4 b) in
    let fl := le_value (slice 4 6 b) in
    if (MAX_SCOPE_LEN <? sl) || (MAX_MSG_LEN <? ml) || (MAX_FIELDS_LEN <? fl) then Err TooLarge
    else if negb (vlen b =? 6 + sl + ml + fl) then Err Malformed
    else
      let s := (6 + Z.to_nat sl)%nat in
      let m := (s + Z.to_nat ml)%nat in
      Ok (Append nonce lvl (slice 6 s b) (slice s m b) (slice m (m + Z.to_nat fl) b)).

Definition decode_query (nonce : option Z) (b : bytes) : result Request DecodeError :=
  if negb (length b =? 10)%nat then Err Malformed
  else Ok (Query nonce (le_value (slice 0 8 b)) (le_value (slice 8 10 b))).

Definition decode_stats (nonce : option Z) (b : bytes) : result Request DecodeError :=
  if negb (length b =? 0)%nat then Err Malformed else Ok (Stats nonce).

Definition decode_op (op : Z) (nonce : option Z) (b : bytes) : result Request DecodeError :=
  if op =? OP_APPEND then decode_append nonce b
  else if op =? OP_QUERY then decode_query nonce b
  else if op =? OP_STATS then decode_stats nonce b
  else Err Unsupported.

Definition decode_request (f : bytes) : result Request DecodeError :=
  match f with
  | m0 :: m1 :: ver :: op :: b =>
      if negb (m0 =? 76) || negb (m1 =? 79) then Err Malformed
      else if ver =? VERSION_V1 then decode_op op None b
      else if ver =? VERSION_V2 then
        if (length f <? 12)%nat then Err Malformed else decode_op op (Some (le_value (take 8 b))) (drop 8 b)
      else Err Unsupported
  | _ => Err Malformed
  end.

(** The head of a response: version 2 repeats the nonce. *)
Definition response_head (op status : Z) (nonce : option Z) : bytes :=
  [76; 79; if nonce is Some _ then VERSION_V2 else VERSION_V1; Z.lor op 0x80; status] ++ from_option (le_bytes 8) [] nonce.

Definition encode_append_response (status : Z) (nonce : option Z) (id dropped : Z) : bytes :=
  response_head OP_APPEND status nonce ++ le_bytes 8 id ++ le_bytes 8 dropped.

Definition encode_stats_response (status : Z) (nonce : option Z) (s : JournalStats) : bytes :=
  response_head OP_STATS status nonce ++ le_bytes 8 s.(s_total) ++ le_bytes 8 s.(s_dropped) ++
  le_bytes 4 s.(s_cap_records) ++ le_bytes 4 s.(s_cap_bytes) ++ le_bytes 4 s.(s_used_records) ++ le_bytes 4 s.(s_used_bytes).

Definition encode_record (r : LogRecord) : bytes :=
  let sc := take (Z.to_nat MAX_SCOPE_LEN) r.(scope) in
  let msg := take (Z.to_nat MAX_MSG_LEN) r.(message) in
  let flds := take (Z.to_nat MAX_FIELDS_LEN) r.(lr_fields) in
  le_bytes 8 r.(record_id) ++ le_bytes 8 r.(timestamp_nsec) ++ [encode_level r.(level)] ++ le_bytes 8 r.(service_id) ++
  [vlen sc] ++ le_bytes 2 (vlen msg) ++ le_bytes 2 (vlen flds) ++ sc ++ msg ++ flds.

(** The loop of the bounded response: records that do not fit are skipped. *)
Fixpoint fit_records (rs : list LogRecord) (count max_count idx : Z) : list LogRecord :=
  match rs with
  | [] => []
  | r :: rs =>
      if max_count <=? count then []
      else
        let len := vlen (encode_record r) in
        if QUERY_BOUNDED_CAP <? idx + len then fit_records rs count max_count idx
        else r :: (if saturating_add 16 count 1 =? 65535 then []
                   else fit_records rs (saturating_add 16 count 1) max_count (idx + len))
  end.

Definition encode_query_response_bounded_iter (status : Z) (nonce : option Z) (j : Journal) (since max_count : Z) : bytes :=
  let head := response_head OP_QUERY status nonce ++ le_bytes 8 (stats j).(s_total) ++ le_bytes 8 (stats j).(s_dropped) in
  let rs := fit_records (iter_since j since) 0 max_count (vlen head + 2) in
  head ++ le_bytes 2 (vlen rs) ++ concat (map encode_record rs).

(** ** [lite_handler.rs] *)

Definition parse_nonce (f : bytes) : option Z :=
  if (length f <? 12)%nat then None else Some (le_value (slice 4 12 f)).

Definition decode_status (e : DecodeError) : Z :=
  match e with
  | Malformed => STATUS_INVALID_ARGS
  | Unsupported => STATUS_UNSUPPORTED
  | TooLarge => STATUS_OVER_LIMIT
  end.

Definition encode_append_error_for_decode (f : bytes) (e : DecodeError) (dropped : Z) : bytes :=
  if bool_decide (f !! 2%nat = Some VERSION_V2)
  then encode_append_response (decode_status e) (Some (default 0 (parse_nonce f))) 0 dropped
  else encode_append_response (decode_status e) None 0 dropped.

Definition handle_frame_with_limiter (j : Journal) (lim : list SenderWindow) (sender now : Z) (f : bytes)
    : Journal * list SenderWindow * bytes :=
  match decode_request f with
  | Err e =>
      (j, lim, if nth 3 f 0 =? OP_APPEND then encode_append_error_for_decode f e (stats j).(s_dropped)
               else encode_stats_response (decode_status e) None (stats j))
  | Ok (Append nonce lvl sc msg flds) =>
      if has_payload_identity_claim flds then
        (j, lim, encode_append_response STATUS_INVALID_ARGS nonce 0 (stats j).(s_dropped))
      else
        let '(lim, limited) := is_rate_limited lim sender now in
        if limited then (j, lim, encode_append_response STATUS_RATE_LIMITED nonce 0 (stats j).(s_dropped))
        else
          match append j sender now lvl sc msg flds with
          | (j, Ok (id, dropped)) => (j, lim, encode_append_response STATUS_OK nonce id dropped)
          | (j, Err _) => (j, lim, encode_append_response STATUS_OVER_LIMIT nonce 0 (stats j).(s_dropped))
          end
  | Ok (Query nonce since max_count) =>
      (j, lim, encode_query_response_bounded_iter STATUS_OK nonce j since max_count)
  | Ok (Stats nonce) => (j, lim, encode_stats_response STATUS_OK nonce (stats j))
  end.

(** ** The journal is the tail of the history *)

(** [hist] are all records ever accepted. *)
Record journal_ok (j : Journal) (hist : list LogRecord) : Prop := {
  jo_caps : 1 ≤ j.(cap_records) < 2 ^ 32 ∧ 1 ≤ j.(cap_bytes) < 2 ^ 32 - 1 ∧ 1 ≤ j.(alloc_cap_bytes) < 2 ^ 32;
  jo_tail : ∃ k, j.(records) = drop k hist ∧ j.(dropped_records) = Z.of_nat k ∧ (k ≤ length hist)%nat;
  jo_total : j.(total_records) = vlen hist ∧ j.(next_id) = vlen hist + 1 ∧ vlen hist < 2 ^ 63;
  jo_ids i r : hist !! i = Some r → r.(record_id) = Z.of_nat i + 1 ∧ 0 < r.(size_bytes);
  jo_used : j.(used_bytes) = zsum size_bytes j.(records) ∧ j.(used_bytes) ≤ j.(cap_bytes);
  jo_count : vlen j.(records) ≤ j.(cap_records);
  jo_alloc : j.(used_bytes) ≤ j.(total_allocated_bytes) < 2 ^ 32
}.

Lemma sizes_nonneg j hist : journal_ok j hist → Forall (fun r => 0 < r.(size_bytes)) j.(records).
Proof.
  intros Hj. destruct (jo_tail j hist Hj) as (k & -> & _). apply Forall_drop, Forall_lookup. intros i r Hr.
  by apply (jo_ids j hist Hj) in Hr as [_ Hr].
Qed.

Lemma sizes_sum_nonneg rs : Forall (fun r => 0 < r.(size_bytes)) rs → 0 ≤ zsum size_bytes rs.
Proof. induction 1 as [|r rs Hr _ IH]; [done|]. rewrite zsum_cons. lia. Qed.

Lemma pop_ok j hist old rest :
  journal_ok j hist → j.(records) = old :: rest → journal_ok (pop_front j old rest) hist.
Proof.
  intros Hj Hr. pose proof (sizes_nonneg j hist Hj) as Hs. rewrite Hr in Hs. inversion_clear Hs as [|? ? Ho Hrest].
  apply sizes_sum_nonneg in Hrest. destruct Hj as [H1 (k & Hk & Hd & Hl) H3 H4 [H5 H5'] H6 H7].
  rewrite Hr in *. rewrite zsum_cons in H5.
  assert (Hlt : (k < length hist)%nat).
  { apply (f_equal length) in Hk. rewrite length_drop in Hk. cbn in Hk. lia. }
  unfold vlen in *. cbn [length] in H6.
  split; cbn [pop_front cap_records cap_bytes alloc_cap_bytes total_allocated_bytes next_id total_records dropped_records
    used_bytes records]; try done.
  - exists (S k). split_and!; [|unfold saturating_add, max_of; lia|lia].
    rewrite <- Nat.add_1_r, <- drop_drop, <- Hk. done.
  - unfold saturating_sub. split; lia.
  - unfold vlen. lia.
  - unfold saturating_sub. lia.
Qed.

Lemma make_room_ok fuel : ∀ j hist size,
  journal_ok j hist → (length j.(records) < fuel)%nat → 0 < size ≤ j.(cap_bytes) →
  let j' := make_room fuel j size in
  journal_ok j' hist ∧ over j' size = false ∧ j'.(cap_bytes) = j.(cap_bytes) ∧ j'.(cap_records) = j.(cap_records) ∧
  j'.(alloc_cap_bytes) = j.(alloc_cap_bytes) ∧ j'.(total_allocated_bytes) = j.(total_allocated_bytes) ∧
  j'.(next_id) = j.(next_id).
Proof.
  induction fuel as [|fuel IH]; intros j hist size Hj Hf Hs; [lia|]. cbn [make_room]. cbn zeta.
  destruct (over j size) eqn:Eo; [|done]. destruct (records j) as [|old rest] eqn:Er.
  - exfalso. destruct (jo_caps j hist Hj) as (Hc & Hb & _). destruct (jo_used j hist Hj) as [Hu _]. rewrite Er in Hu.
    unfold over in Eo. rewrite Er, Hu in Eo. change (zsum size_bytes []) with 0 in Eo. change (vlen (@nil LogRecord)) with 0 in Eo.
    apply orb_true_iff in Eo as [Eo|Eo]; [apply Z.leb_le in Eo; lia|].
    apply Z.ltb_lt in Eo. unfold saturating_add, max_of in Eo. lia.
  - apply (IH (pop_front j old rest) hist size); [by apply pop_ok|cbn in *; lia|done].
Qed.

(** A record of at most 352 bytes. *)
Lemma record_size_ok (sc msg flds : bytes) :
  record_size (vlen (take STORE_MAX_SCOPE_LEN sc)) (vlen (take STORE_MAX_MSG_LEN msg)) (vlen (take STORE_MAX_FIELDS_LEN flds))
  = Ok (vlen (take STORE_MAX_SCOPE_LEN sc) + vlen (take STORE_MAX_MSG_LEN msg) + vlen (take STORE_MAX_FIELDS_LEN flds) + 64).
Proof.
  unfold record_size, saturating_add, max_of, OVERHEAD, vlen, STORE_MAX_SCOPE_LEN, STORE_MAX_MSG_LEN, STORE_MAX_FIELDS_LEN.
  pose proof (length_take sc 32). pose proof (length_take msg 128). pose proof (length_take flds 128).
  rewrite (proj2 (Z.eqb_neq _ _)) by lia. f_equal. lia.
Qed.

Definition stored_size (sc msg flds : bytes) : Z :=
  vlen (take STORE_MAX_SCOPE_LEN sc) + vlen (take STORE_MAX_MSG_LEN msg) + vlen (take STORE_MAX_FIELDS_LEN flds) + 64.

Lemma push_ok j hist r :
  journal_ok j hist → over j r.(size_bytes) = false → r.(record_id) = j.(next_id) → 0 < r.(size_bytes) →
  vlen hist + 1 < 2 ^ 63 → journal_ok (push_back j r) (hist ++ [r]).
Proof.
  intros [H1 (k & Hk & Hd & Hl) (H3 & H3' & H3'') H4 [H5 H5'] H6 H7] Ho Hid Hsz Hn.
  unfold over in Ho. apply orb_false_iff in Ho as [Ho1%Z.leb_gt Ho2%Z.ltb_ge].
  unfold saturating_add, max_of in Ho2.
  split; cbn [push_back cap_records cap_bytes alloc_cap_bytes total_allocated_bytes next_id total_records dropped_records
    used_bytes records]; try done; rewrite ?vlen_app; change (vlen [r]) with 1.
  - exists k. split_and!; [rewrite Hk, drop_app_le by done; done|done|rewrite length_app; cbn [List.length]; lia].
  - unfold saturating_add, max_of. lia.
  - intros i r' Hi. apply lookup_app_Some in Hi as [Hi|[Hle Hi]]; [by apply H4|].
    destruct (i - length hist)%nat as [|m] eqn:Em; [|done]. injection Hi as <-. split; [|done].
    rewrite Hid, H3'. unfold vlen. lia.
  - unfold saturating_add, max_of. rewrite zsum_app. unfold zsum at 2. cbn. split; lia.
  - lia.
  - unfold saturating_add, max_of. lia.
Qed.

(** One append, completely: it fails only for a record above the byte capacity
    or beyond the lifetime budget, and then changes nothing. *)
Lemma append_spec j hist sid ts lvl sc msg flds :
  journal_ok j hist → vlen hist + 1 < 2 ^ 63 →
  let size := stored_size sc msg flds in
  if (j.(cap_bytes) <? size) || (j.(alloc_cap_bytes) <? saturating_add 32 j.(total_allocated_bytes) size)
  then append j sid ts lvl sc msg flds = (j, Err JournalTooLarge)
  else
    let r := {| record_id := vlen hist + 1; timestamp_nsec := ts; level := lvl; service_id := sid;
                scope := take STORE_MAX_SCOPE_LEN sc; message := take STORE_MAX_MSG_LEN msg;
                lr_fields := take STORE_MAX_FIELDS_LEN flds; size_bytes := size |} in
    ∃ j' d, append j sid ts lvl sc msg flds = (j', Ok (vlen hist + 1, d)) ∧ journal_ok j' (hist ++ [r]) ∧
      last j'.(records) = Some r ∧ d = vlen hist + 1 - vlen j'.(records) ∧ d = j'.(dropped_records) ∧
      j'.(alloc_cap_bytes) = j.(alloc_cap_bytes).
Proof.
  intros Hj Hn size. unfold append. rewrite record_size_ok. fold (stored_size sc msg flds). fold size.
  assert (Hsz : 0 < size) by (unfold size, stored_size; repeat match goal with |- context [vlen ?x] => pose proof (vlen_nonneg x); generalize dependent (vlen x); intros end; lia).
  destruct (Z.ltb_spec (cap_bytes j) size) as [|Hc]; [done|]. cbn [orb].
  destruct (_ <? _) eqn:Ea; [done|]. apply Z.ltb_ge in Ea.
  destruct (make_room_ok (S (length (records j))) j hist size Hj ltac:(lia) ltac:(lia))
    as (Hj1 & Ho & Hcb & Hcr & Hal & Hta & Hid).
  set (j1 := make_room _ j size) in *. rewrite Ho. pose proof (jo_alloc j1 hist Hj1) as Hal1.
  assert (Hsec : (alloc_cap_bytes j1 <? saturating_add 32 (used_bytes j1) size) = false).
  { apply Z.ltb_ge. rewrite Hal. unfold saturating_add in *. lia. }
  rewrite Hsec. destruct (jo_total j1 hist Hj1) as (_ & Hnext & _). rewrite Hnext.
  set (r := {| record_id := vlen hist + 1 |}).
  assert (Hp : journal_ok (push_back j1 r) (hist ++ [r])) by (apply push_ok; done).
  eexists _, _. split; [reflexivity|]. split; [exact Hp|]. cbn [push_back records dropped_records alloc_cap_bytes].
  rewrite last_snoc. split_and!; [done| |done|done].
  destruct (jo_tail j1 hist Hj1) as (k & -> & -> & Hk). unfold vlen. rewrite length_app, length_drop. cbn [length]. lia.
Qed.

(** An append request, with its arguments. *)
Record Call := { c_sid : Z; c_ts : Z; c_lvl : LogLevel; c_scope : bytes; c_msg : bytes; c_fields : bytes }.

Fixpoint append_all (j : Journal) (cs : list Call) : Journal * list (result (Z * Z) JournalError) :=
  match cs with
  | [] => (j, [])
  | c :: cs =>
      let '(j, r) := append j c.(c_sid) c.(c_ts) c.(c_lvl) c.(c_scope) c.(c_msg) c.(c_fields) in
      let '(j, rs) := append_all j cs in (j, r :: rs)
  end.

(** The record of the [id]-th accepted call. *)
Definition as_record (id : Z) (c : Call) : LogRecord :=
  {| record_id := id; timestamp_nsec := c.(c_ts); level := c.(c_lvl); service_id := c.(c_sid);
     scope := take STORE_MAX_SCOPE_LEN c.(c_scope); message := take STORE_MAX_MSG_LEN c.(c_msg);
     lr_fields := take STORE_MAX_FIELDS_LEN c.(c_fields); size_bytes := stored_size c.(c_scope) c.(c_msg) c.(c_fields) |}.

(** The accepted calls, numbered from [id]. *)
Fixpoint accepted (id : Z) (cs : list Call) (rs : list (result (Z * Z) JournalError)) : list LogRecord :=
  match cs, rs with
  | c :: cs, Ok _ :: rs => as_record id c :: accepted (id + 1) cs rs
  | _ :: cs, Err _ :: rs => accepted id cs rs
  | _, _ => []
  end.

Lemma append_all_ok cs : ∀ j hist j' rs,
  journal_ok j hist → vlen hist + vlen cs < 2 ^ 63 → append_all j cs = (j', rs) →
  let new := accepted (vlen hist + 1) cs rs in
  journal_ok j' (hist ++ new) ∧ (new ≠ [] → last j'.(records) = last new) ∧ (new = [] → j' = j).
Proof.
  induction cs as [|c cs IH]; intros j hist j' rs Hj Hn; cbn [append_all].
  { intros [= <- <-]. cbn [accepted]. rewrite app_nil_r. by split_and!. }
  assert (Hl : vlen (c :: cs) = vlen cs + 1) by (unfold vlen; cbn [List.length]; lia). rewrite Hl in Hn.
  pose proof (vlen_nonneg cs).
  pose proof (append_spec j hist (c_sid c) (c_ts c) (c_lvl c) (c_scope c) (c_msg c) (c_fields c) Hj ltac:(lia)) as Ha.
  cbn zeta in Ha. destruct (_ || _).
  - rewrite Ha. destruct (append_all j cs) as [j2 rs2] eqn:E2. intros [= <- <-]. cbn [accepted].
    apply (IH j hist j2 rs2 Hj ltac:(lia) E2).
  - destruct Ha as (j1 & d & -> & Hj1 & Hlast & _). destruct (append_all j1 cs) as [j2 rs2] eqn:E2. intros [= <- <-].
    cbn [accepted]. fold (as_record (vlen hist + 1) c) in Hj1, Hlast. set (r := as_record _ c) in *.
    assert (Hv : vlen (hist ++ [r]) = vlen hist + 1) by (rewrite vlen_app; done).
    destruct (IH j1 (hist ++ [r]) j2 rs2 Hj1 ltac:(rewrite Hv; lia) E2) as (H1 & H2 & H3). rewrite Hv in H1, H2, H3.
    rewrite <- app_assoc in H1. cbn [app] in H1. split_and!; [done| |done].
    intros _. destruct (accepted (vlen hist + 1 + 1) cs rs2) as [|r2 new] eqn:En; [by rewrite H3|]. by rewrite H2 by done.
Qed.

Lemma new_ok a b c :
  0 ≤ a < 2 ^ 32 → 0 ≤ b < 2 ^ 32 - 1 → 0 ≤ c < 2 ^ 32 → journal_ok (new_with_alloc_cap a b c) [].
Proof.
  intros. split; cbn; try done; try lia.
  - by exists 0%nat.
  - change (0 ≤ a `max` 1). lia.
Qed.

(** The journal keeps the tail of what was accepted.  From any journal with
    capacities of type [u32] (the byte capacity below the maximum), after any
    sequence of appends: the stored records are the last ones accepted, in
    order, the newest always among them, numbered from 1 without gaps; the
    counters are exact; neither capacity is ever exceeded; and a query returns
    the first [max_count] stored records not older than asked. *)
Theorem logd_journal_tail a b c cs j rs since max_count :
  0 ≤ a < 2 ^ 32 → 0 ≤ b < 2 ^ 32 - 1 → 0 ≤ c < 2 ^ 32 → vlen cs < 2 ^ 63 →
  append_all (new_with_alloc_cap a b c) cs = (j, rs) →
  let hist := accepted 1 cs rs in
  j.(records) = drop (Z.to_nat j.(dropped_records)) hist ∧ j.(total_records) = vlen hist ∧
  vlen j.(records) = vlen hist - j.(dropped_records) ∧ (hist ≠ [] → last j.(records) = last hist) ∧
  (∀ i r, hist !! i = Some r → r.(record_id) = Z.of_nat i + 1) ∧
  zsum size_bytes j.(records) ≤ j.(cap_bytes) ∧ vlen j.(records) ≤ j.(cap_records) ∧
  query j since max_count = take (Z.to_nat max_count) (List.filter (fun r => since <=? r.(timestamp_nsec)) j.(records)).
Proof.
  intros Ha Hb Hc Hn Hall hist.
  destruct (append_all_ok cs _ [] j rs (new_ok a b c Ha Hb Hc) Hn Hall) as (Hj & Hlast & _).
  change (vlen (@nil LogRecord) + 1) with 1 in *. cbn [app] in *. fold hist in Hj, Hlast.
  destruct (jo_tail _ _ Hj) as (k & Hk & Hd & Hle). rewrite Hd, Nat2Z.id. destruct (jo_used _ _ Hj) as [Hu Hu'].
  split_and!; try done.
  - apply (jo_total _ _ Hj).
  - rewrite Hk. unfold vlen. rewrite length_drop. lia.
  - intros i r Hi. by apply (jo_ids _ _ Hj) in Hi as [Hi _].
  - by rewrite <- Hu.
  - apply (jo_count _ _ Hj).
  - unfold query, iter_since. set (l := List.filter _ (records j)).
    assert (Hf : (length l ≤ length (records j))%nat) by apply filter_length_le.
    destruct (Nat.le_ge_cases (Z.to_nat max_count) (length (records j))).
    + by rewrite Nat.min_l.
    + rewrite Nat.min_r by done. rewrite !take_ge by lia. done.
Qed.

Lemma accepted_length cs : ∀ id rs, vlen (accepted id cs rs) ≤ vlen cs.
Proof.
  assert (Hc : ∀ A (y : A) l, vlen (y :: l) = vlen l + 1) by (intros; unfold vlen; cbn [List.length]; lia).
  induction cs as [|x cs IH]; intros id rs; [by destruct rs|]. rewrite Hc.
  destruct rs as [|[o|o] rs]; cbn [accepted]; rewrite ?Hc.
  - change (vlen (@nil LogRecord)) with 0. pose proof (vlen_nonneg cs). lia.
  - specialize (IH (id + 1) rs). lia.
  - specialize (IH id rs). lia.
Qed.

(** The lifetime budget is final.  Once the sizes of all records ever stored
    leave less than the fixed 64 bytes of a record of the allocation budget, no
    append is accepted any more, whatever has been dropped meanwhile, and the
    journal never changes again. *)
Theorem logd_budget_final a b c cs j rs more j' rs' :
  0 ≤ a < 2 ^ 32 → 0 ≤ b < 2 ^ 32 - 1 → 0 ≤ c < 2 ^ 32 → vlen cs + vlen more < 2 ^ 63 →
  append_all (new_with_alloc_cap a b c) cs = (j, rs) →
  j.(alloc_cap_bytes) < 2 ^ 32 - 1 → j.(alloc_cap_bytes) < j.(total_allocated_bytes) + 64 →
  append_all j more = (j', rs') →
  j' = j ∧ Forall (fun r => r = Err JournalTooLarge) rs'.
Proof.
  intros Ha Hb Hc Hn Hall Hmax Hx Hmore. pose proof (vlen_nonneg more).
  destruct (append_all_ok cs _ [] j rs (new_ok a b c Ha Hb Hc) ltac:(change (vlen (@nil LogRecord)) with 0; lia) Hall) as (Hj & _ & _).
  revert j' rs' Hmore Hn. induction more as [|m more IH]; intros j' rs' Hm Hn; [injection Hm as <- <-; by split|].
  cbn [append_all] in Hm. assert (Hl : vlen (m :: more) = vlen more + 1) by (unfold vlen; cbn [List.length]; lia).
  assert (Hh : vlen ([] ++ accepted (vlen (@nil LogRecord) + 1) cs rs) + 1 < 2 ^ 63).
  { destruct (jo_total _ _ Hj) as (_ & _ & Ht).
    pose proof (accepted_length cs (vlen (@nil LogRecord) + 1) rs) as Hlen.
    cbn [app]. pose proof (vlen_nonneg more). lia. }
  pose proof (append_spec j _ (c_sid m) (c_ts m) (c_lvl m) (c_scope m) (c_msg m) (c_fields m) Hj Hh) as Hs. cbn zeta in Hs.
  assert (Hsz : 64 ≤ stored_size (c_scope m) (c_msg m) (c_fields m)).
  { unfold stored_size. pose proof (vlen_nonneg (take STORE_MAX_SCOPE_LEN (c_scope m))).
    pose proof (vlen_nonneg (take STORE_MAX_MSG_LEN (c_msg m))). pose proof (vlen_nonneg (take STORE_MAX_FIELDS_LEN (c_fields m))). lia. }
  destruct (jo_caps _ _ Hj) as (_ & _ & Hal). destruct (jo_alloc _ _ Hj) as [_ Hta].
  rewrite (proj2 (Z.ltb_lt (alloc_cap_bytes j) _)), orb_true_r in Hs.
  2: { unfold saturating_add, max_of. lia. }
  rewrite Hs in Hm. destruct (append_all j more) as [j2 rs2] eqn:E2. injection Hm as <- <-.
  destruct (IH (vlen_nonneg more) j2 rs2 eq_refl ltac:(lia)) as [-> Hf]. split; [done|by constructor].
Qed.

(** ** The rate limit *)

(** Requests of senders at times, and which of them are let through. *)
Fixpoint limit_all (lim : list SenderWindow) (calls : list (Z * Z)) : list SenderWindow * list bool :=
  match calls with
  | [] => (lim, [])
  | (s, now) :: calls =>
      let '(lim, limited) := is_rate_limited lim s now in
      let '(lim, bs) := limit_all lim calls in (lim, negb limited :: bs)
  end.

(** How many requests of [s] were let through. *)
Fixpoint admitted (s : Z) (calls : list (Z * Z)) (bs : list bool) : Z :=
  match calls, bs with
  | (s', _) :: calls, b :: bs => (if (s' =? s) && b then 1 else 0) + admitted s calls bs
  | _, _ => 0
  end.

(** What [s] can still get before time [a + RATE_WINDOW_NS], when the clock has
    reached [a]. *)
Definition window_budget (a : Z) (e : SenderWindow) : Z :=
  if a <=? e.(window_start_ns) then RATE_MAX_APPENDS_PER_WINDOW - e.(used_in_window)
  else 2 * RATE_MAX_APPENDS_PER_WINDOW - e.(used_in_window).

Definition budget (a s : Z) (lim : list SenderWindow) : Z :=
  match List.find (fun e => e.(sw_sender) =? s) lim with
  | Some e => window_budget a e
  | None => RATE_MAX_APPENDS_PER_WINDOW
  end.

Definition limiter_ok (lim : list SenderWindow) : Prop :=
  Forall (fun e => 0 ≤ e.(used_in_window) ≤ RATE_MAX_APPENDS_PER_WINDOW) lim.

Lemma rate_check_spec lim s now a :
  limiter_ok lim → a ≤ now < a + RATE_WINDOW_NS →
  match rate_check lim s now with
  | None => List.find (fun e => e.(sw_sender) =? s) lim = None
  | Some (lim', limited) =>
      limiter_ok lim' ∧ length lim' = length lim ∧ budget a s lim' ≤ budget a s lim - (if limited then 0 else 1) ∧
      ∀ s', s' ≠ s → budget a s' lim' = budget a s' lim
  end.
Proof.
  unfold limiter_ok, budget. intros Hl Hnow. induction Hl as [|e lim He Hl IH]; cbn [rate_check List.find]; [done|].
  destruct (Z.eqb_spec (sw_sender e) s) as [Hs|Hs].
  - unfold window_budget, RATE_MAX_APPENDS_PER_WINDOW, RATE_WINDOW_NS, saturating_sub, saturating_add, max_of in *.
    destruct (Z.leb_spec 1000000000 (Z.max (now - window_start_ns e) 0)); cbn [used_in_window].
    + cbn. rewrite Hs, Z.eqb_refl. cbn. destruct (Z.leb_spec a now); [|lia].
      destruct (Z.leb_spec a (window_start_ns e)); [lia|]. split_and!; [constructor; cbn; [lia|done]|done|lia|].
      intros s' Hs'. by rewrite (proj2 (Z.eqb_neq s s')) by done.
    + destruct (Z.leb_spec 24 (used_in_window e)); cbn; rewrite ?Hs, Z.eqb_refl.
      * split_and!; [by constructor|done|lia|]. intros s' Hs'. by rewrite (proj2 (Z.eqb_neq s s')) by done.
      * cbn. split_and!; [constructor; cbn; [lia|done]|done| |].
        -- destruct (Z.leb_spec a (window_start_ns e)); lia.
        -- intros s' Hs'. by rewrite (proj2 (Z.eqb_neq s s')) by done.
  - destruct (rate_check lim s now) as [[lim' limited]|]; [|done]. destruct IH as (H1 & H2 & H3 & H4).
    cbn [List.find length]. rewrite (proj2 (Z.eqb_neq (sw_sender e) s)) by done. split_and!; [by constructor|by rewrite H2|done|].
    intros s' Hs'. destruct (sw_sender e =? s'); [done|]. by apply H4.
Qed.

Lemma find_app {A} (f : A → bool) l k :
  List.find f (l ++ k) = match List.find f l with Some x => Some x | None => List.find f k end.
Proof. induction l as [|x l IH]; [done|]. cbn. by destruct (f x). Qed.

Lemma limited_spec lim s now a s' :
  limiter_ok lim → a ≤ now < a + RATE_WINDOW_NS →
  let '(lim', limited) := is_rate_limited lim s now in
  limiter_ok lim' ∧ ((length lim ≤ MAX_RATE_SUBJECTS)%nat → (length lim' ≤ MAX_RATE_SUBJECTS)%nat) ∧
  (if (s =? s') && negb limited then 1 else 0) + budget a s' lim' ≤ budget a s' lim.
Proof.
  intros Hl Hn. pose proof (rate_check_spec lim s now a Hl Hn) as Hc. unfold is_rate_limited.
  destruct (rate_check lim s now) as [[lim' limited]|].
  - destruct Hc as (H1 & H2 & H3 & H4). split_and!; [done|by rewrite H2|].
    destruct (Z.eqb_spec s s') as [<-|Hs]; cbn [andb]; [destruct limited; cbn in *; lia|]. rewrite H4 by done. lia.
  - destruct (Nat.leb_spec MAX_RATE_SUBJECTS (length lim)).
    + split_and!; [done|done|]. rewrite andb_false_r. lia.
    + unfold budget. rewrite find_app. split_and!.
      * apply Forall_app. split; [done|]. constructor; [cbn; unfold RATE_MAX_APPENDS_PER_WINDOW; lia|constructor].
      * rewrite length_app. cbn. lia.
      * destruct (Z.eqb_spec s s') as [<-|Hs]; cbn [andb negb].
        -- rewrite Hc. cbn [List.find sw_sender]. rewrite Z.eqb_refl. unfold window_budget. cbn [window_start_ns used_in_window].
           rewrite (proj2 (Z.leb_le _ _)) by lia.
           unfold RATE_MAX_APPENDS_PER_WINDOW. lia.
        -- destruct (List.find (fun e => sw_sender e =? s') lim) as [e|]; cbn [List.find sw_sender]; [lia|].
           rewrite (proj2 (Z.eqb_neq s s')) by done. lia.
Qed.

Lemma limit_all_budget calls : ∀ lim lim' bs a s,
  limiter_ok lim → Forall (fun c => a ≤ c.2 < a + RATE_WINDOW_NS) calls → limit_all lim calls = (lim', bs) →
  limiter_ok lim' ∧ admitted s calls bs + budget a s lim' ≤ budget a s lim.
Proof.
  induction calls as [|[s0 now] calls IH]; intros lim lim' bs a s Hl Ht; cbn [limit_all].
  { intros [= <- <-]. split; [done|]. cbn. lia. }
  inversion_clear Ht as [|? ? Hn Ht']. pose proof (limited_spec lim s0 now a s Hl Hn) as Hs.
  destruct (is_rate_limited lim s0 now) as [l1 limited]. destruct Hs as (H1 & _ & H3).
  destruct (limit_all l1 calls) as [l2 bs2] eqn:E. intros [= <- <-].
  destruct (IH l1 l2 bs2 a s H1 Ht' E) as [H4 H5]. split; [done|]. cbn [admitted]. lia.
Qed.

Lemma budget_bounds a s lim : limiter_ok lim → 0 ≤ budget a s lim ≤ 2 * RATE_MAX_APPENDS_PER_WINDOW.
Proof.
  intros Hl. unfold budget, window_budget. destruct (List.find _ lim) as [e|] eqn:E.
  - apply find_some in E as [Hin%list_elem_of_In _]. unfold limiter_ok in Hl. rewrite Forall_forall in Hl.
    pose proof (Hl e Hin). unfold RATE_MAX_APPENDS_PER_WINDOW in *. destruct (_ <=? _); lia.
  - unfold RATE_MAX_APPENDS_PER_WINDOW. lia.
Qed.

Lemma limit_all_ok calls : ∀ lim lim' bs, limiter_ok lim → limit_all lim calls = (lim', bs) → limiter_ok lim'.
Proof.
  induction calls as [|[s now] calls IH]; intros lim lim' bs Hl; cbn [limit_all]; [by intros [= <- <-]|].
  pose proof (limited_spec lim s now now s Hl ltac:(unfold RATE_WINDOW_NS; lia)) as Hs.
  destruct (is_rate_limited lim s now) as [l1 limited]. destruct Hs as (H1 & _).
  destruct (limit_all l1 calls) as [l2 bs2] eqn:E. intros [= <- <-]. by eapply IH.
Qed.

(** No sender gets more than 48 appends through in any second.  After any
    history of requests, of all the requests that arrive within one interval of
    a second, whatever their senders and their order, at most twice the
    window's 24 are let through for any one sender. *)
Theorem logd_rate_bound before lim0 bs0 a calls lim bs s :
  limit_all [] before = (lim0, bs0) → Forall (fun c => a ≤ c.2 < a + RATE_WINDOW_NS) calls →
  limit_all lim0 calls = (lim, bs) → admitted s calls bs ≤ 48.
Proof.
  intros Hb Ht Hc. assert (Hl : limiter_ok lim0) by (eapply limit_all_ok; [|exact Hb]; constructor).
  destruct (limit_all_budget calls lim0 lim bs a s Hl Ht Hc) as [Hl' Hd].
  pose proof (budget_bounds a s lim0 Hl). pose proof (budget_bounds a s lim Hl').
  unfold RATE_MAX_APPENDS_PER_WINDOW in *. lia.
Qed.

(** ** Who wrote what *)

Lemma make_room_sub fuel : ∀ j size r, r ∈ (make_room fuel j size).(records) → r ∈ j.(records).
Proof.
  induction fuel as [|fuel IH]; intros j size r; cbn [make_room]; [done|]. destruct (over j size); [|done].
  destruct (records j) as [|old rest] eqn:Er; [by rewrite Er|]. intros Hr%IH. by apply list_elem_of_further.
Qed.

Lemma append_sub j sid ts lvl sc msg flds j' o r :
  append j sid ts lvl sc msg flds = (j', o) → r ∈ j'.(records) →
  r ∈ j.(records) ∨
  (r.(service_id) = sid ∧ r.(timestamp_nsec) = ts ∧ r.(level) = lvl ∧ r.(scope) = take STORE_MAX_SCOPE_LEN sc ∧
   r.(message) = take STORE_MAX_MSG_LEN msg ∧ r.(lr_fields) = take STORE_MAX_FIELDS_LEN flds).
Proof.
  unfold append. destruct (record_size _ _ _) as [size|]; [|intros [= <- <-]; by left].
  destruct (_ <? size); [intros [= <- <-]; by left|]. destruct (alloc_cap_bytes j <? _); [intros [= <- <-]; by left|].
  set (j1 := make_room _ j size). destruct (over j1 size); [intros [= <- <-] Hr; left; by eapply make_room_sub|].
  destruct (_ <? _); [intros [= <- <-] Hr; left; by eapply make_room_sub|]. intros [= <- <-]. cbn [push_back records].
  intros [Hr|Hr]%elem_of_app; [left; by eapply make_room_sub|]. right. apply list_elem_of_singleton in Hr as ->. done.
Qed.

(** A sequence of frames: sender, time and bytes. *)
Fixpoint serve (j : Journal) (lim : list SenderWindow) (fs : list (Z * Z * bytes)) : Journal * list SenderWindow :=
  match fs with
  | [] => (j, lim)
  | (sender, now, f) :: fs =>
      let '(j, lim, _) := handle_frame_with_limiter j lim sender now f in serve j lim fs
  end.

Lemma handle_origin j lim sender now f j' lim' reply r :
  handle_frame_with_limiter j lim sender now f = (j', lim', reply) → r ∈ j'.(records) →
  r ∈ j.(records) ∨
  ∃ nonce lvl sc msg flds,
    decode_request f = Ok (Append nonce lvl sc msg flds) ∧ has_payload_identity_claim flds = false ∧
    r.(service_id) = sender ∧ r.(timestamp_nsec) = now ∧ r.(level) = lvl ∧ r.(scope) = take STORE_MAX_SCOPE_LEN sc ∧
    r.(message) = take STORE_MAX_MSG_LEN msg ∧ r.(lr_fields) = take STORE_MAX_FIELDS_LEN flds.
Proof.
  unfold handle_frame_with_limiter. destruct (decode_request f) as [[nonce lvl sc msg flds|nonce since m|nonce]|e];
    try (intros [= <- <- <-]; by left).
  destruct (has_payload_identity_claim flds) eqn:Eh; [intros [= <- <- <-]; by left|].
  destruct (is_rate_limited lim sender now) as [lim1 limited]. destruct limited; [intros [= <- <- <-]; by left|].
  destruct (append j sender now lvl sc msg flds) as [j1 o] eqn:Ea. intros Hres Hr.
  assert (j' = j1) as -> by (destruct o as [[]|]; by injection Hres).
  destruct (append_sub _ _ _ _ _ _ _ _ _ _ Ea Hr) as [|Hn]; [by left|]. right. by exists nonce, lvl, sc, msg, flds.
Qed.

(** C34: the journal does not lie about authors.  Every record stored after any
    sequence of frames stems from an append frame of the sequence: its service
    id is the sender id the kernel gave with that frame and its time the time
    of arrival, its texts are those of the frame up to the stored lengths, and
    that frame did not claim another identity in its fields. *)
Theorem logd_authorship a b c fs j lim r :
  serve (new_with_alloc_cap a b c) [] fs = (j, lim) → r ∈ j.(records) →
  ∃ sender now f nonce lvl sc msg flds,
    (sender, now, f) ∈ fs ∧ decode_request f = Ok (Append nonce lvl sc msg flds) ∧
    has_payload_identity_claim flds = false ∧ r.(service_id) = sender ∧ r.(timestamp_nsec) = now ∧ r.(level) = lvl ∧
    r.(scope) = take STORE_MAX_SCOPE_LEN sc ∧ r.(message) = take STORE_MAX_MSG_LEN msg ∧
    r.(lr_fields) = take STORE_MAX_FIELDS_LEN flds.
Proof.
  assert (Hgen : ∀ j0 lim0, serve j0 lim0 fs = (j, lim) → r ∈ j.(records) → r ∈ j0.(records) ∨
    ∃ sender now f nonce lvl sc msg flds,
      (sender, now, f) ∈ fs ∧ decode_request f = Ok (Append nonce lvl sc msg flds) ∧
      has_payload_identity_claim flds = false ∧ r.(service_id) = sender ∧ r.(timestamp_nsec) = now ∧ r.(level) = lvl ∧
      r.(scope) = take STORE_MAX_SCOPE_LEN sc ∧ r.(message) = take STORE_MAX_MSG_LEN msg ∧
      r.(lr_fields) = take STORE_MAX_FIELDS_LEN flds).
  { induction fs as [|[[sender now] f] fs' IH]; intros j0 lim0; cbn [serve]; [intros [= <- <-]; by left|].
    destruct (handle_frame_with_limiter j0 lim0 sender now f) as [[j1 lim1] reply] eqn:Eh. intros Hs Hr.
    destruct (IH j1 lim1 Hs Hr) as [Hin|(s' & n' & f' & nc & l & sc & m & fl & Hin & Hrest)].
    - destruct (handle_origin _ _ _ _ _ _ _ _ _ Eh Hin) as [|(nc & l & sc & m & fl & Hrest)]; [by left|]. right.
      exists sender, now, f, nc, l, sc, m, fl. split; [by apply list_elem_of_here|done].
    - right. exists s', n', f', nc, l, sc, m, fl. split; [by apply list_elem_of_further|done]. }
  intros Hs Hr. destruct (Hgen _ _ Hs Hr) as [Hin|Hx]; [|done]. cbn in Hin. by apply elem_of_nil in Hin.
Qed.

(** ** Bounded answers *)

Lemma fit_records_bound rs : ∀ count max_count idx,
  0 ≤ count ≤ max_count → max_count < 2 ^ 16 → idx ≤ QUERY_BOUNDED_CAP →
  let out := fit_records rs count max_count idx in
  idx + vlen (concat (map encode_record out)) ≤ QUERY_BOUNDED_CAP ∧ out `sublist_of` rs ∧
  count + vlen out ≤ max_count.
Proof.
  assert (Hn : ∀ A, vlen (@nil A) = 0) by done.
  induction rs as [|r rs IH]; intros count max_count idx Hc Hm Hi; cbn [fit_records]; cbn zeta.
  { cbn [map concat]. rewrite !Hn. split_and!; [lia|done|lia]. }
  case (Z.leb_spec max_count count) as [Hge|Hlt].
  { cbn [map concat]. rewrite !Hn. split_and!; [lia|apply sublist_nil_l|lia]. }
  case (Z.ltb_spec QUERY_BOUNDED_CAP (idx + vlen (encode_record r))) as [Hf|Hf].
  { destruct (IH count max_count idx Hc Hm Hi) as (H1 & H2 & H3). split_and!; [done|by apply sublist_cons|done]. }
  assert (Hcons : ∀ l, vlen (r :: l) = vlen l + 1) by (intros; unfold vlen; cbn [List.length]; lia).
  assert (Hs : saturating_add 16 count 1 = count + 1) by (unfold saturating_add, max_of; lia). rewrite Hs.
  cbn [map concat]. rewrite vlen_app, Hcons. case (Z.eqb_spec (count + 1) 65535) as [He|He].
  - cbn [map concat]. rewrite !Hn. split_and!; [lia|apply sublist_skip, sublist_nil_l|lia].
  - destruct (IH (count + 1) max_count (idx + vlen (encode_record r))) as (H1 & H2 & H3); [lia..|].
    split_and!; [lia|by apply sublist_skip|lia].
Qed.

Lemma iter_since_sub j since : iter_since j since `sublist_of` j.(records).
Proof.
  unfold iter_since. induction j.(records) as [|r rs IH]; cbn [List.filter]; [done|].
  case_match; [by apply sublist_skip|by apply sublist_cons].
Qed.

Lemma decode_query_count f nonce since max_count :
  Forall is_byte f → decode_request f = Ok (Query nonce since max_count) → 0 ≤ max_count < 2 ^ 16.
Proof.
  assert (Hop : ∀ op nonce' b, Forall is_byte b → decode_op op nonce' b = Ok (Query nonce since max_count) →
    0 ≤ max_count < 2 ^ 16).
  { intros op nonce' b Hb. unfold decode_op, decode_append, decode_query, decode_stats. cbv zeta.
    destruct (decode_level _); cbn; repeat case_match; try done; intros [= _ _ Hm].
    all: rewrite <- Hm; 
      pose proof (le_value_bound (take 2 (drop 8 b)) ltac:(by apply Forall_take, Forall_drop)) as Hv; unfold in_width in Hv;
      pose proof (Z.pow_le_mono_r 2 (8 * Z.of_nat (length (take 2 (drop 8 b)))) 16 ltac:(lia)
                    ltac:(rewrite length_take; lia)); lia. }
  intros Hb. unfold decode_request. repeat case_match; try done; simplify_eq; apply Hop;
    try apply Forall_drop; by repeat (apply Forall_cons in Hb as [_ Hb]).
Qed.

(** The answer to a query fits the response buffer of 512 bytes whatever the
    journal holds: it is the head with the journal's counters, the number of
    records and those records, which are at most the number asked for, in the
    order of the journal, all with a time not before the one asked for. *)
Theorem logd_query_bounded j lim sender now f nonce since max_count :
  Forall is_byte f → decode_request f = Ok (Query nonce since max_count) →
  ∃ rs, handle_frame_with_limiter j lim sender now f =
    (j, lim, response_head OP_QUERY STATUS_OK nonce ++ le_bytes 8 (stats j).(s_total) ++
             le_bytes 8 (stats j).(s_dropped) ++ le_bytes 2 (vlen rs) ++ concat (map encode_record rs)) ∧
    vlen (handle_frame_with_limiter j lim sender now f).2 ≤ QUERY_BOUNDED_CAP ∧
    rs `sublist_of` j.(records) ∧ Forall (fun r => since ≤ r.(timestamp_nsec)) rs ∧ vlen rs ≤ max_count.
Proof.
  intros Hb Hd. pose proof (decode_query_count _ _ _ _ Hb Hd) as Hm.
  unfold handle_frame_with_limiter. rewrite Hd. unfold encode_query_response_bounded_iter. cbv zeta.
  set (head := response_head _ _ _ ++ _).
  assert (Hh : vlen head ≤ 29).
  { unfold head, response_head. rewrite !vlen_app, !vlen_le_bytes. change (vlen [_; _; _; _; _]) with 5.
    destruct nonce; cbn [from_option]; rewrite ?vlen_le_bytes; [lia|change (vlen (@nil Z)) with 0; lia]. }
  set (rs := fit_records _ _ _ _).
  destruct (fit_records_bound (iter_since j since) 0 max_count (vlen head + 2)) as (Hl & Hsub & Hc);
    [lia|lia|unfold QUERY_BOUNDED_CAP; lia|]. fold rs in Hl, Hsub, Hc.
  exists rs. split; [unfold head; by rewrite <- !app_assoc|]. split_and!.
  - cbn [snd]. rewrite !vlen_app, vlen_le_bytes. lia.
  - etrans; [exact Hsub|]. apply iter_since_sub.
  - apply Forall_forall. intros r Hr. apply (sublist_subseteq _ _ Hsub) in Hr.
    apply list_elem_of_In, filter_In in Hr as [_ Hr]. by apply Z.leb_le.
  - lia.
Qed.

(** ** The statements at concrete inputs *)

Definition demo_call (c : Z) : Call :=
  {| c_sid := 7; c_ts := c; c_lvl := Info; c_scope := [115]; c_msg := [c]; c_fields := [] |}.

Definition demo_calls : list Call := map demo_call [1; 2; 3].

(** Three records in a journal of two: the first is gone, the others are kept. *)
Lemma logd_journal_tail_witness :
  map message (append_all (new_with_alloc_cap 2 200 1000) demo_calls).1.(records) = [[2]; [3]] ∧
  (append_all (new_with_alloc_cap 2 200 1000) demo_calls).1.(records) =
    drop 1 (accepted 1 demo_calls (append_all (new_with_alloc_cap 2 200 1000) demo_calls).2).
Proof.
  split; [vm_compute; reflexivity|].
  destruct (append_all (new_with_alloc_cap 2 200 1000) demo_calls) as [j rs] eqn:E.
  assert (Hd : j.(dropped_records) = 1) by (apply (f_equal fst) in E; vm_compute in E; by rewrite <- E).
  destruct (logd_journal_tail 2 200 1000 demo_calls j rs 0 10 ltac:(lia) ltac:(lia) ltac:(lia) ltac:(vm_compute; reflexivity) E)
    as (Hr & _). by rewrite Hd in Hr.
Defined.

(** A budget of 150 bytes admits two small records and nothing afterwards. *)
Lemma logd_budget_final_witness :
  (append_all (append_all (new_with_alloc_cap 2 200 150) demo_calls).1 [demo_call 4; demo_call 5]).1 =
  (append_all (new_with_alloc_cap 2 200 150) demo_calls).1.
Proof.
  destruct (append_all (new_with_alloc_cap 2 200 150) demo_calls) as [j rs] eqn:E. cbn [fst].
  destruct (append_all j [demo_call 4; demo_call 5]) as [j' rs'] eqn:E'. cbn [fst].
  assert (Hj : j = (append_all (new_with_alloc_cap 2 200 150) demo_calls).1) by (by rewrite E).
  apply (logd_budget_final 2 200 150 demo_calls j rs [demo_call 4; demo_call 5] j' rs'); try lia; try done.
  - rewrite Hj. vm_compute. reflexivity.
  - rewrite Hj. vm_compute. reflexivity.
Defined.

(** Sixty attempts at one time: twenty-four are admitted. *)
Lemma logd_rate_bound_witness :
  admitted 7 (repeat (7, 5) 60) (limit_all [] (repeat (7, 5) 60)).2 = 24 ∧
  admitted 7 (repeat (7, 5) 60) (limit_all [] (repeat (7, 5) 60)).2 ≤ 48.
Proof.
  split; [vm_compute; reflexivity|].
  destruct (limit_all [] (repeat (7, 5) 60)) as [lim bs] eqn:E. cbn [snd].
  apply (logd_rate_bound [] [] [] 0 (repeat (7, 5) 60) lim bs 7); [done| |done].
  apply Forall_forall. intros c Hc. apply list_elem_of_In, repeat_spec in Hc as ->. unfold RATE_WINDOW_NS. cbn. lia.
Defined.

(** An append of level info with the scope s and the message m, version 1. *)
Definition demo_append : bytes := [76; 79; 1; 1; 2; 1; 1; 0; 0; 0; 115; 109].

Lemma logd_authorship_witness :
  Forall (fun r => r.(service_id) = 9) (serve (new_with_alloc_cap 4 400 1000) [] [(9, 77, demo_append)]).1.(records) ∧
  length (serve (new_with_alloc_cap 4 400 1000) [] [(9, 77, demo_append)]).1.(records) = 1%nat.
Proof.
  split; [|vm_compute; reflexivity]. apply Forall_forall. intros r Hr.
  destruct (serve (new_with_alloc_cap 4 400 1000) [] [(9, 77, demo_append)]) as [j lim] eqn:E.
  destruct (logd_authorship 4 400 1000 [(9, 77, demo_append)] j lim r E Hr)
    as (sender & now & f & nonce & lvl & sc & msg & flds & Hin & _ & _ & Hs & _).
  apply list_elem_of_singleton in Hin. by simplify_eq.
Defined.

(** A version 2 query for at most five records from time zero. *)
Definition demo_query : bytes := [76; 79; 2; 2] ++ le_bytes 8 99 ++ le_bytes 8 0 ++ le_bytes 2 5.

Lemma logd_query_bounded_witness :
  vlen (handle_frame_with_limiter (append_all (new_with_alloc_cap 2 200 1000) demo_calls).1 [] 9 0 demo_query).2 ≤ 512.
Proof.
  destruct (logd_query_bounded (append_all (new_with_alloc_cap 2 200 1000) demo_calls).1 [] 9 0 demo_query (Some 99) 0 5)
    as (rs & _ & Hl & _); [vm_compute; repeat constructor; done|vm_compute; reflexivity|done].
Defined.
