(* ===== verification/VfsTypes.v ===== *)
(** The storage wire types ([userspace/vfs-types/src]): the error codes every
    provider shares ([error.rs]), the bounded directory-listing codec
    ([wire.rs]), the file-operation requests ([fileops.rs]) and the header of
    the zero-copy read path ([splice.rs]), with the round trips that keep the
    three ends (client, vfsd, provider) in agreement. *)

From S2P Require Import Prelude Bytes Storage NxfsFormat NxfsJournal NxfsJournalProps NxfsState Nxfs.

(** ** [error.rs] *)

Module Vfs.

Inductive VfsError :=
| NotFound
| Access
| ReadOnlyFs
| NotDir
| IsDir
| Exists
| NoSpace
| TooBig
| Integrity
| Busy
| Invalid
| Unsupported
| Io.

Definition CODE_OK : Z := 0.

Definition code (e : VfsError) : Z :=
  match e with
  | NotFound => 1
  | Access => 2
  | ReadOnlyFs => 3
  | NotDir => 4
  | IsDir => 5
  | Exists => 6
  | NoSpace => 7
  | TooBig => 8
  | Integrity => 9
  | Busy => 10
  | Invalid => 11
  | Unsupported => 12
  | Io => 13
  end.

Definition from_code (c : Z) : option VfsError :=
  if c =? CODE_OK then None
  else Some (match c with
    | 1 => NotFound
    | 2 => Access
    | 3 => ReadOnlyFs
    | 4 => NotDir
    | 5 => IsDir
    | 6 => Exists
    | 7 => NoSpace
    | 8 => TooBig
    | 9 => Integrity
    | 10 => Busy
    | 11 => Invalid
    | 12 => Unsupported
    | _ => Io
    end).

End Vfs.

#[export] Instance VfsError_eq_dec : EqDecision Vfs.VfsError.
Proof. solve_decision. Defined.

(** [NxfsError::to_vfs] ([userspace/nxfs/src/lib.rs]). *)
Definition to_vfs (e : NxfsError) : Vfs.VfsError :=
  match e with
  | NotFound => Vfs.NotFound
  | NotDir => Vfs.NotDir
  | IsDir => Vfs.IsDir
  | Exists => Vfs.Exists
  | NoSpace => Vfs.NoSpace
  | TooBig => Vfs.TooBig
  | Integrity => Vfs.Integrity
  | Busy => Vfs.Busy
  | Invalid => Vfs.Invalid
  | Io => Vfs.Io
  | Unsupported => Vfs.Unsupported
  end.

(** ** [entry.rs] *)

Definition ENTRY_MAX_NAME_LEN : Z := 255.
Definition MAX_PATH_LEN : Z := 1024.

(** [kind as u8] and its decoder. *)
Definition kind_wire (k : FileKind) : Z :=
  match k with File => 0 | Dir => 1 end.

Definition from_wire (value : Z) : option FileKind :=
  match value with
  | 0 => Some File
  | 1 => Some Dir
  | _ => None
  end.

(** ** [wire.rs] *)

Definition MAX_READDIR_RESPONSE_BYTES : Z := 7 * 1024.
Definition REQ_HEADER : nat := 6.
Definition RSP_HEADER : Z := 9.
Definition ENTRY_FIXED : Z := 10.

Record ReadDirRequest := {
  rq_cursor : Z;
  rq_limit : Z;
  rq_path : bytes
}.

Definition path_bounds (path : bytes) : bool :=
  negb (bool_decide (path = [])) && (vlen path <=? MAX_PATH_LEN).

Definition encode_readdir_request (path : bytes) (cursor limit : Z) : result bytes Vfs.VfsError :=
  if path_bounds path then Ok (le_bytes 4 cursor ++ le_bytes 2 limit ++ path)
  else Err Vfs.Invalid.

Definition decode_readdir_request (payload : bytes) : result ReadDirRequest Vfs.VfsError :=
  if (length payload <? REQ_HEADER + 1)%nat then Err Vfs.Invalid
  else
    let path_bytes := drop REQ_HEADER payload in
    if MAX_PATH_LEN <? vlen path_bytes then Err Vfs.Invalid
    else
      let? path := ok_or (from_utf8 path_bytes) Vfs.Invalid in
      Ok {| rq_cursor := le_value (slice 0 4 payload); rq_limit := le_value (slice 4 6 payload);
            rq_path := path |}.

(** The nine-byte header of a response. *)
Definition encode_header (status next_cursor : Z) (eof : bool) (count : Z) : bytes :=
  le_bytes 2 status ++ le_bytes 4 next_cursor ++ [Z.b2z eof] ++ le_bytes 2 count.

Definition encode_readdir_error (err : Vfs.VfsError) : bytes :=
  encode_header (Vfs.code err) 0 true 0.

Definition encode_entry (e : DirEntry) : bytes :=
  [kind_wire e.(de_kind)] ++ le_bytes 8 e.(de_size) ++ [vlen e.(de_name)] ++ e.(de_name).

(** The loop over the entries of a page: it stops in front of the first entry
    the byte budget has no room for; [used] is the length of the payload so
    far.  Returns the encoded entries and how many there are. *)
Fixpoint encode_entries (used : Z) (es : list DirEntry) : result (bytes * nat) Vfs.VfsError :=
  match es with
  | [] => Ok ([], 0%nat)
  | e :: es' =>
      let name := e.(de_name) in
      if bool_decide (name = []) || (ENTRY_MAX_NAME_LEN <? vlen name) then Err Vfs.Invalid
      else if MAX_READDIR_RESPONSE_BYTES <? used + ENTRY_FIXED + vlen name then Ok ([], 0%nat)
      else
        let? r := encode_entries (used + ENTRY_FIXED + vlen name) es' in
        Ok (encode_entry e ++ r.1, S r.2)
  end.

Definition clamp_page (limit : Z) : nat := Z.to_nat (Z.min (Z.max limit 1) MAX_ENTRIES_PER_PAGE).

Definition encode_readdir_response (es : list DirEntry) (start : nat) (limit : Z)
    (total_is_end : bool) : result (bytes * nat) Vfs.VfsError :=
  let? r := encode_entries RSP_HEADER (take (clamp_page limit) (drop start es)) in
  let '(body, included) := r in
  let next := Z.of_nat (start + included) mod 2 ^ 32 in
  let last := total_is_end && (length es <=? start + included)%nat in
  Ok (encode_header Vfs.CODE_OK next last (Z.of_nat included) ++ body, included).

Definition encode_readdir_page (page : ReadDirPage) : result bytes Vfs.VfsError :=
  let? r := encode_entries RSP_HEADER (take (Z.to_nat MAX_ENTRIES_PER_PAGE) page.(entries)) in
  let '(body, included) := r in
  let full := (included =? length page.(entries))%nat in
  Ok (encode_header Vfs.CODE_OK page.(next_cursor) (page.(eof) && full) (Z.of_nat included) ++ body).

(** The loop of the decoder over the bytes behind the header. *)
Fixpoint decode_entries (n : nat) (l : bytes) : option (list DirEntry * bytes) :=
  match n with
  | O => Some ([], l)
  | S n' =>
      match take_le 1 l with None => None | Some (k, l) =>
      match take_le 8 l with None => None | Some (sz, l) =>
      match take_le 1 l with None => None | Some (name_len, l) =>
      match from_wire k with None => None | Some kd =>
      if name_len =? 0 then None
      else match take_bytes (Z.to_nat name_len) l with None => None | Some (b, l) =>
      match from_utf8 b with None => None | Some name =>
      match decode_entries n' l with None => None | Some (es, rest) =>
        Some ({| de_name := name; de_kind := kd; de_size := sz |} :: es, rest)
      end end end end end end end
  end.

Definition decode_flag (b : Z) : option bool :=
  match b with
  | 0 => Some false
  | 1 => Some true
  | _ => None
  end.

Definition decode_readdir_response (payload : bytes) : result ReadDirPage Vfs.VfsError :=
  if (vlen payload <? RSP_HEADER) then Err Vfs.Io
  else
    match Vfs.from_code (le_value (slice 0 2 payload)) with
    | Some err => Err err
    | None =>
        let? e := ok_or (decode_flag (default 0 (payload !! 6%nat))) Vfs.Io in
        let count := le_value (slice 7 9 payload) in
        if MAX_ENTRIES_PER_PAGE <? count then Err Vfs.Io
        else match decode_entries (Z.to_nat count) (drop 9 payload) with
             | Some (es, []) =>
                 Ok {| entries := es; next_cursor := le_value (slice 2 6 payload); eof := e |}
             | _ => Err Vfs.Io
             end
    end.

(** ** [fileops.rs] *)

Module Fileops.

Definition OP_OPEN : Z := 1.
Definition OP_READ : Z := 2.
Definition OP_CLOSE : Z := 3.
Definition OP_STAT : Z := 4.
Definition OP_MOUNT : Z := 5.
Definition OP_READDIR : Z := 6.
Definition OP_MKDIR : Z := 8.
Definition OP_CREATE : Z := 9.
Definition OP_WRITE_TEXT : Z := 10.
Definition OP_REMOVE : Z := 11.
Definition OP_RENAME : Z := 12.
Definition OP_COPY : Z := 13.
Definition MAX_INLINE_TEXT : Z := 4096.

Definition encode_path_request (path : bytes) : option bytes :=
  if path_bounds path then Some path else None.

Definition decode_path_request (payload : bytes) : option bytes :=
  if path_bounds payload then from_utf8 payload else None.

Definition encode_write_text (path text : bytes) : option bytes :=
  if path_bounds path && (vlen text <=? MAX_INLINE_TEXT)
  then Some (le_bytes 2 (vlen path) ++ path ++ text) else None.

(** The length-prefixed string at the head of a payload and what follows it. *)
Definition split_prefixed (payload : bytes) : option (bytes * bytes) :=
  match take_le 2 payload with
  | None => None
  | Some (len, rest) =>
      if (len =? 0) || (MAX_PATH_LEN <? len) || (vlen rest <? len) then None
      else
        match from_utf8 (take (Z.to_nat len) rest), from_utf8 (drop (Z.to_nat len) rest) with
        | Some a, Some b => Some (a, b)
        | _, _ => None
        end
  end.

Definition decode_write_text (payload : bytes) : option (bytes * bytes) :=
  match split_prefixed payload with
  | Some (path, text) => if MAX_INLINE_TEXT <? vlen text then None else Some (path, text)
  | None => None
  end.

Definition encode_rename (from to : bytes) : option bytes :=
  if path_bounds from && path_bounds to then Some (le_bytes 2 (vlen from) ++ from ++ to) else None.

Definition decode_rename (payload : bytes) : option (bytes * bytes) :=
  match split_prefixed payload with
  | Some (from, to) => if path_bounds to then Some (from, to) else None
  | None => None
  end.

Definition encode_status_reply (err : Z) : bytes := le_bytes 2 err.

Definition decode_status_reply (frame : bytes) : option Z :=
  if (length frame =? 2)%nat then Some (le_value frame) else None.

End Fileops.

(** ** [splice.rs] *)

Definition OP_READ_VMO : Z := 7.
Definition INLINE_IO_MAX : Z := 4096.
Definition SPLICE_MAGIC : bytes := [78; 88; 86; 82].
Definition SPLICE_HEADER_LEN : nat := 16.
Definition SPLICE_DATA_OFFSET : nat := SPLICE_HEADER_LEN.

Definition encode_splice_header (status len : Z) : bytes :=
  SPLICE_MAGIC ++ le_bytes 2 status ++ [0; 0] ++ le_bytes 4 len ++ [0; 0; 0; 0].

Definition decode_splice_header (buf : bytes) : option (Z * Z) :=
  if (length buf <? SPLICE_HEADER_LEN)%nat || negb (bool_decide (take 4 buf = SPLICE_MAGIC)) then None
  else Some (le_value (slice 4 6 buf), le_value (slice 8 12 buf)).

Definition splice_fits (payload_len vmo_capacity : Z) : bool :=
  (Z.of_nat SPLICE_DATA_OFFSET <=? vmo_capacity)
  && (payload_len <=? vmo_capacity - Z.of_nat SPLICE_DATA_OFFSET).

Definition encode_read_vmo_request (path : bytes) : option bytes :=
  if path_bounds path then Some path else None.

Definition decode_read_vmo_request (payload : bytes) : option bytes :=
  if path_bounds payload then from_utf8 payload else None.

(** ** The codes *)

Lemma code_roundtrip e : Vfs.from_code (Vfs.code e) = Some e.
Proof. by destruct e. Qed.

Lemma code_width e : 0 < Vfs.code e < 14.
Proof. destruct e; simpl; lia. Qed.

(** ** Directory pages *)

(** An entry a provider may list: a name within the bound and a [u64] size. *)
Definition entry_ok (e : DirEntry) : Prop := name_ok e.(de_name) ∧ in_width 64 e.(de_size).

Definition entry_bytes (e : DirEntry) : Z := ENTRY_FIXED + vlen e.(de_name).

(** The length of the payload that carries all entries. *)
Definition page_bytes (es : list DirEntry) : Z := RSP_HEADER + zsum entry_bytes es.

Lemma entry_ok_len e : entry_ok e → 1 ≤ vlen e.(de_name) ≤ 255 ∧ de_name e ≠ [].
Proof.
  intros [(_ & _ & Hl) _]. unfold MAX_NAME_LEN in Hl. split; [done|]. intros E. rewrite E in Hl.
  unfold vlen in Hl. simpl in Hl. lia.
Qed.

Lemma dir_entry_length e : vlen (encode_entry e) = entry_bytes e.
Proof. unfold encode_entry, entry_bytes, ENTRY_FIXED. rewrite !vlen_app, vlen_le_bytes. unfold vlen. simpl. lia. Qed.

Lemma decode_entry e n rest :
  entry_ok e →
  decode_entries (S n) (encode_entry e ++ rest) =
    match decode_entries n rest with
    | Some (es, r) => Some (e :: es, r)
    | None => None
    end.
Proof.
  intros He. pose proof (entry_ok_len e He) as [Hl Hne]. destruct He as [(Hu & _ & _) Hs].
  assert (H1 : ∀ x r, 0 ≤ x < 256 → take_le 1 ([x] ++ r) = Some (x, r)).
  { intros x r Hx. unfold take_le, take_bytes. simpl. f_equal. f_equal. lia. }
  unfold encode_entry. rewrite <- !app_assoc. cbn [decode_entries].
  rewrite H1 by (destruct e as [? []]; simpl; lia). rewrite take_le_app by (simpl; exact Hs).
  rewrite H1 by lia. replace (from_wire (kind_wire (de_kind e))) with (Some (de_kind e)) by (by destruct e as [? []]).
  destruct (Z.eqb_spec (vlen (de_name e)) 0); [lia|].
  rewrite take_bytes_app by (unfold vlen; lia). unfold from_utf8. rewrite Hu.
  destruct (decode_entries n rest) as [[es r]|]; [|done]. by destruct e.
Qed.

(** What the encoding loop does: it takes a prefix of the entries, all of them
    when they fit, stays within the budget, and the decoder reads that prefix
    back. *)
Lemma encode_entries_spec es : ∀ used,
  Forall entry_ok es → used ≤ MAX_READDIR_RESPONSE_BYTES →
  ∃ body n, encode_entries used es = Ok (body, n) ∧ (n ≤ length es)%nat ∧
    used + vlen body ≤ MAX_READDIR_RESPONSE_BYTES ∧
    (used + zsum entry_bytes es ≤ MAX_READDIR_RESPONSE_BYTES → n = length es) ∧
    ∀ rest, decode_entries n (body ++ rest) = Some (take n es, rest).
Proof.
  induction es as [|e es IH]; intros used Hok Hu.
  { exists [], 0%nat. cbn [encode_entries]. split_and!; [done|done| |done|done]. unfold vlen. simpl. lia. }
  inversion_clear Hok as [|? ? He Hes]. pose proof (entry_ok_len e He) as [Hl Hne].
  cbn [encode_entries]. rewrite (bool_decide_eq_false_2 _ Hne). unfold ENTRY_MAX_NAME_LEN.
  destruct (Z.ltb_spec 255 (vlen (de_name e))); [lia|]. cbn [orb].
  rewrite zsum_cons. unfold entry_bytes at 1.
  assert (Hz : 0 ≤ zsum entry_bytes es).
  { apply zsum_nonneg. intros x _. unfold entry_bytes, ENTRY_FIXED, vlen. lia. }
  destruct (Z.ltb_spec MAX_READDIR_RESPONSE_BYTES (used + ENTRY_FIXED + vlen (de_name e))) as [Hbig|Hfit].
  - exists [], 0%nat. split_and!; [done|lia| |lia|done]. unfold vlen. simpl. lia.
  - destruct (IH (used + ENTRY_FIXED + vlen (de_name e)) Hes Hfit) as (body & n & -> & Hn & Hb & Hall & Hd).
    cbn [result_bind fst snd]. exists (encode_entry e ++ body), (S n). split_and!; [done|simpl; lia| | |].
    + rewrite vlen_app, dir_entry_length. unfold entry_bytes. lia.
    + intros. simpl. f_equal. apply Hall. lia.
    + intros rest. rewrite <- app_assoc, decode_entry by done. by rewrite Hd.
Qed.

Lemma encode_header_length s c e n : vlen (encode_header s c e n) = RSP_HEADER.
Proof. unfold encode_header. by rewrite !vlen_app, !vlen_le_bytes. Qed.

(** The decoder on an encoded header and entries. *)
Lemma decode_page es body c e n :
  in_width 32 c → (n ≤ 64)%nat → decode_entries n body = Some (es, []) →
  decode_readdir_response (encode_header Vfs.CODE_OK c e (Z.of_nat n) ++ body) =
    Ok {| entries := es; next_cursor := c; eof := e |}.
Proof.
  intros Hc Hn Hd. unfold decode_readdir_response.
  rewrite vlen_app, encode_header_length.
  destruct (Z.ltb_spec (RSP_HEADER + vlen body) RSP_HEADER); [pose proof (vlen_nonneg body); lia|].
  assert (Hw : in_width 16 (Z.of_nat n)) by (unfold in_width; lia).
  unfold encode_header. rewrite <- !app_assoc.
  rewrite (slice_start (le_bytes 2 Vfs.CODE_OK)) by apply le_bytes_length.
  rewrite le_value_bytes by (unfold in_width, Vfs.CODE_OK; simpl; lia). cbn [Vfs.from_code].
  set (h := le_bytes 2 Vfs.CODE_OK). set (q := le_bytes 4 c). set (m := le_bytes 2 (Z.of_nat n)).
  assert (Hh : length h = 2%nat) by apply le_bytes_length.
  assert (Hq : length q = 4%nat) by apply le_bytes_length.
  assert (Hm : length m = 2%nat) by apply le_bytes_length.
  replace ((h ++ q ++ [Z.b2z e] ++ m ++ body) !! 6%nat) with (Some (Z.b2z e)).
  2:{ rewrite app_assoc, lookup_app_r by (rewrite length_app; lia).
      rewrite length_app, Hh, Hq. done. }
  replace (slice 2 6 (h ++ q ++ [Z.b2z e] ++ m ++ body)) with q
    by (symmetry; apply slice_at; lia).
  replace (slice 7 9 (h ++ q ++ [Z.b2z e] ++ m ++ body)) with m.
  2:{ rewrite (app_assoc q), (app_assoc h). symmetry. apply slice_at; rewrite ?length_app; simpl; lia. }
  replace (drop 9 (h ++ q ++ [Z.b2z e] ++ m ++ body)) with body.
  2:{ rewrite (app_assoc [_] m), (app_assoc q), (app_assoc h), drop_app_length'; [done|].
      rewrite !length_app; simpl; lia. }
  change (default 0 (Some (Z.b2z e))) with (Z.b2z e).
  replace (decode_flag (Z.b2z e)) with (Some e) by (by destruct e). cbn [ok_or result_bind].
  unfold m, q. rewrite !le_value_bytes by done. unfold MAX_ENTRIES_PER_PAGE.
  destruct (Z.ltb_spec 64 (Z.of_nat n)); [lia|]. rewrite Nat2Z.id. by rewrite Hd.
Qed.

Lemma encode_page_spec page :
  Forall entry_ok page.(entries) → (length page.(entries) ≤ 64)%nat → in_width 32 page.(next_cursor) →
  ∃ payload n, encode_readdir_page page = Ok payload ∧ vlen payload ≤ MAX_READDIR_RESPONSE_BYTES ∧
    (n ≤ length page.(entries))%nat ∧
    (page_bytes page.(entries) ≤ MAX_READDIR_RESPONSE_BYTES → n = length page.(entries)) ∧
    decode_readdir_response payload =
      Ok {| entries := take n page.(entries); next_cursor := page.(next_cursor);
            eof := page.(eof) && (n =? length page.(entries))%nat |}.
Proof.
  intros Hok Hl Hc. unfold encode_readdir_page. rewrite take_ge by (unfold MAX_ENTRIES_PER_PAGE; lia).
  destruct (encode_entries_spec (entries page) RSP_HEADER Hok ltac:(done))
    as (body & n & -> & Hn & Hb & Hall & Hd).
  cbn [result_bind]. eexists _, n. split_and!; [done| |done| |].
  - by rewrite vlen_app, encode_header_length.
  - intros Hp. apply Hall. unfold page_bytes in Hp. lia.
  - apply decode_page; [done|lia|]. specialize (Hd []). by rewrite app_nil_r in Hd.
Qed.

Lemma decode_request_encode path cursor limit :
  utf8_valid path = true → path_bounds path = true → in_width 32 cursor → in_width 16 limit →
  decode_readdir_request (le_bytes 4 cursor ++ le_bytes 2 limit ++ path) =
    Ok {| rq_cursor := cursor; rq_limit := limit; rq_path := path |}.
Proof.
  intros Hu Hp Hcu Hli. unfold path_bounds in Hp. simpl_bool.
  destruct path as [|b path]; [done|]. set (p := b :: path) in *.
  unfold decode_readdir_request. rewrite !length_app, !le_bytes_length.
  destruct (Nat.ltb_spec (4 + (2 + length p)) (REQ_HEADER + 1)); [unfold REQ_HEADER, p in *; simpl in *; lia|].
  rewrite (app_assoc (le_bytes 4 cursor)), drop_app_length' by (by rewrite length_app, !le_bytes_length).
  destruct (Z.ltb_spec MAX_PATH_LEN (vlen p)); [lia|]. unfold from_utf8. rewrite Hu. cbn [ok_or result_bind].
  rewrite <- app_assoc, slice_start by apply le_bytes_length.
  rewrite slice_at by (by rewrite ?le_bytes_length).
  by rewrite !le_value_bytes.
Qed.

(** A directory page survives the wire.  Every page of at most 64
    well-formed entries is encoded within the 7 KiB budget and decodes to a
    prefix of its entries with the same cursor, marked final only if nothing
    was left out; a page that fits the budget decodes to itself; an error
    response decodes to the same error, and a listing request within its bounds
    to the same request. *)
Theorem vfs_readdir_roundtrip page path cursor limit :
  Forall entry_ok page.(entries) → (length page.(entries) ≤ 64)%nat → in_width 32 page.(next_cursor) →
  utf8_valid path = true → path_bounds path = true → in_width 32 cursor → in_width 16 limit →
  (∃ payload n, encode_readdir_page page = Ok payload ∧ vlen payload ≤ MAX_READDIR_RESPONSE_BYTES ∧
     decode_readdir_response payload =
       Ok {| entries := take n page.(entries); next_cursor := page.(next_cursor);
             eof := page.(eof) && (n =? length page.(entries))%nat |} ∧
     (page_bytes page.(entries) ≤ MAX_READDIR_RESPONSE_BYTES →
      decode_readdir_response payload = Ok page)) ∧
  (∀ err, decode_readdir_response (encode_readdir_error err) = Err err) ∧
  (let? payload := encode_readdir_request path cursor limit in decode_readdir_request payload) =
    Ok {| rq_cursor := cursor; rq_limit := limit; rq_path := path |}.
Proof.
  intros Hok Hl Hc Hu Hp Hcu Hli. split_and!.
  - destruct (encode_page_spec page Hok Hl Hc) as (payload & n & He & Hv & Hn & Hall & Hd).
    exists payload, n. split_and!; try done. intros Hfit. rewrite Hd, (Hall Hfit), take_ge, Nat.eqb_refl by done.
    rewrite andb_true_r. by destruct page.
  - intros []; reflexivity.
  - unfold encode_readdir_request. rewrite Hp. cbn [result_bind]. by apply decode_request_encode.
Qed.

Lemma vfs_readdir_roundtrip_witness :
  let page := {| entries := [{| de_name := [97; 46; 116]; de_kind := File; de_size := 12 |};
                             {| de_name := [98]; de_kind := Dir; de_size := 0 |}];
                 next_cursor := 2; eof := true |} in
  ∃ payload, encode_readdir_page page = Ok payload ∧ decode_readdir_response payload = Ok page.
Proof.
  intros page.
  destruct (vfs_readdir_roundtrip page [47] 0 64) as ((payload & n & He & _ & _ & Hd) & _).
  - repeat constructor; simpl; try lia; try done.
  - simpl. lia.
  - unfold in_width. simpl. lia.
  - done.
  - done.
  - unfold in_width. simpl. lia.
  - unfold in_width. simpl. lia.
  - exists payload. split; [done|]. apply Hd. by vm_compute.
Defined.

(** ** File operations *)

Lemma from_utf8_iff b s : from_utf8 b = Some s ↔ s = b ∧ utf8_valid b = true.
Proof. unfold from_utf8. destruct (utf8_valid b); naive_solver. Qed.

Lemma path_bounds_len p : path_bounds p = true → 0 < vlen p ≤ MAX_PATH_LEN.
Proof. unfold path_bounds. intros. simpl_bool. destruct p; [done|]. unfold vlen in *. simpl length in *. lia. Qed.

Lemma path_bounds_ne p : path_bounds p = true → p ≠ [].
Proof. intros H%path_bounds_len ->. unfold vlen in H. simpl in H. lia. Qed.

Lemma split_prefixed_encode a b :
  utf8_valid a = true → utf8_valid b = true → path_bounds a = true →
  Fileops.split_prefixed (le_bytes 2 (vlen a) ++ a ++ b) = Some (a, b).
Proof.
  intros Ha Hb Hp%path_bounds_len. unfold MAX_PATH_LEN in *. unfold Fileops.split_prefixed.
  rewrite take_le_app by (unfold in_width; simpl; lia).
  destruct (Z.eqb_spec (vlen a) 0); [lia|]. unfold MAX_PATH_LEN.
  destruct (Z.ltb_spec 1024 (vlen a)); [lia|]. rewrite vlen_app.
  destruct (Z.ltb_spec (vlen a + vlen b) (vlen a)); [pose proof (vlen_nonneg b); lia|]. cbn [orb].
  replace (Z.to_nat (vlen a)) with (length a) by (unfold vlen; lia).
  rewrite take_app_length, drop_app_length. unfold from_utf8. by rewrite Ha, Hb.
Qed.

Lemma split_prefixed_sound payload a b :
  Forall is_byte payload → Fileops.split_prefixed payload = Some (a, b) →
  utf8_valid a = true ∧ utf8_valid b = true ∧ path_bounds a = true ∧
  payload = le_bytes 2 (vlen a) ++ a ++ b.
Proof.
  intros Hby. unfold Fileops.split_prefixed. destruct (take_le 2 payload) as [[len rest]|] eqn:E; [|done].
  pose proof (take_le_width _ _ _ _ Hby E) as [Hw _]. apply take_le_Some in E as (lb & -> & Hlb & ->).
  destruct (_ || _) eqn:Ec; [done|]. simpl_bool.
  destruct (from_utf8 (take _ _)) as [x|] eqn:Ea; [|done].
  destruct (from_utf8 (drop _ _)) as [y|] eqn:Eb; [|done]. intros [= -> ->].
  apply from_utf8_iff in Ea as [-> Ha], Eb as [-> Hb]. set (n := Z.to_nat (le_value lb)) in *.
  assert (Hn : (n ≤ length rest)%nat) by (unfold n, vlen in *; lia).
  assert (Hv : vlen (take n rest) = le_value lb) by (destruct Hw; unfold vlen; rewrite length_take_le by done; lia).
  split_and!; [done..| |].
  - unfold path_bounds. rewrite Hv. apply andb_true_iff. split; [|by apply Z.leb_le].
    apply negb_true_iff, bool_decide_eq_false. intros E0. rewrite E0 in Hv. unfold vlen in Hv. simpl in Hv. lia.
  - rewrite Hv, take_drop. f_equal. apply Forall_app in Hby as [Hby _].
    rewrite <- (le_bytes_value lb Hby) at 1. by rewrite Hlb.
Qed.

(** A splice header in front of anything. *)
Lemma splice_header_decode st len tail :
  in_width 16 st → in_width 32 len →
  decode_splice_header (encode_splice_header st len ++ tail) = Some (st, len).
Proof.
  intros Hs Hl. unfold decode_splice_header, encode_splice_header. rewrite <- !app_assoc.
  set (h := le_bytes 2 st). set (q := le_bytes 4 len).
  assert (Hh : length h = 2%nat) by apply le_bytes_length.
  assert (Hq : length q = 4%nat) by apply le_bytes_length.
  destruct (Nat.ltb_spec (length (SPLICE_MAGIC ++ h ++ [0; 0] ++ q ++ [0; 0; 0; 0] ++ tail)) SPLICE_HEADER_LEN)
    as [Hlt|_]; [rewrite !length_app, Hh, Hq in Hlt; unfold SPLICE_MAGIC, SPLICE_HEADER_LEN in Hlt; simpl in Hlt; lia|].
  rewrite take_app_length' by done. rewrite bool_decide_eq_true_2 by done. cbn [orb negb].
  rewrite slice_at by (by rewrite ?Hh).
  rewrite (app_assoc h), (app_assoc SPLICE_MAGIC), slice_at by (rewrite ?length_app, ?Hh, ?Hq; done).
  unfold h, q. by rewrite !le_value_bytes.
Qed.

(** The file-operation requests have one encoding each.  A payload decodes
    to a path, to a path and a text, or to a pair of paths exactly when these
    are within their bounds and valid UTF-8 and the payload is their encoding;
    status replies and splice headers round-trip, and memory that was never
    written is not taken for a splice header. *)
Theorem vfs_requests_codec payload a b :
  Forall is_byte payload →
  (Fileops.decode_path_request payload = Some a ↔
     utf8_valid a = true ∧ Fileops.encode_path_request a = Some payload) ∧
  (Fileops.decode_write_text payload = Some (a, b) ↔
     utf8_valid a = true ∧ utf8_valid b = true ∧ Fileops.encode_write_text a b = Some payload) ∧
  (Fileops.decode_rename payload = Some (a, b) ↔
     utf8_valid a = true ∧ utf8_valid b = true ∧ Fileops.encode_rename a b = Some payload) ∧
  (∀ st, in_width 16 st → Fileops.decode_status_reply (Fileops.encode_status_reply st) = Some st) ∧
  (∀ st len tail, in_width 16 st → in_width 32 len →
     decode_splice_header (encode_splice_header st len ++ tail) = Some (st, len)) ∧
  (∀ n, decode_splice_header (zeros n) = None).
Proof.
  intros Hby. split_and!.
  - unfold Fileops.decode_path_request, Fileops.encode_path_request, from_utf8. split.
    + destruct (path_bounds payload) eqn:Ep; [|done]. destruct (utf8_valid payload) eqn:Eu; [|done].
      intros [= <-]. by rewrite Ep.
    + intros [Hu H]. destruct (path_bounds a) eqn:Ep; [|done]. injection H as <-. by rewrite Ep, Hu.
  - unfold Fileops.decode_write_text, Fileops.encode_write_text. split.
    + destruct (Fileops.split_prefixed payload) as [[x y]|] eqn:E; [|done].
      apply split_prefixed_sound in E as (Hx & Hy & Hp & ->); [|done].
      destruct (Z.ltb_spec Fileops.MAX_INLINE_TEXT (vlen y)); [done|]. intros [= -> ->].
      rewrite Hp. apply Z.leb_le in H. by rewrite H.
    + intros (Ha & Hb & H). destruct (path_bounds a) eqn:Ep; [|done].
      destruct (Z.leb_spec (vlen b) Fileops.MAX_INLINE_TEXT); [|done]. apply (inj Some) in H as <-.
      rewrite split_prefixed_encode by done. destruct (Z.ltb_spec Fileops.MAX_INLINE_TEXT (vlen b)); [lia|done].
  - unfold Fileops.decode_rename, Fileops.encode_rename. split.
    + destruct (Fileops.split_prefixed payload) as [[x y]|] eqn:E; [|done].
      apply split_prefixed_sound in E as (Hx & Hy & Hp & ->); [|done].
      destruct (path_bounds y) eqn:Ey; [|done]. intros [= -> ->]. by rewrite Hp, Ey.
    + intros (Ha & Hb & H). destruct (path_bounds a) eqn:Ep; [|done].
      destruct (path_bounds b) eqn:Eb; [|done]. apply (inj Some) in H as <-.
      rewrite split_prefixed_encode by done. by rewrite Eb.
  - intros st Hs. unfold Fileops.decode_status_reply, Fileops.encode_status_reply.
    rewrite le_bytes_length. cbn [Nat.eqb]. by rewrite le_value_bytes.
  - intros. by apply splice_header_decode.
  - intros n. unfold decode_splice_header. rewrite length_zeros.
    destruct (Nat.ltb_spec n SPLICE_HEADER_LEN) as [_|Hn]; [done|].
    rewrite take_zeros. replace (min 4 n) with 4%nat by (unfold SPLICE_HEADER_LEN in Hn; lia). done.
Qed.

Lemma vfs_requests_codec_witness :
  Fileops.decode_rename [2; 0; 47; 97; 47; 98] = Some ([47; 97], [47; 98]).
Proof.
  apply (vfs_requests_codec [2; 0; 47; 97; 47; 98] [47; 97] [47; 98]).
  - repeat constructor; simpl; lia.
  - split_and!; reflexivity.
Defined.
