(* ===== verification/Nxfsd.v ===== *)
(** The user-data store ([source/services/nxfsd/src/store.rs]): it mounts or
    formats the nxfs container, seeds a fresh one, and answers provider frames.
    The engine is the one of [Nxfs.v], over any block device; the capability
    query and the virtio driver are the argument of [acquire]. *)

From Stdlib Require Import Ascii String.
From S2P Require Import Prelude Bytes Storage NxfsFormat NxfsJournal NxfsJournalProps NxfsState NxfsStateProps NxfsTree NxfsCheckpoint NxfsDev Nxfs NxfsLog NxfsInv NxfsEngine NxfsFiles NxfsRefine NxfsTheorems VfsTypes.

(** The bytes of a string literal. *)
Definition str (s : string) : bytes :=
  map (fun c => Z.of_N (N_of_ascii c)) (list_ascii_of_string s).

Definition CONTAINER_UUID : bytes := str "nexus-data-vol01".
Definition HOME_ROOT : bytes := str "/".
Definition COPY_MAX : Z := 4 * 1024 * 1024.

Definition data_opts : MkfsOptions :=
  {| opt_uuid := CONTAINER_UUID; opt_journal_blocks := 64 |}.

Definition to_nxfs_path (path : bytes) : bytes :=
  if bool_decide (path = []) then HOME_ROOT else path.

Definition decode_path (payload : bytes) : bytes :=
  to_nxfs_path (default [] (from_utf8 payload)).

Definition status_reply (err : Vfs.VfsError) : bytes := Fileops.encode_status_reply (Vfs.code err).

(** [size]-byte content: a type prefix padded with dots. *)
Definition padded_content (magic : bytes) (size : nat) : bytes :=
  magic ++ replicate (size - length magic) 46.

Definition seed_dirs : list bytes :=
  [str "/Bilder"; str "/Videos"; str "/Audio"; str "/Dokumente"; str "/Downloads"; str "/Papierkorb"].

Definition JPEG : bytes := [0xff; 0xd8; 0xff; 0xe0].

Definition seed_files : list (bytes * bytes * nat) :=
  [(str "/Bilder/IMG_4521.jpg", JPEG, 4200%nat);
   (str "/Bilder/IMG_4522.jpg", JPEG, 3800%nat);
   (str "/Bilder/IMG_4523.jpg", JPEG, 2600%nat);
   (str "/Bilder/DSC_0042.jpg", JPEG, 3100%nat);
   (str "/Bilder/Panorama_Beach.jpg", JPEG, 4000%nat);
   (str "/Bilder/VID_20260514.mp4", [0; 0; 0; 24] ++ str "ftyp", 4000%nat);
   (str "/Bilder/Reisekosten.xlsx", str "PK" ++ [3; 4], 284%nat)].

Section Store.
Context {D : Type} `{BlockDevice D}.
Abbreviation Nxfs := (Fs.Nxfs D).

Definition seed_file (fs : Nxfs) (f : bytes * bytes * nat) : Nxfs :=
  let '(path, magic, size) := f in
  match Fs.create fs path with
  | (fs, Ok _) => (Fs.write fs path 0 (padded_content magic size)).1
  | (fs, Err _) => fs
  end.

(** Best effort: a failed entry is skipped. *)
Definition seed_first_run (fs : Nxfs) : Nxfs :=
  let fs := foldl (fun fs dir => (Fs.mkdir fs dir).1) fs seed_dirs in
  foldl seed_file fs seed_files.

(** The device is [None] while the capability is missing or the driver does not
    start. *)
Definition acquire (device : option D) : option Nxfs :=
  match device with
  | None => None
  | Some device =>
      match Fs.open_or_format device data_opts with
      | Ok fs => Some (if fs.(Fs.formatted_fresh) then seed_first_run fs else fs)
      | Err _ => None
      end
  end.

Definition run_write (r : Nxfs * result unit NxfsError) : Nxfs * bytes :=
  (r.1, match r.2 with
        | Ok _ => Fileops.encode_status_reply Vfs.CODE_OK
        | Err err => status_reply (to_vfs err)
        end).

Definition handle_stat (fs : Nxfs) (payload : bytes) : bytes :=
  match Fs.stat fs (decode_path payload) with
  | Ok (k, size) => [1] ++ le_bytes 8 size ++ le_bytes 2 (match k with Dir => 1 | File => 0 end)
  | Err _ => [0]
  end.

(** The read of the zero-copy path. *)
Definition read_bytes (fs : Nxfs) (path : bytes) (max : Z) : result bytes Vfs.VfsError :=
  map_err to_vfs (Fs.read fs (to_nxfs_path path) 0 max).

Definition handle_read (fs : Nxfs) (payload : bytes) : bytes :=
  match Fs.read fs (decode_path payload) 0 Fileops.MAX_INLINE_TEXT with
  | Ok b => le_bytes 2 Vfs.CODE_OK ++ b
  | Err err => status_reply (to_vfs err)
  end.

Definition handle_readdir (fs : Nxfs) (payload : bytes) : bytes :=
  match decode_readdir_request payload with
  | Err err => encode_readdir_error err
  | Ok request =>
      match Fs.read_dir fs (to_nxfs_path request.(rq_path)) request.(rq_cursor) request.(rq_limit) with
      | Ok page =>
          match encode_readdir_page page with
          | Ok out => out
          | Err err => encode_readdir_error err
          end
      | Err err => encode_readdir_error (to_vfs err)
      end
  end.

Definition copy (fs : Nxfs) (from to : bytes) : Nxfs * bytes :=
  match Fs.read fs (to_nxfs_path from) 0 COPY_MAX with
  | Ok b =>
      let to_path := to_nxfs_path to in
      run_write (match Fs.create fs to_path with
                 | (fs, Ok _) => Fs.write fs to_path 0 b
                 | (fs, Err e) => (fs, Err e)
                 end)
  | Err err => (fs, status_reply (to_vfs err))
  end.

Definition handle (fs : Nxfs) (frame : bytes) : Nxfs * bytes :=
  match frame with
  | [] => (fs, status_reply Vfs.Invalid)
  | opcode :: payload =>
      if opcode =? Fileops.OP_STAT then (fs, handle_stat fs payload)
      else if opcode =? Fileops.OP_READ then (fs, handle_read fs payload)
      else if opcode =? Fileops.OP_READDIR then (fs, handle_readdir fs payload)
      else if opcode =? Fileops.OP_MKDIR then run_write (Fs.mkdir fs (decode_path payload))
      else if opcode =? Fileops.OP_CREATE then run_write (Fs.create fs (decode_path payload))
      else if opcode =? Fileops.OP_REMOVE then run_write (Fs.remove fs (decode_path payload))
      else if opcode =? Fileops.OP_WRITE_TEXT then
        match Fileops.decode_write_text payload with
        | Some (path, text) => run_write (Fs.write fs (to_nxfs_path path) 0 text)
        | None => (fs, status_reply Vfs.Invalid)
        end
      else if opcode =? Fileops.OP_RENAME then
        match Fileops.decode_rename payload with
        | Some (from, to) => run_write (Fs.rename fs (to_nxfs_path from) (to_nxfs_path to))
        | None => (fs, status_reply Vfs.Invalid)
        end
      else if opcode =? Fileops.OP_COPY then
        match Fileops.decode_rename payload with
        | Some (from, to) => copy fs from to
        | None => (fs, status_reply Vfs.Invalid)
        end
      else (fs, status_reply Vfs.Unsupported)
  end.

End Store.

Definition readdir_unavailable : bytes := encode_readdir_error Vfs.Io.
Definition stat_unavailable : bytes := [0].
Definition write_unavailable : bytes := status_reply Vfs.Io.

(** ** What a client sees, in terms of the abstract filesystem *)

Definition t_entry (t : tree) (table : DirTable) (name : bytes) : DirEntry :=
  let '(child, k) := default (0, 0) (table !! name) in
  {| de_name := name; de_kind := kind_of k;
     de_size := match t.(t_files) !! child with Some b => vlen b | None => 0 end |}.

(** The whole listing of a directory, sorted by name. *)
Definition t_list (t : tree) (path : bytes) : result (list DirEntry) NxfsError :=
  let? id := t_resolve t path in
  let? table := ok_or (t.(t_dirs) !! id) NotDir in
  Ok (map (t_entry t table) (str_keys table)).

(** One page of it. *)
Definition page_of (all : list DirEntry) (cursor limit : Z) : ReadDirPage :=
  let start := Z.min cursor (vlen all) in
  let n := Z.min (vlen all - start) (Z.min (Z.max limit 1) MAX_ENTRIES_PER_PAGE) in
  {| entries := slice (Z.to_nat start) (Z.to_nat (start + n)) all;
     next_cursor := (start + n) mod 2 ^ 32; eof := vlen all <=? start + n |}.

Inductive request :=
| RStat (path : bytes)
| RRead (path : bytes)
| RList (path : bytes) (cursor limit : Z)
| RMkdir (path : bytes)
| RCreate (path : bytes)
| RRemove (path : bytes)
| RWriteText (path text : bytes)
| RRename (from to : bytes)
| RCopy (from to : bytes).

(** The frame a client sends. *)
Definition request_frame (r : request) : option bytes :=
  match r with
  | RStat p => cons Fileops.OP_STAT <$> Fileops.encode_path_request p
  | RRead p => cons Fileops.OP_READ <$> Fileops.encode_path_request p
  | RList p c l =>
      match encode_readdir_request p c l with
      | Ok b => Some (Fileops.OP_READDIR :: b)
      | Err _ => None
      end
  | RMkdir p => cons Fileops.OP_MKDIR <$> Fileops.encode_path_request p
  | RCreate p => cons Fileops.OP_CREATE <$> Fileops.encode_path_request p
  | RRemove p => cons Fileops.OP_REMOVE <$> Fileops.encode_path_request p
  | RWriteText p s => cons Fileops.OP_WRITE_TEXT <$> Fileops.encode_write_text p s
  | RRename f g => cons Fileops.OP_RENAME <$> Fileops.encode_rename f g
  | RCopy f g => cons Fileops.OP_COPY <$> Fileops.encode_rename f g
  end.

(** The strings of a request are [&str]s, its integers fit their width. *)
Definition request_typed (r : request) : Prop :=
  match r with
  | RStat p | RRead p | RMkdir p | RCreate p | RRemove p => path_ok p
  | RList p c l => path_ok p ∧ in_width 32 c ∧ in_width 16 l
  | RWriteText p s => path_ok p ∧ path_ok s
  | RRename f g | RCopy f g => path_ok f ∧ path_ok g
  end.

Definition status_code (r : result unit NxfsError) : Z :=
  match r with
  | Ok _ => Vfs.CODE_OK
  | Err e => Vfs.code (to_vfs e)
  end.

(** A write call of the abstract filesystem, with its status as the reply. *)
Definition writes (t : tree) (c : call) (reply : bytes) (t' : tree) : Prop :=
  ∃ r, t_step t c r t' ∧ Fileops.decode_status_reply reply = Some (status_code r).

(** A listing reply carries a prefix of the page, all of it when it fits. *)
Definition listed (page : result ReadDirPage NxfsError) (reply : bytes) : Prop :=
  match page with
  | Err e => decode_readdir_response reply = Err (to_vfs e)
  | Ok page => ∃ n,
      (page_bytes page.(entries) ≤ MAX_READDIR_RESPONSE_BYTES → n = List.length page.(entries)) ∧
      decode_readdir_response reply =
        Ok {| entries := take n page.(entries); next_cursor := page.(next_cursor);
              eof := page.(eof) && (n =? List.length page.(entries))%nat |}
  end.

Definition served (t : tree) (r : request) (reply : bytes) (t' : tree) : Prop :=
  match r with
  | RStat p => t' = t ∧ reply =
      match t_stat t p with
      | Ok (k, size) => [1] ++ le_bytes 8 size ++ le_bytes 2 (kind_wire k)
      | Err _ => [0]
      end
  | RRead p => t' = t ∧
      match t_read t p 0 Fileops.MAX_INLINE_TEXT with
      | Ok b => reply = le_bytes 2 Vfs.CODE_OK ++ b
      | Err e => Fileops.decode_status_reply reply = Some (Vfs.code (to_vfs e))
      end
  | RList p c l => t' = t ∧ listed (let? all := t_list t p in Ok (page_of all c l)) reply
  | RMkdir p => writes t (Mkdir p) reply t'
  | RCreate p => writes t (Create p) reply t'
  | RRemove p => writes t (RemovePath p) reply t'
  | RWriteText p s => writes t (WriteAt p 0 s) reply t'
  | RRename f g => writes t (RenamePath f g) reply t'
  | RCopy f g =>
      match t_read t f 0 COPY_MAX with
      | Err e => t' = t ∧ Fileops.decode_status_reply reply = Some (Vfs.code (to_vfs e))
      | Ok b => ∃ r1 t1, t_step t (Create g) r1 t1 ∧
          match r1 with
          | Ok _ => writes t1 (WriteAt g 0 b) reply t'
          | Err e => t' = t1 ∧ Fileops.decode_status_reply reply = Some (Vfs.code (to_vfs e))
          end
      end
  end.

Section Serve.
Context {D : Type} `{BlockStore D}.
Abbreviation Nxfs := (Fs.Nxfs D).
Implicit Types fs : Nxfs.

(** *** Listings *)

Lemma entry_view n fs p table name :
  vinv n fs → fs.(Fs.state).(dirs) !! p = Some table → name ∈ str_keys table →
  Fs.dir_entry fs.(Fs.state) table name = t_entry (abs fs) table name ∧
  entry_ok (t_entry (abs fs) table name).
Proof.
  intros Hv Hp Hn. pose proof Hv as [Hi Hf]. pose proof (inv_state _ _ Hi) as (Hsok & _).
  apply str_keys_elem in Hn as [[c k] Hn].
  destruct (ok_entries _ Hsok p name c k) as (Hname & _ & o & Ho & Hk); [by exists table|].
  unfold Fs.dir_entry, t_entry. rewrite Hn. change (default (0, 0) (Some (c, k))) with (c, k). cbv iota beta.
  assert (Hvf : (abs fs).(t_files) !! c = file_view (image (Fs.dev fs)) o)
    by (unfold abs; by rewrite view_files, Ho).
  rewrite Hvf, Ho. unfold file_view.
  destruct (ok_objects _ Hsok c o Ho) as [[Hkf|Hkd] Hsz _ _ _ _].
  - rewrite Hkf. cbn [Z.eqb KIND_FILE KIND_DIR].
    destruct (file_facts n fs c o Hv Ho Hkf) as (_ & Hvl & _). rewrite Hvl. by split.
  - rewrite Hkd. cbn [Z.eqb KIND_FILE KIND_DIR Pos.eqb]. pose proof (Hf c o Ho) as Hfo. rewrite Hkd in Hfo.
    cbn in Hfo. rewrite Hfo. split; [done|]. split; [done|]. unfold in_width. simpl. lia.
Qed.

Lemma read_dir_abs n fs path c l :
  vinv n fs → Fs.read_dir fs path c l = (let? all := t_list (abs fs) path in Ok (page_of all c l)).
Proof.
  intros Hv. pose proof (lookup_abs n fs path Hv) as Hl. pose proof Hv as [Hi _].
  pose proof (inv_state _ _ Hi) as (Hsok & _). unfold Fs.read_dir, t_list.
  destruct (Fs.lookup_object fs path) as [[id o]|e]; cbn [result_bind]; [|by rewrite Hl].
  destruct Hl as (-> & Ho & Hkind). cbn [result_bind fst snd].
  change (t_dirs (abs fs)) with (dirs (Fs.state fs)). pose proof (ok_dirs _ Hsok id) as Hds.
  destruct Hkind as [[Hk _]|[Hk _]]; rewrite Hk; cbn [Z.eqb KIND_FILE KIND_DIR Pos.eqb negb].
  - destruct (dirs (Fs.state fs) !! id) as [table|] eqn:Et; [|by destruct (proj2 Hds ltac:(by exists o))].
    cbn [ok_or result_bind]. f_equal. unfold page_of.
    replace (map (Fs.dir_entry (Fs.state fs) table) (str_keys table))
      with (map (t_entry (abs fs) table) (str_keys table)); [done|].
    apply map_ext_in. intros nm Hnm. apply list_elem_of_In in Hnm. symmetry. by eapply entry_view.
  - destruct (dirs (Fs.state fs) !! id) as [table|] eqn:Et; [|done].
    destruct (proj1 Hds ltac:(by eexists)) as (o' & Ho' & Hk'). rewrite Ho in Ho'. injection Ho' as <-. by rewrite Hk in Hk'.
Qed.

Lemma list_ok n fs path all : vinv n fs → t_list (abs fs) path = Ok all → Forall entry_ok all.
Proof.
  intros Hv. unfold t_list. destruct (t_resolve _ _) as [id|]; [|done]. cbn [result_bind].
  destruct (t_dirs (abs fs) !! id) as [table|] eqn:Et; [|done]. cbn [ok_or result_bind]. intros [= <-].
  apply Forall_forall. intros e (nm & -> & Hnm)%list_elem_of_fmap. by eapply entry_view.
Qed.

Lemma page_of_bounds all c l :
  Forall entry_ok all → 0 ≤ c →
  Forall entry_ok (page_of all c l).(entries) ∧ (List.length (page_of all c l).(entries) ≤ 64)%nat ∧
  in_width 32 (page_of all c l).(next_cursor).
Proof.
  intros Hall Hc. unfold page_of, MAX_ENTRIES_PER_PAGE. cbn [entries next_cursor].
  set (start := Z.min c (vlen all)). set (m := Z.min (vlen all - start) _).
  pose proof (vlen_nonneg all). split_and!.
  - by apply Forall_take, Forall_drop.
  - rewrite slice_length; unfold vlen in *; lia.
  - apply Z.mod_pos_bound. lia.
Qed.

Lemma readdir_listed n fs path c l reply :
  vinv n fs → 0 ≤ c →
  reply = match Fs.read_dir fs path c l with
          | Ok page => match encode_readdir_page page with
                       | Ok out => out
                       | Err err => encode_readdir_error err
                       end
          | Err err => encode_readdir_error (to_vfs err)
          end →
  listed (let? all := t_list (abs fs) path in Ok (page_of all c l)) reply.
Proof.
  intros Hv Hc ->. rewrite (read_dir_abs n) by done.
  destruct (t_list (abs fs) path) as [all|e] eqn:El; cbn [result_bind listed].
  - destruct (page_of_bounds all c l (list_ok n fs path all Hv El) Hc) as (H1 & H2 & H3).
    destruct (encode_page_spec _ H1 H2 H3) as (payload & k & -> & _ & _ & Hall & Hd). by exists k.
  - by destruct e.
Qed.

(** *** Writing *)

Lemma status_decode r : Fileops.decode_status_reply (Fileops.encode_status_reply (status_code r)) = Some (status_code r).
Proof. destruct r as [|[]]; reflexivity. Qed.

Lemma run_write_reply r fs' reply :
  run_write r = (fs', reply) →
  fs' = r.1 ∧ reply = Fileops.encode_status_reply (status_code r.2).
Proof. destruct r as [f [u|e]]; unfold run_write; cbn [fst snd]; by intros [= <- <-]. Qed.

Lemma run_write_writes n fs c fs' reply :
  vinv n fs → n + 2 < 2 ^ 63 → call_ok c → run_write (exec fs c) = (fs', reply) →
  vinv (n + 2) fs' ∧ writes (abs fs) c reply (abs fs').
Proof.
  intros Hv Hn Hc [-> ->]%run_write_reply. destruct (exec fs c) as [f r] eqn:E.
  destruct (exec_allowed n fs c f r Hv Hn Hc E) as [Hv' Hs]. split; [done|]. exists r.
  split; [done|apply status_decode].
Qed.

Lemma copy_served n fs from to fs' reply :
  vinv n fs → n + 4 < 2 ^ 63 → path_ok from → path_ok to → from ≠ [] → to ≠ [] →
  copy fs from to = (fs', reply) →
  vinv (n + 4) fs' ∧ served (abs fs) (RCopy from to) reply (abs fs').
Proof.
  intros Hv Hn Hf Ht Hf0 Ht0. unfold copy, to_nxfs_path. rewrite !bool_decide_eq_false_2 by done.
  rewrite (read_abs n) by done. cbn [served].
  destruct (t_read (abs fs) from 0 COPY_MAX) as [b|e] eqn:Er.
  - intros [-> ->]%run_write_reply. destruct (Fs.create fs to) as [f1 r1] eqn:E1.
    destruct (exec_allowed n fs (Create to) f1 r1 Hv ltac:(lia) Ht E1) as [Hv1 Hs1].
    destruct r1 as [[]|e1]; cbn [fst snd].
    + assert (Hb : Forall is_byte b).
      { pose proof (read_abs n fs from 0 COPY_MAX Hv ltac:(done)) as Hra. rewrite Er in Hra.
        unfold Fs.read in Hra. pose proof (lookup_abs n fs from Hv) as Hl.
        destruct (Fs.lookup_object fs from) as [[id o]|]; [|done]. destruct Hl as (_ & Ho & Hk).
        cbn [result_bind snd] in Hra. destruct Hk as [[Hk _]|[Hk _]]; rewrite Hk in Hra; [done|].
        destruct (file_facts n fs id o Hv Ho Hk) as (Hm & _ & Hby). cbn [Z.eqb KIND_FILE KIND_DIR] in Hra.
        rewrite Hm in Hra. cbn [result_bind] in Hra. injection Hra as <-. by apply Forall_take, Forall_drop. }
      destruct (Fs.write f1 to 0 b) as [f2 r2] eqn:E2.
      destruct (exec_allowed (n + 2) f1 (WriteAt to 0 b) f2 r2 Hv1 ltac:(lia)) as [Hv2 Hs2];
        [by split_and!|done|]. cbn [fst snd].
      split; [by replace (n + 4) with (n + 2 + 2) by lia|]. exists (Ok tt), (abs f1). split; [done|].
      exists r2. split; [done|apply status_decode].
    + split; [eapply vinv_mono; [exact Hv1|lia]|]. exists (Err e1), (abs f1). split; [done|].
      split; [done|]. apply (status_decode (Err e1)).
  - intros [= <- <-]. split; [eapply vinv_mono; [exact Hv|lia]|]. split; [done|apply (status_decode (Err e))].
Qed.

(** *** One frame *)

Lemma path_frame op p frame :
  cons op <$> Fileops.encode_path_request p = Some frame → path_ok p →
  frame = op :: p ∧ p ≠ [] ∧ decode_path p = p.
Proof.
  unfold Fileops.encode_path_request. destruct (path_bounds p) eqn:Ep; [|done]. intros [= <-] [Hu _].
  apply path_bounds_ne in Ep. split_and!; [done..|].
  unfold decode_path, from_utf8, to_nxfs_path. rewrite Hu. simpl. by rewrite bool_decide_eq_false_2.
Qed.

Lemma pair_frame op a b frame :
  cons op <$> Fileops.encode_rename a b = Some frame → path_ok a → path_ok b →
  ∃ payload, frame = op :: payload ∧ Fileops.decode_rename payload = Some (a, b) ∧ a ≠ [] ∧ b ≠ [].
Proof.
  unfold Fileops.encode_rename. destruct (path_bounds a) eqn:Ea; [|done]. destruct (path_bounds b) eqn:Eb; [|done].
  cbn [andb fmap option_fmap option_map]. intros [= <-] [Hua _] [Hub _].
  exists (le_bytes 2 (vlen a) ++ a ++ b). split_and!; [done| |by apply path_bounds_ne..].
  unfold Fileops.decode_rename. rewrite split_prefixed_encode by done. by rewrite Eb.
Qed.

Lemma to_path p : p ≠ [] → to_nxfs_path p = p.
Proof. intros. unfold to_nxfs_path. by rewrite bool_decide_eq_false_2. Qed.

Lemma handle_served n fs r frame fs' reply :
  vinv n fs → n + 4 < 2 ^ 63 → request_typed r → request_frame r = Some frame →
  handle fs frame = (fs', reply) →
  vinv (n + 4) fs' ∧ served (abs fs) r reply (abs fs').
Proof.
  intros Hv Hn Hr Hfr Hh.
  assert (Hw : ∀ c, call_ok c → run_write (exec fs c) = (fs', reply) →
    vinv (n + 4) fs' ∧ writes (abs fs) c reply (abs fs')).
  { intros c Hc Hrw. destruct (run_write_writes n fs c fs' reply Hv ltac:(lia) Hc Hrw) as [H1 H2].
    split; [|done]. eapply vinv_mono; [exact H1|lia]. }
  assert (Hv4 : vinv (n + 4) fs) by (eapply vinv_mono; [exact Hv|lia]).
  destruct r as [p|p|p c l|p|p|p|p s|f g|f g]; cbn [request_frame request_typed] in *.
  - destruct (path_frame _ p frame Hfr Hr) as (-> & Hne & Hdp). injection Hh as <- <-.
    split; [done|]. split; [done|]. unfold handle_stat. rewrite Hdp, (stat_abs n) by done.
    by destruct (t_stat (abs fs) p) as [[[] sz]|].
  - destruct (path_frame _ p frame Hfr Hr) as (-> & Hne & Hdp). injection Hh as <- <-.
    split; [done|]. split; [done|]. unfold handle_read. rewrite Hdp, (read_abs n) by done.
    destruct (t_read (abs fs) p 0 Fileops.MAX_INLINE_TEXT) as [b|e]; [done|apply (status_decode (Err e))].
  - destruct Hr as ([Hu Hby] & Hc & Hl). destruct (encode_readdir_request p c l) as [b|] eqn:Eb; [|done].
    injection Hfr as <-. cbn in Hh. injection Hh as <- <-. split; [done|]. split; [done|].
    unfold encode_readdir_request in Eb. destruct (path_bounds p) eqn:Ep; [|done]. apply Ok_inj in Eb as <-.
    unfold handle_readdir. pose proof (path_bounds_ne p Ep).
    rewrite (decode_request_encode p c l) by done. cbn [rq_path rq_cursor rq_limit].
    rewrite to_path by done. apply (readdir_listed n fs p c l _ Hv); [apply Hc|done].
  - destruct (path_frame _ p frame Hfr Hr) as (-> & Hne & Hdp). cbn in Hh. rewrite Hdp in Hh. by apply (Hw (Mkdir p)).
  - destruct (path_frame _ p frame Hfr Hr) as (-> & Hne & Hdp). cbn in Hh. rewrite Hdp in Hh. by apply (Hw (Create p)).
  - destruct (path_frame _ p frame Hfr Hr) as (-> & Hne & Hdp). cbn in Hh. rewrite Hdp in Hh. by apply (Hw (RemovePath p)).
  - destruct Hr as [Hp [Hsu Hsb]]. unfold Fileops.encode_write_text in Hfr. destruct (path_bounds p) eqn:Ep; [|done].
    destruct (Z.leb_spec (vlen s) Fileops.MAX_INLINE_TEXT); [|done]. cbn [andb fmap option_fmap option_map] in Hfr.
    apply (inj Some) in Hfr as <-. destruct Hp as [Hpu Hpb]. pose proof (path_bounds_ne p Ep).
    cbn in Hh. unfold Fileops.decode_write_text in Hh.
    change (Fileops.split_prefixed _) with (Fileops.split_prefixed (le_bytes 2 (vlen p) ++ p ++ s)) in Hh.
    rewrite split_prefixed_encode in Hh by done.
    destruct (Z.ltb_spec Fileops.MAX_INLINE_TEXT (vlen s)); [lia|]. rewrite to_path in Hh by done.
    apply (Hw (WriteAt p 0 s)); [|done]. split_and!; [done|unfold in_width; simpl; lia|done].
  - destruct Hr as [Hf Hg]. destruct (pair_frame _ f g frame Hfr Hf Hg) as (b & -> & Hd & Hf0 & Hg0).
    cbn in Hh. rewrite Hd, !to_path in Hh by done. by apply (Hw (RenamePath f g)).
  - destruct Hr as [Hf Hg]. destruct (pair_frame _ f g frame Hfr Hf Hg) as (b & -> & Hd & Hf0 & Hg0).
    cbn in Hh. rewrite Hd in Hh. by eapply copy_served.
Qed.

(** *** Seeding *)

Lemma t_run_app t cs rs t1 cs' rs' t2 :
  t_run t cs rs t1 → t_run t1 cs' rs' t2 → t_run t (cs ++ cs') (rs ++ rs') t2.
Proof. induction 1; simpl; [done|]. intros. econstructor; eauto. Qed.

Lemma seed_dirs_run dirs n fs :
  vinv n fs → n + 2 * vlen dirs < 2 ^ 63 → Forall path_ok dirs →
  let fs' := foldl (fun fs dir => (Fs.mkdir fs dir).1) fs dirs in
  vinv (n + 2 * vlen dirs) fs' ∧ ∃ rs, t_run (abs fs) (map Mkdir dirs) rs (abs fs').
Proof.
  intros Hv Hn Hd. revert n fs Hv Hn. induction Hd as [|p dirs Hp _ IH]; intros n fs Hv Hn.
  { simpl. change (vlen []) with 0. rewrite Z.mul_0_r, Z.add_0_r. split; [done|]. eexists. constructor. }
  assert (Hl : vlen (p :: dirs) = vlen dirs + 1) by (unfold vlen; cbn [List.length]; lia). rewrite Hl in *.
  pose proof (vlen_nonneg dirs). cbn [foldl map]. destruct (Fs.mkdir fs p) as [f r] eqn:E. cbn [fst].
  destruct (exec_allowed n fs (Mkdir p) f r Hv ltac:(lia) Hp E) as [Hv1 Hs].
  destruct (IH (n + 2) f Hv1 ltac:(lia)) as [Hv2 [rs Hr]]. split.
  - by replace (n + 2 * (vlen dirs + 1)) with (n + 2 + 2 * vlen dirs) by lia.
  - exists (r :: rs). by econstructor.
Qed.

Definition seed_file_calls (f : bytes * bytes * nat) : list call :=
  let '(path, magic, size) := f in [Create path; WriteAt path 0 (padded_content magic size)].

Lemma seed_file_run f n fs :
  vinv n fs → n + 4 < 2 ^ 63 → path_ok f.1.1 → Forall is_byte f.1.2 →
  vinv (n + 4) (seed_file fs f) ∧
  ∃ cs rs, t_run (abs fs) cs rs (abs (seed_file fs f)) ∧ cs `sublist_of` seed_file_calls f.
Proof.
  destruct f as [[p m] sz]. cbn [fst snd seed_file seed_file_calls]. intros Hv Hn Hp Hm.
  destruct (Fs.create fs p) as [f1 r1] eqn:E1.
  destruct (exec_allowed n fs (Create p) f1 r1 Hv ltac:(lia) Hp E1) as [Hv1 Hs1]. destruct r1 as [u|e].
  - destruct (Fs.write f1 p 0 (padded_content m sz)) as [f2 r2] eqn:E2. cbn [fst].
    destruct (exec_allowed (n + 2) f1 (WriteAt p 0 (padded_content m sz)) f2 r2 Hv1 ltac:(lia)) as [Hv2 Hs2];
      [|done|].
    { split_and!; [done|unfold in_width; simpl; lia|]. apply Forall_app_2; [done|].
      apply Forall_replicate. unfold is_byte. lia. }
    split; [by replace (n + 4) with (n + 2 + 2) by lia|]. eexists _, _. split; [|done].
    econstructor; [exact Hs1|]. econstructor; [exact Hs2|constructor].
  - split; [eapply vinv_mono; [exact Hv1|lia]|]. exists [Create p], [Err e]. split.
    + econstructor; [exact Hs1|constructor].
    + apply sublist_skip, sublist_nil_l.
Qed.

Lemma seed_files_run files n fs :
  vinv n fs → n + 4 * vlen files < 2 ^ 63 →
  Forall (fun f => path_ok f.1.1 ∧ Forall is_byte f.1.2) files →
  vinv (n + 4 * vlen files) (foldl seed_file fs files) ∧
  ∃ cs rs, t_run (abs fs) cs rs (abs (foldl seed_file fs files)) ∧
           cs `sublist_of` concat (map seed_file_calls files).
Proof.
  intros Hv Hn Hf. revert n fs Hv Hn. induction Hf as [|f files [Hp Hm] _ IH]; intros n fs Hv Hn.
  { simpl. change (vlen []) with 0. rewrite Z.mul_0_r, Z.add_0_r. split; [done|].
    eexists [], []. split; [constructor|done]. }
  assert (Hl : vlen (f :: files) = vlen files + 1) by (unfold vlen; cbn [List.length]; lia). rewrite Hl in *.
  pose proof (vlen_nonneg files). cbn [foldl map concat].
  destruct (seed_file_run f n fs Hv ltac:(lia) Hp Hm) as [Hv1 (cs & rs & Hr & Hs)].
  destruct (IH (n + 4) _ Hv1 ltac:(lia)) as [Hv2 (cs' & rs' & Hr' & Hs')]. split.
  - by replace (n + 4 * (vlen files + 1)) with (n + 4 + 4 * vlen files) by lia.
  - exists (cs ++ cs'), (rs ++ rs'). split; [by eapply t_run_app|by apply sublist_app].
Qed.

(** The calls of the first run. *)
Definition seed_calls : list call := map Mkdir seed_dirs ++ concat (map seed_file_calls seed_files).

Lemma bytes_check p : forallb (fun b => (0 <=? b) && (b <? 256)) p = true → Forall is_byte p.
Proof.
  intros Hb. rewrite forallb_forall in Hb. apply Forall_forall.
  intros x Hx. apply list_elem_of_In in Hx. specialize (Hb x Hx). simpl_bool. done.
Qed.

Lemma path_check p : utf8_valid p && forallb (fun b => (0 <=? b) && (b <? 256)) p = true → path_ok p.
Proof. intros [Hu Hb]%andb_true_iff. split; [done|by apply bytes_check]. Qed.

Lemma seed_run n fs :
  vinv n fs → n + 40 < 2 ^ 63 →
  vinv (n + 40) (seed_first_run fs) ∧
  ∃ cs rs, t_run (abs fs) cs rs (abs (seed_first_run fs)) ∧ cs `sublist_of` seed_calls.
Proof.
  intros Hv Hn. unfold seed_first_run.
  destruct (seed_dirs_run seed_dirs n fs Hv) as [Hv1 [rs1 Hr1]].
  - change (vlen seed_dirs) with 6. lia.
  - unfold seed_dirs. repeat (apply Forall_cons_2; [apply path_check; vm_compute; reflexivity|]). apply Forall_nil_2.
  - change (vlen seed_dirs) with 6 in Hv1.
    destruct (seed_files_run seed_files (n + 12) _ Hv1) as [Hv2 (cs & rs & Hr & Hs)].
    + change (vlen seed_files) with 7. lia.
    + unfold seed_files.
      repeat (apply Forall_cons_2; [split; [apply path_check|apply bytes_check]; vm_compute; reflexivity|]).
      apply Forall_nil_2.
    + change (vlen seed_files) with 7 in Hv2. split; [by replace (n + 40) with (n + 12 + 4 * 7) by lia|].
      exists (map Mkdir seed_dirs ++ cs), (rs1 ++ rs). split; [by eapply t_run_app|].
      unfold seed_calls. by apply sublist_app.
Qed.

(** *** Sessions *)

Lemma open_fresh (d : D) opts fs :
  dev_wf d → Fs.open_or_format d opts = Ok fs → fs.(Fs.formatted_fresh) = true → Fs.mkfs d opts = Ok fs.
Proof.
  intros Hd. unfold Fs.open_or_format. destruct (dev_new d) as [dv|] eqn:En; [|done]. cbn [result_bind].
  destruct (NxfsDev.read dv 0 (zeros LB)) as [b|]; [|done]. cbn [result_bind].
  destruct (dev_new_ok d dv Hd En) as [_ Hin]. unfold into_inner. rewrite Hin.
  destruct (is_ok (sb_decode b)); [|done]. unfold Fs.mount. rewrite En. cbn [result_bind].
  destruct (Fs.read_superblock _ _) as [sb|]; [|done]. cbn [result_bind].
  unfold result_bind, ok_or. repeat case_match; intros; by simplify_eq/=.
Qed.

Fixpoint serve_all (fs : Nxfs) (frames : list bytes) : Nxfs * list bytes :=
  match frames with
  | [] => (fs, [])
  | f :: frames =>
      let '(fs, reply) := handle fs f in
      let '(fs, replies) := serve_all fs frames in (fs, reply :: replies)
  end.

(** The page loop of a client: 64 entries at a time, until the final page. *)
Fixpoint list_pages (fuel : nat) (fs : Nxfs) (path : bytes) (cursor : Z) : result (list DirEntry) Vfs.VfsError :=
  match fuel with
  | O => Err Vfs.Io
  | S fuel =>
      let? payload := encode_readdir_request path cursor 64 in
      let? page := decode_readdir_response (handle fs (Fileops.OP_READDIR :: payload)).2 in
      if page.(eof) then Ok page.(entries)
      else let? rest := list_pages fuel fs path page.(next_cursor) in Ok (page.(entries) ++ rest)
  end.
End Serve.

Inductive served_run : tree → list request → list bytes → tree → Prop :=
| served_nil t : served_run t [] [] t
| served_cons t r reply t' rs replies t'' :
    served t r reply t' → served_run t' rs replies t'' → served_run t (r :: rs) (reply :: replies) t''.

Lemma serve_all_run {D} `{BlockStore D} rs : ∀ n (fs : Fs.Nxfs D) frames fs' replies,
  vinv n fs → n + 4 * vlen rs < 2 ^ 63 → Forall request_typed rs →
  mapM request_frame rs = Some frames → serve_all fs frames = (fs', replies) →
  vinv (n + 4 * vlen rs) fs' ∧ served_run (abs fs) rs replies (abs fs').
Proof.
  induction rs as [|r rs IH]; intros n fs frames fs' replies Hv Hn Hty Hm Hs.
  { injection Hm as <-. injection Hs as <- <-. change (vlen []) with 0. rewrite Z.mul_0_r, Z.add_0_r.
    split; [done|constructor]. }
  assert (Hl : vlen (r :: rs) = vlen rs + 1) by (unfold vlen; cbn [List.length]; lia). rewrite Hl in *.
  pose proof (vlen_nonneg rs). inversion_clear Hty as [|? ? Hr Hrs].
  apply bind_Some in Hm as (f & Hf & (frames' & Hfs & Hm)%bind_Some). injection Hm as <-.
  cbn [serve_all] in Hs. destruct (handle fs f) as [f1 reply] eqn:Eh.
  destruct (serve_all f1 frames') as [f2 replies'] eqn:Es. injection Hs as <- <-.
  destruct (handle_served n fs r f f1 reply Hv ltac:(lia) Hr Hf Eh) as [Hv1 Hs1].
  destruct (IH (n + 4) f1 frames' f2 replies' Hv1 ltac:(lia) Hrs Hfs Es) as [Hv2 Hs2].
  split; [by replace (n + 4 * (vlen rs + 1)) with (n + 4 + 4 * vlen rs) by lia|by econstructor].
Qed.

(** The user-data store serves the abstract filesystem end to end.  On any
    blank block device in working order that the store manages to format, the
    store starts from the seeded tree, and every sequence of client requests,
    encoded by the client codec, gets replies that decode to what the abstract
    filesystem answers at that point: the status of each call, file contents,
    metadata and directory pages (a call may also be refused for lack of space,
    without effect). *)
Theorem nxfsd_serves_tree {D} `{BlockStore D} (d : D) f rs frames :
  dev_wf d → block_count d < 2 ^ 64 →
  Fs.open_or_format d data_opts = Ok f → f.(Fs.formatted_fresh) = true →
  Forall request_typed rs → mapM request_frame rs = Some frames → vlen rs < 2 ^ 60 →
  ∃ store fs replies cs outs,
    acquire (Some d) = Some store ∧ serve_all store frames = (fs, replies) ∧
    t_run empty_tree cs outs (abs store) ∧ cs `sublist_of` seed_calls ∧
    served_run (abs store) rs replies (abs fs).
Proof.
  intros Hd Hc Ho Hf Hty Hm Hl. pose proof (open_fresh d data_opts f Hd Ho Hf) as Hmk.
  destruct (mkfs_inv d data_opts f Hd Hc) as [Hv Ht]; [|done|].
  { split_and!; [done|apply bytes_check; vm_compute; reflexivity|done]. }
  destruct (seed_run 3 f Hv ltac:(lia)) as [Hv1 (cs & outs & Hr & Hs)]. rewrite Ht in Hr.
  destruct (serve_all (seed_first_run f) frames) as [fs replies] eqn:Es.
  destruct (serve_all_run rs (3 + 40) (seed_first_run f) frames fs replies Hv1 ltac:(lia) Hty Hm Es) as [_ Hrun].
  exists (seed_first_run f), fs, replies, cs, outs. split_and!; try done.
  unfold acquire. by rewrite Ho, Hf.
Qed.

(** ** Listing a directory page by page *)

Lemma page_fits all c l :
  Forall (fun e => vlen e.(de_name) ≤ 101) all → 0 ≤ c →
  page_bytes (page_of all c l).(entries) ≤ MAX_READDIR_RESPONSE_BYTES.
Proof.
  intros Hs Hc. unfold page_bytes, RSP_HEADER, MAX_READDIR_RESPONSE_BYTES.
  assert (Hz : ∀ es : list DirEntry, Forall (fun e => vlen e.(de_name) ≤ 101) es →
    zsum entry_bytes es ≤ 111 * vlen es).
  { induction 1 as [|e es He _ IH]; [done|]. rewrite zsum_cons. unfold entry_bytes at 1, ENTRY_FIXED.
    unfold vlen in *. cbn [List.length]. lia. }
  assert (Hle : vlen (page_of all c l).(entries) ≤ 64).
  { unfold page_of, MAX_ENTRIES_PER_PAGE. cbn [entries]. unfold vlen at 1. rewrite slice_length; unfold vlen; lia. }
  assert (Hf : Forall (fun e => vlen e.(de_name) ≤ 101) (page_of all c l).(entries))
    by (unfold page_of; cbn [entries]; by apply Forall_take, Forall_drop).
  specialize (Hz _ Hf). lia.
Qed.

Section Listing.
Context {D : Type} `{BlockStore D} (n : Z) (fs : Fs.Nxfs D) (path : bytes) (all : list DirEntry).
Context (Hv : vinv n fs) (Hn : n + 4 < 2 ^ 63) (Hp : path_ok path) (Hb : path_bounds path = true).
Context (Hall : t_list (abs fs) path = Ok all) (Hlen : vlen all < 2 ^ 32).
Context (Hshort : Forall (fun e => vlen e.(de_name) ≤ 101) all).

(** One round of the client's loop. *)
Lemma list_round fuel cursor :
  0 ≤ cursor ≤ vlen all →
  list_pages (S fuel) fs path cursor =
    if (page_of all cursor 64).(eof) then Ok (page_of all cursor 64).(entries)
    else let? rest := list_pages fuel fs path (page_of all cursor 64).(next_cursor) in
         Ok ((page_of all cursor 64).(entries) ++ rest).
Proof.
  intros Hc. cbn [list_pages]. assert (Hcw : in_width 32 cursor) by (unfold in_width; lia).
  unfold encode_readdir_request at 1. rewrite Hb. cbn [result_bind].
  set (payload := le_bytes 4 cursor ++ le_bytes 2 64 ++ path).
  destruct (handle fs (Fileops.OP_READDIR :: payload)) as [fs' reply] eqn:Eh.
  destruct (handle_served n fs (RList path cursor 64) (Fileops.OP_READDIR :: payload) fs' reply Hv Hn)
    as [_ [_ Hl]].
  { split_and!; [done|done|unfold in_width; simpl; lia]. }
  { cbn [request_frame]. unfold encode_readdir_request. by rewrite Hb. }
  { done. }
  rewrite Hall in Hl. cbn [result_bind listed] in Hl. destruct Hl as (k & Hk & Hd).
  rewrite (Hk (page_fits all cursor 64 Hshort ltac:(lia))), take_ge, Nat.eqb_refl, andb_true_r in Hd by done.
  cbn [snd]. by rewrite Hd.
Qed.

Lemma list_from fuel : ∀ cursor,
  0 ≤ cursor ≤ vlen all → vlen all - cursor < Z.of_nat fuel →
  list_pages fuel fs path cursor = Ok (drop (Z.to_nat cursor) all).
Proof.
  induction fuel as [|fuel IH]; intros cursor Hc Hf; [lia|]. rewrite list_round by done.
  unfold page_of at 1 2. cbn [eof entries]. unfold page_of, MAX_ENTRIES_PER_PAGE. cbn [entries next_cursor].
  replace (Z.min cursor (vlen all)) with cursor by lia. change (Z.min (Z.max 64 1) 64) with 64.
  set (m := Z.min (vlen all - cursor) 64). unfold slice.
  replace (Z.to_nat (cursor + m) - Z.to_nat cursor)%nat with (Z.to_nat m) by lia.
  destruct (Z.leb_spec (vlen all) (cursor + m)) as [He|He].
  - f_equal. apply take_ge. rewrite length_drop. unfold vlen in *. lia.
  - rewrite Z.mod_small by lia. rewrite IH by lia. cbn [result_bind]. f_equal.
    replace (Z.to_nat (cursor + m)) with (Z.to_nat cursor + Z.to_nat m)%nat by lia.
    by rewrite <- drop_drop, take_drop.
Qed.
End Listing.

(** Listing is complete for ordinary names.  On a store in use, when no
    name of a directory is longer than 101 bytes, a client that follows the
    cursors page by page gets every entry of the directory exactly once, in
    byte order, with its kind and size, and stops. *)
Theorem nxfsd_listing_complete {D} `{BlockStore D} cs rs (fs : Fs.Nxfs D) path all :
  used cs rs fs → path_ok path → path_bounds path = true →
  t_list (abs fs) path = Ok all → vlen all < 2 ^ 32 → Forall (fun e => vlen e.(de_name) ≤ 101) all →
  list_pages (S (List.length all)) fs path 0 = Ok all.
Proof.
  intros Hu Hp Hb Hall Hlen Hs. destruct (used_run cs rs fs Hu) as (n & Hv & Hn & _).
  rewrite (list_from n fs path all Hv) by (first [done|unfold vlen; lia]). done.
Qed.

(** ** A store *)

(** 110 blocks of 4 KiB, 64 of them the journal. *)
Definition store_device : Mem.MemBlockDevice := Mem.new 4096 110.

(** Write a text over a longer one, copy the file and read the copy. *)
Definition store_requests : list request :=
  [RCreate (str "/a"); RWriteText (str "/a") (str "long"); RWriteText (str "/a") (str "xy");
   RCopy (str "/a") (str "/b"); RRead (str "/b"); RStat (str "/c")].

Lemma store_requests_typed : Forall request_typed store_requests.
Proof.
  repeat (apply Forall_cons_2 || apply Forall_nil_2); cbn [request_typed]; try split;
    apply path_check; vm_compute; reflexivity.
Qed.

Lemma nxfsd_serves_tree_witness :
  ∃ store fs replies cs outs,
    acquire (Some store_device) = Some store ∧
    serve_all store (default [] (mapM request_frame store_requests)) = (fs, replies) ∧
    t_run empty_tree cs outs (abs store) ∧ cs `sublist_of` seed_calls ∧
    served_run (abs store) store_requests replies (abs fs).
Proof.
  destruct (Fs.open_or_format store_device data_opts) as [f|] eqn:E; [|by vm_compute in E].
  assert (Hf : (let? f := Fs.open_or_format store_device data_opts in Ok f.(Fs.formatted_fresh)) = Ok true)
    by (vm_compute; reflexivity).
  rewrite E in Hf. cbn [result_bind] in Hf. injection Hf as Hf.
  assert (Hm : mapM request_frame store_requests = Some (default [] (mapM request_frame store_requests)))
    by (vm_compute; reflexivity).
  assert (Hw : dev_wf store_device) by (apply Mem.new_wf; lia).
  assert (Hc : block_count store_device < 2 ^ 64) by (vm_compute; reflexivity).
  assert (Hl : vlen store_requests < 2 ^ 60) by (vm_compute; reflexivity).
  exact (nxfsd_serves_tree store_device f store_requests _ Hw Hc E Hf store_requests_typed Hm Hl).
Defined.

(** /d and /g *)
Definition demo_entries : list DirEntry :=
  [{| de_name := [100]; de_kind := Dir; de_size := 0 |}; {| de_name := [103]; de_kind := File; de_size := 5 |}].

Lemma nxfsd_listing_complete_witness :
  ∃ fs rs, demo_run = Ok (fs, rs) ∧
    list_pages 3 fs [47] 0 = Ok demo_entries.
Proof.
  destruct demo_run as [[fs rs]|] eqn:E; [|by vm_compute in E].
  assert (Hx : (let? p := demo_run in Ok (t_list (abs p.1) [47])) =
    Ok (Ok demo_entries))
    by (vm_compute; reflexivity).
  rewrite E in Hx. cbn [result_bind fst snd] in Hx. injection Hx as Hx.
  exists fs, rs. split; [exact eq_refl|].
  apply (nxfsd_listing_complete demo_calls rs fs [47] demo_entries (demo_used fs rs E)).
  - split; [vm_compute; reflexivity|apply bytes_check; vm_compute; reflexivity].
  - vm_compute; reflexivity.
  - exact Hx.
  - vm_compute; reflexivity.
  - repeat (apply Forall_cons_2 || apply Forall_nil_2); vm_compute; discriminate.
Defined.

(** ** Long names *)

Definition long_name (c : Z) : bytes := 47 :: replicate 254 97 ++ [c].
Definition long_calls : list call := map (fun i => Create (long_name (65 + Z.of_nat i))) (seq 0 30).

(** With long names the listing is not complete: the byte budget cuts the page
    while the cursor of the whole page is sent, so the entries behind the cut
    are in no page.  Of thirty files with names of 255 bytes, all created with
    success, a client that follows the cursors sees the first twenty-seven. *)
Theorem nxfsd_long_names_skipped :
  (let? fs := Fs.mkfs demo_device demo_opts in
   let '(fs, rs) := exec_all fs long_calls in
   let? all := t_list (abs fs) [47] in
   Ok (rs, List.length all,
       match list_pages 31 fs [47] 0 with
       | Ok got => bool_decide (map de_name got = take 27 (map de_name all))
       | Err _ => false
       end)) = Ok (replicate 30 (Ok tt), 30%nat, true).
Proof. vm_compute. reflexivity. Qed.

(** Writing a text does not shorten the file: after "long" is overwritten with
    "xy", the file reads "xyng". *)
Theorem nxfsd_write_text_keeps_tail :
  let ok := Fileops.encode_status_reply Vfs.CODE_OK in
  (let? fs := Fs.mkfs demo_device demo_opts in
   Ok (serve_all fs (default [] (mapM request_frame (take 3 store_requests ++ [RRead (str "/a")])))).2)
  = Ok [ok; ok; ok; ok ++ str "xyng"].
Proof. vm_compute. reflexivity. Qed.
