(* ===== verification/Vfsd.v ===== *)
(** The virtual filesystem service ([source/services/vfsd/src]): path
    confinement and capability tokens ([sandbox.rs]) and the server loop
    ([os_lite.rs]) with its file handles, the routing between the user-data
    store of [Nxfsd.v] and the package filesystem, and reads into the caller's
    VMO.  The package filesystem answers through a parameter. *)

From Stdlib Require Import String.
From S2P Require Import Prelude Bytes Storage NxfsFormat NxfsJournal NxfsJournalProps NxfsState NxfsStateProps NxfsTree NxfsCheckpoint NxfsDev Nxfs NxfsLog NxfsInv NxfsEngine NxfsFiles NxfsRefine NxfsTheorems VfsTypes Nxfsd.

Abbreviation length := List.length.

(** ** [sandbox.rs]: paths *)

Module Sandbox.

Definition RIGHT_READ : Z := 0x01.
Definition RIGHT_WRITE : Z := 0x02.

Inductive SandboxError :=
| InvalidPath | Traversal | OutOfNamespace | Integrity | Replay | Rights | Subject | Expired.

(** [str::split_once] with the separator [:/]. *)
Fixpoint split_once (s : bytes) : option (bytes * bytes) :=
  match s with
  | [] => None
  | b :: s' =>
      if starts_with [58; 47] s then Some ([], drop 1 s')
      else match split_once s' with
           | Some (x, y) => Some (b :: x, y)
           | None => None
           end
  end.

(** The loop over the segments. *)
Fixpoint keep_segments (segs : list bytes) : result (list bytes) SandboxError :=
  match segs with
  | [] => Ok []
  | seg :: segs =>
      if bool_decide (seg = []) || bool_decide (seg = [46]) then keep_segments segs
      else if bool_decide (seg = [46; 46]) then Err Traversal
      else let? out := keep_segments segs in Ok (seg :: out)
  end.

Fixpoint join_segments (segs : list bytes) : bytes :=
  match segs with
  | [] => []
  | [seg] => seg
  | seg :: segs => seg ++ 47 :: join_segments segs
  end.

Definition format_canonical (scheme : bytes) (segs : list bytes) : bytes :=
  scheme ++ [58; 47] ++ join_segments segs.

Definition canonicalize_path (path : bytes) : result bytes SandboxError :=
  match split_once path with
  | None => Err InvalidPath
  | Some (scheme, rest) =>
      if bool_decide (scheme = []) || bool_decide (rest = []) then Err InvalidPath
      else
        let? segs := keep_segments (split_on 47 rest) in
        if bool_decide (segs = []) then Err InvalidPath else Ok (format_canonical scheme segs)
  end.

Record NamespaceView := { roots : list bytes }.

Definition assert_allowed (view : NamespaceView) (path : bytes) : result bytes SandboxError :=
  let? canonical := canonicalize_path path in
  if existsb (fun root => starts_with root canonical) view.(roots) then Ok canonical else Err OutOfNamespace.

(** ** Capability tokens *)

Section Token.
Context (sha256 : bytes → bytes).

Record CapFdToken := {
  subject_id : Z;
  canonical_path : bytes;
  rights : Z;
  nonce : Z;
  expires_at : Z;
  mac : bytes
}.

(** What is hashed, after the key. *)
Definition mac_input (subject : Z) (path : bytes) (rts nnc exp : Z) : bytes :=
  le_bytes 8 subject ++ path ++ [rts] ++ le_bytes 8 nnc ++ le_bytes 8 exp.

Definition compute_mac (key : bytes) (subject : Z) (path : bytes) (rts nnc exp : Z) : bytes :=
  sha256 (key ++ mac_input subject path rts nnc exp).

Definition mint (key : bytes) (subject : Z) (path : bytes) (rts nnc exp : Z) : CapFdToken :=
  {| subject_id := subject; canonical_path := path; rights := rts; nonce := nnc; expires_at := exp;
     mac := compute_mac key subject path rts nnc exp |}.

(** [ReplayGuard::verify], on the set of nonces seen. *)
Definition verify (seen : gset Z) (key : bytes) (t : CapFdToken) (expected required now : Z)
    : gset Z * result unit SandboxError :=
  if negb (t.(subject_id) =? expected) then (seen, Err Subject)
  else if t.(expires_at) <? now then (seen, Err Expired)
  else if negb (required =? 0) && negb (Z.land t.(rights) required =? required) then (seen, Err Rights)
  else if negb (bool_decide (compute_mac key t.(subject_id) t.(canonical_path) t.(rights) t.(nonce) t.(expires_at)
                             = t.(mac))) then (seen, Err Integrity)
  else if bool_decide (t.(nonce) ∈ seen) then (seen, Err Replay)
  else ({[t.(nonce)]} ∪ seen, Ok tt).
End Token.

End Sandbox.
Import Sandbox.

(** ** [os_lite.rs] *)

Definition OPCODE_OPEN : Z := 1.
Definition OPCODE_READ : Z := 2.
Definition OPCODE_CLOSE : Z := 3.
Definition OPCODE_STAT : Z := 4.
Definition OPCODE_READDIR : Z := 6.
Definition PKGFS_OPCODE_RESOLVE : Z := 2.
Definition PKGFS_OPCODE_LIST : Z := 4.
Definition KIND_FILE : Z := 0.
Definition MAX_DATA_ATTEMPTS : Z := 8.

Module Lite.
Inductive Error := Transport | InvalidPath | NotFound | BadHandle.
End Lite.
Abbreviation Error := Lite.Error.

Record Entry := { en_kind : Z; en_size : Z; en_bytes : bytes }.

Record FileHandle := { owner_service_id : Z; fh_bytes : bytes }.

(** [from_utf8(..).unwrap_or("")] *)
Definition utf8_or_empty (b : bytes) : bytes := default [] (from_utf8 b).

Definition Namespace_new : NamespaceView := {| roots := [str "pkg:/"] |}.

(** A capability that came with a request: a reply endpoint or a VMO. *)
Record Vmo := { content : bytes; writable : bool }.

Inductive Moved := ReplyEndpoint | MovedVmo (v : Vmo).

(** [vmo_write]: refused out of range and without the right. *)
Definition vmo_write (v : Vmo) (off : nat) (data : bytes) : option Vmo :=
  if v.(writable) && (off + length data <=? length v.(content))%nat
  then Some {| content := take off v.(content) ++ data ++ drop (off + length data) v.(content);
               writable := v.(writable) |}
  else None.

Definition vmo_len (c : Moved) : option Z :=
  match c with
  | ReplyEndpoint => None
  | MovedVmo v => Some (vlen v.(content))
  end.

Definition write_cap (c : Moved) (off : nat) (data : bytes) : option Moved :=
  match c with
  | ReplyEndpoint => None
  | MovedVmo v => MovedVmo <$> vmo_write v off data
  end.

(** The result of the header write is ignored. *)
Definition write_splice_header (c : Moved) (status len : Z) : Moved :=
  default c (write_cap c 0 (encode_splice_header status (len mod 2 ^ 32))).

Definition is_home_path (path : bytes) : bool := negb (starts_with (str "pkg:") path).

Definition write_op (op : Z) : bool :=
  existsb (Z.eqb op) [Fileops.OP_MKDIR; Fileops.OP_CREATE; Fileops.OP_WRITE_TEXT; Fileops.OP_REMOVE;
                      Fileops.OP_RENAME; Fileops.OP_COPY].

Definition targets_home (frame : bytes) : bool :=
  match frame with
  | [] => false
  | op :: payload =>
      if write_op op then true
      else if op =? OPCODE_STAT then is_home_path (utf8_or_empty payload)
      else if (op =? OPCODE_READDIR) && (7 <? length frame)%nat then is_home_path (utf8_or_empty (drop 7 frame))
      else false
  end.

Definition data_unavailable (opcode : Z) : bytes :=
  if opcode =? OPCODE_READDIR then readdir_unavailable
  else if opcode =? OPCODE_STAT then stat_unavailable
  else write_unavailable.

Section Server.
Context {D : Type} `{BlockDevice D}.

(** What the service sees of its surroundings during one request: the answers
    of packagefsd to a frame ([None] when the hop fails), the block device
    ([None] while it cannot be driven), and whether a send on the shared reply
    endpoint goes through. *)
Record Env := {
  pkgfsd : bytes → option bytes;
  device : option D;
  send_ok : bool
}.

Record State := {
  handles : gmap Z FileHandle;
  next_handle : Z;
  data : option (Fs.Nxfs D);
  data_attempts : Z;
  splice_bytes : Z;
  splice_fallbacks : Z
}.

Definition init : State :=
  {| handles := ∅; next_handle := 1; data := None; data_attempts := 0; splice_bytes := 0; splice_fallbacks := 0 |}.

Definition set_data (st : State) (d : option (Fs.Nxfs D)) : State :=
  {| handles := st.(handles); next_handle := st.(next_handle); data := d; data_attempts := st.(data_attempts);
     splice_bytes := st.(splice_bytes); splice_fallbacks := st.(splice_fallbacks) |}.

Definition set_handles (st : State) (h : gmap Z FileHandle) (n : Z) : State :=
  {| handles := h; next_handle := n; data := st.(data); data_attempts := st.(data_attempts);
     splice_bytes := st.(splice_bytes); splice_fallbacks := st.(splice_fallbacks) |}.

Definition add_fallback (st : State) : State :=
  {| handles := st.(handles); next_handle := st.(next_handle); data := st.(data); data_attempts := st.(data_attempts);
     splice_bytes := st.(splice_bytes); splice_fallbacks := (st.(splice_fallbacks) + 1) mod 2 ^ 64 |}.

Definition add_spliced (st : State) (n : Z) : State :=
  {| handles := st.(handles); next_handle := st.(next_handle); data := st.(data); data_attempts := st.(data_attempts);
     splice_bytes := Z.min (st.(splice_bytes) + n) (2 ^ 64 - 1); splice_fallbacks := st.(splice_fallbacks) |}.

(** The store is acquired on demand, in eight attempts at most. *)
Definition ensure_data (e : Env) (st : State) : State :=
  match st.(data) with
  | None =>
      if st.(data_attempts) <? MAX_DATA_ATTEMPTS then
        {| handles := st.(handles); next_handle := st.(next_handle); data := acquire e.(device);
           data_attempts := st.(data_attempts) + 1; splice_bytes := st.(splice_bytes);
           splice_fallbacks := st.(splice_fallbacks) |}
      else st
  | Some _ => st
  end.

(** ** The package namespace *)

Definition packagefs_resolve (e : Env) (path : bytes) : result Entry Error :=
  match assert_allowed Namespace_new path with
  | Err _ => Err Lite.InvalidPath
  | Ok canonical =>
      if starts_with (str "pkg:/") canonical then
        match e.(pkgfsd) (PKGFS_OPCODE_RESOLVE :: drop 5 canonical) with
        | None => Err Lite.Transport
        | Some rsp =>
            if (length rsp <? 11)%nat || negb (bool_decide (take 1 rsp = [1])) then Err Lite.NotFound
            else Ok {| en_kind := le_value (slice 9 11 rsp); en_size := le_value (slice 1 9 rsp);
                       en_bytes := drop 11 rsp |}
        end
      else Err Lite.InvalidPath
  end.

Definition namespace_stat (e : Env) (path : bytes) : result Entry Error :=
  if starts_with (str "pkg:/") path then packagefs_resolve e path else Err Lite.InvalidPath.

Definition namespace_open (e : Env) (path : bytes) : result bytes Error :=
  if starts_with (str "pkg:/") path then
    let? entry := packagefs_resolve e path in
    if entry.(en_kind) =? KIND_FILE then Ok entry.(en_bytes) else Err Lite.InvalidPath
  else Err Lite.InvalidPath.

(** The path a listing is forwarded with. *)
Definition list_path (path : bytes) : result bytes Vfs.VfsError :=
  if bool_decide (path = str "pkg:/") then Ok [46]
  else
    match assert_allowed Namespace_new path with
    | Err _ => Err Vfs.Access
    | Ok canonical =>
        if starts_with (str "pkg:/") canonical && negb (bool_decide (drop 5 canonical = []))
        then Ok (drop 5 canonical) else Err Vfs.Invalid
    end.

Definition read_dir (e : Env) (payload : bytes) : bytes :=
  match (let? request := decode_readdir_request payload in
         let? rel := list_path request.(rq_path) in
         let? forwarded := encode_readdir_request rel request.(rq_cursor) request.(rq_limit) in
         match e.(pkgfsd) (PKGFS_OPCODE_LIST :: forwarded) with
         | None => Err Vfs.Io
         | Some buf => let? _ := decode_readdir_response buf in Ok buf
         end) with
  | Ok buf => buf
  | Err err => encode_readdir_error err
  end.

(** ** Reads into a VMO *)

(** The bytes of a path, from the provider that owns it. *)
Definition resolve_bytes (e : Env) (st : State) (path : bytes) (max : Z) : State * result bytes Vfs.VfsError :=
  if is_home_path path then
    let st := ensure_data e st in
    (st, match st.(data) with
         | Some store => read_bytes store path max
         | None => Err Vfs.Io
         end)
  else if starts_with (str "pkg:/") path then
    (st, match namespace_open e path with
         | Ok b => Ok b
         | Err _ => Err Vfs.NotFound
         end)
  else (st, Err Vfs.NotFound).

Definition handle_read_vmo (e : Env) (st : State) (payload : bytes) (cap : option Moved) : State * option Moved :=
  match cap with
  | None => (add_fallback st, None)
  | Some vmo =>
      match decode_read_vmo_request payload with
      | None => (st, Some (write_splice_header vmo (Vfs.code Vfs.Invalid) 0))
      | Some path =>
          match vmo_len vmo with
          | Some cap =>
              if Z.of_nat SPLICE_DATA_OFFSET <? cap then
                let max_payload := cap - Z.of_nat SPLICE_DATA_OFFSET in
                match resolve_bytes e st path max_payload with
                | (st, Ok b) =>
                    if vlen b <=? max_payload then
                      match write_cap vmo SPLICE_DATA_OFFSET b with
                      | Some vmo => (add_spliced st (vlen b), Some (write_splice_header vmo Vfs.CODE_OK (vlen b)))
                      | None => (add_fallback st, Some (write_splice_header vmo (Vfs.code Vfs.Io) 0))
                      end
                    else (st, Some (write_splice_header vmo (Vfs.code Vfs.TooBig) 0))
                | (st, Err err) => (st, Some (write_splice_header vmo (Vfs.code err) 0))
                end
              else (add_fallback st, Some (write_splice_header vmo (Vfs.code Vfs.Io) 0))
          | None => (add_fallback st, Some (write_splice_header vmo (Vfs.code Vfs.Io) 0))
          end
      end
  end.

(** ** The loop *)

(** [STAT], [OPEN], [READ], [CLOSE] and [READDIR] on the package namespace and
    the open handles; [None] when the frame is dropped without a reply. *)
Definition serve_pkg (e : Env) (st : State) (sender : Z) (frame : bytes) : State * option bytes :=
  match frame with
  | [] => (st, None)
  | opcode :: payload =>
      if opcode =? OPCODE_STAT then
        (st, Some match namespace_stat e (utf8_or_empty payload) with
                  | Ok entry => [1] ++ le_bytes 8 entry.(en_size) ++ le_bytes 2 entry.(en_kind)
                  | Err _ => [0]
                  end)
      else if opcode =? OPCODE_OPEN then
        match namespace_open e (utf8_or_empty payload) with
        | Ok b =>
            let fh := st.(next_handle) in
            (set_handles st (<[fh := {| owner_service_id := sender; fh_bytes := b |}]> st.(handles))
               (Z.max ((fh + 1) mod 2 ^ 32) 1),
             Some ([1] ++ le_bytes 4 fh))
        | Err _ => (st, Some [0])
        end
      else if opcode =? OPCODE_READ then
        if (length frame <? 17)%nat then (st, None)
        else
          let fh := le_value (slice 1 5 frame) in
          let off := le_value (slice 5 13 frame) in
          let len := le_value (slice 13 17 frame) in
          (st, Some (if INLINE_IO_MAX <? len then [2]
                     else match st.(handles) !! fh with
                          | Some h =>
                              if h.(owner_service_id) =? sender then
                                let start := Z.min off (vlen h.(fh_bytes)) in
                                1 :: slice (Z.to_nat start) (Z.to_nat (Z.min (start + len) (vlen h.(fh_bytes)))) h.(fh_bytes)
                              else [0]
                          | None => [0]
                          end))
      else if opcode =? OPCODE_CLOSE then
        if (length frame <? 5)%nat then (st, None)
        else
          let fh := le_value (slice 1 5 frame) in
          match st.(handles) !! fh with
          | Some h =>
              if h.(owner_service_id) =? sender
              then (set_handles st (delete fh st.(handles)) st.(next_handle), Some [1])
              else (st, Some [0])
          | None => (st, Some [0])
          end
      else if opcode =? OPCODE_READDIR then (st, Some (read_dir e payload))
      else (st, None)
  end.

(** A home frame, answered by the store. *)
Definition serve_home (e : Env) (st : State) (frame : bytes) : State * bytes :=
  let st := ensure_data e st in
  match st.(data) with
  | Some store => let '(store, out) := handle store frame in (set_data st (Some store), out)
  | None => (st, data_unavailable (hd 0 frame))
  end.

Record Request := { frame : bytes; sender : Z; moved : option Moved }.

(** What the caller gets: nothing, a reply frame, or its VMO back filled. *)
Inductive Outcome :=
| Dropped
| Replied (reply : bytes)
| Filled (vmo : option Moved).

(** A reply goes to the moved endpoint, result ignored, or to the shared one,
    whose failure ends the service. *)
Definition send_reply (e : Env) (req : Request) (reply : bytes) : result Outcome Error :=
  match req.(moved) with
  | Some _ => Ok (Replied reply)
  | None => if e.(send_ok) then Ok (Replied reply) else Err Lite.Transport
  end.

(** One request. *)
Definition step (e : Env) (st : State) (req : Request) : result (State * Outcome) Error :=
  match req.(frame) with
  | [] => Ok (st, Dropped)
  | opcode :: payload =>
      if opcode =? OP_READ_VMO then
        let '(st, vmo) := handle_read_vmo e st payload req.(moved) in Ok (st, Filled vmo)
      else if targets_home req.(frame) then
        let '(st, reply) := serve_home e st req.(frame) in
        let? out := send_reply e req reply in Ok (st, out)
      else
        match serve_pkg e st req.(sender) req.(frame) with
        | (st, Some reply) => let? out := send_reply e req reply in Ok (st, out)
        | (st, None) => Ok (st, Dropped)
        end
  end.

Inductive IpcError := WouldBlock | Timeout | Disconnected | OtherIpc.

(** One turn of the loop on what the receive returned. *)
Definition turn (e : Env) (st : State) (received : result Request IpcError) : result (State * Outcome) Error :=
  match received with
  | Ok req => step e st req
  | Err (WouldBlock | Timeout) => Ok (st, Dropped)
  | Err (Disconnected | OtherIpc) => Err Lite.Transport
  end.

(** The loop over a sequence of turns, up to the one that ends it. *)
Fixpoint run_loop (st : State) (turns : list (Env * result Request IpcError))
    : State * list Outcome * option Error :=
  match turns with
  | [] => (st, [], None)
  | (e, r) :: turns =>
      match turn e st r with
      | Err err => (st, [], Some err)
      | Ok (st, out) => let '(st, outs, end_) := run_loop st turns in (st, out :: outs, end_)
      end
  end.

End Server.

(** ** Path confinement *)

(** A segment that names something: not empty, not [.], not [..]. *)
Definition normal_segment (seg : bytes) : Prop :=
  seg ≠ [] ∧ seg ≠ [46] ∧ seg ≠ [46; 46] ∧ Forall (fun b => b ≠ 47) seg.

Lemma split_on_no_sep c s : Forall (Forall (fun b => b ≠ c)) (split_on c s).
Proof.
  induction s as [|b s IH]; cbn [split_on]; [by repeat constructor|].
  destruct (Z.eqb_spec b c); [by constructor|].
  destruct (split_on c s) as [|seg segs]; [by repeat constructor|].
  inversion_clear IH. by repeat constructor.
Qed.

Lemma keep_segments_normal segs out :
  Forall (Forall (fun b => b ≠ 47)) segs → keep_segments segs = Ok out → Forall normal_segment out.
Proof.
  intros Hs. revert out. induction Hs as [|seg segs Hseg _ IH]; intros out; cbn [keep_segments].
  { intros [= <-]. constructor. }
  destruct (bool_decide_reflect (seg = [])); cbn [orb]; [apply IH|].
  destruct (bool_decide_reflect (seg = [46])); [apply IH|].
  destruct (bool_decide_reflect (seg = [46; 46])); [done|].
  destruct (keep_segments segs) as [o|]; [|done]. intros [= <-]. constructor; [done|by apply IH].
Qed.

Lemma keep_segments_id segs : Forall normal_segment segs → keep_segments segs = Ok segs.
Proof.
  induction 1 as [|seg segs (H1 & H2 & H3 & _) _ IH]; [done|]. cbn [keep_segments].
  by rewrite !bool_decide_eq_false_2, IH.
Qed.

Lemma split_on_none c s : Forall (fun b => b ≠ c) s → split_on c s = [s].
Proof. induction 1 as [|b s Hb _ IH]; [done|]. cbn [split_on]. by rewrite (proj2 (Z.eqb_neq b c) Hb), IH. Qed.

Lemma split_on_app c s t : Forall (fun b => b ≠ c) s → split_on c (s ++ c :: t) = s :: split_on c t.
Proof.
  induction 1 as [|b s Hb _ IH]; cbn [app split_on]; [by rewrite Z.eqb_refl|].
  by rewrite (proj2 (Z.eqb_neq b c) Hb), IH.
Qed.

Lemma split_join segs : segs ≠ [] → Forall normal_segment segs → split_on 47 (join_segments segs) = segs.
Proof.
  intros Hne Hs. induction Hs as [|seg segs (_ & _ & _ & Hn) Hs IH]; [done|]. cbn [join_segments].
  destruct segs as [|seg' segs]; [by apply split_on_none|]. rewrite split_on_app by done. by rewrite IH.
Qed.

Lemma join_ne segs : segs ≠ [] → Forall normal_segment segs → join_segments segs ≠ [].
Proof.
  intros Hne Hs. destruct Hs as [|seg segs (Hn & _) _]; [done|]. destruct seg; [done|]. by destruct segs.
Qed.

Lemma starts_with_app root s : starts_with root (root ++ s) = true.
Proof. unfold starts_with. apply bool_decide_eq_true_2. by rewrite take_app_length. Qed.

Lemma starts_with_prefix root s : starts_with root s = true → s = root ++ drop (length root) s.
Proof. intros Hp%bool_decide_eq_true_1. by rewrite <- Hp at 1; rewrite take_drop. Qed.

Lemma split_once_app s x y z : split_once s = Some (x, y) → split_once (x ++ 58 :: 47 :: z) = Some (x, z).
Proof.
  revert x. induction s as [|b s IH]; intros x; [done|]. cbn [split_once].
  destruct (starts_with [58; 47] (b :: s)) eqn:Ep.
  { intros [= <- _]. done. }
  destruct (split_once s) as [[x' y']|] eqn:Es; [|done]. intros [= <- <-].
  cbn [app split_once]. rewrite (IH x') by done.
  assert (Hn : starts_with [58; 47] (b :: x' ++ 58 :: 47 :: z) = false); [|by rewrite Hn].
  apply bool_decide_eq_false_2. apply bool_decide_eq_false_1 in Ep.
  destruct x' as [|c x']; [done|]. destruct s as [|c' s]; [done|]. cbn [split_once] in Es.
  destruct (starts_with [58; 47] (c' :: s)); [done|].
  destruct (split_once s) as [[x0 y0]|]; [|done]. injection Es as -> <- <-. done.
Qed.

(** The shape of a canonical path. *)
Lemma canonicalize_shape path c :
  canonicalize_path path = Ok c →
  ∃ scheme rest segs, split_once path = Some (scheme, rest) ∧ keep_segments (split_on 47 rest) = Ok segs ∧
    c = format_canonical scheme segs ∧ scheme ≠ [] ∧ segs ≠ [] ∧ Forall normal_segment segs.
Proof.
  unfold canonicalize_path. destruct (split_once path) as [[scheme rest]|]; [|done].
  destruct (bool_decide_reflect (scheme = [])); [done|].
  destruct (bool_decide_reflect (rest = [])); [done|]. cbn [orb].
  destruct (keep_segments (split_on 47 rest)) as [segs|] eqn:Ek; [|done]. cbn [result_bind].
  destruct (bool_decide_reflect (segs = [])); [done|]. intros [= <-].
  exists scheme, rest, segs. split_and!; try done. eapply keep_segments_normal; [|done]. apply split_on_no_sep.
Qed.

Lemma canonicalize_fixed path c : canonicalize_path path = Ok c → canonicalize_path c = Ok c.
Proof.
  intros (scheme & rest & segs & Hs & _ & -> & Hne & Hsegs & Hn)%canonicalize_shape.
  unfold canonicalize_path, format_canonical. cbn [app]. rewrite (split_once_app path scheme rest _ Hs).
  rewrite !bool_decide_eq_false_2 by (done || by apply join_ne). cbn [orb].
  rewrite split_join, keep_segments_id by done. cbn [result_bind]. by rewrite bool_decide_eq_false_2.
Qed.

(** The segments that name something. *)
Definition real_segments (rest : bytes) : list bytes :=
  List.filter (fun g => negb (bool_decide (g = []) || bool_decide (g = [46]))) (split_on 47 rest).

Lemma keep_segments_spec l :
  keep_segments l =
    if existsb (fun g => bool_decide (g = [46; 46])) l then Err Traversal
    else Ok (List.filter (fun g => negb (bool_decide (g = []) || bool_decide (g = [46]))) l).
Proof.
  induction l as [|g l IH]; [done|]. cbn [keep_segments existsb List.filter].
  destruct (bool_decide_reflect (g = [])) as [->|]; cbn [orb negb]; [done|].
  destruct (bool_decide_reflect (g = [46])) as [->|]; cbn [orb negb]; [done|].
  destruct (bool_decide_reflect (g = [46; 46])); cbn [orb]; [done|]. rewrite IH. by destruct (existsb _ l).
Qed.

(** The sandbox admits a path only as a canonical path inside the view: it
    is the scheme of the given path followed by its segments without empty ones
    and [.]; no segment is [..], so it cannot leave the root it starts with; and
    admission is idempotent.  A path with a [..] segment is never admitted. *)
Theorem sandbox_confined view path :
  match assert_allowed view path with
  | Ok c =>
      ∃ scheme rest root,
        split_once path = Some (scheme, rest) ∧ root ∈ view.(roots) ∧
        let segs := real_segments rest in
        c = format_canonical scheme segs ∧ segs ≠ [] ∧ Forall normal_segment segs ∧
        c = root ++ drop (length root) c ∧ assert_allowed view c = Ok c
  | Err _ =>
      ∀ scheme rest, split_once path = Some (scheme, rest) → scheme ≠ [] →
        Forall (fun g => g ≠ [46; 46]) (split_on 47 rest) →
        (∃ g, g ∈ split_on 47 rest ∧ g ≠ [] ∧ g ≠ [46]) →
        Forall (fun root => starts_with root (format_canonical scheme (real_segments rest)) = false)
          view.(roots)
  end.
Proof.
  destruct (assert_allowed view path) as [c|err] eqn:E; unfold assert_allowed in E.
  - destruct (canonicalize_path path) as [c'|] eqn:Ec; [|done]. cbn [result_bind] in E.
    destruct (existsb _ view.(roots)) eqn:Ex; [|done]. injection E as ->.
    destruct (canonicalize_shape _ _ Ec) as (scheme & rest & segs & Hs & Hk & Hc & _ & Hne & Hn).
    pose proof Ex as (root & Hin & Hr)%existsb_exists. rewrite keep_segments_spec in Hk.
    destruct (existsb _ (split_on 47 rest)); [done|]. injection Hk as Hk.
    exists scheme, rest, root. cbn zeta. unfold real_segments. rewrite Hk. split_and!; try done.
    + by apply list_elem_of_In.
    + by apply starts_with_prefix.
    + unfold assert_allowed. rewrite (canonicalize_fixed _ _ Ec). cbn [result_bind]. by rewrite Ex.
  - intros scheme rest Hs Hsc Hdd (g & Hg & Hg1 & Hg2). unfold canonicalize_path in E. rewrite Hs, keep_segments_spec in E.
    destruct (existsb (fun g => bool_decide (g = [46; 46])) (split_on 47 rest)) eqn:Edd.
    { apply existsb_exists in Edd as (x & Hx%list_elem_of_In & Hx2%bool_decide_eq_true_1).
      rewrite Forall_forall in Hdd. by destruct (Hdd x). }
    fold (real_segments rest) in E. set (segs := real_segments rest) in *. cbn [result_bind] in E.
    assert (Hin : List.In g segs).
    { apply filter_In. split; [by apply list_elem_of_In|]. by rewrite !bool_decide_eq_false_2. }
    rewrite (bool_decide_eq_false_2 (scheme = [])) in E by done. cbn [orb] in E.
    destruct (bool_decide_reflect (rest = [])) as [->|Hr].
    { cbn in Hg. apply list_elem_of_singleton in Hg. done. }
    rewrite (bool_decide_eq_false_2 (segs = [])) in E by (intros E0; by rewrite E0 in Hin).
    cbn [result_bind] in E. destruct (existsb _ view.(roots)) eqn:Ex; [done|].
    apply Forall_forall. intros root Hroot%list_elem_of_In. apply not_true_is_false. intros Ht.
    rewrite <- not_true_iff_false, existsb_exists in Ex. apply Ex. by exists root.
Qed.

(** ** What packagefsd is asked *)

(** A frame with a relative path of plain segments, or a listing of the root. *)
Definition confined_frame (f : bytes) : Prop :=
  (∃ segs, segs ≠ [] ∧ Forall normal_segment segs ∧
     (f = PKGFS_OPCODE_RESOLVE :: join_segments segs ∨
      ∃ c l, f = PKGFS_OPCODE_LIST :: le_bytes 4 c ++ le_bytes 2 l ++ join_segments segs)) ∨
  ∃ c l, f = PKGFS_OPCODE_LIST :: le_bytes 4 c ++ le_bytes 2 l ++ [46].

Lemma allowed_pkg path c :
  assert_allowed Namespace_new path = Ok c →
  starts_with (str "pkg:/") c = true ∧ ∃ segs, segs ≠ [] ∧ Forall normal_segment segs ∧ drop 5 c = join_segments segs.
Proof.
  unfold assert_allowed. destruct (canonicalize_path path) as [c'|] eqn:Ec; [|done]. cbn [result_bind].
  destruct (existsb _ _) eqn:Ex; [|done]. intros [= <-]. cbn [roots Namespace_new existsb] in Ex.
  rewrite orb_false_r in Ex. split; [done|].
  destruct (canonicalize_shape _ _ Ec) as (scheme & rest & segs & Hs & _ & -> & _ & Hne & Hn).
  exists segs. split_and!; try done. unfold format_canonical in *. cbn [app] in *.
  pose proof (split_once_app path scheme rest (join_segments segs) Hs) as Hq.
  rewrite (starts_with_prefix _ _ Ex) in Hq |- *.
  set (tail := drop _ _) in *. clearbody tail. cbn in Hq |- *. injection Hq as _ Hj. by rewrite <- Hj.
Qed.

Section Confined.
Context {D : Type} `{BlockDevice D}.
Implicit Types (e : Env (D := D)) (st : State (D := D)).

(** Two surroundings that differ only in what packagefsd answers to frames it
    must not get. *)
Definition env_agree (e e' : Env (D := D)) : Prop :=
  e.(device) = e'.(device) ∧ e.(send_ok) = e'.(send_ok) ∧
  ∀ f, confined_frame f → e.(pkgfsd) f = e'.(pkgfsd) f.

Lemma resolve_confined e e' path : env_agree e e' → packagefs_resolve e path = packagefs_resolve e' path.
Proof.
  intros (_ & _ & Hp). unfold packagefs_resolve. destruct (assert_allowed Namespace_new path) as [c|] eqn:Ea; [|done].
  destruct (allowed_pkg _ _ Ea) as (Hs & segs & Hne & Hn & Hd). rewrite Hs, Hd.
  rewrite Hp; [done|]. left. exists segs. auto.
Qed.

Lemma open_confined e e' path : env_agree e e' → namespace_open e path = namespace_open e' path.
Proof. intros He. unfold namespace_open. by rewrite (resolve_confined e e'). Qed.

Lemma list_path_confined path rel :
  list_path path = Ok rel → rel = [46] ∨ ∃ segs, segs ≠ [] ∧ Forall normal_segment segs ∧ rel = join_segments segs.
Proof.
  unfold list_path. destruct (bool_decide (path = _)); [intros [= <-]; by left|].
  destruct (assert_allowed Namespace_new path) as [c|] eqn:Ea; [|done].
  destruct (allowed_pkg _ _ Ea) as (_ & segs & Hne & Hn & Hd). destruct (_ && _); [|done].
  intros [= <-]. right. by exists segs.
Qed.

Lemma read_dir_confined e e' payload : env_agree e e' → read_dir e payload = read_dir e' payload.
Proof.
  intros (_ & _ & Hp). unfold read_dir. destruct (decode_readdir_request payload) as [rq|]; [|done].
  cbn [result_bind]. destruct (list_path _) as [rel|] eqn:El; [|done]. cbn [result_bind].
  unfold encode_readdir_request. destruct (path_bounds rel); [|done]. cbn [result_bind]. rewrite Hp; [done|].
  destruct (list_path_confined _ _ El) as [->|(segs & Hne & Hn & ->)]; [right; by eexists _, _|].
  left. exists segs. split_and!; try done. right. by eexists _, _.
Qed.

Lemma serve_pkg_confined e e' st sender frame :
  env_agree e e' → serve_pkg e st sender frame = serve_pkg e' st sender frame.
Proof.
  intros He. unfold serve_pkg. destruct frame as [|op payload]; [done|].
  rewrite (open_confined e e'), (read_dir_confined e e') by done. unfold namespace_stat.
  by rewrite (resolve_confined e e').
Qed.

Lemma read_vmo_confined e e' st payload cap :
  env_agree e e' → handle_read_vmo e st payload cap = handle_read_vmo e' st payload cap.
Proof.
  intros He. unfold handle_read_vmo, resolve_bytes, ensure_data.
  destruct cap; [|done]. destruct (decode_read_vmo_request payload) as [path|]; [|done].
  rewrite (open_confined e e') by done. by destruct He as (-> & _).
Qed.

End Confined.

(** C31: path confinement of the running service: whatever a client sends, the
    service depends on packagefsd only through its answers to frames whose path
    is relative and made of plain segments (or the root listing); what
    packagefsd would answer to any other frame, one with a [..] for instance,
    has no influence on the replies or the state. *)
Theorem vfsd_pkg_confined {D} `{BlockDevice D} (e e' : Env (D := D)) st req :
  env_agree e e' → step e st req = step e' st req.
Proof.
  intros He. unfold step, send_reply. destruct (frame req) as [|op payload] eqn:Ef; [done|].
  rewrite (read_vmo_confined e e'), (serve_pkg_confined e e') by done.
  unfold serve_home, ensure_data. by destruct He as (-> & -> & _).
Qed.

(** Asked with [..], the service does not even reach packagefsd. *)
Lemma vfsd_pkg_confined_witness :
  let e ans := {| pkgfsd := ans; device := None (A := Mem.MemBlockDevice); send_ok := true |} in
  let req := {| frame := OPCODE_STAT :: str "pkg:/a/../b"; sender := 7; moved := None |} in
  let leak f := if bool_decide (f = 2 :: str "a/../b") then Some (1 :: repeat 0 10) else None in
  step (e leak) init req = step (e (fun _ => None)) init req.
Proof.
  intros e req leak. apply vfsd_pkg_confined. split_and!; [reflexivity..|]. intros f Hf. cbn [pkgfsd e]. unfold leak.
  destruct (bool_decide_reflect (f = 2 :: str "a/../b")) as [->|]; [|reflexivity]. exfalso.
  destruct Hf as [(segs & Hne & Hn & [Hj|(c & l & Hj)])|(c & l & Hj)]; [|discriminate..].
  injection Hj as Hj. pose proof (split_join segs Hne Hn) as Hs. rewrite <- Hj in Hs. vm_compute in Hs.
  subst segs. apply (Forall_lookup_1 _ _ 1%nat [46; 46]) in Hn; [|reflexivity]. by destruct Hn as (_ & _ & Hd & _).
Defined.

(** ** File handles *)

Definition open_request (s : Z) (path : bytes) (m : option Moved) : Request :=
  {| frame := OPCODE_OPEN :: path; sender := s; moved := m |}.
Definition read_request (s h off len : Z) : Request :=
  {| frame := OPCODE_READ :: le_bytes 4 h ++ le_bytes 8 off ++ le_bytes 4 len; sender := s; moved := Some ReplyEndpoint |}.
Definition close_request (s h : Z) : Request :=
  {| frame := OPCODE_CLOSE :: le_bytes 4 h; sender := s; moved := Some ReplyEndpoint |}.

(** A [CLOSE] of [h] by [s]. *)
Definition closes (s h : Z) (req : Request) : bool :=
  bool_decide (take 1 req.(frame) = [OPCODE_CLOSE]) && (req.(sender) =? s) && (le_value (slice 1 5 req.(frame)) =? h).

Section Handles.
Context {D : Type} `{BlockDevice D}.
Implicit Types (e : Env (D := D)) (st : State (D := D)).

(** What a request does to the table of handles. *)
Inductive handles_step st (req : Request) (st' : State (D := D)) : Prop :=
| handles_same : st'.(handles) = st.(handles) → st'.(next_handle) = st.(next_handle) → handles_step st req st'
| handles_open b :
    st'.(handles) = <[st.(next_handle) := {| owner_service_id := req.(sender); fh_bytes := b |}]> st.(handles) →
    st'.(next_handle) = Z.max ((st.(next_handle) + 1) mod 2 ^ 32) 1 → handles_step st req st'
| handles_close h fh :
    st.(handles) !! h = Some fh → closes fh.(owner_service_id) h req = true →
    st'.(handles) = delete h st.(handles) → st'.(next_handle) = st.(next_handle) → handles_step st req st'.

Lemma ensure_handles e st :
  (ensure_data e st).(handles) = st.(handles) ∧ (ensure_data e st).(next_handle) = st.(next_handle).
Proof. unfold ensure_data. by repeat case_match. Qed.

Lemma serve_home_handles e st frame st' reply :
  serve_home e st frame = (st', reply) → st'.(handles) = st.(handles) ∧ st'.(next_handle) = st.(next_handle).
Proof.
  unfold serve_home. destruct (ensure_handles e st) as [<- <-].
  destruct (data _) as [store|]; [destruct (handle store frame)|]; by intros [= <- <-].
Qed.

Lemma resolve_bytes_handles e st path max st' r :
  resolve_bytes e st path max = (st', r) → st'.(handles) = st.(handles) ∧ st'.(next_handle) = st.(next_handle).
Proof.
  unfold resolve_bytes. pose proof (ensure_handles e st). repeat case_match; intros [= <- <-]; done.
Qed.

Lemma read_vmo_handles e st payload cap st' out :
  handle_read_vmo e st payload cap = (st', out) →
  st'.(handles) = st.(handles) ∧ st'.(next_handle) = st.(next_handle).
Proof.
  unfold handle_read_vmo. destruct cap as [vmo|]; [|by intros [= <- <-]].
  destruct (decode_read_vmo_request payload) as [path|]; [|by intros [= <- <-]].
  destruct (vmo_len vmo) as [n|]; [|by intros [= <- <-]]. destruct (_ <? n); [|by intros [= <- <-]].
  destruct (resolve_bytes e st path _) as [st1 r] eqn:Er. apply resolve_bytes_handles in Er as [<- <-].
  repeat case_match; by intros [= <- <-].
Qed.

Lemma serve_pkg_handles e st req st' reply :
  serve_pkg e st req.(sender) req.(frame) = (st', reply) → handles_step st req st'.
Proof.
  unfold serve_pkg. destruct (frame req) as [|op payload] eqn:Ef; [intros [= <- <-]; by constructor|].
  destruct (op =? OPCODE_STAT); [intros [= <- <-]; by constructor|].
  destruct (op =? OPCODE_OPEN).
  { destruct (namespace_open _ _) as [b|]; intros [= <- <-]; [by apply (handles_open _ _ _ b)|by constructor]. }
  destruct (op =? OPCODE_READ); [destruct (_ <? 17)%nat; intros [= <- <-]; by constructor|].
  destruct (Z.eqb_spec op OPCODE_CLOSE) as [->|].
  - destruct (_ <? 5)%nat; [intros [= <- <-]; by constructor|].
    destruct (handles st !! _) as [fh|] eqn:Eh; [|intros [= <- <-]; by constructor].
    destruct (Z.eqb_spec (owner_service_id fh) (sender req)) as [Ho|]; intros [= <- <-]; [|by constructor].
    eapply handles_close; [exact Eh| |done..]. unfold closes. rewrite Ef, Ho, !Z.eqb_refl.
    by rewrite bool_decide_eq_true_2.
  - destruct (op =? OPCODE_READDIR); intros [= <- <-]; by constructor.
Qed.

Lemma step_handles e st req st' out : step e st req = Ok (st', out) → handles_step st req st'.
Proof.
  unfold step. destruct (frame req) as [|op payload] eqn:Ef; [intros [= <- <-]; by constructor|].
  destruct (op =? OP_READ_VMO).
  { destruct (handle_read_vmo e st payload (moved req)) as [st1 vmo] eqn:Ev. intros [= <- <-].
    apply read_vmo_handles in Ev as []. by constructor. }
  rewrite <- Ef. destruct (targets_home (frame req)).
  - destruct (serve_home e st (frame req)) as [st1 reply] eqn:Es. destruct (send_reply e req reply); [|done].
    intros [= <- <-]. apply serve_home_handles in Es as []. by constructor.
  - destruct (serve_pkg e st (sender req) (frame req)) as [st1 [reply|]] eqn:Es;
      [destruct (send_reply e req reply); [|done]|]; intros [= <- <-]; by eapply serve_pkg_handles.
Qed.

(** Handles in use are below the counter, which counts the opens. *)
Definition handles_below (n : Z) st : Prop :=
  1 ≤ st.(next_handle) ≤ n ∧ ∀ h fh, st.(handles) !! h = Some fh → 1 ≤ h < st.(next_handle).

Lemma step_below n e st req st' out :
  handles_below n st → n < 2 ^ 32 - 1 → step e st req = Ok (st', out) → handles_below (n + 1) st'.
Proof.
  intros [Hn Hb] Hl [Eh En|b Eh En|h fh Hh _ Eh En]%step_handles; unfold handles_below; rewrite Eh, En.
  - split; [lia|done].
  - rewrite Z.mod_small by lia. split; [lia|]. intros h fh. rewrite lookup_insert_Some.
    intros [[<- _]|[_ Hh]]; [lia|]. apply Hb in Hh. lia.
  - split; [lia|]. intros h' fh'. rewrite lookup_delete_Some. intros [_ Hh']. by eapply Hb.
Qed.

(** A handle stays what it is until its owner closes it. *)
Lemma step_keeps n e st req st' out h fh :
  handles_below n st → n < 2 ^ 32 - 1 → step e st req = Ok (st', out) →
  st.(handles) !! h = Some fh → closes fh.(owner_service_id) h req = false → st'.(handles) !! h = Some fh.
Proof.
  intros [_ Hb] _ [Eh _|b Eh _|h' fh' Hh' Hc Eh _]%step_handles Hh Hn; rewrite Eh; [done| |].
  - rewrite lookup_insert_ne; [done|]. apply Hb in Hh. lia.
  - rewrite lookup_delete_ne; [done|]. intros ->. rewrite Hh in Hh'. injection Hh' as <-. congruence.
Qed.

Lemma run_keeps turns : ∀ n st st' outs,
  handles_below n st → n + vlen turns < 2 ^ 32 - 1 → run_loop st turns = (st', outs, None) →
  handles_below (n + vlen turns) st' ∧
  ∀ h fh, st.(handles) !! h = Some fh →
    Forall (fun t => match t.2 with Ok req => closes fh.(owner_service_id) h req = false | Err _ => True end) turns →
    st'.(handles) !! h = Some fh.
Proof.
  induction turns as [|[e r] turns IH]; intros n st st' outs Hb Hn; cbn [run_loop].
  { intros [= <- <-]. change (vlen []) with 0. rewrite Z.add_0_r. by split. }
  assert (Hl : vlen ((e, r) :: turns) = vlen turns + 1) by (unfold vlen; cbn [List.length]; lia). rewrite Hl in *.
  pose proof (vlen_nonneg turns). destruct (turn e st r) as [[st1 out]|] eqn:Et; [|done].
  destruct (run_loop st1 turns) as [[st2 outs'] end_] eqn:Er. intros [= <- <- ->].
  assert (Hb1 : handles_below (n + 1) st1).
  { destruct r as [req|[]]; cbn [turn] in Et; simplify_eq; [by eapply step_below; [..|exact Et]; [|lia]|..].
    all: destruct Hb; split; [lia|done]. }
  destruct (IH (n + 1) st1 st2 outs' Hb1 ltac:(lia) Er) as [Hb2 Hk].
  split; [by replace (n + (vlen turns + 1)) with (n + 1 + vlen turns) by lia|].
  intros h fh Hh Hf. inversion_clear Hf as [|? ? Hf1 Hf2]. apply Hk; [|done].
  destruct r as [req|[]]; cbn [turn] in Et; simplify_eq; try done.
  eapply step_keeps; [exact Hb| |exact Et|done..]. lia.
Qed.

Lemma init_below : handles_below 1 (init (D := D)).
Proof. split; [simpl; lia|]. intros h fh. cbn [init handles]. by rewrite lookup_empty. Qed.

End Handles.

(** The bytes of a read request. *)
Lemma read_request_fields s h off len :
  in_width 32 h → in_width 64 off → in_width 32 len →
  let f := (read_request s h off len).(frame) in
  length f = 17%nat ∧ le_value (slice 1 5 f) = h ∧ le_value (slice 5 13 f) = off ∧ le_value (slice 13 17 f) = len.
Proof.
  intros Hh Ho Hl f. unfold f, read_request. cbn [frame].
  change (OPCODE_READ :: ?r) with ([OPCODE_READ] ++ r).
  split_and!.
  - by rewrite !length_app, !le_bytes_length.
  - rewrite slice_at by (rewrite ?le_bytes_length; done). by apply le_value_bytes.
  - rewrite (app_assoc [OPCODE_READ]), slice_at by (rewrite ?length_app, ?le_bytes_length; done).
    by apply le_value_bytes.
  - rewrite !app_assoc, slice_end by (rewrite ?length_app, ?le_bytes_length; done). by apply le_value_bytes.
Qed.

Lemma close_request_field s h : in_width 32 h → le_value (slice 1 5 (close_request s h).(frame)) = h.
Proof.
  intros Hh. unfold close_request. cbn [frame]. change (OPCODE_CLOSE :: ?r) with ([OPCODE_CLOSE] ++ r).
  rewrite slice_end by (rewrite ?le_bytes_length; done). by apply le_value_bytes.
Qed.

(** Clamping the range is taking from the rest of the file. *)
Lemma clamped_slice (b : bytes) off len :
  0 ≤ off → 0 ≤ len →
  slice (Z.to_nat (Z.min off (vlen b))) (Z.to_nat (Z.min (Z.min off (vlen b) + len) (vlen b))) b
  = take (Z.to_nat len) (drop (Z.to_nat off) b).
Proof.
  intros Ho Hl. unfold slice, vlen. destruct (Z.le_gt_cases (Z.of_nat (length b)) off).
  - rewrite Z.min_r by lia. rewrite !drop_ge by lia. by rewrite !take_nil.
  - rewrite (Z.min_l off) by lia. destruct (Z.le_gt_cases (off + len) (Z.of_nat (length b))).
    + f_equal. lia.
    + rewrite !take_ge; [done|rewrite length_drop; lia..].
Qed.

Section Isolation.
Context {D : Type} `{BlockDevice D}.
Implicit Types (e : Env (D := D)) (st : State (D := D)).

(** The routing of the three handle operations. *)
Lemma step_handle_op e st req op payload :
  req.(frame) = op :: payload → op = OPCODE_OPEN ∨ op = OPCODE_READ ∨ op = OPCODE_CLOSE →
  step e st req =
    match serve_pkg e st req.(sender) req.(frame) with
    | (st, Some reply) => let? out := send_reply e req reply in Ok (st, out)
    | (st, None) => Ok (st, Dropped)
    end.
Proof. unfold step. intros -> [->|[->| ->]]; reflexivity. Qed.

Lemma serve_open e st s path :
  serve_pkg e st s (OPCODE_OPEN :: path) =
    match namespace_open e (utf8_or_empty path) with
    | Ok b =>
        (set_handles st (<[st.(next_handle) := {| owner_service_id := s; fh_bytes := b |}]> st.(handles))
           (Z.max ((st.(next_handle) + 1) mod 2 ^ 32) 1), Some (1 :: le_bytes 4 st.(next_handle)))
    | Err _ => (st, Some [0])
    end.
Proof. reflexivity. Qed.

Lemma send_reply_ok e req reply out : send_reply e req reply = Ok out → out = Replied reply.
Proof. unfold send_reply. repeat case_match; by intros [= <-]. Qed.

Lemma open_reply e st s path m st' h :
  step e st (open_request s path m) = Ok (st', Replied (1 :: le_bytes 4 h)) →
  in_width 32 h → in_width 32 st.(next_handle) →
  ∃ b, namespace_open e (utf8_or_empty path) = Ok b ∧ h = st.(next_handle) ∧
    st'.(handles) !! h = Some {| owner_service_id := s; fh_bytes := b |}.
Proof.
  rewrite (step_handle_op _ _ _ OPCODE_OPEN path) by auto. cbn [open_request frame sender]. rewrite serve_open.
  intros Hs Hh Hn. destruct (namespace_open _ _) as [b|];
    (destruct (send_reply _ _ _) as [out|] eqn:Er; [|done]); apply send_reply_ok in Er as ->;
    cbn [result_bind] in Hs; apply Ok_inj in Hs; apply pair_equal_spec in Hs as [<- Hr]; [|done].
  apply (f_equal (fun o => match o with Replied (_ :: r) => le_value r | _ => 0 end)) in Hr.
  rewrite !le_value_bytes in Hr by done. subst h.
  exists b. split_and!; try done. cbn [handles set_handles]. by rewrite lookup_insert_eq.
Qed.

Lemma read_reply e st s h off len :
  in_width 32 h → in_width 64 off → 0 ≤ len ≤ INLINE_IO_MAX →
  step e st (read_request s h off len) =
    Ok (st, Replied (match st.(handles) !! h with
                     | Some fh => if fh.(owner_service_id) =? s
                                  then 1 :: take (Z.to_nat len) (drop (Z.to_nat off) fh.(fh_bytes)) else [0]
                     | None => [0]
                     end)).
Proof.
  intros Hh Ho Hl. assert (Hw : in_width 32 len) by (unfold in_width, INLINE_IO_MAX in *; lia).
  destruct (read_request_fields s h off len Hh Ho Hw) as (Hf1 & Hf2 & Hf3 & Hf4).
  erewrite step_handle_op by (first [reflexivity|auto]). unfold serve_pkg, read_request at 1 2 3.
  cbn [frame sender]. fold (frame (read_request s h off len)).
  change (OPCODE_READ =? OPCODE_STAT) with false. change (OPCODE_READ =? OPCODE_OPEN) with false.
  change (OPCODE_READ =? OPCODE_READ) with true. cbn iota.
  change (OPCODE_READ :: le_bytes 4 h ++ le_bytes 8 off ++ le_bytes 4 len) with (frame (read_request s h off len)).
  rewrite Hf1, Hf2, Hf3, Hf4. cbn [Nat.ltb Nat.leb].
  rewrite (proj2 (Z.ltb_ge INLINE_IO_MAX len)) by lia. cbn zeta.
  unfold send_reply, read_request. cbn [moved sender result_bind]. do 3 f_equal.
  destruct (handles st !! h) as [fh|]; [|done]. destruct (_ =? s); [|done]. f_equal.
  apply clamped_slice; [apply Ho|lia].
Qed.

Lemma close_reply e st s h :
  in_width 32 h →
  step e st (close_request s h) =
    match st.(handles) !! h with
    | Some fh => if fh.(owner_service_id) =? s
                 then Ok (set_handles st (delete h st.(handles)) st.(next_handle), Replied [1])
                 else Ok (st, Replied [0])
    | None => Ok (st, Replied [0])
    end.
Proof.
  intros Hh. erewrite step_handle_op by (first [reflexivity|auto]). unfold serve_pkg, close_request at 1 2.
  cbn [frame sender]. change (OPCODE_CLOSE =? OPCODE_STAT) with false. change (OPCODE_CLOSE =? OPCODE_OPEN) with false.
  change (OPCODE_CLOSE =? OPCODE_READ) with false. change (OPCODE_CLOSE =? OPCODE_CLOSE) with true. cbn iota.
  change (OPCODE_CLOSE :: le_bytes 4 h) with (frame (close_request s h)).
  rewrite (close_request_field s h Hh). cbn zeta.
  change (length (frame (close_request s h)) <? 5)%nat with false. cbn iota.
  destruct (handles st !! h) as [fh|]; [|done]. cbn [close_request sender]. by destruct (_ =? s).
Qed.

End Isolation.

(** A file handle is private to the service that opened it and stays valid
    until that service closes it.  After any history of the service, once an
    [OPEN] by [s] has answered handle [h], whatever requests of whatever
    clients follow (none of them a [CLOSE] of [h] by [s], and fewer than
    2^32 - 2 requests in all), [s] reads at every offset exactly the bytes
    packagefsd gave for the file at the open, and every other service is
    refused both [READ] and [CLOSE] of [h] without any effect. *)
Theorem vfsd_handles_private {D} `{BlockDevice D} before st0 outs0 (e : Env (D := D)) s path m st1 h after st2 outs :
  run_loop init before = (st0, outs0, None) →
  step e st0 (open_request s path m) = Ok (st1, Replied (1 :: le_bytes 4 h)) → in_width 32 h →
  run_loop st1 after = (st2, outs, None) →
  Forall (fun t => match t.2 with Ok req => closes s h req = false | Err _ => True end) after →
  vlen before + vlen after < 2 ^ 32 - 3 →
  ∃ b, namespace_open e (utf8_or_empty path) = Ok b ∧
    (∀ e' off len, in_width 64 off → 0 ≤ len ≤ INLINE_IO_MAX →
       step e' st2 (read_request s h off len) =
         Ok (st2, Replied (1 :: take (Z.to_nat len) (drop (Z.to_nat off) b)))) ∧
    (∀ e' s' off len, s' ≠ s → in_width 64 off → 0 ≤ len ≤ INLINE_IO_MAX →
       step e' st2 (read_request s' h off len) = Ok (st2, Replied [0])) ∧
    (∀ e' s', s' ≠ s → step e' st2 (close_request s' h) = Ok (st2, Replied [0])).
Proof.
  intros Hb Ho Hh Ha Hc Hl. pose proof (vlen_nonneg before). pose proof (vlen_nonneg after).
  destruct (run_keeps before 1 init st0 outs0 init_below ltac:(lia) Hb) as [Hb0 _].
  destruct (open_reply e st0 s path m st1 h Ho Hh) as (b & Hop & _ & Hlk).
  { destruct Hb0. unfold in_width. lia. }
  assert (Hb1 : handles_below (1 + vlen before + 1) st1) by (eapply step_below; [exact Hb0|lia|exact Ho]).
  destruct (run_keeps after _ st1 st2 outs Hb1 ltac:(lia) Ha) as [_ Hk].
  pose proof (Hk h _ Hlk Hc) as Hlk2. exists b. split_and!; [done|..].
  - intros. rewrite read_reply, Hlk2 by done. cbn [owner_service_id fh_bytes]. by rewrite Z.eqb_refl.
  - intros. rewrite read_reply, Hlk2 by done. cbn [owner_service_id]. by rewrite (proj2 (Z.eqb_neq s s')) by done.
  - intros. rewrite close_reply, Hlk2 by done. cbn [owner_service_id]. by rewrite (proj2 (Z.eqb_neq s s')) by done.
Qed.

(** ** Reads into a VMO *)

Section Splice.
Context {D : Type} `{BlockDevice D}.

Lemma splice_header_length status len : length (encode_splice_header status len) = 16%nat.
Proof. unfold encode_splice_header. by rewrite !length_app, !le_bytes_length. Qed.

Lemma write_header v status len :
  v.(writable) = true → (16 ≤ length v.(content))%nat → in_width 32 len →
  write_splice_header (MovedVmo v) status len =
    MovedVmo {| content := encode_splice_header status len ++ drop 16 v.(content); writable := true |}.
Proof.
  intros Hw Hl Hlen. unfold write_splice_header, write_cap, vmo_write. rewrite Z.mod_small by done.
  rewrite splice_header_length, Hw. rewrite (proj2 (Nat.leb_le _ _)) by lia. cbn [andb fmap option_fmap option_map default].
  rewrite take_0. cbn [app]. by rewrite Nat.add_0_l.
Qed.

(** The VMO a read leaves behind, as its owner decodes it. *)
Definition spliced (v v' : Vmo) (max : Z) (r : result bytes Vfs.VfsError) : Prop :=
  v'.(writable) = true ∧ length v'.(content) = length v.(content) ∧
  match r with
  | Ok b =>
      if vlen b <=? max then
        decode_splice_header v'.(content) = Some (Vfs.CODE_OK, vlen b) ∧
        slice 16 (16 + length b) v'.(content) = b ∧
        drop (16 + length b) v'.(content) = drop (16 + length b) v.(content)
      else decode_splice_header v'.(content) = Some (Vfs.code Vfs.TooBig, 0) ∧ drop 16 v'.(content) = drop 16 v.(content)
  | Err err =>
      decode_splice_header v'.(content) = Some (Vfs.code err, 0) ∧ drop 16 v'.(content) = drop 16 v.(content)
  end.

Lemma splice_status v err :
  v.(writable) = true → (16 ≤ length v.(content))%nat →
  ∃ v', write_splice_header (MovedVmo v) (Vfs.code err) 0 = MovedVmo v' ∧ v'.(writable) = true ∧
    length v'.(content) = length v.(content) ∧
    decode_splice_header v'.(content) = Some (Vfs.code err, 0) ∧ drop 16 v'.(content) = drop 16 v.(content).
Proof.
  intros Hw Hl. rewrite write_header by (done || unfold in_width; lia). eexists. split; [reflexivity|].
  cbn [writable content]. split_and!; [done| | |].
  - rewrite length_app, length_drop, splice_header_length. lia.
  - apply splice_header_decode; unfold in_width; [destruct (code_width err)|]; lia.
  - apply drop_app_length'. by rewrite splice_header_length.
Qed.

Lemma read_vmo_spliced (e : Env (D := D)) st path v st1 r :
  let max := vlen v.(content) - 16 in
  utf8_valid path = true → path_bounds path = true → v.(writable) = true → 0 < max → vlen v.(content) < 2 ^ 32 →
  resolve_bytes e st path max = (st1, r) →
  ∃ st2 v', handle_read_vmo e st path (Some (MovedVmo v)) = (st2, Some (MovedVmo v')) ∧ spliced v v' max r ∧
    st2.(handles) = st1.(handles) ∧ st2.(data) = st1.(data).
Proof.
  intros max Hu Hb Hw Hm Hl Hr. unfold handle_read_vmo, decode_read_vmo_request, from_utf8, spliced. rewrite Hb, Hu.
  cbn [vmo_len]. change (Z.of_nat SPLICE_DATA_OFFSET) with 16. rewrite (proj2 (Z.ltb_lt _ _)) by lia.
  fold max. rewrite Hr. assert (Hlen : (16 ≤ length v.(content))%nat) by (unfold max, vlen in Hm; lia).
  destruct r as [b|err].
  - destruct (Z.leb_spec (vlen b) max) as [Hle|Hgt].
    + cbn [write_cap]. unfold vmo_write. rewrite Hw. change SPLICE_DATA_OFFSET with 16%nat.
      rewrite (proj2 (Nat.leb_le _ _)) by (unfold max, vlen in Hle; lia).
      cbn [andb fmap option_fmap option_map].
      rewrite write_header; cbn [writable content];
        [|done|rewrite !length_app, length_take, length_drop; lia|unfold in_width, max in *; pose proof (vlen_nonneg b); lia].
      eexists _, _. split; [reflexivity|]. split; [|done]. cbn [writable content].
      rewrite drop_app_length' by (rewrite length_take; lia). split_and!; [done| | | |].
      * rewrite !length_app, splice_header_length, length_drop. unfold max, vlen in Hle. lia.
      * apply splice_header_decode; unfold in_width, Vfs.CODE_OK, max in *; pose proof (vlen_nonneg b); lia.
      * by rewrite slice_at by (rewrite ?splice_header_length; done).
      * rewrite app_assoc, drop_app_length'; [done|]. by rewrite length_app, splice_header_length.
    + destruct (splice_status v Vfs.TooBig Hw Hlen) as (v' & -> & Hs). eexists _, v'. by split_and!; try apply Hs.
  - destruct (splice_status v err Hw Hlen) as (v' & -> & Hs). eexists _, v'. by split_and!; try apply Hs.
Qed.

End Splice.

Lemma t_read_bounded t p max b : 0 ≤ max → t_read t p 0 max = Ok b → vlen b ≤ max.
Proof.
  intros Hm. unfold t_read. destruct (t_resolve t p) as [id|]; [|done]. cbn [result_bind].
  destruct (t_files t !! id) as [c|]; [|done]. intros [= <-]. pose proof (vlen_nonneg c).
  replace (Z.min 0 (vlen c)) with 0 by lia. unfold saturating_add. rewrite Z.add_0_l.
  unfold vlen at 1. unfold slice. rewrite length_take. lia.
Qed.

(** A read of the user's home into a VMO is faithful up to the VMO's size.
    On a store in use, the request with a writable VMO of [16 + max] bytes
    answers, in the VMO, what the abstract filesystem answers to a read of
    [max] bytes: on success a header with status OK and the number of bytes,
    followed by exactly these bytes; on error the translated error and an
    untouched payload.  The store and the open handles stay as they were. *)
Theorem vfsd_splice_home {D} `{BlockStore D} cs rs (fs : Fs.Nxfs D) (e : Env (D := D)) st s path v :
  let max := vlen v.(content) - 16 in
  used cs rs fs → st.(data) = Some fs →
  utf8_valid path = true → path_bounds path = true → is_home_path path = true →
  v.(writable) = true → 0 < max → vlen v.(content) < 2 ^ 32 →
  ∃ st' v', step e st {| frame := OP_READ_VMO :: path; sender := s; moved := Some (MovedVmo v) |}
              = Ok (st', Filled (Some (MovedVmo v'))) ∧
    st'.(data) = Some fs ∧ st'.(handles) = st.(handles) ∧
    match t_read (abs fs) path 0 max with
    | Ok b => decode_splice_header v'.(content) = Some (Vfs.CODE_OK, vlen b) ∧
              slice 16 (16 + length b) v'.(content) = b
    | Err err => decode_splice_header v'.(content) = Some (Vfs.code (to_vfs err), 0) ∧
                 drop 16 v'.(content) = drop 16 v.(content)
    end.
Proof.
  intros max Hu Hd Hv Hb Hh Hw Hm Hl. destruct (used_run cs rs fs Hu) as (n & Hi & _).
  assert (Hr : resolve_bytes e st path max =
    (st, match t_read (abs fs) path 0 max with Ok b => Ok b | Err err => Err (to_vfs err) end)).
  { unfold resolve_bytes, ensure_data. rewrite Hh, Hd. cbn iota. rewrite Hd. unfold read_bytes, to_nxfs_path.
    rewrite bool_decide_eq_false_2 by (intros ->; done). rewrite (read_abs n) by (done || lia).
    by destruct (t_read _ _ _ _). }
  destruct (read_vmo_spliced e st path v _ _ Hv Hb Hw Hm Hl Hr) as (st' & v' & Hs & (_ & _ & Hsp) & Hhd & Hdt).
  exists st', v'. split_and!; [|congruence|done|].
  - unfold step. cbn [frame moved]. rewrite Z.eqb_refl. by rewrite Hs.
  - destruct (t_read (abs fs) path 0 max) as [b|err] eqn:Et; [|done].
    apply t_read_bounded in Et; [|lia]. rewrite (proj2 (Z.leb_le _ _)) in Hsp by done. by split; apply Hsp.
Qed.

(** ** The home, end to end *)

(** The paths of a request lie in the home where the service looks at them. *)
Definition home_request (r : request) : bool :=
  match r with
  | RStat p | RList p _ _ => is_home_path p
  | RRead _ => false
  | _ => true
  end.

Lemma home_frame_routed r f :
  home_request r = true → request_typed r → request_frame r = Some f →
  targets_home f = true ∧ ∃ op payload, f = op :: payload ∧ (op =? OP_READ_VMO) = false.
Proof.
  assert (Hw : ∀ op (o : option bytes), write_op op = true → (op =? OP_READ_VMO) = false → cons op <$> o = Some f →
    targets_home f = true ∧ ∃ op payload, f = op :: payload ∧ (op =? OP_READ_VMO) = false).
  { intros op [b|] Hop Hne Hf; [|done]. injection Hf as <-. cbn [targets_home]. rewrite Hop. eauto. }
  destruct r; cbn [home_request request_typed request_frame]; intros Hh Hty Hf;
    try (by eapply Hw; [| |exact Hf]); try done.
  - unfold Fileops.encode_path_request in Hf. destruct (path_bounds path); [|done]. injection Hf as <-.
    split; [|by eexists _, _]. cbn [targets_home]. change (write_op Fileops.OP_STAT) with false.
    change (Fileops.OP_STAT =? OPCODE_STAT) with true. cbn iota. unfold utf8_or_empty, from_utf8. by rewrite (proj1 Hty).
  - destruct Hty as (Hp & _ & _). unfold encode_readdir_request in Hf.
    destruct (path_bounds path) eqn:Eb; [|done]. injection Hf as <-. split; [|by eexists _, _].
    cbn [targets_home]. change (write_op Fileops.OP_READDIR) with false.
    change (Fileops.OP_READDIR =? OPCODE_STAT) with false. change (Fileops.OP_READDIR =? OPCODE_READDIR) with true.
    cbn iota. rewrite (proj2 (Nat.ltb_lt _ _)).
    2: { destruct path; [done|]. cbn [List.length]. lia. }
    cbn [andb]. match goal with |- context [drop 7 ?l] => change (drop 7 l) with path end.
    unfold utf8_or_empty, from_utf8. by rewrite (proj1 Hp).
Qed.

Section Home.
Context {D : Type} `{BlockStore D} (d : D) (store : Fs.Nxfs D).
Context (Hacq : acquire (Some d) = Some store).

(** A turn of the loop while the device [d] is attached and replies go
    through: a home request of a client, or anything else. *)
Inductive client_turn : Env (D := D) * result Request IpcError → option request → Prop :=
| turn_home e r f s m :
    e.(device) = Some d → (m = None → e.(send_ok) = true) →
    home_request r = true → request_typed r → request_frame r = Some f →
    client_turn (e, Ok {| frame := f; sender := s; moved := m |}) (Some r)
| turn_other e req :
    e.(device) = Some d → (req.(moved) = None → e.(send_ok) = true) →
    targets_home req.(frame) = false → client_turn (e, Ok req) None
| turn_idle e err : err = WouldBlock ∨ err = Timeout → client_turn (e, Err err) None.

(** The store, once acquired; before that, what it will be. *)
Definition current (st : State (D := D)) : Fs.Nxfs D := default store st.(data).

Definition sound (n : Z) (st : State (D := D)) : Prop :=
  vinv n (current st) ∧ (st.(data) = None → st.(data_attempts) < MAX_DATA_ATTEMPTS).

Lemma ensure_current e st :
  e.(device) = Some d → (st.(data) = None → st.(data_attempts) < MAX_DATA_ATTEMPTS) →
  (ensure_data e st).(data) = Some (current st).
Proof.
  intros He Hs. unfold ensure_data, current. destruct (data st) as [fs|] eqn:Ed; [done|].
  rewrite (proj2 (Z.ltb_lt _ _)) by auto. cbn [data]. rewrite He. exact Hacq.
Qed.

Lemma send_reply_some (e : Env (D := D)) req reply :
  (req.(moved) = None → e.(send_ok) = true) → send_reply e req reply = Ok (Replied reply).
Proof. intros Hm. unfold send_reply. destruct (moved req); [done|]. by rewrite Hm. Qed.

Lemma home_turn n st t r :
  client_turn t (Some r) → sound n st → n + 4 < 2 ^ 63 →
  ∃ st' reply, turn t.1 st t.2 = Ok (st', Replied reply) ∧ sound (n + 4) st' ∧
    served (abs (current st)) r reply (abs (current st')).
Proof.
  intros Ht [Hv Hs] Hn. inversion Ht as [e r' f s m He Hm Hh Hty Hf| |]; subst. cbn [fst snd turn].
  destruct (home_frame_routed r f Hh Hty Hf) as (Htar & op & payload & -> & Hop).
  unfold step. cbn [frame]. rewrite Hop, Htar. unfold serve_home.
  rewrite (ensure_current e st He Hs). destruct (handle (current st) (op :: payload)) as [fs' reply] eqn:Eh.
  rewrite send_reply_some by done. cbn [result_bind]. eexists _, reply. split; [reflexivity|].
  destruct (handle_served n (current st) r _ fs' reply Hv Hn Hty Hf Eh) as [Hv' Hsv].
  split; [by split|]. exact Hsv.
Qed.

(** Steps that are not for the home leave the store alone. *)
Lemma resolve_current e st path max st' r n :
  e.(device) = Some d → sound n st → resolve_bytes e st path max = (st', r) → sound n st' ∧ current st' = current st.
Proof.
  intros He [Hv Hs]. unfold resolve_bytes. destruct (is_home_path path); [|destruct (starts_with _ path)].
  2, 3: intros [= <- <-]; by split_and!.
  intros [= <- _]. pose proof (ensure_current e st He Hs) as Hd.
  assert (Hc : current (ensure_data e st) = current st) by (unfold current at 1; by rewrite Hd).
  split; [|done]. split; [by rewrite Hc|]. by rewrite Hd.
Qed.

Lemma read_vmo_current e st payload cap st' out n :
  e.(device) = Some d → sound n st → handle_read_vmo e st payload cap = (st', out) →
  sound n st' ∧ current st' = current st.
Proof.
  intros He Hs. unfold handle_read_vmo. destruct cap as [vmo|]; [|by intros [= <- <-]].
  destruct (decode_read_vmo_request payload) as [path|]; [|by intros [= <- <-]].
  destruct (vmo_len vmo) as [c|]; [|by intros [= <- <-]]. destruct (_ <? c); [|by intros [= <- <-]].
  destruct (resolve_bytes e st path _) as [st1 r] eqn:Er. apply (resolve_current _ _ _ _ _ _ n) in Er as [H1 H2]; [|done..].
  repeat case_match; by intros [= <- <-].
Qed.

Lemma serve_pkg_current e st s f st' reply n :
  sound n st → serve_pkg e st s f = (st', reply) → sound n st' ∧ current st' = current st.
Proof. intros Hs. unfold serve_pkg. repeat case_match; intros [= <- <-]; done. Qed.

Lemma other_turn n st t :
  client_turn t None → sound n st →
  ∃ st' out, turn t.1 st t.2 = Ok (st', out) ∧ sound n st' ∧ current st' = current st.
Proof.
  intros Ht Hs. inversion Ht as [|e req He Hm Htar|e err Herr]; subst; cbn [fst snd turn].
  - unfold step. destruct (frame req) as [|op payload] eqn:Ef; [by eauto|]. rewrite <- Ef.
    destruct (op =? OP_READ_VMO).
    { destruct (handle_read_vmo e st payload (moved req)) as [st1 out] eqn:Er.
      apply (read_vmo_current _ _ _ _ _ _ n) in Er; [|done..]. eauto. }
    rewrite Ef, Htar, <- Ef. destruct (serve_pkg e st (sender req) (frame req)) as [st1 [reply|]] eqn:Es;
      apply (serve_pkg_current _ _ _ _ _ _ n) in Es; try done; [|by eauto].
    rewrite send_reply_some by done. cbn [result_bind]. eauto.
  - destruct Herr as [-> | ->]; eauto.
Qed.

(** The replies to the home requests of a sequence of turns. *)
Fixpoint home_replies (ors : list (option request)) (outs : list Outcome) : list bytes :=
  match ors, outs with
  | Some _ :: ors, Replied reply :: outs => reply :: home_replies ors outs
  | _ :: ors, _ :: outs => home_replies ors outs
  | _, _ => []
  end.

Lemma loop_serves turns ors :
  Forall2 client_turn turns ors → ∀ n st, sound n st → n + 4 * vlen turns < 2 ^ 63 →
  ∃ st' outs, run_loop st turns = (st', outs, None) ∧
    served_run (abs (current st)) (omap id ors) (home_replies ors outs) (abs (current st')).
Proof.
  induction 1 as [|[e rcv] o turns ors Ht _ IH]; intros n st Hs Hn; cbn [run_loop].
  { exists st, []. split; [done|constructor]. }
  assert (Hl : vlen ((e, rcv) :: turns) = vlen turns + 1) by (unfold vlen; cbn [List.length]; lia). rewrite Hl in *.
  pose proof (vlen_nonneg turns). destruct o as [r|].
  - destruct (home_turn n st _ r Ht Hs ltac:(lia)) as (st1 & reply & E1 & Hs1 & Hsv). cbn [fst snd] in E1. rewrite E1.
    destruct (IH (n + 4) st1 Hs1 ltac:(lia)) as (st2 & outs & -> & Hr).
    exists st2, (Replied reply :: outs). split; [done|]. cbn [home_replies omap list_omap]. by econstructor.
  - destruct (other_turn n st _ Ht Hs) as (st1 & out & E1 & Hs1 & Hc). cbn [fst snd] in E1. rewrite E1.
    destruct (IH n st1 Hs1 ltac:(lia)) as (st2 & outs & -> & Hr).
    exists st2, (out :: outs). split; [done|]. rewrite Hc in Hr. cbn [home_replies omap list_omap].
    by destruct out.
Qed.

End Home.


(** ** Capability tokens *)

Section Tokens.
Context (sha256 : bytes → bytes).

(** A sequence of verifications by one guard. *)
Fixpoint verify_all (seen : gset Z) (key : bytes) (ts : list (CapFdToken * Z * Z * Z))
    : gset Z * list (result unit SandboxError) :=
  match ts with
  | [] => (seen, [])
  | (t, expected, required, now) :: ts =>
      let '(seen, r) := verify sha256 seen key t expected required now in
      let '(seen, rs) := verify_all seen key ts in (seen, r :: rs)
  end.

Lemma verify_seen seen key t expected required now seen' r :
  verify sha256 seen key t expected required now = (seen', r) →
  seen ⊆ seen' ∧ (r = Ok tt → (t.(nonce) ∉ seen) ∧ (t.(nonce) ∈ seen')).
Proof.
  unfold verify. destruct (bool_decide_reflect (nonce t ∈ seen)); repeat case_match; intros [= <- <-]; try (by split).
  split; [set_solver|]. intros _. split; [done|set_solver].
Qed.

Lemma verify_all_fresh key ts : ∀ seen seen' rs i t expected required now,
  verify_all seen key ts = (seen', rs) → ts !! i = Some (t, expected, required, now) → rs !! i = Some (Ok tt) →
  t.(nonce) ∉ seen.
Proof.
  induction ts as [|[[[t0 e0] r0] n0] ts IH]; intros seen seen' rs i t expected required now; [done|].
  cbn [verify_all]. destruct (verify sha256 seen key t0 e0 r0 n0) as [s1 r] eqn:Ev.
  destruct (verify_all s1 key ts) as [s2 rs'] eqn:Ea. intros [= <- <-].
  apply verify_seen in Ev as [Hsub Hr]. destruct i as [|i]; cbn.
  - intros [= -> -> -> ->] [= ->]. by apply Hr.
  - intros Ht Hi Hin. eapply IH; [exact Ea|exact Ht|exact Hi|]. set_solver.
Qed.

Lemma mac_input_inj subject path rts nnc exp subject' path' rts' nnc' exp' :
  in_width 64 subject → in_width 64 subject' → in_width 64 nnc → in_width 64 nnc' → in_width 64 exp → in_width 64 exp' →
  mac_input subject path rts nnc exp = mac_input subject' path' rts' nnc' exp' →
  subject = subject' ∧ path = path' ∧ rts = rts' ∧ nnc = nnc' ∧ exp = exp'.
Proof.
  intros H1 H1' H2 H2' H3 H3' He. unfold mac_input in He.
  assert (Hle : ∀ a b, in_width 64 a → in_width 64 b → le_bytes 8 a = le_bytes 8 b → a = b).
  { intros a b Ha Hb E%(f_equal le_value). by rewrite !le_value_bytes in E. }
  apply app_inj_1 in He as [Ha He]; [|by rewrite !le_bytes_length].
  rewrite !app_assoc in He. apply app_inj_2 in He as [He Hc]; [|by rewrite !le_bytes_length].
  apply app_inj_2 in He as [He Hb]; [|by rewrite !le_bytes_length].
  apply app_inj_2 in He as [Hp Hr]; [|done]. injection Hr as ->. auto 10.
Qed.
End Tokens.

(** A guard accepts a capability token at most once, and only for what it
    was minted for.  In any sequence of verifications, an accepted token is
    presented by its subject, before it expires, with all rights required, and
    its code is the one minting gives for exactly its fields; two accepted
    tokens have different nonces.  The hashed string determines the fields, so
    with one key a changed token is accepted only on a hash collision.
    [sha256] stands for the library function and may be any function. *)
Theorem capfd_guard sha256 key ts seen rs i j t expected required now :
  verify_all sha256 ∅ key ts = (seen, rs) →
  ts !! i = Some (t, expected, required, now) → rs !! i = Some (Ok tt) →
  t.(subject_id) = expected ∧ now ≤ t.(expires_at) ∧ Z.land t.(rights) required = required ∧
  t = mint sha256 key t.(subject_id) t.(canonical_path) t.(rights) t.(nonce) t.(expires_at) ∧
  (∀ t' x y z, i ≠ j → ts !! j = Some (t', x, y, z) → rs !! j = Some (Ok tt) → t'.(nonce) ≠ t.(nonce)) ∧
  (∀ subject path rts nnc exp,
     in_width 64 subject → in_width 64 t.(subject_id) → in_width 64 nnc → in_width 64 t.(nonce) →
     in_width 64 exp → in_width 64 t.(expires_at) →
     mac_input subject path rts nnc exp =
       mac_input t.(subject_id) t.(canonical_path) t.(rights) t.(nonce) t.(expires_at) →
     mint sha256 key subject path rts nnc exp = t).
Proof.
  intros Ha Ht Hr. revert Ha. generalize (∅ : gset Z). revert rs i j Ht Hr.
  induction ts as [|[[[t0 e0] r0] n0] ts IH]; intros rs i j Ht Hr s0; [done|]. cbn [verify_all].
  destruct (verify sha256 s0 key t0 e0 r0 n0) as [s1 r] eqn:Ev.
  destruct (verify_all sha256 s1 key ts) as [s2 rs'] eqn:Ea. intros [= -> <-].
  pose proof (verify_seen _ _ _ _ _ _ _ _ _ Ev) as [_ Hs]. destruct i as [|i]; cbn in Ht, Hr.
  - injection Ht as -> -> -> ->. injection Hr as ->. destruct (Hs eq_refl) as [_ Hin].
    unfold verify in Ev. destruct (Z.eqb_spec (subject_id t) expected) as [He|]; [|done]. cbn [negb] in Ev.
    destruct (Z.ltb_spec (expires_at t) now) as [|Hx]; [done|].
    destruct (negb (required =? 0) && negb (Z.land (rights t) required =? required)) eqn:Er; [done|].
    case_bool_decide as Em; [|done]. cbn [negb] in Ev.
    assert (Hmint : t = mint sha256 key t.(subject_id) t.(canonical_path) t.(rights) t.(nonce) t.(expires_at)).
    { destruct t; unfold mint; cbn in Em |- *. by rewrite Em. }
    split_and!; [done|done| |done| |].
    + destruct (Z.eqb_spec required 0) as [->|]; [by rewrite Z.land_0_r|].
      by destruct (Z.eqb_spec (Z.land (rights t) required) required).
    + intros t' x y z Hij Hj Hrj. destruct j as [|j]; [done|]. cbn in Hj, Hrj.
      pose proof (verify_all_fresh _ _ _ _ _ _ _ _ _ _ _ Ea Hj Hrj). congruence.
    + intros. rewrite Hmint. by destruct (mac_input_inj subject path rts nnc exp (subject_id t) (canonical_path t)
        (rights t) (nonce t) (expires_at t)) as (-> & -> & -> & -> & ->).
  - pose proof (verify_all_fresh _ _ _ _ _ _ _ _ _ _ _ Ea Ht Hr) as Hf.
    destruct (IH rs' i (pred j) Ht Hr s1 Ea) as (H1 & H2 & H3 & H4 & H5 & H6). split_and!; try done.
    intros t' x y z Hij Hj Hrj. destruct j as [|j]; cbn in Hj, Hrj; [|eapply H5; [|exact Hj|exact Hrj]; cbn; lia].
    injection Hj as -> -> -> ->. injection Hrj as ->. destruct (Hs eq_refl). congruence.
Qed.

Lemma capfd_guard_witness :
  let sha b := [fold_right Z.add 0 b] in
  let t := mint sha [1] 7 (str "pkg:/a") RIGHT_READ 42 100 in
  Z.land t.(rights) RIGHT_READ = RIGHT_READ.
Proof.
  intros sha t.
  apply (capfd_guard sha [1] [(t, 7, RIGHT_READ, 5); (t, 7, RIGHT_READ, 5)] {[42]} [Ok tt; Err Replay] 0 0 t 7 RIGHT_READ 5).
  - vm_compute. reflexivity.
  - reflexivity.
  - reflexivity.
Defined.

(** ** A run of the service *)

Definition demo_env : Env (D := Mem.MemBlockDevice) :=
  {| pkgfsd := fun f => if bool_decide (f = 2 :: str "a/b") then Some ([1] ++ zeros 10 ++ [5; 6; 7; 8; 9]) else None;
     device := Some store_device; send_ok := true |}.

Lemma vfsd_handles_private_witness :
  ∃ st, step demo_env init (open_request 7 (str "pkg:/a/b") None) = Ok (st, Replied (1 :: le_bytes 4 1)) ∧
    step demo_env st (read_request 7 1 2 10) = Ok (st, Replied [1; 7; 8; 9]) ∧
    step demo_env st (read_request 8 1 2 10) = Ok (st, Replied [0]).
Proof.
  destruct (step demo_env init (open_request 7 (str "pkg:/a/b") None)) as [[st out]|] eqn:E; [|by vm_compute in E].
  assert (Ho : (let? r := step demo_env init (open_request 7 (str "pkg:/a/b") None) in Ok r.2) =
    Ok (Replied (1 :: le_bytes 4 1))) by (vm_compute; reflexivity).
  rewrite E in Ho. cbn [result_bind snd] in Ho. apply Ok_inj in Ho as ->. exists st.
  assert (H1 : in_width 32 1) by (unfold in_width; lia). assert (H2 : in_width 64 2) by (unfold in_width; lia).
  assert (H10 : 0 ≤ 10 ≤ INLINE_IO_MAX) by (unfold INLINE_IO_MAX; lia).
  assert (Hl : vlen (@nil (Env (D := Mem.MemBlockDevice) * result Request IpcError)) +
    vlen (@nil (Env (D := Mem.MemBlockDevice) * result Request IpcError)) < 2 ^ 32 - 3) by (vm_compute; reflexivity).
  destruct (vfsd_handles_private [] init [] demo_env 7 (str "pkg:/a/b") None st 1 [] st [] eq_refl E H1 eq_refl
    (Forall_nil_2 _) Hl) as (b & Hb & Hr & Hr' & _).
  vm_compute in Hb. injection Hb as <-. split; [reflexivity|]. split.
  - rewrite (Hr demo_env 2 10 H2 H10). reflexivity.
  - apply (Hr' demo_env 8 2 10); [lia|exact H2|exact H10].
Defined.


(** The VMO of a client: [n] zero bytes. *)
Definition blank_vmo (n : nat) : Vmo := {| content := zeros n; writable := true |}.

Definition with_store (fs : Fs.Nxfs Mem.MemBlockDevice) : State :=
  set_data init (Some fs).

Lemma vfsd_splice_home_witness :
  ∃ fs rs st' v', demo_run = Ok (fs, rs) ∧
    step demo_env (with_store fs) {| frame := OP_READ_VMO :: path_g; sender := 7; moved := Some (MovedVmo (blank_vmo 40)) |}
      = Ok (st', Filled (Some (MovedVmo v'))) ∧
    decode_splice_header v'.(content) = Some (Vfs.CODE_OK, 5) ∧ slice 16 21 v'.(content) = [0; 0; 1; 2; 3].
Proof.
  destruct demo_run as [[fs rs]|] eqn:E; [|by vm_compute in E].
  assert (Hx : (let? p := demo_run in Ok (t_read (abs p.1) path_g 0 (vlen (zeros 40) - 16))) = Ok (Ok [0; 0; 1; 2; 3]))
    by (vm_compute; reflexivity).
  rewrite E in Hx. cbn [result_bind fst] in Hx. apply Ok_inj in Hx.
  destruct (vfsd_splice_home demo_calls rs fs demo_env (with_store fs) 7 path_g (blank_vmo 40) (demo_used fs rs E))
    as (st' & v' & Hs & _ & _ & Hr).
  1: reflexivity. 1-5: vm_compute; reflexivity. 1: vm_compute; reflexivity.
  cbn [blank_vmo content] in Hr. rewrite Hx in Hr. destruct Hr as [Hd Hp].
  exists fs, rs, st', v'. split; [reflexivity|]. split; [exact Hs|]. split; [exact Hd|exact Hp].
Defined.

(** A home file larger than the VMO is cut to the VMO's size with status OK:
    the bound is passed to the read, so the check for a file that is too big
    never fires.  For a package file of the same size the status is E2BIG, as
    the comment on the function says of both. *)
Theorem vfsd_splice_truncates_home :
  let ask fs path := step demo_env (with_store fs)
    {| frame := OP_READ_VMO :: path; sender := 7; moved := Some (MovedVmo (blank_vmo 18)) |} in
  let status r := match r with
                  | Ok (_, Filled (Some (MovedVmo v))) => decode_splice_header v.(content)
                  | _ => None
                  end in
  (let? p := demo_run in
   Ok (Fs.stat p.1 path_g, status (ask p.1 path_g), status (ask p.1 (str "pkg:/a/b"))))
  = Ok (Ok (File, 5), Some (Vfs.CODE_OK, 2), Some (Vfs.code Vfs.TooBig, 0)).
Proof. vm_compute. reflexivity. Qed.
