(* ===== verification/PolicyService.v ===== *)
(** The policy daemon: the entitlement table lookup ([source/libs/nexus-sel]),
    the guardrail profiles it distributes ([source/libs/nexus-abi/src/abi_filter.rs]),
    its request handler ([source/services/policyd/src/lite_protocol.rs]), the
    runtime around it ([os_lite.rs]: channels, privilege, audit), and the client
    the enforcement points share ([userspace/nexus-ipc/src/policyd.rs]).

    The tables [POLICY_ENTRIES] and [ABI_PROFILE_ENTRIES] are generated from the
    policy files when the daemon is built; they are arguments here.  A [FrameOut]
    is the list of its [len] meaningful bytes. *)

From Stdlib Require Import String Ascii.
From S2P Require Import Prelude Bytes Storage Statefs StatefsProps StatefsDurable StatefsCrash StatefsProto Statefsd Wire.

Abbreviation length := List.length.

(** A string literal as its bytes. *)
Definition bytes_of (s : string) : bytes := map (fun c => Z.of_N (N_of_ascii c)) (list_ascii_of_string s).

(** ** [nexus-sel] *)
Module Sel.
Record PolicyEntry := { service_id : Z; capabilities : list bytes }.
Definition Policy := list PolicyEntry.

Definition to_ascii_lowercase (c : Z) : Z := if within 65 90 c then c + 32 else c.

(** [str::eq_ignore_ascii_case]. *)
Definition eq_ignore_ascii_case (s t : bytes) : bool :=
  bool_decide (map to_ascii_lowercase s = map to_ascii_lowercase t).

Definition find_entry (p : Policy) (id : Z) : option PolicyEntry := List.find (fun e => e.(service_id) =? id) p.

Definition allows (p : Policy) (id : Z) (capability : bytes) : bool :=
  match find_entry p id with
  | Some e => existsb (fun c => eq_ignore_ascii_case c capability) e.(capabilities)
  | None => false
  end.

Definition has_any_capability (p : Policy) (id : Z) : bool :=
  match find_entry p id with
  | Some e => negb (bool_decide (e.(capabilities) = []))
  | None => false
  end.
End Sel.

(** ** [abi_filter.rs] *)
Module AbiFilter.
Definition PROFILE_MAGIC0 : Z := 65.
Definition PROFILE_MAGIC1 : Z := 70.
Definition PROFILE_VERSION : Z := 1.
Definition MAX_PROFILE_BYTES : Z := Wire.Policyd.MAX_PROFILE_BYTES.
Definition MAX_RULES : Z := 16.
Definition MAX_PATH_PREFIX_BYTES : Z := 64.
Definition MAX_STATEFS_PATH_BYTES : Z := 128.
Definition MAX_STATEFS_PUT_BYTES : Z := 4096.

Inductive AbiFilterError :=
| OversizedProfile | MalformedProfile | RuleCountOverflow | PathPrefixOverflow
| InvalidSyscallClass | InvalidRuleAction
| UnauthenticatedProfileDistribution | SubjectIdentityMismatch.

Inductive SyscallClass := StatefsPut | NetBind.
Inductive RuleAction := Deny | Allow.

#[export] Instance SyscallClass_eq_dec : EqDecision SyscallClass.
Proof. solve_decision. Defined.
#[export] Instance RuleAction_eq_dec : EqDecision RuleAction.
Proof. solve_decision. Defined.

Definition SyscallClass_from_u8 (raw : Z) : option SyscallClass :=
  if raw =? 1 then Some StatefsPut else if raw =? 2 then Some NetBind else None.
Definition RuleAction_from_u8 (raw : Z) : option RuleAction :=
  if raw =? 0 then Some Deny else if raw =? 1 then Some Allow else None.

Record AbiRule := {
  syscall : SyscallClass;
  action : RuleAction;
  path_prefix : bytes;
  path_prefix_len : Z;
  port_min : Z;
  port_max : Z
}.

Definition AbiRule_empty : AbiRule :=
  {| syscall := StatefsPut; action := Deny; path_prefix := zeros (Z.to_nat MAX_PATH_PREFIX_BYTES);
     path_prefix_len := 0; port_min := 0; port_max := 0 |}.

Definition matches_statefs_put (r : AbiRule) (path : bytes) (payload_len : Z) : bool :=
  if negb (bool_decide (r.(syscall) = StatefsPut)) then false
  else if (MAX_STATEFS_PATH_BYTES <? vlen path) || (MAX_STATEFS_PUT_BYTES <? payload_len) then false
  else
    let prefix_len := r.(path_prefix_len) in
    if (prefix_len =? 0) || (vlen path <? prefix_len) then false
    else bool_decide (take (Z.to_nat prefix_len) r.(path_prefix) = take (Z.to_nat prefix_len) path).

Definition matches_net_bind (r : AbiRule) (port : Z) : bool :=
  if negb (bool_decide (r.(syscall) = NetBind)) then false
  else (r.(port_min) <=? port) && (port <=? r.(port_max)).

Record AbiProfile := { subject_service_id : Z; rule_count : Z; rules : list AbiRule }.

Definition AbiProfile_empty (subject : Z) : AbiProfile :=
  {| subject_service_id := subject; rule_count := 0; rules := replicate (Z.to_nat MAX_RULES) AbiRule_empty |}.

Definition rule (p : AbiProfile) (index : nat) : option AbiRule :=
  if Z.of_nat index <? p.(rule_count) then p.(rules) !! index else None.

(** The matcher loop, over the rules from the current index on. *)
Fixpoint first_match (m : AbiRule → bool) (rs : list AbiRule) : RuleAction :=
  match rs with
  | [] => Deny
  | r :: rs => if m r then r.(action) else first_match m rs
  end.

Definition check_statefs_put (p : AbiProfile) (path : bytes) (payload_len : Z) : RuleAction :=
  first_match (fun r => matches_statefs_put r path payload_len) (take (Z.to_nat p.(rule_count)) p.(rules)).
Definition check_net_bind (p : AbiProfile) (port : Z) : RuleAction :=
  first_match (fun r => matches_net_bind r port) (take (Z.to_nat p.(rule_count)) p.(rules)).

Definition push_rule (p : AbiProfile) (r : AbiRule) : result AbiProfile AbiFilterError :=
  let idx := p.(rule_count) in
  if MAX_RULES <=? idx then Err RuleCountOverflow
  else Ok {| subject_service_id := p.(subject_service_id);
             rule_count := saturating_add 8 p.(rule_count) 1;
             rules := <[Z.to_nat idx := r]> p.(rules) |}.

(** [encode_profile_v1] into a buffer of [out] bytes: the bytes written. *)
Definition encode_profile_v1 (subject : Z) (prefix : option bytes) (port : option Z) (out : Z)
    : result bytes AbiFilterError :=
  let? path_len :=
    match prefix with
    | Some p =>
        if bool_decide (p = []) then Err MalformedProfile
        else if MAX_PATH_PREFIX_BYTES <? vlen p then Err PathPrefixOverflow
        else Ok (vlen p)
    | None => Ok 0
    end in
  let rule_count := (if prefix is Some _ then 1 else 0) + (if port is Some _ then 1 else 0) in
  if MAX_RULES <? rule_count then Err RuleCountOverflow
  else
    let required := 12 + 8 * rule_count + path_len in
    if (MAX_PROFILE_BYTES <? required) || (out <? required) then Err OversizedProfile
    else
      Ok ([PROFILE_MAGIC0; PROFILE_MAGIC1; PROFILE_VERSION; rule_count] ++ le_bytes 8 subject ++
          match prefix with
          | Some p => [1; 1; vlen p; 0] ++ le_bytes 2 0 ++ le_bytes 2 0 ++ p
          | None => []
          end ++
          match port with
          | Some min_port => [2; 1; 0; 0] ++ le_bytes 2 min_port ++ le_bytes 2 65535
          | None => []
          end).

(** One turn of the decoding loop, on the bytes from the current offset on. *)
Definition decode_rule (rest : bytes) : result (AbiRule * bytes) AbiFilterError :=
  if (length rest <? 8)%nat then Err MalformedProfile
  else
    let? sys := ok_or (SyscallClass_from_u8 (nth 0 rest 0)) InvalidSyscallClass in
    let? act := ok_or (RuleAction_from_u8 (nth 1 rest 0)) InvalidRuleAction in
    let prefix_len := nth 2 rest 0 in
    if MAX_PATH_PREFIX_BYTES <? prefix_len then Err PathPrefixOverflow
    else
      let lo := le_value (slice 4 6 rest) in
      let hi := le_value (slice 6 8 rest) in
      let rest := drop 8 rest in
      if (length rest <? Z.to_nat prefix_len)%nat then Err MalformedProfile
      else
        Ok ({| syscall := sys; action := act;
               path_prefix := splice AbiRule_empty.(path_prefix) 0 (take (Z.to_nat prefix_len) rest);
               path_prefix_len := prefix_len; port_min := lo; port_max := hi |},
            drop (Z.to_nat prefix_len) rest).

Fixpoint decode_rules (n : nat) (p : AbiProfile) (rest : bytes) : result (AbiProfile * bytes) AbiFilterError :=
  match n with
  | O => Ok (p, rest)
  | S n =>
      let? x := decode_rule rest in
      let? p := push_rule p x.1 in
      decode_rules n p x.2
  end.

Definition decode_profile_v1 (profile_bytes : bytes) : result AbiProfile AbiFilterError :=
  if MAX_PROFILE_BYTES <? vlen profile_bytes then Err OversizedProfile
  else if (length profile_bytes <? 12)%nat then Err MalformedProfile
  else if negb (nth 0 profile_bytes 0 =? PROFILE_MAGIC0) || negb (nth 1 profile_bytes 0 =? PROFILE_MAGIC1)
          || negb (nth 2 profile_bytes 0 =? PROFILE_VERSION) then Err MalformedProfile
  else
    let rule_count := nth 3 profile_bytes 0 in
    if MAX_RULES <? rule_count then Err RuleCountOverflow
    else
      let subject := le_value (slice 4 12 profile_bytes) in
      let? x := decode_rules (Z.to_nat rule_count) (AbiProfile_empty subject) (drop 12 profile_bytes) in
      if bool_decide (x.2 = []) then Ok x.1 else Err MalformedProfile.

Definition ingest_distributed_profile_v1 (profile_bytes : bytes) (sender authority expected_subject : Z)
    : result AbiProfile AbiFilterError :=
  if negb (sender =? authority) then Err UnauthenticatedProfileDistribution
  else
    let? p := decode_profile_v1 profile_bytes in
    if negb (p.(subject_service_id) =? expected_subject) then Err SubjectIdentityMismatch else Ok p.
End AbiFilter.

(** ** [lite_protocol.rs] *)
Module Lite.
Definition MAGIC0 : Z := 80.
Definition MAGIC1 : Z := 79.
Definition VERSION : Z := 1.
Definition OP_CHECK : Z := 1.
Definition OP_ROUTE : Z := 2.
Definition OP_EXEC : Z := 3.
Definition OP_CHECK_CAP : Z := 4.
Definition OP_CHECK_CAP_DELEGATED : Z := 5.
Definition OP_ABI_PROFILE_GET : Z := Wire.Policyd.OP_ABI_PROFILE_GET.
Definition STATUS_ALLOW : Z := 0.
Definition STATUS_DENY : Z := 1.
Definition STATUS_MALFORMED : Z := 2.
Definition STATUS_UNSUPPORTED : Z := 3.
Definition CAP_CHECK : bytes := Eval vm_compute in bytes_of "ipc.core".
Definition CAP_ROUTE : bytes := Eval vm_compute in bytes_of "ipc.core".
Definition CAP_EXEC : bytes := Eval vm_compute in bytes_of "proc.spawn".
Definition CAP_DELEGATE : bytes := Eval vm_compute in bytes_of "policy.delegate".
Definition CAP_ROUTE_EXECD : bytes := Eval vm_compute in bytes_of "route.execd".
Definition NAME_BUNDLEMGRD : bytes := Eval vm_compute in bytes_of "bundlemgrd".
Definition NAME_EXECD : bytes := Eval vm_compute in bytes_of "execd".
Definition MAX_FRAME_BYTES : Z := 12 + AbiFilter.MAX_PROFILE_BYTES.

Definition normalize_subject_id (subject_id : Z) : Z :=
  if subject_id =? 0x68c166c37bcd7154 then service_id_from_name (bytes_of "selftest-client")
  else if subject_id =? 0xe34fd9bef149d9de then service_id_from_name (bytes_of "keystored")
  else if subject_id =? 0x338fbeebaf28aff9 then service_id_from_name (bytes_of "updated")
  else if subject_id =? 0xed205ae1e47c393d then service_id_from_name (bytes_of "metricsd")
  else subject_id.

Definition normalize_delegate_sender_id (sender_id : Z) (cap : bytes) : Z :=
  if sender_id =? 0x44212a82487313ed then service_id_from_name (bytes_of "rngd")
  else if sender_id =? 0xe34fd9bef149d9de then service_id_from_name (bytes_of "keystored")
  else if sender_id =? 0x39639576ab146400 then service_id_from_name (bytes_of "statefsd")
  else sender_id.

Definition rsp_v1 (op status : Z) : bytes := [MAGIC0; MAGIC1; VERSION; Z.lor op 0x80; status; 0].
(** [encode_rsp_v2] and [encode_rsp_v3] fill a fixed array. *)
Definition rsp_v2 (op nonce status : Z) : bytes :=
  [MAGIC0; MAGIC1; Wire.Policyd.VERSION_V2; Z.lor op REPLY_BIT] ++ le_bytes 4 nonce ++ [status; 0].
Definition rsp_v3 (op nonce status : Z) : bytes :=
  [MAGIC0; MAGIC1; Wire.Policyd.VERSION_V3; Z.lor op REPLY_BIT] ++ le_bytes 4 nonce ++ [status; 0].

Definition verdict (allowed : bool) : Z := if allowed then STATUS_ALLOW else STATUS_DENY.

Section Handler.
Context (policy : Sel.Policy) (ABI_PROFILE_ENTRIES : list (Z * option bytes * option Z)).

Definition encode_subject_profile_v1 (subject_id out : Z) : option bytes :=
  let r := match List.find (fun e => e.1.1 =? subject_id) ABI_PROFILE_ENTRIES with
           | Some (_, prefix, port) => AbiFilter.encode_profile_v1 subject_id prefix port out
           | None => AbiFilter.encode_profile_v1 subject_id None None out
           end in
  match r with
  | Ok p => Some p
  | Err _ => None
  end.

Context (frame : bytes) (sender_service_id : Z) (privileged_proxy : bool).

(** [frame[i]] for an index in range. *)
Definition at_ (i : nat) : Z := nth i frame 0.

(** The requester may only be the (normalized) sender unless privileged. *)
Definition spoofed (requester_id : Z) : bool :=
  negb privileged_proxy && negb (requester_id =? normalize_subject_id sender_service_id).

Definition check_v1 (op : Z) : bytes :=
  let n := at_ 4 in
  if negb (vlen frame =? 5 + n) then rsp_v1 op STATUS_MALFORMED
  else
    let requester_id := service_id_from_name (drop 5 frame) in
    if spoofed requester_id then rsp_v1 op STATUS_DENY
    else rsp_v1 op (verdict (Sel.allows policy requester_id CAP_CHECK)).

Definition check_cap_v1 (op : Z) : bytes :=
  if vlen frame <? 4 + 8 + 1 then rsp_v1 op STATUS_MALFORMED
  else
    let requester_id := le_value (slice 4 12 frame) in
    let cap_len := at_ 12 in
    if (48 <? cap_len) || negb (vlen frame =? 13 + cap_len) then rsp_v1 op STATUS_MALFORMED
    else
      let cap := default [] (from_utf8 (drop 13 frame)) in
      let subject_id := if privileged_proxy then requester_id else sender_service_id in
      let subject_id := normalize_subject_id subject_id in
      rsp_v1 op (verdict (Sel.allows policy subject_id cap)).

Definition delegate_ok (cap : bytes) : bool :=
  privileged_proxy || Sel.allows policy (normalize_delegate_sender_id sender_service_id cap) CAP_DELEGATE.

Definition check_cap_delegated_v1 (op : Z) : bytes :=
  if vlen frame <? 4 + 8 + 1 then rsp_v1 op STATUS_MALFORMED
  else
    let subject_id := le_value (slice 4 12 frame) in
    let cap_len := at_ 12 in
    if (48 <? cap_len) || negb (vlen frame =? 13 + cap_len) then rsp_v1 op STATUS_MALFORMED
    else
      let cap := default [] (from_utf8 (drop 13 frame)) in
      if negb (delegate_ok cap) then rsp_v1 op STATUS_DENY
      else rsp_v1 op (verdict (Sel.allows policy (normalize_subject_id subject_id) cap)).

Definition check_cap_delegated_v2 (op : Z) : bytes :=
  if vlen frame <? 4 + 4 + 8 + 1 then rsp_v2 op 0 STATUS_MALFORMED
  else
    let nonce := le_value (slice 4 8 frame) in
    let subject_id := le_value (slice 8 16 frame) in
    let cap_len := at_ 16 in
    if (48 <? cap_len) || negb (vlen frame =? 17 + cap_len) then rsp_v2 op nonce STATUS_MALFORMED
    else
      let cap := default [] (from_utf8 (drop 17 frame)) in
      if negb (delegate_ok cap) then rsp_v2 op nonce STATUS_DENY
      else rsp_v2 op nonce (verdict (Sel.allows policy (normalize_subject_id subject_id) cap)).

(** [encode_abi_profile_rsp_v2] into the frame buffer. *)
Definition encode_abi_profile_rsp (nonce status : Z) (profile : bytes) : option bytes :=
  encode Wire.Policyd.abi_profile_rsp_v2 [VInt nonce; VInt status; VBytes profile] (Z.to_nat MAX_FRAME_BYTES).

Definition abi_profile_get_v2 : bytes :=
  match decode Wire.Policyd.abi_profile_get_v2 frame with
  | Some [VInt nonce; VInt requested] =>
      let unsupported := rsp_v2 OP_ABI_PROFILE_GET nonce STATUS_UNSUPPORTED in
      let requested := normalize_subject_id requested in
      if spoofed requested then default unsupported (encode_abi_profile_rsp nonce STATUS_DENY [])
      else
        match encode_subject_profile_v1 requested AbiFilter.MAX_PROFILE_BYTES with
        | None => default unsupported (encode_abi_profile_rsp nonce STATUS_UNSUPPORTED [])
        | Some profile =>
            match encode_abi_profile_rsp nonce STATUS_ALLOW profile with
            | Some out => out
            | None => default unsupported (encode_abi_profile_rsp nonce STATUS_UNSUPPORTED [])
            end
        end
  | _ => rsp_v2 OP_ABI_PROFILE_GET 0 STATUS_MALFORMED
  end.

(** Routing: bundlemgrd's route to execd has a capability of its own. *)
Definition route_verdict (requester_id : Z) (to_execd : bool) : Z :=
  if to_execd then verdict (Sel.allows policy requester_id CAP_ROUTE_EXECD)
  else verdict (Sel.allows policy requester_id CAP_ROUTE).

Definition route_v1 (op : Z) : bytes :=
  if vlen frame <? 6 then rsp_v1 op STATUS_MALFORMED
  else
    let req_len := at_ 4 in
    if (req_len =? 0) || (48 <? req_len) || (vlen frame <? 5 + req_len + 1) then rsp_v1 op STATUS_MALFORMED
    else
      let req_end := 5 + req_len in
      let tgt_len := at_ (Z.to_nat req_end) in
      let tgt_start := req_end + 1 in
      let tgt_end := tgt_start + tgt_len in
      if (tgt_len =? 0) || (48 <? tgt_len) || negb (vlen frame =? tgt_end) then rsp_v1 op STATUS_MALFORMED
      else
        let requester := slice 5 (Z.to_nat req_end) frame in
        let target := slice (Z.to_nat tgt_start) (Z.to_nat tgt_end) frame in
        let requester_id := service_id_from_name requester in
        if spoofed requester_id then rsp_v1 op STATUS_DENY
        else rsp_v1 op (route_verdict requester_id (bool_decide (requester = NAME_BUNDLEMGRD) && bool_decide (target = NAME_EXECD))).

Definition exec_v1 (op : Z) : bytes :=
  if vlen frame <? 6 then rsp_v1 op STATUS_MALFORMED
  else
    let req_len := at_ 4 in
    if (req_len =? 0) || (48 <? req_len) || negb (vlen frame =? 5 + req_len + 1) then rsp_v1 op STATUS_MALFORMED
    else
      let requester_id := service_id_from_name (slice 5 (Z.to_nat (5 + req_len)) frame) in
      if spoofed requester_id then rsp_v1 op STATUS_DENY
      else rsp_v1 op (verdict (Sel.allows policy requester_id CAP_EXEC)).

Definition route_v2 : bytes :=
  match decode Wire.Policyd.route_v2 frame with
  | Some [VInt nonce; VBytes requester; VBytes target] =>
      let requester_id := service_id_from_name requester in
      if spoofed requester_id then rsp_v2 Wire.Policyd.OP_ROUTE nonce STATUS_DENY
      else rsp_v2 Wire.Policyd.OP_ROUTE nonce
             (route_verdict requester_id (bool_decide (requester = NAME_BUNDLEMGRD) && bool_decide (target = NAME_EXECD)))
  | _ => rsp_v2 Wire.Policyd.OP_ROUTE 0 STATUS_MALFORMED
  end.

Definition route_v3 : bytes :=
  match decode Wire.Policyd.route_v3_id frame with
  | Some [VInt nonce; VInt requester_id; VInt target_id] =>
      if spoofed requester_id then rsp_v3 Wire.Policyd.OP_ROUTE nonce STATUS_DENY
      else rsp_v3 Wire.Policyd.OP_ROUTE nonce
             (route_verdict requester_id
                ((requester_id =? service_id_from_name NAME_BUNDLEMGRD) && (target_id =? service_id_from_name NAME_EXECD)))
  | _ => rsp_v3 Wire.Policyd.OP_ROUTE 0 STATUS_MALFORMED
  end.

Definition exec_v2 : bytes :=
  match decode Wire.Policyd.exec_v2 frame with
  | Some [VInt nonce; VBytes requester; VInt _] =>
      let requester_id := service_id_from_name requester in
      if spoofed requester_id then rsp_v2 Wire.Policyd.OP_EXEC nonce STATUS_DENY
      else rsp_v2 Wire.Policyd.OP_EXEC nonce (verdict (Sel.allows policy requester_id CAP_EXEC))
  | _ => rsp_v2 Wire.Policyd.OP_EXEC 0 STATUS_MALFORMED
  end.

Definition exec_v3 : bytes :=
  match decode Wire.Policyd.exec_v3_id frame with
  | Some [VInt nonce; VInt requester_id; VInt _] =>
      if spoofed requester_id then rsp_v3 Wire.Policyd.OP_EXEC nonce STATUS_DENY
      else rsp_v3 Wire.Policyd.OP_EXEC nonce (verdict (Sel.allows policy requester_id CAP_EXEC))
  | _ => rsp_v3 Wire.Policyd.OP_EXEC 0 STATUS_MALFORMED
  end.

Definition handle_frame : bytes :=
  if (vlen frame <? 6) || negb (at_ 0 =? MAGIC0) || negb (at_ 1 =? MAGIC1) then rsp_v1 OP_CHECK STATUS_MALFORMED
  else
    let ver := at_ 2 in
    let op := at_ 3 in
    if (ver =? 1) && (op =? OP_CHECK) then check_v1 op
    else if (ver =? 1) && (op =? OP_CHECK_CAP) then check_cap_v1 op
    else if (ver =? 1) && (op =? OP_CHECK_CAP_DELEGATED) then check_cap_delegated_v1 op
    else if (ver =? 2) && (op =? OP_CHECK_CAP_DELEGATED) then check_cap_delegated_v2 op
    else if (ver =? 2) && (op =? OP_ABI_PROFILE_GET) then abi_profile_get_v2
    else if (ver =? 1) && (op =? OP_ROUTE) then route_v1 op
    else if (ver =? 1) && (op =? OP_EXEC) then exec_v1 op
    else if (ver =? 2) && (op =? OP_ROUTE) then route_v2
    else if (ver =? 3) && (op =? OP_ROUTE) then route_v3
    else if (ver =? 2) && (op =? OP_EXEC) then exec_v2
    else if (ver =? 3) && (op =? OP_EXEC) then exec_v3
    else rsp_v1 op STATUS_UNSUPPORTED.
End Handler.
End Lite.

(** ** [os_lite.rs]: channels, privilege and audit *)
Module Runtime.
Import Lite.
Definition OP_LOG_PROBE : Z := 0x7f.
Definition AUDIT_EMIT_LIMIT : Z := 128.
Definition SERVER_BUF : nat := 512.

Inductive AuditDecision := AuditAllow | AuditDeny.

Definition audit_op_name (op : Z) : bytes :=
  if op =? OP_CHECK then bytes_of "check"
  else if op =? OP_CHECK_CAP then bytes_of "check_cap"
  else if op =? OP_CHECK_CAP_DELEGATED then bytes_of "check_cap_delegated"
  else if op =? OP_ROUTE then bytes_of "route"
  else if op =? OP_EXEC then bytes_of "exec"
  else bytes_of "unknown".

Definition audit_decision_name (d : AuditDecision) : bytes :=
  match d with
  | AuditAllow => bytes_of "allow"
  | AuditDeny => bytes_of "deny"
  end.

(** The 256-byte message buffer: the bytes pushed so far. *)
Definition push_bytes (buf data : bytes) : bytes :=
  if 256 - vlen buf <? vlen data then buf else buf ++ data.

Definition hex_digit (n : Z) : Z := if n <? 10 then 48 + n else 97 + (n - 10).

Definition write_hex_u64 (buf : bytes) (value : Z) : bytes :=
  if 256 - vlen buf <? 16 then buf
  else buf ++ map (fun shift => hex_digit (Z.land (Z.shiftr value (Z.of_nat shift * 4)) 0xF)) (rev (seq 0 16)).

(** The audit message; the handler passes no target. *)
Definition audit_message (op : Z) (d : AuditDecision) (subject_id : Z) : bytes :=
  let buf := push_bytes [] (bytes_of "audit v1 op=") in
  let buf := push_bytes buf (audit_op_name op) in
  let buf := push_bytes buf (bytes_of " decision=") in
  let buf := push_bytes buf (audit_decision_name d) in
  let buf := push_bytes buf (bytes_of " subject=0x") in
  let buf := write_hex_u64 buf subject_id in
  let buf := push_bytes buf (bytes_of " reason=") in
  push_bytes buf (bytes_of "policy").

(** The daemon's state: the audit counter and the messages handed to the log
    service. *)
Record state := { AUDIT_EMIT_COUNT : Z; audited : list bytes }.

Definition emit_audit (st : state) (op : Z) (d : AuditDecision) (subject_id : Z) : state :=
  {| AUDIT_EMIT_COUNT := wrapping_add 64 st.(AUDIT_EMIT_COUNT) 1;
     audited := if AUDIT_EMIT_LIMIT <=? st.(AUDIT_EMIT_COUNT) then st.(audited)
                else st.(audited) ++ [audit_message op d subject_id] |}.

(** A received message: what the header and the kernel say about it. *)
Record message := { cap_moved : option Z; from : Z; payload : bytes }.

Section Loop.
Context (POLICY : Sel.Policy) (ABI_PROFILE_ENTRIES : list (Z * option bytes * option Z)).
(** Whether the probe record reached the log service. *)
Context (append_probe_to_logd : bool).

Definition handle_frame (st : state) (frame : bytes) (sender : Z) (privileged_proxy : bool) : state * bytes :=
  if (vlen frame <? 6) || negb (nth 0 frame 0 =? MAGIC0) || negb (nth 1 frame 0 =? MAGIC1)
  then (st, rsp_v1 OP_CHECK STATUS_MALFORMED)
  else
    let ver := nth 2 frame 0 in
    let op := nth 3 frame 0 in
    if (ver =? VERSION) && (op =? OP_LOG_PROBE)
    then (st, rsp_v1 op (if append_probe_to_logd then STATUS_ALLOW else STATUS_UNSUPPORTED))
    else
      let out := Lite.handle_frame POLICY ABI_PROFILE_ENTRIES frame sender privileged_proxy in
      let st :=
        if 5 <=? vlen out then
          if nth 4 out 0 =? STATUS_ALLOW then emit_audit st op AuditAllow sender
          else if nth 4 out 0 =? STATUS_DENY then emit_audit st op AuditDeny sender
          else st
        else st in
      (st, out).

(** One poll of a channel: the slot the reply goes to, and the reply. *)
Definition serve_channel (st : state) (send_slot : Z) (privileged : Z → bool) (m : option message)
    : state * list (Z * bytes) :=
  match m with
  | None => (st, [])
  | Some m =>
      let '(st, rsp) := handle_frame st (take SERVER_BUF m.(payload)) m.(from) (privileged m.(from)) in
      (st, [(default send_slot m.(cap_moved), rsp)])
  end.

Definition is_init (sender : Z) : bool :=
  (sender =? service_id_from_name (bytes_of "init-lite")) || (sender =? service_id_from_name (bytes_of "nexus-init")).

(** One turn of the service loop: the two control channels, then the service
    endpoint. *)
Definition turn (st : state) (ctl_route ctl_exec server : option message) : state * list (Z * bytes) :=
  let '(st, r1) := serve_channel st 6 (fun _ => true) ctl_route in
  let '(st, r2) := serve_channel st 8 (fun _ => true) ctl_exec in
  let '(st, r3) := serve_channel st 4 is_init server in
  (st, r1 ++ r2 ++ r3).
End Loop.
End Runtime.

(** ** [nexus-ipc/src/policyd.rs]: the client *)
Module Client.
Definition VERSION_V2 : Z := 2.
Definition OP_CHECK_CAP_DELEGATED : Z := 5.
Definition RESPONSE_BIT : Z := 0x80.
Definition MAX_CAP_LEN : Z := 48.

Inductive CapDecision := Allow | Deny | Unreachable.

#[export] Instance CapDecision_eq_dec : EqDecision CapDecision.
Proof. solve_decision. Defined.

Definition encode_check_cap_delegated (nonce subject_id : Z) (cap : bytes) : option bytes :=
  if bool_decide (cap = []) || (MAX_CAP_LEN <? vlen cap) then None
  else Some ([Lite.MAGIC0; Lite.MAGIC1; VERSION_V2; OP_CHECK_CAP_DELEGATED] ++
             le_bytes 4 nonce ++ le_bytes 8 subject_id ++ [vlen cap] ++ cap).

Definition decode_decision (frame : bytes) (expected_nonce : Z) : option CapDecision :=
  if (vlen frame <? 10) || negb (nth 0 frame 0 =? Lite.MAGIC0) || negb (nth 1 frame 0 =? Lite.MAGIC1)
     || negb (nth 2 frame 0 =? VERSION_V2) || negb (nth 3 frame 0 =? Z.lor OP_CHECK_CAP_DELEGATED RESPONSE_BIT)
  then None
  else if negb (le_value (slice 4 8 frame) =? expected_nonce) then None
  else if nth 8 frame 0 =? Lite.STATUS_ALLOW then Some Allow
  else if nth 8 frame 0 =? Lite.STATUS_DENY then Some Deny
  else None.

(** What the kernel answers to one attempt, and whether the clock has passed
    the deadline when the loop looks at it after the attempt. *)
Inductive send_event := Sent | SendFull | SendErr.
Inductive recv_event := Received (frame : bytes) | RecvEmpty | RecvErr.

(** The two loops over the kernel's answers; a list ends where the loop does. *)
Fixpoint send_loop (spins : Z) (evs : list (send_event * bool)) : bool :=
  match evs with
  | [] => false
  | (Sent, _) :: _ => true
  | (SendFull, late) :: evs =>
      if late || (200000 <=? spins) then false else send_loop (saturating_add 32 spins 1) evs
  | (SendErr, _) :: _ => false
  end.

Fixpoint recv_loop (nonce : Z) (evs : list (recv_event * bool)) : CapDecision :=
  match evs with
  | [] => Unreachable
  | (Received frame, late) :: evs =>
      match decode_decision (take 32 frame) nonce with
      | Some d => d
      | None => if late then Unreachable else recv_loop nonce evs
      end
  | (RecvEmpty, late) :: evs => if late then Unreachable else recv_loop nonce evs
  | (RecvErr, _) :: _ => Unreachable
  end.

(** [check_cap_on]; [NONCE] is the counter's value, returned as it is left. *)
Definition check_cap_on (NONCE : Z) (cloned : bool) (sends : list (send_event * bool))
    (recvs : list (recv_event * bool)) (subject_id : Z) (cap : bytes) : Z * CapDecision :=
  let nonce := NONCE in
  let NONCE := wrapping_add 32 NONCE 1 in
  match encode_check_cap_delegated nonce subject_id cap with
  | None => (NONCE, Unreachable)
  | Some _ =>
      if negb cloned then (NONCE, Unreachable)
      else if negb (send_loop 0 sends) then (NONCE, Unreachable)
      else (NONCE, recv_loop nonce recvs)
  end.
End Client.

(** ** [supply_chain.rs]: the sign policy of an install *)
Module SupplyChain.
Inductive SignPolicyDecision := Allow | Deny (label : bytes).
Inductive SignPolicyError := QueryFailed.

Definition evaluate_allowlist (allowed : bool) (reason : bytes) : SignPolicyDecision :=
  if allowed then Allow
  else Deny (if bool_decide (reason = bytes_of "publisher_unknown") then bytes_of "policy.publisher_unknown"
             else if bool_decide (reason = bytes_of "key_unknown") then bytes_of "policy.key_unknown"
             else if bool_decide (reason = bytes_of "alg_unsupported") then bytes_of "policy.alg_unsupported"
             else if bool_decide (reason = bytes_of "disabled") then bytes_of "policy.disabled"
             else bytes_of "policy.denied").

(** The signing authority is the caller's closure. *)
Definition decide_from_authority {E} (query_authority : bytes → bytes → bytes → result (bool * bytes) E)
    (publisher alg pubkey : bytes) : result SignPolicyDecision SignPolicyError :=
  let? x := map_err (fun _ => QueryFailed) (query_authority publisher alg pubkey) in
  Ok (evaluate_allowlist x.1 x.2).

(** Fail closed: an install is allowed only on the authority's explicit yes. *)
Lemma decide_allow {E} (q : bytes → bytes → bytes → result (bool * bytes) E) publisher alg pubkey :
  decide_from_authority q publisher alg pubkey = Ok Allow ↔ ∃ reason, q publisher alg pubkey = Ok (true, reason).
Proof.
  unfold decide_from_authority. destruct (q publisher alg pubkey) as [[[] reason]|]; cbn; naive_solver.
Qed.
End SupplyChain.

(** ** Guardrail profiles *)
Module AbiFilterProps.
Import AbiFilter.

(** The rule a prefix, or a port bound, is decoded to. *)
Definition put_rule (p : bytes) : AbiRule :=
  {| syscall := StatefsPut; action := Allow; path_prefix := splice AbiRule_empty.(path_prefix) 0 p;
     path_prefix_len := vlen p; port_min := 0; port_max := 0 |}.
Definition bind_rule (m : Z) : AbiRule :=
  {| syscall := NetBind; action := Allow; path_prefix := splice AbiRule_empty.(path_prefix) 0 [];
     path_prefix_len := 0; port_min := m; port_max := 65535 |}.

Lemma decode_put_rule p r : p ≠ [] → vlen p ≤ MAX_PATH_PREFIX_BYTES →
  decode_rule ([1; 1; vlen p; 0] ++ le_bytes 2 0 ++ le_bytes 2 0 ++ p ++ r) = Ok (put_rule p, r).
Proof.
  intros Hne Hl. unfold decode_rule. change (le_bytes 2 0) with [0; 0]. cbn [app length].
  rewrite (proj2 (Nat.ltb_ge _ _)) by lia. cbn [nth]. change (SyscallClass_from_u8 1) with (Some StatefsPut).
  change (RuleAction_from_u8 1) with (Some Allow). cbn [ok_or result_bind].
  rewrite (proj2 (Z.ltb_ge _ _)) by done.
  change (drop 8 (1 :: 1 :: vlen p :: 0 :: 0 :: 0 :: 0 :: 0 :: p ++ r)) with (p ++ r).
  replace (Z.to_nat (vlen p)) with (length p) by (unfold vlen; lia).
  rewrite (proj2 (Nat.ltb_ge _ _)) by (rewrite length_app; lia). by rewrite take_app_length, drop_app_length.
Qed.

Lemma decode_bind_rule m r : in_width 16 m →
  decode_rule ([2; 1; 0; 0] ++ le_bytes 2 m ++ le_bytes 2 65535 ++ r) = Ok (bind_rule m, r).
Proof.
  intros Hm. unfold decode_rule. replace (le_value (slice 4 6 _)) with m.
  - by destruct r.
  - change (slice 4 6 _) with (le_bytes 2 m). symmetry. by apply (le_value_bytes 2).
Qed.

Lemma matches_put_rule p path n : p ≠ [] →
  matches_statefs_put (put_rule p) path n = true ↔
  vlen path ≤ MAX_STATEFS_PATH_BYTES ∧ n ≤ MAX_STATEFS_PUT_BYTES ∧ starts_with p path = true.
Proof.
  intros Hne. assert (0 < vlen p) by (destruct p; [done|unfold vlen; simpl; lia]).
  unfold matches_statefs_put, starts_with, put_rule. cbn [syscall path_prefix path_prefix_len].
  rewrite bool_decide_eq_true_2 by done. cbn [negb].
  replace (Z.to_nat (vlen p)) with (length p) by (unfold vlen; lia).
  unfold splice. rewrite take_0, app_nil_l, take_app_length.
  rewrite (proj2 (Z.eqb_neq (vlen p) 0)) by lia. cbn [orb].
  destruct (Z.ltb_spec MAX_STATEFS_PATH_BYTES (vlen path)), (Z.ltb_spec MAX_STATEFS_PUT_BYTES n); cbn [orb]; try (split; [done|lia]).
  destruct (Z.ltb_spec (vlen path) (vlen p)) as [Hlt|Hge].
  - split; [done|]. intros (_ & _ & Hs%bool_decide_eq_true). apply (f_equal length) in Hs.
    rewrite length_take in Hs. unfold vlen in *. lia.
  - rewrite !bool_decide_eq_true. naive_solver.
Qed.

Lemma matches_bind_rule m q : in_width 16 q → matches_net_bind (bind_rule m) q = true ↔ m ≤ q.
Proof.
  intros Hq. unfold matches_net_bind, bind_rule. cbn [syscall port_min port_max]. rewrite bool_decide_eq_true_2 by done.
  cbn [negb]. rewrite andb_true_iff, !Z.leb_le. unfold in_width in Hq. lia.
Qed.

(** The rules of a table row, in the order they are encoded. *)
Definition row_rules (prefix : option bytes) (port : option Z) : list AbiRule :=
  (if prefix is Some p then [put_rule p] else []) ++ (if port is Some m then [bind_rule m] else []).

Definition profile_of (subject : Z) (prefix : option bytes) (port : option Z) : AbiProfile :=
  {| subject_service_id := subject; rule_count := vlen (row_rules prefix port);
     rules := row_rules prefix port ++ replicate (16 - length (row_rules prefix port)) AbiRule_empty |}.

Lemma profile_rules subject prefix port :
  take (Z.to_nat (rule_count (profile_of subject prefix port))) (rules (profile_of subject prefix port)) = row_rules prefix port.
Proof. cbn. unfold vlen. by rewrite Nat2Z.id, take_app_length. Qed.

Lemma encode_profile_size subject prefix port out bs :
  encode_profile_v1 subject prefix port out = Ok bs →
  (∀ p, prefix = Some p → p ≠ [] ∧ vlen p ≤ MAX_PATH_PREFIX_BYTES) ∧ vlen bs ≤ 92.
Proof.
  unfold encode_profile_v1, vlen, MAX_PATH_PREFIX_BYTES, MAX_RULES. intros He.
  destruct prefix as [p|]; [case_bool_decide as Hp; [done|]; destruct (Z.ltb_spec 64 (Z.of_nat (length p))); [done|]|];
    cbn [result_bind] in He; destruct port; step_match; try done; step_match; try done; injection He as <-;
    (split; [by intros ? [= <-]|]); cbn [app]; rewrite ?length_cons, ?length_app, ?length_cons, ?le_bytes_length;
    cbn [length]; rewrite ?length_app; simpl length; lia.
Qed.

(** The value behind an [Ok], left as it is written. *)
Ltac take_ok H := match type of H with Ok ?x = Ok ?y => assert (x = y) as <- by congruence; clear H end.

Lemma decode_profile_header n subject t :
  in_width 64 subject → 0 ≤ n ≤ MAX_RULES → vlen t ≤ 500 →
  decode_profile_v1 ([PROFILE_MAGIC0; PROFILE_MAGIC1; PROFILE_VERSION; n] ++ le_bytes 8 subject ++ t) =
  let? x := decode_rules (Z.to_nat n) (AbiProfile_empty subject) t in
  if bool_decide (x.2 = []) then Ok x.1 else Err MalformedProfile.
Proof.
  intros Hs Hn Ht. unfold decode_profile_v1.
  replace (vlen _) with (12 + vlen t) by (unfold vlen; rewrite !length_app, le_bytes_length; simpl length; lia).
  rewrite (proj2 (Z.ltb_ge _ _)) by (unfold MAX_PROFILE_BYTES, Wire.Policyd.MAX_PROFILE_BYTES; lia).
  change (length _ <? 12)%nat with false. cbn [app nth]. rewrite !Z.eqb_refl. cbn [negb orb].
  rewrite (proj2 (Z.ltb_ge _ _)) by lia. change (slice 4 12 _) with (le_bytes 8 subject).
  by rewrite le_value_bytes.
Qed.

(** What is encoded is decoded to the row's rules, under the row's subject. *)
Lemma profile_decodes subject prefix port out bs :
  in_width 64 subject → (∀ m, port = Some m → in_width 16 m) → encode_profile_v1 subject prefix port out = Ok bs →
  decode_profile_v1 bs = Ok (profile_of subject prefix port).
Proof.
  intros Hs Hport He. destruct (encode_profile_size _ _ _ _ _ He) as [Hp Hsz]. unfold encode_profile_v1 in He.
  destruct prefix as [p|].
  - destruct (Hp p eq_refl) as [Hne Hl]. rewrite bool_decide_eq_false_2, (proj2 (Z.ltb_ge _ _)) in He by done.
    cbn [result_bind] in He. destruct port as [m|]; step_match; try done; step_match; try done; take_ok He.
    + rewrite decode_profile_header; [|done|done|].
      2: { unfold vlen in *. rewrite !length_app in *. simpl length in *. lia. }
      change (Z.to_nat (1 + 1)) with 2%nat. cbn [decode_rules]. rewrite <- !app_assoc, decode_put_rule by done.
      cbn [result_bind fst snd]. change (push_rule (AbiProfile_empty subject) _) with (Ok (E := AbiFilterError) (profile_of subject (Some p) None)).
      cbn [result_bind fst snd]. pose proof (decode_bind_rule m [] (Hport m eq_refl)) as Hb. rewrite app_nil_r in Hb. by rewrite Hb.
    + rewrite decode_profile_header; [|done|done|].
      2: { unfold vlen in *. rewrite !length_app in *. simpl length in *. lia. }
      change (Z.to_nat (1 + 0)) with 1%nat. cbn [decode_rules]. rewrite <- !app_assoc, decode_put_rule by done. done.
  - cbn [result_bind] in He. destruct port as [m|]; step_match; try done; step_match; try done; take_ok He.
    + rewrite decode_profile_header by done. change (Z.to_nat (0 + 1)) with 1%nat. cbn [decode_rules]; rewrite app_nil_l.
      pose proof (decode_bind_rule m [] (Hport m eq_refl)) as Hb. rewrite app_nil_r in Hb. by rewrite Hb.
    + by rewrite decode_profile_header.
Qed.

Lemma first_match_allow (m : AbiRule → bool) rs :
  Forall (fun r => r.(action) = Allow) rs → first_match m rs = Allow ↔ Exists (fun r => m r = true) rs.
Proof.
  induction 1 as [|r rs Hr _ IH]; cbn [first_match]; [by rewrite Exists_nil|].
  rewrite Exists_cons. destruct (m r) eqn:E; [naive_solver|]. rewrite IH. naive_solver.
Qed.

Lemma row_rules_allow prefix port : Forall (fun r => r.(action) = Allow) (row_rules prefix port).
Proof. unfold row_rules. destruct prefix, port; repeat constructor. Qed.

(** The decisions of a decoded profile are those of the table row. *)
Definition row_allows_put (prefix : option bytes) (path : bytes) (n : Z) : Prop :=
  ∃ p, prefix = Some p ∧ vlen path ≤ MAX_STATEFS_PATH_BYTES ∧ n ≤ MAX_STATEFS_PUT_BYTES ∧ starts_with p path = true.
Definition row_allows_bind (port : option Z) (q : Z) : Prop := ∃ m, port = Some m ∧ m ≤ q.

Lemma profile_put subject prefix port path n :
  (∀ p, prefix = Some p → p ≠ []) →
  check_statefs_put (profile_of subject prefix port) path n = Allow ↔ row_allows_put prefix path n.
Proof.
  intros Hp. unfold check_statefs_put. rewrite profile_rules, first_match_allow by apply row_rules_allow.
  unfold row_rules, row_allows_put. rewrite Exists_app.
  assert (∀ m, matches_statefs_put (bind_rule m) path n = false) as Hb by done.
  destruct prefix as [p|], port as [m|]; rewrite ?Exists_cons, ?Exists_nil, ?Hb, ?matches_put_rule by auto; naive_solver.
Qed.

Lemma profile_bind subject prefix port q :
  in_width 16 q → check_net_bind (profile_of subject prefix port) q = Allow ↔ row_allows_bind port q.
Proof.
  intros Hq. unfold check_net_bind. rewrite profile_rules, first_match_allow by apply row_rules_allow.
  unfold row_rules, row_allows_bind. rewrite Exists_app.
  assert (∀ p, matches_net_bind (put_rule p) q = false) as Hb by done.
  destruct prefix as [p|], port as [m|]; rewrite ?Exists_cons, ?Exists_nil, ?Hb, ?matches_bind_rule by auto; naive_solver.
Qed.
End AbiFilterProps.

(** ** Decisions *)
Module Props.
Import Lite.

(** The status byte of a reply: after the nonce in versions 2 and 3. *)
Definition reply_status (rsp : bytes) : Z := if nth 2 rsp 0 =? 1 then nth 4 rsp 0 else nth 8 rsp 0.

Lemma status_v1 op st : reply_status (rsp_v1 op st) = st.
Proof. done. Qed.
Lemma status_v2 op nonce st : reply_status (rsp_v2 op nonce st) = st.
Proof. done. Qed.
Lemma status_v3 op nonce st : reply_status (rsp_v3 op nonce st) = st.
Proof. done. Qed.

Lemma verdict_allow a : verdict a = STATUS_ALLOW ↔ a = true.
Proof. by destruct a. Qed.

Section Handler.
Context (policy : Sel.Policy) (abi : list (Z * option bytes * option Z)).

Lemma not_spoofed sender id : spoofed sender false id = false → id = normalize_subject_id sender.
Proof. unfold spoofed. cbn [negb andb]. intros H%negb_false_iff. by apply Z.eqb_eq. Qed.

Definition grants (sender : Z) (cap : bytes) : Prop := Sel.allows policy (normalize_subject_id sender) cap = true.

Lemma check_v1_bound frame sender op :
  reply_status (check_v1 policy frame sender false op) = STATUS_ALLOW → grants sender CAP_CHECK.
Proof.
  unfold check_v1. step_match; [done|]. step_match; [done|]. rewrite status_v1, verdict_allow.
  by rewrite (not_spoofed _ _ Heqb0).
Qed.

Lemma route_verdict_bound id e :
  route_verdict policy id e = STATUS_ALLOW → Sel.allows policy id (if e then CAP_ROUTE_EXECD else CAP_ROUTE) = true.
Proof. unfold route_verdict. by destruct e; rewrite verdict_allow. Qed.

Lemma exec_v1_bound frame sender op :
  reply_status (exec_v1 policy frame sender false op) = STATUS_ALLOW → grants sender CAP_EXEC.
Proof.
  unfold exec_v1. do 2 (step_match; [done|]). step_match; [done|]. rewrite status_v1, verdict_allow.
  by rewrite (not_spoofed _ _ Heqb1).
Qed.

(** The capability a routing request needs: the one for execd when the parties
    are bundlemgrd and execd, by name in versions 1 and 2, by identity in
    version 3. *)
Definition route_cap (to_execd : bool) : bytes := if to_execd then CAP_ROUTE_EXECD else CAP_ROUTE.

Definition names_execd (requester target : bytes) : bool :=
  bool_decide (requester = NAME_BUNDLEMGRD) && bool_decide (target = NAME_EXECD).
Definition ids_execd (requester target : Z) : bool :=
  (requester =? service_id_from_name NAME_BUNDLEMGRD) && (target =? service_id_from_name NAME_EXECD).

(** Who asks to be routed where, as each version carries it. *)
Definition route_parties (frame : bytes) (sender : Z) (to_execd : bool) : Prop :=
  let me := normalize_subject_id sender in
  (∃ requester target, me = service_id_from_name requester ∧ to_execd = names_execd requester target ∧
     (nth 2 frame 0 = 1 ∧ frame = [MAGIC0; MAGIC1; 1; OP_ROUTE; vlen requester] ++ requester ++ [vlen target] ++ target ∨
      ∃ nonce, decode Wire.Policyd.route_v2 frame = Some [VInt nonce; VBytes requester; VBytes target])) ∨
  (∃ nonce target, to_execd = ids_execd me target ∧
     decode Wire.Policyd.route_v3_id frame = Some [VInt nonce; VInt me; VInt target]).

(** The sender's own right to the answer "allowed". *)
Definition authorised (frame : bytes) (sender : Z) : Prop :=
  let op := nth 3 frame 0 in
  (op = OP_CHECK ∧ grants sender CAP_CHECK) ∨
  (op = OP_CHECK_CAP ∧ grants sender (default [] (from_utf8 (drop 13 frame)))) ∨
  (op = OP_EXEC ∧ grants sender CAP_EXEC) ∨
  (op = OP_ROUTE ∧ ∃ to_execd, route_parties frame sender to_execd ∧ grants sender (route_cap to_execd)) ∨
  (op = OP_CHECK_CAP_DELEGATED ∧ ∃ subject cap,
     Sel.allows policy (normalize_delegate_sender_id sender cap) CAP_DELEGATE = true ∧
     Sel.allows policy (normalize_subject_id subject) cap = true) ∨
  (op = OP_ABI_PROFILE_GET ∧ ∃ nonce requested,
     decode Wire.Policyd.abi_profile_get_v2 frame = Some [VInt nonce; VInt requested] ∧
     normalize_subject_id requested = normalize_subject_id sender).

(** A version-1 routing frame that passes the length checks is what it spells. *)
Lemma route_v1_shape (f : bytes) rl tl :
  Forall is_byte f → rl = nth 4 f 0 → tl = nth (Z.to_nat (5 + rl)) f 0 → vlen f = 5 + rl + 1 + tl →
  nth 0 f 0 = MAGIC0 → nth 1 f 0 = MAGIC1 → nth 2 f 0 = 1 → nth 3 f 0 = OP_ROUTE →
  let requester := slice 5 (Z.to_nat (5 + rl)) f in
  let target := slice (Z.to_nat (5 + rl + 1)) (Z.to_nat (5 + rl + 1 + tl)) f in
  f = [MAGIC0; MAGIC1; 1; OP_ROUTE; vlen requester] ++ requester ++ [vlen target] ++ target.
Proof.
  intros Hb Hrl Htl Hlen H0 H1 H2 H3.
  assert (0 ≤ rl ∧ 0 ≤ tl) as [Hr0 Ht0].
  { assert (∀ i, 0 ≤ nth i f 0) as Hn; [|by subst].
    intros i. destruct (nth_lookup_or_length f i 0) as [Hi|Hi].
    - by apply (Forall_lookup_1 _ _ _ _ Hb) in Hi as [? _].
    - by rewrite nth_overflow. }
  destruct f as [|m0 [|m1 [|v [|o [|r g]]]]]; try (unfold vlen in Hlen; simpl in Hlen; lia).
  cbn [nth] in H0, H1, H2, H3, Hrl. subst m0 m1 v o r. unfold vlen in *. cbn [length] in Hlen.
  replace (Z.to_nat (5 + rl)) with (5 + Z.to_nat rl)%nat in * by lia. cbn [nth Nat.add] in Htl.
  unfold slice. replace (5 + Z.to_nat rl - 5)%nat with (Z.to_nat rl) by lia.
  replace (Z.to_nat (5 + rl + 1)) with (5 + S (Z.to_nat rl))%nat by lia. cbn [drop Nat.add].
  replace (Z.to_nat (5 + rl + 1 + tl) - _)%nat with (Z.to_nat tl) by lia.
  destruct (nth_lookup_or_length g (Z.to_nat rl) 0) as [Hl|Hl]; [|lia]. rewrite <- Htl in Hl.
  rewrite (take_ge (drop (S (Z.to_nat rl)) g)) by (rewrite length_drop; lia).
  change (drop 0 g) with g. rewrite length_drop, length_take, Nat.min_l by lia. rewrite Z2Nat.id by lia.
  replace (Z.of_nat (length g - S (Z.to_nat rl))) with tl by lia.
  cbn [app]. do 5 f_equal. symmetry. by apply take_drop_middle.
Qed.

Lemma route_v1_bound frame sender :
  Forall is_byte frame → nth 0 frame 0 = MAGIC0 → nth 1 frame 0 = MAGIC1 → nth 2 frame 0 = 1 → nth 3 frame 0 = OP_ROUTE →
  reply_status (route_v1 policy frame sender false OP_ROUTE) = STATUS_ALLOW →
  ∃ to_execd, route_parties frame sender to_execd ∧ grants sender (route_cap to_execd).
Proof.
  intros Hb H0 H1 H2 H3. unfold route_v1, at_. do 3 (step_match; [done|]).
  step_match; [done|]. rewrite status_v1. intros Hv%route_verdict_bound. apply not_spoofed in Heqb2. simpl_bool.
  eexists. split; [|unfold grants, route_cap; rewrite <- Heqb2; exact Hv].
  left. do 2 eexists. split; [exact (eq_sym Heqb2)|]. split; [reflexivity|]. left. split; [done|].
  by apply route_v1_shape.
Qed.

Lemma frame_op fr b vs : decode fr b = Some vs → nth 3 b 0 = fr.(wire_op).
Proof. intros (t & -> & _)%decode_inv. done. Qed.

Lemma route_v2_bound frame sender :
  reply_status (route_v2 policy frame sender false) = STATUS_ALLOW →
  ∃ to_execd, route_parties frame sender to_execd ∧ grants sender (route_cap to_execd).
Proof.
  unfold route_v2. destruct (decode _ frame) as [vs|] eqn:Ed; [|done].
  destruct vs as [|[nonce|] [|[|requester] [|[|target] []]]]; try done. step_match; [done|].
  rewrite status_v2. intros Hv%route_verdict_bound. apply not_spoofed in Heqb.
  eexists. split; [|unfold grants, route_cap; rewrite <- Heqb; exact Hv].
  left. do 2 eexists. split; [exact (eq_sym Heqb)|]. split; [reflexivity|]. right. by exists nonce.
Qed.

Lemma route_v3_bound frame sender :
  reply_status (route_v3 policy frame sender false) = STATUS_ALLOW →
  ∃ to_execd, route_parties frame sender to_execd ∧ grants sender (route_cap to_execd).
Proof.
  unfold route_v3. destruct (decode _ frame) as [vs|] eqn:Ed; [|done].
  destruct vs as [|[nonce|] [|[requester|] [|[target|] []]]]; try done. step_match; [done|].
  rewrite status_v3. intros Hv%route_verdict_bound. apply not_spoofed in Heqb. subst requester.
  eexists. split; [|unfold grants, route_cap; exact Hv]. right. by exists nonce, target.
Qed.

Lemma exec_v2_bound frame sender :
  reply_status (exec_v2 policy frame sender false) = STATUS_ALLOW → grants sender CAP_EXEC.
Proof.
  unfold exec_v2. destruct (decode _ frame) as [vs|] eqn:Ed; [|done].
  destruct vs as [|[nonce|] [|[|requester] [|[image|] []]]]; try done. step_match; [done|].
  rewrite status_v2, verdict_allow. unfold grants. by rewrite (not_spoofed _ _ Heqb).
Qed.

Lemma exec_v3_bound frame sender :
  reply_status (exec_v3 policy frame sender false) = STATUS_ALLOW → grants sender CAP_EXEC.
Proof.
  unfold exec_v3. destruct (decode _ frame) as [vs|] eqn:Ed; [|done].
  destruct vs as [|[nonce|] [|[requester|] [|[image|] []]]]; try done. step_match; [done|].
  rewrite status_v3, verdict_allow. unfold grants. by rewrite (not_spoofed _ _ Heqb).
Qed.

Lemma check_cap_v1_bound frame sender op :
  reply_status (check_cap_v1 policy frame sender false op) = STATUS_ALLOW →
  grants sender (default [] (from_utf8 (drop 13 frame))).
Proof. unfold check_cap_v1. do 2 (step_match; [done|]). by rewrite status_v1, verdict_allow. Qed.

Lemma delegated_bound frame sender op :
  reply_status (check_cap_delegated_v1 policy frame sender false op) = STATUS_ALLOW ∨
  reply_status (check_cap_delegated_v2 policy frame sender false op) = STATUS_ALLOW →
  ∃ subject cap, Sel.allows policy (normalize_delegate_sender_id sender cap) CAP_DELEGATE = true ∧
                 Sel.allows policy (normalize_subject_id subject) cap = true.
Proof.
  unfold check_cap_delegated_v1, check_cap_delegated_v2.
  intros [H|H]; revert H; (do 2 (step_match; [done|])); (step_match; [done|]);
    rewrite ?status_v1, ?status_v2, verdict_allow; apply negb_false_iff in Heqb1; by eauto.
Qed.

(** A profile reply always fits the frame buffer and reads back. *)
Lemma profile_reply nonce status profile :
  in_width 32 nonce → in_width 8 status → vlen profile ≤ AbiFilter.MAX_PROFILE_BYTES →
  ∃ rsp, encode_abi_profile_rsp nonce status profile = Some rsp ∧
    decode Wire.Policyd.abi_profile_rsp_v2 rsp = Some [VInt nonce; VInt status; VBytes profile] ∧
    reply_status rsp = status.
Proof.
  intros Hn Hs Hl. unfold AbiFilter.MAX_PROFILE_BYTES, Wire.Policyd.MAX_PROFILE_BYTES in *.
  pose (t := le_bytes 4 nonce ++ [status] ++ [0] ++ (le_bytes 2 (vlen profile) ++ profile) ++ []).
  assert (emit_fields (fields Wire.Policyd.abi_profile_rsp_v2) [VInt nonce; VInt status; VBytes profile] = Some t) as Ht.
  { cbn [emit_fields fields Wire.Policyd.abi_profile_rsp_v2 reply_frame request_frame emit_field mbind option_bind].
    unfold emit_counted. rewrite (proj2 (in_range_iff _ _ _ _)); [reflexivity|].
    unfold Wire.Policyd.MAX_PROFILE_BYTES. pose proof (vlen_nonneg profile). lia. }
  assert (length t = 8 + length profile)%nat as Hlen.
  { unfold t. rewrite !length_app, !le_bytes_length. cbn [length]. lia. }
  exists (header Wire.Policyd.abi_profile_rsp_v2 ++ t). split_and!.
  - unfold encode_abi_profile_rsp. rewrite encode_emit, Ht. cbn [mbind option_bind].
    rewrite (proj2 (Nat.leb_le _ _)); [done|]. rewrite Hlen. unfold MAX_FRAME_BYTES, AbiFilter.MAX_PROFILE_BYTES, Wire.Policyd.MAX_PROFILE_BYTES, vlen in *. lia.
  - assert (values_ok (fields Wire.Policyd.abi_profile_rsp_v2) [VInt nonce; VInt status; VBytes profile]) as Hv.
    { unfold values_ok. cbn. by apply Forall2_cons; split; [|apply Forall2_cons; split; [|apply Forall2_cons; split]]. }
    apply decode_header. pose proof (take_emit_fields _ _ _ [] Hv Ht) as Hd. by rewrite app_nil_r in Hd.
  - done.
Qed.

Lemma subject_profile_size id bs :
  encode_subject_profile_v1 abi id AbiFilter.MAX_PROFILE_BYTES = Some bs → vlen bs ≤ AbiFilter.MAX_PROFILE_BYTES.
Proof.
  unfold encode_subject_profile_v1. destruct (List.find _ abi) as [[[? prefix] port]|].
  all: destruct (AbiFilter.encode_profile_v1 _ _ _ _) eqn:E; [|done]; intros [= <-].
  all: apply AbiFilterProps.encode_profile_size in E as [_ E]; unfold AbiFilter.MAX_PROFILE_BYTES, Wire.Policyd.MAX_PROFILE_BYTES; lia.
Qed.

(** The row of a subject; no row is the empty, deny-everything one. *)
Definition row_of (id : Z) : option bytes * option Z :=
  match List.find (fun e => e.1.1 =? id) abi with
  | Some (_, prefix, port) => (prefix, port)
  | None => (None, None)
  end.

Lemma subject_profile_row id out :
  encode_subject_profile_v1 abi id out =
  match AbiFilter.encode_profile_v1 id (row_of id).1 (row_of id).2 out with Ok p => Some p | Err _ => None end.
Proof. unfold encode_subject_profile_v1, row_of. by destruct (List.find _ abi) as [[[? prefix] port]|]. Qed.

Lemma get_nonce_width frame nonce requested :
  Forall is_byte frame → decode Wire.Policyd.abi_profile_get_v2 frame = Some [VInt nonce; VInt requested] →
  in_width 32 nonce ∧ in_width 64 requested.
Proof.
  intros Hb (t & -> & Ht)%decode_inv. apply Forall_app in Hb as [_ Hb].
  apply take_fields_sound in Ht as (_ & _ & _ & _ & _ & _ & Hv); [|done].
  unfold values_ok in Hv. cbn in Hv. apply Forall2_cons in Hv as [Hn Hv]. apply Forall2_cons in Hv as [Hr _]. done.
Qed.

(** An allowed profile is the sender's own. *)
Lemma abi_profile_bound frame sender :
  Forall is_byte frame →
  reply_status (abi_profile_get_v2 abi frame sender false) = STATUS_ALLOW →
  ∃ nonce requested, decode Wire.Policyd.abi_profile_get_v2 frame = Some [VInt nonce; VInt requested] ∧
    normalize_subject_id requested = normalize_subject_id sender.
Proof.
  intros Hb. unfold abi_profile_get_v2. destruct (decode _ frame) as [vs|] eqn:Ed; [|done].
  destruct vs as [|[nonce|] [|[requested|] []]]; try done. destruct (get_nonce_width _ _ _ Hb Ed) as [Hn _].
  destruct (spoofed _ _ _) eqn:Es.
  - destruct (profile_reply nonce STATUS_DENY []) as (rsp & -> & _ & Hs); [done..|].
    cbn [from_option id]. by rewrite Hs.
  - intros _. exists nonce, requested. split; [done|]. by apply not_spoofed.
Qed.

(** ** No answer on another's behalf *)

(** C19: an unprivileged sender that is told "allowed" holds the right itself: the
    table grants the sender's own (normalized) identity the capability the
    operation needs, whatever identity the frame claims; a delegated check
    needs the delegation capability of the sender; a profile is the sender's
    own. *)
Theorem policyd_identity_bound frame sender :
  Forall is_byte frame →
  reply_status (handle_frame policy abi frame sender false) = STATUS_ALLOW → authorised frame sender.
Proof.
  intros Hb. unfold handle_frame, authorised, at_. destruct (_ || _) eqn:Eh; [done|]. simpl_bool.
  repeat match goal with |- context [if (?x =? ?u) && (?y =? ?v) then _ else _] =>
    destruct ((x =? u) && (y =? v)) eqn:?; [simpl_bool|] end.
  - intros Hst. left. split; [done|by eapply check_v1_bound].
  - intros Hst. right; left. split; [done|by eapply check_cap_v1_bound].
  - intros Hst. do 4 right; left. split; [done|]. eapply delegated_bound. by left.
  - intros Hst. do 4 right; left. split; [done|]. eapply delegated_bound. by right.
  - intros Hst. do 5 right. split; [done|by apply abi_profile_bound].
  - intros Hst. do 3 right; left. split; [done|]. apply route_v1_bound; try done. congruence.
  - intros Hst. do 2 right; left. split; [done|by eapply exec_v1_bound].
  - intros Hst. do 3 right; left. split; [done|by apply route_v2_bound].
  - intros Hst. do 3 right; left. split; [done|by apply route_v3_bound].
  - intros Hst. do 2 right; left. split; [done|by eapply exec_v2_bound].
  - intros Hst. do 2 right; left. split; [done|by eapply exec_v3_bound].
  - done.
Qed.

(** ** The delegated check, from the client and back *)

(** The daemon's decision on a delegated check. *)
Definition delegated_allows (enforcer subject : Z) (privileged : bool) (cap : bytes) : bool :=
  (privileged || Sel.allows policy (normalize_delegate_sender_id enforcer cap) CAP_DELEGATE) &&
  Sel.allows policy (normalize_subject_id subject) cap.

Lemma delegated_reply nonce subject cap f enforcer privileged :
  in_width 32 nonce → in_width 64 subject → utf8_valid cap = true →
  Client.encode_check_cap_delegated nonce subject cap = Some f →
  handle_frame policy abi f enforcer privileged =
  rsp_v2 OP_CHECK_CAP_DELEGATED nonce (verdict (delegated_allows enforcer subject privileged cap)).
Proof.
  intros Hn Hs Hu. unfold Client.encode_check_cap_delegated. case_bool_decide as Hc; [done|]. cbn [orb].
  destruct (Z.ltb_spec Client.MAX_CAP_LEN (vlen cap)) as [|Hl]; [done|]. intros Hf. apply (inj Some) in Hf.
  assert (vlen f = 17 + vlen cap) as Hlen.
  { rewrite <- Hf. unfold vlen. rewrite !length_app, !le_bytes_length. cbn [length]. lia. }
  assert (slice 4 8 f = le_bytes 4 nonce) as Hnonce by by rewrite <- Hf.
  assert (slice 8 16 f = le_bytes 8 subject) as Hsub by by rewrite <- Hf.
  assert (nth 16 f 0 = vlen cap) as Hcl by by rewrite <- Hf.
  assert (drop 17 f = cap) as Hcap by by rewrite <- Hf.
  assert (handle_frame policy abi f enforcer privileged =
          check_cap_delegated_v2 policy f enforcer privileged OP_CHECK_CAP_DELEGATED) as ->.
  { unfold handle_frame, at_. rewrite (proj2 (Z.ltb_ge (vlen f) 6)) by (pose proof (vlen_nonneg cap); lia). by rewrite <- Hf. }
  pose proof (vlen_nonneg cap). unfold Client.MAX_CAP_LEN in Hl.
  unfold check_cap_delegated_v2, at_. rewrite Hnonce, Hsub, Hcl, Hcap, !le_value_bytes by done.
  rewrite (proj2 (Z.ltb_ge (vlen f) _)), (proj2 (Z.ltb_ge 48 _)), Hlen, Z.eqb_refl by lia. cbn [negb orb].
  unfold from_utf8. rewrite Hu. cbn [from_option id]. unfold delegated_allows, delegate_ok. by destruct (_ || _).
Qed.

Lemma decision_of_reply nonce a :
  in_width 32 nonce →
  Client.decode_decision (rsp_v2 OP_CHECK_CAP_DELEGATED nonce (verdict a)) nonce =
  Some (if a then Client.Allow else Client.Deny).
Proof.
  intros Hn. unfold Client.decode_decision.
  change (slice 4 8 (rsp_v2 OP_CHECK_CAP_DELEGATED nonce (verdict a))) with (le_bytes 4 nonce).
  rewrite (le_value_bytes 4) by done. rewrite (Z.eqb_refl nonce). by destruct a.
Qed.

(** A turn of the receive loop that finds nothing for the nonce in time. *)
Definition stale (nonce : Z) (ev : Client.recv_event * bool) : Prop :=
  ev.2 = false ∧ (ev.1 = Client.RecvEmpty ∨
    ∃ g, ev.1 = Client.Received g ∧ Client.decode_decision (take 32 g) nonce = None).

Lemma recv_loop_stale nonce pre evs :
  Forall (stale nonce) pre → Client.recv_loop nonce (pre ++ evs) = Client.recv_loop nonce evs.
Proof.
  induction 1 as [|[e late] pre [Hl He] _ IH]; [done|]. cbn [fst snd] in *. subst late.
  destruct He as [->|(g & -> & Hg)]; cbn [app Client.recv_loop]; [done|]. by rewrite Hg.
Qed.

(** An enforcement point that asks about a subject's capability gets the
    table's answer: the daemon answers its request on the reply capability the
    request moved, and the client, skipping whatever stale or foreign frames
    are in its inbox before, returns [Allow] exactly when the enforcement point
    may delegate and the table grants the subject the capability, and [Deny]
    otherwise. *)
Theorem policyd_check_end_to_end probe st NONCE sends pre late post subject cap enforcer slot f :
  in_width 32 NONCE → in_width 64 subject → utf8_valid cap = true → Runtime.is_init enforcer = false →
  Client.encode_check_cap_delegated NONCE subject cap = Some f →
  Client.send_loop 0 sends = true → Forall (stale NONCE) pre →
  let request := {| Runtime.cap_moved := Some slot; Runtime.from := enforcer; Runtime.payload := f |} in
  ∃ reply,
    (Runtime.turn policy abi probe st None None (Some request)).2 = [(slot, reply)] ∧
    (Client.check_cap_on NONCE true sends (pre ++ (Client.Received reply, late) :: post) subject cap).2 =
      if Sel.allows policy (normalize_delegate_sender_id enforcer cap) CAP_DELEGATE &&
         Sel.allows policy (normalize_subject_id subject) cap
      then Client.Allow else Client.Deny.
Proof.
  intros Hn Hs Hu Hi Hf Hsend Hpre request.
  pose proof (delegated_reply NONCE subject cap f enforcer false Hn Hs Hu Hf) as Hr.
  exists (Lite.handle_frame policy abi f enforcer false). split.
  - pose proof Hf as Hf'. unfold Client.encode_check_cap_delegated in Hf'. case_bool_decide; [done|]. cbn [orb] in Hf'.
    destruct (Z.ltb_spec Client.MAX_CAP_LEN (vlen cap)) as [|Hl]; [done|]. apply (inj Some) in Hf'.
    assert (take Runtime.SERVER_BUF f = f) as Htk.
    { apply take_ge. rewrite <- Hf'. rewrite !length_app, !le_bytes_length. cbn [length]. unfold Runtime.SERVER_BUF, Client.MAX_CAP_LEN, vlen in *. lia. }
    unfold Runtime.turn, Runtime.serve_channel, request. cbn [Runtime.payload Runtime.from Runtime.cap_moved].
    rewrite Hi, Htk. unfold Runtime.handle_frame.
    assert ((vlen f <? 6) || negb (nth 0 f 0 =? MAGIC0) || negb (nth 1 f 0 =? MAGIC1) = false) as ->.
    { rewrite <- Hf'. cbn [app nth]. rewrite !Z.eqb_refl, (proj2 (Z.ltb_ge _ _)); [done|].
      unfold vlen. cbn [length]. rewrite !length_app, !le_bytes_length. lia. }
    assert ((nth 2 f 0 =? VERSION) && (nth 3 f 0 =? Runtime.OP_LOG_PROBE) = false) as -> by by rewrite <- Hf'.
    cbv zeta. rewrite Hr. done.
  - unfold Client.check_cap_on. rewrite Hf, Hsend. cbn [negb snd]. rewrite recv_loop_stale by done.
    cbn [Client.recv_loop]. rewrite Hr. rewrite take_ge by (cbn; lia). by rewrite decision_of_reply.
Qed.

(** ** The state service behind the table *)

(** The decision the state service acts on: its query through the client's
    frame, the daemon's handler and the client's reading of the reply. *)
Definition statefsd_asks (nonce enforcer subject : Z) (cap : bytes) : bool :=
  match Client.encode_check_cap_delegated nonce subject cap with
  | Some f =>
      match Client.decode_decision (handle_frame policy abi f enforcer (Runtime.is_init enforcer)) nonce with
      | Some Client.Allow => true
      | _ => false
      end
  | None => false
  end.

Lemma statefsd_asks_table nonce enforcer subject cap :
  in_width 32 nonce → in_width 64 subject → utf8_valid cap = true →
  statefsd_asks nonce enforcer subject cap = true →
  delegated_allows enforcer subject (Runtime.is_init enforcer) cap = true.
Proof.
  intros Hn Hs Hu. unfold statefsd_asks. destruct (Client.encode_check_cap_delegated _ _ _) as [f|] eqn:Ef; [|done].
  rewrite (delegated_reply nonce subject cap f _ _ Hn Hs Hu Ef), decision_of_reply by done.
  by destruct (delegated_allows _ _ _ _).
Qed.

(** The table names the capability for the subject's first entry. *)
Definition table_grants (subject : Z) (cap : bytes) : Prop :=
  ∃ entry c, Sel.find_entry policy subject = Some entry ∧ c ∈ entry.(Sel.capabilities) ∧
    Sel.eq_ignore_ascii_case c cap = true.

Lemma allows_table subject cap : Sel.allows policy subject cap = true → table_grants subject cap.
Proof.
  unfold Sel.allows, table_grants. destruct (Sel.find_entry policy subject) as [entry|]; [|done].
  intros (c & Hc & He)%existsb_exists. exists entry, c. split_and!; [done| |done]. by apply list_elem_of_In.
Qed.

Lemma required_cap_utf8 op k : utf8_valid (required_cap op k) = true.
Proof. unfold required_cap. repeat (destruct (starts_with _ _); [vm_compute; reflexivity|]). by destruct (_ || _). Qed.

Lemma canonical_width sender op k :
  in_width 64 sender →
  in_width 64 (canonical_policy_subject_for_statefs sender op k (service_id_from_name NAME_SELFTEST) (service_id_from_name NAME_METRICSD)).
Proof.
  intros Hs. unfold canonical_policy_subject_for_statefs.
  destruct (_ && _); [vm_compute; split; congruence|]. destruct (_ =? _); [vm_compute; split; congruence|done].
Qed.

(** The identity the state service and the daemon settle on for a sender. *)
Definition statefs_subject (sender op : Z) (k : bytes) : Z :=
  normalize_subject_id (canonical_policy_subject_for_statefs sender op k
    (service_id_from_name NAME_SELFTEST) (service_id_from_name NAME_METRICSD)).


(** ** Guardrail profiles, as served *)

Definition encodable (prefix : option bytes) : bool :=
  match prefix with
  | Some p => negb (bool_decide (p = [])) && (vlen p <=? AbiFilter.MAX_PATH_PREFIX_BYTES)
  | None => true
  end.

Lemma encode_profile_total subject prefix port :
  is_ok (AbiFilter.encode_profile_v1 subject prefix port AbiFilter.MAX_PROFILE_BYTES) = encodable prefix.
Proof.
  unfold AbiFilter.encode_profile_v1, encodable. destruct prefix as [p|].
  - case_bool_decide as Hp; [done|]. cbn [negb andb]. rewrite Z.ltb_antisym.
    destruct (Z.leb_spec (vlen p) AbiFilter.MAX_PATH_PREFIX_BYTES) as [Hl|]; [|done]. cbn [negb result_bind].
    destruct port; change (AbiFilter.MAX_RULES <? _) with false; cbv iota beta zeta; rewrite orb_diag, (proj2 (Z.ltb_ge _ _)); try done;
      unfold AbiFilter.MAX_PATH_PREFIX_BYTES, AbiFilter.MAX_PROFILE_BYTES, Wire.Policyd.MAX_PROFILE_BYTES in *; lia.
  - by destruct port.
Qed.

Lemma get_request nonce requested f :
  in_width 32 nonce → in_width 64 requested →
  encode Wire.Policyd.abi_profile_get_v2 [VInt nonce; VInt requested] 32 = Some f →
  (∀ sender priv, handle_frame policy abi f sender priv = abi_profile_get_v2 abi f sender priv) ∧
  decode Wire.Policyd.abi_profile_get_v2 f = Some [VInt nonce; VInt requested].
Proof.
  intros Hn Hr. rewrite encode_emit. intros (t & Ht & He)%bind_Some.
  assert (length t = 12)%nat as Hlen.
  { unfold Wire.Policyd.abi_profile_get_v2, request_frame in Ht.
    cbn [emit_fields fields emit_field mbind option_bind length] in Ht.
    rewrite bool_decide_eq_true_2 in Ht by done. cbn [mbind option_bind] in Ht. apply (inj Some) in Ht as <-.
    by rewrite !length_app, !le_bytes_length. }
  rewrite Hlen in He. apply (inj Some) in He as <-. split.
  - intros. unfold handle_frame. rewrite (proj2 (Z.ltb_ge (vlen _) _)); [done|].
    unfold vlen. rewrite length_app, Hlen. simpl. lia.
  - apply decode_header. assert (values_ok (fields Wire.Policyd.abi_profile_get_v2) [VInt nonce; VInt requested]) as Hv.
    { unfold values_ok. cbn. by apply Forall2_cons; split; [|apply Forall2_cons; split]. }
    pose proof (take_emit_fields _ _ _ [] Hv Ht) as Hd. by rewrite app_nil_r in Hd.
Qed.

(** What the holder of a served profile learns: it passes the authenticated
    ingest under the subject's identity and decides as the subject's row does. *)
Definition profile_serves (subject : Z) (bs : bytes) : Prop :=
  ∃ p, (∀ authority, AbiFilter.ingest_distributed_profile_v1 bs authority authority subject = Ok p) ∧
    (∀ sender authority, sender ≠ authority →
       AbiFilter.ingest_distributed_profile_v1 bs sender authority subject = Err AbiFilter.UnauthenticatedProfileDistribution) ∧
    (∀ path n, AbiFilter.check_statefs_put p path n = AbiFilter.Allow ↔
       AbiFilterProps.row_allows_put (row_of subject).1 path n) ∧
    (∀ q, in_width 16 q → AbiFilter.check_net_bind p q = AbiFilter.Allow ↔
       AbiFilterProps.row_allows_bind (row_of subject).2 q).

Lemma subject_profile_serves id bs :
  in_width 64 id → (∀ m, (row_of id).2 = Some m → in_width 16 m) →
  encode_subject_profile_v1 abi id AbiFilter.MAX_PROFILE_BYTES = Some bs → profile_serves id bs.
Proof.
  intros Hid Hport. rewrite subject_profile_row. destruct (AbiFilter.encode_profile_v1 _ _ _ _) as [p|] eqn:E; [|done].
  intros [= <-]. pose proof (AbiFilterProps.profile_decodes _ _ _ _ _ Hid Hport E) as Hd.
  apply AbiFilterProps.encode_profile_size in E as [Hp _].
  exists (AbiFilterProps.profile_of id (row_of id).1 (row_of id).2). split_and!.
  - intros a. unfold AbiFilter.ingest_distributed_profile_v1. rewrite Z.eqb_refl, Hd. cbn [negb result_bind].
    cbn [AbiFilter.subject_service_id AbiFilterProps.profile_of]. by rewrite Z.eqb_refl.
  - intros a b Hab. unfold AbiFilter.ingest_distributed_profile_v1. by rewrite (proj2 (Z.eqb_neq _ _)).
  - intros. apply AbiFilterProps.profile_put. naive_solver.
  - intros. by apply AbiFilterProps.profile_bind.
Qed.

Lemma normalize_width id : in_width 64 id → in_width 64 (normalize_subject_id id).
Proof.
  intros Hid. unfold normalize_subject_id. repeat (destruct (_ =? _); [vm_compute; split; congruence|]). done.
Qed.

End Handler.
End Props.

(** ** Witnesses and examples *)
Module Demo.
Import Lite Props.

Definition sid (name : string) : Z := service_id_from_name (bytes_of name).

Definition table : Sel.Policy :=
  [{| Sel.service_id := sid "statefsd"; Sel.capabilities := [CAP_DELEGATE] |};
   {| Sel.service_id := sid "updated"; Sel.capabilities := [bytes_of "STATEFS.WRITE"; CAP_CHECK] |}].

Definition profiles : list (Z * option bytes * option Z) := [(sid "updated", Some (bytes_of "/state/app/"), Some 1024)].

(** The version-1 check by name. *)
Definition check_request (name : string) : bytes :=
  [MAGIC0; MAGIC1; 1; OP_CHECK; vlen (bytes_of name)] ++ bytes_of name.

Lemma policyd_identity_bound_witness :
  let frame := check_request "updated" in
  authorised table frame (sid "updated") ∧ reply_status (handle_frame table profiles frame (sid "statefsd") false) = STATUS_DENY.
Proof.
  split; [|vm_compute; reflexivity].
  apply (policyd_identity_bound table profiles (check_request "updated") (sid "updated")).
  - vm_compute. repeat (constructor; [split; [discriminate|reflexivity]|]). constructor.
  - vm_compute. reflexivity.
Defined.

Definition ask : bytes := default [] (Client.encode_check_cap_delegated 7 (sid "updated") CAP_WRITE).

Lemma policyd_check_end_to_end_witness :
  ∃ reply,
    (Runtime.turn table profiles true {| Runtime.AUDIT_EMIT_COUNT := 0; Runtime.audited := [] |} None None
       (Some {| Runtime.cap_moved := Some 9; Runtime.from := sid "statefsd"; Runtime.payload := ask |})).2 = [(9, reply)] ∧
    (Client.check_cap_on 7 true [(Client.SendFull, false); (Client.Sent, false)]
       [(Client.RecvEmpty, false); (Client.Received [1; 2; 3], false); (Client.Received reply, true)]
       (sid "updated") CAP_WRITE).2 = Client.Allow.
Proof.
  apply (policyd_check_end_to_end table profiles true {| Runtime.AUDIT_EMIT_COUNT := 0; Runtime.audited := [] |} 7
           [(Client.SendFull, false); (Client.Sent, false)]
           [(Client.RecvEmpty, false); (Client.Received [1; 2; 3], false)] true [] (sid "updated") CAP_WRITE
           (sid "statefsd") 9 ask); try (vm_compute; reflexivity).
  - vm_compute. split; congruence.
  - vm_compute. split; congruence.
  - constructor; [split; [done|by left]|]. constructor; [split; [done|right; by exists [1; 2; 3]]|]. constructor.
Defined.


Definition get_profile (id : Z) : bytes :=
  default [] (encode Wire.Policyd.abi_profile_get_v2 [VInt 5; VInt id] 32).


(** ** The audit trail

    The runtime takes the decision it records from byte 4 of the reply.  That is
    the status in version 1; in versions 2 and 3 it is the low byte of the
    request's nonce, and the status is byte 8.  So a denied version-2 check with
    nonce 256 is recorded as allowed, an allowed one with nonce 1 as denied, and
    one with nonce 7 is not recorded at all. *)
Theorem policyd_audit_reads_nonce :
  let st := {| Runtime.AUDIT_EMIT_COUNT := 0; Runtime.audited := [] |} in
  let ask nonce cap := default [] (Client.encode_check_cap_delegated nonce (sid "updated") cap) in
  let run nonce cap := Runtime.handle_frame table profiles true st (ask nonce cap) (sid "statefsd") false in
  let record d := Runtime.audit_message OP_CHECK_CAP_DELEGATED d (sid "statefsd") in
  Client.decode_decision (run 256 CAP_BOOT).2 256 = Some Client.Deny ∧ (run 256 CAP_BOOT).1.(Runtime.audited) = [record Runtime.AuditAllow] ∧
  Client.decode_decision (run 1 CAP_WRITE).2 1 = Some Client.Allow ∧ (run 1 CAP_WRITE).1.(Runtime.audited) = [record Runtime.AuditDeny] ∧
  Client.decode_decision (run 7 CAP_WRITE).2 7 = Some Client.Allow ∧ (run 7 CAP_WRITE).1.(Runtime.audited) = [].
Proof. split_and!; vm_compute; reflexivity. Qed.

Lemma v1_reply policy abi frame sender privileged :
  nth 2 frame 0 = 1 → ∃ op st, handle_frame policy abi frame sender privileged = rsp_v1 op st.
Proof.
  intros Hv. unfold handle_frame, at_. rewrite Hv. cbn [Z.eqb Pos.eqb andb].
  unfold check_v1, check_cap_v1, check_cap_delegated_v1, route_v1, exec_v1. repeat step_match; eauto.
Qed.

(** The version-1 trail is right, until the budget of the audit is spent: the
    record of a decided request carries the sender and the answer it got. *)
Theorem policyd_audit_v1 policy abi probe st frame sender privileged :
  6 ≤ vlen frame → nth 0 frame 0 = MAGIC0 → nth 1 frame 0 = MAGIC1 → nth 2 frame 0 = 1 →
  nth 3 frame 0 ≠ Runtime.OP_LOG_PROBE → st.(Runtime.AUDIT_EMIT_COUNT) < Runtime.AUDIT_EMIT_LIMIT →
  let '(st', rsp) := Runtime.handle_frame policy abi probe st frame sender privileged in
  st'.(Runtime.audited) = st.(Runtime.audited) ++
    (if reply_status rsp =? STATUS_ALLOW then [Runtime.audit_message (nth 3 frame 0) Runtime.AuditAllow sender]
     else if reply_status rsp =? STATUS_DENY then [Runtime.audit_message (nth 3 frame 0) Runtime.AuditDeny sender] else []).
Proof.
  intros Hl H0 H1 H2 H3 Hc. unfold Runtime.handle_frame.
  rewrite (proj2 (Z.ltb_ge _ _)), H0, H1, H2, !Z.eqb_refl, (proj2 (Z.eqb_neq (nth 3 frame 0) _)) by done. cbn [negb orb andb].
  destruct (v1_reply policy abi frame sender privileged H2) as (op & s & ->). rewrite status_v1.
  change (5 <=? vlen (rsp_v1 op s)) with true. cbv iota. change (nth 4 (rsp_v1 op s) 0) with s.
  destruct (s =? STATUS_ALLOW); [|destruct (s =? STATUS_DENY)]; cbn [Runtime.audited Runtime.emit_audit].
  3: by rewrite app_nil_r. all: unfold Runtime.emit_audit; cbn; by rewrite (proj2 (Z.leb_gt _ _)).
Qed.

Lemma policyd_audit_v1_witness :
  (Runtime.handle_frame table profiles true {| Runtime.AUDIT_EMIT_COUNT := 3; Runtime.audited := [] |}
     (check_request "updated") (sid "updated") false).1.(Runtime.audited) =
  [Runtime.audit_message OP_CHECK Runtime.AuditAllow (sid "updated")].
Proof.
  exact (policyd_audit_v1 table profiles true {| Runtime.AUDIT_EMIT_COUNT := 3; Runtime.audited := [] |}
           (check_request "updated") (sid "updated") false ltac:(vm_compute; discriminate) eq_refl eq_refl eq_refl
           ltac:(vm_compute; discriminate) eq_refl).
Defined.
End Demo.
