(* ===== verification/Mux.v ===== *)
(** The stream multiplexer of the device bus
    ([userspace/dsoftbus/src/mux_v2.rs]): stream states, window credit, the
    priority scheduler, a session and the endpoint around it.

    An operation on [&mut self] that may reject returns the new state beside the
    result, so that what a rejected call leaves behind is part of the model.
    [StreamId], [PriorityClass], [WindowCredit] and [StreamName] are the values
    they wrap. *)

From S2P Require Import Prelude Bytes.

Definition MAX_STREAM_COUNT : Z := 128.
Definition MAX_FRAME_PAYLOAD_BYTES : Z := 32 * 1024.
Definition MAX_BUFFERED_BYTES_PER_STREAM : Z := 256 * 1024.
Definition DEFAULT_INITIAL_STREAM_CREDIT : Z := 64 * 1024.
Definition HIGH_PRIORITY_BURST_LIMIT : Z := 8.
Definition KEEPALIVE_INTERVAL_TICKS : Z := 3.
Definition KEEPALIVE_TIMEOUT_TICKS : Z := 9.

(** [MuxReject], by label. *)
Inductive MuxReject :=
| REJECT_FRAME_OVERSIZE
| REJECT_INVALID_STREAM_STATE_TRANSITION
| REJECT_WINDOW_CREDIT_OVERFLOW_OR_UNDERFLOW
| REJECT_UNKNOWN_STREAM_FRAME
| REJECT_UNAUTHENTICATED_SESSION
| REJECT_STREAM_LIMIT_EXCEEDED
| REJECT_DUPLICATE_STREAM_NAME
| REJECT_INVALID_STREAM_NAME.

Definition StreamId_new (raw : Z) : option Z := if raw =? 0 then None else Some raw.
Definition PriorityClass_new (raw : Z) : option Z := if raw <=? 7 then Some raw else None.
Definition StreamName_new (value : bytes) : result bytes MuxReject :=
  if bool_decide (value = []) || (64 <? vlen value) then Err REJECT_INVALID_STREAM_NAME else Ok value.

Inductive StreamState := StOpen | HalfClosedLocal | HalfClosedRemote | StClosed | StReset.
Inductive StreamTransition := SendClose | ReceiveClose | TrReset.

#[export] Instance StreamState_eq_dec : EqDecision StreamState.
Proof. solve_decision. Defined.

Inductive SendBudgetOutcome := Sent (remaining_credit : Z) | WouldBlock (remaining_credit : Z).
Inductive KeepaliveVerdict := Healthy | SendPing | TimedOut.

Inductive InboundFrame :=
| FrOpen | FrOpenAck | FrData (payload_len : Z) | FrWindowUpdate (delta : Z) | FrRst | FrPing | FrPong | FrClose.

Inductive FrameApplyOutcome :=
| StreamOpened (state : StreamState)
| OpenAcked (state : StreamState)
| DataAccepted (buffered_bytes remaining_credit : Z)
| WindowUpdated (credit : Z)
| StreamTransitioned (state : StreamState)
| KeepaliveObserved
| PingResponseRequired.

Inductive MuxWireEvent :=
| EvOpen (stream_id priority : Z) (name : bytes)
| EvOpenAck (stream_id priority : Z)
| EvData (stream_id priority payload_len : Z)
| EvWindowUpdate (stream_id priority delta : Z)
| EvRst (stream_id priority : Z)
| EvClose (stream_id priority : Z)
| EvPing (stream_id priority : Z)
| EvPong (stream_id priority : Z).

Record AcceptedStream := { as_stream_id : Z; as_priority : Z; as_name : bytes }.

Record StreamContext := {
  state : StreamState;
  open_acked : bool;
  priority : Z;
  credit : Z;
  buffered_bytes : Z
}.

(** ** The priority scheduler *)

Record PriorityScheduler := {
  queues : list (list Z);
  consecutive_high_priority : Z;
  lower_priority_cursor : nat
}.

Definition PriorityScheduler_new : PriorityScheduler :=
  {| queues := replicate 8 []; consecutive_high_priority := 0; lower_priority_cursor := 1 |}.

Definition queue_at (s : PriorityScheduler) (i : nat) : list Z := default [] (s.(queues) !! i).

Definition enqueue (s : PriorityScheduler) (prio stream_id : Z) : PriorityScheduler :=
  {| queues := <[Z.to_nat prio := queue_at s (Z.to_nat prio) ++ [stream_id]]> s.(queues);
     consecutive_high_priority := s.(consecutive_high_priority);
     lower_priority_cursor := s.(lower_priority_cursor) |}.

Definition set_consecutive (s : PriorityScheduler) (n : Z) : PriorityScheduler :=
  {| queues := s.(queues); consecutive_high_priority := n; lower_priority_cursor := s.(lower_priority_cursor) |}.

(** The loop over the offsets that are left. *)
Fixpoint scan_lower (s : PriorityScheduler) (offsets : list nat) : PriorityScheduler * option Z :=
  match offsets with
  | [] => (s, None)
  | offset :: offsets =>
      let lower_count := (length s.(queues) - 1)%nat in
      let idx := (1 + ((s.(lower_priority_cursor) - 1 + offset) mod lower_count))%nat in
      match queue_at s idx with
      | id :: rest =>
          ({| queues := <[idx := rest]> s.(queues);
              consecutive_high_priority := s.(consecutive_high_priority);
              lower_priority_cursor := if (length s.(queues) <=? idx + 1)%nat then 1%nat else (idx + 1)%nat |},
           Some id)
      | [] => scan_lower s offsets
      end
  end.

Definition dequeue_from_lower_priorities (s : PriorityScheduler) : PriorityScheduler * option Z :=
  scan_lower s (seq 0 (length s.(queues) - 1)).

Definition pop_high (s : PriorityScheduler) : PriorityScheduler * option Z :=
  match queue_at s 0 with
  | [] => (s, None)
  | id :: rest =>
      ({| queues := <[0%nat := rest]> s.(queues);
          consecutive_high_priority := saturating_add 8 s.(consecutive_high_priority) 1;
          lower_priority_cursor := s.(lower_priority_cursor) |}, Some id)
  end.

Definition dequeue_next (s : PriorityScheduler) : PriorityScheduler * option Z :=
  if bool_decide (queue_at s 0 = []) then dequeue_from_lower_priorities (set_consecutive s 0)
  else
    let lower_pending := existsb (fun q => negb (bool_decide (q = []))) (drop 1 s.(queues)) in
    if lower_pending && (HIGH_PRIORITY_BURST_LIMIT <=? s.(consecutive_high_priority)) then
      match dequeue_from_lower_priorities (set_consecutive s 0) with
      | (s, Some id) => (s, Some id)
      | (s, None) => pop_high s
      end
    else pop_high s.

(** ** Pure rules *)

Definition validate_frame_payload_len (payload_len max_payload : Z) : result unit MuxReject :=
  if max_payload <? payload_len then Err REJECT_FRAME_OVERSIZE else Ok tt.

(** [delta as u32] and [(-delta) as u32] keep the low 32 bits of the [i64]. *)
Definition apply_window_delta (current delta : Z) : result Z MuxReject :=
  if 0 <=? delta then
    let step := delta mod 2 ^ 32 in
    if current + step <? 2 ^ 32 then Ok (current + step) else Err REJECT_WINDOW_CREDIT_OVERFLOW_OR_UNDERFLOW
  else
    let debit := (- delta) mod 2 ^ 32 in
    if debit <=? current then Ok (current - debit) else Err REJECT_WINDOW_CREDIT_OVERFLOW_OR_UNDERFLOW.

Definition apply_stream_transition (st : StreamState) (tr : StreamTransition) : result StreamState MuxReject :=
  match st, tr with
  | StOpen, SendClose => Ok HalfClosedLocal
  | StOpen, ReceiveClose => Ok HalfClosedRemote
  | HalfClosedLocal, ReceiveClose => Ok StClosed
  | HalfClosedRemote, SendClose => Ok StClosed
  | (StOpen | HalfClosedLocal | HalfClosedRemote), TrReset => Ok StReset
  | StReset, TrReset => Ok StReset
  | _, _ => Err REJECT_INVALID_STREAM_STATE_TRANSITION
  end.

(** ** The session *)

Record KeepalivePolicy := { interval_ticks : Z; timeout_ticks : Z }.
Definition KeepalivePolicy_default : KeepalivePolicy :=
  {| interval_ticks := KEEPALIVE_INTERVAL_TICKS; timeout_ticks := KEEPALIVE_TIMEOUT_TICKS |}.

Record MuxSessionState := {
  authenticated : bool;
  streams : gmap Z StreamContext;
  scheduler : PriorityScheduler;
  max_streams : Z;
  max_frame_payload_bytes : Z;
  max_buffered_bytes_per_stream : Z;
  keepalive : KeepalivePolicy;
  last_peer_activity_tick : Z;
  last_keepalive_ping_tick : Z;
  current_tick : Z
}.

Definition MuxSessionState_new (auth : bool) (now_tick : Z) : MuxSessionState :=
  {| authenticated := auth; streams := ∅; scheduler := PriorityScheduler_new; max_streams := MAX_STREAM_COUNT;
     max_frame_payload_bytes := MAX_FRAME_PAYLOAD_BYTES; max_buffered_bytes_per_stream := MAX_BUFFERED_BYTES_PER_STREAM;
     keepalive := KeepalivePolicy_default; last_peer_activity_tick := now_tick;
     last_keepalive_ping_tick := now_tick; current_tick := now_tick |}.

Definition set_streams (s : MuxSessionState) (m : gmap Z StreamContext) (sch : PriorityScheduler) : MuxSessionState :=
  {| authenticated := s.(authenticated); streams := m; scheduler := sch; max_streams := s.(max_streams);
     max_frame_payload_bytes := s.(max_frame_payload_bytes);
     max_buffered_bytes_per_stream := s.(max_buffered_bytes_per_stream); keepalive := s.(keepalive);
     last_peer_activity_tick := s.(last_peer_activity_tick);
     last_keepalive_ping_tick := s.(last_keepalive_ping_tick); current_tick := s.(current_tick) |}.

Definition set_ticks (s : MuxSessionState) (activity ping now : Z) : MuxSessionState :=
  {| authenticated := s.(authenticated); streams := s.(streams); scheduler := s.(scheduler); max_streams := s.(max_streams);
     max_frame_payload_bytes := s.(max_frame_payload_bytes);
     max_buffered_bytes_per_stream := s.(max_buffered_bytes_per_stream); keepalive := s.(keepalive);
     last_peer_activity_tick := activity; last_keepalive_ping_tick := ping; current_tick := now |}.

(** One stream's context replaced. *)
Definition put_stream (s : MuxSessionState) (id : Z) (c : StreamContext) : MuxSessionState :=
  set_streams s (<[id := c]> s.(streams)) s.(scheduler).

Definition set_state (c : StreamContext) (st : StreamState) : StreamContext :=
  {| state := st; open_acked := c.(open_acked); priority := c.(priority); credit := c.(credit);
     buffered_bytes := c.(buffered_bytes) |}.
Definition set_acked (c : StreamContext) : StreamContext :=
  {| state := c.(state); open_acked := true; priority := c.(priority); credit := c.(credit);
     buffered_bytes := c.(buffered_bytes) |}.
Definition set_flow (c : StreamContext) (cr buffered : Z) : StreamContext :=
  {| state := c.(state); open_acked := c.(open_acked); priority := c.(priority); credit := cr; buffered_bytes := buffered |}.

Definition session_open_stream (s : MuxSessionState) (id prio initial_credit : Z) : MuxSessionState * result unit MuxReject :=
  if negb s.(authenticated) then (s, Err REJECT_UNAUTHENTICATED_SESSION)
  else if s.(max_streams) <=? Z.of_nat (size s.(streams)) then (s, Err REJECT_STREAM_LIMIT_EXCEEDED)
  else if bool_decide (is_Some (s.(streams) !! id)) then (s, Err REJECT_INVALID_STREAM_STATE_TRANSITION)
  else
    let context := {| state := StOpen; open_acked := false; priority := prio; credit := initial_credit; buffered_bytes := 0 |} in
    (set_streams s (<[id := context]> s.(streams)) (enqueue s.(scheduler) prio id), Ok tt).

Definition apply_transition (s : MuxSessionState) (id : Z) (tr : StreamTransition) : MuxSessionState * result StreamState MuxReject :=
  if negb s.(authenticated) then (s, Err REJECT_UNAUTHENTICATED_SESSION)
  else match s.(streams) !! id with
       | None => (s, Err REJECT_UNKNOWN_STREAM_FRAME)
       | Some c =>
           match apply_stream_transition c.(state) tr with
           | Ok st => (put_stream s id (set_state c st), Ok st)
           | Err e => (s, Err e)
           end
       end.

Definition can_send (st : StreamState) : bool :=
  match st with
  | StOpen | HalfClosedRemote => true
  | _ => false
  end.
Definition can_receive (st : StreamState) : bool :=
  match st with
  | StOpen | HalfClosedLocal => true
  | _ => false
  end.

Definition session_send_data (s : MuxSessionState) (id payload_len : Z) : MuxSessionState * result SendBudgetOutcome MuxReject :=
  if negb s.(authenticated) then (s, Err REJECT_UNAUTHENTICATED_SESSION)
  else match validate_frame_payload_len payload_len s.(max_frame_payload_bytes) with
       | Err e => (s, Err e)
       | Ok _ =>
           match s.(streams) !! id with
           | None => (s, Err REJECT_UNKNOWN_STREAM_FRAME)
           | Some c =>
               if negb (can_send c.(state)) then (s, Err REJECT_INVALID_STREAM_STATE_TRANSITION)
               else if c.(credit) <? payload_len then (s, Ok (WouldBlock c.(credit)))
               else match checked_add 64 c.(buffered_bytes) payload_len with
                    | None => (s, Err REJECT_WINDOW_CREDIT_OVERFLOW_OR_UNDERFLOW)
                    | Some projected =>
                        if s.(max_buffered_bytes_per_stream) <? projected then (s, Ok (WouldBlock c.(credit)))
                        else
                          let updated := c.(credit) - payload_len in
                          (set_streams s (<[id := set_flow c updated projected]> s.(streams))
                             (enqueue s.(scheduler) c.(priority) id), Ok (Sent updated))
                    end
           end
       end.

Definition apply_window_update (s : MuxSessionState) (id delta : Z) : MuxSessionState * result Z MuxReject :=
  if negb s.(authenticated) then (s, Err REJECT_UNAUTHENTICATED_SESSION)
  else match s.(streams) !! id with
       | None => (s, Err REJECT_UNKNOWN_STREAM_FRAME)
       | Some c =>
           match apply_window_delta c.(credit) delta with
           | Ok next => (put_stream s id (set_flow c next c.(buffered_bytes)), Ok next)
           | Err e => (s, Err e)
           end
       end.

Definition observe_peer_activity (s : MuxSessionState) (now_tick : Z) : MuxSessionState :=
  set_ticks s now_tick s.(last_keepalive_ping_tick) s.(current_tick).

Definition apply_inbound_frame (s : MuxSessionState) (id prio : Z) (f : InboundFrame)
    : MuxSessionState * result FrameApplyOutcome MuxReject :=
  if negb s.(authenticated) then (s, Err REJECT_UNAUTHENTICATED_SESSION)
  else match f with
  | FrOpen =>
      match session_open_stream s id prio DEFAULT_INITIAL_STREAM_CREDIT with
      | (s, Ok _) => (s, Ok (StreamOpened StOpen))
      | (s, Err e) => (s, Err e)
      end
  | FrOpenAck =>
      match s.(streams) !! id with
      | None => (s, Err REJECT_INVALID_STREAM_STATE_TRANSITION)
      | Some c =>
          if c.(open_acked) || negb (bool_decide (c.(state) = StOpen)) then (s, Err REJECT_INVALID_STREAM_STATE_TRANSITION)
          else (put_stream s id (set_acked c), Ok (OpenAcked c.(state)))
      end
  | FrData payload_len =>
      match validate_frame_payload_len payload_len s.(max_frame_payload_bytes) with
      | Err e => (s, Err e)
      | Ok _ =>
          match s.(streams) !! id with
          | None => (s, Err REJECT_UNKNOWN_STREAM_FRAME)
          | Some c =>
              if negb (can_receive c.(state)) then (s, Err REJECT_INVALID_STREAM_STATE_TRANSITION)
              else match checked_add 64 c.(buffered_bytes) payload_len with
                   | None => (s, Err REJECT_WINDOW_CREDIT_OVERFLOW_OR_UNDERFLOW)
                   | Some projected =>
                       if s.(max_buffered_bytes_per_stream) <? projected
                       then (s, Err REJECT_WINDOW_CREDIT_OVERFLOW_OR_UNDERFLOW)
                       else
                         let s := put_stream s id (set_flow c c.(credit) projected) in
                         (observe_peer_activity s s.(current_tick), Ok (DataAccepted projected c.(credit)))
                   end
          end
      end
  | FrWindowUpdate delta =>
      match apply_window_update s id delta with
      | (s, Ok cr) => (observe_peer_activity s s.(current_tick), Ok (WindowUpdated cr))
      | (s, Err e) => (s, Err e)
      end
  | FrRst =>
      match apply_transition s id TrReset with
      | (s, Ok st) => (observe_peer_activity s s.(current_tick), Ok (StreamTransitioned st))
      | (s, Err e) => (s, Err e)
      end
  | FrClose =>
      match apply_transition s id ReceiveClose with
      | (s, Ok st) => (observe_peer_activity s s.(current_tick), Ok (StreamTransitioned st))
      | (s, Err e) => (s, Err e)
      end
  | FrPing => (observe_peer_activity s s.(current_tick), Ok PingResponseRequired)
  | FrPong => (observe_peer_activity s s.(current_tick), Ok KeepaliveObserved)
  end.

Definition keepalive_tick (s : MuxSessionState) (now_tick : Z) : MuxSessionState * KeepaliveVerdict :=
  let s := set_ticks s s.(last_peer_activity_tick) s.(last_keepalive_ping_tick) now_tick in
  let idle_ticks := saturating_sub now_tick s.(last_peer_activity_tick) in
  if s.(keepalive).(timeout_ticks) <=? idle_ticks then (s, TimedOut)
  else
    let since_last_ping := saturating_sub now_tick s.(last_keepalive_ping_tick) in
    if s.(keepalive).(interval_ticks) <=? since_last_ping
    then (set_ticks s s.(last_peer_activity_tick) now_tick now_tick, SendPing)
    else (s, Healthy).

Definition dequeue_next_stream (s : MuxSessionState) : MuxSessionState * option Z :=
  let '(sch, id) := dequeue_next s.(scheduler) in (set_streams s s.(streams) sch, id).

Definition stream_state (s : MuxSessionState) (id : Z) : option StreamState := state <$> s.(streams) !! id.
Definition stream_buffered_bytes (s : MuxSessionState) (id : Z) : option Z := buffered_bytes <$> s.(streams) !! id.

(** ** The endpoint *)

Record MuxHostEndpoint := {
  session : MuxSessionState;
  outbound : list MuxWireEvent;
  accepted : list AcceptedStream;
  stream_names_by_id : gmap Z bytes;
  stream_ids_by_name : gmap bytes Z
}.

Definition MuxHostEndpoint_new (auth : bool) (now_tick : Z) : MuxHostEndpoint :=
  {| session := MuxSessionState_new auth now_tick; outbound := []; accepted := [];
     stream_names_by_id := ∅; stream_ids_by_name := ∅ |}.

(** The session replaced and events appended. *)
Definition emit (e : MuxHostEndpoint) (s : MuxSessionState) (evs : list MuxWireEvent) : MuxHostEndpoint :=
  {| session := s; outbound := e.(outbound) ++ evs; accepted := e.(accepted);
     stream_names_by_id := e.(stream_names_by_id); stream_ids_by_name := e.(stream_ids_by_name) |}.

Definition register (e : MuxHostEndpoint) (id : Z) (name : bytes) (acc : list AcceptedStream) : MuxHostEndpoint :=
  {| session := e.(session); outbound := e.(outbound); accepted := e.(accepted) ++ acc;
     stream_names_by_id := <[id := name]> e.(stream_names_by_id);
     stream_ids_by_name := <[name := id]> e.(stream_ids_by_name) |}.

Definition open_stream (e : MuxHostEndpoint) (id prio : Z) (name : bytes) (initial_credit : Z)
    : MuxHostEndpoint * result unit MuxReject :=
  if bool_decide (is_Some (e.(stream_ids_by_name) !! name)) then (e, Err REJECT_DUPLICATE_STREAM_NAME)
  else match session_open_stream e.(session) id prio initial_credit with
       | (s, Err r) => (emit e s [], Err r)
       | (s, Ok _) => (emit (register e id name []) s [EvOpen id prio name], Ok tt)
       end.

Definition send_data (e : MuxHostEndpoint) (id prio payload_len : Z) : MuxHostEndpoint * result SendBudgetOutcome MuxReject :=
  match session_send_data e.(session) id payload_len with
  | (s, Err r) => (emit e s [], Err r)
  | (s, Ok (Sent c)) => (emit e s [EvData id prio payload_len], Ok (Sent c))
  | (s, Ok (WouldBlock c)) => (emit e s [], Ok (WouldBlock c))
  end.

Definition close_stream (e : MuxHostEndpoint) (id prio : Z) : MuxHostEndpoint * result StreamState MuxReject :=
  match apply_transition e.(session) id SendClose with
  | (s, Err r) => (emit e s [], Err r)
  | (s, Ok st) => (emit e s [EvClose id prio], Ok st)
  end.

Definition reset_stream (e : MuxHostEndpoint) (id prio : Z) : MuxHostEndpoint * result StreamState MuxReject :=
  match apply_transition e.(session) id TrReset with
  | (s, Err r) => (emit e s [], Err r)
  | (s, Ok st) => (emit e s [EvRst id prio], Ok st)
  end.

Definition accept_stream (e : MuxHostEndpoint) : MuxHostEndpoint * option AcceptedStream :=
  ({| session := e.(session); outbound := e.(outbound); accepted := tail e.(accepted);
      stream_names_by_id := e.(stream_names_by_id); stream_ids_by_name := e.(stream_ids_by_name) |}, head e.(accepted)).

Definition drain_outbound (e : MuxHostEndpoint) : MuxHostEndpoint * list MuxWireEvent :=
  ({| session := e.(session); outbound := []; accepted := e.(accepted);
      stream_names_by_id := e.(stream_names_by_id); stream_ids_by_name := e.(stream_ids_by_name) |}, e.(outbound)).

(** The frame handed to the session, with the events that answer it. *)
Definition apply_frame (e : MuxHostEndpoint) (id prio : Z) (f : InboundFrame) (answer : list MuxWireEvent)
    : MuxHostEndpoint * result FrameApplyOutcome MuxReject :=
  match apply_inbound_frame e.(session) id prio f with
  | (s, Err r) => (emit e s [], Err r)
  | (s, Ok o) => (emit e s answer, Ok o)
  end.

Definition ingest (e : MuxHostEndpoint) (event : MuxWireEvent) : MuxHostEndpoint * result FrameApplyOutcome MuxReject :=
  match event with
  | EvOpen id prio name =>
      if bool_decide (is_Some (e.(stream_ids_by_name) !! name)) then (e, Err REJECT_DUPLICATE_STREAM_NAME)
      else match apply_inbound_frame e.(session) id prio FrOpen with
           | (s, Err r) => (emit e s [], Err r)
           | (s, Ok o) =>
               (emit (register e id name [{| as_stream_id := id; as_priority := prio; as_name := name |}]) s [EvOpenAck id prio], Ok o)
           end
  | EvOpenAck id prio => apply_frame e id prio FrOpenAck []
  | EvData id prio payload_len => apply_frame e id prio (FrData payload_len) []
  | EvWindowUpdate id prio delta => apply_frame e id prio (FrWindowUpdate delta) []
  | EvRst id prio => apply_frame e id prio FrRst []
  | EvClose id prio => apply_frame e id prio FrClose []
  | EvPing id prio => apply_frame e id prio FrPing [EvPong id prio]
  | EvPong id prio => apply_frame e id prio FrPong []
  end.

(** ** Fairness of the scheduler *)

(** The lower queue the scan looks at after [d] steps from the cursor. *)
Definition idx_at (cursor d : nat) : nat := 1 + ((cursor - 1 + d) mod 7).

Definition sched_wf (s : PriorityScheduler) : Prop :=
  length s.(queues) = 8%nat ∧ (1 ≤ s.(lower_priority_cursor) ≤ 7)%nat ∧ 0 ≤ s.(consecutive_high_priority).

Lemma idx_at_range cursor d : (1 ≤ idx_at cursor d ≤ 7)%nat.
Proof. unfold idx_at. pose proof (Nat.mod_upper_bound (cursor - 1 + d) 7). lia. Qed.

Lemma idx_at_total cursor c : (1 ≤ cursor ≤ 7)%nat → (1 ≤ c ≤ 7)%nat → ∃ d, (d < 7)%nat ∧ c = idx_at cursor d.
Proof.
  intros Hc Hd. destruct (decide (cursor ≤ c)%nat).
  - exists (c - cursor)%nat. split; [lia|]. unfold idx_at. rewrite Nat.mod_small; lia.
  - exists (c + 7 - cursor)%nat. split; [lia|]. unfold idx_at.
    replace (cursor - 1 + (c + 7 - cursor))%nat with (c - 1 + 1 * 7)%nat by lia.
    rewrite Nat.Div0.mod_add, Nat.mod_small; lia.
Qed.

(** The cursor after a lower queue was served. *)
Lemma next_cursor cursor d x : (1 ≤ cursor ≤ 7)%nat →
  let cur' := if (8 <=? idx_at cursor d + 1)%nat then 1%nat else (idx_at cursor d + 1)%nat in
  (1 ≤ cur' ≤ 7)%nat ∧ idx_at cur' x = idx_at cursor (d + 1 + x).
Proof.
  intros Hc cur'. unfold cur', idx_at. set (m := ((cursor - 1 + d) mod 7)%nat).
  assert (m < 7)%nat by (apply Nat.mod_upper_bound; lia).
  assert (cur' - 1 = (m + 1) mod 7 ∧ 1 ≤ cur' ≤ 7)%nat as [He Hr].
  { unfold cur', idx_at. fold m. destruct (Nat.leb_spec 8 (1 + m + 1)).
    - replace m with 6%nat by lia. split; [reflexivity|lia].
    - rewrite Nat.mod_small by lia. lia. }
  unfold cur', idx_at in He, Hr. fold m in He, Hr. split; [exact Hr|]. rewrite He. f_equal.
  rewrite Nat.Div0.add_mod_idemp_l. unfold m.
  replace ((cursor - 1 + d) mod 7 + 1 + x)%nat with ((cursor - 1 + d) mod 7 + (1 + x))%nat by lia.
  rewrite Nat.Div0.add_mod_idemp_l. f_equal. lia.
Qed.

Lemma queue_at_insert s i j q :
  (i < length s.(queues))%nat →
  ∀ n cur, queue_at {| queues := <[i := q]> s.(queues); consecutive_high_priority := n; lower_priority_cursor := cur |} j =
           if decide (i = j) then q else queue_at s j.
Proof.
  intros Hi n cur. unfold queue_at. cbn [queues]. destruct (decide (i = j)) as [<-|Hne].
  - by rewrite list_lookup_insert_eq.
  - by rewrite list_lookup_insert_ne.
Qed.

(** The scan serves the first non-empty queue. *)
Lemma scan_lower_first s k n d :
  sched_wf s → (k + n = 7)%nat → (k ≤ d < 7)%nat → queue_at s (idx_at s.(lower_priority_cursor) d) ≠ [] →
  ∃ d' id rest, (k ≤ d' ≤ d)%nat ∧ queue_at s (idx_at s.(lower_priority_cursor) d') = id :: rest ∧
    scan_lower s (seq k n) =
      ({| queues := <[idx_at s.(lower_priority_cursor) d' := rest]> s.(queues);
          consecutive_high_priority := s.(consecutive_high_priority);
          lower_priority_cursor := if (8 <=? idx_at s.(lower_priority_cursor) d' + 1)%nat then 1%nat
                                   else (idx_at s.(lower_priority_cursor) d' + 1)%nat |}, Some id).
Proof.
  intros (Hl & Hc & Hp). revert k. induction n as [|n IH]; intros k Hk Hd Hne; [lia|].
  cbn [seq scan_lower]. rewrite Hl. change (8 - 1)%nat with 7%nat. fold (idx_at s.(lower_priority_cursor) k).
  destruct (queue_at s (idx_at (lower_priority_cursor s) k)) as [|id rest] eqn:Eq.
  - assert (k ≠ d) by (intros ->; done). destruct (IH (S k)) as (d' & id & rest & Hd' & Hq & Hs); [lia..|done|].
    exists d', id, rest. split; [lia|done].
  - exists k, id, rest. split; [lia|done].
Qed.

Definition burst_left (s : PriorityScheduler) : nat := (8 - Z.to_nat (Z.min 8 s.(consecutive_high_priority)))%nat.

(** After a dequeue that gave [out], the head of queue [c] was served or its
    turn is nearer: fewer lower queues come before it, or fewer turns of the
    high-priority burst. *)
Definition served_or_nearer (s s' : PriorityScheduler) (out : option Z) (c : nat) (id : Z) (q : list Z) (d : nat) : Prop :=
  sched_wf s' ∧
  (out = Some id ∧ queue_at s' c = q ∨
   queue_at s' c = id :: q ∧
   ∃ d', (d' < 7)%nat ∧ c = idx_at s'.(lower_priority_cursor) d' ∧ (9 * d' + burst_left s' < 9 * d + burst_left s)%nat).

Lemma lower_progress s c id q d :
  sched_wf s → queue_at s c = id :: q → c = idx_at s.(lower_priority_cursor) d → (d < 7)%nat →
  let r := dequeue_from_lower_priorities (set_consecutive s 0) in
  r.2 ≠ None ∧ served_or_nearer s r.1 r.2 c id q d.
Proof.
  intros (Hl & Hc & Hp) Hq Hcd Hd. assert (sched_wf (set_consecutive s 0)) as Hw0 by done.
  unfold dequeue_from_lower_priorities. cbn [queues set_consecutive]. rewrite Hl. change (8 - 1)%nat with 7%nat.
  destruct (scan_lower_first (set_consecutive s 0) 0 7 d Hw0) as (d' & i & rest & Hd' & Hi & ->); [lia..| |].
  { cbn [lower_priority_cursor set_consecutive]. rewrite <- Hcd. unfold queue_at in *. cbn [queues set_consecutive]. by rewrite Hq. }
  cbn [lower_priority_cursor set_consecutive consecutive_high_priority queues fst snd] in *.
  pose proof (idx_at_range (lower_priority_cursor s) d') as Hr'.
  destruct (next_cursor (lower_priority_cursor s) d' (d - d' - 1) Hc) as [Hcur Hnext].
  split; [done|]. split; [split; [cbn [queues]; by rewrite length_insert|split; [exact Hcur|done]]|].
  pose proof (queue_at_insert (set_consecutive s 0) (idx_at (lower_priority_cursor s) d') c rest ltac:(cbn; lia)) as Hqi.
  cbn [queues set_consecutive] in Hqi. rewrite Hqi. destruct (decide (idx_at (lower_priority_cursor s) d' = c)) as [He|He].
  - left. rewrite He in Hi. unfold queue_at in *. cbn [queues set_consecutive] in Hi. rewrite Hq in Hi. by injection Hi as <- <-.
  - right. split; [exact Hq|]. assert (d' ≠ d) by (intros ->; congruence).
    exists (d - d' - 1)%nat. split; [lia|]. split; [|unfold burst_left; cbn; lia].
    cbn [lower_priority_cursor]. rewrite Hnext, Hcd. f_equal. lia.
Qed.

Lemma dequeue_progress s c id q d :
  sched_wf s → queue_at s c = id :: q → c = idx_at s.(lower_priority_cursor) d → (d < 7)%nat →
  served_or_nearer s (dequeue_next s).1 (dequeue_next s).2 c id q d.
Proof.
  intros Hw Hq Hcd Hd. destruct (lower_progress s c id q d Hw Hq Hcd Hd) as [Hn Hlow].
  destruct Hw as (Hl & Hc & Hp). pose proof (idx_at_range (lower_priority_cursor s) d) as Hcr. rewrite <- Hcd in Hcr.
  unfold dequeue_next. destruct (bool_decide (queue_at s 0 = [])) eqn:E0; [done|].
  assert (existsb (fun q0 => negb (bool_decide (q0 = []))) (drop 1 (queues s)) = true) as ->.
  { apply existsb_exists. exists (id :: q). split; [|done]. apply list_elem_of_In, list_elem_of_lookup. exists (c - 1)%nat.
    rewrite lookup_drop. replace (1 + (c - 1))%nat with c by lia. unfold queue_at in Hq.
    destruct (queues s !! c) as [x|]; [|done]. cbn in Hq. by rewrite Hq. }
  cbn [andb]. destruct (Z.leb_spec HIGH_PRIORITY_BURST_LIMIT (consecutive_high_priority s)) as [|Hlt].
  { by destruct (dequeue_from_lower_priorities (set_consecutive s 0)) as [s1 [i|]]. }
  unfold pop_high. destruct (queue_at s 0) as [|i rest] eqn:Eq0; [by case_bool_decide|]. cbn [fst snd].
  unfold HIGH_PRIORITY_BURST_LIMIT in Hlt. unfold saturating_add, max_of.
  split; [split; [cbn [queues]; by rewrite length_insert|split; [exact Hc|cbn [consecutive_high_priority]; lia]]|].
  right. rewrite queue_at_insert by lia. rewrite decide_False by lia. split; [done|].
  exists d. split; [done|]. split; [done|]. unfold burst_left. cbn [consecutive_high_priority]. lia.
Qed.

(** A run of the scheduler: streams become ready at any time, and every dequeue
    gives what it found. *)
Inductive sched_op := OpEnqueue (prio id : Z) | OpDequeue.

Definition sched_step (s : PriorityScheduler) (op : sched_op) : PriorityScheduler * list Z :=
  match op with
  | OpEnqueue prio id => (enqueue s prio id, [])
  | OpDequeue => let r := dequeue_next s in (r.1, option_list r.2)
  end.

Fixpoint sched_run (s : PriorityScheduler) (ops : list sched_op) : PriorityScheduler * list Z :=
  match ops with
  | [] => (s, [])
  | op :: ops =>
      let r := sched_step s op in
      let r' := sched_run r.1 ops in
      (r'.1, r.2 ++ r'.2)
  end.

Definition is_dequeue (op : sched_op) : bool := if op is OpDequeue then true else false.
Definition dequeues (ops : list sched_op) : nat := length (List.filter is_dequeue ops).
Definition op_ok (op : sched_op) : Prop := if op is OpEnqueue prio _ then 0 ≤ prio ≤ 7 else True.

Lemma enqueue_wf s prio id : sched_wf s → sched_wf (enqueue s prio id).
Proof. intros (Hl & Hc & Hp). split; [|done]. cbn [queues enqueue]. by rewrite length_insert. Qed.

Lemma enqueue_queue s prio id c :
  sched_wf s → 0 ≤ prio ≤ 7 →
  queue_at (enqueue s prio id) c = queue_at s c ++ (if decide (Z.to_nat prio = c) then [id] else []).
Proof.
  intros (Hl & _) Hp. unfold enqueue. rewrite queue_at_insert by lia.
  destruct (decide _) as [<-|]; [done|by rewrite app_nil_r].
Qed.

(** The head of a lower queue is served within as many dequeues as the measure
    allows; what comes after it stays in order. *)
Lemma head_served ops : ∀ s c id q d,
  sched_wf s → Forall op_ok ops → queue_at s c = id :: q → c = idx_at s.(lower_priority_cursor) d → (d < 7)%nat →
  (9 * d + burst_left s < dequeues ops)%nat →
  ∃ ops1 ops2 q', ops = ops1 ++ ops2 ∧ (dequeues ops1 ≤ 9 * d + burst_left s + 1)%nat ∧
    id ∈ (sched_run s ops1).2 ∧ sched_wf (sched_run s ops1).1 ∧ queue_at (sched_run s ops1).1 c = q ++ q'.
Proof.
  induction ops as [|op ops IH]; intros s c id q d Hw Hok Hq Hcd Hd Hn; [cbn in Hn; lia|].
  inversion_clear Hok as [|? ? Hop Hok']. destruct op as [prio i|].
  - destruct (IH (enqueue s prio i) c id (q ++ (if decide (Z.to_nat prio = c) then [i] else [])) d)
      as (ops1 & ops2 & q' & -> & Hl & Hin & Hw' & Hq'); try done.
    + by apply enqueue_wf.
    + by rewrite enqueue_queue, Hq.
    + exists (OpEnqueue prio i :: ops1), ops2. eexists. split; [done|]. split; [exact Hl|].
      cbn [sched_run sched_step fst snd app]. split; [done|]. split; [done|]. rewrite Hq', <- app_assoc. done.
  - destruct (dequeue_progress s c id q d Hw Hq Hcd Hd) as [Hw' [[Ho Hq']|(Hq' & d' & Hd' & Hcd' & Hlt)]].
    + exists [OpDequeue], ops, []. split; [done|]. split; [cbn; lia|].
      cbn [sched_run sched_step fst snd]. rewrite Ho. split; [set_solver|]. split; [done|]. by rewrite app_nil_r.
    + change (dequeues (OpDequeue :: ops)) with (S (dequeues ops)) in Hn.
      destruct (IH (dequeue_next s).1 c id q d') as (ops1 & ops2 & q2 & -> & Hl & Hin & Hw2 & Hq2); try done; [lia|].
      exists (OpDequeue :: ops1), ops2, q2. split; [done|].
      split; [change (dequeues (OpDequeue :: ops1)) with (S (dequeues ops1)); lia|].
      cbn [sched_run sched_step fst snd]. split; [set_solver|]. done.
Qed.

Lemma measure_bound s d : (d < 7)%nat → (9 * d + burst_left s < 63)%nat.
Proof. unfold burst_left. lia. Qed.

Lemma dequeues_app ops1 ops2 : dequeues (ops1 ++ ops2) = (dequeues ops1 + dequeues ops2)%nat.
Proof. unfold dequeues. by rewrite List.filter_app, length_app. Qed.

Lemma sched_run_app ops1 : ∀ s ops2,
  sched_run s (ops1 ++ ops2) =
  let r := sched_run s ops1 in let r' := sched_run r.1 ops2 in (r'.1, r.2 ++ r'.2).
Proof.
  induction ops1 as [|op ops1 IH]; intros s ops2; [cbn [app sched_run]; cbn zeta; cbn [fst snd app]; by destruct (sched_run s ops2)|].
  cbn [app sched_run]. rewrite IH. cbn zeta. cbn [fst snd]. by rewrite app_assoc.
Qed.

(** C36: no stream starves.  Whatever high-priority traffic there is, a stream that
    waits in a lower class behind [n] others of its class is served within
    [63 * (n + 1)] dequeues (seven lower classes, each behind a burst of at most
    eight high-priority turns), for any interleaving of streams becoming
    ready. *)
Theorem mux_no_starvation ops s c pre id q :
  sched_wf s → Forall op_ok ops → (1 ≤ c ≤ 7)%nat → queue_at s c = pre ++ id :: q →
  (63 * (length pre + 1) ≤ dequeues ops)%nat → id ∈ (sched_run s ops).2.
Proof.
  revert s ops q. induction pre as [|x pre IH]; intros s ops q Hw Hok Hc Hq Hn;
    destruct (idx_at_total (lower_priority_cursor s) c (proj1 (proj2 Hw)) Hc) as (d & Hd & Hcd);
    pose proof (measure_bound s d Hd).
  - destruct (head_served ops s c id q d Hw Hok Hq Hcd Hd) as (ops1 & ops2 & q' & -> & _ & Hin & _); [cbn in Hn; lia|].
    rewrite sched_run_app. cbn zeta. cbn [snd]. set_solver.
  - destruct (head_served ops s c x (pre ++ id :: q) d Hw Hok Hq Hcd Hd)
      as (ops1 & ops2 & q' & -> & Hl & _ & Hw' & Hq'); [cbn [length] in Hn; lia|].
    apply Forall_app in Hok as [_ Hok]. rewrite dequeues_app in Hn. cbn [length] in Hn.
    rewrite sched_run_app. cbn zeta. cbn [snd]. apply elem_of_app. right.
    apply (IH (sched_run s ops1).1 ops2 (q ++ q')); [done|done|done| |lia].
    rewrite Hq'. by rewrite <- app_assoc.
Qed.

(** ** Runs of an endpoint *)

Inductive mux_op :=
| OpOpen (id prio : Z) (name : bytes) (initial_credit : Z)
| OpSend (id prio payload_len : Z)
| OpClose (id prio : Z)
| OpReset (id prio : Z)
| OpAccept
| OpDrain
| OpIngest (event : MuxWireEvent).

(** What a call did to the flow of a stream. *)
Inductive effect :=
| Rejected
| Quiet
| SentOn (id n : Z)
| ReceivedOn (id n : Z)
| GrantedOn (id n : Z).

#[export] Instance effect_eq_dec : EqDecision effect.
Proof. solve_decision. Defined.

(** The change of credit a window update asks for, as the code reads it. *)
Definition grant (delta : Z) : Z := if 0 <=? delta then delta mod 2 ^ 32 else - ((- delta) mod 2 ^ 32).

Definition accepted_as {A} (eff : effect) (r : MuxHostEndpoint * result A MuxReject) : MuxHostEndpoint * effect :=
  (r.1, if r.2 is Ok _ then eff else Rejected).

Definition event_effect (ev : MuxWireEvent) : effect :=
  match ev with
  | EvData id _ n => ReceivedOn id n
  | EvWindowUpdate id _ delta => GrantedOn id (grant delta)
  | _ => Quiet
  end.

Definition mux_step (e : MuxHostEndpoint) (op : mux_op) : MuxHostEndpoint * effect :=
  match op with
  | OpOpen id prio name c => accepted_as Quiet (open_stream e id prio name c)
  | OpSend id prio n =>
      let r := send_data e id prio n in
      (r.1, match r.2 with Ok (Sent _) => SentOn id n | Ok (WouldBlock _) => Quiet | Err _ => Rejected end)
  | OpClose id prio => accepted_as Quiet (close_stream e id prio)
  | OpReset id prio => accepted_as Quiet (reset_stream e id prio)
  | OpAccept => ((accept_stream e).1, Quiet)
  | OpDrain => ((drain_outbound e).1, Quiet)
  | OpIngest ev => accepted_as (event_effect ev) (ingest e ev)
  end.

Fixpoint mux_run (e : MuxHostEndpoint) (ops : list mux_op) : MuxHostEndpoint * list effect :=
  match ops with
  | [] => (e, [])
  | op :: ops => let r := mux_step e op in let r' := mux_run r.1 ops in (r'.1, r.2 :: r'.2)
  end.

(** The arguments of the types: ids, credits and lengths in range, classes at
    most 7. *)
Definition event_ok (ev : MuxWireEvent) : Prop :=
  match ev with
  | EvOpen _ prio _ => 0 ≤ prio ≤ 7
  | EvData _ _ n => 0 ≤ n < 2 ^ 64
  | _ => True
  end.

Definition mux_op_ok (op : mux_op) : Prop :=
  match op with
  | OpOpen _ prio _ c => 0 ≤ prio ≤ 7 ∧ in_width 32 c
  | OpSend _ _ n => 0 ≤ n < 2 ^ 64
  | OpIngest ev => event_ok ev
  | _ => True
  end.

(** *** The invariant *)

Definition context_ok (c : StreamContext) : Prop :=
  in_width 32 c.(credit) ∧ 0 ≤ c.(buffered_bytes) ≤ MAX_BUFFERED_BYTES_PER_STREAM ∧ 0 ≤ c.(priority) ≤ 7.

Record session_inv (s : MuxSessionState) : Prop := {
  si_limits : s.(max_streams) = MAX_STREAM_COUNT ∧ s.(max_frame_payload_bytes) = MAX_FRAME_PAYLOAD_BYTES ∧
              s.(max_buffered_bytes_per_stream) = MAX_BUFFERED_BYTES_PER_STREAM;
  si_count : Z.of_nat (size s.(streams)) ≤ MAX_STREAM_COUNT;
  si_contexts : map_Forall (fun _ c => context_ok c) s.(streams);
  si_sched : sched_wf s.(scheduler);
  si_queued : ∀ i id, id ∈ queue_at s.(scheduler) i → is_Some (s.(streams) !! id)
}.

Record endpoint_inv (e : MuxHostEndpoint) : Prop := {
  ei_session : session_inv e.(session);
  ei_names : ∀ n id, e.(stream_ids_by_name) !! n = Some id ↔ e.(stream_names_by_id) !! id = Some n;
  ei_named : dom e.(stream_names_by_id) = dom e.(session).(streams)
}.

Lemma put_stream_inv s id c c' :
  session_inv s → s.(streams) !! id = Some c → context_ok c' → session_inv (put_stream s id c').
Proof.
  intros [Hl Hc Hx Hs Hq] Hid Hok. split; cbn [put_stream set_streams streams scheduler]; try done.
  - rewrite map_size_insert_Some; [done|by eexists].
  - by apply map_Forall_insert_2.
  - intros i j Hj. rewrite lookup_insert_is_Some'. right. by eapply Hq.
Qed.

Lemma observe_inv s t : session_inv s → session_inv (observe_peer_activity s t).
Proof. by intros [Hl Hc Hx Hs Hq]. Qed.

(** The new context and its place in the ready queue. *)
Lemma enqueue_stream_inv s id c' :
  session_inv s → context_ok c' → Z.of_nat (size (<[id := c']> s.(streams))) ≤ MAX_STREAM_COUNT →
  session_inv (set_streams s (<[id := c']> s.(streams)) (enqueue s.(scheduler) c'.(priority) id)).
Proof.
  intros [Hl Hc Hx Hs Hq] Hok Hsz. split; cbn [set_streams streams scheduler]; try done.
  - by apply map_Forall_insert_2.
  - by apply enqueue_wf.
  - intros i j. rewrite enqueue_queue; [|done|apply Hok]. rewrite elem_of_app, lookup_insert_is_Some'.
    intros [Hj|Hj]; [right; by eapply Hq|]. destruct (decide _); [left; set_solver|set_solver].
Qed.

(** *** What each session call can do *)

Lemma session_open_cases s id prio cr :
  (∃ r, session_open_stream s id prio cr = (s, Err r)) ∨
  s.(authenticated) = true ∧ Z.of_nat (size s.(streams)) < s.(max_streams) ∧ s.(streams) !! id = None ∧
  session_open_stream s id prio cr =
    (set_streams s (<[id := {| state := StOpen; open_acked := false; priority := prio; credit := cr; buffered_bytes := 0 |}]>
                      s.(streams)) (enqueue s.(scheduler) prio id), Ok tt).
Proof.
  unfold session_open_stream. destruct (authenticated s); cbn [negb]; [|eauto].
  destruct (Z.leb_spec s.(max_streams) (Z.of_nat (size s.(streams)))); [eauto|]. case_bool_decide as Hn; [eauto|].
  right. rewrite <- eq_None_not_Some in Hn. done.
Qed.

Lemma transition_cases s id tr :
  (∃ r, apply_transition s id tr = (s, Err r)) ∨
  ∃ c st, s.(authenticated) = true ∧ s.(streams) !! id = Some c ∧ apply_stream_transition c.(state) tr = Ok st ∧
    apply_transition s id tr = (put_stream s id (set_state c st), Ok st).
Proof.
  unfold apply_transition. destruct (authenticated s); cbn [negb]; [|eauto].
  destruct (streams s !! id) as [c|]; [|eauto]. destruct (apply_stream_transition _ _) as [st|] eqn:E; [|eauto].
  right. by exists c, st.
Qed.

Lemma window_cases s id delta :
  (∃ r, apply_window_update s id delta = (s, Err r)) ∨
  ∃ c, s.(streams) !! id = Some c ∧
    (in_width 32 c.(credit) → in_width 32 (c.(credit) + grant delta)) ∧
    apply_window_update s id delta =
      (put_stream s id (set_flow c (c.(credit) + grant delta) c.(buffered_bytes)), Ok (c.(credit) + grant delta)).
Proof.
  unfold apply_window_update, apply_window_delta, grant. destruct (authenticated s); cbn [negb]; [|eauto].
  destruct (streams s !! id) as [c|]; [|eauto]. destruct (0 <=? delta).
  - destruct (Z.ltb_spec (credit c + delta mod 2 ^ 32) (2 ^ 32)); [|eauto]. right. exists c. split_and!; [done| |done].
    unfold in_width. pose proof (Z.mod_pos_bound delta (2 ^ 32) ltac:(lia)). lia.
  - destruct (Z.leb_spec ((- delta) mod 2 ^ 32) (credit c)); [|eauto]. right. exists c.
    replace (credit c + - ((- delta) mod 2 ^ 32)) with (credit c - (- delta) mod 2 ^ 32) by lia. split_and!; [done| |done].
    unfold in_width. pose proof (Z.mod_pos_bound (- delta) (2 ^ 32) ltac:(lia)). lia.
Qed.

Lemma session_send_cases s id n :
  (∃ r, session_send_data s id n = (s, Err r)) ∨ (∃ cr, session_send_data s id n = (s, Ok (WouldBlock cr))) ∨
  ∃ c, s.(authenticated) = true ∧ s.(streams) !! id = Some c ∧ can_send c.(state) = true ∧
    n ≤ s.(max_frame_payload_bytes) ∧ n ≤ c.(credit) ∧ c.(buffered_bytes) + n ≤ s.(max_buffered_bytes_per_stream) ∧
    session_send_data s id n =
      (set_streams s (<[id := set_flow c (c.(credit) - n) (c.(buffered_bytes) + n)]> s.(streams))
         (enqueue s.(scheduler) c.(priority) id), Ok (Sent (c.(credit) - n))).
Proof.
  unfold session_send_data, validate_frame_payload_len, checked_add. destruct (authenticated s); cbn [negb]; [|eauto].
  destruct (Z.ltb_spec (max_frame_payload_bytes s) n); [eauto|]. destruct (streams s !! id) as [c|]; [|eauto].
  destruct (can_send (state c)) eqn:Es; cbn [negb]; [|eauto]. destruct (Z.ltb_spec (credit c) n); [eauto|].
  destruct (_ <? 2 ^ 64); [|eauto]. destruct (Z.ltb_spec (max_buffered_bytes_per_stream s) (buffered_bytes c + n)); [eauto|].
  right; right. by exists c.
Qed.

Lemma data_cases s id prio n :
  (∃ r, apply_inbound_frame s id prio (FrData n) = (s, Err r)) ∨
  ∃ c, s.(streams) !! id = Some c ∧ can_receive c.(state) = true ∧ c.(buffered_bytes) + n ≤ s.(max_buffered_bytes_per_stream) ∧
    apply_inbound_frame s id prio (FrData n) =
      (observe_peer_activity (put_stream s id (set_flow c c.(credit) (c.(buffered_bytes) + n))) s.(current_tick),
       Ok (DataAccepted (c.(buffered_bytes) + n) c.(credit))).
Proof.
  unfold apply_inbound_frame, validate_frame_payload_len, checked_add. destruct (authenticated s); cbn [negb]; [|eauto].
  destruct (_ <? n); [eauto|]. destruct (streams s !! id) as [c|]; [|eauto].
  destruct (can_receive (state c)) eqn:Es; cbn [negb]; [|eauto].
  destruct (_ <? 2 ^ 64); [|eauto]. destruct (Z.ltb_spec (max_buffered_bytes_per_stream s) (buffered_bytes c + n)); [eauto|].
  right. by exists c.
Qed.

(** The change a call makes to a session: none, a new stream, or a new context
    for a known one, with the flow it accounts for. *)
Inductive session_change (s s' : MuxSessionState) : effect → Prop :=
| ch_same eff : s' = s → eff = Rejected ∨ eff = Quiet → session_change s s' eff
| ch_ticks : s' = observe_peer_activity s s.(current_tick) → session_change s s' Quiet
| ch_open id prio cr :
    s.(streams) !! id = None → Z.of_nat (size s.(streams)) < s.(max_streams) → 0 ≤ prio ≤ 7 → in_width 32 cr →
    s' = set_streams s (<[id := {| state := StOpen; open_acked := false; priority := prio; credit := cr; buffered_bytes := 0 |}]>
                          s.(streams)) (enqueue s.(scheduler) prio id) →
    session_change s s' Quiet
| ch_update id c st acked seen :
    s.(streams) !! id = Some c →
    s' = (if seen : bool then fun x => observe_peer_activity x s.(current_tick) else fun x => x)
           (put_stream s id {| state := st; open_acked := acked; priority := c.(priority); credit := c.(credit);
                               buffered_bytes := c.(buffered_bytes) |}) →
    session_change s s' Quiet
| ch_send id c n :
    s.(streams) !! id = Some c → 0 ≤ n ≤ c.(credit) → c.(buffered_bytes) + n ≤ s.(max_buffered_bytes_per_stream) →
    s' = set_streams s (<[id := set_flow c (c.(credit) - n) (c.(buffered_bytes) + n)]> s.(streams))
           (enqueue s.(scheduler) c.(priority) id) →
    session_change s s' (SentOn id n)
| ch_receive id c n :
    s.(streams) !! id = Some c → 0 ≤ n → c.(buffered_bytes) + n ≤ s.(max_buffered_bytes_per_stream) →
    s' = observe_peer_activity (put_stream s id (set_flow c c.(credit) (c.(buffered_bytes) + n))) s.(current_tick) →
    session_change s s' (ReceivedOn id n)
| ch_grant id c g :
    s.(streams) !! id = Some c → (in_width 32 c.(credit) → in_width 32 (c.(credit) + g)) →
    s' = observe_peer_activity (put_stream s id (set_flow c (c.(credit) + g) c.(buffered_bytes))) s.(current_tick) →
    session_change s s' (GrantedOn id g).

Lemma transition_change s id tr (seen : bool) :
  let r := apply_transition s id tr in
  session_change s (if r.2 is Ok _ then (if seen then fun x => observe_peer_activity x s.(current_tick) else fun x => x) r.1 else r.1)
    (if r.2 is Ok _ then Quiet else Rejected).
Proof.
  destruct (transition_cases s id tr) as [(r & ->)|(c & st & _ & Hc & _ & ->)]; cbn; [by apply ch_same; auto|].
  by eapply (ch_update _ _ id c st c.(open_acked) seen).
Qed.

Lemma inbound_change s id prio f eff :
  (f = FrOpen → 0 ≤ prio ≤ 7) → (∀ n, f = FrData n → 0 ≤ n) →
  eff = (match f with FrData n => ReceivedOn id n | FrWindowUpdate delta => GrantedOn id (grant delta) | _ => Quiet end) →
  let r := apply_inbound_frame s id prio f in session_change s r.1 (if r.2 is Ok _ then eff else Rejected).
Proof.
  intros Hp Hn ->. destruct f as [| |n|delta| | | |].
  - unfold apply_inbound_frame. destruct (authenticated s) eqn:Ea; cbn [negb]; [|by apply ch_same; auto].
    destruct (session_open_cases s id prio DEFAULT_INITIAL_STREAM_CREDIT) as [(r & ->)|(_ & Hsz & Hid & ->)]; cbn.
    + by apply ch_same; auto.
    + eapply ch_open; eauto. done.
  - unfold apply_inbound_frame. destruct (authenticated s); cbn [negb]; [|by apply ch_same; auto].
    destruct (streams s !! id) as [c|] eqn:Ec; [|by apply ch_same; auto].
    destruct (_ || _); cbn; [by apply ch_same; auto|]. by eapply (ch_update _ _ id c _ true false).
  - destruct (data_cases s id prio n) as [(r & ->)|(c & Hc & _ & Hb & ->)]; cbn; [by apply ch_same; auto|].
    eapply ch_receive; eauto.
  - unfold apply_inbound_frame. destruct (authenticated s); cbn [negb]; [|by apply ch_same; auto].
    destruct (window_cases s id delta) as [(r & ->)|(c & Hc & Hw & ->)]; cbn; [by apply ch_same; auto|].
    eapply ch_grant; eauto.
  - unfold apply_inbound_frame. destruct (authenticated s); cbn [negb]; [|by apply ch_same; auto].
    pose proof (transition_change s id TrReset true) as Ht. cbn zeta in Ht.
    destruct (transition_cases s id TrReset) as [(r & Hr)|(c & st & _ & _ & _ & Hr)]; rewrite Hr in Ht |- *; exact Ht.
  - unfold apply_inbound_frame. destruct (authenticated s); cbn; [by apply ch_ticks|by apply ch_same; auto].
  - unfold apply_inbound_frame. destruct (authenticated s); cbn; [by apply ch_ticks|by apply ch_same; auto].
  - unfold apply_inbound_frame. destruct (authenticated s); cbn [negb]; [|by apply ch_same; auto].
    pose proof (transition_change s id ReceiveClose true) as Ht. cbn zeta in Ht.
    destruct (transition_cases s id ReceiveClose) as [(r & Hr)|(c & st & _ & _ & _ & Hr)]; rewrite Hr in Ht |- *; exact Ht.
Qed.

Lemma apply_frame_session e id prio f evs :
  (apply_frame e id prio f evs).1.(session) = (apply_inbound_frame e.(session) id prio f).1 ∧
  (apply_frame e id prio f evs).2 = (apply_inbound_frame e.(session) id prio f).2.
Proof. unfold apply_frame. by destruct (apply_inbound_frame _ _ _ _) as [s [o|r]]. Qed.

(** Every call makes one of these changes. *)
Lemma mux_step_change e op :
  mux_op_ok op → session_change e.(session) (mux_step e op).1.(session) (mux_step e op).2.
Proof.
  destruct op as [id prio name cr|id prio n|id prio|id prio| | |ev]; cbn [mux_op_ok mux_step]; intros Hok.
  - unfold open_stream. case_bool_decide; [by apply ch_same; auto|].
    destruct (session_open_cases e.(session) id prio cr) as [(r & ->)|(_ & Hsz & Hid & ->)]; cbn; [by apply ch_same; auto|].
    destruct Hok. by eapply ch_open.
  - unfold send_data. destruct (session_send_cases e.(session) id n) as [(r & ->)|[(c & ->)|(c & _ & Hc & _ & _ & Hn & Hb & ->)]]; cbn.
    + by apply ch_same; auto.
    + by apply ch_same; auto.
    + eapply ch_send; eauto. lia.
  - unfold close_stream. pose proof (transition_change e.(session) id SendClose false) as Ht. cbn zeta in Ht.
    destruct (apply_transition e.(session) id SendClose) as [s [st|r]]; exact Ht.
  - unfold reset_stream. pose proof (transition_change e.(session) id TrReset false) as Ht. cbn zeta in Ht.
    destruct (apply_transition e.(session) id TrReset) as [s [st|r]]; exact Ht.
  - by apply ch_same; auto.
  - by apply ch_same; auto.
  - destruct ev as [id prio name|id prio|id prio n|id prio delta|id prio|id prio|id prio|id prio]; cbn [ingest event_effect event_ok] in *.
    { case_bool_decide; [by apply ch_same; auto|].
      pose proof (inbound_change e.(session) id prio FrOpen Quiet (fun _ => Hok) ltac:(done) eq_refl) as Hi. cbn zeta in Hi.
      destruct (apply_inbound_frame e.(session) id prio FrOpen) as [s [o|r]]; exact Hi. }
    all: unfold accepted_as; cbn [fst snd];
      match goal with |- context [apply_frame ?e ?id ?prio ?f ?evs] =>
        destruct (apply_frame_session e id prio f evs) as [-> ->]; apply (inbound_change e.(session) id prio f) end; try done.
    intros ? [= <-]. lia.
Qed.

Lemma session_change_inv s s' eff : session_change s s' eff → session_inv s → session_inv s'.
Proof.
  intros [? -> _| -> |id prio cr Hid Hsz Hp Hcr ->|id c st acked seen Hc ->|id c n Hc Hn Hb ->|id c n Hc Hn Hb ->|id c g Hc Hg ->] Hinv;
    pose proof (si_limits _ Hinv) as (HL1 & HL2 & HL3).
  - done.
  - by apply observe_inv.
  - apply (enqueue_stream_inv s id {| state := StOpen; open_acked := false; priority := prio; credit := cr; buffered_bytes := 0 |});
      [done|done|]. rewrite map_size_insert_None by done. lia.
  - pose proof (map_Forall_lookup_1 _ _ _ _ (si_contexts _ Hinv) Hc) as Hok.
    destruct seen; [apply observe_inv|]; by eapply put_stream_inv.
  - pose proof (map_Forall_lookup_1 _ _ _ _ (si_contexts _ Hinv) Hc) as (H1 & H2 & H3).
    apply (enqueue_stream_inv s id (set_flow c (credit c - n) (buffered_bytes c + n))); [done| |].
    + unfold context_ok, in_width in *. cbn. rewrite HL3 in Hb. lia.
    + rewrite map_size_insert_Some by by eexists. apply Hinv.
  - pose proof (map_Forall_lookup_1 _ _ _ _ (si_contexts _ Hinv) Hc) as (H1 & H2 & H3).
    apply observe_inv. eapply put_stream_inv; [done..|]. unfold context_ok in *. cbn. rewrite HL3 in Hb. split_and!; try apply H1; lia.
  - pose proof (map_Forall_lookup_1 _ _ _ _ (si_contexts _ Hinv) Hc) as (H1 & H2 & H3).
    apply observe_inv. eapply put_stream_inv; [done..|]. unfold context_ok in *. cbn. split_and!; try apply Hg; try done; lia.
Qed.

(** *** The name registry *)

Lemma emit_nil e : emit e e.(session) [] = e.
Proof. destruct e. unfold emit. cbn. by rewrite app_nil_r. Qed.

Lemma inbound_rejected s id prio f :
  match apply_inbound_frame s id prio f with (s', Err r) => s' = s | (_, Ok _) => True end.
Proof.
  destruct f as [| |n|delta| | | |].
  3: by destruct (data_cases s id prio n) as [(r & ->)|(c & _ & _ & _ & ->)].
  all: unfold apply_inbound_frame; destruct (authenticated _); cbn [negb]; try done.
  - by destruct (session_open_cases s id prio DEFAULT_INITIAL_STREAM_CREDIT) as [(r & ->)|(_ & _ & _ & ->)].
  - destruct (streams _ !! _); [|done]. by destruct (_ || _).
  - by destruct (window_cases s id delta) as [(r & ->)|(c & _ & _ & ->)].
  - by destruct (transition_cases s id TrReset) as [(r & ->)|(c & st & _ & _ & _ & ->)].
  - by destruct (transition_cases s id ReceiveClose) as [(r & ->)|(c & st & _ & _ & _ & ->)].
Qed.

Lemma inbound_dom s id prio f : f ≠ FrOpen → dom (apply_inbound_frame s id prio f).1.(streams) = dom s.(streams).
Proof.
  intros Hne. destruct f as [| |n|delta| | | |]; try done.
  2: { destruct (data_cases s id prio n) as [(r & ->)|(c & Hc & _ & _ & ->)]; [done|]. cbn. by apply dom_insert_lookup_L. }
  all: unfold apply_inbound_frame; destruct (authenticated _); cbn [negb]; try done.
  - destruct (streams _ !! _) as [c|] eqn:Ec; [|done]. destruct (_ || _); [done|]. cbn. by apply dom_insert_lookup_L.
  - destruct (window_cases s id delta) as [(r & ->)|(c & Hc & _ & ->)]; [done|]. cbn. by apply dom_insert_lookup_L.
  - destruct (transition_cases s id TrReset) as [(r & ->)|(c & st & _ & Hc & _ & ->)]; [done|]. cbn. by apply dom_insert_lookup_L.
  - destruct (transition_cases s id ReceiveClose) as [(r & ->)|(c & st & _ & Hc & _ & ->)]; [done|]. cbn. by apply dom_insert_lookup_L.
Qed.

(** A rejected call leaves the endpoint as it was, and emits nothing. *)
Lemma rejected_unchanged e op : (mux_step e op).2 = Rejected → (mux_step e op).1 = e.
Proof.
  destruct op as [id prio name cr|id prio n|id prio|id prio| | |ev]; cbn [mux_step]; try done.
  - unfold open_stream. case_bool_decide; [done|].
    by destruct (session_open_cases e.(session) id prio cr) as [(r & ->)|(_ & _ & _ & ->)]; cbn; rewrite ?emit_nil.
  - unfold send_data.
    by destruct (session_send_cases e.(session) id n) as [(r & ->)|[(c & ->)|(c & _ & _ & _ & _ & _ & _ & ->)]]; cbn; rewrite ?emit_nil.
  - unfold close_stream.
    by destruct (transition_cases e.(session) id SendClose) as [(r & ->)|(c & st & _ & _ & _ & ->)]; cbn; rewrite ?emit_nil.
  - unfold reset_stream.
    by destruct (transition_cases e.(session) id TrReset) as [(r & ->)|(c & st & _ & _ & _ & ->)]; cbn; rewrite ?emit_nil.
  - pose proof (inbound_rejected e.(session)) as Hf.
    assert (∀ id prio f evs eff, eff ≠ Rejected → (accepted_as eff (apply_frame e id prio f evs)).2 = Rejected →
              (accepted_as eff (apply_frame e id prio f evs)).1 = e) as Ha.
    { intros id prio f evs eff Hne. unfold accepted_as, apply_frame. specialize (Hf id prio f).
      destruct (apply_inbound_frame e.(session) id prio f) as [s [o|r]]; cbn; [done|]. intros _. rewrite Hf. apply emit_nil. }
    destruct ev as [id prio name|id prio|id prio n|id prio delta|id prio|id prio|id prio|id prio]; cbn [ingest event_effect].
    { case_bool_decide; [done|]. specialize (Hf id prio FrOpen).
      destruct (apply_inbound_frame e.(session) id prio FrOpen) as [s [o|r]]; cbn; [done|]. intros _. rewrite Hf. apply emit_nil. }
    all: by apply Ha.
Qed.

(** The stream an accepted opening adds. *)
Definition opens (op : mux_op) : option (Z * bytes) :=
  match op with
  | OpOpen id _ name _ | OpIngest (EvOpen id _ name) => Some (id, name)
  | _ => None
  end.

Definition registry_same (e e' : MuxHostEndpoint) : Prop :=
  e'.(stream_names_by_id) = e.(stream_names_by_id) ∧ e'.(stream_ids_by_name) = e.(stream_ids_by_name) ∧
  dom e'.(session).(streams) = dom e.(session).(streams).

Lemma session_same_dom e op : opens op = None → registry_same e (mux_step e op).1.
Proof.
  unfold registry_same. destruct op as [id prio name cr|id prio n|id prio|id prio| | |ev]; cbn [mux_step opens]; try done; intros Hop.
  - unfold send_data. destruct (session_send_cases e.(session) id n) as [(r & ->)|[(c & ->)|(c & _ & Hc & _ & _ & _ & _ & ->)]]; cbn; try done.
    split_and!; try done. by apply dom_insert_lookup_L.
  - unfold close_stream. destruct (transition_cases e.(session) id SendClose) as [(r & ->)|(c & st & _ & Hc & _ & ->)]; cbn; try done.
    split_and!; try done. by apply dom_insert_lookup_L.
  - unfold reset_stream. destruct (transition_cases e.(session) id TrReset) as [(r & ->)|(c & st & _ & Hc & _ & ->)]; cbn; try done.
    split_and!; try done. by apply dom_insert_lookup_L.
  - assert (∀ id prio f evs, f ≠ FrOpen → let e' := (apply_frame e id prio f evs).1 in
      e'.(stream_names_by_id) = e.(stream_names_by_id) ∧ e'.(stream_ids_by_name) = e.(stream_ids_by_name) ∧
      dom e'.(session).(streams) = dom e.(session).(streams)) as Ha.
    { intros id prio f evs Hne. cbn zeta.
      pose proof (inbound_dom e.(session) id prio f Hne) as Hd.
      unfold apply_frame. by destruct (apply_inbound_frame e.(session) id prio f) as [s [o|r]]. }
    destruct ev; cbn [ingest event_effect accepted_as fst]; try done; by apply Ha.
Qed.

(** An accepted opening registers a fresh identifier under a fresh name. *)
Lemma opening_registers e op id name :
  opens op = Some (id, name) → (mux_step e op).2 ≠ Rejected →
  let e' := (mux_step e op).1 in
  e.(session).(streams) !! id = None ∧ e.(stream_ids_by_name) !! name = None ∧
  e'.(stream_names_by_id) = <[id := name]> e.(stream_names_by_id) ∧
  e'.(stream_ids_by_name) = <[name := id]> e.(stream_ids_by_name) ∧
  dom e'.(session).(streams) = {[id]} ∪ dom e.(session).(streams).
Proof.
  destruct op as [i prio n cr| | | | | |ev]; cbn [opens mux_step]; try done.
  - intros [= <- <-]. unfold open_stream. case_bool_decide as Hn; [done|]. rewrite <- eq_None_not_Some in Hn.
    destruct (session_open_cases e.(session) i prio cr) as [(r & ->)|(_ & _ & Hid & ->)]; [done|]. intros _. cbn.
    split_and!; try done. by rewrite dom_insert_L.
  - destruct ev as [i prio n|?|?|?|?|?|?|?]; try done. intros [= <- <-]. cbn [ingest]. case_bool_decide as Hn; [done|].
    rewrite <- eq_None_not_Some in Hn. unfold apply_inbound_frame. destruct (authenticated _); cbn [negb]; [|done].
    destruct (session_open_cases e.(session) i prio DEFAULT_INITIAL_STREAM_CREDIT) as [(r & ->)|(_ & _ & Hid & ->)]; [done|].
    intros _. cbn. split_and!; try done. by rewrite dom_insert_L.
Qed.

Lemma registry_insert (names : gmap Z bytes) (ids : gmap bytes Z) id name :
  (∀ n i, ids !! n = Some i ↔ names !! i = Some n) → ids !! name = None → names !! id = None →
  ∀ n i, (<[name := id]> ids) !! n = Some i ↔ (<[id := name]> names) !! i = Some n.
Proof.
  intros Hr Hn Hi n i. rewrite !lookup_insert_Some. specialize (Hr n i) as Hni.
  assert (ids !! n = Some i → n ≠ name) by congruence. assert (names !! i = Some n → i ≠ id) by congruence.
  naive_solver.
Qed.

Lemma mux_step_inv e op : mux_op_ok op → endpoint_inv e → endpoint_inv (mux_step e op).1.
Proof.
  intros Hok [Hs Hn Hd]. pose proof (session_change_inv _ _ _ (mux_step_change e op Hok) Hs) as Hs'.
  destruct (decide ((mux_step e op).2 = Rejected)) as [Hr|Hacc]; [by rewrite rejected_unchanged|].
  destruct (opens op) as [[id name]|] eqn:Eo.
  - destruct (opening_registers e op id name Eo Hacc) as (Hid & Hname & Hn1 & Hn2 & Hn3).
    split; [done| |].
    + rewrite Hn1, Hn2. apply registry_insert; [done|done|]. apply not_elem_of_dom. rewrite Hd. by apply not_elem_of_dom.
    + by rewrite Hn1, Hn3, dom_insert_L, Hd.
  - destruct (session_same_dom e op Eo) as (Hn1 & Hn2 & Hn3). split; [done| |].
    + by rewrite Hn1, Hn2.
    + by rewrite Hn1, Hn3, Hd.
Qed.

Lemma endpoint_new_inv auth now : endpoint_inv (MuxHostEndpoint_new auth now).
Proof.
  split; cbn; [|done|done]. split; cbn; try done; [split_and!; cbn; lia|]. intros i id. unfold queue_at. cbn [queues scheduler MuxSessionState_new PriorityScheduler_new].
  destruct (replicate 8 [] !! i) as [q|] eqn:E; cbn; [apply lookup_replicate in E as [-> _]|]; set_solver.
Qed.

(** *** Flow *)

Definition sent_on (id : Z) (eff : effect) : Z := match eff with SentOn i n => if i =? id then n else 0 | _ => 0 end.
Definition received_on (id : Z) (eff : effect) : Z := match eff with ReceivedOn i n => if i =? id then n else 0 | _ => 0 end.
Definition granted_on (id : Z) (eff : effect) : Z := match eff with GrantedOn i n => if i =? id then n else 0 | _ => 0 end.

Lemma change_flow s s' eff id c :
  session_change s s' eff → s.(streams) !! id = Some c →
  ∃ c', s'.(streams) !! id = Some c' ∧
    c'.(credit) = c.(credit) + granted_on id eff - sent_on id eff ∧
    c'.(buffered_bytes) = c.(buffered_bytes) + sent_on id eff + received_on id eff.
Proof.
  intros Hch Hc.
  destruct Hch as [? -> [-> | ->]| -> |i prio cr Hi Hsz Hp Hcr ->|i c0 st acked seen Hi ->|i c0 n Hi Hn Hb ->|i c0 n Hi Hn Hb ->|i c0 g Hi Hg ->];
    cbn [sent_on received_on granted_on].
  1-3: exists c; split_and!; [done|lia|lia].
  - exists c. cbn. rewrite lookup_insert_ne by congruence. split_and!; [done|lia|lia].
  - destruct (decide (i = id)) as [->|Hne].
    + assert (c0 = c) as -> by congruence. eexists. destruct seen; cbn; rewrite lookup_insert_eq; (split; [done|]); cbn; lia.
    + exists c. destruct seen; cbn; rewrite lookup_insert_ne by done; (split; [done|]); lia.
  - destruct (Z.eqb_spec i id) as [->|Hne]; cbn.
    + assert (c0 = c) as -> by congruence. eexists. rewrite lookup_insert_eq. split; [done|]. cbn. lia.
    + exists c. rewrite lookup_insert_ne by done. split; [done|]. lia.
  - destruct (Z.eqb_spec i id) as [->|Hne]; cbn.
    + assert (c0 = c) as -> by congruence. eexists. rewrite lookup_insert_eq. split; [done|]. cbn. lia.
    + exists c. rewrite lookup_insert_ne by done. split; [done|]. lia.
  - destruct (Z.eqb_spec i id) as [->|Hne]; cbn.
    + assert (c0 = c) as -> by congruence. eexists. rewrite lookup_insert_eq. split; [done|]. cbn. lia.
    + exists c. rewrite lookup_insert_ne by done. split; [done|]. lia.
Qed.

Lemma run_flow ops : ∀ e id c,
  Forall mux_op_ok ops → e.(session).(streams) !! id = Some c →
  let r := mux_run e ops in
  ∃ c', r.1.(session).(streams) !! id = Some c' ∧
    c'.(credit) = c.(credit) + zsum (granted_on id) r.2 - zsum (sent_on id) r.2 ∧
    c'.(buffered_bytes) = c.(buffered_bytes) + zsum (sent_on id) r.2 + zsum (received_on id) r.2.
Proof.
  induction ops as [|op ops IH]; intros e id c Hok Hc; cbn zeta; cbn [mux_run].
  { exists c. cbn. split_and!; [done|lia|lia]. }
  inversion_clear Hok as [|? ? Hop Hok'].
  destruct (change_flow _ _ _ id c (mux_step_change e op Hop) Hc) as (c1 & Hc1 & H1 & H2).
  destruct (IH (mux_step e op).1 id c1 Hok' Hc1) as (c2 & Hc2 & H3 & H4).
  exists c2. cbn [fst snd]. rewrite !zsum_cons. split_and!; [done|lia|lia].
Qed.

Lemma mux_run_inv ops : ∀ e, Forall mux_op_ok ops → endpoint_inv e → endpoint_inv (mux_run e ops).1.
Proof.
  induction ops as [|op ops IH]; intros e Hok Hinv; [done|]. inversion_clear Hok. cbn. apply IH; [done|]. by apply mux_step_inv.
Qed.

Lemma change_auth s s' eff : session_change s s' eff → s'.(authenticated) = s.(authenticated).
Proof. by intros [? -> _| -> |? ? ? ? ? ? ? -> |? ? ? ? [] ? -> |? ? ? ? ? ? -> |? ? ? ? ? ? -> |? ? ? ? ? ->]. Qed.

Lemma mux_run_auth ops : ∀ e, Forall mux_op_ok ops → (mux_run e ops).1.(session).(authenticated) = e.(session).(authenticated).
Proof.
  induction ops as [|op ops IH]; intros e Hok; [done|]. inversion_clear Hok as [|? ? Hop Hok']. cbn.
  rewrite IH by done. by eapply change_auth, mux_step_change.
Qed.

Lemma unauthenticated_rejects e op :
  e.(session).(authenticated) = false → op ≠ OpAccept → op ≠ OpDrain → (mux_step e op).2 = Rejected.
Proof.
  intros Ha H1 H2. destruct op as [id prio name cr|id prio n|id prio|id prio| | |ev]; try done; cbn [mux_step].
  - unfold open_stream, session_open_stream. rewrite Ha. by case_bool_decide.
  - unfold send_data, session_send_data. by rewrite Ha.
  - unfold close_stream, apply_transition. by rewrite Ha.
  - unfold reset_stream, apply_transition. by rewrite Ha.
  - destruct ev; cbn [ingest]; unfold apply_frame, apply_inbound_frame; rewrite Ha; cbn [negb]; try done. by case_bool_decide.
Qed.

(** Every endpoint a run can reach is well formed: at most 128 streams, credits
    of 32 bits, at most 256 KiB buffered per stream, stream names and
    identifiers in bijection, and every stream in a ready queue known; and a
    call that is rejected changes nothing and emits nothing.  On a session that
    was not authenticated every call on a stream and every event is rejected. *)
Theorem mux_endpoint_invariant auth now ops op :
  Forall mux_op_ok ops → mux_op_ok op →
  let e := (mux_run (MuxHostEndpoint_new auth now) ops).1 in
  endpoint_inv e ∧
  ((mux_step e op).2 = Rejected → (mux_step e op).1 = e) ∧
  (auth = false → op ≠ OpAccept → op ≠ OpDrain → (mux_step e op).2 = Rejected).
Proof.
  intros Hok Hop e. split_and!.
  - apply mux_run_inv; [done|]. apply endpoint_new_inv.
  - apply rejected_unchanged.
  - intros -> Ha Hd. apply unauthenticated_rejects; [|done|done]. unfold e. by rewrite mux_run_auth.
Qed.

(** Flow control and accounting, for every run and every stream.  The credit
    left is the credit before plus what the peer granted minus what was sent, so
    the bytes sent never exceed the credit extended; and as nothing takes bytes
    out of the buffer, what a stream carries in both directions together over
    its whole life is at most 256 KiB. *)
Theorem mux_flow_control e ops id c :
  endpoint_inv e → Forall mux_op_ok ops → e.(session).(streams) !! id = Some c →
  let r := mux_run e ops in
  let sent := zsum (sent_on id) r.2 in
  let received := zsum (received_on id) r.2 in
  let granted := zsum (granted_on id) r.2 in
  ∃ c', r.1.(session).(streams) !! id = Some c' ∧
    c'.(credit) + sent = c.(credit) + granted ∧ sent ≤ c.(credit) + granted ∧
    c'.(buffered_bytes) = c.(buffered_bytes) + sent + received ∧
    c.(buffered_bytes) + sent + received ≤ MAX_BUFFERED_BYTES_PER_STREAM.
Proof.
  intros Hinv Hok Hc r sent received granted. destruct (run_flow ops e id c Hok Hc) as (c' & Hc' & H1 & H2).
  pose proof (ei_session _ (mux_run_inv ops e Hok Hinv)) as Hs.
  pose proof (map_Forall_lookup_1 _ _ _ _ (si_contexts _ Hs) Hc') as (Hcr & Hb & _). unfold in_width in Hcr.
  exists c'. unfold sent, received, granted, r in *. split_and!; [done|lia|lia|lia|lia].
Qed.

(** ** Two endpoints *)

Definition mirror (st : StreamState) : StreamState :=
  match st with
  | HalfClosedLocal => HalfClosedRemote
  | HalfClosedRemote => HalfClosedLocal
  | st => st
  end.

(** The peer's view of a stream: same class and bytes, the peer's own credit. *)
Definition mirror_of (c : StreamContext) : StreamContext :=
  {| state := mirror c.(state); open_acked := false; priority := c.(priority);
     credit := DEFAULT_INITIAL_STREAM_CREDIT; buffered_bytes := c.(buffered_bytes) |}.

Record mirrored (a b : MuxHostEndpoint) : Prop := {
  mi_auth : a.(session).(authenticated) = true ∧ b.(session).(authenticated) = true;
  mi_limits_a : session_inv a.(session);
  mi_limits_b : session_inv b.(session);
  mi_local : map_Forall (fun _ c => c.(state) = StOpen ∨ c.(state) = HalfClosedLocal ∨ c.(state) = StReset) a.(session).(streams);
  mi_streams : b.(session).(streams) = mirror_of <$> a.(session).(streams);
  mi_names : b.(stream_names_by_id) = a.(stream_names_by_id);
  mi_ids : b.(stream_ids_by_name) = a.(stream_ids_by_name)
}.

(** The calls of a sender whose peer only listens. *)
Definition is_local (op : mux_op) : bool :=
  match op with
  | OpOpen _ _ _ _ | OpSend _ _ _ | OpClose _ _ | OpReset _ _ => true
  | _ => false
  end.

Definition deliver (b : MuxHostEndpoint) (evs : list MuxWireEvent) : MuxHostEndpoint * list effect := mux_run b (OpIngest <$> evs).

Lemma mirrored_intro a b op ev :
  mirrored a b → mux_op_ok op → event_ok ev →
  let a' := (mux_step a op).1 in
  let b' := (mux_step b (OpIngest ev)).1 in
  map_Forall (fun _ c => c.(state) = StOpen ∨ c.(state) = HalfClosedLocal ∨ c.(state) = StReset) a'.(session).(streams) →
  b'.(session).(streams) = mirror_of <$> a'.(session).(streams) →
  b'.(stream_names_by_id) = a'.(stream_names_by_id) → b'.(stream_ids_by_name) = a'.(stream_ids_by_name) →
  mirrored a' b'.
Proof.
  intros [[Ha Hb] Hia Hib _ _ _ _] Hop Hev a' b' Hl Hs Hn Hi.
  pose proof (mux_step_change a op Hop) as Ca. pose proof (mux_step_change b (OpIngest ev) Hev) as Cb.
  split; [|by eapply session_change_inv|by eapply session_change_inv|done..].
  unfold a', b'. by rewrite (change_auth _ _ _ Ca), (change_auth _ _ _ Cb).
Qed.

(** What the peer does with each event of a mirrored sender. *)
Lemma peer_open a b id prio name c :
  mirrored a b → a.(stream_ids_by_name) !! name = None → a.(session).(streams) !! id = None →
  Z.of_nat (size a.(session).(streams)) < a.(session).(max_streams) → c.(state) = StOpen → c.(priority) = prio → c.(buffered_bytes) = 0 →
  let r := mux_step b (OpIngest (EvOpen id prio name)) in
  r.2 = Quiet ∧ r.1.(session).(streams) = mirror_of <$> <[id := c]> a.(session).(streams) ∧
  r.1.(stream_names_by_id) = <[id := name]> a.(stream_names_by_id) ∧ r.1.(stream_ids_by_name) = <[name := id]> a.(stream_ids_by_name).
Proof.
  intros [[_ Hb] Hia Hib _ Hs Hn Hi] Hname Hid Hsz Hst Hp H0. cbn [mux_step ingest]. rewrite Hi, Hname.
  rewrite bool_decide_eq_false_2 by by inversion 1. unfold apply_inbound_frame, session_open_stream. rewrite Hb. cbn [negb].
  destruct (si_limits _ Hia) as (Hma & _). destruct (si_limits _ Hib) as (Hmb & _).
  rewrite Hs, map_size_fmap, Hmb, (proj2 (Z.leb_gt _ _)) by lia.
  rewrite lookup_fmap, Hid. cbn [fmap option_fmap option_map]. rewrite bool_decide_eq_false_2 by by inversion 1. cbn.
  split; [done|]. rewrite Hn, ?Hi, fmap_insert. split; [|done]. f_equal. unfold mirror_of. rewrite Hst, Hp, H0. done.
Qed.

Lemma peer_data a b id prio n c :
  mirrored a b → a.(session).(streams) !! id = Some c → can_send c.(state) = true → 0 ≤ n →
  n ≤ MAX_FRAME_PAYLOAD_BYTES → c.(buffered_bytes) + n ≤ MAX_BUFFERED_BYTES_PER_STREAM → ∀ cr,
  let r := mux_step b (OpIngest (EvData id prio n)) in
  r.2 = ReceivedOn id n ∧ r.1.(session).(streams) = mirror_of <$> <[id := set_flow c cr (c.(buffered_bytes) + n)]> a.(session).(streams) ∧
  r.1.(stream_names_by_id) = b.(stream_names_by_id) ∧ r.1.(stream_ids_by_name) = b.(stream_ids_by_name).
Proof.
  intros [[_ Hb] Hia Hib Hloc Hs Hn Hi] Hc Hst Hn0 Hnp Hbuf cr.
  cbn [mux_step ingest]. unfold apply_frame, apply_inbound_frame, validate_frame_payload_len, checked_add. rewrite Hb. cbn [negb].
  destruct (si_limits _ Hib) as (_ & HP & HB). rewrite HP, HB, (proj2 (Z.ltb_ge _ _)) by done.
  rewrite Hs, lookup_fmap, Hc. cbn [fmap option_fmap option_map mirror_of state buffered_bytes].
  assert (can_receive (mirror c.(state)) = true) as ->.
  { destruct (map_Forall_lookup_1 _ _ _ _ Hloc Hc) as [E|[E|E]]; rewrite E in Hst |- *; done. }
  unfold MAX_BUFFERED_BYTES_PER_STREAM in *. cbn [negb]. rewrite (proj2 (Z.ltb_lt _ _)), (proj2 (Z.ltb_ge _ _)) by lia. cbn.
  split; [done|]. split; [|done]. rewrite Hs, fmap_insert. done.
Qed.

Lemma peer_transition a b id prio c st (tr : StreamTransition) ev :
  mirrored a b → a.(session).(streams) !! id = Some c → apply_stream_transition c.(state) tr = Ok st →
  (tr = SendClose ∧ ev = EvClose id prio ∨ tr = TrReset ∧ ev = EvRst id prio) →
  let r := mux_step b (OpIngest ev) in
  r.2 = Quiet ∧ r.1.(session).(streams) = mirror_of <$> <[id := set_state c st]> a.(session).(streams) ∧
  r.1.(stream_names_by_id) = b.(stream_names_by_id) ∧ r.1.(stream_ids_by_name) = b.(stream_ids_by_name) ∧
  (st = StOpen ∨ st = HalfClosedLocal ∨ st = StReset).
Proof.
  intros [[_ Hb] Hia Hib Hloc Hs Hn Hi] Hc Htr Hev.
  assert (∃ tr' f, (tr = SendClose ∧ tr' = ReceiveClose ∧ f = FrClose ∧ ev = EvClose id prio ∨
                    tr = TrReset ∧ tr' = TrReset ∧ f = FrRst ∧ ev = EvRst id prio)) as (tr' & f & Hf)
    by (destruct Hev as [[-> ->]|[-> ->]]; eauto 10).
  assert (apply_stream_transition (mirror c.(state)) tr' = Ok (mirror st) ∧ (st = StOpen ∨ st = HalfClosedLocal ∨ st = StReset)) as [Ht' Hst].
  { destruct (map_Forall_lookup_1 _ _ _ _ Hloc Hc) as [E|[E|E]]; rewrite E in Htr |- *;
      destruct Hf as [(-> & -> & _)|(-> & -> & _)]; cbn in Htr |- *; try done; injection Htr as <-; cbn; auto. }
  assert (apply_transition b.(session) id tr' = (put_stream b.(session) id (set_state (mirror_of c) (mirror st)), Ok (mirror st))) as Hap.
  { unfold apply_transition. rewrite Hb, Hs, lookup_fmap, Hc. cbn [negb fmap option_fmap option_map mirror_of state]. by rewrite Ht'. }
  destruct Hf as [(-> & -> & -> & ->)|(-> & -> & -> & ->)]; cbn [mux_step ingest]; unfold apply_frame, apply_inbound_frame;
    rewrite Hb, Hap; cbn; rewrite Hs, fmap_insert; done.
Qed.

(** One event told to the peer keeps the two in step. *)
Lemma mirror_event a b op ev m :
  mirrored a b → mux_op_ok op → event_ok ev →
  (mux_step a op).1.(outbound) = a.(outbound) ++ [ev] → (mux_step a op).1.(session).(streams) = m →
  map_Forall (fun _ c => c.(state) = StOpen ∨ c.(state) = HalfClosedLocal ∨ c.(state) = StReset) m →
  (mux_step b (OpIngest ev)).2 ≠ Rejected → (mux_step b (OpIngest ev)).1.(session).(streams) = mirror_of <$> m →
  (mux_step b (OpIngest ev)).1.(stream_names_by_id) = (mux_step a op).1.(stream_names_by_id) →
  (mux_step b (OpIngest ev)).1.(stream_ids_by_name) = (mux_step a op).1.(stream_ids_by_name) →
  ∃ evs, (mux_step a op).1.(outbound) = a.(outbound) ++ evs ∧ (Rejected ∉ (deliver b evs).2) ∧
    mirrored (mux_step a op).1 (deliver b evs).1.
Proof.
  intros Hm Hop Hev Ho <- Hl He Hs Hn Hi. exists [ev]. split; [done|].
  change (deliver b [ev]) with ((mux_step b (OpIngest ev)).1, [(mux_step b (OpIngest ev)).2]). cbn [fst snd].
  split; [set_solver|]. by apply mirrored_intro.
Qed.

Lemma mirror_open a b id prio name cr :
  mirrored a b → 0 ≤ prio ≤ 7 ∧ in_width 32 cr → (mux_step a (OpOpen id prio name cr)).2 ≠ Rejected →
  let a' := (mux_step a (OpOpen id prio name cr)).1 in
  ∃ evs, a'.(outbound) = a.(outbound) ++ evs ∧ (Rejected ∉ (deliver b evs).2) ∧ mirrored a' (deliver b evs).1.
Proof.
  intros Hm Hop Hacc. pose proof Hm as [Hau Hia Hib Hloc Hs Hn Hi]. cbn [mux_step] in Hacc. unfold open_stream in Hacc.
  case_bool_decide as Hname; [done|]. pose proof Hname as Hname'. rewrite <- eq_None_not_Some in Hname'.
  destruct (session_open_cases a.(session) id prio cr) as [(r & E)|(_ & Hsz & Hid & E)]; [by rewrite E in Hacc|].
  set (c := {| state := StOpen; open_acked := false; priority := prio; credit := cr; buffered_bytes := 0 |}) in *.
  destruct (peer_open a b id prio name c Hm Hname' Hid Hsz eq_refl eq_refl eq_refl) as (He & H1 & H2 & H3).
  assert (mux_step a (OpOpen id prio name cr) =
    (emit (register a id name []) (set_streams a.(session) (<[id := c]> a.(session).(streams)) (enqueue a.(session).(scheduler) prio id))
       [EvOpen id prio name], Quiet)) as Ea.
  { cbn [mux_step]. unfold open_stream. rewrite bool_decide_eq_false_2 by done. by rewrite E. }
  apply (mirror_event a b _ (EvOpen id prio name) (<[id := c]> a.(session).(streams))); rewrite ?Ea; try done.
  - apply Hop.
  - apply map_Forall_insert_2; [by left|done].
  - by rewrite He.
Qed.

Lemma mirror_send a b id prio n :
  mirrored a b → 0 ≤ n < 2 ^ 64 → (mux_step a (OpSend id prio n)).2 ≠ Rejected →
  let a' := (mux_step a (OpSend id prio n)).1 in
  ∃ evs, a'.(outbound) = a.(outbound) ++ evs ∧ (Rejected ∉ (deliver b evs).2) ∧ mirrored a' (deliver b evs).1.
Proof.
  intros Hm Hop Hacc. pose proof Hm as [Hau Hia Hib Hloc Hs Hn Hi].
  destruct (session_send_cases a.(session) id n) as [(r & E)|[(cr & E)|(c & _ & Hc & Hst & Hnp & Hcr & Hbuf & E)]].
  - cbn [mux_step] in Hacc. unfold send_data in Hacc. by rewrite E in Hacc.
  - exists []. cbn [mux_step]. unfold send_data. rewrite E. cbn [fst snd]. rewrite emit_nil, app_nil_r. split; [done|].
    split; [cbn; set_solver|done].
  - destruct (si_limits _ Hia) as (_ & HP & HB). rewrite HP in Hnp. rewrite HB in Hbuf.
    destruct (peer_data a b id prio n c Hm Hc Hst (proj1 Hop) Hnp Hbuf (c.(credit) - n)) as (He & H1 & H2 & H3).
    set (m := <[id := set_flow c (credit c - n) (buffered_bytes c + n)]> a.(session).(streams)) in *.
    assert (mux_step a (OpSend id prio n) =
      (emit a (set_streams a.(session) m (enqueue a.(session).(scheduler) c.(priority) id)) [EvData id prio n], SentOn id n)) as Ea.
    { cbn [mux_step]. unfold send_data. by rewrite E. }
    apply (mirror_event a b _ (EvData id prio n) m); rewrite ?Ea; try done.
    + apply map_Forall_insert_2; [|done]. cbn. apply (map_Forall_lookup_1 _ _ _ _ Hloc Hc).
    + by rewrite He.
    + by rewrite H2, Hn.
    + by rewrite H3, Hi.
Qed.

Lemma mirror_transition a b op id prio tr ev :
  mirrored a b → (op = OpClose id prio ∧ tr = SendClose ∧ ev = EvClose id prio ∨ op = OpReset id prio ∧ tr = TrReset ∧ ev = EvRst id prio) →
  (mux_step a op).2 ≠ Rejected →
  let a' := (mux_step a op).1 in
  ∃ evs, a'.(outbound) = a.(outbound) ++ evs ∧ (Rejected ∉ (deliver b evs).2) ∧ mirrored a' (deliver b evs).1.
Proof.
  intros Hm Hop Hacc. pose proof Hm as [Hau Hia Hib Hloc Hs Hn Hi].
  destruct (transition_cases a.(session) id tr) as [(r & E)|(c & st & _ & Hc & Htr & E)].
  - exfalso. apply Hacc.
    destruct Hop as [(-> & -> & ->)|(-> & -> & ->)]; cbn [mux_step]; unfold close_stream, reset_stream; by rewrite E.
  - destruct (peer_transition a b id prio c st tr ev Hm Hc Htr ltac:(naive_solver)) as (He & H1 & H2 & H3 & Hst).
    assert (mux_step a op = (emit a (put_stream a.(session) id (set_state c st)) [ev], Quiet)) as Ea.
    { destruct Hop as [(-> & -> & ->)|(-> & -> & ->)]; cbn [mux_step]; unfold close_stream, reset_stream; by rewrite E. }
    apply (mirror_event a b op ev (<[id := set_state c st]> a.(session).(streams))); rewrite ?Ea; try done.
    + by destruct Hop as [(-> & _)|(-> & _)].
    + by destruct Hop as [(_ & _ & ->)|(_ & _ & ->)].
    + by apply map_Forall_insert_2.
    + by rewrite He.
    + by rewrite H2, Hn.
    + by rewrite H3, Hi.
Qed.

Lemma mirror_step a b op :
  mirrored a b → is_local op = true → mux_op_ok op →
  ∃ evs, (mux_step a op).1.(outbound) = a.(outbound) ++ evs ∧ (Rejected ∉ (deliver b evs).2) ∧
    mirrored (mux_step a op).1 (deliver b evs).1.
Proof.
  intros Hm Hl Hop. destruct (decide ((mux_step a op).2 = Rejected)) as [Hr|Hacc].
  { rewrite rejected_unchanged by done. exists []. rewrite app_nil_r. split; [done|]. split; [cbn; set_solver|done]. }
  destruct op as [id prio name cr|id prio n|id prio|id prio| | |ev]; try done.
  - by apply mirror_open.
  - by apply mirror_send.
  - eapply (mirror_transition a b _ id prio SendClose (EvClose id prio)); [done|by left|done].
  - eapply (mirror_transition a b _ id prio TrReset (EvRst id prio)); [done|by right|done].
Qed.

Lemma mux_run_app ops1 : ∀ e ops2,
  mux_run e (ops1 ++ ops2) = ((mux_run (mux_run e ops1).1 ops2).1, (mux_run e ops1).2 ++ (mux_run (mux_run e ops1).1 ops2).2).
Proof.
  induction ops1 as [|op ops1 IH]; intros e ops2; cbn [app mux_run]; cbn zeta; cbn [fst snd app]; [by destruct (mux_run e ops2)|].
  by rewrite IH.
Qed.

(** C35: a listening peer stays in step with the sender.  Whatever sequence of
    openings, sends, closes and resets an authenticated endpoint performs
    (rejected and blocked calls included), a fresh authenticated peer that
    ingests its outbound events in order rejects none of them and ends with the
    same streams under the same names, each with the same class and the same
    bytes, and in the opposite half-closed state. *)
Theorem mux_peer_in_step ops ta tb :
  Forall mux_op_ok ops → Forall (fun op => is_local op = true) ops →
  let a := (mux_run (MuxHostEndpoint_new true ta) ops).1 in
  let r := deliver (MuxHostEndpoint_new true tb) a.(outbound) in
  (Rejected ∉ r.2) ∧ mirrored a r.1.
Proof.
  intros Hok Hl. cbn zeta.
  assert (∀ ops a b evs, Forall mux_op_ok ops → Forall (fun op => is_local op = true) ops →
    a.(outbound) = evs → ∀ b0, b = (deliver b0 evs).1 → (Rejected ∉ (deliver b0 evs).2) → mirrored a b →
    let a' := (mux_run a ops).1 in (Rejected ∉ (deliver b0 a'.(outbound)).2) ∧ mirrored a' (deliver b0 a'.(outbound)).1) as Hind.
  { clear. induction ops as [|op ops IH]; intros a b evs Hok Hl Ho b0 Hb Hr Hm; cbn zeta.
    { cbn [mux_run fst]. by rewrite Ho, <- Hb. }
    inversion_clear Hok. inversion_clear Hl. destruct (mirror_step a b op) as (evs' & Ho' & Hr' & Hm'); [done..|].
    cbn [mux_run]. cbn zeta. cbn [fst]. apply (IH _ (deliver b evs').1 (evs ++ evs')); [done|done| | | |done].
    - by rewrite Ho', Ho.
    - unfold deliver. rewrite fmap_app, mux_run_app. cbn [fst]. by rewrite Hb.
    - unfold deliver. rewrite fmap_app, mux_run_app. cbn [snd]. fold (deliver b0 evs). rewrite <- Hb. fold (deliver b evs').
      rewrite elem_of_app. naive_solver. }
  apply (Hind ops _ (MuxHostEndpoint_new true tb) []); try done; [set_solver|].
  split; cbn; try done; [apply (endpoint_new_inv true ta)|apply (endpoint_new_inv true tb)].
Qed.

(** ** Examples *)

(** A window update is read modulo 2^32, so the overflow check does not see the
    upper half of the [i64]: updates that no 32-bit credit can take are accepted
    as small ones. *)
Theorem mux_window_update_truncated :
  apply_window_delta 10 (2 ^ 32 + 5) = Ok 15 ∧ apply_window_delta 10 (2 ^ 40) = Ok 10 ∧
  apply_window_delta 10 (- 2 ^ 32) = Ok 10 ∧ apply_window_delta 10 (2 ^ 32 - 1) = Err REJECT_WINDOW_CREDIT_OVERFLOW_OR_UNDERFLOW.
Proof. split_and!; vm_compute; reflexivity. Qed.

Definition NAME : bytes := [99; 116; 108].
Definition SIDE_A : MuxHostEndpoint :=
  (mux_run (MuxHostEndpoint_new true 0) (OpOpen 1 0 NAME (2 ^ 18) :: OpDrain :: replicate 8 (OpSend 1 0 32768))).1.
Definition SIDE_B : MuxHostEndpoint :=
  (mux_run (MuxHostEndpoint_new true 0) [OpIngest (EvOpen 1 0 NAME); OpSend 1 0 32768]).1.

(** One counter holds what a stream sent and what it received.  Two sides that
    send at the same time, each within its credit and its own bound, have the
    data of the other rejected on arrival. *)
Theorem mux_duplex_rejected :
  (mux_step SIDE_A (OpIngest (EvData 1 0 32768))).2 = Rejected ∧
  Rejected ∈ (deliver SIDE_B SIDE_A.(outbound)).2 ∧
  (credit <$> SIDE_B.(session).(streams) !! 1) = Some 32768.
Proof.
  split; [vm_compute; reflexivity|]. split; [|vm_compute; reflexivity].
  apply list_elem_of_lookup. exists 7%nat. vm_compute. reflexivity.
Qed.

Lemma mux_no_starvation_witness :
  let s := foldl (fun s i => enqueue s 0 i) (enqueue PriorityScheduler_new 3 99) [1; 2; 3; 4; 5; 6; 7; 8; 9; 10] in
  99 ∈ (sched_run s (replicate 63 OpDequeue)).2.
Proof.
  apply (mux_no_starvation (replicate 63 OpDequeue) _ 3 [] 99 []).
  - vm_compute. split; [reflexivity|]. split; [split; repeat constructor|discriminate].
  - apply Forall_replicate. exact I.
  - split; repeat constructor.
  - vm_compute. reflexivity.
  - vm_compute. repeat constructor.
Defined.

Definition demo_ops : list mux_op := [OpOpen 1 2 NAME 1000; OpSend 1 2 600; OpSend 1 2 600; OpClose 1 2; OpSend 1 2 1; OpOpen 2 0 NAME 5].

Lemma demo_ops_ok : Forall mux_op_ok demo_ops.
Proof. repeat constructor; vm_compute; congruence. Defined.

Lemma mux_endpoint_invariant_witness :
  let e := (mux_run (MuxHostEndpoint_new true 0) demo_ops).1 in
  endpoint_inv e ∧ (mux_step e (OpOpen 1 2 [65] 5)).1 = e.
Proof.
  destruct (mux_endpoint_invariant true 0 demo_ops (OpOpen 1 2 [65] 5) demo_ops_ok) as (H1 & H2 & _).
  - repeat constructor; vm_compute; congruence.
  - split; [exact H1|]. apply H2. vm_compute. reflexivity.
Defined.

Lemma mux_flow_control_witness :
  let e := (mux_run (MuxHostEndpoint_new true 0) [OpOpen 1 2 NAME 1000]).1 in
  let r := mux_run e [OpSend 1 2 600; OpIngest (EvWindowUpdate 1 2 300); OpSend 1 2 700; OpIngest (EvData 1 2 9)] in
  r.2 = [SentOn 1 600; GrantedOn 1 300; SentOn 1 700; ReceivedOn 1 9] ∧
  ∃ c', r.1.(session).(streams) !! 1 = Some c' ∧ c'.(credit) + 1300 = 1000 + 300.
Proof.
  split; [vm_compute; reflexivity|].
  destruct (mux_flow_control (mux_run (MuxHostEndpoint_new true 0) [OpOpen 1 2 NAME 1000]).1
    [OpSend 1 2 600; OpIngest (EvWindowUpdate 1 2 300); OpSend 1 2 700; OpIngest (EvData 1 2 9)] 1
    {| state := StOpen; open_acked := false; priority := 2; credit := 1000; buffered_bytes := 0 |}) as (c' & H1 & H2 & _).
  - apply mux_run_inv; [|apply endpoint_new_inv]. repeat constructor; vm_compute; congruence.
  - repeat constructor; vm_compute; congruence.
  - vm_compute. reflexivity.
  - exists c'. split; [exact H1|exact H2].
Defined.

Lemma mux_peer_in_step_witness :
  let a := (mux_run (MuxHostEndpoint_new true 0) demo_ops).1 in
  a.(outbound) = [EvOpen 1 2 NAME; EvData 1 2 600; EvClose 1 2] ∧
  mirrored a (deliver (MuxHostEndpoint_new true 5) a.(outbound)).1.
Proof.
  split; [vm_compute; reflexivity|].
  apply (proj2 (mux_peer_in_step demo_ops 0 5 demo_ops_ok ltac:(repeat constructor))).
Defined.
