(* ===== verification/ReqRep.v ===== *)
(** Request and reply over shared inboxes ([userspace/nexus-ipc/src/budget.rs],
    [reqrep.rs]): the retry loop under a deadline, the bounded buffer of replies
    that arrived for somebody else, the stash of frames without a nonce, and the
    two receive loops that match a reply to its nonce.

    The clock, the yield and the inbox belong to the kernel or the host; they
    act on an environment [E] that is a parameter here. *)

From S2P Require Import Prelude Bytes.

(** ** [budget.rs] *)

(** The crate's error; a kernel error is its number. *)
Inductive IpcError := WouldBlock | Timeout | Disconnected | NoSpace | Kernel (err : Z) | Unsupported.

Definition SPIN_CHECK_MASK : Z := 0x7f.

Definition duration_to_ns (secs subsec_nanos : Z) : Z :=
  saturating_add 64 (saturating_mul 64 secs 1000000000) subsec_nanos.

Section Retry.
Context {E T : Type} (now_ns : E → option Z) (yield_now : E → E).

Definition deadline_after (e : E) (secs subsec_nanos : Z) : result Z IpcError :=
  let? now := ok_or (now_ns e) Unsupported in Ok (saturating_add 64 now (duration_to_ns secs subsec_nanos)).

(** The loop, for at most [fuel] attempts; [None] when they are used up. *)
Fixpoint retry_ipc_until (fuel : nat) (deadline_ns spins : Z) (op : E → E * result T IpcError) (e : E)
    : option (E * result T IpcError) :=
  match fuel with
  | O => None
  | S fuel =>
      match op e with
      | (e, Ok v) => Some (e, Ok v)
      | (e, Err WouldBlock) =>
          if Z.land spins SPIN_CHECK_MASK =? 0 then
            match now_ns e with
            | None => Some (e, Err Unsupported)
            | Some now =>
                if deadline_ns <=? now then Some (e, Err Timeout)
                else retry_ipc_until fuel deadline_ns (wrapping_add 64 spins 1) op (yield_now e)
            end
          else retry_ipc_until fuel deadline_ns (wrapping_add 64 spins 1) op (yield_now e)
      | (e, Err err) => Some (e, Err err)
      end
  end.

Definition retry_ipc_budgeted (fuel : nat) (secs subsec_nanos : Z) (op : E → E * result T IpcError) (e : E)
    : option (E * result T IpcError) :=
  match deadline_after e secs subsec_nanos with
  | Ok deadline_ns => retry_ipc_until fuel deadline_ns 0 op e
  | Err err => Some (e, Err err)
  end.
End Retry.

(** ** [reqrep.rs] *)

(** [NonceGen::next_nonce]: the nonce and the generator. *)
Definition next_nonce (next : Z) : Z * Z := (next, wrapping_add 64 next 1).

Inductive PushError := TooLarge | NoCapacity | NonceCollision.

Record Slot := { used : bool; s_nonce : Z; len : nat; buf : bytes }.

Record ReplyBuffer := { slots : list Slot; evict_cursor : nat; drops : Z }.

Section Buffer.
Context (PENDING MAX_FRAME : nat).

Definition Slot_EMPTY : Slot := {| used := false; s_nonce := 0; len := 0; buf := zeros MAX_FRAME |}.

Definition ReplyBuffer_new : ReplyBuffer := {| slots := replicate PENDING Slot_EMPTY; evict_cursor := 0; drops := 0 |}.

Definition dropped (b : ReplyBuffer) : ReplyBuffer :=
  {| slots := b.(slots); evict_cursor := b.(evict_cursor); drops := saturating_add 64 b.(drops) 1 |}.

Definition contains (b : ReplyBuffer) (nonce : Z) : bool :=
  existsb (fun s => s.(used) && (s.(s_nonce) =? nonce)) b.(slots).

(** A slot filled with a frame; the bytes behind the frame stay. *)
Definition fill (s : Slot) (nonce : Z) (frame : bytes) : Slot :=
  {| used := true; s_nonce := nonce; len := length frame; buf := splice s.(buf) 0 frame |}.

(** The index of the first slot that satisfies the test. *)
Fixpoint position (f : Slot → bool) (l : list Slot) : option nat :=
  match l with
  | [] => None
  | s :: l => if f s then Some O else S <$> position f l
  end.

Definition push (b : ReplyBuffer) (nonce : Z) (frame : bytes) : ReplyBuffer * result unit PushError :=
  if (PENDING =? 0)%nat then (dropped b, Err NoCapacity)
  else if (MAX_FRAME <? length frame)%nat then (dropped b, Err TooLarge)
  else if contains b nonce then (dropped b, Err NonceCollision)
  else match position (fun s => negb s.(used)) b.(slots) with
       | Some i =>
           ({| slots := alter (fun s => fill s nonce frame) i b.(slots); evict_cursor := b.(evict_cursor); drops := b.(drops) |},
            Ok tt)
       | None =>
           let idx := (b.(evict_cursor) mod PENDING)%nat in
           ({| slots := alter (fun s => fill s nonce frame) idx b.(slots);
               evict_cursor := ((b.(evict_cursor) + 1) mod PENDING)%nat;
               drops := saturating_add 64 b.(drops) 1 |}, Ok tt)
       end.

(** [take_into] a buffer of [out] bytes: the bytes copied. *)
Definition take_into (b : ReplyBuffer) (nonce : Z) (out : nat) : ReplyBuffer * option bytes :=
  match position (fun s => s.(used) && (s.(s_nonce) =? nonce)) b.(slots) with
  | None => (b, None)
  | Some i =>
      match b.(slots) !! i with
      | None => (b, None)
      | Some s =>
          if (out <? s.(len))%nat then (b, None)
          else ({| slots := <[i := Slot_EMPTY]> b.(slots); evict_cursor := b.(evict_cursor); drops := b.(drops) |},
                Some (take s.(len) s.(buf)))
      end
  end.

(** *** The receive loops *)

Section Recv.
Context {E : Type} (recv : E → E * result bytes IpcError) (extract_nonce : bytes → option Z).

Fixpoint recv_match_loop (max_iters : nat) (e : E) (pending : ReplyBuffer) (expected : Z)
    : E * ReplyBuffer * result bytes IpcError :=
  match max_iters with
  | O => (e, pending, Err Timeout)
  | S max_iters =>
      match recv e with
      | (e, Ok frame) =>
          match extract_nonce frame with
          | Some nonce =>
              if nonce =? expected then (e, pending, Ok frame)
              else recv_match_loop max_iters e (push pending nonce frame).1 expected
          | None => recv_match_loop max_iters e pending expected
          end
      | (e, Err WouldBlock) => recv_match_loop max_iters e pending expected
      | (e, Err other) => (e, pending, Err other)
      end
  end.

Definition recv_match_bounded (max_iters : nat) (e : E) (pending : ReplyBuffer) (expected : Z)
    : E * ReplyBuffer * result bytes IpcError :=
  match take_into pending expected MAX_FRAME with
  | (pending, Some frame) => (e, pending, Ok frame)
  | (pending, None) => recv_match_loop max_iters e pending expected
  end.

(** The closure [recv_match_until] retries. *)
Definition recv_match_op (expected : Z) (x : E * ReplyBuffer) : (E * ReplyBuffer) * result bytes IpcError :=
  match recv x.1 with
  | (e, Ok frame) =>
      match extract_nonce frame with
      | Some nonce =>
          if nonce =? expected then ((e, x.2), Ok frame)
          else ((e, (push x.2 nonce frame).1), Err WouldBlock)
      | None => ((e, x.2), Err WouldBlock)
      end
  | (e, Err err) => ((e, x.2), Err err)
  end.

Definition recv_match_until (now_ns : E → option Z) (yield_now : E → E) (fuel : nat) (e : E) (pending : ReplyBuffer)
    (expected deadline_ns : Z) : option ((E * ReplyBuffer) * result bytes IpcError) :=
  match take_into pending expected MAX_FRAME with
  | (pending, Some frame) => Some ((e, pending), Ok frame)
  | (pending, None) =>
      retry_ipc_until (fun x => now_ns x.1) (fun x => (yield_now x.1, x.2)) fuel deadline_ns 0 (recv_match_op expected) (e, pending)
  end.
End Recv.
End Buffer.

(** *** Frames without a nonce *)
Module Stash.
Record FrameSlot := { f_used : bool; f_len : nat; f_buf : bytes }.
Record FrameStash := { f_slots : list FrameSlot; f_cursor : nat; f_drops : Z }.

Section Stash.
Context (PENDING MAX_FRAME : nat).
Definition EMPTY : FrameSlot := {| f_used := false; f_len := 0; f_buf := zeros MAX_FRAME |}.
Definition new : FrameStash := {| f_slots := replicate PENDING EMPTY; f_cursor := 0; f_drops := 0 |}.

Definition f_dropped (b : FrameStash) : FrameStash :=
  {| f_slots := b.(f_slots); f_cursor := b.(f_cursor); f_drops := saturating_add 64 b.(f_drops) 1 |}.
Definition f_fill (s : FrameSlot) (frame : bytes) : FrameSlot :=
  {| f_used := true; f_len := length frame; f_buf := splice s.(f_buf) 0 frame |}.

Fixpoint f_position (f : FrameSlot → bool) (l : list FrameSlot) : option nat :=
  match l with
  | [] => None
  | s :: l => if f s then Some O else S <$> f_position f l
  end.

Definition stash_push (b : FrameStash) (frame : bytes) : FrameStash * result unit PushError :=
  if (PENDING =? 0)%nat then (f_dropped b, Err NoCapacity)
  else if (MAX_FRAME <? length frame)%nat then (f_dropped b, Err TooLarge)
  else match f_position (fun s => negb s.(f_used)) b.(f_slots) with
       | Some i =>
           ({| f_slots := alter (fun s => f_fill s frame) i b.(f_slots); f_cursor := b.(f_cursor); f_drops := b.(f_drops) |}, Ok tt)
       | None =>
           let idx := (b.(f_cursor) mod PENDING)%nat in
           ({| f_slots := alter (fun s => f_fill s frame) idx b.(f_slots); f_cursor := ((b.(f_cursor) + 1) mod PENDING)%nat;
               f_drops := saturating_add 64 b.(f_drops) 1 |}, Ok tt)
       end.

Definition take_into_where (b : FrameStash) (out : nat) (pred : bytes → bool) : FrameStash * option bytes :=
  match f_position (fun s => s.(f_used) && pred (take s.(f_len) s.(f_buf))) b.(f_slots) with
  | None => (b, None)
  | Some i =>
      match b.(f_slots) !! i with
      | None => (b, None)
      | Some s =>
          if (out <? s.(f_len))%nat then (b, None)
          else ({| f_slots := <[i := EMPTY]> b.(f_slots); f_cursor := b.(f_cursor); f_drops := b.(f_drops) |},
                Some (take s.(f_len) s.(f_buf)))
      end
  end.
End Stash.
End Stash.

(** ** Termination of the retry loop *)

Section Termination.
Context {E T : Type} (now_ns : E → option Z) (yield_now : E → E) (op : E → E * result T IpcError).

(** A clock that can be read, does not go back during an attempt, and moves on
    by at least a nanosecond over each yield. *)
Definition clock_advances : Prop :=
  ∀ e, ∃ t, now_ns e = Some t ∧ 0 ≤ t ∧
    (∃ t1, now_ns (op e).1 = Some t1 ∧ t ≤ t1) ∧ (∃ t2, now_ns (yield_now e) = Some t2 ∧ t + 1 ≤ t2).

Lemma land_mask n : 0 ≤ n → Z.land n SPIN_CHECK_MASK = n mod 128.
Proof. intros. change SPIN_CHECK_MASK with (Z.ones 7). by rewrite Z.land_ones. Qed.

(** The attempts that are left: as many as there are nanoseconds to the
    deadline, and on to the next reading of the clock. *)
Definition attempts_left (deadline t spins : Z) : Z :=
  let d := Z.max 0 (deadline - t) in d + (- (spins + d)) mod 128 + 1.

Lemma attempts_decrease deadline t t' spins :
  t + 1 ≤ t' → (t < deadline ∨ spins mod 128 ≠ 0) →
  attempts_left deadline t' (spins + 1) + 1 ≤ attempts_left deadline t spins.
Proof. intros Ht Hd. unfold attempts_left. Z.to_euclidean_division_equations. lia. Qed.

Lemma retry_returns (Hclock : clock_advances) deadline fuel : ∀ spins e t,
  0 ≤ spins → spins + Z.of_nat fuel < 2 ^ 64 → now_ns e = Some t → attempts_left deadline t spins ≤ Z.of_nat fuel →
  ∃ r, retry_ipc_until now_ns yield_now fuel deadline spins op e = Some r.
Proof.
  induction fuel as [|fuel IH]; intros spins e t Hs Hb Ht Hf.
  { unfold attempts_left in Hf. pose proof (Z.mod_pos_bound (- (spins + Z.max 0 (deadline - t))) 128). lia. }
  cbn [retry_ipc_until]. destruct (Hclock e) as (t0 & Ht0 & _ & (t1 & Ht1 & Hle1) & _). assert (t0 = t) as -> by congruence.
  destruct (op e) as [e1 [v|[]]]; [by eauto| |by eauto..]. cbn [fst] in Ht1.
  destruct (Hclock e1) as (? & ? & _ & _ & (t2 & Ht2 & Hle2)). assert (x = t1) as -> by congruence.
  assert (wrapping_add 64 spins 1 = spins + 1) as Hw by (unfold wrapping_add; rewrite Z.mod_small; lia).
  rewrite Hw, land_mask by done.
  assert ((t1 < deadline ∨ spins mod 128 ≠ 0) →
    ∃ r, retry_ipc_until now_ns yield_now fuel deadline (spins + 1) op (yield_now e1) = Some r) as Hnext.
  { intros Hd. apply (IH (spins + 1) (yield_now e1) t2); [lia|lia|done|].
    pose proof (attempts_decrease deadline t t2 spins ltac:(lia) ltac:(lia)). lia. }
  destruct (Z.eqb_spec (spins mod 128) 0); [|by apply Hnext; right]. rewrite Ht1.
  destruct (Z.leb_spec deadline t1); [by eauto|]. apply Hnext. by left.
Qed.

(** C40: the retry loop ends.  When the clock can be read and moves on by at least a
    nanosecond per yield, a loop that starts at time [t] returns within
    [deadline - t + 128] attempts, whatever the operation answers: with its
    value, with its error, or with a timeout. *)
Theorem retry_terminates deadline e t fuel :
  clock_advances → now_ns e = Some t → Z.max 0 (deadline - t) + 128 ≤ Z.of_nat fuel < 2 ^ 64 →
  ∃ e' r, retry_ipc_until now_ns yield_now fuel deadline 0 op e = Some (e', r).
Proof.
  intros Hc Ht Hf. destruct (retry_returns Hc deadline fuel 0 e t) as [[e' r] Hr]; [lia|lia|done| |eauto].
  unfold attempts_left. pose proof (Z.mod_pos_bound (- (0 + Z.max 0 (deadline - t))) 128 ltac:(lia)). lia.
Qed.

(** A value the loop returns is one the operation gave. *)
Lemma retry_value fuel deadline : ∀ spins e e' v,
  retry_ipc_until now_ns yield_now fuel deadline spins op e = Some (e', Ok v) → ∃ e0, op e0 = (e', Ok v).
Proof.
  induction fuel as [|fuel IH]; intros spins e e' v; cbn [retry_ipc_until]; [done|].
  destruct (op e) as [e1 [w|[]]] eqn:Eop; try done; [by intros [= <- <-]; eauto|].
  destruct (_ =? 0); [|apply IH]. destruct (now_ns e1); [|done]. destruct (_ <=? _); [done|apply IH].
Qed.
End Termination.

(** ** The reply buffer as a finite map *)

Section BufferLaws.
Context (PENDING MAX_FRAME : nat).

(** What a slot holds. *)
Definition slot_entry (s : Slot) : list (Z * bytes) := if s.(used) then [(s.(s_nonce), take s.(len) s.(buf))] else [].
Definition contents (b : ReplyBuffer) : list (Z * bytes) := b.(slots) ≫= slot_entry.
Definition replies (b : ReplyBuffer) : gmap Z bytes := list_to_map (contents b).

Definition slot_ok (s : Slot) : Prop := length s.(buf) = MAX_FRAME ∧ (len s ≤ MAX_FRAME)%nat.

Record buffer_inv (b : ReplyBuffer) : Prop := {
  bi_count : length b.(slots) = PENDING;
  bi_slots : Forall slot_ok b.(slots);
  bi_nonces : NoDup (contents b).*1;
  bi_drops : in_width 64 b.(drops)
}.

Lemma position_Some f l i :
  position f l = Some i → ∃ pre s post, l = pre ++ s :: post ∧ length pre = i ∧ f s = true ∧ l !! i = Some s.
Proof.
  revert i. induction l as [|s l IH]; intros i; cbn; [done|]. destruct (f s) eqn:E.
  - intros [= <-]. by exists [], s, l.
  - destruct (position f l) as [k|]; [|done]. intros [= <-]. destruct (IH k eq_refl) as (pre & s' & post & -> & Hl & Hf & Hk).
    exists (s :: pre), s', post. cbn. split_and!; [done|lia|done|done].
Qed.

Lemma position_None f l : position f l = None → Forall (fun s => f s = false) l.
Proof.
  induction l as [|s l IH]; cbn; [constructor|]. destruct (f s) eqn:E; [done|].
  destruct (position f l); [done|]. intros _. constructor; auto.
Qed.

Lemma alter_middle (g : Slot → Slot) pre s post i : length pre = i → alter g i (pre ++ s :: post) = pre ++ g s :: post.
Proof. intros <-. induction pre as [|x pre IH]; [done|]. cbn. f_equal. apply IH. Qed.

Lemma insert_middle (x : Slot) pre s post i : length pre = i → <[i := x]> (pre ++ s :: post) = pre ++ x :: post.
Proof. intros <-. by rewrite insert_app_r_alt, Nat.sub_diag by lia. Qed.

Lemma contents_middle pre s post c d :
  contents {| slots := pre ++ s :: post; evict_cursor := c; drops := d |} =
  (pre ≫= slot_entry) ++ slot_entry s ++ (post ≫= slot_entry).
Proof. unfold contents. cbn [slots]. by rewrite bind_app, bind_cons. Qed.

(** Both sides of a slot that is replaced. *)
Lemma contents_replace pre s s' post c d c' d' :
  ∃ rest, contents {| slots := pre ++ s :: post; evict_cursor := c; drops := d |} ≡ₚ slot_entry s ++ rest ∧
          contents {| slots := pre ++ s' :: post; evict_cursor := c'; drops := d' |} ≡ₚ slot_entry s' ++ rest.
Proof.
  exists ((pre ≫= slot_entry) ++ (post ≫= slot_entry)). rewrite !contents_middle. split; by rewrite Permutation_app_swap_app.
Qed.

Lemma fill_entry s nonce frame : slot_ok s → (length frame ≤ MAX_FRAME)%nat → slot_entry (fill s nonce frame) = [(nonce, frame)].
Proof.
  intros [Hl _] Hf. unfold slot_entry, fill, splice. cbn [used s_nonce len buf]. by rewrite take_0, app_nil_l, take_app_length.
Qed.

Lemma fill_ok s nonce frame : slot_ok s → (length frame ≤ MAX_FRAME)%nat → slot_ok (fill s nonce frame).
Proof.
  intros [Hl _] Hf. split; cbn; [|done]. unfold splice. rewrite take_0, app_nil_l, length_app, length_drop. lia.
Qed.

Lemma contains_spec b nonce : contains b nonce = true ↔ nonce ∈ (contents b).*1.
Proof.
  unfold contains, contents. rewrite existsb_exists, list_elem_of_fmap. split.
  - intros (s & Hin & Hs). simpl_bool. exists (s.(s_nonce), take s.(len) s.(buf)). split; [done|].
    apply list_elem_of_bind. exists s. split; [|by apply list_elem_of_In]. unfold slot_entry. rewrite H. set_solver.
  - intros ([n f] & -> & Hin). apply list_elem_of_bind in Hin as (s & Hs & Hin). exists s. split; [by apply list_elem_of_In|].
    unfold slot_entry in Hs. destruct (used s); [|set_solver]. apply list_elem_of_singleton in Hs as [= -> _]. cbn. apply Z.eqb_refl.
Qed.

Lemma replies_perm l l' : NoDup l.*1 → l ≡ₚ l' → (list_to_map l : gmap Z bytes) = list_to_map l'.
Proof. apply list_to_map_proper. Qed.

Lemma replies_none b nonce : contains b nonce = false → replies b !! nonce = None.
Proof.
  intros Hc. apply not_elem_of_list_to_map. rewrite <- contains_spec. by rewrite Hc.
Qed.

Lemma size_replies b : buffer_inv b → size (replies b) = length (contents b).
Proof. intros Hb. unfold replies. apply map_size_list_to_map, Hb. Qed.

Lemma dropped_inv b : buffer_inv b → buffer_inv (dropped b).
Proof.
  intros [Hc Hs Hn Hd]. split; [done..|]. cbn. unfold in_width, saturating_add, max_of in *. lia.
Qed.

Lemma sat_width d : in_width 64 d → in_width 64 (saturating_add 64 d 1).
Proof. unfold in_width, saturating_add, max_of. lia. Qed.

(** Replacing one slot by a frame under a fresh nonce. *)
Lemma fill_slot pre s post c d c' d' nonce frame :
  let b := {| slots := pre ++ s :: post; evict_cursor := c; drops := d |} in
  let b' := {| slots := pre ++ fill s nonce frame :: post; evict_cursor := c'; drops := d' |} in
  buffer_inv b → (length frame ≤ MAX_FRAME)%nat → contains b nonce = false → in_width 64 d' →
  buffer_inv b' ∧
  replies b' = <[nonce := frame]> (if s.(used) then delete s.(s_nonce) (replies b) else replies b) ∧
  (used s = true → is_Some (replies b !! s.(s_nonce))) ∧
  length (contents b') = (length (contents b) + if used s then 0 else 1)%nat.
Proof.
  intros b b' [Hc Hs Hn Hd] Hf Hnew Hd'. cbn [slots b] in Hs. apply Forall_app in Hs as [Hpre Hs]. apply Forall_cons in Hs as [Hsl Hpost].
  destruct (contents_replace pre s (fill s nonce frame) post c d c' d') as (rest & Hp & Hp'). fold b in Hp. fold b' in Hp'.
  rewrite fill_entry in Hp' by done. assert (nonce ∉ (contents b).*1) as Hfresh by (rewrite <- contains_spec; by rewrite Hnew).
  assert (NoDup (slot_entry s ++ rest).*1) as Hnd by (by rewrite <- Hp).
  assert ((nonce ∉ rest.*1) ∧ NoDup rest.*1) as [Hfr Hndr].
  { rewrite Hp in Hfresh. rewrite fmap_app in Hnd, Hfresh. apply NoDup_app in Hnd. set_solver. }
  assert (NoDup (contents b').*1) as Hnd' by (rewrite Hp'; by apply NoDup_cons).
  assert (replies b' = <[nonce := frame]> (list_to_map rest)) as Hr'.
  { unfold replies. by rewrite (replies_perm _ _ Hnd' Hp'). }
  split_and!.
  - split; [|apply Forall_app; split; [done|]; constructor; [by apply fill_ok|done]|done|done].
    cbn [slots b' b] in *. rewrite length_app in *. cbn in *. lia.
  - rewrite Hr'. f_equal. unfold replies. rewrite (replies_perm _ _ Hn Hp). unfold slot_entry in *.
    destruct (used s); [|done]. cbn [app fmap list_fmap fst list_to_map foldr curry uncurry] in *. rewrite delete_insert_eq, delete_id; [done|].
    apply not_elem_of_list_to_map. by apply NoDup_cons in Hnd as [? _].
  - intros Hu. unfold replies. rewrite (replies_perm _ _ Hn Hp). unfold slot_entry. rewrite Hu. cbn. rewrite lookup_insert_eq. by eexists.
  - rewrite Hp, Hp'. unfold slot_entry. destruct (used s); cbn; lia.
Qed.

Lemma contents_full b : Forall (fun s => negb s.(used) = false) b.(slots) → length (contents b) = length b.(slots).
Proof.
  intros Hf. unfold contents. induction Hf as [|s l Hs _ IH]; [done|]. rewrite bind_cons, length_app, IH.
  unfold slot_entry. apply negb_false_iff in Hs. rewrite Hs. done.
Qed.

(** What [push] does to the replies held and to the drop counter. *)
Definition push_spec (b b' : ReplyBuffer) (nonce : Z) (frame : bytes) (r : result unit PushError) : Prop :=
  let drop := saturating_add 64 b.(drops) 1 in
  match r with
  | Err e =>
      replies b' = replies b ∧ b'.(drops) = drop ∧
      match e with
      | NoCapacity => PENDING = 0%nat
      | TooLarge => (MAX_FRAME < length frame)%nat
      | NonceCollision => is_Some (replies b !! nonce)
      end
  | Ok _ =>
      replies b !! nonce = None ∧
      ((size (replies b) < PENDING)%nat ∧ replies b' = <[nonce := frame]> (replies b) ∧ b'.(drops) = b.(drops) ∨
       size (replies b) = PENDING ∧ b'.(drops) = drop ∧
       ∃ victim, is_Some (replies b !! victim) ∧ replies b' = <[nonce := frame]> (delete victim (replies b)))
  end.

Lemma reply_push_ok b nonce frame :
  buffer_inv b → let r := push PENDING MAX_FRAME b nonce frame in buffer_inv r.1 ∧ push_spec b r.1 nonce frame r.2.
Proof.
  intros Hb r. unfold r, push. clear r.
  destruct (Nat.eqb_spec PENDING 0) as [H0|H0]; [by split; [apply dropped_inv|]|].
  destruct (Nat.ltb_spec MAX_FRAME (length frame)) as [Hf|Hf]; [by split; [apply dropped_inv|]|].
  destruct (contains b nonce) eqn:Ec.
  { split; [by apply dropped_inv|]. split; [done|]. split; [done|]. apply contains_spec, list_elem_of_fmap in Ec as ([n f] & -> & Hin).
    exists f. by apply elem_of_list_to_map_1; [apply Hb|]. }
  pose proof (size_replies b Hb) as Hsz. pose proof (bi_count _ Hb) as Hcount. pose proof (bi_drops _ Hb) as Hdr.
  destruct b as [sl cur dr]. destruct (position (fun s => negb s.(used)) _) as [i|] eqn:Ei.
  - apply position_Some in Ei as (pre & s & post & Hsl & Hi & Hu & _). cbn [slots evict_cursor drops] in *. subst sl.
    apply negb_true_iff in Hu. rewrite alter_middle by done.
    destruct (fill_slot pre s post cur dr cur dr nonce frame Hb Hf Ec Hdr) as (Hb' & Hr & _ & Hlen). rewrite Hu in Hr, Hlen.
    split; [done|]. split; [by apply replies_none|]. left. split; [|done].
    pose proof (size_replies _ Hb') as Hsz'. rewrite Hr, map_size_insert_None in Hsz' by by apply replies_none.
    rewrite Hsz. enough (length (contents {| slots := pre ++ s :: post; evict_cursor := cur; drops := dr |}) < length (pre ++ s :: post))%nat by lia.
    rewrite contents_middle, !length_app. cbn. unfold slot_entry at 2. rewrite Hu. cbn.
    assert (∀ l : list Slot, (length (l ≫= slot_entry) ≤ length l)%nat) as Hle.
    { induction l as [|x l IH]; [done|]. rewrite bind_cons, length_app. unfold slot_entry at 1. destruct (used x); cbn; lia. }
    pose proof (Hle pre). pose proof (Hle post). lia.
  - apply position_None in Ei. cbn [slots evict_cursor drops] in *.
    assert (cur mod PENDING < length sl)%nat as Hlt by (rewrite Hcount; by apply Nat.mod_upper_bound).
    destruct (lookup_lt_is_Some_2 sl _ Hlt) as [s Hs]. apply list_elem_of_split_length in Hs as (pre & post & -> & Hi).
    rewrite alter_middle by done.
    assert (used s = true) as Hu by (apply negb_false_iff; apply Forall_app in Ei as [_ Ei]; by inversion_clear Ei).
    destruct (fill_slot pre s post cur dr ((cur + 1) mod PENDING)%nat (saturating_add 64 dr 1) nonce frame Hb Hf Ec (sat_width _ Hdr))
      as (Hb' & Hr & Hv & _). rewrite Hu in Hr.
    split; [done|]. split; [by apply replies_none|]. right. split; [|split; [done|]].
    + rewrite Hsz, contents_full by done. done.
    + exists s.(s_nonce). split; [by apply Hv|done].
Qed.

Lemma take_ok b nonce out :
  buffer_inv b →
  let r := take_into MAX_FRAME b nonce out in
  buffer_inv r.1 ∧ r.1.(drops) = b.(drops) ∧
  match replies b !! nonce with
  | None => r = (b, None)
  | Some f => if (out <? length f)%nat then r = (b, None)
              else r.2 = Some f ∧ replies r.1 = delete nonce (replies b)
  end.
Proof.
  intros Hb r. unfold r, take_into. clear r. destruct (position _ _) as [i|] eqn:Ei.
  - destruct b as [sl cur dr]. apply position_Some in Ei as (pre & s & post & Hsl & Hi & Hu & Hlk). cbn [slots evict_cursor drops] in *.
    rewrite Hlk. subst sl. simpl_bool. subst nonce.
    pose proof (bi_slots _ Hb) as Hs. cbn [slots] in Hs. pose proof Hs as Hs2.
    apply Forall_app in Hs as [Hpre Hs]. apply Forall_cons in Hs as [[Hbuf Hlen] Hpost].
    destruct (contents_replace pre s (Slot_EMPTY MAX_FRAME) post cur dr cur dr) as (rest & Hp & Hp').
    pose proof (bi_nonces _ Hb) as Hn. assert (NoDup (slot_entry s ++ rest).*1) as Hnd by (by rewrite <- Hp).
    unfold slot_entry in Hp, Hnd. rewrite H in Hp, Hnd. cbn [app fmap list_fmap fst] in Hnd. apply NoDup_cons in Hnd as [Hni Hnd].
    assert (replies {| slots := pre ++ s :: post; evict_cursor := cur; drops := dr |} =
            <[s_nonce s := take (len s) (buf s)]> (list_to_map rest)) as Hr.
    { unfold replies. rewrite (replies_perm _ _ Hn Hp). done. }
    rewrite Hr, lookup_insert_eq. rewrite length_take, Nat.min_l by lia.
    destruct (Nat.ltb_spec out (len s)); [done|]. cbn [fst snd drops]. rewrite insert_middle by done. split; [|split; [done|split; [done|]]].
    + split; [| |by rewrite Hp'|apply Hb].
      * pose proof (bi_count _ Hb) as Hc. cbn [slots] in *. rewrite length_app in *. cbn in *. lia.
      * cbn [slots]. apply Forall_app. split; [done|]. constructor; [|done]. split; cbn; [by rewrite length_zeros|lia].
    + assert (NoDup (contents {| slots := pre ++ Slot_EMPTY MAX_FRAME :: post; evict_cursor := cur; drops := dr |}).*1) as Hnd'
        by (by rewrite Hp').
      rewrite <- Hr. unfold replies at 1. rewrite (replies_perm _ _ Hnd' Hp'). rewrite Hr. cbn [slot_entry Slot_EMPTY used app].
      rewrite delete_insert_eq, delete_id; [done|]. by apply not_elem_of_list_to_map.
  - split; [done|]. split; [done|]. apply position_None in Ei.
    assert (contains b nonce = false) as Hc.
    { unfold contains. apply not_true_iff_false. intros (s & Hin & Hs)%existsb_exists. apply list_elem_of_In in Hin.
      rewrite Forall_forall in Ei. specialize (Ei s Hin). congruence. }
    by rewrite replies_none.
Qed.

Lemma new_inv : buffer_inv (ReplyBuffer_new PENDING MAX_FRAME).
Proof.
  assert (contents (ReplyBuffer_new PENDING MAX_FRAME) = []) as Hc.
  { unfold contents, ReplyBuffer_new. cbn [slots]. induction PENDING as [|n IH]; [done|]. cbn. apply IH. }
  split; [by cbn; rewrite length_replicate| |by rewrite Hc; constructor|done].
  apply Forall_replicate. split; cbn; [by rewrite length_zeros|lia].
Qed.

Lemma replies_length b nonce f : buffer_inv b → replies b !! nonce = Some f → (length f ≤ MAX_FRAME)%nat.
Proof.
  intros Hb Hf%elem_of_list_to_map_2. apply list_elem_of_bind in Hf as (s & Hs & Hin).
  pose proof (proj1 (Forall_forall _ _) (bi_slots _ Hb) s Hin) as [_ Hl]. unfold slot_entry in Hs.
  destruct (used s); [|set_solver]. apply list_elem_of_singleton in Hs as [= _ ->]. rewrite length_take. lia.
Qed.

(** *** Runs of the buffer *)

Inductive buffer_op := OpPush (nonce : Z) (frame : bytes) | OpTake (nonce : Z) (out : nat).

Definition buffer_step (b : ReplyBuffer) (op : buffer_op) : ReplyBuffer :=
  match op with
  | OpPush nonce frame => (push PENDING MAX_FRAME b nonce frame).1
  | OpTake nonce out => (take_into MAX_FRAME b nonce out).1
  end.

Lemma run_inv ops : ∀ b, buffer_inv b → buffer_inv (foldl buffer_step b ops).
Proof.
  induction ops as [|op ops IH]; intros b Hb; [done|]. cbn. apply IH. destruct op as [nonce frame|nonce out].
  - by apply reply_push_ok.
  - by apply (take_ok b nonce out).
Qed.

(** The reply buffer is a bounded map from nonces to frames.  After any run it
    holds at most [PENDING] replies; a push adds its frame, or refuses it
    because it is too large or its nonce is taken, or makes room by giving up one
    held reply when the buffer is full, and every frame that is given up or
    refused is counted; a take returns the frame that was pushed under the nonce
    and removes it, or leaves everything as it was. *)
Theorem reply_buffer_refines_map ops nonce frame out :
  let b := foldl buffer_step (ReplyBuffer_new PENDING MAX_FRAME) ops in
  (size (replies b) ≤ PENDING)%nat ∧
  push_spec b (push PENDING MAX_FRAME b nonce frame).1 nonce frame (push PENDING MAX_FRAME b nonce frame).2 ∧
  match replies b !! nonce with
  | Some f =>
      if (out <? length f)%nat then take_into MAX_FRAME b nonce out = (b, None)
      else (take_into MAX_FRAME b nonce out).2 = Some f ∧
           replies (take_into MAX_FRAME b nonce out).1 = delete nonce (replies b)
  | None => take_into MAX_FRAME b nonce out = (b, None)
  end.
Proof.
  intros b. assert (buffer_inv b) as Hb by (apply run_inv, new_inv). split_and!.
  - rewrite (size_replies b Hb), <- (bi_count _ Hb). unfold contents. clear Hb. induction (slots b) as [|s l IH]; [done|].
    rewrite bind_cons, length_app. unfold slot_entry at 1. destruct (used s); cbn in *; lia.
  - by apply reply_push_ok.
  - by apply (take_ok b nonce out).
Qed.

(** *** The receive loop *)

Section RecvLaws.
Context {E : Type} (recv : E → E * result bytes IpcError) (extract_nonce : bytes → option Z).

(** The frames for other nonces that the loop takes from the inbox. *)
Fixpoint foreign (max_iters : nat) (e : E) (expected : Z) : list (Z * bytes) :=
  match max_iters with
  | O => []
  | S max_iters =>
      match recv e with
      | (e, Ok frame) =>
          match extract_nonce frame with
          | Some nonce => if nonce =? expected then [] else (nonce, frame) :: foreign max_iters e expected
          | None => foreign max_iters e expected
          end
      | (e, Err WouldBlock) => foreign max_iters e expected
      | (e, Err _) => []
      end
  end.

Definition push_all (b : ReplyBuffer) (l : list (Z * bytes)) : ReplyBuffer :=
  foldl (fun b x => (push PENDING MAX_FRAME b x.1 x.2).1) b l.

Lemma foreign_length n : ∀ e expected, (length (foreign n e expected) ≤ n)%nat.
Proof.
  induction n as [|n IH]; intros e expected; [done|]. cbn [foreign]. destruct (recv e) as [e' [frame|[]]]; cbn; try lia.
  - destruct (extract_nonce frame) as [k|]; [destruct (k =? expected); cbn; [lia|pose proof (IH e' expected); lia]|pose proof (IH e' expected); lia].
  - pose proof (IH e' expected). lia.
Qed.

Lemma push_balance b nonce frame :
  buffer_inv b → b.(drops) + 1 < 2 ^ 64 →
  let b' := (push PENDING MAX_FRAME b nonce frame).1 in
  Z.of_nat (size (replies b')) + b'.(drops) = Z.of_nat (size (replies b)) + b.(drops) + 1 ∧ b'.(drops) ≤ b.(drops) + 1.
Proof.
  intros Hb Hd b'. destruct (reply_push_ok b nonce frame Hb) as [_ Hs]. cbn zeta in Hs. fold b' in Hs. unfold push_spec in Hs.
  pose proof (bi_drops _ Hb) as Hw. unfold in_width in Hw.
  assert (saturating_add 64 (drops b) 1 = drops b + 1) as Hsat by (unfold saturating_add, max_of; lia). rewrite Hsat in Hs.
  destruct (push PENDING MAX_FRAME b nonce frame).2 as [[]|err].
  - destruct Hs as [Hn [(_ & -> & ->)|(Hfull & -> & v & Hv & ->)]].
    + rewrite map_size_insert_None by done. lia.
    + rewrite map_size_insert_None by (rewrite lookup_delete_None; by right). destruct Hv as [x Hx].
      rewrite (map_size_delete_Some v) by by eexists. pose proof (map_size_ne_0_lookup_2 (replies b) v ltac:(by eexists)). lia.
  - destruct Hs as (-> & -> & _). lia.
Qed.

Lemma push_all_balance l : ∀ b, buffer_inv b → b.(drops) + Z.of_nat (length l) < 2 ^ 64 →
  buffer_inv (push_all b l) ∧
  Z.of_nat (size (replies (push_all b l))) + (push_all b l).(drops) =
    Z.of_nat (size (replies b)) + b.(drops) + Z.of_nat (length l).
Proof.
  induction l as [|[n f] l IH]; intros b Hb Hd; cbn [length push_all foldl] in *; [split; [done|lia]|].
  destruct (push_balance b n f Hb) as [H1 H2]; [lia|]. destruct (reply_push_ok b n f Hb) as [Hb' _].
  destruct (IH _ Hb') as [H3 H4]; [cbn [fst snd]; lia|]. split; [exact H3|]. unfold push_all in H4. cbn [fst snd] in *. rewrite H4. lia.
Qed.

Lemma loop_shape n : ∀ e pending expected,
  let r := recv_match_loop PENDING MAX_FRAME recv extract_nonce n e pending expected in
  r.1.2 = push_all pending (foreign n e expected) ∧ (∀ f, r.2 = Ok f → extract_nonce f = Some expected).
Proof.
  induction n as [|n IH]; intros e pending expected; [done|]. cbn [recv_match_loop foreign].
  destruct (recv e) as [e' [frame|err]]; [|destruct err; [apply IH|by split..]].
  destruct (extract_nonce frame) as [k|] eqn:Ek; [|apply IH]. destruct (Z.eqb_spec k expected) as [->|]; [|apply (IH e' _ expected)].
  cbn. split; [done|]. by intros f [= <-].
Qed.

(** C39: a reply reaches the caller that waits for it, and no other reply is lost in
    silence.  A reply that is already buffered under the nonce is returned at
    once.  Otherwise a returned frame carries the expected nonce, and every reply
    for another nonce that the loop took from the shared inbox is buffered for
    its owner or counted: what is held and what was dropped add up. *)
Theorem recv_match_accounts n e pending expected :
  buffer_inv pending → pending.(drops) + Z.of_nat n < 2 ^ 64 →
  let '(e', pending', r) := recv_match_bounded PENDING MAX_FRAME recv extract_nonce n e pending expected in
  buffer_inv pending' ∧
  match replies pending !! expected with
  | Some f => r = Ok f ∧ e' = e ∧ replies pending' = delete expected (replies pending) ∧ pending'.(drops) = pending.(drops)
  | None =>
      let others := foreign n e expected in
      (∀ f, r = Ok f → extract_nonce f = Some expected) ∧ pending' = push_all pending others ∧
      Z.of_nat (size (replies pending')) + pending'.(drops) =
        Z.of_nat (size (replies pending)) + pending.(drops) + Z.of_nat (length others)
  end.
Proof.
  intros Hb Hd. unfold recv_match_bounded. destruct (take_ok pending expected MAX_FRAME Hb) as (Hb1 & Hd1 & Ht).
  destruct (replies pending !! expected) as [f|] eqn:Ef.
  - pose proof (replies_length _ _ _ Hb Ef) as Hl. rewrite (proj2 (Nat.ltb_ge _ _)) in Ht by done.
    destruct (take_into MAX_FRAME pending expected MAX_FRAME) as [p o]. cbn [fst snd] in *. destruct Ht as [-> Hr]. done.
  - rewrite Ht. pose proof (loop_shape n e pending expected) as Hs. cbn zeta in Hs.
    destruct (recv_match_loop PENDING MAX_FRAME recv extract_nonce n e pending expected) as [[e' p'] r]. cbn [fst snd] in Hs.
    destruct Hs as [-> Hr]. pose proof (foreign_length n e expected).
    destruct (push_all_balance (foreign n e expected) pending Hb) as [H1 H2]; [lia|]. done.
Qed.

(** Under a deadline too, a returned frame is the buffered reply or carries the
    expected nonce. *)
Theorem recv_until_correlates now_ns yield_now fuel e pending expected deadline x f :
  buffer_inv pending →
  recv_match_until PENDING MAX_FRAME recv extract_nonce now_ns yield_now fuel e pending expected deadline = Some (x, Ok f) →
  replies pending !! expected = Some f ∨ extract_nonce f = Some expected.
Proof.
  intros Hb. unfold recv_match_until. destruct (take_ok pending expected MAX_FRAME Hb) as (_ & _ & Ht).
  destruct (take_into MAX_FRAME pending expected MAX_FRAME) as [p [g|]]; cbn [fst snd] in *.
  - intros [= <- <-]. left. destruct (replies pending !! expected) as [h|]; [|done]. destruct (_ <? _)%nat; [done|].
    by destruct Ht as [[= ->] _].
  - intros ([e0 p0] & Ho)%retry_value. right. unfold recv_match_op in Ho. cbn [fst snd] in Ho.
    destruct (recv e0) as [e1 [frame|err]]; [|done]. destruct (extract_nonce frame) as [k|] eqn:Ek; [|done].
    destruct (Z.eqb_spec k expected) as [->|]; [|done]. by injection Ho as _ <-.
Qed.
End RecvLaws.
End BufferLaws.

(** ** Examples *)

Definition buffer_after (ops : list buffer_op) : ReplyBuffer := foldl (buffer_step 2 8) (ReplyBuffer_new 2 8) ops.

(** The eviction cursor is not the age of a slot: once a take has freed a slot and
    a newer reply has filled it, the next eviction can hit the newest reply while
    an older one stays. *)
Theorem reply_buffer_evicts_newest :
  let b := buffer_after [OpPush 1 [1]; OpPush 2 [2]; OpPush 3 [3]; OpTake 2 8; OpPush 4 [4]] in
  let b' := (push 2 8 b 5 [5]).1 in
  replies b = {[3 := [3]; 4 := [4]]} ∧ replies b' = {[3 := [3]; 5 := [5]]}.
Proof. split; vm_compute; reflexivity. Qed.

Lemma retry_terminates_witness :
  ∃ e' r, retry_ipc_until (fun e => Some (Z.max 0 e)) (fun e => Z.max 0 e + 1) 228 100 0
            (fun e => (Z.max 0 e, Err (A := Z) WouldBlock)) 0 = Some (e', r).
Proof.
  apply (retry_terminates (fun e => Some (Z.max 0 e)) (fun e => Z.max 0 e + 1) (fun e => (Z.max 0 e, Err (A := Z) WouldBlock)) 100 0 0 228).
  - intros e. exists (Z.max 0 e). split; [done|]. split; [lia|]. split; eexists; (split; [reflexivity|]); cbn; lia.
  - reflexivity.
  - lia.
Defined.

(** An inbox that already holds its answers. *)
Definition pop_inbox (inbox : list bytes) : list bytes * result bytes IpcError :=
  match inbox with
  | [] => ([], Err WouldBlock)
  | f :: inbox => (inbox, Ok f)
  end.

Lemma recv_match_accounts_witness :
  let '(e', pending', r) := recv_match_bounded 2 8 pop_inbox head 9 [[7; 1]; [8; 2]; []; [9; 3]; [5; 4]] (ReplyBuffer_new 2 8) 9 in
  buffer_inv 2 8 pending' ∧ replies pending' = {[7 := [7; 1]; 8 := [8; 2]]} ∧ r = Ok [9; 3] ∧ e' = [[5; 4]].
Proof.
  pose proof (recv_match_accounts 2 8 pop_inbox head 9 [[7; 1]; [8; 2]; []; [9; 3]; [5; 4]] (ReplyBuffer_new 2 8) 9 (new_inv 2 8) ltac:(reflexivity)) as H.
  destruct (recv_match_bounded _ _ _ _ _ _ _ _) as [[e' p'] r] eqn:E. destruct H as [Hb _]. split; [exact Hb|].
  vm_compute in E. injection E as <- <- <-. split; [vm_compute; reflexivity|]. done.
Defined.
