(* ===== verification/Metricsd.v ===== *)
(** The metrics service ([source/services/metricsd]) and its wire format
    ([userspace/nexus-metrics]): the runtime limits, the bounded registry of
    series and live spans, the rate limiter, the retention engine that plans the
    write-ahead ring and the roll-ups, the frames, and the service that turns a
    frame into registry operations and writes to the state service.

    The kernel's answer to a non-blocking send and the state service's answer to
    the verifying put are parameters; log and console lines are not modelled. *)

From Stdlib Require Import String.
From S2P Require Import Prelude Bytes Statefs StatefsProto Statefsd.

Abbreviation length := List.length.

(** ** Limits *)

(** The wire limits of [nexus_metrics]. *)
Definition MAX_METRIC_NAME_LEN : Z := 48.
Definition MAX_LABELS_LEN : Z := 192.
Definition MAX_SPAN_NAME_LEN : Z := 48.
Definition MAX_ATTRS_LEN : Z := 192.

Definition MAX_SERIES_TOTAL : Z := 64.
Definition MAX_SERIES_PER_METRIC : Z := 16.
Definition MAX_LIVE_SPANS : Z := 64.
Definition RATE_WINDOW_NS : Z := 1000000000.
Definition RATE_MAX_EVENTS_PER_WINDOW : Z := 64.
Definition RATE_MAX_SUBJECTS : Z := 64.
Definition HIST_BUCKETS_NS : list Z := [1000000; 5000000; 20000000; 100000000].

Record RuntimeLimits := {
  max_series_total : Z;
  max_series_per_metric : Z;
  max_live_spans : Z;
  rate_window_ns : Z;
  rate_max_events_per_window : Z;
  rate_max_subjects : Z;
  max_metric_name_len : Z;
  max_labels_len : Z;
  max_span_name_len : Z;
  max_attrs_len : Z;
  retention_enabled : bool;
  retention_max_segments : Z;
  retention_max_records_per_segment : Z;
  retention_rollup_every : Z;
  retention_best_effort_retries : Z;
  retention_critical_retries : Z;
  retention_ttl_windows : Z;
  retention_gc_batch : Z
}.

Definition RuntimeLimits_default : RuntimeLimits :=
  {| max_series_total := MAX_SERIES_TOTAL; max_series_per_metric := MAX_SERIES_PER_METRIC; max_live_spans := MAX_LIVE_SPANS;
     rate_window_ns := RATE_WINDOW_NS; rate_max_events_per_window := RATE_MAX_EVENTS_PER_WINDOW;
     rate_max_subjects := RATE_MAX_SUBJECTS; max_metric_name_len := MAX_METRIC_NAME_LEN; max_labels_len := MAX_LABELS_LEN;
     max_span_name_len := MAX_SPAN_NAME_LEN; max_attrs_len := MAX_ATTRS_LEN; retention_enabled := true;
     retention_max_segments := 8; retention_max_records_per_segment := 64; retention_rollup_every := 16;
     retention_best_effort_retries := 1; retention_critical_retries := 2; retention_ttl_windows := 12; retention_gc_batch := 2 |}.

Inductive ConfigError := InvalidValue | UnknownKey.

Definition validate (l : RuntimeLimits) : result unit ConfigError :=
  if (l.(max_series_total) =? 0) || (l.(max_series_per_metric) =? 0) || (l.(max_live_spans) =? 0)
     || (l.(rate_window_ns) =? 0) || (l.(rate_max_events_per_window) =? 0) || (l.(rate_max_subjects) =? 0)
     || (l.(max_metric_name_len) =? 0) || (l.(max_labels_len) =? 0) || (l.(max_span_name_len) =? 0) || (l.(max_attrs_len) =? 0)
     || (l.(retention_max_segments) =? 0) || (l.(retention_max_records_per_segment) =? 0) || (l.(retention_rollup_every) =? 0)
     || (l.(retention_best_effort_retries) =? 0) || (l.(retention_critical_retries) =? 0)
     || (l.(retention_ttl_windows) =? 0) || (l.(retention_gc_batch) =? 0)
  then Err InvalidValue
  else if (MAX_METRIC_NAME_LEN <? l.(max_metric_name_len)) || (MAX_LABELS_LEN <? l.(max_labels_len))
          || (MAX_SPAN_NAME_LEN <? l.(max_span_name_len)) || (MAX_ATTRS_LEN <? l.(max_attrs_len))
  then Err InvalidValue
  else Ok tt.

(** ** The registry *)

Inductive RejectReason := InvalidArgs | OverLimit | RateLimited | NotFound.
Inductive MetricKind := Counter | Gauge | Histogram.

#[export] Instance MetricKind_eq_dec : EqDecision MetricKind.
Proof. solve_decision. Defined.

Record HistogramState := { buckets : list Z; count : Z; sum : Z }.
Definition HistogramState_new : HistogramState := {| buckets := replicate 5 0; count := 0; sum := 0 |}.

(** The bucket loop, from bucket [i] on. *)
Fixpoint bucket_index (bounds : list Z) (i : nat) (value : Z) : nat :=
  match bounds with
  | [] => length HIST_BUCKETS_NS
  | b :: bounds => if value <=? b then i else bucket_index bounds (S i) value
  end.

Definition observe (h : HistogramState) (value : Z) : HistogramState :=
  {| buckets := alter (fun n => saturating_add 64 n 1) (bucket_index HIST_BUCKETS_NS 0 value) h.(buckets);
     count := saturating_add 64 h.(count) 1; sum := saturating_add 64 h.(sum) value |}.

Record SeriesEntry := {
  se_sender : Z;
  se_kind : MetricKind;
  se_name : bytes;
  se_labels : bytes;
  counter_value : Z;
  gauge_value : Z;
  histogram : HistogramState
}.

Record LiveSpan := {
  ls_sender : Z;
  ls_span_id : Z;
  ls_trace_id : Z;
  ls_parent : Z;
  ls_name : bytes;
  ls_attrs : bytes;
  ls_start_ns : Z
}.

Record EndedSpan := {
  es_sender : Z;
  es_span_id : Z;
  es_trace_id : Z;
  es_parent : Z;
  es_name : bytes;
  es_start_attrs : bytes;
  es_end_attrs : bytes;
  es_duration_ns : Z;
  es_status : Z
}.

Record Registry := { series : list SeriesEntry; live_spans : list LiveSpan; limits : RuntimeLimits }.

Definition Registry_new_with_limits (l : RuntimeLimits) : Registry := {| series := []; live_spans := []; limits := l |}.

Definition same_series (sender : Z) (kind : MetricKind) (name labels : bytes) (e : SeriesEntry) : bool :=
  (e.(se_sender) =? sender) && bool_decide (e.(se_kind) = kind) && bool_decide (e.(se_name) = name)
  && bool_decide (e.(se_labels) = labels).

(** [iter().position(..)]. *)
Fixpoint position {A} (f : A → bool) (l : list A) : option nat :=
  match l with
  | [] => None
  | x :: l => if f x then Some O else S <$> position f l
  end.

Definition fresh_series (sender : Z) (kind : MetricKind) (name labels : bytes) : SeriesEntry :=
  {| se_sender := sender; se_kind := kind; se_name := name; se_labels := labels; counter_value := 0; gauge_value := 0;
     histogram := HistogramState_new |}.

Definition ensure_series (r : Registry) (sender : Z) (kind : MetricKind) (name labels : bytes)
    : Registry * result nat RejectReason :=
  if bool_decide (name = []) then (r, Err InvalidArgs)
  else if (r.(limits).(max_metric_name_len) <? vlen name) || (r.(limits).(max_labels_len) <? vlen labels) then (r, Err OverLimit)
  else match position (same_series sender kind name labels) r.(series) with
       | Some pos => (r, Ok pos)
       | None =>
           if r.(limits).(max_series_total) <=? vlen r.(series) then (r, Err OverLimit)
           else
             let same_name_count :=
               vlen (List.filter (fun e => bool_decide (e.(se_kind) = kind) && bool_decide (e.(se_name) = name)) r.(series)) in
             if r.(limits).(max_series_per_metric) <=? same_name_count then (r, Err OverLimit)
             else ({| series := r.(series) ++ [fresh_series sender kind name labels]; live_spans := r.(live_spans);
                      limits := r.(limits) |}, Ok (length r.(series)))
       end.

(** The series at an index updated. *)
Definition on_series (r : Registry) (f : SeriesEntry → SeriesEntry) (pos : nat) : Registry :=
  {| series := alter f pos r.(series); live_spans := r.(live_spans); limits := r.(limits) |}.

Definition add_counter (delta : Z) (e : SeriesEntry) : SeriesEntry :=
  {| se_sender := e.(se_sender); se_kind := e.(se_kind); se_name := e.(se_name); se_labels := e.(se_labels);
     counter_value := saturating_add 64 e.(counter_value) delta; gauge_value := e.(gauge_value); histogram := e.(histogram) |}.
Definition put_gauge (value : Z) (e : SeriesEntry) : SeriesEntry :=
  {| se_sender := e.(se_sender); se_kind := e.(se_kind); se_name := e.(se_name); se_labels := e.(se_labels);
     counter_value := e.(counter_value); gauge_value := value; histogram := e.(histogram) |}.
Definition add_sample (value : Z) (e : SeriesEntry) : SeriesEntry :=
  {| se_sender := e.(se_sender); se_kind := e.(se_kind); se_name := e.(se_name); se_labels := e.(se_labels);
     counter_value := e.(counter_value); gauge_value := e.(gauge_value); histogram := observe e.(histogram) value |}.

Definition counter_inc (r : Registry) (sender : Z) (name labels : bytes) (delta : Z) : Registry * result Z RejectReason :=
  match ensure_series r sender Counter name labels with
  | (r, Err e) => (r, Err e)
  | (r, Ok pos) =>
      let r := on_series r (add_counter delta) pos in
      (r, Ok (default 0 (counter_value <$> r.(series) !! pos)))
  end.

Definition gauge_set (r : Registry) (sender : Z) (name labels : bytes) (value : Z) : Registry * result Z RejectReason :=
  match ensure_series r sender Gauge name labels with
  | (r, Err e) => (r, Err e)
  | (r, Ok pos) =>
      let r := on_series r (put_gauge value) pos in
      (r, Ok (default 0 (gauge_value <$> r.(series) !! pos)))
  end.

Definition hist_observe (r : Registry) (sender : Z) (name labels : bytes) (value : Z) : Registry * result (Z * Z) RejectReason :=
  match ensure_series r sender Histogram name labels with
  | (r, Err e) => (r, Err e)
  | (r, Ok pos) =>
      let r := on_series r (add_sample value) pos in
      (r, Ok (default (0, 0) ((fun e => (e.(histogram).(count), e.(histogram).(sum))) <$> r.(series) !! pos)))
  end.

Definition span_id_matches_sender (sender span_id : Z) : bool := Z.shiftr span_id 32 =? Z.land sender 0xffffffff.

Definition same_span (sender span_id : Z) (s : LiveSpan) : bool := (s.(ls_sender) =? sender) && (s.(ls_span_id) =? span_id).

Definition span_start (r : Registry) (sender span_id trace_id parent start_ns : Z) (name attrs : bytes)
    : Registry * result unit RejectReason :=
  if negb (span_id_matches_sender sender span_id) then (r, Err InvalidArgs)
  else if bool_decide (name = []) then (r, Err InvalidArgs)
  else if (r.(limits).(max_span_name_len) <? vlen name) || (r.(limits).(max_attrs_len) <? vlen attrs) then (r, Err OverLimit)
  else if existsb (same_span sender span_id) r.(live_spans) then (r, Err InvalidArgs)
  else if r.(limits).(max_live_spans) <=? vlen r.(live_spans) then (r, Err OverLimit)
  else ({| series := r.(series);
           live_spans := r.(live_spans) ++ [{| ls_sender := sender; ls_span_id := span_id; ls_trace_id := trace_id;
                                              ls_parent := parent; ls_name := name; ls_attrs := attrs; ls_start_ns := start_ns |}];
           limits := r.(limits) |}, Ok tt).

(** [Vec::swap_remove]: the last element takes the place of the removed one. *)
Definition swap_remove {A} (l : list A) (pos : nat) : list A :=
  match last l with
  | Some z => take (length l - 1) (<[pos := z]> l)
  | None => l
  end.

Definition span_end (r : Registry) (sender span_id end_ns status : Z) (attrs : bytes) : Registry * result EndedSpan RejectReason :=
  if r.(limits).(max_attrs_len) <? vlen attrs then (r, Err OverLimit)
  else match position (same_span sender span_id) r.(live_spans) with
       | None => (r, Err NotFound)
       | Some pos =>
           match r.(live_spans) !! pos with
           | None => (r, Err NotFound)
           | Some s =>
               ({| series := r.(series); live_spans := swap_remove r.(live_spans) pos; limits := r.(limits) |},
                Ok {| es_sender := sender; es_span_id := span_id; es_trace_id := s.(ls_trace_id); es_parent := s.(ls_parent);
                      es_name := s.(ls_name); es_start_attrs := s.(ls_attrs); es_end_attrs := attrs;
                      es_duration_ns := saturating_sub end_ns s.(ls_start_ns); es_status := status |})
           end
       end.

(** ** The rate limiter *)

Record RateWindow := { rw_sender : Z; window_start_ns : Z; rw_used : Z }.
Record RateLimiter := { windows : list RateWindow; rl_limits : RuntimeLimits }.

Definition is_limited (r : RateLimiter) (sender now_ns : Z) : RateLimiter * bool :=
  match position (fun w => w.(rw_sender) =? sender) r.(windows) with
  | Some pos =>
      match r.(windows) !! pos with
      | None => (r, false)
      | Some w =>
          let w := if r.(rl_limits).(rate_window_ns) <=? saturating_sub now_ns w.(window_start_ns)
                   then {| rw_sender := w.(rw_sender); window_start_ns := now_ns; rw_used := 0 |} else w in
          if r.(rl_limits).(rate_max_events_per_window) <=? w.(rw_used)
          then ({| windows := <[pos := w]> r.(windows); rl_limits := r.(rl_limits) |}, true)
          else ({| windows := <[pos := {| rw_sender := w.(rw_sender); window_start_ns := w.(window_start_ns);
                                          rw_used := saturating_add 32 w.(rw_used) 1 |}]> r.(windows);
                   rl_limits := r.(rl_limits) |}, false)
      end
  | None =>
      if r.(rl_limits).(rate_max_subjects) <=? vlen r.(windows) then (r, true)
      else ({| windows := r.(windows) ++ [{| rw_sender := sender; window_start_ns := now_ns; rw_used := 1 |}];
               rl_limits := r.(rl_limits) |}, false)
  end.

(** ** The retention engine *)

(** The bytes of a string literal. *)
Definition lit (s : string) : bytes := map (fun a => Z.of_N (Ascii.N_of_ascii a)) (list_ascii_of_string s).

(** [utoa]: the digits written backwards into a buffer of twenty. *)
Fixpoint utoa_loop (fuel : nat) (value : Z) (out : bytes) : bytes :=
  match fuel with
  | O => out
  | S fuel => if value =? 0 then out else utoa_loop fuel (value / 10) (48 + value mod 10 :: out)
  end.
Definition utoa (value : Z) : bytes := if value =? 0 then [48] else utoa_loop 20 value [].

Inductive RetentionEventKind := Metric | Span.

Record RollupFrame := { window_id : Z; rf_bytes : bytes }.
Record RollupWindow := { rw_id : Z; rw_metrics : Z; rw_spans : Z }.

Record RetentionUpdate := {
  wal_slot : Z;
  wal_bytes : bytes;
  rollup_10s : option RollupFrame;
  rollup_60s : option RollupFrame;
  gc_rollup_10s : list Z;
  gc_rollup_60s : list Z
}.

(** The roll-up fields of the engine. *)
Record Rollups := {
  pending_10s_metrics : Z;
  pending_10s_spans : Z;
  pending_60s_metrics : Z;
  pending_60s_spans : Z;
  pending_60s_count : Z;
  rollup_10s_windows : list RollupWindow;
  rollup_60s_windows : list RollupWindow
}.

Record RetentionEngine := {
  re_limits : RuntimeLimits;
  active_segment : Z;
  active_records : Z;
  segments : list bytes;
  metrics_total : Z;
  spans_total : Z;
  rollups : Rollups
}.

Definition RetentionEngine_new (l : RuntimeLimits) : RetentionEngine :=
  {| re_limits := l; active_segment := 0; active_records := 0; segments := replicate (Z.to_nat l.(retention_max_segments)) [];
     metrics_total := 0; spans_total := 0;
     rollups := {| pending_10s_metrics := 0; pending_10s_spans := 0; pending_60s_metrics := 0; pending_60s_spans := 0;
                   pending_60s_count := 0; rollup_10s_windows := []; rollup_60s_windows := [] |} |}.

(** The loop of [trim_rollup_windows], with the identifiers collected so far. *)
Fixpoint trim_rollup_windows (windows : list RollupWindow) (ttl gc_batch : Z) (gc_ids : list Z) : list RollupWindow * list Z :=
  match windows with
  | [] => ([], gc_ids)
  | old :: rest =>
      if (ttl <? vlen windows) && (vlen gc_ids <? gc_batch) then trim_rollup_windows rest ttl gc_batch (gc_ids ++ [old.(rw_id)])
      else (windows, gc_ids)
  end.

Definition encode_rollup_window (kind : bytes) (w : RollupWindow) : bytes :=
  lit "kind=" ++ kind ++ [10] ++ lit "window_id=" ++ utoa w.(rw_id) ++ [10] ++
  lit "metrics_total=" ++ utoa w.(rw_metrics) ++ [10] ++ lit "spans_total=" ++ utoa w.(rw_spans) ++ [10].

(** The event counted in the pending window. *)
Definition count_pending (u : Rollups) (kind : RetentionEventKind) : Rollups :=
  {| pending_10s_metrics :=
       if kind is Metric then saturating_add 64 u.(pending_10s_metrics) 1 else u.(pending_10s_metrics);
     pending_10s_spans := if kind is Span then saturating_add 64 u.(pending_10s_spans) 1 else u.(pending_10s_spans);
     pending_60s_metrics := u.(pending_60s_metrics); pending_60s_spans := u.(pending_60s_spans);
     pending_60s_count := u.(pending_60s_count); rollup_10s_windows := u.(rollup_10s_windows);
     rollup_60s_windows := u.(rollup_60s_windows) |}.

(** A ten-second window closed: its frame and the identifiers collected. *)
Definition roll_10s (l : RuntimeLimits) (u : Rollups) (window_10s : RollupWindow) : Rollups * RollupFrame * list Z :=
  let '(ws, gc) := trim_rollup_windows (u.(rollup_10s_windows) ++ [window_10s]) l.(retention_ttl_windows) l.(retention_gc_batch) [] in
  ({| pending_10s_metrics := 0; pending_10s_spans := 0;
      pending_60s_metrics := saturating_add 64 u.(pending_60s_metrics) window_10s.(rw_metrics);
      pending_60s_spans := saturating_add 64 u.(pending_60s_spans) window_10s.(rw_spans);
      pending_60s_count := saturating_add 32 u.(pending_60s_count) 1;
      rollup_10s_windows := ws; rollup_60s_windows := u.(rollup_60s_windows) |},
   {| window_id := window_10s.(rw_id); rf_bytes := encode_rollup_window (lit "10s") window_10s |}, gc).

(** The sixty-second window, closed with every sixth ten-second one. *)
Definition roll_60s (l : RuntimeLimits) (u : Rollups) (window_10s_id : Z) : Rollups * option RollupFrame * list Z :=
  if 6 <=? u.(pending_60s_count) then
    let window_60s :=
      {| rw_id := window_10s_id / 6; rw_metrics := u.(pending_60s_metrics); rw_spans := u.(pending_60s_spans) |} in
    let '(ws, gc) := trim_rollup_windows (u.(rollup_60s_windows) ++ [window_60s]) l.(retention_ttl_windows) l.(retention_gc_batch) [] in
    ({| pending_10s_metrics := u.(pending_10s_metrics); pending_10s_spans := u.(pending_10s_spans);
        pending_60s_metrics := 0; pending_60s_spans := 0; pending_60s_count := 0;
        rollup_10s_windows := u.(rollup_10s_windows); rollup_60s_windows := ws |},
     Some {| window_id := window_60s.(rw_id); rf_bytes := encode_rollup_window (lit "60s") window_60s |}, gc)
  else (u, None, []).

(** Both roll-ups, due when the number of events is a multiple of
    [retention_rollup_every] ([checked_rem]: never for zero). *)
Definition roll (l : RuntimeLimits) (u : Rollups) (total_events : Z)
    : Rollups * (option RollupFrame * option RollupFrame * list Z * list Z) :=
  if negb (l.(retention_rollup_every) =? 0) && (total_events mod l.(retention_rollup_every) =? 0) then
    let id := total_events / l.(retention_rollup_every) in
    let w := {| rw_id := id; rw_metrics := u.(pending_10s_metrics); rw_spans := u.(pending_10s_spans) |} in
    let '(u, f10, gc10) := roll_10s l u w in
    let '(u, f60, gc60) := roll_60s l u id in
    (u, (Some f10, f60, gc10, gc60))
  else (u, (None, None, [], [])).

(** [append].  [None] stands for a panic: the remainder by a zero number of
    segments, or a segment index out of range. *)
Definition append (e : RetentionEngine) (kind : RetentionEventKind) (record : bytes)
    : option (RetentionEngine * option RetentionUpdate) :=
  let l := e.(re_limits) in
  if negb l.(retention_enabled) then Some (e, None)
  else if l.(retention_max_segments) =? 0 then None
  else
    let slot := e.(active_segment) mod l.(retention_max_segments) in
    match e.(segments) !! Z.to_nat slot with
    | None => None
    | Some seg =>
        let seg := (if e.(active_records) =? 0 then [] else seg) ++ record ++ [10] in
        let records := saturating_add 32 e.(active_records) 1 in
        let metrics := if kind is Metric then saturating_add 64 e.(metrics_total) 1 else e.(metrics_total) in
        let spans := if kind is Span then saturating_add 64 e.(spans_total) 1 else e.(spans_total) in
        let '(u, (f10, f60, gc10, gc60)) :=
          roll l (count_pending e.(rollups) kind) (saturating_add 64 metrics spans) in
        let full := l.(retention_max_records_per_segment) <=? records in
        Some ({| re_limits := l;
                 active_segment := if full then saturating_add 32 e.(active_segment) 1 else e.(active_segment);
                 active_records := if full then 0 else records;
                 segments := <[Z.to_nat slot := seg]> e.(segments);
                 metrics_total := metrics; spans_total := spans; rollups := u |},
              Some {| wal_slot := slot; wal_bytes := seg; rollup_10s := f10; rollup_60s := f60; gc_rollup_10s := gc10;
                      gc_rollup_60s := gc60 |})
    end.

(** ** The wire format of [nexus_metrics] *)

Module Proto.

Definition MAGIC0 : Z := 77.
Definition MAGIC1 : Z := 84.
Definition VERSION : Z := 1.
Definition OP_COUNTER_INC : Z := 1.
Definition OP_GAUGE_SET : Z := 2.
Definition OP_HIST_OBSERVE : Z := 3.
Definition OP_SPAN_START : Z := 4.
Definition OP_SPAN_END : Z := 5.
Definition OP_PING : Z := 6.

Definition STATUS_OK : Z := 0.
Definition STATUS_INVALID_ARGS : Z := 1.
Definition STATUS_OVER_LIMIT : Z := 2.
Definition STATUS_RATE_LIMITED : Z := 3.
Definition STATUS_NOT_FOUND : Z := 4.

Inductive EncodeError := EncInvalidArgs | EncOverLimit.
Inductive DecodeError := DecMalformed | DecOverLimit | DecUnsupported.

Inductive Request :=
  | CounterInc (nonce : Z) (name labels : bytes) (delta : Z)
  | GaugeSet (nonce : Z) (name labels : bytes) (value : Z)
  | HistObserve (nonce : Z) (name labels : bytes) (value : Z)
  | SpanStart (nonce span_id trace_id parent_span_id start_ns : Z) (name attrs : bytes)
  | SpanEnd (nonce span_id end_ns status : Z) (attrs : bytes)
  | Ping (nonce : Z).

(** [u64 as i64], and an [i64] read from eight bytes. *)
Definition as_i64 (x : Z) : Z := if 2 ^ 63 <=? x then x - 2 ^ 64 else x.

(** The validated wrappers of the client: [MetricName], [SpanName],
    [BoundedFields]. *)
Definition MetricName_new (name : bytes) : result bytes EncodeError :=
  if bool_decide (name = []) || (MAX_METRIC_NAME_LEN <? vlen name) then Err EncInvalidArgs else Ok name.
Definition SpanName_new (name : bytes) : result bytes EncodeError :=
  if bool_decide (name = []) || (MAX_SPAN_NAME_LEN <? vlen name) then Err EncInvalidArgs else Ok name.
Definition BoundedFields_labels (data : bytes) : result bytes EncodeError :=
  if MAX_LABELS_LEN <? vlen data then Err EncOverLimit else Ok data.
Definition BoundedFields_attrs (data : bytes) : result bytes EncodeError :=
  if MAX_ATTRS_LEN <? vlen data then Err EncOverLimit else Ok data.

Definition compose_deterministic_id (sender_service_id local : Z) : Z :=
  Z.lor (Z.shiftl (Z.land sender_service_id 0xffffffff) 32) (Z.land local 0xffffffff).

Record DeterministicIdSource := { id_sender : Z; next_local : Z }.
Definition DeterministicIdSource_new (sender : Z) : DeterministicIdSource := {| id_sender := sender; next_local := 1 |}.
Definition next_span_id (s : DeterministicIdSource) : DeterministicIdSource * Z :=
  ({| id_sender := s.(id_sender); next_local := saturating_add 64 s.(next_local) 1 |},
   compose_deterministic_id s.(id_sender) s.(next_local)).
Definition next_trace_id (s : DeterministicIdSource) : DeterministicIdSource * Z :=
  ({| id_sender := s.(id_sender); next_local := saturating_add 64 s.(next_local) 1 |},
   compose_deterministic_id (Z.lxor s.(id_sender) 0x5443525f4944) s.(next_local)).

(** The value is an [i64]; its bytes are those of its residue. *)
Definition encode_metric_value_frame (op nonce : Z) (name labels : bytes) (value : Z) : result bytes EncodeError :=
  if bool_decide (name = []) || (MAX_METRIC_NAME_LEN <? vlen name) then Err EncInvalidArgs
  else if MAX_LABELS_LEN <? vlen labels then Err EncOverLimit
  else Ok ([MAGIC0; MAGIC1; VERSION; op] ++ le_bytes 4 nonce ++ [vlen name] ++ le_bytes 2 (vlen labels) ++
           le_bytes 8 (value mod 2 ^ 64) ++ name ++ labels).

Definition encode_counter_inc (nonce : Z) (name labels : bytes) (delta : Z) : result bytes EncodeError :=
  encode_metric_value_frame OP_COUNTER_INC nonce name labels (as_i64 delta).
Definition encode_gauge_set (nonce : Z) (name labels : bytes) (value : Z) : result bytes EncodeError :=
  encode_metric_value_frame OP_GAUGE_SET nonce name labels value.
Definition encode_hist_observe (nonce : Z) (name labels : bytes) (value : Z) : result bytes EncodeError :=
  encode_metric_value_frame OP_HIST_OBSERVE nonce name labels (as_i64 value).

Definition encode_span_start (nonce span_id trace_id parent_span_id start_ns : Z) (name attrs : bytes) : result bytes EncodeError :=
  if MAX_ATTRS_LEN <? vlen attrs then Err EncOverLimit
  else Ok ([MAGIC0; MAGIC1; VERSION; OP_SPAN_START] ++ le_bytes 4 nonce ++ le_bytes 8 span_id ++ le_bytes 8 trace_id ++
           le_bytes 8 parent_span_id ++ le_bytes 8 start_ns ++ [vlen name] ++ le_bytes 2 (vlen attrs) ++ name ++ attrs).

Definition encode_span_end (nonce span_id end_ns status : Z) (attrs : bytes) : result bytes EncodeError :=
  if MAX_ATTRS_LEN <? vlen attrs then Err EncOverLimit
  else Ok ([MAGIC0; MAGIC1; VERSION; OP_SPAN_END] ++ le_bytes 4 nonce ++ le_bytes 8 span_id ++ le_bytes 8 end_ns ++ [status] ++
           le_bytes 2 (vlen attrs) ++ attrs).

Definition encode_ping (nonce : Z) : bytes := [MAGIC0; MAGIC1; VERSION; OP_PING] ++ le_bytes 4 nonce.

(** The readers index the payload; its length is checked first. *)
Definition read_le (i n : nat) (p : bytes) : Z := le_value (slice i (i + n) p).

Definition decode_metric_value (op nonce : Z) (payload : bytes) : result Request DecodeError :=
  if vlen payload <? 1 + 2 + 8 then Err DecMalformed
  else
    let name_len := read_le 0 1 payload in
    let labels_len := read_le 1 2 payload in
    let value := as_i64 (read_le 3 8 payload) in
    if (name_len =? 0) || (MAX_METRIC_NAME_LEN <? name_len) || (MAX_LABELS_LEN <? labels_len) then Err DecOverLimit
    else if negb (vlen payload =? 11 + name_len + labels_len) then Err DecMalformed
    else
      let name := slice 11 (11 + Z.to_nat name_len) payload in
      let labels := drop (11 + Z.to_nat name_len) payload in
      if op =? OP_COUNTER_INC then (if value <? 0 then Err DecMalformed else Ok (CounterInc nonce name labels value))
      else if op =? OP_GAUGE_SET then Ok (GaugeSet nonce name labels value)
      else if op =? OP_HIST_OBSERVE then (if value <? 0 then Err DecMalformed else Ok (HistObserve nonce name labels value))
      else Err DecUnsupported.

Definition decode_span_start (nonce : Z) (payload : bytes) : result Request DecodeError :=
  if vlen payload <? 8 + 8 + 8 + 8 + 1 + 2 then Err DecMalformed
  else
    let name_len := read_le 32 1 payload in
    let attrs_len := read_le 33 2 payload in
    if (name_len =? 0) || (MAX_SPAN_NAME_LEN <? name_len) || (MAX_ATTRS_LEN <? attrs_len) then Err DecOverLimit
    else if negb (vlen payload =? 35 + name_len + attrs_len) then Err DecMalformed
    else Ok (SpanStart nonce (read_le 0 8 payload) (read_le 8 8 payload) (read_le 16 8 payload) (read_le 24 8 payload)
               (slice 35 (35 + Z.to_nat name_len) payload) (drop (35 + Z.to_nat name_len) payload)).

Definition decode_span_end (nonce : Z) (payload : bytes) : result Request DecodeError :=
  if vlen payload <? 8 + 8 + 1 + 2 then Err DecMalformed
  else
    let attrs_len := read_le 17 2 payload in
    if MAX_ATTRS_LEN <? attrs_len then Err DecOverLimit
    else if negb (vlen payload =? 19 + attrs_len) then Err DecMalformed
    else Ok (SpanEnd nonce (read_le 0 8 payload) (read_le 8 8 payload) (read_le 16 1 payload) (drop 19 payload)).

Definition decode_request (frame : bytes) : result Request DecodeError :=
  if (vlen frame <? 8) || negb (read_le 0 1 frame =? MAGIC0) || negb (read_le 1 1 frame =? MAGIC1) then Err DecMalformed
  else if negb (read_le 2 1 frame =? VERSION) then Err DecUnsupported
  else
    let op := read_le 3 1 frame in
    let nonce := read_le 4 4 frame in
    if (op =? OP_COUNTER_INC) || (op =? OP_GAUGE_SET) || (op =? OP_HIST_OBSERVE) then decode_metric_value op nonce (drop 8 frame)
    else if op =? OP_SPAN_START then decode_span_start nonce (drop 8 frame)
    else if op =? OP_SPAN_END then decode_span_end nonce (drop 8 frame)
    else if op =? OP_PING then (if negb (vlen frame =? 8) then Err DecMalformed else Ok (Ping nonce))
    else Err DecUnsupported.

Definition encode_status_response (op nonce status : Z) : bytes :=
  [MAGIC0; MAGIC1; VERSION; Z.lor op 0x80; status] ++ le_bytes 4 nonce.

Definition decode_status_response (frame : bytes) (expected_op expected_nonce : Z) : result Z DecodeError :=
  if negb (vlen frame =? 9) || negb (read_le 0 1 frame =? MAGIC0) || negb (read_le 1 1 frame =? MAGIC1)
     || negb (read_le 2 1 frame =? VERSION) then Err DecMalformed
  else if negb (read_le 3 1 frame =? Z.lor expected_op 0x80) then Err DecUnsupported
  else if negb (read_le 5 4 frame =? expected_nonce) then Err DecMalformed
  else Ok (read_le 4 1 frame).

End Proto.

(** ** The service ([os_lite.rs]) *)

Module Service.

Import Proto.

(** What the sink does outside: a non-blocking send of a frame to the state
    service, accepted or not, and the verifying put of the proof client. *)
Inductive Effect := Sent (frame : bytes) (accepted : bool) | ProofPut (key value : bytes) (ok : bool).

Record RetentionSink := {
  sk_limits : RuntimeLimits;
  engine : RetentionEngine;
  client : bool;
  proof_client : bool;
  wal_proof_emitted : bool;
  wal_verified_emitted : bool;
  rollup_10s_proof_emitted : bool;
  rollup_60s_proof_emitted : bool;
  effects : list Effect
}.

(** The sink with and without its clients: [client] and [proof_client] say
    whether the slots could be opened. *)
Definition RetentionSink_new (l : RuntimeLimits) (has_client has_proof : bool) : RetentionSink :=
  {| sk_limits := l; engine := RetentionEngine_new l; client := l.(retention_enabled) && has_client;
     proof_client := l.(retention_enabled) && has_proof; wal_proof_emitted := false; wal_verified_emitted := false;
     rollup_10s_proof_emitted := false; rollup_60s_proof_emitted := false; effects := [] |}.

Definition log_effect (s : RetentionSink) (x : Effect) : RetentionSink :=
  {| sk_limits := s.(sk_limits); engine := s.(engine); client := s.(client); proof_client := s.(proof_client);
     wal_proof_emitted := s.(wal_proof_emitted); wal_verified_emitted := s.(wal_verified_emitted);
     rollup_10s_proof_emitted := s.(rollup_10s_proof_emitted); rollup_60s_proof_emitted := s.(rollup_60s_proof_emitted);
     effects := s.(effects) ++ [x] |}.
Definition set_engine (s : RetentionSink) (e : RetentionEngine) : RetentionSink :=
  {| sk_limits := s.(sk_limits); engine := e; client := s.(client); proof_client := s.(proof_client);
     wal_proof_emitted := s.(wal_proof_emitted); wal_verified_emitted := s.(wal_verified_emitted);
     rollup_10s_proof_emitted := s.(rollup_10s_proof_emitted); rollup_60s_proof_emitted := s.(rollup_60s_proof_emitted);
     effects := s.(effects) |}.
Definition set_flags (s : RetentionSink) (wal verified r10 r60 : bool) : RetentionSink :=
  {| sk_limits := s.(sk_limits); engine := s.(engine); client := s.(client); proof_client := s.(proof_client);
     wal_proof_emitted := wal; wal_verified_emitted := verified; rollup_10s_proof_emitted := r10; rollup_60s_proof_emitted := r60;
     effects := s.(effects) |}.

Definition WAL_KEY : bytes := lit "/state/observability/metricsd/wal/seg_".
Definition ROLLUP_10S_KEY : bytes := lit "/state/observability/metricsd/rollup/10s/w_".
Definition ROLLUP_60S_KEY : bytes := lit "/state/observability/metricsd/rollup/60s/w_".

Section sink.
(** The kernel's answer to the next send and the state service's answer to the
    next verifying put, given what was sent before. *)
Variable accepts : list Effect → bytes → bool.
Variable proof_put : list Effect → bytes → bytes → bool.

Definition send_nonblocking (s : RetentionSink) (frame : bytes) : RetentionSink * bool :=
  let ok := accepts s.(effects) frame in (log_effect s (Sent frame ok), ok).

Definition statefs_put_nonblocking (s : RetentionSink) (key value : bytes) : RetentionSink * bool :=
  match encode_put_request key value with
  | Err _ => (s, false)
  | Ok frame => send_nonblocking s frame
  end.
Definition statefs_delete_nonblocking (s : RetentionSink) (key : bytes) : RetentionSink * bool :=
  match encode_key_only_request OP_DEL key with
  | Err _ => (s, false)
  | Ok frame => send_nonblocking s frame
  end.

Fixpoint put_with_retries (s : RetentionSink) (key value : bytes) (retries : nat) : RetentionSink * bool :=
  match retries with
  | O => (s, false)
  | S retries =>
      let '(s, ok) := statefs_put_nonblocking s key value in
      if ok then (s, true) else put_with_retries s key value retries
  end.

Definition delete_all (s : RetentionSink) (prefix : bytes) (ids : list Z) : RetentionSink :=
  foldl (fun s id => (statefs_delete_nonblocking s (prefix ++ utoa id)).1) s ids.

(** One verifying put until it has succeeded once. *)
Definition verify_wal (s : RetentionSink) (key value : bytes) : RetentionSink :=
  if negb s.(wal_verified_emitted) && s.(proof_client) then
    let ok := proof_put s.(effects) key value in
    let s := log_effect s (ProofPut key value ok) in
    if ok then set_flags s s.(wal_proof_emitted) true s.(rollup_10s_proof_emitted) s.(rollup_60s_proof_emitted) else s
  else s.

Definition write_rollup_10s (s : RetentionSink) (f : RollupFrame) : RetentionSink :=
  let s := (put_with_retries s (ROLLUP_10S_KEY ++ utoa f.(window_id)) f.(rf_bytes)
              (Z.to_nat s.(sk_limits).(retention_best_effort_retries))).1 in
  set_flags s s.(wal_proof_emitted) s.(wal_verified_emitted) true s.(rollup_60s_proof_emitted).
Definition write_rollup_60s (s : RetentionSink) (f : RollupFrame) : RetentionSink :=
  let s := (put_with_retries s (ROLLUP_60S_KEY ++ utoa f.(window_id)) f.(rf_bytes)
              (Z.to_nat s.(sk_limits).(retention_critical_retries))).1 in
  set_flags s s.(wal_proof_emitted) s.(wal_verified_emitted) s.(rollup_10s_proof_emitted) true.

(** [RetentionSink::record]; [None] is the panic of the engine. *)
Definition record (s : RetentionSink) (kind : RetentionEventKind) (rec : bytes) : option RetentionSink :=
  match append s.(engine) kind rec with
  | None => None
  | Some (e, None) => Some (set_engine s e)
  | Some (e, Some u) =>
      let s := set_engine s e in
      if negb s.(client) then Some s
      else
        let retries :=
          match kind with
          | Metric => s.(sk_limits).(retention_best_effort_retries)
          | Span => s.(sk_limits).(retention_critical_retries)
          end in
        let key := WAL_KEY ++ utoa u.(wal_slot) in
        let '(s, wal_ok) := put_with_retries s key u.(wal_bytes) (Z.to_nat retries) in
        if negb wal_ok then Some s
        else
          let s := set_flags s true s.(wal_verified_emitted) s.(rollup_10s_proof_emitted) s.(rollup_60s_proof_emitted) in
          let s := verify_wal s key u.(wal_bytes) in
          let s := from_option (write_rollup_10s s) s u.(rollup_10s) in
          let s := delete_all s ROLLUP_10S_KEY u.(gc_rollup_10s) in
          let s := from_option (write_rollup_60s s) s u.(rollup_60s) in
          Some (delete_all s ROLLUP_60S_KEY u.(gc_rollup_60s))
  end.

(** *** Records *)

Definition as_utf8_or_placeholder (b : bytes) : bytes :=
  match from_utf8 b with Some t => t | None => lit "<bin>" end.

(** Line breaks replaced; the bytes 10 and 13 are whole characters in UTF-8. *)
Definition escape_byte (b : Z) : bytes :=
  if b =? 10 then [92; 110] else if b =? 13 then [92; 114] else [b].
Definition escaped_attrs_or_placeholder (b : bytes) : bytes :=
  match from_utf8 b with Some t => mjoin (escape_byte <$> t) | None => lit "<bin>" end.

(** An [i64] in decimal. *)
Definition itoa (v : Z) : bytes := if v <? 0 then 45 :: utoa (- v) else utoa v.

Definition metric_counter_record (name : bytes) (value : Z) : bytes :=
  lit "metric counter name=" ++ as_utf8_or_placeholder name ++ lit " value=" ++ utoa value.
Definition metric_gauge_record (name : bytes) (value : Z) : bytes :=
  lit "metric gauge name=" ++ as_utf8_or_placeholder name ++ lit " value=" ++ itoa value.
Definition metric_hist_record (name : bytes) (count sum : Z) : bytes :=
  lit "metric histogram name=" ++ as_utf8_or_placeholder name ++ lit " count=" ++ utoa count ++ lit " sum=" ++ utoa sum.
Definition span_end_record (e : EndedSpan) : bytes :=
  lit "span end name=" ++ as_utf8_or_placeholder e.(es_name) ++ lit " parent_span_id=" ++ utoa e.(es_parent) ++
  lit " duration_ns=" ++ utoa e.(es_duration_ns) ++ lit " status=" ++ utoa e.(es_status) ++
  lit " start_attrs=" ++ escaped_attrs_or_placeholder e.(es_start_attrs) ++
  lit " end_attrs=" ++ escaped_attrs_or_placeholder e.(es_end_attrs).

(** *** Frames *)

Record State := { st_registry : Registry; st_limiter : RateLimiter; st_retention : RetentionSink }.

Definition req_op_nonce (r : Request) : Z * Z :=
  match r with
  | CounterInc nonce _ _ _ => (OP_COUNTER_INC, nonce)
  | GaugeSet nonce _ _ _ => (OP_GAUGE_SET, nonce)
  | HistObserve nonce _ _ _ => (OP_HIST_OBSERVE, nonce)
  | SpanStart nonce _ _ _ _ _ _ => (OP_SPAN_START, nonce)
  | SpanEnd nonce _ _ _ _ => (OP_SPAN_END, nonce)
  | Ping nonce => (OP_PING, nonce)
  end.

Definition reject_status (r : RejectReason) : Z :=
  match r with
  | InvalidArgs => STATUS_INVALID_ARGS
  | OverLimit => STATUS_OVER_LIMIT
  | RateLimited => STATUS_RATE_LIMITED
  | NotFound => STATUS_NOT_FOUND
  end.
Definition reject_rsp (op nonce : Z) (r : RejectReason) : bytes * option Z :=
  (encode_status_response op nonce (reject_status r), Some (reject_status r)).

Definition with_registry (s : State) (r : Registry) : State :=
  {| st_registry := r; st_limiter := s.(st_limiter); st_retention := s.(st_retention) |}.
Definition with_limiter (s : State) (l : RateLimiter) : State :=
  {| st_registry := s.(st_registry); st_limiter := l; st_retention := s.(st_retention) |}.

(** A registry result turned into a response, with the record it leaves in the
    retention log. *)
Definition answer_op {A} (s : State) (op nonce : Z) (res : Registry * result A RejectReason)
    (rec : A → option (RetentionEventKind * bytes)) : option (State * (bytes * option Z)) :=
  let '(r, res) := res in
  let s := with_registry s r in
  match res with
  | Err e => Some (s, reject_rsp op nonce e)
  | Ok v =>
      match rec v with
      | None => Some (s, (encode_status_response op nonce STATUS_OK, None))
      | Some (kind, line) =>
          match record s.(st_retention) kind line with
          | None => None
          | Some sink =>
              Some ({| st_registry := s.(st_registry); st_limiter := s.(st_limiter); st_retention := sink |},
                    (encode_status_response op nonce STATUS_OK, None))
          end
      end
  end.

Definition serve (s : State) (sender : Z) (req : Request) : option (State * (bytes * option Z)) :=
  let r := s.(st_registry) in
  match req with
  | CounterInc nonce name labels delta =>
      answer_op s OP_COUNTER_INC nonce (counter_inc r sender name labels delta)
        (fun v => Some (Metric, metric_counter_record name v))
  | GaugeSet nonce name labels value =>
      answer_op s OP_GAUGE_SET nonce (gauge_set r sender name labels value)
        (fun v => Some (Metric, metric_gauge_record name v))
  | HistObserve nonce name labels value =>
      answer_op s OP_HIST_OBSERVE nonce (hist_observe r sender name labels value)
        (fun '(c, t) => Some (Metric, metric_hist_record name c t))
  | SpanStart nonce span_id trace_id parent start_ns name attrs =>
      answer_op s OP_SPAN_START nonce (span_start r sender span_id trace_id parent start_ns name attrs) (fun _ => None)
  | SpanEnd nonce span_id end_ns status attrs =>
      answer_op s OP_SPAN_END nonce (span_end r sender span_id end_ns status attrs)
        (fun e => Some (Span, span_end_record e))
  | Ping nonce => Some (s, (encode_status_response OP_PING nonce STATUS_OK, None))
  end.

Definition is_ping (r : Request) : bool := if r is Ping _ then true else false.

Definition handle_frame (s : State) (sender now_ns : Z) (frame : bytes) : option (State * (bytes * option Z)) :=
  let op := default 0 (frame !! 3%nat) in
  match decode_request frame with
  | Err DecMalformed => Some (s, (encode_status_response op 0 STATUS_INVALID_ARGS, Some STATUS_INVALID_ARGS))
  | Err DecOverLimit => Some (s, (encode_status_response op 0 STATUS_OVER_LIMIT, Some STATUS_OVER_LIMIT))
  | Err DecUnsupported => Some (s, (encode_status_response op 0 STATUS_INVALID_ARGS, Some STATUS_INVALID_ARGS))
  | Ok req =>
      if is_ping req then serve s sender req
      else
        let '(l, limited) := is_limited s.(st_limiter) sender now_ns in
        let s := with_limiter s l in
        if limited then
          let '(op, nonce) := req_op_nonce req in
          Some (s, (encode_status_response op nonce STATUS_RATE_LIMITED, Some STATUS_RATE_LIMITED))
        else serve s sender req
  end.

(** *** The loop *)

Record Loop := {
  lp_state : State;
  reject_invalid_args_emitted : bool;
  reject_over_limit_emitted : bool;
  reject_rate_limited_emitted : bool;
  fallback_now : Z
}.

(** One turn of [service_main_loop] on a received request: the response and the
    status whose reject marker is printed, if any. *)
Definition turn (lp : Loop) (frame : bytes) (sender : Z) (nsec : option Z) : option (Loop * bytes * option Z) :=
  let fallback := if nsec is None then saturating_add 64 lp.(fallback_now) 1 else lp.(fallback_now) in
  let now := default fallback nsec in
  match handle_frame lp.(lp_state) sender now frame with
  | None => None
  | Some (s, (rsp, status)) =>
      let fires st emitted := bool_decide (status = Some st) && negb emitted in
      let ia := fires STATUS_INVALID_ARGS lp.(reject_invalid_args_emitted) in
      let ol := fires STATUS_OVER_LIMIT lp.(reject_over_limit_emitted) in
      let rl := fires STATUS_RATE_LIMITED lp.(reject_rate_limited_emitted) in
      Some ({| lp_state := s; reject_invalid_args_emitted := lp.(reject_invalid_args_emitted) || ia;
               reject_over_limit_emitted := lp.(reject_over_limit_emitted) || ol;
               reject_rate_limited_emitted := lp.(reject_rate_limited_emitted) || rl; fallback_now := fallback |},
            rsp, if ia || ol || rl then status else None)
  end.

End sink.

(** The service at start, with the limits it runs under. *)
Definition State_new (l : RuntimeLimits) (has_client has_proof : bool) : State :=
  {| st_registry := Registry_new_with_limits l; st_limiter := {| windows := []; rl_limits := l |};
     st_retention := RetentionSink_new l has_client has_proof |}.

End Service.

(** ** Decimal numbers *)

Module Digits.

Definition is_digit (b : Z) : Prop := 48 ≤ b ≤ 57.
Definition dec_value (l : bytes) : Z := foldl (fun acc b => acc * 10 + (b - 48)) 0 l.

Lemma utoa_loop_digits fuel v out : Forall is_digit out → Forall is_digit (utoa_loop fuel v out).
Proof.
  revert v out. induction fuel as [|fuel IH]; intros v out Ho; simpl; [done|]. destruct (v =? 0); [done|].
  apply IH. constructor; [|done]. unfold is_digit. pose proof (Z.mod_pos_bound v 10 ltac:(lia)). lia.
Qed.

Lemma utoa_loop_length fuel v out : (length out ≤ length (utoa_loop fuel v out) ≤ fuel + length out)%nat.
Proof.
  revert v out. induction fuel as [|fuel IH]; intros v out; simpl; [lia|]. destruct (v =? 0); [lia|].
  specialize (IH (v / 10) (48 + v mod 10 :: out)). simpl in IH. lia.
Qed.

Lemma utoa_digits v : Forall is_digit (utoa v) ∧ (length (utoa v) ≤ 20)%nat.
Proof.
  unfold utoa. destruct (v =? 0).
  - split; [repeat constructor; unfold is_digit; lia|simpl; lia].
  - split; [by apply utoa_loop_digits|]. pose proof (utoa_loop_length 20 v []) as Hl. cbn [length] in Hl. lia.
Qed.

Lemma utoa_loop_value fuel v out :
  0 ≤ v < 10 ^ Z.of_nat fuel →
  foldl (fun acc b => acc * 10 + (b - 48)) 0 (utoa_loop fuel v out) = foldl (fun acc b => acc * 10 + (b - 48)) v out.
Proof.
  revert v out. induction fuel as [|fuel IH]; intros v out Hv; simpl.
  - by replace v with 0 by (change (10 ^ Z.of_nat 0) with 1 in Hv; lia).
  - destruct (Z.eqb_spec v 0) as [->|Hz]; [done|]. rewrite Nat2Z.inj_succ, Z.pow_succ_r in Hv by lia.
    rewrite IH.
    + simpl. f_equal. pose proof (Z.div_mod v 10 ltac:(lia)). lia.
    + split; [apply Z.div_pos; lia|]. apply Z.div_lt_upper_bound; lia.
Qed.

(** The digits of a 64-bit number denote it. *)
Lemma utoa_value v : in_width 64 v → dec_value (utoa v) = v.
Proof.
  intros Hv. unfold dec_value, utoa. destruct (Z.eqb_spec v 0) as [->|]; [done|].
  rewrite utoa_loop_value; [done|]. unfold in_width in Hv. change (10 ^ Z.of_nat 20) with (10 ^ 20). lia.
Qed.

Lemma ascii_utf8 l : Forall (fun b => 0 ≤ b ≤ 127) l → utf8_valid l = true.
Proof.
  induction 1 as [|b l Hb _ IH]; [done|]. simpl. unfold within.
  rewrite (proj2 (Z.leb_le 0 b)), (proj2 (Z.leb_le b 127)) by lia. done.
Qed.

End Digits.

(** ** Frames: the server reads what the client wrote *)

Module ProtoProps.

Import Proto.

(** The frames the methods of [MetricsClient] send. *)
Definition client_frame (r : Request) : result bytes EncodeError :=
  let names name k := match name with Ok n => k n | Err e => Err e end in
  match r with
  | CounterInc nonce name labels delta =>
      names (MetricName_new name) (fun name => names (BoundedFields_labels labels) (fun labels => encode_counter_inc nonce name labels delta))
  | GaugeSet nonce name labels value =>
      names (MetricName_new name) (fun name => names (BoundedFields_labels labels) (fun labels => encode_gauge_set nonce name labels value))
  | HistObserve nonce name labels value =>
      names (MetricName_new name) (fun name => names (BoundedFields_labels labels) (fun labels => encode_hist_observe nonce name labels value))
  | SpanStart nonce span_id trace_id parent start_ns name attrs =>
      names (SpanName_new name)
        (fun name => names (BoundedFields_attrs attrs) (fun attrs => encode_span_start nonce span_id trace_id parent start_ns name attrs))
  | SpanEnd nonce span_id end_ns status attrs =>
      names (BoundedFields_attrs attrs) (fun attrs => encode_span_end nonce span_id end_ns status attrs)
  | Ping nonce => Ok (encode_ping nonce)
  end.

Lemma read_le_skip a l i n : (length a ≤ i)%nat → read_le i n (a ++ l) = read_le (i - length a) n l.
Proof.
  intros. unfold read_le, slice. rewrite drop_app_ge by done.
  by replace (i - length a + n - (i - length a))%nat with (i + n - i)%nat by lia.
Qed.

Lemma read_le_here n x l : in_width (8 * Z.of_nat n) x → read_le 0 n (le_bytes n x ++ l) = x.
Proof.
  intros Hx. unfold read_le, slice. rewrite drop_0, Nat.sub_0_r, Nat.add_0_l.
  rewrite <- (le_bytes_length n x) at 1. by rewrite take_app_length, le_value_bytes.
Qed.

Lemma read_byte b l : read_le 0 1 ([b] ++ l) = b.
Proof. unfold read_le, slice. simpl. lia. Qed.

Lemma drop_skip {A} (a l : list A) i : (length a ≤ i)%nat → drop i (a ++ l) = drop (i - length a) l.
Proof. apply drop_app_ge. Qed.

Lemma slice_here {A} (a l : list A) : slice 0 (length a) (a ++ l) = a.
Proof. unfold slice. by rewrite drop_0, Nat.sub_0_r, take_app_length. Qed.

Lemma slice_skip {A} (a l : list A) i j :
  (length a ≤ i)%nat → slice i j (a ++ l) = slice (i - length a) (j - length a) l.
Proof.
  intros. unfold slice. rewrite drop_app_ge by done.
  by replace (j - length a - (i - length a))%nat with (j - i)%nat by lia.
Qed.

(** Reading past the fields in front. *)
Ltac skip_fields :=
  repeat (rewrite read_le_skip by (rewrite ?le_bytes_length; cbn [length]; lia);
          rewrite ?le_bytes_length; cbn [length Nat.sub]).

Lemma metrics_header op nonce payload :
  is_byte op → in_width 32 nonce →
  let f := [MAGIC0; MAGIC1; VERSION; op] ++ le_bytes 4 nonce ++ payload in
  vlen f = 8 + vlen payload ∧ read_le 0 1 f = MAGIC0 ∧ read_le 1 1 f = MAGIC1 ∧ read_le 2 1 f = VERSION ∧
  read_le 3 1 f = op ∧ read_le 4 4 f = nonce ∧ drop 8 f = payload ∧ f !! 3%nat = Some op.
Proof.
  intros Hop Hn f. subst f. split_and!; try done.
  - rewrite !vlen_app, vlen_le_bytes. unfold vlen. simpl. lia.
  - unfold read_le, slice. simpl. lia.
  - skip_fields. by apply read_le_here.
Qed.

Definition small_request (r : Request) : Prop :=
  match r with
  | CounterInc nonce name labels v | HistObserve nonce name labels v =>
      in_width 32 nonce ∧ 0 < vlen name ≤ MAX_METRIC_NAME_LEN ∧ vlen labels ≤ MAX_LABELS_LEN ∧ 0 ≤ v < 2 ^ 63
  | GaugeSet nonce name labels v =>
      in_width 32 nonce ∧ 0 < vlen name ≤ MAX_METRIC_NAME_LEN ∧ vlen labels ≤ MAX_LABELS_LEN ∧ - 2 ^ 63 ≤ v < 2 ^ 63
  | SpanStart nonce span_id trace_id parent start_ns name attrs =>
      in_width 32 nonce ∧ in_width 64 span_id ∧ in_width 64 trace_id ∧ in_width 64 parent ∧ in_width 64 start_ns ∧
      0 < vlen name ≤ MAX_SPAN_NAME_LEN ∧ vlen attrs ≤ MAX_ATTRS_LEN
  | SpanEnd nonce span_id end_ns status attrs =>
      in_width 32 nonce ∧ in_width 64 span_id ∧ in_width 64 end_ns ∧ is_byte status ∧ vlen attrs ≤ MAX_ATTRS_LEN
  | Ping nonce => in_width 32 nonce
  end.

Lemma as_i64_mod v : - 2 ^ 63 ≤ v < 2 ^ 63 → as_i64 (v mod 2 ^ 64) = v.
Proof.
  intros. unfold as_i64. destruct (Z_le_gt_dec 0 v).
  - rewrite Z.mod_small by lia. destruct (Z.leb_spec (2 ^ 63) v); lia.
  - replace (v mod 2 ^ 64) with (v + 2 ^ 64).
    + destruct (Z.leb_spec (2 ^ 63) (v + 2 ^ 64)); lia.
    + apply (Z.mod_unique _ _ (-1)); lia.
Qed.

Lemma name_nonempty (name : bytes) : 0 < vlen name → bool_decide (name = []) = false.
Proof. intros. apply bool_decide_eq_false. intros ->. unfold vlen in *. simpl in *. lia. Qed.

(** The payload of a metric frame, with the value as the server sees it. *)
Lemma decode_metric_payload op nonce name labels v :
  0 < vlen name ≤ MAX_METRIC_NAME_LEN → vlen labels ≤ MAX_LABELS_LEN →
  - 2 ^ 63 ≤ v < 2 ^ 63 →
  decode_metric_value op nonce ([vlen name] ++ le_bytes 2 (vlen labels) ++ le_bytes 8 (v mod 2 ^ 64) ++ name ++ labels) =
  (if op =? OP_COUNTER_INC then (if v <? 0 then Err DecMalformed else Ok (CounterInc nonce name labels v))
   else if op =? OP_GAUGE_SET then Ok (GaugeSet nonce name labels v)
   else if op =? OP_HIST_OBSERVE then (if v <? 0 then Err DecMalformed else Ok (HistObserve nonce name labels v))
   else Err DecUnsupported).
Proof.
  intros Hn Hl Hv. unfold decode_metric_value. rewrite !vlen_app, !vlen_le_bytes. change (vlen [vlen name]) with 1.
  unfold MAX_METRIC_NAME_LEN, MAX_LABELS_LEN in *. pose proof (vlen_nonneg labels).
  destruct (Z.ltb_spec (1 + (Z.of_nat 2 + (Z.of_nat 8 + (vlen name + vlen labels)))) (1 + 2 + 8)); [lia|].
  rewrite read_byte.
  match goal with |- context [read_le 1 2 ?p] => set (P := p) end.
  assert (Hl2 : read_le 1 2 P = vlen labels).
  { unfold P. skip_fields. apply (read_le_here 2). unfold in_width. lia. }
  assert (Hv8 : read_le 3 8 P = v mod 2 ^ 64).
  { unfold P. skip_fields. apply (read_le_here 8), Z.mod_pos_bound. lia. }
  rewrite Hl2, Hv8, as_i64_mod by done. subst P. clear Hl2 Hv8.
  destruct (Z.eqb_spec (vlen name) 0); [lia|]. destruct (Z.ltb_spec 48 (vlen name)); [lia|].
  destruct (Z.ltb_spec 192 (vlen labels)); [lia|]. cbn [orb].
  rewrite (proj2 (Z.eqb_eq _ _)) by lia. cbn [negb].
  rewrite !slice_skip, !drop_skip by (rewrite ?le_bytes_length; cbn [length]; lia).
  rewrite !le_bytes_length. cbn [length]. unfold vlen in *. rewrite Nat2Z.id.
  replace (11 - 1 - 2 - 8)%nat with O by lia. replace (11 + length name - 1 - 2 - 8)%nat with (length name) by lia.
  by rewrite slice_here, drop_app_length.
Qed.

(** The dispatch on a framed payload. *)
Lemma decode_framed op nonce payload :
  is_byte op → in_width 32 nonce →
  decode_request ([MAGIC0; MAGIC1; VERSION; op] ++ le_bytes 4 nonce ++ payload) =
  (if (op =? OP_COUNTER_INC) || (op =? OP_GAUGE_SET) || (op =? OP_HIST_OBSERVE) then decode_metric_value op nonce payload
   else if op =? OP_SPAN_START then decode_span_start nonce payload
   else if op =? OP_SPAN_END then decode_span_end nonce payload
   else if op =? OP_PING then (if negb (8 + vlen payload =? 8) then Err DecMalformed else Ok (Ping nonce))
   else Err DecUnsupported).
Proof.
  intros Hop Hn. destruct (metrics_header op nonce payload Hop Hn) as (El & E0 & E1 & E2 & E3 & E4 & Ed & _).
  unfold decode_request. rewrite El, E0, E1, E2, E3, E4, Ed. pose proof (vlen_nonneg payload).
  destruct (Z.ltb_spec (8 + vlen payload) 8); [lia|]. done.
Qed.

Lemma decode_span_start_payload nonce span_id trace_id parent start_ns name attrs :
  in_width 64 span_id → in_width 64 trace_id → in_width 64 parent → in_width 64 start_ns →
  0 < vlen name ≤ MAX_SPAN_NAME_LEN → vlen attrs ≤ MAX_ATTRS_LEN →
  decode_span_start nonce (le_bytes 8 span_id ++ le_bytes 8 trace_id ++ le_bytes 8 parent ++ le_bytes 8 start_ns ++
                           [vlen name] ++ le_bytes 2 (vlen attrs) ++ name ++ attrs) =
  Ok (SpanStart nonce span_id trace_id parent start_ns name attrs).
Proof.
  intros Hs Ht Hp Hns Hn Ha. unfold decode_span_start. rewrite !vlen_app, !vlen_le_bytes. change (vlen [vlen name]) with 1.
  unfold MAX_SPAN_NAME_LEN, MAX_ATTRS_LEN in *. pose proof (vlen_nonneg attrs).
  match goal with |- context [read_le 32 1 ?p] => set (P := p) end.
  assert (R1 : read_le 0 8 P = span_id) by (unfold P; by apply (read_le_here 8)).
  assert (R2 : read_le 8 8 P = trace_id) by (unfold P; skip_fields; by apply (read_le_here 8)).
  assert (R3 : read_le 16 8 P = parent) by (unfold P; skip_fields; by apply (read_le_here 8)).
  assert (R4 : read_le 24 8 P = start_ns) by (unfold P; skip_fields; by apply (read_le_here 8)).
  assert (R5 : read_le 32 1 P = vlen name).
  { unfold P. do 4 (rewrite read_le_skip by (rewrite le_bytes_length; lia); rewrite le_bytes_length; cbn [Nat.sub]).
    apply read_byte. }
  assert (R6 : read_le 33 2 P = vlen attrs).
  { unfold P. skip_fields. apply (read_le_here 2). unfold in_width. lia. }
  rewrite R1, R2, R3, R4, R5, R6. clear R1 R2 R3 R4 R5 R6.
  rewrite (proj2 (Z.ltb_ge _ _)) by lia. rewrite (proj2 (Z.eqb_neq (vlen name) 0)), !(proj2 (Z.ltb_ge _ _)) by lia. cbn [orb].
  rewrite (proj2 (Z.eqb_eq _ _)) by lia. cbn [negb]. subst P.
  rewrite !slice_skip, !drop_skip by (rewrite ?le_bytes_length; cbn [length]; lia).
  rewrite !le_bytes_length. cbn [length]. unfold vlen in *. rewrite Nat2Z.id.
  replace (35 - 8 - 8 - 8 - 8 - 1 - 2)%nat with O by lia.
  replace (35 + length name - 8 - 8 - 8 - 8 - 1 - 2)%nat with (length name) by lia.
  by rewrite slice_here, drop_app_length.
Qed.

Lemma decode_span_end_payload nonce span_id end_ns status attrs :
  in_width 64 span_id → in_width 64 end_ns → vlen attrs ≤ MAX_ATTRS_LEN →
  decode_span_end nonce (le_bytes 8 span_id ++ le_bytes 8 end_ns ++ [status] ++ le_bytes 2 (vlen attrs) ++ attrs) =
  Ok (SpanEnd nonce span_id end_ns status attrs).
Proof.
  intros Hs He Ha. unfold decode_span_end. rewrite !vlen_app, !vlen_le_bytes. change (vlen [status]) with 1.
  unfold MAX_ATTRS_LEN in *. pose proof (vlen_nonneg attrs).
  match goal with |- context [read_le 17 2 ?p] => set (P := p) end.
  assert (R1 : read_le 0 8 P = span_id) by (unfold P; by apply (read_le_here 8)).
  assert (R2 : read_le 8 8 P = end_ns) by (unfold P; skip_fields; by apply (read_le_here 8)).
  assert (R3 : read_le 16 1 P = status).
  { unfold P. do 2 (rewrite read_le_skip by (rewrite le_bytes_length; lia); rewrite le_bytes_length; cbn [Nat.sub]).
    apply read_byte. }
  assert (R4 : read_le 17 2 P = vlen attrs).
  { unfold P. skip_fields. apply (read_le_here 2). unfold in_width. lia. }
  rewrite R1, R2, R3, R4. clear R1 R2 R3 R4. rewrite !(proj2 (Z.ltb_ge _ _)) by lia.
  rewrite (proj2 (Z.eqb_eq _ _)) by lia. cbn [negb]. subst P.
  rewrite !drop_skip by (rewrite ?le_bytes_length; cbn [length]; lia). by rewrite !le_bytes_length.
Qed.

Lemma metric_frame op nonce name labels v :
  is_byte op → in_width 32 nonce → 0 < vlen name ≤ MAX_METRIC_NAME_LEN → vlen labels ≤ MAX_LABELS_LEN →
  MetricName_new name = Ok name ∧ BoundedFields_labels labels = Ok labels ∧
  ∃ f, encode_metric_value_frame op nonce name labels v = Ok f ∧
       f = [MAGIC0; MAGIC1; VERSION; op] ++ le_bytes 4 nonce ++
           [vlen name] ++ le_bytes 2 (vlen labels) ++ le_bytes 8 (v mod 2 ^ 64) ++ name ++ labels.
Proof.
  intros. unfold MetricName_new, BoundedFields_labels, encode_metric_value_frame.
  rewrite name_nonempty by lia. rewrite !(proj2 (Z.ltb_ge _ _)) by lia. eauto.
Qed.

(** Every request within the limits reaches the server as it was made. *)
Lemma client_server r : small_request r → ∃ f, client_frame r = Ok f ∧ decode_request f = Ok r.
Proof.
  destruct r as [nonce name labels v|nonce name labels v|nonce name labels v|nonce sid tid par ns name attrs
                |nonce sid ns st attrs|nonce]; cbn [small_request client_frame].
  - intros (Hn & Hnm & Hl & Hv). unfold encode_counter_inc.
    destruct (metric_frame OP_COUNTER_INC nonce name labels (as_i64 v)) as (-> & -> & f & Hf & ->); try done.
    eexists. split; [exact Hf|]. rewrite decode_framed by done.
    replace (as_i64 v) with v by (unfold as_i64; destruct (Z.leb_spec (2 ^ 63) v); lia).
    etransitivity; [apply decode_metric_payload; lia|]. by rewrite (proj2 (Z.ltb_ge v 0)) by lia.
  - intros (Hn & Hnm & Hl & Hv). unfold encode_gauge_set.
    destruct (metric_frame OP_GAUGE_SET nonce name labels v) as (-> & -> & f & Hf & ->); try done.
    eexists. split; [exact Hf|]. rewrite decode_framed by done. by apply decode_metric_payload.
  - intros (Hn & Hnm & Hl & Hv). unfold encode_hist_observe.
    destruct (metric_frame OP_HIST_OBSERVE nonce name labels (as_i64 v)) as (-> & -> & f & Hf & ->); try done.
    eexists. split; [exact Hf|]. rewrite decode_framed by done.
    replace (as_i64 v) with v by (unfold as_i64; destruct (Z.leb_spec (2 ^ 63) v); lia).
    etransitivity; [apply decode_metric_payload; lia|]. by rewrite (proj2 (Z.ltb_ge v 0)) by lia.
  - intros (Hn & Hs & Ht & Hp & Hns & Hnm & Ha). unfold SpanName_new, BoundedFields_attrs, encode_span_start.
    rewrite name_nonempty, !(proj2 (Z.ltb_ge _ _)) by lia. eexists. split; [done|].
    rewrite decode_framed by done. by apply decode_span_start_payload.
  - intros (Hn & Hs & He & Hst & Ha). unfold BoundedFields_attrs, encode_span_end.
    rewrite !(proj2 (Z.ltb_ge _ _)) by lia. eexists. split; [done|].
    rewrite decode_framed by done. by apply decode_span_end_payload.
  - intros Hn. eexists. split; [done|]. unfold encode_ping.
    pose proof (decode_framed OP_PING nonce [] ltac:(done) Hn) as H. by rewrite app_nil_r in H.
Qed.

Lemma status_roundtrip op nonce status :
  in_width 32 nonce →
  decode_status_response (encode_status_response op nonce status) op nonce = Ok status.
Proof.
  intros Hn. unfold decode_status_response, encode_status_response.
  match goal with |- context [read_le 5 4 ?p] => set (P := p) end.
  assert (R : read_le 5 4 P = nonce).
  { unfold P. skip_fields. rewrite <- (app_nil_r (le_bytes 4 nonce)). by apply (read_le_here 4). }
  rewrite R, (Z.eqb_refl nonce). clear R. subst P.
  unfold read_le, slice. simpl. rewrite Z.add_0_r, Z.eqb_refl. simpl. by rewrite Z.add_0_r.
Qed.

End ProtoProps.

(** ** The registry implements two finite maps *)

Module RegistryProps.

(** *** Lists with distinct keys as finite maps *)

Section keyed.
Context {A K V : Type} `{Countable K} (k : A → K) (v : A → V).

Definition map_of (l : list A) : gmap K V := list_to_map ((fun x => (k x, v x)) <$> l).

Lemma keys_fst l : ((fun x => (k x, v x)) <$> l).*1 = k <$> l.
Proof. rewrite <- list_fmap_compose. done. Qed.

Lemma map_of_missing l key : key ∉ k <$> l → map_of l !! key = None.
Proof. intros. apply not_elem_of_list_to_map_1. by rewrite keys_fst. Qed.

Lemma map_of_found l i x : NoDup (k <$> l) → l !! i = Some x → map_of l !! k x = Some (v x).
Proof.
  intros Hd Hi. apply elem_of_list_to_map_1; [by rewrite keys_fst|].
  apply list_elem_of_fmap. exists x. split; [done|]. by eapply list_elem_of_lookup_2.
Qed.

Lemma map_of_snoc l x : k x ∉ k <$> l → map_of (l ++ [x]) = <[k x := v x]> (map_of l).
Proof. intros. unfold map_of. rewrite fmap_app. apply list_to_map_snoc. by rewrite keys_fst. Qed.

Lemma map_of_insert l i x y :
  NoDup (k <$> l) → l !! i = Some x → k y = k x → map_of (<[i := y]> l) = <[k x := v y]> (map_of l).
Proof.
  revert i. induction l as [|z l IH]; intros [|i] Hd Hi Hk; simplify_eq/=; apply NoDup_cons in Hd as [Hz Hd].
  - unfold map_of. simpl. by rewrite Hk, insert_insert_eq.
  - change (<[k z := v z]> (map_of (<[i := y]> l)) = <[k x := v y]> (<[k z := v z]> (map_of l))).
    rewrite IH by done. apply insert_insert_ne. intros Hzx. apply Hz. rewrite Hzx. apply list_elem_of_fmap.
    exists x. split; [done|]. by eapply list_elem_of_lookup_2.
Qed.

Lemma map_of_remove l l' x :
  NoDup (k <$> l) → l ≡ₚ x :: l' → map_of l' = delete (k x) (map_of l) ∧ NoDup (k <$> l').
Proof.
  intros Hd Hp. pose proof Hd as Hd'. rewrite Hp in Hd'. apply NoDup_cons in Hd' as [Hx Hd']. split; [|done].
  unfold map_of at 2. rewrite (list_to_map_proper _ ((fun x => (k x, v x)) <$> (x :: l'))).
  - simpl. rewrite delete_insert_id; [done|]. by apply map_of_missing.
  - by rewrite keys_fst.
  - by rewrite Hp.
Qed.

Lemma map_of_size l : NoDup (k <$> l) → Z.of_nat (size (map_of l)) = vlen l.
Proof.
  intros. unfold map_of, vlen. rewrite map_size_list_to_map by (by rewrite keys_fst). by rewrite length_fmap.
Qed.

Lemma map_of_size_filter (P : K → bool) l :
  NoDup (k <$> l) →
  Z.of_nat (size (filter (fun kv => P kv.1 = true) (map_of l))) = vlen (List.filter (fun x => P (k x)) l).
Proof.
  induction l as [|x l IH]; intros Hd; [done|]. apply NoDup_cons in Hd as [Hx Hd].
  change (map_of (x :: l)) with (<[k x := v x]> (map_of l)). simpl. pose proof (map_of_missing l (k x) Hx) as Hm.
  destruct (P (k x)) eqn:EP.
  - rewrite map_filter_insert_True by done. rewrite map_size_insert_None.
    + rewrite Nat2Z.inj_succ, IH by done. unfold vlen. simpl. lia.
    + rewrite map_lookup_filter, Hm. done.
  - rewrite map_filter_insert_False by (simpl; congruence). rewrite delete_id by done. auto.
Qed.

End keyed.

Lemma pos_found {A} (f : A → bool) l i : position f l = Some i → ∃ x, l !! i = Some x ∧ f x = true.
Proof.
  revert i. induction l as [|x l IH]; intros i; simpl; [done|]. destruct (f x) eqn:E; [naive_solver|].
  intros (j & Hj & ->)%fmap_Some. naive_solver.
Qed.

Lemma pos_missing {A} (f : A → bool) l : position f l = None → ∀ x, x ∈ l → f x = false.
Proof.
  induction l as [|x l IH]; simpl; intros Hn y Hy; [by apply elem_of_nil in Hy|].
  destruct (f x) eqn:E; [done|]. apply fmap_None in Hn. apply elem_of_cons in Hy as [->|]; auto.
Qed.

Lemma swap_remove_perm {A} (l : list A) i x : l !! i = Some x → l ≡ₚ x :: swap_remove l i.
Proof.
  intros Hi. unfold swap_remove. destruct l as [|z l _] using rev_ind; [done|].
  rewrite last_snoc, length_app. simpl. replace (length l + 1 - 1)%nat with (length l) by lia.
  destruct (decide (i < length l)%nat) as [Hl|Hl].
  - rewrite lookup_app_l in Hi by done. rewrite insert_app_l by done.
    rewrite take_app_le by (by rewrite length_insert). rewrite firstn_all2 by (by rewrite length_insert).
    rewrite <- (take_drop_middle l i x Hi) at 1. rewrite insert_take_drop by done.
    rewrite (Permutation_app_comm _ [z]), <- !Permutation_middle. done.
  - rewrite lookup_app_r in Hi by lia. destruct (i - length l)%nat eqn:E; [|done]. simplify_eq/=.
    replace i with (length l + 0)%nat by lia. rewrite insert_app_r. simpl. rewrite take_app_length.
    symmetry. apply Permutation_cons_append.
Qed.

(** *** The abstract registry *)

#[export] Instance MetricKind_countable : Countable MetricKind.
Proof.
  refine (inj_countable (fun k => match k with Counter => 0 | Gauge => 1 | Histogram => 2 end)
            (fun n => if n =? 0 then Some Counter else if n =? 1 then Some Gauge else if n =? 2 then Some Histogram else None) _).
  by intros [].
Defined.

(** A series is named by its sender, kind, name and labels; a span by its
    sender and identifier. *)
Abbreviation SeriesKey := (Z * MetricKind * bytes * bytes)%type.
Abbreviation SeriesValue := (Z * Z * HistogramState)%type.

Record Abs := { ab_series : gmap SeriesKey SeriesValue; ab_spans : gmap (Z * Z) LiveSpan }.

Definition series_key (e : SeriesEntry) : SeriesKey := (e.(se_sender), e.(se_kind), e.(se_name), e.(se_labels)).
Definition series_value (e : SeriesEntry) : SeriesValue := (e.(counter_value), e.(gauge_value), e.(histogram)).
Definition span_key (s : LiveSpan) : Z * Z := (s.(ls_sender), s.(ls_span_id)).

Definition abs (r : Registry) : Abs :=
  {| ab_series := map_of series_key series_value r.(series); ab_spans := map_of span_key id r.(live_spans) |}.

Inductive Op :=
  | OpCounter (sender : Z) (name labels : bytes) (delta : Z)
  | OpGauge (sender : Z) (name labels : bytes) (value : Z)
  | OpHist (sender : Z) (name labels : bytes) (value : Z)
  | OpStart (s : LiveSpan)
  | OpEnd (sender span_id end_ns status : Z) (attrs : bytes).

Inductive Res := RValue (v : Z) | RHist (count sum : Z) | RStarted | REnded (e : EndedSpan) | RReject (r : RejectReason).

Definition res_of {A} (f : A → Res) (x : result A RejectReason) : Res :=
  match x with Ok v => f v | Err e => RReject e end.

(** The operations of the code as one step. *)
Definition step (r : Registry) (o : Op) : Registry * Res :=
  match o with
  | OpCounter sender name labels delta => let '(r, x) := counter_inc r sender name labels delta in (r, res_of RValue x)
  | OpGauge sender name labels value => let '(r, x) := gauge_set r sender name labels value in (r, res_of RValue x)
  | OpHist sender name labels value =>
      let '(r, x) := hist_observe r sender name labels value in (r, res_of (fun p => RHist p.1 p.2) x)
  | OpStart s =>
      let '(r, x) := span_start r s.(ls_sender) s.(ls_span_id) s.(ls_trace_id) s.(ls_parent) s.(ls_start_ns) s.(ls_name) s.(ls_attrs) in
      (r, res_of (fun _ => RStarted) x)
  | OpEnd sender span_id end_ns status attrs =>
      let '(r, x) := span_end r sender span_id end_ns status attrs in (r, res_of REnded x)
  end.

(** A series updated in the map, created at zero when there is room for it. *)
Definition spec_series (l : RuntimeLimits) (a : Abs) (sender : Z) (kind : MetricKind) (name labels : bytes)
    (f : SeriesValue → SeriesValue) (out : SeriesValue → Res) : Abs * Res :=
  let key : SeriesKey := (sender, kind, name, labels) in
  let store v := ({| ab_series := <[key := f v]> a.(ab_series); ab_spans := a.(ab_spans) |}, out (f v)) in
  if decide (name = []) then (a, RReject InvalidArgs)
  else if (l.(max_metric_name_len) <? vlen name) || (l.(max_labels_len) <? vlen labels) then (a, RReject OverLimit)
  else
    match a.(ab_series) !! key with
    | Some v => store v
    | None =>
        if l.(max_series_total) <=? Z.of_nat (size a.(ab_series)) then (a, RReject OverLimit)
        else if l.(max_series_per_metric) <=?
                Z.of_nat (size (filter (fun kv : SeriesKey * SeriesValue =>
                                          bool_decide (kv.1.1.1.2 = kind) && bool_decide (kv.1.1.2 = name) = true) a.(ab_series)))
        then (a, RReject OverLimit)
        else store (0, 0, HistogramState_new)
    end.

Definition spec_step (l : RuntimeLimits) (a : Abs) (o : Op) : Abs * Res :=
  match o with
  | OpCounter sender name labels delta =>
      spec_series l a sender Counter name labels (fun '(c, g, h) => (saturating_add 64 c delta, g, h)) (fun v => RValue v.1.1)
  | OpGauge sender name labels value =>
      spec_series l a sender Gauge name labels (fun '(c, g, h) => (c, value, h)) (fun v => RValue v.1.2)
  | OpHist sender name labels value =>
      spec_series l a sender Histogram name labels (fun '(c, g, h) => (c, g, observe h value))
        (fun v => RHist v.2.(count) v.2.(sum))
  | OpStart s =>
      if negb (s.(ls_span_id) / 2 ^ 32 =? s.(ls_sender) mod 2 ^ 32) then (a, RReject InvalidArgs)
      else if decide (s.(ls_name) = []) then (a, RReject InvalidArgs)
      else if (l.(max_span_name_len) <? vlen s.(ls_name)) || (l.(max_attrs_len) <? vlen s.(ls_attrs)) then (a, RReject OverLimit)
      else if decide (is_Some (a.(ab_spans) !! span_key s)) then (a, RReject InvalidArgs)
      else if l.(max_live_spans) <=? Z.of_nat (size a.(ab_spans)) then (a, RReject OverLimit)
      else ({| ab_series := a.(ab_series); ab_spans := <[span_key s := s]> a.(ab_spans) |}, RStarted)
  | OpEnd sender span_id end_ns status attrs =>
      if l.(max_attrs_len) <? vlen attrs then (a, RReject OverLimit)
      else
        match a.(ab_spans) !! (sender, span_id) with
        | None => (a, RReject NotFound)
        | Some s =>
            ({| ab_series := a.(ab_series); ab_spans := delete (sender, span_id) a.(ab_spans) |},
             REnded {| es_sender := sender; es_span_id := span_id; es_trace_id := s.(ls_trace_id); es_parent := s.(ls_parent);
                       es_name := s.(ls_name); es_start_attrs := s.(ls_attrs); es_end_attrs := attrs;
                       es_duration_ns := saturating_sub end_ns s.(ls_start_ns); es_status := status |})
        end
  end.

(** No series and no span occurs twice, and the bounds hold. *)
Record reg_inv (r : Registry) : Prop := {
  series_distinct : NoDup (series_key <$> r.(series));
  spans_distinct : NoDup (span_key <$> r.(live_spans));
  series_bounded : vlen r.(series) ≤ Z.max 0 r.(limits).(max_series_total);
  spans_bounded : vlen r.(live_spans) ≤ Z.max 0 r.(limits).(max_live_spans)
}.

Lemma same_series_spec sender kind name labels e :
  same_series sender kind name labels e = true ↔ series_key e = (sender, kind, name, labels).
Proof.
  unfold same_series, series_key. rewrite !andb_true_iff, !bool_decide_eq_true, Z.eqb_eq. naive_solver.
Qed.

Lemma same_span_spec sender span_id s : same_span sender span_id s = true ↔ span_key s = (sender, span_id).
Proof. unfold same_span, span_key. rewrite andb_true_iff, !Z.eqb_eq. naive_solver. Qed.

(** Looking a series up, or making room for it. *)
Lemma ensure_series_spec r sender kind name labels r' x :
  reg_inv r → ensure_series r sender kind name labels = (r', x) →
  (∀ e, x = Err e → r' = r ∧ ∀ f out, spec_series r.(limits) (abs r) sender kind name labels f out = (abs r, RReject e)) ∧
  (∀ pos, x = Ok pos → reg_inv r' ∧ r'.(limits) = r.(limits) ∧ ∃ e,
     r'.(series) !! pos = Some e ∧ series_key e = (sender, kind, name, labels) ∧
     ∀ f out, spec_series r.(limits) (abs r) sender kind name labels f out =
       ({| ab_series := <[series_key e := f (series_value e)]> (abs r').(ab_series); ab_spans := (abs r').(ab_spans) |},
        out (f (series_value e)))).
Proof.
  intros [Hd Hd' Hb Hb']. unfold ensure_series, spec_series.
  destruct (decide (name = [])) as [Hnm|Hnm]; [rewrite bool_decide_true by done; naive_solver|].
  rewrite bool_decide_false by done. destruct (_ || _); [naive_solver|].
  change (ab_series (abs r)) with (map_of series_key series_value r.(series)).
  destruct (position _ _) as [pos|] eqn:Ep.
  - apply pos_found in Ep as (e & He & Hk). apply same_series_spec in Hk. intros [= <- <-]. split; [done|].
    intros ? [= <-]. split_and!; [done|done|]. exists e. split_and!; [done|done|]. intros f out.
    rewrite <- Hk. by rewrite (map_of_found _ _ _ pos e).
  - assert (Hk : (sender, kind, name, labels) ∉ series_key <$> r.(series)).
    { intros (e & He & Hin)%list_elem_of_fmap. pose proof (pos_missing _ _ Ep e Hin) as Hf.
      symmetry in He. apply same_series_spec in He. congruence. }
    rewrite (map_of_missing _ _ _ _ Hk), map_of_size by done.
    destruct (Z.leb_spec r.(limits).(max_series_total) (vlen r.(series))); [naive_solver|].
    pose proof (map_of_size_filter series_key series_value
      (fun k : SeriesKey => bool_decide (k.1.1.2 = kind) && bool_decide (k.1.2 = name)) r.(series) Hd) as Hsz.
    cbv beta in Hsz. rewrite Hsz. clear Hsz.
    destruct (_ <=? _); [naive_solver|]. intros [= <- <-]. split; [done|]. intros ? [= <-].
    split_and!; [split; simpl; try done| done|].
    + rewrite fmap_app. apply NoDup_app. split_and!; [done| |apply NoDup_singleton].
      intros k' Hk' ->%list_elem_of_singleton. done.
    + rewrite vlen_app. unfold vlen at 2. simpl. lia.
    + exists (fresh_series sender kind name labels). split_and!; [|done|].
      * simpl. by rewrite lookup_app_r, Nat.sub_diag.
      * intros f out. simpl. rewrite map_of_snoc by done. by rewrite insert_insert_eq.
Qed.

(** The operations on series: the entry found is updated in place. *)
Lemma on_series_spec r pos e f :
  reg_inv r → r.(series) !! pos = Some e → series_key (f e) = series_key e →
  reg_inv (on_series r f pos) ∧ (on_series r f pos).(series) !! pos = Some (f e) ∧
  abs (on_series r f pos) =
    {| ab_series := <[series_key e := series_value (f e)]> (abs r).(ab_series); ab_spans := (abs r).(ab_spans) |}.
Proof.
  intros [Hd Hd' Hb Hb'] He Hk. unfold on_series, abs. simpl.
  assert (Ha : alter f pos r.(series) = <[pos := f e]> r.(series)).
  { apply list_eq. intros i. destruct (decide (i = pos)) as [->|Hi].
    - rewrite list_lookup_alter_eq, He, list_lookup_insert_eq; [done|]. by eapply lookup_lt_Some.
    - by rewrite list_lookup_alter_ne, list_lookup_insert_ne. }
  rewrite Ha. split_and!.
  - split; simpl; try done.
    + rewrite list_fmap_insert, Hk, list_insert_id; [done|]. by rewrite list_lookup_fmap, He.
    + unfold vlen in *. by rewrite length_insert.
  - apply list_lookup_insert_eq. by eapply lookup_lt_Some.
  - by rewrite (map_of_insert _ _ _ _ e).
Qed.

Ltac series_step r sender kind name labels :=
  let x := fresh "x" in let r' := fresh "r" in
  destruct (ensure_series r sender kind name labels) as [r' x] eqn:He;
  destruct (ensure_series_spec r sender kind name labels r' x) as [Herr Hok]; [done|done|];
  destruct x as [pos|e0]; simpl;
  [destruct (Hok pos eq_refl) as (Hinv' & Hlim & e & Hpos & Hkey & Hspec); clear Herr Hok; rewrite Hspec
  |destruct (Herr e0 eq_refl) as [-> Hspec]; rewrite Hspec; split_and!; done].

Lemma matches_sender_spec sender span_id :
  span_id_matches_sender sender span_id = (span_id / 2 ^ 32 =? sender mod 2 ^ 32).
Proof.
  unfold span_id_matches_sender. change 0xffffffff with (Z.ones 32). by rewrite Z.shiftr_div_pow2, Z.land_ones by lia.
Qed.

Lemma span_live r s :
  reg_inv r →
  existsb (same_span s.(ls_sender) s.(ls_span_id)) r.(live_spans) = bool_decide (is_Some ((abs r).(ab_spans) !! span_key s)).
Proof.
  intros [Hd Hd' Hb Hb']. simpl. apply eq_true_iff_eq. rewrite existsb_exists, bool_decide_eq_true. split.
  - intros (x & Hin%list_elem_of_In & Hk%same_span_spec). apply list_elem_of_lookup in Hin as [i Hi].
    exists x. change (span_key s) with (s.(ls_sender), s.(ls_span_id)). rewrite <- Hk.
    by apply (map_of_found span_key id _ i).
  - intros Hs. destruct (decide (span_key s ∈ span_key <$> r.(live_spans))) as [Hin|Hn].
    + apply list_elem_of_fmap in Hin as (x & Hk & Hin). exists x.
      split; [by apply list_elem_of_In|]. by apply same_span_spec.
    + rewrite map_of_missing in Hs by done. by destruct Hs.
Qed.

Lemma span_start_refines r s :
  reg_inv r →
  let '(r', x) := step r (OpStart s) in
  spec_step r.(limits) (abs r) (OpStart s) = (abs r', x) ∧ reg_inv r' ∧ r'.(limits) = r.(limits).
Proof.
  intros Hr. unfold step, spec_step, span_start. rewrite matches_sender_spec, (span_live r s Hr).
  destruct (negb _); [done|].
  destruct (decide (ls_name s = [])) as [Hn|Hn]; [by rewrite bool_decide_true|]. rewrite bool_decide_false by done.
  destruct (_ || _); [done|].
  destruct (decide (is_Some _)) as [Hs|Hs]; [by rewrite bool_decide_true|]. rewrite bool_decide_false by done.
  destruct Hr as [Hd Hd' Hb Hb'].
  change (ab_spans (abs r)) with (map_of span_key id r.(live_spans)) in *. rewrite map_of_size by done.
  destruct (Z.leb_spec r.(limits).(max_live_spans) (vlen r.(live_spans))); [done|].
  assert (Hnew : span_key s ∉ span_key <$> r.(live_spans)).
  { intros (x & Hk & [i Hi]%list_elem_of_lookup)%list_elem_of_fmap. apply Hs. exists x. rewrite Hk.
    by apply (map_of_found span_key id _ i). }
  destruct s as [snd sid tid par nm at_ ns]. simpl in *. split_and!; [|split; simpl; try done|done].
  - unfold abs. simpl. rewrite map_of_snoc by done. done.
  - rewrite fmap_app. apply NoDup_app. split_and!; [done| |apply NoDup_singleton].
    intros k' Hk' ->%list_elem_of_singleton. done.
  - rewrite vlen_app. unfold vlen at 2. simpl. lia.
Qed.

Lemma span_end_refines r sender span_id end_ns status attrs :
  reg_inv r →
  let '(r', x) := step r (OpEnd sender span_id end_ns status attrs) in
  spec_step r.(limits) (abs r) (OpEnd sender span_id end_ns status attrs) = (abs r', x) ∧ reg_inv r' ∧ r'.(limits) = r.(limits).
Proof.
  intros [Hd Hd' Hb Hb']. unfold step, spec_step, span_end. destruct (_ <? _); [done|].
  change (ab_spans (abs r)) with (map_of span_key id r.(live_spans)).
  destruct (position _ _) as [pos|] eqn:Ep.
  - apply pos_found in Ep as (s & Hs & Hk). apply same_span_spec in Hk. rewrite Hs, <- Hk.
    rewrite (map_of_found span_key id _ pos s) by done. pose proof (swap_remove_perm _ _ _ Hs) as Hp.
    destruct (map_of_remove span_key id _ _ _ Hd' Hp) as [Hm Hd2].
    split_and!; [|split; simpl; try done|done].
    + unfold abs. simpl. by rewrite Hm.
    + apply Permutation_length in Hp. unfold vlen in *. simpl in Hp. lia.
  - rewrite map_of_missing; [done|]. intros (s & Hk & Hin)%list_elem_of_fmap.
    pose proof (pos_missing _ _ Ep s Hin) as Hf. symmetry in Hk. apply same_span_spec in Hk. congruence.
Qed.

Lemma step_refines r o :
  reg_inv r →
  let '(r', x) := step r o in
  spec_step r.(limits) (abs r) o = (abs r', x) ∧ reg_inv r' ∧ r'.(limits) = r.(limits).
Proof.
  intros Hr. destruct o as [sender name labels delta|sender name labels v|sender name labels v|s|sender id end_ns st attrs];
    unfold step, spec_step.
  - unfold counter_inc. series_step r sender Counter name labels.
    destruct (on_series_spec r0 pos e (add_counter delta)) as (Hi & Hl & Ha); try done.
    rewrite Ha. simpl in Hl. rewrite Hl. done.
  - unfold gauge_set. series_step r sender Gauge name labels.
    destruct (on_series_spec r0 pos e (put_gauge v)) as (Hi & Hl & Ha); try done.
    rewrite Ha. simpl in Hl. rewrite Hl. done.
  - unfold hist_observe. series_step r sender Histogram name labels.
    destruct (on_series_spec r0 pos e (add_sample v)) as (Hi & Hl & Ha); try done.
    rewrite Ha. simpl in Hl. rewrite Hl. done.
  - by apply span_start_refines.
  - by apply span_end_refines.
Qed.

Lemma new_reg_inv l : reg_inv (Registry_new_with_limits l).
Proof. split; simpl; try constructor; unfold vlen; simpl; lia. Qed.

End RegistryProps.

(** ** Retention: what the engine plans for a history of events *)

Module RetentionProps.

Abbreviation Event := (RetentionEventKind * bytes)%type.

Definition is_metric (e : Event) : Z := if e.1 is Metric then 1 else 0.
Definition is_span (e : Event) : Z := if e.1 is Span then 1 else 0.
Definition lines (es : list Event) : bytes := mjoin ((fun e : Event => e.2 ++ [10]) <$> es).

(** The last [n] events. *)
Definition last_events (n : Z) (es : list Event) : list Event := drop (length es - Z.to_nat n) es.

Definition window_of (id : Z) (es : list Event) : RollupWindow :=
  {| rw_id := id; rw_metrics := zsum is_metric es; rw_spans := zsum is_span es |}.
Definition frame_of_window (kind : bytes) (w : RollupWindow) : RollupFrame :=
  {| window_id := w.(rw_id); rf_bytes := encode_rollup_window kind w |}.

(** The update for the last event of a history, as a function of the history:
    the segment holds the records since the last rotation, a ten-second window
    counts the last [retention_rollup_every] events and a sixty-second window six
    times as many, and a window leaves when [retention_ttl_windows] newer ones
    exist. *)
Definition spec_update (l : RuntimeLimits) (es : list Event) : RetentionUpdate :=
  let n := vlen es in
  let R := l.(retention_max_records_per_segment) in
  let E := l.(retention_rollup_every) in
  let ttl := l.(retention_ttl_windows) in
  let gc id := if ttl <? id then [id - ttl] else [] in
  {| wal_slot := ((n - 1) / R) mod l.(retention_max_segments);
     wal_bytes := lines (last_events ((n - 1) mod R + 1) es);
     rollup_10s := if n mod E =? 0 then Some (frame_of_window (lit "10s") (window_of (n / E) (last_events E es))) else None;
     rollup_60s :=
       if n mod (E * 6) =? 0 then Some (frame_of_window (lit "60s") (window_of (n / (E * 6)) (last_events (E * 6) es))) else None;
     gc_rollup_10s := if n mod E =? 0 then gc (n / E) else [];
     gc_rollup_60s := if n mod (E * 6) =? 0 then gc (n / (E * 6)) else [] |}.

(** The engine fed a history: the updates it returned, [None] after a panic. *)
Fixpoint run_events (e : RetentionEngine) (es : list Event) : option (RetentionEngine * list (option RetentionUpdate)) :=
  match es with
  | [] => Some (e, [])
  | (kind, rec) :: es =>
      match append e kind rec with
      | None => None
      | Some (e, u) => match run_events e es with None => None | Some (e, us) => Some (e, u :: us) end
      end
  end.

(** The limits of a validated configuration with retention on: every field of
    the retention section is a positive [u32]. *)
Record retention_on (l : RuntimeLimits) : Prop := {
  on_enabled : l.(retention_enabled) = true;
  on_segments : 0 < l.(retention_max_segments) < 2 ^ 32;
  on_records : 0 < l.(retention_max_records_per_segment) < 2 ^ 32;
  on_every : 0 < l.(retention_rollup_every) < 2 ^ 32;
  on_ttl : 0 < l.(retention_ttl_windows) < 2 ^ 32;
  on_gc : 0 < l.(retention_gc_batch) < 2 ^ 32
}.

Definition ids_from (ttl k : Z) (ws : list RollupWindow) : Prop :=
  rw_id <$> ws = seqZ (k - Z.min ttl k + 1) (Z.min ttl k).

Lemma ids_length ttl k ws : 0 < ttl → 0 ≤ k → ids_from ttl k ws → vlen ws = Z.min ttl k.
Proof.
  intros ? ? Hw. unfold vlen. rewrite <- (length_fmap rw_id), Hw, length_seqZ. lia.
Qed.

(** Closing window [k + 1] keeps the newest [ttl] and collects the one that
    expires. *)
Lemma trim_push ttl gc k ws w :
  0 < ttl → 0 < gc → 0 ≤ k → ids_from ttl k ws → w.(rw_id) = k + 1 →
  ∃ ws', trim_rollup_windows (ws ++ [w]) ttl gc [] = (ws', if ttl <? k + 1 then [k + 1 - ttl] else []) ∧ ids_from ttl (k + 1) ws'.
Proof.
  intros Ht Hg Hk Hw Hid. pose proof (ids_length _ _ _ Ht Hk Hw) as Hlen.
  assert (Hsnoc : rw_id <$> (ws ++ [w]) = seqZ (k - Z.min ttl k + 1) (Z.min ttl k) ++ [k + 1]).
  { rewrite fmap_app, Hw. simpl. by rewrite Hid. }
  unfold ids_from in *. destruct (Z.ltb_spec ttl (k + 1)) as [Hfull|Hroom].
  - destruct ws as [|w0 ws]; [unfold vlen in Hlen; simpl in Hlen; lia|].
    rewrite seqZ_cons in Hsnoc by lia. simpl in Hsnoc. injection Hsnoc as H0 Hrest.
    exists (ws ++ [w]). split.
    + simpl. unfold vlen at 1 2. simpl. rewrite !(proj2 (Z.ltb_lt _ _)) by
        (unfold vlen in Hlen; simpl in Hlen; rewrite ?length_app; simpl; lia). cbn [andb].
      rewrite H0. destruct (ws ++ [w]) as [|w1 ws1] eqn:E; [by destruct ws|]. simpl.
      assert (Hl1 : vlen (w1 :: ws1) = ttl).
      { rewrite <- E, vlen_app. unfold vlen in *. simpl in *. lia. }
      rewrite Hl1, Z.ltb_irrefl. simpl. f_equal. f_equal. lia.
    + etransitivity; [exact Hrest|]. replace (Z.min ttl (k + 1)) with (Z.pred (Z.min ttl k) + 1) by lia.
      rewrite seqZ_app by lia. simpl. f_equal; [f_equal; lia|]. rewrite seqZ_cons by lia.
      f_equal. lia.
  - exists (ws ++ [w]). split.
    + assert (Hl : vlen (ws ++ [w]) ≤ ttl) by (rewrite vlen_app; unfold vlen in *; simpl; lia).
      destruct (ws ++ [w]) as [|w1 ws1]; [done|]. simpl. rewrite (proj2 (Z.ltb_ge _ _)) by done. done.
    + rewrite Hsnoc. replace (Z.min ttl (k + 1)) with (Z.min ttl k + 1) by lia. rewrite seqZ_app by lia.
      f_equal; [f_equal; lia|]. rewrite seqZ_cons by lia. f_equal. lia.
Qed.

(** Counting one further with a modulus. *)
Lemma div_mod_succ n d :
  0 ≤ n → 0 < d →
  ((n + 1) mod d = 0 ∧ n mod d + 1 = d ∧ (n + 1) / d = n / d + 1) ∨
  ((n + 1) mod d ≠ 0 ∧ (n + 1) mod d = n mod d + 1 ∧ (n + 1) / d = n / d ∧ n mod d + 1 < d).
Proof.
  intros Hn Hd. pose proof (Z.div_mod n d ltac:(lia)) as Hdm. pose proof (Z.mod_pos_bound n d Hd).
  destruct (decide (n mod d + 1 = d)) as [Heq|Hne].
  - left. assert (n + 1 = d * (n / d + 1)) as Hm by lia. split_and!; [|done|].
    + rewrite Hm, Z.mul_comm. by apply Z.mod_mul; lia.
    + rewrite Hm, Z.mul_comm. by rewrite Z.div_mul by lia.
  - right. assert (Hq : (n + 1) / d = n / d) by (symmetry; apply (Z.div_unique _ _ _ (n mod d + 1)); lia).
    assert (Hm : (n + 1) mod d = n mod d + 1) by (symmetry; apply (Z.mod_unique _ _ (n / d)); lia). lia.
Qed.

Lemma last_events_app p c n : n = vlen c → last_events n (p ++ c) = c.
Proof.
  intros ->. unfold last_events, vlen. rewrite Nat2Z.id, length_app.
  replace (length p + length c - length c)%nat with (length p) by lia. apply drop_app_length.
Qed.

Lemma events_split es : zsum is_metric es + zsum is_span es = vlen es ∧ 0 ≤ zsum is_metric es ∧ 0 ≤ zsum is_span es.
Proof.
  induction es as [|[[] r] es IH]; unfold vlen in *; simpl in *; unfold is_metric, is_span in *; simpl in *; lia.
Qed.

Lemma saturating_small w a b : a + b ≤ max_of w → saturating_add w a b = a + b.
Proof. unfold saturating_add. lia. Qed.

(** The pending counters are the events since the last window of each size. *)
Definition roll_inv (l : RuntimeLimits) (es : list Event) (u : Rollups) : Prop :=
  let n := vlen es in
  let E := l.(retention_rollup_every) in
  ∃ A B C, es = A ++ B ++ C ∧ vlen C = n mod E ∧ vlen B = E * ((n / E) mod 6) ∧
    u.(pending_10s_metrics) = zsum is_metric C ∧ u.(pending_10s_spans) = zsum is_span C ∧
    u.(pending_60s_metrics) = zsum is_metric B ∧ u.(pending_60s_spans) = zsum is_span B ∧
    u.(pending_60s_count) = (n / E) mod 6 ∧
    ids_from l.(retention_ttl_windows) (n / E) u.(rollup_10s_windows) ∧
    ids_from l.(retention_ttl_windows) (n / E / 6) u.(rollup_60s_windows).

Lemma count_pending_spec l es u x :
  vlen (es ++ [x]) < 2 ^ 64 → roll_inv l es u →
  ∃ A B C, es = A ++ B ++ C ∧ vlen C = vlen es mod l.(retention_rollup_every) ∧
    vlen B = l.(retention_rollup_every) * ((vlen es / l.(retention_rollup_every)) mod 6) ∧
    count_pending u x.1 =
      {| pending_10s_metrics := zsum is_metric (C ++ [x]); pending_10s_spans := zsum is_span (C ++ [x]);
         pending_60s_metrics := zsum is_metric B; pending_60s_spans := zsum is_span B;
         pending_60s_count := (vlen es / l.(retention_rollup_every)) mod 6;
         rollup_10s_windows := u.(rollup_10s_windows); rollup_60s_windows := u.(rollup_60s_windows) |}.
Proof.
  intros Hn (A & B & C & Hes & HC & HB & H1 & H2 & H3 & H4 & H5 & _). exists A, B, C. split_and!; try done.
  unfold count_pending. rewrite H1, H2, H3, H4, H5, !zsum_app.
  destruct (events_split C) as (HcC & ? & ?). rewrite Hes in Hn. rewrite !vlen_app in Hn.
  pose proof (vlen_nonneg A). pose proof (vlen_nonneg B). pose proof (vlen_nonneg C).
  change (vlen [x]) with 1 in Hn. destruct x as [[] rec]; simpl; rewrite saturating_small by (unfold max_of; lia);
    f_equal; unfold is_metric, is_span; simpl; lia.
Qed.

Definition update_rolls (u : RetentionUpdate) : option RollupFrame * option RollupFrame * list Z * list Z :=
  (u.(rollup_10s), u.(rollup_60s), u.(gc_rollup_10s), u.(gc_rollup_60s)).

(** The sixty-second test of the specification in terms of ten-second windows. *)
Lemma due_60s n E : 0 ≤ n → 0 < E → (n mod (E * 6) =? 0) = (n mod E =? 0) && ((n / E) mod 6 =? 0).
Proof.
  intros Hn HE. rewrite Z.rem_mul_r by lia.
  pose proof (Z.mod_pos_bound n E HE). pose proof (Z.mod_pos_bound (n / E) 6 ltac:(lia)).
  destruct (Z.eqb_spec (n mod E) 0), (Z.eqb_spec ((n / E) mod 6) 0); simpl; apply Z.eqb_eq || apply Z.eqb_neq; nia.
Qed.

(** Between windows the event only waits. *)
Lemma roll_wait l es u x :
  retention_on l → vlen (es ++ [x]) < 2 ^ 64 → roll_inv l es u → vlen (es ++ [x]) mod l.(retention_rollup_every) ≠ 0 →
  roll l (count_pending u x.1) (vlen (es ++ [x])) = (count_pending u x.1, (None, None, [], [])) ∧
  roll_inv l (es ++ [x]) (count_pending u x.1).
Proof.
  intros Hl Hn Hu Hw. pose proof (on_every _ Hl) as HE. unfold roll.
  rewrite (proj2 (Z.eqb_neq (vlen (es ++ [x]) mod _) 0)), andb_false_r by done. split; [done|].
  pose proof Hu as (_ & _ & _ & _ & _ & _ & _ & _ & _ & _ & _ & Hw10 & Hw60).
  destruct (count_pending_spec l es u x Hn Hu) as (A & B & C & Hes & HC & HB & ->).
  assert (Hn1 : vlen (es ++ [x]) = vlen es + 1) by (by rewrite vlen_app). rewrite Hn1 in Hw. pose proof (vlen_nonneg es).
  destruct (div_mod_succ (vlen es) (retention_rollup_every l)) as [(? & ?)|(_ & Hm & Hq & _)]; [lia|lia|lia|].
  unfold roll_inv. rewrite Hn1, Hm, Hq. exists A, B, (C ++ [x]). simpl.
  split_and!; try done; [by rewrite Hes, <- !app_assoc|]. rewrite vlen_app. change (vlen [x]) with 1. lia.
Qed.

(** The last event of a ten-second window. *)
Lemma roll_close l es u x :
  retention_on l → vlen (es ++ [x]) < 2 ^ 64 → roll_inv l es u → vlen (es ++ [x]) mod l.(retention_rollup_every) = 0 →
  let n := vlen (es ++ [x]) in
  let E := l.(retention_rollup_every) in
  let ttl := l.(retention_ttl_windows) in
  ∃ u1 D B w60, roll_10s l (count_pending u x.1) (window_of (n / E) (last_events E (es ++ [x]))) =
      (u1, frame_of_window (lit "10s") (window_of (n / E) (last_events E (es ++ [x]))), if ttl <? n / E then [n / E - ttl] else []) ∧
    es ++ [x] = D ++ B ∧ vlen B = E * (((n - 1) / E) mod 6 + 1) ∧ (n - 1) / E + 1 = n / E ∧
    count_pending u x.1 = {| pending_10s_metrics := zsum is_metric (last_events E (es ++ [x]));
                             pending_10s_spans := zsum is_span (last_events E (es ++ [x]));
                             pending_60s_metrics := (count_pending u x.1).(pending_60s_metrics);
                             pending_60s_spans := (count_pending u x.1).(pending_60s_spans);
                             pending_60s_count := (count_pending u x.1).(pending_60s_count);
                             rollup_10s_windows := u.(rollup_10s_windows); rollup_60s_windows := u.(rollup_60s_windows) |} ∧
    u1 = {| pending_10s_metrics := 0; pending_10s_spans := 0;
            pending_60s_metrics := zsum is_metric B; pending_60s_spans := zsum is_span B;
            pending_60s_count := ((n - 1) / E) mod 6 + 1;
            rollup_10s_windows := u1.(rollup_10s_windows); rollup_60s_windows := w60 |} ∧
    ids_from ttl (n / E) u1.(rollup_10s_windows) ∧ ids_from ttl ((n - 1) / E / 6) w60.
Proof.
  intros Hl Hn Hu Hw n E ttl. pose proof (on_every _ Hl) as HE. fold E in HE.
  pose proof Hu as (_ & _ & _ & _ & _ & _ & _ & _ & _ & _ & _ & Hw10 & Hw60).
  destruct (count_pending_spec l es u x Hn Hu) as (A & B & C & Hes & HC & HB & Hcp). fold E in HC, HB, Hcp, Hw10, Hw60.
  assert (Hn1 : vlen es = n - 1) by (unfold n; rewrite vlen_app; change (vlen [x]) with 1; lia).
  rewrite Hn1 in *. pose proof (vlen_nonneg es).
  destruct (div_mod_succ (n - 1) E) as [(_ & Hm & Hq)|(Hne & _)]; [lia|lia| |].
  2: { exfalso. apply Hne. by replace (n - 1 + 1) with n by lia. }
  replace (n - 1 + 1) with n in Hq by lia.
  assert (Hlast : last_events E (es ++ [x]) = C ++ [x]).
  { rewrite Hes, <- !app_assoc. rewrite (app_assoc A). apply last_events_app. rewrite vlen_app. change (vlen [x]) with 1. lia. }
  assert (Hlen : vlen (B ++ C ++ [x]) ≤ n).
  { unfold n. rewrite Hes, !vlen_app. pose proof (vlen_nonneg A). lia. }
  destruct (events_split (B ++ C ++ [x])) as (Hsum & Hm0 & Hs0). rewrite !zsum_app in Hsum, Hm0, Hs0.
  pose proof (Z.mod_pos_bound ((n - 1) / E) 6 ltac:(lia)) as Hb6.
  destruct (trim_push ttl l.(retention_gc_batch) ((n - 1) / E) u.(rollup_10s_windows)
              (window_of (n / E) (last_events E (es ++ [x])))) as (ws & Htrim & Hids).
  { by apply (on_ttl _ Hl). } { by apply (on_gc _ Hl). } { apply Z.div_pos; lia. } { done. } { simpl. lia. }
  rewrite <- Hq in Htrim, Hids.
  exists {| pending_10s_metrics := 0; pending_10s_spans := 0; pending_60s_metrics := zsum is_metric (B ++ C ++ [x]);
            pending_60s_spans := zsum is_span (B ++ C ++ [x]); pending_60s_count := ((n - 1) / E) mod 6 + 1;
            rollup_10s_windows := ws; rollup_60s_windows := u.(rollup_60s_windows) |}, A, (B ++ C ++ [x]), u.(rollup_60s_windows).
  rewrite Hcp. split_and!; try done.
  - unfold roll_10s. simpl. fold ttl. rewrite Htrim, Hlast, !zsum_app. simpl.
    rewrite !saturating_small by (unfold max_of; rewrite ?zsum_app in *; simpl in *; lia). done.
  - by rewrite Hes, <- !app_assoc.
  - rewrite !vlen_app. change (vlen [x]) with 1. lia.
  - by rewrite Hlast.
Qed.

Lemma roll_step l es u x :
  retention_on l → vlen (es ++ [x]) < 2 ^ 64 → roll_inv l es u →
  ∃ u', roll l (count_pending u x.1) (vlen (es ++ [x])) = (u', update_rolls (spec_update l (es ++ [x]))) ∧
        roll_inv l (es ++ [x]) u'.
Proof.
  intros Hl Hn Hu. pose proof (on_every _ Hl) as HE. unfold update_rolls, spec_update. simpl.
  rewrite due_60s by (apply vlen_nonneg || lia).
  destruct (Z.eqb_spec (vlen (es ++ [x]) mod l.(retention_rollup_every)) 0) as [Hd|Hd].
  2: { destruct (roll_wait l es u x) as [-> ?]; eauto. }
  destruct (roll_close l es u x) as (u1 & D & B & w60 & H10 & Hes & HB & Hq & Hcp & Hu1 & Hi10 & Hi60); try done.
  simpl in *. set (n := vlen (es ++ [x])) in *. set (E := l.(retention_rollup_every)) in *.
  assert (Hnn : 0 ≤ (n - 1) / E).
  { apply Z.div_pos; [|lia]. unfold n. rewrite vlen_app. change (vlen [x]) with 1. pose proof (vlen_nonneg es). lia. }
  pose proof (Z.div_pos ((n - 1) / E) 6 Hnn ltac:(lia)) as Hnn6.
  unfold roll. rewrite (proj2 (Z.eqb_neq (retention_rollup_every l) 0)) by (fold E; lia). fold E. rewrite Hd.
  change (negb false && (0 =? 0)) with true. cbv beta iota zeta.
  assert (Hw : {| rw_id := n / E; rw_metrics := (count_pending u x.1).(pending_10s_metrics);
                  rw_spans := (count_pending u x.1).(pending_10s_spans) |} = window_of (n / E) (last_events E (es ++ [x])))
    by (by rewrite Hcp).
  rewrite Hw, H10. unfold roll_60s. rewrite Hu1. cbn [pending_60s_count].
  rewrite <- Z.div_div by lia.
  destruct (div_mod_succ ((n - 1) / E) 6 Hnn) as [(H0 & H5 & Hq6)|(Hne & Hm6 & Hq6 & Hlt)]; [lia| |]; rewrite Hq in *.
  - rewrite H0. rewrite (proj2 (Z.leb_le _ _)) by lia. simpl.
    assert (Hlast : last_events (E * 6) (es ++ [x]) = B) by (rewrite Hes; apply last_events_app; nia).
    destruct (trim_push l.(retention_ttl_windows) l.(retention_gc_batch) ((n - 1) / E / 6) w60
                (window_of (n / E / 6) B)) as (ws & Htrim & Hids).
    { by apply (on_ttl _ Hl). } { by apply (on_gc _ Hl). } { exact Hnn6. } { exact Hi60. } { cbn [window_of rw_id]. congruence. }
    rewrite <- Hq6 in Htrim, Hids. unfold window_of at 1 in Htrim. rewrite Htrim, Hlast. eexists. split; [done|].
    exists (es ++ [x]), [], []. fold n E. rewrite Hd, H0. simpl. rewrite app_nil_r, Z.mul_0_r. done.
  - rewrite (proj2 (Z.leb_gt _ _)) by lia. rewrite (proj2 (Z.eqb_neq _ 0)) by done. eexists. split; [by rewrite <- Hu1|].
    exists D, B, []. fold n E. rewrite Hd, Hm6, Hq6. simpl. rewrite app_nil_r. split_and!; try done; by rewrite Hu1.
Qed.

Record eng_inv (l : RuntimeLimits) (es : list Event) (e : RetentionEngine) : Prop := {
  ei_limits : e.(re_limits) = l;
  ei_segment : e.(active_segment) = vlen es / l.(retention_max_records_per_segment);
  ei_records : e.(active_records) = vlen es mod l.(retention_max_records_per_segment);
  ei_ring : length e.(segments) = Z.to_nat l.(retention_max_segments);
  ei_current : e.(active_records) ≠ 0 →
    e.(segments) !! Z.to_nat (e.(active_segment) mod l.(retention_max_segments)) =
      Some (lines (last_events e.(active_records) es));
  ei_metrics : e.(metrics_total) = zsum is_metric es;
  ei_spans : e.(spans_total) = zsum is_span es;
  ei_rolls : roll_inv l es e.(rollups)
}.

Lemma lines_snoc es x : lines (es ++ [x]) = lines es ++ x.2 ++ [10].
Proof. unfold lines. rewrite fmap_app, join_app. simpl. by rewrite app_nil_r. Qed.

Lemma last_events_snoc n es x : 0 ≤ n ≤ vlen es → last_events (n + 1) (es ++ [x]) = last_events n es ++ [x].
Proof.
  intros Hn. unfold last_events, vlen in *. rewrite length_app. simpl. rewrite drop_app_le by lia.
  f_equal. f_equal. lia.
Qed.

Lemma last_events_0 es : last_events 0 es = [].
Proof. unfold last_events. apply drop_ge. simpl. lia. Qed.

(** The current segment after one more record. *)
Lemma segment_grows l es e x :
  retention_on l → eng_inv l es e →
  ∃ seg, e.(segments) !! Z.to_nat (e.(active_segment) mod l.(retention_max_segments)) = Some seg ∧
    (if e.(active_records) =? 0 then [] else seg) ++ x.2 ++ [10] =
      lines (last_events (e.(active_records) + 1) (es ++ [x])).
Proof.
  intros Hl He. pose proof (on_segments _ Hl). pose proof (on_records _ Hl).
  pose proof (Z.mod_pos_bound e.(active_segment) l.(retention_max_segments) ltac:(lia)).
  pose proof (Z.mod_pos_bound (vlen es) l.(retention_max_records_per_segment) ltac:(lia)).
  pose proof (Z.mod_le (vlen es) l.(retention_max_records_per_segment) (vlen_nonneg es) ltac:(lia)).
  destruct (lookup_lt_is_Some_2 e.(segments) (Z.to_nat (e.(active_segment) mod l.(retention_max_segments)))) as [seg Hs].
  { rewrite (ei_ring _ _ _ He). lia. }
  exists seg. split; [done|]. rewrite last_events_snoc, lines_snoc by (rewrite (ei_records _ _ _ He); lia).
  destruct (Z.eqb_spec e.(active_records) 0) as [Hz|Hz].
  - by rewrite Hz, last_events_0.
  - pose proof (ei_current _ _ _ He Hz) as Hc. rewrite Hs in Hc. by injection Hc as ->.
Qed.

Lemma counts_snoc es x :
  vlen (es ++ [x]) < 2 ^ 64 →
  (if x.1 is Metric then saturating_add 64 (zsum is_metric es) 1 else zsum is_metric es) = zsum is_metric (es ++ [x]) ∧
  (if x.1 is Span then saturating_add 64 (zsum is_span es) 1 else zsum is_span es) = zsum is_span (es ++ [x]).
Proof.
  rewrite vlen_app. change (vlen [x]) with 1. destruct (events_split es) as (? & ? & ?). rewrite !zsum_app. intros.
  destruct x as [[] rec]; cbn [fst]; unfold is_metric at 3, is_span at 3; simpl;
    rewrite ?saturating_small by (unfold max_of; lia); unfold is_metric, is_span; simpl; lia.
Qed.

Lemma append_step l es e x :
  retention_on l → vlen (es ++ [x]) < 2 ^ 64 → vlen (es ++ [x]) / l.(retention_max_records_per_segment) < 2 ^ 32 →
  eng_inv l es e →
  ∃ e', append e x.1 x.2 = Some (e', Some (spec_update l (es ++ [x]))) ∧ eng_inv l (es ++ [x]) e'.
Proof.
  intros Hl Hn Hr He. destruct (segment_grows l es e x Hl He) as (seg & Hseg & Hgrow).
  destruct (roll_step l es e.(rollups) x Hl Hn (ei_rolls _ _ _ He)) as (u & Hroll & Hu).
  destruct He as [Hlim Has Har Hring Hcur Hmt Hst _].
  pose proof (on_segments _ Hl). pose proof (on_records _ Hl) as HR. pose proof (vlen_nonneg es).
  assert (Hn1 : vlen (es ++ [x]) = vlen es + 1) by (by rewrite vlen_app).
  pose proof (Z.mod_pos_bound (vlen es) _ (proj1 HR)) as Hmb.
  destruct (events_split es) as (Hsum & ? & ?).
  unfold append. rewrite Hlim, (on_enabled _ Hl), (proj2 (Z.eqb_neq _ 0)), Hseg by lia. cbn [negb]. rewrite Hgrow.
  assert (Htot : saturating_add 64 (if x.1 is Metric then saturating_add 64 e.(metrics_total) 1 else e.(metrics_total))
                   (if x.1 is Span then saturating_add 64 e.(spans_total) 1 else e.(spans_total)) = vlen (es ++ [x])).
  { rewrite Hmt, Hst. destruct x as [[] rec]; cbn [fst]; rewrite !saturating_small by (rewrite ?saturating_small; unfold max_of; lia); lia. }
  rewrite Htot, Hroll. unfold update_rolls. rewrite (saturating_small 32 (active_records e)) by (unfold max_of; lia).
  set (U := spec_update l (es ++ [x])).
  assert (Hspec : U = {| wal_slot := active_segment e mod l.(retention_max_segments);
                         wal_bytes := lines (last_events (active_records e + 1) (es ++ [x])); rollup_10s := U.(rollup_10s);
                         rollup_60s := U.(rollup_60s); gc_rollup_10s := U.(gc_rollup_10s); gc_rollup_60s := U.(gc_rollup_60s) |}).
  { unfold U, spec_update. simpl. rewrite Hn1, Has, Har. by replace (vlen es + 1 - 1) with (vlen es) by lia. }
  eexists. split; [rewrite Hspec; reflexivity|]. clear Hseg Hgrow Hroll Htot Hspec. clearbody U. clear U.
  destruct (div_mod_succ (vlen es) l.(retention_max_records_per_segment)) as [(Hm0 & Hm & Hq)|(_ & Hm & Hq & Hlt)]; [lia|lia| |];
    rewrite <- Hn1 in *.
  - rewrite (proj2 (Z.leb_le _ _)) by lia. split; simpl; try done.
    + rewrite saturating_small by (unfold max_of; lia). lia.
    + by rewrite length_insert.
    + rewrite Hmt. by apply counts_snoc.
    + rewrite Hst. by apply counts_snoc.
  - rewrite (proj2 (Z.leb_gt _ _)) by lia. split; simpl; try done.
    + lia.
    + lia.
    + by rewrite length_insert.
    + intros _. apply list_lookup_insert_eq. rewrite Hring. apply Z2Nat.inj_lt; try lia; apply Z.mod_pos_bound; lia.
    + rewrite Hmt. by apply counts_snoc.
    + rewrite Hst. by apply counts_snoc.
Qed.

Lemma run_events_app e es1 es2 :
  run_events e (es1 ++ es2) =
  match run_events e es1 with
  | None => None
  | Some (e, us1) => match run_events e es2 with None => None | Some (e, us2) => Some (e, us1 ++ us2) end
  end.
Proof.
  revert e. induction es1 as [|[kind rec] es1 IH]; intros e; simpl.
  - by destruct (run_events e es2) as [[]|].
  - destruct (append e kind rec) as [[e1 u]|]; [|done]. rewrite IH.
    destruct (run_events e1 es1) as [[e2 us1]|]; [|done]. by destruct (run_events e2 es2) as [[]|].
Qed.

Lemma new_eng_inv l : retention_on l → eng_inv l [] (RetentionEngine_new l).
Proof.
  intros Hl. pose proof (on_records _ Hl). pose proof (on_every _ Hl).
  split; unfold roll_inv, vlen; simpl; rewrite ?Z.div_0_l, ?Z.mod_0_l by lia; try done.
  - apply length_replicate.
  - assert (Hids : ids_from (retention_ttl_windows l) 0 []).
    { unfold ids_from. by rewrite Z.min_r by (pose proof (on_ttl _ Hl); lia). }
    exists [], [], []. split_and!; try done. simpl. lia.
Qed.

(** The updates of a whole history. *)
Definition spec_updates (l : RuntimeLimits) (es : list Event) : list RetentionUpdate :=
  (fun i => spec_update l (take (S i) es)) <$> seq 0 (length es).

Lemma spec_updates_snoc l es x : spec_updates l (es ++ [x]) = spec_updates l es ++ [spec_update l (es ++ [x])].
Proof.
  unfold spec_updates. rewrite length_app, seq_app, fmap_app. simpl. f_equal.
  - apply list_fmap_ext. intros i j [-> Hj]%lookup_seq. by rewrite take_app_le by lia.
  - by rewrite take_ge by (rewrite length_app; simpl; lia).
Qed.

Lemma run_events_inv l es :
  retention_on l → vlen es < 2 ^ 64 → vlen es / l.(retention_max_records_per_segment) < 2 ^ 32 →
  ∃ e, run_events (RetentionEngine_new l) es = Some (e, Some <$> spec_updates l es) ∧ eng_inv l es e.
Proof.
  intros Hl. induction es as [|x es IH] using rev_ind; intros Hn Hr.
  { eexists. split; [done|]. by apply new_eng_inv. }
  pose proof (on_records _ Hl) as HR.
  assert (Hle : vlen es ≤ vlen (es ++ [x])) by (rewrite vlen_app; pose proof (vlen_nonneg [x]); lia).
  pose proof (Z.div_le_mono _ _ _ (proj1 HR) Hle) as Hdiv.
  destruct IH as (e & Hrun & He); [lia|lia|]. destruct (append_step l es e x Hl Hn Hr He) as (e' & Ha & He').
  exists e'. split; [|done]. rewrite run_events_app, Hrun. destruct x as [kind rec]. simpl in *. rewrite Ha.
  by rewrite spec_updates_snoc, fmap_app.
Qed.

End RetentionProps.

(** ** The service: every history of frames *)

Module ServiceProps.

Import Proto Service RegistryProps.

(** The registry operation a request stands for, made by its sender. *)
Definition req_op (sender : Z) (r : Request) : option Op :=
  match r with
  | CounterInc _ name labels delta => Some (OpCounter sender name labels delta)
  | GaugeSet _ name labels value => Some (OpGauge sender name labels value)
  | HistObserve _ name labels value => Some (OpHist sender name labels value)
  | SpanStart _ span_id trace_id parent start_ns name attrs =>
      Some (OpStart {| ls_sender := sender; ls_span_id := span_id; ls_trace_id := trace_id; ls_parent := parent; ls_name := name;
                       ls_attrs := attrs; ls_start_ns := start_ns |})
  | SpanEnd _ span_id end_ns status attrs => Some (OpEnd sender span_id end_ns status attrs)
  | Ping _ => None
  end.

Definition res_status (x : Res) : Z := match x with RReject e => reject_status e | _ => STATUS_OK end.

(** The service over the abstract registry: frames, limiter and statuses only. *)
Definition spec_frame (l : RuntimeLimits) (a : Abs) (lim : RateLimiter) (sender now_ns : Z) (frame : bytes)
    : Abs * RateLimiter * bytes :=
  match decode_request frame with
  | Err e =>
      (a, lim, encode_status_response (default 0 (frame !! 3%nat)) 0
                 match e with DecOverLimit => STATUS_OVER_LIMIT | _ => STATUS_INVALID_ARGS end)
  | Ok req =>
      let '(op, nonce) := req_op_nonce req in
      match req_op sender req with
      | None => (a, lim, encode_status_response op nonce STATUS_OK)
      | Some o =>
          let '(lim, limited) := is_limited lim sender now_ns in
          if limited then (a, lim, encode_status_response op nonce STATUS_RATE_LIMITED)
          else let '(a, x) := spec_step l a o in (a, lim, encode_status_response op nonce (res_status x))
      end
  end.

Fixpoint spec_frames (l : RuntimeLimits) (a : Abs) (lim : RateLimiter) (frames : list (Z * Z * bytes))
    : Abs * RateLimiter * list bytes :=
  match frames with
  | [] => (a, lim, [])
  | (sender, now, frame) :: frames =>
      let '(a, lim, rsp) := spec_frame l a lim sender now frame in
      let '(a, lim, rsps) := spec_frames l a lim frames in (a, lim, rsp :: rsps)
  end.

Section service.
Context (accepts : list Effect → bytes → bool) (proof_put : list Effect → bytes → bytes → bool).

Fixpoint run_frames (s : State) (frames : list (Z * Z * bytes)) : option (State * list bytes) :=
  match frames with
  | [] => Some (s, [])
  | (sender, now, frame) :: frames =>
      match handle_frame accepts proof_put s sender now frame with
      | None => None
      | Some (s, (rsp, _)) => match run_frames s frames with None => None | Some (s, rsps) => Some (s, rsp :: rsps) end
      end
  end.

(** *** The engine does not panic *)

Definition ring_ok (s : RetentionSink) : Prop :=
  0 < s.(engine).(re_limits).(retention_max_segments) ∧
  length s.(engine).(segments) = Z.to_nat s.(engine).(re_limits).(retention_max_segments).

Lemma append_total e kind rec :
  0 < e.(re_limits).(retention_max_segments) → length e.(segments) = Z.to_nat e.(re_limits).(retention_max_segments) →
  ∃ e' u, append e kind rec = Some (e', u) ∧ e'.(re_limits) = e.(re_limits) ∧ length e'.(segments) = length e.(segments).
Proof.
  intros HS Hlen. unfold append. destruct (negb _); [eauto|]. rewrite (proj2 (Z.eqb_neq _ 0)) by lia.
  destruct (lookup_lt_is_Some_2 e.(segments) (Z.to_nat (e.(active_segment) mod e.(re_limits).(retention_max_segments)))) as [seg ->].
  { rewrite Hlen. apply Z2Nat.inj_lt; try lia; apply Z.mod_pos_bound; lia. }
  destruct (roll _ _ _) as [u [[[f10 f60] gc10] gc60]]. do 2 eexists. split; [done|]. simpl. by rewrite length_insert.
Qed.

(** A relation between sinks kept by logging and by the flags. *)
Section sink_rel.
Context (P : RetentionSink → RetentionSink → Prop) `{!Reflexive P} `{!Transitive P}.
Hypothesis P_flags : ∀ s a b c d, P s (set_flags s a b c d).
Variable good : bytes → Prop.
Hypothesis P_sent : ∀ s frame ok, good frame → P s (log_effect s (Sent frame ok)).
Variable good_key : bytes → Prop.
Hypothesis P_proof : ∀ s key value ok, good_key key → P s (log_effect s (ProofPut key value ok)).

Definition good_put (key value : bytes) : Prop := ∀ f, encode_put_request key value = Ok f → good f.
Definition good_del (key : bytes) : Prop := ∀ f, encode_key_only_request OP_DEL key = Ok f → good f.

Lemma put_once_rel s key value : good_put key value → P s (statefs_put_nonblocking accepts s key value).1.
Proof.
  intros Hg. unfold statefs_put_nonblocking, send_nonblocking.
  destruct (encode_put_request key value) eqn:E; simpl; [|reflexivity]. auto.
Qed.

Lemma put_retries_rel s key value n : good_put key value → P s (put_with_retries accepts s key value n).1.
Proof.
  intros Hg. revert s. induction n as [|n IH]; intros s; simpl; [reflexivity|].
  pose proof (put_once_rel s key value Hg) as H1. destruct (statefs_put_nonblocking accepts s key value) as [s1 []]; simpl in *; [done|].
  etransitivity; [exact H1|]. apply IH.
Qed.

Lemma delete_all_rel s prefix ids : (∀ id, good_del (prefix ++ utoa id)) → P s (delete_all accepts s prefix ids).
Proof.
  intros Hg. revert s. induction ids as [|id ids IH]; intros s; simpl; [reflexivity|].
  etransitivity; [|apply IH]. unfold statefs_delete_nonblocking, send_nonblocking.
  destruct (encode_key_only_request OP_DEL (prefix ++ utoa id)) eqn:E; simpl; [|reflexivity]. apply P_sent. by eapply Hg.
Qed.

Lemma verify_rel s key value : good_key key → P s (verify_wal proof_put s key value).
Proof.
  intros Hk. unfold verify_wal. destruct (_ && _); [|reflexivity]. destruct (proof_put _ _ _); [|auto].
  etransitivity; [by apply P_proof|apply P_flags].
Qed.

(** Everything a record does to the sink besides the engine's own step. *)
Lemma record_rel s kind rec s' :
  (∀ slot, good_key (WAL_KEY ++ utoa slot)) → (∀ slot v, good_put (WAL_KEY ++ utoa slot) v) → (∀ id v, good_put (ROLLUP_10S_KEY ++ utoa id) v) →
  (∀ id v, good_put (ROLLUP_60S_KEY ++ utoa id) v) → (∀ id, good_del (ROLLUP_10S_KEY ++ utoa id)) →
  (∀ id, good_del (ROLLUP_60S_KEY ++ utoa id)) →
  record accepts proof_put s kind rec = Some s' →
  ∃ e u, append s.(engine) kind rec = Some (e, u) ∧ P (set_engine s e) s'.
Proof.
  intros Hk Hw H10 H60 D10 D60. unfold record. destruct (append (engine s) kind rec) as [[e [u|]]|] eqn:Ea; [| |done].
  2: { intros [= <-]. eauto. }
  destruct (negb _); [intros [= <-]; eauto|].
  match goal with |- context [put_with_retries accepts ?s0 ?k ?v ?n] => pose proof (put_retries_rel s0 k v n (Hw _ _)) as H1;
    destruct (put_with_retries accepts s0 k v n) as [s1 []] end; simpl in H1; intros [= <-]; [|eauto].
  exists e, (Some u). split; [done|]. etransitivity; [exact H1|]. etransitivity; [apply P_flags|].
  etransitivity; [by apply verify_rel|]. etransitivity; [|by apply delete_all_rel].
  assert (Hr60 : ∀ s0 f, P s0 (write_rollup_60s accepts s0 f)).
  { intros. unfold write_rollup_60s. etransitivity; [|apply P_flags]. by apply put_retries_rel. }
  assert (Hr10 : ∀ s0 f, P s0 (write_rollup_10s accepts s0 f)).
  { intros. unfold write_rollup_10s. etransitivity; [|apply P_flags]. by apply put_retries_rel. }
  etransitivity; [|by destruct (rollup_60s u); simpl; [apply Hr60|]].
  etransitivity; [|by apply delete_all_rel]. destruct (rollup_10s u); simpl; [apply Hr10|reflexivity].
Qed.

End sink_rel.

Definition same_engine (s s' : RetentionSink) : Prop := s'.(engine) = s.(engine).
#[local] Instance same_engine_refl : Reflexive same_engine.
Proof. done. Qed.
#[local] Instance same_engine_trans : Transitive same_engine.
Proof. unfold same_engine. intros s1 s2 s3 H1 H2. congruence. Qed.

Lemma record_total s kind rec :
  ring_ok s → ∃ s', record accepts proof_put s kind rec = Some s' ∧ ring_ok s'.
Proof.
  intros [HS Hlen]. destruct (append_total s.(engine) kind rec HS Hlen) as (e & u & Ha & Hl & Hn).
  assert (∃ s', record accepts proof_put s kind rec = Some s') as [s' Hs'].
  { unfold record. rewrite Ha. destruct u; [|eauto]. destruct (negb _); [eauto|].
    destruct (put_with_retries _ _ _ _ _) as [s1 []]; simpl; eauto. }
  exists s'. split; [done|].
  destruct (record_rel same_engine) with (good := fun _ : bytes => True) (good_key := fun _ : bytes => True)
    (s := s) (kind := kind) (rec := rec) (s' := s') as (e2 & u2 & Ha2 & Heng); try done.
  unfold ring_ok. unfold same_engine in Heng. rewrite Heng. simpl. rewrite Ha in Ha2. simplify_eq. rewrite Hl, Hn. done.
Qed.

(** *** A frame does what the abstract service does *)

Record svc_inv (l : RuntimeLimits) (s : State) : Prop := {
  si_registry : reg_inv s.(st_registry);
  si_limits : s.(st_registry).(limits) = l;
  si_ring : ring_ok s.(st_retention)
}.

Lemma answer_op_refines {A} l s op nonce (res : Registry * result A RejectReason) rec o (f : A → Res) :
  svc_inv l s → step s.(st_registry) o = (res.1, res_of f res.2) → (∀ v, res_status (f v) = STATUS_OK) →
  ∃ s' rsp st, answer_op accepts proof_put s op nonce res rec = Some (s', (rsp, st)) ∧ svc_inv l s' ∧
    s'.(st_limiter) = s.(st_limiter) ∧
    ∃ x, spec_step l (abs s.(st_registry)) o = (abs s'.(st_registry), x) ∧ rsp = encode_status_response op nonce (res_status x).
Proof.
  intros [Hr Hlim Hring] Hstep Hf. pose proof (step_refines s.(st_registry) o Hr) as H. rewrite Hstep in H.
  destruct res as [r' res]. simpl in *. destruct H as (Hspec & Hr' & Hl'). rewrite Hlim in *.
  unfold answer_op. destruct res as [v|e]; simpl in *.
  - destruct (rec v) as [[kind line]|].
    + destruct (record_total s.(st_retention) kind line Hring) as (sink & -> & Hsink).
      do 3 eexists. split; [done|]. split_and!; [by split|done|]. simpl. exists (f v). by rewrite Hf.
    + do 3 eexists. split; [done|]. split_and!; [by split|done|]. simpl. exists (f v). by rewrite Hf.
  - do 3 eexists. split; [done|]. split_and!; [by split|done|]. simpl. by exists (RReject e).
Qed.

Lemma serve_refines l s sender req o :
  svc_inv l s → req_op sender req = Some o →
  ∃ s' rsp st, serve accepts proof_put s sender req = Some (s', (rsp, st)) ∧ svc_inv l s' ∧ s'.(st_limiter) = s.(st_limiter) ∧
    ∃ x, spec_step l (abs s.(st_registry)) o = (abs s'.(st_registry), x) ∧
         rsp = encode_status_response (req_op_nonce req).1 (req_op_nonce req).2 (res_status x).
Proof.
  intros Hs. destruct req as [nonce name labels v|nonce name labels v|nonce name labels v|nonce sid tid par ns name attrs
                            |nonce sid ns st attrs|nonce]; intros [= <-]; unfold serve; cbn [req_op_nonce fst snd].
  - apply (answer_op_refines _ _ _ _ _ _ _ RValue); [done| |done]. unfold step; by destruct (counter_inc _ _ _ _ _).
  - apply (answer_op_refines _ _ _ _ _ _ _ RValue); [done| |done]. unfold step; by destruct (gauge_set _ _ _ _ _).
  - apply (answer_op_refines _ _ _ _ _ _ _ (fun p => RHist p.1 p.2)); [done| |done]. unfold step; by destruct (hist_observe _ _ _ _ _).
  - apply (answer_op_refines _ _ _ _ _ _ _ (fun _ => RStarted)); [done| |done]. unfold step; by destruct (span_start _ _ _ _ _ _ _ _).
  - apply (answer_op_refines _ _ _ _ _ _ _ REnded); [done| |done]. unfold step; by destruct (span_end _ _ _ _ _ _).
Qed.

Lemma frame_refines l s sender now frame :
  svc_inv l s →
  ∃ s' rsp st, handle_frame accepts proof_put s sender now frame = Some (s', (rsp, st)) ∧ svc_inv l s' ∧
    spec_frame l (abs s.(st_registry)) s.(st_limiter) sender now frame = (abs s'.(st_registry), s'.(st_limiter), rsp).
Proof.
  intros Hs. unfold handle_frame, spec_frame. destruct (decode_request frame) as [req|[]]; [|by do 3 eexists..].
  destruct (req_op sender req) as [o|] eqn:Ho.
  - assert (is_ping req = false) as -> by (by destruct req).
    destruct (is_limited (st_limiter s) sender now) as [lim []] eqn:El.
    + destruct (req_op_nonce req) as [op nonce]. do 3 eexists. split; [done|]. split; [|done]. by destruct Hs.
    + destruct (serve_refines l (with_limiter s lim) sender req o) as (s' & rsp & st & -> & Hs' & Hlim & x & Hspec & ->);
        [by destruct Hs|done|].
      do 3 eexists. split; [done|]. split; [done|]. simpl in *. rewrite Hspec, Hlim. by destruct (req_op_nonce req).
  - destruct req; try done. by do 3 eexists.
Qed.

Lemma frames_refine l s frames :
  svc_inv l s →
  ∃ s' rsps, run_frames s frames = Some (s', rsps) ∧ svc_inv l s' ∧
    spec_frames l (abs s.(st_registry)) s.(st_limiter) frames = (abs s'.(st_registry), s'.(st_limiter), rsps).
Proof.
  revert s. induction frames as [|[[sender now] frame] frames IH]; intros s Hs; simpl; [by do 2 eexists|].
  destruct (frame_refines l s sender now frame Hs) as (s1 & rsp & st & -> & Hs1 & ->).
  destruct (IH s1 Hs1) as (s2 & rsps & -> & Hs2 & ->). by do 2 eexists.
Qed.

Lemma new_svc_inv l c p : 0 < l.(retention_max_segments) → svc_inv l (State_new l c p).
Proof. intros. split; [apply new_reg_inv|done|]. split; simpl; [done|]. apply length_replicate. Qed.

(** *** What reaches the state service *)

Definition NAMESPACE : bytes := lit "/state/observability/metricsd/".

(** A frame the state service reads as a change of a key of the namespace, for
    which it asks the plain write capability. *)
Definition confined_frame (frame : bytes) : Prop :=
  ∃ key, NAMESPACE `prefix_of` key ∧
    ((∃ v, decode_request_with_nonce frame = Ok (ReqPut key v, None) ∧ required_cap OP_PUT key = CAP_WRITE) ∨
     (decode_request_with_nonce frame = Ok (ReqDelete key, None) ∧ required_cap OP_DEL key = CAP_WRITE)).
Definition confined (x : Effect) : Prop :=
  match x with Sent frame _ => confined_frame frame | ProofPut key _ _ => NAMESPACE `prefix_of` key end.

Definition state_key (key : bytes) : Prop :=
  NAMESPACE `prefix_of` key ∧ utf8_valid key = true ∧ 1 ≤ vlen key ≤ MAX_KEY_LEN.

Lemma key_needs_write op key : state_key key → op = OP_PUT ∨ op = OP_DEL → required_cap op key = CAP_WRITE.
Proof.
  intros [[rest ->] _] Hop. unfold required_cap, starts_with.
  rewrite !take_app_le by (vm_compute; lia).
  rewrite !bool_decide_false by (by vm_compute). by destruct Hop as [-> | ->].
Qed.

Lemma put_confined key v : state_key key → good_put confined_frame key v.
Proof.
  intros Hk f Hf. exists key. split; [apply Hk|]. left. exists v. split; [|apply key_needs_write; auto].
  destruct Hk as (_ & Hu & Hlen). unfold encode_put_request in Hf.
  destruct (MAX_KEY_LEN <? vlen key); [done|]. destruct (Z.ltb_spec MAX_VALUE_SIZE (vlen v)); [done|]. injection Hf as <-.
  unfold decode_request_with_nonce, decode_request_no_nonce, at_byte. simpl.
  unfold decode_op. simpl. pose proof (put_payload_roundtrip key v Hu Hlen ltac:(lia)) as H1. simpl in H1. by rewrite H1.
Qed.

Lemma del_confined key : state_key key → good_del confined_frame key.
Proof.
  intros Hk f Hf. exists key. split; [apply Hk|]. right. split; [|apply key_needs_write; auto].
  destruct Hk as (_ & Hu & Hlen). unfold encode_key_only_request in Hf.
  destruct (MAX_KEY_LEN <? vlen key); [done|]. injection Hf as <-.
  unfold decode_request_with_nonce, decode_request_no_nonce, at_byte. simpl.
  unfold decode_op. simpl. pose proof (key_payload_roundtrip key Hu Hlen) as H1. simpl in H1. by rewrite H1.
Qed.

Lemma numbered_key prefix v :
  NAMESPACE `prefix_of` prefix → forallb (fun b => (0 <=? b) && (b <=? 127)) prefix = true → 1 ≤ vlen prefix ≤ 200 →
  state_key (prefix ++ utoa v).
Proof.
  intros Hp Ha Hlen. destruct (Digits.utoa_digits v) as [Hd Hl]. split_and!.
  - by apply prefix_app_r.
  - apply Digits.ascii_utf8, Forall_app. split.
    + apply Forall_forall. intros b Hb%list_elem_of_In. rewrite forallb_forall in Ha. specialize (Ha b Hb). simpl_bool. lia.
    + eapply Forall_impl; [exact Hd|]. unfold Digits.is_digit. intros. simpl. lia.
  - rewrite vlen_app. pose proof (vlen_nonneg (utoa v)). lia.
  - rewrite vlen_app. unfold vlen at 2, MAX_KEY_LEN. lia.
Qed.

Lemma wal_key v : state_key (WAL_KEY ++ utoa v).
Proof. apply numbered_key; [exists (lit "wal/seg_"); by vm_compute|by vm_compute|vm_compute; split; done]. Qed.
Lemma rollup_10s_key v : state_key (ROLLUP_10S_KEY ++ utoa v).
Proof. apply numbered_key; [exists (lit "rollup/10s/w_"); by vm_compute|by vm_compute|vm_compute; split; done]. Qed.
Lemma rollup_60s_key v : state_key (ROLLUP_60S_KEY ++ utoa v).
Proof. apply numbered_key; [exists (lit "rollup/60s/w_"); by vm_compute|by vm_compute|vm_compute; split; done]. Qed.

Definition grows (s s' : RetentionSink) : Prop := ∃ xs, s'.(effects) = s.(effects) ++ xs ∧ Forall confined xs.
#[local] Instance grows_refl : Reflexive grows.
Proof. intros s. exists []. by rewrite app_nil_r. Qed.
#[local] Instance grows_trans : Transitive grows.
Proof.
  intros s1 s2 s3 (xs & H1 & Hx) (ys & H2 & Hy). exists (xs ++ ys). rewrite H2, H1, app_assoc.
  split; [done|]. by apply Forall_app.
Qed.

Lemma record_confined s kind rec s' :
  record accepts proof_put s kind rec = Some s' → Forall confined s.(effects) → Forall confined s'.(effects).
Proof.
  intros Hr Hs.
  destruct (record_rel grows) with (good := confined_frame) (good_key := state_key) (s := s) (kind := kind) (rec := rec) (s' := s')
    as (e & u & _ & xs & Hxs & Hc); try done.
  - intros s0 a b c d. exists []. by rewrite app_nil_r.
  - intros s0 f ok Hf. exists [Sent f ok]. split; [done|]. by repeat constructor.
  - intros s0 k v ok Hk. exists [ProofPut k v ok]. split; [done|]. repeat constructor. apply Hk.
  - exact wal_key.
  - intros slot v. exact (put_confined _ v (wal_key slot)).
  - intros id v. exact (put_confined _ v (rollup_10s_key id)).
  - intros id v. exact (put_confined _ v (rollup_60s_key id)).
  - intros id. exact (del_confined _ (rollup_10s_key id)).
  - intros id. exact (del_confined _ (rollup_60s_key id)).
  - rewrite Hxs. by apply Forall_app.
Qed.

Lemma answer_confined {A} s op nonce (res : Registry * result A RejectReason) rec s' rsp :
  answer_op accepts proof_put s op nonce res rec = Some (s', rsp) →
  Forall confined s.(st_retention).(effects) → Forall confined s'.(st_retention).(effects).
Proof.
  unfold answer_op. destruct res as [r [v|e]]; [|by intros [= <- <-]].
  destruct (rec v) as [[kind line]|]; [|by intros [= <- <-]].
  destruct (record _ _ _ _ _) as [sink|] eqn:Er; [|done]. intros [= <- <-] Hs. simpl. by eapply record_confined.
Qed.

Lemma frame_confined s sender now frame s' rsp :
  handle_frame accepts proof_put s sender now frame = Some (s', rsp) →
  Forall confined s.(st_retention).(effects) → Forall confined s'.(st_retention).(effects).
Proof.
  unfold handle_frame. intros H Hs. destruct (decode_request frame) as [req|[]]; [|by simplify_eq..].
  destruct (is_ping req).
  - destruct req; try (by eapply answer_confined); by simplify_eq/=.
  - destruct (is_limited _ _ _) as [lim []].
    + destruct (req_op_nonce req). by simplify_eq.
    + destruct req; try (by eapply answer_confined in H); by simplify_eq/=.
Qed.

Lemma frames_confined s frames s' rsps :
  run_frames s frames = Some (s', rsps) →
  Forall confined s.(st_retention).(effects) → Forall confined s'.(st_retention).(effects).
Proof.
  revert s rsps. induction frames as [|[[sender now] frame] frames IH]; intros s rsps; simpl; [by intros [= <- <-]|].
  destruct (handle_frame _ _ _ _ _ _) as [[s1 [rsp st]]|] eqn:Eh; [|done].
  destruct (run_frames s1 frames) as [[s2 rsps2]|] eqn:Er; [|done]. intros [= <- <-] Hs.
  eapply IH; [done|]. by eapply frame_confined.
Qed.

End service.

End ServiceProps.

(** ** The theorems *)

Module Theorems.

Import Proto ProtoProps RegistryProps RetentionProps Service ServiceProps.

Definition op_sender (o : Op) : Z :=
  match o with
  | OpCounter sender _ _ _ | OpGauge sender _ _ _ | OpHist sender _ _ _ | OpEnd sender _ _ _ _ => sender
  | OpStart s => s.(ls_sender)
  end.

Lemma spec_series_other l a sender kind name labels f out key :
  key.1.1.1 ≠ sender →
  (spec_series l a sender kind name labels f out).1.(ab_series) !! key = a.(ab_series) !! key ∧
  (spec_series l a sender kind name labels f out).1.(ab_spans) = a.(ab_spans).
Proof.
  intros Hk. unfold spec_series. destruct (decide _); [done|]. destruct (_ || _); [done|].
  assert (Hne : (sender, kind, name, labels) ≠ key) by (intros <-; done).
  destruct (ab_series a !! (sender, kind, name, labels)); [simpl; by rewrite lookup_insert_ne|].
  destruct (_ <=? _); [done|]. destruct (_ <=? _); [done|]. simpl. by rewrite lookup_insert_ne.
Qed.

Lemma spec_step_other l a o key span :
  key.1.1.1 ≠ op_sender o → span.1 ≠ op_sender o →
  (spec_step l a o).1.(ab_series) !! key = a.(ab_series) !! key ∧ (spec_step l a o).1.(ab_spans) !! span = a.(ab_spans) !! span.
Proof.
  intros Hk Hs. destruct o as [sender name labels v|sender name labels v|sender name labels v|s|sender id end_ns st attrs];
    simpl in Hk, Hs.
  1-3: unfold spec_step; match goal with |- context [spec_series ?l ?a ?s ?k ?n ?lb ?f ?o] =>
    destruct (spec_series_other l a s k n lb f o key Hk) as [-> ->] end; done.
  - unfold spec_step. destruct (negb _); [done|]. destruct (decide _); [done|]. destruct (_ || _); [done|].
    destruct (decide _); [done|]. destruct (_ <=? _); [done|]. simpl. split; [done|].
    apply lookup_insert_ne. intros <-. done.
  - unfold spec_step. destruct (_ <? _); [done|]. destruct (ab_spans a !! (sender, id)); [|done]. simpl. split; [done|].
    apply lookup_delete_ne. intros <-. done.
Qed.

(** C37: The metrics service implements two finite maps.  Whatever frames whatever
    senders send, in whatever order, and whatever the kernel and the state service
    answer, the service never stops: every reply, the registry and the limiter are
    those of an abstract service that keeps one map from (sender, kind, name,
    labels) to values and one map from (sender, span) to open spans, both within
    the configured bounds. *)
Theorem metricsd_refines_map accepts proof_put l has_client has_proof frames :
  0 < l.(retention_max_segments) →
  ∃ s rsps, run_frames accepts proof_put (State_new l has_client has_proof) frames = Some (s, rsps) ∧
    spec_frames l {| ab_series := ∅; ab_spans := ∅ |} {| windows := []; rl_limits := l |} frames =
      (abs s.(st_registry), s.(st_limiter), rsps) ∧
    Z.of_nat (size (abs s.(st_registry)).(ab_series)) ≤ Z.max 0 l.(max_series_total) ∧
    Z.of_nat (size (abs s.(st_registry)).(ab_spans)) ≤ Z.max 0 l.(max_live_spans).
Proof.
  intros Hl. destruct (frames_refine accepts proof_put l (State_new l has_client has_proof) frames) as (s & rsps & Hrun & Hs & Hspec).
  { by apply new_svc_inv. }
  exists s, rsps. split_and!; [done|done| |]; destruct Hs as [[Hd Hd' Hb Hb'] <- _].
  - simpl. by rewrite map_of_size.
  - simpl. by rewrite map_of_size.
Qed.

(** A sender touches its own series and spans only: a frame leaves the values
    of every series and every open span of every other sender as they were, the
    sender being the one the kernel reports. *)
Theorem metricsd_sender_isolated accepts proof_put l has_client has_proof frames s rsps sender now frame :
  0 < l.(retention_max_segments) →
  run_frames accepts proof_put (State_new l has_client has_proof) frames = Some (s, rsps) →
  ∃ s' rsp, handle_frame accepts proof_put s sender now frame = Some (s', rsp) ∧
    ∀ key span, key.1.1.1 ≠ sender → span.1 ≠ sender →
      (abs s'.(st_registry)).(ab_series) !! key = (abs s.(st_registry)).(ab_series) !! key ∧
      (abs s'.(st_registry)).(ab_spans) !! span = (abs s.(st_registry)).(ab_spans) !! span.
Proof.
  intros Hl Hrun.
  destruct (frames_refine accepts proof_put l (State_new l has_client has_proof) frames) as (s0 & rsps0 & Hrun0 & Hs & _).
  { by apply new_svc_inv. }
  rewrite Hrun in Hrun0. injection Hrun0 as <- <-.
  destruct (frame_refines accepts proof_put l s sender now frame Hs) as (s' & rsp & st & Hh & _ & Hspec).
  exists s', (rsp, st). split; [done|]. intros key span Hk Hsp.
  apply (f_equal (fun p => p.1.1)) in Hspec. cbn [fst] in Hspec. rewrite <- Hspec. clear Hspec. unfold spec_frame.
  destruct (decode_request frame) as [req|e]; [|done].
  destruct (req_op_nonce req) as [op nonce]. destruct (req_op sender req) as [o|] eqn:Ho; [|done].
  assert (Hos : op_sender o = sender) by (by destruct req; simplify_eq/=).
  destruct (is_limited _ _ _) as [lim []]; [done|].
  pose proof (spec_step_other l (abs (st_registry s)) o key span) as Hother. rewrite Hos in Hother. specialize (Hother Hk Hsp).
  by destruct (spec_step _ _ _) as [a x].
Qed.

(** Everything the service sends for retention is, to the state service, a put
    or a delete of a key under [/state/observability/metricsd/], for which the
    plain write capability is asked. *)
Theorem metricsd_writes_confined accepts proof_put l has_client has_proof frames s rsps :
  run_frames accepts proof_put (State_new l has_client has_proof) frames = Some (s, rsps) →
  Forall confined s.(st_retention).(effects).
Proof. intros Hrun. eapply frames_confined; [exact Hrun|constructor]. Qed.

(** C38: The retention engine against its specification: fed any history of events
    shorter than its counters, it never panics, every update it returns is the one
    [spec_update] reads off the history (the segment holds the records since the
    last rotation; a window counts exactly the events it spans; a window is
    collected when its time is up), its totals are exact and it keeps no more
    windows than configured. *)
Theorem retention_engine_exact l es :
  retention_on l → vlen es < 2 ^ 64 → vlen es / l.(retention_max_records_per_segment) < 2 ^ 32 →
  ∃ e, run_events (RetentionEngine_new l) es = Some (e, Some <$> spec_updates l es) ∧
    e.(metrics_total) = zsum is_metric es ∧ e.(spans_total) = zsum is_span es ∧
    vlen e.(rollups).(rollup_10s_windows) ≤ l.(retention_ttl_windows) ∧
    vlen e.(rollups).(rollup_60s_windows) ≤ l.(retention_ttl_windows).
Proof.
  intros Hl Hn Hr. destruct (run_events_inv l es Hl Hn Hr) as (e & Hrun & He). exists e.
  destruct He as [_ _ _ _ _ Hm Hs (A & B & C & _ & _ & _ & _ & _ & _ & _ & _ & H10 & H60)].
  pose proof (on_ttl _ Hl). pose proof (on_every _ Hl). pose proof (vlen_nonneg es).
  assert (Hk10 : 0 ≤ vlen es / retention_rollup_every l) by (apply Z.div_pos; lia).
  assert (Hk60 : 0 ≤ vlen es / retention_rollup_every l / 6) by (apply Z.div_pos; lia).
  split_and!; [done|done|done| |].
  - rewrite (ids_length _ _ _ (proj1 (on_ttl _ Hl)) Hk10 H10). lia.
  - rewrite (ids_length _ _ _ (proj1 (on_ttl _ Hl)) Hk60 H60). lia.
Qed.

(** Every request within the limits is read by the server as the client made
    it, and the client reads the status the server answered. *)
Theorem metrics_frames_roundtrip r status :
  small_request r →
  (∃ f, client_frame r = Ok f ∧ decode_request f = Ok r) ∧
  decode_status_response (encode_status_response (req_op_nonce r).1 (req_op_nonce r).2 status) (req_op_nonce r).1 (req_op_nonce r).2 = Ok status.
Proof.
  intros Hr. split; [by apply client_server|]. apply status_roundtrip. by destruct r; simpl in *; destruct_and?.
Qed.

(** A counter increment of 2^63 or more is encoded and sent by the client, and
    refused by the server as malformed. *)
Theorem metrics_large_delta_refused nonce name labels delta :
  in_width 32 nonce → 0 < vlen name ≤ MAX_METRIC_NAME_LEN → vlen labels ≤ MAX_LABELS_LEN → 2 ^ 63 ≤ delta < 2 ^ 64 →
  ∃ f, client_frame (CounterInc nonce name labels delta) = Ok f ∧ decode_request f = Err DecMalformed.
Proof.
  intros Hn Hnm Hl Hd. unfold client_frame, encode_counter_inc.
  destruct (metric_frame OP_COUNTER_INC nonce name labels (as_i64 delta)) as (-> & -> & f & Hf & ->); try done.
  eexists. split; [exact Hf|]. rewrite decode_framed by done.
  assert (Hneg : as_i64 delta = delta - 2 ^ 64) by (unfold as_i64; destruct (Z.leb_spec (2 ^ 63) delta); lia).
  rewrite Hneg. etransitivity; [apply decode_metric_payload; lia|].
  by rewrite (proj2 (Z.ltb_lt (delta - 2 ^ 64) 0)) by lia.
Qed.

(** A metric name may hold a line break, which is written to the log as it is:
    one counter event leaves the lines of two, the first of them chosen by the
    client. *)
Theorem metric_name_forges_record :
  let name := lit "a value=1" ++ [10] ++ lit "metric counter name=b" in
  small_request (CounterInc 1 name [] 7) ∧
  lines [(Metric, metric_counter_record name 7)] =
    lines [(Metric, metric_counter_record (lit "a") 1); (Metric, metric_counter_record (lit "b") 7)].
Proof. split; [by vm_compute|by vm_compute]. Qed.

(** Two windows, or two slots of the ring, never share a key of the state
    store: the decimal number in the key denotes the 64-bit identifier. *)
Theorem metricsd_window_keys_distinct prefix v w :
  in_width 64 v → in_width 64 w → prefix ++ utoa v = prefix ++ utoa w → v = w.
Proof.
  intros Hv Hw H%app_inv_head. rewrite <- (Digits.utoa_value v Hv), <- (Digits.utoa_value w Hw). by rewrite H.
Qed.

(** *** Reject markers *)

Fixpoint run_turns accepts proof_put (lp : Loop) (reqs : list (bytes * Z * option Z)) : option (Loop * list (option Z)) :=
  match reqs with
  | [] => Some (lp, [])
  | (frame, sender, nsec) :: reqs =>
      match turn accepts proof_put lp frame sender nsec with
      | None => None
      | Some (lp, _, marker) =>
          match run_turns accepts proof_put lp reqs with None => None | Some (lp, ms) => Some (lp, marker :: ms) end
      end
  end.

(** The marker of a status still to be printed. *)
Definition unprinted (lp : Loop) (st : Z) : Prop :=
  (st = STATUS_INVALID_ARGS ∧ lp.(reject_invalid_args_emitted) = false) ∨
  (st = STATUS_OVER_LIMIT ∧ lp.(reject_over_limit_emitted) = false) ∨
  (st = STATUS_RATE_LIMITED ∧ lp.(reject_rate_limited_emitted) = false).

Lemma turn_marker accepts proof_put lp frame sender nsec lp' rsp m :
  turn accepts proof_put lp frame sender nsec = Some (lp', rsp, m) →
  (∀ st, unprinted lp' st → unprinted lp st) ∧ (∀ st, m = Some st → unprinted lp st ∧ ¬ unprinted lp' st).
Proof.
  unfold turn. destruct (handle_frame _ _ _ _ _ _) as [[s [r status]]|]; [|done]. intros [= <- _ <-].
  unfold unprinted, STATUS_INVALID_ARGS, STATUS_OVER_LIMIT, STATUS_RATE_LIMITED. simpl.
  destruct (bool_decide_reflect (status = Some 1)) as [H1|H1], (bool_decide_reflect (status = Some 2)) as [H2|H2],
    (bool_decide_reflect (status = Some 3)) as [H3|H3]; try congruence;
    destruct (reject_invalid_args_emitted lp), (reject_over_limit_emitted lp), (reject_rate_limited_emitted lp);
    simpl; naive_solver.
Qed.

Lemma run_turns_markers accepts proof_put lp reqs lp' ms :
  run_turns accepts proof_put lp reqs = Some (lp', ms) →
  NoDup (omap id ms) ∧ (∀ st, st ∈ omap id ms → unprinted lp st).
Proof.
  revert lp ms. induction reqs as [|[[frame sender] nsec] reqs IH]; intros lp ms; simpl.
  { intros [= <- <-]. split; [constructor|]. intros st H. by apply elem_of_nil in H. }
  destruct (turn _ _ _ _ _ _) as [[[lp1 rsp] m]|] eqn:Et; [|done].
  destruct (run_turns _ _ lp1 reqs) as [[lp2 ms2]|] eqn:Er; [|done]. intros [= <- <-].
  destruct (turn_marker _ _ _ _ _ _ _ _ _ Et) as [Hmono Hm]. destruct (IH lp1 ms2 Er) as [Hnd Hun].
  destruct m as [st|]; simpl; [|naive_solver]. destruct (Hm st eq_refl) as [Hu Hnu].
  split; [constructor; naive_solver|]. intros st' [->|H]%elem_of_cons; auto.
Qed.

(** The reject markers: over any run each is printed at most once, and only for
    invalid arguments, exceeded limits and exceeded rates; a request refused with
    NOT_FOUND never prints one. *)
Theorem metricsd_markers_once accepts proof_put lp reqs lp' ms :
  run_turns accepts proof_put lp reqs = Some (lp', ms) →
  NoDup (omap id ms) ∧ STATUS_NOT_FOUND ∉ omap id ms ∧
  ∀ st, st ∈ omap id ms → st = STATUS_INVALID_ARGS ∨ st = STATUS_OVER_LIMIT ∨ st = STATUS_RATE_LIMITED.
Proof.
  intros Hrun. destruct (run_turns_markers _ _ _ _ _ _ Hrun) as [Hnd Hun]. split_and!; [done| |].
  - intros [[H _]|[[H _]|[H _]]]%Hun; discriminate H.
  - intros st [[H _]|[[H _]|[H _]]]%Hun; auto.
Qed.

(** *** A segment too large for a message *)

Definition frame_or_nil (r : Request) : bytes := match client_frame r with Ok f => f | Err _ => [] end.

(** The kernel takes messages of at most 8 KiB. *)
Definition kernel_accepts (_ : list Effect) (frame : bytes) : bool := vlen frame <=? IPC_MAX_FRAME_BYTES.
Definition no_proof (_ : list Effect) (_ _ : bytes) : bool := false.

(** Sixteen spans of sender 7 with long attributes, started and ended. *)
Definition long_spans : list (Z * Z * bytes) :=
  flat_map (fun i =>
    let id := compose_deterministic_id 7 (Z.of_nat i) in
    [(7, 0, frame_or_nil (SpanStart 1 id 1 0 0 (repeat 115 48) (repeat 97 192)));
     (7, 0, frame_or_nil (SpanEnd 2 id 5 0 (repeat 98 192)))]) (seq 1 16).

Definition mentions_rollup (x : Effect) : bool :=
  match x with Sent frame _ => str_contains (lit "/rollup/") frame | ProofPut _ _ _ => false end.

(** The default limits let a segment grow past what one message can carry: the
    put of the sixteenth record is refused, and since a refused segment ends the
    handling of the record, the ten-second roll-up the engine just closed is never
    sent, although all thirty-two requests were answered OK. *)
Theorem oversized_segment_loses_rollup :
  match run_frames kernel_accepts no_proof (State_new RuntimeLimits_default true false) long_spans with
  | None => False
  | Some (s, rsps) =>
      Forall (fun rsp => rsp !! 4%nat = Some STATUS_OK) rsps ∧ length rsps = 32%nat ∧
      rw_id <$> s.(st_retention).(engine).(rollups).(rollup_10s_windows) = [1] ∧
      forallb (fun x => negb (mentions_rollup x)) s.(st_retention).(effects) = true
  end.
Proof. vm_compute. split_and!; repeat constructor. Qed.

(** *** Witnesses *)

Definition demo_frames : list (Z * Z * bytes) :=
  [(7, 0, frame_or_nil (CounterInc 1 (lit "boot") [] 3)); (8, 0, frame_or_nil (CounterInc 2 (lit "boot") [] 4));
   (7, 1, frame_or_nil (CounterInc 3 (lit "boot") [] 2)); (7, 1, [1; 2; 3])].

Lemma metricsd_refines_map_witness :
  ∃ s rsps, run_frames kernel_accepts no_proof (State_new RuntimeLimits_default true false) demo_frames = Some (s, rsps) ∧
    spec_frames RuntimeLimits_default {| ab_series := ∅; ab_spans := ∅ |} {| windows := []; rl_limits := RuntimeLimits_default |}
      demo_frames = (abs s.(st_registry), s.(st_limiter), rsps).
Proof.
  destruct (metricsd_refines_map kernel_accepts no_proof RuntimeLimits_default true false demo_frames) as (s & rsps & H1 & H2 & _);
    [reflexivity|]. exists s, rsps. split; [exact H1|exact H2].
Defined.

Lemma metricsd_sender_isolated_witness :
  ∃ s' rsp, handle_frame kernel_accepts no_proof (State_new RuntimeLimits_default true false) 8 0
              (frame_or_nil (CounterInc 2 (lit "boot") [] 4)) = Some (s', rsp) ∧
    (abs s'.(st_registry)).(ab_series) !! (7, Counter, lit "boot", []) = None.
Proof.
  destruct (metricsd_sender_isolated kernel_accepts no_proof RuntimeLimits_default true false []
              (State_new RuntimeLimits_default true false) [] 8 0 (frame_or_nil (CounterInc 2 (lit "boot") [] 4)))
    as (s' & rsp & H1 & H2); [reflexivity|reflexivity|].
  exists s', rsp. split; [exact H1|].
  destruct (H2 (7, Counter, lit "boot", []) (7, 0)) as [H3 _]; [discriminate|discriminate|]. exact H3.
Defined.

Lemma metricsd_writes_confined_witness :
  match run_frames kernel_accepts no_proof (State_new RuntimeLimits_default true false) demo_frames with
  | Some (s, _) => length s.(st_retention).(effects) = 3%nat ∧ Forall confined s.(st_retention).(effects)
  | None => False
  end.
Proof.
  pose proof (metricsd_writes_confined kernel_accepts no_proof RuntimeLimits_default true false demo_frames) as H.
  assert (Hn : match run_frames kernel_accepts no_proof (State_new RuntimeLimits_default true false) demo_frames with
               | Some (s, _) => length s.(st_retention).(effects) = 3%nat | None => False end) by (vm_compute; reflexivity).
  destruct (run_frames kernel_accepts no_proof (State_new RuntimeLimits_default true false) demo_frames) as [[s rsps]|]; [|exact Hn].
  split; [exact Hn|]. exact (H s rsps eq_refl).
Defined.

Definition Loop_new (s : State) : Loop :=
  {| lp_state := s; reject_invalid_args_emitted := false; reject_over_limit_emitted := false;
     reject_rate_limited_emitted := false; fallback_now := 0 |}.
Definition demo_requests : list (bytes * Z * option Z) :=
  [([1], 7, Some 0); ([2], 7, None); (frame_or_nil (SpanEnd 2 (7 * 2 ^ 32) 5 0 []), 7, Some 1)].

Lemma metricsd_markers_once_witness :
  match run_turns kernel_accepts no_proof (Loop_new (State_new RuntimeLimits_default true false)) demo_requests with
  | Some (_, ms) => ms = [Some STATUS_INVALID_ARGS; None; None] ∧ STATUS_NOT_FOUND ∉ omap id ms
  | None => False
  end.
Proof.
  pose proof (metricsd_markers_once kernel_accepts no_proof (Loop_new (State_new RuntimeLimits_default true false)) demo_requests) as H.
  assert (Hn : match run_turns kernel_accepts no_proof (Loop_new (State_new RuntimeLimits_default true false)) demo_requests with
               | Some (_, ms) => ms = [Some STATUS_INVALID_ARGS; None; None] | None => False end) by (vm_compute; reflexivity).
  destruct (run_turns kernel_accepts no_proof _ demo_requests) as [[lp ms]|]; [|exact Hn].
  split; [exact Hn|]. exact (proj1 (proj2 (H lp ms eq_refl))).
Defined.

Lemma default_retention_on : retention_on RuntimeLimits_default.
Proof. split; simpl; lia || done. Qed.

Definition demo_events : list Event := (Metric, lit "m") :: (Span, lit "s") :: repeat (Metric, lit "x") 14.

Lemma retention_engine_exact_witness :
  ∃ e, run_events (RetentionEngine_new RuntimeLimits_default) demo_events =
         Some (e, Some <$> spec_updates RuntimeLimits_default demo_events) ∧ e.(metrics_total) = 15 ∧ e.(spans_total) = 1.
Proof.
  destruct (retention_engine_exact RuntimeLimits_default demo_events) as (e & H1 & H2 & H3 & _);
    [exact default_retention_on|reflexivity|reflexivity|].
  exists e. split; [exact H1|]. split; [rewrite H2|rewrite H3]; reflexivity.
Defined.

Lemma metricsd_window_keys_distinct_witness : ROLLUP_10S_KEY ++ utoa (2 ^ 64 - 1) ≠ ROLLUP_10S_KEY ++ utoa 7.
Proof.
  intros H. assert (E : 2 ^ 64 - 1 = 7); [|discriminate E].
  apply (metricsd_window_keys_distinct ROLLUP_10S_KEY); [split; [discriminate|reflexivity]|split; [discriminate|reflexivity]|exact H].
Defined.

Lemma metrics_frames_roundtrip_witness :
  ∃ f, client_frame (CounterInc 1 (lit "boot") [] 3) = Ok f ∧ decode_request f = Ok (CounterInc 1 (lit "boot") [] 3).
Proof.
  refine (proj1 (metrics_frames_roundtrip (CounterInc 1 (lit "boot") [] 3) STATUS_OK _)).
  vm_compute. repeat split; discriminate.
Defined.

Lemma metrics_large_delta_refused_witness :
  ∃ f, client_frame (CounterInc 1 (lit "boot") [] (2 ^ 63)) = Ok f ∧ decode_request f = Err DecMalformed.
Proof.
  apply (metrics_large_delta_refused 1 (lit "boot") [] (2 ^ 63)); vm_compute; repeat split; discriminate.
Defined.

End Theorems.
